(* ===== verification/_CoqProject ===== *)
-Q . S2P
Prelude.v
Errors.v
Decimal.v
FixTime.v
TagScan.v
PairTable.v
LengthData.v
Writer.v
Framer.v
VersionProfile.v
FrameHeader.v
Credentials.v
OffsetTable.v
GroupIndex.v
Seqnum.v
MessageStore.v
MemoryStore.v
AdminMessages.v
ReplayFrame.v
SessionState.v
SessionCore.v
FieldIterator.v
Routing.v
Replay.v
SessionClose.v
InboundActive.v
InboundLogon.v
SessionKeeps.v
InboundKeeps.v
Inbound.v
Delivery.v
SendFrame.v
SessionSend.v
SessionLiveness.v
SessionOpen.v
TextSet.v
TableView.v
Validator.v
GroupGrammar.v
MessageCheck.v
BodyBuilder.v
BodyRuns.v
BusinessMessages.v
BusinessSpec.v
Tally.v
WaiterPool.v
AsyncMutex.v
MutexLedger.v
MutexSteps.v
MutexRuns.v
CompIdAuth.v
FileLog.v
FileScan.v
FileFactory.v
FileOps.v
FileKeeps.v
FileRuns.v
FileRetrieve.v
