(* ===== verification/Prelude.v ===== *)
(** * fixpp: a verification development

    fixpp is a FIX engine: it cuts a TCP byte stream into FIX frames, indexes and checks
    their fields, and runs the FIX session protocol over them (Logon, sequence numbers,
    resends, heartbeats, Logout) with a message store behind it.  This library models that
    path, from the bytes of the stream to what the application is handed and back to the
    bytes that are transmitted, and proves what makes it correct.

    ** The parts and the files that model them

    The vocabulary.  [Errors]: core/error.hpp.  [Decimal]: core/decimal.cpp, the FLOAT
    values.  [FixTime]: core/fix_time.cpp, the UTCTimestamp text.  [TagScan], [PairTable],
    [LengthData]: the bounded accumulators, the standard Length+Data pairs, and the carry
    that reads a counted Data value, SOH bytes included (wire/tag_scan.hpp,
    core/length_data_pairs.hpp, wire/dict_hooks.hpp, length_data_carry.hpp,
    length_data_check.hpp).  [VersionProfile]: versions and ApplVerIDs.

    The wire.  [Writer]: wire/writer.cpp, one record for the cursor over the caller's
    buffer and one definition per member function.  [Framer]: wire/framer.cpp, the strict
    and the resync parser, the carry buffer, and [feed].  [OffsetTable] and [GroupIndex]:
    wire/offset_table.cpp, the field index, its hash overlay, and repeating groups.
    [FieldIterator]: the streaming iterator of wire/parser.hpp.

    The dictionary and what is judged by it.  [TextSet]: sorted sets of texts.  [TableView]:
    dict/table_view.hpp, the tables one version of a dictionary answers from, and the builder
    that fills them.  [Validator]: wire/validator.hpp over a view and tables; [GroupGrammar]
    states which field sequences are groups of a dictionary and proves the recursive walk
    against it, [MessageCheck] the same of whole messages.

    What applications write.  [BodyBuilder]: wire/body_builder.cpp, the tree an author
    accumulates through handles, and [commit]; [BodyRuns] the theorems about any sequence of
    its calls.  [BusinessMessages]: session/business_messages.cpp, five typed messages above
    it; [BusinessSpec] their trees, and that the handle-driven code builds them.

    The readers of the session.  [FrameHeader]: the session's header scan, the acceptor's
    identity scan and the FIXT route peek.  [Credentials]: the masking of passwords.
    [Routing]: which dictionary judges a frame.

    The session.  [Seqnum]: the two counters.  [MessageStore]: the contract of a store as a
    type class with its laws, and the store that is nothing but its contract;
    [MemoryStore]: the shipped in-memory store as an instance.  The file store
    (session/file_store.cpp) is [FileLog], its records and system calls, [FileScan], the
    opening of a log, and [FileOps], the operations with the job each hands to the file
    executor; [FileKeeps] proves what each keeps, [FileRuns] and [FileRetrieve] hold the
    theorems about whole histories and walks, [FileFactory] the factory that names and opens
    the log.  [CompIdAuth]: which CompIDs a certified peer may use.  [AdminMessages]: the
    administrative messages, built and (the Logon) interpreted.  [ReplayFrame] and
    [Replay]: the answer to a ResendRequest.  [SessionState]: the members of Session as
    one record cut in parts, the world and the monad its coroutines run in.
    [SessionCore]: the operations every handler uses.  [InboundActive] and [InboundLogon]:
    [on_inbound_frame] and every arm below it.  [SessionClose]: [close].
    [SessionKeeps] and [InboundKeeps] carry a relation through all of them; [Inbound] and
    [Delivery] hold the theorems about whole frames.  [SendFrame]: the frame an application
    message is sent as.  [SessionSend]: [send], with its deferred path.  [SessionLiveness]:
    the heartbeat loop.  [SessionOpen]: [open] and the initiator's Logon.

    ** How the code is modelled

    A definition keeps the name of the function it models, except where a long coroutine
    is cut in steps, which are named after what they do.  [std::expected] is [result];
    bytes are integers in lists; machine integers are [Z] with their wrap-around written out
    ([u8] .. [u64], [i32]).  A loop whose recursion is not structural has fuel: the length
    of its input, or the bound the code gives it, so that it never runs out; the theorems
    are about the result the loop returns, and say so where that needs proof
    ([GroupIndex.extent_walk_total]).  The heartbeat loop goes round as long as the session
    is Active; its model takes a number of rounds, and the theorem is that some number ends
    it.

    The validator's group walk recurses to the code's depth clamp of 16, and its loops are
    bounded by the entries of the view; [GroupGrammar.groups_exact] and
    [MessageCheck.validate_answers] say that it ends.  An author of a body is an inductive
    relation, [BodyRuns.reachable]: the builders that any calls lead to, with the handles
    they issued, of which any, however old, may be used next.  The arena behind a builder
    answers each allocation; a handle that led outside the tree would make the model answer
    [None], and none does ([BodyRuns.body_handles_safe]).

    The file store is given, for each operation, what the system answers to every call it
    makes ([FileOps.file_env], [FileScan.open_env]): how many bytes a [pwrite] or a [pread]
    moves before it is interrupted or fails, whether a flush, a truncation, a rename, a lock
    succeeds.  A disk that fails anywhere, or in part, is thus one of the runs.  A process
    that dies between two system calls is the next open on the log those calls left, which
    is what [FileRuns.file_store_recovers] opens; the device's reordering of unflushed writes
    when the power fails is not modelled.  The scan of a log has as fuel the length of the
    file, more than its records, each of sixteen bytes at least.

    A coroutine of the session is a function [Session -> Session * outcome]: it returns, or
    an exception leaves it.  What the code meets outside - whether a cancellation is pending
    at an await, whether a lock or the write gate is granted, what a store call meets,
    whether the transport took the frame, what a callback answers, the clocks, the memory
    of a parse, and the work the strand does for others while this coroutine is suspended -
    is answered by a [world], one question after another.  A theorem that quantifies over
    the world therefore holds for every such interleaving.  Effects seen from outside (a
    frame transmitted, a frame stored, a callback) are the session's trace.

    A session takes as arguments what other components answer it: the dictionaries' lookups
    and the verdict of the validator ([TableView] and [Validator] model both on their own),
    the CompID policy ([CompIdAuth]), the store's [reset_to] and flush, and what [open]
    resolves from the engine (a record of answers, [SessionOpen.open_environment]).

    ** What is proved

    Of a session: what the application is handed ([Delivery.delivered_only_through_gates],
    [Delivery.in_turn_delivered]); what makes it Active
    ([Inbound.active_only_by_admitted_logon]); a frame is stored before it is transmitted
    ([SessionCore.durable_before_transmit]); a resend accounts for exactly the numbers asked
    ([Replay.replay_answers_range]); a send transmits its payload once or reports why not
    ([SessionSend.send_transmits_once], [SessionSend.send_exact]), as a frame that reads back
    as the fields sent ([SendFrame.send_frame_exact], [SessionOpen.opened_sends_read_back]);
    an initiator logs on or is Disconnected ([SessionOpen.initiator_logon_or_disconnected]);
    a silent peer is dropped ([SessionLiveness.silent_peer_dropped]); the lifecycle callbacks,
    the accounting of garbled regions, the counters.

    Of the stores: the in-memory store refines the contract's store
    ([MemoryStore.memory_store_refines_log]) and its walks show what was held when they
    began.  The file store does call for call what it reports, whatever the disk does
    ([FileRuns.file_call_exact]), gives back after any history everything it acknowledged
    ([FileRuns.file_store_recovers]), opens any bytes without getting stuck
    ([FileScan.opened_log_well_formed]), and walks like the in-memory one
    ([FileRetrieve.file_retrieve_exact]).  Of who may log on: [CompIdAuth.authorize_exact].

    Of the wire: the framer is independent of how the stream is chunked, exact, and recovers
    from garbage; the writer commits exactly the frame asked for, and the framer reads it
    back; the field index, the session's scanners and the streaming iterator all see the
    same fields ([OffsetTable.build_exact], [FieldIterator.iterator_exact],
    [FrameHeader.scan_frame_header_spec]); groups are cut exactly and safely; a frame within
    the inbound limit always fits the session's parse buffer.

    Of the dictionary: whatever a builder declared, and whichever allocations failed, the
    tables answer what was declared ([TableView.enum_valid_exact],
    [TableView.table_lookups_exact]); the validator accepts exactly the messages of the
    dictionary ([MessageCheck.validate_exact]), groups at every depth included
    ([GroupGrammar.groups_exact]).

    Of what applications write: whatever an author did with a body builder, [commit] writes
    exactly the tree or names what is wrong ([BodyRuns.body_commit_exact]), and what it
    writes reads back ([BodyRuns.body_reads_back]); the typed builders emit exactly the
    message of their arguments ([BusinessSpec.business_messages_exact]).

    Of the texts: decimals, timestamps, administrative messages and resend answers round
    trip, and masking leaves no password.

    ** Not modelled

    The Windows branch of the file store, its executor hop and its fault seams; the
    reconnection attempts; the dictionary's loaders and its packed form (a third-party XML
    library), overlays, and the typed views; the engine, the transports, TLS and the clocks
    (I/O over Asio and OpenSSL); the lock-free queues and executors, whose grants are the
    world's answers; configuration, logging, telemetry, the C API, the code generator and the
    benchmarks.  The seam hook a test scripts into [close], the debug generation tokens of
    views, and the trace context are left out of the modelled parts. *)
From stdpp Require Export prelude.
From Stdlib Require Export ZArith Lia.

#[global] Open Scope Z_scope.

(** ** Results: [std::expected<T, E>] *)

Inductive result (E A : Type) : Type :=
  | Ok (a : A)
  | Err (e : E).
Arguments Ok {E A} a.
Arguments Err {E A} e.

Declare Scope fix_scope.
Delimit Scope fix_scope with fixpp.

(** [auto x = f(...); if (!x) return std::unexpected{x.error()}; ...] *)
Definition rbind {E A B} (m : result E A) (k : A -> result E B) : result E B :=
  match m with Ok a => k a | Err e => Err e end.

Notation "'let?' x ':=' m 'in' k" := (rbind m (fun x => k))
  (at level 10, x name, m at level 100, k at level 200) : fix_scope.
Notation "'guard' c 'else' e 'in' k" := (if c then k else Err e)
  (at level 10, c at level 100, e at level 100, k at level 200) : fix_scope.
#[global] Open Scope fix_scope.

Definition is_ok {E A} (r : result E A) : bool :=
  match r with Ok _ => true | Err _ => false end.

#[global] Instance result_eq_dec {E A} `{EqDecision E, EqDecision A} : EqDecision (result E A).
Proof. solve_decision. Defined.

(** ** Machine words

    A w-bit unsigned value is a [Z] in [0, 2^w); the operations that can wrap in
    the code are written with the wrap. *)

Definition wrap (w z : Z) : Z := z mod 2 ^ w.
Definition swrap (w z : Z) : Z := (z + 2 ^ (w - 1)) mod 2 ^ w - 2 ^ (w - 1).

Abbreviation u8 := (wrap 8).
Abbreviation u16 := (wrap 16).
Abbreviation u32 := (wrap 32).
Abbreviation u64 := (wrap 64).
Abbreviation i8 := (swrap 8).
Abbreviation i32 := (swrap 32).
Abbreviation i64 := (swrap 64).

Definition UINT16_MAX : Z := 65535.
Definition UINT32_MAX : Z := 4294967295.
Definition UINT64_MAX : Z := 18446744073709551615.
Definition INT64_MAX : Z := 9223372036854775807.
Definition INT64_MIN : Z := -9223372036854775808.

Lemma wrap_small w z : 0 <= z < 2 ^ w -> wrap w z = z.
Proof. apply Z.mod_small. Qed.

Lemma wrap_range w z : 0 <= w -> 0 <= wrap w z < 2 ^ w.
Proof. intros. apply Z.mod_pos_bound. lia. Qed.

Lemma swrap_small w z : 0 < w -> - 2 ^ (w - 1) <= z < 2 ^ (w - 1) -> swrap w z = z.
Proof.
  intros Hw Hz. unfold swrap. rewrite Z.mod_small; [lia|].
  replace (2 ^ w) with (2 * 2 ^ (w - 1)); [lia|].
  rewrite <- Z.pow_succ_r by lia. f_equal; lia.
Qed.

(** ** Byte buffers

    A byte is a [Z]; [is_byte] is the range of [unsigned char].  Sizes and offsets
    ([std::size_t]) are [Z]. *)

Abbreviation bytes := (list Z).
Definition is_byte (b : Z) : Prop := 0 <= b < 256.
Abbreviation wf_bytes := (Forall is_byte).

Definition zlen {A} (l : list A) : Z := Z.of_nat (length l).
(** [l[i]]; the code reads in range only, and every lemma below assumes it does. *)
Definition zget (l : bytes) (i : Z) : Z := nth (Z.to_nat i) l 0.
Definition zdrop {A} (i : Z) (l : list A) : list A := drop (Z.to_nat i) l.
Definition ztake {A} (i : Z) (l : list A) : list A := take (Z.to_nat i) l.
(** [std::span::subspan(off, n)] *)
Definition zsub {A} (l : list A) (off n : Z) : list A := ztake n (zdrop off l).
(** [std::memcpy(l + pos, d, d.size())] *)
Definition zwrite (l : bytes) (pos : Z) (d : bytes) : bytes :=
  ztake pos l ++ d ++ zdrop (pos + zlen d) l.

Definition SOH : Z := 1.
Definition EQ : Z := 61.

Lemma zlen_eq {A} (l : list A) : zlen l = Z.of_nat (length l).
Proof. done. Qed.

Lemma zlen_nonneg {A} (l : list A) : 0 <= zlen l.
Proof. unfold zlen; lia. Qed.

Lemma zlen_nil {A} : zlen (@nil A) = 0.
Proof. done. Qed.

Lemma zlen_nilZ : zlen (@nil Z) = 0.
Proof. done. Qed.

Lemma zlen_cons {A} (x : A) l : zlen (x :: l) = 1 + zlen l.
Proof. unfold zlen; cbn [length]; lia. Qed.

Lemma zlen_app {A} (l1 l2 : list A) : zlen (l1 ++ l2) = zlen l1 + zlen l2.
Proof. unfold zlen; rewrite length_app; lia. Qed.

Lemma zlen_drop {A} i (l : list A) : 0 <= i <= zlen l -> zlen (zdrop i l) = zlen l - i.
Proof. unfold zlen, zdrop; rewrite length_drop; lia. Qed.

Lemma zlen_take {A} i (l : list A) : 0 <= i <= zlen l -> zlen (ztake i l) = i.
Proof. unfold zlen, ztake; rewrite length_take; lia. Qed.

Lemma zlen_sub {A} (l : list A) off n :
  0 <= off -> 0 <= n -> off + n <= zlen l -> zlen (zsub l off n) = n.
Proof. intros. unfold zsub. rewrite zlen_take; [done|]. rewrite zlen_drop; lia. Qed.

Lemma zlen_rev {A} (l : list A) : zlen (rev l) = zlen l.
Proof. unfold zlen. by rewrite length_rev. Qed.

Lemma zlen_replicate {A} n (x : A) : zlen (replicate n x) = Z.of_nat n.
Proof. unfold zlen. by rewrite length_replicate. Qed.

Lemma zlen_insert {A} i (x : A) l : zlen (<[i := x]> l) = zlen l.
Proof. unfold zlen. by rewrite length_insert. Qed.

Lemma zlen_0_nil {A} (l : list A) : zlen l = 0 -> l = [].
Proof. destruct l; [done|]. rewrite zlen_cons. pose proof (zlen_nonneg l). lia. Qed.

Lemma zlen_pos_cons {A} (l : list A) : 0 < zlen l -> exists x l', l = x :: l'.
Proof. destruct l; [rewrite (zlen_nil (A:=A)); lia|eauto]. Qed.

Lemma zlen_write l pos d :
  0 <= pos -> pos + zlen d <= zlen l -> zlen (zwrite l pos d) = zlen l.
Proof.
  intros. pose proof (zlen_nonneg d). unfold zwrite.
  rewrite !zlen_app, zlen_take, zlen_drop by lia. lia.
Qed.

Lemma zget_app_l l1 l2 i : 0 <= i < zlen l1 -> zget (l1 ++ l2) i = zget l1 i.
Proof. unfold zlen, zget; intros. apply app_nth1. lia. Qed.

Lemma zget_app_r l1 l2 i : zlen l1 <= i -> zget (l1 ++ l2) i = zget l2 (i - zlen l1).
Proof.
  unfold zlen, zget; intros. rewrite app_nth2 by lia. f_equal. lia.
Qed.

Lemma zget_drop l i j : 0 <= i -> 0 <= j -> zget (zdrop i l) j = zget l (i + j).
Proof.
  intros. unfold zget, zdrop. rewrite nth_skipn. f_equal. lia.
Qed.

Lemma zget_take l i j : 0 <= j < i -> zget (ztake i l) j = zget l j.
Proof.
  intros. unfold zget, ztake. rewrite nth_firstn.
  case (Nat.ltb_spec (Z.to_nat j) (Z.to_nat i)); [done|lia].
Qed.

Lemma zget_0 x l : zget (x :: l) 0 = x.
Proof. done. Qed.

Lemma zget_S x l i : 0 < i -> zget (x :: l) i = zget l (i - 1).
Proof.
  intros. unfold zget. replace (Z.to_nat i) with (S (Z.to_nat (i - 1))) by lia. done.
Qed.

Lemma zdrop_0 {A} (l : list A) : zdrop 0 l = l.
Proof. done. Qed.

Lemma zdrop_app {A} (l1 l2 : list A) : zdrop (zlen l1) (l1 ++ l2) = l2.
Proof. unfold zdrop, zlen. rewrite Nat2Z.id. apply drop_app_length. Qed.

Lemma zdrop_app_l {A} (l1 l2 : list A) i :
  0 <= i <= zlen l1 -> zdrop i (l1 ++ l2) = zdrop i l1 ++ l2.
Proof. unfold zdrop, zlen. intros. apply drop_app_le. lia. Qed.

Lemma zdrop_app_r {A} (l1 l2 : list A) i :
  zlen l1 <= i -> zdrop i (l1 ++ l2) = zdrop (i - zlen l1) l2.
Proof.
  unfold zdrop, zlen. intros. rewrite drop_app_ge by lia. f_equal. lia.
Qed.

Lemma ztake_app {A} (l1 l2 : list A) : ztake (zlen l1) (l1 ++ l2) = l1.
Proof. unfold ztake, zlen. rewrite Nat2Z.id. apply take_app_length. Qed.

Lemma ztake_app_l {A} (l1 l2 : list A) i :
  0 <= i <= zlen l1 -> ztake i (l1 ++ l2) = ztake i l1.
Proof. unfold ztake, zlen. intros. apply take_app_le. lia. Qed.

Lemma zdrop_drop {A} (l : list A) i j :
  0 <= i -> 0 <= j -> zdrop i (zdrop j l) = zdrop (j + i) l.
Proof. unfold zdrop. intros. rewrite drop_drop. f_equal. lia. Qed.

Lemma ztake_drop {A} i (l : list A) : ztake i l ++ zdrop i l = l.
Proof. apply take_drop. Qed.

Lemma zdrop_ge {A} i (l : list A) : zlen l <= i -> zdrop i l = [].
Proof. unfold zlen, zdrop. intros. apply drop_ge. lia. Qed.

Lemma ztake_ge {A} i (l : list A) : zlen l <= i -> ztake i l = l.
Proof. unfold zlen, ztake. intros. apply take_ge. lia. Qed.

Lemma zdrop_cons l i :
  0 <= i < zlen l -> zdrop i l = zget l i :: zdrop (i + 1) l.
Proof.
  unfold zlen, zdrop, zget. intros.
  replace (Z.to_nat (i + 1)) with (S (Z.to_nat i)) by lia.
  apply drop_S.
  destruct (nth_lookup_or_length l (Z.to_nat i) 0); [done|lia].
Qed.

Lemma zget_byte l i : wf_bytes l -> is_byte (zget l i).
Proof.
  intros H. unfold zget.
  destruct (nth_in_or_default (Z.to_nat i) l 0) as [Hin | ->].
  - apply Forall_forall with (x := nth (Z.to_nat i) l 0) in H; [done|].
    by apply list_elem_of_In.
  - unfold is_byte; lia.
Qed.

Lemma zwrite_0 l d : zwrite l 0 d = d ++ zdrop (zlen d) l.
Proof. done. Qed.

Lemma last_zdrop {A} i (l : list A) : 0 <= i < zlen l -> last (zdrop i l) = last l.
Proof.
  intros Hi. rewrite <- (ztake_drop i l) at 2. rewrite last_app.
  destruct (last (zdrop i l)) eqn:E; [done|]. apply last_None in E.
  apply (f_equal zlen) in E. rewrite zlen_drop, (zlen_nil (A:=A)) in E by lia. lia.
Qed.

Lemma zget_split l i :
  0 <= i < zlen l -> l = ztake i l ++ zget l i :: zdrop (i + 1) l.
Proof. intros. rewrite <- zdrop_cons by done. by rewrite ztake_drop. Qed.

(** Reading back a write, reading beside it, and reading what an append left in place. *)
Lemma zsub_zwrite_same l pos d :
  0 <= pos -> pos + zlen d <= zlen l -> zsub (zwrite l pos d) pos (zlen d) = d.
Proof.
  intros. pose proof (zlen_nonneg d). unfold zsub, zwrite.
  rewrite zdrop_app_r by (rewrite zlen_take; lia). rewrite zlen_take, Z.sub_diag, zdrop_0 by lia.
  apply ztake_app.
Qed.

Lemma zsub_app_l {A} (l1 l2 : list A) off n :
  0 <= off -> 0 <= n -> off + n <= zlen l1 -> zsub (l1 ++ l2) off n = zsub l1 off n.
Proof.
  intros. unfold zsub. rewrite zdrop_app_l by lia.
  rewrite ztake_app_l; [done|]. rewrite zlen_drop; lia.
Qed.

Lemma zsub_app_r {A} (l1 l2 : list A) off n :
  zlen l1 <= off -> zsub (l1 ++ l2) off n = zsub l2 (off - zlen l1) n.
Proof. intros. unfold zsub. by rewrite zdrop_app_r. Qed.

Lemma zsub_take {A} (l : list A) i off n :
  0 <= off -> 0 <= n -> off + n <= i -> i <= zlen l -> zsub (ztake i l) off n = zsub l off n.
Proof.
  intros. rewrite <- (ztake_drop i l) at 2. rewrite zsub_app_l; [done..|].
  rewrite zlen_take; lia.
Qed.

Lemma zsub_drop {A} (l : list A) i off n :
  0 <= i -> 0 <= off -> zsub (zdrop i l) off n = zsub l (i + off) n.
Proof. intros. unfold zsub. by rewrite zdrop_drop. Qed.

Lemma zsub_whole {A} (l : list A) : zsub l 0 (zlen l) = l.
Proof. unfold zsub. rewrite zdrop_0. by apply ztake_ge. Qed.

Lemma zsub_zwrite_other l pos d off n :
  0 <= pos -> pos + zlen d <= zlen l -> 0 <= off -> 0 <= n -> off + n <= zlen l ->
  off + n <= pos \/ pos + zlen d <= off -> zsub (zwrite l pos d) off n = zsub l off n.
Proof.
  intros ? ? ? ? ? [Hb|Ha]; pose proof (zlen_nonneg d); unfold zwrite.
  - rewrite zsub_app_l by (rewrite ?zlen_take; lia). apply zsub_take; lia.
  - rewrite app_assoc, zsub_app_r by (rewrite zlen_app, zlen_take; lia).
    rewrite zlen_app, zlen_take, zsub_drop by lia. f_equal; lia.
Qed.

Lemma wf_bytes_drop l i : wf_bytes l -> wf_bytes (zdrop i l).
Proof. apply Forall_drop. Qed.

Lemma wf_bytes_take l i : wf_bytes l -> wf_bytes (ztake i l).
Proof. apply Forall_take. Qed.

(** ** ASCII decimal *)

Definition is_digit (c : Z) : bool := (48 <=? c) && (c <=? 57).
Abbreviation digits := (Forall (fun c => is_digit c = true)).

(** The value of a run of ASCII digits read left to right, from [acc]. *)
Definition dec_from (acc : Z) (ds : bytes) : Z :=
  fold_left (fun a c => a * 10 + (c - 48)) ds acc.
Definition dec_value (ds : bytes) : Z := dec_from 0 ds.

(** The [w] low decimal digits of [v], most significant first. *)
Fixpoint fixed_digits (w : nat) (v : Z) : bytes :=
  match w with
  | O => []
  | S w => fixed_digits w (v / 10) ++ [48 + v mod 10]
  end.

Lemma is_digit_spec c : is_digit c = true <-> 48 <= c <= 57.
Proof. unfold is_digit. lia. Qed.

Lemma dec_from_app acc a b : dec_from acc (a ++ b) = dec_from (dec_from acc a) b.
Proof. apply fold_left_app. Qed.

Lemma dec_from_cons acc c ds : dec_from acc (c :: ds) = dec_from (acc * 10 + (c - 48)) ds.
Proof. done. Qed.

Lemma dec_from_value acc ds : dec_from acc ds = acc * 10 ^ zlen ds + dec_value ds.
Proof.
  unfold dec_value. revert acc. induction ds as [|c ds IH]; intros acc.
  - rewrite zlen_nilZ; cbn. lia.
  - rewrite !dec_from_cons, (IH (acc * 10 + _)), (IH (0 * 10 + _)), zlen_cons.
    rewrite Z.pow_add_r by (pose proof (zlen_nonneg ds); lia). ring.
Qed.

Lemma dec_value_app a b : dec_value (a ++ b) = dec_value a * 10 ^ zlen b + dec_value b.
Proof. unfold dec_value at 1. rewrite dec_from_app. apply dec_from_value. Qed.

Lemma dec_value_snoc a c : dec_value (a ++ [c]) = dec_value a * 10 + (c - 48).
Proof. rewrite dec_value_app. change (zlen [c]) with 1. cbn. lia. Qed.

Lemma dec_from_bounds acc ds : 0 <= acc -> digits ds ->
  acc * 10 ^ zlen ds <= dec_from acc ds < (acc + 1) * 10 ^ zlen ds.
Proof.
  intros Ha Hd. revert acc Ha. induction Hd as [|c ds Hc _ IH]; intros acc Ha.
  - rewrite zlen_nilZ; cbn. lia.
  - apply is_digit_spec in Hc. rewrite dec_from_cons, zlen_cons.
    rewrite Z.pow_add_r by (pose proof (zlen_nonneg ds); lia).
    change (10 ^ 1) with 10. specialize (IH (acc * 10 + (c - 48)) ltac:(lia)).
    assert (0 < 10 ^ zlen ds) by (apply Z.pow_pos_nonneg; [lia|apply zlen_nonneg]). nia.
Qed.

Lemma dec_value_bounds ds : digits ds -> 0 <= dec_value ds < 10 ^ zlen ds.
Proof. intros H. pose proof (dec_from_bounds 0 ds ltac:(lia) H). unfold dec_value. lia. Qed.

Lemma dec_value_zeros n : dec_value (replicate n 48) = 0.
Proof. induction n; [done|]. unfold dec_value in *. cbn. done. Qed.

Lemma fixed_digits_length w v : zlen (fixed_digits w v) = Z.of_nat w.
Proof. revert v; induction w; intros v; [done|]. cbn [fixed_digits]. rewrite zlen_app, IHw, zlen_cons, zlen_nilZ. lia. Qed.

Lemma fixed_digits_digits w v : digits (fixed_digits w v).
Proof.
  revert v; induction w; intros v; cbn; [done|].
  apply Forall_app; split; [done|]. repeat constructor. apply is_digit_spec.
  pose proof (Z.mod_pos_bound v 10). lia.
Qed.

Lemma fixed_digits_value w v : 0 <= v -> dec_value (fixed_digits w v) = v mod 10 ^ Z.of_nat w.
Proof.
  revert v; induction w; intros v Hv.
  - cbn. by rewrite Z.mod_1_r.
  - cbn [fixed_digits]. rewrite dec_value_snoc, IHw by (apply Z.div_pos; lia).
    replace (10 ^ Z.of_nat (S w)) with (10 * 10 ^ Z.of_nat w)
      by (rewrite Nat2Z.inj_succ, Z.pow_succ_r; lia).
    rewrite Z.rem_mul_r by lia. lia.
Qed.

Lemma fixed_digits_value_small w v :
  0 <= v < 10 ^ Z.of_nat w -> dec_value (fixed_digits w v) = v.
Proof. intros. rewrite fixed_digits_value by lia. by apply Z.mod_small. Qed.

Lemma fixed_digits_of_value ds : digits ds -> fixed_digits (length ds) (dec_value ds) = ds.
Proof.
  induction ds as [|c ds IH] using rev_ind; intros H; [done|].
  apply Forall_app in H as [Hd Hc]. inversion Hc as [|? ? Hc' _]; subst.
  apply is_digit_spec in Hc'. rewrite length_app, Nat.add_comm. cbn [length Nat.add fixed_digits].
  rewrite dec_value_snoc. replace ((dec_value ds * 10 + (c - 48)) / 10) with (dec_value ds).
  - rewrite IH by done. do 2 f_equal.
    rewrite (Z.add_comm (_ * 10)), Z.mod_add, Z.mod_small; lia.
  - rewrite Z.div_add_l, Z.div_small; lia.
Qed.

Lemma digits_wf ds : digits ds -> wf_bytes ds.
Proof.
  intros H. eapply Forall_impl; [exact H|]. intros c Hc%is_digit_spec. unfold is_byte. lia.
Qed.

(** ** Automation *)

(** [string_view] order: bytes as unsigned characters. *)
Fixpoint bytes_lt (a b : bytes) : bool :=
  match a, b with
  | _, [] => false
  | [], _ :: _ => true
  | x :: a, y :: b => (x <? y) || ((x =? y) && bytes_lt a b)
  end.

Lemma bytes_lt_irrefl a : bytes_lt a a = false.
Proof. induction a as [|x a IH]; [done|]. cbn. rewrite IH. lia. Qed.

Lemma bytes_lt_trans a : forall b c, bytes_lt a b = true -> bytes_lt b c = true -> bytes_lt a c = true.
Proof.
  induction a as [|x a IH]; intros [|y b] [|z c]; cbn; try done.
  destruct (bytes_lt a b) eqn:E1, (bytes_lt b c) eqn:E2; rewrite ?(IH b c E1 E2); lia.
Qed.

Lemma bytes_lt_total a : forall b, a <> b -> bytes_lt a b = false -> bytes_lt b a = true.
Proof.
  induction a as [|x a IH]; intros [|y b] Hn; cbn; try done.
  intros H. destruct (decide (x = y)) as [->|]; [|lia].
  rewrite Z.ltb_irrefl, Z.eqb_refl in H |- *. cbn in H |- *. apply IH; [congruence|exact H].
Qed.

Lemma bytes_lt_asym a b : bytes_lt a b = true -> bytes_lt b a = false.
Proof.
  intros H. destruct (bytes_lt b a) eqn:E; [|done].
  pose proof (bytes_lt_trans a b a H E) as Ha. by rewrite bytes_lt_irrefl in Ha.
Qed.

Create HintDb fixpp.
#[export] Hint Resolve zlen_nonneg fixed_digits_digits digits_wf zget_byte : fixpp.
#[export] Hint Resolve wf_bytes_drop wf_bytes_take : fixpp.
#[export] Hint Rewrite zlen_nilZ @zlen_cons @zlen_app @zlen_rev @zlen_replicate
  fixed_digits_length : zlen.

(** Case on every test of the goal or of a hypothesis, and clear the impossible
    branches by arithmetic. *)
Ltac case_tests :=
  repeat match goal with
  | |- context [if ?c then _ else _] => destruct c eqn:?
  | H : context [if ?c then _ else _] |- _ => destruct c eqn:?
  end; try discriminate; try (exfalso; lia).

(** Evaluate the sums and differences of literals in hypotheses and goal. *)
Ltac is_lit z := lazymatch z with Z0 => idtac | Zpos ?p => ground p | Zneg ?p => ground p end
with ground p := lazymatch p with xH => idtac | xI ?q => ground q | xO ?q => ground q end.
Ltac zconst_step f a b :=
  is_lit a; is_lit b; let c := eval vm_compute in (f a b) in change (f a b) with c in *.
Ltac zconst :=
  repeat match goal with
  | |- context [Z.add ?a ?b] => zconst_step Z.add a b
  | |- context [Z.sub ?a ?b] => zconst_step Z.sub a b
  | _ : context [Z.add ?a ?b] |- _ => zconst_step Z.add a b
  | _ : context [Z.sub ?a ?b] |- _ => zconst_step Z.sub a b
  end.

(** Linear arithmetic with division and remainder by constants. *)
Ltac dlia := zify; Z.to_euclidean_division_equations; lia.

(** Facts [0 <= zlen l] for the lists of the goal and hypotheses. *)
Ltac pose_zlen :=
  repeat match goal with
  | |- context [zlen ?l] =>
      lazymatch goal with H : 0 <= zlen l |- _ => fail | _ => pose proof (zlen_nonneg l) end
  | H : context [zlen ?l] |- _ =>
      lazymatch goal with H : 0 <= zlen l |- _ => fail | _ => pose proof (zlen_nonneg l) end
  end.
Ltac zlen_lia := autorewrite with zlen in *; pose_zlen; lia.
