(* ===== verification/Errors.v ===== *)
(** The engine-wide error enumeration (include/fixpp/core/error.hpp): the
    enumerators with their frozen values, and the diagnostic text.  Every fallible
    operation of the library returns [expected_t<T>], here [expected T]. *)
From S2P Require Import Prelude.
From stdpp Require Import strings.

Local Open Scope Z_scope.

Inductive error : Set :=
  | out_of_memory
  | decimal_invalid_input
  | decimal_overflow
  | decimal_precision_loss
  | decimal_buffer_too_small
  | dict_xml_parse_failed
  | dict_unknown_version
  | dict_xml_oom
  | dict_reify_msg_type_mismatch
  | dict_reify_unknown_msg_type
  | dict_reify_oom
  | dict_unresolved_application_version
  | dict_unknown_appl_ver_id
  | dict_no_dictionary_for_application_version
  | dict_reify_wire_body_not_ready
  | wire_frame_too_large
  | wire_invalid_body_length
  | wire_checksum_mismatch
  | wire_framing_resync
  | wire_invalid_field_format
  | wire_offset_table_full
  | wire_group_too_large
  | wire_tag_out_of_range
  | wire_required_field_missing
  | wire_header_out_of_order
  | wire_field_value_out_of_range
  | wire_field_value_truncated
  | wire_unexpected_tag
  | sync_lock_aborted
  | sync_lock_alloc_failed
  | sync_lock_outside_session
  | sync_lock_drained
  | executor_already_stopped
  | executor_not_serialised
  | clock_sleeps_cancelled
  | strand_dispatch_failed_oom
  | session_already_open
  | session_already_closed
  | invalid_session_config
  | clock_not_set
  | dispatch_aborted
  | store_io_failure
  | store_seqnum_gap
  | store_seqnum_out_of_order
  | store_capacity_exhausted
  | store_seqnum_overflow
  | store_factory_failed
  | store_visitor_aborted
  | store_seqnum_invalid
  | store_invalid_range
  | store_cancelled
  | session_invalid_logon
  | session_compid_mismatch
  | session_begin_string_unsupported
  | session_seqnum_too_low
  | session_sending_time_accuracy
  | session_msg_type_invalid_for_state
  | session_logout_timeout
  | session_test_request_unanswered
  | session_admin_not_supported
  | session_invalid_config
  | session_invalid_state_for_send
  | tls_cert_load_failed
  | tls_cert_parse_failed
  | tls_cipher_not_allowed
  | tls_invalid_security_profile
  | tls_sign_callback_unavailable
  | tls_pin_empty_at_open
  | tls_pin_not_found
  | tls_pin_already_present
  | tls_pinset_capacity_exhausted
  | tls_pinset_alloc_failed
  | tls_handshake_failed
  | tls_rsa_key_too_large
  | tls_cert_der_too_large
  | tls_san_entries_exceeded
  | tls_pin_mismatch
  | tls_load_cancelled
  | transport_resolve_failed
  | transport_connect_refused
  | transport_connect_timeout
  | transport_already_connected
  | transport_already_closed
  | transport_read_in_progress
  | transport_write_in_progress
  | transport_reconnect_limit_exceeded
  | transport_read_eof
  | transport_read_truncated
  | transport_read_error
  | transport_write_short
  | transport_write_error
  | transport_handshake_failed
  | transport_handshake_timeout
  | transport_factory_failed
  | transport_psk_unsupported
  | transport_connect_cancelled
  | transport_read_cancelled
  | transport_write_cancelled
  | transport_handshake_cancelled
  | transport_accept_cancelled
  | session_seqnum_reset_mismatch
  | session_compid_unauthorized
  | session_testreqid_mismatch
  | session_invalid_argument
  | session_seqnum_too_high
  | session_unknown_acceptor_session
  | log_queue_overflow
  | log_sink_open_failed
  | log_sink_write_failed
  | log_sink_flush_failed
  | log_drain_timeout
  | otel_export_failed
  | otel_provider_init_failed
  | app_do_not_send
  | app_callback_threw
  | app_payload_malformed
  | wire_invalid_tag_number
  | wire_length_data_mismatch.

(** The enumerator's value, [static_cast<int>(e)]. *)
Definition error_value (e : error) : Z :=
  match e with
  | out_of_memory => 1
  | decimal_invalid_input => 10
  | decimal_overflow => 11
  | decimal_precision_loss => 12
  | decimal_buffer_too_small => 13
  | dict_xml_parse_failed => 20
  | dict_unknown_version => 21
  | dict_xml_oom => 22
  | dict_reify_msg_type_mismatch => 23
  | dict_reify_unknown_msg_type => 24
  | dict_reify_oom => 25
  | dict_unresolved_application_version => 26
  | dict_unknown_appl_ver_id => 27
  | dict_no_dictionary_for_application_version => 28
  | dict_reify_wire_body_not_ready => 29
  | wire_frame_too_large => 30
  | wire_invalid_body_length => 31
  | wire_checksum_mismatch => 32
  | wire_framing_resync => 33
  | wire_invalid_field_format => 34
  | wire_offset_table_full => 35
  | wire_group_too_large => 36
  | wire_tag_out_of_range => 37
  | wire_required_field_missing => 38
  | wire_header_out_of_order => 39
  | wire_field_value_out_of_range => 40
  | wire_field_value_truncated => 41
  | wire_unexpected_tag => 42
  | sync_lock_aborted => 43
  | sync_lock_alloc_failed => 44
  | sync_lock_outside_session => 45
  | sync_lock_drained => 46
  | executor_already_stopped => 47
  | executor_not_serialised => 48
  | clock_sleeps_cancelled => 49
  | strand_dispatch_failed_oom => 50
  | session_already_open => 51
  | session_already_closed => 52
  | invalid_session_config => 53
  | clock_not_set => 54
  | dispatch_aborted => 55
  | store_io_failure => 56
  | store_seqnum_gap => 57
  | store_seqnum_out_of_order => 58
  | store_capacity_exhausted => 59
  | store_seqnum_overflow => 60
  | store_factory_failed => 61
  | store_visitor_aborted => 62
  | store_seqnum_invalid => 63
  | store_invalid_range => 64
  | store_cancelled => 65
  | session_invalid_logon => 66
  | session_compid_mismatch => 67
  | session_begin_string_unsupported => 68
  | session_seqnum_too_low => 69
  | session_sending_time_accuracy => 71
  | session_msg_type_invalid_for_state => 72
  | session_logout_timeout => 73
  | session_test_request_unanswered => 74
  | session_admin_not_supported => 75
  | session_invalid_config => 76
  | session_invalid_state_for_send => 77
  | tls_cert_load_failed => 78
  | tls_cert_parse_failed => 79
  | tls_cipher_not_allowed => 80
  | tls_invalid_security_profile => 81
  | tls_sign_callback_unavailable => 82
  | tls_pin_empty_at_open => 83
  | tls_pin_not_found => 84
  | tls_pin_already_present => 85
  | tls_pinset_capacity_exhausted => 86
  | tls_pinset_alloc_failed => 87
  | tls_handshake_failed => 88
  | tls_rsa_key_too_large => 89
  | tls_cert_der_too_large => 90
  | tls_san_entries_exceeded => 91
  | tls_pin_mismatch => 92
  | tls_load_cancelled => 93
  | transport_resolve_failed => 94
  | transport_connect_refused => 95
  | transport_connect_timeout => 96
  | transport_already_connected => 97
  | transport_already_closed => 98
  | transport_read_in_progress => 99
  | transport_write_in_progress => 100
  | transport_reconnect_limit_exceeded => 101
  | transport_read_eof => 102
  | transport_read_truncated => 103
  | transport_read_error => 104
  | transport_write_short => 105
  | transport_write_error => 106
  | transport_handshake_failed => 107
  | transport_handshake_timeout => 108
  | transport_factory_failed => 109
  | transport_psk_unsupported => 110
  | transport_connect_cancelled => 111
  | transport_read_cancelled => 112
  | transport_write_cancelled => 113
  | transport_handshake_cancelled => 114
  | transport_accept_cancelled => 115
  | session_seqnum_reset_mismatch => 116
  | session_compid_unauthorized => 117
  | session_testreqid_mismatch => 118
  | session_invalid_argument => 119
  | session_seqnum_too_high => 120
  | session_unknown_acceptor_session => 121
  | log_queue_overflow => 122
  | log_sink_open_failed => 123
  | log_sink_write_failed => 124
  | log_sink_flush_failed => 125
  | log_drain_timeout => 126
  | otel_export_failed => 127
  | otel_provider_init_failed => 128
  | app_do_not_send => 129
  | app_callback_threw => 130
  | app_payload_malformed => 131
  | wire_invalid_tag_number => 132
  | wire_length_data_mismatch => 133
  end.

Definition error_message (e : error) : string :=
  match e with
  | out_of_memory => "out of memory"
  | decimal_invalid_input => "decimal: invalid input"
  | decimal_overflow => "decimal: overflow"
  | decimal_precision_loss => "decimal: precision loss"
  | decimal_buffer_too_small => "decimal: buffer too small"
  | dict_xml_parse_failed => "dict: XML parse failed"
  | dict_unknown_version => "dict: unknown version"
  | dict_xml_oom => "dict: XML out of memory"
  | dict_reify_msg_type_mismatch => "dict: reify message type mismatch"
  | dict_reify_unknown_msg_type => "dict: reify unknown message type"
  | dict_reify_oom => "dict: reify out of memory"
  | dict_unresolved_application_version => "dict: unresolved application version"
  | dict_unknown_appl_ver_id => "dict: unknown ApplVerID"
  | dict_no_dictionary_for_application_version => "dict: no dictionary for application version"
  | dict_reify_wire_body_not_ready => "dict: reify wire body not ready"
  | wire_frame_too_large => "wire: frame too large"
  | wire_invalid_body_length => "wire: invalid body length"
  | wire_checksum_mismatch => "wire: checksum mismatch"
  | wire_framing_resync => "wire: framing resync"
  | wire_invalid_field_format => "wire: invalid field format"
  | wire_offset_table_full => "wire: offset table full"
  | wire_group_too_large => "wire: group too large"
  | wire_tag_out_of_range => "wire: tag out of range"
  | wire_required_field_missing => "wire: required field missing"
  | wire_header_out_of_order => "wire: header out of order"
  | wire_field_value_out_of_range => "wire: field value out of range"
  | wire_field_value_truncated => "wire: field value truncated"
  | wire_unexpected_tag => "wire: unexpected tag"
  | sync_lock_aborted => "sync: lock aborted"
  | sync_lock_alloc_failed => "sync: lock alloc failed"
  | sync_lock_outside_session => "sync: lock outside session"
  | sync_lock_drained => "sync: lock drained"
  | executor_already_stopped => "executor already stopped"
  | executor_not_serialised => "executor not serialised"
  | clock_sleeps_cancelled => "clock sleeps cancelled"
  | strand_dispatch_failed_oom => "strand dispatch failed: out of memory"
  | session_already_open => "session already open"
  | session_already_closed => "session already closed"
  | invalid_session_config => "invalid session config"
  | clock_not_set => "clock not set"
  | dispatch_aborted => "dispatch aborted"
  | store_io_failure => "store: I/O failure"
  | store_seqnum_gap => "store: seqnum gap"
  | store_seqnum_out_of_order => "store: seqnum out of order"
  | store_capacity_exhausted => "store: capacity exhausted"
  | store_seqnum_overflow => "store: seqnum overflow"
  | store_factory_failed => "store: factory failed"
  | store_visitor_aborted => "store: visitor aborted"
  | store_seqnum_invalid => "store: seqnum invalid"
  | store_invalid_range => "store: invalid range"
  | store_cancelled => "store: cancelled"
  | session_invalid_logon => "session: invalid logon"
  | session_compid_mismatch => "session: CompID mismatch"
  | session_begin_string_unsupported => "session: BeginString unsupported"
  | session_seqnum_too_low => "session: seqnum too low"
  | session_sending_time_accuracy => "session: sending time accuracy"
  | session_msg_type_invalid_for_state => "session: message type invalid for state"
  | session_logout_timeout => "session: logout timeout"
  | session_test_request_unanswered => "session: test request unanswered"
  | session_admin_not_supported => "session: admin not supported"
  | session_invalid_config => "session: invalid config"
  | session_invalid_state_for_send => "session: invalid state for send"
  | tls_cert_load_failed => "TLS: cert load failed"
  | tls_cert_parse_failed => "TLS: cert parse failed"
  | tls_cipher_not_allowed => "TLS: cipher not allowed"
  | tls_invalid_security_profile => "TLS: invalid security profile"
  | tls_sign_callback_unavailable => "TLS: sign callback unavailable"
  | tls_pin_empty_at_open => "TLS: pin set empty at open"
  | tls_pin_not_found => "TLS: pin not found"
  | tls_pin_already_present => "TLS: pin already present"
  | tls_pinset_capacity_exhausted => "TLS: pinset capacity exhausted"
  | tls_pinset_alloc_failed => "TLS: pinset alloc failed"
  | tls_handshake_failed => "TLS: handshake failed"
  | tls_rsa_key_too_large => "TLS: RSA key too large"
  | tls_cert_der_too_large => "TLS: cert DER too large"
  | tls_san_entries_exceeded => "TLS: SAN entries exceeded"
  | tls_pin_mismatch => "TLS: pin mismatch"
  | tls_load_cancelled => "TLS: load cancelled"
  | transport_resolve_failed => "transport: resolve failed"
  | transport_connect_refused => "transport: connect refused"
  | transport_connect_timeout => "transport: connect timeout"
  | transport_already_connected => "transport: already connected"
  | transport_already_closed => "transport: already closed"
  | transport_read_in_progress => "transport: read in progress"
  | transport_write_in_progress => "transport: write in progress"
  | transport_reconnect_limit_exceeded => "transport: reconnect limit exceeded"
  | transport_read_eof => "transport: read EOF"
  | transport_read_truncated => "transport: read truncated"
  | transport_read_error => "transport: read error"
  | transport_write_short => "transport: write short"
  | transport_write_error => "transport: write error"
  | transport_handshake_failed => "transport: handshake failed"
  | transport_handshake_timeout => "transport: handshake timeout"
  | transport_factory_failed => "transport: factory failed"
  | transport_psk_unsupported => "transport: PSK unsupported"
  | transport_connect_cancelled => "transport: connect cancelled"
  | transport_read_cancelled => "transport: read cancelled"
  | transport_write_cancelled => "transport: write cancelled"
  | transport_handshake_cancelled => "transport: handshake cancelled"
  | transport_accept_cancelled => "transport: accept cancelled"
  | session_seqnum_reset_mismatch => "session: seqnum reset mismatch"
  | session_compid_unauthorized => "session: CompID unauthorized"
  | session_testreqid_mismatch => "session: TestReqID mismatch"
  | session_invalid_argument => "session: invalid argument"
  | session_seqnum_too_high => "session: seqnum too high"
  | session_unknown_acceptor_session => "session: unknown acceptor session"
  | log_queue_overflow => "log: queue overflow"
  | log_sink_open_failed => "log: sink open failed"
  | log_sink_write_failed => "log: sink write failed"
  | log_sink_flush_failed => "log: sink flush failed"
  | log_drain_timeout => "log: drain timeout"
  | otel_export_failed => "otel: export failed"
  | otel_provider_init_failed => "otel: provider init failed"
  | app_do_not_send => "app: do not send (toApp veto)"
  | app_callback_threw => "app: callback threw (session terminated)"
  | app_payload_malformed => "app: malformed opaque payload (rejected pre-seqnum)"
  | wire_invalid_tag_number => "wire: invalid tag number"
  | wire_length_data_mismatch => "wire: Length/Data mismatch"
  end.

Definition all_errors : list error :=
  [out_of_memory; decimal_invalid_input; decimal_overflow; decimal_precision_loss; decimal_buffer_too_small; dict_xml_parse_failed; dict_unknown_version; dict_xml_oom; dict_reify_msg_type_mismatch; dict_reify_unknown_msg_type; dict_reify_oom; dict_unresolved_application_version; dict_unknown_appl_ver_id; dict_no_dictionary_for_application_version; dict_reify_wire_body_not_ready; wire_frame_too_large; wire_invalid_body_length; wire_checksum_mismatch; wire_framing_resync; wire_invalid_field_format; wire_offset_table_full; wire_group_too_large; wire_tag_out_of_range; wire_required_field_missing; wire_header_out_of_order; wire_field_value_out_of_range; wire_field_value_truncated; wire_unexpected_tag; sync_lock_aborted; sync_lock_alloc_failed; sync_lock_outside_session; sync_lock_drained; executor_already_stopped; executor_not_serialised; clock_sleeps_cancelled; strand_dispatch_failed_oom; session_already_open; session_already_closed; invalid_session_config; clock_not_set; dispatch_aborted; store_io_failure; store_seqnum_gap; store_seqnum_out_of_order; store_capacity_exhausted; store_seqnum_overflow; store_factory_failed; store_visitor_aborted; store_seqnum_invalid; store_invalid_range; store_cancelled; session_invalid_logon; session_compid_mismatch; session_begin_string_unsupported; session_seqnum_too_low; session_sending_time_accuracy; session_msg_type_invalid_for_state; session_logout_timeout; session_test_request_unanswered; session_admin_not_supported; session_invalid_config; session_invalid_state_for_send; tls_cert_load_failed; tls_cert_parse_failed; tls_cipher_not_allowed; tls_invalid_security_profile; tls_sign_callback_unavailable; tls_pin_empty_at_open; tls_pin_not_found; tls_pin_already_present; tls_pinset_capacity_exhausted; tls_pinset_alloc_failed; tls_handshake_failed; tls_rsa_key_too_large; tls_cert_der_too_large; tls_san_entries_exceeded; tls_pin_mismatch; tls_load_cancelled; transport_resolve_failed; transport_connect_refused; transport_connect_timeout; transport_already_connected; transport_already_closed; transport_read_in_progress; transport_write_in_progress; transport_reconnect_limit_exceeded; transport_read_eof; transport_read_truncated; transport_read_error; transport_write_short; transport_write_error; transport_handshake_failed; transport_handshake_timeout; transport_factory_failed; transport_psk_unsupported; transport_connect_cancelled; transport_read_cancelled; transport_write_cancelled; transport_handshake_cancelled; transport_accept_cancelled; session_seqnum_reset_mismatch; session_compid_unauthorized; session_testreqid_mismatch; session_invalid_argument; session_seqnum_too_high; session_unknown_acceptor_session; log_queue_overflow; log_sink_open_failed; log_sink_write_failed; log_sink_flush_failed; log_drain_timeout; otel_export_failed; otel_provider_init_failed; app_do_not_send; app_callback_threw; app_payload_malformed; wire_invalid_tag_number; wire_length_data_mismatch].

(** [static_cast<error>(v)] for the values the enumeration names. *)
Definition error_of_value (v : Z) : option error :=
  List.find (fun e => error_value e =? v) all_errors.

Lemma error_of_value_value e : error_of_value (error_value e) = Some e.
Proof. by destruct e. Qed.

#[global] Instance error_value_inj : Inj (=) (=) error_value.
Proof.
  intros e1 e2 H. apply (f_equal error_of_value) in H.
  rewrite !error_of_value_value in H. congruence.
Qed.

#[global] Instance error_eq_dec : EqDecision error.
Proof. apply (inj_eq_dec error_value). Defined.

(** [template <class T> using expected_t = std::expected<T, error>;] *)
Abbreviation expected := (result error).
