(* ===== verification/Decimal.v ===== *)
(** FIX decimal values (src/core/decimal.cpp, include/fixpp/core/decimal.hpp):
    [pod_decimal] and the operations of [decimal_traits<pod_decimal>] — the FLOAT
    parser, the serializer, the exact comparator with its 64x64->128 multiply, and
    the canonical-domain conversions. *)
From S2P Require Import Prelude Errors.

(** ** The value type *)

Record pod_decimal := PodDecimal { mantissa : Z; exponent : Z }.

(** Any bit pattern of the struct: an [int64_t] and an [int8_t]. *)
Definition wf_pod (d : pod_decimal) : Prop :=
  INT64_MIN <= mantissa d <= INT64_MAX /\ -128 <= exponent d <= 127.

Definition pod_decimal_invalid : pod_decimal := PodDecimal INT64_MIN 0.
Definition kCanonicalExpMin : Z := -38.
Definition kCanonicalExpMax : Z := 0.
Definition max_serialized_bytes : Z := 41.

(** ** [from_chars] *)

(** [if (!overflow) { if (mantissa > (INT64_MAX - digit) / 10) ... }] *)
Definition mantissa_overflows (m digit : Z) : bool := (INT64_MAX - digit) / 10 <? m.

(** The integer-digit loop: the accumulated mantissa, the sticky overflow flag and
    the cursor [p] (the unread suffix). *)
Fixpoint int_digits (p : bytes) (m : Z) (overflow : bool) : Z * bool * bytes :=
  match p with
  | c :: p' =>
      if is_digit c then
        let digit := c - 48 in
        if overflow then int_digits p' m true
        else if mantissa_overflows m digit then int_digits p' m true
        else int_digits p' (m * 10 + digit) false
      else (m, overflow, p)
  | [] => (m, overflow, p)
  end.

(** The fraction-digit loop; [exponent] counts down from 0 and stops at -38. *)
Fixpoint frac_digits (p : bytes) (m e : Z) (overflow : bool) : Z * Z * bool * bytes :=
  match p with
  | c :: p' =>
      if is_digit c then
        let digit := c - 48 in
        if overflow then frac_digits p' m e true
        else if (e <=? -38) || mantissa_overflows m digit then frac_digits p' m e true
        else frac_digits p' (m * 10 + digit) (e - 1) false
      else (m, e, overflow, p)
  | [] => (m, e, overflow, p)
  end.

Definition from_chars_finish (negative : bool) (m e : Z) (overflow : bool) (p : bytes)
  : expected pod_decimal :=
  match p with
  | _ :: _ => Err decimal_invalid_input
  | [] =>
      if overflow then Err decimal_overflow
      else
        let m := if negative then - m else m in
        if m =? INT64_MIN then Err decimal_overflow else Ok (PodDecimal m e)
  end.

(** The parse after the optional sign. *)
Definition from_chars_unsigned (negative : bool) (p : bytes) : expected pod_decimal :=
  match p with
  | [] => Err decimal_invalid_input
  | c :: _ =>
      guard is_digit c else decimal_invalid_input in
      let '(m, overflow, p) := int_digits p 0 false in
      match p with
      | 46 :: p' =>
          match p' with
          | [] => Err decimal_invalid_input
          | c' :: _ =>
              guard is_digit c' else decimal_invalid_input in
              let '(m, e, overflow, p) := frac_digits p' m 0 overflow in
              from_chars_finish negative m e overflow p
          end
      | _ => from_chars_finish negative m 0 overflow p
      end
  end.

Definition from_chars (src : bytes) : expected pod_decimal :=
  match src with
  | [] => Err decimal_invalid_input
  | c0 :: p =>
      if c0 =? 43 then from_chars_unsigned false p
      else if c0 =? 45 then from_chars_unsigned true p
      else from_chars_unsigned false src
  end.

(** ** [to_chars] *)

(** [while (tmp > 0) { digits[ndigits++] = '0' + tmp % 10; tmp /= 10; }]: least
    significant digit first, before the in-place reversal.  Fuel 20 is the size of
    [digits], enough for every 64-bit magnitude ([rev_digits_value]). *)
Fixpoint rev_digits (fuel : nat) (tmp : Z) : bytes :=
  match fuel with
  | O => []
  | S f => if 0 <? tmp then (48 + tmp mod 10) :: rev_digits f (tmp / 10) else []
  end.

(** The trailing-zero loop, on the digits read from the back
    ([digits[ndigits - 1]] is the head). *)
Fixpoint strip_zeros (back : bytes) (frac : Z) : bytes * Z :=
  match back with
  | c :: back' => if (0 <? frac) && (c =? 48) then strip_zeros back' (frac - 1) else (back, frac)
  | [] => (back, frac)
  end.

(** The bytes written to [buf] for a nonzero canonical value. *)
Definition to_chars_body (v : pod_decimal) : bytes :=
  let neg := mantissa v <? 0 in
  let m := if neg then - mantissa v else mantissa v in
  let back := if m =? 0 then [48] else rev_digits 20 m in
  let '(back, frac) := strip_zeros back (- exponent v) in
  let digits := rev back in
  let ndigits := zlen digits in
  (if neg then [45] else []) ++
  (if frac =? 0 then digits
   else if ndigits <=? frac then
     [48; 46] ++ replicate (Z.to_nat (frac - ndigits)) 48 ++ digits
   else ztake (ndigits - frac) digits ++ [46] ++ zdrop (ndigits - frac) digits).

(** The buffer after the call and the number of bytes written. *)
Definition to_chars (v : pod_decimal) (dst : bytes) : expected (bytes * Z) :=
  if mantissa v =? INT64_MIN then Err decimal_invalid_input
  else if (kCanonicalExpMax <? exponent v) || (exponent v <? kCanonicalExpMin)
  then Err decimal_invalid_input
  else if mantissa v =? 0 then
    match dst with
    | [] => Err decimal_buffer_too_small
    | _ => Ok (zwrite dst 0 [48], 1)
    end
  else
    let buf := to_chars_body v in
    if zlen dst <? zlen buf then Err decimal_buffer_too_small
    else Ok (zwrite dst 0 buf, zlen buf).

(** ** [mul_u64_wide] and [compare] *)

(** (hi, lo) of the 128-bit product on the [__int128] branch. *)
Definition mul_u64_wide_int128 (a b : Z) : Z * Z :=
  (u64 (Z.shiftr (a * b) 64), u64 (a * b)).

(** The portable 32-bit-limb branch. *)
Definition mul_u64_wide_portable (a b : Z) : Z * Z :=
  let a_lo := Z.land a 0xFFFFFFFF in
  let a_hi := Z.shiftr a 32 in
  let b_lo := Z.land b 0xFFFFFFFF in
  let b_hi := Z.shiftr b 32 in
  let t := u64 (a_lo * b_lo) in
  let w0 := Z.land t 0xFFFFFFFF in
  let k := Z.shiftr t 32 in
  let t := u64 (u64 (a_hi * b_lo) + k) in
  let w1 := Z.land t 0xFFFFFFFF in
  let w2 := Z.shiftr t 32 in
  let t := u64 (u64 (a_lo * b_hi) + w1) in
  let k := Z.shiftr t 32 in
  (u64 (u64 (u64 (a_hi * b_hi) + w2) + k), Z.lor (u64 (Z.shiftl t 32)) w0).

(** The branch the build selects (FIXPP_DECIMAL_FORCE_PORTABLE_MUL). *)
Definition mul_u64_wide (portable : bool) : Z -> Z -> Z * Z :=
  if portable then mul_u64_wide_portable else mul_u64_wide_int128.

Definition kPow10 : list Z :=
  [1; 10; 100; 1000; 10000; 100000; 1000000; 10000000; 100000000; 1000000000;
   10000000000; 100000000000; 1000000000000; 10000000000000; 100000000000000;
   1000000000000000; 10000000000000000; 100000000000000000; 1000000000000000000].

Definition compare_magnitudes (portable : bool) (mag_scaled other k : Z) : comparison :=
  if 19 <=? k then Gt
  else
    let '(hi, lo) := mul_u64_wide portable mag_scaled (zget kPow10 k) in
    if negb (hi =? 0) || (other <? lo) then Gt
    else if lo =? other then Eq else Lt.

Definition compare (portable : bool) (a b : pod_decimal) : comparison :=
  let a_invalid := mantissa a =? INT64_MIN in
  let b_invalid := mantissa b =? INT64_MIN in
  if a_invalid && b_invalid then Eq
  else if a_invalid then Gt
  else if b_invalid then Lt
  else
    let a_neg := mantissa a <? 0 in
    let b_neg := mantissa b <? 0 in
    if negb (Bool.eqb a_neg b_neg) then (if a_neg then Lt else Gt)
    else if exponent a =? exponent b then Z.compare (mantissa a) (mantissa b)
    else if (mantissa a =? 0) && (mantissa b =? 0) then Eq
    else if mantissa a =? 0 then (if b_neg then Gt else Lt)
    else if mantissa b =? 0 then (if a_neg then Lt else Gt)
    else
      let mag_a := u64 (if mantissa a <? 0 then - mantissa a else mantissa a) in
      let mag_b := u64 (if mantissa b <? 0 then - mantissa b else mantissa b) in
      let ae := exponent a in
      let be := exponent b in
      let a_scales := be <? ae in
      let k := if a_scales then ae - be else be - ae in
      let mag_scaled := if a_scales then mag_a else mag_b in
      let other := if a_scales then mag_b else mag_a in
      let scaled_vs_other := compare_magnitudes portable mag_scaled other k in
      let mag_cmp := if a_scales then scaled_vs_other else CompOpp scaled_vs_other in
      if a_neg then CompOpp mag_cmp else mag_cmp.

(** ** Conversions and predicates *)

Definition from_pod (pd : pod_decimal) : expected pod_decimal :=
  if mantissa pd =? INT64_MIN then Err decimal_overflow
  else if (exponent pd <? kCanonicalExpMin) || (kCanonicalExpMax <? exponent pd)
  then Err decimal_overflow
  else Ok pd.

Definition to_pod (v : pod_decimal) : expected pod_decimal := from_pod v.
Definition is_finite (v : pod_decimal) : bool := negb (mantissa v =? INT64_MIN).
Definition is_zero (v : pod_decimal) : bool := mantissa v =? 0.
Definition is_negative (v : pod_decimal) : bool := mantissa v <? 0.

(** ** The [decimal<T>] wrapper over a traits customization point *)

Class decimal_traits (T : Type) := {
  traits_from_chars : bytes -> expected T;
  traits_to_chars : T -> bytes -> expected (bytes * Z);
  traits_from_pod : pod_decimal -> expected T;
  traits_to_pod : T -> expected pod_decimal;
  traits_compare : T -> T -> comparison
}.

Definition pod_traits (portable : bool) : decimal_traits pod_decimal := {|
  traits_from_chars := from_chars;
  traits_to_chars := to_chars;
  traits_from_pod := from_pod;
  traits_to_pod := to_pod;
  traits_compare := compare portable
|}.
#[export] Existing Instance pod_traits.

(** [decimal<T>::from<U>] for [T] distinct from [U]: the cross-traits funnel. *)
Definition decimal_from {T U} `{decimal_traits T, decimal_traits U} (src : U) : expected T :=
  match traits_to_pod src with
  | Err e => Err (if decide (e = decimal_overflow) then decimal_precision_loss else e)
  | Ok pod => let? r := traits_from_pod pod in Ok r
  end.

(** ** Specification *)

(** The FIX FLOAT grammar: [s] is a sign, integer digits [ip] and, when [fp] is not
    empty, a point and fraction digits [fp]. *)
Definition float_text (s : bytes) (neg : bool) (ip fp : bytes) : Prop :=
  exists sg, s = sg ++ ip ++ (match fp with [] => [] | _ => 46 :: fp end) /\
    (sg = [] /\ neg = false \/ sg = [43] /\ neg = false \/ sg = [45] /\ neg = true) /\
    ip <> [] /\ digits ip /\ digits fp.

(** What the grammar's value denotes: too long a fraction or too large a mantissa
    overflows. *)
Definition float_result (neg : bool) (ip fp : bytes) : expected pod_decimal :=
  if (38 <? zlen fp) || (INT64_MAX <? dec_value (ip ++ fp)) then Err decimal_overflow
  else Ok (PodDecimal ((if neg then -1 else 1) * dec_value (ip ++ fp)) (- zlen fp)).

(** The exact value, scaled by 10^128 so that it is an integer for every [int8_t]
    exponent. *)
Definition dvalue (d : pod_decimal) : Z := mantissa d * 10 ^ (exponent d + 128).

Definition spec_compare (a b : pod_decimal) : comparison :=
  match is_finite a, is_finite b with
  | false, false => Eq
  | false, true => Gt
  | true, false => Lt
  | true, true => Z.compare (dvalue a) (dvalue b)
  end.

Definition canonical (d : pod_decimal) : Prop :=
  INT64_MIN < mantissa d <= INT64_MAX /\ -38 <= exponent d <= 0.

(** ** The digit loops *)

Definition stops (p : bytes) : Prop :=
  match p with [] => True | c :: _ => is_digit c = false end.

Lemma digits_span p : exists ds rest, p = ds ++ rest /\ digits ds /\ stops rest.
Proof.
  induction p as [|c p (ds & rest & -> & Hd & Hs)]; [by exists [], []|].
  destruct (is_digit c) eqn:Hc.
  - exists (c :: ds), rest. repeat split; [|done]. by constructor.
  - exists [], (c :: ds ++ rest). by repeat split.
Qed.

Lemma int_digits_stops rest m o : stops rest -> int_digits rest m o = (m, o, rest).
Proof. destruct rest; cbn; [done|]. by intros ->. Qed.

Lemma frac_digits_stops rest m e o : stops rest -> frac_digits rest m e o = (m, e, o, rest).
Proof. destruct rest; cbn; [done|]. by intros ->. Qed.

Lemma mantissa_overflows_spec m c :
  48 <= c <= 57 -> mantissa_overflows m (c - 48) = (INT64_MAX <? m * 10 + (c - 48)).
Proof. intros. unfold mantissa_overflows, INT64_MAX. dlia. Qed.

Lemma int_digits_overflowed ds rest m :
  digits ds -> stops rest -> int_digits (ds ++ rest) m true = (m, true, rest).
Proof.
  intros Hd Hs. induction Hd as [|c ds Hc _ IH]; [by apply int_digits_stops|].
  cbn. by rewrite Hc.
Qed.

Lemma dec_from_grows acc ds : 0 <= acc -> digits ds -> acc <= dec_from acc ds.
Proof.
  intros Ha Hd. pose proof (dec_from_bounds acc ds Ha Hd).
  assert (1 <= 10 ^ zlen ds) by (pose proof (Z.pow_pos_nonneg 10 (zlen ds)); zlen_lia). nia.
Qed.

(** The integer loop reads the digits to their exact value, or flags the overflow. *)
Lemma int_digits_run ds rest m :
  0 <= m <= INT64_MAX -> digits ds -> stops rest ->
  exists m', int_digits (ds ++ rest) m false = (m', INT64_MAX <? dec_from m ds, rest) /\
    (dec_from m ds <= INT64_MAX -> m' = dec_from m ds).
Proof.
  intros Hm Hd Hs. revert m Hm. induction Hd as [|c ds Hc Hd IH]; intros m Hm.
  - exists m. cbn [app]. rewrite int_digits_stops by done.
    replace (INT64_MAX <? dec_from m []) with false by (unfold dec_from; cbn [fold_left]; lia).
    done.
  - cbn [app int_digits]. rewrite Hc. pose proof (proj1 (is_digit_spec c) Hc).
    rewrite mantissa_overflows_spec by done. rewrite dec_from_cons.
    destruct (INT64_MAX <? m * 10 + (c - 48)) eqn:Ho.
    + exists m. rewrite int_digits_overflowed by done.
      pose proof (dec_from_grows (m * 10 + (c - 48)) ds ltac:(lia) Hd).
      replace (INT64_MAX <? dec_from _ ds) with true by lia. split; [done|lia].
    + apply IH. lia.
Qed.

Lemma frac_digits_overflowed ds rest m e :
  digits ds -> stops rest -> frac_digits (ds ++ rest) m e true = (m, e, true, rest).
Proof.
  intros Hd Hs. induction Hd as [|c ds Hc _ IH]; [by apply frac_digits_stops|].
  cbn. by rewrite Hc.
Qed.

Lemma frac_digits_run ds rest m e :
  0 <= m <= INT64_MAX -> -38 <= e -> digits ds -> stops rest ->
  exists m' e',
    frac_digits (ds ++ rest) m e false
      = (m', e', (38 + e <? zlen ds) || (INT64_MAX <? dec_from m ds), rest) /\
    (zlen ds <= 38 + e -> dec_from m ds <= INT64_MAX ->
     m' = dec_from m ds /\ e' = e - zlen ds).
Proof.
  intros Hm He Hd Hs. revert m e Hm He. induction Hd as [|c ds Hc Hd IH]; intros m e Hm He.
  - exists m, e. cbn [app]. rewrite frac_digits_stops by done. rewrite zlen_nilZ.
    change (dec_from m []) with m.
    replace ((38 + e <? 0) || (INT64_MAX <? m)) with false by lia. split; [done|lia].
  - cbn [app frac_digits]. rewrite Hc. pose proof (proj1 (is_digit_spec c) Hc).
    rewrite mantissa_overflows_spec by done. rewrite dec_from_cons, zlen_cons.
    pose proof (zlen_nonneg ds).
    destruct ((e <=? -38) || (INT64_MAX <? m * 10 + (c - 48))) eqn:Ho.
    + exists m, e. rewrite frac_digits_overflowed by done.
      pose proof (dec_from_grows (m * 10 + (c - 48)) ds ltac:(lia) Hd).
      replace ((38 + e <? _) || (INT64_MAX <? dec_from _ ds)) with true by lia.
      split; [done|lia].
    + destruct (IH (m * 10 + (c - 48)) (e - 1)) as (m' & e' & -> & Hv); [lia..|].
      replace (38 + (e - 1) <? zlen ds) with (38 + e <? 1 + zlen ds) by lia.
      exists m', e'. split; [done|]. intros. destruct Hv; lia.
Qed.

(** ** The parser against the grammar *)

Lemma digits_nonempty ds : digits ds -> ds <> [] -> exists c ds', ds = c :: ds' /\ is_digit c = true.
Proof. intros Hd Hne. destruct Hd; [done|eauto]. Qed.

Lemma from_chars_finish_ok neg m e o :
  0 <= m <= INT64_MAX ->
  from_chars_finish neg m e o [] =
    if o then Err decimal_overflow else Ok (PodDecimal ((if neg then -1 else 1) * m) e).
Proof.
  intros Hm. unfold from_chars_finish. destruct o; [done|].
  replace (if neg then - m else m) with ((if neg then -1 else 1) * m) by (destruct neg; lia).
  destruct (_ =? INT64_MIN) eqn:E; [|done]. unfold INT64_MIN, INT64_MAX in *. destruct neg; lia.
Qed.

Lemma from_chars_finish_over neg m e : from_chars_finish neg m e true [] = Err decimal_overflow.
Proof. done. Qed.

Lemma int_digits_dec ip rest : digits ip -> stops rest ->
  exists m, int_digits (ip ++ rest) 0 false = (m, INT64_MAX <? dec_value ip, rest) /\
    (dec_value ip <= INT64_MAX -> m = dec_value ip).
Proof. intros. apply int_digits_run; [unfold INT64_MAX; lia|done..]. Qed.

Lemma from_chars_unsigned_int neg ip :
  digits ip -> ip <> [] -> from_chars_unsigned neg ip = float_result neg ip [].
Proof.
  intros Hd Hne. destruct (int_digits_dec ip [] Hd I) as (m & Hrun & Hm).
  rewrite app_nil_r in Hrun. unfold float_result. rewrite app_nil_r, zlen_nilZ.
  destruct (digits_nonempty ip Hd Hne) as (c & ds & Heq & Hc).
  unfold from_chars_unsigned. rewrite Hrun, Heq, Hc, <- Heq. cbn [orb].
  replace (38 <? 0) with false by lia. cbn [orb].
  pose proof (dec_value_bounds ip Hd).
  destruct (INT64_MAX <? dec_value ip) eqn:Ho; [done|].
  rewrite Hm by lia. rewrite from_chars_finish_ok by lia. done.
Qed.

Lemma from_chars_unsigned_frac neg ip fp :
  digits ip -> ip <> [] -> digits fp -> fp <> [] ->
  from_chars_unsigned neg (ip ++ 46 :: fp) = float_result neg ip fp.
Proof.
  intros Hd Hne Hfd Hfne. destruct (int_digits_dec ip (46 :: fp) Hd eq_refl) as (m & Hrun & Hm).
  destruct (digits_nonempty ip Hd Hne) as (c & ds & Heq & Hc).
  destruct (digits_nonempty fp Hfd Hfne) as (c' & ds' & Heq' & Hc').
  unfold from_chars_unsigned. rewrite Hrun. rewrite Heq at 1. cbn [app].
  rewrite Hc, Heq', Hc', <- Heq'. unfold float_result.
  replace (dec_value (ip ++ fp)) with (dec_from (dec_value ip) fp)
    by (unfold dec_value; by rewrite dec_from_app).
  pose proof (dec_value_bounds ip Hd).
  destruct (INT64_MAX <? dec_value ip) eqn:Ho.
  - rewrite <- (app_nil_r fp) at 1. rewrite frac_digits_overflowed by done.
    pose proof (dec_from_grows (dec_value ip) fp ltac:(lia) Hfd).
    replace ((38 <? _) || (INT64_MAX <? _)) with true by lia. done.
  - rewrite Hm by lia.
    destruct (frac_digits_run fp [] (dec_value ip) 0) as (m' & e' & Hf & Hv); [lia..|done|done|].
    rewrite app_nil_r in Hf. rewrite Hf. change (38 + 0) with 38.
    pose proof (dec_from_grows (dec_value ip) fp ltac:(lia) Hfd).
    destruct ((38 <? zlen fp) || (INT64_MAX <? dec_from (dec_value ip) fp)) eqn:Ho'; [done|].
    destruct Hv as [-> ->]; [lia..|]. rewrite from_chars_finish_ok by lia. done.
Qed.

Lemma from_chars_text s neg ip fp :
  float_text s neg ip fp -> from_chars s = float_result neg ip fp.
Proof.
  intros (sg & -> & Hsg & Hne & Hd & Hf).
  assert (Hu : from_chars_unsigned neg (ip ++ match fp with [] => [] | _ => 46 :: fp end)
               = float_result neg ip fp).
  { destruct fp; [rewrite app_nil_r; by apply from_chars_unsigned_int|].
    by apply from_chars_unsigned_frac. }
  destruct Hsg as [[-> ->]|[[-> ->]|[-> ->]]]; [|exact Hu..].
  destruct (digits_nonempty ip Hd Hne) as (c & ds & -> & Hc).
  apply is_digit_spec in Hc. cbn [app from_chars].
  destruct (c =? 43) eqn:?; [lia|]. destruct (c =? 45) eqn:?; [lia|]. exact Hu.
Qed.

Lemma frac_digits_rest ds rest m e o :
  digits ds -> stops rest -> (frac_digits (ds ++ rest) m e o).2 = rest.
Proof.
  intros Hd Hs. revert m e o. induction Hd as [|c ds Hc _ IH]; intros m e o; cbn [app].
  - by rewrite frac_digits_stops.
  - cbn. rewrite Hc. destruct o; [done|]. by destruct (_ || _).
Qed.

(** Whatever is not grammatical is rejected as invalid input. *)
Lemma from_chars_unsigned_reject neg p :
  from_chars_unsigned neg p = Err decimal_invalid_input \/
  exists ip fp, p = ip ++ (match fp with [] => [] | _ => 46 :: fp end) /\
    ip <> [] /\ digits ip /\ digits fp.
Proof.
  destruct (digits_span p) as (ip & rest & -> & Hd & Hs).
  destruct (int_digits_dec ip rest Hd Hs) as (m & Hrun & _).
  destruct ip as [|c ip].
  { left. cbn [app]. destruct rest; [done|]. cbn in Hs |- *. by rewrite Hs. }
  assert (Hc : is_digit c = true) by (by inversion Hd).
  unfold from_chars_unsigned. cbn [app] in *. rewrite Hc, Hrun.
  destruct (decide (rest = [])) as [->|Hr]; [right; by exists (c :: ip), []|].
  destruct rest as [|d rest]; [done|]. destruct (decide (d = 46)) as [->|Hd46].
  2: { left. destruct d as [|d|]; [done| |done].
       do 6 (destruct d; try done). }
  destruct (digits_span rest) as (fp & rest' & -> & Hfd & Hs').
  destruct fp as [|c' fp].
  { left. cbn [app]. destruct rest'; [done|]. cbn in Hs'. by rewrite Hs'. }
  assert (Hc' : is_digit c' = true) by (by inversion Hfd).
  destruct rest' as [|x rest'].
  { right. exists (c :: ip), (c' :: fp). by rewrite app_nil_r. }
  left. cbn [app]. rewrite Hc'. change (c' :: fp ++ x :: rest') with ((c' :: fp) ++ x :: rest').
  pose proof (frac_digits_rest (c' :: fp) (x :: rest') m 0 (INT64_MAX <? dec_value (c :: ip)) Hfd Hs') as Hf.
  destruct (frac_digits _ m 0 _) as [[[m' e'] o'] p']. cbn in Hf. by subst p'.
Qed.

Lemma from_chars_reject s :
  from_chars s = Err decimal_invalid_input \/ exists neg ip fp, float_text s neg ip fp.
Proof.
  destruct s as [|c0 p]; [by left|]. unfold from_chars.
  assert (Hgo : forall sg neg q, c0 :: p = sg ++ q ->
    (sg = [] /\ neg = false \/ sg = [43] /\ neg = false \/ sg = [45] /\ neg = true) ->
    from_chars_unsigned neg q = Err decimal_invalid_input \/
    exists neg ip fp, float_text (c0 :: p) neg ip fp).
  { intros sg neg q Hq Hsg. destruct (from_chars_unsigned_reject neg q) as [|(ip & fp & -> & H)]; [by left|].
    right. exists neg, ip, fp, sg. tauto. }
  destruct (c0 =? 43) eqn:H43; [apply Z.eqb_eq in H43 as ->; apply (Hgo [43]); [done|tauto]|].
  destruct (c0 =? 45) eqn:H45; [apply Z.eqb_eq in H45 as ->; apply (Hgo [45]); [done|tauto]|].
  apply (Hgo []); [done|tauto].
Qed.

(** ** The serializer *)

Lemma rev_digits_0 f : rev_digits f 0 = [].
Proof. by destruct f. Qed.

Lemma rev_digits_value fuel m : 0 <= m < 10 ^ Z.of_nat fuel ->
  digits (rev_digits fuel m) /\ dec_value (rev (rev_digits fuel m)) = m /\
  (0 < m -> zlen (rev_digits fuel m) <= Z.of_nat fuel /\ rev_digits fuel m <> [] /\
            10 ^ (zlen (rev_digits fuel m) - 1) <= m).
Proof.
  revert m. induction fuel as [|f IH]; intros m Hm; cbn [rev_digits].
  - change (10 ^ Z.of_nat 0) with 1 in Hm. split; [constructor|]. split; [|lia].
    change (0 = m). lia.
  - destruct (0 <? m) eqn:Hp; [|split; [constructor|split; [change (0 = m)|]; lia]].
    assert (Hq : 0 <= m / 10 < 10 ^ Z.of_nat f).
    { split; [apply Z.div_pos; lia|]. apply Z.div_lt_upper_bound; [lia|].
      rewrite Nat2Z.inj_succ, Z.pow_succ_r in Hm by lia. lia. }
    pose proof (Z.mod_pos_bound m 10 ltac:(lia)). pose proof (Z.div_mod m 10 ltac:(lia)).
    destruct (IH (m / 10) Hq) as (Hd & Hv & Hl). split; [|split].
    + constructor; [apply is_digit_spec; lia|done].
    + cbn [rev]. rewrite dec_value_snoc, Hv. lia.
    + intros _. rewrite zlen_cons. split; [|split; [done|]].
      * destruct (decide (m / 10 = 0)) as [E|]; [|destruct Hl; lia].
        rewrite E, rev_digits_0, zlen_nilZ. lia.
      * destruct (decide (m / 10 = 0)) as [E|].
        -- rewrite E, rev_digits_0, zlen_nilZ. cbn. lia.
        -- destruct Hl as (Hl & _ & Hl'); [lia|].
           destruct (rev_digits f (m / 10)) as [|x l] eqn:Er; [cbn in Hv; lia|].
           rewrite zlen_cons in *. pose proof (zlen_nonneg l).
           replace (1 + (1 + zlen l) - 1) with (Z.succ (1 + zlen l - 1)) by lia.
           rewrite Z.pow_succ_r by lia. lia.
Qed.

(** Stripping [k] zeros from the back divides the value by 10^k, and stops at the
    units digit or at a nonzero fraction digit. *)
Lemma strip_zeros_spec back frac : 0 <= frac ->
  exists k, 0 <= k <= frac /\ back = replicate (Z.to_nat k) 48 ++ (strip_zeros back frac).1 /\
    (strip_zeros back frac).2 = frac - k /\
    (frac - k = 0 \/ head (strip_zeros back frac).1 <> Some 48).
Proof.
  revert frac. induction back as [|c back IH]; intros frac Hf; cbn [strip_zeros].
  - exists 0. repeat split; [lia..|cbn; lia|by right].
  - destruct ((0 <? frac) && (c =? 48)) eqn:E.
    + destruct (IH (frac - 1)) as (k & Hk & Hb & Hs & Hh); [lia|].
      exists (k + 1). split; [lia|]. replace (Z.to_nat (k + 1)) with (S (Z.to_nat k)) by lia.
      cbn [replicate app]. rewrite <- Hb. split; [f_equal; lia|]. rewrite Hs.
      split; [lia|]. destruct Hh; [left; lia|by right].
    + exists 0. repeat split; [lia..|cbn; lia|]. cbn [fst head].
      destruct (decide (frac = 0)); [left; lia|right]. intros [= ->]. lia.
Qed.

Lemma digits_rev ds : digits ds -> digits (rev ds).
Proof. apply Forall_rev. Qed.

Lemma rev_replicate {A} n (x : A) : rev (replicate n x) = replicate n x.
Proof.
  induction n as [|n IH]; [done|]. cbn. rewrite IH. symmetry. apply replicate_cons_app.
Qed.

(** The digits kept by the serializer and the number [k] of zeros dropped. *)
Lemma stripped_digits m frac : 0 < m <= INT64_MAX -> 0 <= frac ->
  exists k back, 0 <= k <= frac /\ strip_zeros (rev_digits 20 m) frac = (back, frac - k) /\
    digits (rev back) /\ dec_value (rev back) * 10 ^ k = m /\
    0 < zlen (rev back) <= 19 /\ (frac - k = 0 \/ head back <> Some 48).
Proof.
  intros Hm Hf. pose proof (rev_digits_value 20 m) as (Hd & Hv & Hl).
  { unfold INT64_MAX in Hm. cbn. lia. }
  destruct (strip_zeros_spec (rev_digits 20 m) frac Hf) as (k & Hk & Hb & Hs & Hh).
  destruct (strip_zeros _ _) as [back fr]. cbn [fst snd] in *. subst fr.
  exists k, back. rewrite Hb in Hd, Hv. apply Forall_app in Hd as [_ Hd].
  rewrite rev_app_distr, rev_replicate, dec_value_app, zlen_replicate, dec_value_zeros, Z2Nat.id in Hv by lia.
  destruct Hl as (_ & _ & Hl); [lia|]. rewrite Hb, zlen_app, zlen_replicate, Z2Nat.id in Hl by lia.
  split; [lia|]. split; [done|]. split; [by apply digits_rev|]. split; [lia|]. split; [|done].
  rewrite zlen_rev. split.
  - destruct back as [|x back]; [cbn in Hv; lia|]. zlen_lia.
  - destruct (decide (zlen back <= 19)); [done|].
    assert (10 ^ 19 <= 10 ^ (k + zlen back - 1)) by (apply Z.pow_le_mono_r; lia).
    unfold INT64_MAX in Hm. lia.
Qed.

Lemma last_rev_head (l : bytes) : last (rev l) = head l.
Proof. destruct l; [done|]. cbn. apply last_snoc. Qed.

(** The text the serializer produces for a nonzero canonical value. *)
Lemma to_chars_body_text v : canonical v -> mantissa v <> 0 ->
  exists ip fp k, float_text (to_chars_body v) (mantissa v <? 0) ip fp /\
    0 <= k /\ zlen fp = - exponent v - k /\
    dec_value (ip ++ fp) * 10 ^ k = Z.abs (mantissa v) /\
    zlen (to_chars_body v) <= max_serialized_bytes /\ last fp <> Some 48.
Proof.
  intros [Hm He] Hnz. unfold to_chars_body.
  set (neg := mantissa v <? 0). set (m := if neg then - mantissa v else mantissa v).
  assert (Hmabs : m = Z.abs (mantissa v)) by (subst m neg; destruct (_ <? _) eqn:?; lia).
  assert (Hm0 : 0 < m <= INT64_MAX) by (unfold INT64_MAX, INT64_MIN in *; lia).
  replace (m =? 0) with false by lia. rewrite <- Hmabs.
  destruct (stripped_digits m (- exponent v)) as (k & back & Hk & -> & Hd & Hv & Hl & Hlast); [lia..|].
  rewrite <- last_rev_head in Hlast. set (ds := rev back) in *.
  set (frac := - exponent v - k) in *.
  assert (Hsg : (if neg then [45] else []) = [] /\ neg = false \/
    (if neg then [45] else []) = [43] /\ neg = false \/ (if neg then [45] else []) = [45] /\ neg = true)
    by (destruct neg; tauto).
  assert (Hsl : zlen (if neg then [45] else []) <= 1) by (destruct neg; zlen_lia).
  unfold max_serialized_bytes. destruct (frac =? 0) eqn:E0; [|destruct (zlen ds <=? frac) eqn:E1].
  - exists ds, [], k. rewrite app_nil_r, zlen_nilZ. repeat split; try done; try lia.
    + exists (if neg then [45] else []). rewrite app_nil_r. repeat split; try done.
      intros ->. rewrite zlen_nilZ in Hl; lia.
    + zlen_lia.
  - exists [48], (replicate (Z.to_nat (frac - zlen ds)) 48 ++ ds), k.
    assert (Hfl : zlen (replicate (Z.to_nat (frac - zlen ds)) 48 ++ ds) = frac)
      by (rewrite zlen_app, zlen_replicate; lia).
    repeat split; try done; try lia.
    + exists (if neg then [45] else []). repeat split; try done.
      * destruct (_ ++ ds) eqn:E; [rewrite zlen_nilZ in Hfl; lia|]. cbn [app]. by rewrite <- E.
      * by repeat constructor.
      * apply Forall_app; split; [|done]. by apply Forall_replicate.
    + change ([48] ++ ?x) with (48 :: x).
      change (dec_value (48 :: ?x)) with (dec_value x). rewrite dec_value_app, dec_value_zeros. lia.
    + rewrite !zlen_app in *. change (zlen [48; 46]) with 2. lia.
    + rewrite last_app. destruct (last ds) eqn:El; [destruct Hlast; [lia|congruence]|].
      apply last_None in El. rewrite El, zlen_nilZ in Hl. lia.
  - exists (ztake (zlen ds - frac) ds), (zdrop (zlen ds - frac) ds), k.
    rewrite ztake_drop, zlen_drop by lia. repeat split; try done; try lia.
    + exists (if neg then [45] else []). repeat split; try done.
      * destruct (zdrop _ ds) eqn:E; [|done]. apply (f_equal zlen) in E.
        rewrite zlen_drop, zlen_nilZ in E by lia. lia.
      * intros E. apply (f_equal zlen) in E. rewrite zlen_take, zlen_nilZ in E by lia. lia.
      * by apply Forall_take.
      * by apply Forall_drop.
    + rewrite !zlen_app, zlen_take, zlen_drop by lia. change (zlen [46]) with 1. lia.
    + rewrite last_zdrop by lia. destruct Hlast; [lia|done].
Qed.

(** ** The multiply *)

Lemma land_ones_32 a : Z.land a 0xFFFFFFFF = a mod 2 ^ 32.
Proof. change 0xFFFFFFFF with (Z.ones 32). by rewrite Z.land_ones. Qed.

Lemma lor_shiftl_32 h l : 0 <= l < 2 ^ 32 -> Z.lor (Z.shiftl h 32) l = h * 2 ^ 32 + l.
Proof.
  intros Hl. rewrite <- Z.shiftl_mul_pow2 by lia. symmetry. apply Z.add_nocarry_lor.
  apply Z.bits_inj'. intros n Hn. rewrite Z.land_spec, Z.bits_0.
  destruct (decide (n < 32)); [by rewrite Z.shiftl_spec_low|].
  rewrite (Z.bits_above_log2 l n); [by rewrite andb_false_r|lia|].
  destruct (decide (l = 0)) as [->|]; [cbn; lia|]. apply Z.log2_lt_pow2; [lia|].
  assert (2 ^ 32 <= 2 ^ n) by (apply Z.pow_le_mono_r; lia). lia.
Qed.

Lemma shiftl_u64_32 t : u64 (Z.shiftl t 32) = Z.shiftl (t mod 2 ^ 32) 32.
Proof.
  unfold wrap. rewrite !Z.shiftl_mul_pow2 by lia. change (2 ^ 64) with (2 ^ 32 * 2 ^ 32).
  by rewrite Z.mul_mod_distr_r.
Qed.

(** The limb product is the full 128-bit product: no intermediate wraps. *)
Lemma mul_portable_exact a b :
  0 <= a <= UINT64_MAX -> 0 <= b <= UINT64_MAX ->
  let '(hi, lo) := mul_u64_wide_portable a b in
  hi * 2 ^ 64 + lo = a * b /\ 0 <= lo < 2 ^ 64 /\ 0 <= hi < 2 ^ 64.
Proof.
  unfold UINT64_MAX. intros Ha Hb. unfold mul_u64_wide_portable.
  rewrite !land_ones_32, shiftl_u64_32, !Z.shiftr_div_pow2 by lia.
  set (a_lo := a mod 2 ^ 32). set (a_hi := a / 2 ^ 32).
  set (b_lo := b mod 2 ^ 32). set (b_hi := b / 2 ^ 32).
  assert (Ea : a = a_hi * 2 ^ 32 + a_lo) by (subst a_lo a_hi; dlia).
  assert (Eb : b = b_hi * 2 ^ 32 + b_lo) by (subst b_lo b_hi; dlia).
  assert (0 <= a_lo < 2 ^ 32) by (apply Z.mod_pos_bound; lia).
  assert (0 <= b_lo < 2 ^ 32) by (apply Z.mod_pos_bound; lia).
  assert (0 <= a_hi < 2 ^ 32) by (subst a_hi; dlia).
  assert (0 <= b_hi < 2 ^ 32) by (subst b_hi; dlia).
  clearbody a_lo a_hi b_lo b_hi.
  assert (Hp : forall x y, 0 <= x < 2 ^ 32 -> 0 <= y < 2 ^ 32 -> 0 <= x * y <= (2 ^ 32 - 1) * (2 ^ 32 - 1)) by nia.
  pose proof (Hp a_lo b_lo ltac:(lia) ltac:(lia)). pose proof (Hp a_hi b_lo ltac:(lia) ltac:(lia)).
  pose proof (Hp a_lo b_hi ltac:(lia) ltac:(lia)). pose proof (Hp a_hi b_hi ltac:(lia) ltac:(lia)).
  rewrite lor_shiftl_32 by (apply Z.mod_pos_bound; lia).
  rewrite (wrap_small 64 (a_lo * b_lo)), (wrap_small 64 (a_hi * b_lo)), (wrap_small 64 (a_lo * b_hi)),
    (wrap_small 64 (a_hi * b_hi)) by lia.
  assert (Eab : a * b = a_hi * b_hi * 2 ^ 64 + (a_hi * b_lo + a_lo * b_hi) * 2 ^ 32 + a_lo * b_lo)
    by (subst a b; ring).
  rewrite Eab. clear Ea Eb Eab Hp.
  generalize dependent (a_lo * b_lo). intros ll Hll.
  generalize dependent (a_hi * b_lo). intros hl Hhl.
  generalize dependent (a_lo * b_hi). intros lh Hlh.
  generalize dependent (a_hi * b_hi). intros hh Hhh.
  rewrite (wrap_small 64 (hl + _)) by dlia.
  rewrite (wrap_small 64 (lh + _)) by dlia.
  rewrite (wrap_small 64 (hh + _)) by dlia.
  rewrite (wrap_small 64 (_ + _)) by dlia.
  dlia.
Qed.

Lemma mul_int128_exact a b :
  0 <= a <= UINT64_MAX -> 0 <= b <= UINT64_MAX ->
  let '(hi, lo) := mul_u64_wide_int128 a b in
  hi * 2 ^ 64 + lo = a * b /\ 0 <= lo < 2 ^ 64 /\ 0 <= hi < 2 ^ 64.
Proof.
  unfold UINT64_MAX. intros Ha Hb. unfold mul_u64_wide_int128.
  assert (0 <= a * b <= (2 ^ 64 - 1) * (2 ^ 64 - 1)) by nia. generalize dependent (a * b). intros p Hp.
  rewrite Z.shiftr_div_pow2 by lia. rewrite (wrap_small 64 (p / _)) by dlia. unfold wrap. dlia.
Qed.

Lemma mul_exact portable a b :
  0 <= a <= UINT64_MAX -> 0 <= b <= UINT64_MAX ->
  exists hi lo, mul_u64_wide portable a b = (hi, lo) /\
    hi * 2 ^ 64 + lo = a * b /\ 0 <= lo < 2 ^ 64 /\ 0 <= hi < 2 ^ 64.
Proof.
  intros Ha Hb. pose proof (mul_portable_exact a b Ha Hb). pose proof (mul_int128_exact a b Ha Hb).
  destruct portable; cbn [mul_u64_wide].
  - destruct (mul_u64_wide_portable a b) as [hi lo]; eauto.
  - destruct (mul_u64_wide_int128 a b) as [hi lo]; eauto.
Qed.

(** ** The comparator *)

Lemma kPow10_spec k : 0 <= k < 19 -> zget kPow10 k = 10 ^ k.
Proof.
  intros. assert (forallb (fun n => zget kPow10 (Z.of_nat n) =? 10 ^ Z.of_nat n) (seq 0 19) = true)
    as Hall by reflexivity.
  rewrite forallb_forall in Hall. specialize (Hall (Z.to_nat k)).
  rewrite Z2Nat.id in Hall by lia. apply Z.eqb_eq, Hall, in_seq. lia.
Qed.

Lemma compare_magnitudes_spec portable x y k :
  0 < x <= INT64_MAX -> 0 < y <= INT64_MAX -> 0 <= k ->
  compare_magnitudes portable x y k = Z.compare (x * 10 ^ k) y.
Proof.
  intros Hx Hy Hk. unfold compare_magnitudes. destruct (19 <=? k) eqn:E.
  - symmetry. apply Z.compare_gt_iff. assert (10 ^ 19 <= 10 ^ k) by (apply Z.pow_le_mono_r; lia).
    unfold INT64_MAX in Hy. nia.
  - rewrite kPow10_spec by lia.
    assert (0 < 10 ^ k <= 10 ^ 18) by (split; [apply Z.pow_pos_nonneg; lia|apply Z.pow_le_mono_r; lia]).
    destruct (mul_exact portable x (10 ^ k)) as (hi & lo & -> & <- & Hlo & Hhi);
      [unfold UINT64_MAX, INT64_MAX in *; lia..|].
    unfold INT64_MAX in *. destruct (Z.compare_spec (hi * 2 ^ 64 + lo) y); case_tests; done || lia.
Qed.

Lemma compare_scale a b p : 0 < p -> Z.compare (a * p) (b * p) = Z.compare a b.
Proof. intros. rewrite !(Z.mul_comm _ p). symmetry. apply Zmult_compare_compat_l. lia. Qed.

(** Comparing the scaled values is comparing after scaling by the exponent gap. *)
Lemma dvalue_gap a b : -128 <= exponent b -> exponent b <= exponent a ->
  Z.compare (dvalue a) (dvalue b) =
  Z.compare (mantissa a * 10 ^ (exponent a - exponent b)) (mantissa b).
Proof.
  intros Hb Hab. unfold dvalue.
  replace (exponent a + 128) with ((exponent a - exponent b) + (exponent b + 128)) by lia.
  rewrite Z.pow_add_r, Z.mul_assoc by lia. apply compare_scale. apply Z.pow_pos_nonneg; lia.
Qed.

Lemma pow_pos_128 e : -128 <= e -> 0 < 10 ^ (e + 128).
Proof. intros. apply Z.pow_pos_nonneg; lia. Qed.

Lemma is_finite_spec d : wf_pod d -> is_finite d = true <-> - INT64_MAX <= mantissa d.
Proof. unfold wf_pod, is_finite, INT64_MIN, INT64_MAX. lia. Qed.

(** Sign decides between values of different signs. *)
Lemma dvalue_sign d : -128 <= exponent d ->
  (dvalue d < 0 <-> mantissa d < 0) /\ (dvalue d = 0 <-> mantissa d = 0).
Proof. intros He. pose proof (pow_pos_128 _ He). unfold dvalue. nia. Qed.

(** The magnitude branch, both operands nonzero and of one sign [s]. *)
Lemma compare_same_sign portable (s : Z) a b :
  (s = 1 \/ s = -1) -> 0 < s * mantissa a <= INT64_MAX -> 0 < s * mantissa b <= INT64_MAX ->
  -128 <= exponent a -> -128 <= exponent b ->
  let a_scales := exponent b <? exponent a in
  let c := compare_magnitudes portable
      (s * mantissa (if a_scales then a else b)) (s * mantissa (if a_scales then b else a))
      (if a_scales then exponent a - exponent b else exponent b - exponent a) in
  Z.compare (s * dvalue a) (s * dvalue b) = if a_scales then c else CompOpp c.
Proof.
  intros Hs Ha Hb Hea Heb. cbv zeta.
  assert (Hgap : forall x y, -128 <= exponent y -> exponent y <= exponent x ->
    0 < s * mantissa x <= INT64_MAX -> 0 < s * mantissa y <= INT64_MAX ->
    Z.compare (s * dvalue x) (s * dvalue y) =
    compare_magnitudes portable (s * mantissa x) (s * mantissa y) (exponent x - exponent y)).
  { intros x y Hy Hxy Hmx Hmy. rewrite compare_magnitudes_spec by lia.
    pose proof (dvalue_gap (PodDecimal (s * mantissa x) (exponent x))
                  (PodDecimal (s * mantissa y) (exponent y)) Hy Hxy) as Hg.
    unfold dvalue in *. cbn [mantissa exponent] in *. rewrite <- Hg. f_equal; ring. }
  destruct (exponent b <? exponent a) eqn:E; [apply Hgap; lia|].
  rewrite <- Hgap by lia. apply Z.compare_antisym.
Qed.

Lemma compare_finite portable a b :
  wf_pod a -> wf_pod b -> is_finite a = true -> is_finite b = true ->
  compare portable a b = Z.compare (dvalue a) (dvalue b).
Proof.
  intros Ha Hb Hfa Hfb. pose proof (proj1 (is_finite_spec a Ha) Hfa).
  pose proof (proj1 (is_finite_spec b Hb) Hfb).
  destruct Ha as [Hma Hea], Hb as [Hmb Heb].
  destruct (dvalue_sign a) as [Sa Za]; [lia|]. destruct (dvalue_sign b) as [Sb Zb]; [lia|].
  unfold is_finite in *. unfold compare. apply negb_true_iff in Hfa as ->, Hfb as ->.
  cbn [andb]. destruct (mantissa a <? 0) eqn:Na, (mantissa b <? 0) eqn:Nb; cbn [negb Bool.eqb].
  2: { symmetry. apply Z.compare_lt_iff. lia. }
  2: { symmetry. apply Z.compare_gt_iff. lia. }
  all: destruct (exponent a =? exponent b) eqn:Ee;
    [unfold dvalue; replace (exponent b) with (exponent a) by lia;
     symmetry; apply compare_scale, pow_pos_128; lia|].
  - replace (mantissa a =? 0) with false by lia. replace (mantissa b =? 0) with false by lia. cbn [andb].
    rewrite !wrap_small by (unfold INT64_MAX in *; lia).
    pose proof (compare_same_sign portable (-1) a b ltac:(lia) ltac:(lia) ltac:(lia) ltac:(lia) ltac:(lia)) as Hc.
    replace (-1 * dvalue a ?= -1 * dvalue b) with (CompOpp (dvalue a ?= dvalue b)) in Hc
      by (rewrite <- Z.compare_antisym, Z.compare_opp; f_equal; lia).
    rewrite <- (CompOpp_involutive (dvalue a ?= dvalue b)), Hc.
    destruct (exponent b <? exponent a); do 4 f_equal; lia.
  - destruct (mantissa a =? 0) eqn:Za0, (mantissa b =? 0) eqn:Zb0; cbn [andb].
    + symmetry. apply Z.compare_eq_iff. lia.
    + symmetry. apply Z.compare_lt_iff. lia.
    + symmetry. apply Z.compare_gt_iff. lia.
    + rewrite !wrap_small by (unfold INT64_MAX in *; lia).
      pose proof (compare_same_sign portable 1 a b ltac:(lia) ltac:(lia) ltac:(lia) ltac:(lia) ltac:(lia)) as Hc.
      rewrite !Z.mul_1_l in Hc. rewrite Hc.
      destruct (exponent b <? exponent a); [|f_equal]; f_equal; lia.
Qed.

Lemma compare_spec portable a b :
  wf_pod a -> wf_pod b -> compare portable a b = spec_compare a b.
Proof.
  intros Ha Hb. unfold spec_compare. destruct (is_finite a) eqn:Fa, (is_finite b) eqn:Fb.
  - by apply compare_finite.
  - unfold is_finite, compare in *. apply negb_true_iff in Fa as ->.
    by apply negb_false_iff in Fb as ->.
  - unfold is_finite, compare in *. apply negb_true_iff in Fb as ->.
    by apply negb_false_iff in Fa as ->.
  - unfold is_finite, compare in *. apply negb_false_iff in Fb as ->.
    by apply negb_false_iff in Fa as ->.
Qed.

Lemma spec_compare_antisym a b : spec_compare b a = CompOpp (spec_compare a b).
Proof.
  unfold spec_compare. destruct (is_finite a), (is_finite b); try done. apply Z.compare_antisym.
Qed.

Lemma spec_compare_trans a b c :
  spec_compare a b <> Gt -> spec_compare b c <> Gt -> spec_compare a c <> Gt.
Proof.
  unfold spec_compare. destruct (is_finite a), (is_finite b), (is_finite c); try done.
  apply Z.le_trans.
Qed.

Lemma canonical_wf v : canonical v -> wf_pod v /\ is_finite v = true.
Proof. unfold canonical, wf_pod, is_finite, INT64_MIN, INT64_MAX. lia. Qed.

(** Serializing and parsing a nonzero canonical value. *)
Lemma body_parses v : canonical v -> mantissa v <> 0 ->
  exists v', from_chars (to_chars_body v) = Ok v' /\ canonical v' /\ dvalue v' = dvalue v.
Proof.
  intros Hc Hnz. destruct (to_chars_body_text v Hc Hnz) as (ip & fp & k & Ht & Hk & Hfp & Hv & _).
  destruct Hc as [Hm He]. rewrite (from_chars_text _ _ _ _ Ht). unfold float_result.
  assert (0 < 10 ^ k) by (apply Z.pow_pos_nonneg; lia).
  pose proof (zlen_nonneg fp). assert (0 <= dec_value (ip ++ fp) <= INT64_MAX).
  { destruct Ht as (? & _ & _ & _ & Hi & Hf).
    pose proof (dec_value_bounds (ip ++ fp) ltac:(by apply Forall_app)).
    unfold INT64_MAX, INT64_MIN in *. nia. }
  replace ((38 <? zlen fp) || _) with false by lia.
  eexists. split; [done|]. unfold canonical, dvalue; cbn [mantissa exponent].
  split; [destruct (mantissa v <? 0); unfold INT64_MIN, INT64_MAX in *; lia|].
  replace (- zlen fp + 128) with (k + (exponent v + 128)) by lia.
  rewrite Z.pow_add_r, Z.mul_assoc by lia. f_equal. destruct (mantissa v <? 0) eqn:?; lia.
Qed.

(** ** Properties *)

(** The FLOAT parser.  An accepted text is grammatical and yields exactly its
    mantissa and exponent; an overflow is reported exactly for grammatical text whose
    fraction has more than 38 digits or whose mantissa exceeds INT64_MAX; everything
    else is invalid input — the syntax error takes precedence over the overflow. *)
Theorem from_chars_correct s :
  match from_chars s with
  | Ok d => exists neg ip fp, float_text s neg ip fp /\ zlen fp <= 38 /\
      dec_value (ip ++ fp) <= INT64_MAX /\ exponent d = - zlen fp /\
      mantissa d = (if neg then -1 else 1) * dec_value (ip ++ fp)
  | Err decimal_overflow => exists neg ip fp, float_text s neg ip fp /\
      (38 < zlen fp \/ INT64_MAX < dec_value (ip ++ fp))
  | Err e => e = decimal_invalid_input /\ ~ exists neg ip fp, float_text s neg ip fp
  end.
Proof.
  destruct (from_chars_reject s) as [E|(neg & ip & fp & Ht)].
  - rewrite E. split; [done|]. intros (neg & ip & fp & Ht).
    rewrite (from_chars_text _ _ _ _ Ht) in E. unfold float_result in E. by destruct (_ || _).
  - rewrite (from_chars_text _ _ _ _ Ht). unfold float_result.
    destruct ((38 <? zlen fp) || _) eqn:E; exists neg, ip, fp; (split; [done|]); [lia|].
    cbn [mantissa exponent]. lia.
Qed.

(** Round trip.  Into a buffer of [max_serialized_bytes] every canonical value
    serializes, touches no byte past the length it reports, and parses back to a
    canonical value that compares equal. *)
Theorem decimal_round_trip portable v dst :
  canonical v -> max_serialized_bytes <= zlen dst ->
  exists dst' n v', to_chars v dst = Ok (dst', n) /\ 0 < n <= max_serialized_bytes /\
    zlen dst' = zlen dst /\ zdrop n dst' = zdrop n dst /\
    from_chars (ztake n dst') = Ok v' /\ canonical v' /\ compare portable v' v = Eq.
Proof.
  unfold max_serialized_bytes. intros Hc Hl. destruct (canonical_wf v Hc) as [Hw Hf].
  unfold to_chars. unfold is_finite in Hf. apply negb_true_iff in Hf as ->.
  replace (_ || _) with false by (unfold canonical, kCanonicalExpMax, kCanonicalExpMin in *; lia).
  assert (Hw' : forall d, d = [48] \/ zlen d <= 41 -> zlen d <= zlen dst) by (intros d [->|]; zlen_lia).
  destruct (decide (mantissa v = 0)) as [E|E].
  - rewrite E. destruct dst as [|b dst]; [zlen_lia|]. cbn [Z.eqb].
    exists (48 :: dst), 1, (PodDecimal 0 0). repeat split; try done; try lia.
    rewrite compare_spec by (done || (unfold wf_pod, INT64_MIN, INT64_MAX; cbn; lia)).
    unfold spec_compare, is_finite, dvalue. rewrite E. done.
  - replace (mantissa v =? 0) with false by lia.
    destruct (to_chars_body_text v Hc E) as (ip & fp & k & Ht & _ & _ & _ & Hlen & _).
    destruct (body_parses v Hc E) as (v' & Hp & Hc' & Hd). unfold max_serialized_bytes in Hlen.
    replace (zlen dst <? zlen (to_chars_body v)) with false by lia.
    exists (zwrite dst 0 (to_chars_body v)), (zlen (to_chars_body v)), v'.
    pose proof (zlen_nonneg (to_chars_body v)).
    assert (zlen (to_chars_body v) <> 0).
    { intros E0%zlen_0_nil. rewrite E0 in Hp. done. }
    rewrite zlen_write, zwrite_0, zdrop_app, ztake_app by lia.
    repeat split; try done; try lia; try apply Hc'.
    destruct (canonical_wf v' Hc'). destruct (canonical_wf v Hc).
    rewrite compare_finite by done. rewrite Hd. apply Z.compare_refl.
Qed.

Lemma decimal_round_trip_witness :
  canonical (PodDecimal (-1002500) (-4)) /\
  exists dst' n v', to_chars (PodDecimal (-1002500) (-4)) (replicate 41 0) = Ok (dst', n) /\
    from_chars (ztake n dst') = Ok v' /\ compare true v' (PodDecimal (-1002500) (-4)) = Eq.
Proof.
  assert (Hc : canonical (PodDecimal (-1002500) (-4)))
    by (unfold canonical, INT64_MIN, INT64_MAX; cbn; lia).
  split; [exact Hc|].
  destruct (decimal_round_trip true (PodDecimal (-1002500) (-4)) (replicate 41 0)
              Hc ltac:(vm_compute; discriminate)) as (dst' & n & v' & H1 & _ & _ & _ & H2 & _ & H3).
  exists dst', n, v'. auto.
Defined.

(** The comparator is exact.  On any two bit patterns, on either multiply branch,
    it orders finite values by their exact decimal value (whatever the exponents) and
    the sentinel above every finite value. *)
Theorem compare_exact portable a b :
  wf_pod a -> wf_pod b -> compare portable a b = spec_compare a b.
Proof. apply compare_spec. Qed.

Lemma compare_exact_witness :
  compare false (PodDecimal 1 0) (PodDecimal 1000000000000000001 (-18)) = Lt /\
  spec_compare (PodDecimal 1 0) (PodDecimal 1000000000000000001 (-18)) = Lt.
Proof.
  rewrite <- (compare_exact false (PodDecimal 1 0) (PodDecimal 1000000000000000001 (-18)))
    by (unfold wf_pod, INT64_MIN, INT64_MAX; cbn; lia).
  split; vm_compute; reflexivity.
Defined.

(** the comparator is a total preorder — reversing the operands reverses the
    answer, and "not greater" is transitive — so sorting by it is well defined. *)
Theorem compare_preorder portable a b c :
  wf_pod a -> wf_pod b -> wf_pod c ->
  compare portable b a = CompOpp (compare portable a b) /\
  (compare portable a b <> Gt -> compare portable b c <> Gt -> compare portable a c <> Gt).
Proof.
  intros. rewrite !compare_spec by done. split; [apply spec_compare_antisym|apply spec_compare_trans].
Qed.

Lemma compare_preorder_witness :
  compare true (PodDecimal 25 (-1)) (PodDecimal 2 0) = CompOpp (compare true (PodDecimal 2 0) (PodDecimal 25 (-1))) /\
  compare true (PodDecimal 2 0) pod_decimal_invalid <> Gt.
Proof.
  destruct (compare_preorder true (PodDecimal 2 0) (PodDecimal 25 (-1)) pod_decimal_invalid) as [H1 H2];
    [unfold wf_pod, INT64_MIN, INT64_MAX; vm_compute; intuition discriminate..|].
  split; [exact H1|]. apply H2; vm_compute; discriminate.
Defined.

(** the 32-bit-limb multiply and the [__int128] multiply return the same two
    limbs, the exact 128-bit product. *)
Theorem mul_u64_wide_equiv a b :
  0 <= a <= UINT64_MAX -> 0 <= b <= UINT64_MAX ->
  mul_u64_wide_portable a b = mul_u64_wide_int128 a b /\
  (mul_u64_wide_portable a b).1 * 2 ^ 64 + (mul_u64_wide_portable a b).2 = a * b.
Proof.
  intros Ha Hb. pose proof (mul_portable_exact a b Ha Hb). pose proof (mul_int128_exact a b Ha Hb).
  destruct (mul_u64_wide_portable a b), (mul_u64_wide_int128 a b). cbn [fst snd].
  split; [f_equal|]; lia.
Qed.

Lemma mul_u64_wide_equiv_witness :
  mul_u64_wide_portable UINT64_MAX UINT64_MAX = (18446744073709551614, 1) /\
  mul_u64_wide_portable UINT64_MAX UINT64_MAX = mul_u64_wide_int128 UINT64_MAX UINT64_MAX.
Proof.
  split; [vm_compute; reflexivity|].
  apply (mul_u64_wide_equiv UINT64_MAX UINT64_MAX); unfold UINT64_MAX; lia.
Defined.
