(* ===== verification/FixTime.v ===== *)
(** FIX UTCTimestamp text (src/core/fix_time.cpp): the digit writers and readers, the
    civil-calendar conversions, the formatter at the four precisions and the lenient
    parser with its exact range check. *)
From S2P Require Import Prelude Errors.

(** ** Digit helpers *)

(** The loop [for (int i = width - 1; i >= 0; --i)]: [acc] is what is already written
    at the right end. *)
Fixpoint write_digits_loop (i : nat) (value : Z) (acc : bytes) : bytes :=
  match i with
  | O => acc
  | S i => write_digits_loop i (value / 10) ((48 + value mod 10) :: acc)
  end.
Definition write_digits (value : Z) (width : nat) : bytes := write_digits_loop width value [].

Fixpoint parse_digits_loop (cs : bytes) (v : Z) : Z :=
  match cs with
  | [] => v
  | c :: cs => if (c <? 48) || (57 <? c) then -1 else parse_digits_loop cs (v * 10 + (c - 48))
  end.
(** Reads [s[0 .. width-1]]; -1 on a non-digit. *)
Definition parse_digits (s : bytes) (width : nat) : Z := parse_digits_loop (take width s) 0.

(** ** Calendar *)

Record date_t := Date { year : Z; month : Z; day : Z }.

(** C++ [%] on the signed year. *)
Definition is_leap (y : Z) : bool :=
  (Z.rem y 4 =? 0) && negb (Z.rem y 100 =? 0) || (Z.rem y 400 =? 0).

Definition dom : list Z := [0; 31; 28; 31; 30; 31; 30; 31; 31; 30; 31; 30; 31].

Definition days_in_month (y m : Z) : Z :=
  if (m =? 2) && is_leap y then 29 else zget dom m.

Definition days_to_date (days : Z) : date_t :=
  let z := days + 719468 in
  let era := Z.quot (if 0 <=? z then z else z - 146096) 146097 in
  let doe := u32 (z - era * 146097) in
  let yoe := u32 (doe - doe / 1460 + doe / 36524 - doe / 146096) / 365 in
  let y := yoe + era * 400 in
  let doy := u32 (doe - (365 * yoe + yoe / 4 - yoe / 100)) in
  let mp := (5 * doy + 2) / 153 in
  let d := u8 (doy - (153 * mp + 2) / 5 + 1) in
  let m := u8 (if mp <? 10 then mp + 3 else mp - 9) in
  Date (y + (if m <=? 2 then 1 else 0)) m d.

Definition date_to_days (y m d : Z) : Z :=
  let y := y - (if m <=? 2 then 1 else 0) in
  let era := Z.quot (if 0 <=? y then y else y - 399) 400 in
  let yoe := u32 (y - era * 400) in
  let doy := u32 ((153 * (if 2 <? m then m - 3 else m + 9) + 2) / 5 + d - 1) in
  let doe := u32 (yoe * 365 + yoe / 4 - yoe / 100 + doy) in
  era * 146097 + doe - 719468.

(** ** Range helpers *)

Definition kNsPerSec : Z := 1000000000.

Record split_ns := SplitNs { sec : Z; sub : Z }.

Definition split_floored (ns : Z) : split_ns :=
  let s := Z.quot ns kNsPerSec in
  let r := Z.rem ns kNsPerSec in
  if r <? 0 then SplitNs (s - 1) (r + kNsPerSec) else SplitNs s r.

(** ** Format *)

Inductive fix_time_precision : Set := seconds | millis | micros | nanos.

Definition needed (prec : fix_time_precision) : Z :=
  match prec with seconds => 17 | millis => 21 | micros => 24 | nanos => 27 end.

(** The characters written for the instant [tp] (nanoseconds since the epoch). *)
Definition timestamp_text (tp : Z) (prec : fix_time_precision) : bytes :=
  let sec_total := tp / kNsPerSec in
  let r := Z.rem tp kNsPerSec in
  let ns_rem := if r <? 0 then r + kNsPerSec else r in
  let day_count := Z.quot sec_total 86400 in
  let tod := Z.rem sec_total 86400 in
  let '(time_of_day, epoch_days) :=
    if tod <? 0 then (tod + 86400, day_count - 1) else (tod, day_count) in
  let HH := u8 (time_of_day / 3600) in
  let MM := u8 (time_of_day mod 3600 / 60) in
  let SS := u8 (time_of_day mod 60) in
  let dt := days_to_date epoch_days in
  write_digits (u32 (year dt)) 4 ++ write_digits (month dt) 2 ++ write_digits (day dt) 2 ++
  [45] ++ write_digits HH 2 ++ [58] ++ write_digits MM 2 ++ [58] ++ write_digits SS 2 ++
  match prec with
  | seconds => []
  | millis => 46 :: write_digits (ns_rem / 1000000) 3
  | micros => 46 :: write_digits (ns_rem / 1000) 6
  | nanos => 46 :: write_digits ns_rem 9
  end.

(** The output buffer after the call and the length of the returned sub-span. *)
Definition utc_time_to_fix_string (tp : Z) (prec : fix_time_precision) (out : bytes)
  : expected (bytes * Z) :=
  if zlen out <? needed prec then Err decimal_buffer_too_small
  else
    let text := timestamp_text tp prec in
    Ok (zwrite out 0 text, zlen text).

(** ** Parse *)

Definition scale : list Z :=
  [1000000000; 100000000; 10000000; 1000000; 100000; 10000; 1000; 100; 10; 1].

(** The fraction digits accumulated left to right; [None] at a non-digit. *)
Fixpoint parse_fraction (cs : bytes) (frac : Z) : option Z :=
  match cs with
  | [] => Some frac
  | c :: cs => if (c <? 48) || (57 <? c) then None else parse_fraction cs (frac * 10 + (c - 48))
  end.

Definition kMax : split_ns := split_floored INT64_MAX.
Definition kMin : split_ns := split_floored INT64_MIN.

(** Lexicographic [a > b] on (second, sub-second) pairs. *)
Definition pair_gt (a b : split_ns) : bool :=
  (sec b <? sec a) || (sec a =? sec b) && (sub b <? sub a).

Definition compose_ns (epoch_sec ns_sub : Z) : expected Z :=
  let out_of_range :=
    if u64 (kMax.(sec) - kMin.(sec) - 1) <=? u64 (epoch_sec - (kMin.(sec) + 1)) then
      let at_ := SplitNs epoch_sec ns_sub in pair_gt at_ kMax || pair_gt kMin at_
    else false in
  if out_of_range then Err wire_invalid_field_format
  else Ok (i64 (u64 (u64 (u64 epoch_sec * u64 kNsPerSec) + u64 ns_sub))).

Definition fix_string_to_utc_time (s : bytes) : expected Z :=
  let bad := wire_invalid_field_format in
  let len := zlen s in
  if (len <? 17) || (len =? 18) || (27 <? len) then Err bad
  else if (17 <? len) && negb (zget s 17 =? 46) then Err bad
  else
    let p := s in
    let year_i := parse_digits p 4 in
    guard negb (year_i <? 0) else bad in
    let p := zdrop 4 p in
    let month_i := parse_digits p 2 in
    guard negb ((month_i <? 1) || (12 <? month_i)) else bad in
    let p := zdrop 2 p in
    let day_i := parse_digits p 2 in
    guard negb ((day_i <? 1) || (31 <? day_i)) else bad in
    let p := zdrop 2 p in
    guard negb (days_in_month year_i month_i <? day_i) else bad in
    guard zget p 0 =? 45 else bad in
    let p := zdrop 1 p in
    let hh_i := parse_digits p 2 in
    guard negb ((hh_i <? 0) || (23 <? hh_i)) else bad in
    let p := zdrop 2 p in
    guard zget p 0 =? 58 else bad in
    let p := zdrop 1 p in
    let mm_i := parse_digits p 2 in
    guard negb ((mm_i <? 0) || (59 <? mm_i)) else bad in
    let p := zdrop 2 p in
    guard zget p 0 =? 58 else bad in
    let p := zdrop 1 p in
    let ss_i := parse_digits p 2 in
    guard negb ((ss_i <? 0) || (60 <? ss_i)) else bad in
    let p := zdrop 2 p in
    let frac :=
      if 17 <? len then
        let p := zdrop 1 p in
        let fraction_width := len - 18 in
        match parse_fraction (ztake fraction_width p) 0 with
        | None => Err bad
        | Some frac => Ok (frac * zget scale fraction_width)
        end
      else Ok 0 in
    let? ns_sub := frac in
    let epoch_days := date_to_days year_i month_i day_i in
    let epoch_sec := epoch_days * 86400 + hh_i * 3600 + mm_i * 60 + ss_i in
    compose_ns epoch_sec ns_sub.

(** ** Specification *)

(** The text of a timestamp with the given fields and fraction digits [fs]. *)
Definition fields_text (y mo d hh mi ss : Z) (fs : bytes) : bytes :=
  fixed_digits 4 y ++ fixed_digits 2 mo ++ fixed_digits 2 d ++ [45] ++
  fixed_digits 2 hh ++ [58] ++ fixed_digits 2 mi ++ [58] ++ fixed_digits 2 ss ++
  match fs with [] => [] | _ => 46 :: fs end.

Definition fields_valid (y mo d hh mi ss : Z) (fs : bytes) : Prop :=
  0 <= y <= 9999 /\ 1 <= mo <= 12 /\ 1 <= d <= days_in_month y mo /\
  0 <= hh <= 23 /\ 0 <= mi <= 59 /\ 0 <= ss <= 60 /\ digits fs /\ zlen fs <= 9.

(** The instant the fields denote, in nanoseconds since the epoch. *)
Definition fields_ns (y mo d hh mi ss : Z) (fs : bytes) : Z :=
  (date_to_days y mo d * 86400 + hh * 3600 + mi * 60 + ss) * kNsPerSec
  + dec_value fs * 10 ^ (9 - zlen fs).

Definition unit_ns (prec : fix_time_precision) : Z :=
  match prec with seconds => 1000000000 | millis => 1000000 | micros => 1000 | nanos => 1 end.

(** [floor<duration_for(prec)>(tp)] *)
Definition floor_to (prec : fix_time_precision) (tp : Z) : Z := tp / unit_ns prec * unit_ns prec.

(** ** The calendar conversions

    Both conversions work in eras of 400 years of 146097 days.  Inside an era the
    March-based year [y] covers the days [ystart y .. ynext y - 1]. *)

Definition ystart (y : Z) : Z := 365 * y + y / 4 - y / 100.
Definition ynext (y : Z) : Z := if y =? 399 then 146097 else ystart (y + 1).
Definition yoe_of (doe : Z) : Z :=
  (doe - doe / 1460 + doe / 36524 - doe / 146096) / 365.
Definition month_of (doy : Z) : Z * Z :=
  let mp := (5 * doy + 2) / 153 in
  (if mp <? 10 then mp + 3 else mp - 9, doy - (153 * mp + 2) / 5 + 1).
Definition doy_of (m d : Z) : Z := (153 * (if 2 <? m then m - 3 else m + 9) + 2) / 5 + d - 1.

Lemma forallb_range (f : Z -> bool) (n : nat) :
  forallb (fun k => f (Z.of_nat k)) (seq 0 n) = true -> forall z, 0 <= z < Z.of_nat n -> f z = true.
Proof.
  intros H z Hz. rewrite forallb_forall in H. specialize (H (Z.to_nat z)).
  rewrite Z2Nat.id in H by lia. apply H, in_seq. lia.
Qed.

Lemma yoe_of_mono a b : 0 <= a <= b -> yoe_of a <= yoe_of b.
Proof.
  intros Hab. unfold yoe_of. apply Z.div_le_mono; [lia|].
  replace b with (a + Z.of_nat (Z.to_nat (b - a))) by lia.
  induction (Z.to_nat (b - a)) as [|n IH]; [rewrite Z.add_0_r; lia|].
  etrans; [exact IH|]. rewrite Nat2Z.inj_succ. generalize (Z.of_nat n) (Nat2Z.is_nonneg n).
  intros k Hk. clear IH. replace (a + Z.succ k) with (a + k + 1) by lia.
  set (x := a + k). assert (0 <= x) by lia. clearbody x.
  change 146096 with (36524 * 4). rewrite <- !Z.div_div by lia.
  assert ((x + 1) / 1460 <= x / 1460 + 1) by dlia.
  assert (x / 36524 <= (x + 1) / 36524) by (apply Z.div_le_mono; lia).
  generalize dependent (x / 36524). generalize ((x + 1) / 36524). intros u' u Hu.
  assert (u - u / 4 <= u' - u' / 4) by dlia. lia.
Qed.

Lemma year_table y : 0 <= y < 400 ->
  yoe_of (ystart y) = y /\ yoe_of (ynext y - 1) = y /\ 0 <= ystart y /\
  ynext y = ystart y + (if is_leap (y + 1) then 366 else 365).
Proof.
  intros Hy. pose proof (forallb_range (fun y =>
    (yoe_of (ystart y) =? y) && (yoe_of (ynext y - 1) =? y) && (0 <=? ystart y) &&
    (ynext y =? ystart y + (if is_leap (y + 1) then 366 else 365))) 400
    ltac:(vm_compute; reflexivity) y ltac:(lia)) as H. cbn beta in H. lia.
Qed.

Lemma yoe_of_spec y doe : 0 <= y < 400 -> ystart y <= doe < ynext y -> yoe_of doe = y.
Proof.
  intros Hy Hd. destruct (year_table y Hy) as (H1 & H2 & H3 & _).
  pose proof (yoe_of_mono (ystart y) doe ltac:(lia)).
  pose proof (yoe_of_mono doe (ynext y - 1) ltac:(lia)). lia.
Qed.

(** Every day of an era lies in exactly one year. *)
Lemma doe_year doe : 0 <= doe < 146097 -> exists y, 0 <= y < 400 /\ ystart y <= doe < ynext y.
Proof.
  intros Hd.
  assert (Hind : forall n, (n <= 399)%nat -> doe < ystart (Z.of_nat n) ->
    exists y, 0 <= y < 400 /\ ystart y <= doe < ynext y).
  { induction n as [|n IH]; intros Hn Hlt; [change (doe < 0) in Hlt; lia|].
    destruct (decide (doe < ystart (Z.of_nat n))); [apply IH; lia|].
    exists (Z.of_nat n). split; [lia|]. unfold ynext.
    replace (Z.of_nat n =? 399) with false by lia. rewrite Nat2Z.inj_succ in Hlt.
    replace (Z.of_nat n + 1) with (Z.succ (Z.of_nat n)) by lia. lia. }
  destruct (decide (doe < ystart 399)); [apply (Hind 399%nat); [lia|done]|].
  exists 399. split; [lia|]. change (ynext 399) with 146097. lia.
Qed.

Lemma month_table doy : 0 <= doy <= 365 ->
  let '(m, d) := month_of doy in
  1 <= m <= 12 /\ 1 <= d <= (if m =? 2 then 29 else zget dom m) /\ doy_of m d = doy /\
  (m = 2 -> d = 29 -> doy = 365).
Proof.
  intros Hd. pose proof (forallb_range (fun doy => let '(m, d) := month_of doy in
    (1 <=? m) && (m <=? 12) && (1 <=? d) && (d <=? (if m =? 2 then 29 else zget dom m)) &&
    (doy_of m d =? doy) && (negb ((m =? 2) && (d =? 29)) || (doy =? 365))) 366
    ltac:(vm_compute; reflexivity) doy ltac:(lia)) as H. cbn beta in H.
  destruct (month_of doy) as [m d]. lia.
Qed.

(** The finite check behind [doy_table]. *)
Definition doy_check (m d : Z) : bool :=
  negb ((1 <=? m) && (1 <=? d) && (d <=? (if m =? 2 then 29 else zget dom m))) ||
  ((0 <=? doy_of m d) && (doy_of m d <=? 365) && ((month_of (doy_of m d)).1 =? m) &&
   ((month_of (doy_of m d)).2 =? d) && (negb (doy_of m d =? 365) || (m =? 2) && (d =? 29))).

Lemma dom_bound k : zget dom k <= 31.
Proof.
  unfold zget. destruct (nth_in_or_default (Z.to_nat k) dom 0) as [Hin| ->]; [|lia].
  assert (forallb (fun x => x <=? 31) dom = true) as Hall by reflexivity.
  rewrite forallb_forall in Hall. specialize (Hall _ Hin). lia.
Qed.

Lemma doy_table m d : 1 <= m <= 12 -> 1 <= d <= (if m =? 2 then 29 else zget dom m) ->
  0 <= doy_of m d <= 365 /\ month_of (doy_of m d) = (m, d) /\
  (doy_of m d = 365 -> m = 2 /\ d = 29).
Proof.
  intros Hm Hd.
  pose proof (forallb_range (fun m => forallb (fun k => doy_check m (Z.of_nat k)) (seq 0 32)) 13
    ltac:(vm_compute; reflexivity) m ltac:(lia)) as H. cbn beta in H.
  pose proof (dom_bound m).
  apply (forallb_range (doy_check m) 32) with (z := d) in H; [|destruct (m =? 2); lia].
  unfold doy_check in H. destruct (month_of (doy_of m d)) as [m' d']. cbn [fst snd] in H.
  repeat split; try lia. f_equal; lia.
Qed.

Lemma is_leap_period y e : is_leap (y + e * 400) = is_leap y.
Proof.
  unfold is_leap.
  assert (forall k, (k = 4 \/ k = 100 \/ k = 400) -> (Z.rem (y + e * 400) k =? 0) = (Z.rem y k =? 0)) as H
    by (intros k [->|[->| ->]]; dlia).
  by rewrite !H by tauto.
Qed.

Lemma days_in_month_feb y : days_in_month y 2 = if is_leap y then 29 else 28.
Proof. unfold days_in_month. by destruct (is_leap y). Qed.

Lemma days_in_month_not_feb y m : m <> 2 -> days_in_month y m = zget dom m.
Proof. intros. unfold days_in_month. by replace (m =? 2) with false by lia. Qed.

Lemma days_in_month_period y e m : days_in_month (y + e * 400) m = days_in_month y m.
Proof. unfold days_in_month. by rewrite is_leap_period. Qed.

(** [days_to_date] by era, year of the era and day of the year. *)
Lemma days_to_date_unfold era y doy :
  0 <= y < 400 -> 0 <= doy < ynext y - ystart y ->
  days_to_date (era * 146097 + ystart y + doy - 719468) =
  let '(m, d) := month_of doy in
  Date (y + era * 400 + (if m <=? 2 then 1 else 0)) m d.
Proof.
  intros Hy Hdoy. destruct (year_table y Hy) as (_ & _ & Hs & Hn).
  assert (Hrange : ystart y + doy < 146097).
  { pose proof (forallb_range (fun y => ynext y <=? 146097) 400 ltac:(vm_compute; reflexivity) y ltac:(lia)) as H.
    cbn beta in H. lia. }
  assert (Hdoy' : 0 <= doy <= 365) by (destruct (is_leap (y + 1)); lia).
  pose proof (month_table doy Hdoy') as Hm. unfold days_to_date.
  replace (era * 146097 + ystart y + doy - 719468 + 719468) with (era * 146097 + (ystart y + doy)) by lia.
  replace (Z.quot (if 0 <=? era * 146097 + (ystart y + doy) then _ else _) 146097) with era
    by (destruct (0 <=? _) eqn:?; dlia).
  replace (era * 146097 + (ystart y + doy) - era * 146097) with (ystart y + doy) by lia.
  rewrite (wrap_small 32 (ystart y + doy)) by lia.
  rewrite (wrap_small 32 (_ - _ + _ - _)) by dlia. fold (yoe_of (ystart y + doy)).
  rewrite (yoe_of_spec y) by lia. fold (ystart y).
  replace (ystart y + doy - ystart y) with doy by lia. rewrite (wrap_small 32 doy) by lia.
  unfold month_of in *. cbv zeta in *.
  set (mp := (5 * doy + 2) / 153) in *.
  pose proof (dom_bound (if mp <? 10 then mp + 3 else mp - 9)) as Hb.
  rewrite (wrap_small 8 (if mp <? 10 then _ else _)) by lia.
  rewrite (wrap_small 8 (doy - _ + 1)) by (destruct (_ =? 2); lia).
  done.
Qed.

Lemma date_to_days_unfold y m d : 1 <= m <= 12 -> 1 <= d <= days_in_month y m ->
  let y' := y - (if m <=? 2 then 1 else 0) in
  date_to_days y m d = (y' / 400) * 146097 + ystart (y' mod 400) + doy_of m d - 719468 /\
  0 <= doy_of m d < ynext (y' mod 400) - ystart (y' mod 400) /\ month_of (doy_of m d) = (m, d).
Proof.
  intros Hm Hd y'. assert (Hd' : 1 <= d <= (if m =? 2 then 29 else zget dom m)).
  { destruct (m =? 2) eqn:E; [|rewrite days_in_month_not_feb in Hd by lia; done].
    replace m with 2 in Hd by lia. rewrite days_in_month_feb in Hd. destruct (is_leap y); lia. }
  destruct (doy_table m d Hm Hd') as (Hdoy & Hmo & H365).
  assert (Hym : 0 <= y' mod 400 < 400) by (apply Z.mod_pos_bound; lia).
  destruct (year_table (y' mod 400) Hym) as (_ & _ & Hs & Hn). split; [|split; [|done]].
  - unfold date_to_days. fold y'.
    replace (Z.quot (if 0 <=? y' then y' else y' - 399) 400) with (y' / 400) by (case_tests; dlia).
    replace (y' - y' / 400 * 400) with (y' mod 400) by dlia.
    rewrite (wrap_small 32 (y' mod 400)) by lia. fold (doy_of m d).
    rewrite (wrap_small 32 (doy_of m d)) by lia.
    replace (y' mod 400 * 365 + y' mod 400 / 4 - y' mod 400 / 100) with (ystart (y' mod 400))
      by (unfold ystart; lia).
    rewrite (wrap_small 32); [lia|]. unfold ystart in *. dlia.
  - rewrite Hn. destruct (decide (doy_of m d = 365)) as [E|]; [|destruct (is_leap _); lia].
    destruct (H365 E) as [-> ->]. rewrite days_in_month_feb in Hd.
    replace (y' mod 400 + 1) with (y + (- (y' / 400)) * 400)
      by (subst y'; change (2 <=? 2) with true; cbv iota; dlia).
    rewrite is_leap_period. destruct (is_leap y); lia.
Qed.

(** Days to date and back, and the date is a real one. *)
Lemma civil_from_days days :
  let dt := days_to_date days in
  date_to_days (year dt) (month dt) (day dt) = days /\
  1 <= month dt <= 12 /\ 1 <= day dt <= days_in_month (year dt) (month dt).
Proof.
  assert (Hdoe : 0 <= (days + 719468) mod 146097 < 146097) by (apply Z.mod_pos_bound; lia).
  destruct (doe_year _ Hdoe) as (y & Hy & Hyd). set (era := (days + 719468) / 146097).
  set (doy := (days + 719468) mod 146097 - ystart y).
  assert (Hdays : days = era * 146097 + ystart y + doy - 719468)
    by (subst era doy; pose proof (Z.div_mod (days + 719468) 146097); lia).
  destruct (year_table y Hy) as (_ & _ & _ & Hn).
  pose proof (month_table doy ltac:(subst doy; destruct (is_leap (y + 1)); lia)) as Hm.
  pose proof (days_to_date_unfold era y doy Hy ltac:(subst doy; lia)) as Hu. rewrite <- Hdays in Hu.
  cbv zeta. rewrite Hu. destruct (month_of doy) as [m d]. cbn [year month day].
  set (Y := y + era * 400 + (if m <=? 2 then 1 else 0)).
  assert (Hdim : 1 <= d <= days_in_month Y m).
  { destruct (m =? 2) eqn:E; [|rewrite days_in_month_not_feb by lia; lia].
    assert (m = 2) by lia. subst m. rewrite days_in_month_feb.
    replace Y with (y + 1 + era * 400) by (subst Y; change (2 <=? 2) with true; cbv iota; lia). rewrite is_leap_period.
    destruct (is_leap (y + 1)) eqn:L; [lia|].
    destruct (decide (d = 29)); [|lia]. subst doy. lia. }
  split; [|lia]. destruct (date_to_days_unfold Y m d ltac:(lia) Hdim) as (-> & _ & _).
  replace (Y - (if m <=? 2 then 1 else 0)) with (y + era * 400) by (subst Y; lia).
  rewrite Z.div_add, Z.mod_add, Z.div_small, Z.mod_small by lia.
  destruct Hm as (_ & _ & Hdoy & _). lia.
Qed.

Lemma days_from_civil y m d : 1 <= m <= 12 -> 1 <= d <= days_in_month y m ->
  days_to_date (date_to_days y m d) = Date y m d.
Proof.
  intros Hm Hd. destruct (date_to_days_unfold y m d Hm Hd) as (-> & Hdoy & Hmo).
  set (y' := y - (if m <=? 2 then 1 else 0)) in *.
  rewrite days_to_date_unfold by (try apply Z.mod_pos_bound; lia). rewrite Hmo. f_equal.
  subst y'. dlia.
Qed.

(** ** Digit runs *)

Lemma write_digits_fixed v w : write_digits v w = fixed_digits w v.
Proof.
  unfold write_digits. rewrite <- (app_nil_r (fixed_digits w v)). generalize (@nil Z) as acc.
  revert v. induction w as [|w IH]; intros v acc; cbn; [done|]. rewrite IH, <- app_assoc. done.
Qed.

Lemma parse_digits_loop_digits ds v : digits ds -> parse_digits_loop ds v = dec_from v ds.
Proof.
  intros Hd. revert v. induction Hd as [|c ds Hc _ IH]; intros v; [done|].
  cbn. apply is_digit_spec in Hc. by replace ((c <? 48) || (57 <? c)) with false by lia.
Qed.

Lemma parse_digits_loop_inv ds v : 0 <= parse_digits_loop ds v -> digits ds.
Proof.
  revert v. induction ds as [|c ds IH]; intros v; cbn; [constructor|].
  destruct ((c <? 48) || (57 <? c)) eqn:E; [lia|]. intros H. constructor; [|by eapply IH].
  apply is_digit_spec. lia.
Qed.

Lemma parse_fraction_digits ds v : digits ds -> parse_fraction ds v = Some (dec_from v ds).
Proof.
  intros Hd. revert v. induction Hd as [|c ds Hc _ IH]; intros v; [done|].
  cbn. apply is_digit_spec in Hc. by replace ((c <? 48) || (57 <? c)) with false by lia.
Qed.

Lemma parse_fraction_inv ds v r : parse_fraction ds v = Some r -> digits ds.
Proof.
  revert v. induction ds as [|c ds IH]; intros v; cbn; [constructor|].
  destruct ((c <? 48) || (57 <? c)) eqn:E; [done|]. intros H. constructor; [|by eapply IH].
  apply is_digit_spec. lia.
Qed.

Lemma fixed_digits_len w v : length (fixed_digits w v) = w.
Proof. pose proof (fixed_digits_length w v). rewrite zlen_eq in *. lia. Qed.

Lemma parse_fixed_digits w v rest : 0 <= v < 10 ^ Z.of_nat w ->
  parse_digits (fixed_digits w v ++ rest) w = v.
Proof.
  intros Hv. unfold parse_digits. rewrite take_app_length' by (by rewrite fixed_digits_len).
  rewrite parse_digits_loop_digits by auto with fixpp. by apply fixed_digits_value_small.
Qed.

Lemma zdrop_fixed_digits w n v rest : n = Z.of_nat w ->
  zdrop n (fixed_digits w v ++ rest) = rest.
Proof. intros ->. rewrite <- (fixed_digits_length w v) at 1. apply zdrop_app. Qed.

Lemma parse_digits_inv p w n : n = Z.of_nat w -> n <= zlen p -> 0 <= parse_digits p w ->
  p = fixed_digits w (parse_digits p w) ++ zdrop n p /\ parse_digits p w < 10 ^ n.
Proof.
  intros -> Hw Hp. unfold parse_digits in *. pose proof (parse_digits_loop_inv _ _ Hp) as Hd.
  rewrite (parse_digits_loop_digits _ _ Hd). fold (dec_value (take w p)).
  assert (Hl : length (take w p) = w) by (rewrite length_take; rewrite zlen_eq in Hw; lia).
  split.
  - pose proof (fixed_digits_of_value _ Hd) as Ef. rewrite Hl in Ef. rewrite Ef. unfold zdrop. rewrite Nat2Z.id. by rewrite take_drop.
  - pose proof (dec_value_bounds _ Hd) as Hb. rewrite zlen_eq, Hl in Hb. lia.
Qed.

(** ** The range check *)

Lemma compose_ns_spec e n : - 2 ^ 62 < e < 2 ^ 62 -> 0 <= n < kNsPerSec ->
  compose_ns e n =
  if (INT64_MIN <=? e * kNsPerSec + n) && (e * kNsPerSec + n <=? INT64_MAX)
  then Ok (e * kNsPerSec + n) else Err wire_invalid_field_format.
Proof.
  intros He Hn. unfold compose_ns.
  change kMax with (SplitNs 9223372036 854775807). change kMin with (SplitNs (-9223372037) 145224192).
  cbn [sec sub]. unfold pair_gt. cbn [sec sub]. unfold kNsPerSec, INT64_MIN, INT64_MAX in *.
  change (u64 (9223372036 - -9223372037 - 1)) with 18446744072.
  match goal with |- (if ?c then _ else _) = (if ?d then _ else _) => assert (c = negb d) as -> end.
  { destruct (decide (0 <= e - (-9223372037 + 1))).
    - rewrite (wrap_small 64) by lia. case_tests; lia.
    - unfold wrap. replace ((e - (-9223372037 + 1)) mod 2 ^ 64) with (e - (-9223372037 + 1) + 2 ^ 64)
        by (rewrite <- (Z.mod_add _ 1) by lia; symmetry; apply Z.mod_small; lia).
      case_tests; lia. }
  destruct (_ && _) eqn:E; [|done]. cbn [negb]. f_equal. unfold wrap.
  rewrite Zplus_mod_idemp_r, <- Zplus_mod_idemp_l, Z.mod_mod, Zplus_mod_idemp_l by lia.
  rewrite <- Zplus_mod_idemp_l, <- Zmult_mod, Zplus_mod_idemp_l.
  unfold swrap. rewrite Zplus_mod_idemp_l. rewrite Z.mod_small; lia.
Qed.

Lemma date_to_days_bound y m d : 0 <= y <= 9999 -> 1 <= m <= 12 -> 1 <= d <= days_in_month y m ->
  -1000000 < date_to_days y m d < 4000000.
Proof.
  intros Hy Hm Hd. destruct (date_to_days_unfold y m d Hm Hd) as (-> & Hdoy & _).
  set (y' := y - _) in *. assert (-1 <= y' <= 9999) by (subst y'; case_tests; lia).
  assert (Hym : 0 <= y' mod 400 < 400) by (apply Z.mod_pos_bound; lia).
  destruct (year_table _ Hym) as (_ & _ & Hs & _).
  pose proof (forallb_range (fun y => ynext y <=? 146097) 400 ltac:(vm_compute; reflexivity) _ Hym) as Hb.
  cbn beta in Hb. assert (-1 <= y' / 400 <= 24) by dlia. lia.
Qed.

Lemma scale_spec n : 0 <= n <= 9 -> zget scale n = 10 ^ (9 - n).
Proof.
  intros Hn. pose proof (forallb_range (fun n => zget scale n =? 10 ^ (9 - n)) 10
    ltac:(vm_compute; reflexivity) n ltac:(lia)) as H. cbn beta in H. lia.
Qed.

Lemma fraction_bound fs : digits fs -> zlen fs <= 9 ->
  0 <= dec_value fs * 10 ^ (9 - zlen fs) < kNsPerSec.
Proof.
  intros Hd Hl. pose proof (dec_value_bounds fs Hd). pose proof (zlen_nonneg fs).
  assert (0 < 10 ^ (9 - zlen fs)) by (apply Z.pow_pos_nonneg; lia).
  change kNsPerSec with (10 ^ 9). replace 9 with (zlen fs + (9 - zlen fs)) at 3 by lia.
  rewrite Z.pow_add_r by lia. nia.
Qed.

(** ** The parser *)

Definition two_digits (v : Z) : Prop := 0 <= v < 100.

Lemma fields_text_len y mo d hh mi ss fs :
  zlen (fields_text y mo d hh mi ss fs) = match fs with [] => 17 | _ => 18 + zlen fs end.
Proof.
  unfold fields_text. rewrite !zlen_app, !fixed_digits_length.
  destruct fs; [by rewrite zlen_nilZ|]. rewrite !zlen_cons, zlen_nilZ. lia.
Qed.

Lemma fields_text_17 y mo d hh mi ss fs : fs <> [] -> zget (fields_text y mo d hh mi ss fs) 17 = 46.
Proof.
  intros Hfs. unfold fields_text. destruct fs as [|f fs]; [done|].
  do 8 (rewrite zget_app_r by (autorewrite with zlen; lia);
        rewrite ?fixed_digits_length, ?zlen_cons, ?zlen_nilZ). done.
Qed.

(** The parser on well-shaped text: the field checks, then the range check. *)
Lemma parse_text y mo d hh mi ss fs :
  0 <= y < 10000 -> two_digits mo -> two_digits d -> two_digits hh -> two_digits mi -> two_digits ss ->
  digits fs -> zlen fs <= 9 ->
  fix_string_to_utc_time (fields_text y mo d hh mi ss fs) =
  if (1 <=? mo) && (mo <=? 12) && (1 <=? d) && (d <=? 31) && (d <=? days_in_month y mo) &&
     (hh <=? 23) && (mi <=? 59) && (ss <=? 60)
  then compose_ns (date_to_days y mo d * 86400 + hh * 3600 + mi * 60 + ss)
         (dec_value fs * 10 ^ (9 - zlen fs))
  else Err wire_invalid_field_format.
Proof.
  unfold two_digits. intros Hy Hmo Hd Hhh Hmi Hss Hfs Hl. unfold fix_string_to_utc_time. cbv zeta.
  rewrite fields_text_len. pose proof (zlen_nonneg fs).
  assert (Hlen : (match fs with [] => 17 | _ => 18 + zlen fs end <? 17)
    || (match fs with [] => 17 | _ => 18 + zlen fs end =? 18)
    || (27 <? match fs with [] => 17 | _ => 18 + zlen fs end) = false).
  { destruct fs; [done|]. rewrite zlen_cons in *. pose proof (zlen_nonneg fs). lia. }
  rewrite Hlen.
  assert (H17 : (17 <? match fs with [] => 17 | _ => 18 + zlen fs end) &&
    negb (zget (fields_text y mo d hh mi ss fs) 17 =? 46) = false).
  { destruct fs as [|f fs]; [done|]. rewrite fields_text_17 by done. by rewrite andb_false_r. }
  rewrite H17. clear Hlen H17. unfold fields_text.
  rewrite parse_fixed_digits, (zdrop_fixed_digits 4 4) by (done || cbn; lia).
  rewrite parse_fixed_digits, (zdrop_fixed_digits 2 2) by (done || cbn; lia).
  rewrite parse_fixed_digits, (zdrop_fixed_digits 2 2) by (done || cbn; lia).
  cbn [app]. rewrite !zget_0. change (zdrop 1 (?x :: ?l)) with l. 
  rewrite parse_fixed_digits, (zdrop_fixed_digits 2 2) by (done || cbn; lia).
  cbn [app]. rewrite !zget_0. change (zdrop 1 (?x :: ?l)) with l. 
  rewrite parse_fixed_digits, (zdrop_fixed_digits 2 2) by (done || cbn; lia).
  cbn [app]. rewrite !zget_0. change (zdrop 1 (?x :: ?l)) with l. 
  rewrite parse_fixed_digits, (zdrop_fixed_digits 2 2) by (done || cbn; lia).
  match goal with |- context [rbind ?fr _] =>
    assert (fr = Ok (dec_value fs * 10 ^ (9 - zlen fs))) as -> end.
  { destruct fs as [|f fs]; [done|]. replace (17 <? 18 + zlen (f :: fs)) with true by lia.
    change (zdrop 1 (46 :: ?l)) with l. replace (18 + zlen (f :: fs) - 18) with (zlen (f :: fs)) by lia.
    rewrite ztake_ge, parse_fraction_digits, scale_spec by (done || lia). done. }
  cbn [rbind]. replace (y <? 0) with false by lia. replace (hh <? 0) with false by lia.
  replace (mi <? 0) with false by lia. replace (ss <? 0) with false by lia. cbn [negb orb Z.eqb Pos.eqb].
  case_tests; (done || (exfalso; lia)).
Qed.

Lemma ok_guard {A} (b : bool) e (k : expected A) v : (if b then k else Err e) = Ok v -> b = true /\ k = Ok v.
Proof. by destruct b. Qed.

(** Every accepted text has that shape. *)
Lemma parse_shape s t : fix_string_to_utc_time s = Ok t ->
  exists y mo d hh mi ss fs, s = fields_text y mo d hh mi ss fs /\ 0 <= y < 10000 /\
    two_digits mo /\ two_digits d /\ two_digits hh /\ two_digits mi /\ two_digits ss /\
    digits fs /\ zlen fs <= 9.
Proof.
  unfold fix_string_to_utc_time. cbv zeta. intros H.
  destruct ((zlen s <? 17) || _ || _) eqn:Hlen; [done|]. destruct ((17 <? zlen s) && _) eqn:H17; [done|].
  apply ok_guard in H as [Hy H]. apply ok_guard in H as [Hmo H]. apply ok_guard in H as [Hd H].
  apply ok_guard in H as [_ H]. apply ok_guard in H as [Hc1 H]. apply ok_guard in H as [Hhh H].
  apply ok_guard in H as [Hc2 H]. apply ok_guard in H as [Hmi H]. apply ok_guard in H as [Hc3 H].
  apply ok_guard in H as [Hss H].
  rewrite !zdrop_drop in * by lia. zconst.
  assert (Hl : forall i, 0 <= i <= 17 -> zlen (zdrop i s) = zlen s - i) by (intros; apply zlen_drop; lia).
  destruct (parse_digits_inv s 4 4) as [E1 B1]; [done|lia..|].
  destruct (parse_digits_inv (zdrop 4 s) 2 2) as [E2 B2]; [done|rewrite Hl; lia|lia|].
  destruct (parse_digits_inv (zdrop 6 s) 2 2) as [E3 B3]; [done|rewrite Hl; lia|lia|].
  destruct (parse_digits_inv (zdrop 9 s) 2 2) as [E4 B4]; [done|rewrite Hl; lia|lia|].
  destruct (parse_digits_inv (zdrop 12 s) 2 2) as [E5 B5]; [done|rewrite Hl; lia|lia|].
  destruct (parse_digits_inv (zdrop 15 s) 2 2) as [E6 B6]; [done|rewrite Hl; lia|lia|].
  rewrite !zdrop_drop in E2, E3, E4, E5, E6 by lia. zconst.
  rewrite !zget_drop in * by lia. rewrite !Z.add_0_r in *.
  assert (C1 : zdrop 8 s = 45 :: zdrop 9 s) by (rewrite zdrop_cons by lia; f_equal; lia).
  assert (C2 : zdrop 11 s = 58 :: zdrop 12 s) by (rewrite zdrop_cons by lia; f_equal; lia).
  assert (C3 : zdrop 14 s = 58 :: zdrop 15 s) by (rewrite zdrop_cons by lia; f_equal; lia).
  set (fs := zdrop 18 s).
  assert (T : zdrop 17 s = match fs with [] => [] | _ => 46 :: fs end).
  { subst fs. destruct (decide (zlen s = 17)) as [E|E]; [by rewrite !zdrop_ge by lia|].
    rewrite zdrop_cons by lia. replace (zget s 17) with 46 by lia. change (17 + 1) with 18.
    destruct (zdrop 18 s) eqn:E18; [|done]. apply (f_equal zlen) in E18.
    rewrite zlen_drop, zlen_nilZ in E18 by lia. lia. }
  exists (parse_digits s 4), (parse_digits (zdrop 4 s) 2), (parse_digits (zdrop 6 s) 2),
    (parse_digits (zdrop 9 s) 2), (parse_digits (zdrop 12 s) 2), (parse_digits (zdrop 15 s) 2), fs.
  unfold two_digits. repeat split; try lia.
  - rewrite E1 at 1. rewrite E2 at 1. rewrite E3 at 1. rewrite C1. rewrite E4 at 1. rewrite C2.
    rewrite E5 at 1. rewrite C3. rewrite E6 at 1. rewrite T. unfold fields_text. cbn [app]. done.
  - destruct (17 <? zlen s) eqn:E17; [|subst fs; rewrite zdrop_ge by lia; constructor].
    rewrite ztake_ge in H by (rewrite zlen_drop; lia). fold fs in H.
    destruct (parse_fraction fs 0) eqn:Ef; [|done]. by eapply parse_fraction_inv.
  - subst fs. destruct (decide (zlen s <= 18)); [rewrite zdrop_ge, zlen_nilZ; lia|rewrite zlen_drop; lia].
Qed.

(** ** The formatter *)

Definition fraction_digits (tp : Z) (prec : fix_time_precision) : bytes :=
  let ns := tp mod kNsPerSec in
  match prec with
  | seconds => []
  | millis => fixed_digits 3 (ns / 1000000)
  | micros => fixed_digits 6 (ns / 1000)
  | nanos => fixed_digits 9 ns
  end.

Lemma year_bound days : -719468 <= days < 2000000 -> 0 <= year (days_to_date days) <= 9999.
Proof.
  intros Hd. assert (Hdoe : 0 <= (days + 719468) mod 146097 < 146097) by (apply Z.mod_pos_bound; lia).
  destruct (doe_year _ Hdoe) as (y & Hy & Hyd).
  pose proof (days_to_date_unfold ((days + 719468) / 146097) y ((days + 719468) mod 146097 - ystart y) Hy
    ltac:(lia)) as Hu.
  replace (_ + ystart y + _ - 719468) with days in Hu by (pose proof (Z.div_mod (days + 719468) 146097); lia).
  rewrite Hu. destruct (month_of _) as [m d]. cbn [year].
  assert (0 <= (days + 719468) / 146097 <= 20) by dlia. destruct (m <=? 2); lia.
Qed.

Lemma floor_split tp : INT64_MIN <= tp <= INT64_MAX ->
  let sec := tp / kNsPerSec in
  (if Z.rem tp kNsPerSec <? 0 then Z.rem tp kNsPerSec + kNsPerSec else Z.rem tp kNsPerSec) = tp mod kNsPerSec /\
  (if Z.rem sec 86400 <? 0 then (Z.rem sec 86400 + 86400, Z.quot sec 86400 - 1)
   else (Z.rem sec 86400, Z.quot sec 86400)) = (sec mod 86400, sec / 86400).
Proof.
  unfold kNsPerSec. intros _. cbv zeta. split; [case_tests; dlia|].
  generalize (tp / 1000000000). intros sec. destruct (Z.rem sec 86400 <? 0) eqn:E; f_equal; dlia.
Qed.

Lemma timestamp_fields tp prec : INT64_MIN <= tp <= INT64_MAX ->
  let sec := tp / kNsPerSec in
  let dt := days_to_date (sec / 86400) in
  let tod := sec mod 86400 in
  timestamp_text tp prec =
  fields_text (year dt) (month dt) (day dt) (tod / 3600) (tod mod 3600 / 60) (tod mod 60)
    (fraction_digits tp prec).
Proof.
  intros Htp. destruct (floor_split tp Htp) as [E1 E2]. unfold timestamp_text. cbv zeta in *.
  rewrite E1, E2. set (sec := tp / kNsPerSec) in *.
  assert (Hsec : -9223372037 <= sec <= 9223372036)
    by (subst sec; unfold kNsPerSec, INT64_MIN, INT64_MAX in *; dlia).
  clear E1 E2. clearbody sec.
  assert (0 <= year (days_to_date (sec / 86400)) <= 9999) by (apply year_bound; dlia).
  rewrite (wrap_small 32) by lia.
  assert (Htod : 0 <= sec mod 86400 < 86400) by (apply Z.mod_pos_bound; lia).
  rewrite !wrap_small by (clear -Htod; dlia). rewrite !write_digits_fixed. unfold fields_text, fraction_digits.
  destruct prec; [done|..];
    (match goal with |- context [match ?fd with [] => _ | _ => _ end] => destruct fd eqn:E end;
     [apply (f_equal zlen) in E; rewrite fixed_digits_length, zlen_nilZ in E; lia|done]).
Qed.

Lemma fraction_facts tp prec :
  digits (fraction_digits tp prec) /\ zlen (fraction_digits tp prec) <= 9 /\
  tp / kNsPerSec * kNsPerSec
    + dec_value (fraction_digits tp prec) * 10 ^ (9 - zlen (fraction_digits tp prec)) = floor_to prec tp.
Proof.
  assert (0 <= tp mod kNsPerSec < kNsPerSec) by (apply Z.mod_pos_bound; done).
  pose proof (Z.div_mod tp kNsPerSec ltac:(done)).
  unfold fraction_digits, floor_to, unit_ns, kNsPerSec in *. destruct prec; cbv zeta.
  - rewrite zlen_nilZ. repeat split; [constructor|lia|change (dec_value []) with 0; lia].
  - rewrite fixed_digits_length. repeat split; [auto with fixpp|lia|].
    rewrite fixed_digits_value_small by (cbn; dlia). change (10 ^ (9 - Z.of_nat 3)) with 1000000. dlia.
  - rewrite fixed_digits_length. repeat split; [auto with fixpp|lia|].
    rewrite fixed_digits_value_small by (cbn; dlia). change (10 ^ (9 - Z.of_nat 6)) with 1000. dlia.
  - rewrite fixed_digits_length. repeat split; [auto with fixpp|lia|].
    rewrite fixed_digits_value_small by (cbn; dlia). change (10 ^ (9 - Z.of_nat 9)) with 1. dlia.
Qed.

(** Formatting then parsing floors to the emitted precision, or is out of range. *)
Lemma parse_format tp prec : INT64_MIN <= tp <= INT64_MAX ->
  zlen (timestamp_text tp prec) = needed prec /\
  fix_string_to_utc_time (timestamp_text tp prec) =
  if INT64_MIN <=? floor_to prec tp then Ok (floor_to prec tp) else Err wire_invalid_field_format.
Proof.
  intros Htp. rewrite timestamp_fields by done. cbv zeta. set (sec := tp / kNsPerSec).
  assert (Hsec : -9223372037 <= sec <= 9223372036)
    by (subst sec; unfold kNsPerSec, INT64_MIN, INT64_MAX in *; dlia).
  assert (Hy : 0 <= year (days_to_date (sec / 86400)) <= 9999) by (apply year_bound; clear -Hsec; dlia).
  pose proof (civil_from_days (sec / 86400)) as (Hdays & Hm & Hd).
  set (dt := days_to_date (sec / 86400)) in *.
  assert (Hdim : days_in_month (year dt) (month dt) <= 31)
    by (unfold days_in_month; pose proof (dom_bound (month dt)); destruct (_ && _); lia).
  assert (0 <= sec mod 86400 < 86400) by (apply Z.mod_pos_bound; lia).
  destruct (fraction_facts tp prec) as (Hfd & Hfl & Hfv). fold sec in Hfv. split.
  - rewrite fields_text_len. unfold fraction_digits.
    destruct prec; cbn [needed]; [done|..];
      (destruct (fixed_digits _ _) eqn:E; [apply (f_equal zlen) in E;
        rewrite fixed_digits_length, zlen_nilZ in E; lia|rewrite <- E, fixed_digits_length; done]).
  - rewrite parse_text by (unfold two_digits; try dlia; done).
    match goal with |- (if ?c then _ else _) = _ => replace c with true by dlia end.
    rewrite Hdays.
    replace (sec / 86400 * 86400 + sec mod 86400 / 3600 * 3600 + sec mod 86400 mod 3600 / 60 * 60
      + sec mod 86400 mod 60) with sec by dlia.
    rewrite compose_ns_spec, Hfv by (apply fraction_bound || lia; done).
    assert (floor_to prec tp <= tp) by (unfold floor_to, unit_ns; destruct prec; dlia).
    replace (floor_to prec tp <=? INT64_MAX) with true by lia. by rewrite andb_true_r.
Qed.

Lemma compose_valid y mo d hh mi ss fs : fields_valid y mo d hh mi ss fs ->
  compose_ns (date_to_days y mo d * 86400 + hh * 3600 + mi * 60 + ss)
    (dec_value fs * 10 ^ (9 - zlen fs)) =
  if (INT64_MIN <=? fields_ns y mo d hh mi ss fs) && (fields_ns y mo d hh mi ss fs <=? INT64_MAX)
  then Ok (fields_ns y mo d hh mi ss fs) else Err wire_invalid_field_format.
Proof.
  intros (Hy & Hmo & Hd & Hhh & Hmi & Hss & Hfs & Hl).
  pose proof (date_to_days_bound y mo d Hy Hmo Hd).
  by rewrite compose_ns_spec by (apply fraction_bound || lia; done).
Qed.

Lemma parse_error s e : fix_string_to_utc_time s = Err e -> e = wire_invalid_field_format.
Proof.
  unfold fix_string_to_utc_time, compose_ns. cbv zeta. intros H.
  repeat match type of H with (if ?c then _ else _) = _ => destruct c; try congruence end.
  destruct (17 <? zlen s); [destruct (parse_fraction _ _); [|cbn in H; congruence]|];
    cbn [rbind] in H;
    repeat match type of H with (if ?c then _ else _) = _ => destruct c; try congruence end.
Qed.

(** ** Properties *)

(** The calendar.  [days_to_date] yields a real date and [date_to_days] inverts
    it, for every day number; and every real date comes back from its day number. *)
Theorem civil_bijection days y m d :
  (let dt := days_to_date days in
   date_to_days (year dt) (month dt) (day dt) = days /\
   1 <= month dt <= 12 /\ 1 <= day dt <= days_in_month (year dt) (month dt)) /\
  (1 <= m <= 12 -> 1 <= d <= days_in_month y m -> days_to_date (date_to_days y m d) = Date y m d).
Proof. split; [apply civil_from_days|apply days_from_civil]. Qed.

Lemma civil_bijection_witness :
  days_to_date 11016 = Date 2000 2 29 /\ days_to_date (date_to_days 2000 2 29) = Date 2000 2 29.
Proof.
  split; [vm_compute; reflexivity|].
  destruct (civil_bijection 11016 2000 2 29) as [_ H]. apply H; vm_compute; intuition discriminate.
Defined.

(** The documented round trip.  For every nanosecond instant and every precision,
    the formatter fills exactly the documented width, leaves the rest of the buffer
    alone, and the text parses back to the instant floored to that precision — or is
    refused as out of range exactly when that floor precedes the earliest instant. *)
Theorem fix_time_round_trip tp prec out :
  INT64_MIN <= tp <= INT64_MAX -> needed prec <= zlen out ->
  exists out', utc_time_to_fix_string tp prec out = Ok (out', needed prec) /\
    zlen out' = zlen out /\ zdrop (needed prec) out' = zdrop (needed prec) out /\
    fix_string_to_utc_time (ztake (needed prec) out') =
      if INT64_MIN <=? floor_to prec tp then Ok (floor_to prec tp) else Err wire_invalid_field_format.
Proof.
  intros Htp Hout. destruct (parse_format tp prec Htp) as [Hl Hp].
  unfold utc_time_to_fix_string. replace (zlen out <? needed prec) with false by lia.
  exists (zwrite out 0 (timestamp_text tp prec)). rewrite Hl. split; [done|].
  rewrite zlen_write by (pose proof (zlen_nonneg (timestamp_text tp prec)); lia).
  rewrite zwrite_0, <- Hl, zdrop_app, ztake_app. done.
Qed.

Lemma fix_time_round_trip_witness :
  exists out', utc_time_to_fix_string (-1) micros (replicate 32 0) = Ok (out', 24) /\
    fix_string_to_utc_time (ztake 24 out') = Ok (-1000).
Proof.
  destruct (fix_time_round_trip (-1) micros (replicate 32 0)) as (out' & H1 & _ & _ & H2);
    [unfold INT64_MIN, INT64_MAX; lia|vm_compute; discriminate|].
  exists out'. split; [exact H1|]. exact H2.
Defined.

(** The parser is exact.  It accepts a text iff the text spells valid calendar
    fields (leap second included) with at most nine fraction digits whose instant fits
    the signed 64-bit nanosecond count, and then returns that instant, unwrapped. *)
Theorem fix_time_parse_exact s :
  match fix_string_to_utc_time s with
  | Ok t => INT64_MIN <= t <= INT64_MAX /\ exists y mo d hh mi ss fs,
      s = fields_text y mo d hh mi ss fs /\ fields_valid y mo d hh mi ss fs /\
      t = fields_ns y mo d hh mi ss fs
  | Err e => e = wire_invalid_field_format /\ ~ exists y mo d hh mi ss fs,
      s = fields_text y mo d hh mi ss fs /\ fields_valid y mo d hh mi ss fs /\
      INT64_MIN <= fields_ns y mo d hh mi ss fs <= INT64_MAX
  end.
Proof.
  destruct (fix_string_to_utc_time s) as [t|e] eqn:E.
  - destruct (parse_shape s t E) as (y & mo & d & hh & mi & ss & fs & -> & Hr).
    rewrite parse_text in E by tauto. unfold two_digits in Hr.
    destruct (_ && _) eqn:C in E; [|done]. assert (Hv : fields_valid y mo d hh mi ss fs)
      by (unfold fields_valid; intuition lia).
    rewrite (compose_valid _ _ _ _ _ _ _ Hv) in E.
    destruct (_ && _) eqn:R in E; [|done]. injection E as <-. split; [lia|eauto 12].
  - split; [by eapply parse_error|]. intros (y & mo & d & hh & mi & ss & fs & -> & Hv & Hr).
    assert (Hdim : days_in_month y mo <= 31)
      by (unfold days_in_month; pose proof (dom_bound mo); destruct (_ && _); lia).
    pose proof Hv as Hv'. unfold fields_valid in Hv'.
    rewrite parse_text in E by (unfold two_digits; intuition lia).
    replace (_ && (ss <=? 60)) with true in E by lia.
    rewrite (compose_valid _ _ _ _ _ _ _ Hv) in E.
    replace ((INT64_MIN <=? _) && _) with true in E by lia. done.
Qed.
