(* ===== verification/TagScan.v ===== *)
(** The bounded decimal accumulators every field scanner shares
    (include/fixpp/wire/tag_scan.hpp). *)
From S2P Require Import Prelude Errors.

(** The first field a reader could not read. *)
Inductive field_fault : Set := fault_none | malformed_tag | length_data_mismatch.

#[global] Instance field_fault_eq_dec : EqDecision field_fault.
Proof. solve_decision. Defined.

(** Returns the boolean result and the accumulator after the call. *)
Definition accumulate_tag_digit (tag c : Z) : bool * Z :=
  let d := u32 (c - 48) in
  if u32 (0xFFFF - d) / 10 <? tag then (false, tag)
  else (true, u32 (u32 (tag * 10) + d)).

Definition accumulate_bounded (acc c cap : Z) : bool * Z :=
  let d := u32 (c - 48) in
  if u32 (cap - d) / 10 <? acc then (false, cap)
  else (true, u32 (u32 (acc * 10) + d)).

(** The leading-digit loop with the given cap; the boolean is ignored. *)
Fixpoint bounded_digits (cap : Z) (bs : bytes) (acc : Z) : Z :=
  match bs with
  | [] => acc
  | c :: bs =>
      if (c <? 48) || (57 <? c) then acc
      else bounded_digits cap bs (accumulate_bounded acc c cap).2
  end.

Definition parse_bounded_u32 (bs : bytes) : Z := bounded_digits 0xFFFFFFFF bs 0.

(** The tag loop of the scanners: digits up to '=', SOH or the end of the buffer.
    [p] is the unread suffix and [i] its offset. *)
Inductive tag_scan : Set :=
  | tag_end (tag i : Z) (p : bytes)
  | tag_non_digit
  | tag_over_range.

Fixpoint tag_loop (p : bytes) (i tag : Z) : tag_scan :=
  match p with
  | [] => tag_end tag i p
  | c :: p' =>
      if (c =? EQ) || (c =? SOH) then tag_end tag i p
      else if (c <? 48) || (57 <? c) then tag_non_digit
      else
        let '(ok, tag') := accumulate_tag_digit tag c in
        if ok then tag_loop p' (i + 1) tag' else tag_over_range
  end.

(** [while (end < buf.size() && buf[end] != SOH) ++end;] over the unread suffix [p],
    which starts at offset [i]. *)
Fixpoint soh_from (p : bytes) (i : Z) : Z :=
  match p with
  | [] => i
  | c :: p => if c =? SOH then i else soh_from p (i + 1)
  end.

(** ** Lemmas *)

Lemma accumulate_tag_digit_spec tag c :
  0 <= tag <= 0xFFFF -> is_digit c = true ->
  accumulate_tag_digit tag c =
    if tag * 10 + (c - 48) <=? 0xFFFF then (true, tag * 10 + (c - 48)) else (false, tag).
Proof.
  intros Ht Hc%is_digit_spec. unfold accumulate_tag_digit.
  rewrite (wrap_small 32 (c - 48)) by lia. rewrite (wrap_small 32 (_ - _)) by lia.
  rewrite (wrap_small 32 (tag * 10)) by lia. rewrite (wrap_small 32 (_ + _)) by lia.
  case_tests; (done || (exfalso; dlia)).
Qed.

Lemma accumulate_bounded_spec acc c cap :
  9 <= cap <= UINT32_MAX -> 0 <= acc <= cap -> is_digit c = true ->
  accumulate_bounded acc c cap =
    if acc * 10 + (c - 48) <=? cap then (true, acc * 10 + (c - 48)) else (false, cap).
Proof.
  unfold UINT32_MAX. intros Hcap Ha Hc%is_digit_spec. unfold accumulate_bounded.
  rewrite (wrap_small 32 (c - 48)) by lia. rewrite (wrap_small 32 (cap - _)) by lia.
  destruct (acc * 10 + (c - 48) <=? cap) eqn:E.
  - rewrite (wrap_small 32 (acc * 10)) by lia. rewrite (wrap_small 32 (_ + _)) by lia.
    case_tests; (done || (exfalso; dlia)).
  - case_tests; (done || (exfalso; dlia)).
Qed.

Lemma dec_from_mono acc ds : 0 <= acc -> digits ds -> acc <= dec_from acc ds.
Proof.
  intros Ha Hd. pose proof (dec_from_bounds acc ds Ha Hd).
  assert (1 <= 10 ^ zlen ds) by (pose proof (Z.pow_pos_nonneg 10 (zlen ds)); zlen_lia). nia.
Qed.

Lemma dec_from_mono_acc a b ds : 0 <= a <= b -> digits ds -> dec_from a ds <= dec_from b ds.
Proof.
  intros Hab Hd. revert a b Hab. induction Hd as [|c ds Hc _ IH]; intros a b Hab; [cbn; lia|].
  rewrite !dec_from_cons. apply is_digit_spec in Hc. apply IH. lia.
Qed.

Definition no_digit_head (p : bytes) : Prop :=
  match p with [] => True | c :: _ => is_digit c = false end.

Lemma bounded_digits_spec cap ds rest acc :
  9 <= cap <= UINT32_MAX -> 0 <= acc <= cap -> digits ds -> no_digit_head rest ->
  bounded_digits cap (ds ++ rest) acc = Z.min cap (dec_from acc ds).
Proof.
  intros Hcap Ha Hd Hr. revert acc Ha. induction Hd as [|c ds Hc Hd IH]; intros acc Ha; cbn [app].
  - change (dec_from acc []) with acc. destruct rest as [|c rest]; cbn; [lia|].
    cbn in Hr. unfold is_digit in Hr. replace ((c <? 48) || (57 <? c)) with true by lia. lia.
  - pose proof (proj1 (is_digit_spec c) Hc). cbn [bounded_digits].
    replace ((c <? 48) || (57 <? c)) with false by lia.
    rewrite accumulate_bounded_spec, dec_from_cons by done.
    destruct (acc * 10 + (c - 48) <=? cap) eqn:E; cbn [snd]; rewrite IH by lia; [done|].
    pose proof (dec_from_mono cap ds ltac:(lia) Hd).
    pose proof (dec_from_mono_acc cap (acc * 10 + (c - 48)) ds ltac:(lia) Hd). lia.
Qed.

(** The tag loop on a digit run: the exact value, or out of range. *)
Lemma tag_loop_digits ds rest i tag :
  0 <= tag <= 0xFFFF -> digits ds ->
  tag_loop (ds ++ rest) i tag =
    if dec_from tag ds <=? 0xFFFF then tag_loop rest (i + zlen ds) (dec_from tag ds)
    else tag_over_range.
Proof.
  intros Ht Hd. revert i tag Ht. induction Hd as [|c ds Hc Hd IH]; intros i tag Ht.
  - cbn [app]. change (dec_from tag []) with tag. rewrite zlen_nilZ, Z.add_0_r.
    by replace (tag <=? 65535) with true by lia.
  - pose proof (proj1 (is_digit_spec c) Hc). cbn [app tag_loop]. unfold EQ, SOH.
    replace ((c =? 61) || (c =? 1)) with false by lia.
    replace ((c <? 48) || (57 <? c)) with false by lia.
    rewrite accumulate_tag_digit_spec, dec_from_cons, zlen_cons by done.
    destruct (tag * 10 + (c - 48) <=? 65535) eqn:E.
    + rewrite IH by lia. by rewrite Z.add_assoc.
    + pose proof (dec_from_mono (tag * 10 + (c - 48)) ds ltac:(lia) Hd).
      by replace (dec_from _ ds <=? 65535) with false by lia.
Qed.

(** A completed tag loop read a digit run with an in-range value. *)
Lemma tag_loop_inv p i tag t i' p' :
  0 <= tag <= 0xFFFF -> tag_loop p i tag = tag_end t i' p' ->
  exists ds, p = ds ++ p' /\ digits ds /\ t = dec_from tag ds /\ t <= 0xFFFF /\
    i' = i + zlen ds /\ (p' = [] \/ exists c q, p' = c :: q /\ (c = EQ \/ c = SOH)).
Proof.
  revert i tag. induction p as [|c p IH]; intros i tag Ht; cbn [tag_loop].
  - intros [= <- <- <-]. exists []. rewrite zlen_nilZ. repeat split; try done; try (cbn; lia). by left.
  - destruct ((c =? EQ) || (c =? SOH)) eqn:E.
    { intros [= <- <- <-]. exists []. rewrite zlen_nilZ. repeat split; try done; try (cbn; lia).
      right. exists c, p. split; [done|]. lia. }
    destruct ((c <? 48) || (57 <? c)) eqn:Ec; [done|].
    assert (Hc : is_digit c = true) by (apply is_digit_spec; lia).
    rewrite accumulate_tag_digit_spec by done.
    pose proof (proj1 (is_digit_spec c) Hc).
    destruct (tag * 10 + (c - 48) <=? 65535) eqn:Eb; [|done].
    intros H1. destruct (IH (i + 1) (tag * 10 + (c - 48)) ltac:(lia) H1) as (ds & -> & Hd & -> & Hb & -> & Hp).
    exists (c :: ds). rewrite zlen_cons. repeat split; try done; try lia. by constructor.
Qed.

(** ** Properties *)

(** the tag bound.  Reading a digit run never wraps: the tag loop returns the
    run's exact decimal value when that is at most 65535 (leading zeros included) and
    reports over-range otherwise, so no over-long tag can alias a valid one. *)
Theorem tag_loop_exact ds rest i :
  digits ds -> (exists c q, rest = c :: q /\ (c = EQ \/ c = SOH)) ->
  tag_loop (ds ++ rest) i 0 =
    if dec_value ds <=? 0xFFFF then tag_end (dec_value ds) (i + zlen ds) rest else tag_over_range.
Proof.
  intros Hd (c & q & -> & Hc). rewrite tag_loop_digits by (done || lia). fold (dec_value ds).
  destruct (_ <=? _); [|done]. cbn. by replace ((c =? EQ) || (c =? SOH)) with true by lia.
Qed.

Lemma tag_loop_exact_witness :
  tag_loop [52;50;57;52;57;54;55;50;57;54;52;57;61] 0 0 = tag_over_range /\
  tag_loop [48;48;51;52;61] 7 0 = tag_end 34 11 [61].
Proof.
  split.
  - apply (tag_loop_exact [52;50;57;52;57;54;55;50;57;54;52;57] [61] 0);
      [by repeat constructor|exists 61, []; auto].
  - apply (tag_loop_exact [48;48;51;52] [61] 7); [by repeat constructor|exists 61, []; auto].
Defined.

(** counts saturate.  Reading a Length or NumInGroup value returns the exact value
    of its leading digits, capped at UINT32_MAX: an over-large count can never wrap to
    a small one. *)
Theorem parse_bounded_u32_saturates ds rest :
  digits ds -> no_digit_head rest ->
  parse_bounded_u32 (ds ++ rest) = Z.min UINT32_MAX (dec_value ds).
Proof. intros. apply bounded_digits_spec; unfold UINT32_MAX; (done || lia). Qed.

Lemma parse_bounded_u32_saturates_witness :
  parse_bounded_u32 [52;50;57;52;57;54;55;50;57;56] = UINT32_MAX /\
  parse_bounded_u32 [49;50;1;51] = 12.
Proof.
  split.
  - apply (parse_bounded_u32_saturates [52;50;57;52;57;54;55;50;57;56] []); [by repeat constructor|done].
  - apply (parse_bounded_u32_saturates [49;50] [1;51]); [by repeat constructor|done].
Defined.
