(* ===== verification/PairTable.v ===== *)
(** The standard FIX Length+Data pairs (include/fixpp/core/length_data_pairs.hpp): the
    table, its inverse, the two binary searches and the 65536-bit membership set. *)
From stdpp Require Import sorting list.
From S2P Require Import Prelude.
#[local] Open Scope Z_scope.

Record length_data_pair := Pair { length_tag : Z; data_tag : Z }.

#[global] Instance length_data_pair_eq_dec : EqDecision length_data_pair.
Proof. solve_decision. Defined.

Definition standard_length_data_pairs : list length_data_pair :=
  [ Pair 90 91; Pair 93 89; Pair 95 96; Pair 212 213; Pair 348 349; Pair 350 351; Pair 352 353;
   Pair 354 355; Pair 356 357; Pair 358 359; Pair 360 361; Pair 362 363; Pair 364 365;
   Pair 445 446; Pair 618 619; Pair 621 622; Pair 1184 1185; Pair 1277 1278; Pair 1280 1281;
   Pair 1282 1283; Pair 1397 1398; Pair 1401 1402; Pair 1403 1404; Pair 1468 1469;
   Pair 1525 1527; Pair 1578 1579; Pair 1620 1621; Pair 1664 1665; Pair 1678 1697;
   Pair 1733 1734; Pair 1871 1872; Pair 1874 1875; Pair 2072 2073; Pair 2074 2075;
   Pair 2111 2112; Pair 2179 2180; Pair 2287 2288; Pair 2351 2352; Pair 2372 2371;
   Pair 2481 2482; Pair 2494 2493; Pair 2522 2521; Pair 2637 2638; Pair 2651 2652;
   Pair 2665 2666; Pair 2715 2716; Pair 2718 2719; Pair 2721 2722; Pair 2797 2798;
   Pair 2802 2801; Pair 2809 2808; Pair 2815 2814; Pair 2971 2972; Pair 40004 40005;
   Pair 40008 40009; Pair 40978 40979; Pair 40980 40981; Pair 40982 40983; Pair 40984 40985;
   Pair 40986 40987; Pair 40988 40989; Pair 41083 41084; Pair 41101 41102; Pair 41107 41108;
   Pair 41256 41257; Pair 41320 41321; Pair 41324 41325; Pair 41458 41459; Pair 41476 41477;
   Pair 41482 41483; Pair 41653 41654; Pair 41710 41711; Pair 41806 41807; Pair 41811 41812;
   Pair 41873 41874; Pair 41969 41970; Pair 42025 42026; Pair 42171 42172; Pair 42451 42452;
   Pair 42652 42653; Pair 42947 42948; Pair 43109 42684; Pair 43110 42486; Pair 43111 42982 ].

(** [std::ranges::lower_bound] over a random-access range: the index of the first
    element whose key is not below [v].  The searched range is
    [first, first + len), halved at each step. *)
Fixpoint lower_bound_loop (fuel : nat) (key : length_data_pair -> Z)
    (ps : list length_data_pair) (v : Z) (first len : nat) : nat :=
  match fuel, len with
  | O, _ | _, O => first
  | S fuel, _ =>
      let half := Nat.div2 len in
      let mid := (first + half)%nat in
      if key (nth mid ps (Pair 0 0)) <? v
      then lower_bound_loop fuel key ps v (S mid) (len - half - 1)
      else lower_bound_loop fuel key ps v first half
  end.

Definition lower_bound (key : length_data_pair -> Z) (ps : list length_data_pair) (v : Z) : nat :=
  lower_bound_loop (length ps) key ps v 0 (length ps).

Definition standard_data_tag_for_length (tag : Z) : Z :=
  match standard_length_data_pairs !! lower_bound length_tag standard_length_data_pairs tag with
  | Some p => if length_tag p =? tag then data_tag p else 0
  | None => 0
  end.

(** [std::ranges::sort(out, less{}, &length_data_pair::data_tag)] *)
Definition by_data_tag (p q : length_data_pair) : Prop := data_tag p <= data_tag q.

#[global] Instance by_data_tag_dec : RelDecision by_data_tag.
Proof. intros p q. apply Z_le_dec. Defined.

Definition standard_pairs_by_data : list length_data_pair :=
  merge_sort by_data_tag standard_length_data_pairs.

Definition standard_length_tag_for_data (tag : Z) : Z :=
  match standard_pairs_by_data !! lower_bound data_tag standard_pairs_by_data tag with
  | Some p => if data_tag p =? tag then length_tag p else 0
  | None => 0
  end.

Definition is_standard_pair_tag (tag : Z) : bool :=
  negb (standard_data_tag_for_length tag =? 0) || negb (standard_length_tag_for_data tag =? 0).

(** [bits[tag >> 6U] |= std::uint64_t{1} << (tag & 63U)] *)
Definition set_tag_bit (bits : list Z) (tag : Z) : list Z :=
  alter (fun w => Z.lor w (u64 (Z.shiftl 1 (Z.land tag 63))))
    (Z.to_nat (Z.shiftr tag 6)) bits.

Definition standard_pair_tag_bits : list Z :=
  fold_left (fun bits p => set_tag_bit (set_tag_bit bits (length_tag p)) (data_tag p))
    standard_length_data_pairs (replicate 1024 0).

Definition standard_pair_tag_min : Z :=
  fold_left (fun lo p => Z.min lo (Z.min (length_tag p) (data_tag p)))
    standard_length_data_pairs 0xFFFF.
Definition standard_pair_tag_max : Z :=
  fold_left (fun hi p => Z.max hi (Z.max (length_tag p) (data_tag p)))
    standard_length_data_pairs 0.

(** [((bits[tag >> 6U] >> (tag & 63U)) & 1U) != 0] *)
Definition get_tag_bit (bits : list Z) (tag : Z) : bool :=
  negb (Z.land (Z.shiftr (zget bits (Z.shiftr tag 6)) (Z.land tag 63)) 1 =? 0).

Definition standard_pair_tag_bit (tag : Z) : bool :=
  if (tag <? standard_pair_tag_min) || (standard_pair_tag_max <? tag) then false
  else get_tag_bit standard_pair_tag_bits tag.

(** ** Lemmas *)

(** *** The binary search *)

Section LowerBound.
Context (key : length_data_pair -> Z) (ps : list length_data_pair).
Hypothesis sorted : StronglySorted (fun p q => key p < key q) ps.

Let nthk i := key (nth i ps (Pair 0 0)).

Lemma nthk_mono i j : (i < j < length ps)%nat -> nthk i < nthk j.
Proof.
  unfold nthk. revert i j. induction sorted as [|p l Hs IH Hp]; intros i j Hij; [cbn in Hij; lia|].
  cbn [length] in Hij. destruct j as [|j]; [lia|]. destruct i as [|i].
  - cbn [nth]. rewrite Forall_forall in Hp. apply Hp. apply list_elem_of_In, nth_In. lia.
  - cbn [nth]. apply IH; [done|lia].
Qed.

Lemma lower_bound_loop_spec fuel v first len :
  (len <= fuel)%nat -> (first + len <= length ps)%nat ->
  (forall i, (i < first)%nat -> nthk i < v) ->
  (forall i, (first + len <= i < length ps)%nat -> v <= nthk i) ->
  let r := lower_bound_loop fuel key ps v first len in
  (r <= length ps)%nat /\ (forall i, (i < r)%nat -> nthk i < v) /\
  (forall i, (r <= i < length ps)%nat -> v <= nthk i).
Proof.
  revert first len. induction fuel as [|fuel IH]; intros first len Hf Hl Hlo Hhi;
    cbn [lower_bound_loop]; [split; [lia|split; [done|]]; intros; apply Hhi; lia|].
  destruct len as [|len]; [split; [lia|split; [done|]]; intros; apply Hhi; lia|].
  pose proof (Nat.div2_decr (S len) len ltac:(lia)) as Hd.
  set (half := Nat.div2 (S len)) in *.
  fold (nthk (first + half)). destruct (nthk (first + half) <? v) eqn:E.
  - apply IH; try lia.
    + intros i Hi. destruct (decide (i < first + half)%nat) as [Hlt|]; [|by replace i with (first + half)%nat by lia; lia].
      pose proof (nthk_mono i (first + half) ltac:(lia)). lia.
    + intros i Hi. apply Hhi. lia.
  - apply IH; try lia; [done|].
    intros i Hi. destruct (decide (i = first + half)%nat) as [->|]; [lia|].
    pose proof (nthk_mono (first + half) i ltac:(lia)). lia.
Qed.

(** The search answers the row with key [v], if there is one. *)
Lemma lower_bound_lookup v p :
  (match ps !! lower_bound key ps v with
   | Some q => if key q =? v then Some q else None
   | None => None
   end = Some p) <-> p ∈ ps /\ key p = v.
Proof.
  pose proof (lower_bound_loop_spec (length ps) v 0 (length ps) ltac:(lia) ltac:(lia)
    ltac:(lia) ltac:(lia)) as (Hr & Hlo & Hhi).
  fold (lower_bound key ps v) in *. set (r := lower_bound key ps v) in *. split.
  - destruct (ps !! r) as [q|] eqn:Eq; [|done]. case_tests. intros [= <-].
    split; [by eapply list_elem_of_lookup_2|lia].
  - intros [Hp Hk]. apply list_elem_of_lookup_1 in Hp as [i Hi].
    pose proof (lookup_lt_Some _ _ _ Hi) as Hil.
    assert (Hni : nthk i = v) by (unfold nthk; by rewrite (nth_lookup_Some _ _ _ _ Hi)).
    assert (i = r) as ->.
    { destruct (decide (i < r)%nat) as [H1|]; [specialize (Hlo i H1); lia|].
      destruct (decide (r < i)%nat) as [H1|]; [|lia].
      pose proof (nthk_mono r i ltac:(lia)). specialize (Hhi r ltac:(lia)). lia. }
    rewrite Hi. by replace (key p =? v) with true by lia.
Qed.

(** The same for a search that answers a column of the row, 0 when absent. *)
Lemma lower_bound_column v (column : length_data_pair -> Z) d : d ≠ 0 ->
  match ps !! lower_bound key ps v with
  | Some p => if key p =? v then column p else 0
  | None => 0
  end = d <-> exists p, p ∈ ps /\ key p = v /\ column p = d.
Proof.
  intros Hd. pose proof (lower_bound_lookup v) as H.
  transitivity (exists p, match ps !! lower_bound key ps v with
    | Some q => if key q =? v then Some q else None
    | None => None
    end = Some p /\ column p = d).
  - destruct (ps !! _) as [q|]; [destruct (key q =? v)|]; split;
      try (by intros <-); try (by intros (? & ? & ?)); [by eauto|by intros (? & [= ->] & ?)].
  - split; [intros (p & Hp & ?); apply H in Hp as []; eauto|].
    intros (p & Hp & Hv & ?). exists p. split; [by apply H|done].
Qed.
End LowerBound.

(** *** The membership bits *)

Lemma land_63 t : Z.land t 63 = t mod 64.
Proof. change 63 with (Z.ones 6). by rewrite Z.land_ones. Qed.

Lemma shiftr_6 t : Z.shiftr t 6 = t / 64.
Proof. by rewrite Z.shiftr_div_pow2. Qed.

Lemma get_tag_bit_testbit bits t :
  get_tag_bit bits t = Z.testbit (zget bits (t / 64)) (t mod 64).
Proof.
  unfold get_tag_bit. rewrite land_63, shiftr_6. change 1 with (Z.ones 1) at 1.
  rewrite Z.land_ones by lia. change (2 ^ 1) with 2. rewrite <- Z.bit0_mod, Z.shiftr_spec by lia.
  rewrite Z.add_0_l. by destruct (Z.testbit _ _).
Qed.

Lemma length_set_tag_bit bits t : length (set_tag_bit bits t) = length bits.
Proof. apply length_alter. Qed.

Lemma zget_alter f bits i j : 0 <= i < zlen bits -> 0 <= j ->
  zget (alter f (Z.to_nat i) bits) j = if j =? i then f (zget bits i) else zget bits j.
Proof.
  unfold zlen, zget. intros Hi Hj. rewrite !nth_lookup. case_tests.
  - replace (Z.to_nat j) with (Z.to_nat i) by lia. rewrite list_lookup_alter_eq.
    destruct (lookup_lt_is_Some_2 bits (Z.to_nat i) ltac:(lia)) as [w ->]. done.
  - by rewrite list_lookup_alter_ne by lia.
Qed.

Lemma nth_replicate_0 n i : nth i (replicate n 0) 0 = 0.
Proof. revert i. induction n; intros [|i]; cbn; auto. Qed.

Definition tag16 (t : Z) : Prop := 0 <= t <= 0xFFFF.

Lemma get_set_tag_bit bits s t : s / 64 < zlen bits -> 0 <= s -> 0 <= t ->
  get_tag_bit (set_tag_bit bits s) t = get_tag_bit bits t || (s =? t).
Proof.
  intros Hl Hs Ht. rewrite !get_tag_bit_testbit. unfold set_tag_bit.
  rewrite land_63, shiftr_6.
  rewrite zget_alter by dlia.
  assert (Hsm : 0 <= s mod 64 < 64) by (apply Z.mod_pos_bound; lia).
  assert (Htm : 0 <= t mod 64 < 64) by (apply Z.mod_pos_bound; lia).
  destruct (t / 64 =? s / 64) eqn:E.
  - rewrite Z.shiftl_1_l, wrap_small.
    2: { split; [apply Z.pow_nonneg; lia|apply Z.pow_lt_mono_r; lia]. }
    rewrite Z.lor_spec. rewrite Z.pow2_bits_eqb by lia.
    replace (s / 64) with (t / 64) by lia. f_equal.
    destruct (s mod 64 =? t mod 64) eqn:E2; destruct (s =? t) eqn:E3; try done; exfalso; dlia.
  - replace (s =? t) with false by dlia. by rewrite orb_false_r.
Qed.

Definition pair_names (t : Z) (p : length_data_pair) : bool :=
  (length_tag p =? t) || (data_tag p =? t).

Lemma get_fold_tag_bits ps bits t :
  Forall (fun p => tag16 (length_tag p) /\ tag16 (data_tag p)) ps -> zlen bits = 1024 -> tag16 t ->
  get_tag_bit (fold_left (fun b p => set_tag_bit (set_tag_bit b (length_tag p)) (data_tag p)) ps bits) t =
  get_tag_bit bits t || existsb (pair_names t) ps.
Proof.
  intros Hps Hl Ht. revert bits Hl. induction Hps as [|p ps [Hp1 Hp2] _ IH]; intros bits Hl.
  - cbn. by rewrite orb_false_r.
  - cbn [fold_left existsb]. rewrite IH by (unfold zlen; by rewrite !length_set_tag_bit).
    unfold tag16 in *.
    rewrite !get_set_tag_bit by (unfold zlen in *; rewrite ?length_set_tag_bit; dlia).
    unfold pair_names at 2. by rewrite !orb_assoc.
Qed.

(** Facts of the table itself, each a check over its 84 rows. *)

Lemma pairs_in_range :
  Forall (fun p => (89 <= length_tag p <= 43111) /\ (89 <= data_tag p <= 43111))
    standard_length_data_pairs.
Proof.
  apply (Forall_impl (fun p => (((89 <=? length_tag p) && (length_tag p <=? 43111)) &&
    ((89 <=? data_tag p) && (data_tag p <=? 43111))) = true)); [|intros; lia].
  apply Forall_forall. intros p Hp%list_elem_of_In. revert p Hp. apply forallb_forall.
  by vm_compute.
Qed.

Lemma by_data_perm : standard_pairs_by_data ≡ₚ standard_length_data_pairs.
Proof. apply merge_sort_Permutation. Qed.

(** Adjacent rows increase, so all rows do. *)
Fixpoint ascending (key : length_data_pair -> Z) (ps : list length_data_pair) : bool :=
  match ps with
  | p :: (q :: _) as ps => (key p <? key q) && ascending key ps
  | _ => true
  end.

Lemma ascending_sorted key ps :
  ascending key ps = true -> StronglySorted (fun p q => key p < key q) ps.
Proof.
  intros H. apply Sorted_StronglySorted; [intros p q r; lia|].
  induction ps as [|p ps IH]; [constructor|]. destruct ps as [|q ps]; [repeat constructor|].
  cbn [ascending] in H. apply andb_true_iff in H as [H1 H2].
  constructor; [by apply IH|]. constructor. lia.
Qed.

Lemma by_length_sorted :
  StronglySorted (fun p q => length_tag p < length_tag q) standard_length_data_pairs.
Proof. apply ascending_sorted. by vm_compute. Qed.

Lemma by_data_sorted :
  StronglySorted (fun p q => data_tag p < data_tag q) standard_pairs_by_data.
Proof. apply ascending_sorted. by vm_compute. Qed.

Lemma standard_data_tag_lookup t d : d ≠ 0 ->
  standard_data_tag_for_length t = d <-> Pair t d ∈ standard_length_data_pairs.
Proof.
  intros Hd. unfold standard_data_tag_for_length.
  rewrite (lower_bound_column _ _ by_length_sorted) by done.
  split; [by intros ([] & ? & <- & <-)|by exists (Pair t d)].
Qed.

Lemma standard_length_tag_lookup t l : l ≠ 0 ->
  standard_length_tag_for_data t = l <-> Pair l t ∈ standard_length_data_pairs.
Proof.
  intros Hd. unfold standard_length_tag_for_data. rewrite <- by_data_perm.
  rewrite (lower_bound_column _ _ by_data_sorted) by done.
  split; [by intros ([] & ? & <- & <-)|by exists (Pair l t)].
Qed.

(** No tag is both a Length and a Data half. *)
Lemma halves_disjoint p q :
  p ∈ standard_length_data_pairs -> q ∈ standard_length_data_pairs -> length_tag p ≠ data_tag q.
Proof.
  intros Hp%list_elem_of_In Hq%list_elem_of_In.
  assert (H : forallb (fun p => forallb (fun q => negb (length_tag p =? data_tag q))
    standard_length_data_pairs) standard_length_data_pairs = true) by by vm_compute.
  rewrite forallb_forall in H. specialize (H p Hp). cbn beta in H. rewrite forallb_forall in H.
  specialize (H q Hq). cbn beta in H. lia.
Qed.

Lemma is_standard_pair_tag_names t :
  is_standard_pair_tag t = existsb (pair_names t) standard_length_data_pairs.
Proof.
  apply eq_true_iff_eq. unfold is_standard_pair_tag.
  rewrite orb_true_iff, existsb_exists, !negb_true_iff, !Z.eqb_neq. split.
  - intros [H|H].
    + pose proof (proj1 (standard_data_tag_lookup t _ H) eq_refl) as Hin%list_elem_of_In.
      eexists; split; [exact Hin|]. unfold pair_names; cbn. lia.
    + pose proof (proj1 (standard_length_tag_lookup t _ H) eq_refl) as Hin%list_elem_of_In.
      eexists; split; [exact Hin|]. unfold pair_names; cbn. lia.
  - intros ([l d] & Hin & Hn). pose proof pairs_in_range as Hr. rewrite Forall_forall in Hr.
    apply list_elem_of_In in Hin. specialize (Hr _ Hin). unfold pair_names in Hn; cbn in *.
    apply orb_true_iff in Hn as [->%Z.eqb_eq| ->%Z.eqb_eq].
    + left. by rewrite (proj2 (standard_data_tag_lookup t d ltac:(lia))) by done; lia.
    + right. by rewrite (proj2 (standard_length_tag_lookup t l ltac:(lia))) by done; lia.
Qed.

Lemma standard_pair_tag_bit_spec t : tag16 t ->
  standard_pair_tag_bit t = is_standard_pair_tag t.
Proof.
  intros Ht. rewrite is_standard_pair_tag_names. unfold standard_pair_tag_bit.
  change standard_pair_tag_min with 89. change standard_pair_tag_max with 43111.
  assert (Hr : Forall (fun p => tag16 (length_tag p) /\ tag16 (data_tag p)) standard_length_data_pairs).
  { eapply Forall_impl; [apply pairs_in_range|]. unfold tag16. intros p. cbn. lia. }
  destruct ((t <? 89) || (43111 <? t)) eqn:E.
  - symmetry. apply not_true_is_false. intros (p & Hin%list_elem_of_In & Hn)%existsb_exists.
    pose proof pairs_in_range as Hp. rewrite Forall_forall in Hp. specialize (Hp _ Hin).
    unfold pair_names in Hn. cbn in Hp. lia.
  - unfold standard_pair_tag_bits. rewrite get_fold_tag_bits; [|done|by vm_compute|done].
    rewrite get_tag_bit_testbit. unfold zget. rewrite nth_replicate_0.
    by rewrite Z.testbit_0_l.
Qed.

(** ** Properties *)

(** The standard pairs.  For every 16-bit tag both binary searches answer exactly
    the rows of the table, and the one-bit test of the 1024-word set agrees with them:
    the fast path never admits or drops a pair tag. *)
Theorem standard_pairs_exact t : tag16 t ->
  (forall d, d ≠ 0 -> standard_data_tag_for_length t = d <-> Pair t d ∈ standard_length_data_pairs) /\
  (forall l, l ≠ 0 -> standard_length_tag_for_data t = l <-> Pair l t ∈ standard_length_data_pairs) /\
  standard_pair_tag_bit t = is_standard_pair_tag t.
Proof.
  intros Ht. split; [intros; by apply standard_data_tag_lookup|].
  split; [intros; by apply standard_length_tag_lookup|by apply standard_pair_tag_bit_spec].
Qed.

Lemma standard_pairs_exact_witness :
  (standard_length_tag_for_data 89 = 93 <-> Pair 93 89 ∈ standard_length_data_pairs) /\
  standard_pair_tag_bit 5001 = is_standard_pair_tag 5001.
Proof.
  split.
  - apply (standard_pairs_exact 89); [unfold tag16; lia|lia].
  - apply (standard_pairs_exact 5001). unfold tag16; lia.
Defined.
