(* ===== verification/LengthData.v ===== *)
(** Length+Data handling (include/fixpp/wire/dict_hooks.hpp, length_data_carry.hpp,
    length_data_check.hpp): the dictionary callbacks and their precedence rule, the carry
    every field scanner reads values through, and the conformance rule for a message
    being written. *)
From S2P Require Import Prelude Errors TagScan PairTable.

(** ** [dict_hooks]

    The callbacks are function pointers over a type-erased dictionary; a null pointer
    is [None], and the dictionary is part of the closure. *)

Inductive pair_side : Set := side_length | side_data.

Record group_context := GroupContext {
  gc_msg_type : bytes;
  gc_parent_path : list Z;   (* the valid prefix of the 16-slot array *)
}.

Definition parent_path_size : Z := 16.

(** [group_context::pushed]: clamps at 16. *)
Definition pushed (gc : group_context) (no_tag : Z) : group_context :=
  if zlen (gc_parent_path gc) <? parent_path_size
  then GroupContext (gc_msg_type gc) (gc_parent_path gc ++ [no_tag])
  else gc.

Record dict_hooks := DictHooks {
  classify_fn : option (bytes -> Z -> bool);
  group_member_fn : option (group_context -> Z -> Z -> bool);
  group_delim_fn : option (group_context -> Z -> Z);
  length_pair_fn : option (Z -> pair_side -> Z);
}.

Definition no_hooks : dict_hooks := DictHooks None None None None.

Definition data_tag_for_length (h : dict_hooks) (length_tag : Z) : Z :=
  if standard_pair_tag_bit length_tag then standard_data_tag_for_length length_tag
  else
    match length_pair_fn h with
    | None => 0
    | Some f =>
        let data := f length_tag side_length in
        if negb (data =? 0) && negb (is_standard_pair_tag data) then data else 0
    end.

Definition length_tag_for_data (h : dict_hooks) (data_tag : Z) : Z :=
  if standard_pair_tag_bit data_tag then standard_length_tag_for_data data_tag
  else
    match length_pair_fn h with
    | None => 0
    | Some f =>
        let length := f data_tag side_data in
        if negb (length =? 0) && negb (is_standard_pair_tag length) then length else 0
    end.

(** ** The carry *)

Definition counted_value_end (buf : bytes) (vstart count : Z) : option Z :=
  if (zlen buf <? vstart) || (zlen buf - vstart <=? count) then None
  else
    let end_ := vstart + count in
    if negb (zget buf end_ =? SOH) then None else Some end_.

Record value_extent := ValueExtent { ve_end : Z; ve_counted : bool }.

Record length_data_carry := Carry { carry_data_tag : Z; carry_count : Z }.

Definition carry_init : length_data_carry := Carry 0 0.

Definition carry_reset (c : length_data_carry) : length_data_carry := Carry 0 (carry_count c).

Definition read_value (h : dict_hooks) (c : length_data_carry) (buf : bytes) (vstart tag : Z)
  : option value_extent * length_data_carry :=
  let counted := negb (carry_data_tag c =? 0) && (carry_data_tag c =? tag) in
  let extent :=
    if counted then counted_value_end buf vstart (carry_count c)
    else Some (soh_from (zdrop vstart buf) vstart) in
  match extent with
  | None => (None, carry_reset c)
  | Some end_ =>
      let data_tag := data_tag_for_length h tag in
      let count := if negb (data_tag =? 0)
                   then parse_bounded_u32 (zsub buf vstart (end_ - vstart))
                   else carry_count c in
      (Some (ValueExtent end_ counted), Carry data_tag count)
  end.

(** ** The conformance rule for a written message *)

Record length_data_checker := Checker { awaited_data : Z; awaited_len : Z; failed : bool }.

Definition checker_init : length_data_checker := Checker 0 0 false.

(** The digit loop over a Length value; [None] is a non-digit or an overflow. *)
Fixpoint checked_count (value : bytes) (count : Z) : option Z :=
  match value with
  | [] => Some count
  | c :: value =>
      if (c <? 48) || (57 <? c) then None
      else
        let '(ok, count') := accumulate_bounded count c 0xFFFFFFFF in
        if ok then checked_count value count' else None
  end.

Definition observe (h : dict_hooks) (k : length_data_checker) (tag : Z) (value : bytes)
  : bool * length_data_checker :=
  let fail := (false, Checker (awaited_data k) (awaited_len k) true) in
  if failed k then (false, k)
  else if negb (awaited_data k =? 0) then
    let ok := (tag =? awaited_data k) && negb (zlen value =? 0) && (zlen value =? awaited_len k) in
    (ok, Checker 0 (awaited_len k) (negb ok))
  else if negb (length_tag_for_data h tag =? 0) then fail
  else
    let data := data_tag_for_length h tag in
    if data =? 0 then (true, k)
    else if zlen value =? 0 then fail
    else
      match checked_count value 0 with
      | None => fail
      | Some count => if count =? 0 then fail else (true, Checker data count false)
      end.

Definition finish (k : length_data_checker) : bool * length_data_checker :=
  (negb (failed k) && (awaited_data k =? 0), Checker 0 (awaited_len k) false).

(** The fields of one container, observed in order; [None] at the first violation. *)
Fixpoint observe_all (h : dict_hooks) (k : length_data_checker) (fs : list (Z * bytes))
  : option length_data_checker :=
  match fs with
  | [] => Some k
  | (tag, v) :: fs =>
      let '(ok, k) := observe h k tag v in if ok then observe_all h k fs else None
  end.

Definition container_conforms (h : dict_hooks) (fs : list (Z * bytes)) : bool :=
  match observe_all h checker_init fs with Some k => (finish k).1 | None => false end.

(** ** Lemmas *)

(** What a dictionary's pair callback promises: 16-bit tags, one pairing both ways. *)
Record pair_oracle (f : Z -> pair_side -> Z) : Prop := PairOracle {
  oracle_range t side : tag16 (f t side);
  oracle_inverse l d : l <> 0 -> d <> 0 -> f l side_length = d <-> f d side_data = l;
}.

Class hooks_ok (h : dict_hooks) : Prop := {
  hooks_oracle f : length_pair_fn h = Some f -> pair_oracle f;
}.

#[export] Instance no_hooks_ok : hooks_ok no_hooks.
Proof. by constructor. Qed.

Lemma standard_in_range l d : Pair l d ∈ standard_length_data_pairs ->
  tag16 l /\ l <> 0 /\ tag16 d /\ d <> 0.
Proof.
  intros Hp. pose proof pairs_in_range as H. rewrite Forall_forall in H. specialize (H _ Hp).
  unfold tag16. cbn [length_tag data_tag] in H. lia.
Qed.

Lemma standard_data_range t : tag16 (standard_data_tag_for_length t).
Proof.
  destruct (decide (standard_data_tag_for_length t = 0)) as [->|H]; [unfold tag16; lia|].
  pose proof (proj1 (standard_data_tag_lookup t _ H) eq_refl) as Hin.
  destruct (standard_in_range _ _ Hin) as (_ & _ & Hr & _). exact Hr.
Qed.

Lemma data_tag_range h t : hooks_ok h -> tag16 (data_tag_for_length h t).
Proof.
  intros Hh. unfold data_tag_for_length.
  destruct (standard_pair_tag_bit t); [apply standard_data_range|].
  destruct (length_pair_fn h) as [f|] eqn:Ef; [|unfold tag16; lia].
  destruct (_ && _); [|unfold tag16; lia]. by apply (hooks_oracle f Ef).
Qed.

Lemma length_tag_range h t : hooks_ok h -> tag16 (length_tag_for_data h t).
Proof.
  intros Hh. unfold length_tag_for_data.
  destruct (standard_pair_tag_bit t).
  - destruct (decide (standard_length_tag_for_data t = 0)) as [->|H]; [unfold tag16; lia|].
    pose proof (proj1 (standard_length_tag_lookup t _ H) eq_refl) as Hin.
    destruct (standard_in_range _ _ Hin) as (Hr & _). exact Hr.
  - destruct (length_pair_fn h) as [f|] eqn:Ef; [|unfold tag16; lia].
    destruct (_ && _); [|unfold tag16; lia]. by apply (hooks_oracle f Ef).
Qed.

Lemma is_standard_row l d : Pair l d ∈ standard_length_data_pairs ->
  is_standard_pair_tag l = true /\ is_standard_pair_tag d = true.
Proof.
  intros Hp. rewrite !is_standard_pair_tag_names, !existsb_exists.
  split; exists (Pair l d); (split; [by apply list_elem_of_In|]); unfold pair_names; cbn; lia.
Qed.

(** The filter on a dictionary's answer. *)
Lemma oracle_answer x y : y <> 0 ->
  (if negb (x =? 0) && negb (is_standard_pair_tag x) then x else 0) = y <->
  x = y /\ is_standard_pair_tag y = false.
Proof.
  intros Hy. destruct (x =? 0) eqn:E0; cbn [negb andb].
  - split; [by intros <-|]. intros [-> _]. lia.
  - destruct (is_standard_pair_tag x) eqn:Ex; cbn [negb].
    + split; [by intros <-|]. intros [-> ?]. congruence.
    + split; [by intros <-|by intros [-> _]].
Qed.

(** The two lookups are inverse to each other, whatever the dictionary. *)
Lemma hooks_inverse h l d :
  hooks_ok h -> tag16 l -> tag16 d -> l <> 0 -> d <> 0 ->
  data_tag_for_length h l = d <-> length_tag_for_data h d = l.
Proof.
  intros Hh Hl Hd Hl0 Hd0. unfold data_tag_for_length, length_tag_for_data.
  rewrite !standard_pair_tag_bit_spec by done.
  assert (Hrow : Pair l d ∈ standard_length_data_pairs ->
    is_standard_pair_tag l = true /\ is_standard_pair_tag d = true) by apply is_standard_row.
  destruct (is_standard_pair_tag l) eqn:El, (is_standard_pair_tag d) eqn:Ed.
  - by rewrite standard_data_tag_lookup, standard_length_tag_lookup.
  - rewrite standard_data_tag_lookup by done.
    destruct (length_pair_fn h); [rewrite oracle_answer, El by done|]; naive_solver.
  - rewrite standard_length_tag_lookup by done.
    destruct (length_pair_fn h); [rewrite oracle_answer, Ed by done|]; naive_solver.
  - destruct (length_pair_fn h) as [f|] eqn:Ef; [|naive_solver].
    rewrite !oracle_answer, El, Ed by done.
    pose proof (oracle_inverse f (hooks_oracle f Ef) l d Hl0 Hd0). naive_solver.
Qed.

(** What the checker accepts as a Length value is what the carry counts. *)
Lemma checked_count_spec value acc n :
  0 <= acc <= UINT32_MAX -> checked_count value acc = Some n ->
  digits value /\ n = dec_from acc value /\ n <= UINT32_MAX.
Proof.
  revert acc. induction value as [|c value IH]; intros acc Ha; cbn [checked_count].
  - intros [= <-]. repeat split; [constructor|lia].
  - destruct ((c <? 48) || (57 <? c)) eqn:Ec; [done|].
    assert (Hc : is_digit c = true) by (apply is_digit_spec; lia).
    unfold UINT32_MAX in *. rewrite accumulate_bounded_spec by (unfold UINT32_MAX; done || lia).
    destruct (acc * 10 + (c - 48) <=? 4294967295) eqn:E; [|done].
    intros Hn. apply is_digit_spec in Hc as Hc'. apply IH in Hn as (Hd & -> & ?); [|lia].
    rewrite dec_from_cons. repeat split; [by constructor|done].
Qed.

Lemma parse_digits_exact value : digits value -> dec_value value <= UINT32_MAX ->
  parse_bounded_u32 value = dec_value value.
Proof.
  intros Hd Hl. unfold parse_bounded_u32. rewrite <- (app_nil_r value) at 1.
  rewrite bounded_digits_spec by (done || unfold UINT32_MAX; lia).
  fold (dec_value value). unfold UINT32_MAX in *. lia.
Qed.

Lemma observe_all_app h k a b : observe_all h k (a ++ b) =
  match observe_all h k a with Some k => observe_all h k b | None => None end.
Proof.
  revert k. induction a as [|[t v] a IH]; intros k; cbn [observe_all app]; [done|].
  destruct (observe h k t v) as [[] k2]; [apply IH|done].
Qed.

(** ** Properties *)

(** One pairing for every scanner.  Whatever dictionary is attached, a standard tag
    is answered by the standard table alone, a dictionary pair never touches a standard
    tag, and the Length-to-Data and Data-to-Length lookups are inverse to each other. *)
Theorem hooks_pairs_consistent h :
  hooks_ok h ->
  (forall t, tag16 t -> is_standard_pair_tag t = true ->
     data_tag_for_length h t = data_tag_for_length no_hooks t /\
     length_tag_for_data h t = length_tag_for_data no_hooks t) /\
  (forall l d, tag16 l -> data_tag_for_length h l = d -> d <> 0 ->
     is_standard_pair_tag l = is_standard_pair_tag d) /\
  (forall l d, tag16 l -> tag16 d -> l <> 0 -> d <> 0 ->
     data_tag_for_length h l = d <-> length_tag_for_data h d = l).
Proof.
  intros Hh. split; [|split].
  - intros t Ht Hs. unfold data_tag_for_length, length_tag_for_data.
    by rewrite standard_pair_tag_bit_spec, Hs by done.
  - intros l d Hl Hd Hd0. unfold data_tag_for_length in Hd. revert Hd.
    rewrite standard_pair_tag_bit_spec by done. destruct (is_standard_pair_tag l).
    + rewrite standard_data_tag_lookup by done. by intros [_ ->]%is_standard_row.
    + destruct (length_pair_fn h); [|done]. rewrite oracle_answer by done. by intros [_ ->].
  - intros. by apply hooks_inverse.
Qed.

(** A dictionary that pairs 5001 with 5002. *)
Definition custom_hooks : dict_hooks :=
  DictHooks None None None (Some (fun t side =>
    match side with
    | side_length => if t =? 5001 then 5002 else 0
    | side_data => if t =? 5002 then 5001 else 0
    end)).

#[export] Instance custom_hooks_ok : hooks_ok custom_hooks.
Proof.
  constructor. intros f [= <-]. constructor.
  - intros t []; unfold tag16; case_tests; lia.
  - intros l d ? ?. case_tests; lia.
Qed.

Lemma hooks_pairs_consistent_witness :
  data_tag_for_length custom_hooks 5001 = 5002 /\
  (data_tag_for_length custom_hooks 5001 = 5002 <-> length_tag_for_data custom_hooks 5002 = 5001).
Proof.
  split; [by vm_compute|].
  apply (hooks_pairs_consistent custom_hooks custom_hooks_ok); unfold tag16; lia.
Defined.
