(* ===== verification/Writer.v ===== *)
(** The wire writer (src/wire/writer.cpp, include/fixpp/wire/writer.hpp): the cursor over
    a caller buffer, field emission, the BodyLength backpatch and the CheckSum. *)
From S2P Require Import Prelude Errors Decimal.

(** ** Numbers as text *)

Definition digit_count (v : Z) : nat :=
  if v <? 10 then 1
  else if v <? 100 then 2
  else if v <? 1000 then 3
  else if v <? 10000 then 4
  else if v <? 100000 then 5
  else if v <? 1000000 then 6
  else if v <? 10000000 then 7
  else if v <? 100000000 then 8
  else if v <? 1000000000 then 9
  else 10.

(** [while (pos > 0U) { buf[--pos] = '0' + v % 10U; v /= 10U; }]: [acc] holds the
    bytes already written to the right of [pos]. *)
Fixpoint render_loop (pos : nat) (v : Z) (acc : bytes) : bytes :=
  match pos with
  | O => acc
  | S pos => render_loop pos (v / 10) (48 + v mod 10 :: acc)
  end.

(** The rendered bytes for a buffer of [n]; [None] is the 0 return. *)
Definition render_u32 (v n : Z) : option bytes :=
  let dc := digit_count v in
  if n <? Z.of_nat dc then None else Some (render_loop dc v []).

(** ** The state *)

Record writer := Writer {
  w_dst : bytes;
  w_pos : Z;
  w_body_start : Z;
  w_bl_digit_count : Z;
  w_bl_digit_pos : Z;
  w_overflow : bool;
}.

Definition npos : Z := UINT64_MAX.

Definition writer_init (dst : bytes) : writer := Writer dst 0 npos 0 npos false.

Definition bytes_written (w : writer) : Z := w_pos w.

Definition w_set_overflow (w : writer) : writer :=
  Writer (w_dst w) (w_pos w) (w_body_start w) (w_bl_digit_count w) (w_bl_digit_pos w) true.

(** [memcpy(dst + pos, s); pos += s.size()] *)
Definition w_emit (w : writer) (s : bytes) : writer :=
  Writer (zwrite (w_dst w) (w_pos w) s) (w_pos w + zlen s) (w_body_start w)
    (w_bl_digit_count w) (w_bl_digit_pos w) (w_overflow w).

Definition write_byte (w : writer) (b : Z) : bool * writer :=
  if zlen (w_dst w) <=? w_pos w then (false, w_set_overflow w) else (true, w_emit w [b]).

Definition write_span (w : writer) (s : bytes) : bool * writer :=
  if u64 (zlen (w_dst w) - w_pos w) <? zlen s then (false, w_set_overflow w)
  else if zlen s =? 0 then (true, w)
  else (true, w_emit w s).

(** The file-local helper and the member function around it. *)
Definition write_tag_eq (w : writer) (tag : Z) : bool * writer :=
  if zlen (w_dst w) <? u64 (u64 (w_pos w + Z.of_nat (digit_count tag)) + 1)
  then (false, w_set_overflow w)
  else
    match render_u32 tag 7 with
    | None => (false, w_set_overflow w)
    | Some ds => (true, w_emit (w_emit w ds) [EQ])
    end.

(** ** The operations *)

(** [if (!op) return err_field_value_truncated<void>();] *)
Definition or_truncated (r : bool * writer) (k : writer -> expected unit * writer)
  : expected unit * writer :=
  let '(ok, w) := r in if ok then k w else (Err wire_field_value_truncated, w).

Definition max_bl_digits : nat := 6.

Fixpoint write_zeros (n : nat) (w : writer) (k : writer -> expected unit * writer)
  : expected unit * writer :=
  match n with
  | O => k w
  | S n => or_truncated (write_byte w 48) (fun w => write_zeros n w k)
  end.

(** The BodyLength placeholder after the first field. *)
Definition inject_body_length (w : writer) : expected unit * writer :=
  or_truncated (write_byte w 57) (fun w =>
  or_truncated (write_byte w EQ) (fun w =>
  let w := Writer (w_dst w) (w_pos w) (w_body_start w) (Z.of_nat max_bl_digits) (w_pos w)
                  (w_overflow w) in
  write_zeros max_bl_digits w (fun w =>
  or_truncated (write_byte w SOH) (fun w =>
  (Ok tt, Writer (w_dst w) (w_pos w) (w_pos w) (w_bl_digit_count w) (w_bl_digit_pos w)
                 (w_overflow w)))))).

Definition append_raw (w : writer) (tag : Z) (value : bytes) : expected unit * writer :=
  if w_overflow w then (Err wire_field_value_truncated, w)
  else
    let is_first := w_body_start w =? npos in
    or_truncated (write_tag_eq w tag) (fun w =>
    or_truncated (write_span w value) (fun w =>
    or_truncated (write_byte w SOH) (fun w =>
    if is_first then inject_body_length w else (Ok tt, w)))).

(** What a call to third-party formatting code may do. *)
Inductive call_outcome (A : Type) : Type :=
  | returned (a : A)
  | threw_bad_alloc
  | threw_other.
Arguments returned {A} a.
Arguments threw_bad_alloc {A}.
Arguments threw_other {A}.

Definition trap_throw {A} (c : call_outcome A) : expected A :=
  match c with
  | returned a => Ok a
  | threw_bad_alloc => Err out_of_memory
  | threw_other => Err decimal_invalid_input
  end.

(** [append<T>]: [format] is the value's formatting call on the 256-byte scratch. *)
Definition append (format : bytes -> call_outcome (expected (bytes * Z)))
    (w : writer) (tag : Z) : expected unit * writer :=
  match trap_throw (format (replicate 256 0)) with
  | Err e => (Err e, w)
  | Ok (Err e) => (Err e, w)
  | Ok (Ok (scratch, n)) => append_raw w tag (ztake n scratch)
  end.

(** [Writer::append<decimal<pod_decimal>>]: the trait's [to_chars] never throws. *)
Definition append_decimal (w : writer) (tag : Z) (v : pod_decimal) : expected unit * writer :=
  append (fun scratch => returned (to_chars v scratch)) w tag.

(** [open_group] answers a handle on the writer; [group_writer::append_field] is
    [append_raw] on the owner and [close] writes nothing. *)
Definition open_group (w : writer) (no_tag count : Z) : expected unit * writer :=
  match render_u32 count 12 with
  | None => (Err wire_field_value_truncated, w)
  | Some ds => append_raw w no_tag ds
  end.

Definition append_field (owner : option writer) (tag : Z) (value : bytes)
  : expected unit * option writer :=
  match owner with
  | None => (Ok tt, None)
  | Some w => let '(r, w) := append_raw w tag value in (r, Some w)
  end.

(** The sum over [p[0..n)], an [unsigned] accumulator. *)
Definition byte_sum (bs : bytes) : Z := fold_left (fun acc b => u32 (acc + b)) bs 0.

Definition checksum_field (checksum : Z) : bytes :=
  [49; 48; EQ; 48 + checksum / 100; 48 + (checksum / 10) mod 10; 48 + checksum mod 10; SOH].

(** The gap-closing move, the digit patch, the checksum and the trailer. *)
Definition commit_tail (w : writer) (body_end body_length : Z) : expected Z * writer :=
  match render_u32 body_length 10 with
  | None => (Err wire_field_value_truncated, w)
  | Some ds =>
      if w_bl_digit_count w <? zlen ds then (Err wire_field_value_truncated, w)
      else
        let dst := zwrite (w_dst w) (w_bl_digit_pos w) (ds ++ [SOH]) in
        let checksum := byte_sum (ztake body_end dst) mod 256 in
        if zlen dst <? u64 (w_pos w + 7)
        then (Err wire_field_value_truncated,
              Writer dst (w_pos w) (w_body_start w) (w_bl_digit_count w) (w_bl_digit_pos w) true)
        else
          (Ok (w_pos w + 7),
           Writer (zwrite dst (w_pos w) (checksum_field checksum)) (w_pos w + 7)
             (w_body_start w) (w_bl_digit_count w) (w_bl_digit_pos w) (w_overflow w))
  end.

Definition commit (w : writer) : expected Z * writer :=
  if w_overflow w then (Err wire_field_value_truncated, w)
  else if w_body_start w =? npos then (Err wire_field_value_truncated, w)
  else
    let body_end := w_pos w in
    if body_end <? w_body_start w then (Err wire_field_value_truncated, w)
    else
      let body_length := u32 (body_end - w_body_start w) in
      let actual_digits := Z.of_nat (digit_count body_length) in
      if w_bl_digit_count w <? actual_digits then (Err wire_frame_too_large, w)
      else
        let gap := w_bl_digit_count w - actual_digits in
        if 0 <? gap then
          if w_body_start w <? gap then (Err wire_field_value_truncated, w)
          else
            let moved := zsub (w_dst w) (w_body_start w) (body_end - w_body_start w) in
            commit_tail
              (Writer (zwrite (w_dst w) (w_body_start w - gap) moved) (w_pos w - gap)
                 (w_body_start w - gap) actual_digits (w_bl_digit_pos w) (w_overflow w))
              (body_end - gap) body_length
        else commit_tail w body_end body_length.

(** ** Specification *)

(** The decimal text of a number, without leading zeros. *)
Definition dec_text (v : Z) : bytes := fixed_digits (digit_count v) v.

Definition field_text (tag : Z) (value : bytes) : bytes := dec_text tag ++ EQ :: value ++ [SOH].

Definition fields_bytes (fs : list (Z * bytes)) : bytes :=
  concat (map (fun '(tag, v) => field_text tag v) fs).

Definition sum_mod_256 (bs : bytes) : Z := fold_right Z.add 0 bs mod 256.

(** The frame of a BeginString and the fields of its body. *)
Definition frame_text (begin_string : bytes) (fs : list (Z * bytes)) : bytes :=
  let body := fields_bytes fs in
  let summed := field_text 8 begin_string ++ field_text 9 (dec_text (zlen body)) ++ body in
  summed ++ [49; 48; EQ] ++ fixed_digits 3 (sum_mod_256 summed) ++ [SOH].

(** A client's use of the writer: BeginString, the body fields in order, commit. *)
Fixpoint append_all (w : writer) (fs : list (Z * bytes)) : expected unit * writer :=
  match fs with
  | [] => (Ok tt, w)
  | (tag, v) :: fs =>
      match append_raw w tag v with
      | (Ok _, w) => append_all w fs
      | (Err e, w) => (Err e, w)
      end
  end.

Definition write_message (dst begin_string : bytes) (fs : list (Z * bytes)) : expected Z * writer :=
  match append_all (writer_init dst) ((8, begin_string) :: fs) with
  | (Ok _, w) => commit w
  | (Err e, w) => (Err e, w)
  end.

(** The cursor is inside the buffer, and the buffer's size fits in 32 bits. *)
Definition wf_writer (w : writer) : Prop :=
  0 <= w_pos w <= zlen (w_dst w) /\ zlen (w_dst w) <= UINT32_MAX.

(** What was emitted so far. *)
Definition emitted (w : writer) : bytes := ztake (w_pos w) (w_dst w).

(** [w'] continues [w]: same buffer size, and the emitted prefix is kept. *)
Definition extends (w w' : writer) : Prop :=
  wf_writer w' /\ zlen (w_dst w') = zlen (w_dst w) /\ w_pos w <= w_pos w' /\
  ztake (w_pos w) (w_dst w') = ztake (w_pos w) (w_dst w).

(** ** Lemmas *)

Lemma render_loop_fixed pos v acc : render_loop pos v acc = fixed_digits pos v ++ acc.
Proof.
  revert v acc. induction pos as [|pos IH]; intros v acc; [done|].
  cbn [render_loop fixed_digits]. by rewrite IH, <- app_assoc.
Qed.

Lemma digit_count_spec v : 0 <= v <= UINT32_MAX ->
  (1 <= digit_count v <= 10)%nat /\ v < 10 ^ Z.of_nat (digit_count v) /\
  (v = 0 \/ 10 ^ (Z.of_nat (digit_count v) - 1) <= v).
Proof. unfold digit_count, UINT32_MAX. intros. case_tests; cbn; lia. Qed.

Lemma dec_text_digits v : digits (dec_text v).
Proof. apply fixed_digits_digits. Qed.

Lemma dec_text_value v : 0 <= v <= UINT32_MAX -> dec_value (dec_text v) = v.
Proof. intros. apply fixed_digits_value_small. pose proof (digit_count_spec v). lia. Qed.

Lemma zlen_dec_text v : zlen (dec_text v) = Z.of_nat (digit_count v).
Proof. apply fixed_digits_length. Qed.

Lemma dec_text_nonempty v : 0 <= v <= UINT32_MAX -> 1 <= zlen (dec_text v) <= 10.
Proof. intros. rewrite zlen_dec_text. pose proof (digit_count_spec v). lia. Qed.

Lemma digit_count_tag tag : 0 <= tag <= 0xFFFF -> (1 <= digit_count tag <= 5)%nat.
Proof. unfold digit_count. intros. case_tests; lia. Qed.

Lemma render_u32_spec v n :
  render_u32 v n = if n <? zlen (dec_text v) then None else Some (dec_text v).
Proof. unfold render_u32. by rewrite zlen_dec_text, render_loop_fixed, app_nil_r. Qed.

Lemma zlen_field_text tag v : zlen (field_text tag v) = zlen (dec_text tag) + zlen v + 2.
Proof. unfold field_text. rewrite zlen_app, zlen_cons, zlen_app, zlen_cons, zlen_nilZ. lia. Qed.

Lemma fields_bytes_cons tag v fs :
  fields_bytes ((tag, v) :: fs) = field_text tag v ++ fields_bytes fs.
Proof. done. Qed.

Lemma zwrite_at a y p d : p = zlen a -> zwrite (a ++ y) p d = a ++ d ++ zdrop (zlen d) y.
Proof.
  intros ->. unfold zwrite. rewrite ztake_app. do 2 f_equal.
  rewrite zdrop_app_r by zlen_lia. f_equal. lia.
Qed.

Lemma zwrite_zwrite l p a b : 0 <= p -> p + zlen a + zlen b <= zlen l ->
  zwrite (zwrite l p a) (p + zlen a) b = zwrite l p (a ++ b).
Proof.
  intros Hp Hl. unfold zwrite at 2. rewrite app_assoc.
  pose proof (zlen_nonneg a). pose proof (zlen_nonneg b).
  rewrite zwrite_at by (rewrite zlen_app, zlen_take by lia; lia).
  unfold zwrite. rewrite zdrop_drop, zlen_app by lia. by rewrite <- !app_assoc, Z.add_assoc.
Qed.

Lemma zwrite_nil l p : zwrite l p [] = l.
Proof. unfold zwrite. rewrite zlen_nilZ, Z.add_0_r. apply ztake_drop. Qed.

Lemma ztake_ztake {A} i j (l : list A) : 0 <= i <= j -> ztake i (ztake j l) = ztake i l.
Proof. intros. unfold ztake. rewrite take_take. f_equal. lia. Qed.

Lemma ztake_zwrite l p d i : 0 <= i <= p -> p <= zlen l -> ztake i (zwrite l p d) = ztake i l.
Proof.
  intros Hi Hp. unfold zwrite. rewrite ztake_app_l by (rewrite zlen_take; lia).
  by apply ztake_ztake.
Qed.

Lemma w_emit_emit w a b : 0 <= w_pos w -> w_pos w + zlen a + zlen b <= zlen (w_dst w) ->
  w_emit (w_emit w a) b = w_emit w (a ++ b).
Proof.
  intros. unfold w_emit; cbn [w_dst w_pos w_body_start w_bl_digit_count w_bl_digit_pos w_overflow].
  by rewrite zwrite_zwrite, zlen_app, Z.add_assoc by done.
Qed.

Lemma w_emit_nil w : w_emit w [] = w.
Proof. destruct w; unfold w_emit; cbn. by rewrite zwrite_nil, zlen_nilZ, Z.add_0_r. Qed.

Lemma wf_emit w s : wf_writer w -> w_pos w + zlen s <= zlen (w_dst w) -> wf_writer (w_emit w s).
Proof.
  unfold wf_writer. intros. cbn. rewrite zlen_write by lia. pose proof (zlen_nonneg s). lia.
Qed.

Lemma emitted_emit w s : wf_writer w -> w_pos w + zlen s <= zlen (w_dst w) ->
  emitted (w_emit w s) = emitted w ++ s.
Proof.
  unfold wf_writer, emitted. intros. cbn. unfold zwrite. rewrite app_assoc.
  replace (w_pos w + zlen s) with (zlen (ztake (w_pos w) (w_dst w) ++ s)) at 1
    by (rewrite zlen_app, zlen_take by lia; lia).
  apply ztake_app.
Qed.

Lemma extends_refl w : wf_writer w -> extends w w.
Proof. unfold extends. auto with lia. Qed.

Lemma extends_overflow w w' : extends w w' -> extends w (w_set_overflow w').
Proof. done. Qed.

Lemma extends_emit w w' s : wf_writer w -> extends w w' ->
  w_pos w' + zlen s <= zlen (w_dst w') -> extends w (w_emit w' s).
Proof.
  unfold extends. intros Hw (Hw' & Hl & Hp & Ht) Hs. split; [by apply wf_emit|].
  unfold wf_writer in *. cbn. rewrite zlen_write by lia. pose proof (zlen_nonneg s).
  repeat split; try lia. by rewrite ztake_zwrite by lia.
Qed.

(** Every primitive emits its bytes when they fit and sets the overflow flag otherwise. *)
Definition put (w : writer) (s : bytes) : bool * writer :=
  if zlen (w_dst w) <? w_pos w + zlen s then (false, w_set_overflow w) else (true, w_emit w s).

Lemma write_byte_put w b : write_byte w b = put w [b].
Proof. unfold write_byte, put. change (zlen [b]) with 1. case_tests; done. Qed.

Lemma write_span_put w s : wf_writer w -> write_span w s = put w s.
Proof.
  unfold wf_writer, UINT32_MAX. intros. unfold write_span, put. rewrite wrap_small by lia.
  pose proof (zlen_nonneg s).
  destruct (zlen s =? 0) eqn:E; [|case_tests; done].
  rewrite (zlen_0_nil s), w_emit_nil, zlen_nilZ by lia. case_tests; done.
Qed.

Lemma write_tag_eq_put w tag : wf_writer w -> 0 <= tag <= 0xFFFF ->
  write_tag_eq w tag = put w (dec_text tag ++ [EQ]).
Proof.
  unfold wf_writer, UINT32_MAX. intros Hw Ht. pose proof (digit_count_tag tag Ht).
  unfold write_tag_eq, put. rewrite render_u32_spec, zlen_app, zlen_dec_text.
  change (zlen [EQ]) with 1. rewrite (wrap_small 64 (w_pos w + _)), wrap_small by lia.
  rewrite Z.add_assoc. case_tests; [done|].
  rewrite w_emit_emit; [done|lia|]. rewrite zlen_dec_text. change (zlen [EQ]) with 1. lia.
Qed.

Lemma or_truncated_put w s k : w_pos w + zlen s <= zlen (w_dst w) ->
  or_truncated (put w s) k = k (w_emit w s).
Proof. intros. unfold put. by replace (_ <? _) with false by lia. Qed.

Lemma w_emit_pos w s : w_pos (w_emit w s) = w_pos w + zlen s.
Proof. done. Qed.

Lemma w_emit_dst_len w s : 0 <= w_pos w -> w_pos w + zlen s <= zlen (w_dst w) ->
  zlen (w_dst (w_emit w s)) = zlen (w_dst w).
Proof. intros. by apply zlen_write. Qed.

Lemma write_zeros_spec n w k : wf_writer w -> w_pos w + Z.of_nat n <= zlen (w_dst w) ->
  write_zeros n w k = k (w_emit w (replicate n 48)).
Proof.
  revert w. induction n as [|n IH]; intros w Hw Hn; cbn [write_zeros].
  - by rewrite w_emit_nil.
  - rewrite write_byte_put, or_truncated_put by (change (zlen [48]) with 1; lia).
    pose proof (wf_emit w [48] Hw ltac:(change (zlen [48]) with 1; lia)).
    unfold wf_writer in Hw.
    rewrite IH; [|done|rewrite w_emit_dst_len, w_emit_pos; change (zlen [48]) with 1; lia].
    rewrite w_emit_emit; [done|lia|].
    rewrite zlen_replicate. change (zlen [48]) with 1. lia.
Qed.

Definition placeholder : bytes := [57; EQ] ++ replicate 6 48 ++ [SOH].

(** The state after the first field. *)
Definition after_first (w : writer) (s : bytes) : writer :=
  let w' := w_emit w (s ++ placeholder) in
  Writer (w_dst w') (w_pos w') (w_pos w') 6 (w_pos w + zlen s + 2) (w_overflow w').

Lemma put_emit w a s k : 0 <= w_pos w -> w_pos w + zlen a + zlen s <= zlen (w_dst w) ->
  or_truncated (put (w_emit w a) s) k = k (w_emit w (a ++ s)).
Proof.
  intros. pose proof (zlen_nonneg s). rewrite or_truncated_put.
  - by rewrite w_emit_emit.
  - rewrite w_emit_dst_len, w_emit_pos; lia.
Qed.

Lemma zlen_singleton (x : Z) : zlen [x] = 1.
Proof. done. Qed.
#[local] Hint Rewrite zlen_singleton zlen_dec_text zlen_field_text : zlen.

(** The three writes of a field. *)
Lemma field_writes w tag v k :
  wf_writer w -> 0 <= tag <= 0xFFFF -> w_pos w + zlen (field_text tag v) <= zlen (w_dst w) ->
  or_truncated (write_tag_eq w tag) (fun w =>
  or_truncated (write_span w v) (fun w =>
  or_truncated (write_byte w SOH) k)) = k (w_emit w (field_text tag v)).
Proof.
  intros Hw Ht. rewrite zlen_field_text. intros Hl. pose proof Hw as [[Hp _] _].
  rewrite write_tag_eq_put, or_truncated_put by (done || zlen_lia).
  rewrite write_span_put by (apply wf_emit; [done|zlen_lia]).
  rewrite put_emit, write_byte_put, put_emit by zlen_lia.
  unfold field_text. by rewrite <- !app_assoc.
Qed.

Lemma append_raw_next w tag v :
  wf_writer w -> w_overflow w = false -> w_body_start w <> npos -> 0 <= tag <= 0xFFFF ->
  w_pos w + zlen (field_text tag v) <= zlen (w_dst w) ->
  append_raw w tag v = (Ok tt, w_emit w (field_text tag v)).
Proof.
  intros Hw Ho Hf Ht Hl. unfold append_raw. rewrite Ho.
  replace (w_body_start w =? npos) with false by lia. by rewrite field_writes.
Qed.

Lemma append_raw_first w tag v :
  wf_writer w -> w_overflow w = false -> w_body_start w = npos -> 0 <= tag <= 0xFFFF ->
  w_pos w + zlen (field_text tag v) + 9 <= zlen (w_dst w) ->
  append_raw w tag v = (Ok tt, after_first w (field_text tag v)).
Proof.
  intros Hw Ho Hf Ht Hl. unfold append_raw. rewrite Ho, Hf, Z.eqb_refl.
  rewrite field_writes by (done || lia). pose proof Hw as [[Hp _] _].
  set (s := field_text tag v) in *. pose proof (zlen_nonneg s).
  unfold inject_body_length.
  rewrite write_byte_put, put_emit, write_byte_put, put_emit by zlen_lia.
  set (w1 := Writer _ _ _ _ _ _).
  assert (Hw1 : wf_writer w1).
  { unfold w1. apply (wf_emit w); [done|]. zlen_lia. }
  assert (Hp1 : w_pos w1 = w_pos w + zlen s + 2) by (unfold w1; cbn [w_pos w_emit]; zlen_lia).
  assert (Hl1 : zlen (w_dst w1) = zlen (w_dst w)).
  { unfold w1. cbn [w_dst]. apply w_emit_dst_len; zlen_lia. }
  rewrite write_zeros_spec by (done || (rewrite Hp1, Hl1; change (Z.of_nat max_bl_digits) with 6; lia)).
  rewrite write_byte_put, put_emit.
  2: { rewrite Hp1. lia. }
  2: { rewrite Hp1, Hl1, zlen_replicate, zlen_singleton. change (Z.of_nat max_bl_digits) with 6. lia. }
  unfold after_first, w1. cbn [w_dst w_pos w_emit w_overflow w_bl_digit_count w_bl_digit_pos w_body_start].
  unfold placeholder. rewrite !app_assoc. pose proof (zlen_nonneg (w_dst w)).
  assert (E : zwrite (w_dst (w_emit w ((s ++ [57]) ++ [EQ]))) (w_pos w + zlen ((s ++ [57]) ++ [EQ]))
      (replicate max_bl_digits 48 ++ [SOH]) =
    zwrite (w_dst w) (w_pos w) (((s ++ [57; EQ]) ++ replicate 6 48) ++ [SOH])).
  { cbn [w_dst w_emit]. change max_bl_digits with 6%nat.
    rewrite zwrite_zwrite by zlen_lia. f_equal. by rewrite <- !app_assoc. }
  f_equal. unfold w_emit in *; cbn in E |- *. rewrite E. f_equal; zlen_lia.
Qed.

(** A write that does not fit: the error, the sticky flag, the prefix kept. *)
Definition fails (w : writer) (r : expected unit * writer) : Prop :=
  exists w', r = (Err wire_field_value_truncated, w') /\ w_overflow w' = true /\ extends w w'.

Lemma fails_put w w1 s k : wf_writer w -> extends w w1 ->
  (w_pos w1 + zlen s <= zlen (w_dst w1) -> extends w (w_emit w1 s) -> fails w (k (w_emit w1 s))) ->
  fails w (or_truncated (put w1 s) k).
Proof.
  intros Hw H1 Hk. unfold put. destruct (_ <? _) eqn:E.
  - exists (w_set_overflow w1). by repeat split; try apply H1.
  - apply Hk; [lia|]. apply extends_emit; (done || lia).
Qed.

Lemma extends_fields w w1 w2 : extends w w1 ->
  w_dst w2 = w_dst w1 -> w_pos w2 = w_pos w1 -> extends w w2.
Proof. unfold extends, wf_writer. by intros (? & ? & ? & ?) -> ->. Qed.

Lemma fails_zeros n w w1 k : wf_writer w -> extends w w1 ->
  (forall w2, extends w w2 -> zlen (w_dst w2) = zlen (w_dst w) ->
    w_pos w2 = w_pos w1 + Z.of_nat n -> fails w (k w2)) ->
  fails w (write_zeros n w1 k).
Proof.
  intros Hw. revert w1. induction n as [|n IH]; intros w1 H1 Hk; cbn [write_zeros].
  - apply Hk; [done| |lia]. apply H1.
  - rewrite write_byte_put. apply fails_put; [done..|]. intros _ He. apply IH; [done|].
    intros w2 H2 Hl2 Hp2. apply Hk; [done..|]. rewrite Hp2. cbn. change (zlen [48]) with 1. lia.
Qed.

Lemma fails_field_writes w tag v k : wf_writer w -> 0 <= tag <= 0xFFFF ->
  (forall w2, extends w w2 -> w_pos w2 = w_pos w + zlen (field_text tag v) ->
    w_pos w2 <= zlen (w_dst w) -> fails w (k w2)) ->
  fails w (or_truncated (write_tag_eq w tag) (fun w =>
    or_truncated (write_span w v) (fun w => or_truncated (write_byte w SOH) k))).
Proof.
  intros Hw Ht Hk. rewrite write_tag_eq_put by done.
  apply fails_put; [done|by apply extends_refl|]. intros L1 H1.
  rewrite write_span_put by apply H1. apply fails_put; [done..|]. intros L2 H2.
  rewrite write_byte_put. apply fails_put; [done..|]. intros L3 H3.
  assert (Hl : zlen (w_dst (w_emit (w_emit (w_emit w (dec_text tag ++ [EQ])) v) [SOH])) =
    zlen (w_dst w)) by apply H3.
  apply Hk; [done| |].
  - cbn [w_pos w_emit]. zlen_lia.
  - rewrite <- Hl. apply H3.
Qed.

Lemma append_raw_fails w tag v : wf_writer w -> 0 <= tag <= 0xFFFF ->
  zlen (w_dst w) < w_pos w + zlen (field_text tag v) + (if w_body_start w =? npos then 9 else 0) \/
    w_overflow w = true ->
  fails w (append_raw w tag v).
Proof.
  intros Hw Ht Hl. unfold append_raw. destruct (w_overflow w) eqn:Ho.
  { exists w. repeat split; try done; try apply Hw. }
  destruct Hl as [Hl|?]; [|done]. apply fails_field_writes; [done..|].
  intros w2 H2 Hp2 Hb2. destruct (w_body_start w =? npos); [|lia].
  unfold inject_body_length. rewrite write_byte_put. apply fails_put; [done..|]. intros L3 H3.
  rewrite write_byte_put. apply fails_put; [done..|]. intros L4 H4.
  apply fails_zeros; [done|by eapply extends_fields; [exact H4|done..]|].
  intros w5 H5 Hl5 Hp5. rewrite write_byte_put. apply fails_put; [done..|]. intros L6 H6.
  exfalso. rewrite Hl5, Hp5 in L6. cbn [w_pos w_emit] in L6. change (Z.of_nat max_bl_digits) with 6 in L6.
  rewrite !zlen_singleton in L6. lia.
Qed.

Lemma append_all_ok w fs :
  wf_writer w -> w_overflow w = false -> w_body_start w <> npos ->
  Forall (fun f => 0 <= f.1 <= 0xFFFF) fs -> w_pos w + zlen (fields_bytes fs) <= zlen (w_dst w) ->
  append_all w fs = (Ok tt, w_emit w (fields_bytes fs)).
Proof.
  intros Hw Ho Hf Hfs. revert w Hw Ho Hf. induction Hfs as [|[tag v] fs Ht _ IH]; intros w Hw Ho Hf Hl.
  - cbn. by rewrite w_emit_nil.
  - rewrite fields_bytes_cons, zlen_app in *. pose proof (zlen_nonneg (fields_bytes fs)).
    pose proof (zlen_nonneg (field_text tag v)). pose proof Hw as [? _].
    cbn [append_all]. rewrite append_raw_next by (done || lia).
    rewrite IH; [by rewrite w_emit_emit by lia|by apply wf_emit; [|lia]|done|done|].
    rewrite w_emit_dst_len, w_emit_pos; lia.
Qed.

Lemma fails_extends w w1 r : wf_writer w -> extends w w1 -> fails w1 r -> fails w r.
Proof.
  intros Hw (H1 & Hl1 & Hp1 & Ht1) (w' & -> & Ho & H' & Hl' & Hp' & Ht').
  exists w'. split; [done|]. split; [done|]. split; [done|]. split; [lia|]. split; [lia|].
  unfold wf_writer in *. rewrite <- Ht1. rewrite <- (ztake_ztake (w_pos w) (w_pos w1)) by lia.
  rewrite Ht'. apply ztake_ztake. lia.
Qed.

Lemma append_all_fails w fs :
  wf_writer w -> w_overflow w = false -> w_body_start w <> npos ->
  Forall (fun f => 0 <= f.1 <= 0xFFFF) fs -> zlen (w_dst w) < w_pos w + zlen (fields_bytes fs) ->
  fails w (append_all w fs).
Proof.
  intros Hw Ho Hf Hfs. revert w Hw Ho Hf. induction Hfs as [|[tag v] fs Ht _ IH]; intros w Hw Ho Hf Hl.
  - cbn in Hl. unfold wf_writer in Hw. rewrite zlen_nilZ in Hl. lia.
  - rewrite fields_bytes_cons, zlen_app in Hl. cbn [append_all].
    destruct (decide (w_pos w + zlen (field_text tag v) <= zlen (w_dst w))) as [Hfit|Hfit].
    + rewrite append_raw_next by done. pose proof Hw as [? _].
      assert (He : extends w (w_emit w (field_text tag v))).
      { apply extends_emit; [done|by apply extends_refl|done]. }
      eapply fails_extends; [done|exact He|]. apply IH; [apply He|done|done|].
      rewrite w_emit_dst_len, w_emit_pos; lia.
    + destruct (append_raw_fails w tag v Hw Ht) as (w' & E & Ho' & He).
      { left. replace (w_body_start w =? npos) with false by lia. lia. }
      rewrite E. by exists w'.
Qed.

Lemma sum_acc acc bs : fold_left (fun acc b => u32 (acc + b)) bs (u32 acc) = u32 (acc + fold_right Z.add 0 bs).
Proof.
  revert acc. induction bs as [|b bs IH]; intros acc; cbn [fold_left fold_right].
  - by rewrite Z.add_0_r.
  - replace (u32 (u32 acc + b)) with (u32 (acc + b)) by (unfold wrap; by rewrite Zplus_mod_idemp_l).
    rewrite IH. f_equal. lia.
Qed.

Lemma byte_sum_spec bs : byte_sum bs mod 256 = sum_mod_256 bs.
Proof.
  unfold byte_sum. change 0 with (u32 0) at 1. rewrite sum_acc. unfold wrap, sum_mod_256.
  rewrite Z.add_0_l, Z.mod_mod_divide; [done|]. by exists (2 ^ 24).
Qed.

Lemma checksum_field_spec bs :
  checksum_field (byte_sum bs mod 256) = [49; 48; EQ] ++ fixed_digits 3 (sum_mod_256 bs) ++ [SOH].
Proof.
  rewrite byte_sum_spec. unfold checksum_field. cbn.
  assert (Hc : 0 <= sum_mod_256 bs < 256) by (apply Z.mod_pos_bound; lia).
  set (c := sum_mod_256 bs) in *.
  do 3 f_equal. replace (c / 10 / 10 mod 10) with (c / 100) by dlia. done.
Qed.

(** What [commit] makes of [pre], the placeholder and a body. *)
Definition summed_text (pre body : bytes) : bytes :=
  pre ++ field_text 9 (dec_text (zlen body)) ++ body.

Lemma zlen_summed_text pre body :
  zlen (summed_text pre body) = zlen pre + 3 + zlen (dec_text (zlen body)) + zlen body.
Proof.
  unfold summed_text. rewrite !zlen_app, zlen_field_text. change (zlen (dec_text 9)) with 1. lia.
Qed.

Definition trailer (summed : bytes) : bytes :=
  [49; 48; EQ] ++ fixed_digits 3 (sum_mod_256 summed) ++ [SOH].

Lemma commit_tail_spec pre body junk w :
  zlen body <= UINT32_MAX -> zlen (w_dst w) <= UINT32_MAX ->
  w_dst w = pre ++ [57; EQ] ++ junk -> zlen (dec_text (zlen body)) + 1 <= zlen junk ->
  zdrop (zlen (dec_text (zlen body)) + 1) junk = body ++ zdrop (zlen (dec_text (zlen body)) + 1 + zlen body) junk ->
  w_bl_digit_count w = zlen (dec_text (zlen body)) -> w_bl_digit_pos w = zlen pre + 2 ->
  w_pos w = zlen (summed_text pre body) -> w_pos w <= zlen (w_dst w) ->
  if zlen (w_dst w) <? zlen (summed_text pre body) + 7
  then exists w', commit_tail w (w_pos w) (zlen body) = (Err wire_field_value_truncated, w')
  else exists w' rest, commit_tail w (w_pos w) (zlen body) = (Ok (zlen (summed_text pre body) + 7), w') /\
    w_dst w' = summed_text pre body ++ trailer (summed_text pre body) ++ rest /\
    zlen (w_dst w') = zlen (w_dst w).
Proof.
  intros Hb Hd E Hj Ej Hc Hq Hp Hpl. pose proof (dec_text_nonempty (zlen body)) as Hds.
  pose proof (zlen_nonneg body). pose proof (zlen_nonneg pre).
  unfold commit_tail. rewrite render_u32_spec.
  set (ds := dec_text (zlen body)) in *.
  replace (10 <? zlen ds) with false by lia. rewrite Hc, Z.ltb_irrefl.
  set (dst := zwrite _ _ _).
  assert (Edst : dst = summed_text pre body ++ zdrop (zlen ds + 1 + zlen body) junk).
  { unfold dst. rewrite E, Hq, app_assoc. rewrite zwrite_at by zlen_lia.
    replace (zlen (ds ++ [SOH])) with (zlen ds + 1) by zlen_lia. rewrite Ej.
    unfold summed_text, field_text. fold ds. change (dec_text 9) with [57].
    cbn [app]. rewrite <- !app_assoc. cbn [app]. by rewrite <- !app_assoc. }
  assert (Hdl : zlen dst = zlen (w_dst w)).
  { unfold dst. apply zlen_write; [lia|]. rewrite E, Hq. zlen_lia. }
  assert (zlen ds + 1 + zlen body <= zlen junk).
  { apply (f_equal zlen) in E. rewrite Hp, zlen_summed_text in Hpl. fold ds in Hpl.
    zlen_lia. }
  unfold UINT32_MAX in *. rewrite Hdl, (wrap_small 64) by (rewrite Hp; pose_zlen; lia).
  rewrite Hp. destruct (_ <? _) eqn:Ecmp; [eauto|].
  assert (Ht : ztake (zlen (summed_text pre body)) dst = summed_text pre body).
  { rewrite Edst. apply ztake_app. }
  rewrite Ht, checksum_field_spec. fold (trailer (summed_text pre body)).
  set (s := summed_text pre body) in *.
  assert (zlen (trailer s) = 7).
  { unfold trailer. rewrite !zlen_app, fixed_digits_length. done. }
  eexists _, _. split; [done|]. cbn [w_dst]. split.
  - rewrite Edst. by rewrite zwrite_at.
  - rewrite zlen_write by (pose proof (zlen_nonneg s); lia). done.
Qed.

(** The writer after BeginString and the body: [rest] is the unused room. *)
Definition body_state (w : writer) (pre body rest : bytes) : Prop :=
  w_dst w = pre ++ placeholder ++ body ++ rest /\ w_pos w = zlen pre + 9 + zlen body /\
  w_body_start w = zlen pre + 9 /\ w_bl_digit_count w = 6 /\ w_bl_digit_pos w = zlen pre + 2 /\
  w_overflow w = false.

Lemma digit_count_6 v : 0 <= v <= UINT32_MAX -> (digit_count v <= 6)%nat <-> v <= 999999.
Proof. unfold digit_count. intros. case_tests; lia. Qed.

(** The buffer after the body moved left to leave [dc] digits and a SOH. *)
Definition zeros_soh : bytes := replicate 6 48 ++ [SOH].
Definition moved_tail (dc : Z) (body rest : bytes) : bytes :=
  ztake (dc + 1) zeros_soh ++ body ++ zdrop (zlen body) (zdrop (dc + 1) zeros_soh ++ body ++ rest).

Lemma zlen_zeros_take dc : 1 <= dc <= 6 -> zlen (ztake (dc + 1) zeros_soh) = dc + 1.
Proof. intros. apply zlen_take. change (zlen zeros_soh) with 7. lia. Qed.

Lemma moved_layout pre body rest dc : 1 <= dc <= 6 ->
  zwrite (pre ++ placeholder ++ body ++ rest) (zlen pre + 9 - (6 - dc)) body =
  pre ++ [57; EQ] ++ moved_tail dc body rest.
Proof.
  intros Hdc. change placeholder with ([57; EQ] ++ zeros_soh).
  rewrite <- (ztake_drop (dc + 1) zeros_soh) at 1. rewrite <- !app_assoc.
  set (y := zdrop (dc + 1) zeros_soh ++ body ++ rest).
  replace (pre ++ [57; EQ] ++ ztake (dc + 1) zeros_soh ++ y)
    with ((pre ++ [57; EQ] ++ ztake (dc + 1) zeros_soh) ++ y) by by rewrite <- !app_assoc.
  rewrite zwrite_at.
  - unfold moved_tail. by rewrite <- !app_assoc.
  - rewrite !zlen_app, zlen_zeros_take by lia. change (zlen [57; EQ]) with 2. lia.
Qed.

Lemma moved_tail_6 body rest : moved_tail 6 body rest = zeros_soh ++ body ++ rest.
Proof.
  unfold moved_tail. rewrite ztake_ge, (zdrop_ge (6 + 1)) by done.
  change ([] ++ body ++ rest) with (body ++ rest). by rewrite zdrop_app.
Qed.

Lemma moved_tail_drop dc body rest : 1 <= dc <= 6 ->
  zdrop (dc + 1) (moved_tail dc body rest) =
  body ++ zdrop (dc + 1 + zlen body) (moved_tail dc body rest).
Proof.
  intros. pose proof (zlen_nonneg body). pose proof (zlen_zeros_take dc ltac:(lia)) as Hz.
  unfold moved_tail. set (x := zdrop (zlen body) _).
  rewrite !(zdrop_app_r (ztake _ _)) by lia. rewrite Hz.
  replace (dc + 1 - (dc + 1)) with 0 by lia. rewrite zdrop_0. f_equal.
  replace (dc + 1 + zlen body - (dc + 1)) with (zlen body) by lia. by rewrite zdrop_app.
Qed.

Lemma zlen_moved_tail dc body rest : 1 <= dc <= 6 -> dc + 1 <= zlen (moved_tail dc body rest).
Proof. intros. unfold moved_tail. rewrite zlen_app, zlen_zeros_take by lia. pose_zlen. lia. Qed.

(** The part of [commit] before the digits are patched. *)
Lemma commit_unfold w pre body rest :
  body_state w pre body rest -> zlen (w_dst w) <= UINT32_MAX ->
  if 999999 <? zlen body then commit w = (Err wire_frame_too_large, w)
  else exists w1, commit w = commit_tail w1 (w_pos w1) (zlen body) /\
    w_dst w1 = pre ++ [57; EQ] ++ moved_tail (zlen (dec_text (zlen body))) body rest /\
    zlen (w_dst w1) = zlen (w_dst w) /\
    w_pos w1 = zlen (summed_text pre body) /\ w_pos w1 <= zlen (w_dst w) /\
    w_bl_digit_count w1 = zlen (dec_text (zlen body)) /\ w_bl_digit_pos w1 = zlen pre + 2 /\
    1 <= zlen (dec_text (zlen body)) <= 6.
Proof.
  intros (E & Hp & Hb & Hc & Hq & Ho) Hd. unfold UINT32_MAX in Hd.
  pose proof (zlen_nonneg pre). pose proof (zlen_nonneg body). pose proof (zlen_nonneg rest).
  assert (Hl : zlen (w_dst w) = zlen pre + 9 + zlen body + zlen rest).
  { rewrite E, !zlen_app. change (zlen placeholder) with 9. lia. }
  unfold commit. rewrite Ho. unfold npos, UINT64_MAX.
  replace (w_body_start w =? _) with false by lia.
  replace (w_pos w <? w_body_start w) with false by lia.
  replace (w_pos w - w_body_start w) with (zlen body) by lia. rewrite (wrap_small 32) by lia.
  rewrite Hc, <- zlen_dec_text.
  pose proof (digit_count_6 (zlen body)) as H6. unfold UINT32_MAX in H6.
  pose proof (dec_text_nonempty (zlen body)) as Hn. unfold UINT32_MAX in Hn.
  pose proof (zlen_summed_text pre body) as Hs.
  pose proof (zlen_dec_text (zlen body)) as Hdt. set (dc := zlen (dec_text (zlen body))) in *.
  destruct (999999 <? zlen body) eqn:Eb; [by replace (6 <? dc) with true by lia|].
  replace (6 <? dc) with false by lia. replace (w_body_start w <? 6 - dc) with false by lia.
  destruct (0 <? 6 - dc) eqn:Eg.
  - assert (Hmv : zsub (w_dst w) (w_body_start w) (zlen body) = body).
    { unfold zsub. rewrite E, Hb, app_assoc.
      replace (zlen pre + 9) with (zlen (pre ++ placeholder))
        by (rewrite zlen_app; change (zlen placeholder) with 9; lia).
      by rewrite zdrop_app, ztake_app. }
    rewrite Hmv. eexists (Writer _ (w_pos w - (6 - dc)) _ _ _ _). split; [done|].
    cbn [w_dst w_pos w_bl_digit_count w_bl_digit_pos]. repeat split; try lia.
    + rewrite E, Hb. apply moved_layout. lia.
    + apply zlen_write; lia.
  - exists w. assert (dc = 6) as -> by lia. repeat split; try lia.
    rewrite E, moved_tail_6. unfold placeholder, zeros_soh. by rewrite <- !app_assoc.
Qed.

Lemma commit_spec w pre body rest :
  body_state w pre body rest -> zlen (w_dst w) <= UINT32_MAX ->
  if 999999 <? zlen body then commit w = (Err wire_frame_too_large, w)
  else if zlen (w_dst w) <? zlen (summed_text pre body) + 7
  then exists w', commit w = (Err wire_field_value_truncated, w')
  else exists w' rest', commit w = (Ok (zlen (summed_text pre body) + 7), w') /\
    w_dst w' = summed_text pre body ++ trailer (summed_text pre body) ++ rest' /\
    zlen (w_dst w') = zlen (w_dst w).
Proof.
  intros Hw Hd. pose proof (commit_unfold w pre body rest Hw Hd) as H.
  destruct (999999 <? zlen body) eqn:Eb; [done|].
  destruct H as (w1 & -> & E1 & Hl1 & Hp1 & Hp1l & Hc1 & Hq1 & Hdc).
  rewrite <- Hl1 in *.
  eapply commit_tail_spec; try done.
  - unfold UINT32_MAX. lia.
  - apply zlen_moved_tail. lia.
  - apply moved_tail_drop. lia.
Qed.

Lemma frame_text_eq begin_string fs :
  let summed := summed_text (field_text 8 begin_string) (fields_bytes fs) in
  frame_text begin_string fs = summed ++ trailer summed.
Proof. done. Qed.

Lemma zlen_trailer s : zlen (trailer s) = 7.
Proof. unfold trailer. rewrite !zlen_app, fixed_digits_length. done. Qed.

(** The writer's state once BeginString and the body are in. *)
Lemma append_all_body dst begin_string fs :
  zlen dst <= UINT32_MAX -> Forall (fun f => 0 <= f.1 <= 0xFFFF) fs ->
  let pre := field_text 8 begin_string in
  let body := fields_bytes fs in
  if zlen dst <? zlen pre + 9 + zlen body
  then fails (writer_init dst) (append_all (writer_init dst) ((8, begin_string) :: fs))
  else exists w rest, append_all (writer_init dst) ((8, begin_string) :: fs) = (Ok tt, w) /\
    body_state w pre body rest /\ zlen (w_dst w) = zlen dst.
Proof.
  intros Hd Hfs pre body. set (w0 := writer_init dst).
  assert (Hw0 : wf_writer w0) by (unfold wf_writer; cbn; pose proof (zlen_nonneg dst); lia).
  pose proof (zlen_nonneg body). pose proof (zlen_nonneg pre). cbn [append_all].
  destruct (decide (zlen pre + 9 <= zlen dst)) as [Hf|Hf].
  2: { replace (zlen dst <? _) with true by lia.
       destruct (append_raw_fails w0 8 begin_string) as (w' & -> & Ho & He);
         [done|lia|left; cbn [w_dst w_pos w_body_start w0 writer_init];
         rewrite Z.eqb_refl; fold pre; lia|by exists w']. }
  rewrite append_raw_first by (done || (cbn [w_dst w_pos w0 writer_init]; fold pre; lia)). fold pre.
  set (w1 := after_first w0 pre).
  assert (H1 : w_dst w1 = (pre ++ placeholder) ++ zdrop (zlen pre + 9) dst).
  { unfold w1, after_first, w_emit. cbn [w_dst w_pos w0 writer_init].
    by rewrite zwrite_0, zlen_app. }
  assert (Hp1 : w_pos w1 = zlen pre + 9).
  { unfold w1, after_first. cbn [w_pos w_emit w0 writer_init].
    rewrite zlen_app. change (zlen placeholder) with 9. lia. }
  assert (Hl1 : zlen (w_dst w1) = zlen dst).
  { rewrite H1, !zlen_app, zlen_drop by lia. change (zlen placeholder) with 9. lia. }
  assert (Hw1 : wf_writer w1) by (unfold wf_writer; rewrite Hl1; lia).
  assert (He1 : extends w0 w1) by (repeat split; try done; try apply Hw1; lia).
  assert (Hb1 : w_body_start w1 = zlen pre + 9) by (rewrite <- Hp1; done).
  assert (Hn1 : w_body_start w1 <> npos) by (unfold npos, UINT64_MAX, UINT32_MAX in *; lia).
  destruct (zlen dst <? _) eqn:E.
  - eapply fails_extends; [done|exact He1|]. apply append_all_fails; (done || (fold body; lia)).
  - rewrite append_all_ok by (done || (fold body; lia)). eexists _, (zdrop (zlen body) (zdrop (zlen pre + 9) dst)).
    split; [done|]. fold body. split; [|rewrite <- Hl1; apply zlen_write; lia].
    unfold body_state. cbn [w_dst w_pos w_body_start w_bl_digit_count w_bl_digit_pos w_overflow w_emit].
    repeat split; try lia. rewrite H1, zwrite_at.
    + by rewrite <- !app_assoc.
    + rewrite zlen_app. change (zlen placeholder) with 9. lia.
Qed.

(** A client's whole message: its frame when it fits, the failed limit otherwise. *)
Lemma write_message_outcome dst begin_string fs :
  zlen dst <= UINT32_MAX -> Forall (fun f => 0 <= f.1 <= 0xFFFF) fs ->
  let text := frame_text begin_string fs in
  let body := fields_bytes fs in
  if (zlen text <=? zlen dst) && (zlen body <=? 999999)
  then exists w rest, write_message dst begin_string fs = (Ok (zlen text), w) /\
    w_dst w = text ++ rest /\ zlen (w_dst w) = zlen dst
  else exists w, write_message dst begin_string fs =
    (Err (if (999999 <? zlen body) && (zlen (field_text 8 begin_string) + 9 + zlen body <=? zlen dst)
          then wire_frame_too_large else wire_field_value_truncated), w).
Proof.
  intros Hd Hfs text body. unfold text. rewrite frame_text_eq, zlen_app, zlen_trailer. fold body.
  pose proof (append_all_body dst begin_string fs Hd Hfs) as H. cbn zeta in H. fold body in H.
  set (pre := field_text 8 begin_string) in *. set (summed := summed_text pre body).
  pose proof (zlen_summed_text pre body) as Hs. fold summed in Hs.
  pose proof (dec_text_nonempty (zlen body)) as Hn. pose proof (zlen_nonneg pre).
  pose proof (zlen_nonneg body). unfold write_message.
  destruct (zlen dst <? zlen pre + 9 + zlen body) eqn:Ef.
  - destruct H as (w & -> & _ & _). unfold UINT32_MAX in *.
    destruct (zlen summed + 7 <=? zlen dst) eqn:E1; cbn [andb].
    { destruct (zlen body <=? 999999) eqn:E2; [exfalso; lia|]. exists w.
      replace (zlen pre + 9 + zlen body <=? zlen dst) with false by lia. by rewrite andb_false_r. }
    exists w. replace (zlen pre + 9 + zlen body <=? zlen dst) with false by lia. by rewrite andb_false_r.
  - destruct H as (w & rest & -> & Hw & Hl).
    pose proof (commit_spec w pre body rest Hw ltac:(lia)) as Hc. fold summed in Hc.
    rewrite Hl in Hc. replace (zlen pre + 9 + zlen body <=? zlen dst) with true by lia.
    destruct (999999 <? zlen body) eqn:Eb.
    + replace (zlen body <=? 999999) with false by lia. rewrite andb_false_r. cbn. by exists w.
    + replace (zlen body <=? 999999) with true by lia. rewrite andb_true_r.
      destruct (zlen dst <? zlen summed + 7) eqn:Ec.
      * by replace (zlen summed + 7 <=? zlen dst) with false by lia.
      * replace (zlen summed + 7 <=? zlen dst) with true by lia.
        destruct Hc as (w' & rest' & -> & Hdst & Hl'). exists w', rest'.
        split; [done|]. by rewrite <- app_assoc.
Qed.

Lemma write_message_ok dst begin_string fs :
  zlen dst <= UINT32_MAX -> Forall (fun f => 0 <= f.1 <= 0xFFFF) fs ->
  zlen (frame_text begin_string fs) <= zlen dst -> zlen (fields_bytes fs) <= 999999 ->
  exists w rest, write_message dst begin_string fs = (Ok (zlen (frame_text begin_string fs)), w) /\
    w_dst w = frame_text begin_string fs ++ rest.
Proof.
  intros Hd Hfs Ht Hb. pose proof (write_message_outcome dst begin_string fs Hd Hfs) as H. cbn zeta in H.
  replace (_ && _) with true in H by lia. destruct H as (w & rest & H & E & _). by exists w, rest.
Qed.

(** ** Properties *)

(** What the writer puts in the buffer.  Appending BeginString and the body fields
    and committing yields exactly the frame: BeginString, the digit-only BodyLength of
    the body, the fields as tag=value, and the 3-digit CheckSum of everything before
    it.  It succeeds iff that text fits the buffer and the body is at most 999999
    bytes; otherwise it reports which limit failed.  Nothing outside the buffer is
    written: its size never changes. *)
Theorem write_message_exact dst begin_string fs :
  zlen dst <= UINT32_MAX -> Forall (fun f => 0 <= f.1 <= 0xFFFF) fs ->
  let text := frame_text begin_string fs in
  let body := fields_bytes fs in
  if (zlen text <=? zlen dst) && (zlen body <=? 999999)
  then exists w rest, write_message dst begin_string fs = (Ok (zlen text), w) /\
    w_dst w = text ++ rest /\ zlen (w_dst w) = zlen dst
  else exists w, write_message dst begin_string fs =
    (Err (if (999999 <? zlen body) && (zlen (field_text 8 begin_string) + 9 + zlen body <=? zlen dst)
          then wire_frame_too_large else wire_field_value_truncated), w).
Proof. apply write_message_outcome. Qed.

(** [8=FIX.4.4|35=0|34=7|]: the heartbeat body in a 64-byte buffer, and in one too small. *)
Lemma write_message_exact_witness :
  (exists w rest, write_message (replicate 64 0) [70;73;88;46;52;46;52] [(35, [48]); (34, [55])] =
     (Ok 32, w) /\ w_dst w = frame_text [70;73;88;46;52;46;52] [(35, [48]); (34, [55])] ++ rest /\
     zlen (w_dst w) = 64) /\
  (exists w, write_message (replicate 30 0) [70;73;88;46;52;46;52] [(35, [48]); (34, [55])] =
     (Err wire_field_value_truncated, w)).
Proof.
  split.
  - apply (write_message_exact (replicate 64 0) [70;73;88;46;52;46;52] [(35, [48]); (34, [55])]);
      [by vm_compute|by repeat constructor].
  - apply (write_message_exact (replicate 30 0) [70;73;88;46;52;46;52] [(35, [48]); (34, [55])]);
      [by vm_compute|by repeat constructor].
Defined.
