(* ===== verification/Framer.v ===== *)
(** The framer (src/wire/framer.cpp, include/fixpp/wire/framer.hpp): cutting the byte
    stream into frames — the strict parser, the resync parser, the carry buffer and both
    [feed] loops. *)
From S2P Require Import Prelude Errors TagScan Writer.

(** ** The strict parser *)

Inductive parsed_frame : Set :=
  | pf_complete (frame_len body_off body_len : Z)
  | pf_partial
  | pf_error (e : error).

Definition find_soh (bs : bytes) (start : Z) : Z :=
  if zlen bs <=? start then zlen bs else soh_from (zdrop start bs) start.

(** The BodyLength digits: [size_t] arithmetic. *)
Fixpoint body_length_loop (max_frame_bytes : Z) (value : bytes) (body_length : Z) : expected Z :=
  match value with
  | [] => Ok body_length
  | c :: value =>
      if negb (is_digit c) then Err wire_invalid_body_length
      else
        let digit := c - 48 in
        if u64 (max_frame_bytes - digit) / 10 <? body_length then Err wire_frame_too_large
        else body_length_loop max_frame_bytes value (u64 (u64 (body_length * 10) + digit))
  end.

(** The three CheckSum digits at [off], most significant first. *)
Definition checksum_digits (bs : bytes) (off : Z) : option Z :=
  let d i := zget bs (off + i) in
  if is_digit (d 0) && is_digit (d 1) && is_digit (d 2)
  then Some ((d 0 - 48) * 100 + (d 1 - 48) * 10 + (d 2 - 48)) else None.

(** From the body offset on: the body, the trailer and the CheckSum.  The sum
    [body_off + body_length] is a [size_t]'s in the code and unbounded here; a buffer being
    shorter than 2^63 bytes, it cannot wrap while [max_frame_bytes] is below 2^63 too, which
    the properties of the strict parser assume (the default is 256 KiB). *)
Definition parse_trailer (bs : bytes) (max_frame_bytes body_off body_length : Z) : parsed_frame :=
  if zlen bs <? body_off then pf_partial
  else if zlen bs <? body_off + body_length then pf_partial
  else
    let checksum_off := body_off + body_length in
    if zlen bs <? checksum_off + 7 then pf_partial
    else if negb (zget bs checksum_off =? 49) || negb (zget bs (checksum_off + 1) =? 48)
            || negb (zget bs (checksum_off + 2) =? EQ) then pf_error wire_invalid_body_length
    else if negb (zget bs (body_off + body_length - 1) =? SOH) then pf_error wire_invalid_body_length
    else
      match checksum_digits bs (checksum_off + 3) with
      | None => pf_error wire_checksum_mismatch
      | Some encoded_checksum =>
          if negb (zget bs (checksum_off + 6) =? SOH) then pf_error wire_checksum_mismatch
          else
            let checksum := byte_sum (ztake checksum_off bs) mod 256 in
            if negb (encoded_checksum =? checksum) then pf_error wire_checksum_mismatch
            else
              let frame_len := checksum_off + 7 in
              if max_frame_bytes <? frame_len then pf_error wire_frame_too_large
              else pf_complete frame_len body_off body_length
      end.

(** The BodyLength field that starts at [body_length_tag]. *)
Definition parse_body_length (bs : bytes) (max_frame_bytes body_length_tag : Z) : parsed_frame :=
  if zlen bs <=? body_length_tag then pf_partial
  else if zlen bs <=? body_length_tag + 1 then pf_partial
  else if negb (zget bs body_length_tag =? 57) || negb (zget bs (body_length_tag + 1) =? EQ)
  then pf_error wire_invalid_body_length
  else
    let body_length_value := body_length_tag + 2 in
    let body_length_end := find_soh bs body_length_value in
    if body_length_end =? zlen bs then pf_partial
    else if body_length_end =? body_length_value then pf_error wire_invalid_body_length
    else
      match body_length_loop max_frame_bytes
              (zsub bs body_length_value (body_length_end - body_length_value)) 0 with
      | Err e => pf_error e
      | Ok body_length =>
          if body_length =? 0 then pf_error wire_invalid_body_length
          else if max_frame_bytes <? body_length then pf_error wire_frame_too_large
          else parse_trailer bs max_frame_bytes (body_length_end + 1) body_length
      end.

Definition parse_frame (bs : bytes) (max_frame_bytes : Z) : parsed_frame :=
  if zlen bs =? 0 then pf_partial
  else if negb (zget bs 0 =? 56) then pf_error wire_framing_resync
  else if zlen bs <? 2 then pf_partial
  else if negb (zget bs 1 =? EQ) then pf_error wire_framing_resync
  else
    let beginstring_end := find_soh bs 2 in
    if beginstring_end =? zlen bs then pf_partial
    else parse_body_length bs max_frame_bytes (beginstring_end + 1).

(** ** The carry buffer *)

Record pmr_carry_buffer := CarryBuffer { cb_buf : bytes; cb_cap : Z }.

Definition carry_buffer_init (capacity : Z) : pmr_carry_buffer := CarryBuffer [] capacity.

Definition cb_append (c : pmr_carry_buffer) (inb : bytes) : bool * pmr_carry_buffer :=
  if cb_cap c <? zlen (cb_buf c) + zlen inb then (false, c)
  else (true, CarryBuffer (cb_buf c ++ inb) (cb_cap c)).

Definition cb_consume_front (c : pmr_carry_buffer) (n : Z) : pmr_carry_buffer :=
  if zlen (cb_buf c) <=? n then CarryBuffer [] (cb_cap c)
  else CarryBuffer (zdrop n (cb_buf c)) (cb_cap c).

Definition cb_clear (c : pmr_carry_buffer) : pmr_carry_buffer := CarryBuffer [] (cb_cap c).

(** ** The framer's state *)

(** A view into the buffer it was cut from; the bytes are the frame's. *)
Record frame_view := FrameView { fv_bytes : bytes; fv_body_off : Z; fv_body_len : Z }.

Definition frame_body (f : frame_view) : bytes := zsub (fv_bytes f) (fv_body_off f) (fv_body_len f).

Record config := Config {
  max_frame_bytes : Z;
  resync_on_garble : bool;
  max_begin_string_bytes : Z;
}.

Definition default_max_frame_bytes : Z := 256 * 1024.
(** The longest of "FIX.4.0" .. "FIX.4.4" and "FIXT.1.1". *)
Definition longest_supported_begin_string : Z := 8.
Definition default_config : config :=
  Config default_max_frame_bytes false longest_supported_begin_string.

Record garble_summary := GarbleSummary { regions : Z; first_kind : option error; discarded : Z }.

(** [garbles_ = {}]; the value-initialised [first_kind] is slot 0, no enumerator. *)
Definition garbles_init : garble_summary := GarbleSummary 0 None 0.

Record framer := Framer {
  f_pending : Z;
  f_searching : bool;
  f_garbles : garble_summary;
  f_work_read : Z;
  f_work_summed : Z;
  f_work_moved : Z;
}.

Definition framer_init : framer := Framer 0 false garbles_init 0 0 0.

Definition set_pending (f : framer) (n : Z) : framer :=
  Framer n (f_searching f) (f_garbles f) (f_work_read f) (f_work_summed f) (f_work_moved f).

(** ** The strict [feed] *)

(** The frame loop over the unread suffix of the source, which starts at [offset];
    [room] is what is left of [out].  Answers the frames and the new offset. *)
Fixpoint strict_loop (fuel : nat) (max : Z) (source : bytes) (offset : Z) (room : nat)
  : expected (list frame_view * Z) :=
  match fuel, room with
  | O, _ | _, O => Ok ([], offset)
  | S fuel, S room =>
      if zlen source <=? offset then Ok ([], offset)
      else
        let rest := zdrop offset source in
        match parse_frame rest max with
        | pf_partial => Ok ([], offset)
        | pf_error e => Err e
        | pf_complete frame_len body_off body_len =>
            let? r := strict_loop fuel max source (offset + frame_len) room in
            Ok (FrameView (ztake frame_len rest) body_off body_len :: r.1, r.2)
        end
  end.

(** The loop advances by at least one byte per frame, so [length source] rounds do. *)
Definition strict_frames (max : Z) (source : bytes) (room : nat) : expected (list frame_view * Z) :=
  strict_loop (length source) max source 0 room.

Definition feed_strict (cfg : config) (f : framer) (carry : pmr_carry_buffer) (incoming : bytes)
    (out_size : nat) : expected (list frame_view) * framer * pmr_carry_buffer :=
  let carry :=
    if f_pending f <? zlen (cb_buf carry)
    then cb_consume_front carry (zlen (cb_buf carry) - f_pending f) else carry in
  let using_carry := negb (zlen (cb_buf carry) =? 0) in
  let '(fits, carry) := if using_carry then cb_append carry incoming else (true, carry) in
  if negb fits then (Err wire_frame_too_large, set_pending f 0, cb_clear carry)
  else
    let source := if using_carry then cb_buf carry else incoming in
    match strict_frames (max_frame_bytes cfg) source out_size with
    | Err e => (Err e, set_pending f 0, cb_clear carry)
    | Ok (frames, offset) =>
        let trailing := zlen source - offset in
        if using_carry then (Ok frames, set_pending f trailing, carry)
        else
          let carry := cb_clear carry in
          if trailing =? 0 then (Ok frames, set_pending f 0, carry)
          else
            let '(fits, carry) := cb_append carry (zdrop offset source) in
            if negb fits then (Err wire_frame_too_large, set_pending f 0, carry)
            else (Ok frames, set_pending f trailing, carry)
    end.

(** ** The resync parser *)

Inductive resync_candidate : Set :=
  | rc_frame (frame_len body_off body_len : Z)
  | rc_partial
  | rc_garble (kind : error)
  | rc_garble_through (frame_len : Z)   (* a whole frame with a wrong CheckSum *)
  | rc_too_large.

Definition kBodyLengthDigitCap : Z := 10.

(** The BeginString scan over the suffix [p] at offset [i]; [last_soh_at] is the last
    offset its SOH may stand at.  [Err] carries the candidate; the count is of bytes
    read. *)
Fixpoint rc_begin_string (p : bytes) (i last_soh_at read : Z) : result resync_candidate Z * Z :=
  match p with
  | [] => (Err rc_partial, read)
  | c :: p =>
      if c =? SOH then (Ok i, read + 1)
      else if i =? last_soh_at then (Err (rc_garble wire_framing_resync), read + 1)
      else rc_begin_string p (i + 1) last_soh_at (read + 1)
  end.

(** The BodyLength digits; [count] is how many were taken. *)
Fixpoint rc_body_length (p : bytes) (max i count body_length read : Z)
  : result resync_candidate (Z * Z) * Z :=
  match p with
  | [] => (Err rc_partial, read)
  | c :: p =>
      let read := read + 1 in
      if c =? SOH then (Ok (i, body_length), read)
      else if negb (is_digit c) then (Err (rc_garble wire_invalid_body_length), read)
      else if count =? kBodyLengthDigitCap then (Err (rc_garble wire_invalid_body_length), read)
      else
        let digit := c - 48 in
        if (max <? digit) || (u64 (max - digit) / 10 <? body_length) then (Err rc_too_large, read)
        else rc_body_length p max (i + 1) (count + 1) (u64 (u64 (body_length * 10) + digit)) read
  end.

(** The digits read before the first non-digit, at most three. *)
Definition checksum_reads (bs : bytes) (off : Z) : Z :=
  if negb (is_digit (zget bs off)) then 1 else if negb (is_digit (zget bs (off + 1))) then 2 else 3.

(** Answers the candidate and the bytes read and summed. *)
Definition rc_trailer (bs : bytes) (max body_off body_length read : Z) : resync_candidate * Z * Z :=
  let checksum_off := body_off + body_length in
  let frame_len := checksum_off + 7 in
  if max <? frame_len then (rc_too_large, read, 0)
  else if zlen bs <? frame_len then (rc_partial, read, 0)
  else
    let read := read + 3 in
    if negb (zget bs checksum_off =? 49) || negb (zget bs (checksum_off + 1) =? 48)
       || negb (zget bs (checksum_off + 2) =? EQ) then (rc_garble wire_invalid_body_length, read, 0)
    else
      let read := read + 1 in
      if negb (zget bs (checksum_off - 1) =? SOH) then (rc_garble wire_invalid_body_length, read, 0)
      else
        let read := read + checksum_reads bs (checksum_off + 3) in
        match checksum_digits bs (checksum_off + 3) with
        | None => (rc_garble wire_checksum_mismatch, read, 0)
        | Some encoded_checksum =>
            let read := read + 1 in
            if negb (zget bs (checksum_off + 6) =? SOH)
            then (rc_garble wire_checksum_mismatch, read, 0)
            else
              let checksum := byte_sum (ztake checksum_off bs) mod 256 in
              if negb (encoded_checksum =? checksum)
              then (rc_garble_through frame_len, read, checksum_off)
              else (rc_frame frame_len body_off body_length, read, checksum_off)
        end.

Definition parse_resync_candidate (bs : bytes) (max max_begin_string : Z)
  : resync_candidate * Z * Z :=
  let n := zlen bs in
  if n =? 0 then (rc_partial, 0, 0)
  else if negb (zget bs 0 =? 56) then (rc_garble wire_framing_resync, 1, 0)
  else if n <? 2 then (rc_partial, 1, 0)
  else if negb (zget bs 1 =? EQ) then (rc_garble wire_framing_resync, 2, 0)
  else
    match rc_begin_string (zdrop 2 bs) 2 (2 + max_begin_string) 2 with
    | (Err c, read) => (c, read, 0)
    | (Ok beginstring_end, read) =>
        let body_length_tag := beginstring_end + 1 in
        if n <=? body_length_tag + 1 then (rc_partial, read, 0)
        else
          let read := read + 2 in
          if negb (zget bs body_length_tag =? 57) || negb (zget bs (body_length_tag + 1) =? EQ)
          then (rc_garble wire_invalid_body_length, read, 0)
          else
            let body_length_value := body_length_tag + 2 in
            match rc_body_length (zdrop body_length_value bs) max body_length_value 0 0 read with
            | (Err c, read) => (c, read, 0)
            | (Ok (body_length_end, body_length), read) =>
                if (body_length_end =? body_length_value) || (body_length =? 0)
                then (rc_garble wire_invalid_body_length, read, 0)
                else rc_trailer bs max (body_length_end + 1) body_length read
            end
    end.

(** "8=FIX" *)
Definition resync_start : bytes := [56; EQ; 70; 73; 88].

(** How many bytes of [pat] the suffix [p] matches, and the bytes read doing so. *)
Fixpoint match_prefix (pat p : bytes) : Z * Z :=
  match pat, p with
  | [], _ | _, [] => (0, 0)
  | x :: pat, c :: p =>
      if c =? x then let '(m, r) := match_prefix pat p in (m + 1, r + 1) else (0, 1)
  end.

(** Over the suffix [p] at offset [i]: the start found ([None]: no_resync_start), the
    held length of a trailing proper prefix, and the bytes read. *)
Fixpoint resync_search (p : bytes) (i read : Z) : option Z * Z * Z :=
  match p with
  | [] => (None, 0, read)
  | c :: p' =>
      let read := read + 1 in
      if negb (c =? 56) then resync_search p' (i + 1) read
      else
        let '(m, r) := match_prefix (drop 1 resync_start) p' in
        let matched := 1 + m in
        let read := read + r in
        if matched =? 5 then (Some i, 0, read)
        else if matched =? zlen p then (None, zlen p, read)
        else resync_search p' (i + 1) read
  end.

Definition find_resync_start (bs : bytes) (from : Z) : option Z * Z * Z :=
  resync_search (zdrop from bs) from 0.

(** ** The resync [feed]

    The loop's state: the cursor into the source, the frames so far (in order), the
    search flag, the garble summary and the work counters. *)

Record resync_loop_state := ResyncLoop {
  rl_offset : Z;
  rl_frames : list frame_view;
  rl_searching : bool;
  rl_garbles : garble_summary;
  rl_read : Z;
  rl_summed : Z;
}.

Definition garble_discard (g : garble_summary) (n : Z) : garble_summary :=
  GarbleSummary (regions g) (first_kind g) (discarded g + n).

Definition garble_open (g : garble_summary) (kind : error) (skip : Z) : garble_summary :=
  GarbleSummary (u32 (regions g + 1)) (if regions g =? 0 then Some kind else first_kind g)
    (discarded g + skip).

(** One round: [Ok (st, true)] continues, [Ok (st, false)] breaks, [Err st] is the
    over-max refusal. *)
Definition resync_search_step (source : bytes) (st : resync_loop_state) : resync_loop_state * bool :=
  if rl_searching st then
    let '(start, held, r) := find_resync_start source (rl_offset st) in
    match start with
    | None =>
        let at_ := zlen source - held in
        (ResyncLoop at_ (rl_frames st) true (garble_discard (rl_garbles st) (at_ - rl_offset st))
           (rl_read st + r) (rl_summed st), false)
    | Some s =>
        (ResyncLoop s (rl_frames st) false (garble_discard (rl_garbles st) (s - rl_offset st))
           (rl_read st + r) (rl_summed st), true)
    end
  else (st, true).

Definition resync_round (cfg : config) (source : bytes) (st : resync_loop_state)
  : result resync_loop_state (resync_loop_state * bool) :=
  let '(st, found) := resync_search_step source st in
  if negb found then Ok (st, false)
  else
    let rest := zdrop (rl_offset st) source in
    let '(c, r, s) := parse_resync_candidate rest (max_frame_bytes cfg) (max_begin_string_bytes cfg) in
    let st := ResyncLoop (rl_offset st) (rl_frames st) (rl_searching st) (rl_garbles st)
                (rl_read st + r) (rl_summed st + s) in
    let garble kind skip :=
      if 0 <? zlen (rl_frames st) then Ok (st, false)
      else Ok (ResyncLoop (rl_offset st + skip) (rl_frames st) true
                 (garble_open (rl_garbles st) kind skip) (rl_read st) (rl_summed st), true) in
    match c with
    | rc_partial => Ok (st, false)
    | rc_frame frame_len body_off body_len =>
        Ok (ResyncLoop (rl_offset st + frame_len)
              (rl_frames st ++ [FrameView (ztake frame_len rest) body_off body_len])
              (rl_searching st) (rl_garbles st) (rl_read st) (rl_summed st), true)
    | rc_too_large => if 0 <? zlen (rl_frames st) then Ok (st, false) else Err st
    | rc_garble kind => garble kind 1
    | rc_garble_through frame_len => garble wire_checksum_mismatch frame_len
    end.

Fixpoint resync_loop (fuel : nat) (cfg : config) (source : bytes) (out_size : Z)
    (st : resync_loop_state) : result resync_loop_state resync_loop_state :=
  match fuel with
  | O => Ok st
  | S fuel =>
      if (rl_offset st <? zlen source) && (zlen (rl_frames st) <? out_size) then
        match resync_round cfg source st with
        | Err st => Err st
        | Ok (st, false) => Ok st
        | Ok (st, true) => resync_loop fuel cfg source out_size st
        end
      else Ok st
  end.

Definition feed_resync (cfg : config) (f : framer) (carry : pmr_carry_buffer) (incoming : bytes)
    (out_size : Z) : expected (list frame_view) * framer * pmr_carry_buffer :=
  let size := zlen (cb_buf carry) in
  let pending := f_pending f in
  let '(carry, moved) :=
    if pending =? 0 then (cb_clear carry, f_work_moved f)
    else if (pending <? size) && (cb_cap carry <? size + zlen incoming)
    then (cb_consume_front carry (size - pending), u64 (f_work_moved f + pending))
    else (carry, f_work_moved f) in
  let using_carry := negb (zlen (cb_buf carry) =? 0) in
  let '(fits, carry) := if using_carry then cb_append carry incoming else (true, carry) in
  let fail_too_large moved st carry :=
    (Err wire_frame_too_large,
     Framer 0 false (rl_garbles st) (u64 (f_work_read f + rl_read st))
       (u64 (f_work_summed f + rl_summed st)) moved,
     cb_clear carry) in
  let st0 := ResyncLoop 0 [] (f_searching f) garbles_init 0 0 in
  if negb fits then fail_too_large moved st0 carry
  else
    let moved := if using_carry then u64 (moved + zlen incoming) else moved in
    let source :=
      if using_carry then zdrop (zlen (cb_buf carry) - pending - zlen incoming) (cb_buf carry)
      else incoming in
    match resync_loop (S (length source)) cfg source out_size st0 with
    | Err st => fail_too_large moved st carry
    | Ok st =>
        let trailing := zlen source - rl_offset st in
        let done_ pending moved carry :=
          (Ok (rl_frames st),
           Framer pending (rl_searching st) (rl_garbles st) (u64 (f_work_read f + rl_read st))
             (u64 (f_work_summed f + rl_summed st)) moved,
           carry) in
        if using_carry then done_ trailing moved carry
        else if trailing =? 0 then done_ 0 moved carry
        else
          let '(fits, carry) := cb_append carry (zdrop (rl_offset st) source) in
          if negb fits then fail_too_large moved st carry
          else done_ trailing (u64 (moved + trailing)) carry
    end.

Definition feed (cfg : config) (f : framer) (carry : pmr_carry_buffer) (incoming : bytes)
    (out_size : nat) : expected (list frame_view) * framer * pmr_carry_buffer :=
  if resync_on_garble cfg then feed_resync cfg f carry incoming (Z.of_nat out_size)
  else feed_strict cfg f carry incoming out_size.

(** ** Specification *)

(** The bytes of exactly one frame, with the place of its body. *)
Record is_frame (f : bytes) (body_off body_len : Z) : Prop := IsFrame {
  frame_parts : exists begin_string len body c,
    let summed := [56; EQ] ++ begin_string ++ [SOH; 57; EQ] ++ len ++ [SOH] ++ body in
    f = summed ++ [49; 48; EQ] ++ c ++ [SOH] /\
    SOH ∉ begin_string /\ digits len /\ dec_value len = zlen body /\ last body = Some SOH /\
    digits c /\ zlen c = 3 /\ dec_value c = sum_mod_256 summed /\
    body_off = zlen begin_string + zlen len + 6 /\ body_len = zlen body
}.

(** ** Lemmas *)

Lemma soh_from_at a b i : SOH ∉ a -> soh_from (a ++ SOH :: b) i = i + zlen a.
Proof.
  revert i. induction a as [|c a IH]; intros i Ha; cbn [app soh_from].
  - rewrite zlen_nilZ. cbn. lia.
  - apply not_elem_of_cons in Ha as [Hc Ha]. replace (c =? SOH) with false by lia.
    rewrite IH, zlen_cons by done. lia.
Qed.

Lemma soh_from_none p i : SOH ∉ p -> soh_from p i = i + zlen p.
Proof.
  revert i. induction p as [|c p IH]; intros i Hp; cbn [soh_from].
  - rewrite zlen_nilZ. lia.
  - apply not_elem_of_cons in Hp as [Hc Hp]. replace (c =? SOH) with false by lia.
    rewrite IH, zlen_cons by done. lia.
Qed.

Lemma soh_split p : SOH ∉ p \/ exists a b, p = a ++ SOH :: b /\ SOH ∉ a.
Proof.
  induction p as [|c p [IH|(a & b & -> & Ha)]]; [left; apply not_elem_of_nil| |].
  - destruct (decide (c = SOH)) as [->|].
    + right. exists [], p. split; [done|apply not_elem_of_nil].
    + left. apply not_elem_of_cons. by split.
  - right. destruct (decide (c = SOH)) as [->|].
    + exists [], (a ++ SOH :: b). split; [done|apply not_elem_of_nil].
    + exists (c :: a), b. split; [done|]. apply not_elem_of_cons. by split.
Qed.

Lemma zget_at a l k : 0 <= k -> zget (a ++ l) (zlen a + k) = zget l k.
Proof. intros. pose proof (zlen_nonneg a). rewrite zget_app_r by lia. f_equal. lia. Qed.

Lemma zsub_at (a b c : bytes) : zsub (a ++ b ++ c) (zlen a) (zlen b) = b.
Proof. unfold zsub. by rewrite zdrop_app, ztake_app. Qed.

(** The loop reads the exact value, unless it passes [max]. *)
Lemma body_length_loop_spec max ds acc :
  9 <= max <= UINT64_MAX -> 0 <= acc <= max -> digits ds ->
  body_length_loop max ds acc =
    if dec_from acc ds <=? max then Ok (dec_from acc ds) else Err wire_frame_too_large.
Proof.
  unfold UINT64_MAX. intros Hm Ha Hd. revert acc Ha. induction Hd as [|c ds Hc Hd IH]; intros acc Ha.
  - cbn. by replace (acc <=? max) with true by lia.
  - cbn [body_length_loop]. rewrite Hc. cbn [negb]. apply is_digit_spec in Hc.
    rewrite dec_from_cons. rewrite (wrap_small 64 (max - _)) by lia.
    destruct ((max - (c - 48)) / 10 <? acc) eqn:E.
    + pose proof (dec_from_mono (acc * 10 + (c - 48)) ds ltac:(lia) Hd).
      replace (dec_from _ ds <=? max) with false; [done|]. symmetry. apply Z.leb_gt. dlia.
    + rewrite (wrap_small 64 (acc * 10)), wrap_small by dlia. apply IH. dlia.
Qed.

Lemma body_length_loop_digits max ds acc v :
  body_length_loop max ds acc = Ok v -> digits ds.
Proof.
  revert acc. induction ds as [|c ds IH]; intros acc; [by constructor|].
  cbn [body_length_loop]. destruct (is_digit c) eqn:Ec; [|done]. cbn [negb].
  destruct (_ <? _); [done|]. intros H%IH. by constructor.
Qed.

Lemma checksum_digits_at a c0 c1 c2 l :
  checksum_digits (a ++ c0 :: c1 :: c2 :: l) (zlen a) =
    if is_digit c0 && is_digit c1 && is_digit c2 then Some (dec_value [c0; c1; c2]) else None.
Proof.
  unfold checksum_digits. rewrite !zget_at by lia.
  change (zget (c0 :: c1 :: c2 :: l) 0) with c0. change (zget (c0 :: c1 :: c2 :: l) 1) with c1.
  change (zget (c0 :: c1 :: c2 :: l) 2) with c2.
  destruct (is_digit c0 && is_digit c1 && is_digit c2); [|done].
  f_equal. unfold dec_value, dec_from. cbn [fold_left]. lia.
Qed.

Lemma zlen_ge_cons (l : bytes) n : 0 <= n -> n + 1 <= zlen l ->
  exists c l', l = c :: l' /\ n <= zlen l'.
Proof. destruct l; [rewrite zlen_nilZ; lia|]. rewrite zlen_cons. intros. eexists _, _. split; [done|lia]. Qed.

(** The trailer parser on a buffer cut at the body and behind it. *)
Lemma parse_trailer_at pre body t0 t1 t2 c0 c1 c2 s rest max : 0 < zlen body ->
  parse_trailer (pre ++ body ++ t0 :: t1 :: t2 :: c0 :: c1 :: c2 :: s :: rest) max (zlen pre) (zlen body) =
    if negb (t0 =? 49) || negb (t1 =? 48) || negb (t2 =? EQ) then pf_error wire_invalid_body_length
    else if negb (zget body (zlen body - 1) =? SOH) then pf_error wire_invalid_body_length
    else if negb (is_digit c0 && is_digit c1 && is_digit c2) || negb (s =? SOH)
    then pf_error wire_checksum_mismatch
    else if negb (dec_value [c0; c1; c2] =? sum_mod_256 (pre ++ body))
    then pf_error wire_checksum_mismatch
    else if max <? zlen pre + zlen body + 7 then pf_error wire_frame_too_large
    else pf_complete (zlen pre + zlen body + 7) (zlen pre) (zlen body).
Proof.
  intros Hb. rewrite app_assoc. set (a := pre ++ body).
  assert (Ha : zlen a = zlen pre + zlen body) by apply zlen_app.
  pose proof (zlen_nonneg pre). pose proof (zlen_nonneg rest). unfold parse_trailer.
  set (l := a ++ _). assert (Hl : zlen l = zlen a + 7 + zlen rest).
  { unfold l. rewrite zlen_app, !zlen_cons. lia. }
  replace (zlen l <? zlen pre) with false by lia.
  replace (zlen l <? zlen pre + zlen body) with false by lia.
  replace (zlen l <? zlen pre + zlen body + 7) with false by lia.
  assert (Hlast : zget l (zlen pre + zlen body - 1) = zget body (zlen body - 1)).
  { unfold l, a. rewrite <- app_assoc.
    replace (zlen pre + zlen body - 1) with (zlen pre + (zlen body - 1)) by lia.
    rewrite zget_at by lia. by rewrite zget_app_l by lia. }
  rewrite Hlast, <- Ha.
  assert (G0 : zget l (zlen a) = t0).
  { unfold l. rewrite <- (Z.add_0_r (zlen a)). by rewrite zget_at. }
  assert (G1 : zget l (zlen a + 1) = t1) by (unfold l; by rewrite zget_at).
  assert (G2 : zget l (zlen a + 2) = t2) by (unfold l; by rewrite zget_at).
  assert (G6 : zget l (zlen a + 6) = s) by (unfold l; by rewrite zget_at).
  assert (Hc : checksum_digits l (zlen a + 3) =
    if is_digit c0 && is_digit c1 && is_digit c2 then Some (dec_value [c0; c1; c2]) else None).
  { change l with (a ++ [t0; t1; t2] ++ (c0 :: c1 :: c2 :: s :: rest)). rewrite app_assoc.
    replace (zlen a + 3) with (zlen (a ++ [t0; t1; t2])) by (rewrite zlen_app; done).
    apply checksum_digits_at. }
  rewrite G0, G1, G2, G6, Hc. unfold l. rewrite ztake_app, byte_sum_spec.
  destruct (is_digit c0 && is_digit c1 && is_digit c2), (negb (s =? SOH)); done.
Qed.

(** The BodyLength field on a buffer cut behind its SOH. *)
Lemma parse_body_length_at pre len rest max :
  SOH ∉ len ->
  parse_body_length (pre ++ 57 :: EQ :: len ++ SOH :: rest) max (zlen pre) =
    if zlen len =? 0 then pf_error wire_invalid_body_length
    else
      match body_length_loop max len 0 with
      | Err e => pf_error e
      | Ok body_length =>
          if body_length =? 0 then pf_error wire_invalid_body_length
          else if max <? body_length then pf_error wire_frame_too_large
          else parse_trailer (pre ++ 57 :: EQ :: len ++ SOH :: rest) max
                 (zlen pre + 3 + zlen len) body_length
      end.
Proof.
  intros Hs. pose proof (zlen_nonneg pre). pose proof (zlen_nonneg rest). pose proof (zlen_nonneg len).
  unfold parse_body_length. set (l := pre ++ _).
  assert (Hl : zlen l = zlen pre + 3 + zlen len + zlen rest).
  { unfold l. rewrite zlen_app, !zlen_cons, zlen_app, zlen_cons. lia. }
  replace (zlen l <=? zlen pre) with false by lia.
  replace (zlen l <=? zlen pre + 1) with false by lia.
  assert (G0 : zget l (zlen pre) = 57).
  { unfold l. rewrite <- (Z.add_0_r (zlen pre)). by rewrite zget_at. }
  assert (G1 : zget l (zlen pre + 1) = EQ) by (unfold l; by rewrite zget_at).
  rewrite G0, G1. cbn [negb orb Z.eqb].
  assert (Hd : zdrop (zlen pre + 2) l = len ++ SOH :: rest).
  { change l with (pre ++ [57; EQ] ++ (len ++ SOH :: rest)). rewrite app_assoc.
    replace (zlen pre + 2) with (zlen (pre ++ [57; EQ])) by (rewrite zlen_app; done).
    apply zdrop_app. }
  assert (Hf : find_soh l (zlen pre + 2) = zlen pre + 2 + zlen len).
  { unfold find_soh. replace (zlen l <=? zlen pre + 2) with false by lia.
    rewrite Hd. by apply soh_from_at. }
  rewrite Hf. replace (_ =? zlen l) with false by lia.
  replace (zlen pre + 2 + zlen len =? zlen pre + 2) with (zlen len =? 0) by lia.
  unfold zsub. rewrite Hd. replace (zlen pre + 2 + zlen len - (zlen pre + 2)) with (zlen len) by lia.
  rewrite ztake_app.
  by replace (zlen pre + 2 + zlen len + 1) with (zlen pre + 3 + zlen len) by lia.
Qed.

(** A buffer cut at every boundary the strict parser looks at. *)
Definition cut_frame (begin_string len body : bytes) (t0 t1 t2 c0 c1 c2 s : Z) (rest : bytes) : bytes :=
  (56 :: EQ :: begin_string ++ [SOH]) ++ 57 :: EQ :: len ++ SOH ::
    (body ++ t0 :: t1 :: t2 :: c0 :: c1 :: c2 :: s :: rest).

Definition cut_summed (begin_string len body : bytes) : bytes :=
  ((56 :: EQ :: begin_string ++ [SOH]) ++ 57 :: EQ :: len ++ [SOH]) ++ body.

Lemma cut_frame_app b len body t0 t1 t2 c0 c1 c2 s rest more :
  cut_frame b len body t0 t1 t2 c0 c1 c2 s rest ++ more =
  cut_frame b len body t0 t1 t2 c0 c1 c2 s (rest ++ more).
Proof.
  unfold cut_frame. rewrite <- app_assoc. do 2 f_equal. cbn [app]. do 2 f_equal.
  rewrite <- app_assoc. do 2 f_equal. by rewrite <- app_comm_cons, <- app_assoc.
Qed.

Lemma cut_frame_trailer b len body t0 t1 t2 c0 c1 c2 s rest :
  cut_frame b len body t0 t1 t2 c0 c1 c2 s rest =
  ((56 :: EQ :: b ++ [SOH]) ++ 57 :: EQ :: len ++ [SOH]) ++
    (body ++ t0 :: t1 :: t2 :: c0 :: c1 :: c2 :: s :: rest).
Proof.
  unfold cut_frame. rewrite <- app_assoc. f_equal. cbn [app]. do 2 f_equal. by rewrite <- app_assoc.
Qed.

Lemma parse_frame_begin b rest max : SOH ∉ b ->
  parse_frame ((56 :: EQ :: b ++ [SOH]) ++ rest) max =
  parse_body_length ((56 :: EQ :: b ++ [SOH]) ++ rest) max (zlen (56 :: EQ :: b ++ [SOH])).
Proof.
  intros Hb. pose proof (zlen_nonneg b). pose proof (zlen_nonneg rest). unfold parse_frame.
  set (l := _ ++ rest). assert (Hl : zlen l = zlen b + 3 + zlen rest).
  { unfold l. rewrite zlen_app, !zlen_cons, zlen_app, zlen_cons, zlen_nilZ. lia. }
  replace (zlen l =? 0) with false by lia. replace (zlen l <? 2) with false by lia.
  change (zget l 0) with 56. change (zget l 1) with EQ. cbn [negb Z.eqb].
  assert (Hf : find_soh l 2 = zlen b + 2).
  { unfold find_soh. replace (zlen l <=? 2) with false by lia.
    change (zdrop 2 l) with ((b ++ [SOH]) ++ rest). rewrite <- app_assoc.
    change ([SOH] ++ rest) with (SOH :: rest). rewrite soh_from_at by done. lia. }
  rewrite Hf. replace (zlen b + 2 =? zlen l) with false by lia.
  replace (zlen b + 2 + 1) with (zlen (56 :: EQ :: b ++ [SOH])); [done|].
  rewrite !zlen_cons, zlen_app, zlen_cons, zlen_nilZ. lia.
Qed.

(** The strict parser's verdict on a cut buffer. *)
Definition cut_verdict (b len body : bytes) (t0 t1 t2 c0 c1 c2 s max : Z) : parsed_frame :=
  let off := zlen b + zlen len + 6 in
  if negb (t0 =? 49) || negb (t1 =? 48) || negb (t2 =? EQ) then pf_error wire_invalid_body_length
  else if negb (zget body (zlen body - 1) =? SOH) then pf_error wire_invalid_body_length
  else if negb (is_digit c0 && is_digit c1 && is_digit c2) || negb (s =? SOH)
  then pf_error wire_checksum_mismatch
  else if negb (dec_value [c0; c1; c2] =? sum_mod_256 (cut_summed b len body))
  then pf_error wire_checksum_mismatch
  else if max <? off + zlen body + 7 then pf_error wire_frame_too_large
  else pf_complete (off + zlen body + 7) off (zlen body).

Lemma parse_frame_cut b len body t0 t1 t2 c0 c1 c2 s rest max :
  SOH ∉ b -> SOH ∉ len -> 0 < zlen len -> 0 < zlen body <= max ->
  body_length_loop max len 0 = Ok (zlen body) ->
  parse_frame (cut_frame b len body t0 t1 t2 c0 c1 c2 s rest) max =
  cut_verdict b len body t0 t1 t2 c0 c1 c2 s max.
Proof.
  intros Hb Hs Hn Hm Hl. unfold cut_frame at 1. rewrite parse_frame_begin by done.
  rewrite parse_body_length_at, Hl by done.
  replace (zlen len =? 0) with false by lia. replace (zlen body =? 0) with false by lia.
  replace (max <? zlen body) with false by lia.
  change (_ ++ 57 :: _) with (cut_frame b len body t0 t1 t2 c0 c1 c2 s rest).
  rewrite cut_frame_trailer. set (pre := _ ++ 57 :: _).
  assert (Hp : zlen pre = zlen b + zlen len + 6).
  { unfold pre. rewrite zlen_app, !zlen_cons, !zlen_app, zlen_cons, zlen_nilZ. lia. }
  replace (zlen (56 :: EQ :: b ++ [SOH]) + 3 + zlen len) with (zlen pre).
  2: { rewrite Hp, !zlen_cons, zlen_app, zlen_cons, zlen_nilZ. lia. }
  rewrite parse_trailer_at by lia. unfold cut_verdict, cut_summed. by rewrite Hp.
Qed.

(** A verdict other than partial needs no byte past the ones it has seen. *)
Inductive decided (max : Z) (bs : bytes) : Prop :=
  | decided_error e (H : forall more, parse_frame (bs ++ more) max = pf_error e)
  | decided_cut b len body t0 t1 t2 c0 c1 c2 s rest
      (E : bs = cut_frame b len body t0 t1 t2 c0 c1 c2 s rest)
      (Hb : SOH ∉ b) (Hs : SOH ∉ len) (Hn : 0 < zlen len) (Hm : 0 < zlen body <= max)
      (Hl : body_length_loop max len 0 = Ok (zlen body)).

Lemma body_length_loop_nonneg max ds acc v :
  body_length_loop max ds acc = Ok v -> 0 <= acc -> 0 <= v.
Proof.
  revert acc. induction ds as [|c ds IH]; intros acc; cbn [body_length_loop]; [by intros [= <-]|].
  case_tests. intros H _. eapply IH; [exact H|]. apply wrap_range. lia.
Qed.

Lemma split_at_z (l : bytes) n : 0 <= n <= zlen l -> exists a b, l = a ++ b /\ zlen a = n.
Proof. intros. exists (ztake n l), (zdrop n l). by rewrite ztake_drop, zlen_take. Qed.

Lemma parse_trailer_decided pre u max v :
  0 < v -> parse_trailer (pre ++ u) max (zlen pre) v <> pf_partial ->
  exists body t0 t1 t2 c0 c1 c2 s rest,
    u = body ++ t0 :: t1 :: t2 :: c0 :: c1 :: c2 :: s :: rest /\ zlen body = v.
Proof.
  intros Hv. unfold parse_trailer. rewrite zlen_app. case_tests; intros H; try done; clear H.
  all: destruct (split_at_z u v ltac:(lia)) as (body & r & -> & Hbody); rewrite zlen_app in *.
  all: do 7 (destruct r as [|? r]; [rewrite ?zlen_cons, ?zlen_nilZ in *; exfalso; lia|]).
  all: by repeat eexists.
Qed.

Lemma parse_body_length_tag pre q max :
  (exists r, q = 57 :: EQ :: r) \/ zlen q < 2 \/
  forall more, parse_body_length (pre ++ q ++ more) max (zlen pre) = pf_error wire_invalid_body_length.
Proof.
  destruct q as [|x [|y r]]; [right; left; done..|].
  destruct (decide (x = 57 /\ y = EQ)) as [[-> ->]|Hn]; [left; eauto|]. right; right. intros more.
  unfold parse_body_length. cbn [app]. set (l := pre ++ _).
  pose proof (zlen_nonneg pre). pose proof (zlen_nonneg (r ++ more)).
  assert (Hl : zlen l = zlen pre + 2 + zlen (r ++ more)) by (unfold l; rewrite zlen_app, !zlen_cons; lia).
  replace (zlen l <=? zlen pre) with false by lia. replace (zlen l <=? zlen pre + 1) with false by lia.
  assert (G0 : zget l (zlen pre) = x).
  { unfold l. rewrite <- (Z.add_0_r (zlen pre)). by rewrite zget_at. }
  assert (G1 : zget l (zlen pre + 1) = y) by (unfold l; by rewrite zget_at).
  rewrite G0, G1. by replace (negb (x =? 57) || negb (y =? EQ)) with true by lia.
Qed.

Lemma parse_body_length_short pre q max : zlen q < 2 ->
  parse_body_length (pre ++ q) max (zlen pre) = pf_partial.
Proof. intros. unfold parse_body_length. rewrite zlen_app. case_tests; done. Qed.

Lemma parse_body_length_no_soh pre r max : SOH ∉ r ->
  parse_body_length (pre ++ 57 :: EQ :: r) max (zlen pre) = pf_partial.
Proof.
  intros Hr. unfold parse_body_length. set (l := pre ++ _).
  pose proof (zlen_nonneg pre). pose proof (zlen_nonneg r).
  assert (Hl : zlen l = zlen pre + 2 + zlen r) by (unfold l; rewrite zlen_app, !zlen_cons; lia).
  replace (zlen l <=? zlen pre) with false by lia. replace (zlen l <=? zlen pre + 1) with false by lia.
  assert (G0 : zget l (zlen pre) = 57).
  { unfold l. rewrite <- (Z.add_0_r (zlen pre)). by rewrite zget_at. }
  assert (G1 : zget l (zlen pre + 1) = EQ) by (unfold l; by rewrite zget_at).
  rewrite G0, G1. change (negb (57 =? 57) || negb (EQ =? EQ)) with false. cbn iota. unfold find_soh.
  destruct (zlen l <=? zlen pre + 2) eqn:E; [by rewrite Z.eqb_refl|].
  assert (Hd : zdrop (zlen pre + 2) l = r).
  { change l with (pre ++ [57; EQ] ++ r). rewrite app_assoc.
    replace (zlen pre + 2) with (zlen (pre ++ [57; EQ])) by (rewrite zlen_app; done).
    apply zdrop_app. }
  rewrite Hd, soh_from_none by done. by replace (_ =? zlen l) with true by lia.
Qed.

Lemma parse_body_length_decided pre q max :
  parse_body_length (pre ++ q) max (zlen pre) <> pf_partial ->
  (exists e, forall more, parse_body_length (pre ++ q ++ more) max (zlen pre) = pf_error e) \/
  exists len body t0 t1 t2 c0 c1 c2 s rest,
    q = 57 :: EQ :: len ++ SOH :: (body ++ t0 :: t1 :: t2 :: c0 :: c1 :: c2 :: s :: rest) /\
    SOH ∉ len /\ 0 < zlen len /\ 0 < zlen body <= max /\
    body_length_loop max len 0 = Ok (zlen body).
Proof.
  intros H. destruct (parse_body_length_tag pre q max) as [[r ->]|[Hq|He]].
  2: { by rewrite parse_body_length_short in H. }
  2: { left; eauto. }
  destruct (soh_split r) as [Hn|(len & u & -> & Hs)].
  { exfalso. apply H. by apply parse_body_length_no_soh. }
  assert (Hmore : forall more, pre ++ (57 :: EQ :: len ++ SOH :: u) ++ more =
    pre ++ 57 :: EQ :: len ++ SOH :: (u ++ more)).
  { intros. cbn [app]. by rewrite <- app_assoc. }
  rewrite parse_body_length_at in H by done.
  setoid_rewrite Hmore. setoid_rewrite (fun more => parse_body_length_at pre len (u ++ more) max Hs).
  destruct (zlen len =? 0) eqn:E0; [left; eauto|].
  destruct (body_length_loop max len 0) as [v|e] eqn:El; [|left; eauto].
  destruct (v =? 0) eqn:Ev; [left; eauto|]. destruct (max <? v) eqn:Em; [left; eauto|].
  right. pose proof (body_length_loop_nonneg _ _ _ _ El ltac:(lia)). pose proof (zlen_nonneg len).
  replace (pre ++ 57 :: EQ :: len ++ SOH :: u) with ((pre ++ 57 :: EQ :: len ++ [SOH]) ++ u) in H.
  2: { rewrite <- app_assoc. f_equal. cbn [app]. do 2 f_equal. by rewrite <- app_assoc. }
  replace (zlen pre + 3 + zlen len) with (zlen (pre ++ 57 :: EQ :: len ++ [SOH])) in H.
  2: { rewrite zlen_app, !zlen_cons, zlen_app, zlen_cons, zlen_nilZ. lia. }
  apply parse_trailer_decided in H as (body & t0 & t1 & t2 & c0 & c1 & c2 & s & rest & -> & <-); [|lia].
  exists len, body, t0, t1, t2, c0, c1, c2, s, rest. repeat split; try done; lia.
Qed.

Lemma parse_frame_decided bs max : parse_frame bs max <> pf_partial -> decided max bs.
Proof.
  intros H. destruct bs as [|x bs]; [done|].
  destruct (decide (x = 56)) as [->|Hx].
  2: { apply (decided_error _ _ wire_framing_resync). intros more. cbn [app]. unfold parse_frame.
       rewrite zlen_cons, zget_0. pose proof (zlen_nonneg (bs ++ more)).
       replace (_ =? 0) with false by lia. by replace (x =? 56) with false by lia. }
  destruct bs as [|y bs]; [done|]. destruct (decide (y = EQ)) as [->|Hy].
  2: { apply (decided_error _ _ wire_framing_resync). intros more. cbn [app]. unfold parse_frame.
       rewrite !zlen_cons, zget_0. pose proof (zlen_nonneg (bs ++ more)).
       replace (_ =? 0) with false by lia. replace (_ <? 2) with false by lia.
       change (zget _ 1) with y. cbn. by replace (y =? EQ) with false by lia. }
  destruct (soh_split bs) as [Hn|(b & q & -> & Hb)].
  { exfalso. apply H. unfold parse_frame, find_soh. rewrite !zlen_cons. pose proof (zlen_nonneg bs).
    case_tests; try done. change (zdrop 2 (56 :: EQ :: bs)) with bs in *.
    rewrite soh_from_none in * by done. lia. }
  assert (Hc : forall more, (56 :: EQ :: b ++ SOH :: q) ++ more = (56 :: EQ :: b ++ [SOH]) ++ q ++ more).
  { intros. cbn [app]. by rewrite <- !app_assoc. }
  rewrite <- (app_nil_r (_ :: _)), Hc, app_nil_r, parse_frame_begin in H by done.
  apply parse_body_length_decided in H as [[e He]|(len & body & t0 & t1 & t2 & c0 & c1 & c2 & s & rest & -> & ? & ? & ? & ?)].
  - apply (decided_error _ _ e). intros more. by rewrite Hc, parse_frame_begin.
  - eapply (decided_cut _ _ b len body t0 t1 t2 c0 c1 c2 s rest); try done.
    unfold cut_frame. by rewrite <- (app_nil_r (_ :: _)), Hc, app_nil_r.
Qed.

Lemma parse_frame_stable bs more max :
  parse_frame bs max <> pf_partial -> parse_frame (bs ++ more) max = parse_frame bs max.
Proof.
  intros H. destruct (parse_frame_decided bs max H) as [e He|b len body t0 t1 t2 c0 c1 c2 s rest ->].
  - rewrite He. by rewrite <- (He []), app_nil_r.
  - by rewrite cut_frame_app, !parse_frame_cut.
Qed.

Lemma digits_no_soh ds : digits ds -> SOH ∉ ds.
Proof.
  intros Hd Hin. rewrite Forall_forall in Hd. apply Hd in Hin. done.
Qed.

Lemma last_zget (l : bytes) x : 0 < zlen l -> last l = Some x <-> zget l (zlen l - 1) = x.
Proof.
  intros Hl. unfold zlen, zget in *. rewrite last_lookup, nth_lookup.
  replace (Z.to_nat (Z.of_nat (length l) - 1)) with (pred (length l)) by lia.
  destruct (lookup_lt_is_Some_2 l (pred (length l)) ltac:(lia)) as [y ->]. cbn.
  split; [by intros [= ->]|by intros ->].
Qed.

Lemma digits_3 c : digits c -> zlen c = 3 -> exists c0 c1 c2,
  c = [c0; c1; c2] /\ is_digit c0 && is_digit c1 && is_digit c2 = true.
Proof.
  intros Hd Hl. destruct c as [|c0 [|c1 [|c2 [|]]]]; try (exfalso; zlen_lia).
  exists c0, c1, c2. split; [done|]. by repeat (apply Forall_cons in Hd as [-> Hd]).
Qed.

Lemma cut_summed_eq b len body :
  cut_summed b len body = [56; EQ] ++ b ++ [SOH; 57; EQ] ++ len ++ [SOH] ++ body.
Proof.
  unfold cut_summed. cbn [app]. do 2 f_equal. rewrite <- !app_assoc. f_equal. cbn [app].
  do 3 f_equal. by rewrite <- app_assoc.
Qed.

Lemma cut_frame_whole b len body c0 c1 c2 :
  cut_frame b len body 49 48 EQ c0 c1 c2 SOH [] =
  cut_summed b len body ++ [49; 48; EQ] ++ [c0; c1; c2] ++ [SOH].
Proof. rewrite cut_frame_trailer. unfold cut_summed. rewrite <- !app_assoc. done. Qed.

(** A complete verdict is exactly a frame at the front of the buffer. *)
Lemma parse_frame_complete bs max fl bo bl :
  9 <= max <= UINT64_MAX ->
  parse_frame bs max = pf_complete fl bo bl <->
  exists f rest, bs = f ++ rest /\ zlen f = fl /\ is_frame f bo bl /\ fl <= max.
Proof.
  intros Hmax. split.
  - intros H. destruct (parse_frame_decided bs max) as [e He|b len body t0 t1 t2 c0 c1 c2 s rest -> Hb Hs Hn Hm Hl];
      [by rewrite H| |].
    { rewrite <- (app_nil_r bs), He in H. done. }
    rewrite parse_frame_cut in H by done. unfold cut_verdict in H.
    pose proof (body_length_loop_digits _ _ _ _ Hl) as Hd.
    rewrite body_length_loop_spec in Hl by (done || lia). fold (dec_value len) in Hl.
    destruct (is_digit c0 && is_digit c1 && is_digit c2) eqn:Hc; cbn [negb orb] in H; [|case_tests].
    case_tests. injection H as <- <- <-. injection Hl as Hl.
    assert (t0 = 49) as -> by lia. assert (t1 = 48) as -> by lia. assert (t2 = EQ) as -> by lia.
    assert (s = SOH) as -> by lia.
    assert (Hlast : zget body (zlen body - 1) = SOH) by lia.
    exists (cut_frame b len body 49 48 EQ c0 c1 c2 SOH []), rest.
    rewrite cut_frame_app. split; [done|]. rewrite cut_frame_whole. split.
    { rewrite cut_summed_eq, !zlen_app. pose_zlen.
      repeat match goal with |- context [zlen (?x :: ?l)] => rewrite (zlen_cons x l) end.
      rewrite zlen_nilZ. lia. }
    split; [|lia]. constructor. exists b, len, body, [c0; c1; c2]. cbn zeta.
    rewrite <- cut_summed_eq. repeat split; try done; try lia.
    + apply last_zget; [lia|done].
    + apply andb_true_iff in Hc as [[? ?]%andb_true_iff ?]. by repeat constructor.
  - intros (f & rest & -> & <- & [(b & len & body & c & E)] & Hfl). cbn zeta in E.
    destruct E as (-> & Hb & Hd & Hl & Hlast & Hc & Hc3 & Hsum & -> & ->).
    destruct (digits_3 c Hc Hc3) as (c0 & c1 & c2 & -> & Hdig).
    rewrite <- cut_summed_eq in *. rewrite <- cut_frame_whole in *. rewrite cut_frame_app.
    assert (Hbody : 0 < zlen body).
    { destruct body; [done|]. rewrite zlen_cons. pose proof (zlen_nonneg body). lia. }
    assert (Hn : 0 < zlen len).
    { destruct len; [|rewrite zlen_cons; pose proof (zlen_nonneg len); lia].
      change (dec_value []) with 0 in Hl. lia. }
    assert (Hf : zlen (cut_frame b len body 49 48 EQ c0 c1 c2 SOH []) = zlen b + zlen len + 6 + zlen body + 7).
    { rewrite cut_frame_whole, cut_summed_eq, !zlen_app. pose_zlen.
      repeat match goal with |- context [zlen (?x :: ?l)] => rewrite (zlen_cons x l) end.
      rewrite zlen_nilZ. lia. }
    pose proof (zlen_nonneg b). rewrite Hf in *.
    rewrite parse_frame_cut; [|done|by apply digits_no_soh|done|lia|].
    2: { rewrite body_length_loop_spec by (done || lia). fold (dec_value len). rewrite Hl.
         by replace (zlen body <=? max) with true by lia. }
    unfold cut_verdict. rewrite (proj1 (last_zget body SOH Hbody) Hlast), Hdig, Hsum, !Z.eqb_refl.
    cbn [negb orb]. by replace (max <? _) with false by lia.
Qed.

(** ** The stream *)

(** The unread bytes the framer keeps: the last [pending] of the carry. *)
Definition unread (f : framer) (carry : pmr_carry_buffer) : bytes :=
  zdrop (zlen (cb_buf carry) - f_pending f) (cb_buf carry).

Definition wf_framer (f : framer) (carry : pmr_carry_buffer) : Prop :=
  0 <= f_pending f <= zlen (cb_buf carry) /\ zlen (cb_buf carry) <= cb_cap carry.

(** [frames_in max s fs r]: the stream [s] is the frames [fs], then [r]. *)
Inductive frames_in (max : Z) : bytes -> list frame_view -> bytes -> Prop :=
  | frames_nil s : frames_in max s [] s
  | frames_cons s fl bo bl fs r :
      parse_frame s max = pf_complete fl bo bl ->
      frames_in max (zdrop fl s) fs r ->
      frames_in max s (FrameView (ztake fl s) bo bl :: fs) r.

(** A client's use of the framer: one [feed] per chunk. *)
Fixpoint feed_all (cfg : config) (f : framer) (carry : pmr_carry_buffer) (chunks : list bytes)
    (out_size : nat) : expected (list frame_view) * framer * pmr_carry_buffer :=
  match chunks with
  | [] => (Ok [], f, carry)
  | c :: chunks =>
      match feed cfg f carry c out_size with
      | (Err e, f, carry) => (Err e, f, carry)
      | (Ok fs, f, carry) =>
          let '(r, f, carry) := feed_all cfg f carry chunks out_size in
          (let? fs' := r in Ok (fs ++ fs'), f, carry)
      end
  end.

Lemma parse_frame_len bs max fl bo bl :
  parse_frame bs max = pf_complete fl bo bl -> 0 < fl <= zlen bs /\ 0 <= bo /\ 0 < bl /\ bo + bl <= fl.
Proof.
  intros H. destruct (parse_frame_decided bs max) as [e He|b len body t0 t1 t2 c0 c1 c2 s rest -> Hb Hs Hn Hm Hl];
    [by rewrite H|by rewrite <- (app_nil_r bs), He in H|].
  rewrite parse_frame_cut in H by done. unfold cut_verdict in H. case_tests. injection H as <- <- <-.
  unfold cut_frame. rewrite !zlen_app, !zlen_cons, !zlen_app, !zlen_cons, zlen_app, !zlen_cons, zlen_nilZ.
  pose_zlen. lia.
Qed.

Lemma parse_frame_nil max : parse_frame [] max = pf_partial.
Proof. done. Qed.

Lemma frames_in_app max s fs r more :
  frames_in max s fs r -> frames_in max (s ++ more) fs (r ++ more).
Proof.
  induction 1 as [s|s fl bo bl fs r Hp _ IH]; [constructor|].
  pose proof (parse_frame_len _ _ _ _ _ Hp).
  rewrite <- (ztake_app_l s more fl) by lia. econstructor.
  - rewrite parse_frame_stable; [done|by rewrite Hp].
  - rewrite zdrop_app_l by lia. done.
Qed.

Lemma frames_in_trans max s fs1 u fs2 r :
  frames_in max s fs1 u -> frames_in max u fs2 r -> frames_in max s (fs1 ++ fs2) r.
Proof. induction 1; [done|]. intros. econstructor; eauto. Qed.

(** A stream that ends in a partial frame has no other reading. *)
Lemma frames_in_prefix max s fs1 r1 fs2 r2 :
  frames_in max s fs1 r1 -> frames_in max s fs2 r2 -> parse_frame r2 max = pf_partial ->
  exists hs, fs2 = fs1 ++ hs /\ frames_in max r1 hs r2.
Proof.
  intros H1. revert fs2. induction H1 as [s|s fl bo bl fs r Hp _ IH]; intros fs2 H2 Hr.
  - by exists fs2.
  - inversion H2 as [|? ? ? ? ? ? Hp2 H2']; subst; [congruence|].
    rewrite Hp in Hp2. injection Hp2 as <- <- <-.
    destruct (IH _ H2' Hr) as (hs & -> & ?). by exists hs.
Qed.

Lemma frames_in_no_error max s fs1 r1 e fs2 r2 :
  frames_in max s fs1 r1 -> parse_frame r1 max = pf_error e ->
  frames_in max s fs2 r2 -> parse_frame r2 max = pf_partial -> False.
Proof.
  intros H1 He H2 Hp. destruct (frames_in_prefix _ _ _ _ _ _ H1 H2 Hp) as (hs & _ & H).
  inversion H; congruence.
Qed.

Lemma frames_in_len max s fs r : frames_in max s fs r -> zlen r <= zlen s.
Proof.
  induction 1 as [|s fl bo bl fs r Hp _ IH]; [lia|].
  pose proof (parse_frame_len _ _ _ _ _ Hp). rewrite zlen_drop in IH by lia. lia.
Qed.

Lemma strict_loop_spec fuel max source offset room :
  0 <= offset <= zlen source -> zlen source - offset <= Z.of_nat fuel ->
  match strict_loop fuel max source offset room with
  | Ok (fs, offset') =>
      0 <= offset' <= zlen source /\ frames_in max (zdrop offset source) fs (zdrop offset' source) /\
      (length fs <= room)%nat /\
      ((length fs < room)%nat -> parse_frame (zdrop offset' source) max = pf_partial)
  | Err e => exists fs r, frames_in max (zdrop offset source) fs r /\ parse_frame r max = pf_error e
  end.
Proof.
  revert offset room. induction fuel as [|fuel IH]; intros offset room Ho Hf.
  - cbn. repeat split; [lia|lia|constructor|lia|]. intros _. rewrite zdrop_ge by lia. done.
  - destruct room as [|room]; cbn [strict_loop].
    { repeat split; [lia|lia|constructor|cbn; lia|cbn; lia]. }
    destruct (zlen source <=? offset) eqn:E.
    { repeat split; [lia|lia|constructor|cbn; lia|]. intros _. rewrite zdrop_ge by lia. done. }
    destruct (parse_frame (zdrop offset source) max) as [fl bo bl| |e] eqn:Ep.
    + pose proof (parse_frame_len _ _ _ _ _ Ep) as (Hfl & _). rewrite zlen_drop in Hfl by lia.
      specialize (IH (offset + fl) room ltac:(lia) ltac:(lia)).
      rewrite <- zdrop_drop in IH by lia.
      destruct (strict_loop fuel max source (offset + fl) room) as [[fs o]|e]; cbn [rbind fst snd].
      * destruct IH as (? & ? & ? & Hpart). repeat split; try lia; [by econstructor|cbn; lia|].
        cbn [length]. intros. apply Hpart. lia.
      * destruct IH as (fs & r & ? & ?). eexists _, r. split; [by econstructor|done].
    + repeat split; [lia|lia|constructor|cbn; lia|done].
    + exists [], (zdrop offset source). split; [constructor|done].
Qed.

Lemma consume_to_unread f carry : wf_framer f carry ->
  (if f_pending f <? zlen (cb_buf carry)
   then cb_consume_front carry (zlen (cb_buf carry) - f_pending f) else carry) =
  CarryBuffer (unread f carry) (cb_cap carry).
Proof.
  unfold wf_framer, unread, cb_consume_front. intros. destruct carry as [buf cap]; cbn [cb_buf cb_cap] in *.
  case_tests.
  - by rewrite zdrop_ge by lia.
  - done.
  - by replace (zlen buf - f_pending f) with 0 by lia.
Qed.

Lemma zlen_unread f carry : wf_framer f carry -> zlen (unread f carry) = f_pending f.
Proof. unfold wf_framer, unread. intros. rewrite zlen_drop; lia. Qed.

(** One strict [feed]: the frames at the front of the unread stream. *)
Lemma feed_strict_spec cfg f carry incoming out_size :
  wf_framer f carry -> let s := unread f carry ++ incoming in
  match feed_strict cfg f carry incoming out_size with
  | (Ok fs, f', carry') =>
      wf_framer f' carry' /\ cb_cap carry' = cb_cap carry /\
      frames_in (max_frame_bytes cfg) s fs (unread f' carry') /\ (length fs <= out_size)%nat /\
      ((length fs < out_size)%nat -> parse_frame (unread f' carry') (max_frame_bytes cfg) = pf_partial)
  | (Err e, f', carry') =>
      cb_buf carry' = [] /\ f_pending f' = 0 /\ cb_cap carry' = cb_cap carry /\
      ((e = wire_frame_too_large /\ cb_cap carry < zlen s) \/
       exists fs r, frames_in (max_frame_bytes cfg) s fs r /\
         parse_frame r (max_frame_bytes cfg) = pf_error e)
  end.
Proof.
  intros Hw s. unfold feed_strict. rewrite consume_to_unread by done. cbn [cb_buf cb_cap].
  pose proof (zlen_nonneg (unread f carry)). pose proof (zlen_nonneg incoming).
  assert (Hs : zlen s = zlen (unread f carry) + zlen incoming) by apply zlen_app.
  destruct (zlen (unread f carry) =? 0) eqn:Eu; cbn [negb].
  - assert (unread f carry = []) as Hu by (apply zlen_0_nil; lia).
    assert (s = incoming) as -> by (unfold s; by rewrite Hu). rewrite Hu.
    pose proof (strict_loop_spec (length incoming) (max_frame_bytes cfg) incoming 0 out_size
      ltac:(lia) ltac:(unfold zlen; lia)) as H1. fold (strict_frames (max_frame_bytes cfg) incoming out_size) in H1.
    rewrite zdrop_0 in H1.
    destruct (strict_frames _ _ _) as [[fs o]|e].
    2: { repeat split; try done. by right. }
    destruct H1 as (Ho & Hfs & Hlen & Hpart).
    unfold cb_clear, cb_append. cbn [cb_buf cb_cap]. rewrite zlen_nilZ.
    assert (Hd : zlen (zdrop o incoming) = zlen incoming - o) by (apply zlen_drop; lia).
    destruct (zlen incoming - o =? 0) eqn:Et.
    { assert (zdrop o incoming = []) as Hnil by (apply zlen_0_nil; lia). rewrite Hnil in *.
      repeat split; try done. unfold wf_framer in Hw. cbn. lia. }
    destruct (cb_cap carry <? 0 + zlen (zdrop o incoming)) eqn:Ec; cbn [negb].
    { repeat split; try done. left. split; [done|]. lia. }
    assert (Hun : unread (set_pending f (zlen incoming - o)) (CarryBuffer ([] ++ zdrop o incoming) (cb_cap carry)) = zdrop o incoming).
    { unfold unread. cbn [cb_buf f_pending set_pending app]. rewrite Hd.
      by replace (zlen incoming - o - (zlen incoming - o)) with 0 by lia. }
    rewrite Hun. repeat split; try done; cbn [cb_buf f_pending set_pending cb_cap app]; lia.
  - unfold cb_append. cbn [cb_buf cb_cap].
    destruct (cb_cap carry <? zlen (unread f carry) + zlen incoming) eqn:Ec; cbn [negb].
    { repeat split; try done. left. split; [done|]. lia. }
    fold s. cbn [cb_buf].
    pose proof (strict_loop_spec (length s) (max_frame_bytes cfg) s 0 out_size
      ltac:(lia) ltac:(unfold zlen; lia)) as H1. fold (strict_frames (max_frame_bytes cfg) s out_size) in H1.
    rewrite zdrop_0 in H1.
    destruct (strict_frames _ _ _) as [[fs o]|e].
    2: { repeat split; try done. by right. }
    destruct H1 as (Ho & Hfs & Hlen & Hpart).
    assert (Hun : unread (set_pending f (zlen s - o)) (CarryBuffer s (cb_cap carry)) = zdrop o s).
    { unfold unread. cbn [cb_buf f_pending set_pending]. f_equal. lia. }
    rewrite Hun. repeat split; try done; cbn [cb_buf f_pending set_pending cb_cap]; lia.
Qed.

Lemma feed_all_complete cfg chunks f carry out_size fs r :
  resync_on_garble cfg = false -> wf_framer f carry ->
  frames_in (max_frame_bytes cfg) (unread f carry ++ concat chunks) fs r ->
  parse_frame r (max_frame_bytes cfg) = pf_partial ->
  zlen (unread f carry ++ concat chunks) <= cb_cap carry -> (length fs < out_size)%nat ->
  (chunks = [] -> parse_frame (unread f carry) (max_frame_bytes cfg) = pf_partial) ->
  exists f' carry', feed_all cfg f carry chunks out_size = (Ok fs, f', carry') /\ unread f' carry' = r.
Proof.
  intros Hcfg. revert f carry fs. induction chunks as [|c chunks IH]; intros f carry fs Hw Hfs Hr Hcap Hout Hnil.
  - cbn [concat] in Hfs. rewrite app_nil_r in Hfs. specialize (Hnil eq_refl).
    inversion Hfs; subst; [|congruence]. by exists f, carry.
  - cbn [concat feed_all] in *. unfold feed. rewrite Hcfg. rewrite app_assoc in Hfs, Hcap.
    pose proof (feed_strict_spec cfg f carry c out_size Hw) as H. cbn zeta in H.
    destruct (feed_strict cfg f carry c out_size) as [[[gs|e] f'] carry'].
    + destruct H as (Hw' & Hcap' & Hgs & Hlen & Hpart).
      pose proof (frames_in_app _ _ _ _ (concat chunks) Hgs) as Hgs'.
      destruct (frames_in_prefix _ _ _ _ _ _ Hgs' Hfs Hr) as (hs & -> & Hhs).
      rewrite length_app in Hout.
      destruct (IH f' carry' hs Hw' Hhs Hr) as (f2 & c2 & -> & Hr2).
      * pose proof (frames_in_len _ _ _ _ Hgs'). rewrite Hcap'. lia.
      * lia.
      * intros _. apply Hpart. lia.
      * by exists f2, c2.
    + destruct H as (_ & _ & _ & [[_ Hc]|(gs & r' & Hgs & He)]).
      { rewrite zlen_app in Hcap. pose proof (zlen_nonneg (concat chunks)). lia. }
      exfalso. pose proof (frames_in_app _ _ _ _ (concat chunks) Hgs) as Hgs'.
      eapply frames_in_no_error; [exact Hgs'| |exact Hfs|exact Hr].
      rewrite parse_frame_stable; [exact He|by rewrite He].
Qed.

(** What strict calls answered is a reading of the stream, however it was cut. *)
Lemma feed_all_sound cfg chunks : forall f carry out_size fs f' carry',
  resync_on_garble cfg = false -> wf_framer f carry ->
  feed_all cfg f carry chunks out_size = (Ok fs, f', carry') ->
  frames_in (max_frame_bytes cfg) (unread f carry ++ concat chunks) fs (unread f' carry').
Proof.
  induction chunks as [|c chunks IH]; intros f carry out_size fs f' carry' Hcfg Hw; cbn [feed_all concat].
  { intros [= <- <- <-]. rewrite app_nil_r. constructor. }
  unfold feed. rewrite Hcfg, app_assoc. pose proof (feed_strict_spec cfg f carry c out_size Hw) as H. cbn zeta in H.
  destruct (feed_strict cfg f carry c out_size) as [[[gs|e] f1] carry1]; [|done].
  destruct H as (Hw1 & _ & Hgs & _ & _).
  destruct (feed_all cfg f1 carry1 chunks out_size) as [[[hs|e] f2] carry2] eqn:E; [|done]. cbn. intros [= <- <- <-].
  eapply frames_in_trans; [by apply frames_in_app|]. by eapply IH.
Qed.

(** The stream [s] is the frames [fs], each whole and within the limit, end to end, then [r]. *)
Definition framed (max : Z) (s : bytes) (fs : list frame_view) (r : bytes) : Prop :=
  Forall (fun v => is_frame (fv_bytes v) (fv_body_off v) (fv_body_len v) /\ zlen (fv_bytes v) <= max) fs /\
  s = concat (map fv_bytes fs) ++ r.

(** A frame within the limit is begun and not ended, or nothing is. *)
Definition unfinished (max : Z) (r : bytes) : Prop :=
  r = [] \/ exists more off len, more <> [] /\ is_frame (r ++ more) off len /\ zlen (r ++ more) <= max.

Lemma framed_in max s fs r : 9 <= max <= UINT64_MAX -> framed max s fs r <-> frames_in max s fs r.
Proof.
  intros Hmax. split.
  - intros [Hf ->]. induction Hf as [|[f bo bl] fs [Hf Hl] _ IH]; cbn [map concat app]; [constructor|].
    cbn [fv_bytes fv_body_off fv_body_len] in *. rewrite <- app_assoc.
    set (rest := concat (map fv_bytes fs) ++ r) in *.
    pose proof (frames_cons max (f ++ rest) (zlen f) bo bl fs r) as Hcons. rewrite ztake_app, zdrop_app in Hcons.
    apply Hcons; [apply parse_frame_complete; [done|by exists f, rest]|exact IH].
  - induction 1 as [s|s fl bo bl fs r Hp _ [IH1 IH2]]; [by split|].
    apply parse_frame_complete in Hp as (f & rest & -> & <- & Hf & Hl); [|done].
    rewrite ztake_app, zdrop_app in *. split; [by constructor|]. cbn [map concat fv_bytes]. by rewrite IH2, app_assoc.
Qed.

Lemma unfinished_partial max r : 9 <= max <= UINT64_MAX -> unfinished max r -> parse_frame r max = pf_partial.
Proof.
  intros Hmax [->|(more & off & len & Hne & Hf & Hl)]; [done|].
  assert (Hp : parse_frame (r ++ more) max = pf_complete (zlen (r ++ more)) off len).
  { apply parse_frame_complete; [done|]. exists (r ++ more), []. by rewrite app_nil_r. }
  destruct (parse_frame r max) as [fl bo bl| |e] eqn:E; [|done|].
  - rewrite (parse_frame_stable r more) in Hp by (by rewrite E). rewrite E in Hp. injection Hp as -> _ _.
    apply parse_frame_len in E as [E _]. rewrite zlen_app in E. destruct more; [done|]. rewrite zlen_cons in E. pose_zlen. lia.
  - rewrite (parse_frame_stable r more) in Hp by (by rewrite E). congruence.
Qed.

Lemma last_field_text tag v : last (field_text tag v) = Some SOH.
Proof. unfold field_text. by rewrite app_comm_cons, app_assoc, last_snoc. Qed.

Lemma last_fields_bytes fs : fs <> [] -> last (fields_bytes fs) = Some SOH.
Proof.
  induction fs as [|[tag v] fs IH]; [done|]. intros _. rewrite fields_bytes_cons, last_app.
  destruct fs; [cbn; apply last_field_text|]. by rewrite IH.
Qed.

(** What the writer emits is a frame. *)
Lemma frame_text_is_frame begin_string fs :
  SOH ∉ begin_string -> fs <> [] -> zlen (fields_bytes fs) <= UINT32_MAX ->
  is_frame (frame_text begin_string fs)
    (zlen begin_string + zlen (dec_text (zlen (fields_bytes fs))) + 6) (zlen (fields_bytes fs)).
Proof.
  intros Hb Hfs Hl. constructor. set (body := fields_bytes fs) in *.
  assert (Hs : sum_mod_256 (summed_text (field_text 8 begin_string) body) < 10 ^ Z.of_nat 3).
  { eapply Z.lt_le_trans; [apply Z.mod_pos_bound; lia|done]. }
  exists begin_string, (dec_text (zlen body)), body,
    (fixed_digits 3 (sum_mod_256 (summed_text (field_text 8 begin_string) body))).
  assert (E : summed_text (field_text 8 begin_string) body =
    [56; EQ] ++ begin_string ++ [SOH; 57; EQ] ++ dec_text (zlen body) ++ [SOH] ++ body).
  { unfold summed_text, field_text. change (dec_text 8) with [56]. change (dec_text 9) with [57].
    cbn [app]. do 2 f_equal. rewrite <- !app_assoc. cbn [app]. by rewrite <- ?app_assoc. }
  cbn zeta. rewrite <- E, frame_text_eq. unfold trailer.
  repeat split; try done.
  - apply dec_text_digits.
  - apply dec_text_value. pose proof (zlen_nonneg body). lia.
  - by apply last_fields_bytes.
  - apply fixed_digits_digits.
  - apply fixed_digits_value_small. split; [apply Z.mod_pos_bound; lia|done].
Qed.

Lemma frame_text_body begin_string fs :
  zsub (frame_text begin_string fs)
    (zlen begin_string + zlen (dec_text (zlen (fields_bytes fs))) + 6) (zlen (fields_bytes fs)) =
  fields_bytes fs.
Proof.
  rewrite frame_text_eq. set (body := fields_bytes fs).
  generalize (trailer (summed_text (field_text 8 begin_string) body)). intros tl.
  unfold summed_text. rewrite (app_assoc (field_text 8 begin_string)), <- app_assoc.
  set (pre := field_text 8 begin_string ++ field_text 9 _).
  replace (zlen begin_string + _ + 6) with (zlen pre).
  - apply zsub_at.
  - unfold pre. rewrite zlen_app, !zlen_field_text. change (zlen (dec_text 8)) with 1.
    change (zlen (dec_text 9)) with 1. lia.
Qed.

(** *** Resync *)

Definition candidate (bs : bytes) (max max_begin_string : Z) : resync_candidate :=
  (parse_resync_candidate bs max max_begin_string).1.1.

Lemma rc_begin_string_spec b q i last read : SOH ∉ b ->
  (rc_begin_string (b ++ SOH :: q) i last read).1 =
    if i + zlen b <=? last then Ok (i + zlen b)
    else if i <=? last then Err (rc_garble wire_framing_resync) else Ok (i + zlen b).
Proof.
  revert i read. induction b as [|c b IH]; intros i read Hb.
  - cbn. rewrite zlen_nilZ, Z.add_0_r. case_tests; done.
  - apply not_elem_of_cons in Hb as [Hc Hb]. cbn [app rc_begin_string].
    replace (c =? SOH) with false by lia. rewrite zlen_cons. pose proof (zlen_nonneg b).
    destruct (i =? last) eqn:E.
    + cbn. by replace (i + (1 + zlen b) <=? last) with false by lia; replace (i <=? last) with true by lia.
    + rewrite IH by done. replace (i + 1 + zlen b) with (i + (1 + zlen b)) by lia. case_tests; done.
Qed.

Lemma rc_begin_string_none b i last read : SOH ∉ b ->
  exists c, (rc_begin_string b i last read).1 = Err c /\ (c = rc_partial \/ c = rc_garble wire_framing_resync).
Proof.
  revert i read. induction b as [|c b IH]; intros i read Hb; cbn [rc_begin_string]; [eauto|].
  apply not_elem_of_cons in Hb as [Hc Hb]. replace (c =? SOH) with false by lia.
  destruct (i =? last); cbn; eauto.
Qed.

(** What the digit scan can answer; [Err] is never a frame. *)
Lemma rc_body_length_ok p max i count acc read e v :
  9 <= max <= UINT64_MAX -> 0 <= acc <= max -> 0 <= count <= kBodyLengthDigitCap ->
  (rc_body_length p max i count acc read).1 = Ok (e, v) <->
  exists len u, p = len ++ SOH :: u /\ digits len /\ count + zlen len <= kBodyLengthDigitCap /\
    e = i + zlen len /\ v = dec_from acc len /\ dec_from acc len <= max.
Proof.
  unfold UINT64_MAX, kBodyLengthDigitCap. intros Hm. revert i count acc read.
  induction p as [|c p IH]; intros i count acc read Ha Hc.
  { cbn. split; [done|]. by intros ([|? ?] & u & ? & _). }
  cbn [rc_body_length]. unfold kBodyLengthDigitCap.
  destruct (c =? SOH) eqn:Ec.
  { assert (c = SOH) as -> by lia. cbn. split.
    - intros [= <- <-]. exists [], p. rewrite zlen_nilZ. repeat split; try done; try lia; cbn; lia.
    - intros ([|x len] & u & E & Hd & _ & He & Hv & _).
      + rewrite zlen_nilZ in He. by rewrite He, Hv, Z.add_0_r.
      + injection E as <- _. by apply Forall_cons in Hd as [? _]. }
  assert (Hsplit : (exists len u, c :: p = len ++ SOH :: u /\ digits len /\ count + zlen len <= 10 /\
      e = i + zlen len /\ v = dec_from acc len /\ dec_from acc len <= max) <->
    is_digit c = true /\ exists len u, p = len ++ SOH :: u /\ digits len /\ count + 1 + zlen len <= 10 /\
      e = i + 1 + zlen len /\ v = dec_from (acc * 10 + (c - 48)) len /\
      dec_from (acc * 10 + (c - 48)) len <= max).
  { split.
    - intros ([|x len] & u & E & Hd & Hn & -> & -> & Hv); [injection E as -> ->; done|].
      injection E as <- ->. apply Forall_cons in Hd as [Hx Hd]. split; [done|].
      exists len, u. rewrite zlen_cons in *. repeat split; try done; lia.
    - intros (Hx & len & u & -> & Hd & Hn & -> & -> & Hv). exists (c :: len), u.
      rewrite zlen_cons. repeat split; try done; try lia. by constructor. }
  rewrite Hsplit. clear Hsplit. destruct (is_digit c) eqn:Ed; cbn [negb]; [|by split; [|intros [? _]]].
  apply is_digit_spec in Ed.
  destruct (count =? 10) eqn:E10.
  { cbn. split; [done|]. intros (_ & len & u & _ & _ & Hn & _). pose proof (zlen_nonneg len). lia. }
  rewrite (wrap_small 64 (max - _)) by lia.
  destruct ((max <? c - 48) || ((max - (c - 48)) / 10 <? acc)) eqn:Eb.
  { cbn. split; [done|]. intros (_ & len & u & _ & Hd & _ & _ & _ & Hv).
    pose proof (dec_from_mono (acc * 10 + (c - 48)) len ltac:(lia) Hd). exfalso. dlia. }
  rewrite (wrap_small 64 (acc * 10)), wrap_small by dlia.
  rewrite IH by dlia. by split; [|intros [_ ?]].
Qed.

Lemma rc_body_length_err p max i count acc read c :
  (rc_body_length p max i count acc read).1 = Err c ->
  c = rc_partial \/ c = rc_too_large \/ c = rc_garble wire_invalid_body_length.
Proof.
  revert i count acc read. induction p as [|x p IH]; intros i count acc read; cbn [rc_body_length].
  - intros [= <-]. auto.
  - case_tests; cbn; try (intros [= <-]; auto). apply IH.
Qed.

Lemma rc_trailer_strict bs max bo v read fl bo' bl : 0 < v -> 0 <= bo ->
  (rc_trailer bs max bo v read).1.1 = rc_frame fl bo' bl <->
  parse_trailer bs max bo v = pf_complete fl bo' bl.
Proof.
  intros Hv Hbo. unfold rc_trailer, parse_trailer.
  replace (bo + v + 7 - 1) with (bo + v + 6) by lia.
  destruct (max <? bo + v + 7) eqn:Em; cbn [fst].
  - split; [done|]. case_tests; try done. destruct (checksum_digits _ _); case_tests; done.
  - destruct (zlen bs <? bo + v + 7) eqn:En; cbn [fst].
    + split; [done|]. case_tests; done.
    + replace (zlen bs <? bo) with false by lia. replace (zlen bs <? bo + v) with false by lia.
      destruct (negb (zget bs (bo + v) =? 49) || _ || _); [done|].
      destruct (negb (zget bs (bo + v - 1) =? SOH)); [done|].
      destruct (checksum_digits _ _); [|done]. case_tests; cbn; try done.
      split; intros [= <- <- <-]; done.
Qed.

Lemma parse_trailer_off bs max off v fl bo bl :
  parse_trailer bs max off v = pf_complete fl bo bl -> fl = off + v + 7 /\ bo = off /\ bl = v.
Proof. unfold parse_trailer. intros H. repeat case_match; by simplify_eq. Qed.

Lemma candidate_head bs max mb fl bo bl : candidate bs max mb = rc_frame fl bo bl ->
  exists b q, bs = (56 :: EQ :: b ++ [SOH]) ++ q /\ SOH ∉ b.
Proof.
  unfold candidate, parse_resync_candidate.
  destruct bs as [|x [|y p]]; [done| |].
  { change (zlen [x] =? 0) with false. change (zlen [x] <? 2) with true. case_tests; done. }
  change (zget (x :: y :: p) 0) with x. change (zget (x :: y :: p) 1) with y.
  change (zdrop 2 (x :: y :: p)) with p.
  destruct (negb (x =? 56)) eqn:Ex; [case_tests; done|].
  destruct (negb (y =? EQ)) eqn:Ey; [case_tests; done|].
  assert (x = 56) as -> by lia. assert (y = EQ) as -> by lia.
  destruct (soh_split p) as [Hn|(b & q & -> & Hb)].
  - destruct (rc_begin_string_none p 2 (2 + mb) 2 Hn) as (c & Hc & Hcc).
    destruct (rc_begin_string p 2 (2 + mb) 2) as [[?|?] ?]; cbn in Hc; [done|].
    injection Hc as ->. case_tests; cbn; try done. by destruct Hcc as [-> | ->].
  - intros _. exists b, q. split; [|done]. cbn [app]. by rewrite <- app_assoc.
Qed.

(** Behind a BeginString of at most [mb] bytes. *)
Lemma candidate_body b q max mb : SOH ∉ b -> 0 <= mb ->
  let bs := (56 :: EQ :: b ++ [SOH]) ++ q in
  exists read, candidate bs max mb =
    if mb <? zlen b then rc_garble wire_framing_resync
    else if zlen q <? 2 then rc_partial
    else if negb (zget q 0 =? 57) || negb (zget q 1 =? EQ) then rc_garble wire_invalid_body_length
    else match (rc_body_length (zdrop 2 q) max (zlen b + 5) 0 0 read).1 with
         | Err c => c
         | Ok (e, v) =>
             if (e =? zlen b + 5) || (v =? 0) then rc_garble wire_invalid_body_length
             else (rc_trailer bs max (e + 1) v 0).1.1
         end.
Proof.
  intros Hb Hmb bs. pose proof (zlen_nonneg b). pose proof (zlen_nonneg q).
  set (pre := 56 :: EQ :: b ++ [SOH]) in *.
  assert (Hpre : zlen pre = zlen b + 3).
  { unfold pre. rewrite !zlen_cons, zlen_app, zlen_cons, zlen_nilZ. lia. }
  assert (Hl : zlen bs = zlen b + 3 + zlen q) by (unfold bs; rewrite zlen_app; lia).
  unfold candidate, parse_resync_candidate.
  replace (zlen bs =? 0) with false by lia. replace (zlen bs <? 2) with false by lia.
  change (zget bs 0) with 56. change (zget bs 1) with EQ.
  change (negb (56 =? 56)) with false. change (negb (EQ =? EQ)) with false. cbn iota.
  assert (Hd : zdrop 2 bs = b ++ SOH :: q).
  { unfold bs, pre. change (zdrop 2 _) with ((b ++ [SOH]) ++ q). by rewrite <- app_assoc. }
  rewrite Hd. pose proof (rc_begin_string_spec b q 2 (2 + mb) 2 Hb) as Hr.
  destruct (rc_begin_string _ _ _ _) as [r read]. cbn [fst] in Hr. subst r.
  replace (2 + zlen b <=? 2 + mb) with (negb (mb <? zlen b)) by lia.
  replace (2 <=? 2 + mb) with true by lia.
  exists (read + 2). destruct (mb <? zlen b); [done|]. cbn [negb].
  replace (zlen bs <=? 2 + zlen b + 1 + 1) with (zlen q <? 2) by lia.
  destruct (zlen q <? 2) eqn:Eq2; [done|].
  assert (G0 : zget bs (2 + zlen b + 1) = zget q 0).
  { unfold bs. replace (2 + zlen b + 1) with (zlen pre + 0) by lia. by rewrite zget_at. }
  assert (G1 : zget bs (2 + zlen b + 1 + 1) = zget q 1).
  { unfold bs. replace (2 + zlen b + 1 + 1) with (zlen pre + 1) by lia. by rewrite zget_at. }
  rewrite G0, G1. destruct (_ || _); [done|].
  replace (2 + zlen b + 1 + 2) with (zlen b + 5) by lia.
  assert (Hd2 : zdrop (zlen b + 5) bs = zdrop 2 q).
  { unfold bs. rewrite zdrop_app_r by lia. f_equal. lia. }
  rewrite Hd2. destruct (rc_body_length _ _ _ _ _ _) as [[[e v]|c] rd]; cbn [fst]; [|done].
  destruct (_ || _); [done|]. unfold rc_trailer. case_tests; try done; destruct (checksum_digits _ _); case_tests; done.
Qed.

Lemma candidate_sound bs max mb fl bo bl :
  9 <= max <= UINT64_MAX -> 0 <= mb -> candidate bs max mb = rc_frame fl bo bl ->
  let begin_len := soh_from (zdrop 2 bs) 0 in
  parse_frame bs max = pf_complete fl bo bl /\ begin_len <= mb /\
    bo - begin_len - 6 <= kBodyLengthDigitCap.
Proof.
  intros Hm Hmb H begin_len. destruct (candidate_head _ _ _ _ _ _ H) as (b & q & -> & Hb).
  assert (Hbl : begin_len = zlen b).
  { unfold begin_len. change (zdrop 2 _) with ((b ++ [SOH]) ++ q). rewrite <- app_assoc.
    apply soh_from_at. done. }
  rewrite Hbl. destruct (candidate_body b q max mb Hb Hmb) as (read & E). cbn zeta in E.
  rewrite E in H. clear E. destruct (mb <? zlen b) eqn:Emb; [done|].
  destruct (zlen q <? 2) eqn:Eq; [done|].
  destruct q as [|x [|y r]]; [done|done|].
  change (zget (x :: y :: r) 0) with x in H. change (zget (x :: y :: r) 1) with y in H.
  change (zdrop 2 (x :: y :: r)) with r in H.
  destruct (negb (x =? 57) || negb (y =? EQ)) eqn:Ex; [done|].
  assert (x = 57) as -> by lia. assert (y = EQ) as -> by lia.
  destruct (rc_body_length r max (zlen b + 5) 0 0 read).1 as [[e v]|c] eqn:Er.
  2: { apply rc_body_length_err in Er as [-> |[-> | ->]]; done. }
  apply rc_body_length_ok in Er as (len & u & -> & Hd & Hn & -> & -> & Hv); [|done|lia|unfold kBodyLengthDigitCap; lia].
  fold (dec_value len) in *. case_tests.
  pose proof (dec_value_bounds len Hd).
  apply rc_trailer_strict in H; [|lia|pose proof (zlen_nonneg b); pose proof (zlen_nonneg len); lia].
  rewrite parse_frame_begin, parse_body_length_at by (done || by apply digits_no_soh).
  rewrite body_length_loop_spec by (done || lia). fold (dec_value len).
  replace (dec_value len <=? max) with true by lia.
  replace (zlen len =? 0) with false by lia. replace (dec_value len =? 0) with false by lia.
  replace (max <? dec_value len) with false by lia.
  replace (zlen (56 :: EQ :: b ++ [SOH]) + 3 + zlen len) with (zlen b + 5 + zlen len + 1).
  2: { rewrite !zlen_cons, zlen_app, zlen_cons, zlen_nilZ. lia. }
  split; [done|]. split; [lia|].
  apply parse_trailer_off in H as (_ & -> & _). lia.
Qed.

Lemma candidate_found bs max mb fl bo bl :
  9 <= max <= UINT64_MAX -> 0 <= mb ->
  let begin_len := soh_from (zdrop 2 bs) 0 in
  parse_frame bs max = pf_complete fl bo bl -> begin_len <= mb ->
  bo - begin_len - 6 <= kBodyLengthDigitCap -> candidate bs max mb = rc_frame fl bo bl.
Proof.
  intros Hm Hmb begin_len H Hbl Hn.
  destruct (parse_frame_decided bs max) as [e He|b len body t0 t1 t2 c0 c1 c2 s rest E Hb Hs Hn0 Hm0 Hl];
    [by rewrite H|by rewrite <- (app_nil_r bs), He in H|].
  set (q := 57 :: EQ :: len ++ SOH :: (body ++ t0 :: t1 :: t2 :: c0 :: c1 :: c2 :: s :: rest)).
  assert (E' : bs = (56 :: EQ :: b ++ [SOH]) ++ q) by exact E.
  assert (Hbl' : begin_len = zlen b).
  { unfold begin_len. rewrite E'. change (zdrop 2 _) with ((b ++ [SOH]) ++ q). rewrite <- app_assoc.
    apply soh_from_at. done. }
  rewrite Hbl' in *. pose proof H as Hc. rewrite E, parse_frame_cut in Hc by done.
  assert (Hbo : bo = zlen b + zlen len + 6).
  { revert Hc. unfold cut_verdict. case_tests; try done. by intros [= _ <- _]. }
  clear Hc. destruct (candidate_body b q max mb Hb Hmb) as (read & Ec). cbn zeta in Ec.
  rewrite <- E' in Ec. rewrite Ec. replace (mb <? zlen b) with false by lia.
  replace (zlen q <? 2) with false.
  2: { unfold q. rewrite !zlen_cons. pose_zlen. lia. }
  change (zget q 0) with 57. change (zget q 1) with EQ.
  change (negb (57 =? 57) || negb (EQ =? EQ)) with false. cbn iota.
  pose proof (body_length_loop_digits _ _ _ _ Hl) as Hd.
  rewrite body_length_loop_spec in Hl by (done || lia). fold (dec_value len) in Hl.
  destruct (dec_value len <=? max) eqn:Ev; [|done]. injection Hl as Hl.
  rewrite (proj2 (rc_body_length_ok (zdrop 2 q) max (zlen b + 5) 0 0 read (zlen b + 5 + zlen len) (zlen body)
    Hm ltac:(lia) ltac:(unfold kBodyLengthDigitCap; lia))).
  2: { eexists len, _. split; [done|]. fold (dec_value len). repeat split; try done; lia. }
  replace (zlen b + 5 + zlen len =? zlen b + 5) with false by lia.
  replace (zlen body =? 0) with false by lia. cbn [orb].
  apply rc_trailer_strict; [lia|pose proof (zlen_nonneg b); lia|].
  revert H. rewrite E'. unfold q. rewrite parse_frame_begin, parse_body_length_at by done.
  rewrite body_length_loop_spec by (done || lia). fold (dec_value len). rewrite Ev, Hl.
  replace (zlen len =? 0) with false by lia. replace (zlen body =? 0) with false by lia.
  replace (max <? zlen body) with false by lia.
  replace (zlen (56 :: EQ :: b ++ [SOH]) + 3 + zlen len) with (zlen b + 5 + zlen len + 1); [done|].
  rewrite !zlen_cons, zlen_app, zlen_cons, zlen_nilZ. lia.
Qed.

Lemma rc_begin_string_ge p i last read e :
  (rc_begin_string p i last read).1 = Ok e -> i <= e.
Proof.
  revert i read. induction p as [|c p IH]; intros i read; cbn [rc_begin_string]; [done|].
  case_tests; cbn; try done; [by intros [= <-]|]. intros H%IH. lia.
Qed.

Lemma rc_body_length_ge p max i count acc read e v : 0 <= acc ->
  (rc_body_length p max i count acc read).1 = Ok (e, v) -> i <= e /\ 0 <= v.
Proof.
  revert i count acc read. induction p as [|c p IH]; intros i count acc read Ha; cbn [rc_body_length]; [done|].
  case_tests; cbn; try done; [by intros [= <- <-]|]. intros H%IH; [lia|]. apply wrap_range. lia.
Qed.

Lemma rc_begin_string_err p i last read c :
  (rc_begin_string p i last read).1 = Err c -> c = rc_partial \/ c = rc_garble wire_framing_resync.
Proof.
  revert i read. induction p as [|x p IH]; intros i read; cbn [rc_begin_string].
  - intros [= <-]. by left.
  - case_tests; cbn; try (intros [= <-]; by right). apply IH.
Qed.

Lemma candidate_through bs max mb fl :
  candidate bs max mb = rc_garble_through fl -> 0 < fl <= zlen bs.
Proof.
  unfold candidate, parse_resync_candidate. case_tests; try done.
  destruct (rc_begin_string (zdrop 2 bs) 2 (2 + mb) 2) as [r read] eqn:Eb.
  destruct r as [e|c].
  2: { pose proof (rc_begin_string_err (zdrop 2 bs) 2 (2 + mb) 2 c) as Herr. rewrite Eb in Herr.
       by destruct (Herr eq_refl) as [-> | ->]. }
  pose proof (rc_begin_string_ge (zdrop 2 bs) 2 (2 + mb) 2 e ltac:(by rewrite Eb)).
  case_tests; try done.
  destruct (rc_body_length (zdrop (e + 1 + 2) bs) max (e + 1 + 2) 0 0 (read + 2)) as [r rd] eqn:Er.
  destruct r as [[e2 v]|c].
  2: { pose proof (rc_body_length_err (zdrop (e + 1 + 2) bs) max (e + 1 + 2) 0 0 (read + 2) c) as Herr.
       rewrite Er in Herr. by destruct (Herr eq_refl) as [-> |[-> | ->]]. }
  pose proof (rc_body_length_ge (zdrop (e + 1 + 2) bs) max (e + 1 + 2) 0 0 (read + 2) e2 v ltac:(lia) ltac:(by rewrite Er)).
  unfold rc_trailer. intros H1. repeat case_match; simplify_eq; cbn in *; simplify_eq; lia.
Qed.

Lemma match_prefix_len pat p : 0 <= (match_prefix pat p).1 <= zlen p.
Proof.
  revert p. induction pat as [|x pat IH]; intros p; cbn [match_prefix].
  - cbn [fst]. pose proof (zlen_nonneg p). lia.
  - destruct p as [|c p]; [done|]. rewrite zlen_cons. specialize (IH p).
    pose proof (zlen_nonneg p). destruct (c =? x); [|cbn [fst]; lia].
    destruct (match_prefix pat p) as [m r]; cbn [fst] in *. lia.
Qed.

Lemma resync_search_range p i read :
  match resync_search p i read with
  | (Some s, _, _) => i <= s < i + zlen p
  | (None, held, _) => 0 <= held <= zlen p
  end.
Proof.
  revert i read. induction p as [|c p IH]; intros i read; cbn [resync_search].
  - rewrite zlen_nilZ. lia.
  - rewrite zlen_cons. pose proof (zlen_nonneg p).
    assert (Hr : forall rd, match resync_search p (i + 1) rd with
      | (Some s, _, _) => i <= s < i + (1 + zlen p) | (None, held, _) => 0 <= held <= 1 + zlen p end).
    { intros rd. specialize (IH (i + 1) rd).
      destruct (resync_search p (i + 1) rd) as [[[s|] held] ?]; lia. }
    destruct (negb (c =? 56)); [apply Hr|].
    destruct (match_prefix _ _) as [m r]. case_tests; try lia. apply Hr.
Qed.

(** A search over bytes without '8' stops at the next start. *)
Lemma resync_search_found a b i read : 56 ∉ a ->
  exists r, resync_search (a ++ resync_start ++ b) i read = (Some (i + zlen a), 0, r).
Proof.
  revert i read. induction a as [|c a IH]; intros i read Ha.
  - rewrite zlen_nilZ, Z.add_0_r. by eexists.
  - apply not_elem_of_cons in Ha as [Hc Ha]. cbn [app resync_search].
    replace (c =? 56) with false by lia. cbn [negb].
    destruct (IH (i + 1) (read + 1) Ha) as [r ->]. exists r. rewrite zlen_cons. do 3 f_equal. lia.
Qed.

(** The loop's invariant: what was discarded, then the frames, then the rest. *)
Definition resync_inv (cfg : config) (source : bytes) (st : resync_loop_state) : Prop :=
  0 <= rl_offset st <= zlen source /\
  (rl_frames st <> [] -> rl_searching st = false) /\
  Forall (fun v => is_frame (fv_bytes v) (fv_body_off v) (fv_body_len v) /\
                   zlen (fv_bytes v) <= max_frame_bytes cfg) (rl_frames st) /\
  exists g, source = g ++ concat (map fv_bytes (rl_frames st)) ++ zdrop (rl_offset st) source /\
    zlen g = discarded (rl_garbles st).

Lemma resync_inv_skip cfg source st o srch g r s :
  resync_inv cfg source st -> rl_frames st = [] -> rl_offset st <= o <= zlen source ->
  discarded g = discarded (rl_garbles st) + (o - rl_offset st) ->
  resync_inv cfg source (ResyncLoop o [] srch g r s).
Proof.
  intros (Ho & _ & _ & g0 & E & Hg) Hf Hn Hd. rewrite Hf in E. cbn in E.
  apply (f_equal zlen) in E. rewrite zlen_app, zlen_drop in E by lia.
  unfold resync_inv. cbn. split; [lia|]. split; [done|]. split; [constructor|].
  exists (ztake o source). rewrite ztake_drop, zlen_take by lia. split; [done|]. lia.
Qed.

Lemma search_step_inv cfg source st :
  resync_inv cfg source st ->
  resync_inv cfg source (resync_search_step source st).1 /\
  ((resync_search_step source st).2 = true ->
   rl_frames (resync_search_step source st).1 = rl_frames st /\
   rl_offset st <= rl_offset (resync_search_step source st).1 /\
   (rl_offset st < zlen source -> rl_offset (resync_search_step source st).1 < zlen source) /\
   rl_searching (resync_search_step source st).1 = false).
Proof.
  intros Hinv. pose proof Hinv as (Ho & Hs & _). unfold resync_search_step.
  destruct (rl_searching st) eqn:Es; [|done].
  assert (Hf : rl_frames st = []).
  { destruct (rl_frames st); [done|]. by discriminate Hs. }
  unfold find_resync_start. pose proof (resync_search_range (zdrop (rl_offset st) source) (rl_offset st) 0) as Hr.
  rewrite zlen_drop in Hr by lia.
  destruct (resync_search _ _ _) as [[[s|] held] r]; cbn [fst snd]; rewrite Hf.
  - split; [|intros _; cbn; repeat split; lia].
    eapply resync_inv_skip; [exact Hinv|done|lia|]. cbn. lia.
  - split; [|done]. eapply resync_inv_skip; [exact Hinv|done|lia|]. cbn. lia.
Qed.

(** The loop is not left with a frame at its cursor. *)
Definition no_frame_left (cfg : config) (source : bytes) (st : resync_loop_state) : Prop :=
  rl_searching st = true \/
  forall fl bo bl, candidate (zdrop (rl_offset st) source) (max_frame_bytes cfg)
    (max_begin_string_bytes cfg) <> rc_frame fl bo bl.

Lemma resync_inv_frame cfg source st fl bo bl r s :
  9 <= max_frame_bytes cfg <= UINT64_MAX -> 0 <= max_begin_string_bytes cfg ->
  resync_inv cfg source st -> rl_searching st = false ->
  candidate (zdrop (rl_offset st) source) (max_frame_bytes cfg) (max_begin_string_bytes cfg) = rc_frame fl bo bl ->
  0 < fl /\ resync_inv cfg source
    (ResyncLoop (rl_offset st + fl)
       (rl_frames st ++ [FrameView (ztake fl (zdrop (rl_offset st) source)) bo bl])
       (rl_searching st) (rl_garbles st) r s).
Proof.
  intros Hm Hmb (Ho & _ & Hok & g & E & Hg) Hs Hc.
  apply candidate_sound in Hc as [Hc _]; [|done..].
  pose proof (parse_frame_len _ _ _ _ _ Hc) as (Hfl & _).
  apply (parse_frame_complete _ _ _ _ _ Hm) in Hc as (f & rest & Er & Hf & Hfr & Hmax).
  rewrite Er in *. rewrite <- Hf, ztake_app. split; [lia|].
  assert (Hlen : zlen (f ++ rest) = zlen source - rl_offset st) by (rewrite <- Er, zlen_drop; lia).
  rewrite zlen_app in Hlen. pose proof (zlen_nonneg rest). pose proof (zlen_nonneg f).
  unfold resync_inv. cbn [rl_offset rl_frames rl_searching rl_garbles].
  split; [lia|]. split; [done|]. split.
  { apply Forall_app. split; [done|]. repeat constructor; cbn; [apply Hfr|lia]. }
  exists g. split; [|done]. rewrite map_app, concat_app. cbn [map concat fv_bytes].
  rewrite app_nil_r, <- zdrop_drop, Er, zdrop_app, <- app_assoc by lia. done.
Qed.

Lemma resync_round_spec cfg source st :
  9 <= max_frame_bytes cfg <= UINT64_MAX -> 0 <= max_begin_string_bytes cfg ->
  resync_inv cfg source st -> rl_offset st < zlen source ->
  match resync_round cfg source st with
  | Ok (st', true) => resync_inv cfg source st' /\ rl_offset st < rl_offset st'
  | Ok (st', false) => resync_inv cfg source st' /\ no_frame_left cfg source st'
  | Err st' => True
  end.
Proof.
  intros Hm Hmb Hinv Hoff. unfold resync_round.
  destruct (search_step_inv cfg source st Hinv) as [Hinv1 Hstep].
  destruct (resync_search_step source st) as [st1 found] eqn:Est; cbn [fst snd] in *.
  destruct found; cbn [negb].
  2: { split; [done|]. left. unfold resync_search_step in Est.
       destruct (rl_searching st); [|done]. destruct (find_resync_start _ _) as [[[?|] ?] ?]; [done|].
       by injection Est as <-. }
  destruct (Hstep eq_refl) as (_ & Hge & Hlt & Hs). specialize (Hlt Hoff).
  set (rest := zdrop (rl_offset st1) source).
  destruct (parse_resync_candidate rest _ _) as [[c r] s] eqn:Ec.
  assert (Hc : candidate rest (max_frame_bytes cfg) (max_begin_string_bytes cfg) = c)
    by (unfold candidate; by rewrite Ec).
  assert (Hsame : forall r s, resync_inv cfg source
    (ResyncLoop (rl_offset st1) (rl_frames st1) (rl_searching st1) (rl_garbles st1) r s)) by done.
  assert (Hskip : forall kind skip r s, 0 < skip <= zlen rest -> ~ 0 < zlen (rl_frames st1) ->
    resync_inv cfg source (ResyncLoop (rl_offset st1 + skip) (rl_frames st1) true
      (garble_open (rl_garbles st1) kind skip) r s)).
  { intros kind skip r' s' Hsk Hf. pose proof (zlen_nonneg (rl_frames st1)).
    assert (Hnil : rl_frames st1 = []) by (apply zlen_0_nil; lia). rewrite Hnil.
    destruct Hinv1 as (Ho1 & Hrest). unfold rest in Hsk. rewrite zlen_drop in Hsk by lia.
    eapply resync_inv_skip; [by split|done|lia|]. cbn. lia. }
  assert (Hrl : zlen rest = zlen source - rl_offset st1).
  { apply zlen_drop. destruct Hinv1. lia. }
  assert (Hne : forall r s, (forall fl bo bl, c <> rc_frame fl bo bl) -> no_frame_left cfg source
    (ResyncLoop (rl_offset st1) (rl_frames st1) (rl_searching st1) (rl_garbles st1) r s)).
  { intros r' s' H. right. cbn [rl_offset]. intros. fold rest. rewrite Hc. apply H. }
  cbn [rl_frames rl_offset rl_searching rl_garbles rl_read rl_summed].
  destruct c as [fl bo bl| |kind|fl|].
  - destruct (resync_inv_frame cfg source st1 fl bo bl (rl_read st1 + r) (rl_summed st1 + s)
      Hm Hmb Hinv1 Hs Hc) as [Hfl Hi].
    split; [exact Hi|]. cbn. lia.
  - split; [apply Hsame|]. by apply Hne.
  - destruct (0 <? zlen (rl_frames st1)) eqn:Ef; [split; [apply Hsame|by apply Hne]|].
    split; [apply Hskip; lia|]. cbn. lia.
  - apply candidate_through in Hc.
    destruct (0 <? zlen (rl_frames st1)) eqn:Ef; [split; [apply Hsame|by apply Hne]|].
    split; [apply Hskip; lia|]. cbn. lia.
  - destruct (0 <? zlen (rl_frames st1)); [|done]. split; [apply Hsame|by apply Hne].
Qed.

Lemma resync_loop_spec fuel cfg source out_size st :
  9 <= max_frame_bytes cfg <= UINT64_MAX -> 0 <= max_begin_string_bytes cfg ->
  resync_inv cfg source st -> zlen source - rl_offset st < Z.of_nat fuel ->
  match resync_loop fuel cfg source out_size st with
  | Ok st' => resync_inv cfg source st' /\
      (zlen (rl_frames st') < out_size -> rl_offset st' = zlen source \/ no_frame_left cfg source st')
  | Err _ => True
  end.
Proof.
  intros Hm Hmb. revert st. induction fuel as [|fuel IH]; intros st Hinv Hf; cbn [resync_loop].
  { destruct Hinv. lia. }
  destruct ((rl_offset st <? zlen source) && (zlen (rl_frames st) <? out_size)) eqn:E.
  - pose proof (resync_round_spec cfg source st Hm Hmb Hinv ltac:(lia)) as H.
    destruct (resync_round cfg source st) as [[st' [|]]|]; [|by destruct H; auto|done].
    destruct H as [H1 H2]. apply IH; [done|lia].
  - split; [done|]. destruct Hinv. intros. left. lia.
Qed.

(** The W-1 step keeps the unread bytes at the end of the carry. *)
Definition carry_prepared (f : framer) (carry : pmr_carry_buffer) (incoming : bytes)
  : pmr_carry_buffer * Z :=
  let size := zlen (cb_buf carry) in
  let pending := f_pending f in
  if pending =? 0 then (cb_clear carry, f_work_moved f)
  else if (pending <? size) && (cb_cap carry <? size + zlen incoming)
  then (cb_consume_front carry (size - pending), u64 (f_work_moved f + pending))
  else (carry, f_work_moved f).

Lemma carry_prepared_spec f carry incoming : wf_framer f carry ->
  exists junk, cb_buf (carry_prepared f carry incoming).1 = junk ++ unread f carry /\
    cb_cap (carry_prepared f carry incoming).1 = cb_cap carry /\
    (f_pending f = 0 -> junk = []).
Proof.
  unfold wf_framer. intros Hw. unfold carry_prepared, unread.
  destruct (f_pending f =? 0) eqn:E.
  { exists []. cbn. by rewrite zdrop_ge by lia. }
  destruct (_ && _); cbn [fst].
  - unfold cb_consume_front. replace (zlen (cb_buf carry) <=? _) with false by lia. by exists [].
  - exists (ztake (zlen (cb_buf carry) - f_pending f) (cb_buf carry)). rewrite ztake_drop.
    split; [done|]. split; [done|lia].
Qed.

Lemma resync_init_inv cfg source srch : resync_inv cfg source (ResyncLoop 0 [] srch garbles_init 0 0).
Proof.
  unfold resync_inv. cbn. pose proof (zlen_nonneg source). split; [lia|]. split; [done|].
  split; [constructor|]. exists []. done.
Qed.

Lemma feed_resync_spec cfg f carry incoming out_size :
  9 <= max_frame_bytes cfg <= UINT64_MAX -> 0 <= max_begin_string_bytes cfg ->
  wf_framer f carry -> let s := unread f carry ++ incoming in
  match feed_resync cfg f carry incoming out_size with
  | (Ok fs, f', carry') =>
      wf_framer f' carry' /\ cb_cap carry' = cb_cap carry /\
      Forall (fun v => is_frame (fv_bytes v) (fv_body_off v) (fv_body_len v) /\
                       zlen (fv_bytes v) <= max_frame_bytes cfg) fs /\
      (exists g, s = g ++ concat (map fv_bytes fs) ++ unread f' carry' /\
        zlen g = discarded (f_garbles f')) /\
      (zlen fs < out_size -> f_searching f' = true \/ forall fl bo bl,
        candidate (unread f' carry') (max_frame_bytes cfg) (max_begin_string_bytes cfg) <> rc_frame fl bo bl)
  | (Err e, f', carry') =>
      e = wire_frame_too_large /\ cb_buf carry' = [] /\ f_pending f' = 0 /\ f_searching f' = false
  end.
Proof.
  intros Hm Hmb Hw s. unfold feed_resync. change (if f_pending f =? 0 then _ else _) with (carry_prepared f carry incoming).
  destruct (carry_prepared_spec f carry incoming Hw) as (junk & Hbuf & Hcap & Hj).
  destruct (carry_prepared f carry incoming) as [carry1 moved]. cbn [fst] in *.
  pose proof (zlen_unread f carry Hw) as Hu. pose proof (zlen_nonneg incoming). pose proof (zlen_nonneg junk).
  pose proof Hw as [Hp Hc].
  assert (Hloop := resync_loop_spec (S (length s)) cfg s out_size
    (ResyncLoop 0 [] (f_searching f) garbles_init 0 0) Hm Hmb
    (resync_init_inv cfg s (f_searching f)) ltac:(cbn; unfold zlen; lia)).
  assert (Hend : forall st, resync_inv cfg s st ->
    (zlen (rl_frames st) < out_size -> rl_offset st = zlen s \/ no_frame_left cfg s st) ->
    zlen (rl_frames st) < out_size -> rl_searching st = true \/ forall fl bo bl,
    candidate (zdrop (rl_offset st) s) (max_frame_bytes cfg) (max_begin_string_bytes cfg) <> rc_frame fl bo bl).
  { intros st Hi H1 H2. destruct (H1 H2) as [->|[?|?]]; [right|by left|by right].
    rewrite zdrop_ge by lia. done. }
  destruct (zlen (cb_buf carry1) =? 0) eqn:E0; cbn [negb].
  - assert (Hz : unread f carry = []).
    { rewrite Hbuf, zlen_app in E0. apply zlen_0_nil. pose proof (zlen_nonneg (unread f carry)). lia. }
    assert (s = incoming) as Es by (unfold s; by rewrite Hz). rewrite <- Es.
    destruct (resync_loop _ _ _ _ _) as [st|st]; [|done].
    destruct Hloop as [Hi Hstop]. pose proof Hi as (Ho & _ & Hok & g & E & Hg).
    assert (Hd : zlen (zdrop (rl_offset st) s) = zlen s - rl_offset st) by (apply zlen_drop; lia).
    destruct (zlen s - rl_offset st =? 0) eqn:Et.
    { assert (Hnil : zdrop (rl_offset st) s = []) by (apply zlen_0_nil; lia).
      assert (Hun : forall m, unread (Framer 0 (rl_searching st) (rl_garbles st) (u64 (f_work_read f + rl_read st))
        (u64 (f_work_summed f + rl_summed st)) m) carry1 = []).
      { intros. unfold unread. cbn. apply zdrop_ge. lia. }
      rewrite Hun. rewrite Hnil in E. split; [unfold wf_framer; cbn; lia|]. repeat split; try done; [by exists g|].
      intros H2. specialize (Hend st Hi Hstop H2). by rewrite Hnil in Hend. }
    unfold cb_append. destruct (_ <? _) eqn:Ec; cbn [negb]; [done|].
    assert (Hb1 : cb_buf carry1 = []) by (apply zlen_0_nil; lia). rewrite Hb1 in *. cbn [app] in *.
    set (f' := Framer _ _ _ _ _ _). set (c' := CarryBuffer _ _).
    assert (Hun : unread f' c' = zdrop (rl_offset st) s).
    { unfold unread, f', c'. cbn [cb_buf f_pending]. rewrite Hd.
      by replace (_ - _ - _) with 0 by lia. }
    rewrite Hun. split; [unfold wf_framer, f', c'; cbn [cb_buf cb_cap f_pending]; rewrite zlen_nilZ in Ec; lia|].
    repeat split; try done; [by exists g|]. by apply Hend.
  - unfold cb_append. destruct (_ <? _) eqn:Ec; cbn [negb]; [done|].
    cbn [cb_buf cb_cap]. rewrite Hbuf, <- app_assoc. fold s.
    assert (Hs : zlen s = f_pending f + zlen incoming) by (unfold s; rewrite zlen_app; lia).
    replace (zlen (junk ++ s) - f_pending f - zlen incoming) with (zlen junk) by (rewrite zlen_app; lia).
    rewrite zdrop_app. destruct (resync_loop _ _ _ _ _) as [st|st]; [|done].
    destruct Hloop as [Hi Hstop]. pose proof Hi as (Ho & _ & Hok & g & E & Hg).
    set (f' := Framer _ _ _ _ _ _). set (c' := CarryBuffer _ _).
    assert (Hun : unread f' c' = zdrop (rl_offset st) s).
    { unfold unread, f', c'. cbn [cb_buf f_pending].
      replace (zlen (junk ++ s) - (zlen s - rl_offset st)) with (zlen junk + rl_offset st) by (rewrite zlen_app; lia).
      rewrite <- zdrop_drop by lia. by rewrite zdrop_app. }
    rewrite Hbuf, zlen_app in Ec. rewrite Hun.
    split; [unfold wf_framer, f', c'; cbn [cb_buf cb_cap f_pending]; rewrite zlen_app; lia|].
    repeat split; try done; [by exists g|]. by apply Hend.
Qed.

Lemma candidate_not_8 c p max mb : c <> 56 -> 
  exists r, parse_resync_candidate (c :: p) max mb = (rc_garble wire_framing_resync, r, 0).
Proof.
  intros Hc. unfold parse_resync_candidate. rewrite zlen_cons, zget_0. pose proof (zlen_nonneg p).
  replace (1 + zlen p =? 0) with false by lia. replace (c =? 56) with false by lia. by eexists.
Qed.

(** The two rounds that skip garbage and take the frame behind it. *)
Lemma resync_garbage_round cfg c g' frame : c <> 56 ->
  exists r, resync_round cfg ((c :: g') ++ frame) (ResyncLoop 0 [] false garbles_init 0 0) =
    Ok (ResyncLoop 1 [] true (GarbleSummary 1 (Some wire_framing_resync) 1) r 0, true).
Proof.
  intros Hc. unfold resync_round. cbn [resync_search_step rl_searching negb].
  destruct (candidate_not_8 c (g' ++ frame) (max_frame_bytes cfg) (max_begin_string_bytes cfg) Hc) as [r Hr].
  cbn [app rl_offset]. rewrite zdrop_0, Hr. by eexists.
Qed.

Lemma resync_found_round cfg c g' rest bo bl gs r0 :
  56 ∉ g' -> candidate (resync_start ++ rest) (max_frame_bytes cfg) (max_begin_string_bytes cfg) =
    rc_frame (zlen (resync_start ++ rest)) bo bl ->
  exists r s, resync_round cfg ((c :: g') ++ resync_start ++ rest) (ResyncLoop 1 [] true gs r0 0) =
    Ok (ResyncLoop (zlen (c :: g') + zlen (resync_start ++ rest))
          [FrameView (resync_start ++ rest) bo bl] false (garble_discard gs (zlen g')) r s, true).
Proof.
  intros Hg Hc. unfold resync_round, resync_search_step. cbn [rl_searching rl_offset].
  unfold find_resync_start. change (zdrop 1 ((c :: g') ++ resync_start ++ rest)) with (g' ++ resync_start ++ rest).
  destruct (resync_search_found g' rest 1 0 Hg) as [r ->]. cbn [negb rl_offset rl_frames rl_garbles].
  rewrite <- (zlen_cons c g'), zdrop_app.
  unfold candidate in Hc. destruct (parse_resync_candidate _ _ _) as [[k rd] sm]. cbn [fst] in Hc. subst k.
  rewrite ztake_ge by lia. rewrite zlen_cons.
  replace (1 + zlen g' - 1) with (zlen g') by lia. by eexists _, _.
Qed.

(** ** Properties *)

(** C30: any chunking, in strict mode.  From an empty carry, and however the byte stream is cut
    into [feed] calls: if all of them succeed, what they delivered and what the framer keeps is
    the stream, the delivered parts being whole frames (BeginString, BodyLength, body and a
    CheckSum that is right) within the limit (from 9 bytes to below 2^63), end to end; and a stream that is such frames and
    then nothing, or an unfinished one, is delivered exactly, in order, with the unfinished
    bytes kept - as long as the carry can hold the stream and each call has room in [out]. *)
Theorem feed_any_chunking cfg f cap chunks out_size :
  resync_on_garble cfg = false -> f_pending f = 0 -> 9 <= max_frame_bytes cfg <= INT64_MAX -> 0 <= cap ->
  (forall fs f' carry', feed_all cfg f (carry_buffer_init cap) chunks out_size = (Ok fs, f', carry') ->
     framed (max_frame_bytes cfg) (concat chunks) fs (unread f' carry')) /\
  (forall fs r, framed (max_frame_bytes cfg) (concat chunks) fs r -> unfinished (max_frame_bytes cfg) r ->
     zlen (concat chunks) <= cap -> (length fs < out_size)%nat ->
     exists f' carry', feed_all cfg f (carry_buffer_init cap) chunks out_size = (Ok fs, f', carry') /\
       unread f' carry' = r).
Proof.
  intros Hcfg Hp Hmax' Hc.
  assert (Hmax : 9 <= max_frame_bytes cfg <= UINT64_MAX) by (unfold INT64_MAX, UINT64_MAX in *; lia).
  assert (Hu : unread f (carry_buffer_init cap) = []) by apply drop_nil.
  assert (Hw : wf_framer f (carry_buffer_init cap)).
  { unfold wf_framer. cbn [cb_buf cb_cap carry_buffer_init]. change (zlen (@nil Z)) with 0. lia. }
  split.
  - intros fs f' carry' E. apply framed_in; [done|]. apply feed_all_sound in E; [|done..]. by rewrite Hu in E.
  - intros fs r Hfs Hr Hcap Hout. apply framed_in in Hfs; [|done]. apply unfinished_partial in Hr; [|done].
    apply feed_all_complete; rewrite ?Hu; done.
Qed.

(** A heartbeat cut inside its BeginString, and the first two bytes of the next frame. *)
Lemma feed_any_chunking_witness :
  let hb := frame_text [70;73;88;46;52;46;52] [(35, [48]); (34, [55])] in
  exists f' carry',
    feed_all default_config framer_init (carry_buffer_init 100) [ztake 5 hb; zdrop 5 hb ++ [56; EQ]] 4 =
      (Ok [FrameView hb 15 10], f', carry') /\ unread f' carry' = [56; EQ].
Proof.
  intros hb.
  assert (Hf : is_frame hb 15 10).
  { destruct (parse_frame_complete hb 100 32 15 10) as [H _]; [done|].
    destruct (H ltac:(vm_compute; reflexivity)) as (f & rest & E & Hl & Hf & _).
    assert (rest = []) as -> by (apply zlen_0_nil; apply (f_equal zlen) in E; rewrite zlen_app in E; vm_compute (zlen hb) in E; lia).
    by rewrite E, app_nil_r. }
  apply (feed_any_chunking default_config framer_init 100 [ztake 5 hb; zdrop 5 hb ++ [56; EQ]] 4);
    [reflexivity|reflexivity|by vm_compute|done| | | |].
  - split; [|vm_compute; reflexivity]. constructor; [split; [exact Hf|by vm_compute]|constructor].
  - right. exists (zdrop 2 hb), 15, 10. split; [by vm_compute|]. split; [exact Hf|by vm_compute].
  - by vm_compute.
  - cbn [length]. lia.
Defined.


(** What a complete verdict means.  The strict parser answers [complete] iff the
    buffer starts with one frame: BeginString, a digit BodyLength equal to the body's
    length, a body that ends in SOH, and a three-digit CheckSum equal to the byte sum
    modulo 256; the frame's length and body offset are the reported ones and it is
    within the limit. *)
Theorem strict_frame_exact bs max fl bo bl :
  9 <= max <= INT64_MAX ->
  parse_frame bs max = pf_complete fl bo bl <->
  exists f rest, bs = f ++ rest /\ zlen f = fl /\ is_frame f bo bl /\ fl <= max.
Proof. intros Hm. apply parse_frame_complete. unfold INT64_MAX, UINT64_MAX in *. lia. Qed.

Lemma strict_frame_exact_witness :
  let hb := frame_text [70;73;88;46;52;46;52] [(35, [48]); (34, [55])] in
  parse_frame (hb ++ [56]) 100 = pf_complete 32 15 10 /\
  exists f rest, hb ++ [56] = f ++ rest /\ zlen f = 32 /\ is_frame f 15 10 /\ 32 <= 100.
Proof.
  intros hb. assert (H : parse_frame (hb ++ [56]) 100 = pf_complete 32 15 10) by by vm_compute.
  split; [exact H|]. by apply (strict_frame_exact (hb ++ [56]) 100 32 15 10).
Defined.


(** Write then frame.  The bytes the writer commits are one complete frame for the
    strict parser, whatever follows them in the stream, and the frame's body is the
    fields that were appended. *)
Theorem written_message_frames begin_string fs max more :
  SOH ∉ begin_string -> fs <> [] -> zlen (frame_text begin_string fs) <= max ->
  9 <= max <= UINT32_MAX ->
  exists bo bl, parse_frame (frame_text begin_string fs ++ more) max =
    pf_complete (zlen (frame_text begin_string fs)) bo bl /\
    zsub (frame_text begin_string fs) bo bl = fields_bytes fs.
Proof.
  intros Hb Hfs Hl Hm. unfold UINT32_MAX in *.
  assert (Hbody : zlen (fields_bytes fs) <= UINT32_MAX).
  { rewrite frame_text_eq, zlen_app, zlen_summed_text in Hl. unfold UINT32_MAX. pose_zlen. lia. }
  eexists _, _. split; [|apply frame_text_body].
  apply parse_frame_complete; [unfold UINT64_MAX; lia|].
  eexists _, more. split; [done|]. split; [done|]. split; [|done]. by apply frame_text_is_frame.
Qed.

Lemma written_message_frames_witness :
  let hb := frame_text [70;73;88;46;52;46;52] [(35, [48]); (34, [55])] in
  exists bo bl, parse_frame (hb ++ [56; EQ]) 100 = pf_complete (zlen hb) bo bl /\
    zsub hb bo bl = fields_bytes [(35, [48]); (34, [55])].
Proof.
  intros hb. apply (written_message_frames [70;73;88;46;52;46;52] [(35, [48]); (34, [55])] 100 [56; EQ]).
  - rewrite !not_elem_of_cons. repeat split; try done. apply not_elem_of_nil.
  - done.
  - by vm_compute.
  - by vm_compute.
Defined.


(** C31: resync keeps the stream.  A resync [feed] that answers frames splits the unread
    stream into exactly what it discarded, then the frames it answers, then the bytes it
    keeps; the reported count is the discarded length, every frame is well formed and
    within the limit, and with room left in [out] no frame is left behind at the cursor.
    Its only refusal is [wire_frame_too_large], which leaves an empty framer. *)
Theorem resync_conserves_stream cfg f carry incoming out_size :
  9 <= max_frame_bytes cfg <= UINT64_MAX -> 0 <= max_begin_string_bytes cfg ->
  wf_framer f carry -> let s := unread f carry ++ incoming in
  match feed_resync cfg f carry incoming out_size with
  | (Ok fs, f', carry') =>
      wf_framer f' carry' /\ cb_cap carry' = cb_cap carry /\
      Forall (fun v => is_frame (fv_bytes v) (fv_body_off v) (fv_body_len v) /\
                       zlen (fv_bytes v) <= max_frame_bytes cfg) fs /\
      (exists g, s = g ++ concat (map fv_bytes fs) ++ unread f' carry' /\
        zlen g = discarded (f_garbles f')) /\
      (zlen fs < out_size -> f_searching f' = true \/ forall fl bo bl,
        candidate (unread f' carry') (max_frame_bytes cfg) (max_begin_string_bytes cfg) <> rc_frame fl bo bl)
  | (Err e, f', carry') =>
      e = wire_frame_too_large /\ cb_buf carry' = [] /\ f_pending f' = 0 /\ f_searching f' = false
  end.
Proof. apply feed_resync_spec. Qed.

(** Garbage, a frame and the start of another in one call. *)
Lemma resync_conserves_stream_witness :
  let cfg := Config 100 true 8 in
  let s := [120; 121] ++ frame_text [70;73;88;46;52;46;52] [(35, [48]); (34, [55])] ++ [56; EQ] in
  match feed_resync cfg framer_init (carry_buffer_init 200) s 4 with
  | (Ok fs, f', carry') =>
      exists g, s = g ++ concat (map fv_bytes fs) ++ unread f' carry' /\ zlen g = discarded (f_garbles f')
  | _ => False
  end.
Proof.
  intros cfg s.
  assert (H := resync_conserves_stream cfg framer_init (carry_buffer_init 200) s 4
    ltac:(by vm_compute) ltac:(by vm_compute) ltac:(by vm_compute)).
  cbn zeta in H. revert H.
  destruct (feed_resync cfg framer_init (carry_buffer_init 200) s 4) as [[[fs|e] f'] carry'] eqn:E.
  - intros (_ & _ & _ & Hg & _). exact Hg.
  - by vm_compute in E.
Defined.


(** One grammar.  The resync parser recognises a frame iff the strict parser does
    and the BeginString and BodyLength digits are within its caps. *)
Theorem resync_strict_agree bs max mb fl bo bl :
  9 <= max <= UINT64_MAX -> 0 <= mb ->
  let begin_len := soh_from (zdrop 2 bs) 0 in
  candidate bs max mb = rc_frame fl bo bl <->
  parse_frame bs max = pf_complete fl bo bl /\ begin_len <= mb /\
    bo - begin_len - 6 <= kBodyLengthDigitCap.
Proof.
  intros Hm Hmb begin_len. split.
  - by apply candidate_sound.
  - intros (? & ? & ?). by apply candidate_found.
Qed.

Lemma resync_strict_agree_witness :
  let hb := frame_text [70;73;88;46;52;46;52] [(35, [48]); (34, [55])] in
  candidate hb 100 8 = rc_frame 32 15 10.
Proof.
  intros hb. apply (resync_strict_agree hb 100 8 32 15 10); [by vm_compute|by vm_compute|].
  split; [by vm_compute|]. by vm_compute.
Defined.


(** Recovery.  On a fresh framer, garbage without the byte '8' followed by a frame
    that starts "8=FIX" costs one garble region of exactly the garbage's length, and the
    frame is delivered by the same call. *)
Theorem resync_recovers cfg f cap garbage rest bo bl out_size :
  f_pending f = 0 -> f_searching f = false -> (0 < out_size)%nat ->
  garbage <> [] -> 56 ∉ garbage ->
  candidate (resync_start ++ rest) (max_frame_bytes cfg) (max_begin_string_bytes cfg) =
    rc_frame (zlen (resync_start ++ rest)) bo bl ->
  exists f' carry', feed_resync cfg f (carry_buffer_init cap) (garbage ++ resync_start ++ rest)
      (Z.of_nat out_size) = (Ok [FrameView (resync_start ++ rest) bo bl], f', carry') /\
    unread f' carry' = [] /\
    f_garbles f' = GarbleSummary 1 (Some wire_framing_resync) (zlen garbage).
Proof.
  intros Hp Hs Ho Hne Hg Hc. destruct garbage as [|c g']; [done|].
  apply not_elem_of_cons in Hg as [Hc8 Hg].
  unfold feed_resync. rewrite Hp, Hs. cbn [Z.eqb cb_clear carry_buffer_init cb_buf cb_cap].
  change (zlen (@nil Z) =? 0) with true. cbn [negb].
  set (source := (c :: g') ++ resync_start ++ rest).
  assert (Hl : zlen source = zlen (c :: g') + zlen (resync_start ++ rest)) by apply zlen_app.
  assert (Hl1 : 1 < zlen source) by (rewrite Hl, zlen_cons, zlen_app; change (zlen resync_start) with 5; pose_zlen; lia).
  destruct (resync_garbage_round cfg c g' (resync_start ++ rest) ltac:(done)) as [r1 H1].
  destruct (resync_found_round cfg c g' rest bo bl
    (GarbleSummary 1 (Some wire_framing_resync) 1) r1 Hg Hc) as (r2 & s2 & H2).
  fold source in H1, H2.
  assert (E : exists n, S (length source) = S (S (S n))).
  { exists (length source - 2)%nat. unfold zlen in Hl1. lia. }
  destruct E as [n ->]. cbn [resync_loop rl_offset rl_frames].
  change (zlen (@nil frame_view)) with 0.
  replace ((0 <? zlen source) && (0 <? Z.of_nat out_size)) with true by lia.
  rewrite H1. cbn [rl_offset rl_frames]. change (zlen (@nil frame_view)) with 0.
  replace ((1 <? zlen source) && (0 <? Z.of_nat out_size)) with true by lia.
  rewrite H2. cbn [rl_offset rl_frames]. rewrite <- Hl, Z.ltb_irrefl. cbn [andb].
  rewrite Z.sub_diag. cbn [Z.eqb]. eexists _, _. split; [done|]. split; [done|].
  cbn. unfold garble_discard. cbn. f_equal. by rewrite zlen_cons.
Qed.

Lemma resync_recovers_witness :
  let hb := frame_text [70;73;88;46;52;46;52] [(35, [48]); (34, [55])] in
  exists f' carry', feed_resync (Config 100 true 8) framer_init (carry_buffer_init 200)
      ([120; 121] ++ resync_start ++ zdrop 5 hb) 4 = (Ok [FrameView (resync_start ++ zdrop 5 hb) 15 10], f', carry') /\
    unread f' carry' = [] /\ f_garbles f' = GarbleSummary 1 (Some wire_framing_resync) 2.
Proof.
  intros hb. apply (resync_recovers (Config 100 true 8) framer_init 200 [120; 121] (zdrop 5 hb) 15 10 4);
    [done|done|lia|done| |by vm_compute].
  rewrite !not_elem_of_cons. repeat split; try done. apply not_elem_of_nil.
Defined.

