(* ===== verification/VersionProfile.v ===== *)
(** Versions on the wire (include/fixpp/dict/version_profile.hpp,
    src/dictionary/version_profile.cpp) and the FIXT standard header set
    (src/dictionary/dictionary.cpp, fixt_framing_table.hpp): the ApplVerID mapping in
    both directions, the FIXT admin message types and the header bit set the route peek
    asks. *)
From S2P Require Import Prelude Errors.

(** ** Versions *)

Inductive session_version : Set :=
  | sv_Unknown | sv_v40 | sv_v41 | sv_v42 | sv_v43 | sv_v44 | sv_v50 | sv_v50sp1 | sv_v50sp2
  | sv_vt11 | sv_vlatest.

Inductive application_version : Set :=
  | av_Unknown | av_v40 | av_v41 | av_v42 | av_v43 | av_v44 | av_v50 | av_v50sp1 | av_v50sp2
  | av_vlatest.

#[global] Instance session_version_eq_dec : EqDecision session_version.
Proof. solve_decision. Defined.
#[global] Instance application_version_eq_dec : EqDecision application_version.
Proof. solve_decision. Defined.

Definition session_to_application (sv : session_version) : application_version :=
  match sv with
  | sv_v40 => av_v40
  | sv_v41 => av_v41
  | sv_v42 => av_v42
  | sv_v43 => av_v43
  | sv_v44 => av_v44
  | sv_v50 => av_v50
  | sv_v50sp1 => av_v50sp1
  | sv_v50sp2 => av_v50sp2
  | sv_vlatest => av_vlatest
  | sv_vt11 => av_Unknown
  | sv_Unknown => av_Unknown
  end.

Record version_profile := VersionProfile {
  vp_session : session_version;
  vp_default_appl : application_version;
  vp_has_per_message_override : bool;
}.

(** The ApplVerID(1128) text; [bytes] for the [string_view]. *)
Definition resolve_application_version (profile : version_profile) (value : bytes)
  : expected application_version :=
  match value with
  | [] =>
      match vp_default_appl profile with
      | av_Unknown => Err dict_unresolved_application_version
      | v => Ok v
      end
  | _ =>
      let one :=
        match value with
        | [c] =>
            if c =? 50 then Some av_v40
            else if c =? 51 then Some av_v41
            else if c =? 52 then Some av_v42
            else if c =? 53 then Some av_v43
            else if c =? 54 then Some av_v44
            else if c =? 55 then Some av_v50
            else if c =? 56 then Some av_v50sp1
            else if c =? 57 then Some av_v50sp2
            else None
        | _ => None
        end in
      match one with
      | Some v => Ok v
      | None => if bool_decide (value = [49; 48]) then Ok av_vlatest else Err dict_unknown_appl_ver_id
      end
  end.

Definition render_appl_ver_id (v : application_version) : expected bytes :=
  match v with
  | av_v40 => Ok [50]
  | av_v41 => Ok [51]
  | av_v42 => Ok [52]
  | av_v43 => Ok [53]
  | av_v44 => Ok [54]
  | av_v50 => Ok [55]
  | av_v50sp1 => Ok [56]
  | av_v50sp2 => Ok [57]
  | av_vlatest => Ok [49; 48]
  | av_Unknown => Err dict_unknown_appl_ver_id
  end.

(** "0" .. "5" and "A" *)
Definition kFixtAdminMsgTypes : list bytes := [[48]; [49]; [50]; [51]; [52]; [53]; [65]].

Definition is_fixt_admin_msgtype (msg_type : bytes) : bool :=
  if negb (zlen msg_type =? 1) then false
  else existsb (fun admin => bool_decide (admin = msg_type)) kFixtAdminMsgTypes.

Definition is_route_answered_header_tag (tag : Z) : bool :=
  (tag =? 35) || (tag =? 1128) || (tag =? 1129) || (tag =? 1156).

(** ** The FIXT standard header *)

(** The tags of [kFixtFramingTable]. *)
Definition kFixtFramingTable : list Z :=
  [8; 9; 10; 34; 35; 43; 49; 50; 52; 56; 57; 89; 90; 91; 93; 97; 115; 116; 122; 128; 129; 142;
   143; 144; 145; 212; 213; 347; 369; 627; 628; 629; 630; 1128; 1129; 1156].

Definition kOnBehalfOfSendingTime : Z := 370.
Definition kFixtHeaderBitsPerWord : Z := 64.

Definition kFixtStandardHeaderTagBound : Z :=
  fold_left Z.max kFixtFramingTable kOnBehalfOfSendingTime + 1.

Definition header_bit (tag : Z) : Z := u64 (Z.shiftl 1 (tag mod kFixtHeaderBitsPerWord)).

Definition header_word (f : Z -> Z) (bits : list Z) (tag : Z) : list Z :=
  alter f (Z.to_nat (tag / kFixtHeaderBitsPerWord)) bits.

Definition kFixtStandardHeaderBits : list Z :=
  let words := Z.to_nat ((kFixtStandardHeaderTagBound + kFixtHeaderBitsPerWord - 1) / kFixtHeaderBitsPerWord) in
  let set bits tag := header_word (fun w => Z.lor w (header_bit tag)) bits tag in
  let clear bits tag := header_word (fun w => Z.land w (Z.lxor (header_bit tag) UINT64_MAX)) bits tag in
  let bits := fold_left set kFixtFramingTable (replicate words 0) in
  let bits := set bits kOnBehalfOfSendingTime in
  fold_left clear [10; 89; 93] bits.

Definition is_fixt_standard_header_tag (tag : Z) : bool :=
  (tag <? kFixtStandardHeaderTagBound) &&
  negb (Z.land (Z.shiftr (zget kFixtStandardHeaderBits (tag / kFixtHeaderBitsPerWord))
                  (tag mod kFixtHeaderBitsPerWord)) 1 =? 0).

(** ** Lemmas *)

Definition header_set (tag : Z) : bool :=
  (tag =? kOnBehalfOfSendingTime) ||
  (existsb (Z.eqb tag) kFixtFramingTable && negb (existsb (Z.eqb tag) [10; 89; 93])).

Lemma header_bits_table :
  forallb (fun n => eqb (is_fixt_standard_header_tag (Z.of_nat n)) (header_set (Z.of_nat n)))
    (seq 0 1157) = true.
Proof. by vm_compute. Qed.

Lemma header_set_bound tag : header_set tag = true -> 0 <= tag < 1157.
Proof.
  unfold header_set, kOnBehalfOfSendingTime.
  intros [H|[H _]%andb_true_iff]%orb_true_iff; [lia|].
  apply existsb_exists in H as (x & Hin & ->%Z.eqb_eq). revert x Hin.
  apply List.Forall_forall. repeat (constructor; [lia|]). constructor.
Qed.

(** ** Properties *)

(** ApplVerID.  Rendering a version and resolving the text gives the version back
    under every profile, a text that resolves renders to itself, and the texts that
    resolve are exactly the nine wire values: no C++ index leaks to the wire. *)
Theorem appl_ver_id_round_trip profile :
  (forall v t, render_appl_ver_id v = Ok t -> resolve_application_version profile t = Ok v) /\
  (forall t v, t <> [] -> resolve_application_version profile t = Ok v -> render_appl_ver_id v = Ok t) /\
  (forall v, is_ok (render_appl_ver_id v) = negb (bool_decide (v = av_Unknown))).
Proof.
  split; [|split].
  - by intros [] t [= <-].
  - intros t v Hne. unfold resolve_application_version.
    destruct t as [|c [|d t]]; [done| |].
    + rewrite (bool_decide_false ([c] = [49; 48])) by done.
      case_tests; intros [= <-]; cbn; do 2 f_equal; lia.
    + case_bool_decide as E; [|done]. by intros [= <-]; rewrite E.
  - by intros [].
Qed.

(** the header bit set.  For every 16-bit tag the bit test answers exactly the FIXT
    header: the framing table without its three trailer tags, plus 370. *)
Theorem fixt_header_exact tag :
  0 <= tag <= 0xFFFF -> is_fixt_standard_header_tag tag = header_set tag.
Proof.
  intros Ht. destruct (decide (tag < 1157)) as [Hlt|].
  - pose proof header_bits_table as H. rewrite forallb_forall in H.
    specialize (H (Z.to_nat tag)). rewrite in_seq, Z2Nat.id in H by lia.
    apply eqb_prop, H. lia.
  - unfold is_fixt_standard_header_tag. change kFixtStandardHeaderTagBound with 1157.
    replace (tag <? 1157) with false by lia. symmetry. apply not_true_is_false.
    intros ?%header_set_bound. lia.
Qed.

Lemma fixt_header_exact_witness :
  is_fixt_standard_header_tag 1128 = true /\ is_fixt_standard_header_tag 10 = false /\
  is_fixt_standard_header_tag 65535 = header_set 65535.
Proof. split; [by vm_compute|]. split; [by vm_compute|]. apply (fixt_header_exact 65535). lia. Defined.
