(* ===== verification/FrameHeader.v ===== *)
(** The session's field scanners (src/session/scan_frame_header.hpp,
    scan_first_frame_ids.hpp, peek_fixt_route.hpp, msgtype_classifier.hpp): one walk over
    a frame's fields through the Length+Data carry, and the header facts each scanner
    takes from it. *)
From S2P Require Import Prelude Errors TagScan PairTable LengthData VersionProfile Writer Framer.

(** ** Reading one tag

    The strict tag loop of [scan_frame_header] and [walk_fixt_header]: the tag and the
    offset behind '=', or [None] for a malformed tag. *)
Definition read_tag (frame : bytes) (i : Z) : option (Z * Z) :=
  match tag_loop (zdrop i frame) i 0 with
  | tag_end tag j _ =>
      if (zlen frame <=? j) || negb (zget frame j =? EQ) || (j =? i) then None
      else Some (tag, j + 1)
  | tag_non_digit | tag_over_range => None
  end.

(** [if (i < n) ++i;]: past the SOH that ends a value. *)
Definition skip_soh (frame : bytes) (i : Z) : Z := if i <? zlen frame then i + 1 else i.

(** ** [scan_frame_header] *)

Record FrameHeader := Header {
  begin_string : bytes;
  sender_comp_id : bytes;
  target_comp_id : bytes;
  msg_seq_num : bytes;
  msg_type : bytes;
  sending_time : bytes;
  test_req_id : bytes;
  begin_seqno : bytes;
  end_seqno : bytes;
  new_seqno : bytes;
  poss_dup_flag : bytes;
  orig_sending_time : bytes;
  gap_fill_flag : bytes;
  reset_seqnum_flag : bytes;
  test_message_indicator : bytes;
  max_message_size : bytes;
  next_expected_msg_seq_num : bytes;
  next_expected_present : bool;
  fault : field_fault;
  fault_length_tag : Z;
  fault_offset : Z;
  msg_type_is_third : bool;
  fault_ref_seq_num : bytes;
  fault_ref_msg_type : bytes;
}.

Definition header_init : FrameHeader :=
  Header [] [] [] [] [] [] [] [] [] [] [] [] [] [] [] [] [] false fault_none 0 0 false [] [].

(** [case t: h.member = val; break;] *)
Definition on_tag (tag t : Z) (val old : bytes) : bytes := if tag =? t then val else old.

(** The switch on the tag of a field read, and the positional facts. *)
Definition set_field (field_no : Z) (seen_34 : bool) (tag : Z) (val : bytes) (h : FrameHeader)
  : FrameHeader :=
  let third := (tag =? 35) && (field_no =? 3) in
  Header
    (on_tag tag 8 val (begin_string h))
    (on_tag tag 49 val (sender_comp_id h))
    (on_tag tag 56 val (target_comp_id h))
    (on_tag tag 34 val (msg_seq_num h))
    (on_tag tag 35 val (msg_type h))
    (on_tag tag 52 val (sending_time h))
    (on_tag tag 112 val (test_req_id h))
    (on_tag tag 7 val (begin_seqno h))
    (on_tag tag 16 val (end_seqno h))
    (on_tag tag 36 val (new_seqno h))
    (on_tag tag 43 val (poss_dup_flag h))
    (on_tag tag 122 val (orig_sending_time h))
    (on_tag tag 123 val (gap_fill_flag h))
    (on_tag tag 141 val (reset_seqnum_flag h))
    (on_tag tag 464 val (test_message_indicator h))
    (on_tag tag 383 val (max_message_size h))
    (on_tag tag 789 val (next_expected_msg_seq_num h))
    ((tag =? 789) || next_expected_present h)
    (fault h) (fault_length_tag h) (fault_offset h)
    (third || msg_type_is_third h)
    (if (tag =? 34) && negb seen_34 then val else fault_ref_seq_num h)
    (if third then val else fault_ref_msg_type h).

Definition record_fault (kind : field_fault) (length_tag field_start : Z) (h : FrameHeader)
  : FrameHeader :=
  Header (begin_string h) (sender_comp_id h) (target_comp_id h) (msg_seq_num h) (msg_type h)
    (sending_time h) (test_req_id h) (begin_seqno h) (end_seqno h) (new_seqno h)
    (poss_dup_flag h) (orig_sending_time h) (gap_fill_flag h) (reset_seqnum_flag h)
    (test_message_indicator h) (max_message_size h) (next_expected_msg_seq_num h)
    (next_expected_present h) kind length_tag (u32 field_start) (msg_type_is_third h)
    (fault_ref_seq_num h) (fault_ref_msg_type h).

(** The while loop; every round consumes a byte, so [length frame] rounds suffice. *)
Fixpoint scan_loop (fuel : nat) (hooks : dict_hooks) (frame : bytes) (i : Z)
    (carry : length_data_carry) (prev_tag field_no : Z) (seen_34 : bool) (h : FrameHeader)
  : FrameHeader :=
  match fuel with
  | O => h
  | S fuel =>
      if zlen frame <=? i then h
      else
        let field_start := i in
        let field_no := u32 (field_no + 1) in
        match read_tag frame i with
        | None => record_fault malformed_tag (fault_length_tag h) field_start h
        | Some (tag, vstart) =>
            match read_value hooks carry frame vstart tag with
            | (None, _) => record_fault length_data_mismatch prev_tag field_start h
            | (Some ext, carry) =>
                let val := zsub frame vstart (ve_end ext - vstart) in
                scan_loop fuel hooks frame (skip_soh frame (ve_end ext)) carry tag field_no
                  (seen_34 || (tag =? 34)) (set_field field_no seen_34 tag val h)
            end
        end
  end.

Definition scan_frame_header (frame : bytes) (hooks : dict_hooks) : FrameHeader :=
  scan_loop (length frame) hooks frame 0 carry_init 0 0 false header_init.

Definition kMaxShippedMsgTypeLength : Z := 2.

(** ** [scan_first_frame_ids] *)

Record FirstFrameIds := FirstIds {
  ids_begin_string : bytes;
  ids_sender_comp_id : bytes;
  ids_target_comp_id : bytes;
}.

(** The lenient tag loop: a bad byte marks the tag and the loop runs on to '=' or SOH. *)
Fixpoint lenient_tag_loop (p : bytes) (i tag : Z) (tag_ok : bool) : Z * bool * Z :=
  match p with
  | [] => (tag, tag_ok, i)
  | c :: p =>
      if (c =? EQ) || (c =? SOH) then (tag, tag_ok, i)
      else if (c <? 48) || (57 <? c) then lenient_tag_loop p (i + 1) tag false
      else
        let '(ok, tag) := accumulate_tag_digit tag c in
        lenient_tag_loop p (i + 1) tag (ok && tag_ok)
  end.

Definition set_id (tag : Z) (val : bytes) (ids : FirstFrameIds) : FirstFrameIds :=
  FirstIds (on_tag tag 8 val (ids_begin_string ids)) (on_tag tag 49 val (ids_sender_comp_id ids))
    (on_tag tag 56 val (ids_target_comp_id ids)).

Fixpoint ids_loop (fuel : nat) (frame : bytes) (i : Z) (carry : length_data_carry)
    (ids : FirstFrameIds) : FirstFrameIds :=
  match fuel with
  | O => ids
  | S fuel =>
      if zlen frame <=? i then ids
      else
        let '(tag, tag_ok, j) := lenient_tag_loop (zdrop i frame) i 0 true in
        if (zlen frame <=? j) || negb (zget frame j =? EQ) || negb tag_ok then
          let j := soh_from (zdrop j frame) j in
          ids_loop fuel frame (skip_soh frame j) (carry_reset carry) ids
        else
          let vstart := j + 1 in
          match read_value no_hooks carry frame vstart tag with
          | (None, _) => ids
          | (Some ext, carry) =>
              let val := zsub frame vstart (ve_end ext - vstart) in
              ids_loop fuel frame (skip_soh frame (ve_end ext)) carry (set_id tag val ids)
          end
  end.

Definition scan_first_frame_ids (frame : bytes) : FirstFrameIds :=
  ids_loop (length frame) frame 0 carry_init (FirstIds [] [] []).

(** ** The route peek *)

Definition kMsgTypeTag : Z := 35.
Definition kApplVerIdTag : Z := 1128.
Definition kMsgTypeField : Z := 3.

(** [walk_fixt_header]: [is_header_tag] is the session table's; [on_field] folds over
    the fields read.  The boolean is the walk's result. *)
Section Walk.
Context {A : Type} (s_hooks : dict_hooks) (is_header_tag : Z -> bool).
Context (on_field : Z -> Z -> bytes -> bool -> A -> A).

Fixpoint walk_loop (fuel : nat) (frame : bytes) (i : Z) (carry : length_data_carry)
    (field_no : Z) (past_stop : bool) (a : A) : bool * A :=
  match fuel with
  | O => (true, a)
  | S fuel =>
      if negb ((i <? zlen frame) && (negb past_stop || (field_no <? kMsgTypeField))) then (true, a)
      else
        let field_no := u32 (field_no + 1) in
        match read_tag frame i with
        | None => (false, a)
        | Some (wire_tag, vstart) =>
            let past_stop := past_stop ||
              negb (is_header_tag wire_tag || is_fixt_standard_header_tag wire_tag) in
            if past_stop && (kMsgTypeField <? field_no) then (true, a)
            else
              match read_value s_hooks carry frame vstart wire_tag with
              | (None, _) => (false, a)
              | (Some ext, carry) =>
                  let val := zsub frame vstart (ve_end ext - vstart) in
                  walk_loop fuel frame (skip_soh frame (ve_end ext)) carry field_no past_stop
                    (on_field field_no wire_tag val past_stop a)
              end
        end
  end.

Definition walk_fixt_header (frame : bytes) (a : A) : bool * A :=
  walk_loop (length frame) frame 0 carry_init 0 false a.

End Walk.

Record fixt_route_peek := RoutePeek {
  pk_msg_type : bytes;
  pk_appl_ver_id : bytes;
  pk_readable : bool;
  pk_admin : bool;
  pk_header_1128 : bool;
}.

Definition peek_init : fixt_route_peek := RoutePeek [] [] false false false.

Definition peek_on_field (field_no tag : Z) (value : bytes) (past_stop : bool)
    (a : fixt_route_peek * bool) : fixt_route_peek * bool :=
  let '(peek, third_is_35) := a in
  let third := (field_no =? kMsgTypeField) && (tag =? kMsgTypeTag) in
  let first_1128 := (tag =? kApplVerIdTag) && negb past_stop && negb (pk_header_1128 peek) in
  (RoutePeek (if third then value else pk_msg_type peek)
     (if first_1128 then value else pk_appl_ver_id peek)
     (pk_readable peek) (pk_admin peek) (first_1128 || pk_header_1128 peek),
   third || third_is_35).

Definition peek_fixt_route (frame : bytes) (s_hooks : dict_hooks) (is_header_tag : Z -> bool)
  : fixt_route_peek :=
  let '(read, (peek, third_is_35)) :=
    walk_fixt_header s_hooks is_header_tag peek_on_field frame (peek_init, false) in
  if negb read || negb third_is_35 then peek_init
  else RoutePeek (pk_msg_type peek) (pk_appl_ver_id peek) true
         (is_fixt_admin_msgtype (pk_msg_type peek)) (pk_header_1128 peek).

Definition fixt_header_repeats_msg_type (frame : bytes) (s_hooks : dict_hooks)
    (is_header_tag : Z -> bool) : bool :=
  (walk_fixt_header s_hooks is_header_tag
     (fun field_no tag _ _ repeated =>
        repeated || ((kMsgTypeField <? field_no) && (tag =? kMsgTypeTag))) frame false).2.

(** ** The admin message types: "0" .. "5" *)

Definition is_admin_msgtype (msg_type : bytes) : bool :=
  existsb (fun t => bool_decide (msg_type = t)) [[48]; [49]; [50]; [51]; [52]; [53]].

(** ** Specification

    The fields a strict scanner reads, in order, and the fault that stopped it with the
    previous field's tag and the offset of the field it could not read. *)
Fixpoint split_loop (fuel : nat) (hooks : dict_hooks) (frame : bytes) (i : Z)
    (carry : length_data_carry) (prev_tag : Z) : list (Z * bytes) * (field_fault * Z * Z) :=
  match fuel with
  | O => ([], (fault_none, 0, 0))
  | S fuel =>
      if zlen frame <=? i then ([], (fault_none, 0, 0))
      else
        match read_tag frame i with
        | None => ([], (malformed_tag, 0, i))
        | Some (tag, vstart) =>
            match read_value hooks carry frame vstart tag with
            | (None, _) => ([], (length_data_mismatch, prev_tag, i))
            | (Some ext, carry) =>
                let '(fs, r) := split_loop fuel hooks frame (skip_soh frame (ve_end ext)) carry tag in
                ((tag, zsub frame vstart (ve_end ext - vstart)) :: fs, r)
            end
        end
  end.

Definition split_fields (frame : bytes) (hooks : dict_hooks) : list (Z * bytes) * (field_fault * Z * Z) :=
  split_loop (length frame) hooks frame 0 carry_init 0.

(** The value of the last, or first, field with tag [t]. *)
Definition last_value (t : Z) (fs : list (Z * bytes)) (d : bytes) : bytes :=
  fold_left (fun d f => if f.1 =? t then f.2 else d) fs d.

Fixpoint first_value (t : Z) (fs : list (Z * bytes)) (d : bytes) : bytes :=
  match fs with
  | [] => d
  | f :: fs => if f.1 =? t then f.2 else first_value t fs d
  end.

(** The third field's value when its tag is 35. *)
Definition third_msg_type (fs : list (Z * bytes)) : option bytes :=
  match fs with
  | _ :: _ :: (t, v) :: _ => if t =? 35 then Some v else None
  | _ => None
  end.

(** The member that holds each scanned tag. *)
Definition header_members : list (Z * (FrameHeader -> bytes)) :=
  [(7, begin_seqno); (8, begin_string); (16, end_seqno); (34, msg_seq_num); (35, msg_type);
   (36, new_seqno); (43, poss_dup_flag); (49, sender_comp_id); (52, sending_time);
   (56, target_comp_id); (112, test_req_id); (122, orig_sending_time); (123, gap_fill_flag);
   (141, reset_seqnum_flag); (383, max_message_size); (464, test_message_indicator);
   (789, next_expected_msg_seq_num)].

(** ** Lemmas *)

Lemma read_tag_progress frame i tag vstart :
  0 <= i <= zlen frame -> read_tag frame i = Some (tag, vstart) ->
  i + 2 <= vstart <= zlen frame /\ 0 <= tag <= 0xFFFF.
Proof.
  intros Hi. unfold read_tag. destruct (tag_loop _ _ _) as [t j p| |] eqn:E; [|done..].
  apply tag_loop_inv in E as (ds & _ & Hd & -> & Ht & -> & _); [|lia].
  case_tests. intros [= <- <-]. pose proof (dec_from_mono 0 ds ltac:(lia) Hd).
  pose proof (zlen_nonneg ds). lia.
Qed.

Lemma soh_from_ge p i : i <= soh_from p i <= i + zlen p.
Proof.
  revert i. induction p as [|c p IH]; intros i; cbn [soh_from]; [rewrite zlen_nilZ; lia|].
  rewrite zlen_cons. specialize (IH (i + 1)). pose proof (zlen_nonneg p). case_tests; lia.
Qed.

Lemma read_value_end hooks carry frame vstart tag ext carry' :
  0 <= vstart <= zlen frame -> 0 <= carry_count carry ->
  read_value hooks carry frame vstart tag = (Some ext, carry') ->
  vstart <= ve_end ext <= zlen frame.
Proof.
  intros Hv Hc. unfold read_value. destruct (_ && _).
  - unfold counted_value_end. case_tests; intros [= <- _]; cbn; lia.
  - intros [= <- _]. cbn. pose proof (soh_from_ge (zdrop vstart frame) vstart) as H.
    rewrite zlen_drop in H by lia. lia.
Qed.

Lemma parse_bounded_nonneg bs : 0 <= parse_bounded_u32 bs.
Proof.
  assert (H : forall acc, 0 <= acc -> 0 <= bounded_digits 0xFFFFFFFF bs acc); [|by apply H].
  induction bs as [|c bs IH]; intros acc Ha; cbn [bounded_digits]; [done|].
  destruct (_ || _); [done|]. apply IH. unfold accumulate_bounded. cbn zeta.
  destruct (_ <? _); cbn [snd]; [lia|]. apply wrap_range. lia.
Qed.

Lemma read_value_count hooks carry frame vstart tag r carry' :
  0 <= carry_count carry -> read_value hooks carry frame vstart tag = (r, carry') ->
  0 <= carry_count carry'.
Proof.
  intros Hc. unfold read_value. 
  match goal with |- context [match ?x with Some _ => _ | None => _ end] => destruct x end;
    intros [= _ <-]; [|done].
  cbn [carry_count]. destruct (negb _); [apply parse_bounded_nonneg|done].
Qed.

Lemma skip_soh_range frame i : 0 <= i <= zlen frame -> i <= skip_soh frame i <= zlen frame.
Proof. unfold skip_soh. case_tests; lia. Qed.

(** More fuel than bytes changes nothing. *)
Lemma split_fuel fuel fuel' hooks frame i carry prev :
  0 <= i <= zlen frame -> 0 <= carry_count carry ->
  zlen frame - i <= Z.of_nat fuel -> zlen frame - i <= Z.of_nat fuel' ->
  split_loop fuel hooks frame i carry prev = split_loop fuel' hooks frame i carry prev.
Proof.
  revert fuel' i carry prev. induction fuel as [|fuel IH]; intros fuel' i carry prev Hi Hc Hf Hf'.
  - destruct fuel'; cbn; [done|]. by replace (zlen frame <=? i) with true by lia.
  - destruct fuel' as [|fuel']; cbn [split_loop].
    { by replace (zlen frame <=? i) with true by lia. }
    destruct (zlen frame <=? i) eqn:E; [done|].
    destruct (read_tag frame i) as [[tag vstart]|] eqn:Et; [|done].
    apply read_tag_progress in Et as [Hv _]; [|done].
    destruct (read_value hooks carry frame vstart tag) as [[ext|] carry'] eqn:Er; [|done].
    assert (vstart <= ve_end ext <= zlen frame) by (eapply read_value_end; [|exact Hc|exact Er]; lia).
    pose proof (read_value_count _ _ _ _ _ _ _ Hc Er).
    pose proof (skip_soh_range frame (ve_end ext) ltac:(lia)).
    by rewrite (IH fuel') by lia.
Qed.

(** *** The header is a fold over the fields *)

Fixpoint header_of (field_no : Z) (seen_34 : bool) (fs : list (Z * bytes)) (h : FrameHeader)
  : FrameHeader :=
  match fs with
  | [] => h
  | (tag, val) :: fs =>
      header_of (u32 (field_no + 1)) (seen_34 || (tag =? 34)) fs
        (set_field (u32 (field_no + 1)) seen_34 tag val h)
  end.

Definition set_fault (r : field_fault * Z * Z) (h : FrameHeader) : FrameHeader :=
  let '(kind, length_tag, off) := r in
  match kind with fault_none => h | _ => record_fault kind length_tag off h end.

Lemma scan_loop_split fuel hooks frame i carry prev field_no seen h :
  fault_length_tag h = 0 ->
  scan_loop fuel hooks frame i carry prev field_no seen h =
  let '(fs, r) := split_loop fuel hooks frame i carry prev in
  set_fault r (header_of field_no seen fs h).
Proof.
  revert i carry prev field_no seen h.
  induction fuel as [|fuel IH]; intros i carry prev field_no seen h Hh; cbn [scan_loop split_loop]; [done|].
  destruct (zlen frame <=? i); [done|].
  destruct (read_tag frame i) as [[tag vstart]|]; [|by cbn; rewrite Hh].
  destruct (read_value hooks carry frame vstart tag) as [[ext|] carry']; [|done].
  rewrite IH by done. by destruct (split_loop _ _ _ _ _ _) as [fs r].
Qed.

Lemma header_of_members field_no seen fs h :
  Forall (fun '(t, m) => m (header_of field_no seen fs h) = last_value t fs (m h)) header_members.
Proof.
  revert field_no seen h. induction fs as [|[tag val] fs IH]; intros field_no seen h; cbn [header_of].
  - repeat constructor.
  - specialize (IH (u32 (field_no + 1)) (seen || (tag =? 34)) (set_field (u32 (field_no + 1)) seen tag val h)).
    unfold last_value, header_members in *. cbn [fold_left fst snd].
    rewrite !Forall_cons, !Forall_nil in *. exact IH.
Qed.

Lemma header_of_789 field_no seen fs h :
  next_expected_present (header_of field_no seen fs h) =
  existsb (fun f => f.1 =? 789) fs || next_expected_present h.
Proof.
  revert field_no seen h. induction fs as [|[tag val] fs IH]; intros field_no seen h; cbn [header_of existsb]; [done|].
  rewrite IH. cbn. by rewrite orb_comm, <- orb_assoc, (orb_comm (next_expected_present h)), orb_assoc, orb_comm, orb_assoc, orb_comm.
Qed.

Lemma header_of_first_34 field_no (seen : bool) fs h :
  fault_ref_seq_num (header_of field_no seen fs h) =
  if seen then fault_ref_seq_num h else first_value 34 fs (fault_ref_seq_num h).
Proof.
  revert field_no seen h. induction fs as [|[tag val] fs IH]; intros field_no seen h; cbn [header_of first_value].
  - by destruct seen.
  - rewrite IH. cbn. destruct seen, (tag =? 34); done.
Qed.

Lemma header_of_fault field_no seen fs h :
  fault (header_of field_no seen fs h) = fault h /\
  fault_length_tag (header_of field_no seen fs h) = fault_length_tag h /\
  fault_offset (header_of field_no seen fs h) = fault_offset h.
Proof.
  revert field_no seen h. induction fs as [|[tag val] fs IH]; intros; cbn [header_of]; [done|].
  edestruct IH as (-> & -> & ->). done.
Qed.

(** Past the third field the positional members are settled. *)
Lemma header_of_late field_no seen fs h :
  3 <= field_no -> field_no + zlen fs <= UINT32_MAX ->
  msg_type_is_third (header_of field_no seen fs h) = msg_type_is_third h /\
  fault_ref_msg_type (header_of field_no seen fs h) = fault_ref_msg_type h.
Proof.
  unfold UINT32_MAX. revert field_no seen h.
  induction fs as [|[tag val] fs IH]; intros field_no seen h Hn Hl; cbn [header_of]; [done|].
  rewrite zlen_cons in Hl. pose proof (zlen_nonneg fs). rewrite wrap_small by lia.
  destruct (IH (field_no + 1) (seen || (tag =? 34)) (set_field (field_no + 1) seen tag val h)) as [-> ->]; [lia..|].
  cbn. by replace (field_no + 1 =? 3) with false by lia; rewrite andb_false_r.
Qed.

Lemma header_of_third fs : zlen fs <= UINT32_MAX ->
  msg_type_is_third (header_of 0 false fs header_init) = negb (bool_decide (third_msg_type fs = None)) /\
  fault_ref_msg_type (header_of 0 false fs header_init) = default [] (third_msg_type fs).
Proof.
  intros Hl. destruct fs as [|[t1 v1] [|[t2 v2] [|[t3 v3] fs]]].
  1-3: cbn [header_of]; unfold set_field; change (u32 (0 + 1) =? 3) with false;
    change (u32 (u32 (0 + 1) + 1) =? 3) with false; rewrite ?andb_false_r; done.
  rewrite !zlen_cons in Hl. cbn [header_of].
  set (h3 := set_field _ _ t3 v3 _).
  destruct (header_of_late (u32 (u32 (u32 (0 + 1) + 1) + 1)) (((false || (t1 =? 34)) || (t2 =? 34)) || (t3 =? 34)) fs h3) as [-> ->].
  - by vm_compute.
  - change (u32 (u32 (u32 (0 + 1) + 1) + 1)) with 3. lia.
  - unfold h3, set_field. cbn [msg_type_is_third fault_ref_msg_type header_init].
    change (u32 (0 + 1) =? 3) with false. change (u32 (u32 (0 + 1) + 1) =? 3) with false.
    rewrite !andb_false_r. change (u32 (u32 (u32 (0 + 1) + 1) + 1) =? 3) with true.
    rewrite andb_true_r. unfold third_msg_type. destruct (t3 =? 35); done.
Qed.

(** *** The other scanners over the same fields *)

Fixpoint walk_list {A} (is_header_tag : Z -> bool) (on_field : Z -> Z -> bytes -> bool -> A -> A)
    (fs : list (Z * bytes)) (field_no : Z) (past_stop : bool) (a : A) : A :=
  match fs with
  | [] => a
  | (tag, val) :: fs =>
      if past_stop && negb (field_no <? kMsgTypeField) then a
      else
        let field_no := u32 (field_no + 1) in
        let past_stop := past_stop || negb (is_header_tag tag || is_fixt_standard_header_tag tag) in
        if past_stop && (kMsgTypeField <? field_no) then a
        else walk_list is_header_tag on_field fs field_no past_stop (on_field field_no tag val past_stop a)
  end.

Lemma walk_loop_split {A} hooks is_header_tag (on_field : Z -> Z -> bytes -> bool -> A -> A)
    fuel frame i carry prev field_no past_stop a :
  (split_loop fuel hooks frame i carry prev).2.1.1 = fault_none ->
  walk_loop hooks is_header_tag on_field fuel frame i carry field_no past_stop a =
  (true, walk_list is_header_tag on_field (split_loop fuel hooks frame i carry prev).1 field_no past_stop a).
Proof.
  revert i carry prev field_no past_stop a.
  induction fuel as [|fuel IH]; intros i carry prev field_no past_stop a; cbn [walk_loop split_loop]; [done|].
  replace (i <? zlen frame) with (negb (zlen frame <=? i)) by lia.
  destruct (zlen frame <=? i); [done|]. cbn [negb andb].
  destruct (read_tag frame i) as [[tag vstart]|]; [|done].
  destruct (read_value hooks carry frame vstart tag) as [[ext|] carry']; [|done].
  specialize (IH (skip_soh frame (ve_end ext)) carry' tag).
  destruct (split_loop fuel hooks frame _ carry' tag) as [fs r]. cbn [fst snd] in *. intros Hr.
  cbn [walk_list]. replace (past_stop && negb (field_no <? kMsgTypeField))
    with (negb (negb past_stop || (field_no <? kMsgTypeField))) by (by destruct past_stop).
  destruct (negb (negb past_stop || (field_no <? kMsgTypeField))); [done|].
  destruct (_ && _); [done|]. by apply IH.
Qed.

Lemma peek_on_field_other n tag val past_stop pk b : n <> 3 ->
  exists pk', peek_on_field n tag val past_stop (pk, b) = (pk', b) /\ pk_msg_type pk' = pk_msg_type pk.
Proof.
  intros Hn. cbn [peek_on_field]. unfold kMsgTypeField. replace (n =? 3) with false by lia.
  cbn [andb orb]. by eexists.
Qed.

Lemma walk_list_early {A} is_header_tag (on_field : Z -> Z -> bytes -> bool -> A -> A) tag val fs n ps a :
  0 <= n < 3 -> walk_list is_header_tag on_field ((tag, val) :: fs) n ps a =
  let ps := ps || negb (is_header_tag tag || is_fixt_standard_header_tag tag) in
  walk_list is_header_tag on_field fs (n + 1) ps (on_field (n + 1) tag val ps a).
Proof.
  intros Hn. cbn [walk_list]. unfold kMsgTypeField. rewrite wrap_small by lia.
  replace (n <? 3) with true by lia. replace (3 <? n + 1) with false by lia. by rewrite !andb_false_r.
Qed.

(** Past the third field the peek's message type is settled. *)
Lemma peek_list_late is_header_tag fs field_no past_stop pk b :
  3 <= field_no -> field_no + zlen fs <= UINT32_MAX ->
  (walk_list is_header_tag peek_on_field fs field_no past_stop (pk, b)).2 = b /\
  pk_msg_type (walk_list is_header_tag peek_on_field fs field_no past_stop (pk, b)).1 = pk_msg_type pk.
Proof.
  unfold UINT32_MAX. revert field_no past_stop pk.
  induction fs as [|[tag val] fs IH]; intros field_no past_stop pk Hn Hl; [done|]. cbn [walk_list].
  rewrite zlen_cons in Hl. pose proof (zlen_nonneg fs). rewrite wrap_small by lia.
  destruct (_ && _); [done|]. set (ps := past_stop || _). destruct (_ && _); [done|].
  destruct (peek_on_field_other (field_no + 1) tag val ps pk b) as (pk' & -> & <-); [lia|].
  apply IH; lia.
Qed.

Lemma peek_list_third is_header_tag fs : zlen fs <= UINT32_MAX ->
  (walk_list is_header_tag peek_on_field fs 0 false (peek_init, false)).2 =
    negb (bool_decide (third_msg_type fs = None)) /\
  pk_msg_type (walk_list is_header_tag peek_on_field fs 0 false (peek_init, false)).1 =
    default [] (third_msg_type fs).
Proof.
  intros Hl. destruct fs as [|[t1 v1] fs]; [done|]. rewrite walk_list_early by lia. cbn zeta.
  set (ps1 := false || _).
  destruct (peek_on_field_other (0 + 1) t1 v1 ps1 peek_init false) as (pk1 & -> & E1); [lia|].
  destruct fs as [|[t2 v2] fs]; [by cbn; rewrite E1|]. rewrite walk_list_early by lia. cbn zeta.
  set (ps2 := ps1 || _).
  destruct (peek_on_field_other (0 + 1 + 1) t2 v2 ps2 pk1 false) as (pk2 & -> & E2); [lia|].
  destruct fs as [|[t3 v3] fs]; [by cbn; rewrite E2, E1|]. rewrite walk_list_early by lia. cbn zeta.
  cbn [peek_on_field]. unfold kMsgTypeField. replace (0 + 1 + 1 + 1 =? 3) with true by lia.
  rewrite !zlen_cons in Hl. cbn [andb].
  match goal with |- context [walk_list _ _ _ _ ?ps (?pk, ?b)] =>
    destruct (peek_list_late is_header_tag fs (0 + 1 + 1 + 1) ps pk b) as [-> ->]; [lia|lia|] end.
  unfold third_msg_type, kMsgTypeTag. cbn [pk_msg_type]. rewrite E2, E1. by destruct (t3 =? 35).
Qed.

Lemma lenient_of_strict p i t t' j q :
  tag_loop p i t = tag_end t' j q -> lenient_tag_loop p i t true = (t', true, j).
Proof.
  revert i t. induction p as [|c p IH]; intros i t; cbn [tag_loop lenient_tag_loop].
  - by intros [= <- <- _].
  - destruct (_ || _); [by intros [= <- <- _]|]. destruct (_ || _); [done|].
    destruct (accumulate_tag_digit t c) as [[] ?]; [|done]. apply IH.
Qed.

Lemma ids_loop_split fuel frame i carry prev ids :
  (split_loop fuel no_hooks frame i carry prev).2.1.1 = fault_none ->
  ids_loop fuel frame i carry ids =
  fold_left (fun ids f => set_id f.1 f.2 ids) (split_loop fuel no_hooks frame i carry prev).1 ids.
Proof.
  revert i carry prev ids. induction fuel as [|fuel IH]; intros i carry prev ids; cbn [ids_loop split_loop]; [done|].
  destruct (zlen frame <=? i); [done|].
  destruct (read_tag frame i) as [[tag vstart]|] eqn:Et; [|done].
  unfold read_tag in Et. destruct (tag_loop _ _ _) as [t j q| |] eqn:El; [|done..].
  rewrite (lenient_of_strict _ _ _ _ _ _ El).
  destruct ((zlen frame <=? j) || negb (zget frame j =? EQ)) eqn:Ej; [done|]. cbn [orb] in *.
  destruct (j =? i); [done|]. injection Et as -> <-. cbn [orb negb].
  destruct (read_value no_hooks carry frame (j + 1) tag) as [[ext|] carry']; [|done].
  specialize (IH (skip_soh frame (ve_end ext)) carry' tag).
  destruct (split_loop fuel no_hooks frame _ carry' tag) as [fs r]. cbn [fst snd fold_left] in *.
  intros Hr. by apply IH.
Qed.

Lemma fold_ids fs ids :
  fold_left (fun ids f => set_id f.1 f.2 ids) fs ids =
  FirstIds (last_value 8 fs (ids_begin_string ids)) (last_value 49 fs (ids_sender_comp_id ids))
    (last_value 56 fs (ids_target_comp_id ids)).
Proof.
  revert ids. induction fs as [|[tag val] fs IH]; intros ids; [by destruct ids|].
  cbn [fold_left]. rewrite IH. unfold last_value. done.
Qed.

(** *** Fields the checker accepts are read back *)

(** The carry is armed exactly as the checker is. *)
Definition armed_alike (h : dict_hooks) (k : length_data_checker) (c : length_data_carry) : Prop :=
  failed k = false /\
  (awaited_data k <> 0 -> carry_data_tag c = awaited_data k /\ carry_count c = awaited_len k) /\
  (awaited_data k = 0 -> carry_data_tag c = 0 \/ length_tag_for_data h (carry_data_tag c) <> 0).

Lemma read_tag_at pre tag v rest : 0 <= tag <= 0xFFFF ->
  read_tag (pre ++ field_text tag v ++ rest) (zlen pre) =
    Some (tag, zlen pre + zlen (dec_text tag) + 1).
Proof.
  intros Ht. unfold read_tag. rewrite zdrop_app. unfold field_text. rewrite <- app_assoc.
  set (tl := (EQ :: v ++ [SOH]) ++ rest).
  rewrite tag_loop_digits by (done || apply dec_text_digits).
  fold (dec_value (dec_text tag)). rewrite dec_text_value by (unfold UINT32_MAX; lia).
  replace (tag <=? 0xFFFF) with true by lia.
  pose proof (dec_text_nonempty tag ltac:(unfold UINT32_MAX; lia)). pose proof (zlen_nonneg pre).
  assert (Hl : 0 < zlen tl) by (unfold tl; cbn [app]; rewrite zlen_cons; pose_zlen; lia).
  change (tag_loop tl (zlen pre + zlen (dec_text tag)) tag)
    with (tag_end tag (zlen pre + zlen (dec_text tag)) tl).
  rewrite !zlen_app. replace (_ <=? zlen pre + zlen (dec_text tag)) with false by lia.
  assert (Hg : zget (pre ++ dec_text tag ++ tl) (zlen pre + zlen (dec_text tag)) = EQ).
  { rewrite zget_at by lia. rewrite <- (Z.add_0_r (zlen (dec_text tag))), zget_at by lia. done. }
  rewrite Hg. replace (zlen pre + zlen (dec_text tag) =? zlen pre) with false by lia. done.
Qed.

Lemma value_place pre tag v rest :
  let vs := zlen pre + zlen (dec_text tag) + 1 in
  zdrop vs (pre ++ field_text tag v ++ rest) = v ++ SOH :: rest.
Proof.
  intros vs. replace (pre ++ field_text tag v ++ rest)
    with ((pre ++ dec_text tag ++ [EQ]) ++ v ++ SOH :: rest).
  - replace vs with (zlen (pre ++ dec_text tag ++ [EQ])); [apply zdrop_app|].
    unfold vs. rewrite !zlen_app. change (zlen [EQ]) with 1. lia.
  - unfold field_text. rewrite <- !app_assoc. cbn [app]. by rewrite <- ?app_assoc.
Qed.

Lemma read_value_counted h c buf vs tag v rest :
  carry_data_tag c = tag -> tag <> 0 -> carry_count c = zlen v -> 0 <= vs <= zlen buf ->
  zdrop vs buf = v ++ SOH :: rest ->
  read_value h c buf vs tag =
    (Some (ValueExtent (vs + zlen v) true),
     Carry (data_tag_for_length h tag)
       (if negb (data_tag_for_length h tag =? 0) then parse_bounded_u32 v else carry_count c)).
Proof.
  intros Htag Ht Hc Hvs Hd. unfold read_value. rewrite Htag, Z.eqb_refl.
  replace (negb (tag =? 0)) with true by lia. cbn [andb].
  assert (Hl : zlen buf = vs + zlen v + 1 + zlen rest).
  { apply (f_equal zlen) in Hd. rewrite zlen_drop, zlen_app, zlen_cons in Hd by lia. lia. }
  pose proof (zlen_nonneg v). pose proof (zlen_nonneg rest).
  unfold counted_value_end. rewrite Hc.
  replace (zlen buf <? vs) with false by lia. replace (zlen buf - vs <=? zlen v) with false by lia.
  cbn [orb]. assert (Hg : zget buf (vs + zlen v) = SOH).
  { rewrite <- zget_drop, Hd by lia. rewrite <- (Z.add_0_r (zlen v)), zget_at by lia. done. }
  rewrite Hg. change (negb (SOH =? SOH)) with false. cbn iota.
  replace (vs + zlen v - vs) with (zlen v) by lia. unfold zsub. by rewrite Hd, ztake_app.
Qed.

Lemma read_value_plain h c buf vs tag v rest :
  carry_data_tag c = 0 \/ carry_data_tag c <> tag -> SOH ∉ v -> 0 <= vs <= zlen buf ->
  zdrop vs buf = v ++ SOH :: rest ->
  read_value h c buf vs tag =
    (Some (ValueExtent (vs + zlen v) false),
     Carry (data_tag_for_length h tag)
       (if negb (data_tag_for_length h tag =? 0) then parse_bounded_u32 v else carry_count c)).
Proof.
  intros Hc Hv Hvs Hd. unfold read_value.
  replace (negb (carry_data_tag c =? 0) && (carry_data_tag c =? tag)) with false by lia.
  rewrite Hd, soh_from_at by done. replace (vs + zlen v - vs) with (zlen v) by lia.
  unfold zsub. by rewrite Hd, ztake_app.
Qed.

(** The checker's verdict on a field, case by case. *)
Inductive observed (h : dict_hooks) (k : length_data_checker) (tag : Z) (v : bytes)
  : length_data_checker -> Prop :=
  | observed_data (Ha : awaited_data k <> 0) (Ht : tag = awaited_data k) (Hv : zlen v = awaited_len k) :
      observed h k tag v (Checker 0 (awaited_len k) false)
  | observed_length (Ha : awaited_data k = 0) (Hn : length_tag_for_data h tag = 0)
      (Hd : data_tag_for_length h tag <> 0) (Hv : digits v) (Hm : dec_value v <= UINT32_MAX) :
      observed h k tag v (Checker (data_tag_for_length h tag) (dec_value v) false)
  | observed_plain (Ha : awaited_data k = 0) (Hn : length_tag_for_data h tag = 0)
      (Hd : data_tag_for_length h tag = 0) : observed h k tag v k.

Lemma observe_cases h k tag v k' : failed k = false ->
  observe h k tag v = (true, k') -> observed h k tag v k'.
Proof.
  intros Hf. unfold observe. rewrite Hf.
  destruct (awaited_data k =? 0) eqn:Ea; cbn [negb].
  - destruct (length_tag_for_data h tag =? 0) eqn:El; cbn [negb]; [|done].
    destruct (data_tag_for_length h tag =? 0) eqn:Ed; [intros [= <-]; by apply observed_plain; lia|].
    destruct (zlen v =? 0); [done|]. destruct (checked_count v 0) as [n|] eqn:Ec; [|done].
    destruct (n =? 0); [done|]. intros [= <-].
    apply checked_count_spec in Ec as (Hv & -> & Hm); [|unfold UINT32_MAX; lia].
    apply observed_length; (done || lia).
  - intros [= Hok <-]. rewrite Hok. apply observed_data; lia.
Qed.

(** One accepted field behind [pre]: its value is read whole, and the carry stays armed as
    the checker is. *)
Lemma observed_read h k c pre tag v rest k2 : hooks_ok h -> armed_alike h k c ->
  0 <= tag <= 0xFFFF -> (length_tag_for_data h tag = 0 -> SOH ∉ v) ->
  observe h k tag v = (true, k2) ->
  let vs := zlen pre + zlen (dec_text tag) + 1 in
  exists e cnt, read_value h c (pre ++ field_text tag v ++ rest) vs tag =
      (Some (ValueExtent (vs + zlen v) e), Carry (data_tag_for_length h tag) cnt) /\
    armed_alike h k2 (Carry (data_tag_for_length h tag) cnt).
Proof.
  intros Hh (Hf & Ha & Hna) Ht Hs Eo vs. set (frame := pre ++ field_text tag v ++ rest).
  assert (Hvd : zdrop vs frame = v ++ SOH :: rest) by apply value_place.
  assert (Hlen : zlen frame = zlen pre + zlen (dec_text tag) + zlen v + 2 + zlen rest).
  { unfold frame. rewrite !zlen_app, zlen_field_text. lia. }
  pose proof (zlen_nonneg pre). pose proof (zlen_nonneg (dec_text tag)). pose proof (zlen_nonneg v).
  pose proof (zlen_nonneg rest).
  assert (Hplain : awaited_data k = 0 -> length_tag_for_data h tag = 0 ->
    exists cnt, read_value h c frame vs tag =
      (Some (ValueExtent (vs + zlen v) false), Carry (data_tag_for_length h tag) cnt) /\
      (data_tag_for_length h tag <> 0 -> cnt = parse_bounded_u32 v)).
  { intros Ha' Hn. eexists. split; [eapply read_value_plain; [|by apply Hs|lia|exact Hvd]|].
    - destruct (Hna Ha') as [|Hc]; [by left|right; congruence].
    - intros Hd. by replace (negb (data_tag_for_length h tag =? 0)) with true by lia. }
  apply observe_cases in Eo; [|exact Hf]. destruct Eo as [Ha' -> Hv|Ha' Hn Hd Hv Hm|Ha' Hn Hd].
  - destruct (Ha Ha') as [E1 E2]. do 2 eexists.
    split; [eapply read_value_counted; try done; lia|].
    split; [done|]. split; [done|]. intros _. cbn [carry_data_tag].
    destruct (decide (data_tag_for_length h (awaited_data k) = 0)) as [|Hne]; [by left|right].
    by rewrite (proj1 (hooks_inverse h (awaited_data k) _ Hh Ht (data_tag_range _ _ Hh) Ha' Hne) eq_refl).
  - destruct (Hplain Ha' Hn) as (cnt & E & Ec). do 2 eexists. split; [exact E|].
    rewrite (Ec Hd), parse_digits_exact by done. split; [done|]. split; [done|]. intros ?. done.
  - destruct (Hplain Ha' Hn) as (cnt & E & _). do 2 eexists. split; [exact E|].
    split; [done|]. split; [done|]. intros _. by left.
Qed.

Lemma split_loop_fields h fs : hooks_ok h -> forall fuel pre k c prev k',
  observe_all h k fs = Some k' -> awaited_data k' = 0 -> failed k' = false ->
  armed_alike h k c -> Forall (fun f => 0 <= f.1 <= 0xFFFF) fs ->
  Forall (fun f => length_tag_for_data h f.1 = 0 -> SOH ∉ f.2) fs ->
  (length fs <= fuel)%nat ->
  split_loop fuel h (pre ++ fields_bytes fs) (zlen pre) c prev = (fs, (fault_none, 0, 0)).
Proof.
  intros Hh. induction fs as [|[tag v] fs IH]; intros fuel pre k c prev k' Ho Hk1 Hk2 Harm Ht Hs Hfuel.
  - cbn in Hfuel. change (fields_bytes []) with (@nil Z). rewrite app_nil_r.
    destruct fuel; cbn [split_loop]; [done|]. by rewrite Z.leb_refl.
  - destruct fuel as [|fuel]; [cbn in Hfuel; lia|].
    apply Forall_cons in Ht as [Ht Hts]. apply Forall_cons in Hs as [Hs Hss]. cbn [fst snd] in Ht, Hs.
    rewrite fields_bytes_cons. set (rest := fields_bytes fs).
    cbn [observe_all] in Ho. destruct (observe h k tag v) as [ok k2] eqn:Eo. destruct ok; [|done].
    destruct (observed_read h k c pre tag v rest k2 Hh Harm Ht Hs Eo) as (e & cnt & Er & Harm').
    cbn [split_loop]. set (frame := pre ++ field_text tag v ++ rest) in *.
    set (vs := zlen pre + zlen (dec_text tag) + 1) in *.
    assert (Hvd : zdrop vs frame = v ++ SOH :: rest) by apply value_place.
    assert (Hlen : zlen frame = zlen pre + zlen (dec_text tag) + zlen v + 2 + zlen rest).
    { unfold frame. rewrite !zlen_app, zlen_field_text. lia. }
    pose proof (zlen_nonneg (dec_text tag)). pose proof (zlen_nonneg v). pose proof (zlen_nonneg rest).
    replace (zlen frame <=? zlen pre) with false by lia.
    assert (Hrt : read_tag frame (zlen pre) = Some (tag, vs)) by (by apply read_tag_at).
    rewrite Hrt, Er. cbn [ve_end]. unfold skip_soh.
    replace (vs + zlen v <? zlen frame) with true by lia.
    assert (Ef : frame = (pre ++ field_text tag v) ++ rest) by apply app_assoc.
    rewrite Ef. replace (vs + zlen v + 1) with (zlen (pre ++ field_text tag v))
      by (rewrite zlen_app, zlen_field_text; lia).
    rewrite (IH fuel _ k2 _ _ k') by (done || (cbn in Hfuel; lia)).
    rewrite <- Ef. replace (vs + zlen v - vs) with (zlen v) by lia.
    unfold zsub. by rewrite Hvd, ztake_app.
Qed.

Lemma fields_bytes_length fs : zlen fs <= zlen (fields_bytes fs).
Proof.
  induction fs as [|[tag v] fs IH]; [done|].
  rewrite fields_bytes_cons, zlen_app, zlen_cons, zlen_field_text. pose_zlen. lia.
Qed.

(** Everything a message of the writer's shape must satisfy for the walk to read it. *)
Record conforming (h : dict_hooks) (fs : list (Z * bytes)) : Prop := Conforming {
  conforming_hooks : hooks_ok h;
  conforming_container : container_conforms h fs = true;
  conforming_tags : Forall (fun f => 0 <= f.1 <= 0xFFFF) fs;
  conforming_values : Forall (fun f => length_tag_for_data h f.1 = 0 -> SOH ∉ f.2) fs;
}.

Lemma split_conforming h fs : hooks_ok h ->
  container_conforms h fs = true -> Forall (fun f => 0 <= f.1 <= 0xFFFF) fs ->
  Forall (fun f => length_tag_for_data h f.1 = 0 -> SOH ∉ f.2) fs ->
  split_fields (fields_bytes fs) h = (fs, (fault_none, 0, 0)).
Proof.
  intros Hh Hc Ht Hs. unfold container_conforms in Hc.
  destruct (observe_all h checker_init fs) as [k'|] eqn:Eo; [|done]. cbn in Hc.
  apply andb_true_iff in Hc as [Hf Ha].
  apply (split_loop_fields h fs Hh _ [] checker_init carry_init 0 k'); try done.
  - lia.
  - by apply negb_true_iff.
  - split; [done|]. split; [done|]. by left.
  - pose proof (fields_bytes_length fs). unfold zlen in *. lia.
Qed.

(** The walk reads at most one field per two bytes, and stops inside the frame. *)
Lemma split_loop_bounds fuel hooks frame i carry prev fs kind lt off :
  0 <= i <= zlen frame -> 0 <= carry_count carry ->
  split_loop fuel hooks frame i carry prev = (fs, (kind, lt, off)) ->
  zlen fs <= zlen frame - i /\ 0 <= off <= zlen frame /\
  (kind = fault_none -> lt = 0 /\ off = 0).
Proof.
  revert i carry prev fs. induction fuel as [|fuel IH]; intros i carry prev fs Hi Hc; cbn [split_loop].
  - intros [= <- <- <- <-]. rewrite zlen_nil. lia.
  - destruct (zlen frame <=? i) eqn:E; [intros [= <- <- <- <-]; rewrite zlen_nil; lia|].
    destruct (read_tag frame i) as [[tag vstart]|] eqn:Et;
      [|intros [= <- <- <- <-]; rewrite zlen_nil; split_and!; (lia || done)].
    apply read_tag_progress in Et as [Hv _]; [|done].
    destruct (read_value hooks carry frame vstart tag) as [[ext|] carry'] eqn:Er;
      [|intros [= <- <- <- <-]; rewrite zlen_nil; split_and!; (lia || done)].
    assert (vstart <= ve_end ext <= zlen frame) by (eapply read_value_end; [|exact Hc|exact Er]; lia).
    pose proof (read_value_count _ _ _ _ _ _ _ Hc Er).
    pose proof (skip_soh_range frame (ve_end ext) ltac:(lia)).
    destruct (split_loop fuel hooks frame _ carry' tag) as [fs' r] eqn:Es.
    intros [= <- ->]. apply IH in Es as (? & ? & ?); [|lia|done]. rewrite zlen_cons. split_and!; (lia || done).
Qed.

Lemma split_fields_bounds frame hooks fs kind lt off :
  split_fields frame hooks = (fs, (kind, lt, off)) ->
  zlen fs <= zlen frame /\ 0 <= off <= zlen frame /\ (kind = fault_none -> lt = 0 /\ off = 0).
Proof.
  intros H. apply split_loop_bounds in H; [|pose_zlen; lia|done]. by rewrite Z.sub_0_r in H.
Qed.

Lemma scan_header_fold frame hooks :
  scan_frame_header frame hooks =
  set_fault (split_fields frame hooks).2 (header_of 0 false (split_fields frame hooks).1 header_init).
Proof.
  unfold scan_frame_header, split_fields. rewrite scan_loop_split by done. by destruct (split_loop _ _ _ _ _ _).
Qed.

Lemma set_fault_keeps r h :
  Forall (fun '(t, m) => m (set_fault r h) = m h) header_members /\
  next_expected_present (set_fault r h) = next_expected_present h /\
  fault_ref_seq_num (set_fault r h) = fault_ref_seq_num h /\
  msg_type_is_third (set_fault r h) = msg_type_is_third h /\
  fault_ref_msg_type (set_fault r h) = fault_ref_msg_type h.
Proof. destruct r as [[[] ?] ?]; repeat constructor. Qed.

Lemma scan_header_facts frame hooks :
  zlen frame <= UINT32_MAX ->
  let '(fs, (kind, length_tag, off)) := split_fields frame hooks in
  let h := scan_frame_header frame hooks in
  Forall (fun '(t, member) => member h = last_value t fs []) header_members /\
  next_expected_present h = existsb (fun f => f.1 =? 789) fs /\
  fault_ref_seq_num h = first_value 34 fs [] /\
  msg_type_is_third h = negb (bool_decide (third_msg_type fs = None)) /\
  fault_ref_msg_type h = default [] (third_msg_type fs) /\
  fault h = kind /\ fault_length_tag h = length_tag /\ fault_offset h = off.
Proof.
  intros Hl. rewrite scan_header_fold.
  destruct (split_fields frame hooks) as [fs [[kind lt] off]] eqn:Es. cbn [fst snd]. cbn zeta.
  apply split_fields_bounds in Es as (Hn & Ho & Hk).
  destruct (set_fault_keeps (kind, lt, off) (header_of 0 false fs header_init)) as (K1 & -> & -> & -> & ->).
  destruct (header_of_third fs ltac:(lia)) as [-> ->].
  destruct (header_of_fault 0 false fs header_init) as (F1 & F2 & F3).
  rewrite header_of_789, header_of_first_34. cbn [next_expected_present header_init]. rewrite orb_false_r.
  split; [|do 4 (split; [done|])].
  - pose proof (header_of_members 0 false fs header_init) as M.
    assert (D : Forall (fun '(t, m) => m header_init = []) header_members) by repeat constructor.
    rewrite Forall_forall in *. intros [t m] Hin. specialize (D _ Hin). cbn in D.
    etransitivity; [exact (K1 _ Hin)|]. etransitivity; [exact (M _ Hin)|]. by rewrite D.
  - unfold UINT32_MAX in *. destruct kind; cbn [set_fault record_fault fault fault_length_tag fault_offset].
    + destruct (Hk eq_refl) as [-> ->]. by rewrite F1, F2, F3.
    + by rewrite wrap_small by lia.
    + by rewrite wrap_small by lia.
Qed.

(** ** Properties *)

(** The header is the frame's fields.  Whatever the dictionary, each member of the
    header scanned from a frame is the value of the last field with its tag among the
    fields read, 789 is present iff one of them carries it, the reject's reference
    sequence number is the first 34 and its message type the third field's when that is
    35, and the recorded fault is the one that stopped the walk, with the previous tag
    and the offset of the field. *)
Theorem scan_frame_header_spec frame hooks :
  zlen frame <= UINT32_MAX ->
  let '(fs, (kind, length_tag, off)) := split_fields frame hooks in
  let h := scan_frame_header frame hooks in
  Forall (fun '(t, member) => member h = last_value t fs []) header_members /\
  next_expected_present h = existsb (fun f => f.1 =? 789) fs /\
  fault_ref_seq_num h = first_value 34 fs [] /\
  msg_type_is_third h = negb (bool_decide (third_msg_type fs = None)) /\
  fault_ref_msg_type h = default [] (third_msg_type fs) /\
  fault h = kind /\ fault_length_tag h = length_tag /\ fault_offset h = off.
Proof. apply scan_header_facts. Qed.

(** [8=F|9=0|35=D|49=A|34=7|x=1]: the walk stops at the bad tag of the sixth field. *)
Lemma scan_frame_header_spec_witness :
  let frame := [56;61;70;1; 57;61;48;1; 51;53;61;68;1; 52;57;61;65;1; 51;52;61;55;1; 120;61;49] in
  let h := scan_frame_header frame no_hooks in
  sender_comp_id h = [65] /\ fault_ref_msg_type h = [68] /\ fault h = malformed_tag /\ fault_offset h = 23.
Proof.
  intros frame h. pose proof (scan_frame_header_spec frame no_hooks ltac:(by vm_compute)) as H.
  assert (E : split_fields frame no_hooks =
    ([(8, [70]); (9, [48]); (35, [68]); (49, [65]); (34, [55])], (malformed_tag, 0, 23))) by by vm_compute.
  rewrite E in H. cbn zeta in H. fold h in H. destruct H as (Hm & _ & _ & _ & H35 & Hf & _ & Ho).
  unfold header_members in Hm. rewrite !Forall_cons in Hm. split_and!; [|done..].
  etransitivity; [apply Hm|]. by vm_compute.
Defined.

(** The fields of a committed frame, in wire order. *)
Definition frame_fields (begin_string : bytes) (fs : list (Z * bytes)) : list (Z * bytes) :=
  let body := fields_bytes fs in
  let summed := field_text 8 begin_string ++ field_text 9 (dec_text (zlen body)) ++ body in
  (8, begin_string) :: (9, dec_text (zlen body)) :: fs ++ [(10, fixed_digits 3 (sum_mod_256 summed))].

Lemma fields_bytes_app a b : fields_bytes (a ++ b) = fields_bytes a ++ fields_bytes b.
Proof. unfold fields_bytes. by rewrite map_app, concat_app. Qed.

Lemma frame_text_fields begin_string fs :
  frame_text begin_string fs = fields_bytes (frame_fields begin_string fs).
Proof.
  unfold frame_text, frame_fields. cbn zeta. rewrite !fields_bytes_cons, fields_bytes_app.
  rewrite <- !app_assoc. do 3 f_equal.
Qed.

(** Written fields are read back.  A message whose fields pass the Length+Data
    conformance rule, and whose ordinary values hold no SOH, is split by every field
    scanner into exactly the fields the writer was given, framed by BeginString,
    BodyLength and CheckSum, with no fault: a Data value may hold any byte, SOH
    included, because its count is honoured. *)
Theorem written_fields_read_back h dst begin_string fs :
  hooks_ok h ->
  let all := frame_fields begin_string fs in
  container_conforms h all = true -> Forall (fun f => 0 <= f.1 <= 0xFFFF) fs ->
  Forall (fun f => length_tag_for_data h f.1 = 0 -> SOH ∉ f.2) all ->
  zlen (frame_text begin_string fs) <= zlen dst <= UINT32_MAX -> zlen (fields_bytes fs) <= 999999 ->
  exists w, write_message dst begin_string fs = (Ok (zlen (frame_text begin_string fs)), w) /\
    split_fields (ztake (zlen (frame_text begin_string fs)) (w_dst w)) h = (all, (fault_none, 0, 0)).
Proof.
  intros Hh all Hc Ht Hs Hd Hb.
  destruct (write_message_ok dst begin_string fs) as (w & rest & -> & E); [lia|exact Ht|lia|exact Hb|].
  exists w. split; [reflexivity|]. rewrite E, ztake_app, frame_text_fields. apply split_conforming; [exact Hh|exact Hc| |exact Hs].
  unfold all, frame_fields. cbn zeta. constructor; [cbn [fst]; lia|]. constructor; [cbn [fst]; lia|].
  apply Forall_app. split; [exact Ht|]. constructor; [cbn [fst]; lia|constructor].
Qed.

(** A message with RawDataLength 3 and a RawData value that holds an SOH. *)
Lemma written_fields_read_back_witness :
  let fs := [(35, [66]); (34, [55]); (95, [51]); (96, [65; 1; 61])] in
  exists w, write_message (replicate 80 0) [70] fs = (Ok (zlen (frame_text [70] fs)), w) /\
    split_fields (ztake (zlen (frame_text [70] fs)) (w_dst w)) custom_hooks =
      (frame_fields [70] fs, (fault_none, 0, 0)).
Proof.
  intros fs. apply (written_fields_read_back custom_hooks (replicate 80 0) [70] fs custom_hooks_ok).
  - by vm_compute.
  - repeat constructor; cbn; lia.
  - apply Forall_forall. intros f Hf. assert (H : forallb (fun f => negb (length_tag_for_data custom_hooks f.1 =? 0) ||
      forallb (fun c => negb (c =? SOH)) f.2) (frame_fields [70] fs) = true) by by vm_compute.
    rewrite forallb_forall in H. specialize (H f (proj1 (list_elem_of_In _ _) Hf)).
    intros E. rewrite E in H. cbn in H. rewrite forallb_forall in H. intros Hin%list_elem_of_In%H. done.
  - split; by vm_compute.
  - by vm_compute.
Defined.

(** The route peek reads what the scan reads.  On a frame the strict scan reads to
    the end without fault, under the same dictionary and whatever the session's header
    table holds, the peek is readable exactly when the third field is MsgType, its
    message type is the scan's, and its admin verdict is the admin predicate of it: the
    routing decision and the session agree on what the message is. *)
Theorem peek_agrees_with_scan frame hooks is_header_tag :
  zlen frame <= UINT32_MAX ->
  let h := scan_frame_header frame hooks in
  let peek := peek_fixt_route frame hooks is_header_tag in
  fault h = fault_none ->
  pk_readable peek = msg_type_is_third h /\ pk_msg_type peek = fault_ref_msg_type h /\
  pk_admin peek = pk_readable peek && is_fixt_admin_msgtype (fault_ref_msg_type h).
Proof.
  intros Hl. cbn zeta. rewrite scan_header_fold.
  destruct (split_fields frame hooks) as [fs [[kind lt] off]] eqn:Es. cbn [fst snd].
  destruct (split_fields_bounds _ _ _ _ _ _ Es) as [Hn _].
  destruct (set_fault_keeps (kind, lt, off) (header_of 0 false fs header_init)) as (_ & _ & _ & -> & ->).
  destruct (header_of_third fs ltac:(lia)) as [-> ->].
  destruct (header_of_fault 0 false fs header_init) as (F1 & _).
  intros Hf. assert (Hk : kind = fault_none) by (by destruct kind). subst kind.
  unfold peek_fixt_route, walk_fixt_header. unfold split_fields in Es.
  rewrite (walk_loop_split _ _ _ _ _ _ _ 0) by (by rewrite Es). rewrite Es. cbn [fst].
  destruct (peek_list_third is_header_tag fs ltac:(lia)) as [P1 P2].
  destruct (walk_list _ _ fs 0 false (peek_init, false)) as [pk third]. cbn [fst snd] in P1, P2.
  rewrite P1, <- P2. destruct (bool_decide (third_msg_type fs = None)) eqn:E; cbn [negb orb andb]; [|done].
  apply bool_decide_eq_true in E. rewrite E in P2. cbn in P2. rewrite P2. done.
Qed.

(** [8=F|9=0|35=A|1128=9|]: a logon, whatever the header table. *)
Lemma peek_agrees_with_scan_witness :
  let frame := [56;61;70;1; 57;61;48;1; 51;53;61;65;1; 49;49;50;56;61;57;1] in
  pk_readable (peek_fixt_route frame no_hooks (fun _ => false)) =
    msg_type_is_third (scan_frame_header frame no_hooks) /\
  pk_msg_type (peek_fixt_route frame no_hooks (fun _ => false)) = [65].
Proof.
  intros frame.
  destruct (peek_agrees_with_scan frame no_hooks (fun _ => false)) as (H1 & H2 & _); [by vm_compute..|].
  split; [exact H1|]. etransitivity; [exact H2|by vm_compute].
Defined.

(** the acceptor's first look agrees.  When the strict scan reads a frame without
    fault under the standard pairs, the lenient identity scan that routes a first frame
    to its session finds the same BeginString, SenderCompID and TargetCompID. *)
Theorem first_frame_ids_agree frame :
  zlen frame <= UINT32_MAX ->
  let h := scan_frame_header frame no_hooks in
  fault h = fault_none ->
  scan_first_frame_ids frame = FirstIds (begin_string h) (sender_comp_id h) (target_comp_id h).
Proof.
  intros Hl. cbn zeta. rewrite scan_header_fold.
  destruct (split_fields frame no_hooks) as [fs [[kind lt] off]] eqn:Es. cbn [fst snd].
  destruct (header_of_fault 0 false fs header_init) as (F1 & _).
  intros Hf. assert (Hk : kind = fault_none) by (by destruct kind). subst kind. cbn [set_fault].
  unfold scan_first_frame_ids. unfold split_fields in Es.
  rewrite (ids_loop_split _ _ _ _ 0) by (by rewrite Es). rewrite Es. cbn [fst].
  rewrite fold_ids. cbn [ids_begin_string ids_sender_comp_id ids_target_comp_id].
  pose proof (header_of_members 0 false fs header_init) as M. unfold header_members in M.
  rewrite !Forall_cons in M. repeat match goal with H : _ /\ _ |- _ => destruct H end. f_equal; by symmetry.
Qed.

(** [8=F|49=A|56=B|34=1|]. *)
Lemma first_frame_ids_agree_witness :
  let frame := [56;61;70;1; 52;57;61;65;1; 53;54;61;66;1; 51;52;61;49;1] in
  scan_first_frame_ids frame = FirstIds [70] [65] [66].
Proof.
  intros frame. etransitivity; [apply (first_frame_ids_agree frame); by vm_compute|]. by vm_compute.
Defined.
