(* ===== verification/Credentials.v ===== *)
(** Password redaction (include/fixpp/session/logon_credentials.hpp): the walk that finds
    the genuine Password(554) fields of a frame, the redactor for logs, the detector and
    the in-place masker the persisting path uses. *)
From S2P Require Import Prelude Errors TagScan PairTable LengthData VersionProfile Writer Framer.
From S2P Require Import FrameHeader.

(** ** The walk

    The callback may write to the frame while the walk runs, so the walk reads the frame
    through the callback's state. *)

Definition value_end (frame : bytes) (from : Z) : Z := soh_from (zdrop from frame) from.

Definition is_554_eq_at (frame : bytes) (p : Z) : bool :=
  (p + 4 <=? zlen frame) && (zget frame p =? 53) && (zget frame (p + 1) =? 53) &&
  (zget frame (p + 2) =? 52) && (zget frame (p + 3) =? EQ).

(** [(p == 0 || frame[p - 1] == kSohByte) && is_554_eq_at(p)] *)
Definition anchored_554 (frame : bytes) (p : Z) : bool :=
  ((p =? 0) || (zget frame (p - 1) =? SOH)) && is_554_eq_at frame p.

Fixpoint maybe_554_loop (fuel : nat) (frame : bytes) (p : Z) : bool :=
  match fuel with
  | O => false
  | S fuel =>
      if p + 4 <=? zlen frame then anchored_554 frame p || maybe_554_loop fuel frame (p + 1)
      else false
  end.

Section Walk.
Context {A : Type} (frame_of : A -> bytes) (on_value : Z -> Z -> A -> A) (hooks : dict_hooks).

Fixpoint fallback_loop (fuel : nat) (p : Z) (a : A) : A :=
  match fuel with
  | O => a
  | S fuel =>
      if p <? zlen (frame_of a) then
        fallback_loop fuel (p + 1)
          (if anchored_554 (frame_of a) p
           then on_value (p + 4) (value_end (frame_of a) (p + 4)) a else a)
      else a
  end.

Fixpoint password_loop (fuel : nat) (i : Z) (carry : length_data_carry) (a : A) : A :=
  match fuel with
  | O => a
  | S fuel =>
      let frame := frame_of a in
      if zlen frame <=? i then a
      else
        let '(tag, tag_ok, j) := lenient_tag_loop (zdrop i frame) i 0 true in
        if (zlen frame <=? j) || negb (zget frame j =? EQ) || negb tag_ok then
          password_loop fuel (skip_soh frame (value_end frame j)) (carry_reset carry) a
        else
          let vstart := j + 1 in
          match read_value hooks carry frame vstart (u16 tag) with
          | (None, _) => fallback_loop (length frame) i a
          | (Some ext, carry) =>
              let vend := ve_end ext in
              password_loop fuel (if vend <? zlen frame then vend + 1 else zlen frame) carry
                (if is_554_eq_at frame i && (j =? i + 3) then on_value vstart vend a else a)
          end
  end.

Definition for_each_tag554_value (a : A) : A :=
  let frame := frame_of a in
  if maybe_554_loop (length frame) frame 0 then password_loop (length frame) 0 carry_init a else a.
End Walk.

(** ** The three users of the walk *)

(** The frame, the text so far and the position behind the last value. *)
Definition kMask : bytes := [42; 42; 42].

Definition redact_on_value (vstart vend : Z) (a : bytes * bytes * Z) : bytes * bytes * Z :=
  let '(frame, result, pos) := a in
  (frame, result ++ zsub frame pos (vstart - pos) ++ kMask, vend).

Definition redact_tag554 (frame : bytes) : bytes :=
  let '(_, result, pos) :=
    for_each_tag554_value (fun a => a.1.1) redact_on_value no_hooks (frame, [], 0) in
  result ++ zdrop pos frame.

Definition frame_has_genuine_tag554 (frame : bytes) (hooks : dict_hooks) : bool :=
  (for_each_tag554_value fst (fun _ _ a => (a.1, true)) hooks (frame, false)).2.

(** [for (k = vstart; k < vend; ++k) frame[k] = '*';] *)
Definition mask_value (vstart vend : Z) (frame : bytes) : bytes :=
  zwrite frame vstart (replicate (Z.to_nat (vend - vstart)) 42).

Definition mask_tag554_same_length_inplace (frame : bytes) (hooks : dict_hooks) : bool * bytes :=
  let '(frame, masked) :=
    for_each_tag554_value fst (fun s e a => (mask_value s e a.1, true)) hooks (frame, false) in
  (masked, frame).

(** ** Specification: what the walk meets on a frame nobody writes to *)

(** A Password value reported to the callback; a counted Data value stepped over. *)
Inductive walked : Set := password (s e : Z) | counted (s e : Z).

Fixpoint fallback_spec (fuel : nat) (frame : bytes) (p : Z) : list walked :=
  match fuel with
  | O => []
  | S fuel =>
      if p <? zlen frame then
        (if anchored_554 frame p then [password (p + 4) (value_end frame (p + 4))] else []) ++
        fallback_spec fuel frame (p + 1)
      else []
  end.

Fixpoint walk_spec (fuel : nat) (hooks : dict_hooks) (frame : bytes) (i : Z)
    (carry : length_data_carry) : list walked :=
  match fuel with
  | O => []
  | S fuel =>
      if zlen frame <=? i then []
      else
        let '(tag, tag_ok, j) := lenient_tag_loop (zdrop i frame) i 0 true in
        if (zlen frame <=? j) || negb (zget frame j =? EQ) || negb tag_ok then
          walk_spec fuel hooks frame (skip_soh frame (value_end frame j)) (carry_reset carry)
        else
          match read_value hooks carry frame (j + 1) (u16 tag) with
          | (None, _) => fallback_spec (length frame) frame i
          | (Some ext, carry) =>
              (if ve_counted ext then [counted (j + 1) (ve_end ext)] else []) ++
              (if is_554_eq_at frame i && (j =? i + 3) then [password (j + 1) (ve_end ext)] else []) ++
              walk_spec fuel hooks frame (if ve_end ext <? zlen frame then ve_end ext + 1 else zlen frame) carry
          end
  end.

Definition walked_values (frame : bytes) (hooks : dict_hooks) : list walked :=
  walk_spec (length frame) hooks frame 0 carry_init.

Definition report {A} (on_value : Z -> Z -> A -> A) (a : A) (w : walked) : A :=
  match w with password s e => on_value s e a | counted _ _ => a end.

(** ** Specification: where a value lies in a frame *)

(** The field at [p]: at the start of the frame or behind a SOH, digits of value [tag], '=',
    and its value from [s] on. *)
Definition field_at (frame : bytes) (p tag s : Z) : Prop :=
  (p = 0 \/ zget frame (p - 1) = SOH) /\
  exists ds rest, digits ds /\ dec_value ds = tag /\ zdrop p frame = ds ++ EQ :: rest /\
    s = p + zlen ds + 1.

(** A plain value runs to the next SOH or to the end of the frame. *)
Definition plain_value (frame : bytes) (s e : Z) : Prop :=
  s <= e <= zlen frame /\ (forall r, s <= r < e -> zget frame r <> SOH) /\
  (e < zlen frame -> zget frame e = SOH).

(** A counted one belongs to the Data field of a pair: the field right before it, ending at
    [q], is the pair's Length field and gives the number of its bytes, and a SOH follows
    them. *)
Definition counted_value (h : dict_hooks) (frame : bytes) (s e : Z) : Prop :=
  exists p tag ls q data, field_at frame p tag ls /\ ls < q /\ zget frame (q - 1) = SOH /\
    field_at frame q data s /\ data_tag_for_length h tag = data /\ data <> 0 /\
    parse_bounded_u32 (zsub frame ls (q - 1 - ls)) = e - s /\ s <= e < zlen frame /\ zget frame e = SOH.

(** A Password value starts at [s]: "554=" stands before it, where a field starts. *)
Definition password_at (frame : bytes) (s : Z) : Prop :=
  4 <= s <= zlen frame /\ (s = 4 \/ zget frame (s - 5) = SOH) /\
  zsub frame (s - 4) 4 = [53; 53; 52; EQ].

(** ** Lemmas *)

(** *** Frames that agree from the position being read *)

Definition agree (i : Z) (f g : bytes) : Prop :=
  zlen f = zlen g /\ forall p, Z.max 0 (i - 1) <= p -> zget f p = zget g p.

Lemma zdrop_ext f g i : zlen f = zlen g -> 0 <= i ->
  (forall p, i <= p -> zget f p = zget g p) -> zdrop i f = zdrop i g.
Proof.
  intros Hl Hi Hg. unfold zlen in Hl. apply (nth_ext _ _ 0 0); unfold zdrop.
  { rewrite !length_drop. lia. }
  intros n _. rewrite !nth_skipn. specialize (Hg (i + Z.of_nat n) ltac:(lia)). unfold zget in Hg.
  by replace (Z.to_nat (i + Z.of_nat n)) with (Z.to_nat i + n)%nat in Hg by lia.
Qed.

Lemma agree_drop i f g p : agree i f g -> Z.max 0 (i - 1) <= p -> zdrop p f = zdrop p g.
Proof. intros [Hl H] Hp. apply zdrop_ext; [done|lia|]. intros r Hr. apply H. lia. Qed.

Lemma agree_later i j f g : agree i f g -> i <= j -> agree j f g.
Proof. intros [Hl H] Hj. split; [done|]. intros p Hp. apply H. lia. Qed.

Lemma agree_is_554 i f g p : agree i f g -> 0 <= i <= p -> is_554_eq_at f p = is_554_eq_at g p.
Proof.
  intros [Hl H] Hp. unfold is_554_eq_at. rewrite Hl. by rewrite !H by lia.
Qed.

Lemma agree_anchored i f g p : agree i f g -> 0 <= i <= p -> anchored_554 f p = anchored_554 g p.
Proof.
  intros H Hp. unfold anchored_554. rewrite (agree_is_554 i f g) by done.
  destruct (p =? 0) eqn:E; [done|]. by rewrite (proj2 H) by lia.
Qed.

Lemma agree_value_end i f g p : agree i f g -> 0 <= i <= p -> value_end f p = value_end g p.
Proof. intros H Hp. unfold value_end. by rewrite (agree_drop i f g) by (done || lia). Qed.

Lemma agree_read_value i f g h c vs tag : agree i f g -> 0 <= i <= vs -> 0 <= carry_count c ->
  read_value h c f vs tag = read_value h c g vs tag.
Proof.
  intros H Hi Hc. pose proof (agree_drop i f g vs H ltac:(lia)) as Hd.
  assert (E : counted_value_end f vs (carry_count c) = counted_value_end g vs (carry_count c)).
  { unfold counted_value_end. by rewrite (proj1 H), (proj2 H) by lia. }
  unfold read_value, zsub. by rewrite E, Hd.
Qed.

(** *** Positions *)

Lemma lenient_bounds p i tag ok tag' ok' j :
  lenient_tag_loop p i tag ok = (tag', ok', j) -> i <= j <= i + zlen p.
Proof.
  revert i tag ok. induction p as [|c p IH]; intros i tag ok; cbn [lenient_tag_loop].
  - intros [= <- <- <-]. rewrite zlen_nilZ. lia.
  - rewrite zlen_cons. pose proof (zlen_nonneg p). destruct (_ || _); [intros [= <- <- <-]; lia|].
    destruct (_ || _); [|destruct (accumulate_tag_digit _ _)]; intros Hj%IH; lia.
Qed.

(** No SOH before the end of a tag or of a plain value. *)
Lemma lenient_no_soh frame i tag ok tag' ok' j r : 0 <= i ->
  lenient_tag_loop (zdrop i frame) i tag ok = (tag', ok', j) -> i <= r < j -> zget frame r <> SOH.
Proof.
  intros Hi H Hr. rewrite <- (Z.sub_add i r), Z.add_comm, <- zget_drop by lia.
  revert H Hr. generalize (zdrop i frame) as p. clear Hi. revert tag ok.
  assert (G : forall p i tag ok, lenient_tag_loop p i tag ok = (tag', ok', j) -> i <= r < j ->
    zget p (r - i) <> SOH).
  { induction p as [|c p IH]; intros k tag ok; cbn [lenient_tag_loop]; [intros [= <- <- <-]; lia|].
    destruct ((c =? EQ) || (c =? SOH)) eqn:E; [intros [= <- <- <-]; lia|].
    assert (S : forall t o, lenient_tag_loop p (k + 1) t o = (tag', ok', j) -> k <= r < j ->
      zget (c :: p) (r - k) <> SOH).
    { intros t o H Hr. destruct (decide (r = k)) as [->|Hne]; [rewrite Z.sub_diag, zget_0; lia|].
      rewrite zget_S by lia. replace (r - k - 1) with (r - (k + 1)) by lia. eapply IH; [exact H|lia]. }
    destruct ((c <? 48) || (57 <? c)); [apply S|]. destruct (accumulate_tag_digit tag c). apply S. }
  intros tag ok p. apply G.
Qed.

Lemma soh_from_before p i r : i <= r < soh_from p i -> zget p (r - i) <> SOH.
Proof.
  revert i. induction p as [|c p IH]; intros i; cbn [soh_from]; [lia|].
  destruct (c =? SOH) eqn:E; [lia|]. intros Hr.
  destruct (decide (r = i)) as [->|Hne]; [rewrite Z.sub_diag, zget_0; lia|].
  rewrite zget_S by lia. replace (r - i - 1) with (r - (i + 1)) by lia. apply IH. lia.
Qed.

Lemma value_end_spec frame p : 0 <= p <= zlen frame ->
  p <= value_end frame p <= zlen frame /\
  (forall r, p <= r < value_end frame p -> zget frame r <> SOH) /\
  (value_end frame p < zlen frame -> zget frame (value_end frame p) = SOH).
Proof.
  intros Hp. unfold value_end. pose proof (soh_from_ge (zdrop p frame) p) as H.
  rewrite zlen_drop in H by lia. split; [lia|]. split.
  - intros r Hr. rewrite <- (Z.sub_add p r), Z.add_comm, <- zget_drop by lia.
    by apply soh_from_before.
  - intros Hlt. rewrite <- (Z.sub_add p (soh_from _ _)), Z.add_comm, <- zget_drop by lia.
    assert (G : forall l i, soh_from l i < i + zlen l -> zget l (soh_from l i - i) = SOH).
    { clear. induction l as [|c l IH]; intros i; cbn [soh_from]; [rewrite zlen_nilZ; lia|].
      rewrite zlen_cons. destruct (c =? SOH) eqn:E.
      - intros _. rewrite Z.sub_diag, zget_0. lia.
      - intros Hl. pose proof (soh_from_ge l (i + 1)). rewrite zget_S by lia.
        replace (_ - i - 1) with (soh_from l (i + 1) - (i + 1)) by lia. apply IH. lia. }
    apply G. rewrite zlen_drop; lia.
Qed.

Lemma is_554_bounds frame p : is_554_eq_at frame p = true -> p + 4 <= zlen frame.
Proof. unfold is_554_eq_at. lia. Qed.

Lemma is_554_no_soh frame p r : is_554_eq_at frame p = true -> p <= r < p + 4 -> zget frame r <> SOH.
Proof.
  unfold is_554_eq_at. intros H Hr.
  assert (r = p \/ r = p + 1 \/ r = p + 2 \/ r = p + 3) as [-> | [-> | [-> | -> ] ] ] by lia; unfold SOH, EQ in *; lia.
Qed.

(** *** The walk over a frame its callback writes to *)

(** A callback that writes inside the value it is given only, and never an SOH. *)
Definition stays_inside {A} (frame_of : A -> bytes) (on_value : Z -> Z -> A -> A) : Prop :=
  forall s e a, 0 <= s <= e -> e <= zlen (frame_of a) ->
    zlen (frame_of (on_value s e a)) = zlen (frame_of a) /\
    forall r, 0 <= r -> (s <= r < e -> zget (frame_of (on_value s e a)) r <> SOH \/
                         zget (frame_of (on_value s e a)) r = zget (frame_of a) r) /\
      (r < s \/ e <= r -> zget (frame_of (on_value s e a)) r = zget (frame_of a) r).

Lemma stays_agree {A} (frame_of : A -> bytes) on_value s e a i j frame :
  stays_inside frame_of on_value -> 0 <= s <= e -> e <= zlen frame -> i <= j -> e < j ->
  agree i (frame_of a) frame -> agree j (frame_of (on_value s e a)) frame.
Proof.
  intros Hs Hse He Hij Hej [Hl Ha]. destruct (Hs s e a) as [Hl' Hd]; [done|lia|].
  split; [lia|]. intros p Hp. rewrite (proj2 (Hd p ltac:(lia))) by lia. apply Ha. lia.
Qed.

(** Past a written value no position inside it is anchored. *)
Definition fallback_ok (frame f : bytes) (p : Z) : Prop :=
  exists q, p <= q /\ (p = q \/ 1 <= p) /\ agree q f frame /\
    forall r, p - 1 <= r < q - 1 -> zget f r <> SOH /\ zget frame r <> SOH.

Lemma fallback_exact {A} (frame_of : A -> bytes) on_value frame fuel p a :
  stays_inside frame_of on_value -> 0 <= p -> fallback_ok frame (frame_of a) p ->
  fallback_loop frame_of on_value fuel p a =
    fold_left (report on_value) (fallback_spec fuel frame p) a.
Proof.
  intros Hs. revert p a. induction fuel as [|fuel IH]; intros p a Hp (q & Hq & Hpq & Hag & Hno);
    cbn [fallback_loop fallback_spec]; [done|].
  rewrite (proj1 Hag). destruct (p <? zlen frame) eqn:Ep; [|done]. rewrite fold_left_app.
  destruct (decide (p = q)) as [<-|Hne].
  - rewrite (agree_anchored p _ frame) by (done || lia).
    destruct (anchored_554 frame p) eqn:Ea; cbn [fold_left report].
    + assert (H5 : is_554_eq_at frame p = true) by (unfold anchored_554 in Ea; by apply andb_prop in Ea as [_ ?]).
      pose proof (is_554_bounds _ _ H5). rewrite (agree_value_end p _ frame) by (done || lia).
      destruct (value_end_spec frame (p + 4)) as (Hb & Hv & _); [lia|].
      set (e := value_end frame (p + 4)) in *. apply IH; [lia|].
      destruct (Hs (p + 4) e a) as [Hl Hd]; [lia|rewrite (proj1 Hag); lia|].
      exists (e + 1). split; [lia|]. split; [lia|].
      split; [apply (stays_agree _ _ _ _ _ p); (done || lia)|]. intros r Hr.
      destruct (decide (r < p + 4)) as [Hlt|Hge].
      * rewrite (proj2 (Hd r ltac:(lia))), (proj2 Hag) by lia.
        split; by apply (is_554_no_soh frame p); (done || lia).
      * split; [|apply Hv; lia]. destruct (proj1 (Hd r ltac:(lia))) as [Hn| ->]; [lia|done|].
        rewrite (proj2 Hag) by lia. apply Hv. lia.
    + apply IH; [lia|]. exists (p + 1). split; [lia|]. split; [lia|].
      split; [eapply agree_later; [exact Hag|lia]|]. lia.
  - assert (N : forall g, (zget g (p - 1) <> SOH) -> anchored_554 g p = false).
    { intros g Hg. unfold anchored_554. lia. }
    rewrite !N by (apply Hno; lia). cbn [fold_left]. apply IH; [lia|].
    exists q. split; [lia|]. split; [lia|]. split; [done|]. intros r Hr. apply Hno. lia.
Qed.

Lemma fallback_ok_start frame f p : agree p f frame -> fallback_ok frame f p.
Proof. intros H. exists p. split; [lia|]. split; [by left|]. split; [done|]. lia. Qed.

Lemma password_loop_exact {A} (frame_of : A -> bytes) on_value hooks frame fuel i carry a :
  stays_inside frame_of on_value -> 0 <= i <= zlen frame -> 0 <= carry_count carry ->
  agree i (frame_of a) frame ->
  password_loop frame_of on_value hooks fuel i carry a =
    fold_left (report on_value) (walk_spec fuel hooks frame i carry) a.
Proof.
  intros Hs. revert i carry a. induction fuel as [|fuel IH]; intros i carry a Hi Hc Hag;
    cbn [password_loop walk_spec]; [done|].
  rewrite (proj1 Hag), (agree_drop i _ frame i) by (done || lia).
  destruct (zlen frame <=? i) eqn:Ei; [done|].
  destruct (lenient_tag_loop (zdrop i frame) i 0 true) as [[tag ok] j] eqn:El.
  apply lenient_bounds in El. rewrite zlen_drop in El by lia.
  rewrite (proj2 Hag j) by lia. destruct (zlen frame <=? j) eqn:Ej; cbn [orb].
  2: destruct (negb (zget frame j =? EQ) || negb ok).
  1, 2: rewrite (agree_value_end i _ frame j) by (done || lia);
    destruct (value_end_spec frame j) as (Hb & _ & _); [lia|];
    pose proof (skip_soh_range frame (value_end frame j) ltac:(lia)); unfold skip_soh in *;
    rewrite (proj1 Hag); apply IH; [lia|done|eapply agree_later; [exact Hag|lia]].
  rewrite (agree_read_value i _ frame) by (done || lia).
  destruct (read_value hooks carry frame (j + 1) (u16 tag)) as [[ext|] carry'] eqn:Er.
  2: { unfold zlen in Hag. rewrite (Nat2Z.inj _ _ (proj1 Hag)).
       apply fallback_exact; [done|lia|]. by apply fallback_ok_start. }
  assert (He : j + 1 <= ve_end ext <= zlen frame) by (eapply read_value_end; [|exact Hc|exact Er]; lia).
  rewrite !fold_left_app, (agree_is_554 i _ frame) by (done || lia).
  replace (fold_left (report on_value) (if ve_counted ext then _ else _) a) with a by (by destruct (ve_counted ext)).
  set (i' := if ve_end ext <? zlen frame then _ else _).
  assert (Hi' : i <= i' <= zlen frame /\ (ve_end ext < i' \/ ve_end ext = zlen frame)) by (unfold i'; case_tests; lia).
  pose proof (read_value_count _ _ _ _ _ _ _ Hc Er) as Hc'.
  destruct (is_554_eq_at frame i && (j =? i + 3)); cbn [fold_left report].
  - destruct Hi' as [Hi' [Hlt|Heq]].
    + apply IH; [lia|done|]. apply (stays_agree _ _ _ _ _ i); (done || lia).
    + assert (zlen (frame_of (on_value (j + 1) (ve_end ext) a)) = zlen frame).
      { destruct (Hs (j + 1) (ve_end ext) a) as [-> _]; [lia|rewrite (proj1 Hag); lia|apply Hag]. }
      unfold i'. replace (ve_end ext <? zlen frame) with false by lia.
      destruct fuel; cbn [password_loop walk_spec]; [done|]. rewrite H, Z.leb_refl. done.
  - apply IH; [lia|done|]. eapply agree_later; [exact Hag|lia].
Qed.

(** *** What the walk meets, and that it misses nothing *)

(** A position the walk stops at. *)
Definition at_field (frame : bytes) (i : Z) : Prop :=
  i = 0 \/ i = zlen frame \/ zget frame (i - 1) = SOH.

Definition walked_ok (h : dict_hooks) (frame : bytes) (w : walked) : Prop :=
  match w with
  | password s e => 4 <= s <= e /\ e <= zlen frame /\ anchored_554 frame (s - 4) = true /\
      (plain_value frame s e \/ counted_value h frame s e)
  | counted s e => counted_value h frame s e
  end.

(** What the carry remembers: the Length field right before [i]. *)
Definition carry_ok (h : dict_hooks) (frame : bytes) (i : Z) (c : length_data_carry) : Prop :=
  carry_data_tag c = 0 \/ zlen frame <= i \/
  exists p tag ls, field_at frame p tag ls /\ ls < i /\ zget frame (i - 1) = SOH /\
    data_tag_for_length h tag = carry_data_tag c /\
    parse_bounded_u32 (zsub frame ls (i - 1 - ls)) = carry_count c.

Lemma lenient_inv p i tag t j : 0 <= tag <= 0xFFFF -> lenient_tag_loop p i tag true = (t, true, j) ->
  exists ds p', p = ds ++ p' /\ digits ds /\ t = dec_from tag ds /\ 0 <= t <= 0xFFFF /\ j = i + zlen ds.
Proof.
  assert (Hno : forall q k t0 t1 j1, lenient_tag_loop q k t0 false = (t1, true, j1) -> False).
  { induction q as [|c q IH]; intros k t0 t1 j1; cbn [lenient_tag_loop]; [done|].
    destruct (_ || _); [done|]. destruct (_ || _); [apply IH|].
    destruct (accumulate_tag_digit t0 c) as [ok ?]. rewrite andb_false_r. apply IH. }
  revert i tag. induction p as [|c p IH]; intros i tag Ht; cbn [lenient_tag_loop].
  - intros [= <- <-]. exists [], []. rewrite zlen_nilZ. split_and!; (done || lia || constructor).
  - destruct (_ || _); [intros [= <- <-]; exists [], (c :: p); rewrite zlen_nilZ; split_and!; (done || lia || constructor)|].
    destruct ((c <? 48) || (57 <? c)) eqn:Ec; [by intros H%Hno|].
    assert (Hc : is_digit c = true) by (apply is_digit_spec; lia).
    rewrite accumulate_tag_digit_spec by done.
    destruct (tag * 10 + (c - 48) <=? 65535) eqn:Eb; cbn [andb]; [|by intros H%Hno].
    intros H. destruct (IH (i + 1) (tag * 10 + (c - 48)) ltac:(lia) H) as (ds & p' & -> & Hd & -> & Hb & ->).
    exists (c :: ds), p'. rewrite zlen_cons. split_and!; [done|by constructor|done|lia|lia|lia].
Qed.

Lemma lenient_field_at frame i tag j : at_field frame i -> 0 <= i < zlen frame ->
  lenient_tag_loop (zdrop i frame) i 0 true = (tag, true, j) -> j < zlen frame -> zget frame j = EQ ->
  field_at frame i tag (j + 1) /\ u16 tag = tag.
Proof.
  intros Hat Hi El Hj Heq. destruct (lenient_inv _ _ 0 _ _ ltac:(lia) El) as (ds & p' & Hp & Hd & -> & Hb & ->).
  pose proof (zlen_nonneg ds). split; [|apply wrap_small; lia]. split; [destruct Hat as [?|[?|?]]; auto; lia|].
  assert (Hp' : p' = zdrop (i + zlen ds) frame).
  { rewrite <- zdrop_drop, Hp by lia. by rewrite zdrop_app. }
  rewrite zdrop_cons in Hp' by lia. rewrite Heq in Hp'.
  exists ds, (zdrop (i + zlen ds + 1) frame). split_and!; [done|done|by rewrite Hp, Hp'|done].
Qed.

Lemma read_counted_extent h frame i c vs tag ext c' : 0 <= vs <= zlen frame -> 0 <= carry_count c ->
  i < zlen frame -> carry_ok h frame i c -> field_at frame i tag vs ->
  read_value h c frame vs tag = (Some ext, c') -> ve_counted ext = true ->
  counted_value h frame vs (ve_end ext).
Proof.
  intros Hvs Hc Hi Hok Hf Er Hct. unfold read_value in Er.
  destruct (negb (carry_data_tag c =? 0) && (carry_data_tag c =? tag)) eqn:E.
  2:{ injection Er as <- _. done. }
  destruct Hok as [H0|[Hge|(p & t & ls & Hp & Hls & Hs & Hd & Hn)]]; [lia|lia|].
  unfold counted_value_end in Er. case_tests; injection Er as <- <-; cbn [ve_end ve_counted] in *.
  all: exists p, t, ls, i, tag; split_and!; [done|done|done|done|lia|lia|lia|lia|lia|lia].
Qed.

Lemma read_value_carry h frame i c vs tag ext c' : 0 <= vs <= zlen frame -> 0 <= carry_count c ->
  field_at frame i tag vs -> read_value h c frame vs tag = (Some ext, c') ->
  (ve_end ext < zlen frame -> zget frame (ve_end ext) = SOH) -> vs <= ve_end ext ->
  carry_ok h frame (if ve_end ext <? zlen frame then ve_end ext + 1 else zlen frame) c'.
Proof.
  intros Hvs Hc Hf Er Hs Hle. destruct (ve_end ext <? zlen frame) eqn:E; [|right; left; lia].
  unfold read_value in Er. destruct (if _ && _ then _ else _) as [e|]; [|done]. injection Er as <- <-.
  cbn [ve_end carry_data_tag carry_count] in *.
  destruct (decide (data_tag_for_length h tag = 0)) as [H0|H0]; [by left|]. right; right.
  exists i, tag, vs. split_and!; [done|lia| |done|].
  - replace (e + 1 - 1) with e by lia. apply Hs. lia.
  - cbn [carry_count]. replace (e + 1 - 1 - vs) with (e - vs) by lia. by destruct (Z.eqb_spec (data_tag_for_length h tag) 0).
Qed.

Lemma value_end_plain frame p : 0 <= p <= zlen frame -> plain_value frame p (value_end frame p).
Proof. intros Hp. destruct (value_end_spec frame p Hp) as (Hb & Hv & Hs). exact (conj Hb (conj Hv Hs)). Qed.

Lemma plain_value_end frame s e : 0 <= s -> plain_value frame s e -> e = value_end frame s.
Proof.
  intros Hs (He & Hno & Hsoh). destruct (value_end_spec frame s ltac:(lia)) as (Hv & Hvn & Hvs).
  destruct (Z.lt_total e (value_end frame s)) as [Hlt|[->|Hlt]]; [|done|].
  - exfalso. apply (Hvn e); [lia|]. apply Hsoh. lia.
  - exfalso. apply (Hno (value_end frame s)); [lia|]. apply Hvs. lia.
Qed.

(** The anchored "554=" at [p] is reported, or lies inside a counted value. *)
Definition covered (frame : bytes) (ws : list walked) (p : Z) : Prop :=
  (exists e, password (p + 4) e ∈ ws /\ value_end frame (p + 4) <= e) \/
  (exists s e, counted s e ∈ ws /\ s <= p < e).

Lemma covered_app frame a b p : covered frame a p \/ covered frame b p -> covered frame (a ++ b) p.
Proof.
  intros [[(e & Hi & He)|(s & e & Hi & He)]|[(e & Hi & He)|(s & e & Hi & He)]];
    [left; exists e|right; exists s, e|left; exists e|right; exists s, e];
    (split; [apply elem_of_app; auto|exact He]).
Qed.

Lemma lenient_554 frame i : 0 <= i -> is_554_eq_at frame i = true ->
  lenient_tag_loop (zdrop i frame) i 0 true = (554, true, i + 3).
Proof.
  intros Hi H. pose proof (is_554_bounds _ _ H). unfold is_554_eq_at in H.
  rewrite (zdrop_cons frame i), (zdrop_cons frame (i + 1)) by lia.
  replace (i + 1 + 1) with (i + 2) by lia. rewrite (zdrop_cons frame (i + 2)) by lia.
  replace (i + 2 + 1) with (i + 3) by lia. rewrite (zdrop_cons frame (i + 3)) by lia.
  replace (zget frame i) with 53 by lia. replace (zget frame (i + 1)) with 53 by lia.
  replace (zget frame (i + 2)) with 52 by lia. replace (zget frame (i + 3)) with EQ by lia.
  replace (i + 3) with (i + 1 + 1 + 1) by lia. reflexivity.
Qed.

Lemma fallback_walked h frame fuel p : 0 <= p <= zlen frame -> zlen frame - p <= Z.of_nat fuel ->
  Forall (walked_ok h frame) (fallback_spec fuel frame p) /\
  forall q, p <= q -> anchored_554 frame q = true -> covered frame (fallback_spec fuel frame p) q.
Proof.
  revert p. induction fuel as [|fuel IH]; intros p Hp Hf; cbn [fallback_spec].
  - split; [done|]. intros q Hq Ha. unfold anchored_554 in Ha. apply andb_prop in Ha as [_ Ha].
    apply is_554_bounds in Ha. lia.
  - destruct (p <? zlen frame) eqn:E.
    2: { split; [done|]. intros q Hq Ha. unfold anchored_554 in Ha. apply andb_prop in Ha as [_ Ha].
         apply is_554_bounds in Ha. lia. }
    destruct (IH (p + 1) ltac:(lia) ltac:(lia)) as [Hok Hcov]. split.
    + apply Forall_app. split; [|exact Hok]. destruct (anchored_554 frame p) eqn:Ea; [|done].
      apply Forall_singleton. pose proof Ea as Hb. unfold anchored_554 in Hb.
      apply andb_prop in Hb as [_ Hb]. apply is_554_bounds in Hb. cbn.
      destruct (value_end_spec frame (p + 4)) as (? & _); [lia|].
      replace (p + 4 - 4) with p by lia. split_and!; [lia|lia|lia|done|left; apply value_end_plain; lia].
    + intros q Hq Ha. apply covered_app. destruct (decide (q = p)) as [->|Hne].
      * left. rewrite Ha. left. eexists. split; [by apply list_elem_of_singleton|lia].
      * right. apply Hcov; [lia|done].
Qed.

Lemma not_anchored_at_soh frame q : 0 <= q -> zget frame q = SOH -> anchored_554 frame q = true -> False.
Proof.
  unfold anchored_554, is_554_eq_at, SOH. intros Hq Hs H. rewrite Hs in H. lia.
Qed.

Lemma not_anchored_inside frame q : 0 < q -> zget frame (q - 1) <> SOH -> anchored_554 frame q = true -> False.
Proof. unfold anchored_554. lia. Qed.

Lemma anchored_reads frame i tag ok j : 0 <= i ->
  lenient_tag_loop (zdrop i frame) i 0 true = (tag, ok, j) -> anchored_554 frame i = true ->
  ok = true /\ j = i + 3 /\ is_554_eq_at frame i = true.
Proof.
  intros Hi El Ha. unfold anchored_554 in Ha. apply andb_prop in Ha as [_ Ha].
  rewrite (lenient_554 frame i) in El by (done || lia). by injection El as <- <- <-.
Qed.

(** A field the walk skips holds no anchored "554=". *)
Lemma bad_tag_gap frame i tag ok j q : 0 <= i < zlen frame ->
  lenient_tag_loop (zdrop i frame) i 0 true = (tag, ok, j) ->
  (zlen frame <=? j) || negb (zget frame j =? EQ) || negb ok = true ->
  i <= q < skip_soh frame (value_end frame j) -> anchored_554 frame q = true -> False.
Proof.
  intros Hi El Eb Hq Ha. pose proof (fun r => lenient_no_soh _ _ _ _ _ _ _ r (proj1 Hi) El) as Htag.
  pose proof El as Hj. apply lenient_bounds in Hj. rewrite zlen_drop in Hj by lia.
  destruct (value_end_spec frame j) as (Hb & Hv & Hs); [lia|]. unfold skip_soh in Hq.
  destruct (decide (q = i)) as [->|Hqi].
  { destruct (anchored_reads frame i tag ok j (proj1 Hi) El Ha) as (-> & -> & H5).
    pose proof (is_554_bounds _ _ H5). unfold is_554_eq_at in H5. lia. }
  set (e := value_end frame j) in *. destruct (decide (q = e /\ e < zlen frame)) as [[-> ?]|Hqe].
  { eapply not_anchored_at_soh; [|by apply Hs|exact Ha]. lia. }
  eapply (not_anchored_inside frame q); [lia| |exact Ha].
  destruct (decide (q - 1 < j)); [apply Htag; lia|apply Hv; case_tests; lia].
Qed.

Lemma read_value_extent hooks carry frame vs tag ext carry' : 0 <= vs <= zlen frame ->
  0 <= carry_count carry -> read_value hooks carry frame vs tag = (Some ext, carry') ->
  vs <= ve_end ext <= zlen frame /\ value_end frame vs <= ve_end ext /\
  (ve_end ext < zlen frame -> zget frame (ve_end ext) = SOH) /\
  (ve_counted ext = true -> ve_end ext < zlen frame) /\
  (ve_counted ext = false -> ve_end ext = value_end frame vs).
Proof.
  intros Hvs Hc Er. pose proof (read_value_end _ _ _ _ _ _ _ Hvs Hc Er) as He.
  destruct (value_end_spec frame vs Hvs) as (Hb & Hv & Hs). unfold read_value in Er.
  destruct (_ && _).
  - unfold counted_value_end in Er. case_tests; injection Er as <- <-; cbn in *.
    all: split_and!; intros; try done; try lia; destruct (Z_le_gt_dec (value_end frame vs) (vs + carry_count carry));
      [done|exfalso; apply (Hv (vs + carry_count carry)); lia].
  - injection Er as <- <-. cbn in *. fold (value_end frame vs) in *. split_and!; (done || lia).
Qed.

(** What a field the walk reads reports covers every anchored "554=" up to the next. *)
Lemma value_gap frame i tag ok j ext q : 0 <= i < zlen frame ->
  lenient_tag_loop (zdrop i frame) i 0 true = (tag, ok, j) -> j < zlen frame -> zget frame j = EQ ->
  value_end frame (j + 1) <= ve_end ext <= zlen frame ->
  (ve_end ext < zlen frame -> zget frame (ve_end ext) = SOH) ->
  (ve_counted ext = false -> ve_end ext = value_end frame (j + 1)) ->
  i <= q -> (q < ve_end ext + 1 /\ ve_end ext < zlen frame \/ q < ve_end ext) ->
  anchored_554 frame q = true ->
  covered frame ((if ve_counted ext then [counted (j + 1) (ve_end ext)] else []) ++
    (if is_554_eq_at frame i && (j =? i + 3) then [password (j + 1) (ve_end ext)] else [])) q.
Proof.
  intros Hi El Hjn Heq Hle Hsoh Hpl Hq Hlt Ha. apply covered_app.
  pose proof (fun r => lenient_no_soh _ _ _ _ _ _ _ r (proj1 Hi) El) as Htag.
  pose proof El as Hj. apply lenient_bounds in Hj. rewrite zlen_drop in Hj by lia.
  destruct (value_end_spec frame (j + 1)) as (Hb & Hv & _); [lia|].
  destruct (decide (q = i)) as [->|Hqi].
  { right. destruct (anchored_reads frame i tag ok j (proj1 Hi) El Ha) as (_ & -> & ->).
    rewrite Z.eqb_refl. cbn [andb]. replace (i + 3 + 1) with (i + 4) in * by lia.
    left. exists (ve_end ext). split; [by apply list_elem_of_singleton|lia]. }
  assert (Hout : q - 1 < j \/ q = j + 1 \/ q = ve_end ext /\ ve_end ext < zlen frame -> False).
  { intros [H|[->|[-> H]]].
    - eapply (not_anchored_inside frame q); [lia|apply Htag; lia|exact Ha].
    - eapply (not_anchored_inside frame (j + 1)); [lia| |exact Ha].
      replace (j + 1 - 1) with j by lia. unfold EQ, SOH in *. lia.
    - eapply not_anchored_at_soh; [|by apply Hsoh|exact Ha]. lia. }
  assert (Hin : j + 1 < q < ve_end ext) by (destruct (decide (q = ve_end ext)); lia).
  destruct (ve_counted ext) eqn:Ec.
  - left. right. exists (j + 1), (ve_end ext). split; [by apply list_elem_of_singleton|lia].
  - exfalso. rewrite (Hpl eq_refl) in *. eapply (not_anchored_inside frame q); [lia|apply Hv; lia|exact Ha].
Qed.

Lemma beyond_end frame p q : zlen frame <= p -> p <= q -> anchored_554 frame q = true -> False.
Proof.
  intros Hp Hq Ha. unfold anchored_554 in Ha. apply andb_prop in Ha as [_ Ha].
  apply is_554_bounds in Ha. lia.
Qed.

Lemma walk_walked hooks frame fuel i carry :
  0 <= i <= zlen frame -> 0 <= carry_count carry -> at_field frame i -> carry_ok hooks frame i carry ->
  zlen frame - i <= Z.of_nat fuel ->
  let ws := walk_spec fuel hooks frame i carry in
  Forall (walked_ok hooks frame) ws /\
  forall q, i <= q -> anchored_554 frame q = true -> covered frame ws q.
Proof.
  revert i carry. induction fuel as [|fuel IH]; intros i carry Hi Hc Hat Hcar Hf; cbn [walk_spec].
  { split; [done|]. intros q Hq Ha. exfalso. eapply (beyond_end frame i q); (done || lia). }
  destruct (zlen frame <=? i) eqn:Ei.
  { split; [done|]. intros q Hq Ha. exfalso. eapply (beyond_end frame i q); (done || lia). }
  destruct (lenient_tag_loop (zdrop i frame) i 0 true) as [[tag ok] j] eqn:El.
  pose proof El as Hj. apply lenient_bounds in Hj. rewrite zlen_drop in Hj by lia.
  destruct ((zlen frame <=? j) || negb (zget frame j =? EQ) || negb ok) eqn:Eb.
  - destruct (value_end_spec frame j) as (Hb & Hv & Hs); [lia|].
    assert (i < skip_soh frame (value_end frame j) <= zlen frame) by (unfold skip_soh; case_tests; lia).
    destruct (IH (skip_soh frame (value_end frame j)) (carry_reset carry)) as [Hok Hcov]; [lia|done| |by left|lia|].
    { unfold at_field, skip_soh. destruct (_ <? zlen frame) eqn:Ee; [|lia].
      right; right. replace (_ + 1 - 1) with (value_end frame j) by lia. apply Hs. lia. }
    split; [exact Hok|]. intros q Hq Ha.
    destruct (Z_le_gt_dec (skip_soh frame (value_end frame j)) q) as [|Hlt]; [by apply Hcov|].
    exfalso. eapply (bad_tag_gap frame i); [lia|exact El|exact Eb| |exact Ha]. lia.
  - destruct (read_value hooks carry frame (j + 1) (u16 tag)) as [[ext|] carry'] eqn:Er.
    2: { apply fallback_walked; [lia|unfold zlen; lia]. }
    pose proof (read_value_count _ _ _ _ _ _ _ Hc Er) as Hc'.
    assert (Hj1 : 0 <= j + 1 <= zlen frame) by lia.
    destruct (read_value_extent _ _ _ _ _ _ _ Hj1 Hc Er) as (He & Hle & Hs & Hct & Hpl).
    assert (ok = true) as -> by (destruct ok; [done|cbn in Eb; lia]).
    destruct (lenient_field_at frame i tag j Hat ltac:(lia) El ltac:(lia) ltac:(lia)) as [Hfield Hu].
    rewrite Hu in Er. pose proof (read_value_carry hooks frame i carry (j + 1) tag ext carry' Hj1 Hc Hfield Er Hs ltac:(lia)) as Hcar'.
    pose proof (read_counted_extent hooks frame i carry (j + 1) tag ext carry' Hj1 Hc ltac:(lia) Hcar Hfield Er) as Hcounted.
    set (i' := if ve_end ext <? zlen frame then ve_end ext + 1 else zlen frame) in *.
    assert (Hii : i < i' <= zlen frame) by (unfold i'; case_tests; lia).
    destruct (IH i' carry') as [Hok Hcov]; [lia|done| |done|lia|].
    { unfold at_field, i'. destruct (_ <? zlen frame) eqn:Ee; [|lia]. right; right.
      replace (_ + 1 - 1) with (ve_end ext) by lia. apply Hs. lia. }
    split.
    + rewrite !Forall_app. split_and!; [| |exact Hok].
      * destruct (ve_counted ext); [|done]. apply Forall_singleton. by apply Hcounted.
      * destruct (is_554_eq_at frame i && (j =? i + 3)) eqn:E5; [|done]. apply Forall_singleton. cbn.
        apply andb_prop in E5 as [E5 Ej]. split_and!; [lia|lia|lia| |].
        -- replace (j + 1 - 4) with i by lia. unfold anchored_554. rewrite E5, andb_true_r.
           destruct Hat as [H|[H|H]]; [rewrite H; done|lia|rewrite H; apply orb_true_r].
        -- destruct (ve_counted ext); [right; by apply Hcounted|left]. rewrite (Hpl eq_refl). apply value_end_plain. lia.
    + intros q Hq Ha. rewrite app_assoc. apply covered_app.
      destruct (Z_le_gt_dec i' q) as [|Hlt]; [right; by apply Hcov|left].
      eapply (value_gap frame i); try done; try lia. unfold i' in Hlt. case_tests; lia.
Qed.

Lemma maybe_554_sound fuel frame p : 0 <= p -> zlen frame - p <= Z.of_nat fuel ->
  maybe_554_loop fuel frame p = false -> forall q, p <= q -> anchored_554 frame q = false.
Proof.
  revert p. induction fuel as [|fuel IH]; intros p Hp Hf Hm q Hq;
    apply not_true_is_false; intros Ha; pose proof Ha as Hb;
    unfold anchored_554 in Hb; apply andb_prop in Hb as [_ Hb]; apply is_554_bounds in Hb; [lia|].
  cbn [maybe_554_loop] in Hm. destruct (p + 4 <=? zlen frame) eqn:E; [|lia].
  apply orb_false_iff in Hm as [Hn Hm]. destruct (decide (q = p)) as [->|Hne]; [congruence|].
  rewrite (IH (p + 1)) in Ha by (done || lia). done.
Qed.

Lemma walked_values_ok frame hooks :
  Forall (walked_ok hooks frame) (walked_values frame hooks) /\
  forall q, 0 <= q -> anchored_554 frame q = true -> covered frame (walked_values frame hooks) q.
Proof.
  apply walk_walked; [pose proof (zlen_nonneg frame); lia|done|by left|by left|unfold zlen; lia].
Qed.

Lemma for_each_exact {A} (frame_of : A -> bytes) on_value hooks a :
  stays_inside frame_of on_value ->
  for_each_tag554_value frame_of on_value hooks a =
    fold_left (report on_value) (walked_values (frame_of a) hooks) a.
Proof.
  intros Hs. unfold for_each_tag554_value. pose proof (zlen_nonneg (frame_of a)).
  destruct (maybe_554_loop _ _ _) eqn:E; [by apply password_loop_exact|].
  pose proof (fun H => maybe_554_sound _ _ 0 (Z.le_refl 0) H E) as Hno. specialize (Hno ltac:(unfold zlen; lia)).
  destruct (walked_values_ok (frame_of a) hooks) as [Hok _]. revert Hok.
  generalize (walked_values (frame_of a) hooks). intros ws Hok. clear E.
  induction Hok as [|w ws Hw _ IH]; [done|]. cbn [fold_left].
  destruct w as [s e|]; [|exact IH]. destruct Hw as (Hse & _ & Ha & _).
  rewrite Hno in Ha by lia. done.
Qed.

(** *** Masking *)

Lemma zget_write l pos d p : 0 <= pos -> pos + zlen d <= zlen l -> 0 <= p ->
  zget (zwrite l pos d) p = if (pos <=? p) && (p <? pos + zlen d) then zget d (p - pos) else zget l p.
Proof.
  intros Hpos Hd Hp. pose proof (zlen_nonneg d). unfold zwrite.
  destruct (Z.leb_spec pos p); cbn [andb].
  - rewrite zget_app_r by (rewrite zlen_take; lia). rewrite zlen_take by lia.
    destruct (Z.ltb_spec p (pos + zlen d)); [by rewrite zget_app_l by lia|].
    rewrite zget_app_r, zget_drop by lia. f_equal. lia.
  - rewrite zget_app_l, zget_take by (rewrite ?zlen_take; lia). done.
Qed.

Lemma zget_stars n p : 0 <= p < Z.of_nat n -> zget (replicate n 42) p = 42.
Proof.
  intros Hp. unfold zget. assert (H : (replicate n 42 !! Z.to_nat p) = Some 42)
    by (apply lookup_replicate_2; lia).
  by rewrite (nth_lookup_Some _ _ 0 42).
Qed.

Lemma mask_value_spec s e f : 0 <= s <= e -> e <= zlen f ->
  zlen (mask_value s e f) = zlen f /\
  forall p, 0 <= p -> zget (mask_value s e f) p = if (s <=? p) && (p <? e) then 42 else zget f p.
Proof.
  intros Hs He. unfold mask_value.
  assert (Hl : zlen (replicate (Z.to_nat (e - s)) 42) = e - s) by (rewrite zlen_replicate; lia).
  split; [apply zlen_write; lia|]. intros p Hp. rewrite zget_write, Hl by lia.
  replace (s + (e - s)) with e by lia. destruct (_ && _) eqn:E; [|done]. apply zget_stars. lia.
Qed.

Definition mask_step : Z -> Z -> bytes * bool -> bytes * bool :=
  fun s e a => (mask_value s e a.1, true).

Lemma mask_stays : stays_inside fst mask_step.
Proof.
  intros s e [f b] Hs He. destruct (mask_value_spec s e f Hs He) as [Hl Hg]. unfold mask_step; cbn [fst].
  split; [done|]. intros r Hr. rewrite Hg by done. unfold SOH.
  split; [|intros Hout]; destruct (_ && _) eqn:E; (by left) || (by right) || (done || lia).
Qed.

Definition hides (p : Z) (w : walked) : bool :=
  match w with password s e => (s <=? p) && (p <? e) | counted _ _ => false end.
Definition is_password (w : walked) : bool :=
  match w with password _ _ => true | counted _ _ => false end.

Lemma fold_mask h ws f b : Forall (walked_ok h f) ws ->
  let a := fold_left (report mask_step) ws (f, b) in
  zlen a.1 = zlen f /\ a.2 = b || existsb is_password ws /\
  forall p, 0 <= p -> zget a.1 p = if existsb (hides p) ws then 42 else zget f p.
Proof.
  intros Hw. cbn zeta. assert (H : forall g b, zlen g = zlen f ->
    zlen (fold_left (report mask_step) ws (g, b)).1 = zlen f /\
    (fold_left (report mask_step) ws (g, b)).2 = b || existsb is_password ws /\
    forall p, 0 <= p -> zget (fold_left (report mask_step) ws (g, b)).1 p =
      if existsb (hides p) ws then 42 else zget g p); [|by apply H].
  clear b. induction Hw as [|w ws Hw _ IH]; intros g b Hg; cbn [fold_left existsb].
  { by rewrite orb_false_r. }
  destruct w as [s e|s e]; cbn [report is_password hides]; [|exact (IH g b Hg)].
  destruct Hw as (Hse & He & _ & _). destruct (mask_value_spec s e g) as [Hl Hm]; [lia|lia|].
  destruct (IH (mask_value s e g) true) as (H1 & H2 & H3); [lia|].
  change (mask_step s e (g, b)) with (mask_value s e g, true).
  rewrite H2, orb_true_r. split; [done|]. split; [done|]. intros p Hp. rewrite H3, Hm by done.
  destruct ((s <=? p) && (p <? e)), (existsb (hides p) ws); done.
Qed.

Lemma found_exact frame hooks :
  frame_has_genuine_tag554 frame hooks = existsb is_password (walked_values frame hooks).
Proof.
  unfold frame_has_genuine_tag554. rewrite for_each_exact.
  2: { intros s e a _ _. split; [done|]. intros r _. split; [by right|done]. }
  cbn [fst]. generalize (walked_values frame hooks). intros ws.
  assert (H : forall b, (fold_left (report (fun _ _ (a : bytes * bool) => (a.1, true))) ws (frame, b)).2 =
    b || existsb is_password ws); [|by rewrite H].
  induction ws as [|[s e|s e] ws IH]; intros b; cbn [fold_left report existsb is_password];
    [by rewrite orb_false_r|by rewrite IH, orb_true_r|apply IH].
Qed.

(** *** Conforming messages *)

Fixpoint password_spans (pos : Z) (fs : list (Z * bytes)) : list (Z * Z) :=
  match fs with
  | [] => []
  | (tag, v) :: fs =>
      (if tag =? 554 then [(pos + 4, pos + 4 + zlen v)] else []) ++
      password_spans (pos + zlen (field_text tag v)) fs
  end.

Lemma lenient_field pre tag v rest : 0 <= tag <= 0xFFFF ->
  lenient_tag_loop (zdrop (zlen pre) (pre ++ field_text tag v ++ rest)) (zlen pre) 0 true =
    (tag, true, zlen pre + zlen (dec_text tag)).
Proof.
  intros Ht. pose proof (read_tag_at pre tag v rest Ht) as H. unfold read_tag in H.
  destruct (tag_loop _ _ _) as [t j q| |] eqn:E; [|done..].
  apply lenient_of_strict in E. rewrite E. case_tests. injection H as -> H.
  f_equal. lia.
Qed.

Lemma is_554_field pre tag v rest : 0 <= tag <= 0xFFFF ->
  let frame := pre ++ field_text tag v ++ rest in
  is_554_eq_at frame (zlen pre) && (zlen pre + zlen (dec_text tag) =? zlen pre + 3) = (tag =? 554).
Proof.
  intros Ht. cbn zeta. destruct (tag =? 554) eqn:E.
  - apply Z.eqb_eq in E as ->. change (zlen (dec_text 554)) with 3. rewrite Z.eqb_refl, andb_true_r.
    unfold is_554_eq_at, field_text. change (dec_text 554) with [53; 53; 52]. cbn [app].
    rewrite <- (Z.add_0_r (zlen pre)) at 2. rewrite !zget_at by lia.
    rewrite !zlen_app, !zlen_cons. pose proof (zlen_nonneg ((v ++ [SOH]) ++ rest)).
    match goal with |- context [?a <=? ?b] => replace (a <=? b) with true by lia end. reflexivity.
  - apply not_true_is_false. intros H. apply andb_prop in H as [H5 Hj].
    pose proof (lenient_field pre tag v rest Ht) as Hl. pose proof (zlen_nonneg pre).
    rewrite lenient_554 in Hl by done. injection Hl as Hl _. lia.
Qed.

Lemma walk_conforming {A} (on_value : Z -> Z -> A -> A) h fs : hooks_ok h ->
  forall fuel pre k c k' a,
  observe_all h k fs = Some k' -> armed_alike h k c -> 0 <= carry_count c ->
  Forall (fun f => 0 <= f.1 <= 0xFFFF) fs ->
  Forall (fun f => length_tag_for_data h f.1 = 0 -> SOH ∉ f.2) fs ->
  (length fs <= fuel)%nat ->
  fold_left (report on_value) (walk_spec fuel h (pre ++ fields_bytes fs) (zlen pre) c) a =
    fold_left (fun a se => on_value se.1 se.2 a) (password_spans (zlen pre) fs) a.
Proof.
  intros Hh. induction fs as [|[tag v] fs IH]; intros fuel pre k c k' a Ho Harm Hc Ht Hs Hfuel.
  - change (fields_bytes []) with (@nil Z). rewrite app_nil_r.
    destruct fuel; cbn [walk_spec]; [done|]. by rewrite Z.leb_refl.
  - destruct fuel as [|fuel]; [cbn in Hfuel; lia|].
    apply Forall_cons in Ht as [Ht Hts]. apply Forall_cons in Hs as [Hs Hss]. cbn [fst snd] in Ht, Hs.
    rewrite fields_bytes_cons. set (rest := fields_bytes fs).
    cbn [observe_all] in Ho. destruct (observe h k tag v) as [ok k2] eqn:Eo. destruct ok; [|done].
    destruct (observed_read h k c pre tag v rest k2 Hh Harm Ht Hs Eo) as (e & cnt & Er & Harm').
    cbn [walk_spec password_spans]. rewrite lenient_field by done.
    rewrite is_554_field by done. set (frame := pre ++ field_text tag v ++ rest) in *.
    assert (Hlen : zlen frame = zlen pre + zlen (dec_text tag) + zlen v + 2 + zlen rest).
    { unfold frame. rewrite !zlen_app, zlen_field_text. lia. }
    pose proof (zlen_nonneg (dec_text tag)). pose proof (zlen_nonneg v). pose proof (zlen_nonneg rest).
    replace (zlen frame <=? zlen pre) with false by lia.
    assert (Hg : zget frame (zlen pre + zlen (dec_text tag)) = EQ).
    { unfold frame, field_text. rewrite zget_at by done.
      rewrite <- app_assoc, zget_app_r, Z.sub_diag by lia. done. }
    replace (zlen frame <=? zlen pre + zlen (dec_text tag)) with false by lia.
    rewrite Hg, wrap_small, Er by (change (2 ^ 16) with 65536; lia). cbn [orb negb Z.eqb ve_end ve_counted].
    change (EQ =? EQ) with true. cbn [negb orb]. rewrite !fold_left_app.
    assert (Hce : forall (b : bool) s t a, fold_left (report on_value) (if b then [counted s t] else []) a = a)
      by (by intros []). rewrite Hce.
    replace (_ <? zlen frame) with true by lia.
    assert (Ef : frame = (pre ++ field_text tag v) ++ rest) by apply app_assoc. rewrite Ef.
    replace (zlen pre + zlen (dec_text tag) + 1 + zlen v + 1) with (zlen (pre ++ field_text tag v))
      by (rewrite zlen_app, zlen_field_text; lia).
    rewrite (IH fuel _ k2 _ k').
    + rewrite (zlen_app pre). f_equal. destruct (tag =? 554) eqn:E5; [|done].
      replace tag with 554 by lia. assert (Hl : zlen (dec_text 554) = 3) by by vm_compute.
      rewrite Hl. cbn [fold_left report fst snd]. f_equal; lia.
    + done.
    + done.
    + cbn [carry_count]. pose proof (read_value_count _ _ _ _ _ _ _ Hc Er) as H'. done.
    + done.
    + done.
    + cbn in Hfuel. lia.
Qed.

Definition mask_field (f : Z * bytes) : Z * bytes :=
  if f.1 =? 554 then (f.1, replicate (length f.2) 42) else f.
Definition redact_field (f : Z * bytes) : Z * bytes := if f.1 =? 554 then (f.1, kMask) else f.

Lemma zwrite_middle a x b y : zlen x = zlen y -> zwrite (a ++ x ++ b) (zlen a) y = a ++ y ++ b.
Proof.
  intros Hl. unfold zwrite. rewrite ztake_app, <- Hl.
  replace (zlen a + zlen x) with (zlen (a ++ x)) by (rewrite zlen_app; lia).
  by rewrite (app_assoc a x b), zdrop_app.
Qed.

Lemma field_text_554 v rest pre :
  pre ++ field_text 554 v ++ rest = (pre ++ [53; 53; 52; EQ]) ++ v ++ SOH :: rest.
Proof.
  unfold field_text. change (dec_text 554) with [53; 53; 52]. rewrite <- !app_assoc. cbn [app].
  by rewrite <- app_assoc.
Qed.

Lemma mask_value_field pre v rest :
  mask_value (zlen pre + 4) (zlen pre + 4 + zlen v) (pre ++ field_text 554 v ++ rest) =
    pre ++ field_text 554 (replicate (length v) 42) ++ rest.
Proof.
  unfold mask_value. replace (zlen pre + 4 + zlen v - (zlen pre + 4)) with (zlen v) by lia.
  rewrite !field_text_554. unfold zlen at 2. rewrite Nat2Z.id.
  replace (zlen pre + 4) with (zlen (pre ++ [53; 53; 52; EQ])) by (rewrite zlen_app; done).
  apply zwrite_middle. by rewrite zlen_replicate.
Qed.

Lemma zlen_mask_field tag v :
  zlen (field_text (mask_field (tag, v)).1 (mask_field (tag, v)).2) = zlen (field_text tag v).
Proof.
  unfold mask_field. cbn [fst snd]. destruct (_ =? _); [|done].
  cbn [fst snd]. rewrite !zlen_field_text, zlen_replicate. done.
Qed.

Lemma mask_spans fs : forall pre b,
  fold_left (fun a se => mask_step se.1 se.2 a) (password_spans (zlen pre) fs) (pre ++ fields_bytes fs, b) =
    (pre ++ fields_bytes (map mask_field fs), b || existsb (fun f => f.1 =? 554) fs).
Proof.
  induction fs as [|[tag v] fs IH]; intros pre b; cbn [password_spans map existsb fst].
  { by rewrite orb_false_r. }
  rewrite fold_left_app. destruct (mask_field (tag, v)) as [tag' v'] eqn:Em.
  rewrite !fields_bytes_cons. pose proof (zlen_mask_field tag v) as Hl. rewrite Em in Hl. cbn [fst snd] in Hl.
  replace (fold_left _ (if tag =? 554 then _ else _) _) with
    (pre ++ field_text tag' v' ++ fields_bytes fs, b || (tag =? 554)).
  - rewrite !app_assoc. replace (zlen pre + zlen (field_text tag v)) with (zlen (pre ++ field_text tag' v'))
      by (rewrite zlen_app; lia). rewrite IH. by rewrite <- orb_assoc.
  - unfold mask_field in Em. cbn [fst snd] in Em. destruct (tag =? 554) eqn:E; injection Em as <- <-.
    + apply Z.eqb_eq in E as ->. cbn [fold_left fst snd]. unfold mask_step. cbn [fst].
      by rewrite mask_value_field, orb_true_r.
    + by rewrite orb_false_r.
Qed.

Lemma redact_spans fs : forall pre pos result, 0 <= pos <= zlen pre ->
  let a := fold_left (fun a se => redact_on_value se.1 se.2 a) (password_spans (zlen pre) fs)
    (pre ++ fields_bytes fs, result, pos) in
  a.1.2 ++ zdrop a.2 (pre ++ fields_bytes fs) =
    result ++ zdrop pos pre ++ fields_bytes (map redact_field fs).
Proof.
  induction fs as [|[tag v] fs IH]; intros pre pos result Hp; cbn [password_spans map].
  { cbn [fold_left fst snd]. change (fields_bytes []) with (@nil Z). by rewrite !app_nil_r. }
  cbn zeta. rewrite fold_left_app, fields_bytes_cons.
  assert (Hl : zlen pre + zlen (field_text tag v) = zlen (pre ++ field_text tag v)) by (rewrite zlen_app; lia).
  rewrite Hl.
  assert (Er : redact_field (tag, v) = if tag =? 554 then (tag, kMask) else (tag, v)) by done.
  rewrite Er. destruct (tag =? 554) eqn:E.
  - apply Z.eqb_eq in E as ->. cbn [fold_left fst snd redact_on_value]. rewrite !fields_bytes_cons.
    rewrite zlen_field_text in Hl. change (zlen (dec_text 554)) with 3 in Hl. pose proof (zlen_nonneg v).
    rewrite !(app_assoc pre). rewrite IH by lia. rewrite <- (app_assoc pre), field_text_554.
    rewrite zsub_app_l by (rewrite ?zlen_app; change (zlen [53; 53; 52; EQ]) with 4; lia).
    assert (Hs : zsub (pre ++ [53; 53; 52; EQ]) pos (zlen pre + 4 - pos) = zdrop pos pre ++ [53; 53; 52; EQ]).
    { unfold zsub. rewrite zdrop_app_l by lia. apply ztake_ge. rewrite zlen_app, zlen_drop by lia.
      change (zlen [53; 53; 52; EQ]) with 4. lia. }
    assert (Hd : zdrop (zlen pre + 4 + zlen v) (pre ++ field_text 554 v) = [SOH]).
    { rewrite <- (app_nil_r (field_text 554 v)), field_text_554, app_assoc.
      replace (zlen pre + 4 + zlen v) with (zlen ((pre ++ [53; 53; 52; EQ]) ++ v))
        by (rewrite !zlen_app; done). apply zdrop_app. }
    rewrite Hs, Hd. unfold field_text. change (dec_text 554) with [53; 53; 52].
    rewrite <- !app_assoc. cbn [app]. by rewrite <- !app_assoc.
  - cbn [fold_left]. rewrite !fields_bytes_cons, !(app_assoc pre), IH by (pose proof (zlen_nonneg (field_text tag v)); lia).
    rewrite zdrop_app_l by lia. by rewrite <- !app_assoc.
Qed.

Lemma conforming_walk {A} (on_value : Z -> Z -> A -> A) h fs a : conforming h fs ->
  fold_left (report on_value) (walked_values (fields_bytes fs) h) a =
    fold_left (fun a se => on_value se.1 se.2 a) (password_spans 0 fs) a.
Proof.
  intros [Hh Hc Ht Hs]. unfold container_conforms in Hc.
  destruct (observe_all h checker_init fs) as [k'|] eqn:Eo; [|done].
  apply (walk_conforming on_value h fs Hh _ [] checker_init carry_init k' a); try done.
  - split; [done|]. split; [done|]. by left.
  - pose proof (fields_bytes_length fs). unfold zlen in *. lia.
Qed.

(** ** Properties *)

Lemma anchored_password frame s : 4 <= s -> anchored_554 frame (s - 4) = true <-> password_at frame s.
Proof.
  intros Hs. unfold anchored_554, is_554_eq_at, password_at.
  replace (s - 4 - 1) with (s - 5) by lia. replace (s - 4 + 4) with s by lia. unfold SOH, EQ. split.
  - intros H. assert (Hle : s <= zlen frame) by lia. split; [lia|]. split; [lia|].
    unfold zsub. rewrite (zdrop_cons frame (s - 4)), (zdrop_cons frame (s - 4 + 1)) by lia.
    replace (s - 4 + 1 + 1) with (s - 4 + 2) by lia. rewrite (zdrop_cons frame (s - 4 + 2)) by lia.
    replace (s - 4 + 2 + 1) with (s - 4 + 3) by lia. rewrite (zdrop_cons frame (s - 4 + 3)) by lia.
    replace (zget frame (s - 4)) with 53 by lia. replace (zget frame (s - 4 + 1)) with 53 by lia.
    replace (zget frame (s - 4 + 2)) with 52 by lia. replace (zget frame (s - 4 + 3)) with 61 by lia. reflexivity.
  - intros (Hle & Hat & Hz). assert (Hg : forall k, 0 <= k < 4 -> zget frame (s - 4 + k) = zget [53; 53; 52; 61] k).
    { intros k Hk. rewrite <- Hz. unfold zsub. rewrite zget_take, zget_drop by lia. done. }
    assert (H0 : zget frame (s - 4 + 0) = 53) by (apply (Hg 0); lia). rewrite Z.add_0_r in H0.
    assert (H1 : zget frame (s - 4 + 1) = 53) by (apply (Hg 1); lia).
    assert (H2 : zget frame (s - 4 + 2) = 52) by (apply (Hg 2); lia).
    assert (H3 : zget frame (s - 4 + 3) = 61) by (apply (Hg 3); lia). lia.
Qed.

Lemma masked_conforming h fs : conforming h fs ->
  mask_tag554_same_length_inplace (fields_bytes fs) h =
    (existsb (fun f => f.1 =? 554) fs, fields_bytes (map mask_field fs)).
Proof.
  intros Hc.
  unfold mask_tag554_same_length_inplace. change (fun (s e : Z) (a : bytes * bool) => (mask_value s e a.1, true)) with mask_step.
  rewrite (for_each_exact fst mask_step h (fields_bytes fs, false) mask_stays). cbn [fst].
  rewrite conforming_walk by done.
  pose proof (mask_spans fs [] false) as H. change (zlen []) with 0 in H. cbn [app] in H. by rewrite H.
Qed.

(** C36: masking hides passwords and touches nothing else.  On any frame, well formed or
    not, and under any dictionary, the masker keeps the length.  A byte it changes becomes a
    star and lies inside a Password value: behind a "554=" where a field starts, and before
    the SOH that ends the value, or within its count where the dictionary pairs 554 with a
    Length field.  Every plain Password value is starred whole, unless its "554=" lies inside
    the counted value of a Data field.  It reports a Password only where there is one, as the
    detector does, and a frame it reports none in is left alone.  In a written message, whose
    fields pass the Length+Data rule, it stars exactly the Password values, and keeps a Data
    value that spells out a Password field. *)
Theorem masking_is_safe frame hooks :
  let '(masked, out) := mask_tag554_same_length_inplace frame hooks in
  zlen out = zlen frame /\
  (forall p, 0 <= p -> zget out p = zget frame p \/
     zget out p = 42 /\ exists s e, s <= p < e /\ password_at frame s /\
       (plain_value frame s e \/ counted_value hooks frame s e)) /\
  (forall s e, password_at frame s -> plain_value frame s e ->
     (forall p, s <= p < e -> zget out p = 42) \/
     exists s' e', counted_value hooks frame s' e' /\ s' <= s - 4 < e') /\
  (masked = true -> exists s, password_at frame s) /\
  masked = frame_has_genuine_tag554 frame hooks /\
  (masked = false -> out = frame) /\
  (forall fs, conforming hooks fs -> frame = fields_bytes fs ->
     masked = existsb (fun f => f.1 =? 554) fs /\ out = fields_bytes (map mask_field fs)).
Proof.
  assert (Hconf : forall fs, conforming hooks fs -> frame = fields_bytes fs ->
    mask_tag554_same_length_inplace frame hooks = (existsb (fun f => f.1 =? 554) fs, fields_bytes (map mask_field fs)))
    by (by intros fs Hfs ->; apply masked_conforming).
  revert Hconf.
  unfold mask_tag554_same_length_inplace. change (fun (s e : Z) (a : bytes * bool) => (mask_value s e a.1, true)) with mask_step.
  rewrite (for_each_exact fst mask_step hooks (frame, false) mask_stays). cbn [fst].
  destruct (walked_values_ok frame hooks) as [Hok Hcov]. rewrite found_exact.
  set (ws := walked_values frame hooks) in *.
  destruct (fold_mask hooks ws frame false Hok) as (Hl & Hm & Hg).
  destruct (fold_left _ ws (frame, false)) as [out masked]. cbn [fst snd] in *. intros Hconf.
  assert (Hin : forall w, w ∈ ws -> walked_ok hooks frame w) by (by apply Forall_forall).
  split; [done|]. split_and!.
  - intros p Hp. rewrite Hg by done. destruct (existsb (hides p) ws) eqn:E; [|by left].
    right. split; [done|]. apply existsb_exists in E as (w & Hw & Hh).
    specialize (Hin w (proj2 (list_elem_of_In _ _) Hw)). destruct w as [s e|]; [|done]. cbn in *.
    destruct Hin as (Hse & He & Ha & Hv). exists s, e. split; [lia|]. split; [|done].
    by apply anchored_password; [lia|].
  - intros s e Hs Hv. assert (H4 : 4 <= s) by apply Hs.
    destruct (Hcov (s - 4) ltac:(lia)) as [(e' & He' & Hle)|(s' & e' & Hc' & Hb)]; [by apply anchored_password| |].
    + left. rewrite Z.sub_add in He', Hle. pose proof (plain_value_end frame s e ltac:(lia) Hv) as ->.
      intros p Hp. rewrite Hg by lia. rewrite (proj2 (existsb_exists _ _)); [done|].
      exists (password s e'). split; [by apply list_elem_of_In|]. cbn. lia.
    + right. exists s', e'. split; [exact (Hin _ Hc')|done].
  - intros ->. cbn in Hm. symmetry in Hm. apply existsb_exists in Hm as ([s e|] & Hw & Hp); [|done].
    exists s. specialize (Hin _ (proj2 (list_elem_of_In _ _) Hw)). cbn in Hin.
    apply anchored_password; [lia|]. tauto.
  - done.
  - intros ->. assert (Hno : forall p, existsb (hides p) ws = false).
    { intros p. apply not_true_is_false. intros (w & Hw & Hh)%existsb_exists.
      assert (Hp : existsb is_password ws = true); [|cbn in Hm; congruence].
      apply existsb_exists. exists w. split; [done|]. by destruct w. }
    rewrite <- (zdrop_0 out), <- (zdrop_0 frame). apply zdrop_ext; [done|lia|].
    intros p Hp. by rewrite Hg, Hno by lia.
  - intros fs Hfs Hfr. pose proof (Hconf fs Hfs Hfr) as E. injection E as -> ->. done.
Qed.

Definition secret_message : list (Z * bytes) :=
  [(35, [65]); (95, [55]); (96, [1; 53; 53; 52; 61; 65; 66]); (554, [97; 98])].

Lemma secret_conforming : conforming no_hooks secret_message.
Proof.
  split; [done|by vm_compute|repeat constructor; cbn; lia|].
  apply Forall_forall. intros f Hf. assert (H : forallb (fun f => negb (length_tag_for_data no_hooks f.1 =? 0) ||
    forallb (fun c => negb (c =? SOH)) f.2) secret_message = true) by by vm_compute.
  rewrite forallb_forall in H. specialize (H f (proj1 (list_elem_of_In _ _) Hf)).
  intros E. rewrite E in H. cbn in H. rewrite forallb_forall in H. intros Hin%list_elem_of_In%H. done.
Qed.

(** A RawData value that spells out a Password field, and a real one. *)
Lemma masking_is_safe_witness :
  (mask_tag554_same_length_inplace (fields_bytes secret_message) no_hooks).2 =
    fields_bytes [(35, [65]); (95, [55]); (96, [1; 53; 53; 52; 61; 65; 66]); (554, [42; 42])].
Proof.
  pose proof (masking_is_safe (fields_bytes secret_message) no_hooks) as H.
  destruct (mask_tag554_same_length_inplace _ _) as [masked out]. destruct H as (_ & _ & _ & _ & _ & _ & H).
  exact (proj2 (H secret_message secret_conforming eq_refl)).
Defined.

(** The log redactor.  It knows the standard pairs only, and puts three stars for each
    Password value of a message they pass; every other field is kept to the byte. *)
Theorem written_passwords_redacted fs : conforming no_hooks fs ->
  redact_tag554 (fields_bytes fs) = fields_bytes (map redact_field fs).
Proof.
  intros Hc. unfold redact_tag554. rewrite for_each_exact.
  2: { intros s e [[f r] p] _ _. split; [done|]. intros q _. split; [by right|done]. }
  cbn [fst]. rewrite conforming_walk by done.
  pose proof (redact_spans fs [] 0 []) as H. change (zlen []) with 0 in H. cbn [app] in H. cbn zeta in H.
  specialize (H ltac:(lia)). destruct (fold_left _ _ _) as [[f r] p]. cbn [fst snd] in H. done.
Qed.

Lemma written_passwords_redacted_witness :
  redact_tag554 (fields_bytes secret_message) =
    fields_bytes [(35, [65]); (95, [55]); (96, [1; 53; 53; 52; 61; 65; 66]); (554, [42; 42; 42])].
Proof. exact (written_passwords_redacted secret_message secret_conforming). Defined.
