(* ===== verification/OffsetTable.v ===== *)
(** The field index (include/fixpp/wire/offset_table.hpp, src/wire/offset_table.cpp:
    [build], [find]; src/session/parse_capacity.hpp): the eager parse of a frame into
    entries, the open-address overlay over first occurrences, and the session's sizing of
    both. *)
From S2P Require Import Prelude Errors TagScan PairTable LengthData Writer Framer FrameHeader.

Definition default_max_offset_entries : Z := 4096.
Definition default_max_group_entries_per_instance : Z := 4096.

Record Config := Cfg {
  max_offset_entries : Z;
  max_group_entries_per_instance : Z;
}.

Definition table_config_default : Config :=
  Cfg default_max_offset_entries default_max_group_entries_per_instance.

Record entry := Entry {
  e_offset : Z;
  e_length : Z;
  e_tag : Z;
  e_group_index_link : Z;
}.

#[global] Instance entry_eq_dec : EqDecision entry.
Proof. solve_decision. Defined.

(** The table as [build] leaves it; [group_index_] and [nested_cache_] are with the
    groups.  [frame_base_] is the frame's bytes. *)
Record OffsetTable := Table {
  frame_base : bytes;
  cfg : Config;
  hooks : dict_hooks;
  seed : Z;
  entries : list entry;
  overlay : list Z;
  status : expected unit;
}.

(** The [std::pmr::memory_resource] the table's vectors draw on, as the answers it
    gives: room for [n] entries, room for an overlay of [n] slots. *)
Record memory_resource := Resource {
  mr_entries : Z -> bool;
  mr_overlay : Z -> bool;
}.

Definition new_delete_resource : memory_resource := Resource (fun _ => true) (fun _ => true).

(** ** The overlay hash *)

Definition mix (tag seed : Z) : Z :=
  let h := Z.lxor 2166136261 seed in
  let h := u32 (Z.lxor h (Z.land tag 0xFF) * 16777619) in
  u32 (Z.lxor h (Z.land (Z.shiftr tag 8) 0xFF) * 16777619).

(** [while (cap < want) cap <<= 1;]; 64 rounds reach any [size_t]. *)
Fixpoint cap_loop (fuel : nat) (cap want : Z) : Z :=
  match fuel with
  | O => cap
  | S fuel => if cap <? want then cap_loop fuel (u64 (Z.shiftl cap 1)) want else cap
  end.

Definition overlay_cap_for (n : Z) : Z :=
  let want := u64 (u64 (n * 5) / 4 + 1) in
  cap_loop 64 8 want.

(** ** [build] *)

Definition count_cap (n : Z) : Z := if UINT32_MAX <? n then UINT32_MAX else n.

(** The value that starts at [val_start]: its length, the next field's offset and the
    pending Length+Data carry it leaves. *)
Definition build_value (h : dict_hooks) (buf : bytes) (val_start tag carry_tag carry_len : Z)
  : expected (Z * Z * (Z * Z)) :=
  let n := zlen buf in
  if negb (carry_tag =? 0) && (tag =? carry_tag) then
    guard negb (n - val_start <? carry_len) else wire_invalid_field_format in
    let end_ := val_start + carry_len in
    guard negb ((n <=? end_) || negb (zget buf end_ =? SOH)) else wire_invalid_field_format in
    Ok (carry_len, end_ + 1, (0, 0))
  else
    let i := soh_from (zdrop val_start buf) val_start in
    let dt := data_tag_for_length h tag in
    let pending :=
      if negb (dt =? 0) then (dt, bounded_digits (count_cap n) (zsub buf val_start (i - val_start)) 0)
      else (0, 0) in
    Ok (i - val_start, if i <? n then i + 1 else i, pending).

(** The field loop; every round consumes a byte, so [length buf] rounds suffice. *)
Fixpoint build_loop (fuel : nat) (mr : memory_resource) (c : Config) (h : dict_hooks) (buf : bytes)
    (i : Z) (pending : Z * Z) (es : list entry) : expected (list entry) :=
  match fuel with
  | O => Ok es
  | S fuel =>
      if zlen buf <=? i then Ok es
      else
        match tag_loop (zdrop i buf) i 0 with
        | tag_non_digit => Err wire_invalid_field_format
        | tag_over_range => Err wire_tag_out_of_range
        | tag_end tag j _ =>
            guard negb ((zlen buf <=? j) || negb (zget buf j =? EQ) || (j =? i))
              else wire_invalid_field_format in
            let val_start := j + 1 in
            match build_value h buf val_start tag pending.1 pending.2 with
            | Err e => Err e
            | Ok (val_len, next, pending) =>
                if max_offset_entries c <=? zlen es then Err wire_offset_table_full
                else if negb (mr_entries mr (zlen es + 1)) then Err out_of_memory
                else build_loop fuel mr c h buf next pending
                       (es ++ [Entry (u32 val_start) (u32 val_len) (u16 tag) 0])
            end
        end
  end.

Definition kMaxBuildProbe : Z := 128.

(** The probe of one insert: the slot to fill, or [None] for [skip_insert].  It stops
    within [kMaxBuildProbe] rounds. *)
Fixpoint insert_probe (fuel : nat) (es : list entry) (ov : list Z) (mask tag slot probes : Z)
  : option Z :=
  match fuel with
  | O => None
  | S fuel =>
      let v := zget ov slot in
      if v =? 0 then Some slot
      else if e_tag (nth (Z.to_nat (v - 1)) es (Entry 0 0 0 0)) =? tag then None
      else if kMaxBuildProbe <=? probes + 1 then None
      else insert_probe fuel es ov mask tag (Z.land (slot + 1) mask) (probes + 1)
  end.

Definition overlay_insert (es : list entry) (seed mask : Z) (ov : list Z) (e : nat) : list Z :=
  let tag := e_tag (nth e es (Entry 0 0 0 0)) in
  match insert_probe (Z.to_nat kMaxBuildProbe) es ov mask tag (Z.land (mix tag seed) mask) 0 with
  | Some slot => <[Z.to_nat slot := u32 (Z.of_nat e + 1)]> ov
  | None => ov
  end.

Definition build_overlay (es : list entry) (seed cap : Z) : list Z :=
  fold_left (overlay_insert es seed (cap - 1)) (seq 0 (length es)) (replicate (Z.to_nat cap) 0).

Definition build (mr : memory_resource) (c : Config) (h : dict_hooks) (seed : Z) (frame : bytes)
    (reserve_entries : Z) : OffsetTable :=
  let red e := Table frame c h seed [] [] (Err e) in
  if negb (reserve_entries =? 0) && negb (mr_entries mr (Z.min reserve_entries (max_offset_entries c)))
  then red out_of_memory
  else
    match build_loop (length frame) mr c h frame 0 (0, 0) [] with
    | Err e => red e
    | Ok es =>
        let cap := overlay_cap_for (zlen es) in
        if negb (mr_overlay mr cap) then red out_of_memory
        else Table frame c h seed es (build_overlay es seed cap) (Ok tt)
    end.

(** ** [find] *)

Fixpoint find_probe (fuel : nat) (es : list entry) (ov : list Z) (mask tag slot probes : Z)
  : option entry :=
  match fuel with
  | O => None
  | S fuel =>
      let v := zget ov slot in
      if v =? 0 then None
      else
        let en := nth (Z.to_nat (v - 1)) es (Entry 0 0 0 0) in
        if e_tag en =? tag then Some en
        else if zlen ov <? probes + 1 then None
        else find_probe fuel es ov mask tag (Z.land (slot + 1) mask) (probes + 1)
  end.

Definition find (t : OffsetTable) (tag : Z) : expected entry :=
  let? _ := status t in
  if zlen (overlay t) =? 0 then Err wire_required_field_missing
  else
    let mask := zlen (overlay t) - 1 in
    match find_probe (S (length (overlay t))) (entries t) (overlay t) mask tag
            (Z.land (mix tag (seed t)) mask) 0 with
    | Some en => Ok en
    | None => Err wire_required_field_missing
    end.

(** ** The session's parse capacities *)

Definition sizeof_entry : Z := 12.
Definition sizeof_uint32 : Z := 4.
Definition kContainerSlack : Z := 16.
Definition kParseContainers : Z := 10.
Definition kProxyAlignPad : Z := 8 - 1.
Definition kAlignPad : Z := (4 - 1) + (4 - 1).
Definition kCallbackReadHeadroom : Z := 16384.

Definition entry_cap_for (limit : Z) : Z := limit / 3 + 1.
Definition reserve_for (entry_cap frame_bytes : Z) : Z := Z.min entry_cap (frame_bytes / 3 + 1).

Definition buffer_bytes (limit : Z) : Z :=
  let n := entry_cap_for limit in
  sizeof_entry * n + sizeof_uint32 * overlay_cap_for n + kAlignPad + kCallbackReadHeadroom +
  kParseContainers * (kContainerSlack + kProxyAlignPad).

(** ** Specification *)

(** The pairs of [h] do not chain: no tag is the Data of one pair and the Length of
    another, as in the standard table. *)
Class hooks_unchained (h : dict_hooks) : Prop := {
  unchained tag : data_tag_for_length h tag <> 0 ->
    data_tag_for_length h (data_tag_for_length h tag) = 0;
}.

(** [es] are the fields [fs] laid out in [buf] from offset [i], end to end: tag digits,
    '=', the value, and its SOH unless the frame stops there. *)
Fixpoint located (buf : bytes) (i : Z) (es : list entry) (fs : list (Z * bytes)) : Prop :=
  match es, fs with
  | [], [] => i = zlen buf
  | e :: es, (tag, v) :: fs =>
      exists ds rest,
        digits ds /\ ds <> [] /\ dec_value ds = tag /\ 0 <= tag <= 0xFFFF /\
        zdrop i buf = ds ++ EQ :: v ++ rest /\
        e = Entry (i + zlen ds + 1) (zlen v) tag 0 /\
        match rest with
        | [] => es = [] /\ fs = []
        | c :: _ => c = SOH /\ located buf (i + zlen ds + 1 + zlen v + 1) es fs
        end
  | _, _ => False
  end.

(** The first field with a tag. *)
Definition first_entry (es : list entry) (tag : Z) : option entry :=
  List.find (fun e => e_tag e =? tag) es.

Definition distinct_tags (es : list entry) : list Z := remove_dups (map e_tag es).

(** ** Lemmas *)

(** *** The parse *)

(** The table's pending pair and the scanners' carry agree on what the next field is
    counted by; the table's count is cut to the frame's size. *)
Definition pending_alike (n : Z) (pending : Z * Z) (c : length_data_carry) : Prop :=
  pending.1 = carry_data_tag c /\
  (pending.1 <> 0 -> Z.min n pending.2 = Z.min n (carry_count c)) /\ 0 <= carry_count c.

Lemma digit_prefix v : exists ds rest, v = ds ++ rest /\ digits ds /\ no_digit_head rest.
Proof.
  induction v as [|c v (ds & rest & -> & Hd & Hr)]; [by exists [], []|].
  destruct (is_digit c) eqn:E; [by exists (c :: ds), rest; repeat constructor|].
  by exists [], (c :: ds ++ rest).
Qed.

(** A frame under nine bytes cannot hold the digits that would wrap. *)
Lemma bounded_digits_short cap ds rest acc k :
  0 <= cap < 9 -> digits ds -> no_digit_head rest -> 0 <= k -> k + zlen ds <= 8 -> 0 <= acc < 10 ^ k ->
  forall exact, Z.min cap acc = Z.min cap exact -> 0 <= exact ->
  Z.min cap (bounded_digits cap (ds ++ rest) acc) = Z.min cap (dec_from exact ds).
Proof.
  intros Hcap Hd Hr. revert acc k. induction Hd as [|c ds Hc Hd IH]; intros acc k Hk Hl Ha exact He He0; cbn [app].
  - change (dec_from exact []) with exact. destruct rest as [|c rest]; [done|].
    cbn [bounded_digits]. cbn in Hr. unfold is_digit in Hr. by replace ((c <? 48) || (57 <? c)) with true by lia.
  - rewrite zlen_cons in Hl. pose proof (zlen_nonneg ds). apply is_digit_spec in Hc. cbn [bounded_digits].
    replace ((c <? 48) || (57 <? c)) with false by lia. rewrite dec_from_cons.
    assert (10 ^ k <= 10 ^ 7) by (apply Z.pow_le_mono_r; lia).
    assert (Hs : 10 ^ (k + 1) = 10 ^ k * 10) by (rewrite Z.pow_add_r; lia).
    assert (0 < 10 ^ k) by (apply Z.pow_pos_nonneg; lia). change (10 ^ 7) with 10000000 in *.
    unfold accumulate_bounded. cbv zeta. rewrite (wrap_small 32 (c - 48)) by lia.
    destruct (decide (cap < c - 48)) as [Hlt|Hge].
    + replace (u32 (cap - (c - 48))) with (cap - (c - 48) + 2 ^ 32)
        by (unfold wrap; rewrite <- (Z.mod_add _ 1) by lia; symmetry; apply Z.mod_small; lia).
      replace (_ / 10 <? acc) with false by dlia. cbn [snd].
      rewrite (wrap_small 32 (acc * 10)), wrap_small by lia. apply (IH _ (k + 1)); lia.
    + rewrite (wrap_small 32 (cap - (c - 48))) by lia. destruct ((cap - (c - 48)) / 10 <? acc) eqn:E; cbn [snd].
      * apply (IH _ (k + 1)); dlia.
      * rewrite (wrap_small 32 (acc * 10)), wrap_small by dlia. apply (IH _ (k + 1)); lia.
Qed.

Lemma count_cap_min v n : zlen v <= n -> n <= UINT32_MAX ->
  Z.min n (bounded_digits (count_cap n) v 0) = Z.min n (parse_bounded_u32 v).
Proof.
  intros Hv Hn. destruct (digit_prefix v) as (ds & rest & -> & Hd & Hr).
  unfold parse_bounded_u32, count_cap, UINT32_MAX in *. replace (4294967295 <? n) with false by lia.
  rewrite zlen_app in Hv. pose_zlen.
  rewrite (bounded_digits_spec 0xFFFFFFFF) by (done || unfold UINT32_MAX; lia).
  destruct (decide (n < 9)) as [Hs|].
  - rewrite (bounded_digits_short n ds rest 0 0) with (exact := 0) by (done || lia). lia.
  - rewrite bounded_digits_spec by (done || unfold UINT32_MAX; lia). lia.
Qed.

Lemma build_value_carry h buf vs tag pending c : hooks_ok h -> hooks_unchained h ->
  zlen buf <= UINT32_MAX -> 0 <= vs <= zlen buf -> pending_alike (zlen buf) pending c ->
  (carry_data_tag c <> 0 -> data_tag_for_length h (carry_data_tag c) = 0) ->
  match read_value h c buf vs tag with
  | (None, _) => build_value h buf vs tag pending.1 pending.2 = Err wire_invalid_field_format
  | (Some ext, c') => exists pending',
      build_value h buf vs tag pending.1 pending.2 =
        Ok (ve_end ext - vs, skip_soh buf (ve_end ext), pending') /\
      pending_alike (zlen buf) pending' c' /\
      (carry_data_tag c' <> 0 -> data_tag_for_length h (carry_data_tag c') = 0)
  end.
Proof.
  intros Hh Hu Hn Hvs (Ht & Hc & Hc0) Hdata. unfold read_value, build_value. rewrite Ht.
  rewrite (Z.eqb_sym tag). destruct (negb (carry_data_tag c =? 0) && (carry_data_tag c =? tag)) eqn:E.
  - assert (Et : carry_data_tag c = tag /\ tag <> 0) by lia. destruct Et as [Et Ht0].
    specialize (Hc ltac:(lia)). unfold counted_value_end.
    replace (zlen buf <? vs) with false by lia. cbn [orb].
    destruct (zlen buf - vs <=? carry_count c) eqn:E1.
    + destruct (zlen buf - vs <? pending.2) eqn:E2; [done|]. cbn [negb].
      by replace (zlen buf <=? vs + pending.2) with true by lia.
    + replace pending.2 with (carry_count c) by lia. replace (zlen buf - vs <? carry_count c) with false by lia.
      replace (zlen buf <=? vs + carry_count c) with false by lia. cbn [negb orb].
      destruct (zget buf (vs + carry_count c) =? SOH) eqn:E3; cbn [negb]; [|done].
      exists (0, 0). cbn [ve_end]. unfold skip_soh. rewrite <- Et, Hdata by lia. cbn [negb].
      replace (vs + carry_count c <? zlen buf) with true by lia.
      replace (vs + carry_count c - vs) with (carry_count c) by lia. by repeat split.
  - eexists. cbn [ve_end]. split; [done|]. cbn [carry_data_tag].
    destruct (data_tag_for_length h tag =? 0) eqn:E1; cbn [negb].
    + split; [|lia]. split; [cbn; lia|]. by split.
    + split; [|intros _; apply unchained; lia]. split; [done|]. cbn [fst snd carry_count].
      split; [intros _|apply parse_bounded_nonneg]. apply count_cap_min; [|done].
      pose proof (soh_from_ge (zdrop vs buf) vs) as Hsoh. rewrite zlen_drop in Hsoh by lia.
      rewrite zlen_sub by lia. lia.
Qed.

Lemma value_rest h c buf vs tag ext c' :
  0 <= carry_count c -> 0 <= vs <= zlen buf -> read_value h c buf vs tag = (Some ext, c') ->
  exists rest, zdrop vs buf = zsub buf vs (ve_end ext - vs) ++ rest /\
    zlen (zsub buf vs (ve_end ext - vs)) = ve_end ext - vs /\
    (rest = [] /\ ve_end ext = zlen buf \/ exists q, rest = SOH :: q /\ ve_end ext < zlen buf).
Proof.
  intros Hc Hvs Hr. assert (Hle : vs <= ve_end ext <= zlen buf) by by eapply read_value_end.
  assert (Hsoh : ve_end ext = zlen buf \/ zget buf (ve_end ext) = SOH).
  { revert Hr. unfold read_value. destruct (_ && _).
    - unfold counted_value_end. case_tests; intros [= <- _]; cbn; right; lia.
    - intros [= <- _]. cbn [ve_end]. destruct (soh_split (zdrop vs buf)) as [Hn|(a & b & E & Ha)].
      + left. rewrite soh_from_none, zlen_drop by (done || lia). lia.
      + right. rewrite E, soh_from_at by done. pose proof (zlen_nonneg a).
        rewrite <- zget_drop, E by lia. rewrite <- (Z.add_0_r (zlen a)), zget_at by lia. done. }
  exists (zdrop (ve_end ext) buf). unfold zsub. rewrite zlen_take by (rewrite zlen_drop; lia).
  split; [|split; [done|]].
  - rewrite <- (ztake_drop (ve_end ext - vs) (zdrop vs buf)) at 1. f_equal.
    rewrite zdrop_drop by lia. f_equal. lia.
  - destruct (decide (ve_end ext = zlen buf)) as [->|Hne]; [left; split; [by apply zdrop_ge|done]|].
    right. eexists. rewrite zdrop_cons by lia. split; [f_equal; by destruct Hsoh|lia].
Qed.

Lemma read_tag_text frame i tag vs : 0 <= i <= zlen frame -> read_tag frame i = Some (tag, vs) ->
  exists ds, digits ds /\ ds <> [] /\ dec_value ds = tag /\ 0 <= tag <= 0xFFFF /\ vs = i + zlen ds + 1 /\
    zdrop i frame = ds ++ EQ :: zdrop vs frame /\ vs <= zlen frame.
Proof.
  intros Hi Hr. pose proof (read_tag_progress _ _ _ _ Hi Hr) as [Hv Ht]. revert Hr.
  unfold read_tag. destruct (tag_loop _ _ _) as [t j p| |] eqn:E; [|done..].
  apply tag_loop_inv in E as (ds & Ep & Hd & -> & Hb & -> & Hp); [|lia].
  case_tests. intros [= <- <-]. exists ds.
  assert (Hnil : ds <> []) by (intros ->; rewrite zlen_nilZ in *; lia).
  split_and!; try done; try lia.
  assert (Hq : zdrop (i + zlen ds) frame = p).
  { rewrite <- zdrop_drop, Ep by (pose_zlen; lia). apply zdrop_app. }
  rewrite Ep. f_equal. rewrite <- Hq, zdrop_cons by (pose_zlen; lia). f_equal. lia.
Qed.

(** The digits a text starts with come to a number above the largest tag. *)
Definition tag_overruns (text : bytes) : Prop :=
  exists ds rest, text = ds ++ rest /\ digits ds /\ 0xFFFF < dec_value ds.

(** The slot of a text that is no tag. *)
Definition malformed_slot (text : bytes) (e : error) : Prop :=
  tag_overruns text /\ e = wire_tag_out_of_range \/ ~ tag_overruns text /\ e = wire_invalid_field_format.

Lemma tag_loop_overruns p i : tag_overruns p <-> tag_loop p i 0 = tag_over_range.
Proof.
  split.
  - intros (ds & rest & -> & Hd & Hv). rewrite tag_loop_digits by (done || lia). fold (dec_value ds).
    by replace (dec_value ds <=? 65535) with false by lia.
  - assert (H : forall i tag, 0 <= tag <= 0xFFFF -> tag_loop p i tag = tag_over_range ->
      exists ds rest, p = ds ++ rest /\ digits ds /\ 0xFFFF < dec_from tag ds).
    2: { intros E. by apply (H i 0); [lia|]. }
    clear i.
    induction p as [|c p IH]; intros i tag Ht; cbn [tag_loop]; [done|]. unfold EQ, SOH.
    destruct ((c =? 61) || (c =? 1)); [done|]. destruct ((c <? 48) || (57 <? c)) eqn:Ec; [done|].
    assert (Hc : is_digit c = true) by (apply is_digit_spec; lia). rewrite accumulate_tag_digit_spec by done.
    pose proof (proj1 (is_digit_spec c) Hc).
    destruct (tag * 10 + (c - 48) <=? 65535) eqn:E.
    + intros E1. apply IH in E1 as (ds & rest & -> & Hd & Hv); [|lia]. exists (c :: ds), rest. split; [done|]. split; [by constructor|].
      by rewrite dec_from_cons.
    + intros _. exists [c], p. split; [done|]. split; [by repeat constructor|]. rewrite dec_from_cons. cbn. lia.
Qed.

(** What the field loop leaves, by what the strict walk over the same bytes reads. *)
Definition build_outcome (c : Config) (buf : bytes) (i : Z) (es : list entry) (fs : list (Z * bytes))
    (kind : field_fault) (off : Z) (r : expected (list entry)) : Prop :=
  match r with
  | Ok es' => kind = fault_none /\ zlen es + zlen fs <= max_offset_entries c /\
      exists es2, es' = es ++ es2 /\ located buf i es2 fs
  | Err e =>
      if max_offset_entries c <? zlen es + zlen fs then e = wire_offset_table_full
      else match kind with
           | fault_none => False
           | malformed_tag => malformed_slot (zdrop off buf) e
           | length_data_mismatch => e = wire_invalid_field_format
           end
  end.

Lemma build_outcome_cons c buf i es e tag v fs kind off r ds rest :
  digits ds -> ds <> [] -> dec_value ds = tag -> 0 <= tag <= 0xFFFF ->
  zdrop i buf = ds ++ EQ :: v ++ rest -> e = Entry (i + zlen ds + 1) (zlen v) tag 0 ->
  (rest = [] /\ fs = [] \/ exists q, rest = SOH :: q) ->
  0 <= i <= zlen buf ->
  build_outcome c buf (skip_soh buf (i + zlen ds + 1 + zlen v)) (es ++ [e]) fs kind off r ->
  build_outcome c buf i es ((tag, v) :: fs) kind off r.
Proof.
  intros Hd Hn Hv Ht Hb -> Hr Hi. unfold build_outcome. rewrite zlen_app, !zlen_cons.
  replace (zlen es + (1 + zlen fs)) with (zlen es + (1 + zlen (@nil entry)) + zlen fs)
    by (rewrite zlen_nil; lia).
  destruct r as [es'|e']; [|done]. intros (Hk & Hm & es2 & -> & Hl).
  split; [done|]. split; [done|]. rewrite <- app_assoc. eexists. split; [done|].
  assert (Hlen : zlen buf - i = zlen ds + 1 + zlen v + zlen rest).
  { apply (f_equal zlen) in Hb. rewrite zlen_drop, zlen_app, zlen_cons, zlen_app in Hb by lia. lia. }
  cbn [app located]. exists ds, rest. split_and!; try done; try lia.
  unfold skip_soh in Hl. destruct Hr as [[-> ->]|[q ->]].
  - destruct es2; done.
  - split; [done|]. rewrite zlen_cons in Hlen. pose_zlen.
    by replace (i + zlen ds + 1 + zlen v <? zlen buf) with true in Hl by lia.
Qed.

Lemma split_loop_end fuel h buf i carry prev : zlen buf <= i ->
  split_loop fuel h buf i carry prev = ([], (fault_none, 0, 0)).
Proof. intros. destruct fuel; cbn [split_loop]; [done|]. by replace (zlen buf <=? i) with true by lia. Qed.

Lemma build_loop_split fuel mr c h buf i pending carry prev es fs kind lt off :
  hooks_ok h -> hooks_unchained h -> zlen buf <= UINT32_MAX -> 0 <= i <= zlen buf ->
  zlen es <= max_offset_entries c ->
  (forall n, 0 < n <= max_offset_entries c -> mr_entries mr n = true) ->
  pending_alike (zlen buf) pending carry ->
  (carry_data_tag carry <> 0 -> data_tag_for_length h (carry_data_tag carry) = 0) ->
  zlen buf - i <= Z.of_nat fuel ->
  split_loop fuel h buf i carry prev = (fs, (kind, lt, off)) ->
  build_outcome c buf i es fs kind off (build_loop fuel mr c h buf i pending es).
Proof.
  intros Hh Hu Hn. revert i pending carry prev es fs.
  induction fuel as [|fuel IH]; intros i pending carry prev es fs Hi Hes Hmr Hp Hd Hf;
    cbn [split_loop build_loop].
  - intros [= <- <- _ _]. cbn. split_and!; [done|rewrite zlen_nil; lia|].
    exists []. split; [by rewrite app_nil_r|cbn; lia].
  - destruct (zlen buf <=? i) eqn:E.
    { intros [= <- <- _ _]. cbn. split_and!; [done|rewrite zlen_nil; lia|].
      exists []. split; [by rewrite app_nil_r|cbn; lia]. }
    destruct (read_tag buf i) as [[tag vs]|] eqn:Et.
    2: { intros [= <- <- _ <-]. unfold read_tag in Et. unfold build_outcome. change (zlen (@nil (Z * bytes))) with 0.
      replace (max_offset_entries c <? zlen es + 0) with false by lia.
      pose proof (tag_loop_overruns (zdrop i buf) i) as Ho.
      destruct (tag_loop _ _ _) as [t j p| |];
        [destruct (_ || _ || _); [|done]|..]; cbn [negb]; unfold malformed_slot; rewrite Ho; auto. }
    pose proof (read_tag_text _ _ _ _ Hi Et) as (ds & Hds & Hnil & Hv & Ht & Hvs & Hb & Hle).
    unfold read_tag in Et. destruct (tag_loop _ _ _) as [t j p| |]; [|done..].
    destruct (_ || _ || _) eqn:Eg; [done|]. injection Et as -> Ej. cbn [negb]. rewrite Ej.
    pose proof (build_value_carry h buf vs tag pending carry Hh Hu Hn ltac:(pose_zlen; lia) Hp Hd) as Hbv.
    destruct (read_value h carry buf vs tag) as [[ext|] carry'] eqn:Er.
    2: { intros [= <- <- _ _]. rewrite Hbv. unfold build_outcome. change (zlen (@nil (Z * bytes))) with 0.
      by replace (max_offset_entries c <? zlen es + 0) with false by lia. }
    destruct Hbv as (pending' & -> & Hp' & Hd').
    destruct (value_rest h carry buf vs tag ext carry' (proj2 (proj2 Hp)) ltac:(pose_zlen; lia) Er) as (rest & Hrest & Hlen & Hr).
    set (v := zsub buf vs (ve_end ext - vs)) in *.
    assert (Hend : ve_end ext = i + zlen ds + 1 + zlen v) by lia.
    assert (Hin : ve_end ext <= zlen buf) by (destruct Hr as [[_ ->]|(q & _ & ?)]; lia).
    pose proof (zlen_nonneg ds). pose proof (zlen_nonneg v). rewrite Hend in *.
    set (next := skip_soh buf (i + zlen ds + 1 + zlen v)) in *.
    assert (Hnext : i < next <= zlen buf /\ (rest = [] -> zlen buf <= next)).
    { unfold next, skip_soh. destruct Hr as [[-> ?]|(q & -> & ?)]; case_tests; split; (lia || done). }
    destruct (split_loop fuel h buf next carry' tag) as [fs' r] eqn:Es. intros [= <- ->].
    destruct (max_offset_entries c <=? zlen es) eqn:Em.
    { cbn. rewrite zlen_cons. pose proof (zlen_nonneg fs').
      by replace (max_offset_entries c <? zlen es + (1 + zlen fs')) with true by lia. }
    rewrite Hmr by (pose_zlen; lia). cbn [negb].
    unfold UINT32_MAX in Hn.
    rewrite (wrap_small 32 vs), (wrap_small 32 (_ - vs)), (wrap_small 16 tag) by lia.
    replace (Entry vs _ tag 0) with (Entry (i + zlen ds + 1) (zlen v) tag 0) by (f_equal; lia).
    eapply build_outcome_cons; try done.
    + by rewrite Hb, Hrest.
    + destruct Hr as [[-> ?]|(q & -> & _)]; [left|right; by exists q]. split; [done|].
      rewrite split_loop_end in Es by by apply Hnext. by injection Es.
    + apply (IH _ _ carry' tag); try done; try lia. rewrite zlen_app, zlen_cons, zlen_nil. lia.
Qed.

(** *** The overlay *)

Lemma cap_loop_spec fuel k m want : (k <= m)%nat -> (m <= 62)%nat -> want <= 2 ^ Z.of_nat m ->
  (m - k <= fuel)%nat ->
  exists j, (k <= j <= m)%nat /\ cap_loop fuel (2 ^ Z.of_nat k) want = 2 ^ Z.of_nat j /\
    want <= 2 ^ Z.of_nat j /\ (j = k \/ 2 ^ Z.of_nat j < 2 * want).
Proof.
  revert k. induction fuel as [|fuel IH]; intros k Hk Hm Hw Hf; cbn [cap_loop].
  - assert (k = m) by lia. subst. exists m. split_and!; (done || lia || by left).
  - destruct (2 ^ Z.of_nat k <? want) eqn:E.
    2: { exists k. split_and!; (lia || done || by left). }
    assert (k <> m) by (intros ->; lia).
    rewrite Z.shiftl_mul_pow2 by lia. change (2 ^ 1) with 2.
    assert (Hs : 2 ^ Z.of_nat (S k) = 2 ^ Z.of_nat k * 2) by (rewrite Nat2Z.inj_succ, Z.pow_succ_r; lia).
    assert (2 ^ Z.of_nat (S k) <= 2 ^ 62) by (apply Z.pow_le_mono_r; lia).
    assert (0 < 2 ^ Z.of_nat k) by (apply Z.pow_pos_nonneg; lia).
    rewrite wrap_small, <- Hs by lia.
    destruct (IH (S k)) as (j & Hj & -> & Hwj & Hmin); try lia.
    exists j. split_and!; try done; try lia. right. destruct Hmin as [->|]; lia.
Qed.

Lemma overlay_cap_spec n : 0 <= n <= UINT32_MAX ->
  exists j, 3 <= j <= 33 /\ overlay_cap_for n = 2 ^ j /\ n < 2 ^ j /\ 2 ^ j <= 2 * (n * 5 / 4 + 1) + 6.
Proof.
  unfold UINT32_MAX, overlay_cap_for. intros Hn.
  rewrite (wrap_small 64 (n * 5)), wrap_small by dlia. change 8 with (2 ^ Z.of_nat 3).
  destruct (cap_loop_spec 64 3 33 (n * 5 / 4 + 1)) as (j & Hj & -> & Hw & Hm); [lia|lia|cbn; dlia|lia|].
  exists (Z.of_nat j). split_and!; try lia; try dlia.
  destruct Hm as [->|]; [|lia]. change (2 ^ Z.of_nat 3) with 8. dlia.
Qed.

Definition slot_entry (es : list entry) (v : Z) : entry := nth (Z.to_nat (v - 1)) es (Entry 0 0 0 0).

Inductive probe_end := at_tag (v : Z) | at_gap (slot : Z) | exhausted.

(** The probe both loops run: to the tag, to an empty slot, or out of rounds. *)
Fixpoint probe (fuel : nat) (es : list entry) (ov : list Z) (tag slot : Z) : probe_end :=
  match fuel with
  | O => exhausted
  | S fuel =>
      let v := zget ov slot in
      if v =? 0 then at_gap slot
      else if e_tag (slot_entry es v) =? tag then at_tag v
      else probe fuel es ov tag ((slot + 1) mod zlen ov)
  end.

Section Overlay.
Context (es : list entry) (sd k : Z) (Hk : 3 <= k <= 33).

Definition cap : Z := 2 ^ k.
Definition path (tag j : Z) : Z := (mix tag sd + j) mod cap.
Definition other (ov : list Z) (tag s : Z) : Prop :=
  zget ov s <> 0 /\ e_tag (slot_entry es (zget ov s)) <> tag.

Lemma cap_pos : 8 <= cap <= 2 ^ 33.
Proof using Hk.
  clear es sd. unfold cap. change 8 with (2 ^ 3). split; apply Z.pow_le_mono_r; lia.
Qed.

Lemma mask_mod x : Z.land x (cap - 1) = x mod cap.
Proof using Hk. unfold cap. rewrite <- Z.land_ones by lia. f_equal. rewrite Z.ones_equiv. lia. Qed.

Lemma path_range tag j : 0 <= path tag j < cap.
Proof using Hk. clear es. apply Z.mod_pos_bound. pose proof cap_pos. lia. Qed.

Lemma path_next tag j : (path tag j + 1) mod cap = path tag (j + 1).
Proof using Hk.
  pose proof cap_pos. unfold path. rewrite Zplus_mod_idemp_l. f_equal. lia.
Qed.

Lemma path_cycle tag j : path tag (j + cap) = path tag j.
Proof using Hk.
  pose proof cap_pos. unfold path. replace (mix tag sd + (j + cap)) with (mix tag sd + j + 1 * cap) by lia.
  by rewrite Z.mod_add by lia.
Qed.

Lemma path_inj tag i j : 0 <= i < cap -> 0 <= j < cap -> path tag i = path tag j -> i = j.
Proof using Hk.
  pose proof cap_pos. unfold path. intros Hi Hj E.
  assert (Hd : (i - j) mod cap = 0).
  { replace (i - j) with ((mix tag sd + i) - (mix tag sd + j)) by lia.
    rewrite Zminus_mod, E, Z.sub_diag. apply Z.mod_0_l. lia. }
  apply Z.mod_divide in Hd as [q Hq]; [|lia].
  set (c := cap) in *. clearbody c. assert (q = 0) by nia. lia.
Qed.

Lemma path_onto tag s : 0 <= s < cap -> exists j, 0 <= j < cap /\ s = path tag j.
Proof using Hk.
  pose proof cap_pos. intros Hs. exists ((s - mix tag sd) mod cap).
  split; [apply Z.mod_pos_bound; lia|]. unfold path. rewrite Zplus_mod_idemp_r.
  replace (mix tag sd + (s - mix tag sd)) with s by lia. by rewrite Z.mod_small.
Qed.

Lemma insert_probe_eq fuel ov tag slot probes : zlen ov = cap ->
  probes + Z.of_nat fuel = kMaxBuildProbe ->
  insert_probe fuel es ov (cap - 1) tag slot probes =
    match probe fuel es ov tag slot with at_gap s => Some s | _ => None end.
Proof using Hk.
  intros Hl. revert slot probes. induction fuel as [|fuel IH]; intros slot probes Hf; [done|].
  cbn [insert_probe probe]. fold (slot_entry es (zget ov slot)).
  destruct (_ =? 0); [done|]. destruct (_ =? tag); [done|].
  rewrite mask_mod, Hl. destruct (kMaxBuildProbe <=? probes + 1) eqn:E.
  - assert (fuel = O) by lia. by subst.
  - apply IH. lia.
Qed.

Lemma find_probe_eq fuel ov tag slot probes : zlen ov = cap ->
  probes + Z.of_nat fuel = cap + 1 ->
  find_probe fuel es ov (cap - 1) tag slot probes =
    match probe fuel es ov tag slot with at_tag v => Some (slot_entry es v) | _ => None end.
Proof using Hk.
  intros Hl. revert slot probes. induction fuel as [|fuel IH]; intros slot probes Hf; [done|].
  cbn [find_probe probe]. fold (slot_entry es (zget ov slot)).
  destruct (_ =? 0); [done|]. destruct (_ =? tag); [done|].
  rewrite mask_mod, Hl. destruct (cap <? probes + 1) eqn:E.
  - assert (fuel = O) by lia. by subst.
  - apply IH. lia.
Qed.

Lemma probe_spec fuel ov tag j : zlen ov = cap -> 0 <= j ->
  match probe fuel es ov tag (path tag j) with
  | at_gap s => exists j', j <= j' < j + Z.of_nat fuel /\ s = path tag j' /\ zget ov s = 0 /\
      forall i, j <= i < j' -> other ov tag (path tag i)
  | at_tag v => exists j', j <= j' < j + Z.of_nat fuel /\ v = zget ov (path tag j') /\ v <> 0 /\
      e_tag (slot_entry es v) = tag /\ forall i, j <= i < j' -> other ov tag (path tag i)
  | exhausted => forall i, j <= i < j + Z.of_nat fuel -> other ov tag (path tag i)
  end.
Proof using Hk.
  intros Hl. revert j. induction fuel as [|fuel IH]; intros j Hj; cbn [probe]; [intros; lia|].
  destruct (zget ov (path tag j) =? 0) eqn:E0.
  { exists j. split_and!; try done; lia. }
  destruct (_ =? tag) eqn:Et.
  { exists j. split_and!; try done; lia. }
  assert (Ho : other ov tag (path tag j)) by (split; lia).
  rewrite Hl, path_next. specialize (IH (j + 1) ltac:(lia)).
  destruct (probe fuel es ov tag (path tag (j + 1))).
  - destruct IH as (j' & Hj' & -> & H1 & H2 & H3). exists j'. split_and!; try done; try lia.
    intros i Hi. destruct (decide (i = j)) as [->|]; [done|apply H3; lia].
  - destruct IH as (j' & Hj' & -> & H1 & H2). exists j'. split_and!; try done; try lia.
    intros i Hi. destruct (decide (i = j)) as [->|]; [done|apply H2; lia].
  - intros i Hi. destruct (decide (i = j)) as [->|]; [done|apply IH; lia].
Qed.

(** What the overlay holds once the first [m] entries are in. *)
Record overlay_inv (m : nat) (ov : list Z) : Prop := {
  inv_len : zlen ov = cap;
  inv_slots s : 0 <= s < cap -> zget ov s <> 0 ->
    0 < zget ov s <= Z.of_nat m /\
    (forall e, Z.of_nat e < zget ov s - 1 ->
       e_tag (nth e es (Entry 0 0 0 0)) <> e_tag (slot_entry es (zget ov s))) /\
    exists j, 0 <= j < kMaxBuildProbe /\ s = path (e_tag (slot_entry es (zget ov s))) j /\
      forall i, 0 <= i < j ->
        other ov (e_tag (slot_entry es (zget ov s))) (path (e_tag (slot_entry es (zget ov s))) i);
  inv_tags e : (e < m)%nat ->
    let tag := e_tag (nth e es (Entry 0 0 0 0)) in
    (exists s, 0 <= s < cap /\ zget ov s <> 0 /\ e_tag (slot_entry es (zget ov s)) = tag) \/
    (forall j, 0 <= j < kMaxBuildProbe -> other ov tag (path tag j));
  inv_gaps : (length (filter (fun v => v <> 0%Z) ov) <= m)%nat;
}.

Lemma zget_insert ov s v x : 0 <= s < zlen ov -> 0 <= x ->
  zget (<[Z.to_nat s := v]> ov) x = if x =? s then v else zget ov x.
Proof using.
  intros Hs Hx. unfold zget, zlen in *. rewrite !nth_lookup.
  destruct (x =? s) eqn:E.
  - replace x with s by lia. rewrite list_lookup_insert_eq; [done|lia].
  - rewrite list_lookup_insert_ne; [done|lia].
Qed.

Lemma nonzero_insert (ov : list Z) i v :
  (length (filter (fun v => v <> 0%Z) (<[i := v]> ov)) <= S (length (filter (fun v => v <> 0%Z) ov)))%nat.
Proof using.
  revert i. induction ov as [|x ov IH]; intros i; [by destruct i; cbn; lia|]. destruct i as [|i].
  - change (<[O := v]> (x :: ov)) with (v :: ov).
    rewrite !filter_cons. repeat case_decide; cbn [length]; lia.
  - change (<[S i := v]> (x :: ov)) with (x :: <[i := v]> ov). specialize (IH i).
    rewrite !filter_cons. repeat case_decide; cbn [length]; lia.
Qed.

Lemma gap_exists m ov : overlay_inv m ov -> Z.of_nat m < cap ->
  exists s, 0 <= s < cap /\ zget ov s = 0.
Proof using.
  intros [Hl _ _ Hg] Hm. rewrite <- Hl in *. clear Hl.
  assert (H : (length (filter (fun v => v <> 0%Z) ov) < length ov)%nat) by (unfold zlen in *; lia).
  clear Hg Hm. induction ov as [|x ov IH]; [cbn in H; lia|]. cbn [length] in H. rewrite zlen_cons.
  destruct (decide (x = 0)) as [->|Hx]; [exists 0; split; [pose_zlen; lia|done]|].
  rewrite filter_cons in H. case_decide; [|done]. cbn [length] in H.
  destruct IH as (s & Hs & Hz); [lia|]. exists (s + 1). split; [lia|].
  rewrite zget_S by lia. by replace (s + 1 - 1) with s by lia.
Qed.

Lemma other_kept ov s v tag x : 0 <= s < zlen ov -> zget ov s = 0 -> 0 <= x ->
  other ov tag x -> other (<[Z.to_nat s := v]> ov) tag x.
Proof using.
  intros Hs Hz Hx [H0 Ht]. unfold other. rewrite zget_insert by done.
  destruct (x =? s) eqn:E; [|done]. replace x with s in H0 by lia. done.
Qed.

(** An insert at a gap of the tag's own path: the tag was not in the table. *)
Lemma gap_fresh m ov tag j e : overlay_inv m ov -> 0 <= j < kMaxBuildProbe ->
  zget ov (path tag j) = 0 -> (forall i, 0 <= i < j -> other ov tag (path tag i)) ->
  (e < m)%nat -> e_tag (nth e es (Entry 0 0 0 0)) <> tag.
Proof using Hk.
  intros I Hj Hz Hb He Et.
  destruct (inv_tags _ _ I e He) as [(s & Hs & Hn & Hts)|Hall].
  - destruct (inv_slots _ _ I s Hs Hn) as (_ & _ & j' & Hj' & Ep & Hb').
    rewrite Hts, Et in *. destruct (Z.lt_trichotomy j j') as [Hlt|[->|Hlt]].
    + destruct (Hb' j ltac:(lia)). done.
    + congruence.
    + destruct (Hb j' ltac:(lia)) as [_ Ho]. rewrite <- Ep in Ho. done.
  - rewrite Et in Hall. by destruct (Hall j Hj).
Qed.

Lemma overlay_insert_inv m ov : overlay_inv m ov -> (m < length es)%nat ->
  Z.of_nat (length es) <= UINT32_MAX ->
  overlay_inv (S m) (overlay_insert es sd (cap - 1) ov m).
Proof using Hk.
  intros I Hm Hu. unfold UINT32_MAX in Hu. unfold overlay_insert. cbv zeta. set (tag := e_tag (nth m es _)).
  rewrite mask_mod. replace (mix tag sd mod cap) with (path tag 0) by (unfold path; f_equal; lia).
  pose proof (inv_len _ _ I) as Hl. pose proof cap_pos as Hcap.
  rewrite insert_probe_eq by done.
  pose proof (probe_spec (Z.to_nat kMaxBuildProbe) ov tag 0 Hl ltac:(lia)) as Hp.
  destruct (probe _ es ov tag (path tag 0)) as [v|s|].
  - destruct Hp as (j & _ & -> & Hv & Ht & _). destruct I as [? Is It Ig]. constructor; [done| | |lia].
    + intros s Hs Hn. destruct (Is s Hs Hn) as (? & ?). split; [lia|done].
    + intros e He. destruct (decide (e = m)) as [->|]; [left|apply It; lia].
      exists (path tag j). split; [apply path_range|done].
  - destruct Hp as (j & Hj & -> & Hz & Hb). change (0 + _) with kMaxBuildProbe in Hj.
    pose proof (path_range tag j) as Hr. pose proof (gap_fresh m ov tag j) as Hfresh.
    rewrite wrap_small by lia. destruct I as [? Is It Ig]. constructor.
    + by rewrite zlen_insert.
    + intros s Hs Hn. rewrite zget_insert in * by lia. destruct (s =? path tag j) eqn:E.
      * assert (Hse : slot_entry es (Z.of_nat m + 1) = nth m es (Entry 0 0 0 0)).
        { unfold slot_entry. f_equal. lia. }
        rewrite Hse. fold tag. split; [lia|]. split.
        -- intros e He. apply (Hfresh e); try done. lia.
        -- exists j. split; [done|]. split; [lia|]. intros i Hi. apply other_kept; auto; try lia.
           apply path_range.
      * destruct (Is s Hs Hn) as (? & ? & j' & ? & ? & Hb'). split; [lia|]. split; [done|].
        exists j'. split; [done|]. split; [done|]. intros i Hi. apply other_kept; auto; try lia.
        apply path_range.
    + intros e He. cbn zeta. destruct (decide (e = m)) as [->|].
      * left. exists (path tag j). split; [done|]. rewrite zget_insert, Z.eqb_refl by lia.
        split; [lia|]. unfold slot_entry. do 2 f_equal. lia.
      * destruct (It e ltac:(lia)) as [(s & Hs & Hn & Hts)|Hall].
        -- left. exists s. split; [done|]. rewrite zget_insert by lia.
           destruct (s =? path tag j) eqn:E; [|done]. replace s with (path tag j) in Hn by lia. done.
        -- right. intros i Hi. apply other_kept; auto; try lia. apply path_range.
    + pose proof (nonzero_insert ov (Z.to_nat (path tag j)) (Z.of_nat m + 1)). lia.
  - destruct I as [? Is It Ig]. constructor; [done| | |lia].
    + intros s Hs Hn. destruct (Is s Hs Hn) as (? & ?). split; [lia|done].
    + intros e He. destruct (decide (e = m)) as [->|]; [right; exact Hp|apply It; lia].
Qed.

Lemma overlay_built : zlen es <= UINT32_MAX ->
  overlay_inv (length es) (build_overlay es sd cap).
Proof using Hk.
  intros Hu. pose proof cap_pos. unfold build_overlay.
  assert (H0 : overlay_inv 0 (replicate (Z.to_nat cap) 0)).
  { assert (Hz : forall s, zget (replicate (Z.to_nat cap) 0) s = 0).
    { intros s. unfold zget. rewrite nth_lookup. destruct (_ !! _) eqn:E; [|done].
      apply lookup_replicate in E as [-> _]. done. }
    constructor.
    - rewrite zlen_replicate. lia.
    - intros s _. by rewrite Hz.
    - intros; lia.
    - clear Hz. induction (Z.to_nat cap) as [|n IH]; [done|]. change (replicate (S n) 0) with (0 :: replicate n 0).
      rewrite filter_cons. destruct (decide _); [done|exact IH]. }
  assert (Hm : forall n m ov, (m + n = length es)%nat -> overlay_inv m ov ->
    overlay_inv (length es) (fold_left (overlay_insert es sd (cap - 1)) (seq m n) ov)).
  { induction n as [|n IH]; intros m ov Hmn I; cbn [seq fold_left].
    - by replace (length es) with m by lia.
    - apply IH; [lia|]. apply overlay_insert_inv; [done|lia|exact Hu]. }
  by apply Hm.
Qed.
End Overlay.

Section Lookup.
Context (es : list entry) (sd k : Z) (Hk : 3 <= k <= 33) (ov : list Z).
Context (I : overlay_inv es sd k (length es) ov) (Hroom : zlen es < cap k).

Lemma slot_elem s : 0 <= s < cap k -> zget ov s <> 0 -> slot_entry es (zget ov s) ∈ es.
Proof using I.
  intros Hs Hn. destruct (inv_slots _ _ _ _ _ I s Hs Hn) as (Hv & _).
  unfold slot_entry. apply list_elem_of_In, nth_In. lia.
Qed.

Lemma slot_first s : 0 <= s < cap k -> zget ov s <> 0 ->
  first_entry es (e_tag (slot_entry es (zget ov s))) = Some (slot_entry es (zget ov s)).
Proof using I.
  intros Hs Hn. destruct (inv_slots _ _ _ _ _ I s Hs Hn) as (Hv & Hf & _).
  unfold slot_entry in *. set (p := Z.to_nat (zget ov s - 1)) in *.
  assert (Hp : (p < length es)%nat) by lia.
  assert (Hf' : forall e, (e < p)%nat ->
    e_tag (nth e es (Entry 0 0 0 0)) <> e_tag (nth p es (Entry 0 0 0 0))) by (intros; apply Hf; lia).
  clearbody p. clear I Hroom Hn Hs Hv Hf. revert p Hp Hf'. generalize es as l.
  induction l as [|e l IH]; intros p Hp Hf; cbn in Hp; [lia|]. cbn [first_entry List.find].
  destruct p as [|p]; cbn [nth] in *; [by rewrite Z.eqb_refl|].
  specialize (Hf 0%nat ltac:(lia)) as H0. cbn in H0. replace (_ =? _) with false by lia.
  apply IH; [lia|]. intros i Hi. exact (Hf (S i) ltac:(lia)).
Qed.

Lemma same_tag_slot s s' : 0 <= s < cap k -> 0 <= s' < cap k -> zget ov s <> 0 -> zget ov s' <> 0 ->
  e_tag (slot_entry es (zget ov s)) = e_tag (slot_entry es (zget ov s')) -> s = s'.
Proof using I Hk.
  intros Hs Hs' Hn Hn' E.
  destruct (inv_slots _ _ _ _ _ I s Hs Hn) as (_ & _ & j & Hj & Ep & Hb).
  destruct (inv_slots _ _ _ _ _ I s' Hs' Hn') as (_ & _ & j' & Hj' & Ep' & Hb').
  rewrite E in *. destruct (Z.lt_trichotomy j j') as [Hlt|[->|Hlt]]; [|congruence|].
  - destruct (Hb' j ltac:(lia)) as [_ Ho]. rewrite <- Ep in Ho. done.
  - destruct (Hb j' ltac:(lia)) as [_ Ho]. rewrite <- Ep' in Ho. done.
Qed.

Lemma gap_on_path tag : exists j, 0 <= j < cap k /\ zget ov (path sd k tag j) = 0.
Proof using I Hk Hroom.
  destruct (gap_exists _ _ _ _ _ I Hroom) as (s & Hs & Hz).
  destruct (path_onto sd k Hk tag s Hs) as (j & Hj & ->). by exists j.
Qed.

(** 128 occupied slots on a tag's path hold 128 other tags. *)
Lemma crowded tag : tag ∈ map e_tag es ->
  (forall j, 0 <= j < kMaxBuildProbe -> other es ov tag (path sd k tag j)) ->
  (128 < length (distinct_tags es))%nat.
Proof using I Hk Hroom.
  intros Hin Hall. unfold kMaxBuildProbe in Hall.
  destruct (decide (cap k <= 128)) as [Hc|Hc].
  { destruct (gap_on_path tag) as (j & Hj & Hz). by destruct (Hall j ltac:(lia)). }
  set (tag_at j := e_tag (slot_entry es (zget ov (path sd k tag (Z.of_nat j))))).
  set (l := tag :: map tag_at (seq 0 128)).
  assert (Hl : length l = 129%nat) by (unfold l; cbn [length]; by rewrite length_map, length_seq).
  enough (length l <= length (distinct_tags es))%nat by lia.
  apply NoDup_incl_length.
  - apply NoDup_ListNoDup. unfold l. constructor.
    + intros [j [Ej Hj]]%list_elem_of_In%in_map_iff. apply in_seq in Hj.
      by destruct (Hall (Z.of_nat j) ltac:(lia)).
    + apply NoDup_ListNoDup, NoDup_map_NoDup_ForallPairs; [|apply seq_NoDup].
      intros x y Hx%in_seq Hy%in_seq E. unfold tag_at in E.
      apply same_tag_slot in E; try apply path_range; try done; [|by apply Hall; lia..].
      apply (path_inj sd k Hk) in E; lia.
  - intros t Ht. apply list_elem_of_In, elem_of_remove_dups.
    destruct Ht as [<-|[j [<- Hj]]%in_map_iff]; [done|]. apply in_seq in Hj.
    destruct (Hall (Z.of_nat j) ltac:(lia)) as [Hn _].
    change (tag_at j) with (e_tag (slot_entry es (zget ov (path sd k tag (Z.of_nat j))))).
    apply list_elem_of_fmap_2, slot_elem; [by apply path_range|done].
Qed.

Lemma find_probe_spec tag :
  match find_probe (S (length ov)) es ov (cap k - 1) tag (Z.land (mix tag sd) (cap k - 1)) 0 with
  | Some en => first_entry es tag = Some en
  | None => tag ∈ map e_tag es -> (128 < length (distinct_tags es))%nat
  end.
Proof using I Hk Hroom.
  pose proof (cap_pos k Hk) as Hcap. pose proof (inv_len _ _ _ _ _ I) as Hl.
  rewrite (mask_mod k Hk). replace (mix tag sd mod cap k) with (path sd k tag 0)
    by (unfold path; f_equal; lia).
  rewrite (find_probe_eq es k Hk) by (done || (unfold zlen in Hl; lia)).
  pose proof (probe_spec es sd k Hk (S (length ov)) ov tag 0 Hl ltac:(lia)) as Hp.
  destruct (probe _ es ov tag _) as [v|s|].
  - destruct Hp as (j & _ & -> & Hn & Ht & _). rewrite <- Ht at 1.
    apply slot_first; [by apply path_range|done].
  - destruct Hp as (j & Hj & -> & Hz & Hb). intros Hin. apply crowded with (tag := tag); [done|].
    apply list_elem_of_In, in_map_iff in Hin as (e & <- & He).
    apply In_nth with (d := Entry 0 0 0 0) in He as (p & Hp & <-).
    destruct (inv_tags _ _ _ _ _ I p Hp) as [(s & Hs & Hn & Hts)|Hall]; [exfalso|exact Hall].
    destruct (inv_slots _ _ _ _ _ I s Hs Hn) as (_ & _ & j' & Hj' & Ep & Hb'). rewrite Hts in *.
    destruct (Z.lt_trichotomy j j') as [Hlt|[->|Hlt]].
    + by destruct (Hb' j ltac:(lia)).
    + congruence.
    + destruct (Hb j' ltac:(lia)) as [_ Ho]. rewrite <- Ep in Ho. done.
  - destruct (gap_on_path tag) as (j & Hj & Hz). unfold zlen in Hl.
    destruct (Hp j ltac:(lia)). done.
Qed.
End Lookup.

(** A table [build] finished without error. *)
Definition built (t : OffsetTable) : Prop :=
  status t = Ok tt /\ zlen (entries t) <= UINT32_MAX /\
  overlay t = build_overlay (entries t) (seed t) (overlay_cap_for (zlen (entries t))).

Lemma first_entry_tag es tag e : first_entry es tag = Some e -> e_tag e = tag /\ tag ∈ map e_tag es.
Proof.
  intros H. apply find_some in H as [Hin He]. split; [lia|].
  replace tag with (e_tag e) by lia. apply list_elem_of_fmap_2. by apply list_elem_of_In.
Qed.

Lemma first_entry_none es tag : first_entry es tag = None -> tag ∉ map e_tag es.
Proof.
  intros H Hin. apply list_elem_of_In, in_map_iff in Hin as (e & <- & He).
  pose proof (find_none _ _ H e He) as Hf. cbn in Hf. lia.
Qed.

Lemma find_spec t tag : built t ->
  find t tag =
    match first_entry (entries t) tag with
    | Some e => Ok e
    | None => Err wire_required_field_missing
    end \/
  find t tag = Err wire_required_field_missing /\ (128 < length (distinct_tags (entries t)))%nat.
Proof.
  intros (Hs & Hn & Ho). unfold find. rewrite Hs. cbn [rbind].
  destruct (overlay_cap_spec (zlen (entries t))) as (k & Hk & Hc & Hroom & _); [pose_zlen; lia|].
  pose proof (cap_pos k Hk) as Hcap.
  rewrite Hc in Ho. pose proof (overlay_built (entries t) (seed t) k Hk Hn) as I.
  unfold cap in I, Hcap. rewrite <- Ho in I. rewrite (inv_len _ _ _ _ _ I). unfold cap.
  replace (2 ^ k =? 0) with false by lia.
  pose proof (find_probe_spec (entries t) (seed t) k Hk (overlay t) I Hroom tag) as Hp. unfold cap in Hp.
  destruct (find_probe _ _ _ _ _ _ _) as [en|].
  - left. by rewrite Hp.
  - destruct (first_entry (entries t) tag) as [e|] eqn:E; [|by left].
    right. split; [done|]. apply Hp. by apply first_entry_tag in E as [_ ?].
Qed.

(** *** From the parse to the fields *)

Lemma located_lookup buf i es fs tag e : 0 <= i -> located buf i es fs -> first_entry es tag = Some e ->
  exists fs1 v fs2, fs = fs1 ++ (tag, v) :: fs2 /\ tag ∉ map fst fs1 /\
    zsub buf (e_offset e) (e_length e) = v.
Proof.
  revert i fs. induction es as [|e' es IH]; intros i fs Hi Hl; [done|].
  destruct fs as [|[t v] fs]; [done|]. cbn [located] in Hl.
  destruct Hl as (ds & rest & _ & _ & _ & _ & Hb & -> & Hr). pose proof (zlen_nonneg ds).
  cbn [first_entry List.find e_tag]. destruct (t =? tag) eqn:E.
  - intros [= <-]. exists [], v, fs. replace t with tag by lia.
    split; [done|]. split; [apply not_elem_of_nil|]. cbn [e_offset e_length].
    unfold zsub. replace (i + zlen ds + 1) with (i + (zlen ds + 1)) by lia.
    rewrite <- zdrop_drop, Hb, zdrop_app_r by lia. replace (zlen ds + 1 - zlen ds) with 1 by lia.
    apply ztake_app.
  - intros Hf. destruct rest as [|c rest]; [by destruct Hr as [-> _]|]. destruct Hr as [_ Hl].
    pose proof (zlen_nonneg v).
    destruct (IH (i + zlen ds + 1 + zlen v + 1) fs) as (fs1 & v' & fs2 & -> & Hn & Hv);
      [lia|exact Hl|exact Hf|].
    exists ((t, v) :: fs1), v', fs2. split; [done|]. split; [|done].
    cbn [map fst]. apply not_elem_of_cons. split; [lia|done].
Qed.

Lemma located_tags buf i es fs : located buf i es fs -> map e_tag es = map fst fs.
Proof.
  revert i fs. induction es as [|e es IH]; intros i [|[t v] fs] Hl; try done. cbn [located] in Hl.
  destruct Hl as (ds & [|c rest] & _ & _ & _ & _ & _ & -> & Hr); cbn [map fst e_tag].
  - by destruct Hr as [-> ->].
  - destruct Hr as [_ Hl]. by rewrite (IH _ _ Hl).
Qed.

Lemma located_length buf i es fs : located buf i es fs -> zlen es = zlen fs.
Proof.
  intros H%located_tags. apply (f_equal length) in H. rewrite !length_map in H. unfold zlen. lia.
Qed.

(** Every field but the last takes three bytes. *)
Lemma split_loop_dense fuel h buf i carry prev :
  0 <= i <= zlen buf -> 0 <= carry_count carry ->
  3 * zlen (split_loop fuel h buf i carry prev).1 <= zlen buf - i + 1.
Proof.
  revert i carry prev. induction fuel as [|fuel IH]; intros i carry prev Hi Hc; cbn [split_loop].
  { cbn [fst]. change (zlen (@nil (Z * bytes))) with 0. lia. }
  destruct (zlen buf <=? i) eqn:E; [cbn [fst]; change (zlen (@nil (Z * bytes))) with 0; lia|].
  destruct (read_tag buf i) as [[tag vs]|] eqn:Et;
    [|cbn [fst]; change (zlen (@nil (Z * bytes))) with 0; lia].
  apply read_tag_progress in Et as [Hv _]; [|done].
  destruct (read_value h carry buf vs tag) as [[ext|] carry'] eqn:Er;
    [|cbn [fst]; change (zlen (@nil (Z * bytes))) with 0; lia].
  assert (vs <= ve_end ext <= zlen buf) by (eapply read_value_end; [|exact Hc|exact Er]; lia).
  pose proof (read_value_count _ _ _ _ _ _ _ Hc Er) as Hc'.
  pose proof (skip_soh_range buf (ve_end ext) ltac:(lia)) as Hs.
  specialize (IH (skip_soh buf (ve_end ext)) carry' tag ltac:(lia) Hc').
  pose proof (split_loop_end fuel h buf (skip_soh buf (ve_end ext)) carry' tag) as Hend.
  destruct (split_loop fuel h buf (skip_soh buf (ve_end ext)) carry' tag) as [fs r].
  cbn [fst] in *. rewrite zlen_cons. unfold skip_soh in *.
  destruct (ve_end ext <? zlen buf) eqn:El; [lia|].
  specialize (Hend ltac:(lia)). injection Hend as -> _. change (zlen (@nil (Z * bytes))) with 0. lia.
Qed.

Lemma overlay_cap_mono n m : 0 <= n <= m -> m <= UINT32_MAX -> overlay_cap_for n <= overlay_cap_for m.
Proof.
  unfold UINT32_MAX, overlay_cap_for. intros Hn Hm.
  rewrite (wrap_small 64 (n * 5)), (wrap_small 64 (m * 5)), !(wrap_small 64 (_ + 1)) by dlia.
  change 8 with (2 ^ Z.of_nat 3).
  destruct (cap_loop_spec 64 3 33 (n * 5 / 4 + 1)) as (j & Hj & -> & _ & Hmin); [lia|lia|cbn; dlia|lia|].
  destruct (cap_loop_spec 64 3 33 (m * 5 / 4 + 1)) as (j' & Hj' & -> & Hw & _); [lia|lia|cbn; dlia|lia|].
  destruct (decide (j <= j')%nat) as [Hle|Hgt]; [apply Z.pow_le_mono_r; lia|exfalso].
  destruct Hmin as [->|Hmin]; [lia|].
  assert (Hs : 2 ^ Z.of_nat (S j') = 2 * 2 ^ Z.of_nat j') by (rewrite Nat2Z.inj_succ, Z.pow_succ_r; lia).
  assert (2 ^ Z.of_nat (S j') <= 2 ^ Z.of_nat j) by (apply Z.pow_le_mono_r; lia). dlia.
Qed.

(** A resource that never refuses. *)
Class mr_unlimited (mr : memory_resource) : Prop := {
  mr_entries_ok n : mr_entries mr n = true;
  mr_overlay_ok n : mr_overlay mr n = true;
}.

#[export] Instance new_delete_unlimited : mr_unlimited new_delete_resource.
Proof. by constructor. Qed.

Lemma build_parse mr c h sd frame reserve fs kind lt off :
  mr_unlimited mr -> hooks_ok h -> hooks_unchained h -> zlen frame <= UINT32_MAX ->
  0 <= max_offset_entries c -> split_fields frame h = (fs, (kind, lt, off)) ->
  exists r, build_outcome c frame 0 [] fs kind off r /\
    build mr c h sd frame reserve =
      match r with
      | Ok es => Table frame c h sd es (build_overlay es sd (overlay_cap_for (zlen es))) (Ok tt)
      | Err e => Table frame c h sd [] [] (Err e)
      end.
Proof.
  intros Hmr Hh Hu Hn Hc Hs. exists (build_loop (length frame) mr c h frame 0 (0, 0) []). split.
  - apply (build_loop_split _ _ _ _ _ _ _ carry_init 0 [] fs kind lt off);
      [exact Hh|exact Hu|exact Hn|pose_zlen; lia|exact Hc| | |done| |exact Hs].
    + intros. apply mr_entries_ok.
    + unfold pending_alike, carry_init. cbn. repeat split; lia.
    + unfold zlen. lia.
  - unfold build. rewrite mr_entries_ok, andb_false_r. destruct (build_loop _ _ _ _ _ _ _ _) as [es|e]; [|done].
    by rewrite mr_overlay_ok.
Qed.

Lemma no_hooks_data t :
  data_tag_for_length no_hooks t = if standard_pair_tag_bit t then standard_data_tag_for_length t else 0.
Proof. reflexivity. Qed.

Lemma standard_unchained tag d d' : d <> 0 -> d' <> 0 ->
  standard_data_tag_for_length tag = d -> standard_data_tag_for_length d = d' -> False.
Proof.
  intros Hd Hd' Hin%standard_data_tag_lookup Hin'%standard_data_tag_lookup; [|assumption..].
  apply (halves_disjoint _ _ Hin' Hin). reflexivity.
Qed.

#[export] Instance no_hooks_unchained : hooks_unchained no_hooks.
Proof.
  constructor. intros tag. rewrite !no_hooks_data.
  destruct (standard_pair_tag_bit tag); [|intros []; reflexivity].
  generalize (eq_refl (standard_data_tag_for_length tag)).
  generalize (standard_data_tag_for_length tag) at 2 3 4 5 as d. intros d Ed Hd.
  destruct (standard_pair_tag_bit d); [|reflexivity].
  generalize (eq_refl (standard_data_tag_for_length d)).
  generalize (standard_data_tag_for_length d) at 2 3 as d'. intros d' Ed'.
  destruct (Z.eq_dec d' 0) as [|Hd']; [assumption|]. destruct (standard_unchained tag d d' Hd Hd' Ed Ed').
Qed.

Lemma zlen_build_overlay es sd : zlen es <= UINT32_MAX ->
  zlen (build_overlay es sd (overlay_cap_for (zlen es))) = overlay_cap_for (zlen es).
Proof.
  intros Hn. destruct (overlay_cap_spec (zlen es)) as (k & Hk & Hc & _); [pose_zlen; lia|].
  rewrite Hc. exact (inv_len _ _ _ _ _ (overlay_built es sd k Hk Hn)).
Qed.

Lemma build_located mr c h sd frame reserve fs :
  mr_unlimited mr -> hooks_ok h -> hooks_unchained h -> zlen frame <= UINT32_MAX ->
  zlen fs <= max_offset_entries c -> split_fields frame h = (fs, (fault_none, 0, 0)) ->
  located frame 0 (entries (build mr c h sd frame reserve)) fs.
Proof.
  intros Hmr Hh Hu Hn Hc Hs. pose proof (zlen_nonneg fs).
  destruct (build_parse mr c h sd frame reserve fs _ _ _ Hmr Hh Hu Hn ltac:(lia) Hs) as (r & Hr & ->).
  unfold build_outcome in Hr. change (zlen (@nil entry) + zlen fs) with (zlen fs) in Hr.
  destruct r as [es|e]; [|by replace (_ <? _) with false in Hr by lia].
  destruct Hr as (_ & _ & es2 & -> & Hl). exact Hl.
Qed.

(** ** Properties *)

(** C32: the index is the frame.  With memory for it, [build] indexes exactly the fields
    every scanner of the same frame reads: one entry per field, in order, each at the
    offset and length of its value, laid out end to end from the frame's first byte to
    its last.  A frame with a field no scanner can read, or with more fields than the
    cap, leaves an empty table whose status names the reason: too many fields; where no tag
    can be read, the tag out of range when the digits there come to more than the largest tag,
    and the field's format otherwise; and the format for a Data field its Length does not
    match. *)
Theorem build_exact mr c h sd frame reserve :
  mr_unlimited mr -> hooks_ok h -> hooks_unchained h -> zlen frame <= UINT32_MAX ->
  0 <= max_offset_entries c ->
  let t := build mr c h sd frame reserve in
  let '(fs, (kind, _, off)) := split_fields frame h in
  if max_offset_entries c <? zlen fs then status t = Err wire_offset_table_full /\ entries t = []
  else match kind with
       | fault_none => built t /\ located frame 0 (entries t) fs
       | malformed_tag => entries t = [] /\
           exists e, status t = Err e /\ malformed_slot (zdrop off frame) e
       | length_data_mismatch => entries t = [] /\ status t = Err wire_invalid_field_format
       end.
Proof.
  intros Hmr Hh Hu Hn Hc t. destruct (split_fields frame h) as [fs [[kind lt] off]] eqn:Es.
  destruct (build_parse mr c h sd frame reserve fs kind lt off Hmr Hh Hu Hn Hc Es) as (r & Hr & Et).
  fold t in Et. rewrite Et. clear Et t. unfold build_outcome in Hr. change (zlen (@nil entry) + zlen fs) with (zlen fs) in Hr.
  apply split_fields_bounds in Es as (Hfs & _).
  destruct r as [es|e]; cbn [status entries].
  - destruct Hr as (-> & Hm & es2 & -> & Hl). cbn [app] in *.
    replace (max_offset_entries c <? zlen fs) with false by lia. split; [|done].
    unfold built. cbn. rewrite (located_length _ _ _ _ Hl). split_and!; try done. lia.
  - destruct (max_offset_entries c <? zlen fs); [by rewrite Hr|].
    destruct kind; [done| |by rewrite Hr]. split; [done|]. by exists e.
Qed.

(** [8=F|35=D|95=3|96=A^A=|]: four fields, the Data value holding an SOH. *)
Definition sample_frame : bytes :=
  fields_bytes [(8, [70]); (35, [68]); (95, [51]); (96, [65; 1; 61])].

Lemma build_exact_witness :
  let t := build new_delete_resource table_config_default no_hooks 7 sample_frame 0 in
  built t /\ located sample_frame 0 (entries t) [(8, [70]); (35, [68]); (95, [51]); (96, [65; 1; 61])].
Proof.
  intros t.
  pose proof (build_exact new_delete_resource table_config_default no_hooks 7 sample_frame 0
    _ _ _ ltac:(by vm_compute) ltac:(by vm_compute)) as H.
  assert (E : split_fields sample_frame no_hooks =
    ([(8, [70]); (35, [68]); (95, [51]); (96, [65; 1; 61])], (fault_none, 0, 0))) by by vm_compute.
  rewrite E in H. exact H.
Defined.

(** Lookup is the first occurrence.  In a table built over a frame, an answer of
    [find] is always the value of the frame's first field with that tag, whatever the
    hash seed; and while the frame has at most 128 distinct tags every tag it carries is
    found, so only a frame crafted past that bound can have a field reported absent. *)
Theorem find_first_field t fs tag :
  built t -> located (frame_base t) 0 (entries t) fs ->
  (forall e, find t tag = Ok e ->
     exists fs1 v fs2, fs = fs1 ++ (tag, v) :: fs2 /\ tag ∉ map fst fs1 /\
       zsub (frame_base t) (e_offset e) (e_length e) = v) /\
  ((length (remove_dups (map fst fs)) <= 128)%nat ->
     find t tag = Err wire_required_field_missing <-> tag ∉ map fst fs).
Proof.
  intros Hb Hl. pose proof (located_tags _ _ _ _ Hl) as Ht. destruct (find_spec t tag Hb) as [->|[-> Hc]].
  - destruct (first_entry (entries t) tag) as [e'|] eqn:E.
    + split; [intros e [= <-]; by apply (located_lookup _ 0 (entries t))|].
      intros _. apply first_entry_tag in E as [_ Hin]. rewrite Ht in Hin. by split.
    + split; [done|]. intros _. apply first_entry_none in E. rewrite Ht in E. by split.
  - split; [done|]. unfold distinct_tags in Hc. rewrite Ht in Hc. lia.
Qed.

(** The Data field is found in the sample, and tag 34 is not there. *)
Lemma find_first_field_witness :
  let t := build new_delete_resource table_config_default no_hooks 7 sample_frame 0 in
  let fs := [(8, [70]); (35, [68]); (95, [51]); (96, [65; 1; 61])] in
  find t 34 = Err wire_required_field_missing /\
  exists e fs1 v fs2, find t 96 = Ok e /\ fs = fs1 ++ (96, v) :: fs2 /\ 96 ∉ map fst fs1 /\
    zsub sample_frame (e_offset e) (e_length e) = v.
Proof.
  intros t fs. assert (Hb : built t) by by vm_compute.
  assert (Hl : located (frame_base t) 0 (entries t) fs).
  { apply (build_located new_delete_resource table_config_default no_hooks 7 sample_frame 0 fs _ _ _);
      by vm_compute. }
  split.
  - apply (find_first_field t fs 34 Hb Hl); [vm_compute; lia|].
    intros Hin%list_elem_of_In. cbn in Hin. clear - Hin. lia.
  - assert (E : find t 96 = Ok (Entry 17 3 96 0)) by (vm_compute; reflexivity).
    destruct (proj1 (find_first_field t fs 96 Hb Hl) _ E) as (fs1 & v & fs2 & H).
    exists (Entry 17 3 96 0), fs1, v, fs2. split; [exact E|exact H].
Defined.

(** C33: the session's parse buffer is enough.  A frame within the inbound limit [L],
    indexed under the entry cap N(L), is never refused for its field count; its entries,
    its overlay and their padding fit the per-session buffer B(L) with the whole callback
    headroom left over. *)
Theorem parse_buffer_suffices mr h sd frame limit c :
  mr_unlimited mr -> hooks_ok h -> hooks_unchained h -> zlen frame <= limit -> limit <= UINT32_MAX ->
  max_offset_entries c = entry_cap_for limit ->
  let t := build mr c h sd frame (reserve_for (entry_cap_for limit) (zlen frame)) in
  status t <> Err wire_offset_table_full /\
  zlen (entries t) <= reserve_for (entry_cap_for limit) (zlen frame) /\
  sizeof_entry * entry_cap_for limit + sizeof_uint32 * zlen (overlay t) + kAlignPad +
    kCallbackReadHeadroom <= buffer_bytes limit.
Proof.
  intros Hmr Hh Hu Hn Hl Hc t. destruct (split_fields frame h) as [fs [[kind lt] off]] eqn:Es.
  pose proof (zlen_nonneg frame).
  pose proof (split_loop_dense (length frame) h frame 0 carry_init 0 ltac:(lia) ltac:(done)) as Hd.
  fold (split_fields frame h) in Hd. rewrite Es in Hd. cbn [fst] in Hd.
  unfold entry_cap_for, UINT32_MAX, reserve_for in *.
  destruct (build_parse mr c h sd frame (Z.min (limit / 3 + 1) (zlen frame / 3 + 1)) fs kind lt off
    Hmr Hh Hu) as (r & Hr & Et); [unfold UINT32_MAX; lia|dlia|exact Es|].
  fold t in Et. rewrite Et. clear Et t. unfold build_outcome in Hr.
  change (zlen (@nil entry) + zlen fs) with (zlen fs) in Hr.
  assert (Hcap : zlen fs <= limit / 3 + 1 /\ zlen fs <= zlen frame / 3 + 1) by dlia.
  pose proof (zlen_nonneg fs). unfold buffer_bytes, entry_cap_for.
  unfold kParseContainers, kContainerSlack, kProxyAlignPad, sizeof_uint32.
  destruct r as [es|e]; cbn [status entries overlay].
  - destruct Hr as (_ & _ & es2 & -> & Hloc). cbn [app] in *. pose proof (located_length _ _ _ _ Hloc) as Hlen.
    rewrite zlen_build_overlay by (unfold UINT32_MAX; lia). rewrite Hlen.
    pose proof (overlay_cap_mono (zlen fs) (limit / 3 + 1) ltac:(lia) ltac:(unfold UINT32_MAX; dlia)) as Hm.
    split_and!; [done|lia|lia].
  - replace (max_offset_entries c <? zlen fs) with false in Hr by lia.
    change (zlen (@nil entry)) with 0. change (zlen (@nil Z)) with 0.
    pose proof (overlay_cap_mono 0 (limit / 3 + 1) ltac:(dlia) ltac:(unfold UINT32_MAX; dlia)) as Hm.
    change (overlay_cap_for 0) with 8 in Hm. split_and!; [|dlia|lia].
    intros [= ->]. destruct kind; [done| |done]. by destruct Hr as [[_ ?]|[_ ?]].
Qed.

Lemma parse_buffer_suffices_witness :
  let t := build new_delete_resource (Cfg (entry_cap_for 1000) 4096) no_hooks 7 sample_frame
             (reserve_for (entry_cap_for 1000) (zlen sample_frame)) in
  status t <> Err wire_offset_table_full /\ buffer_bytes 1000 = 22676.
Proof.
  intros t. split; [|by vm_compute].
  apply (parse_buffer_suffices new_delete_resource no_hooks 7 sample_frame 1000 (Cfg (entry_cap_for 1000) 4096)
    _ _ _); by vm_compute.
Defined.
