(* ===== verification/GroupIndex.v ===== *)
(** Repeating groups over the field index (src/wire/offset_table.cpp:
    [consume_group_extent], [group], [group_slices_status], [build_nested_subview],
    [nested_group_slices]): the nesting-aware extent of a group, its split into instance
    slices, and the root table's cache of sub-tables for nested groups. *)
From S2P Require Import Prelude Errors TagScan PairTable LengthData Writer Framer FrameHeader.
From S2P Require Import OffsetTable.

Definition kMaxGroupDepth : Z := 16.

Definition no_entry : entry := Entry 0 0 0 0.
Definition entry_at (t : OffsetTable) (k : Z) : entry := nth (Z.to_nat k) (entries t) no_entry.
Definition tag_at (t : OffsetTable) (k : Z) : Z := e_tag (entry_at t k).

Definition parse_declared_count (t : OffsetTable) (e : entry) : Z :=
  parse_bounded_u32 (zsub (frame_base t) (e_offset e) (e_length e)).

(** [group_context::depth] *)
Definition gc_depth (ctx : group_context) : Z := zlen (gc_parent_path ctx).

(** ** [consume_group_extent] *)

(** The inner loop: the members behind an instance's delimiter.  The boolean of every
    walk is [overflow]; [None] is a walk out of fuel. *)
Fixpoint member_loop (fuel : nat) (t : OffsetTable) (consume_one : Z -> option (Z * bool))
    (is_member : Z -> bool) (delim k : Z) : option (Z * bool) :=
  match fuel with
  | O => None
  | S fuel =>
      if negb ((k <? zlen (entries t)) && negb (tag_at t k =? delim)) then Some (k, false)
      else if negb (is_member (tag_at t k)) then Some (k, false)
      else
        match consume_one k with
        | None => None
        | Some (k, true) => Some (k, true)
        | Some (k, false) => member_loop fuel t consume_one is_member delim k
        end
  end.

(** The outer loop: one declared instance a round. *)
Fixpoint instance_loop (fuel : nat) (t : OffsetTable) (consume_one : Z -> option (Z * bool))
    (is_member : Z -> bool) (delim declared k inst : Z) : option (Z * bool) :=
  match fuel with
  | O => None
  | S fuel =>
      if negb ((k <? zlen (entries t)) && (inst <? declared) && (tag_at t k =? delim)) then Some (k, false)
      else
        let inst_start := k in
        match consume_one k with
        | None => None
        | Some (k, true) => Some (k, true)
        | Some (k, false) =>
            match member_loop (S (length (entries t))) t consume_one is_member delim k with
            | None => None
            | Some (k, true) => Some (k, true)
            | Some (k, false) =>
                if max_group_entries_per_instance (cfg t) <? k - inst_start then Some (k, true)
                else instance_loop fuel t consume_one is_member delim declared k (u32 (inst + 1))
            end
        end
  end.

(** Recursion ends at [kMaxGroupDepth], which [fuel] mirrors. *)
Fixpoint consume_group_extent (fuel : nat) (t : OffsetTable) (count_idx : Z) (ctx : group_context)
    (depth : Z) : option (Z * bool) :=
  match fuel with
  | O => None
  | S fuel =>
      if kMaxGroupDepth <=? depth then Some (count_idx, true)
      else
        let first := count_idx + 1 in
        if zlen (entries t) <=? first then Some (first, false)
        else
          match group_member_fn (hooks t) with
          | None => Some (first, false)
          | Some member =>
              let group_no_tag := tag_at t count_idx in
              let delim := tag_at t first in
              if negb (member ctx group_no_tag delim) then Some (first, false)
              else
                let declared := parse_declared_count t (entry_at t count_idx) in
                if declared =? 0 then Some (first, false)
                else
                  let child := pushed ctx group_no_tag in
                  let consume_one at_ :=
                    if (at_ + 1 <? zlen (entries t)) && member child (tag_at t at_) (tag_at t (at_ + 1))
                    then consume_group_extent fuel t at_ child (u8 (depth + 1))
                    else Some (at_ + 1, false) in
                  instance_loop (S (length (entries t))) t consume_one (member ctx group_no_tag) delim
                    declared first 0
          end
  end.

(** The walk with fuel for every depth, which is never short ([consume_walks]). *)
Definition group_extent (t : OffsetTable) (count_idx : Z) (ctx : group_context) (depth : Z) : Z * bool :=
  default (count_idx, true) (consume_group_extent (S (Z.to_nat kMaxGroupDepth)) t count_idx ctx depth).

(** ** [group] *)

Record group_index := GroupIdx { gi_no_tag : Z; gi_first : Z; gi_count : Z }.

(** The index of the first entry with a tag, or the entry count. *)
Fixpoint first_index (es : list entry) (no_tag e : Z) : Z :=
  match es with
  | [] => e
  | en :: es => if e_tag en =? no_tag then e else first_index es no_tag (e + 1)
  end.

(** [ctx] is the table's stored context. *)
Definition group (t : OffsetTable) (ctx : group_context) (no_tag : Z) : expected group_index :=
  let? _ := status t in
  match group_member_fn (hooks t) with
  | None => Err wire_required_field_missing
  | Some member =>
      let count_idx := first_index (entries t) no_tag 0 in
      guard negb (count_idx =? zlen (entries t)) else wire_required_field_missing in
      let first := count_idx + 1 in
      if zlen (entries t) <=? first then Ok (GroupIdx no_tag first 0)
      else
        guard member ctx no_tag (tag_at t first) else wire_required_field_missing in
        let '(group_end, overflow) := group_extent t count_idx ctx (gc_depth ctx) in
        guard negb overflow else wire_group_too_large in
        Ok (GroupIdx no_tag first (group_end - first))
  end.

(** ** [group_slices_status] *)

(** A slice by offset into the table's own bytes. *)
Record group_slice := Slice { gs_data : Z; gs_len : Z }.

#[global] Instance group_slice_eq_dec : EqDecision group_slice.
Proof. solve_decision. Defined.

(** The walk back from '=' over the tag's digits. *)
Fixpoint field_start_loop (fuel : nat) (base : bytes) (p : Z) : Z :=
  match fuel with
  | O => p
  | S fuel =>
      if p <=? 0 then p
      else
        let c := zget base (p - 1) in
        if (c <? 48) || (57 <? c) then p else field_start_loop fuel base (p - 1)
  end.

Definition field_start_from_val (base : bytes) (val_start : Z) : Z :=
  if val_start =? 0 then 0 else field_start_loop (length base) base (val_start - 1).

(** The delimiter of the split: the dictionary's, when it has one. *)
Definition split_delim (t : OffsetTable) (ctx : group_context) (no_tag first : Z) : Z :=
  match group_delim_fn (hooks t) with
  | None => tag_at t first
  | Some f => let d := f ctx no_tag in if negb (d =? 0) then d else tag_at t first
  end.

Definition is_boundary (t : OffsetTable) (first group_end delim k : Z) : bool :=
  (k =? group_end) || ((first <? k) && (tag_at t k =? delim)).

(** The indices [first], ..., [group_end] of both passes. *)
Definition span (first group_end : Z) : list Z :=
  map (fun i => first + Z.of_nat i) (seq 0 (Z.to_nat (group_end - first + 1))).

Definition count_boundaries (t : OffsetTable) (first group_end delim : Z) : Z :=
  fold_left (fun n k => if is_boundary t first group_end delim k then n + 1 else n)
    (span first group_end) 0.

(** [static_cast<std::uint32_t>] sums of the slice's end. *)
Definition slice_of (t : OffsetTable) (inst_start k : Z) : group_slice :=
  let fs := field_start_from_val (frame_base t) (e_offset (entry_at t inst_start)) in
  let last := entry_at t (k - 1) in
  let end_off := u32 (e_offset last + e_length last) in
  Slice fs (if fs <? end_off then end_off - fs else 0).

(** Pass 2: the array written so far and the current instance's start. *)
Definition fill_step (t : OffsetTable) (first group_end delim : Z) (st : list group_slice * Z) (k : Z)
  : list group_slice * Z :=
  if is_boundary t first group_end delim k then (st.1 ++ [slice_of t st.2 k], k) else st.

Definition fill_slices (t : OffsetTable) (first group_end delim : Z) : list group_slice :=
  (fold_left (fill_step t first group_end delim) (span first group_end) ([], first)).1.

Record group_span := GroupSpan { sp_slices : list group_slice; sp_no_tag : Z }.

Record group_slices_result := SlicesResult {
  gr_slices : list group_slice;
  gr_alloc_failed : bool;
}.

(** How the allocations of one call come out: the slice array of the given size, and the
    growth of a row vector. *)
Record allocs := Allocs {
  al_slices : Z -> bool;
  al_row : bool;
}.

Definition cached_span (cache : list group_span) (no_tag : Z) : option group_span :=
  List.find (fun gs => sp_no_tag gs =? no_tag) cache.

(** [None] is the [bad_alloc] of the slice array. *)
Definition split_group (al : allocs) (t : OffsetTable) (ctx : group_context) (no_tag : Z)
  : option (list group_slice) :=
  match group t ctx no_tag with
  | Err _ => Some []
  | Ok gi =>
      let first := gi_first gi in
      let group_end := first + gi_count gi in
      if (first <? zlen (entries t)) && (first <? group_end) then
        let delim := split_delim t ctx no_tag first in
        let n_slices := count_boundaries t first group_end delim in
        if (0 <? n_slices) && negb (al_slices al n_slices) then None
        else Some (fill_slices t first group_end delim)
      else Some []
  end.

Definition group_slices_status (al : allocs) (t : OffsetTable) (ctx : group_context)
    (cache : list group_span) (no_tag : Z) : group_slices_result * list group_span :=
  match cached_span cache no_tag with
  | Some gs => (SlicesResult (sp_slices gs) false, cache)
  | None =>
      match split_group al t ctx no_tag with
      | None => (SlicesResult [] true, cache)
      | Some slices =>
          if al_row al then (SlicesResult slices false, cache ++ [GroupSpan slices no_tag])
          else (SlicesResult [] true, cache)
      end
  end.

(** ** Nested groups: the root's cache *)

(** A sub-table in the arena, with its own stored context and slice cache.  Rows point
    to sub-tables, and two rows of one slice may share one. *)
Record sub_table := SubTable {
  st_table : OffsetTable;
  st_ctx : group_context;
  st_cache : list group_span;
}.

Record nested_cache_row := NestedRow {
  nr_slice_data : Z;         (* the slice's offset in the frame: its pointer identity *)
  nr_hooks_key : Z;          (* opaque_dict() *)
  nr_nested_no_tag : Z;
  nr_table : option nat;     (* an index into [ns_subs]; [None] is nullptr *)
}.

Record nested_state := NestedState {
  ns_subs : list sub_table;
  ns_rows : list nested_cache_row;
}.

Definition nested_init : nested_state := NestedState [] [].

(** [frame_base_ + slice_data], one byte past the slice: its terminal SOH. *)
Definition build_nested_subview (mr : memory_resource) (shell_ok : bool) (h : dict_hooks) (seed : Z)
    (frame : bytes) (slice_data len : Z) (ctx : group_context) : option sub_table :=
  if shell_ok
  then Some (SubTable (build mr table_config_default h seed (zsub frame slice_data (len + 1)) 0) ctx [])
  else None.

Definition is_oom (s : expected unit) : bool :=
  match s with Err out_of_memory => true | _ => false end.

(** [t] points into the arena [subs]; the sub-table's own slice cache is updated there. *)
Definition resolve_nested_result (al : allocs) (subs : list sub_table) (t : option nat) (no_tag : Z)
  : group_slices_result * list sub_table :=
  match t with
  | None => (SlicesResult [] true, subs)
  | Some p =>
      match subs !! p with
      | None => (SlicesResult [] true, subs)
      | Some sub =>
          let '(r, cache) := group_slices_status al (st_table sub) (st_ctx sub) (st_cache sub) no_tag in
          (SlicesResult (gr_slices r) (gr_alloc_failed r || is_oom (status (st_table sub))),
           <[p := SubTable (st_table sub) (st_ctx sub) cache]> subs)
      end
  end.

(** The scan of the rows: the exact row's table, or the first table of the slice. *)
Inductive nested_hit := exact_hit (t : option nat) | slice_hit (t : option nat).

Fixpoint scan_rows (rows : list nested_cache_row) (slice_data key no_tag : Z) (found : bool)
    (table : option nat) : nested_hit :=
  match rows with
  | [] => slice_hit table
  | row :: rows =>
      if negb (nr_slice_data row =? slice_data) || negb (nr_hooks_key row =? key)
      then scan_rows rows slice_data key no_tag found table
      else if nr_nested_no_tag row =? no_tag then exact_hit (nr_table row)
      else if negb found then scan_rows rows slice_data key no_tag true (nr_table row)
      else scan_rows rows slice_data key no_tag found table
  end.

(** What one call's environment decides: whether the sub-table's shell is allocated, the
    allocations of the sub-table's parse and split, and the row insert. *)
Record nested_allocs := NestedAllocs {
  na_shell : bool;
  na_build : memory_resource;
  na_split : allocs;
  na_row : bool;
}.

Definition nested_group_slices (na : nested_allocs) (seed : Z) (frame : bytes) (slice_data : option Z)
    (slice_len no_tag : Z) (key : Z) (h : dict_hooks) (ctx : group_context) (s : nested_state)
  : group_slices_result * nested_state :=
  match slice_data with
  | None => (SlicesResult [] false, s)
  | Some data =>
      match scan_rows (ns_rows s) data key no_tag false None with
      | exact_hit t =>
          let '(r, subs) := resolve_nested_result (na_split na) (ns_subs s) t no_tag in
          (r, NestedState subs (ns_rows s))
      | slice_hit t =>
          let '(t, subs) :=
            match t with
            | Some p => (Some p, ns_subs s)
            | None =>
                match build_nested_subview (na_build na) (na_shell na) h seed frame data slice_len ctx with
                | Some sub => (Some (length (ns_subs s)), ns_subs s ++ [sub])
                | None => (None, ns_subs s)
                end
            end in
          let rows := if na_row na then ns_rows s ++ [NestedRow data key no_tag t] else ns_rows s in
          let '(r, subs) := resolve_nested_result (na_split na) subs t no_tag in
          (r, NestedState subs rows)
      end
  end.

(** ** Specification: a group as a tree *)

(** A field, or a group: its count field and its instances. *)
Inductive node :=
  | Leaf (tag : Z) (v : bytes)
  | Group (tag : Z) (v : bytes) (insts : list (list node)).

Definition node_tag (n : node) : Z := match n with Leaf t _ => t | Group t _ _ => t end.

(** The fields of a tree, in wire order. *)
Fixpoint flatten (n : node) : list (Z * bytes) :=
  match n with
  | Leaf t v => [(t, v)]
  | Group t v insts => (t, v) :: concat (map (fun inst => concat (map flatten inst)) insts)
  end.

Abbreviation flatten_inst := (fun inst => concat (map flatten inst)).
Abbreviation flatten_insts := (fun insts => concat (map flatten_inst insts)).

Fixpoint height (n : node) : nat :=
  match n with
  | Leaf _ _ => 0
  | Group _ _ insts => S (list_max (map (fun inst => list_max (map height inst)) insts))
  end.

(** The delimiter of a group: the first tag of its first instance. *)
Definition insts_delim (insts : list (list node)) : Z :=
  match insts with (head :: _) :: _ => node_tag head | _ => 0 end.

Section Conforms.
Context (member : group_context -> Z -> Z -> bool) (cap : Z).

(** The tag behind a tree, if any. *)
Definition outside (ctx : group_context) (no_tag : Z) (next : option Z) : bool :=
  match next with Some u => negb (member ctx no_tag u) | None => true end.

(** [ctx] is the context the group is registered in, [next] the tag that follows it. *)
Fixpoint node_ok (ctx : group_context) (n : node) (next : option Z) {struct n} : bool :=
  match n with
  | Leaf t _ => outside ctx t next
  | Group t v insts =>
      let child := pushed ctx t in
      let delim := insts_delim insts in
      (parse_bounded_u32 v =? zlen insts) &&
      (bool_decide (insts = []) ||
       (member ctx t delim && (outside ctx t next || bool_decide (next = Some delim)))) &&
      (fix insts_ok insts :=
         match insts with
         | [] => true
         | inst :: rest =>
             match inst with
             | [] => false
             | head :: others =>
                 (node_tag head =? delim) &&
                 forallb (fun n => negb (node_tag n =? delim) && member ctx t (node_tag n)) others
             end &&
             (zlen (flatten_inst inst) <=? cap) &&
             (fix nodes_ok ns :=
                match ns with
                | [] => true
                | n :: ns =>
                    node_ok child n
                      (match ns with
                       | n' :: _ => Some (node_tag n')
                       | [] => match rest with [] => next | _ => Some delim end
                       end) &&
                    nodes_ok ns
                end) inst &&
             insts_ok rest
         end) insts
  end.
End Conforms.

(** The entries of a table, read back as fields. *)
Definition reads (t : OffsetTable) : list (Z * bytes) :=
  map (fun e => (e_tag e, zsub (frame_base t) (e_offset e) (e_length e))) (entries t).

Definition head_tag (fs : list (Z * bytes)) : option Z :=
  match fs with [] => None | f :: _ => Some f.1 end.

(** ** Lemmas *)

(** *** Conforming trees, list by list *)

Definition next_tag (ns : list node) (next : option Z) : option Z :=
  match ns with n :: _ => Some (node_tag n) | [] => next end.

Section TreeLists.
Context (member : group_context -> Z -> Z -> bool) (cap : Z).

Fixpoint nodes_ok (child : group_context) (ns : list node) (next : option Z) : bool :=
  match ns with
  | [] => true
  | n :: ns => node_ok member cap child n (next_tag ns next) && nodes_ok child ns next
  end.

(** One instance: its delimiter first, then members that are not the delimiter. *)
Definition inst_shape (ctx : group_context) (t delim : Z) (inst : list node) : bool :=
  match inst with
  | [] => false
  | head :: others =>
      (node_tag head =? delim) &&
      forallb (fun n => negb (node_tag n =? delim) && member ctx t (node_tag n)) others
  end && (zlen (flatten_inst inst) <=? cap).

Fixpoint insts_ok (ctx : group_context) (t delim : Z) (insts : list (list node)) (next : option Z) : bool :=
  match insts with
  | [] => true
  | inst :: rest =>
      inst_shape ctx t delim inst &&
      nodes_ok (pushed ctx t) inst (match rest with [] => next | _ => Some delim end) &&
      insts_ok ctx t delim rest next
  end.

Lemma node_ok_group ctx t v insts next :
  node_ok member cap ctx (Group t v insts) next = true ->
  parse_bounded_u32 v = zlen insts /\
  (insts <> [] ->
     let delim := insts_delim insts in
     member ctx t delim = true /\ (outside member ctx t next = true \/ next = Some delim) /\
     insts_ok ctx t delim insts next = true).
Proof using.
  cbn [node_ok]. cbv zeta. set (delim := insts_delim insts). clearbody delim.
  intros [[Hp H]%andb_true_iff H2]%andb_true_iff. split; [lia|]. intros Hne.
  apply orb_true_iff in H as [H%bool_decide_eq_true|H]; [done|].
  apply andb_true_iff in H as [H1 H3]. split; [done|].
  split; [apply orb_true_iff in H3 as [?|?%bool_decide_eq_true]; auto|].
  clear - H2. induction insts as [|inst rest IH]; [done|]. cbn [insts_ok].
  apply andb_true_iff in H2 as [H2 Hrest]. apply andb_true_iff in H2 as [H2 Hns].
  apply andb_true_iff. split; [apply andb_true_iff; split; [exact H2|]|by apply IH].
  clear - Hns.
  induction inst as [|n ns IHn]; [done|]. cbn [nodes_ok].
  apply andb_true_iff in Hns as [Hn Hns]. apply andb_true_iff. split; [|by apply IHn].
  exact Hn.
Qed.
End TreeLists.

Lemma flatten_head n : exists v rest, flatten n = (node_tag n, v) :: rest.
Proof. destruct n; cbn; eauto. Qed.

Lemma head_tag_nodes ns post : head_tag (flatten_inst ns ++ post) = next_tag ns (head_tag post).
Proof.
  destruct ns as [|n ns]; [done|]. cbn [map concat next_tag].
  destruct (flatten_head n) as (v & rest & ->). done.
Qed.

Lemma flatten_length n : 1 <= zlen (flatten n).
Proof. destruct (flatten_head n) as (v & rest & ->). rewrite zlen_cons. pose_zlen. lia. Qed.

Lemma length_nodes ns : zlen ns <= zlen (flatten_inst ns).
Proof.
  induction ns as [|n ns IH]; [done|]. cbn [map concat]. rewrite zlen_cons, zlen_app.
  pose proof (flatten_length n). lia.
Qed.

Section InstLists.
Context (member : group_context -> Z -> Z -> bool) (cap : Z).

Lemma insts_head ctx g delim insts next post :
  insts_ok member cap ctx g delim insts next = true -> insts <> [] ->
  head_tag (flatten_insts insts ++ post) = Some delim.
Proof using.
  destruct insts as [|[|n ns] insts]; [done|done|]. cbn [insts_ok inst_shape]. intros H _.
  cbn [map concat]. destruct (flatten_head n) as (w & rest & ->). cbn. f_equal.
  repeat (apply andb_true_iff in H as [H ?]). lia.
Qed.

Lemma insts_le ctx g delim insts next :
  insts_ok member cap ctx g delim insts next = true -> zlen insts <= zlen (flatten_insts insts).
Proof using.
  induction insts as [|i insts IH]; intros H; [done|]. cbn [insts_ok map concat] in *.
  apply andb_true_iff in H as [H Hrest]. apply andb_true_iff in H as [H _].
  destruct i as [|n ns]; [done|]. rewrite zlen_cons, zlen_app. cbn [map concat]. rewrite zlen_app.
  pose proof (flatten_length n). specialize (IH Hrest). pose_zlen. lia.
Qed.

End InstLists.

(** *** The extent of a conforming group *)

Lemma reads_length t : zlen (reads t) = zlen (entries t).
Proof. unfold reads, zlen. by rewrite length_map. Qed.

Lemma value_at_entry (base : bytes) s ds w rest : 0 <= s -> zdrop s base = ds ++ EQ :: w ++ rest ->
  zsub base (s + zlen ds + 1) (zlen w) = w.
Proof.
  intros Hs Hb. pose proof (zlen_nonneg ds). unfold zsub.
  replace (s + zlen ds + 1) with (s + (zlen ds + 1)) by lia.
  rewrite <- zdrop_drop, Hb, zdrop_app_r by lia. replace (zlen ds + 1 - zlen ds) with 1 by lia. apply ztake_app.
Qed.

Lemma reads_value t pre tag v post : reads t = pre ++ (tag, v) :: post ->
  tag_at t (zlen pre) = tag /\
  zsub (frame_base t) (e_offset (entry_at t (zlen pre))) (e_length (entry_at t (zlen pre))) = v.
Proof.
  intros Hr. unfold reads in Hr. apply map_eq_app in Hr as (l1 & l2 & He & <- & Hr).
  destruct l2 as [|e l2]; [done|]. injection Hr as <- <- _.
  assert (Ha : entry_at t (zlen (map (fun e => (e_tag e, zsub (frame_base t) (e_offset e) (e_length e))) l1)) = e).
  { unfold entry_at. rewrite He. unfold zlen. rewrite length_map, Nat2Z.id.
    rewrite app_nth2, Nat.sub_diag by lia. done. }
  unfold tag_at. by rewrite Ha.
Qed.

Lemma reads_at t pre tag v post : reads t = pre ++ (tag, v) :: post ->
  tag_at t (zlen pre) = tag /\ parse_declared_count t (entry_at t (zlen pre)) = parse_bounded_u32 v.
Proof. intros Hr. unfold parse_declared_count. by destruct (reads_value t pre tag v post Hr) as [-> ->]. Qed.

Lemma reads_head t pre post tag : reads t = pre ++ post -> head_tag post = Some tag ->
  zlen pre < zlen (entries t) /\ tag_at t (zlen pre) = tag.
Proof.
  intros Hr Hh. destruct post as [|[tag' v] post]; [done|]. injection Hh as ->.
  split; [|by apply (reads_at t pre tag v post)].
  rewrite <- reads_length, Hr, zlen_app, zlen_cons. pose_zlen. lia.
Qed.

Lemma reads_end t pre post : reads t = pre ++ post -> head_tag post = None -> zlen (entries t) = zlen pre.
Proof. intros Hr Hh. destruct post; [|done]. by rewrite <- reads_length, Hr, app_nil_r. Qed.

Section Extent.
Context (t : OffsetTable) (member : group_context -> Z -> Z -> bool).
Context (Hm : group_member_fn (hooks t) = Some member).
Context (Hlen : zlen (entries t) <= UINT32_MAX).

Abbreviation icap := (max_group_entries_per_instance (cfg t)).

(** What [consume_one] promises on a tree at [child]. *)
Definition consumes (child : group_context) (bound : Z) (consume_one : Z -> option (Z * bool)) : Prop :=
  forall n pre post, reads t = pre ++ flatten n ++ post ->
    node_ok member icap child n (head_tag post) = true -> Z.of_nat (height n) <= bound ->
    consume_one (zlen pre) = Some (zlen pre + zlen (flatten n), false).

Lemma member_loop_nodes child bound consume_one is_member delim ns :
  consumes child bound consume_one -> forall lf pre post, zlen ns < Z.of_nat lf ->
  reads t = pre ++ flatten_inst ns ++ post ->
  Forall (fun n => node_tag n <> delim /\ is_member (node_tag n) = true) ns ->
  nodes_ok member icap child ns (head_tag post) = true ->
  Forall (fun n => Z.of_nat (height n) <= bound) ns ->
  (match head_tag post with Some u => u = delim \/ is_member u = false | None => True end) ->
  member_loop lf t consume_one is_member delim (zlen pre) = Some (zlen pre + zlen (flatten_inst ns), false).
Proof using.
  intros Hc. induction ns as [|n ns IH]; intros lf pre post Hf Hr Hns Hok Hh Hpost.
  - cbn [map concat app] in *. change (zlen (@nil (Z * bytes))) with 0. rewrite Z.add_0_r.
    destruct lf as [|lf]; [done|]. cbn [member_loop]. destruct (head_tag post) as [u|] eqn:E.
    + destruct (reads_head t pre post u Hr E) as [Hlt ->]. destruct Hpost as [->| ->].
      * by rewrite Z.eqb_refl, andb_false_r.
      * by destruct (negb _).
    + rewrite (reads_end t pre post Hr E), Z.ltb_irrefl. done.
  - rewrite zlen_cons in Hf. destruct lf as [|lf]; [pose_zlen; lia|]. cbn [member_loop].
    apply Forall_cons in Hns as [[Hd Hmem] Hns]. apply Forall_cons in Hh as [Hhn Hh].
    cbn [nodes_ok map concat] in *. rewrite <- app_assoc in Hr.
    apply andb_true_iff in Hok as [Hn Hok]. rewrite <- head_tag_nodes in Hn.
    destruct (reads_head t pre (flatten n ++ flatten_inst ns ++ post) (node_tag n) Hr) as [Hlt Ht].
    { destruct (flatten_head n) as (v & rest & ->). done. }
    rewrite Ht. replace (_ <? _) with true by lia. replace (node_tag n =? delim) with false by lia.
    rewrite Hmem. cbn [andb negb]. rewrite (Hc n pre _ Hr Hn Hhn).
    rewrite zlen_app, Z.add_assoc, <- (zlen_app pre).
    apply (IH lf (pre ++ flatten n) post); (done || lia || by rewrite <- app_assoc).
Qed.

Lemma instance_loop_insts ctx g bound consume_one delim declared insts :
  consumes (pushed ctx g) bound consume_one ->
  declared <= UINT32_MAX -> forall lf pre post inst, 0 <= inst -> declared = inst + zlen insts ->
  zlen insts < Z.of_nat lf ->
  reads t = pre ++ flatten_insts insts ++ post ->
  insts_ok member icap ctx g delim insts (head_tag post) = true ->
  Forall (fun n => Z.of_nat (height n) <= bound) (concat insts) ->
  (outside member ctx g (head_tag post) = true \/ head_tag post = Some delim) ->
  instance_loop lf t consume_one (member ctx g) delim declared (zlen pre) inst =
    Some (zlen pre + zlen (flatten_insts insts), false).
Proof using.
  unfold UINT32_MAX. intros Hc Hdecl. induction insts as [|i insts IH]; intros lf pre post inst Hi Hd Hf Hr Hok Hh Hpost.
  - rewrite (zlen_nil (A:=list node)) in Hd. cbn [map concat app] in *.
    change (zlen (@nil (Z * bytes))) with 0. rewrite Z.add_0_r.
    destruct lf as [|lf]; [done|]. cbn [instance_loop].
    replace (inst <? declared) with false by lia. by rewrite andb_false_r.
  - rewrite zlen_cons in Hf, Hd. destruct lf as [|lf]; [pose_zlen; lia|]. pose proof (zlen_nonneg insts).
    cbn [insts_ok] in Hok. apply andb_true_iff in Hok as [Hok Hrest]. apply andb_true_iff in Hok as [Hs Hns].
    unfold inst_shape in Hs. apply andb_true_iff in Hs as [Hs Hcap].
    destruct i as [|head others]; [done|]. apply andb_true_iff in Hs as [Hhd Hoth].
    cbn [concat map] in Hr, Hh |- *. rewrite <- !app_assoc in Hr.
    cbn [app] in Hh. apply Forall_cons in Hh as [Hhh Hh]. apply Forall_app in Hh as [Hho Hh].
    set (tail := flatten_insts insts ++ post) in *.
    assert (Htail : head_tag tail = match insts with [] => head_tag post | _ => Some delim end).
    { unfold tail. destruct insts as [|i insts]; [done|]. by eapply insts_head. }
    rewrite <- Htail in Hns. cbn [nodes_ok] in Hns. apply andb_true_iff in Hns as [Hn Hns].
    rewrite <- head_tag_nodes in Hn. cbn [instance_loop].
    destruct (reads_head t pre (flatten head ++ flatten_inst others ++ tail) (node_tag head) Hr) as [Hlt Ht].
    { destruct (flatten_head head) as (v & rest & ->). done. }
    rewrite Ht, Hhd. replace (_ <? _) with true by lia. replace (inst <? declared) with true by lia.
    cbn [andb negb]. rewrite (Hc head pre _ Hr Hn Hhh).
    rewrite <- (zlen_app pre). rewrite app_assoc in Hr.
    rewrite (member_loop_nodes (pushed ctx g) bound consume_one (member ctx g) delim others Hc _
      (pre ++ flatten head) tail); try done.
    + rewrite <- zlen_app. set (pre' := (pre ++ flatten head) ++ flatten_inst others).
      assert (Hp : zlen pre' - zlen pre = zlen (flatten_inst (head :: others))).
      { unfold pre'. cbn [map concat]. rewrite !zlen_app. lia. }
      cbn [map concat] in Hcap, Hp. replace (icap <? zlen pre' - zlen pre) with false by lia.
      rewrite wrap_small by lia. rewrite (IH lf pre' post (inst + 1)); try done; try lia.
      * rewrite !zlen_app in *. do 2 f_equal. lia.
      * unfold pre'. rewrite <- app_assoc. exact Hr.
    + pose proof (length_nodes others) as Ho. apply (f_equal zlen) in Hr.
      rewrite reads_length, !zlen_app in Hr. clear - Hr Ho. cbn beta in *. unfold zlen in *. lia.
    + rewrite forallb_forall in Hoth. apply Forall_forall. intros n Hin%list_elem_of_In.
      specialize (Hoth n Hin). cbn in Hoth. apply andb_true_iff in Hoth as [? ?]. split; [lia|done].
    + destruct insts; rewrite Htail; [|by left].
      destruct Hpost as [Ho|Ho].
      * unfold outside in Ho. destruct (head_tag post); [|done]. right. by apply negb_true_iff.
      * rewrite Ho. by left.
Qed.

Lemma height_insts v g insts bound : Z.of_nat (height (Group g v insts)) <= bound + 1 ->
  Forall (fun n => Z.of_nat (height n) <= bound) (concat insts).
Proof using.
  cbn [height]. intros Hh. apply Forall_forall. intros n Hin.
  apply list_elem_of_In, in_concat in Hin as (inst & Hi & Hn).
  pose proof (list_max_le (map (fun inst => list_max (map height inst)) insts)
    (list_max (map (fun inst => list_max (map height inst)) insts))) as [H1 _].
  specialize (H1 (le_n _)). rewrite List.Forall_forall in H1.
  specialize (H1 _ (in_map (fun inst => list_max (map height inst)) _ _ Hi)). cbn beta in H1.
  pose proof (list_max_le (map height inst) (list_max (map height inst))) as [H2 _].
  specialize (H2 (le_n _)). rewrite List.Forall_forall in H2.
  specialize (H2 _ (in_map height _ _ Hn)). lia.
Qed.

(** The extent walk on a group, at one fuel. *)
Definition extends_at (fuel : nat) : Prop :=
  forall ctx g v insts pre post depth,
  reads t = pre ++ flatten (Group g v insts) ++ post ->
  node_ok member icap ctx (Group g v insts) (head_tag post) = true ->
  0 <= depth -> depth + Z.of_nat (height (Group g v insts)) <= kMaxGroupDepth ->
  kMaxGroupDepth - depth < Z.of_nat fuel ->
  consume_group_extent fuel t (zlen pre) ctx depth =
    Some (zlen pre + zlen (flatten (Group g v insts)), false).

(** [consume_one]: a nested group is walked whole, anything else is one entry. *)
Lemma consume_one_consumes fuel child depth : extends_at fuel ->
  0 <= depth < kMaxGroupDepth -> kMaxGroupDepth - depth - 1 < Z.of_nat fuel ->
  consumes child (kMaxGroupDepth - depth - 1) (fun at_ =>
    if (at_ + 1 <? zlen (entries t)) && member child (tag_at t at_) (tag_at t (at_ + 1))
    then consume_group_extent fuel t at_ child (u8 (depth + 1)) else Some (at_ + 1, false)).
Proof using Hlen.
  unfold kMaxGroupDepth. intros IH Hd Hf n pre post Hn Hok Hh. destruct n as [g v|g v insts].
  - cbn [flatten app] in Hn |- *. destruct (reads_at t pre g v post Hn) as [-> _].
    change (zlen [(g, v)]) with 1. cbn [node_ok] in Hok.
    assert (Hn' : reads t = (pre ++ [(g, v)]) ++ post) by (by rewrite <- app_assoc).
    assert (Hp : zlen (pre ++ [(g, v)]) = zlen pre + 1) by (rewrite zlen_app; done).
    destruct (head_tag post) as [u|] eqn:E.
    + destruct (reads_head t _ _ _ Hn' E) as [_ Hu]. rewrite Hp in Hu. rewrite Hu.
      cbn in Hok. apply negb_true_iff in Hok. by rewrite Hok, andb_false_r.
    + rewrite (reads_end t _ _ Hn' E), Hp, Z.ltb_irrefl. done.
  - cbn [height] in Hh. rewrite wrap_small by lia.
    assert (Hgo : consume_group_extent fuel t (zlen pre) child (depth + 1) =
      Some (zlen pre + zlen (flatten (Group g v insts)), false)).
    { apply (IH _ g v insts pre post); [exact Hn|exact Hok|lia| |]; unfold kMaxGroupDepth; cbn [height]; lia. }
    pose proof (node_ok_group member icap _ g v insts (head_tag post) Hok) as [_ Hsub].
    destruct (decide (insts = [])) as [->|Hne]; [by destruct (_ && _)|].
    destruct (Hsub Hne) as (Hmem & _ & Hi). cbn [flatten app] in Hn.
    destruct (reads_at t pre g v _ Hn) as [Hg _].
    destruct (reads_head t (pre ++ [(g, v)]) (flatten_insts insts ++ post) (insts_delim insts)) as [Hlt Hdt];
      [by rewrite <- app_assoc|by eapply insts_head|].
    rewrite zlen_app in Hlt, Hdt. change (zlen [(g, v)]) with 1 in Hlt, Hdt.
    replace (zlen pre + 1 <? zlen (entries t)) with true by lia. by rewrite Hg, Hdt, Hmem.
Qed.

Lemma consume_group fuel : extends_at fuel.
Proof using Hm Hlen.
  induction fuel as [|fuel IH]; intros ctx g v insts pre post depth Hr Hok Hd Hh Hf;
    [cbn [height] in Hh; lia|].
  cbn [consume_group_extent]. unfold kMaxGroupDepth in *.
  assert (Hh1 : Z.of_nat (height (Group g v insts)) <= (16 - depth - 1) + 1) by lia.
  apply height_insts in Hh1. cbn [height] in Hh. replace (16 <=? depth) with false by lia. rewrite Hm.
  apply node_ok_group in Hok as [Hp Hok]. cbn [flatten app] in Hr |- *.
  destruct (reads_at t pre g v _ Hr) as [Ht Hcount].
  assert (Hr' : reads t = (pre ++ [(g, v)]) ++ flatten_insts insts ++ post) by (by rewrite <- app_assoc).
  assert (Hpre : zlen (pre ++ [(g, v)]) = zlen pre + 1) by (rewrite zlen_app; done).
  rewrite zlen_cons. destruct (decide (insts = [])) as [->|Hne].
  { change (zlen (@nil (list node))) with 0 in Hp. cbn [map concat].
    change (zlen (@nil (Z * bytes))) with 0. rewrite Hcount, Hp.
    destruct (_ <=? _); [f_equal; lia|]. destruct (negb _); f_equal; lia. }
  destruct (Hok Hne) as (Hmem & Hnext & Hinsts). clear Hok.
  destruct (reads_head t _ _ _ Hr' (insts_head _ _ _ _ _ _ _ post Hinsts Hne)) as [Hlt Hdt].
  rewrite Hpre in Hlt, Hdt. replace (zlen (entries t) <=? zlen pre + 1) with false by lia.
  rewrite Ht, Hdt, Hmem, Hcount, Hp. cbn [negb].
  assert (Hpos : 0 < zlen insts) by (destruct insts; [done|rewrite zlen_cons; pose_zlen; lia]).
  replace (zlen insts =? 0) with false by lia. rewrite <- Hpre.
  pose proof (insts_le _ _ _ _ _ _ _ Hinsts) as Hni.
  assert (Hfl : zlen (flatten_insts insts) <= zlen (entries t)).
  { apply (f_equal zlen) in Hr'. rewrite reads_length, !zlen_app in Hr'. pose_zlen. lia. }
  rewrite (instance_loop_insts ctx g (16 - depth - 1) _ _ (zlen insts) insts) with (post := post);
    try done; try lia; try (clear - Hni Hfl; unfold zlen in *; lia).
  - by rewrite Hpre, Z.add_assoc.
  - apply (consume_one_consumes fuel (pushed ctx g) depth IH); unfold kMaxGroupDepth; lia.
Qed.
End Extent.

(** *** Every walk stays inside the table and ends *)

Section Walks.
Context (t : OffsetTable).
Abbreviation n := (zlen (entries t)).

(** A walk that ends, at or behind [k] and inside the table. *)
Definition ends_in (k : Z) (r : option (Z * bool)) : Prop :=
  exists k' o, r = Some (k', o) /\ k <= k' <= n.

(** One step of a walk: forward, inside the table. *)
Definition steps (consume_one : Z -> option (Z * bool)) : Prop :=
  forall k, 0 <= k < n ->
    exists k' o, consume_one k = Some (k', o) /\ k <= k' <= n /\ (o = false -> k < k').

Lemma ends_now k k' o : k <= k' <= n -> ends_in k (Some (k', o)).
Proof using. intros Hk. by exists k', o. Qed.

Lemma ends_later k k' r : k <= k' -> ends_in k' r -> ends_in k r.
Proof using. intros Hk (e & o & -> & He). exists e, o. split; [done|lia]. Qed.

Lemma member_loop_ends lf consume_one is_member delim k : steps consume_one -> 0 <= k <= n ->
  n - k < Z.of_nat lf -> ends_in k (member_loop lf t consume_one is_member delim k).
Proof using.
  intros Hs. revert k. induction lf as [|lf IH]; intros k Hk Hf; [lia|]. cbn [member_loop].
  destruct (k <? n) eqn:E; cbn [andb negb]; [|apply ends_now; lia].
  destruct (negb (negb _)); [apply ends_now; lia|]. destruct (negb (is_member _)); [apply ends_now; lia|].
  destruct (Hs k ltac:(lia)) as (k' & o & -> & Hk' & Hp). destruct o; [by apply ends_now|].
  specialize (Hp eq_refl). eapply ends_later; [|apply IH; lia]. lia.
Qed.

Lemma instance_loop_ends lf consume_one is_member delim declared k inst : steps consume_one -> 0 <= k <= n ->
  n - k < Z.of_nat lf -> ends_in k (instance_loop lf t consume_one is_member delim declared k inst).
Proof using.
  intros Hs. revert k inst. induction lf as [|lf IH]; intros k inst Hk Hf; [lia|]. cbn [instance_loop].
  destruct (k <? n) eqn:E; cbn [andb negb]; [|apply ends_now; lia].
  destruct (negb _); [apply ends_now; lia|]. destruct (Hs k ltac:(lia)) as (k1 & o & -> & Hk1 & Hp).
  destruct o; [by apply ends_now|]. specialize (Hp eq_refl).
  destruct (member_loop_ends (S (length (entries t))) consume_one is_member delim k1 Hs ltac:(lia)
    ltac:(unfold zlen; lia)) as (k2 & o & -> & Hk2).
  destruct o; [apply ends_now; lia|]. destruct (_ <? k2 - k); [apply ends_now; lia|].
  eapply ends_later; [|apply IH; lia]. lia.
Qed.

Lemma consume_walks fuel : forall k ctx depth, 0 <= k < n -> 0 <= depth ->
  kMaxGroupDepth - depth < Z.of_nat fuel -> (0 < fuel)%nat ->
  exists e o, consume_group_extent fuel t k ctx depth = Some (e, o) /\ k <= e <= n /\ (o = false -> k < e).
Proof using.
  unfold kMaxGroupDepth. induction fuel as [|fuel IH]; intros k ctx depth Hk Hd Hf Hf0; [lia|].
  cbn [consume_group_extent]. unfold kMaxGroupDepth.
  assert (Hnow : forall e o, k <= e <= n -> (o = false -> k < e) ->
    exists e' o', Some (e, o) = Some (e', o') /\ k <= e' <= n /\ (o' = false -> k < e')) by (intros e o; by exists e, o).
  destruct (16 <=? depth) eqn:Ed; [by apply Hnow; [lia|]|].
  destruct (n <=? k + 1) eqn:E; [apply Hnow; lia|].
  destruct (group_member_fn _) as [member|]; [|apply Hnow; lia].
  destruct (negb _); [apply Hnow; lia|]. destruct (_ =? 0); [apply Hnow; lia|]. cbv zeta.
  match goal with |- context [instance_loop _ _ ?f _ _ _ _ _] => assert (Hs : steps f) end.
  { intros at_ Hat. cbn beta. destruct (at_ + 1 <? n) eqn:Ea; cbn [andb].
    - destruct (member _ _ _); [|exists (at_ + 1), false; split; [done|lia]].
      rewrite wrap_small by lia. apply IH; lia.
    - exists (at_ + 1), false. split; [done|lia]. }
  destruct (instance_loop_ends (S (length (entries t))) _ (member ctx (tag_at t k)) (tag_at t (k + 1))
    (parse_declared_count t (entry_at t k)) (k + 1) 0 Hs ltac:(lia) ltac:(unfold zlen; lia)) as (e & o & -> & He).
  apply Hnow; lia.
Qed.

Lemma extent_range k ctx depth : 0 <= k < n -> 0 <= depth ->
  let r := group_extent t k ctx depth in k <= r.1 <= n /\ (r.2 = false -> k < r.1).
Proof using.
  intros Hk Hd. unfold group_extent.
  destruct (consume_walks (S (Z.to_nat kMaxGroupDepth)) k ctx depth Hk Hd) as (e & o & -> & He); [unfold kMaxGroupDepth; lia|lia|]. exact He.
Qed.

(** The recursion's fuel: any amount past the depths left gives the same walk. *)
Lemma member_loop_ext lf f f' is_member delim k : (forall x, 0 <= x < n -> f x = f' x) ->
  steps f -> 0 <= k <= n -> member_loop lf t f is_member delim k = member_loop lf t f' is_member delim k.
Proof using.
  intros He Hs. revert k. induction lf as [|lf IH]; intros k Hk; cbn [member_loop]; [done|].
  destruct (k <? n) eqn:E; cbn [andb negb]; [|done].
  destruct (negb (negb _)); [done|]. destruct (negb (is_member _)); [done|]. rewrite <- He by lia.
  destruct (Hs k ltac:(lia)) as (k1 & o & -> & Hk1 & _). destruct o; [done|]. apply IH. lia.
Qed.

Lemma instance_loop_ext lf f f' is_member delim declared k inst : (forall x, 0 <= x < n -> f x = f' x) ->
  steps f -> 0 <= k <= n ->
  instance_loop lf t f is_member delim declared k inst = instance_loop lf t f' is_member delim declared k inst.
Proof using.
  intros He Hs. revert k inst. induction lf as [|lf IH]; intros k inst Hk; cbn [instance_loop]; [done|].
  destruct (k <? n) eqn:E; cbn [andb negb]; [|done]. destruct (negb _); [done|]. rewrite <- He by lia.
  destruct (Hs k ltac:(lia)) as (k1 & o & -> & Hk1 & _). destruct o; [done|].
  rewrite <- (member_loop_ext _ f f') by (done || lia).
  destruct (member_loop_ends (S (length (entries t))) f is_member delim k1 Hs ltac:(lia)
    ltac:(unfold zlen; lia)) as (k2 & o & -> & Hk2).
  destruct o; [done|]. destruct (_ <? k2 - k); [done|]. apply IH. lia.
Qed.
End Walks.

Lemma first_index_spec es no_tag e :
  match first_entry es no_tag with
  | Some en => exists l1 l2, es = l1 ++ en :: l2 /\ no_tag ∉ map e_tag l1 /\ e_tag en = no_tag /\
      first_index es no_tag e = e + zlen l1
  | None => first_index es no_tag e = e + zlen es
  end.
Proof.
  revert e. induction es as [|en es IH]; intros e; cbn [first_index first_entry List.find].
  - by rewrite (zlen_nil (A:=entry)), Z.add_0_r.
  - destruct (e_tag en =? no_tag) eqn:E.
    + exists [], es. rewrite (zlen_nil (A:=entry)), Z.add_0_r.
      split_and!; [done|apply not_elem_of_nil|lia|done].
    + specialize (IH (e + 1)). unfold first_entry in IH. destruct (List.find _ es) as [en'|].
      * destruct IH as (l1 & l2 & -> & Hn & Ht & ->). exists (en :: l1), l2. rewrite zlen_cons.
        split_and!; [done| |done|lia]. cbn [map]. apply not_elem_of_cons. split; [lia|done].
      * rewrite IH, zlen_cons. lia.
Qed.

(** A group's extent is inside the table, whatever the frame and the dictionary. *)
Lemma group_range t ctx no_tag gi : group t ctx no_tag = Ok gi ->
  0 < gi_first gi <= zlen (entries t) /\ 0 <= gi_count gi /\
  gi_first gi + gi_count gi <= zlen (entries t) /\ gi_no_tag gi = no_tag.
Proof.
  unfold group. destruct (status t); [|done]. cbn [rbind].
  destruct (group_member_fn (hooks t)) as [member|]; [|done].
  pose proof (first_index_spec (entries t) no_tag 0) as Hi.
  destruct (first_entry (entries t) no_tag) as [en|]; [|rewrite Hi, Z.add_0_l, Z.eqb_refl; done].
  destruct Hi as (l1 & l2 & He & _ & _ & ->). rewrite Z.add_0_l.
  pose proof (f_equal zlen He) as Hl. rewrite zlen_app, zlen_cons in Hl.
  pose proof (zlen_nonneg l1). pose proof (zlen_nonneg l2).
  replace (zlen l1 =? zlen (entries t)) with false by lia. cbn [negb].
  destruct (zlen (entries t) <=? zlen l1 + 1) eqn:E; [intros [= <-]; cbn; lia|].
  destruct (member _ _ _); [|done].
  pose proof (extent_range t (zlen l1) ctx (gc_depth ctx) ltac:(lia) (zlen_nonneg _)) as Hr.
  cbv zeta in Hr. destruct (group_extent _ _ _ _) as [e o]. cbn [fst snd] in Hr.
  destruct o; [done|]. cbn [negb]. intros [= <-]. cbn. lia.
Qed.

(** *** The split *)

Lemma field_start_walk fuel base s p : 0 <= s <= p -> p - s <= Z.of_nat fuel ->
  (forall i, s <= i < p -> is_digit (zget base i) = true) ->
  (s = 0 \/ is_digit (zget base (s - 1)) = false) -> field_start_loop fuel base p = s.
Proof.
  revert p. induction fuel as [|fuel IH]; intros p Hs Hf Hd Hstop; cbn [field_start_loop]; [lia|].
  destruct (p <=? 0) eqn:E; [lia|]. destruct (decide (p = s)) as [->|Hne].
  - destruct Hstop as [->|Hn]; [lia|]. unfold is_digit in Hn.
    by replace ((zget base (s - 1) <? 48) || (57 <? zget base (s - 1))) with true by lia.
  - specialize (Hd (p - 1) ltac:(lia)) as Hp. apply is_digit_spec in Hp.
    replace ((zget base (p - 1) <? 48) || (57 <? zget base (p - 1))) with false by lia.
    apply IH; try done; try lia. intros i Hi. apply Hd. lia.
Qed.

(** Where field [k] starts: behind the SOH of the field before it. *)
Definition field_pos (t : OffsetTable) (k : Z) : Z :=
  if k =? 0 then 0 else e_offset (entry_at t (k - 1)) + e_length (entry_at t (k - 1)) + 1.

(** Entry [k] of a located table, [s] being the start of its field. *)
Definition entry_placed (buf : bytes) (s : Z) (e : entry) (more : Prop) : Prop :=
  exists ds v rest,
    digits ds /\ ds <> [] /\ zdrop s buf = ds ++ EQ :: v ++ rest /\
    e = Entry (s + zlen ds + 1) (zlen v) (e_tag e) 0 /\ (more -> exists q, rest = SOH :: q).

Lemma located_nth buf es fs : forall i k d, 0 <= i -> located buf i es fs -> (k < length es)%nat ->
  let s := match k with O => i | S k => e_offset (nth k es d) + e_length (nth k es d) + 1 end in
  i <= s <= zlen buf /\ entry_placed buf s (nth k es d) (S k < length es)%nat /\
  (s = i \/ zget buf (s - 1) = SOH).
Proof.
  revert fs. induction es as [|e es IH]; intros fs i k d Hi Hl Hk; cbn in Hk; [lia|].
  destruct fs as [|[tag v] fs]; [done|]. cbn [located] in Hl.
  destruct Hl as (ds & rest & Hd & Hn & _ & Htag & Hb & -> & Hr).
  assert (Hle : i + zlen ds + 1 + zlen v + zlen rest <= zlen buf).
  { destruct (decide (i <= zlen buf)) as [|Hgt].
    - apply (f_equal zlen) in Hb. rewrite zlen_drop, zlen_app, zlen_cons, zlen_app in Hb by lia. lia.
    - rewrite zdrop_ge in Hb by lia. by destruct ds. }
  pose proof (zlen_nonneg ds). pose proof (zlen_nonneg v). pose proof (zlen_nonneg rest).
  destruct k as [|k]; cbn [nth]; cbv zeta.
  - split; [lia|]. split; [|by left]. exists ds, v, rest. split_and!; try done.
    cbn [length]. intros Hlt. destruct rest as [|c q]; [destruct Hr as [-> _]; cbn in Hlt; lia|].
    destruct Hr as [-> _]. by exists q.
  - destruct rest as [|c q]; [destruct Hr as [-> _]; cbn in Hk; lia|]. destruct Hr as [-> Hl].
    rewrite zlen_cons in Hle. pose proof (zlen_nonneg q).
    destruct (IH fs (i + zlen ds + 1 + zlen v + 1) k d ltac:(lia) Hl ltac:(lia)) as (Hp1 & Hp2 & Hp3). cbn [length].
    assert (Hsoh : zget buf (i + zlen ds + 1 + zlen v + 1 - 1) = SOH).
    { replace (i + zlen ds + 1 + zlen v + 1 - 1) with (i + (zlen ds + (1 + zlen v))) by lia.
      rewrite <- zget_drop, Hb by lia. rewrite zget_at, zget_S by lia.
      replace (1 + zlen v - 1) with (zlen v + 0) by lia. by rewrite zget_at by lia. }
    assert (Hplaced : entry_placed buf match k with
        | O => i + zlen ds + 1 + zlen v + 1
        | S k => e_offset (nth k es d) + e_length (nth k es d) + 1 end (nth k es d) (S (S k) < S (length es))%nat).
    { destruct Hp2 as (ds' & v' & rest' & ? & ? & ? & ? & Hm). exists ds', v', rest'. split_and!; try done.
      intros ?. apply Hm. lia. }
    destruct k as [|k]; cbn [nth e_offset e_length] in *.
    + split; [lia|]. split; [done|]. by right.
    + split; [lia|]. split; [done|]. right. destruct Hp3 as [->|]; done.
Qed.

Section Split.
Context (t : OffsetTable) (fs : list (Z * bytes)).
Context (Hl : located (frame_base t) 0 (entries t) fs) (Hn : zlen (frame_base t) <= UINT32_MAX).

Lemma pos_placed k : 0 <= k < zlen (entries t) ->
  0 <= field_pos t k <= zlen (frame_base t) /\
  entry_placed (frame_base t) (field_pos t k) (entry_at t k) (k + 1 < zlen (entries t)) /\
  (field_pos t k = 0 \/ zget (frame_base t) (field_pos t k - 1) = SOH).
Proof using Hl.
  intros Hk. unfold zlen in Hk.
  pose proof (located_nth _ _ _ 0 (Z.to_nat k) no_entry ltac:(lia) Hl ltac:(lia)) as (H1 & H2 & H3).
  assert (Hp : match Z.to_nat k with O => 0
    | S k => e_offset (nth k (entries t) no_entry) + e_length (nth k (entries t) no_entry) + 1 end = field_pos t k).
  { unfold field_pos, entry_at. destruct (k =? 0) eqn:E.
    - by replace (Z.to_nat k) with O by lia.
    - replace (Z.to_nat k) with (S (Z.to_nat (k - 1))) by lia. done. }
  rewrite Hp in *. split; [done|]. split; [|done].
  destruct H2 as (ds & v & rest & ? & ? & ? & ? & Hm). exists ds, v, rest. split_and!; try done.
  intros ?. apply Hm. unfold zlen in *. lia.
Qed.

Lemma pos_next k : 0 <= k < zlen (entries t) ->
  field_pos t k + 2 < field_pos t (k + 1) <= zlen (frame_base t) + 1 /\
  field_pos t (k + 1) = e_offset (entry_at t k) + e_length (entry_at t k) + 1 /\
  (k + 1 < zlen (entries t) -> field_pos t (k + 1) <= zlen (frame_base t)).
Proof using Hl.
  intros Hk. destruct (pos_placed k Hk) as (Hp & (ds & v & rest & Hd & Hne & Hb & He & Hm) & _).
  assert (Hf : field_pos t (k + 1) = e_offset (entry_at t k) + e_length (entry_at t k) + 1).
  { unfold field_pos at 1. replace (k + 1 =? 0) with false by lia. by replace (k + 1 - 1) with k by lia. }
  rewrite Hf, He. cbn [e_offset e_length].
  apply (f_equal zlen) in Hb. rewrite zlen_drop, zlen_app, zlen_cons, zlen_app in Hb by lia.
  assert (0 < zlen ds) by (destruct ds; [done|rewrite zlen_cons; pose_zlen; lia]). pose_zlen.
  split_and!; try lia. intros Hlt. destruct (Hm Hlt) as [q ->]. rewrite zlen_cons in Hb. pose_zlen. lia.
Qed.

Lemma pos_mono a b : 0 <= a <= b -> b <= zlen (entries t) -> field_pos t a + 3 * (b - a) <= field_pos t b.
Proof using Hl.
  intros Ha Hb. replace b with (a + Z.of_nat (Z.to_nat (b - a))) in Hb |- * by lia.
  induction (Z.to_nat (b - a)) as [|m IH].
  - rewrite Z.add_0_r. lia.
  - pose proof (pos_next (a + Z.of_nat m) ltac:(lia)) as (H & _ & _).
    replace (a + Z.of_nat (S m)) with (a + Z.of_nat m + 1) in * by lia. lia.
Qed.

Lemma slice_of_pos a b : 0 <= a < b -> b <= zlen (entries t) ->
  slice_of t a b = Slice (field_pos t a) (field_pos t b - 1 - field_pos t a).
Proof using Hl Hn.
  intros Ha Hb. unfold slice_of. unfold UINT32_MAX in Hn.
  destruct (pos_placed a ltac:(lia)) as (Hp & (ds & v & rest & Hd & Hne & Hbuf & He & _) & Hstop).
  pose proof (f_equal zlen Hbuf) as Hlen. rewrite zlen_drop, zlen_app, zlen_cons, zlen_app in Hlen by lia.
  pose proof (zlen_nonneg ds). pose proof (zlen_nonneg v). pose proof (zlen_nonneg rest).
  assert (Hs : field_start_from_val (frame_base t) (e_offset (entry_at t a)) = field_pos t a).
  { rewrite He. cbn [e_offset]. unfold field_start_from_val.
    replace (_ =? 0) with false by lia. apply field_start_walk; try lia.
    - unfold zlen in *. lia.
    - intros i Hi. replace i with (field_pos t a + (i - field_pos t a)) by lia.
      rewrite <- zget_drop, Hbuf by lia. rewrite zget_app_l by lia.
      rewrite Forall_forall in Hd. apply Hd. unfold zget. apply list_elem_of_In, nth_In. unfold zlen in *. lia.
    - destruct Hstop as [-> | ->]; [by left|by right]. }
  rewrite Hs. pose proof (pos_next (b - 1) ltac:(lia)) as (Hq1 & Hq2 & _).
  replace (b - 1 + 1) with b in * by lia.
  pose proof (pos_mono a b ltac:(lia) Hb). 
  replace (e_offset (entry_at t (b - 1)) + e_length (entry_at t (b - 1))) with (field_pos t b - 1) by lia.
  rewrite wrap_small by lia. by replace (field_pos t a <? field_pos t b - 1) with true by lia.
Qed.
End Split.

(** The fields of the extent cut at the delimiter: every chunk but the first opens with
    it, and no chunk holds it again. *)
Definition chunk_rest (delim : Z) (c : list (Z * bytes)) : Prop :=
  match c with [] => False | _ :: c => Forall (fun f => f.1 <> delim) c end.

Fixpoint chunks (delim : Z) (cs : list (list (Z * bytes))) : Prop :=
  match cs with
  | [] => True
  | c :: cs => chunk_rest delim c /\ (match cs with [] => True | c' :: _ => head_tag c' = Some delim end) /\
      chunks delim cs
  end.

Lemma chunks_exist delim fs : fs <> [] -> exists cs, concat cs = fs /\ chunks delim cs /\ cs <> [].
Proof.
  induction fs as [|f fs IH]; [done|]. intros _. destruct fs as [|g fs].
  - exists [[f]]. by repeat constructor.
  - destruct IH as (cs & Hc & Hok & Hne); [done|]. destruct cs as [|c cs]; [done|].
    destruct Hok as (Hrest & Hnext & Hcs). destruct c as [|g' c]; [done|]. injection Hc as -> Hc.
    destruct (decide (g.1 = delim)) as [Hg|Hg].
    + exists ([f] :: (g :: c) :: cs). cbn [concat app]. split; [by rewrite <- Hc|]. split; [|done].
      split; [by cbn|]. split; [by cbn; rewrite Hg|]. by repeat split.
    + exists ((f :: g :: c) :: cs). cbn [concat app]. split; [by rewrite <- Hc|]. split; [|done].
      split; [|by split]. cbn in *. by constructor.
Qed.

(** The slices of the chunks from entry [p] on. *)
Fixpoint slices_of (t : OffsetTable) (p : Z) (cs : list (list (Z * bytes))) : list group_slice :=
  match cs with
  | [] => []
  | c :: cs => slice_of t p (p + zlen c) :: slices_of t (p + zlen c) cs
  end.

Lemma span_cons a b : a <= b -> span a b = a :: span (a + 1) b.
Proof.
  intros. unfold span. replace (Z.to_nat (b - a + 1)) with (S (Z.to_nat (b - (a + 1) + 1))) by lia.
  cbn [seq map]. f_equal; [lia|]. rewrite <- seq_shift, map_map. apply map_ext. intros. lia.
Qed.

Lemma span_nil a b : b < a -> span a b = [].
Proof. intros. unfold span. by replace (Z.to_nat (b - a + 1)) with O by lia. Qed.

Section Fill.
Context (t : OffsetTable) (first group_end delim : Z).
Abbreviation step := (fill_step t first group_end delim).

Lemma boundary_at pre post k : reads t = pre ++ post -> k = zlen pre -> first < k ->
  is_boundary t first group_end delim k =
    (k =? group_end) || match head_tag post with Some u => u =? delim | None => tag_at t k =? delim end.
Proof using.
  intros Hr -> Hk. unfold is_boundary. replace (first <? zlen pre) with true by lia. cbn [andb].
  destruct (head_tag post) as [u|] eqn:E; [|done]. by destruct (reads_head t pre post u Hr E) as [_ ->].
Qed.

(** Inside a chunk no boundary falls. *)
Lemma fill_inside pre c post st : reads t = pre ++ c ++ post -> first < zlen pre ->
  Forall (fun f => f.1 <> delim) c -> zlen pre + zlen c <= group_end ->
  fold_left step (span (zlen pre) group_end) st =
  fold_left step (span (zlen pre + zlen c) group_end) st.
Proof using.
  revert pre. induction c as [|f c IH]; intros pre Hr Hf Hd He.
  - change (zlen (@nil (Z * bytes))) with 0. by rewrite Z.add_0_r.
  - apply Forall_cons in Hd as [Hfd Hd]. rewrite zlen_cons in *. pose proof (zlen_nonneg c).
    rewrite span_cons by lia. cbn [fold_left]. unfold fill_step at 2.
    rewrite (boundary_at pre (f :: c ++ post) (zlen pre) Hr eq_refl Hf). cbn [head_tag].
    replace (zlen pre =? group_end) with false by lia. replace (f.1 =? delim) with false by lia. cbn [orb].
    assert (Hp : zlen (pre ++ [f]) = zlen pre + 1) by (rewrite zlen_app; done).
    specialize (IH (pre ++ [f])). rewrite Hp in IH. rewrite IH; [f_equal; f_equal; lia| |lia|done|lia].
    rewrite <- app_assoc. exact Hr.
Qed.

Lemma fill_chunks cs : forall pre post acc, reads t = pre ++ concat cs ++ post -> first <= zlen pre ->
  chunks delim cs -> group_end = zlen pre + zlen (concat cs) ->
  fold_left step (span (zlen pre + 1) group_end) (acc, zlen pre) = (acc ++ slices_of t (zlen pre) cs, group_end).
Proof using.
  induction cs as [|c cs IH]; intros pre post acc Hr Hf Hc He.
  - cbn [concat] in He. change (zlen (@nil (Z * bytes))) with 0 in He.
    rewrite span_nil by lia. cbn. rewrite app_nil_r. f_equal. lia.
  - destruct Hc as (Hrest & Hnext & Hcs). destruct c as [|f c]; [done|]. cbn [chunk_rest] in Hrest.
    cbn [concat] in Hr, He. rewrite zlen_app, zlen_cons in He. rewrite <- app_assoc in Hr. cbn [app] in Hr.
    pose proof (zlen_nonneg c). pose proof (zlen_nonneg (concat cs)).
    assert (Hp : zlen (pre ++ [f]) = zlen pre + 1) by (rewrite zlen_app; done).
    pose proof (fill_inside (pre ++ [f]) c (concat cs ++ post)) as Hin. rewrite Hp in Hin.
    rewrite Hin by (done || lia || by rewrite <- app_assoc).
    rewrite span_cons by lia. cbn [fold_left slices_of]. rewrite zlen_cons.
    set (pre' := (pre ++ [f]) ++ c).
    assert (Hp' : zlen pre' = zlen pre + (1 + zlen c)) by (unfold pre'; rewrite zlen_app; lia).
    assert (Hr' : reads t = pre' ++ concat cs ++ post) by (unfold pre'; by rewrite <- !app_assoc).
    replace (zlen pre + 1 + zlen c) with (zlen pre') by lia. rewrite <- Hp'.
    unfold fill_step at 2. rewrite (boundary_at pre' _ (zlen pre') Hr' eq_refl) by lia.
    replace (_ || _) with true.
    + rewrite IH with (post := post); try done; try lia.
      * by rewrite <- app_assoc.
    + destruct cs as [|c' cs]; cbn [concat] in *.
      * change (zlen (@nil (Z * bytes))) with 0 in He. by replace (zlen pre' =? group_end) with true by lia.
      * destruct c' as [|f' c']; [done|]. cbn in Hnext |- *. injection Hnext as ->.
        by rewrite Z.eqb_refl, orb_true_r.
Qed.

Lemma count_is_fill ks : forall n st, zlen st.1 = n ->
  fold_left (fun n k => if is_boundary t first group_end delim k then n + 1 else n) ks n =
  zlen (fold_left step ks st).1.
Proof using.
  induction ks as [|k ks IH]; intros n [acc p] Hn; cbn [fold_left]; [done|].
  unfold fill_step at 2. destruct (is_boundary _ _ _ _ k); [|by apply IH].
  apply IH. cbn [fst snd] in *. rewrite zlen_app. change (zlen [slice_of t p k]) with 1. lia.
Qed.
End Fill.

(** The exact-sized array: pass 2 writes as many slices as pass 1 counts. *)
Lemma count_exact t first group_end delim :
  count_boundaries t first group_end delim = zlen (fill_slices t first group_end delim).
Proof. by apply count_is_fill. Qed.

(** The slices of an extent are its chunks. *)
Lemma fill_spec t pre cs post delim : reads t = pre ++ concat cs ++ post -> cs <> [] -> chunks delim cs ->
  fill_slices t (zlen pre) (zlen pre + zlen (concat cs)) delim = slices_of t (zlen pre) cs.
Proof.
  intros Hr Hne Hc. unfold fill_slices.
  assert (Hpos : 0 < zlen (concat cs)).
  { destruct cs as [|[|f c] cs]; [done|by destruct Hc|]. cbn [concat app]. rewrite zlen_cons. pose_zlen. lia. }
  rewrite span_cons by lia. cbn [fold_left]. unfold fill_step at 2, is_boundary at 1.
  replace (zlen pre =? _) with false by lia. rewrite Z.ltb_irrefl. cbn [andb orb].
  by rewrite (fill_chunks t _ _ delim cs pre post []) by (done || lia).
Qed.

(** Slices end to end from offset [p]: inside the frame, never empty, an SOH between
    neighbours. *)
Fixpoint adjacent (base : bytes) (p : Z) (slices : list group_slice) : Prop :=
  match slices with
  | [] => True
  | s :: rest =>
      gs_data s = p /\ 0 < gs_len s /\ p + gs_len s <= zlen base /\
      (rest <> [] -> zget base (p + gs_len s) = SOH) /\ adjacent base (p + gs_len s + 1) rest
  end.

Lemma slices_adjacent t fs cs : located (frame_base t) 0 (entries t) fs -> zlen (frame_base t) <= UINT32_MAX ->
  forall p, 0 <= p -> p + zlen (concat cs) <= zlen (entries t) -> Forall (fun c => c <> []) cs ->
  adjacent (frame_base t) (field_pos t p) (slices_of t p cs).
Proof.
  intros Hl Hn. induction cs as [|c cs IH]; intros p Hp Hb Hc; [done|].
  apply Forall_cons in Hc as [Hne Hc]. cbn [concat] in Hb. rewrite zlen_app in Hb.
  pose proof (zlen_nonneg (concat cs)).
  assert (0 < zlen c) by (destruct c; [done|rewrite zlen_cons; pose_zlen; lia]).
  cbn [slices_of adjacent]. rewrite (slice_of_pos t fs Hl Hn) by lia. cbn [gs_data gs_len].
  pose proof (pos_mono t fs Hl p (p + zlen c) ltac:(lia) ltac:(lia)).
  pose proof (pos_placed t fs Hl p ltac:(lia)) as (Hp0 & _ & _).
  pose proof (pos_next t fs Hl (p + zlen c - 1) ltac:(lia)) as ([_ Hle] & _ & _).
  replace (p + zlen c - 1 + 1) with (p + zlen c) in Hle by lia.
  split_and!; try lia.
  - destruct cs as [|c' cs]; [done|]. intros _. apply Forall_cons in Hc as [Hne' _].
    cbn [concat] in Hb. rewrite zlen_app in Hb. pose proof (zlen_nonneg (concat cs)).
    assert (0 < zlen c') by (destruct c'; [done|rewrite zlen_cons; pose_zlen; lia]).
    destruct (pos_placed t fs Hl (p + zlen c) ltac:(lia)) as (_ & _ & [Hz0|Hsoh]); [lia|].
    by replace (field_pos t p + (field_pos t (p + zlen c) - 1 - field_pos t p))
      with (field_pos t (p + zlen c) - 1) by lia.
  - replace (field_pos t p + (field_pos t (p + zlen c) - 1 - field_pos t p) + 1)
      with (field_pos t (p + zlen c)) by lia. apply IH; (done || lia).
Qed.

Lemma chunks_nonempty delim cs : chunks delim cs -> Forall (fun c => c <> []) cs.
Proof.
  induction cs as [|c cs IH]; intros H; [done|]. destruct H as (Hr & _ & Hcs).
  constructor; [by destruct c|by apply IH].
Qed.

Lemma reads_split t first group_end : 0 <= first <= group_end -> group_end <= zlen (entries t) ->
  exists pre seg post, reads t = pre ++ seg ++ post /\ zlen pre = first /\ first + zlen seg = group_end.
Proof.
  intros Hf He. rewrite <- reads_length in He.
  exists (ztake first (reads t)), (zsub (reads t) first (group_end - first)), (zdrop group_end (reads t)).
  unfold zsub. split_and!.
  - rewrite <- (ztake_drop first (reads t)) at 1. f_equal.
    rewrite <- (ztake_drop (group_end - first) (zdrop first (reads t))) at 1. f_equal.
    rewrite zdrop_drop by lia. f_equal. lia.
  - by rewrite zlen_take by lia.
  - rewrite zlen_take by (rewrite zlen_drop; lia). lia.
Qed.

(** *** More fuel changes nothing *)

Lemma consume_fuel t fuel : forall fuel' k ctx depth, 0 <= k < zlen (entries t) -> 0 <= depth ->
  kMaxGroupDepth - depth < Z.of_nat fuel -> kMaxGroupDepth - depth < Z.of_nat fuel' ->
  (0 < fuel)%nat -> (0 < fuel')%nat ->
  consume_group_extent fuel t k ctx depth = consume_group_extent fuel' t k ctx depth.
Proof.
  unfold kMaxGroupDepth. induction fuel as [|fuel IH]; intros fuel' k ctx depth Hk Hd Hf Hf' H0 H0'; [lia|].
  destruct fuel' as [|fuel']; [lia|]. cbn [consume_group_extent]. unfold kMaxGroupDepth.
  destruct (16 <=? depth) eqn:E; [done|]. destruct (_ <=? k + 1) eqn:Ek; [done|].
  destruct (group_member_fn _) as [member|]; [|done].
  destruct (negb _); [done|]. destruct (_ =? 0); [done|]. apply instance_loop_ext; [| |lia].
  - intros x Hx. cbn beta. destruct (_ && _); [|done]. rewrite wrap_small by lia. apply IH; lia.
  - intros x Hx. destruct (x + 1 <? zlen (entries t)) eqn:Ex; cbn [andb].
    + destruct (member _ _ _); [|exists (x + 1), false; split; [done|lia]]. rewrite wrap_small by lia.
      apply consume_walks; unfold kMaxGroupDepth; lia.
    + exists (x + 1), false. split; [done|lia].
Qed.

(** *** The slices of a conforming group *)

Definition inst_chunk (delim : Z) (inst : list node) : Prop := chunk_rest delim (flatten_inst inst).

Lemma insts_chunks member cap ctx g delim insts next :
  insts_ok member cap ctx g delim insts next = true -> Forall (inst_chunk delim) insts ->
  chunks delim (map flatten_inst insts).
Proof.
  induction insts as [|i insts IH]; intros H Hc; [done|]. apply Forall_cons in Hc as [Hi Hc].
  cbn [insts_ok] in H. apply andb_true_iff in H as [_ Hrest]. cbn [map chunks].
  split; [done|]. split; [|by apply IH]. destruct insts as [|i' insts]; [done|]. cbn [map].
  pose proof (insts_head member cap ctx g delim (i' :: insts) next [] Hrest ltac:(done)) as Hh.
  cbn [map concat] in Hh. rewrite app_nil_r in Hh.
  apply Forall_cons in Hc as [Hi' _]. unfold inst_chunk in Hi'.
  destruct (flatten_inst i') as [|f c]; [done|]. exact Hh.
Qed.

Lemma first_index_reads t pre g v post i : reads t = pre ++ (g, v) :: post -> g ∉ map fst pre ->
  first_index (entries t) g i = i + zlen pre.
Proof.
  unfold reads. intros Hr. revert pre i Hr. induction (entries t) as [|e es IH]; intros pre i Hr Hg; [by destruct pre|].
  destruct pre as [|p pre]; cbn [map app first_index] in *.
  - injection Hr as -> _ _. rewrite Z.eqb_refl. change (zlen (@nil (Z * bytes))) with 0. lia.
  - injection Hr as <- Hr. cbn [fst] in Hg. apply not_elem_of_cons in Hg as [Hne Hg].
    replace (e_tag e =? g) with false by lia. rewrite (IH pre) by done. rewrite zlen_cons. lia.
Qed.

Lemma group_exact t member ctx g v insts pre post :
  group_member_fn (hooks t) = Some member -> built t ->
  reads t = pre ++ flatten (Group g v insts) ++ post -> g ∉ map fst pre -> insts <> [] ->
  node_ok member (max_group_entries_per_instance (cfg t)) ctx (Group g v insts) (head_tag post) = true ->
  gc_depth ctx + Z.of_nat (height (Group g v insts)) <= kMaxGroupDepth ->
  group t ctx g = Ok (GroupIdx g (zlen pre + 1) (zlen (flatten_insts insts))).
Proof.
  intros Hm (Hs & Hlen & _) Hr Hg Hne Hok Hd. unfold group. rewrite Hs, Hm. cbn [rbind].
  pose proof Hok as Hok'. apply node_ok_group in Hok' as [_ Hok']. destruct (Hok' Hne) as (Hmem & _ & Hi). clear Hok'.
  pose proof (first_index_reads t pre g v (flatten_insts insts ++ post) 0 Hr Hg) as Hidx.
  rewrite Z.add_0_l in Hidx.
  rewrite Hidx. pose proof (f_equal zlen Hr) as Hz. rewrite reads_length, zlen_app in Hz.
  pose proof (insts_head member _ _ _ _ _ _ post Hi Hne) as Hh.
  assert (Hr' : reads t = (pre ++ [(g, v)]) ++ flatten_insts insts ++ post)
    by (rewrite Hr; cbn [flatten app]; by rewrite <- app_assoc).
  destruct (reads_head t _ _ _ Hr' Hh) as [Hlt Htag].
  assert (Hp : zlen (pre ++ [(g, v)]) = zlen pre + 1) by (rewrite zlen_app; done).
  rewrite Hp in Hlt, Htag. pose proof (zlen_nonneg pre).
  replace (zlen pre =? zlen (entries t)) with false by lia. cbn [negb].
  replace (zlen (entries t) <=? zlen pre + 1) with false by lia. rewrite Htag, Hmem.
  unfold group_extent. rewrite (consume_group t member Hm Hlen _ ctx g v insts pre post (gc_depth ctx)); try done.
  - cbn [default negb flatten]. rewrite zlen_cons. do 2 f_equal. lia.
  - unfold gc_depth. pose_zlen. lia.
  - unfold gc_depth, kMaxGroupDepth. pose_zlen. lia.
Qed.

Lemma located_reads t fs : located (frame_base t) 0 (entries t) fs -> reads t = fs.
Proof.
  unfold reads. assert (Hi : 0 <= 0) by lia. revert Hi. generalize 0 at 2 3 as i. revert fs.
  induction (entries t) as [|e es IH]; intros [|[tag v] fs] i Hi Hl; try done. cbn [located] in Hl.
  destruct Hl as (ds & rest & _ & _ & _ & _ & Hb & -> & Hr). cbn [map e_tag e_offset e_length].
  pose proof (zlen_nonneg ds). pose proof (zlen_nonneg v). f_equal.
  - f_equal. by eapply value_at_entry.
  - destruct rest as [|c rest]; [by destruct Hr as [-> ->]|]. destruct Hr as [_ Hl].
    apply (IH fs (i + zlen ds + 1 + zlen v + 1)); [lia|done].
Qed.

Lemma digits_unique a b x y : digits a -> digits b -> a ++ EQ :: x = b ++ EQ :: y -> a = b.
Proof.
  intros Ha. revert b. induction Ha as [|c a Hc _ IH]; intros b Hb E; destruct Hb as [|d b Hd Hb]; try done.
  - injection E as <- _. done.
  - injection E as -> _. done.
  - injection E as -> E. by rewrite (IH b).
Qed.

Section Canonical.
Context (t : OffsetTable) (fs : list (Z * bytes)).
Context (Hl : located (frame_base t) 0 (entries t) fs) (Hn : zlen (frame_base t) <= UINT32_MAX).
Context (Hf : frame_base t = fields_bytes fs) (Ht : Forall (fun f => 0 <= f.1 <= 0xFFFF) fs).

(** In a frame of written fields, each field starts where the ones before it end. *)
Lemma canonical_pos a b : fs = a ++ b -> field_pos t (zlen a) = zlen (fields_bytes a).
Proof using Hl Hf Ht.
  revert b. induction a as [|[tag v] a IH] using rev_ind; intros b E; [done|].
  rewrite <- app_assoc in E. cbn [app] in E. specialize (IH _ E).
  pose proof (located_length _ _ _ _ Hl) as Hlen.
  assert (Hk : 0 <= zlen a < zlen (entries t)).
  { rewrite Hlen, E, zlen_app, zlen_cons. pose_zlen. lia. }
  assert (Htag : 0 <= tag <= 0xFFFF).
  { rewrite E in Ht. apply Forall_app in Ht as [_ H]. by apply Forall_cons in H as [? _]. }
  destruct (pos_placed t fs Hl (zlen a) Hk) as (Hp & (ds & w & rest & Hd & _ & Hb & He & _) & _).
  destruct (pos_next t fs Hl (zlen a) Hk) as (_ & Hnext & _).
  rewrite zlen_app. change (zlen [(tag, v)]) with 1. rewrite Hnext, He. cbn [e_offset e_length].
  assert (Hv : v = w).
  { pose proof (value_at_entry (frame_base t) (field_pos t (zlen a)) ds w rest ltac:(lia) Hb) as Hw.
    pose proof (located_reads t fs Hl) as Hr. rewrite E in Hr.
    destruct (reads_value t a tag v b Hr) as [_ Hv]. rewrite He in Hv. cbn [e_offset e_length] in Hv. congruence. }
  subst w. rewrite IH, Hf, E, fields_bytes_app, fields_bytes_cons, zdrop_app in Hb.
  rewrite fields_bytes_app, fields_bytes_cons, !zlen_app, IH.
  unfold field_text in Hb. rewrite <- app_assoc in Hb.
  assert (Hds : dec_text tag = ds) by (eapply digits_unique; [apply dec_text_digits|exact Hd|exact Hb]).
  rewrite zlen_field_text, Hds. change (zlen (fields_bytes [])) with 0. lia.
Qed.

(** The text of the slices: each chunk's fields, the last SOH being the byte past the
    slice. *)
Lemma slices_text cs : forall a post, fs = a ++ concat cs ++ post -> Forall (fun c => c <> []) cs ->
  map (fun s => zsub (frame_base t) (gs_data s) (gs_len s + 1)) (slices_of t (zlen a) cs) = map fields_bytes cs.
Proof using Hl Hn Hf Ht.
  induction cs as [|c cs IH]; intros a post E Hc; [done|].
  apply Forall_cons in Hc as [Hne Hc]. cbn [concat] in E. rewrite <- app_assoc in E.
  cbn [slices_of map]. rewrite <- (zlen_app a c).
  pose proof (located_length _ _ _ _ Hl) as Hlen. rewrite E, !zlen_app in Hlen.
  assert (0 < zlen c) by (destruct c; [done|rewrite zlen_cons; pose_zlen; lia]).
  pose_zlen. f_equal.
  - rewrite (slice_of_pos t fs Hl Hn) by (rewrite ?zlen_app; lia). cbn [gs_data gs_len].
    rewrite (canonical_pos a (c ++ concat cs ++ post)) by done.
    rewrite (canonical_pos (a ++ c) (concat cs ++ post)) by (by rewrite <- app_assoc).
    rewrite fields_bytes_app, zlen_app.
    replace (zlen (fields_bytes a) + zlen (fields_bytes c) - 1 - zlen (fields_bytes a) + 1)
      with (zlen (fields_bytes c)) by lia.
    rewrite Hf, E, !fields_bytes_app. apply zsub_at.
  - apply (IH (a ++ c) post); [by rewrite <- app_assoc|done].
Qed.
End Canonical.

(** *** The nested cache *)

Definition all_allocs : allocs := Allocs (fun _ => true) true.

Lemma build_loop_mr fuel mr c h buf i pending es :
  build_loop fuel mr c h buf i pending es = Err out_of_memory \/
  build_loop fuel mr c h buf i pending es = build_loop fuel new_delete_resource c h buf i pending es.
Proof.
  revert i pending es. induction fuel as [|fuel IH]; intros i pending es; cbn [build_loop]; [by right|].
  destruct (_ <=? i); [by right|]. destruct (tag_loop _ _ _) as [tag j p| |]; [|by right..].
  destruct (negb (_ || _)); [|by right]. destruct (build_value _ _ _ _ _ _) as [[[len next] pending']|e]; [|by right].
  destruct (_ <=? zlen es); [by right|]. cbn [mr_entries new_delete_resource negb].
  destruct (negb (mr_entries mr _)); [by left|]. apply IH.
Qed.

Lemma build_loop_no_oom fuel c h buf i pending es :
  build_loop fuel new_delete_resource c h buf i pending es <> Err out_of_memory.
Proof.
  revert i pending es. induction fuel as [|fuel IH]; intros i pending es; cbn [build_loop]; [done|].
  destruct (_ <=? i); [done|]. destruct (tag_loop _ _ _) as [tag j p| |]; [|done..].
  destruct (negb (_ || _)); [|done].
  destruct (build_value _ _ _ _ _ _) as [[[len next] pending']|e] eqn:E.
  - destruct (_ <=? zlen es); [done|]. apply IH.
  - unfold build_value in E. destruct (_ && _); [|done].
    destruct (negb (_ <? _)); [|by injection E as <-]. destruct (negb (_ || _)); [done|by injection E as <-].
Qed.

(** A parse that ran out of memory says so; any other parse is the one memory allows. *)
Lemma build_mr mr c h sd frame reserve :
  is_oom (status (build mr c h sd frame reserve)) = true \/
  build mr c h sd frame reserve = build new_delete_resource c h sd frame 0.
Proof.
  unfold build. destruct (negb (reserve =? 0) && _); [by left|]. cbn [mr_entries mr_overlay new_delete_resource negb].
  replace (negb (0 =? 0) && false) with false by done.
  destruct (build_loop_mr (length frame) mr c h frame 0 (0, 0) []) as [-> | ->]; [by left|].
  destruct (build_loop _ _ _ _ _ _ _ _) as [es|e]; [|by right]. destruct (negb (mr_overlay _ _)); auto.
Qed.

Lemma build_no_oom c h sd frame : is_oom (status (build new_delete_resource c h sd frame 0)) = false.
Proof.
  unfold build. cbn [mr_entries mr_overlay new_delete_resource negb]. replace (negb (0 =? 0) && false) with false by done.
  pose proof (build_loop_no_oom (length frame) c h frame 0 (0, 0) []) as H.
  destruct (build_loop _ _ _ _ _ _ _ _) as [es|e]; [done|]. cbn. destruct e; done.
Qed.

Lemma split_group_alloc al t ctx no_tag :
  split_group al t ctx no_tag = None \/ split_group al t ctx no_tag = split_group all_allocs t ctx no_tag.
Proof.
  unfold split_group. destruct (group t ctx no_tag) as [gi|e]; [|by right].
  destruct (_ && _); [|by right]. cbn [al_slices all_allocs negb]. rewrite andb_false_r.
  destruct (_ && _); auto.
Qed.

Lemma split_group_all t ctx no_tag : exists slices, split_group all_allocs t ctx no_tag = Some slices.
Proof.
  unfold split_group. destruct (group t ctx no_tag) as [gi|e]; [|by eexists].
  destruct (_ && _); [|by eexists]. cbn [al_slices all_allocs negb]. rewrite andb_false_r. by eexists.
Qed.

Section Nested.
Context (seed : Z) (frame : bytes).
(** The bundle behind a key, and what every caller passes for a slice: its length and
    its context, constant within one parse. *)
Context (hooks_of : Z -> dict_hooks) (ctx_of : Z -> group_context) (len_of : Z -> Z).

Definition fresh_table (data key : Z) : OffsetTable :=
  build new_delete_resource table_config_default (hooks_of key) seed (zsub frame data (len_of data + 1)) 0.

(** The slices of a nested group, computed without any cache. *)
Definition fresh (data key no_tag : Z) : list group_slice :=
  default [] (split_group all_allocs (fresh_table data key) (ctx_of data) no_tag).

Definition sub_ok (owner : Z * Z) (sub : sub_table) : Prop :=
  is_oom (status (st_table sub)) = true \/
  (st_table sub = fresh_table owner.1 owner.2 /\ st_ctx sub = ctx_of owner.1 /\
   Forall (fun gs => sp_slices gs = fresh owner.1 owner.2 (sp_no_tag gs)) (st_cache sub)).

Definition row_ok (owners : list (Z * Z)) (row : nested_cache_row) : Prop :=
  match nr_table row with
  | None => True
  | Some p => owners !! p = Some (nr_slice_data row, nr_hooks_key row)
  end.

Definition nested_inv (s : nested_state) : Prop :=
  exists owners, Forall2 sub_ok owners (ns_subs s) /\ Forall (row_ok owners) (ns_rows s).

(** Nothing failed so far. *)
Definition healthy (s : nested_state) : Prop :=
  Forall (fun row => nr_table row <> None) (ns_rows s) /\
  Forall (fun sub => is_oom (status (st_table sub)) = false) (ns_subs s).

Definition none_fails (na : nested_allocs) : Prop :=
  na_shell na = true /\ na_build na = new_delete_resource /\ na_split na = all_allocs /\ na_row na = true.

Lemma scan_rows_spec rows data key no_tag found table :
  let ours := fun row => nr_slice_data row = data /\ nr_hooks_key row = key in
  match scan_rows rows data key no_tag found table with
  | exact_hit t => exists row, row ∈ rows /\ ours row /\ nr_table row = t
  | slice_hit t => t = table \/ exists row, row ∈ rows /\ ours row /\ nr_table row = t
  end.
Proof using.
  cbv zeta. revert found table. induction rows as [|row rows IH]; intros found table; cbn [scan_rows]; [by left|].
  destruct (negb _ || negb _) eqn:E.
  - specialize (IH found table). destruct (scan_rows rows _ _ _ _ _) as [t|t].
    + destruct IH as (r & ? & ?). exists r. split; [by right|done].
    + destruct IH as [|(r & ? & ?)]; [by left|]. right. exists r. split; [by right|done].
  - assert (Ho : nr_slice_data row = data /\ nr_hooks_key row = key) by lia.
    destruct (_ =? no_tag); [by exists row; split; [left|]|].
    destruct found; cbn [negb].
    + specialize (IH true table). destruct (scan_rows rows _ _ _ _ _) as [t|t].
      * destruct IH as (r & ? & ?). exists r. split; [by right|done].
      * destruct IH as [|(r & ? & ?)]; [by left|]. right. exists r. split; [by right|done].
    + specialize (IH true (nr_table row)). destruct (scan_rows rows _ _ _ _ _) as [t|t].
      * destruct IH as (r & ? & ?). exists r. split; [by right|done].
      * right. destruct IH as [->|(r & ? & ?)]; [exists row; split; [by left|done]|].
        exists r. split; [by right|done].
Qed.

(** The sub-table's own cache serves what the split would compute. *)
Lemma status_fresh al owner sub no_tag : sub_ok owner sub ->
  let '(r, cache) := group_slices_status al (st_table sub) (st_ctx sub) (st_cache sub) no_tag in
  sub_ok owner (SubTable (st_table sub) (st_ctx sub) cache) /\
  (is_oom (status (st_table sub)) = false -> gr_alloc_failed r = false ->
     gr_slices r = fresh owner.1 owner.2 no_tag) /\
  (al = all_allocs -> gr_alloc_failed r = false).
Proof using.
  intros Hs. unfold group_slices_status, cached_span.
  destruct (List.find _ (st_cache sub)) as [gs|] eqn:Ef.
  - split; [exact Hs|]. split; [|done]. intros Ho _. destruct Hs as [Hs|(_ & _ & Hc)]; [congruence|].
    apply find_some in Ef as [Hin He]. rewrite Forall_forall in Hc. cbn [gr_slices].
    rewrite Hc by (by apply list_elem_of_In). f_equal. lia.
  - assert (Hfresh : is_oom (status (st_table sub)) = false ->
      forall slices, split_group al (st_table sub) (st_ctx sub) no_tag = Some slices ->
      slices = fresh owner.1 owner.2 no_tag).
    { intros Ho slices E. destruct Hs as [Hs|(Ht & Hx & _)]; [congruence|].
      rewrite Ht, Hx in E. unfold fresh. destruct (split_group_alloc al (fresh_table owner.1 owner.2) (ctx_of owner.1) no_tag) as [H|H];
        rewrite H in E; [done|]. by rewrite E. }
    destruct (split_group al _ _ no_tag) as [slices|] eqn:E.
    + destruct (al_row al) eqn:Er.
      * split; [|split; [|done]].
        -- destruct Hs as [Hs|(Ht & Hx & Hc)]; [by left|].
           destruct (is_oom (status (st_table sub))) eqn:Ho; [by left|]. right. split_and!; [done..|].
           apply Forall_app. split; [done|]. constructor; [by apply Hfresh|constructor].
        -- intros Ho _. by apply Hfresh.
      * split; [exact Hs|]. split; [done|]. intros ->. done.
    + split; [exact Hs|]. split; [done|]. intros ->.
      destruct (split_group_all (st_table sub) (st_ctx sub) no_tag) as [s Hs']. congruence.
Qed.

Lemma resolve_spec al subs owners p no_tag owner : Forall2 sub_ok owners subs -> owners !! p = Some owner ->
  let '(r, subs') := resolve_nested_result al subs (Some p) no_tag in
  Forall2 sub_ok owners subs' /\
  (gr_alloc_failed r = false -> gr_slices r = fresh owner.1 owner.2 no_tag) /\
  (Forall (fun sub => is_oom (status (st_table sub)) = false) subs -> al = all_allocs ->
     gr_alloc_failed r = false /\ Forall (fun sub => is_oom (status (st_table sub)) = false) subs').
Proof using.
  intros Hs Hp. destruct (Forall2_lookup_l _ _ _ _ _ Hs Hp) as (sub & Hsub & Hok).
  cbn [resolve_nested_result]. rewrite Hsub.
  pose proof (status_fresh al owner sub no_tag Hok) as Hst.
  destruct (group_slices_status _ _ _ _ _) as [r cache]. destruct Hst as (Hok' & Hfresh & Hall).
  cbn [gr_alloc_failed gr_slices]. split; [|split].
  - apply Forall2_same_length_lookup. split; [rewrite length_insert; by eapply Forall2_length|].
    intros i o s' Ho Hs'. rewrite list_lookup_insert in Hs'. case_decide as Hd.
    + destruct Hd as [-> _]. injection Hs' as <-. rewrite Hp in Ho. by injection Ho as <-.
    + destruct (Forall2_lookup_l _ _ _ _ _ Hs Ho) as (s2 & Hs2 & ?). congruence.
  - intros [? ?]%orb_false_iff. by apply Hfresh.
  - intros Hh ->. rewrite Hall by done. pose proof (Forall_lookup_1 _ _ _ _ Hh Hsub) as Ho. rewrite Ho.
    split; [done|]. by apply Forall_insert.
Qed.
Lemma rows_more owners more row : row_ok owners row -> row_ok (owners ++ more) row.
Proof using.
  unfold row_ok. destruct (nr_table row) as [p|]; [|done]. intros H. by apply lookup_app_l_Some.
Qed.

(** What one call owes: the invariant, the fresh answer unless it reports a failure, and
    no failure unless an allocation failed. *)
Definition call_ok (na : nested_allocs) (data key no_tag : Z) (s : nested_state)
    (out : group_slices_result * nested_state) : Prop :=
  nested_inv out.2 /\
  (gr_alloc_failed out.1 = false -> gr_slices out.1 = fresh data key no_tag) /\
  (healthy s -> none_fails na -> gr_alloc_failed out.1 = false /\ healthy out.2).

(** Serving from an arena whose sub-table [p] belongs to the slice, with the rows the
    call leaves. *)
Lemma serve_ok na data key no_tag s owners subs p rows :
  Forall2 sub_ok owners subs -> owners !! p = Some (data, key) -> Forall (row_ok owners) rows ->
  (healthy s -> none_fails na -> Forall (fun sub => is_oom (status (st_table sub)) = false) subs /\
     Forall (fun row => nr_table row <> None) rows) ->
  call_ok na data key no_tag s
    (let '(r, subs') := resolve_nested_result (na_split na) subs (Some p) no_tag in (r, NestedState subs' rows)).
Proof using.
  intros Hs Hp Hr Hh. pose proof (resolve_spec (na_split na) subs owners p no_tag (data, key) Hs Hp) as H.
  destruct (resolve_nested_result _ subs _ _) as [r subs']. destruct H as (H1 & H2 & H3).
  split; [by exists owners|]. split; [exact H2|]. intros Hhe Hna. destruct (Hh Hhe Hna) as [Hh1 Hh2].
  destruct H3 as [? ?]; [done|by destruct Hna as (_ & _ & ? & _)|]. done.
Qed.

(** Serving nullptr. *)
Lemma serve_null na data key no_tag s subs rows :
  nested_inv (NestedState subs rows) -> (healthy s -> none_fails na -> False) ->
  call_ok na data key no_tag s (SlicesResult [] true, NestedState subs rows).
Proof using. intros Hi Hh. split; [done|]. split; [done|]. intros H1 H2. destruct (Hh H1 H2). Qed.

Lemma nested_call na data key no_tag s : nested_inv s ->
  call_ok na data key no_tag s
    (nested_group_slices na seed frame (Some data) (len_of data) no_tag key (hooks_of key) (ctx_of data) s).
Proof using.
  intros (owners & Hs & Hr). unfold nested_group_slices.
  pose proof (scan_rows_spec (ns_rows s) data key no_tag false None) as Hscan. cbv zeta in Hscan.
  assert (Hrow : forall row, row ∈ ns_rows s -> nr_slice_data row = data /\ nr_hooks_key row = key ->
    match nr_table row with Some p => owners !! p = Some (data, key) | None => ~ healthy s end).
  { intros row Hin [<- <-]. rewrite Forall_forall in Hr. specialize (Hr row Hin). unfold row_ok in Hr.
    destruct (nr_table row) eqn:E; [done|]. intros [Hh _]. rewrite Forall_forall in Hh. by apply (Hh row Hin). }
  assert (Hnew : forall owners' p, owners' !! p = Some (data, key) -> Forall (row_ok owners') (ns_rows s) ->
    Forall (row_ok owners') (if na_row na then ns_rows s ++ [NestedRow data key no_tag (Some p)] else ns_rows s)).
  { intros. destruct (na_row na); [|done]. apply Forall_app. split; [done|]. by constructor. }
  destruct (scan_rows _ _ _ _ _ _) as [t|t].
  - destruct Hscan as (row & Hin & Ho & Ht). specialize (Hrow row Hin Ho). rewrite Ht in Hrow.
    destruct t as [p|].
    + apply (serve_ok na data key no_tag s owners); try done. by intros [? ?] _.
    + apply serve_null; [by exists owners|done].
  - assert (Ht : match t with Some p => owners !! p = Some (data, key) | None => True end).
    { destruct Hscan as [->|(row & Hin & Ho & Ht)]; [done|]. specialize (Hrow row Hin Ho). rewrite Ht in Hrow.
      by destruct t. }
    destruct t as [p|].
    + apply (serve_ok na data key no_tag s owners); [done|done|by apply Hnew|].
      intros [H1 H2] (_ & _ & _ & Hna). split; [done|]. rewrite Hna. apply Forall_app. by repeat constructor.
    + unfold build_nested_subview. destruct (na_shell na) eqn:Esh.
      * set (sub := SubTable _ _ _).
        assert (Hsub : sub_ok (data, key) sub).
        { destruct (build_mr (na_build na) table_config_default (hooks_of key) seed
            (zsub frame data (len_of data + 1)) 0) as [H|H]; [by left|right]. by repeat split. }
        assert (Hp : (owners ++ [(data, key)]) !! length (ns_subs s) = Some (data, key)).
        { rewrite <- (Forall2_length _ _ _ Hs). by apply list_lookup_middle. }
        apply (serve_ok na data key no_tag s (owners ++ [(data, key)])); [|done| |].
        -- apply Forall2_app; [done|]. constructor; [exact Hsub|constructor].
        -- apply Hnew; [done|]. eapply Forall_impl; [exact Hr|]. intros row Hrw. by apply rows_more.
        -- intros [H1 H2] (_ & Hb & _ & Hna). rewrite Hna. split; apply Forall_app; split; try done.
           ++ constructor; [|constructor]. unfold sub. cbn [st_table]. rewrite Hb. apply build_no_oom.
           ++ by repeat constructor.
      * apply serve_null; [|by intros _ (? & _); congruence]. exists owners. split; [done|].
        cbn [ns_rows]. destruct (na_row na); [|done]. apply Forall_app. split; [done|]. by repeat constructor.
Qed.
End Nested.

Lemma cached_span_snoc cache slices g : cached_span cache g = None ->
  cached_span (cache ++ [GroupSpan slices g]) g = Some (GroupSpan slices g).
Proof.
  unfold cached_span. induction cache as [|gs cache IH]; cbn [List.find app]; [by rewrite Z.eqb_refl|].
  destruct (sp_no_tag gs =? g); [done|exact IH].
Qed.

(** ** Properties *)

(** A group's extent is exactly the group.  When a message carries a conforming
    group — nested groups to any depth the decoder allows included — [group] answers the
    entries of its declared instances and nothing behind them, however often a nested
    group repeats its own delimiter. *)
Theorem group_extent_exact t member ctx g v insts pre post :
  group_member_fn (hooks t) = Some member -> built t ->
  reads t = pre ++ flatten (Group g v insts) ++ post -> g ∉ map fst pre -> insts <> [] ->
  node_ok member (max_group_entries_per_instance (cfg t)) ctx (Group g v insts) (head_tag post) = true ->
  gc_depth ctx + Z.of_nat (height (Group g v insts)) <= kMaxGroupDepth ->
  group t ctx g = Ok (GroupIdx g (zlen pre + 1) (zlen (flatten_insts insts))).
Proof. apply group_exact. Qed.

(** The slices are the instances.  In a frame of written fields, the slices of a
    conforming group are its instances in order: each slice and the SOH behind it is the
    text of that instance's fields, nested groups whole.  The result is cached and a
    second read serves the same slices. *)
Theorem group_slices_exact t member ctx g v insts pre post cache :
  group_member_fn (hooks t) = Some member -> built t ->
  let fs := pre ++ flatten (Group g v insts) ++ post in
  frame_base t = fields_bytes fs -> located (frame_base t) 0 (entries t) fs ->
  zlen (frame_base t) <= UINT32_MAX -> Forall (fun f => 0 <= f.1 <= 0xFFFF) fs ->
  g ∉ map fst pre -> insts <> [] ->
  node_ok member (max_group_entries_per_instance (cfg t)) ctx (Group g v insts) (head_tag post) = true ->
  gc_depth ctx + Z.of_nat (height (Group g v insts)) <= kMaxGroupDepth ->
  (match group_delim_fn (hooks t) with Some f => f ctx g = 0 \/ f ctx g = insts_delim insts | None => True end) ->
  Forall (inst_chunk (insts_delim insts)) insts -> cached_span cache g = None ->
  let '(r, cache') := group_slices_status all_allocs t ctx cache g in
  gr_alloc_failed r = false /\
  map (fun s => zsub (frame_base t) (gs_data s) (gs_len s + 1)) (gr_slices r) =
    map (fun inst => fields_bytes (flatten_inst inst)) insts /\
  (group_slices_status all_allocs t ctx cache' g).1 = r.
Proof.
  intros Hm Hb fs Hf Hl Hn Ht Hg Hne Hok Hd Hdelim Hchunk Hcache.
  pose proof (located_reads t fs Hl) as Hr.
  pose proof (group_exact t member ctx g v insts pre post Hm Hb Hr Hg Hne Hok Hd) as Hgr.
  pose proof (node_ok_group _ _ _ _ _ _ _ Hok) as [_ Hsub]. destruct (Hsub Hne) as (_ & _ & Hi).
  set (A := pre ++ [(g, v)]). set (cs := map flatten_inst insts).
  assert (HA : zlen A = zlen pre + 1) by (unfold A; rewrite zlen_app; done).
  assert (Hfs : fs = A ++ concat cs ++ post) by (unfold fs, A, cs; cbn [flatten app]; by rewrite <- app_assoc).
  pose proof (insts_chunks _ _ _ _ _ _ _ Hi Hchunk) as Hcs. fold cs in Hcs.
  assert (Hcs0 : cs <> []) by (unfold cs; by destruct insts).
  assert (Hhead : head_tag (concat cs ++ post) = Some (insts_delim insts)) by by eapply insts_head.
  rewrite Hfs in Hr. destruct (reads_head t A (concat cs ++ post) _ Hr Hhead) as [Hlt Htag].
  rewrite HA in Hlt, Htag.
  assert (Hpos : 0 < zlen (concat cs)).
  { pose proof (insts_le _ _ _ _ _ _ _ Hi) as H. change (flatten_insts insts) with (concat cs) in H.
    assert (0 < zlen insts) by (destruct insts; [done|rewrite zlen_cons; pose_zlen; lia]). lia. }
  assert (Hsd : split_delim t ctx g (zlen A) = insts_delim insts).
  { unfold split_delim. rewrite HA, Htag. destruct (group_delim_fn (hooks t)) as [f|]; [|done].
    destruct Hdelim as [-> | ->]; [done|]. by destruct (_ =? 0). }
  assert (Hsplit : split_group all_allocs t ctx g = Some (slices_of t (zlen A) cs)).
  { unfold split_group. rewrite Hgr. cbn [gi_first gi_count]. rewrite <- HA. fold cs.
    replace (zlen A <? zlen (entries t)) with true by lia. rewrite Hsd.
    replace (zlen A <? zlen A + zlen (concat cs)) with true by lia. cbn [al_slices all_allocs negb andb].
    rewrite andb_false_r. f_equal. by apply (fill_spec t A cs post). }
  unfold group_slices_status. rewrite Hcache, Hsplit. cbn [al_row all_allocs gr_alloc_failed gr_slices].
  split; [done|]. split.
  - rewrite (slices_text t _ Hl Hn Hf Ht cs A post) by (done || by eapply chunks_nonempty).
    unfold cs. by rewrite map_map.
  - by rewrite cached_span_snoc.
Qed.

(** A dictionary with the parties group 453 (448, 447, 802) and its nested 802 (523, 803). *)
Definition parties_member (_ : group_context) (no_tag t : Z) : bool :=
  if no_tag =? 453 then (t =? 448) || (t =? 447) || (t =? 802)
  else (no_tag =? 802) && ((t =? 523) || (t =? 803)).

Definition parties_hooks : dict_hooks :=
  DictHooks None (Some parties_member)
    (Some (fun _ no_tag => if no_tag =? 453 then 448 else if no_tag =? 802 then 523 else 0)) None.

#[export] Instance parties_hooks_ok : hooks_ok parties_hooks.
Proof. by constructor. Qed.

#[export] Instance parties_hooks_unchained : hooks_unchained parties_hooks.
Proof. constructor. exact (unchained (h := no_hooks)). Qed.

(** Two parties; the first holds two sub-IDs, whose delimiter repeats inside it. *)
Definition parties : list (list node) :=
  [[Leaf 448 [65]; Group 802 [50] [[Leaf 523 [88]; Leaf 803 [49]]; [Leaf 523 [89]]]];
   [Leaf 448 [66]; Leaf 447 [68]]].

Definition parties_fields : list (Z * bytes) := [(35, [68])] ++ flatten (Group 453 [50] parties) ++ [(55, [83])].
Definition parties_table : OffsetTable :=
  build new_delete_resource table_config_default parties_hooks 7 (fields_bytes parties_fields) 0.
Definition parties_context : group_context := GroupContext [68] [].

Lemma parties_located : located (frame_base parties_table) 0 (entries parties_table) parties_fields.
Proof.
  apply (build_located new_delete_resource table_config_default parties_hooks 7 (fields_bytes parties_fields) 0
    parties_fields _ _ _); by vm_compute.
Qed.

Lemma parties_built : built parties_table.
Proof. by vm_compute. Qed.

Lemma parties_hooked : group_member_fn (hooks parties_table) = Some parties_member.
Proof. by vm_compute. Qed.

Lemma parties_delim :
  match group_delim_fn (hooks parties_table) with
  | Some f => f parties_context 453 = 0 \/ f parties_context 453 = insts_delim parties | None => True end.
Proof. vm_compute. auto. Qed.

Lemma parties_frame : frame_base parties_table = fields_bytes parties_fields.
Proof. by vm_compute. Qed.

Lemma parties_height : gc_depth parties_context + Z.of_nat (height (Group 453 [50] parties)) <= kMaxGroupDepth.
Proof. by vm_compute. Qed.

Lemma parties_short : zlen (frame_base parties_table) <= UINT32_MAX.
Proof. by vm_compute. Qed.

Lemma parties_reads : reads parties_table = [(35, [68])] ++ flatten (Group 453 [50] parties) ++ [(55, [83])].
Proof. exact (located_reads _ _ parties_located). Qed.

Lemma parties_tags : Forall (fun f => 0 <= f.1 <= 0xFFFF) parties_fields.
Proof. repeat constructor; cbn; lia. Qed.

Lemma parties_chunks : Forall (inst_chunk (insts_delim parties)) parties.
Proof. repeat constructor; cbn; lia. Qed.

Lemma parties_ok : node_ok parties_member (max_group_entries_per_instance (cfg parties_table)) parties_context
  (Group 453 [50] parties) (head_tag [(55, [83])]) = true.
Proof. by vm_compute. Qed.

Lemma parties_fresh : 453 ∉ map fst [(35, [68])].
Proof. intros Hin%list_elem_of_In. cbn in Hin. lia. Qed.

Lemma group_extent_exact_witness :
  group parties_table parties_context 453 = Ok (GroupIdx 453 2 (zlen (flatten_insts parties))) /\
  zlen (flatten_insts parties) = 7.
Proof.
  split; [|by vm_compute].
  apply (group_extent_exact parties_table parties_member parties_context 453 [50] parties [(35, [68])] [(55, [83])]);
    [exact parties_hooked|exact parties_built|exact parties_reads|exact parties_fresh|discriminate|
     exact parties_ok|exact parties_height].
Defined.

Lemma group_slices_exact_witness :
  map (fun s => zsub (frame_base parties_table) (gs_data s) (gs_len s + 1))
    (gr_slices (group_slices_status all_allocs parties_table parties_context [] 453).1) =
  map (fun inst => fields_bytes (flatten_inst inst)) parties.
Proof.
  pose proof (group_slices_exact parties_table parties_member
    parties_context 453 [50] parties [(35, [68])] [(55, [83])] []) as H.
  cbv zeta in H. destruct (group_slices_status _ _ _ _ _) as [r cache']. cbn [fst].
  destruct H as (_ & H & _);
    [exact parties_hooked|exact parties_built|exact parties_frame|exact parties_located|exact parties_short
    |exact parties_tags|exact parties_fresh|discriminate|exact parties_ok|exact parties_height|exact parties_delim
    |exact parties_chunks|reflexivity|exact H].
Defined.

(** Slices never leave the frame.  Whatever the frame holds and whatever the
    dictionary answers, the slices of any tag in a built table lie inside the frame, are
    never empty, and follow each other with exactly one SOH between them; pass 2 writes
    exactly the array pass 1 sized. *)
Theorem group_slices_safe al t fs ctx no_tag slices :
  located (frame_base t) 0 (entries t) fs -> zlen (frame_base t) <= UINT32_MAX ->
  split_group al t ctx no_tag = Some slices ->
  slices = [] \/
  exists first, 0 < first < zlen (entries t) /\ adjacent (frame_base t) (field_pos t first) slices /\
    forall group_end delim, slices = fill_slices t first group_end delim ->
      count_boundaries t first group_end delim = zlen slices.
Proof.
  intros Hl Hn. unfold split_group. destruct (group t ctx no_tag) as [gi|] eqn:Eg; [|intros [= <-]; by left].
  destruct (group_range t ctx no_tag gi Eg) as (Hf & Hc & He & _).
  destruct ((gi_first gi <? _) && _) eqn:E; [|intros [= <-]; by left].
  destruct ((0 <? _) && _); [done|]. intros [= <-]. right. exists (gi_first gi). split; [lia|].
  split; [|intros ge d ->; apply count_exact].
  destruct (reads_split t (gi_first gi) (gi_first gi + gi_count gi)) as (pre & seg & post & Hr & Hp & Hs); [lia..|].
  destruct (chunks_exist (split_delim t ctx no_tag (gi_first gi)) seg) as (cs & Hcs & Hck & Hne).
  { intros ->. change (zlen (@nil (Z * bytes))) with 0 in Hs. lia. }
  rewrite <- Hcs in Hr, Hs. rewrite <- Hs, <- Hp in *.
  rewrite (fill_spec t pre cs post) by done.
  apply (slices_adjacent t fs); [done|done|lia|lia|by eapply chunks_nonempty].
Qed.

Lemma group_slices_safe_witness :
  let slices := default [] (split_group all_allocs parties_table parties_context 453) in
  slices = [] \/
  exists first, 0 < first < zlen (entries parties_table) /\
    adjacent (frame_base parties_table) (field_pos parties_table first) slices /\
    forall group_end delim, slices = fill_slices parties_table first group_end delim ->
      count_boundaries parties_table first group_end delim = zlen slices.
Proof.
  destruct (split_group_all parties_table parties_context 453) as [slices Hs]. rewrite Hs. cbn [default].
  exact (group_slices_safe all_allocs parties_table parties_fields parties_context 453 slices
    parties_located parties_short Hs).
Defined.

(** C34: the walk always ends.  On any entries, under any dictionary, with a count field
    that lies in any way, neither the loops nor the recursion of the extent walk ever runs out
    of fuel: every round goes forward, so one round more than there are entries is enough for
    a loop, and the nesting bound is enough for the recursion (every larger fuel gives the same
    answer); and the walk stays between the count field and the end of the table. *)
Theorem extent_walk_total t k ctx depth fuel :
  0 <= k < zlen (entries t) -> 0 <= depth -> (17 <= fuel)%nat ->
  exists group_end overflow, consume_group_extent fuel t k ctx depth = Some (group_end, overflow) /\
    consume_group_extent 17 t k ctx depth = Some (group_end, overflow) /\
    k <= group_end <= zlen (entries t) /\ (overflow = false -> k < group_end).
Proof.
  intros Hk Hd Hf. destruct (consume_walks t 17 k ctx depth Hk Hd) as (e & o & E & He); [unfold kMaxGroupDepth; lia|lia|].
  exists e, o. split; [|done]. rewrite <- E. apply consume_fuel; unfold kMaxGroupDepth; lia.
Qed.

Lemma extent_walk_total_witness :
  consume_group_extent 40 parties_table 1 parties_context 0 = Some (9, false) /\
  consume_group_extent 17 parties_table 1 parties_context 0 = Some (9, false).
Proof.
  assert (Hk : 0 <= 1 < zlen (entries parties_table)) by by vm_compute.
  assert (H2 : (17 <= 40)%nat) by lia.
  assert (E : consume_group_extent 17 parties_table 1 parties_context 0 = Some (9, false)) by by vm_compute.
  destruct (extent_walk_total parties_table 1 parties_context 0 40 Hk ltac:(lia) H2) as (e & o & E40 & E17 & _).
  rewrite E in E17. injection E17 as <- <-. split; [exact E40|exact E].
Defined.

(** The nested cache is transparent.  Every call on a root table's cache — warm or
    cold, the sub-table shared with another tag or not, after any earlier failures —
    either reports an allocation failure or answers exactly the slices a fresh sub-table
    of the caller's own dictionary bundle would give; and while no allocation fails it
    never reports one. *)
Theorem nested_cache_transparent seed frame hooks_of ctx_of len_of na data key no_tag s :
  nested_inv seed frame hooks_of ctx_of len_of s ->
  let '(r, s') := nested_group_slices na seed frame (Some data) (len_of data) no_tag key (hooks_of key) (ctx_of data) s in
  nested_inv seed frame hooks_of ctx_of len_of s' /\
  (gr_alloc_failed r = false -> gr_slices r = fresh seed frame hooks_of ctx_of len_of data key no_tag) /\
  (healthy s -> none_fails na -> gr_alloc_failed r = false /\ healthy s').
Proof.
  intros Hi. pose proof (nested_call seed frame hooks_of ctx_of len_of na data key no_tag s Hi) as H.
  destruct (nested_group_slices _ _ _ _ _ _ _ _ _ _) as [r s']. exact H.
Qed.

(** The nested group of the first party, on an empty cache. *)
Lemma nested_cache_transparent_witness :
  let frame := fields_bytes parties_fields in
  let call := nested_group_slices (NestedAllocs true new_delete_resource all_allocs true) 7 frame
                (Some 11) 30 802 1 parties_hooks (GroupContext [68] [453]) nested_init in
  gr_alloc_failed call.1 = false /\
  gr_slices call.1 = fresh 7 frame (fun _ => parties_hooks) (fun _ => GroupContext [68] [453]) (fun _ => 30) 11 1 802.
Proof.
  intros frame call.
  pose proof (nested_cache_transparent 7 frame (fun _ => parties_hooks) (fun _ => GroupContext [68] [453]) (fun _ => 30)
    (NestedAllocs true new_delete_resource all_allocs true) 11 1 802 nested_init) as H.
  cbv beta in H. fold call in H. destruct call as [r s']. destruct H as (_ & H1 & H2).
  - exists []. split; constructor.
  - destruct H2 as [Hf _]; [by split|by repeat split|]. split; [exact Hf|exact (H1 Hf)].
Defined.
