(* ===== verification/Seqnum.v ===== *)
(** Sequence numbers and the two counters of a session:
    [include/fixpp/session/seqnum.hpp] and [src/session/seqnum_manager.cpp].

    Every operation first takes the manager's [async_mutex]; the lock can be refused
    (the mutex was drained, or the wait was cancelled), and which it was is the
    argument [locked] of the operation. *)
From S2P Require Import Prelude Errors.

(** ** seqnum.hpp *)

Abbreviation seqnum_t := Z.
Definition seqnum_min : seqnum_t := 1.
Definition seqnum_max : seqnum_t := UINT32_MAX.

(** The values of a counter in use. *)
Definition is_seqnum (n : seqnum_t) : Prop := seqnum_min <= n <= seqnum_max.

(** ** SeqnumManager *)

Record SeqnumManager := mkSeqnumManager {
  next_inbound_ : seqnum_t;
  next_outbound_ : seqnum_t }.

Definition manager_init : SeqnumManager := mkSeqnumManager seqnum_min seqnum_min.

Definition check_inbound (locked : bool) (seq : seqnum_t) (m : SeqnumManager)
  : SeqnumManager * result error unit :=
  if negb locked then (m, Err session_already_closed)
  else if seq <? next_inbound_ m then (m, Err session_seqnum_too_low)
  else if next_inbound_ m <? seq then (m, Err session_seqnum_too_high)
  else if next_inbound_ m =? seqnum_max then (m, Err store_seqnum_overflow)
  else (mkSeqnumManager (u32 (next_inbound_ m + 1)) (next_outbound_ m), Ok tt).

Definition peek_outbound (m : SeqnumManager) : seqnum_t := next_outbound_ m.

Definition assign_outbound (locked : bool) (m : SeqnumManager)
  : SeqnumManager * result error seqnum_t :=
  if negb locked then (m, Err session_already_closed)
  else if next_outbound_ m =? seqnum_max then (m, Err store_seqnum_overflow)
  else (mkSeqnumManager (next_inbound_ m) (u32 (next_outbound_ m + 1)), Ok (next_outbound_ m)).

Definition take_back_outbound (k : seqnum_t) (m : SeqnumManager) : SeqnumManager :=
  if k <? next_outbound_ m then mkSeqnumManager (next_inbound_ m) k else m.

Definition hydrate (locked : bool) (ni no : seqnum_t) (m : SeqnumManager)
  : SeqnumManager * result error unit :=
  if negb locked then (m, Err session_already_closed)
  else (mkSeqnumManager ni no, Ok tt).

Definition reset_to_one (locked : bool) (m : SeqnumManager)
  : SeqnumManager * result error unit :=
  if negb locked then (m, Err session_already_closed)
  else (mkSeqnumManager seqnum_min seqnum_min, Ok tt).

Definition set_next_inbound (locked : bool) (n : seqnum_t) (m : SeqnumManager)
  : SeqnumManager * result error unit :=
  if negb locked then (m, Err session_already_closed)
  else (mkSeqnumManager n (next_outbound_ m), Ok tt).

Definition set_next_outbound (locked : bool) (n : seqnum_t) (m : SeqnumManager)
  : SeqnumManager * result error unit :=
  if negb locked then (m, Err session_already_closed)
  else (mkSeqnumManager (next_inbound_ m) n, Ok tt).

(** ** Runs *)

(** One call of the manager, with what the mutex answered. *)
Inductive manager_op : Type :=
  | CheckInbound (locked : bool) (seq : seqnum_t)
  | AssignOutbound (locked : bool)
  | TakeBackOutbound (k : seqnum_t)
  | Hydrate (locked : bool) (ni no : seqnum_t)
  | ResetToOne (locked : bool)
  | SetNextInbound (locked : bool) (n : seqnum_t)
  | SetNextOutbound (locked : bool) (n : seqnum_t).

(** What a call accepted or assigned, when it did. *)
Definition manager_step (o : manager_op) (m : SeqnumManager)
  : SeqnumManager * option seqnum_t :=
  match o with
  | CheckInbound l s =>
      let (m', r) := check_inbound l s m in (m', if is_ok r then Some s else None)
  | AssignOutbound l =>
      let (m', r) := assign_outbound l m in
      (m', match r with Ok n => Some n | Err _ => None end)
  | TakeBackOutbound k => (take_back_outbound k m, None)
  | Hydrate l a b => ((hydrate l a b m).1, None)
  | ResetToOne l => ((reset_to_one l m).1, None)
  | SetNextInbound l n => ((set_next_inbound l n m).1, None)
  | SetNextOutbound l n => ((set_next_outbound l n m).1, None)
  end.

(** The numbers the calls of a run accepted (inbound) and assigned (outbound). *)
Fixpoint run_manager (ops : list manager_op) (m : SeqnumManager)
  : SeqnumManager * list seqnum_t * list seqnum_t :=
  match ops with
  | [] => (m, [], [])
  | o :: ops =>
      let (m1, n) := manager_step o m in
      let '(m2, ins, outs) := run_manager ops m1 in
      match o, n with
      | CheckInbound _ _, Some n => (m2, n :: ins, outs)
      | AssignOutbound _, Some n => (m2, ins, n :: outs)
      | _, _ => (m2, ins, outs)
      end
  end.

(** The two calls of normal traffic; the others are recovery. *)
Definition is_traffic (o : manager_op) : bool :=
  match o with CheckInbound _ _ | AssignOutbound _ => true | _ => false end.

(** The numbers a recovery call carries are sequence numbers. *)
Definition op_ok (o : manager_op) : Prop :=
  match o with
  | CheckInbound _ _ | AssignOutbound _ | ResetToOne _ => True
  | TakeBackOutbound k => is_seqnum k
  | Hydrate _ a b => is_seqnum a /\ is_seqnum b
  | SetNextInbound _ n | SetNextOutbound _ n => is_seqnum n
  end.

Definition manager_ok (m : SeqnumManager) : Prop :=
  is_seqnum (next_inbound_ m) /\ is_seqnum (next_outbound_ m).

(** [k] consecutive numbers from [n]. *)
Fixpoint numbers_from (n : seqnum_t) (k : nat) : list seqnum_t :=
  match k with O => [] | S k => n :: numbers_from (n + 1) k end.

Lemma numbers_from_lookup n k i :
  numbers_from n k !! i = if decide (i < k)%nat then Some (n + Z.of_nat i) else None.
Proof.
  revert n i. induction k as [|k IH]; intros n i; cbn [numbers_from].
  - case_decide; [lia|done].
  - destruct i as [|i]; cbn.
    + case_decide; [f_equal; lia|lia].
    + rewrite IH. do 2 case_decide; try lia; [f_equal; lia|done].
Qed.

Lemma numbers_from_snoc n k : numbers_from n (S k) = numbers_from n k ++ [n + Z.of_nat k].
Proof.
  revert n. induction k as [|k IH]; intros n; [cbn; f_equal; lia|].
  change (numbers_from n (S (S k))) with (n :: numbers_from (n + 1) (S k)).
  rewrite IH. cbn. do 3 f_equal. lia.
Qed.

Ltac seqnum_cases :=
  repeat (unfold check_inbound, assign_outbound, take_back_outbound, hydrate, reset_to_one,
            set_next_inbound, set_next_outbound in *; case_tests; simplify_eq/=).
Ltac seqnum_lia := unfold is_seqnum, seqnum_min, seqnum_max, UINT32_MAX in *; lia.

Lemma u32_next n : is_seqnum n -> n <> seqnum_max -> u32 (n + 1) = n + 1.
Proof. intros. apply wrap_small. seqnum_lia. Qed.

Lemma manager_step_ok o m : op_ok o -> manager_ok m -> manager_ok (manager_step o m).1.
Proof.
  intros Ho [Hi Hn].
  destruct o as [l s|l|k|l a b|l|l n|l n]; cbn in *; seqnum_cases;
    split; cbn; try seqnum_lia; rewrite u32_next; seqnum_lia.
Qed.

Lemma check_inbound_traffic l s m m' r : manager_ok m -> check_inbound l s m = (m', r) ->
  (r = Ok tt /\ s = next_inbound_ m /\ m' = mkSeqnumManager (s + 1) (next_outbound_ m)) \/
  (is_ok r = false /\ m' = m).
Proof.
  intros [Hi Hn] H. seqnum_cases; try (right; done). left.
  assert (s = next_inbound_ m) as -> by lia. rewrite u32_next by seqnum_lia. done.
Qed.

Lemma assign_outbound_traffic l m m' r : manager_ok m -> assign_outbound l m = (m', r) ->
  (r = Ok (next_outbound_ m) /\
     m' = mkSeqnumManager (next_inbound_ m) (next_outbound_ m + 1)) \/
  (is_ok r = false /\ m' = m).
Proof.
  intros [Hi Hn] H. seqnum_cases; try (right; done). left.
  rewrite u32_next by seqnum_lia. done.
Qed.

Lemma take_back_min k m :
  take_back_outbound k m = mkSeqnumManager (next_inbound_ m) (Z.min (next_outbound_ m) k).
Proof.
  destruct m as [i o]. unfold take_back_outbound. cbn. destruct (k <? o) eqn:E; f_equal; lia.
Qed.

Lemma fold_take_back ks m :
  let m' := fold_left (fun m k => take_back_outbound k m) ks m in
  next_inbound_ m' = next_inbound_ m /\ next_outbound_ m' = fold_left Z.min ks (next_outbound_ m).
Proof.
  cbn. revert m. induction ks as [|k ks IH]; intros m; cbn; [done|].
  destruct (IH (take_back_outbound k m)) as [-> ->]. by rewrite take_back_min.
Qed.

(** Two numbers short of the last one: the second is refused, as the counter could not
    advance past it. *)
Definition sample_manager : SeqnumManager := mkSeqnumManager 4294967293 7.
Definition sample_traffic : list manager_op :=
  [CheckInbound true 4294967293; CheckInbound true 4294967295; AssignOutbound false;
   CheckInbound true 4294967294; CheckInbound true 4294967295; AssignOutbound true].

Lemma sample_manager_ok : manager_ok sample_manager.
Proof. unfold manager_ok, is_seqnum, seqnum_min, seqnum_max, UINT32_MAX. cbn. lia. Qed.

(** ** Properties *)

(** Whatever numbers arrive and whatever calls are refused the lock, the numbers a
    session accepts are the consecutive ones from its inbound counter, and the numbers it
    assigns are the consecutive ones from its outbound counter: no number is skipped,
    accepted twice or assigned twice, the counters stand exactly past them, and neither
    wraps. *)
Theorem traffic_in_sequence (ops : list manager_op) (m : SeqnumManager) :
  manager_ok m -> forallb is_traffic ops = true ->
  let '(m', ins, outs) := run_manager ops m in
  ins = numbers_from (next_inbound_ m) (length ins) /\
  outs = numbers_from (next_outbound_ m) (length outs) /\
  next_inbound_ m' = next_inbound_ m + zlen ins /\
  next_outbound_ m' = next_outbound_ m + zlen outs /\ manager_ok m'.
Proof.
  revert m. induction ops as [|o ops IH]; intros m Hm Ht; cbn [run_manager].
  { rewrite zlen_nilZ, !Z.add_0_r. cbn. done. }
  cbn in Ht. apply andb_prop in Ht as [Ho Ht].
  pose proof (manager_step_ok o m) as Hok.
  destruct (manager_step o m) as [m1 n] eqn:Es. cbn in Hok.
  assert (Hm1 : manager_ok m1) by (apply Hok; [destruct o; done|done]).
  specialize (IH m1 Hm1 Ht). destruct (run_manager ops m1) as [[m2 ins] outs].
  destruct IH as (Hi & Hn & Hc & Hd & H2).
  destruct o as [l s|l|k|l a b|l|l q|l q]; try discriminate Ho; cbn in Es.
  - destruct (check_inbound l s m) as [mm r] eqn:E.
    destruct (check_inbound_traffic _ _ _ _ _ Hm E) as [(-> & -> & ->) | [Hr ->]];
      [|rewrite Hr in Es]; simplify_eq/=; [|done].
    rewrite zlen_cons, <- Hi. split_and!; [done|done|lia|done|done].
  - destruct (assign_outbound l m) as [mm r] eqn:E.
    destruct (assign_outbound_traffic _ _ _ _ Hm E) as [(-> & ->) | [Hr ->]];
      [|destruct r; [discriminate Hr|]]; simplify_eq/=; [|done].
    rewrite zlen_cons, <- Hn. split_and!; [done|done|done|lia|done].
Qed.

Lemma traffic_in_sequence_witness :
  run_manager sample_traffic sample_manager
    = (mkSeqnumManager 4294967295 8, [4294967293; 4294967294], [7]) /\
  let '(m', ins, outs) := run_manager sample_traffic sample_manager in
  ins = numbers_from (next_inbound_ sample_manager) (length ins) /\
  outs = numbers_from (next_outbound_ sample_manager) (length outs) /\
  next_inbound_ m' = next_inbound_ sample_manager + zlen ins /\
  next_outbound_ m' = next_outbound_ sample_manager + zlen outs /\ manager_ok m'.
Proof.
  split; [vm_compute; reflexivity|].
  exact (traffic_in_sequence sample_traffic sample_manager sample_manager_ok eq_refl).
Defined.

(** Taking numbers back only lowers the outbound counter, in any order: after any list
    of numbers is taken back the counter stands at the least of them and of where it stood,
    and a number assigned and taken back at once leaves the manager as it was. *)
Theorem take_back_lowest (ks : list seqnum_t) (m : SeqnumManager) (l : bool) :
  manager_ok m ->
  let m' := fold_left (fun m k => take_back_outbound k m) ks m in
  next_inbound_ m' = next_inbound_ m /\
  next_outbound_ m' = fold_left Z.min ks (next_outbound_ m) /\
  (forall m1 k, assign_outbound l m = (m1, Ok k) ->
     peek_outbound m = k /\ take_back_outbound k m1 = m).
Proof.
  intros Hm. cbn. destruct (fold_take_back ks m) as [Hi Ho]. split_and!; [done|done|].
  intros m1 k Ha. destruct (assign_outbound_traffic l m m1 (Ok k) Hm Ha) as [(Hk & ->) | [? _]];
    [|done]. injection Hk as ->. split; [done|]. destruct m as [i o].
  unfold take_back_outbound. cbn. case_tests. done.
Qed.

Lemma take_back_lowest_witness :
  next_outbound_ (fold_left (fun m k => take_back_outbound k m)
    [4294967291; 5; 4294967290] sample_manager) = 5.
Proof.
  destruct (take_back_lowest [4294967291; 5; 4294967290] sample_manager true sample_manager_ok)
    as (_ & Ho & _).
  rewrite Ho. reflexivity.
Defined.
