(* ===== verification/MessageStore.v ===== *)
(** The message store's contract, [include/fixpp/session/message_store.hpp]: the operations
    every store has ([MessageStore]), what they promise about the messages a store holds
    and its two counters ([StoreLaws]), and the [reset_to] a store inherits.

    Each operation is given what its environment answered during the call ([Env]: whether
    the writer lock was granted, what the disk did). *)
From S2P Require Import Prelude Errors Seqnum.
From Stdlib Require Import Sorted.

(** ** How a call fails

    It returns an error, or it lets an exception out: that of a cancelled wait that throws,
    or that of a refused allocation. *)

Inductive thrown : Set := operation_aborted | bad_alloc.
Inductive failure : Set := Returned (e : error) | Thrown (x : thrown).

Definition replied {A} (r : result error A) : result failure A :=
  match r with Ok a => Ok a | Err x => Err (Returned x) end.

(** ** direction.hpp, retrieve_visitor.hpp *)

Inductive direction_t : Set := inbound | outbound.

#[global] Instance direction_eq_dec : EqDecision direction_t.
Proof. solve_decision. Defined.

Inductive visit_result : Set := cont | stop | abort.

(** What [co_await visitor.on_frame(...)] does: throw, return an error, or a result. *)
Inductive visit_outcome : Type :=
  | Threw
  | Failed (e : error)
  | Visited (r : visit_result).

(** [retrieve_visitor::abort_error], when it is not overridden. *)
Definition default_abort_error : error := store_visitor_aborted.

(** ** The interface

    The calls that return; an exception a store lets out is an event of the caller's world. *)

Class MessageStore (St Env : Type) := {
  store : Env -> seqnum_t -> bytes -> direction_t -> St -> St * result error unit;
  next_seqnum : Env -> direction_t -> bool -> St -> St * result error seqnum_t;
  reset : Env -> St -> St * result error unit }.

(** What a store holds, seen from outside: the frames of a direction with their numbers,
    oldest first, and the number it will take next. *)
Class StoreView (St : Type) := {
  view : St -> direction_t -> list (seqnum_t * bytes);
  next_seq : St -> direction_t -> seqnum_t;
  store_ok : St -> Prop }.

(** The store holds what it held. *)
Definition same_view `{StoreView St} (s s' : St) : Prop :=
  forall d, view s' d = view s d /\ next_seq s' d = next_seq s d.

Class StoreLaws (St Env : Type) `{MessageStore St Env, StoreView St} := {
  store_law e seq f d s s' r : store_ok s -> store e seq f d s = (s', r) ->
    store_ok s' /\
    match r with
    | Ok _ =>
        seq = next_seq s d /\
        (forall d', view s' d' = if decide (d' = d) then view s d ++ [(seq, f)] else view s d') /\
        (forall d', next_seq s' d' = if decide (d' = d) then u32 (seq + 1) else next_seq s d')
    | Err _ => same_view s s'
    end;
  next_seqnum_law e d inc s s' r : store_ok s -> next_seqnum e d inc s = (s', r) ->
    store_ok s' /\
    match r with
    | Ok n =>
        n = next_seq s d /\ (inc = true -> n <> seqnum_max) /\
        (forall d', view s' d' = view s d') /\
        (forall d', next_seq s' d' =
           if decide (d' = d) then (if inc then n + 1 else n) else next_seq s d')
    | Err e => same_view s s'
    end;
  reset_law e s s' r : store_ok s -> reset e s = (s', r) ->
    store_ok s' /\
    match r with
    | Ok _ => forall d, view s' d = [] /\ next_seq s' d = seqnum_min
    | Err _ => same_view s s'
    end }.

(** ** reset_to *)

Definition reset_to_targets_valid (next_in next_out : seqnum_t) : bool :=
  let ok v := (v =? seqnum_min) || (v =? seqnum_min + 1) in ok next_in && ok next_out.

(** [MessageStore::reset_to], the body a store inherits; one environment for each of its
    three calls. *)
Definition default_reset_to `{MessageStore St Env} (e0 e1 e2 : Env) (next_in next_out : seqnum_t)
    (s : St) : St * result error unit :=
  if negb (reset_to_targets_valid next_in next_out) then (s, Err session_invalid_argument)
  else match reset e0 s with
  | (s, Err x) => (s, Err x)
  | (s, Ok _) =>
      let bump e d (s : St) :=
        let (s, r) := next_seqnum e d true s in
        (s, match r with Ok _ => Ok tt | Err x => Err x end) in
      match (if next_in =? seqnum_min + 1 then bump e1 inbound s else (s, Ok tt)) with
      | (s, Err x) => (s, Err x)
      | (s, Ok _) => if next_out =? seqnum_min + 1 then bump e2 outbound s else (s, Ok tt)
      end
  end.

(** The counters a reset to [(a, b)] leaves. *)
Definition reset_counter (next_in next_out : seqnum_t) (d : direction_t) : seqnum_t :=
  match d with inbound => next_in | outbound => next_out end.

(** The frame a store holds under a number, when it holds one. *)
Definition stored_frame (v : list (seqnum_t * bytes)) (n : seqnum_t) : option bytes :=
  match list_find (fun p => p.1 = n) v with Some (_, p) => Some p.2 | None => None end.

Lemma targets_valid a b : reset_to_targets_valid a b = true <-> (a = 1 \/ a = 2) /\ (b = 1 \/ b = 2).
Proof. unfold reset_to_targets_valid, seqnum_min. lia. Qed.

#[global] Instance same_view_equiv `{StoreView St} : Equivalence (same_view (St:=St)).
Proof.
  split.
  - intros s d. done.
  - intros s s' Hs d. destruct (Hs d) as [-> ->]. done.
  - intros s1 s2 s3 H1 H2 d. destruct (H1 d) as [<- <-]. apply H2.
Qed.

(** An empty store whose counters stand at [(a, b)]. *)
Definition emptied `{StoreView St} (a b : seqnum_t) (s : St) : Prop :=
  forall d, view s d = [] /\ next_seq s d = reset_counter a b d.

(** One step of [reset_to] after the reset: from counters [(a, b)] it raises one by one, or
    leaves them. *)
Lemma bump_law {St Env} `{StoreLaws St Env} e d s s' r a b :
  store_ok s -> emptied a b s -> next_seqnum e d true s = (s', r) ->
  store_ok s' /\
  match r with
  | Ok _ => match d with inbound => emptied (a + 1) b s' | outbound => emptied a (b + 1) s' end
  | Err _ => emptied a b s'
  end.
Proof.
  intros Hs He Hn. destruct (next_seqnum_law e d true s s' r Hs Hn) as [Hs' Hr].
  split; [done|]. destruct r as [n|x].
  - destruct Hr as (-> & _ & Hv & Hq). destruct (He d) as [_ Hd]. rewrite Hd in Hq.
    destruct d; intros d'; rewrite Hv, Hq; destruct (He d') as [-> ->]; destruct d'; done.
  - intros d'. destruct (Hr d') as [-> ->]. apply He.
Qed.

(** ** What a walk finds *)

(** [n] is in reach: it and every number from the oldest frame held up to it is held. *)
Definition in_reach (v : list (seqnum_t * bytes)) (n : seqnum_t) : Prop :=
  match v with
  | [] => False
  | p :: _ => p.1 <= n /\ forall m, p.1 <= m <= n -> is_Some (stored_frame v m)
  end.

(** [frames] are the frames held under [begin], [begin + 1], ... up to [tail], or up to the
    first number that is not in reach. *)
Definition walked (v : list (seqnum_t * bytes)) (begin tail : seqnum_t)
    (frames : list (seqnum_t * bytes)) (gap_hit : bool) : Prop :=
  frames.*1 = numbers_from begin (length frames) /\
  Forall (fun p => stored_frame v p.1 = Some p.2 /\ in_reach v p.1) frames /\
  if gap_hit then begin + zlen frames <= tail /\ ~ in_reach v (begin + zlen frames)
  else begin + zlen frames = Z.max begin (tail + 1).

Lemma walked_nil v s tail (gap : bool) :
  (if gap then s <= tail /\ ~ in_reach v s else tail < s) -> walked v s tail [] gap.
Proof.
  intros H. unfold walked. change (zlen (@nil (seqnum_t * bytes))) with 0.
  split_and!; [done|done|]. rewrite Z.add_0_r. destruct gap; [done|lia].
Qed.

Lemma walked_cons v s tail f frames gap :
  s <= tail -> stored_frame v s = Some f -> in_reach v s -> walked v (s + 1) tail frames gap ->
  walked v s tail ((s, f) :: frames) gap.
Proof.
  intros Hs Hf Hi (Hn & Hr & Hg). unfold walked. rewrite zlen_cons. pose proof (zlen_nonneg frames).
  split_and!.
  - cbn. by rewrite Hn.
  - by constructor.
  - replace (s + (1 + zlen frames)) with (s + 1 + zlen frames) by lia.
    destruct gap; [done|lia].
Qed.

(** Frames held in order of number. *)
Definition increasing (v : list (seqnum_t * bytes)) : Prop := StronglySorted (fun p q => p.1 < q.1) v.

Lemma increasing_lt v i j p q : increasing v -> v !! i = Some p -> v !! j = Some q ->
  (i < j)%nat -> p.1 + (Z.of_nat j - Z.of_nat i) <= q.1.
Proof.
  intros Hv. revert i j p. induction Hv as [|a v Hv IH Ha]; intros i j p Hi Hj Hij; [done|].
  destruct j as [|j]; [lia|]. destruct i as [|i]; cbn in Hi, Hj.
  - injection Hi as ->. destruct j as [|j].
    + pose proof (Forall_lookup_1 _ _ _ _ Ha Hj). cbn in *. lia.
    + destruct v as [|b v]; [done|]. apply Forall_cons in Ha as [Ha _].
      specialize (IH 0%nat (S j) b eq_refl Hj ltac:(lia)). lia.
  - specialize (IH i j p Hi Hj ltac:(lia)). lia.
Qed.

Lemma stored_at v i p : increasing v -> v !! i = Some p -> stored_frame v p.1 = Some p.2.
Proof.
  intros Hv Hp. unfold stored_frame. destruct (list_find _ v) as [[j q]|] eqn:E.
  - apply list_find_Some in E as (Hj & Hq & _). cbn in Hq.
    destruct (Nat.lt_total i j) as [Hlt|[->|Hlt]].
    + pose proof (increasing_lt v i j p q Hv Hp Hj Hlt). lia.
    + by rewrite Hp in Hj; injection Hj as ->.
    + pose proof (increasing_lt v j i q p Hv Hj Hp Hlt). lia.
  - rewrite list_find_None in E. eapply Forall_lookup_1 in E; [|exact Hp]. done.
Qed.

Lemma stored_held v n f : stored_frame v n = Some f -> exists i, v !! i = Some (n, f).
Proof.
  unfold stored_frame. destruct (list_find _ v) as [[i q]|] eqn:E; [|done].
  apply list_find_Some in E as (Hi & Hq & _). intros [= <-]. exists i. rewrite Hi. by destruct q; cbn in *; subst.
Qed.

(** The entry at a number's distance from the oldest frame bears that number exactly when
    the number is in reach. *)
Lemma reach_position v p n : increasing (p :: v) -> p.1 <= n ->
  match (p :: v) !! Z.to_nat (n - p.1) with
  | Some q => if q.1 =? n then stored_frame (p :: v) n = Some q.2 /\ in_reach (p :: v) n
              else ~ in_reach (p :: v) n
  | None => ~ in_reach (p :: v) n
  end.
Proof.
  intros Hv Hn. set (w := p :: v) in *.
  assert (H0 : w !! 0%nat = Some p) by done.
  (* a number in reach stands at its distance *)
  assert (Hin : in_reach w n -> forall k, (k <= Z.to_nat (n - p.1))%nat ->
    exists q, w !! k = Some q /\ q.1 = p.1 + Z.of_nat k).
  { intros [_ Hall] k. induction k as [|k IH]; intros Hk; [exists p; split; [done|lia]|].
    destruct (IH ltac:(lia)) as (q & Hq & Hqn).
    destruct (Hall (p.1 + Z.of_nat (S k)) ltac:(lia)) as [f Hf]. apply stored_held in Hf as [i Hi].
    destruct (Nat.lt_total i (S k)) as [Hlt|[->|Hlt]].
    - assert (Hle : (i < k)%nat \/ i = k) by lia. destruct Hle as [Hik| ->].
      + pose proof (increasing_lt w i k _ q Hv Hi Hq Hik). cbn in *. lia.
      + rewrite Hq in Hi. injection Hi as ->. cbn in *. lia.
    - by exists (p.1 + Z.of_nat (S k), f).
    - assert (Hsk : is_Some (w !! S k)) by (apply lookup_lt_is_Some; apply lookup_lt_Some in Hi; lia).
      destruct Hsk as [q' Hq']. pose proof (increasing_lt w k (S k) q q' Hv Hq Hq' ltac:(lia)).
      pose proof (increasing_lt w (S k) i q' _ Hv Hq' Hi Hlt). cbn in *. lia. }
  destruct (w !! Z.to_nat (n - p.1)) as [q|] eqn:Eq.
  - destruct (q.1 =? n) eqn:En.
    + apply Z.eqb_eq in En. split; [rewrite <- En; by eapply stored_at|]. split; [done|].
      intros m Hm. assert (Hs : is_Some (w !! Z.to_nat (m - p.1))).
      { apply lookup_lt_is_Some. apply lookup_lt_Some in Eq. lia. }
      destruct Hs as [r Hr]. assert (Hrm : r.1 = m).
      { assert (Hlo : m <= r.1).
        { destruct (decide (Z.to_nat (m - p.1) = 0%nat)) as [Hz|Hz].
          - rewrite Hz, H0 in Hr. injection Hr as <-. lia.
          - pose proof (increasing_lt w 0 _ p r Hv H0 Hr ltac:(lia)). lia. }
        destruct (decide (Z.to_nat (m - p.1) = Z.to_nat (n - p.1))) as [Hz|Hz].
        - rewrite Hz, Eq in Hr. injection Hr as <-. lia.
        - pose proof (increasing_lt w _ _ r q Hv Hr Eq ltac:(lia)). lia. }
      rewrite <- Hrm, (stored_at w _ r Hv Hr). by eexists.
    + intros Hr. destruct (Hin Hr _ (le_n _)) as (q' & Hq' & Hn'). rewrite Eq in Hq'. injection Hq' as <-. lia.
  - intros Hr. destruct (Hin Hr _ (le_n _)) as (q' & Hq' & _). by rewrite Eq in Hq'.
Qed.

(** Where no number was skipped, what is held is in reach. *)
Lemma reach_dense v n0 n : v.*1 = numbers_from n0 (length v) -> is_Some (stored_frame v n) -> in_reach v n.
Proof.
  intros Hv [f Hf]. apply stored_held in Hf as [i Hi].
  assert (Hat : forall k, (k < length v)%nat -> exists g, v !! k = Some (n0 + Z.of_nat k, g)).
  { intros k Hk. apply lookup_lt_is_Some in Hk as [[m g] Hg]. exists g. rewrite Hg. do 2 f_equal.
    assert (Hm : v.*1 !! k = Some m) by (by rewrite list_lookup_fmap, Hg).
    rewrite Hv, numbers_from_lookup in Hm. case_decide; [by injection Hm|done]. }
  pose proof (lookup_lt_Some _ _ _ Hi) as Hlt. destruct (Hat i Hlt) as [g Hg]. rewrite Hi in Hg. injection Hg as -> <-.
  destruct (Hat 0%nat ltac:(lia)) as [f0 H0]. destruct v as [|p v]; [done|]. cbn in H0. injection H0 as ->.
  split; cbn [fst]; [lia|]. intros m Hm. destruct (Hat (Z.to_nat (m - n0)) ltac:(lia)) as [g Hg].
  unfold stored_frame. destruct (list_find _ _) as [[j q]|] eqn:E; [by eexists|].
  rewrite list_find_None in E. eapply Forall_lookup_1 in E; [|exact Hg]. cbn in E. lia.
Qed.

(** ** The contract's own store

    The store that is nothing but its view: what every store refines. *)

Record log_store := mkLog { lg_frames : direction_t -> list (seqnum_t * bytes);
                            lg_next : direction_t -> seqnum_t }.

Definition on_direction {A} (f : direction_t -> A) (d : direction_t) (x : A) : direction_t -> A :=
  fun d' => if decide (d' = d) then x else f d'.

(** Its environment is whether the lock was granted. *)
#[global] Instance log_message_store : MessageStore log_store bool := {
  store locked seq f d s :=
    if negb locked then (s, Err store_cancelled)
    else if negb (seq =? lg_next s d) then (s, Err store_seqnum_out_of_order)
    else (mkLog (on_direction (lg_frames s) d (lg_frames s d ++ [(seq, f)]))
            (on_direction (lg_next s) d (u32 (seq + 1))), Ok tt);
  next_seqnum locked d inc s :=
    if negb locked then (s, Err store_cancelled)
    else if inc then
      if lg_next s d =? seqnum_max then (s, Err store_seqnum_overflow)
      else (mkLog (lg_frames s) (on_direction (lg_next s) d (lg_next s d + 1)), Ok (lg_next s d))
    else (s, Ok (lg_next s d));
  reset locked s :=
    if negb locked then (s, Err store_cancelled)
    else (mkLog (fun _ => []) (fun _ => seqnum_min), Ok tt) }.

#[global] Instance log_view : StoreView log_store := {
  view s := lg_frames s; next_seq s := lg_next s; store_ok _ := True }.

#[global] Instance log_laws : StoreLaws log_store bool.
Proof.
  split.
  - intros e seq f d s s' r _ Hs. cbn in *. case_tests; simplify_eq/=; split; try done.
    split_and!; [lia|intros d'..]; unfold on_direction; cbn; done.
  - intros e d inc s s' r _ Hs. cbn in *. case_tests; simplify_eq/=; split; try done.
    + split_and!; [done|lia|done|]. intros d'. unfold on_direction. done.
    + split_and!; [done|done|done|]. intros d'. case_decide; [by subst|done].
  - intros e s s' r _ Hs. cbn in *. case_tests; simplify_eq/=; split; done.
Qed.

(** What a store emptied to [(x, y)] reports about targets [(a, b)]. *)
Lemma reset_to_outcome {St} `{StoreView St} (s s' : St) a b x y (r : result error unit) :
  (a = 1 \/ a = 2) -> (b = 1 \/ b = 2) -> store_ok s' -> emptied x y s' ->
  (x = 1 \/ x = a) -> (y = 1 \/ y = b) -> (is_ok r = true -> x = a /\ y = b) ->
  store_ok s' /\
  ((is_ok r = false /\ same_view s s') \/
   (forall d, view s' d = [] /\
      (next_seq s' d = seqnum_min \/ next_seq s' d = reset_counter a b d))) /\
  (r = Ok tt ->
    (a = 1 \/ a = 2) /\ (b = 1 \/ b = 2) /\
    forall d, view s' d = [] /\ next_seq s' d = reset_counter a b d).
Proof.
  intros Ha Hb Hs He Hx Hy Hr. split_and!; [done| |].
  - right. intros d. destruct (He d) as [-> ->]. split; [done|].
    unfold seqnum_min. destruct d; cbn; tauto.
  - intros ->. destruct (Hr eq_refl) as [-> ->]. done.
Qed.

Ltac outcome_side :=
  first [eassumption | lia | cbn; intros; first [discriminate | split; lia] | right; lia].

(** ** Properties *)

(** The [reset_to] a store inherits empties the store and leaves both counters at their
    targets whenever it reports success; whatever it reports, it never leaves a frame of the
    old life beside a moved counter: either the store is as it was, or it is empty with each
    counter at 1 or at its target. *)
Theorem default_reset_to_spec {St Env} `{StoreLaws St Env} (e0 e1 e2 : Env) (a b : seqnum_t)
    (s s' : St) (r : result error unit) :
  store_ok s -> default_reset_to e0 e1 e2 a b s = (s', r) ->
  store_ok s' /\
  ((is_ok r = false /\ same_view s s') \/
   (forall d, view s' d = [] /\
      (next_seq s' d = seqnum_min \/ next_seq s' d = reset_counter a b d))) /\
  (r = Ok tt ->
    (a = 1 \/ a = 2) /\ (b = 1 \/ b = 2) /\
    forall d, view s' d = [] /\ next_seq s' d = reset_counter a b d).
Proof.
  intros Hs. unfold default_reset_to.
  destruct (reset_to_targets_valid a b) eqn:Hv; cbn [negb].
  2:{ intros [= <- <-]. split_and!; [done|left; done|discriminate]. }
  apply targets_valid in Hv as [Ha Hb].
  destruct (reset e0 s) as [s0 r0] eqn:E0.
  destruct (reset_law e0 s s0 r0 Hs E0) as [Hs0 Hr0]. destruct r0 as [[]|x0].
  2:{ intros [= <- <-]. split_and!; [done|left; done|discriminate]. }
  assert (He0 : emptied 1 1 s0) by (intros d; destruct (Hr0 d) as [-> ->]; by destruct d).
  unfold seqnum_min. destruct (a =? 1 + 1) eqn:Ea; cbn.
  - destruct (next_seqnum e1 inbound true s0) as [s1 r1] eqn:E1.
    destruct (bump_law e1 inbound s0 s1 r1 1 1 Hs0 He0 E1) as [Hs1 Hr1].
    assert (a = 2) as -> by lia. destruct r1 as [n1|x1].
    + destruct (b =? 1 + 1) eqn:Eb; cbn.
      * destruct (next_seqnum e2 outbound true s1) as [s2 r2] eqn:E2.
        destruct (bump_law e2 outbound s1 s2 r2 2 1 Hs1 Hr1 E2) as [Hs2 Hr2].
        assert (b = 2) as -> by lia. intros [= <- <-].
        destruct r2; eapply reset_to_outcome; outcome_side.
      * intros [= <- <-]. assert (b = 1) as -> by lia. eapply reset_to_outcome; outcome_side.
    + intros [= <- <-]. eapply reset_to_outcome; outcome_side.
  - assert (a = 1) as -> by lia. destruct (b =? 1 + 1) eqn:Eb; cbn.
    + destruct (next_seqnum e2 outbound true s0) as [s2 r2] eqn:E2.
      destruct (bump_law e2 outbound s0 s2 r2 1 1 Hs0 He0 E2) as [Hs2 Hr2].
      assert (b = 2) as -> by lia. intros [= <- <-].
      destruct r2; eapply reset_to_outcome; outcome_side.
    + intros [= <- <-]. assert (b = 1) as -> by lia. eapply reset_to_outcome; outcome_side.
Qed.

Lemma default_reset_to_spec_witness :
  let s := mkLog (fun _ => [(1, [56; 61])]) (fun _ => 2) in
  let s' := (default_reset_to true true true 2 1 s).1 in
  (view s' inbound = [] /\ next_seq s' inbound = 2) /\ (view s' outbound = [] /\ next_seq s' outbound = 1).
Proof.
  intros s s'.
  destruct (default_reset_to_spec (St:=log_store) true true true 2 1 s s' (Ok tt) ltac:(exact I) ltac:(reflexivity)) as (_ & _ & Hr).
  destruct (Hr eq_refl) as (_ & _ & H). split; [exact (H inbound)|exact (H outbound)].
Defined.
