(* ===== verification/MemoryStore.v ===== *)
(** The in-memory store, [include/fixpp/session/memory_store.hpp]: frames live in one slab
    cut in equal slots (bounded policy) or in a growing one (unbounded), found through one
    descriptor array per direction.

    [retrieve] copies descriptors under the lock and releases it before each
    [visitor.on_frame]; a visitor is a function of the store it runs beside, so what it
    does to the store during its suspension is part of its result. *)
From S2P Require Import Prelude Errors Seqnum MessageStore.
From Stdlib Require Import Sorted.

Inductive capacity_policy : Set := bounded | unbounded.

#[global] Instance capacity_policy_eq_dec : EqDecision capacity_policy.
Proof. solve_decision. Defined.

Record Config := mkConfig {
  policy : capacity_policy;
  inbound_capacity : Z;
  outbound_capacity : Z;
  max_frame_bytes : Z }.

Record Entry := mkEntry { seq : seqnum_t; bytes_len : Z; slab_offset : Z }.

Record MemoryStore := mkMemoryStore {
  cfg_ : Config;
  slab_ : bytes;
  unbounded_slab_ : bytes;
  inbound_entries_ : list Entry;
  outbound_entries_ : list Entry;
  ms_next_inbound_ : seqnum_t;
  ms_next_outbound_ : seqnum_t;
  generation_ : Z }.

Definition slab_total_bytes (c : Config) : Z :=
  u64 (u64 (inbound_capacity c + outbound_capacity c) * max_frame_bytes c).

(** The constructor; [raw] is what the allocator's block holds. *)
Definition memory_store_new (c : Config) (raw : bytes) : MemoryStore :=
  mkMemoryStore c (if decide (policy c = bounded) then raw else []) [] [] [] seqnum_min seqnum_min 0.

Definition slab_offset_for (c : Config) (local_idx : Z) (d : direction_t) : Z :=
  u64 ((match d with inbound => local_idx | outbound => u64 (inbound_capacity c + local_idx) end)
       * max_frame_bytes c).

Definition entries_for (d : direction_t) (s : MemoryStore) : list Entry :=
  match d with inbound => inbound_entries_ s | outbound => outbound_entries_ s end.

Definition next_seq_for (d : direction_t) (s : MemoryStore) : seqnum_t :=
  match d with inbound => ms_next_inbound_ s | outbound => ms_next_outbound_ s end.

(** [entries_for(dir).push_back(e)], with the two slabs as they are after the copy. *)
Definition push_entry (d : direction_t) (e : Entry) (slab uslab : bytes) (s : MemoryStore)
  : MemoryStore :=
  match d with
  | inbound => mkMemoryStore (cfg_ s) slab uslab (inbound_entries_ s ++ [e]) (outbound_entries_ s)
                 (ms_next_inbound_ s) (ms_next_outbound_ s) (generation_ s)
  | outbound => mkMemoryStore (cfg_ s) slab uslab (inbound_entries_ s) (outbound_entries_ s ++ [e])
                 (ms_next_inbound_ s) (ms_next_outbound_ s) (generation_ s)
  end.

(** [counter_for(dir) = n] *)
Definition set_counter_for (d : direction_t) (n : seqnum_t) (s : MemoryStore) : MemoryStore :=
  let '(mkMemoryStore c sl us ie oe ni no g) := s in
  match d with
  | inbound => mkMemoryStore c sl us ie oe n no g
  | outbound => mkMemoryStore c sl us ie oe ni n g
  end.

Definition advance_next_seq_for (d : direction_t) (s : MemoryStore) : MemoryStore :=
  set_counter_for d (u32 (next_seq_for d s + 1)) s.

Definition capacity_for (c : Config) (d : direction_t) : Z :=
  match d with inbound => inbound_capacity c | outbound => outbound_capacity c end.

(** What a call meets: whether its leading post goes through (a cancellation met there is
    thrown), whether the writer lock is granted, and whether the unbounded slab and its
    descriptors get the memory they need. *)
Record memory_env := MemoryEnv {
  me_posted : bool;
  me_locked : bool;
  me_grow_slab : bool;
  me_grow_entries : bool }.

(** [unbounded_slab_.insert(...)] *)
Definition with_unbounded_slab (us : bytes) (s : MemoryStore) : MemoryStore :=
  mkMemoryStore (cfg_ s) (slab_ s) us (inbound_entries_ s) (outbound_entries_ s)
    (ms_next_inbound_ s) (ms_next_outbound_ s) (generation_ s).

Definition ms_store (e : memory_env) (n : seqnum_t) (frame : bytes) (d : direction_t)
    (s : MemoryStore) : MemoryStore * result failure unit :=
  let c := cfg_ s in
  let entries := entries_for d s in
  if negb (me_posted e) then (s, Err (Thrown operation_aborted))
  else if negb (me_locked e) then (s, Err (Returned store_cancelled))
  else if negb (n =? next_seq_for d s) then (s, Err (Returned store_seqnum_out_of_order))
  else if bool_decide (policy c = bounded) && (capacity_for c d <=? zlen entries) then
    (s, Err (Returned store_capacity_exhausted))
  else if max_frame_bytes c <? zlen frame then (s, Err (Returned store_io_failure))
  else
    match policy c with
    | bounded =>
        let off := slab_offset_for c (zlen entries) d in
        (advance_next_seq_for d
           (push_entry d (mkEntry n (zlen frame) off) (zwrite (slab_ s) off frame)
              (unbounded_slab_ s) s), Ok tt)
    | unbounded =>
        let us := unbounded_slab_ s ++ frame in
        if negb (me_grow_slab e) then (s, Err (Thrown bad_alloc))
        else if negb (me_grow_entries e) then (with_unbounded_slab us s, Err (Thrown bad_alloc))
        else
          (advance_next_seq_for d
             (push_entry d (mkEntry n (zlen frame) (zlen (unbounded_slab_ s))) (slab_ s) us s), Ok tt)
    end.

Definition ms_next_seqnum (e : memory_env) (d : direction_t) (increment : bool) (s : MemoryStore)
  : MemoryStore * result failure seqnum_t :=
  if negb (me_posted e) then (s, Err (Thrown operation_aborted))
  else if negb (me_locked e) then (s, Err (Returned store_cancelled))
  else
    let current := next_seq_for d s in
    if increment then
      if current =? seqnum_max then (s, Err (Returned store_seqnum_overflow))
      else (set_counter_for d (u32 (current + 1)) s, Ok current)
    else (s, Ok current).

(** The critical section [reset] and [reset_to] share. *)
Definition clear_to (next_in next_out : seqnum_t) (s : MemoryStore) : MemoryStore :=
  mkMemoryStore (cfg_ s) (slab_ s)
    (if decide (policy (cfg_ s) = unbounded) then [] else unbounded_slab_ s)
    [] [] next_in next_out (u64 (generation_ s + 1)).

Definition ms_reset (e : memory_env) (s : MemoryStore) : MemoryStore * result failure unit :=
  if negb (me_posted e) then (s, Err (Thrown operation_aborted))
  else if negb (me_locked e) then (s, Err (Returned store_cancelled))
  else (clear_to seqnum_min seqnum_min s, Ok tt).

Definition ms_reset_to (e : memory_env) (next_in next_out : seqnum_t) (s : MemoryStore)
  : MemoryStore * result failure unit :=
  if negb (reset_to_targets_valid next_in next_out) then (s, Err (Returned session_invalid_argument))
  else if negb (me_posted e) then (s, Err (Thrown operation_aborted))
  else if negb (me_locked e) then (s, Err (Returned store_cancelled))
  else (clear_to next_in next_out s, Ok tt).

(** A call that meets nothing worse than a lock it is not granted lets no exception out;
    such calls are the interface's. *)
Definition calm (locked : bool) : memory_env := MemoryEnv true locked true true.

Definition returned {A} (p : MemoryStore * result failure A) : MemoryStore * result error A :=
  (p.1, match p.2 with Ok a => Ok a | Err (Returned x) => Err x | Err (Thrown _) => Err store_io_failure end).

#[global] Instance memory_message_store : MessageStore MemoryStore bool := {
  store locked n f d s := returned (ms_store (calm locked) n f d s);
  next_seqnum locked d inc s := returned (ms_next_seqnum (calm locked) d inc s);
  reset locked s := returned (ms_reset (calm locked) s) }.

(** ** retrieve *)

(** The copy loop: the descriptors copied, the payload bytes beside them (unbounded), and
    whether a gap stopped it.  [None]: out of fuel. *)
Fixpoint snapshot_loop (fuel : nat) (p : capacity_policy) (slab : bytes) (entries : list Entry)
    (s tail_end : seqnum_t) (snaps : list Entry) (copy : bytes)
  : option (list Entry * bytes * bool) :=
  match fuel with
  | O => None
  | S fuel =>
      if tail_end <? s then Some (snaps, copy, false)
      else
        match entries with
        | [] => Some (snaps, copy, true)
        | front :: _ =>
            if s <? seq front then Some (snaps, copy, true)
            else
              let idx := s - seq front in
              match entries !! Z.to_nat idx with
              | None => Some (snaps, copy, true)
              | Some e =>
                  if negb (seq e =? s) then Some (snaps, copy, true)
                  else
                    let '(e', copy') :=
                      match p with
                      | unbounded =>
                          (mkEntry (seq e) (bytes_len e) (zlen copy),
                           copy ++ zsub slab (slab_offset e) (bytes_len e))
                      | bounded => (e, copy)
                      end in
                    snapshot_loop fuel p slab entries (u32 (s + 1)) tail_end
                      (snaps ++ [e']) copy'
              end
        end
  end.

(** Whether the walk gets room for this many descriptors, and for this many payload bytes; the
    copies then stay inside what was reserved. *)
Record walk_allocs := WalkAllocs { wa_snapshots : Z -> bool; wa_copy : Z -> bool }.

Section Visitor.
Context {V : Type}.
Variable on_frame : V -> seqnum_t -> bytes -> MemoryStore -> V * MemoryStore * visit_outcome.
Variable abort_error : V -> error.

(** The visits, without the lock. *)
Fixpoint visit_snapshots (snaps : list Entry) (copy : bytes) (g0 : Z) (gap_hit : bool)
    (v : V) (s : MemoryStore) : V * MemoryStore * result error unit :=
  match snaps with
  | [] => (v, s, if gap_hit then Err store_seqnum_gap else Ok tt)
  | e :: snaps =>
      if negb (generation_ s =? g0) then (v, s, Err store_io_failure)
      else
        let frame :=
          match policy (cfg_ s) with
          | bounded => zsub (slab_ s) (slab_offset e) (bytes_len e)
          | unbounded => zsub copy (slab_offset e) (bytes_len e)
          end in
        match on_frame v (seq e) frame s with
        | (v, s, Threw) => (v, s, Err store_visitor_aborted)
        | (v, s, Failed x) => (v, s, Err x)
        | (v, s, Visited cont) => visit_snapshots snaps copy g0 gap_hit v s
        | (v, s, Visited stop) => (v, s, Ok tt)
        | (v, s, Visited abort) => (v, s, Err (abort_error v))
        end
  end.

Definition retrieve (locked : bool) (al : walk_allocs) (begin end_ : seqnum_t) (d : direction_t)
    (v : V) (s : MemoryStore) : option (V * MemoryStore * result failure unit) :=
  if begin =? 0 then Some (v, s, Err (Returned store_seqnum_invalid))
  else if negb (end_ =? 0) && (end_ <? begin) then Some (v, s, Err (Returned store_invalid_range))
  else if negb locked then Some (v, s, Err (Returned store_cancelled))
  else
    let cur_next := next_seq_for d s in
    let tail_end :=
      if end_ =? 0 then (if cur_next =? seqnum_min then 0 else u32 (cur_next - 1)) else end_ in
    if (tail_end <? begin) || ((tail_end <? seqnum_min) && (end_ =? 0)) then Some (v, s, Ok tt)
    else
      let entries := entries_for d s in
      let range := u32 (tail_end - begin + 1) in
      if negb (wa_snapshots al range) then Some (v, s, Err (Thrown bad_alloc))
      else if bool_decide (policy (cfg_ s) = unbounded)
              && negb (wa_copy al (u64 (range * max_frame_bytes (cfg_ s))))
      then Some (v, s, Err (Thrown bad_alloc))
      else
        match snapshot_loop (S (S (length entries))) (policy (cfg_ s)) (unbounded_slab_ s) entries
                begin tail_end [] [] with
        | None => None
        | Some (snaps, copy, gap_hit) =>
            let '(v, s, r) := visit_snapshots snaps copy (generation_ s) gap_hit v s in
            Some (v, s, replied r)
        end.

End Visitor.

(** ** What the store holds *)

Definition frame_of (s : MemoryStore) (e : Entry) : bytes :=
  match policy (cfg_ s) with
  | bounded => zsub (slab_ s) (slab_offset e) (bytes_len e)
  | unbounded => zsub (unbounded_slab_ s) (slab_offset e) (bytes_len e)
  end.

Definition held (s : MemoryStore) (e : Entry) : seqnum_t * bytes := (seq e, frame_of s e).

(** The slabs fit the address space. *)
Definition cfg_ok (c : Config) : Prop :=
  0 <= inbound_capacity c /\ 0 <= outbound_capacity c /\ 0 <= max_frame_bytes c /\
  inbound_capacity c + outbound_capacity c < 2 ^ 64 /\
  (inbound_capacity c + outbound_capacity c) * max_frame_bytes c < 2 ^ 64.

Definition seq_in_range (n : seqnum_t) : Prop := 0 <= n <= seqnum_max.

(** The slot of the [i]-th frame of a direction. *)
Definition slot (c : Config) (i : Z) (d : direction_t) : Z :=
  (match d with inbound => i | outbound => inbound_capacity c + i end) * max_frame_bytes c.

Definition bounded_ok (s : MemoryStore) : Prop :=
  let c := cfg_ s in
  zlen (slab_ s) = (inbound_capacity c + outbound_capacity c) * max_frame_bytes c /\
  forall d, zlen (entries_for d s) <= capacity_for c d /\
    forall i e, entries_for d s !! i = Some e ->
      slab_offset e = slot c (Z.of_nat i) d /\ 0 <= bytes_len e <= max_frame_bytes c.

Definition unbounded_ok (s : MemoryStore) : Prop :=
  forall d i e, entries_for d s !! i = Some e ->
    0 <= slab_offset e /\ 0 <= bytes_len e /\
    slab_offset e + bytes_len e <= zlen (unbounded_slab_ s).

Definition ms_ok (s : MemoryStore) : Prop :=
  cfg_ok (cfg_ s) /\ 0 <= generation_ s < 2 ^ 64 /\
  (forall d, seq_in_range (next_seq_for d s) /\
     Forall (fun e => seq_in_range (seq e)) (entries_for d s)) /\
  match policy (cfg_ s) with bounded => bounded_ok s | unbounded => unbounded_ok s end.

#[global] Instance memory_view : StoreView MemoryStore := {
  view s d := held s <$> entries_for d s;
  next_seq s d := next_seq_for d s;
  store_ok := ms_ok }.

Lemma slot_bound c i d : cfg_ok c -> 0 <= i < capacity_for c d ->
  0 <= slot c i d /\
  slot c i d + max_frame_bytes c <= (inbound_capacity c + outbound_capacity c) * max_frame_bytes c.
Proof. intros (? & ? & ? & ? & ?) ?. unfold slot. destruct d; cbn in *; nia. Qed.

Lemma slot_apart c i d i' d' : cfg_ok c -> 0 <= i < capacity_for c d -> 0 <= i' < capacity_for c d' ->
  (i, d) <> (i', d') ->
  slot c i d + max_frame_bytes c <= slot c i' d' \/ slot c i' d' + max_frame_bytes c <= slot c i d.
Proof.
  intros (? & ? & ? & ? & ?) Hi Hi' Hne. unfold slot.
  assert (i <> i' \/ d <> d') by (destruct (decide (d = d')); [left; congruence|tauto]).
  destruct d, d'; cbn in *; try (destruct (Z.lt_total i i') as [?|[?|?]]; [nia| |nia]; exfalso;
    destruct H4; congruence); nia.
Qed.

Lemma slab_offset_slot c i d : cfg_ok c -> 0 <= i < capacity_for c d ->
  slab_offset_for c i d = slot c i d.
Proof.
  intros Hc Hi. pose proof (slot_bound c i d Hc Hi). destruct Hc as (? & ? & ? & ? & ?).
  unfold slab_offset_for. unfold slot in *. destruct d; cbn in *.
  - apply wrap_small. lia.
  - rewrite (wrap_small 64 (inbound_capacity c + i)) by lia. apply wrap_small. lia.
Qed.

Lemma entries_push d d' e sl us s :
  entries_for d' (push_entry d e sl us s)
    = if decide (d' = d) then entries_for d s ++ [e] else entries_for d' s.
Proof. by destruct d, d'. Qed.

Lemma next_push d d' e sl us s : next_seq_for d' (push_entry d e sl us s) = next_seq_for d' s.
Proof. by destruct d, d'. Qed.

Lemma push_fields d e sl us s :
  let s' := push_entry d e sl us s in
  cfg_ s' = cfg_ s /\ slab_ s' = sl /\ unbounded_slab_ s' = us /\ generation_ s' = generation_ s.
Proof. by destruct d. Qed.

Lemma set_counter_fields d n s :
  let s' := set_counter_for d n s in
  cfg_ s' = cfg_ s /\ slab_ s' = slab_ s /\ unbounded_slab_ s' = unbounded_slab_ s /\
  generation_ s' = generation_ s /\ (forall d', entries_for d' s' = entries_for d' s) /\
  (forall d', next_seq_for d' s' = if decide (d' = d) then n else next_seq_for d' s).
Proof. destruct s, d; cbn; split_and!; try done; by intros []. Qed.

(** Two states agree on everything a frame is read from. *)
Lemma held_ext s s' e :
  cfg_ s' = cfg_ s -> slab_ s' = slab_ s -> unbounded_slab_ s' = unbounded_slab_ s ->
  held s' e = held s e.
Proof. unfold held, frame_of. intros -> -> ->. done. Qed.

Lemma set_counter_ok d n s : seq_in_range n -> ms_ok s -> ms_ok (set_counter_for d n s).
Proof.
  intros Hn (Hc & Hg & Hd & Hp).
  destruct (set_counter_fields d n s) as (Ec & Es & Eu & Eg & Ee & En).
  unfold ms_ok. rewrite Ec, Eg. split_and!; [done|lia..| |].
  - intros d'. rewrite Ee, En. destruct (Hd d') as [? ?]. by case_decide.
  - destruct (policy (cfg_ s)).
    + unfold bounded_ok in *. rewrite Ec, Es. destruct Hp as [Hl Hp]. split; [done|].
      intros d'. rewrite Ee. apply Hp.
    + unfold unbounded_ok in *. intros d'. rewrite Ee, Eu. apply Hp.
Qed.

Lemma set_counter_view d n s d' : view (set_counter_for d n s) d' = view s d'.
Proof.
  destruct (set_counter_fields d n s) as (Ec & Es & Eu & Eg & Ee & En). cbn.
  rewrite Ee. apply list_fmap_ext. intros _ e _. apply held_ext; done.
Qed.

Lemma next_in_range d s : ms_ok s -> seq_in_range (next_seq_for d s).
Proof. intros (_ & _ & Hd & _). apply Hd. Qed.

Lemma u32_in_range n : seq_in_range (u32 n).
Proof. pose proof (wrap_range 32 n). unfold seq_in_range, seqnum_max, UINT32_MAX. lia. Qed.

(** The bounded copy lands in a slot of its own. *)
Lemma bounded_push s d n frame :
  let c := cfg_ s in
  let off := slab_offset_for c (zlen (entries_for d s)) d in
  let s' := push_entry d (mkEntry n (zlen frame) off) (zwrite (slab_ s) off frame)
              (unbounded_slab_ s) s in
  ms_ok s -> policy c = bounded -> zlen (entries_for d s) < capacity_for c d ->
  zlen frame <= max_frame_bytes c -> seq_in_range n ->
  ms_ok s' /\
  forall d', view s' d' = if decide (d' = d) then view s d ++ [(n, frame)] else view s d'.
Proof.
  intros c off s' (Hc & Hg & Hd & Hp) Hpol Hlen Hfr Hn.
  pose proof (zlen_nonneg frame) as Hf0. pose proof (zlen_nonneg (entries_for d s)) as He0.
  fold c in Hp. rewrite Hpol in Hp. destruct Hp as [Hsl Hp].
  assert (Hoff : off = slot c (zlen (entries_for d s)) d)
    by (apply slab_offset_slot; [done|lia]).
  destruct (slot_bound c (zlen (entries_for d s)) d Hc ltac:(lia)) as [Ho0 Ho1].
  assert (Hs' : cfg_ s' = c /\ slab_ s' = zwrite (slab_ s) off frame /\
    generation_ s' = generation_ s /\
    (forall d', next_seq_for d' s' = next_seq_for d' s) /\
    (forall d', entries_for d' s' = if decide (d' = d)
       then entries_for d s ++ [mkEntry n (zlen frame) off] else entries_for d' s)).
  { split_and!; try (intros d'; apply entries_push || apply next_push); by destruct d. }
  clearbody s' off. destruct Hs' as (Ec & Es & Eg & En & Ee). fold c in Hsl.
  assert (Hw : 0 <= off /\ off + zlen frame <= zlen (slab_ s)) by lia. split.
  - unfold ms_ok. rewrite Ec, Eg, Hpol. split_and!; [done|lia..| |].
    + intros d'. rewrite En, Ee. destruct (Hd d'), (Hd d). split; [done|].
      case_decide; [|done]. apply Forall_app. split; [done|by apply Forall_singleton].
    + unfold bounded_ok. rewrite Ec, Es, zlen_write by lia. split; [done|].
      intros d'. rewrite Ee. destruct (Hp d) as [Hcap He]. case_decide; [subst d'|apply Hp].
      split; [rewrite zlen_app, zlen_cons; change (zlen (@nil Entry)) with 0; lia|].
      intros i e [Hi|[Hi He']]%lookup_app_Some; [by apply He|].
      destruct (i - _)%nat eqn:Ei; [|done]. cbn in He'. injection He' as <-. cbn.
      replace (Z.of_nat i) with (zlen (entries_for d s)) by (unfold zlen in *; lia). lia.
  - intros d'. cbn [view memory_view]. rewrite Ee.
    assert (Hkeep : forall d1 i e, entries_for d1 s !! i = Some e -> held s' e = held s e).
    { intros d1 i e He. unfold held, frame_of. rewrite Ec, Es. fold c. rewrite Hpol.
      destruct (Hp d1) as [Hcap Hp1]. destruct (Hp1 i e He) as [Hso Hbl].
      apply lookup_lt_Some in He as Hi. f_equal. fold c in Hso, Hbl, Hcap.
      assert (Hi' : 0 <= Z.of_nat i < capacity_for c d1) by (unfold zlen in *; lia).
      destruct (slot_bound c (Z.of_nat i) d1 Hc Hi') as [Hb0 Hb1].
      apply zsub_zwrite_other; try lia.
      destruct (slot_apart c (Z.of_nat i) d1 (zlen (entries_for d s)) d Hc Hi'); [lia| |lia|lia].
      intros [= Hii ->]. unfold zlen in *. lia. }
    case_decide; [subst d'|].
    + rewrite fmap_app. f_equal; [apply list_fmap_ext; intros i e He; by eapply Hkeep|].
      cbn [fmap list_fmap]. unfold held, frame_of. cbn [seq bytes_len slab_offset].
      rewrite Ec, Es. fold c. rewrite Hpol. do 2 f_equal. apply zsub_zwrite_same; lia.
    + apply list_fmap_ext. intros i e He. by eapply Hkeep.
Qed.

Lemma unbounded_push s d n frame :
  let e := mkEntry n (zlen frame) (zlen (unbounded_slab_ s)) in
  let s' := push_entry d e (slab_ s) (unbounded_slab_ s ++ frame) s in
  ms_ok s -> policy (cfg_ s) = unbounded -> seq_in_range n ->
  ms_ok s' /\
  forall d', view s' d' = if decide (d' = d) then view s d ++ [(n, frame)] else view s d'.
Proof.
  intros e s' (Hc & Hg & Hd & Hp) Hpol Hn. rewrite Hpol in Hp.
  pose proof (zlen_nonneg frame) as Hf0. pose proof (zlen_nonneg (unbounded_slab_ s)) as Hu0.
  assert (Hs' : cfg_ s' = cfg_ s /\ unbounded_slab_ s' = unbounded_slab_ s ++ frame /\
    generation_ s' = generation_ s /\
    (forall d', next_seq_for d' s' = next_seq_for d' s) /\
    (forall d', entries_for d' s' = if decide (d' = d)
       then entries_for d s ++ [e] else entries_for d' s)).
  { split_and!; try (intros d'; apply entries_push || apply next_push); by destruct d. }
  clearbody s'. destruct Hs' as (Ec & Es & Eg & En & Ee). split.
  - unfold ms_ok. rewrite Ec, Eg, Hpol. split_and!; [done|lia..| |].
    + intros d'. rewrite En, Ee. destruct (Hd d'), (Hd d). split; [done|].
      case_decide; [|done]. apply Forall_app. split; [done|by apply Forall_singleton].
    + intros d' i e'. rewrite Ee, Es, zlen_app.
      assert (Hold : forall d1, entries_for d1 s !! i = Some e' -> 0 <= slab_offset e' /\
        0 <= bytes_len e' /\ slab_offset e' + bytes_len e' <= zlen (unbounded_slab_ s) + zlen frame)
        by (intros d1 H; destruct (Hp d1 i e' H) as (? & ? & ?); lia).
      case_decide; [subst d'|apply Hold].
      intros [Hi|[Hi He']]%lookup_app_Some; [by eapply Hold|].
      destruct (i - _)%nat eqn:Ei; [|done]. cbn in He'. injection He' as <-. cbn. lia.
  - intros d'. cbn [view memory_view]. rewrite Ee.
    assert (Hkeep : forall d1 i e, entries_for d1 s !! i = Some e -> held s' e = held s e).
    { intros d1 i e1 He. unfold held, frame_of. rewrite Ec, Es, Hpol.
      destruct (Hp d1 i e1 He) as (? & ? & ?). f_equal. apply zsub_app_l; lia. }
    case_decide; [subst d'|].
    + rewrite fmap_app. f_equal; [apply list_fmap_ext; intros i e1 He; by eapply Hkeep|].
      cbn [fmap list_fmap]. unfold held, frame_of. cbn [e seq bytes_len slab_offset].
      rewrite Ec, Es, Hpol. do 2 f_equal.
      rewrite zsub_app_r, Z.sub_diag by lia. apply zsub_whole.
    + apply list_fmap_ext. intros i e1 He. by eapply Hkeep.
Qed.

Lemma clear_ok a b s : seq_in_range a -> seq_in_range b -> ms_ok s -> ms_ok (clear_to a b s).
Proof.
  intros Ha Hb (Hc & Hg & Hd & Hp). unfold ms_ok. cbn. split_and!; [done|apply wrap_range; lia..| |].
  - intros []; cbn; split; done.
  - destruct (policy (cfg_ s)).
    + destruct Hp as [Hl Hp]. destruct Hc as (? & ? & ? & ? & ?).
      split; [done|]. intros []; cbn; (split; [|done]); change (zlen (@nil Entry)) with 0; lia.
    + intros [] i e; done.
Qed.

Lemma clear_view a b s : emptied a b (clear_to a b s).
Proof. by intros []. Qed.

(** A growth refused after the slab took the bytes leaves them there, unseen. *)
Lemma slab_grown_ok s us : ms_ok s -> policy (cfg_ s) = unbounded ->
  ms_ok (with_unbounded_slab (unbounded_slab_ s ++ us) s) /\
  same_view s (with_unbounded_slab (unbounded_slab_ s ++ us) s).
Proof.
  intros (Hc & Hg & Hd & Hp) Hpol. rewrite Hpol in Hp. pose proof (zlen_nonneg us). split.
  - unfold ms_ok. cbn [cfg_ generation_ with_unbounded_slab]. rewrite Hpol. split_and!; [done|lia..| |].
    + intros d. destruct (Hd d). by destruct d.
    + intros d i e He. cbn [unbounded_slab_ with_unbounded_slab]. rewrite zlen_app.
      destruct (Hp d i e) as (? & ? & ?); [by destruct d|lia].
  - intros d. split; [|by destruct d]. cbn [view memory_view].
    replace (entries_for d (with_unbounded_slab _ s)) with (entries_for d s) by (by destruct d).
    apply list_fmap_ext. intros i e He. destruct (Hp d i e He) as (? & ? & ?).
    unfold held, frame_of. cbn [cfg_ unbounded_slab_ with_unbounded_slab]. rewrite Hpol. f_equal.
    apply zsub_app_l; lia.
Qed.

(** What each call does, whatever it meets. *)
Lemma ms_store_spec e n f d s : ms_ok s ->
  let '(s', r) := ms_store e n f d s in
  ms_ok s' /\
  match r with
  | Ok _ =>
      n = next_seq s d /\
      (forall d', view s' d' = if decide (d' = d) then view s d ++ [(n, f)] else view s d') /\
      (forall d', next_seq s' d' = if decide (d' = d) then u32 (n + 1) else next_seq s d')
  | Err _ => same_view s s'
  end.
Proof.
  intros Hs. unfold ms_store. pose proof (next_in_range d s Hs) as Hn.
  destruct (negb (me_posted e)); [done|]. destruct (negb (me_locked e)); [done|].
  destruct (n =? next_seq_for d s) eqn:En; cbn [negb]; [|done].
  destruct (bool_decide (policy (cfg_ s) = bounded) && _) eqn:Ecap; [done|].
  destruct (max_frame_bytes (cfg_ s) <? zlen f) eqn:Ef; [done|]. apply Z.eqb_eq in En. subst n.
  assert (Hpush : forall en sl us, let s1 := push_entry d en sl us s in
    (ms_ok s1 /\ forall d', view s1 d' = if decide (d' = d) then view s d ++ [(next_seq_for d s, f)] else view s d') ->
    ms_ok (advance_next_seq_for d s1) /\ next_seq_for d s = next_seq s d /\
    (forall d', view (advance_next_seq_for d s1) d'
       = if decide (d' = d) then view s d ++ [(next_seq_for d s, f)] else view s d') /\
    (forall d', next_seq (advance_next_seq_for d s1) d'
       = if decide (d' = d) then u32 (next_seq_for d s + 1) else next_seq s d')).
  { intros en sl us s1 [Hok Hv].
    assert (Hnx : forall d', next_seq_for d' s1 = next_seq_for d' s) by (intros d'; apply next_push).
    clearbody s1. unfold advance_next_seq_for. rewrite Hnx.
    split; [apply set_counter_ok; [apply u32_in_range|done]|]. split; [done|].
    split; intros d'; [by rewrite set_counter_view|].
    destruct (set_counter_fields d (u32 (next_seq_for d s + 1)) s1) as (_ & _ & _ & _ & _ & Eq).
    cbn [next_seq memory_view]. by rewrite Eq, Hnx. }
  destruct (policy (cfg_ s)) eqn:Ep.
  - apply Hpush. rewrite bool_decide_eq_true_2 in Ecap by done. apply bounded_push; [done|done|lia|lia|done].
  - destruct (negb (me_grow_slab e)); [done|].
    destruct (negb (me_grow_entries e)); [by apply slab_grown_ok|]. apply Hpush. by apply unbounded_push.
Qed.

Lemma ms_next_seqnum_spec e d inc s : ms_ok s ->
  let '(s', r) := ms_next_seqnum e d inc s in
  ms_ok s' /\
  match r with
  | Ok n =>
      n = next_seq s d /\ (inc = true -> n <> seqnum_max) /\
      (forall d', view s' d' = view s d') /\
      (forall d', next_seq s' d' = if decide (d' = d) then (if inc then n + 1 else n) else next_seq s d')
  | Err _ => same_view s s'
  end.
Proof.
  intros Hs. unfold ms_next_seqnum. pose proof (next_in_range d s Hs) as Hn.
  destruct (negb (me_posted e)); [done|]. destruct (negb (me_locked e)); [done|].
  destruct inc; [destruct (next_seq_for d s =? seqnum_max) eqn:Em; [done|]|];
    (split; [by try (apply set_counter_ok; [apply u32_in_range|done])|]).
  - assert (Hu : u32 (next_seq_for d s + 1) = next_seq_for d s + 1).
    { apply wrap_small. unfold seq_in_range, seqnum_max, UINT32_MAX in *. lia. }
    split_and!; [done|lia|intros d'; apply set_counter_view|intros d'].
    destruct (set_counter_fields d (u32 (next_seq_for d s + 1)) s) as (_ & _ & _ & _ & _ & Eq).
    cbn [next_seq memory_view]. by rewrite Eq, Hu.
  - split_and!; [done|done|done|]. intros d'. case_decide; [by subst|done].
Qed.

Lemma ms_reset_spec e s : ms_ok s ->
  let '(s', r) := ms_reset e s in
  ms_ok s' /\
  match r with
  | Ok _ => forall d, view s' d = [] /\ next_seq s' d = seqnum_min
  | Err _ => same_view s s'
  end.
Proof.
  intros Hs. unfold ms_reset. destruct (negb (me_posted e)); [done|]. destruct (negb (me_locked e)); [done|].
  split; [apply clear_ok; [..|done]; unfold seq_in_range, seqnum_min, seqnum_max, UINT32_MAX; lia|].
  intros d. destruct (clear_view seqnum_min seqnum_min s d) as [-> ->]. by destruct d.
Qed.

#[global] Instance memory_laws : StoreLaws MemoryStore bool.
Proof.
  split.
  - intros l n f d s s' r Hs Hst. pose proof (ms_store_spec (calm l) n f d s Hs) as H.
    cbn [store memory_message_store] in Hst. destruct (ms_store (calm l) n f d s) as [s1 r1].
    injection Hst as <- <-. by destruct r1 as [|[x|x]].
  - intros l d inc s s' r Hs Hst. pose proof (ms_next_seqnum_spec (calm l) d inc s Hs) as H.
    cbn [next_seqnum memory_message_store] in Hst. destruct (ms_next_seqnum (calm l) d inc s) as [s1 r1].
    injection Hst as <- <-. by destruct r1 as [|[x|x]].
  - intros l s s' r Hs Hst. pose proof (ms_reset_spec (calm l) s Hs) as H.
    cbn [reset memory_message_store] in Hst. destruct (ms_reset (calm l) s) as [s1 r1].
    injection Hst as <- <-. by destruct r1 as [|[x|x]].
Qed.

(** The interface's calls are these: nothing is let out of them. *)
Lemma calm_lets_nothing_out l n f d inc s :
  (forall x, (ms_store (calm l) n f d s).2 <> Err (Thrown x)) /\
  (forall x, (ms_next_seqnum (calm l) d inc s).2 <> Err (Thrown x)) /\
  (forall x, (ms_reset (calm l) s).2 <> Err (Thrown x)).
Proof.
  unfold ms_store, ms_next_seqnum, ms_reset. cbn [calm me_posted me_locked me_grow_slab me_grow_entries negb].
  split_and!; intros; repeat case_match; done.
Qed.

(** ** What a walk finds *)

(** A copied descriptor reads its frame. *)
Definition snap_ok (s : MemoryStore) (d : direction_t) (copy : bytes) (e : Entry)
    (fr : seqnum_t * bytes) : Prop :=
  seq e = fr.1 /\
  match policy (cfg_ s) with
  | bounded => e ∈ entries_for d s /\ frame_of s e = fr.2
  | unbounded =>
      0 <= slab_offset e /\ 0 <= bytes_len e /\ slab_offset e + bytes_len e <= zlen copy /\
      zsub copy (slab_offset e) (bytes_len e) = fr.2
  end.

Lemma snap_ok_grow s d copy more e fr : snap_ok s d copy e fr -> snap_ok s d (copy ++ more) e fr.
Proof.
  unfold snap_ok. intros [Hs He]. split; [done|]. destruct (policy (cfg_ s)); [done|].
  destruct He as (? & ? & ? & Hz). rewrite zlen_app. pose proof (zlen_nonneg more).
  rewrite zsub_app_l by lia. repeat split; try lia; done.
Qed.

(** The descriptor at a number's distance from the first one. *)
Lemma entry_reach s d front rest n : entries_for d s = front :: rest -> increasing (view s d) ->
  seq front <= n ->
  match entries_for d s !! Z.to_nat (n - seq front) with
  | Some e => if seq e =? n then stored_frame (view s d) n = Some (frame_of s e) /\ in_reach (view s d) n
              else ~ in_reach (view s d) n
  | None => ~ in_reach (view s d) n
  end.
Proof.
  intros He Hi Hn. cbn [view memory_view] in *. rewrite He in *.
  pose proof (reach_position (map (held s) rest) (held s front) n Hi Hn) as H.
  change (held s front :: map (held s) rest) with (held s <$> front :: rest) in H.
  rewrite list_lookup_fmap in H. cbn [held fst] in H.
  by destruct ((front :: rest) !! Z.to_nat (n - seq front)).
Qed.

Lemma snapshot_walk s d tail fuel n snaps copy fs :
  ms_ok s -> increasing (view s d) -> Forall (fun e => seq e < seqnum_max) (entries_for d s) ->
  0 <= n -> (0 < fuel)%nat ->
  (forall front rest, entries_for d s = front :: rest ->
     n < seq front \/ zlen (entries_for d s) - (n - seq front) < Z.of_nat fuel) ->
  Forall2 (snap_ok s d copy) snaps fs ->
  exists snaps' copy' gap frames,
    snapshot_loop fuel (policy (cfg_ s)) (unbounded_slab_ s) (entries_for d s) n tail snaps copy
      = Some (snaps', copy', gap) /\
    Forall2 (snap_ok s d copy') snaps' (fs ++ frames) /\ walked (view s d) n tail frames gap.
Proof.
  intros Hs Hinc Hmax Hn0. revert n Hn0 snaps copy fs.
  induction fuel as [|fuel IH]; intros n Hn0 snaps copy fs Hf Hfuel Hacc; [lia|].
  cbn [snapshot_loop]. destruct (tail <? n) eqn:Ht.
  { exists snaps, copy, false, []. rewrite app_nil_r. split_and!; [done|done|].
    apply walked_nil. lia. }
  assert (Hstop : ~ in_reach (view s d) n -> exists snaps' copy' gap frames,
    Some (snaps, copy, true) = Some (snaps', copy', gap) /\
    Forall2 (snap_ok s d copy') snaps' (fs ++ frames) /\ walked (view s d) n tail frames gap).
  { intros Hno. exists snaps, copy, true, []. rewrite app_nil_r. split_and!; [done|done|].
    apply walked_nil. split; [lia|done]. }
  destruct (entries_for d s) as [|front rest] eqn:Eent.
  { apply Hstop. cbn [view memory_view]. rewrite Eent. cbn. tauto. }
  destruct (n <? seq front) eqn:Elt.
  { apply Hstop. cbn [view memory_view]. rewrite Eent. cbn. lia. }
  pose proof (entry_reach s d front rest n Eent Hinc ltac:(lia)) as Hreach. rewrite Eent in Hreach.
  destruct ((front :: rest) !! Z.to_nat (n - seq front)) as [e|] eqn:Ee; [|by apply Hstop].
  destruct (seq e =? n) eqn:Eq; cbn [negb]; [|by apply Hstop]. clear Hstop. destruct Hreach as [Hst Hin].
  apply Z.eqb_eq in Eq. pose proof (Forall_lookup_1 _ _ _ _ Hmax Ee) as Hem. cbn beta in Hem.
  rewrite wrap_small by (unfold seqnum_max, UINT32_MAX in *; lia).
  assert (Hnext : forall e' copy', snap_ok s d copy' e' (n, frame_of s e) ->
    Forall2 (snap_ok s d copy') snaps fs ->
    exists snaps' copy'' gap frames,
      snapshot_loop fuel (policy (cfg_ s)) (unbounded_slab_ s) (front :: rest) (n + 1) tail
        (snaps ++ [e']) copy' = Some (snaps', copy'', gap) /\
      Forall2 (snap_ok s d copy'') snaps' (fs ++ frames) /\ walked (view s d) n tail frames gap).
  { intros e' copy' He' Hacc'.
    apply lookup_lt_Some in Ee as Hlt.
    destruct (IH (n + 1) ltac:(lia) (snaps ++ [e']) copy' (fs ++ [(n, frame_of s e)]))
      as (sn & cp & gap & frames & Hl & Hfa & Hw).
    - destruct (Hfuel front rest eq_refl) as [?|?]; [lia|]. unfold zlen in *. lia.
    - intros fr rs [= <- <-]. right. destruct (Hfuel front rest eq_refl) as [?|?]; [lia|]. lia.
    - apply Forall2_app; [done|]. constructor; [done|constructor].
    - exists sn, cp, gap, ((n, frame_of s e) :: frames). split_and!; [done| |].
      + by rewrite <- app_assoc in Hfa.
      + apply walked_cons; [lia|done|done|done]. }
  destruct (policy (cfg_ s)) eqn:Ep.
  - apply Hnext; [|done]. unfold snap_ok. rewrite Ep. split_and!; [done| |done].
    rewrite Eent. by eapply list_elem_of_lookup_2.
  - destruct Hs as (_ & _ & _ & Hp). rewrite Ep in Hp.
    destruct (Hp d (Z.to_nat (n - seq front)) e) as (? & ? & ?); [by rewrite Eent|].
    assert (Hlen : zlen (zsub (unbounded_slab_ s) (slab_offset e) (bytes_len e)) = bytes_len e)
      by (apply zlen_sub; lia).
    apply Hnext.
    + unfold snap_ok. rewrite Ep. cbn [seq slab_offset bytes_len fst snd]. pose proof (zlen_nonneg copy).
      rewrite zlen_app, Hlen. split_and!; [done|lia..|].
      rewrite zsub_app_r, Z.sub_diag by lia. unfold frame_of. rewrite Ep.
      rewrite <- Hlen at 2. apply zsub_whole.
    + eapply Forall2_impl; [exact Hacc|]. intros. by apply snap_ok_grow.
Qed.

(** ** Runs of operations *)

Inductive memory_op : Type :=
  | MStore (e : memory_env) (n : seqnum_t) (frame : bytes) (d : direction_t)
  | MNext (e : memory_env) (d : direction_t) (increment : bool)
  | MReset (e : memory_env)
  | MResetTo (e : memory_env) (a b : seqnum_t).

Definition memory_step (o : memory_op) (s : MemoryStore) : MemoryStore :=
  match o with
  | MStore l n f d => (ms_store l n f d s).1
  | MNext l d inc => (ms_next_seqnum l d inc s).1
  | MReset l => (ms_reset l s).1
  | MResetTo l a b => (ms_reset_to l a b s).1
  end.

(** Whether a call empties the store. *)
Definition clears (o : memory_op) : bool :=
  match o with
  | MReset e => me_posted e && me_locked e
  | MResetTo e a b => reset_to_targets_valid a b && me_posted e && me_locked e
  | _ => false
  end.

Definition run_memory (ops : list memory_op) (s : MemoryStore) : MemoryStore :=
  fold_left (fun s o => memory_step o s) ops s.

Definition clear_count (ops : list memory_op) : Z := zlen (List.filter clears ops).

(** [s'] holds what [s] holds, and perhaps more. *)
Definition extends (s s' : MemoryStore) : Prop :=
  forall d, entries_for d s `prefix_of` entries_for d s' /\ view s d `prefix_of` view s' d.

#[global] Instance extends_preorder : PreOrder extends.
Proof.
  split; [by intros s d|]. intros s1 s2 s3 H12 H23 d.
  destruct (H12 d), (H23 d). split; by etrans.
Qed.

Lemma memory_step_ok o s : ms_ok s -> ms_ok (memory_step o s).
Proof.
  intros Hs. destruct o as [e n f d|e d inc|e|e a b]; cbn [memory_step].
  - pose proof (ms_store_spec e n f d s Hs) as H. destruct (ms_store e n f d s). apply H.
  - pose proof (ms_next_seqnum_spec e d inc s Hs) as H. destruct (ms_next_seqnum e d inc s). apply H.
  - pose proof (ms_reset_spec e s Hs) as H. destruct (ms_reset e s). apply H.
  - unfold ms_reset_to. destruct (reset_to_targets_valid a b) eqn:Ev; [|done].
    apply targets_valid in Ev as [? ?]. destruct (me_posted e), (me_locked e); try done.
    apply clear_ok; [..|done]; unfold seq_in_range, seqnum_max, UINT32_MAX; lia.
Qed.

Lemma ms_store_shape e n f d s :
  (is_ok (ms_store e n f d s).2 = false /\
     ((ms_store e n f d s).1 = s \/ policy (cfg_ s) = unbounded /\
        (ms_store e n f d s).1 = with_unbounded_slab (unbounded_slab_ s ++ f) s)) \/
  ((ms_store e n f d s).2 = Ok tt /\ exists en sl us,
     (ms_store e n f d s).1 = advance_next_seq_for d (push_entry d en sl us s)).
Proof.
  unfold ms_store. destruct (negb _); [by left; auto|]. destruct (negb _); [by left; auto|].
  destruct (negb _); [by left; auto|]. destruct (_ && _); [by left; auto|]. destruct (_ <? _); [by left; auto|].
  destruct (policy (cfg_ s)); [right; eauto|]. destruct (negb _); [by left; auto|].
  destruct (negb _); [left; auto|right; eauto].
Qed.

(** What a call leaves alone. *)
Lemma memory_step_keeps o s : ms_ok s ->
  cfg_ (memory_step o s) = cfg_ s /\
  generation_ (memory_step o s)
    = (if clears o then u64 (generation_ s + 1) else generation_ s) /\
  (clears o = false -> extends s (memory_step o s)).
Proof.
  intros Hs. destruct o as [e n f d|e d inc|e|e a b]; cbn [memory_step clears].
  - pose proof (ms_store_spec e n f d s Hs) as Hlaw.
    destruct (ms_store_shape e n f d s) as [[_ [->|[Hp ->]]]|(Hr & e1 & sl & us & Heq)]; [done| |].
    + split_and!; [done|done|]. intros _ d'. destruct (slab_grown_ok s f Hs Hp) as [_ Hv].
      rewrite (proj1 (Hv d')). by destruct d'.
    + destruct (ms_store e n f d s) as [s' r]. cbn [fst snd] in *. subst s' r.
      destruct Hlaw as (_ & _ & Hv & _). unfold advance_next_seq_for in *.
      destruct (set_counter_fields d (u32 (next_seq_for d (push_entry d e1 sl us s) + 1))
        (push_entry d e1 sl us s)) as (-> & _ & _ & -> & Hee & _).
      destruct (push_fields d e1 sl us s) as (-> & _ & _ & ->). split_and!; [done|done|].
      intros _ d'. rewrite Hee, Hv, entries_push.
      split; case_decide; subst; done || by eexists.
  - unfold ms_next_seqnum. case_tests; cbn [fst]; try done.
    destruct (set_counter_fields d (u32 (next_seq_for d s + 1)) s) as (-> & _ & _ & -> & He & _).
    split_and!; [done|done|]. intros _ d'. rewrite set_counter_view, He. done.
  - unfold ms_reset. by destruct (me_posted e), (me_locked e).
  - unfold ms_reset_to. by destruct (reset_to_targets_valid a b), (me_posted e), (me_locked e).
Qed.

Lemma run_memory_keeps ops s : ms_ok s ->
  ms_ok (run_memory ops s) /\ cfg_ (run_memory ops s) = cfg_ s /\
  generation_ (run_memory ops s) = u64 (generation_ s + clear_count ops) /\
  (clear_count ops = 0 -> extends s (run_memory ops s)).
Proof.
  unfold run_memory, clear_count. revert s. induction ops as [|o ops IH]; intros s Hs; cbn [fold_left List.filter].
  { change (zlen (@nil memory_op)) with 0. rewrite Z.add_0_r.
    split_and!; [done|done| |done]. destruct Hs as (_ & ? & _). by rewrite wrap_small. }
  destruct (memory_step_keeps o s Hs) as (Hc & Hg & He).
  destruct (IH _ (memory_step_ok o s Hs)) as (Hs' & -> & -> & He').
  rewrite Hc, Hg. split_and!; [done|done| |].
  - destruct (clears o); [|done]. rewrite zlen_cons. unfold u64, wrap.
    rewrite Zplus_mod_idemp_l. f_equal. lia.
  - intros Hz. pose proof (zlen_nonneg (List.filter clears ops)).
    destruct (clears o); [rewrite zlen_cons in Hz; lia|].
    etrans; [by apply He|by apply He'].
Qed.

Section Exact.
Context {V : Type}.
Variable on_frame : V -> seqnum_t -> bytes -> MemoryStore -> V * MemoryStore * visit_outcome.
Variable abort_error : V -> error.

(** A visitor works on the store through its operations only. *)
Hypothesis honest : forall v n f s, exists ops,
  clear_count ops < 2 ^ 64 /\ (on_frame v n f s).1.2 = run_memory ops s.

(** The walk over the frames themselves: each is handed to the visitor as long as no reset
    has happened since the walk began. *)
Fixpoint visit_frames (frames : list (seqnum_t * bytes)) (g0 : Z) (gap_hit : bool)
    (v : V) (s : MemoryStore) : V * MemoryStore * result error unit :=
  match frames with
  | [] => (v, s, if gap_hit then Err store_seqnum_gap else Ok tt)
  | p :: frames =>
      if negb (generation_ s =? g0) then (v, s, Err store_io_failure)
      else
        match on_frame v p.1 p.2 s with
        | (v, s, Threw) => (v, s, Err store_visitor_aborted)
        | (v, s, Failed x) => (v, s, Err x)
        | (v, s, Visited cont) => visit_frames frames g0 gap_hit v s
        | (v, s, Visited stop) => (v, s, Ok tt)
        | (v, s, Visited abort) => (v, s, Err (abort_error v))
        end
  end.

(** A descriptor taken from [s0] reads the same frame of any state of the same life. *)
Lemma frame_kept s0 s d e : policy (cfg_ s0) = bounded -> cfg_ s = cfg_ s0 ->
  e ∈ entries_for d s0 -> extends s0 s -> frame_of s e = frame_of s0 e.
Proof.
  intros Hp Hc Hin Hext. apply list_elem_of_lookup in Hin as [i Hi]. destruct (Hext d) as [He Hv].
  pose proof (prefix_lookup_Some _ _ _ _ Hi He) as Hi'.
  assert (Hv0 : view s0 d !! i = Some (held s0 e)) by (cbn; rewrite list_lookup_fmap, Hi; done).
  pose proof (prefix_lookup_Some _ _ _ _ Hv0 Hv) as Hv1.
  cbn in Hv1. rewrite list_lookup_fmap, Hi' in Hv1. cbn in Hv1. by injection Hv1.
Qed.

Lemma visits_frames s0 d copy snaps frames gap v s :
  Forall2 (snap_ok s0 d copy) snaps frames ->
  ms_ok s -> cfg_ s = cfg_ s0 -> (generation_ s = generation_ s0 -> extends s0 s) ->
  visit_snapshots on_frame abort_error snaps copy (generation_ s0) gap v s
    = visit_frames frames (generation_ s0) gap v s.
Proof.
  intros Hfa. revert v s. induction Hfa as [|e p snaps frames Hep _ IH]; intros v s Hs Hc Hext;
    cbn [visit_snapshots visit_frames]; [done|].
  destruct (generation_ s =? generation_ s0) eqn:Eg; cbn [negb]; [|done].
  apply Z.eqb_eq in Eg. specialize (Hext Eg). destruct Hep as [Hseq Hfr].
  assert (Hframe : match policy (cfg_ s) with
    | bounded => zsub (slab_ s) (slab_offset e) (bytes_len e)
    | unbounded => zsub copy (slab_offset e) (bytes_len e) end = p.2).
  { rewrite Hc. destruct (policy (cfg_ s0)) eqn:Ep.
    - destruct Hfr as [Hin Hfr]. rewrite <- Hfr, <- (frame_kept s0 s d e Ep Hc Hin Hext).
      unfold frame_of. by rewrite Hc, Ep.
    - apply Hfr. }
  rewrite Hframe, Hseq. destruct (honest v p.1 p.2 s) as (ops & Hops & Hrun).
  destruct (on_frame v p.1 p.2 s) as [[v' s'] []] eqn:Eo; cbn in Hrun; subst s'; [done|done|].
  destruct (run_memory_keeps ops s Hs) as (Hs' & Hc' & Hg' & He').
  destruct r; [|done|done]. apply IH; [done|by rewrite Hc'|].
  intros Hg. etrans; [exact Hext|]. apply He'.
  rewrite Hg', Eg in Hg. destruct Hs as (_ & Hgr & _). unfold u64, wrap in Hg.
  assert (0 <= clear_count ops) by apply zlen_nonneg. dlia.
Qed.

End Exact.

(** ** The store beside its contract *)

(** What a call reports. *)
Definition memory_result (o : memory_op) (s : MemoryStore) : result failure (option seqnum_t) :=
  match o with
  | MStore e n f d => let? _ := (ms_store e n f d s).2 in Ok None
  | MNext e d inc => let? n := (ms_next_seqnum e d inc s).2 in Ok (Some n)
  | MReset e => let? _ := (ms_reset e s).2 in Ok None
  | MResetTo e a b => let? _ := (ms_reset_to e a b s).2 in Ok None
  end.

(** The same calls of the contract's own store, whose [reset_to] is the inherited one. *)
Definition log_step (o : memory_op) (s : log_store) : log_store :=
  match o with
  | MStore e n f d => (store (me_locked e) n f d s).1
  | MNext e d inc => (next_seqnum (me_locked e) d inc s).1
  | MReset e => (reset (me_locked e) s).1
  | MResetTo e a b => (default_reset_to (me_locked e) (me_locked e) (me_locked e) a b s).1
  end.

Definition log_result (o : memory_op) (s : log_store) : result error (option seqnum_t) :=
  match o with
  | MStore e n f d => let? _ := (store (me_locked e) n f d s).2 in Ok None
  | MNext e d inc => let? n := (next_seqnum (me_locked e) d inc s).2 in Ok (Some n)
  | MReset e => let? _ := (reset (me_locked e) s).2 in Ok None
  | MResetTo e a b => let? _ := (default_reset_to (me_locked e) (me_locked e) (me_locked e) a b s).2 in Ok None
  end.

Definition env_of (o : memory_op) : memory_env :=
  match o with MStore e _ _ _ => e | MNext e _ _ => e | MReset e => e | MResetTo e _ _ => e end.

Definition agrees (s : MemoryStore) (l : log_store) : Prop :=
  forall d, view s d = lg_frames l d /\ next_seq_for d s = lg_next l d.

(** The store has no room for a frame its contract would take. *)
Definition no_room (o : memory_op) (s : MemoryStore) : Prop :=
  match o with
  | MStore e _ f d =>
      (memory_result o s = Err (Returned store_capacity_exhausted) /\ policy (cfg_ s) = bounded /\
         capacity_for (cfg_ s) d <= zlen (view s d)) \/
      (memory_result o s = Err (Returned store_io_failure) /\ max_frame_bytes (cfg_ s) < zlen f) \/
      (memory_result o s = Err (Thrown bad_alloc) /\ policy (cfg_ s) = unbounded /\
         me_grow_slab e && me_grow_entries e = false)
  | _ => False
  end.

(** A cancellation met in the leading post. *)
Definition cut_short (o : memory_op) (s : MemoryStore) : Prop :=
  memory_result o s = Err (Thrown operation_aborted) /\ me_posted (env_of o) = false.

Lemma zlen_view s d : zlen (view s d) = zlen (entries_for d s).
Proof. unfold zlen. cbn. by rewrite length_fmap. Qed.

(** ** Contiguous numbers *)

(** A direction's frames bear consecutive numbers, up to its counter. *)
Definition contiguous (s : MemoryStore) : Prop :=
  forall d, (view s d).*1
    = numbers_from (next_seq_for d s - zlen (view s d)) (length (view s d)).

(** A call that does not move a counter past a number under which nothing is stored, in a
    direction that holds frames, nor past the last number. *)
Definition keeps_dense (o : memory_op) (s : MemoryStore) : Prop :=
  match o with
  | MStore _ n _ _ => n <> seqnum_max
  | MNext _ d true => view s d = []
  | _ => True
  end.

Fixpoint run_dense (ops : list memory_op) (s : MemoryStore) : Prop :=
  match ops with
  | [] => True
  | o :: ops => keeps_dense o s /\ run_dense ops (memory_step o s)
  end.

Lemma contiguous_reach s d n : contiguous s ->
  in_reach (view s d) n <-> is_Some (stored_frame (view s d) n).
Proof.
  intros Hc. split; [|by eapply reach_dense, Hc].
  unfold in_reach. destruct (view s d) as [|p v] eqn:E; [done|]. intros [Hn Hall]. apply Hall. lia.
Qed.

Lemma same_contiguous s s' : same_view s s' -> contiguous s -> contiguous s'.
Proof. intros H Hc d. destruct (H d) as [Hv Hn]. cbn [next_seq memory_view] in Hn. rewrite Hv, Hn. apply Hc. Qed.

Lemma contiguous_step o s : ms_ok s -> contiguous s -> keeps_dense o s ->
  contiguous (memory_step o s).
Proof.
  intros Hs Hc Hk. assert (Hcl : forall a b, contiguous (clear_to a b s)) by (by intros a b []).
  destruct o as [e n f d|e d inc|e|e a b]; cbn [memory_step].
  - pose proof (ms_store_spec e n f d s Hs) as H. destruct (ms_store e n f d s) as [s' [u|x]]; cbn [fst];
      destruct H as [_ Hr]; [|by eapply same_contiguous].
    destruct Hr as (-> & Hv & Hn). intros d'. cbn [next_seq memory_view] in Hn.
    rewrite Hn, Hv. case_decide; [subst d'|apply Hc]. specialize (Hc d).
    rewrite fmap_app, Hc, zlen_app, length_app.
    cbn [length fst fmap list_fmap]. rewrite Nat.add_1_r, numbers_from_snoc.
    pose proof (next_in_range d s Hs) as Hr. cbn in Hk.
    rewrite wrap_small by (unfold seq_in_range, seqnum_max, UINT32_MAX in *; cbn in *; lia).
    change (zlen [(_, _)]) with 1. cbn [next_seq memory_view] in *.
    f_equal; [f_equal; lia|]. f_equal. unfold zlen. lia.
  - pose proof (ms_next_seqnum_spec e d inc s Hs) as H. destruct (ms_next_seqnum e d inc s) as [s' [n|x]]; cbn [fst];
      destruct H as [_ Hr]; [|by eapply same_contiguous].
    destruct Hr as (-> & _ & Hv & Hn). intros d'. cbn [next_seq memory_view] in Hn. rewrite Hn, Hv.
    case_decide; [subst d'|apply Hc]. destruct inc; [|apply Hc].
    cbn [keeps_dense] in Hk. by rewrite Hk.
  - unfold ms_reset. destruct (me_posted e), (me_locked e); done || apply Hcl.
  - unfold ms_reset_to. destruct (reset_to_targets_valid a b), (me_posted e), (me_locked e); done || apply Hcl.
Qed.

(** *** Order *)

(** A direction's frames in order of number, below its counter. *)
Definition in_order (s : MemoryStore) : Prop :=
  forall d, increasing (view s d) /\ 1 <= next_seq s d /\
    Forall (fun p => 1 <= p.1 < next_seq s d) (view s d).

(** Every call but a store under the last number of all. *)
Definition below_last (o : memory_op) : Prop :=
  match o with MStore _ n _ _ => n <> seqnum_max | _ => True end.

Lemma same_in_order s s' : same_view s s' -> in_order s -> in_order s'.
Proof. intros H Ho d. destruct (H d) as [-> ->]. apply Ho. Qed.

Lemma increasing_snoc v n f : increasing v -> Forall (fun p => p.1 < n) v -> increasing (v ++ [(n, f)]).
Proof.
  intros Hv. induction Hv as [|p v Hv IH Hp]; intros Hn; cbn [app]; [by repeat constructor|].
  apply Forall_cons in Hn as [Hpn Hn]. constructor; [by apply IH|].
  apply Forall_app. split; [done|by apply Forall_singleton].
Qed.

Lemma in_order_step o s : ms_ok s -> in_order s -> below_last o -> in_order (memory_step o s).
Proof.
  intros Hs Ho Hb.
  assert (Hcl : forall a b, 1 <= a -> 1 <= b -> in_order (clear_to a b s)) by (intros a b ? ? []; by repeat constructor).
  destruct o as [e n f d|e d inc|e|e a b]; cbn [memory_step].
  - pose proof (ms_store_spec e n f d s Hs) as H. destruct (ms_store e n f d s) as [s' [u|x]]; cbn [fst];
      destruct H as [_ Hr]; [|by eapply same_in_order].
    destruct Hr as (-> & Hv & Hn). intros d'. rewrite Hn, Hv. case_decide; [subst d'|apply Ho].
    destruct (Ho d) as (Hi & H1 & Hf). pose proof (next_in_range d s Hs) as Hr. cbn [below_last next_seq memory_view] in *.
    rewrite wrap_small by (unfold seq_in_range, seqnum_max, UINT32_MAX in *; lia).
    split; [apply increasing_snoc; [done|]; eapply Forall_impl; [exact Hf|]; cbn; lia|]. split; [lia|].
    apply Forall_app. split; [|by apply Forall_singleton; cbn; lia].
    eapply Forall_impl; [exact Hf|]. cbn. lia.
  - pose proof (ms_next_seqnum_spec e d inc s Hs) as H. destruct (ms_next_seqnum e d inc s) as [s' [n|x]]; cbn [fst];
      destruct H as [_ Hr]; [|by eapply same_in_order].
    destruct Hr as (-> & _ & Hv & Hn). intros d'. rewrite Hn, Hv. destruct (Ho d') as (Hi & H1 & Hf).
    case_decide; [subst d'|done]. destruct inc; [|done]. split; [done|]. split; [lia|].
    eapply Forall_impl; [exact Hf|]. cbn. lia.
  - unfold ms_reset. destruct (me_posted e), (me_locked e); try done. by apply Hcl.
  - unfold ms_reset_to. destruct (reset_to_targets_valid a b) eqn:Ev; [|done]. apply targets_valid in Ev.
    destruct (me_posted e), (me_locked e); try done. apply Hcl; lia.
Qed.

Lemma run_in_order ops s : ms_ok s -> in_order s -> Forall below_last ops ->
  ms_ok (run_memory ops s) /\ in_order (run_memory ops s).
Proof.
  intros Hs Ho Hb. unfold run_memory. revert s Hs Ho.
  induction Hb as [|o ops Hb _ IH]; intros s Hs Ho; [done|]. cbn [fold_left].
  apply IH; [by apply memory_step_ok|by apply in_order_step].
Qed.

(** ** A fresh store, and a store in use *)

Lemma memory_store_new_ok c raw : cfg_ok c ->
  zlen raw = (inbound_capacity c + outbound_capacity c) * max_frame_bytes c ->
  ms_ok (memory_store_new c raw) /\ contiguous (memory_store_new c raw).
Proof.
  intros Hc Hr. split; [|by intros []]. unfold ms_ok, memory_store_new. cbn [cfg_ generation_].
  split_and!; [done|lia..| |].
  - intros []; cbn; (split; [|done]); unfold seq_in_range, seqnum_min, seqnum_max, UINT32_MAX; lia.
  - destruct (policy c) eqn:Ep.
    + unfold bounded_ok. cbn [cfg_ slab_]. rewrite decide_True by done.
      destruct Hc as (? & ? & ? & ? & ?).
      split; [done|]. intros []; cbn; (split; [|done]); change (zlen (@nil Entry)) with 0; lia.
    + by intros [] i e.
Qed.

Lemma new_in_order c raw : in_order (memory_store_new c raw).
Proof. intros []; (split; [apply SSorted_nil|]); (split; [cbn; unfold seqnum_min; lia|apply Forall_nil_2]). Qed.

(** Five slots of four bytes; two frames sent, one received number counted. *)
Definition sample_config : Config := mkConfig bounded 2 3 4.
Definition sample_ops : list memory_op :=
  [MStore (calm true) 1 [65; 66] outbound; MNext (calm true) inbound true; MStore (calm false) 2 [67] outbound;
   MStore (calm true) 2 [68; 69; 70; 71] outbound].
Definition sample_new : MemoryStore := memory_store_new sample_config (replicate 20 255).
Definition sample_store : MemoryStore := run_memory sample_ops sample_new.

Lemma sample_new_ok : ms_ok sample_new /\ contiguous sample_new.
Proof. apply memory_store_new_ok; [unfold cfg_ok; cbn; lia|done]. Qed.

Lemma sample_store_ok : ms_ok sample_store.
Proof. exact (proj1 (run_memory_keeps sample_ops sample_new (proj1 sample_new_ok))). Qed.

(** A visitor that notes what it is shown, stores a frame at the first and resets the store
    at the second. *)
Definition sample_visitor (v : list (seqnum_t * bytes)) (n : seqnum_t) (f : bytes)
    (s : MemoryStore) : list (seqnum_t * bytes) * MemoryStore * visit_outcome :=
  (v ++ [(n, f)],
   run_memory (if n =? 1 then [MStore (calm true) 3 [72] outbound]
               else [MReset (calm true); MStore (calm true) 1 [73] outbound]) s, Visited cont).

Lemma sample_visitor_honest v n f s : exists ops,
  clear_count ops < 2 ^ 64 /\ (sample_visitor v n f s).1.2 = run_memory ops s.
Proof.
  exists (if n =? 1 then [MStore (calm true) 3 [72] outbound]
     else [MReset (calm true); MStore (calm true) 1 [73] outbound]).
  split; [|done]. destruct (n =? 1); vm_compute; done.
Qed.

(** Why a walk is refused before it shows anything. *)
Definition refused_walk (locked : bool) (al : walk_allocs) (c : Config) (begin end_ tail : seqnum_t)
    (r : result failure unit) : Prop :=
  (begin = 0 /\ r = Err (Returned store_seqnum_invalid)) \/
  (0 < end_ < begin /\ r = Err (Returned store_invalid_range)) \/
  (1 <= begin /\ ~ 0 < end_ < begin /\ locked = false /\ r = Err (Returned store_cancelled)) \/
  (1 <= begin <= tail /\
   (wa_snapshots al (tail - begin + 1) = false \/
    policy c = unbounded /\ wa_copy al (u64 ((tail - begin + 1) * max_frame_bytes c)) = false) /\
   r = Err (Thrown bad_alloc)).

Definition walk_room : walk_allocs := WalkAllocs (fun _ => true) (fun _ => true).

(** ** Properties *)

(** C39: Call for call, the in-memory store does what the contract's store does: the same
    answer, the same frames under the same numbers, the same counters; its one-step
    [reset_to] does what the inherited three-step one does.  Only a frame it has no room
    for, or no memory, and a call whose leading post is cancelled are refused beyond the
    contract, and then nothing changes.  Slots never overlap, so no stored frame is ever
    damaged by another. *)
Theorem memory_store_refines_log (o : memory_op) (s : MemoryStore) (l : log_store) :
  ms_ok s -> agrees s l ->
  ms_ok (memory_step o s) /\
  ((memory_result o s = replied (log_result o l) /\ agrees (memory_step o s) (log_step o l)) \/
   ((no_room o s \/ cut_short o s) /\ agrees (memory_step o s) l)).
Proof.
  intros Hs Ha. split; [by apply memory_step_ok|].
  assert (Hn : forall d, lg_next l d = next_seq_for d s) by (intros d; destruct (Ha d); done).
  destruct o as [e n f d|e d inc|e|e a b]; unfold cut_short, no_room, env_of.
  - pose proof (ms_store_spec e n f d s Hs) as Hr.
    cbn [memory_step memory_result log_step log_result]. rewrite zlen_view.
    unfold ms_store in Hr |- *. cbn [store log_message_store]. rewrite Hn.
    assert (Hsame : forall s', same_view s s' -> agrees s' l).
    { intros s' H d'. destruct (H d') as [Hv Hx]. cbn [next_seq memory_view] in Hx. rewrite Hv, Hx. apply Ha. }
    destruct (me_posted e); cbn [negb] in *; [|right; split; [by right|done]].
    destruct (negb (me_locked e)); [by left|]. destruct (negb (n =? next_seq_for d s)); [by left|].
    destruct (bool_decide _ && _) eqn:Ecap.
    { apply andb_prop in Ecap as [Ep Ecap]. apply bool_decide_eq_true in Ep.
      right. split; [left; left; split_and!; [done|done|lia]|done]. }
    destruct (_ <? zlen f) eqn:Ef; [right; split; [left; right; left; split; [done|lia]|done]|].
    assert (Hdone : forall s', ms_ok s' /\ n = next_seq s d /\
      (forall d', view s' d' = if decide (d' = d) then view s d ++ [(n, f)] else view s d') /\
      (forall d', next_seq s' d' = if decide (d' = d) then u32 (n + 1) else next_seq s d') ->
      agrees s' (mkLog (on_direction (lg_frames l) d (lg_frames l d ++ [(n, f)]))
        (on_direction (lg_next l) d (u32 (n + 1))))).
    { intros s' (_ & _ & Hv & Hnx) d'. pose proof (Hnx d') as Hnx'. cbn [next_seq memory_view] in Hnx'.
      rewrite Hv, Hnx'. cbn [lg_frames lg_next]. unfold on_direction. destruct (Ha d') as [-> ->].
      destruct (Ha d) as [-> _]. done. }
    destruct (policy (cfg_ s)) eqn:Ep; [left; split; [done|by apply Hdone]|].
    destruct (me_grow_slab e); cbn [negb] in *; [|right; split; [left; right; right; done|done]].
    destruct (me_grow_entries e); cbn [negb] in *.
    + left. split; [done|by apply Hdone].
    + right. split; [left; right; right; done|]. exact (Hsame _ (proj2 Hr)).
  - cbn [memory_step memory_result log_step log_result]. unfold ms_next_seqnum.
    cbn [next_seqnum log_message_store]. rewrite Hn.
    destruct (me_posted e); cbn [negb]; [left|right; split; [by right|done]].
    destruct (negb (me_locked e)); [done|]. destruct inc; [|done].
    destruct (next_seq_for d s =? seqnum_max) eqn:Em; [done|]. split; [done|].
    intros d'. cbn [fst]. rewrite set_counter_view. destruct (Ha d') as [-> Hq].
    destruct (set_counter_fields d (u32 (next_seq_for d s + 1)) s) as (_ & _ & _ & _ & _ & ->).
    cbn [lg_frames lg_next]. unfold on_direction. rewrite Hq. split; [done|].
    case_decide; [|done]. apply wrap_small. pose proof (next_in_range d s Hs).
    unfold seq_in_range, seqnum_max, UINT32_MAX in *. lia.
  - cbn [memory_step memory_result log_step log_result]. unfold ms_reset.
    destruct (me_posted e); cbn [negb]; [left|right; split; [by right|done]].
    cbn [reset log_message_store]. destruct (negb (me_locked e)); [done|]. split; [done|]. by intros [].
  - cbn [memory_step memory_result log_step log_result]. unfold ms_reset_to, default_reset_to.
    destruct (reset_to_targets_valid a b) eqn:Ev; cbn [negb]; [|by left].
    destruct (me_posted e); cbn [negb]; [left|right; split; [by right|done]].
    cbn [reset next_seqnum log_message_store negb]. destruct (me_locked e); [|done]. cbn [negb].
    apply targets_valid in Ev as [[-> | ->] [-> | ->]]; (split; [done|]); by intros [].
Qed.

Lemma memory_store_refines_log_witness :
  let l := mkLog (view sample_store) (fun d => next_seq_for d sample_store) in
  memory_result (MResetTo (calm true) 2 1) sample_store = replied (log_result (MResetTo (calm true) 2 1) l) /\
  agrees (memory_step (MResetTo (calm true) 2 1) sample_store) (log_step (MResetTo (calm true) 2 1) l).
Proof.
  intros l.
  destruct (memory_store_refines_log (MResetTo (calm true) 2 1) sample_store l sample_store_ok
    (fun d => conj eq_refl eq_refl)) as [_ [H|[[[]|[_ H]] _]]]; [exact H|discriminate H].
Defined.

(** C40: A walk hands the visitor exactly the frames held, when it began, under [begin],
    [begin + 1] and so on, up to the end of the range or to the first number that is out of
    reach, which is then reported as a gap; and this whatever the visitor does to the store
    while it is suspended.  A number is in reach when it and every number from the oldest
    frame held up to it has a frame: in a store whose numbers were never skipped that is
    every number held ([stored_is_in_reach]), behind a skipped one it is none
    ([skipped_number_hides_frame]).  If the visitor resets the store the walk fails closed
    before the next frame: no frame of a new life is ever shown under an old number.  A walk
    that is refused, for its range, its lock or its memory, shows nothing.  Every walk ends.
    The store is any that calls can make of a fresh one, refused or cut short anywhere,
    without a frame under the last number of all. *)
Theorem retrieve_exact {V} (on_frame : V -> seqnum_t -> bytes -> MemoryStore ->
      V * MemoryStore * visit_outcome) (abort_error : V -> error) (c : Config) (raw : bytes)
    (ops : list memory_op) (locked : bool) (al : walk_allocs)
    (begin end_ : seqnum_t) (d : direction_t) (v : V) :
  (forall v n f s, exists ops,
     clear_count ops < 2 ^ 64 /\ (on_frame v n f s).1.2 = run_memory ops s) ->
  cfg_ok c -> zlen raw = (inbound_capacity c + outbound_capacity c) * max_frame_bytes c ->
  Forall below_last ops -> 0 <= begin -> 0 <= end_ <= seqnum_max ->
  let s := run_memory ops (memory_store_new c raw) in
  let tail := if end_ =? 0 then next_seq s d - 1 else end_ in
  exists v' s' r, retrieve on_frame abort_error locked al begin end_ d v s = Some (v', s', r) /\
  ((v' = v /\ s' = s /\ refused_walk locked al (cfg_ s) begin end_ tail r) \/
   (locked = true /\ 1 <= begin /\ exists frames gap_hit r0,
     walked (view s d) begin tail frames gap_hit /\
     visit_frames on_frame abort_error frames (generation_ s) gap_hit v s = (v', s', r0) /\ r = replied r0)).
Proof.
  intros Hh Hc Hraw Hops Hb He s tail.
  destruct (run_in_order ops (memory_store_new c raw)) as [Hs Ho]; [by apply memory_store_new_ok|by apply new_in_order|done|].
  fold s in Hs, Ho. clearbody s. clear Hc Hraw Hops ops raw. destruct (Ho d) as (Hinc & Hn1 & Hlt).
  cbn [next_seq memory_view] in Hn1. pose proof (next_in_range d s Hs) as Hnr. unfold seq_in_range in Hnr.
  assert (Hmax : Forall (fun e => seq e < seqnum_max) (entries_for d s)).
  { apply Forall_forall. intros e Hin.
    assert (Hx : held s e ∈ view s d) by (cbn [view memory_view]; by apply list_elem_of_fmap_2).
    apply (proj1 (Forall_forall _ _) Hlt) in Hx. cbn in Hx. lia. }
  unfold retrieve.
  destruct (begin =? 0) eqn:Eb.
  { do 3 eexists. split; [done|]. left. split_and!; [done|done|]. left. split; [lia|done]. }
  destruct (negb (end_ =? 0) && (end_ <? begin)) eqn:Er.
  { do 3 eexists. split; [done|]. left. split_and!; [done|done|]. right; left. split; [lia|done]. }
  destruct locked; cbn [negb].
  2:{ do 3 eexists. split; [done|]. left. split_and!; [done|done|]. right; right; left. split_and!; [lia|lia|done|done]. }
  set (t := if end_ =? 0 then _ else _).
  assert (Ht : t = tail).
  { unfold t, tail, seqnum_min. cbn [next_seq memory_view]. unfold seqnum_max, UINT32_MAX in *.
    destruct (end_ =? 0); [|done]. destruct (next_seq_for d s =? 1) eqn:E; [lia|].
    apply wrap_small. lia. }
  rewrite Ht. assert (Htail : 0 <= tail <= seqnum_max).
  { unfold tail. cbn [next_seq memory_view]. destruct (end_ =? 0); lia. }
  assert (Hend : tail = end_ \/ end_ = 0) by (unfold tail; destruct (end_ =? 0) eqn:E; [right|left]; lia).
  clearbody t tail. clear t Ht.
  destruct ((tail <? begin) || _) eqn:Ee.
  { do 3 eexists. split; [done|]. right. split; [done|]. split; [lia|]. exists [], false, (Ok tt). split; [|done].
    apply walked_nil. unfold seqnum_min in Ee. lia. }
  assert (Hrange : u32 (tail - begin + 1) = tail - begin + 1) by (apply wrap_small; unfold seqnum_max, UINT32_MAX in *; lia).
  cbv zeta. rewrite Hrange. destruct (wa_snapshots al (tail - begin + 1)) eqn:Ea; cbn [negb].
  2:{ do 3 eexists. split; [done|]. left. split_and!; [done|done|]. right; right; right.
      split; [lia|]. split; [by left|done]. }
  destruct (bool_decide _ && _) eqn:Ec.
  { apply andb_prop in Ec as [Ep Ec]. apply bool_decide_eq_true in Ep.
    do 3 eexists. split; [done|]. left. split_and!; [done|done|]. right; right; right.
    split; [lia|]. split; [right; split; [done|by apply negb_true_iff]|done]. }
  destruct (snapshot_walk s d tail (S (S (length (entries_for d s)))) begin [] [] [])
    as (snaps & copy & gap & frames & Hl & Hfa & Hw); [done|done|done|lia|lia| |constructor|].
  { intros front rest _. destruct (Z.lt_ge_cases begin (seq front)); [by left|right].
    unfold zlen. lia. }
  rewrite Hl. cbn [app] in Hfa.
  pose proof (visits_frames on_frame abort_error Hh s d copy snaps frames gap v s Hfa Hs
    eq_refl (fun _ => reflexivity s)) as Hvis.
  destruct (visit_snapshots on_frame abort_error snaps copy (generation_ s) gap v s)
    as [[v' s'] r] eqn:Ev. exists v', s', (replied r). split; [done|]. right. split; [done|]. split; [lia|].
  exists frames, gap, r. by rewrite <- Hvis.
Qed.

Lemma retrieve_exact_witness :
  exists s', retrieve sample_visitor (fun _ => default_abort_error) true walk_room 1 0 outbound []
      (run_memory (sample_ops ++ [MStore (calm true) 3 [74] outbound]) sample_new)
    = Some ([(1, [65; 66]); (2, [68; 69; 70; 71])], s', Err (Returned store_io_failure)).
Proof.
  destruct (retrieve_exact sample_visitor (fun _ => default_abort_error) sample_config (replicate 20 255)
    (sample_ops ++ [MStore (calm true) 3 [74] outbound]) true walk_room 1 0 outbound [] sample_visitor_honest)
    as (v' & s' & r & Hr & _).
  - unfold cfg_ok. cbn. lia.
  - reflexivity.
  - repeat constructor; unfold below_last, seqnum_max, UINT32_MAX; lia.
  - lia.
  - unfold seqnum_max, UINT32_MAX. lia.
  - exists s'. vm_compute in Hr |- *. injection Hr as _ <- _. reflexivity.
Defined.

(** As long as frames are numbered by the direction's own counter, and a counter is
    moved without a frame only where none is held, which is how the session uses a store,
    every frame held is in a walk's reach, whatever resets happened before. *)
Theorem stored_is_in_reach (ops : list memory_op) (s : MemoryStore) :
  ms_ok s -> contiguous s -> run_dense ops s ->
  let s' := run_memory ops s in
  contiguous s' /\ forall d n, in_reach (view s' d) n <-> is_Some (stored_frame (view s' d) n).
Proof.
  intros Hs Hc Hd. cbn.
  assert (Hc' : contiguous (run_memory ops s)).
  { revert s Hs Hc Hd. unfold run_memory. induction ops as [|o ops IH]; intros s Hs Hc Hd; [done|].
    destruct Hd as [Hk Hd]. apply IH; [by apply memory_step_ok| |done]. by apply contiguous_step. }
  split; [done|]. intros d n. by apply contiguous_reach.
Qed.

Lemma stored_is_in_reach_witness :
  in_reach (view (run_memory [MResetTo (calm true) 1 2; MStore (calm true) 2 [75] outbound] sample_store)
    outbound) 2.
Proof.
  destruct (stored_is_in_reach sample_ops sample_new (proj1 sample_new_ok)
    (proj2 sample_new_ok)) as [Hc _].
  { vm_compute. repeat split; discriminate. }
  destruct (stored_is_in_reach [MResetTo (calm true) 1 2; MStore (calm true) 2 [75] outbound] sample_store
    sample_store_ok Hc) as [_ Hr].
  { vm_compute. repeat split; discriminate. }
  apply Hr. vm_compute. by eexists.
Defined.

(** A frame held under its own number, and reported as a gap: the counter was moved once
    without a frame. *)
Theorem skipped_number_hides_frame :
  let s := run_memory [MStore (calm true) 1 [65] outbound; MNext (calm true) outbound true;
             MStore (calm true) 3 [67] outbound] sample_new in
  stored_frame (view s outbound) 3 = Some [67] /\
  match retrieve sample_visitor (fun _ => default_abort_error) true walk_room 3 3 outbound [] s with
  | Some (shown, _, r) => shown = [] /\ r = Err (Returned store_seqnum_gap)
  | None => False
  end.
Proof. vm_compute. repeat split. Qed.
