(* ===== verification/AdminMessages.v ===== *)
(** The administrative messages a session builds and the Logon it reads
    (include/fixpp/session/admin_messages.hpp, src/session/admin_messages.cpp), and the
    SendingTime check (src/session/sending_time.cpp). *)
From S2P Require Import Prelude Errors FixTime TagScan LengthData Writer Framer VersionProfile.
From S2P Require Import FrameHeader OffsetTable Seqnum.

(** ** Building *)

(** [while (v > 0 && pos > 0) { buf[--pos] = '0' + v % 10; v /= 10; }]; [None]: digits left
    over. *)
Fixpoint render_digits (pos : nat) (v : Z) (acc : bytes) : option bytes :=
  if v =? 0 then Some acc
  else match pos with
       | O => None
       | S pos => render_digits pos (v / 10) (48 + v mod 10 :: acc)
       end.

(** [render_u32]: the digits of [v] at the end of a buffer of [n] bytes; empty when they do
    not fit. *)
Definition admin_render_u32 (v : Z) (n : nat) : bytes :=
  match n with
  | O => []
  | _ => if v =? 0 then [48] else default [] (render_digits n v [])
  end.

(** One field of a message under construction: its tag, and its value or the error that
    stops the build before the field is appended. *)
Definition field_src : Type := Z * expected bytes.

Definition raw (tag : Z) (value : bytes) : field_src := (tag, Ok value).

(** A number, rendered in a 12-byte buffer. *)
Definition num (tag v : Z) : field_src :=
  (tag, match admin_render_u32 (u32 v) 12 with
        | [] => Err wire_field_value_truncated
        | sv => Ok sv
        end).

Fixpoint append_fields (w : writer) (fs : list field_src) : expected unit * writer :=
  match fs with
  | [] => (Ok tt, w)
  | (tag, Err e) :: fs => (Err e, w)
  | (tag, Ok v) :: fs =>
      match append_raw w tag v with
      | (Ok _, w) => append_fields w fs
      | (Err e, w) => (Err e, w)
      end
  end.

(** A writer over [out], the fields, [commit], [out.subspan(0, *committed)]. *)
Definition build_frame (out : bytes) (fs : list field_src) : expected bytes :=
  match append_fields (writer_init out) fs with
  | (Err e, _) => Err e
  | (Ok _, w) =>
      match commit w with
      | (Err e, _) => Err e
      | (Ok n, w) => Ok (ztake n (w_dst w))
      end
  end.

(** The six fields every builder starts with. *)
Definition admin_header (begin_string : bytes) (type : Z) (seq : seqnum_t)
    (sender target sending_time : bytes) : list field_src :=
  [raw 8 begin_string; raw 35 [type]; num 34 seq; raw 49 sender; raw 52 sending_time; raw 56 target].

(** [if (c) { append... }] *)
Definition when (c : bool) (fs : list field_src) : list field_src := if c then fs else [].
Definition when_some {A} (o : option A) (f : A -> list field_src) : list field_src :=
  match o with Some a => f a | None => [] end.
Definition non_empty (s : bytes) : bool := negb (zlen s =? 0).

(** [off_enum]: a value outside the enumerators, which a cast can make. *)
Inductive msg_direction : Set := send | receive | off_enum.

#[export] Instance msg_direction_eq_dec : EqDecision msg_direction.
Proof. solve_decision. Defined.

Record supported_msg_type := SupportedMsgType {
  smt_direction : msg_direction;
  smt_msg_type : bytes }.

Record logon_advertise_options := AdvertiseOptions {
  opt_max_message_size : option Z;
  opt_test_message_indicator : bool;
  opt_supported_msg_types : list supported_msg_type }.

Definition direction_char (d : msg_direction) : Z :=
  match d with send => 83 | receive => 82 | off_enum => 0 end.

(** 385, or the refusal of an off-enum direction. *)
Definition direction_field (d : msg_direction) : field_src :=
  (385, if direction_char d =? 0 then Err invalid_session_config else Ok [direction_char d]).

Definition build_logon (out : bytes) (seq : seqnum_t) (sender target begin_string : bytes)
    (heartbt_int : Z) (sending_time : bytes) (reset_seqnum : bool)
    (next_expected_seq : option seqnum_t) (default_appl_ver_id : option application_version)
    (username password : option bytes) (opts : logon_advertise_options) : expected bytes :=
  build_frame out
    (admin_header begin_string 65 seq sender target sending_time ++
     [raw 98 [48]; num 108 (if heartbt_int <? 0 then 0 else heartbt_int)] ++
     when_some default_appl_ver_id (fun v => [(1137, render_appl_ver_id v)]) ++
     when_some username (fun u => [raw 553 u]) ++
     when_some password (fun p => [raw 554 p]) ++
     when reset_seqnum [raw 141 [89]] ++
     when_some next_expected_seq (fun n => [num 789 n]) ++
     when_some (opt_max_message_size opts) (fun n => [num 383 n]) ++
     when (negb (zlen (opt_supported_msg_types opts) =? 0))
       (num 384 (zlen (opt_supported_msg_types opts)) ::
        concat (map (fun e => [raw 372 (smt_msg_type e); direction_field (smt_direction e)])
                  (opt_supported_msg_types opts))) ++
     when (opt_test_message_indicator opts) [raw 464 [89]]).

Definition build_logout (out : bytes) (seq : seqnum_t) (sender target text begin_string
    sending_time : bytes) : expected bytes :=
  build_frame out (admin_header begin_string 53 seq sender target sending_time ++
    when (non_empty text) [raw 58 text]).

Definition build_heartbeat (out : bytes) (seq : seqnum_t) (sender target test_req_id begin_string
    sending_time : bytes) : expected bytes :=
  build_frame out (admin_header begin_string 48 seq sender target sending_time ++
    when (non_empty test_req_id) [raw 112 test_req_id]).

Definition build_test_request (out : bytes) (seq : seqnum_t) (sender target test_req_id
    begin_string sending_time : bytes) : expected bytes :=
  build_frame out (admin_header begin_string 49 seq sender target sending_time ++
    [raw 112 test_req_id]).

Definition build_reject_with_text (out : bytes) (seq : seqnum_t) (sender target : bytes)
    (ref_seq_num : seqnum_t) (ref_tag_id : Z) (ref_msg_type : bytes) (session_reject_reason : Z)
    (begin_string sending_time text : bytes) : expected bytes :=
  build_frame out (admin_header begin_string 51 seq sender target sending_time ++
    [num 45 ref_seq_num] ++
    when (0 <? ref_tag_id) [num 371 ref_tag_id] ++
    when (non_empty ref_msg_type) [raw 372 ref_msg_type] ++
    [num 373 (if session_reject_reason <? 0 then 0 else session_reject_reason)] ++
    when (non_empty text) [raw 58 text]).

Definition build_reject (out : bytes) (seq : seqnum_t) (sender target : bytes)
    (ref_seq_num : seqnum_t) (ref_tag_id : Z) (ref_msg_type : bytes) (session_reject_reason : Z)
    (begin_string sending_time : bytes) : expected bytes :=
  build_reject_with_text out seq sender target ref_seq_num ref_tag_id ref_msg_type
    session_reject_reason begin_string sending_time [].

Definition build_business_message_reject (out : bytes) (seq : seqnum_t) (sender target : bytes)
    (ref_seq_num : seqnum_t) (ref_msg_type : bytes) (business_reject_reason : Z)
    (begin_string sending_time : bytes) : expected bytes :=
  build_frame out (admin_header begin_string 106 seq sender target sending_time ++
    [num 45 ref_seq_num] ++
    when (non_empty ref_msg_type) [raw 372 ref_msg_type] ++
    [num 380 (if business_reject_reason <? 0 then 0 else business_reject_reason)]).

Definition build_resend_request (out : bytes) (seq : seqnum_t) (sender target : bytes)
    (begin_seqno end_seqno : seqnum_t) (begin_string sending_time : bytes) : expected bytes :=
  build_frame out (admin_header begin_string 50 seq sender target sending_time ++
    [num 7 begin_seqno; num 16 end_seqno]).

Definition build_sequence_reset_gapfill (out : bytes) (seq : seqnum_t) (sender target : bytes)
    (new_seqno : seqnum_t) (begin_string sending_time : bytes) : expected bytes :=
  build_frame out (admin_header begin_string 52 seq sender target sending_time ++
    [raw 43 [89]; raw 122 sending_time; num 36 new_seqno; raw 123 [89]]).

(** ** Reading a Logon *)

(** HeartBtInt's digit loop over an [int]: -1 at a non-digit; [None] when the [int]
    overflows, which the language leaves undefined. *)
Fixpoint parse_heartbt (val : bytes) (v : Z) : option Z :=
  match val with
  | [] => Some v
  | ch :: val =>
      if (ch <? 48) || (57 <? ch) then Some (-1)
      else
        let v := v * 10 + (ch - 48) in
        if 2147483647 <? v then None else parse_heartbt val v
  end.

Record logon_found := LogonFound {
  lf_begin_string : bytes;
  lf_msg_type : bytes;
  lf_sender : bytes;
  lf_target : bytes;
  lf_heartbt_int : Z;
  lf_has_heartbt : bool;
  lf_default_appl_ver_id : option bytes;
  lf_username : option bytes;
  lf_password : option bytes;
  lf_invalid_encrypt_method_seen : bool }.

Definition logon_found_init : logon_found :=
  LogonFound [] [] [] [] (-1) false None None None false.

(** [switch (tag)]; [None] is the undefined overflow of HeartBtInt. *)
Definition logon_field (tag : Z) (val : bytes) (f : logon_found) : option logon_found :=
  let '(LogonFound bs mt sn tg hb has av us pw enc) := f in
  if tag =? 8 then Some (LogonFound val mt sn tg hb has av us pw enc)
  else if tag =? 35 then Some (LogonFound bs val sn tg hb has av us pw enc)
  else if tag =? 49 then Some (LogonFound bs mt val tg hb has av us pw enc)
  else if tag =? 56 then Some (LogonFound bs mt sn val hb has av us pw enc)
  else if tag =? 108 then
    match parse_heartbt val 0 with
    | None => None
    | Some v => Some (LogonFound bs mt sn tg v true av us pw enc)
    end
  else if tag =? 98 then
    Some (LogonFound bs mt sn tg hb has av us pw (enc || negb (bool_decide (val = [48]))))
  else if tag =? 1137 then Some (LogonFound bs mt sn tg hb has (Some val) us pw enc)
  else if tag =? 553 then Some (LogonFound bs mt sn tg hb has av (Some val) pw enc)
  else if tag =? 554 then Some (LogonFound bs mt sn tg hb has av us (Some val) enc)
  else Some f.

(** The tag loop: the tag and the offset of '=', or the offset the scan stopped at. *)
Fixpoint logon_tag_loop (p : bytes) (i tag : Z) : Z * option Z :=
  match p with
  | [] => (i, None)
  | c :: p =>
      if (c =? EQ) then (i, Some tag)
      else if (c =? SOH) || (c <? 48) || (57 <? c) then (i, None)
      else
        let '(ok, tag) := accumulate_tag_digit tag c in
        if ok then logon_tag_loop p (i + 1) tag else (i, None)
  end.

(** The while loop; every round consumes a byte. *)
Fixpoint interpret_loop (fuel : nat) (hooks : dict_hooks) (frame : bytes) (i : Z)
    (carry : length_data_carry) (f : logon_found) : option (expected logon_found) :=
  match fuel with
  | O => Some (Ok f)
  | S fuel =>
      if zlen frame <=? i then Some (Ok f)
      else
        match logon_tag_loop (zdrop i frame) i 0 with
        | (j, None) =>
            interpret_loop fuel hooks frame (skip_soh frame (soh_from (zdrop j frame) j))
              (carry_reset carry) f
        | (j, Some tag) =>
            let vstart := j + 1 in
            match read_value hooks carry frame vstart (u16 tag) with
            | (None, _) => Some (Err session_invalid_logon)
            | (Some ext, carry) =>
                match logon_field tag (zsub frame vstart (ve_end ext - vstart)) f with
                | None => None
                | Some f =>
                    let i := ve_end ext in
                    let i := if (i <? zlen frame) && (zget frame i =? SOH) then i + 1 else i in
                    interpret_loop fuel hooks frame i carry f
                end
            end
        end
  end.

Record logon_interpret_result := InterpretResult {
  lr_heartbt_int : Z;
  lr_default_appl_ver_id : option bytes;
  lr_username : option bytes;
  lr_password : option bytes }.

(** [None]: the run overflows an [int]. *)
Definition interpret_logon (frame expected_sender expected_target expected_begin : bytes)
    (hooks : dict_hooks) : option (expected logon_interpret_result) :=
  match interpret_loop (length frame) hooks frame 0 carry_init logon_found_init with
  | None => None
  | Some (Err e) => Some (Err e)
  | Some (Ok f) =>
      Some (
        if negb (bool_decide (lf_msg_type f = [65])) then Err session_invalid_logon
        else if negb (bool_decide (lf_begin_string f = expected_begin)) then
          Err session_begin_string_unsupported
        else if negb (bool_decide (lf_sender f = expected_sender)) then Err session_compid_mismatch
        else if negb (bool_decide (lf_target f = expected_target)) then Err session_compid_mismatch
        else if negb (lf_has_heartbt f) || (lf_heartbt_int f <? 0) then Err session_invalid_logon
        else if lf_invalid_encrypt_method_seen f then Err session_invalid_logon
        else Ok (InterpretResult (lf_heartbt_int f) (lf_default_appl_ver_id f) (lf_username f)
                   (lf_password f)))
  end.

(** ** check_sending_time *)

(** The instants are nanosecond counts, the latency seconds, all [int64_t]. *)
Definition check_sending_time (in_ns now_ns max_latency : Z) : expected unit :=
  if max_latency <? 0 then Err session_sending_time_accuracy
  else
    let hi := Z.max in_ns now_ns in
    let lo := Z.min in_ns now_ns in
    let delta_ns := u64 (u64 hi - u64 lo) in
    let kNsPerSec := 1000000000 in
    let max_s := u64 max_latency in
    let max_ns := if UINT64_MAX / kNsPerSec <? max_s then UINT64_MAX else u64 (max_s * kNsPerSec) in
    if max_ns <? delta_ns then Err session_sending_time_accuracy else Ok tt.

(** ** Rendering *)

Lemma render_digits_fixed k : forall p v acc, (k <= p)%nat -> 0 <= v ->
  v < 10 ^ Z.of_nat k -> (k <> O -> 10 ^ (Z.of_nat k - 1) <= v) ->
  render_digits p v acc = Some (fixed_digits k v ++ acc).
Proof.
  induction k as [|k IH]; intros p v acc Hp H0 Hv Hk.
  - change (10 ^ Z.of_nat 0) with 1 in Hv. assert (v = 0) as -> by lia. by destruct p.
  - destruct p as [|p]; [lia|]. cbn [render_digits fixed_digits].
    specialize (Hk ltac:(done)). rewrite Nat2Z.inj_succ, Z.pow_succ_r in Hv by lia.
    replace (Z.of_nat (S k) - 1) with (Z.of_nat k) in Hk by lia.
    assert (0 < 10 ^ Z.of_nat k) by (apply Z.pow_pos_nonneg; lia).
    replace (v =? 0) with false by lia. rewrite IH; [by rewrite <- app_assoc|lia|dlia|dlia|].
    intros Hk0. replace (Z.of_nat k) with (Z.of_nat k - 1 + 1) in Hk by lia.
    rewrite Z.pow_add_r in Hk by lia. change (10 ^ 1) with 10 in Hk.
    apply Z.div_le_lower_bound; lia.
Qed.

Lemma admin_render_spec v : 0 <= v <= UINT32_MAX -> admin_render_u32 v 12 = dec_text v.
Proof.
  intros Hv. unfold admin_render_u32. destruct (v =? 0) eqn:E.
  - assert (v = 0) as -> by lia. done.
  - destruct (digit_count_spec v Hv) as (Hc & Hhi & Hlo).
    rewrite (render_digits_fixed (digit_count v)); [|lia|lia|lia|intros _; lia].
    cbn [default]. apply app_nil_r.
Qed.

Lemma num_spec tag v : 0 <= v <= UINT32_MAX -> num tag v = raw tag (dec_text v).
Proof.
  intros Hv. unfold num, raw. rewrite wrap_small by (unfold UINT32_MAX in *; lia).
  rewrite admin_render_spec by done. pose proof (dec_text_nonempty v Hv).
  destruct (dec_text v) eqn:E; [|done]. rewrite zlen_nilZ in *. lia.
Qed.

Definition raws (fs : list (Z * bytes)) : list field_src := map (fun f => raw f.1 f.2) fs.

Lemma append_raws w fs : append_fields w (raws fs) = append_all w fs.
Proof.
  revert w. induction fs as [|[t v] fs IH]; intros w; cbn; [done|].
  destruct (append_raw w t v) as [[] w']; [apply IH|done].
Qed.

(** The frame when it fits, an error otherwise. *)
Lemma build_frame_spec out begin_string fs :
  zlen out <= UINT32_MAX -> Forall (fun f => 0 <= f.1 <= 0xFFFF) fs ->
  let text := frame_text begin_string fs in
  build_frame out (raws ((8, begin_string) :: fs)) =
    if (zlen text <=? zlen out) && (zlen (fields_bytes fs) <=? 999999) then Ok text
    else Err (if (999999 <? zlen (fields_bytes fs)) &&
                 (zlen (field_text 8 begin_string) + 9 + zlen (fields_bytes fs) <=? zlen out)
              then wire_frame_too_large else wire_field_value_truncated).
Proof.
  intros Ho Hf text. pose proof (write_message_outcome out begin_string fs Ho Hf) as H.
  cbn zeta in H. fold text in H. unfold build_frame. rewrite append_raws.
  unfold write_message in H. destruct (_ && _).
  - destruct H as (w & rest & H & Hw & _).
    destruct (append_all _ _) as [[] w1]; [|done]. rewrite H, Hw. by rewrite ztake_app.
  - destruct H as (w & H). destruct (append_all _ _) as [[] w1]; [by rewrite H|].
    by injection H as ->.
Qed.

(** ** What each message says *)

Inductive admin_message : Type :=
  | AdmLogon (heartbt_int : Z) (reset_seqnum : bool) (next_expected : option seqnum_t)
      (appl : option application_version) (username password : option bytes)
      (opts : logon_advertise_options)
  | AdmLogout (text : bytes)
  | AdmHeartbeat (test_req_id : bytes)
  | AdmTestRequest (test_req_id : bytes)
  | AdmReject (ref_seq : seqnum_t) (ref_tag : Z) (ref_type : bytes) (reason : Z) (text : option bytes)
  | AdmBusinessReject (ref_seq : seqnum_t) (ref_type : bytes) (reason : Z)
  | AdmResendRequest (begin_seqno end_seqno : seqnum_t)
  | AdmGapFill (new_seqno : seqnum_t).

(** The builder of each message; a Reject without a text argument is [build_reject]'s. *)
Definition build_admin (m : admin_message) (out : bytes) (seq : seqnum_t)
    (sender target begin_string sending_time : bytes) : expected bytes :=
  match m with
  | AdmLogon hb rs ne av us pw op =>
      build_logon out seq sender target begin_string hb sending_time rs ne av us pw op
  | AdmLogout text => build_logout out seq sender target text begin_string sending_time
  | AdmHeartbeat id => build_heartbeat out seq sender target id begin_string sending_time
  | AdmTestRequest id => build_test_request out seq sender target id begin_string sending_time
  | AdmReject rs rt ty rr tx =>
      match tx with
      | None => build_reject out seq sender target rs rt ty rr begin_string sending_time
      | Some tx =>
          build_reject_with_text out seq sender target rs rt ty rr begin_string sending_time tx
      end
  | AdmBusinessReject rs ty rr =>
      build_business_message_reject out seq sender target rs ty rr begin_string sending_time
  | AdmResendRequest b e =>
      build_resend_request out seq sender target b e begin_string sending_time
  | AdmGapFill n => build_sequence_reset_gapfill out seq sender target n begin_string sending_time
  end.

Definition admin_type (m : admin_message) : Z :=
  match m with
  | AdmLogon _ _ _ _ _ _ _ => 65 | AdmLogout _ => 53 | AdmHeartbeat _ => 48
  | AdmTestRequest _ => 49 | AdmReject _ _ _ _ _ => 51 | AdmBusinessReject _ _ _ => 106
  | AdmResendRequest _ _ => 50 | AdmGapFill _ => 52
  end.

Definition opt_field (tag : Z) (o : option bytes) : list (Z * bytes) :=
  match o with Some v => [(tag, v)] | None => [] end.
Definition text_field (tag : Z) (v : bytes) : list (Z * bytes) :=
  if non_empty v then [(tag, v)] else [].
Definition flag_field (tag : Z) (b : bool) : list (Z * bytes) := if b then [(tag, [89])] else [].

(** ApplVerID as FIX numbers the versions: FIX.4.0 is 2, one more each, the latest 10. *)
Definition appl_text (v : application_version) : bytes :=
  match v with
  | av_v40 => dec_text 2 | av_v41 => dec_text 3 | av_v42 => dec_text 4 | av_v43 => dec_text 5
  | av_v44 => dec_text 6 | av_v50 => dec_text 7 | av_v50sp1 => dec_text 8
  | av_v50sp2 => dec_text 9 | av_vlatest => dec_text 10
  | av_Unknown => []
  end.

(** MsgDirection: S sends, R receives. *)
Definition direction_text (d : msg_direction) : bytes :=
  match d with send => [83] | receive => [82] | off_enum => [] end.

(** The fields of its body behind the six of the header. *)
Definition admin_body (m : admin_message) (sending_time : bytes) : list (Z * bytes) :=
  match m with
  | AdmLogon hb rs ne av us pw op =>
      [(98, [48]); (108, dec_text (Z.max hb 0))] ++
      opt_field 1137 (appl_text <$> av) ++ opt_field 553 us ++ opt_field 554 pw ++
      flag_field 141 rs ++ opt_field 789 (dec_text <$> ne) ++
      opt_field 383 (dec_text <$> opt_max_message_size op) ++
      (match opt_supported_msg_types op with
       | [] => []
       | l => (384, dec_text (zlen l)) ::
              concat (map (fun e => [(372, smt_msg_type e); (385, direction_text (smt_direction e))]) l)
       end) ++
      flag_field 464 (opt_test_message_indicator op)
  | AdmLogout text => text_field 58 text
  | AdmHeartbeat id => text_field 112 id
  | AdmTestRequest id => [(112, id)]
  | AdmReject rs rt ty rr tx =>
      (45, dec_text rs) :: (if 0 <? rt then [(371, dec_text rt)] else []) ++ text_field 372 ty ++
      (373, dec_text (Z.max rr 0)) :: text_field 58 (default [] tx)
  | AdmBusinessReject rs ty rr =>
      (45, dec_text rs) :: text_field 372 ty ++ [(380, dec_text (Z.max rr 0))]
  | AdmResendRequest b e => [(7, dec_text b); (16, dec_text e)]
  | AdmGapFill n => [(43, [89]); (122, sending_time); (36, dec_text n); (123, [89])]
  end.

Definition admin_fields (m : admin_message) (seq : seqnum_t) (sender target sending_time : bytes)
  : list (Z * bytes) :=
  (35, [admin_type m]) :: (34, dec_text seq) :: (49, sender) :: (52, sending_time) ::
  (56, target) :: admin_body m sending_time.

Definition is_u32 (v : Z) : Prop := 0 <= v <= UINT32_MAX.
Definition is_int (v : Z) : Prop := -2147483648 <= v <= 2147483647.

(** The numbers are values of their types. *)
Definition admin_ok (m : admin_message) : Prop :=
  match m with
  | AdmLogon hb _ ne av _ _ op =>
      is_int hb /\ from_option is_u32 True ne /\
      from_option is_u32 True (opt_max_message_size op) /\
      zlen (opt_supported_msg_types op) <= UINT32_MAX
  | AdmReject rs rt _ rr _ => is_u32 rs /\ is_int rt /\ is_int rr
  | AdmBusinessReject rs _ rr => is_u32 rs /\ is_int rr
  | AdmResendRequest b e => is_u32 b /\ is_u32 e
  | AdmGapFill n => is_u32 n
  | _ => True
  end.

(** A Logon names a version that exists, and directions that do. *)
Definition admin_proper (m : admin_message) : bool :=
  match m with
  | AdmLogon _ _ _ av _ _ op =>
      negb (bool_decide (av = Some av_Unknown)) &&
      forallb (fun e => negb (bool_decide (smt_direction e = off_enum))) (opt_supported_msg_types op)
  | _ => true
  end.

Lemma raws_app a b : raws (a ++ b) = raws a ++ raws b.
Proof. apply map_app. Qed.

Lemma raws_supported l :
  forallb (fun e => negb (bool_decide (smt_direction e = off_enum))) l = true ->
  concat (map (fun e => [raw 372 (smt_msg_type e); direction_field (smt_direction e)]) l)
  = raws (concat (map (fun e => [(372, smt_msg_type e); (385, direction_text (smt_direction e))]) l)).
Proof.
  induction l as [|e l IH]; [done|]. cbn [forallb]. rewrite andb_true_iff. intros [He Hl].
  cbn [map concat app raws fst snd] in *. rewrite IH by done. do 2 f_equal.
  by destruct (smt_direction e).
Qed.

Lemma appl_text_spec v : v <> av_Unknown -> render_appl_ver_id v = Ok (appl_text v).
Proof. by destruct v. Qed.

(** A field that is no value stops the build. *)
Lemma append_fields_stops w fs : Exists (fun f => is_ok f.2 = false) fs ->
  is_ok (append_fields w fs).1 = false.
Proof.
  intros H. revert w. induction H as [[t v] fs Hv|[t v] fs _ IH]; intros w; cbn [append_fields].
  - by destruct v.
  - destruct v as [v|]; [|done]. destruct (append_raw w t v) as [[] w']; [apply IH|done].
Qed.

Lemma build_frame_stops out fs : Exists (fun f => is_ok f.2 = false) fs ->
  is_ok (build_frame out fs) = false.
Proof.
  intros H. apply (append_fields_stops (writer_init out)) in H. unfold build_frame.
  by destruct (append_fields _ _) as [[] w].
Qed.

Lemma improper_stops m out seq sender target begin_string sending_time :
  admin_proper m = false -> is_ok (build_admin m out seq sender target begin_string sending_time) = false.
Proof.
  destruct m as [hb rs ne av us pw op|text|id|id|rs rt ty rr tx|rs ty rr|b e|n]; try done.
  cbn [admin_proper build_admin]. intros H. apply build_frame_stops.
  rewrite !Exists_app. right. right. apply andb_false_iff in H as [H|H].
  - left. apply negb_false_iff, bool_decide_eq_true in H as ->. by left.
  - do 6 right. left. set (l := opt_supported_msg_types op) in *.
    assert (He : exists e, e ∈ l /\ smt_direction e = off_enum).
    { induction l as [|e l IH]; [done|]. cbn [forallb] in H. apply andb_false_iff in H as [H|H].
      - apply negb_false_iff, bool_decide_eq_true in H. exists e. split; [left|done].
      - destruct (IH H) as (x & ? & ?). exists x. split; [by right|done]. }
    destruct He as (e & He & Hd). destruct (zlen l =? 0) eqn:El.
    { apply Z.eqb_eq, zlen_0_nil in El. rewrite El in He. by apply not_elem_of_nil in He. }
    cbn [negb when]. right. apply Exists_exists. exists (direction_field (smt_direction e)).
    split; [|by rewrite Hd]. apply list_elem_of_In, in_concat.
    exists [raw 372 (smt_msg_type e); direction_field (smt_direction e)].
    split; [|right; by left]. apply in_map_iff. exists e. split; [done|by apply list_elem_of_In].
Qed.

Ltac num_raw := rewrite num_spec by (unfold is_u32, is_int, UINT32_MAX in *; lia).

Lemma clamp_int v : (if v <? 0 then 0 else v) = Z.max v 0.
Proof. destruct (v <? 0) eqn:E; lia. Qed.

(** Every builder appends exactly the message's fields. *)
Lemma build_admin_fields m out seq sender target begin_string sending_time :
  admin_ok m -> admin_proper m = true -> is_u32 seq ->
  build_admin m out seq sender target begin_string sending_time =
  build_frame out (raws ((8, begin_string) :: admin_fields m seq sender target sending_time)).
Proof.
  intros Hm Hpr Hs. unfold admin_fields. cbn [raws map fst snd].
  assert (Hh : admin_header begin_string (admin_type m) seq sender target sending_time =
    [raw 8 begin_string; raw 35 [admin_type m]; raw 34 (dec_text seq); raw 49 sender;
     raw 52 sending_time; raw 56 target]) by (unfold admin_header; by num_raw).
  destruct m as [hb rs ne av us pw op|text|id|id|rs rt ty rr tx|rs ty rr|b e|n];
    cbn [build_admin admin_type admin_body admin_ok] in *.
  - destruct Hm as (Hhb & Hne & Hmx & Hl). cbn [admin_proper] in Hpr.
    apply andb_true_iff in Hpr as [Hav Hdir]. apply negb_true_iff, bool_decide_eq_false in Hav.
    unfold build_logon. rewrite Hh.
    cbn [app]. do 7 f_equal. rewrite clamp_int. num_raw. cbn [map fst snd]. do 2 f_equal.
    change (map (fun f => raw f.1 f.2)) with raws. rewrite !raws_app.
    repeat f_equal.
    + destruct av as [v|]; [|done]. cbn. by rewrite appl_text_spec by congruence.
    + by destruct us.
    + by destruct pw.
    + by destruct rs.
    + destruct ne as [n|]; [|done]. cbn in Hne |- *. by num_raw.
    + destruct (opt_max_message_size op) as [n|]; [|done]. cbn in Hmx |- *. by num_raw.
    + destruct (opt_supported_msg_types op) as [|e l] eqn:El; [done|]. rewrite <- El in *.
      pose proof (zlen_nonneg (opt_supported_msg_types op)).
      replace (zlen (opt_supported_msg_types op) =? 0) with false
        by (rewrite El, zlen_cons; pose proof (zlen_nonneg l); lia).
      cbn [negb when]. num_raw. by rewrite raws_supported, El by done.
    + by destruct (opt_test_message_indicator op).
  - unfold build_logout, text_field, when. rewrite Hh. by destruct (non_empty text).
  - unfold build_heartbeat, text_field, when. rewrite Hh. by destruct (non_empty id).
  - unfold build_test_request. by rewrite Hh.
  - destruct Hm as (? & ? & ?).
    assert (Htx : build_admin (AdmReject rs rt ty rr tx) out seq sender target begin_string sending_time =
      build_reject_with_text out seq sender target rs rt ty rr begin_string sending_time (default [] tx))
      by (by destruct tx).
    cbn [build_admin] in Htx. rewrite Htx. cbn [admin_type admin_body] in Hh |- *.
    generalize (default [] tx). intros txt.
    unfold build_reject_with_text, text_field, when. rewrite Hh.
    rewrite clamp_int. num_raw. destruct (0 <? rt) eqn:Ert.
    + do 2 num_raw. by destruct (non_empty ty), (non_empty txt).
    + num_raw. by destruct (non_empty ty), (non_empty txt).
  - destruct Hm as (? & ?). unfold build_business_message_reject, text_field, when. rewrite Hh.
    rewrite clamp_int. do 2 num_raw. by destruct (non_empty ty).
  - destruct Hm as (? & ?). unfold build_resend_request. rewrite Hh. by do 2 num_raw.
  - unfold build_sequence_reset_gapfill. rewrite Hh. by num_raw.
Qed.

(** ** Reading back *)

Definition admin_tags : list Z :=
  [7; 8; 9; 10; 16; 34; 35; 36; 43; 45; 49; 52; 56; 58; 98; 108; 112; 122; 123; 141; 371; 372; 373;
   380; 383; 384; 385; 464; 553; 554; 789; 1137].

(** No dictionary pairs an administrative tag as a Length or a Data. *)
Class admin_hooks (h : dict_hooks) : Prop := {
  admin_hooks_ok :: hooks_ok h;
  admin_plain : Forall (fun t => data_tag_for_length h t = 0 /\ length_tag_for_data h t = 0) admin_tags }.

#[export] Instance no_hooks_admin : admin_hooks no_hooks.
Proof.
  split; [apply _|]. apply Forall_forall. intros t Ht.
  assert (H : forallb (fun t => (data_tag_for_length no_hooks t =? 0) &&
    (length_tag_for_data no_hooks t =? 0)) admin_tags = true) by (vm_compute; reflexivity).
  rewrite forallb_forall in H. apply list_elem_of_In in Ht. specialize (H t Ht).
  apply andb_true_iff in H as [H1 H2]. split; lia.
Qed.

Lemma plain_conforms h fs :
  Forall (fun f => data_tag_for_length h f.1 = 0 /\ length_tag_for_data h f.1 = 0) fs ->
  container_conforms h fs = true.
Proof.
  intros Hf. unfold container_conforms.
  assert (H : observe_all h checker_init fs = Some checker_init); [|by rewrite H].
  induction Hf as [|[t v] fs [Hd Hl] _ IH]; [done|]. cbn in Hd, Hl. cbn [observe_all].
  unfold observe. cbn [failed awaited_data checker_init Z.eqb negb]. rewrite Hl. cbn [negb Z.eqb].
  by rewrite Hd.
Qed.

Lemma admin_tags_range t : t ∈ admin_tags -> 0 <= t <= 0xFFFF.
Proof.
  intros Ht. assert (H : forallb (fun t => (0 <=? t) && (t <=? 0xFFFF)) admin_tags = true)
    by (vm_compute; reflexivity).
  rewrite forallb_forall in H. apply list_elem_of_In in Ht. specialize (H t Ht). lia.
Qed.

(** A message whose fields all bear administrative tags and hold no SOH. *)
Lemma split_admin h fs :
  admin_hooks h -> Forall (fun f => f.1 ∈ admin_tags /\ SOH ∉ f.2) fs ->
  split_fields (fields_bytes fs) h = (fs, (fault_none, 0, 0)).
Proof.
  intros Hh Hf.
  pose proof (admin_plain (h:=h)) as Hp. rewrite Forall_forall in Hp.
  apply split_conforming; [apply _|apply plain_conforms| |];
    (eapply Forall_impl; [exact Hf|]); intros f [Ht Hs]; [by apply Hp|by apply admin_tags_range|done].
Qed.

Lemma digits_no_SOH ds : digits ds -> SOH ∉ ds.
Proof.
  intros Hd Hin. rewrite Forall_forall in Hd. apply Hd in Hin. discriminate Hin.
Qed.

(** The values a caller supplies hold no SOH. *)
Definition admin_clean (m : admin_message) : Prop :=
  match m with
  | AdmLogon _ _ _ _ us pw op =>
      SOH ∉ default [] us /\ SOH ∉ default [] pw /\
      Forall (fun e => SOH ∉ smt_msg_type e) (opt_supported_msg_types op)
  | AdmLogout text => SOH ∉ text
  | AdmHeartbeat id | AdmTestRequest id => SOH ∉ id
  | AdmReject _ _ ty _ tx => SOH ∉ ty /\ SOH ∉ default [] tx
  | AdmBusinessReject _ ty _ => SOH ∉ ty
  | _ => True
  end.

(** The tags of the bodies, and those of the framing and the header. *)
Definition body_tags : list Z :=
  [7; 16; 36; 43; 45; 58; 98; 108; 112; 122; 123; 141; 371; 372; 373; 380; 383; 384; 385; 464; 553;
   554; 789; 1137].

Definition admin_field (tags : list Z) (f : Z * bytes) : Prop := f.1 ∈ tags /\ SOH ∉ f.2.

Lemma admin_tag tags t : existsb (Z.eqb t) tags = true -> t ∈ tags.
Proof.
  intros H. apply existsb_exists in H as (x & Hx & Hxt). apply Z.eqb_eq in Hxt as ->.
  by apply list_elem_of_In.
Qed.

Lemma admin_field_val tags t v : existsb (Z.eqb t) tags = true -> SOH ∉ v ->
  admin_field tags (t, v).
Proof. intros Ht Hv. split; [by apply admin_tag|done]. Qed.

Lemma dec_text_clean v : SOH ∉ dec_text v.
Proof. apply digits_no_SOH, dec_text_digits. Qed.

Lemma char_clean c : c <> SOH -> SOH ∉ [c].
Proof. intros Hc H%list_elem_of_singleton. congruence. Qed.

Ltac admin_field_tac :=
  apply admin_field_val; [vm_compute; reflexivity|];
  first [done | apply dec_text_clean | apply char_clean; unfold SOH; lia].

Lemma opt_field_clean tags t o : existsb (Z.eqb t) tags = true ->
  SOH ∉ default [] o -> Forall (admin_field tags) (opt_field t o).
Proof. intros Ht Ho. destruct o; constructor; [by apply admin_field_val|constructor]. Qed.

Lemma text_field_clean tags t v : existsb (Z.eqb t) tags = true ->
  SOH ∉ v -> Forall (admin_field tags) (text_field t v).
Proof.
  intros Ht Hv. unfold text_field. destruct (non_empty v); constructor;
    [by apply admin_field_val|constructor].
Qed.

Lemma flag_field_clean tags t b : existsb (Z.eqb t) tags = true -> Forall (admin_field tags) (flag_field t b).
Proof.
  intros Ht. destruct b; constructor; [apply admin_field_val; [done|]|constructor].
  apply char_clean. done.
Qed.

Lemma opt_number_clean tags t (o : option Z) : existsb (Z.eqb t) tags = true ->
  Forall (admin_field tags) (opt_field t (dec_text <$> o)).
Proof. intros Ht. apply opt_field_clean; [done|]. destruct o; [apply dec_text_clean|apply not_elem_of_nil]. Qed.

Lemma admin_body_clean m sending_time :
  admin_clean m -> SOH ∉ sending_time -> Forall (admin_field body_tags) (admin_body m sending_time).
Proof.
  intros Hm Hst. destruct m as [hb rs ne av us pw op|text|id|id|rs rt ty rr tx|rs ty rr|b e|n];
    cbn [admin_body admin_clean] in *.
  - destruct Hm as (Hu & Hp & Hs). rewrite !Forall_app. split_and!.
    + repeat (constructor; [admin_field_tac|]). constructor.
    + apply opt_field_clean; [done|]. destruct av as [[]|]; cbn [fmap option_fmap option_map default appl_text];
        first [apply dec_text_clean|apply not_elem_of_nil].
    + by apply opt_field_clean.
    + by apply opt_field_clean.
    + by apply flag_field_clean.
    + by apply opt_number_clean.
    + by apply opt_number_clean.
    + destruct (opt_supported_msg_types op) as [|e l] eqn:El; [constructor|].
      rewrite <- El in *. constructor; [admin_field_tac|]. clear El e l.
      induction Hs as [|e l He _ IH]; [constructor|]. cbn [map concat app].
      constructor; [by apply admin_field_val|]. constructor; [|exact IH].
      apply admin_field_val; [done|].
      by destruct (smt_direction e); first [apply not_elem_of_nil|apply char_clean].
    + by apply flag_field_clean.
  - by apply text_field_clean.
  - by apply text_field_clean.
  - constructor; [admin_field_tac|constructor].
  - destruct Hm. constructor; [admin_field_tac|]. apply Forall_app. split.
    { destruct (0 <? rt); constructor; [admin_field_tac|constructor]. }
    apply Forall_app. split; [by apply text_field_clean|].
    constructor; [admin_field_tac|]. by apply text_field_clean.
  - constructor; [admin_field_tac|]. apply Forall_app. split; [by apply text_field_clean|].
    constructor; [admin_field_tac|constructor].
  - repeat (constructor; [admin_field_tac|]). constructor.
  - repeat (constructor; [admin_field_tac|]). constructor.
Qed.

Lemma supported_tags l :
  Forall (fun f => existsb (Z.eqb f.1) body_tags = true)
    (concat (map (fun e => [(372, smt_msg_type e); (385, direction_text (smt_direction e))]) l)).
Proof.
  induction l as [|e l IH]; [constructor|]. cbn [map concat app].
  by do 2 (constructor; [done|]).
Qed.

Lemma admin_body_tags m sending_time :
  Forall (fun f => existsb (Z.eqb f.1) body_tags = true) (admin_body m sending_time).
Proof.
  destruct m as [hb rs ne av us pw op|text|id|id|rs rt ty rr tx|rs ty rr|b e|n]; cbn [admin_body];
    repeat (first [apply supported_tags | apply Forall_nil_2 | apply Forall_app_2
      | apply Forall_cons_2; [done|]
      | progress unfold opt_field, text_field, flag_field | case_match]).
Qed.

Lemma body_tags_admin t : t ∈ body_tags -> t ∈ admin_tags.
Proof.
  intros Ht. apply admin_tag.
  assert (H : forallb (fun t => existsb (Z.eqb t) admin_tags) body_tags = true)
    by (vm_compute; reflexivity).
  rewrite forallb_forall in H. apply H. by apply list_elem_of_In.
Qed.

Lemma admin_fields_range m seq sender target sending_time :
  Forall (fun f => 0 <= f.1 <= 0xFFFF) (admin_fields m seq sender target sending_time).
Proof.
  unfold admin_fields. do 5 (constructor; [cbn; lia|]).
  eapply Forall_impl; [apply admin_body_tags|]. cbn beta. intros f Hf.
  by apply admin_tags_range, body_tags_admin, admin_tag.
Qed.

Lemma admin_fields_clean m seq sender target sending_time :
  admin_clean m -> SOH ∉ sender -> SOH ∉ target -> SOH ∉ sending_time ->
  Forall (admin_field admin_tags) (admin_fields m seq sender target sending_time).
Proof.
  intros Hm Hs Ht Hst. unfold admin_fields. constructor.
  { apply admin_field_val; [done|]. apply char_clean. by destruct m. }
  constructor; [admin_field_tac|]. do 3 (constructor; [by apply admin_field_val|]).
  eapply Forall_impl; [by apply admin_body_clean|]. intros f [Hf ?]. split; [|done].
  by apply body_tags_admin.
Qed.

(** The whole frame of a message, framing fields included. *)
Lemma admin_frame_split h m seq sender target begin_string sending_time :
  admin_hooks h -> admin_clean m ->
  SOH ∉ sender -> SOH ∉ target -> SOH ∉ begin_string -> SOH ∉ sending_time ->
  let fs := admin_fields m seq sender target sending_time in
  split_fields (frame_text begin_string fs) h = (frame_fields begin_string fs, (fault_none, 0, 0)).
Proof.
  intros Hh Hm Hs Ht Hb Hst fs. rewrite frame_text_fields. apply split_admin; [done|].
  change (Forall (admin_field admin_tags) (frame_fields begin_string fs)). unfold frame_fields. cbn zeta.
  constructor; [by apply admin_field_val|]. constructor; [admin_field_tac|].
  apply Forall_app. split.
  - by apply admin_fields_clean.
  - constructor; [|constructor]. apply admin_field_val; [done|].
    apply digits_no_SOH, fixed_digits_digits.
Qed.

(** Which field of the header a body can set. *)
Lemma last_value_app t a b d : last_value t (a ++ b) d = last_value t b (last_value t a d).
Proof. unfold last_value. apply fold_left_app. Qed.

Lemma last_value_none t fs d : Forall (fun f => f.1 <> t) fs -> last_value t fs d = d.
Proof.
  intros H. unfold last_value. revert d. induction H as [|f fs Hf _ IH]; intros d; [done|].
  cbn [fold_left]. replace (f.1 =? t) with false by lia. apply IH.
Qed.

Lemma last_value_header t m begin_string seq sender target sending_time d :
  existsb (Z.eqb t) (10 :: body_tags) = false ->
  last_value t (frame_fields begin_string (admin_fields m seq sender target sending_time)) d =
  last_value t [(8, begin_string);
    (9, dec_text (zlen (fields_bytes (admin_fields m seq sender target sending_time))));
    (35, [admin_type m]); (34, dec_text seq); (49, sender); (52, sending_time); (56, target)] d.
Proof.
  intros Ht. unfold frame_fields. cbn zeta.
  set (fs := admin_fields m seq sender target sending_time). set (trl := (10, _)).
  assert (Hfs : fs = [(35, [admin_type m]); (34, dec_text seq); (49, sender); (52, sending_time);
    (56, target)] ++ admin_body m sending_time) by done.
  change (_ :: _ :: fs ++ [trl]) with ([(8, begin_string); (9, dec_text (zlen (fields_bytes fs)))] ++ fs ++ [trl]).
  rewrite Hfs at 2. rewrite <- app_assoc, !last_value_app.
  rewrite (last_value_none t [trl]), (last_value_none t (admin_body m sending_time)).
  - by rewrite <- !last_value_app.
  - eapply Forall_impl; [apply admin_body_tags|]. cbn beta. intros f Hf <-.
    cbn [existsb] in Ht. apply orb_false_iff in Ht as [_ Ht]. congruence.
  - constructor; [|constructor]. unfold trl. cbn [fst]. intros <-. discriminate Ht.
Qed.

(** ... and what it reads of a tag of the body. *)
Lemma last_value_body t m begin_string seq sender target sending_time :
  existsb (Z.eqb t) [8; 9; 35; 34; 49; 52; 56; 10] = false ->
  last_value t (frame_fields begin_string (admin_fields m seq sender target sending_time)) [] =
  last_value t (admin_body m sending_time) [].
Proof.
  intros Ht. unfold frame_fields. cbn zeta. unfold admin_fields at 2.
  set (trl := (10, _)).
  change (last_value t (([(8, begin_string); (9, dec_text (zlen (fields_bytes (admin_fields m seq
    sender target sending_time)))); (35, [admin_type m]); (34, dec_text seq); (49, sender);
    (52, sending_time); (56, target)] ++ admin_body m sending_time ++ [trl])) [] =
    last_value t (admin_body m sending_time) []).
  rewrite !last_value_app. rewrite (last_value_none t [trl]); [f_equal|].
  - apply last_value_none. cbn in Ht. rewrite !orb_false_iff in Ht.
    repeat (constructor; [cbn; lia|]). constructor.
  - constructor; [|constructor]. unfold trl. cbn in Ht |- *. lia.
Qed.

(** What the header scan reports of a message beyond its identity. *)
Definition admin_reads (m : admin_message) (sending_time : bytes) (h : FrameHeader) : Prop :=
  match m with
  | AdmLogon _ rs ne _ _ _ op =>
      reset_seqnum_flag h = (if rs then [89] else []) /\
      next_expected_msg_seq_num h = from_option dec_text [] ne /\
      max_message_size h = from_option dec_text [] (opt_max_message_size op) /\
      test_message_indicator h = (if opt_test_message_indicator op then [89] else [])
  | AdmHeartbeat id | AdmTestRequest id => test_req_id h = id
  | AdmResendRequest b e => begin_seqno h = dec_text b /\ end_seqno h = dec_text e
  | AdmGapFill n =>
      new_seqno h = dec_text n /\ gap_fill_flag h = [89] /\ poss_dup_flag h = [89] /\
      orig_sending_time h = sending_time
  | _ => True
  end.

Lemma supported_none t l d : t <> 372 -> t <> 385 ->
  last_value t (concat (map (fun e =>
    [(372, smt_msg_type e); (385, direction_text (smt_direction e))]) l)) d = d.
Proof.
  intros H1 H2. apply last_value_none. induction l as [|e l IH]; [constructor|].
  cbn [map concat app]. constructor; [cbn; lia|]. constructor; [cbn; lia|done].
Qed.

Lemma text_field_last t v : last_value t (text_field t v) [] = v.
Proof.
  unfold text_field, non_empty. destruct (zlen v =? 0) eqn:E; cbn [negb].
  - apply Z.eqb_eq, zlen_0_nil in E as ->. done.
  - unfold last_value. cbn. by rewrite Z.eqb_refl.
Qed.

Lemma last_value_cons t f fs d :
  last_value t (f :: fs) d = last_value t fs (if f.1 =? t then f.2 else d).
Proof. done. Qed.

Lemma logon_last t hb rs ne av us pw op st d :
  existsb (Z.eqb t) [98; 108; 1137; 553; 554; 384; 372; 385] = false ->
  last_value t (admin_body (AdmLogon hb rs ne av us pw op) st) d =
  last_value t (flag_field 141 rs ++ opt_field 789 (dec_text <$> ne) ++
    opt_field 383 (dec_text <$> opt_max_message_size op) ++
    flag_field 464 (opt_test_message_indicator op)) d.
Proof.
  intros Ht. cbn in Ht. rewrite !orb_false_iff in Ht. cbn [admin_body].
  rewrite !last_value_app.
  rewrite (last_value_none t [(98, [48]); (108, dec_text (Z.max hb 0))])
    by (repeat (constructor; [cbn; lia|]); constructor).
  rewrite (last_value_none t (opt_field 1137 _))
    by (destruct av; cbn; constructor; [cbn; lia|constructor]).
  rewrite (last_value_none t (opt_field 553 _))
    by (destruct us; cbn; constructor; [cbn; lia|constructor]).
  rewrite (last_value_none t (opt_field 554 _))
    by (destruct pw; cbn; constructor; [cbn; lia|constructor]).
  f_equal. destruct (opt_supported_msg_types op) as [|e l]; [done|].
  rewrite last_value_cons. cbn [fst]. replace (384 =? t) with false by lia.
  apply supported_none; lia.
Qed.

Lemma admin_reads_last m begin_string seq sender target sending_time hd :
  Forall (fun '(t, member) => member hd =
    last_value t (frame_fields begin_string (admin_fields m seq sender target sending_time)) [])
    header_members ->
  admin_reads m sending_time hd.
Proof.
  unfold header_members. rewrite !Forall_cons.
  intros (H7 & _ & H16 & _ & _ & H36 & H43 & _ & _ & _ & H112 & H122 & H123 & H141 & H383 & H464 & H789 & _).
  rewrite last_value_body in H7, H16, H36, H43, H112, H122, H123, H141, H383, H464, H789 by done.
  destruct m as [hb rs ne av us pw op|text|id|id|rs rt ty rr tx|rs ty rr|b e|n]; cbn [admin_reads]; try done.
  - rewrite logon_last in H141, H383, H464, H789 by done. rewrite H141, H383, H464, H789.
    destruct rs, ne, (opt_max_message_size op), (opt_test_message_indicator op); done.
  - rewrite H112. apply text_field_last.
Qed.

(** ** interpret_logon reads the frame's fields *)

Lemma logon_tag_of_tag_loop p i t t' j q :
  tag_loop p i t = tag_end t' j q ->
  logon_tag_loop p i t = (j, match q with c :: _ => if c =? EQ then Some t' else None | [] => None end).
Proof.
  revert i t. induction p as [|c p IH]; intros i t; cbn [tag_loop logon_tag_loop].
  - by intros [= <- <- <-].
  - destruct (c =? EQ) eqn:Ee; cbn [orb].
    { intros [= <- <- <-]. by rewrite Ee. }
    destruct (c =? SOH) eqn:Es; cbn [orb]; [intros [= <- <- <-]; by rewrite Ee|].
    destruct ((c <? 48) || (57 <? c)); [done|].
    destruct (accumulate_tag_digit t c) as [[] t1]; [|done]. apply IH.
Qed.

Lemma tag_loop_rest p i t t' j q : 0 <= t <= 0xFFFF -> tag_loop p i t = tag_end t' j q ->
  zdrop (j - i) p = q /\ i <= j.
Proof.
  intros Ht H. apply tag_loop_inv in H as (ds & -> & _ & _ & _ & -> & _); [|done].
  split; [|pose proof (zlen_nonneg ds); lia].
  replace (i + zlen ds - i) with (zlen ds) by lia. apply zdrop_app.
Qed.

(** The fields folded, until HeartBtInt overflows. *)
Definition fold_logon (fs : list (Z * bytes)) (f : logon_found) : option logon_found :=
  fold_left (fun o x => match o with Some f => logon_field x.1 x.2 f | None => None end) fs (Some f).

Lemma fold_logon_none fs :
  fold_left (fun o x => match o with Some f => logon_field x.1 x.2 f | None => None end) fs None = None.
Proof. by induction fs. Qed.

Lemma interpret_loop_split fuel h frame i carry prev f :
  0 <= i <= zlen frame -> 0 <= carry_count carry ->
  (split_loop fuel h frame i carry prev).2.1.1 = fault_none ->
  interpret_loop fuel h frame i carry f =
  match fold_logon (split_loop fuel h frame i carry prev).1 f with
  | Some f => Some (Ok f)
  | None => None
  end.
Proof.
  revert i carry prev f. induction fuel as [|fuel IH]; intros i carry prev f Hi Hc;
    cbn [interpret_loop split_loop]; [done|].
  destruct (zlen frame <=? i) eqn:Eend; [done|].
  destruct (read_tag frame i) as [[tag vstart]|] eqn:Et; [|done].
  destruct (read_tag_text frame i tag vstart Hi Et) as (ds & Hds & _ & Hdv & Htr & Hvs & Hd & Hvl).
  pose proof (zlen_nonneg ds) as Hdl.
  assert (Hl : logon_tag_loop (zdrop i frame) i 0 = (vstart - 1, Some tag)).
  { unfold read_tag in Et. destruct (tag_loop _ _ _) as [t j q| |] eqn:El; [|done..].
    rewrite (logon_tag_of_tag_loop _ _ _ _ _ _ El).
    destruct (tag_loop_rest (zdrop i frame) i 0 t j q ltac:(lia) El) as [Hq Hj].
    destruct ((zlen frame <=? j) || negb (zget frame j =? EQ)) eqn:Ej; [done|].
    destruct (j =? i) eqn:Eji; [done|]. injection Et as -> <-.
    apply orb_false_iff in Ej as [Ej1 Ej2]. apply negb_false_iff in Ej2.
    rewrite zdrop_drop in Hq by lia. replace (i + (j - i)) with j in Hq by lia.
    rewrite zdrop_cons in Hq by lia. rewrite <- Hq, Ej2. do 2 f_equal. lia. }
  rewrite Hl. replace (vstart - 1 + 1) with vstart by lia.
  rewrite (wrap_small 16 tag) by lia.
  destruct (read_value h carry frame vstart tag) as [[ext|] carry'] eqn:Er; [|done].
  assert (Hve : vstart <= ve_end ext <= zlen frame)
    by (apply (read_value_end h carry frame vstart tag ext carry'); [lia|exact Hc|exact Er]).
  pose proof (read_value_count _ _ _ _ _ _ _ Hc Er) as Hc'.
  assert (Hskip : (if (ve_end ext <? zlen frame) && (zget frame (ve_end ext) =? SOH)
    then ve_end ext + 1 else ve_end ext) = skip_soh frame (ve_end ext)).
  { unfold skip_soh. destruct (ve_end ext <? zlen frame) eqn:El; [|done]. cbn [andb].
    destruct (value_rest h carry frame vstart tag ext carry' Hc ltac:(lia) Er)
      as (rest & Hr & Hlen & [[_ ?]|(q & -> & _)]); [lia|].
    assert (Hz : zget frame (ve_end ext) = SOH); [|by rewrite Hz].
    replace (ve_end ext) with (vstart + (ve_end ext - vstart)) by lia.
    rewrite <- zget_drop, Hr, zget_app_r, Hlen, Z.sub_diag by lia. done. }
  rewrite Hskip. pose proof (skip_soh_range frame (ve_end ext) ltac:(lia)) as Hsk.
  specialize (IH (skip_soh frame (ve_end ext)) carry' tag).
  destruct (split_loop fuel h frame _ carry' tag) as [fs r]. cbn [fst snd] in *.
  unfold fold_logon in *. cbn [fold_left fst snd].
  destruct (logon_field tag _ f) as [f'|]; [|by rewrite fold_logon_none].
  intros Hr. apply IH; [lia|done|done].
Qed.

Lemma parse_heartbt_digits ds acc : digits ds -> 0 <= acc <= 2147483647 ->
  parse_heartbt ds acc = if 2147483647 <? dec_from acc ds then None else Some (dec_from acc ds).
Proof.
  intros Hd. revert acc. induction Hd as [|c ds Hc Hd IH]; intros acc Ha; cbn [parse_heartbt].
  - change (dec_from acc []) with acc. by replace (2147483647 <? acc) with false by lia.
  - apply is_digit_spec in Hc. replace ((c <? 48) || (57 <? c)) with false by lia.
    rewrite dec_from_cons. pose proof (dec_from_bounds (acc * 10 + (c - 48)) ds ltac:(lia) Hd) as Hb.
    assert (0 < 10 ^ zlen ds) by (apply Z.pow_pos_nonneg; [lia|apply zlen_nonneg]).
    destruct (2147483647 <? acc * 10 + (c - 48)) eqn:E.
    + replace (2147483647 <? dec_from _ _) with true by nia. done.
    + apply IH. lia.
Qed.

Lemma parse_heartbt_text v : 0 <= v <= 2147483647 -> parse_heartbt (dec_text v) 0 = Some v.
Proof.
  intros Hv. rewrite parse_heartbt_digits by (apply dec_text_digits || lia).
  change (dec_from 0 (dec_text v)) with (dec_value (dec_text v)).
  rewrite dec_text_value by (unfold UINT32_MAX; lia).
  by replace (2147483647 <? v) with false by lia.
Qed.

(** A Logon's fields, folded. *)
Lemma fold_logon_app a b f :
  fold_logon (a ++ b) f = match fold_logon a f with Some f => fold_logon b f | None => None end.
Proof.
  unfold fold_logon. rewrite fold_left_app.
  destruct (fold_left _ a (Some f)); [done|apply fold_logon_none].
Qed.

(** Fields no Logon reading depends on. *)
Lemma fold_logon_other fs f :
  Forall (fun x => existsb (Z.eqb x.1) [8; 35; 49; 56; 108; 98; 1137; 553; 554] = false) fs ->
  fold_logon fs f = Some f.
Proof.
  intros H. unfold fold_logon. induction H as [|x fs Hx _ IH]; [done|]. cbn [fold_left].
  assert (E : logon_field x.1 x.2 f = Some f); [|by rewrite E].
  cbn in Hx. rewrite !orb_false_iff in Hx. destruct Hx as (? & ? & ? & ? & ? & ? & ? & ? & ? & _).
  unfold logon_field. destruct f.
  do 9 (match goal with |- (if ?c then _ else _) = _ => replace c with false by lia end). done.
Qed.

(** What the reading of a built Logon finds. *)
Lemma logon_fields_found begin_string seq sender target sending_time hb rs ne av us pw op :
  is_int hb -> 0 <= hb -> av <> Some av_Unknown ->
  fold_logon (frame_fields begin_string
    (admin_fields (AdmLogon hb rs ne av us pw op) seq sender target sending_time)) logon_found_init =
  Some (LogonFound begin_string [65] sender target hb true (appl_text <$> av) us pw false).
Proof.
  intros Hi Hb Hav. unfold frame_fields. cbn zeta.
  set (fs := admin_fields _ seq sender target sending_time). set (trl := (10, _)).
  set (rest := flag_field 141 rs ++ opt_field 789 (dec_text <$> ne) ++
    opt_field 383 (dec_text <$> opt_max_message_size op) ++
    (match opt_supported_msg_types op with
     | [] => []
     | l => (384, dec_text (zlen l)) ::
            concat (map (fun e => [(372, smt_msg_type e); (385, direction_text (smt_direction e))]) l)
     end) ++ flag_field 464 (opt_test_message_indicator op)).
  change (_ :: _ :: fs ++ [trl]) with
    ([(8, begin_string); (9, dec_text (zlen (fields_bytes fs))); (35, [65]); (34, dec_text seq);
      (49, sender); (52, sending_time); (56, target); (98, [48]); (108, dec_text (Z.max hb 0))] ++
     (opt_field 1137 (appl_text <$> av) ++ opt_field 553 us ++ opt_field 554 pw ++ rest) ++ [trl]).
  assert (Hhead : forall l, fold_logon
    [(8, begin_string); (9, l); (35, [65]); (34, dec_text seq);
      (49, sender); (52, sending_time); (56, target); (98, [48]); (108, dec_text (Z.max hb 0))]
      logon_found_init = Some (LogonFound begin_string [65] sender target hb true None None None false)).
  { intros l. unfold fold_logon. cbn [fold_left fst snd]. unfold is_int in Hi.
    cbn [logon_field Z.eqb Pos.eqb logon_found_init].
    replace (Z.max hb 0) with hb by lia. by rewrite parse_heartbt_text by lia. }
  rewrite fold_logon_app, Hhead.
  assert (Hopt : fold_logon (opt_field 1137 (appl_text <$> av) ++ opt_field 553 us ++ opt_field 554 pw)
    (LogonFound begin_string [65] sender target hb true None None None false) =
    Some (LogonFound begin_string [65] sender target hb true (appl_text <$> av) us pw false))
    by (destruct av, us, pw; done).
  replace (opt_field 1137 (appl_text <$> av) ++ opt_field 553 us ++ opt_field 554 pw ++ rest)
    with ((opt_field 1137 (appl_text <$> av) ++ opt_field 553 us ++ opt_field 554 pw) ++ rest)
    by (by rewrite <- !app_assoc).
  rewrite <- app_assoc, fold_logon_app, Hopt. apply fold_logon_other, Forall_app. split.
  - unfold rest. rewrite !Forall_app. split_and!.
    + destruct rs; constructor; [done|constructor].
    + destruct ne; constructor; [done|constructor].
    + destruct (opt_max_message_size op); constructor; [done|constructor].
    + destruct (opt_supported_msg_types op) as [|e l]; [constructor|].
      constructor; [done|]. generalize (e :: l). clear. intros l.
      induction l as [|e l IH]; [constructor|]. cbn [map concat app]. by do 2 (constructor; [done|]).
    + destruct (opt_test_message_indicator op); constructor; [done|constructor].
  - constructor; [done|constructor].
Qed.

(** A value checked for SOH by evaluation. *)
Lemma clean_value bs : forallb (fun c => negb (c =? SOH)) bs = true -> SOH ∉ bs.
Proof. intros H Hin%list_elem_of_In. rewrite forallb_forall in H. by specialize (H _ Hin). Qed.

Ltac clean := apply clean_value; vm_compute; reflexivity.
Ltac u32_range := unfold is_u32, is_int, UINT32_MAX; vm_compute; split; discriminate.

(** ** Properties *)

(** C37: What a session says is what its peer's header scan reads.  For every message, with
    numbers in the range of their types: each of the nine builders ([build_reject] is a
    Reject without a text argument) yields exactly the framed message, its numbers in decimal
    and its optional fields present exactly when asked for, when the message is proper (a
    version that exists, directions that are S or R) and the buffer and BodyLength hold it,
    and an error otherwise.  When moreover no value the caller supplies holds SOH (a builder
    does not look) and no dictionary pair involves an administrative tag, the header scanned
    from the built frame bears no fault and gives back the message type, the sequence number,
    the identities, the time and what the message asks. *)
Theorem admin_frames_read_back h m out seq sender target begin_string sending_time :
  admin_ok m -> is_u32 seq -> zlen out <= UINT32_MAX ->
  let fs := admin_fields m seq sender target sending_time in
  let text := frame_text begin_string fs in
  let built := build_admin m out seq sender target begin_string sending_time in
  (if admin_proper m && (zlen text <=? zlen out) && (zlen (fields_bytes fs) <=? 999999)
   then built = Ok text else is_ok built = false) /\
  (admin_hooks h -> admin_clean m ->
   SOH ∉ sender -> SOH ∉ target -> SOH ∉ begin_string -> SOH ∉ sending_time ->
   built = Ok text ->
   let hd := scan_frame_header text h in
   fault hd = fault_none /\ msg_type_is_third hd = true /\
   FrameHeader.msg_type hd = [admin_type m] /\ fault_ref_msg_type hd = [admin_type m] /\
   msg_seq_num hd = dec_text seq /\ fault_ref_seq_num hd = dec_text seq /\
   sender_comp_id hd = sender /\ target_comp_id hd = target /\
   FrameHeader.begin_string hd = begin_string /\ FrameHeader.sending_time hd = sending_time /\
   admin_reads m sending_time hd).
Proof.
  intros Hm Hs Ho fs text built. split.
  - unfold built. destruct (admin_proper m) eqn:Hp; [|by apply improper_stops].
    rewrite build_admin_fields, build_frame_spec by (done || apply admin_fields_range).
    fold fs text. cbn [andb]. by destruct ((zlen text <=? zlen out) && _).
  - intros Hh Hc Hsn Htg Hbs Hst Hb hd.
    assert (Ht : zlen text <= UINT32_MAX).
    { unfold built in Hb. destruct (admin_proper m) eqn:Hp;
        [|apply (improper_stops m out seq sender target begin_string sending_time) in Hp; by rewrite Hb in Hp].
      rewrite build_admin_fields, build_frame_spec in Hb by (done || apply admin_fields_range).
      fold fs text in Hb. destruct (zlen text <=? zlen out) eqn:E; [|done].
      lia. }
    pose proof (scan_header_facts text h ltac:(unfold UINT32_MAX in *; lia)) as Hf.
    assert (Hsp : split_fields text h = (frame_fields begin_string fs, (fault_none, 0, 0)))
      by (by apply admin_frame_split).
    rewrite Hsp in Hf. fold hd in Hf.
    destruct Hf as (Hmem & _ & Hrs & H3 & Hrt & Hft & _).
    assert (Hread : admin_reads m sending_time hd) by (by eapply admin_reads_last).
    unfold header_members in Hmem. rewrite !Forall_cons in Hmem.
    destruct Hmem as (_ & M8 & _ & M34 & M35 & _ & _ & M49 & M52 & M56 & _).
    unfold fs in M8, M34, M35, M49, M52, M56.
    rewrite last_value_header in M8, M34, M35, M49, M52, M56 by done.
    split_and!; [done|by rewrite H3|done|by rewrite Hrt|done|by rewrite Hrs|done..].
Qed.

(** [8=F|...|35=4|34=5|49=A|52=t|56=B|43=Y|122=t|36=9|123=Y|], and a Logon naming a direction
    that is none. *)
Lemma admin_frames_read_back_witness :
  let text := frame_text [70] (admin_fields (AdmGapFill 9) 5 [65] [66] [116]) in
  build_admin (AdmGapFill 9) (replicate 256 0) 5 [65] [66] [70] [116] = Ok text /\
  new_seqno (scan_frame_header text no_hooks) = [57] /\
  is_ok (build_logon (replicate 256 0) 5 [65] [66] [70] 30 [116] false None None None None
    (AdvertiseOptions None false [SupportedMsgType off_enum [68]])) = false.
Proof.
  intros text.
  pose proof (admin_frames_read_back no_hooks (AdmGapFill 9) (replicate 256 0) 5 [65] [66] [70] [116]
    ltac:(u32_range) ltac:(u32_range) ltac:(vm_compute; discriminate)) as H.
  pose proof (admin_frames_read_back no_hooks (AdmLogon 30 false None None None None
    (AdvertiseOptions None false [SupportedMsgType off_enum [68]])) (replicate 256 0) 5 [65] [66] [70]
    [116] ltac:(cbn; split_and!; [u32_range|exact I|exact I|vm_compute; discriminate])
    ltac:(u32_range) ltac:(vm_compute; discriminate)) as [H2 _].
  cbn zeta in H. fold text in H.
  assert (E : admin_proper (AdmGapFill 9) && (zlen text <=? zlen (replicate 256 0)) &&
    (zlen (fields_bytes (admin_fields (AdmGapFill 9) 5 [65] [66] [116])) <=? 999999) = true)
    by (vm_compute; reflexivity).
  rewrite E in H. destruct H as [Hb H].
  destruct (H _ I ltac:(clean) ltac:(clean) ltac:(clean) ltac:(clean) Hb)
    as (_ & _ & _ & _ & _ & _ & _ & _ & _ & _ & Hn & _).
  split; [exact Hb|]. split; [rewrite Hn; vm_compute; reflexivity|exact H2].
Defined.

(** A Logon survives the trip: what [build_logon] wrote, [interpret_logon] reads back,
    identities checked in its order: a foreign BeginString, then a foreign CompID is
    reported, and otherwise exactly the heartbeat interval, the application version, the
    user and the password that were put in, each present exactly when it was. *)
Theorem logon_round_trip h out seq sender target begin_string sending_time hb rs ne av us pw op
    frame expected_sender expected_target expected_begin :
  let m := AdmLogon hb rs ne av us pw op in
  admin_hooks h -> admin_ok m -> admin_clean m -> 0 <= hb -> is_u32 seq -> zlen out <= UINT32_MAX ->
  SOH ∉ sender -> SOH ∉ target -> SOH ∉ begin_string -> SOH ∉ sending_time ->
  build_logon out seq sender target begin_string hb sending_time rs ne av us pw op = Ok frame ->
  interpret_logon frame expected_sender expected_target expected_begin h =
  Some (if decide (begin_string = expected_begin) then
          if decide (sender = expected_sender /\ target = expected_target)
          then Ok (InterpretResult hb (appl_text <$> av) us pw)
          else Err session_compid_mismatch
        else Err session_begin_string_unsupported).
Proof.
  intros m Hh Hm Hc Hb Hs Ho Hsn Htg Hbs Hst Hbuild.
  change (build_admin m out seq sender target begin_string sending_time = Ok frame) in Hbuild.
  set (fs := admin_fields m seq sender target sending_time).
  destruct (admin_proper m) eqn:Hpr;
    [|apply (improper_stops m out seq sender target begin_string sending_time) in Hpr; by rewrite Hbuild in Hpr].
  rewrite build_admin_fields, build_frame_spec in Hbuild by (done || apply admin_fields_range).
  fold fs in Hbuild. destruct (_ && _); [|done]. injection Hbuild as <-.
  assert (Hsp : split_fields (frame_text begin_string fs) h =
    (frame_fields begin_string fs, (fault_none, 0, 0))) by (by apply admin_frame_split).
  unfold interpret_logon. unfold split_fields in Hsp.
  rewrite (interpret_loop_split _ _ _ 0 carry_init 0);
    [|pose proof (zlen_nonneg (frame_text begin_string fs)); lia|done|by rewrite Hsp].
  rewrite Hsp. cbn [fst]. unfold fs, m. rewrite (logon_fields_found begin_string seq sender target sending_time hb rs ne av us pw op)
    by (first [done | apply Hm |
      cbn [admin_proper m] in Hpr; apply andb_true_iff in Hpr as [Hpr _];
      by apply negb_true_iff, bool_decide_eq_false in Hpr]).
  cbn [lf_msg_type lf_begin_string lf_sender lf_target lf_has_heartbt lf_heartbt_int
    lf_invalid_encrypt_method_seen lf_default_appl_ver_id lf_username lf_password].
  rewrite bool_decide_eq_true_2 by done. cbn [negb orb]. replace (hb <? 0) with false by lia.
  destruct (decide (begin_string = expected_begin)) as [->|Hne];
    [rewrite bool_decide_eq_true_2 by done|by rewrite bool_decide_eq_false_2].
  destruct (decide (sender = expected_sender)) as [->|Hse];
    [rewrite bool_decide_eq_true_2 by done|rewrite bool_decide_eq_false_2 by done;
     cbn [negb]; by rewrite decide_False by tauto].
  destruct (decide (target = expected_target)) as [->|Hte];
    [rewrite bool_decide_eq_true_2 by done|rewrite bool_decide_eq_false_2 by done;
     cbn [negb]; by rewrite decide_False by tauto].
  cbn [negb]. by rewrite decide_True by done.
Qed.

Lemma logon_round_trip_witness :
  exists frame,
    build_logon (replicate 256 0) 1 [65] [66] [70] 30 [116] true (Some 4) (Some av_v44) (Some [117])
      None (AdvertiseOptions None false [SupportedMsgType send [68]]) = Ok frame /\
    interpret_logon frame [65] [66] [70] no_hooks
      = Some (Ok (InterpretResult 30 (Some [54]) (Some [117]) None)).
Proof.
  eexists. split; [vm_compute; reflexivity|].
  rewrite (logon_round_trip no_hooks (replicate 256 0) 1 [65] [66] [70] [116] 30 true (Some 4)
    (Some av_v44) (Some [117]) None (AdvertiseOptions None false [SupportedMsgType send [68]])).
  - vm_compute. reflexivity.
  - apply _.
  - cbn. split_and!; [u32_range|u32_range|exact I|vm_compute; discriminate].
  - cbn. split_and!; [clean|clean|]. constructor; [clean|constructor].
  - lia.
  - u32_range.
  - vm_compute. discriminate.
  - clean.
  - clean.
  - clean.
  - clean.
  - vm_compute. reflexivity.
Defined.

(** A HeartBtInt the peer writes with too many digits overflows the [int] that accumulates
    it: the reading of such a Logon is undefined, whatever else it holds. *)
Lemma logon_heartbeat_overflow h frame fs1 v fs2 es et eb :
  split_fields frame h = (fs1 ++ (108, v) :: fs2, (fault_none, 0, 0)) ->
  digits v -> 2147483647 < dec_value v ->
  interpret_logon frame es et eb h = None.
Proof.
  intros Hsp Hd Hv. unfold interpret_logon. unfold split_fields in Hsp.
  rewrite (interpret_loop_split _ _ _ 0 carry_init 0);
    [|pose proof (zlen_nonneg frame); lia|done|by rewrite Hsp].
  rewrite Hsp. cbn [fst]. rewrite fold_logon_app. destruct (fold_logon fs1 _) as [f|]; [|done].
  unfold fold_logon. cbn [fold_left fst snd].
  assert (E : logon_field 108 v f = None); [|by rewrite E, fold_logon_none].
  destruct f. cbn [logon_field Z.eqb Pos.eqb]. rewrite parse_heartbt_digits by (done || lia).
  change (dec_from 0 v) with (dec_value v). by replace (2147483647 <? dec_value v) with true by lia.
Qed.

(** The SendingTime check accepts exactly the instants within the latency, for every pair of
    64-bit instants: the unsigned difference never wraps. *)
Lemma check_sending_time_exact in_ns now_ns max_latency :
  INT64_MIN <= in_ns <= INT64_MAX -> INT64_MIN <= now_ns <= INT64_MAX ->
  INT64_MIN <= max_latency <= INT64_MAX ->
  check_sending_time in_ns now_ns max_latency =
  if (0 <=? max_latency) && (Z.abs (in_ns - now_ns) <=? max_latency * 1000000000)
  then Ok tt else Err session_sending_time_accuracy.
Proof.
  unfold INT64_MIN, INT64_MAX. intros Hi Hn Hm. unfold check_sending_time.
  destruct (max_latency <? 0) eqn:E; [by replace (0 <=? max_latency) with false by lia|].
  replace (0 <=? max_latency) with true by lia. cbn [andb].
  assert (Hd : u64 (u64 (Z.max in_ns now_ns) - u64 (Z.min in_ns now_ns)) = Z.abs (in_ns - now_ns)).
  { unfold wrap. rewrite <- Zminus_mod. rewrite Z.mod_small; lia. }
  rewrite Hd, (wrap_small 64 max_latency) by lia. unfold UINT64_MAX in *.
  change (18446744073709551615 / 1000000000) with 18446744073.
  destruct (18446744073 <? max_latency) eqn:E2.
  - replace (Z.abs (in_ns - now_ns) <=? _) with true by lia.
    by replace (_ <? Z.abs (in_ns - now_ns)) with false by lia.
  - rewrite wrap_small by lia. destruct (Z.abs (in_ns - now_ns) <=? _) eqn:E3.
    + by replace (_ <? Z.abs (in_ns - now_ns)) with false by lia.
    + by replace (_ <? Z.abs (in_ns - now_ns)) with true by lia.
Qed.
