(* ===== verification/ReplayFrame.v ===== *)
(** The frame that answers a ResendRequest (src/session/session.cpp, [build_replay_frame]):
    a stored outbound frame re-serialised with PossDupFlag, OrigSendingTime and a fresh
    SendingTime. *)
From S2P Require Import Prelude Errors FixTime TagScan PairTable LengthData VersionProfile Writer.
From S2P Require Import Framer FrameHeader OffsetTable Seqnum AdminMessages.

(** ** Scanning a stored field *)

Fixpoint outbound_digits (ds : bytes) (tag : Z) : option Z :=
  match ds with
  | [] => Some tag
  | u :: ds =>
      if (u <? 48) || (57 <? u) then None
      else
        let '(ok, tag) := accumulate_tag_digit tag u in
        if ok then outbound_digits ds tag else None
  end.

Definition parse_outbound_tag (digits : bytes) : option Z :=
  match digits with
  | [] => None
  | d :: _ => if d =? 48 then None else option_map (wrap 16) (outbound_digits digits 0)
  end.

(** [while (i < n && stored[i] != EQ && stored[i] != SOH)]: the offset it stops at, and
    whether every byte was a digit. *)
Fixpoint tag_stop (p : bytes) (i : Z) (digits : bool) : Z * bool :=
  match p with
  | [] => (i, digits)
  | c :: p =>
      if (c =? EQ) || (c =? SOH) then (i, digits)
      else tag_stop p (i + 1) (digits && negb ((c <? 48) || (57 <? c)))
  end.

Inductive FieldStatus : Set := fs_ok | malformed | bad_tag | bad_count.

Record FieldScan := Scan { fs_status : FieldStatus; fs_tag : Z; fs_value : bytes }.

Definition scan_field (stored : bytes) (hooks : dict_hooks) (tag_start : Z) (carry : length_data_carry)
  : FieldScan * Z * length_data_carry :=
  let n := zlen stored in
  let '(i, digits) := tag_stop (zdrop tag_start stored) tag_start true in
  let skip := skip_soh stored (soh_from (zdrop i stored) i) in
  match parse_outbound_tag (zsub stored tag_start (i - tag_start)) with
  | Some tag =>
      if (n <=? i) || negb (zget stored i =? EQ) then (Scan malformed 0 [], skip, carry_reset carry)
      else
        let vstart := i + 1 in
        match read_value hooks carry stored vstart tag with
        | (None, carry) => (Scan bad_count tag [], vstart, carry)
        | (Some ext, carry) =>
            (Scan fs_ok tag (zsub stored vstart (ve_end ext - vstart)),
             skip_soh stored (ve_end ext), carry)
        end
  | None =>
      (Scan (if (i <? n) && (zget stored i =? EQ) && digits then bad_tag else malformed) 0 [],
       skip, carry_reset carry)
  end.

(** ** build_replay_frame *)

(** The pre-scan: the first SendingTime, [None] when the frame has none. *)
Fixpoint prescan_loop (fuel : nat) (stored : bytes) (hooks : dict_hooks) (i : Z)
    (carry : length_data_carry) : expected (option bytes) :=
  match fuel with
  | O => Ok None
  | S fuel =>
      if zlen stored <=? i then Ok None
      else
        let '(fr, i, carry) := scan_field stored hooks i carry in
        match fs_status fr with
        | bad_tag => Err wire_tag_out_of_range
        | bad_count => Err wire_invalid_field_format
        | malformed => prescan_loop fuel stored hooks i carry
        | fs_ok =>
            if fs_tag fr =? 52 then Ok (Some (fs_value fr))
            else prescan_loop fuel stored hooks i carry
        end
  end.

Definition kReplayHeaderTags : list Z := [8; 34; 35; 49; 52; 56].

(** The three fields [append_possdup] writes. *)
Definition append_possdup (w : writer) (orig : option bytes) (sending_time : bytes)
  : expected unit * writer :=
  append_all w
    ((match orig with None => [(52, sending_time)] | Some _ => [] end) ++
     [(43, [89]);
      (122, if zlen (default [] orig) =? 0 then sending_time else default [] orig)]).

Fixpoint replay_write_loop (fuel : nat) (stored : bytes) (hooks : dict_hooks) (orig : option bytes)
    (sending_time : bytes) (i : Z) (carry : length_data_carry) (inserted_pd : bool) (w : writer)
  : expected bool * writer :=
  match fuel with
  | O => (Ok inserted_pd, w)
  | S fuel =>
      if zlen stored <=? i then (Ok inserted_pd, w)
      else
        let '(fr, i, carry) := scan_field stored hooks i carry in
        let tag := fs_tag fr in
        match fs_status fr with
        | bad_tag => (Err wire_tag_out_of_range, w)
        | bad_count => (Err wire_invalid_field_format, w)
        | malformed => replay_write_loop fuel stored hooks orig sending_time i carry inserted_pd w
        | fs_ok =>
            if (tag =? 9) || (tag =? 10) || (tag =? 43) || (tag =? 122) then
              replay_write_loop fuel stored hooks orig sending_time i carry inserted_pd w
            else
              let value := if tag =? 52 then sending_time else fs_value fr in
              let insert := negb inserted_pd && negb (existsb (Z.eqb tag) kReplayHeaderTags) in
              let '(r, w) := if insert then append_possdup w orig sending_time else (Ok tt, w) in
              match r with
              | Err e => (Err e, w)
              | Ok _ =>
                  match append_raw w tag value with
                  | (Err e, w) => (Err e, w)
                  | (Ok _, w) =>
                      replay_write_loop fuel stored hooks orig sending_time i carry
                        (inserted_pd || insert) w
                  end
              end
        end
  end.

Definition build_replay_frame (out stored resend_sending_time : bytes) (hooks : dict_hooks)
  : expected bytes :=
  match prescan_loop (length stored) stored hooks 0 carry_init with
  | Err e => Err e
  | Ok orig =>
      let sending_time :=
        if zlen resend_sending_time =? 0 then default [] orig else resend_sending_time in
      if zlen sending_time =? 0 then Err wire_required_field_missing
      else
        match replay_write_loop (length stored) stored hooks orig sending_time 0 carry_init false
                (writer_init out) with
        | (Err e, _) => Err e
        | (Ok inserted_pd, w) =>
            match (if inserted_pd then (Ok tt, w) else append_possdup w orig sending_time) with
            | (Err e, _) => Err e
            | (Ok _, w) =>
                match commit w with
                | (Err e, _) => Err e
                | (Ok n, w) => Ok (ztake n (w_dst w))
                end
            end
        end
  end.

(** ** Specification *)

Definition replay_kept (f : Z * bytes) : bool :=
  negb ((f.1 =? 9) || (f.1 =? 10) || (f.1 =? 43) || (f.1 =? 122)).

Definition restamp (st : bytes) (f : Z * bytes) : Z * bytes := if f.1 =? 52 then (52, st) else f.

Definition stored_52 (fs : list (Z * bytes)) : option bytes :=
  option_map snd (List.find (fun f => f.1 =? 52) fs).

Definition possdup_fields (orig : option bytes) (st : bytes) : list (Z * bytes) :=
  (match orig with None => [(52, st)] | Some _ => [] end) ++
  [(43, [89]); (122, if zlen (default [] orig) =? 0 then st else default [] orig)].

(** Before the first field that is none of the six header fields; else at the end. *)
Fixpoint insert_at_body (pd fs : list (Z * bytes)) : list (Z * bytes) :=
  match fs with
  | [] => pd
  | f :: fs =>
      if existsb (Z.eqb f.1) kReplayHeaderTags then f :: insert_at_body pd fs else pd ++ f :: fs
  end.

(** The fields a replay of [fs] writes, stamped [st]. *)
Definition replay_fields (st : bytes) (fs : list (Z * bytes)) : list (Z * bytes) :=
  insert_at_body (possdup_fields (stored_52 fs) st) (map (restamp st) (List.filter replay_kept fs)).

(** ** Lemmas *)

Lemma dec_text_lead v d ds : 1 <= v <= UINT32_MAX -> dec_text v = d :: ds -> d <> 48.
Proof.
  intros Hv E ->. pose proof (dec_text_value v ltac:(lia)) as Hval.
  pose proof (dec_text_digits v) as Hd. rewrite E in Hval, Hd. apply Forall_cons in Hd as [_ Hd].
  pose proof (dec_value_bounds ds Hd) as Hb. change (dec_value (48 :: ds)) with (dec_value ds) in Hval.
  destruct (digit_count_spec v) as (Hc & Hhi & Hlo); [lia|].
  assert (Hl : zlen (dec_text v) = Z.of_nat (digit_count v)) by apply fixed_digits_length.
  rewrite E, zlen_cons in Hl. destruct Hlo as [|Hlo]; [lia|].
  replace (Z.of_nat (digit_count v) - 1) with (zlen ds) in Hlo by lia. lia.
Qed.

Lemma outbound_digits_exact ds tag : 0 <= tag <= 0xFFFF -> digits ds -> dec_from tag ds <= 0xFFFF ->
  outbound_digits ds tag = Some (dec_from tag ds).
Proof.
  intros Ht Hd. revert tag Ht. induction Hd as [|c ds Hc Hd IH]; intros tag Ht Hm; [done|].
  cbn [outbound_digits]. rewrite dec_from_cons in *. rewrite accumulate_tag_digit_spec by done.
  pose proof Hc as Hc'. apply is_digit_spec in Hc'.
  pose proof (dec_from_mono (tag * 10 + (c - 48)) ds ltac:(lia) Hd).
  replace ((c <? 48) || (57 <? c)) with false by lia.
  replace (tag * 10 + (c - 48) <=? 0xFFFF) with true by lia. apply IH; [lia|done].
Qed.

Lemma parse_outbound_dec_text tag : 1 <= tag <= 0xFFFF -> parse_outbound_tag (dec_text tag) = Some tag.
Proof.
  intros Ht. unfold parse_outbound_tag. destruct (dec_text tag) as [|d ds] eqn:E.
  { pose proof (dec_text_nonempty tag ltac:(unfold UINT32_MAX; lia)) as H. rewrite E in H. rewrite zlen_nilZ in H. lia. }
  pose proof (dec_text_lead tag d ds ltac:(unfold UINT32_MAX; lia) E).
  replace (d =? 48) with false by lia. rewrite <- E. pose proof (dec_text_value tag) as Hv.
  unfold dec_value in Hv. rewrite outbound_digits_exact;
    [|lia|apply dec_text_digits|rewrite Hv by (unfold UINT32_MAX; lia); lia].
  rewrite Hv by (unfold UINT32_MAX; lia). cbn [option_map]. f_equal. apply wrap_small.
  change (2 ^ 16) with 65536. lia.
Qed.

Lemma tag_stop_digits ds rest i b : digits ds -> tag_stop (ds ++ EQ :: rest) i b = (i + zlen ds, b).
Proof.
  intros Hd. revert i b. induction Hd as [|c ds Hc Hd IH]; intros i b; cbn [app tag_stop].
  - rewrite zlen_nilZ. f_equal. lia.
  - apply is_digit_spec in Hc. unfold EQ, SOH.
    replace ((c =? 61) || (c =? 1)) with false by lia. fold EQ. rewrite IH, zlen_cons.
    replace ((c <? 48) || (57 <? c)) with false by lia. rewrite andb_true_r. f_equal. lia.
Qed.

(** A field the writer wrote is scanned as it was written. *)
Lemma scan_field_at h k c pre tag v rest k2 : hooks_ok h -> armed_alike h k c ->
  1 <= tag <= 0xFFFF -> (length_tag_for_data h tag = 0 -> SOH ∉ v) ->
  observe h k tag v = (true, k2) ->
  exists cnt, scan_field (pre ++ field_text tag v ++ rest) h (zlen pre) c =
      (Scan fs_ok tag v, zlen (pre ++ field_text tag v), Carry (data_tag_for_length h tag) cnt) /\
    armed_alike h k2 (Carry (data_tag_for_length h tag) cnt).
Proof.
  intros Hh Harm Ht Hs Ho.
  destruct (observed_read h k c pre tag v rest k2 Hh Harm ltac:(lia) Hs Ho) as (e & cnt & Er & Harm').
  exists cnt. split; [|exact Harm']. unfold scan_field.
  pose proof (value_place pre tag v rest) as Hvd. cbn zeta in Hvd.
  set (frame := pre ++ field_text tag v ++ rest) in *.
  assert (Hfr : frame = pre ++ dec_text tag ++ EQ :: (v ++ SOH :: rest)).
  { unfold frame, field_text. rewrite <- !app_assoc. cbn [app]. by rewrite <- app_assoc. }
  assert (Hlen : zlen frame = zlen pre + zlen (dec_text tag) + zlen v + 2 + zlen rest).
  { unfold frame. rewrite !zlen_app, zlen_field_text. lia. }
  pose proof (zlen_nonneg pre). pose proof (zlen_nonneg (dec_text tag)). pose proof (zlen_nonneg v).
  pose proof (zlen_nonneg rest).
  assert (Hst : tag_stop (zdrop (zlen pre) frame) (zlen pre) true = (zlen pre + zlen (dec_text tag), true)).
  { rewrite Hfr, zdrop_app. apply tag_stop_digits, dec_text_digits. }
  assert (Hsub : zsub frame (zlen pre) (zlen pre + zlen (dec_text tag) - zlen pre) = dec_text tag).
  { rewrite Hfr. replace (_ + _ - _) with (zlen (dec_text tag)) by lia. apply zsub_at. }
  assert (Hg : zget frame (zlen pre + zlen (dec_text tag)) = EQ).
  { rewrite Hfr, zget_at, zget_app_r, Z.sub_diag by lia. done. }
  rewrite Hst, Hsub, parse_outbound_dec_text, Hg by lia.
  replace (zlen frame <=? zlen pre + zlen (dec_text tag)) with false by lia.
  rewrite Z.eqb_refl. cbn [orb negb]. rewrite Er. cbn [ve_end].
  replace (_ + 1 + zlen v - _) with (zlen v) by lia. unfold zsub. rewrite Hvd, ztake_app.
  unfold skip_soh. replace (_ <? zlen frame) with true by lia.
  do 3 f_equal. rewrite zlen_app, zlen_field_text. lia.
Qed.

(** What holds of the rest of a conforming message at every field. *)
Record scannable (h : dict_hooks) (k : length_data_checker) (c : length_data_carry)
    (fs : list (Z * bytes)) : Prop := Scannable {
  scannable_observed : exists k', observe_all h k fs = Some k';
  scannable_armed : armed_alike h k c;
  scannable_tags : Forall (fun f => 1 <= f.1 <= 0xFFFF) fs;
  scannable_values : Forall (fun f => length_tag_for_data h f.1 = 0 -> SOH ∉ f.2) fs;
}.

Lemma scannable_step h k c pre tag v fs : hooks_ok h -> scannable h k c ((tag, v) :: fs) ->
  1 <= tag <= 0xFFFF /\
  exists k2 c2, scan_field (pre ++ fields_bytes ((tag, v) :: fs)) h (zlen pre) c =
      (Scan fs_ok tag v, zlen (pre ++ field_text tag v), c2) /\ scannable h k2 c2 fs.
Proof.
  intros Hh [[k' Ho] Harm Ht Hs]. apply Forall_cons in Ht as [Ht Hts].
  apply Forall_cons in Hs as [Hs Hss]. cbn [fst snd] in Ht, Hs. split; [done|].
  cbn [observe_all] in Ho. destruct (observe h k tag v) as [ok k2] eqn:Eo. destruct ok; [|done].
  rewrite fields_bytes_cons.
  destruct (scan_field_at h k c pre tag v (fields_bytes fs) k2 Hh Harm Ht Hs Eo) as (cnt & E & Harm').
  exists k2. eexists. split; [exact E|]. split; [by exists k'|done..].
Qed.

Lemma fields_room pre tag v fs :
  (zlen (pre ++ fields_bytes ((tag, v) :: fs)) <=? zlen pre) = false /\
  pre ++ fields_bytes ((tag, v) :: fs) = (pre ++ field_text tag v) ++ fields_bytes fs.
Proof.
  rewrite fields_bytes_cons. split; [|apply app_assoc].
  rewrite !zlen_app, zlen_field_text. pose proof (zlen_nonneg (dec_text tag)). pose proof (zlen_nonneg v).
  pose proof (zlen_nonneg (fields_bytes fs)). lia.
Qed.

Lemma prescan_fields h fs : hooks_ok h -> forall fuel pre k c, scannable h k c fs ->
  (length fs <= fuel)%nat ->
  prescan_loop fuel (pre ++ fields_bytes fs) h (zlen pre) c = Ok (stored_52 fs).
Proof.
  intros Hh. induction fs as [|[tag v] fs IH]; intros fuel pre k c Hsc Hf.
  - change (fields_bytes []) with (@nil Z). rewrite app_nil_r.
    destruct fuel; cbn [prescan_loop]; [done|]. by rewrite Z.leb_refl.
  - destruct fuel as [|fuel]; [cbn in Hf; lia|]. cbn [prescan_loop].
    destruct (fields_room pre tag v fs) as [-> Ef].
    destruct (scannable_step h k c pre tag v fs Hh Hsc) as (_ & k2 & c2 & -> & Hsc2).
    cbn [fs_status fs_tag fs_value]. unfold stored_52. cbn [List.find fst].
    destruct (tag =? 52); [done|]. rewrite Ef. apply (IH _ _ k2); [done|cbn in Hf; lia].
Qed.

Lemma append_all_app w a b : append_all w (a ++ b) =
  match append_all w a with (Ok _, w) => append_all w b | (Err e, w) => (Err e, w) end.
Proof.
  revert w. induction a as [|[t v] a IH]; intros w; cbn [append_all app]; [done|].
  destruct (append_raw w t v) as [[] w']; [apply IH|done].
Qed.

Lemma append_possdup_eq w orig st : append_possdup w orig st = append_all w (possdup_fields orig st).
Proof. done. Qed.

(** What the write loop leaves for the fallback, and what it writes. *)
Definition body_seen (fs : list (Z * bytes)) : bool :=
  existsb (fun f => negb (existsb (Z.eqb f.1) kReplayHeaderTags)) (List.filter replay_kept fs).

Fixpoint insert_mid (pd fs : list (Z * bytes)) : list (Z * bytes) :=
  match fs with
  | [] => []
  | f :: fs =>
      if existsb (Z.eqb f.1) kReplayHeaderTags then f :: insert_mid pd fs else pd ++ f :: fs
  end.

Definition loop_fields (st : bytes) (orig : option bytes) (inserted : bool) (fs : list (Z * bytes)) :=
  let l := map (restamp st) (List.filter replay_kept fs) in
  if inserted then l else insert_mid (possdup_fields orig st) l.

Lemma restamp_tag st f : (restamp st f).1 = f.1.
Proof. unfold restamp. destruct (f.1 =? 52) eqn:E; [cbn; lia|done]. Qed.

Lemma replay_write_fields h fs st orig : hooks_ok h -> forall fuel pre k c ins w,
  scannable h k c fs -> (length fs <= fuel)%nat ->
  replay_write_loop fuel (pre ++ fields_bytes fs) h orig st (zlen pre) c ins w =
    match append_all w (loop_fields st orig ins fs) with
    | (Ok _, w) => (Ok (ins || body_seen fs), w)
    | (Err e, w) => (Err e, w)
    end.
Proof.
  intros Hh. induction fs as [|[tag v] fs IH]; intros fuel pre k c ins w Hsc Hf.
  - change (fields_bytes []) with (@nil Z). rewrite app_nil_r.
    assert (E : append_all w (loop_fields st orig ins []) = (Ok tt, w)) by by destruct ins.
    rewrite E. unfold body_seen. cbn [List.filter existsb]. rewrite orb_false_r.
    destruct fuel; cbn [replay_write_loop]; [done|]. by rewrite Z.leb_refl.
  - destruct fuel as [|fuel]; [cbn in Hf; lia|]. cbn [replay_write_loop].
    destruct (fields_room pre tag v fs) as [-> Ef].
    destruct (scannable_step h k c pre tag v fs Hh Hsc) as (_ & k2 & c2 & -> & Hsc2).
    cbn [fs_status fs_tag fs_value]. rewrite Ef. specialize (IH fuel (pre ++ field_text tag v) k2 c2).
    unfold loop_fields, body_seen. cbn [List.filter].
    assert (Hk : replay_kept (tag, v) = negb ((tag =? 9) || (tag =? 10) || (tag =? 43) || (tag =? 122))) by done.
    rewrite Hk. destruct ((tag =? 9) || (tag =? 10) || (tag =? 43) || (tag =? 122)); cbn [negb].
    { apply IH; [done|cbn in Hf; lia]. }
    cbn [map existsb fst]. set (l := map (restamp st) (List.filter replay_kept fs)).
    assert (Hr : restamp st (tag, v) = (tag, if tag =? 52 then st else v)).
    { unfold restamp. cbn [fst]. destruct (tag =? 52) eqn:E; [f_equal; lia|done]. }
    rewrite Hr. set (v' := if tag =? 52 then st else v).
    destruct ins; cbn [negb andb orb].
    + cbn [append_all]. destruct (append_raw w tag v') as [[] w']; [|done].
      apply (IH true); [done|cbn in Hf; lia].
    + cbn [insert_mid fst]. destruct (existsb (Z.eqb tag) kReplayHeaderTags) eqn:Es; cbn [negb orb].
      * cbn [append_all]. destruct (append_raw w tag v') as [[] w']; [|done].
        apply (IH false); [done|cbn in Hf; lia].
      * rewrite append_possdup_eq, append_all_app.
        destruct (append_all w (possdup_fields orig st)) as [[] w']; [|done]. cbn [append_all].
        destruct (append_raw w' tag v') as [[] w2]; [|done].
        rewrite (IH true) by (done || (cbn in Hf; lia)). done.
Qed.

Lemma insert_at_body_mid pd l :
  insert_at_body pd l =
    if existsb (fun f => negb (existsb (Z.eqb f.1) kReplayHeaderTags)) l then insert_mid pd l else l ++ pd.
Proof.
  induction l as [|f l IH]; cbn [insert_at_body existsb insert_mid]; [done|].
  destruct (existsb (Z.eqb f.1) kReplayHeaderTags); cbn [negb orb app]; [|done].
  rewrite IH. by destruct (existsb _ l).
Qed.

Lemma insert_mid_none pd l :
  existsb (fun f : Z * bytes => negb (existsb (Z.eqb f.1) kReplayHeaderTags)) l = false -> insert_mid pd l = l.
Proof.
  induction l as [|f l IH]; cbn [existsb insert_mid]; [done|].
  destruct (existsb (Z.eqb f.1) kReplayHeaderTags); cbn [negb orb]; [|done]. intros H. by rewrite IH.
Qed.

Lemma body_seen_restamp st fs :
  existsb (fun f => negb (existsb (Z.eqb f.1) kReplayHeaderTags))
    (map (restamp st) (List.filter replay_kept fs)) = body_seen fs.
Proof.
  unfold body_seen. induction (List.filter replay_kept fs) as [|f l IH]; [done|].
  cbn [map existsb]. by rewrite restamp_tag, IH.
Qed.

(** The stamp a replay carries. *)
Definition replay_stamp (resend_sending_time : bytes) (fs : list (Z * bytes)) : bytes :=
  if zlen resend_sending_time =? 0 then default [] (stored_52 fs) else resend_sending_time.

Definition stored_message (h : dict_hooks) (fs : list (Z * bytes)) : Prop :=
  conforming h fs /\ Forall (fun f => 1 <= f.1) fs.

Lemma stored_scannable h fs : stored_message h fs -> scannable h checker_init carry_init fs.
Proof.
  intros [[Hh Hc Ht Hs] Hp]. unfold container_conforms in Hc.
  destruct (observe_all h checker_init fs) as [k'|] eqn:Eo; [|done].
  split; [by exists k'|split; [done|split; [done|by left]]| |done].
  apply Forall_forall. intros f Hf. rewrite Forall_forall in Ht, Hp. specialize (Ht f Hf). specialize (Hp f Hf). lia.
Qed.

Lemma replay_build out h fs st : stored_message h fs ->
  build_replay_frame out (fields_bytes fs) st h =
    if zlen (replay_stamp st fs) =? 0 then Err wire_required_field_missing
    else
      match append_all (writer_init out) (replay_fields (replay_stamp st fs) fs) with
      | (Err e, _) => Err e
      | (Ok _, w) =>
          match commit w with (Err e, _) => Err e | (Ok n, w) => Ok (ztake n (w_dst w)) end
      end.
Proof.
  intros Hsm. pose proof (stored_scannable h fs Hsm) as Hsc. destruct Hsm as [[Hh _ _ _] _].
  assert (Hl : (length fs <= length (fields_bytes fs))%nat).
  { pose proof (fields_bytes_length fs). unfold zlen in *. lia. }
  unfold build_replay_frame. pose proof (prescan_fields h fs Hh _ [] _ _ Hsc Hl) as Hp.
  change (zlen []) with 0 in Hp. cbn [app] in Hp. rewrite Hp. fold (replay_stamp st fs).
  set (st' := replay_stamp st fs). destruct (zlen st' =? 0); [done|].
  pose proof (replay_write_fields h fs st' (stored_52 fs) Hh _ [] _ _ false (writer_init out) Hsc Hl) as Hw.
  change (zlen []) with 0 in Hw. cbn [app] in Hw. rewrite Hw. cbn [orb].
  unfold loop_fields, replay_fields. rewrite insert_at_body_mid, body_seen_restamp.
  destruct (body_seen fs) eqn:Eb.
  - by destruct (append_all _ _) as [[] w].
  - rewrite insert_mid_none, append_all_app by (by rewrite body_seen_restamp).
    destruct (append_all (writer_init out) (map (restamp st') (List.filter replay_kept fs))) as [[] w]; [|done]. rewrite append_possdup_eq.
    by destruct (append_all w _) as [[] w'].
Qed.

(** *** Reading a replay back *)

Definition plain_tag (h : dict_hooks) (t : Z) : Prop :=
  data_tag_for_length h t = 0 /\ length_tag_for_data h t = 0.

Definition replay_tags : list Z := [8; 9; 10; 34; 35; 43; 49; 52; 56; 122].

Lemma replay_tags_plain h t : admin_hooks h -> t ∈ replay_tags -> plain_tag h t.
Proof.
  intros Hh Ht. pose proof (admin_plain (h := h)) as H. rewrite Forall_forall in H. apply H.
  assert (Hs : Forall (fun t => t ∈ admin_tags) replay_tags) by (apply (bool_decide_unpack _); vm_compute; exact I).
  rewrite Forall_forall in Hs. by apply Hs.
Qed.

Ltac in_tags := apply (bool_decide_unpack _); vm_compute; exact I.

(** A checker awaits a Data tag the dictionary pairs. *)
Definition awaits_data (h : dict_hooks) (k : length_data_checker) : Prop :=
  failed k = false /\ (awaited_data k = 0 \/ length_tag_for_data h (awaited_data k) <> 0).

Lemma awaits_step h k tag v k2 : hooks_ok h -> 1 <= tag <= 0xFFFF -> awaits_data h k ->
  observe h k tag v = (true, k2) -> awaits_data h k2.
Proof.
  intros Hh Ht [Hf Ha] Ho. destruct (observe_cases h k tag v k2 Hf Ho) as [? ? ?|? Hn Hd ? ?|? ? ?];
    [split; [done|by left]| |by split].
  split; [done|right]. cbn [awaited_data].
  rewrite (proj1 (hooks_inverse h tag _ Hh ltac:(unfold tag16; lia) (data_tag_range _ _ Hh) ltac:(lia) Hd) eq_refl). lia.
Qed.

Lemma observe_plain h k tag v k2 : awaits_data h k -> plain_tag h tag ->
  observe h k tag v = (true, k2) -> k2 = k /\ awaited_data k = 0.
Proof.
  intros [Hf Ha] [Hd Hl] Ho. destruct (observe_cases h k tag v k2 Hf Ho) as [Hn -> ?|? ? Hd' ? ?|? ? ?];
    [|lia|done]. destruct Ha; lia.
Qed.

Lemma observe_plain_ok h k tag v : failed k = false -> awaited_data k = 0 -> plain_tag h tag ->
  observe h k tag v = (true, k).
Proof. intros Hf Ha [Hd Hl]. unfold observe. by rewrite Hf, Ha, Hl, Hd. Qed.

Lemma observe_plain_all h k fs : failed k = false -> awaited_data k = 0 ->
  Forall (fun f => plain_tag h f.1) fs -> observe_all h k fs = Some k.
Proof.
  intros Hf Ha. induction 1 as [|[t v] fs Ht _ IH]; [done|]. cbn [observe_all].
  by rewrite observe_plain_ok.
Qed.

Section Conforms.
Context (h : dict_hooks) (st : bytes) `{Hh : !admin_hooks h}.

Lemma observe_kept fs : forall k k', awaits_data h k -> Forall (fun f => 1 <= f.1 <= 0xFFFF) fs ->
  observe_all h k fs = Some k' ->
  observe_all h k (map (restamp st) (List.filter replay_kept fs)) = Some k'.
Proof using Hh.
  induction fs as [|[tag v] fs IH]; intros k k' Hk Ht Ho; [done|].
  apply Forall_cons in Ht as [Ht Hts]. cbn [fst] in Ht. cbn [observe_all] in Ho.
  destruct (observe h k tag v) as [ok k2] eqn:Eo. destruct ok; [|done].
  pose proof (awaits_step h k tag v k2 _ Ht Hk Eo) as Hk2. specialize (IH k2 k' Hk2 Hts Ho).
  cbn [List.filter]. destruct (replay_kept (tag, v)) eqn:Er.
  - cbn [map]. unfold restamp at 1. cbn [fst]. destruct (tag =? 52) eqn:E52; cbn [observe_all].
    + assert (tag = 52) as -> by lia.
      assert (Hp : plain_tag h 52) by (apply replay_tags_plain; [done|in_tags]).
      destruct (observe_plain h k 52 v k2 Hk Hp Eo) as [-> Ha].
      rewrite observe_plain_ok by (done || apply Hk). exact IH.
    + rewrite Eo. exact IH.
  - assert (Hp : plain_tag h tag).
    { apply replay_tags_plain; [done|]. unfold replay_kept in Er. cbn [fst] in Er.
      assert (tag = 9 \/ tag = 10 \/ tag = 43 \/ tag = 122) as [-> | [-> | [-> | ->] ] ] by lia; in_tags. }
    destruct (observe_plain h k tag v k2 Hk Hp Eo) as [-> _]. exact IH.
Qed.

Lemma header_tag_plain t : existsb (Z.eqb t) kReplayHeaderTags = true -> plain_tag h t.
Proof using Hh.
  intros (x & Hx & E)%existsb_exists. apply Z.eqb_eq in E as ->. apply replay_tags_plain; [done|].
  assert (Hs : Forall (fun t => t ∈ replay_tags) kReplayHeaderTags) by in_tags.
  rewrite Forall_forall in Hs. by apply Hs, list_elem_of_In.
Qed.

Lemma observe_insert pd l : forall k k', awaits_data h k -> awaited_data k = 0 ->
  Forall (fun f => plain_tag h f.1) pd -> observe_all h k l = Some k' ->
  observe_all h k (insert_at_body pd l) = Some k'.
Proof using Hh.
  induction l as [|[tag v] l IH]; intros k k' Hk Ha Hpd Ho; cbn [insert_at_body fst].
  - cbn in Ho. injection Ho as <-. apply observe_plain_all; [apply Hk|done..].
  - destruct (existsb (Z.eqb tag) kReplayHeaderTags) eqn:Es.
    + cbn [observe_all] in *. destruct (observe h k tag v) as [ok k2] eqn:Eo. destruct ok; [|done].
      destruct (observe_plain h k tag v k2 Hk (header_tag_plain _ Es) Eo) as [-> _]. by apply IH.
    + rewrite observe_all_app, observe_plain_all by (done || apply Hk). exact Ho.
Qed.

Lemma possdup_plain orig : Forall (fun f => plain_tag h f.1) (possdup_fields orig st).
Proof using Hh.
  assert (H : forall t v, t ∈ replay_tags -> plain_tag h (t, v : bytes).1)
    by (intros t v Ht; by apply replay_tags_plain).
  unfold possdup_fields. destruct orig; cbn [app]; (repeat apply Forall_cons_2; [..|apply Forall_nil_2]);
    apply H; in_tags.
Qed.

Lemma observe_replay fs k' : Forall (fun f => 1 <= f.1 <= 0xFFFF) fs ->
  observe_all h checker_init fs = Some k' ->
  observe_all h checker_init (replay_fields st fs) = Some k'.
Proof using Hh.
  intros Ht Ho. apply observe_insert; [split; [done|by left]|done|apply possdup_plain|].
  apply observe_kept; [split; [done|by left]|done..].
Qed.
End Conforms.

Lemma insert_at_body_forall (P : Z * bytes -> Prop) pd l :
  Forall P pd -> Forall P l -> Forall P (insert_at_body pd l).
Proof.
  intros Hp. induction 1 as [|f l Hf Hl IH]; cbn [insert_at_body]; [done|].
  destruct (existsb _ _); [by constructor|]. apply Forall_app. split; [done|by constructor].
Qed.

Lemma replay_forall (P : Z * bytes -> Prop) st fs :
  Forall P (possdup_fields (stored_52 fs) st) -> P (52, st) -> Forall P fs -> Forall P (replay_fields st fs).
Proof.
  intros Hp H52 Hf. apply insert_at_body_forall; [done|]. apply Forall_map, Forall_forall.
  intros f Hin. apply list_elem_of_In, List.filter_In in Hin as [Hin _].
  unfold restamp. destruct (f.1 =? 52); [done|]. rewrite Forall_forall in Hf. apply Hf. by apply list_elem_of_In.
Qed.

Lemma replay_of_frame st bs fs :
  replay_fields st (frame_fields bs fs) = (8, bs) :: replay_fields st fs.
Proof.
  unfold replay_fields, frame_fields. cbn zeta. cbn [List.filter]. unfold replay_kept at 1 2. cbn -[List.filter replay_fields].
  rewrite List.filter_app. cbn [List.filter]. unfold replay_kept at 2. cbn -[List.filter].
  rewrite app_nil_r. unfold stored_52. cbn [List.find fst Z.eqb Pos.eqb].
  assert (E : forall x, List.find (fun f : Z * bytes => f.1 =? 52) (fs ++ [(10, x)]) =
    List.find (fun f : Z * bytes => f.1 =? 52) fs).
  { intros x. induction fs as [|f l IH]; [done|]. cbn [app List.find]. by rewrite IH. }
  by rewrite E.
Qed.

Lemma stored_52_frame bs fs : stored_52 (frame_fields bs fs) = stored_52 fs.
Proof.
  unfold stored_52, frame_fields. cbn zeta. cbn [List.find fst Z.eqb Pos.eqb].
  match goal with |- context [(10, ?x)] => generalize x end. intros x.
  induction fs as [|f l IH]; [done|]. cbn [app List.find]. by destruct (f.1 =? 52).
Qed.

Lemma last_value_insert t pd l d : Forall (fun f => f.1 <> t) pd ->
  last_value t (insert_at_body pd l) d = last_value t l d.
Proof.
  intros Hp. revert d. induction l as [|f l IH]; intros d; cbn [insert_at_body].
  - by apply last_value_none.
  - destruct (existsb _ _); [apply IH|]. by rewrite last_value_app, (last_value_none t pd).
Qed.

Lemma last_value_only t pd l d : Forall (fun f => f.1 <> t) l ->
  last_value t (insert_at_body pd l) d = last_value t pd d.
Proof.
  revert d. induction l as [|f l IH]; intros d Hl; cbn [insert_at_body]; [done|].
  pose proof Hl as Hl'. apply Forall_cons in Hl as [Hf Hl]. destruct (existsb _ _).
  - rewrite last_value_cons. replace (f.1 =? t) with false by lia. by apply IH.
  - by rewrite last_value_app, (last_value_none t (f :: l)).
Qed.

Lemma last_value_kept t st fs d : t <> 9 -> t <> 10 -> t <> 43 -> t <> 122 -> t <> 52 ->
  last_value t (map (restamp st) (List.filter replay_kept fs)) d = last_value t fs d.
Proof.
  intros ? ? ? ? ?. revert d. induction fs as [|[tag v] fs IH]; intros d; [done|].
  rewrite last_value_cons. cbn [List.filter fst snd]. destruct (replay_kept (tag, v)) eqn:E; cbn [map].
  - rewrite last_value_cons, IH. f_equal. unfold restamp. cbn [fst snd].
    destruct (tag =? 52) eqn:E52; cbn [fst snd]; [|done].
    replace (52 =? t) with false by lia. by replace (tag =? t) with false by lia.
  - rewrite IH. unfold replay_kept in E. cbn [fst] in E. by replace (tag =? t) with false by lia.
Qed.

Lemma kept_tags st fs :
  Forall (fun f => f.1 <> 43 /\ f.1 <> 122 /\ (f.1 = 52 -> f.2 = st)) (map (restamp st) (List.filter replay_kept fs)).
Proof.
  apply Forall_map, Forall_forall. intros f Hf. apply list_elem_of_In, List.filter_In in Hf as [_ Hk].
  unfold replay_kept in Hk. unfold restamp. destruct (f.1 =? 52) eqn:E; cbn [fst snd]; split_and!; (lia || done).
Qed.

Lemma last_value_same t v fs d : Forall (fun f => f.1 = t -> f.2 = v) fs -> d = v ->
  last_value t fs d = v.
Proof.
  intros Hf ->. induction Hf as [|f fs Hf _ IH]; [done|]. rewrite last_value_cons.
  destruct (f.1 =? t) eqn:E; [by rewrite Hf by lia|done].
Qed.

Lemma last_value_frame t bs l : t <> 9 -> t <> 10 ->
  last_value t (frame_fields bs l) [] = last_value t l (if 8 =? t then bs else []).
Proof.
  intros H9 H10. unfold frame_fields. cbn zeta. rewrite !last_value_cons, last_value_app, last_value_cons.
  cbn [fst snd]. replace (9 =? t) with false by lia. replace (10 =? t) with false by lia. done.
Qed.

Lemma replay_same t st fs d : existsb (Z.eqb t) [9; 10; 43; 122; 52] = false ->
  last_value t (replay_fields st fs) d = last_value t fs d.
Proof.
  cbn [existsb]. intros Ht. unfold replay_fields. rewrite last_value_insert; [apply last_value_kept; lia|].
  unfold possdup_fields. destruct (stored_52 fs); repeat constructor; cbn; lia.
Qed.

Lemma replay_52 st fs : last_value 52 (replay_fields st fs) [] = st.
Proof.
  unfold replay_fields, possdup_fields. pose proof (kept_tags st fs) as Hk.
  destruct (stored_52 fs) as [v|] eqn:E.
  - rewrite last_value_insert by (repeat constructor; cbn; lia).
    unfold stored_52 in E. destruct (List.find _ fs) as [f|] eqn:Ef; [|done].
    apply List.find_some in Ef as [Hin Htag].
    assert (Hf : (52, st) ∈ map (restamp st) (List.filter replay_kept fs)).
    { apply list_elem_of_In. apply in_map_iff. exists f. split; [unfold restamp; by rewrite Htag|].
      apply List.filter_In. split; [done|]. unfold replay_kept. lia. }
    apply list_elem_of_split in Hf as (l1 & l2 & Hf). rewrite Hf in Hk |- *.
    rewrite last_value_app, last_value_cons. cbn [fst snd Z.eqb Pos.eqb].
    apply last_value_same; [|done]. apply Forall_app in Hk as [_ Hk]. apply Forall_cons in Hk as [_ Hk].
    eapply Forall_impl; [exact Hk|]. cbn. tauto.
  - rewrite last_value_only; [done|]. apply Forall_map, Forall_forall. intros f Hf.
    apply list_elem_of_In, List.filter_In in Hf as [Hin _]. rewrite restamp_tag. intros H52.
    unfold stored_52 in E. destruct (List.find _ fs) eqn:Ef; [done|].
    apply (List.find_none _ _ Ef) in Hin. lia.
Qed.

Lemma replay_43_122 st fs :
  last_value 43 (replay_fields st fs) [] = [89] /\
  last_value 122 (replay_fields st fs) [] =
    (if zlen (default [] (stored_52 fs)) =? 0 then st else default [] (stored_52 fs)).
Proof.
  pose proof (kept_tags st fs) as Hk. unfold replay_fields.
  split; rewrite last_value_only; try (eapply Forall_impl; [exact Hk|cbn; tauto]);
    unfold possdup_fields; destruct (stored_52 fs); done.
Qed.

(** The fields a replay neither adds nor restamps. *)
Definition is_original (f : Z * bytes) : bool :=
  replay_kept f && negb (f.1 =? 52).

Lemma replay_originals st fs :
  List.filter is_original (replay_fields st fs) = List.filter is_original fs.
Proof.
  unfold replay_fields. assert (Hp : List.filter is_original (possdup_fields (stored_52 fs) st) = [])
    by (unfold possdup_fields; by destruct (stored_52 fs)).
  assert (Hi : forall l, List.filter is_original (insert_at_body (possdup_fields (stored_52 fs) st) l) =
    List.filter is_original l).
  { induction l as [|f l IH]; cbn [insert_at_body]; [done|]. destruct (existsb _ _).
    - cbn [List.filter]. by rewrite IH.
    - by rewrite List.filter_app, Hp. }
  rewrite Hi. clear. induction fs as [|f fs IH]; [done|]. cbn [List.filter].
  destruct (replay_kept f) eqn:Ek.
  - cbn [map List.filter]. assert (Ho : is_original (restamp st f) = is_original f).
    { unfold is_original, replay_kept. by rewrite restamp_tag. }
    rewrite Ho, IH. unfold restamp. destruct (f.1 =? 52) eqn:E; [|done].
    unfold is_original. by rewrite E, andb_false_r.
  - rewrite IH. unfold is_original. by rewrite Ek.
Qed.

Lemma replay_exact out h bs fs st :
  stored_message h (frame_fields bs fs) -> zlen out <= UINT32_MAX ->
  SOH ∉ bs ->
  let st' := replay_stamp st fs in
  let body := replay_fields st' fs in
  build_replay_frame out (frame_text bs fs) st h =
    if zlen st' =? 0 then Err wire_required_field_missing
    else if (zlen (frame_text bs body) <=? zlen out) && (zlen (fields_bytes body) <=? 999999)
    then Ok (frame_text bs body)
    else Err (if (999999 <? zlen (fields_bytes body)) &&
                 (zlen (field_text 8 bs) + 9 + zlen (fields_bytes body) <=? zlen out)
              then wire_frame_too_large else wire_field_value_truncated).
Proof.
  intros Hsm Ho Hbs st' body. rewrite frame_text_fields, replay_build by done.
  assert (Es : replay_stamp st (frame_fields bs fs) = st') by (unfold st', replay_stamp; by rewrite stored_52_frame).
  rewrite Es, replay_of_frame. fold body. destruct (zlen st' =? 0); [done|].
  assert (Ht : Forall (fun f => 0 <= f.1 <= 0xFFFF) body).
  { destruct Hsm as [[_ _ Ht _] _]. unfold frame_fields in Ht. cbn zeta in Ht.
    apply Forall_cons in Ht as [_ Ht]. apply Forall_cons in Ht as [_ Ht]. apply Forall_app in Ht as [Ht _].
    apply replay_forall; [|cbn; lia|done]. unfold possdup_fields.
    destruct (stored_52 fs); repeat constructor; cbn; lia. }
  pose proof (write_message_outcome out bs body Ho Ht) as H. cbn zeta in H. unfold write_message in H.
  destruct (_ && _).
  - destruct H as (w & rest & H & Hw & _).
    destruct (append_all _ _) as [[] w1]; [|done]. rewrite H, Hw. by rewrite ztake_app.
  - destruct H as (w & H). destruct (append_all _ _) as [[] w1]; [by rewrite H|]. by injection H as ->.
Qed.

Lemma conforming_tail h bs fs : stored_message h (frame_fields bs fs) ->
  Forall (fun f => 1 <= f.1 <= 0xFFFF) fs /\
  Forall (fun f => length_tag_for_data h f.1 = 0 -> SOH ∉ f.2) fs.
Proof.
  intros [[_ _ Ht Hs] Hp]. unfold frame_fields in *. cbn zeta in *.
  rewrite !Forall_cons, !Forall_app in Ht, Hs, Hp. destruct Ht as (_ & _ & Ht & _), Hs as (_ & _ & Hs & _), Hp as (_ & _ & Hp & _).
  split; [|done]. apply Forall_forall. intros f Hf. rewrite Forall_forall in Ht, Hp.
  specialize (Ht f Hf). specialize (Hp f Hf). lia.
Qed.

Lemma stored_52_clean h fs v : admin_hooks h -> stored_52 fs = Some v ->
  Forall (fun f => length_tag_for_data h f.1 = 0 -> SOH ∉ f.2) fs -> SOH ∉ v.
Proof.
  intros Hh E Hs. unfold stored_52 in E. destruct (List.find _ fs) as [f|] eqn:Ef; [|done].
  injection E as <-. apply List.find_some in Ef as [Hin Ht]. rewrite Forall_forall in Hs.
  apply (Hs f); [by apply list_elem_of_In|]. replace f.1 with 52 by lia.
  apply (replay_tags_plain h 52); [done|in_tags].
Qed.

Ltac forall_lits := repeat (apply Forall_cons_2; [by intros _|]); apply Forall_nil_2.

Lemma replay_conforming h bs fs st :
  admin_hooks h -> stored_message h (frame_fields bs fs) -> SOH ∉ bs -> SOH ∉ st ->
  conforming h (frame_fields bs (replay_fields st fs)).
Proof.
  intros Hh Hsm Hbs Hst. destruct (conforming_tail h bs fs Hsm) as [Ht Hs].
  assert (Hp : forall t, t ∈ replay_tags -> plain_tag h t) by (intros; by apply replay_tags_plain).
  assert (H8 : plain_tag h 8) by (apply Hp; in_tags). assert (H9 : plain_tag h 9) by (apply Hp; in_tags).
  assert (H10 : plain_tag h 10) by (apply Hp; in_tags).
  assert (Ho : exists k', observe_all h checker_init fs = Some k' /\ finish k' = (true, Checker 0 (awaited_len k') false)).
  { destruct Hsm as [[_ Hc _ _] _]. unfold container_conforms, frame_fields in Hc. cbn zeta in Hc.
    cbn [observe_all] in Hc. rewrite !observe_plain_ok in Hc by done. rewrite observe_all_app in Hc.
    destruct (observe_all h checker_init fs) as [k'|] eqn:Eo; [|done]. exists k'. split; [done|].
    cbn [observe_all] in Hc. destruct (observe h k' 10 _) as [ok k2] eqn:E10. destruct ok; [|done].
    assert (Hk : awaits_data h k').
    { clear - Eo Ht Hh. revert Eo Ht. assert (G : awaits_data h checker_init) by (split; [done|by left]).
      revert G. generalize checker_init as k. induction fs as [|[t v] fs IH]; intros k G Eo Ht; cbn [observe_all] in Eo.
      - by injection Eo as <-.
      - apply Forall_cons in Ht as [Ht Hts]. destruct (observe h k t v) as [ok k2] eqn:E. destruct ok; [|done].
        eapply IH; [|exact Eo|exact Hts]. eapply awaits_step; [apply _|exact Ht|exact G|exact E]. }
    destruct (observe_plain h k' 10 _ k2 Hk H10 E10) as [-> Ha]. unfold finish. rewrite (proj1 Hk), Ha. done. }
  destruct Ho as (k' & Ho & Hfin). split.
  - apply _.
  - unfold container_conforms, frame_fields. cbn zeta. cbn [observe_all].
    rewrite !observe_plain_ok by done. rewrite observe_all_app, (observe_replay h st fs k') by done.
    unfold finish in Hfin. injection Hfin as Hk. apply andb_true_iff in Hk as [Hf Ha].
    cbn [observe_all]. rewrite observe_plain_ok; [|by apply negb_true_iff|lia|done].
    unfold finish. cbn [fst]. by rewrite Hf, Ha.
  - unfold frame_fields. cbn zeta. apply Forall_cons. split; [cbn; lia|]. apply Forall_cons. split; [cbn; lia|].
    apply Forall_app. split; [|apply Forall_singleton; cbn; lia].
    apply replay_forall; [|cbn; lia|eapply Forall_impl; [exact Ht|cbn; lia]].
    unfold possdup_fields. destruct (stored_52 fs); repeat constructor; cbn; lia.
  - unfold frame_fields. cbn zeta. apply Forall_cons. split; [done|].
    apply Forall_cons. split; [intros _; apply dec_text_clean|].
    apply Forall_app. split; [|apply Forall_singleton; intros _; apply digits_no_SOH, fixed_digits_digits].
    apply replay_forall; [|done|done].
    assert (H89 : SOH ∉ [89]) by (unfold SOH; intros H%list_elem_of_singleton; lia).
    unfold possdup_fields. destruct (stored_52 fs) as [v|] eqn:E52; cbn [app from_option id].
    + pose proof (stored_52_clean h fs v Hh E52 Hs). destruct (zlen v =? 0); forall_lits.
    + change (zlen (@nil Z)) with 0. forall_lits.
Qed.

(** ** Properties *)

(** C35: what a resend answer carries.  A stored message (of fields that pass the
    Length+Data rule, their ordinary values free of SOH) is rebuilt with its BodyLength,
    CheckSum and any old PossDupFlag and OrigSendingTime dropped, every SendingTime
    replaced by the stamp, and PossDupFlag and OrigSendingTime inserted before its first
    field outside the six header tags, or at its end; every other field is kept, in
    place and to the byte.  The call succeeds iff that frame fits the buffer and the
    stamp is not empty, and otherwise says why. *)
Theorem replay_frame_exact out h bs fs st :
  stored_message h (frame_fields bs fs) -> zlen out <= UINT32_MAX -> SOH ∉ bs ->
  let st' := replay_stamp st fs in
  let body := replay_fields st' fs in
  build_replay_frame out (frame_text bs fs) st h =
    if zlen st' =? 0 then Err wire_required_field_missing
    else if (zlen (frame_text bs body) <=? zlen out) && (zlen (fields_bytes body) <=? 999999)
    then Ok (frame_text bs body)
    else Err (if (999999 <? zlen (fields_bytes body)) &&
                 (zlen (field_text 8 bs) + 9 + zlen (fields_bytes body) <=? zlen out)
              then wire_frame_too_large else wire_field_value_truncated).
Proof. apply replay_exact. Qed.

(** [8=F|9=..|35=D|34=7|49=A|52=t|56=B|55=Z|10=..|], resent at "u" in a large buffer, in a
    small one, and with no stamp at all stored or given. *)
Definition sample_stored : list (Z * bytes) :=
  [(35, [68]); (34, [55]); (49, [65]); (52, [116]); (56, [66]); (55, [90])].

Lemma stored_by_computation fs :
  container_conforms no_hooks fs = true ->
  forallb (fun f => (1 <=? f.1) && (f.1 <=? 0xFFFF) && forallb (fun c => negb (c =? SOH)) f.2) fs = true ->
  stored_message no_hooks fs.
Proof.
  intros Hc Hf. rewrite forallb_forall in Hf.
  assert (H : forall f, f ∈ fs -> 1 <= f.1 <= 0xFFFF /\ SOH ∉ f.2).
  { intros f Hin%list_elem_of_In%Hf. apply andb_true_iff in Hin as [Ht Hv]. split; [lia|].
    rewrite forallb_forall in Hv. intros Hs%list_elem_of_In%Hv. done. }
  split; [split; [apply _|exact Hc|..]|]; apply Forall_forall; intros f Hin; destruct (H f Hin); try lia; done.
Qed.

Lemma sample_stored_ok : stored_message no_hooks (frame_fields [70] sample_stored).
Proof. apply stored_by_computation; by vm_compute. Qed.

Lemma replay_frame_exact_witness :
  build_replay_frame (replicate 128 0) (frame_text [70] sample_stored) [117] no_hooks =
    Ok (frame_text [70] [(35, [68]); (34, [55]); (49, [65]); (52, [117]); (56, [66]); (43, [89]); (122, [116]); (55, [90])]) /\
  build_replay_frame (replicate 40 0) (frame_text [70] sample_stored) [117] no_hooks =
    Err wire_field_value_truncated.
Proof.
  assert (Hb : SOH ∉ [70]) by (intros H%list_elem_of_singleton; done).
  split.
  - pose proof (replay_frame_exact (replicate 128 0) no_hooks [70] sample_stored [117] sample_stored_ok
      ltac:(vm_compute; discriminate) Hb) as H. cbn zeta in H. rewrite H. by vm_compute.
  - pose proof (replay_frame_exact (replicate 40 0) no_hooks [70] sample_stored [117] sample_stored_ok
      ltac:(vm_compute; discriminate) Hb) as H. cbn zeta in H. rewrite H. by vm_compute.
Defined.

(** A resend answer is read as the message it repeats.  Under a dictionary that pairs
    no header tag, the strict scan splits the rebuilt frame into exactly its fields; it
    reads PossDupFlag Y, the number, type and addresses of the stored message, the new
    stamp as SendingTime and the stored SendingTime (the stamp when there was none) as
    OrigSendingTime; and the fields outside 9, 10, 43, 52 and 122 are the stored ones. *)
Theorem replay_reads_back out h bs fs st r :
  admin_hooks h -> stored_message h (frame_fields bs fs) -> zlen out <= UINT32_MAX ->
  zlen (frame_text bs fs) <= UINT32_MAX -> SOH ∉ bs -> SOH ∉ st ->
  build_replay_frame out (frame_text bs fs) st h = Ok r ->
  let old := scan_frame_header (frame_text bs fs) h in
  let new := scan_frame_header r h in
  let st' := replay_stamp st fs in
  (exists body, split_fields r h = (frame_fields bs body, (fault_none, 0, 0)) /\
     List.filter is_original body = List.filter is_original fs) /\
  poss_dup_flag new = [89] /\ FrameHeader.sending_time new = st' /\
  orig_sending_time new = (if zlen (default [] (stored_52 fs)) =? 0 then st' else default [] (stored_52 fs)) /\
  msg_seq_num new = msg_seq_num old /\ FrameHeader.msg_type new = FrameHeader.msg_type old /\
  sender_comp_id new = sender_comp_id old /\ target_comp_id new = target_comp_id old /\
  FrameHeader.begin_string new = FrameHeader.begin_string old.
Proof.
  intros Hh Hsm Ho Hl Hbs Hst Hb old new st'. pose proof Hb as Hb'. rewrite replay_exact in Hb by done.
  cbn zeta in Hb. fold st' in Hb. set (body := replay_fields st' fs) in *.
  destruct (zlen st' =? 0); [done|]. destruct (_ && _) eqn:E; [|done]. injection Hb as <-.
  apply andb_true_iff in E as [El _]. destruct (conforming_tail h bs fs Hsm) as [_ Hs].
  assert (Hst' : SOH ∉ st').
  { unfold st', replay_stamp. destruct (zlen st =? 0); [|done]. destruct (stored_52 fs) eqn:E52; cbn; [|set_solver].
    by eapply stored_52_clean. }
  destruct (replay_conforming h bs fs st' Hh Hsm Hbs Hst') as [H1 H2 H3 H4].
  assert (Hnew : split_fields (frame_text bs body) h = (frame_fields bs body, (fault_none, 0, 0)))
    by (rewrite frame_text_fields; by apply split_conforming).
  destruct Hsm as [[O1 O2 O3 O4] _].
  assert (Hold : split_fields (frame_text bs fs) h = (frame_fields bs fs, (fault_none, 0, 0)))
    by (rewrite frame_text_fields; by apply split_conforming).
  pose proof (scan_header_facts (frame_text bs body) h ltac:(lia)) as Fn. rewrite Hnew in Fn.
  fold new in Fn. destruct Fn as (Mn & _).
  pose proof (scan_header_facts (frame_text bs fs) h Hl) as Fo. rewrite Hold in Fo.
  fold old in Fo. destruct Fo as (Mo & _).
  unfold header_members in Mn, Mo. rewrite !Forall_cons in Mn, Mo.
  destruct Mn as (_ & N8 & _ & N34 & N35 & _ & N43 & N49 & N52 & N56 & _ & N122 & _).
  destruct Mo as (_ & O8 & _ & O34 & O35 & _ & _ & O49 & _ & O56 & _).
  rewrite last_value_frame in N8, N34, N35, N43, N49, N52, N56, N122, O8, O34, O35, O49, O56 by done.
  cbn [Z.eqb Pos.eqb] in *. unfold body in N8, N34, N35, N43, N49, N52, N56, N122.
  rewrite replay_same in N8, N34, N35, N49, N56 by done. rewrite replay_52 in N52.
  destruct (replay_43_122 st' fs) as [E43 E122]. rewrite E43 in N43. rewrite E122 in N122.
  split; [exists body; split; [exact Hnew|apply replay_originals]|]. split_and!; congruence.
Qed.

Lemma replay_reads_back_witness :
  let r := frame_text [70] [(35, [68]); (34, [55]); (49, [65]); (52, [117]); (56, [66]); (43, [89]); (122, [116]); (55, [90])] in
  build_replay_frame (replicate 128 0) (frame_text [70] sample_stored) [117] no_hooks = Ok r /\
  poss_dup_flag (scan_frame_header r no_hooks) = [89] /\
  orig_sending_time (scan_frame_header r no_hooks) = [116].
Proof.
  intros r. assert (Hb : build_replay_frame (replicate 128 0) (frame_text [70] sample_stored) [117] no_hooks = Ok r)
    by by vm_compute.
  assert (H1 : forall c, c <> SOH -> SOH ∉ [c]) by (intros c Hc H%list_elem_of_singleton; congruence).
  destruct (replay_reads_back (replicate 128 0) no_hooks [70] sample_stored [117] r _ sample_stored_ok
    ltac:(vm_compute; discriminate) ltac:(vm_compute; discriminate) (H1 70 ltac:(done)) (H1 117 ltac:(done)) Hb)
    as (_ & H43 & _ & H122 & _).
  split; [exact Hb|]. split; [exact H43|]. rewrite H122. by vm_compute.
Defined.
