(* ===== verification/SessionState.v ===== *)
(** The session's state and the monad its coroutines run in (include/fixpp/session/session.hpp,
    session_fsm.hpp, session_event.hpp, session_config.hpp, resend_state.hpp).

    A session coroutine runs on one strand. It gives the strand up only where it awaits a
    store call or a transport write; what the strand runs there ([w_other]) and what every
    call outside the session answers come from a [world], indexed by a counter of the
    questions asked so far. A coroutine returns, or leaves by the exception of a
    cancellation. *)
From stdpp Require Import strings.
From S2P Require Import Prelude Errors FixTime VersionProfile LengthData Writer Framer OffsetTable.
From S2P Require Import Seqnum MessageStore AdminMessages.

(** ** session_fsm.hpp, session.hpp: states *)

Inductive fsm_state : Set :=
  NotConnected | LogonSent | LogonReceived | Active | LogoutSent | Disconnected.

Inductive lifecycle : Set := never_opened | open | closing | closed_drained.

#[global] Instance fsm_state_eq_dec : EqDecision fsm_state.
Proof. solve_decision. Defined.
#[global] Instance lifecycle_eq_dec : EqDecision lifecycle.
Proof. solve_decision. Defined.

Definition fsm_is (a b : fsm_state) : bool := bool_decide (a = b).

(** ** session_event.hpp *)

Inductive principal_source : Set := CN | SAN_DNS | SAN_URI | SHA256_FINGERPRINT.

Inductive SessionEvent : Type :=
  | session_event_peer_identity_bound (cn : bytes) (sans : list bytes)
      (sha256_fingerprint cipher bound_compid : bytes) (source : principal_source)
  | session_event_compid_authorization_failed (cn asserted_compid : bytes)
      (expected_compids : list bytes) (source : principal_source)
  | session_event_tls_validation_failed (code : error) (sub_reason peer_endpoint reason : bytes)
  | session_event_credentials_rotated (old_sha256 new_sha256 : bytes)
  | session_event_sequence_numbers_reset (by_peer_request : bool)
  | session_event_resend_slot_gap_filled (seq : seqnum_t) (code : error)
  | session_event_garbled_frame (first_kind : option error) (frames discarded_bytes : Z)
  | session_event_establishment_timeout
  | session_event_close_reset_wait_expired.

Definition kSessionEventRingCapacity : nat := 16.

(** The bytes of a literal of the source. *)
Definition bytes_of (s : string) : bytes :=
  map (fun c => Z.of_N (Ascii.N_of_ascii c)) (String.list_ascii_of_string s).
Arguments bytes_of s%_string.

(** ** session_config.hpp, session_types.hpp: the members the session's protocol reads *)

Inductive session_role : Set := initiator | acceptor.
Inductive session_posture : Set := production | test.
(** security_profile.hpp *)
Inductive security_kind : Set := unset | mtls_ca | mtls_pinned | one_way_ca | insecure_plain_tcp.
Inductive reset_seqnum_policy : Set := bilateral_strict | bilateral_lenient | unilateral.

Record SessionConfig := mkSessionConfig {
  cfg_sender_comp_id : bytes;
  cfg_target_comp_id : bytes;
  cfg_begin_string : bytes;
  cfg_role : session_role;
  cfg_heartbeat_interval : option Z;                (* seconds *)
  cfg_sending_time_threshold : option Z;            (* milliseconds *)
  cfg_sending_time_precision : fix_time_precision;
  cfg_reset_seqnum_policy : reset_seqnum_policy;
  cfg_reset_on_logon : bool;
  cfg_refresh_on_logon : bool;
  cfg_reset_on_logout : bool;
  cfg_reset_on_disconnect : bool;
  cfg_logout_disconnect_timeout_ms : Z;
  cfg_redeliver_poss_dup : bool;
  cfg_enable_next_expected_msg_seq_num : bool;
  cfg_check_comp_id : bool;
  cfg_validate_sequence_numbers : bool;
  cfg_validate_inbound_messages : bool;
  cfg_posture : option session_posture;
  cfg_default_appl_ver_id : option application_version;
  cfg_username : option bytes;
  cfg_password : option bytes;
  cfg_advertised_max_message_size : option Z;
  cfg_supported_msg_types : list supported_msg_type;
  cfg_security_kind : security_kind;
  cfg_logon_timeout_ms : Z;
  cfg_allow_pos_dup : bool;
  cfg_test_request_threshold : option Z;            (* milliseconds *)
}.

(** [SessionConfig::is_fixt] *)
Definition is_fixt (c : SessionConfig) : bool :=
  bool_decide (cfg_begin_string c = bytes_of "FIXT.1.1") &&
  match cfg_default_appl_ver_id c with Some _ => true | None => false end.

(** ** State *)

Record fsm_part := mkFsm {
  fsm_state_ : fsm_state;
  fsm_visit_history_ : list fsm_state;     (* 16 slots *)
  fsm_visit_count_ : Z;                    (* 8 bits, saturating *)
  fsm_visit_write_idx_ : Z;                (* 32 bits *)
  reached_active_ : bool;
  onLogon_fired_ : bool;
  onLogout_fired_ : bool;
  lifecycle_cb_threw_ : bool;
}.

Record events_part := mkEvents {
  recent_events_ : list (option SessionEvent);   (* 16 slots; [None]: never written *)
  events_count_ : Z;
  events_write_idx_ : Z;                         (* 64 bits *)
  garbled_frames_ : Z;                           (* 64 bits *)
  garble_logged_ : bool;
  garble_log_next_ : Z;
  garbles_unlogged_ : Z;                         (* 64 bits *)
}.

Record close_part := mkClose {
  state_ : lifecycle;
  engine_stop_requested_ : bool;
  logout_seen_ : bool;
  logout_confirmed_ : bool;
  teardown_reset_done_ : bool;
  logout_cut_ : bool;
  waited_terminal_closes_ : Z;                   (* 64 bits *)
  reset_unit_in_flight_ : bool;
  close_escalated_ : bool;
  close_result_ : option (option (result error unit));   (* the shared slot, once made *)
}.

Record store_part (St : Type) := mkStorePart {
  store_ : option St;
  store_is_persistent_ : bool;
  hydrated_ : bool;
  hydrating_ : bool;
}.
Arguments mkStorePart {St}. Arguments store_ {St}. Arguments store_is_persistent_ {St}.
Arguments hydrated_ {St}. Arguments hydrating_ {St}.

(** resend_state.hpp; [inbound_held] holds the numbers and bytes of messages. *)
Record ResendState := mkResendState {
  outstanding_begin : Z;
  outstanding_end : Z;
  started_at : Z;
  inbound_filled_through : Z;
  outbound_replay_cursor : Z;
  inbound_held : list (Z * bytes);
}.

(** [ResendState::reset] *)
Definition resend_state_reset : ResendState := mkResendState 0 0 0 0 0 [].

(** The resend half of ReconnectFsm. *)
Record reconnect_part := mkReconnect { awaiting_resend_ : bool; resend_state_ : ResendState }.

Definition enter_awaiting_resend (b e : Z) (r : reconnect_part) : reconnect_part :=
  let q := resend_state_ r in
  mkReconnect true (mkResendState b e (started_at q) (inbound_filled_through q)
    (outbound_replay_cursor q) (inbound_held q)).

Definition exit_awaiting_resend (r : reconnect_part) : reconnect_part :=
  mkReconnect false resend_state_reset.

Definition mark_resend_progress (at_ : Z) (r : reconnect_part) : reconnect_part :=
  let q := resend_state_ r in
  mkReconnect (awaiting_resend_ r) (mkResendState (outstanding_begin q) (outstanding_end q) at_
    (inbound_filled_through q) (outbound_replay_cursor q) (inbound_held q)).

Record liveness_part := mkLiveness {
  last_inbound_steady_ : Z;
  last_outbound_steady_ : Z;
  pending_test_req_id_ : bytes;
  unanswered_tr_ : bool;
  next_test_request_id_ : Z;
}.

Record transport_part := mkTransport {
  live_transport_ : bool;     (* live_transport_shared_() is not null *)
  transport_send_ : bool;     (* the configured sink is set *)
}.

(** What a Logon settles. *)
Record logon_part := mkLogon {
  negotiated_appl_version_ : application_version;
  route_negotiated_ : application_version;
  msg_type_defaults_ : list (bytes * application_version);   (* sorted by MsgType *)
  own_logon_sent_reset_flag_ : bool;
  peer_advertised_max_message_size_ : option Z;
  live_peer_id_ : option bytes;      (* the peer's leaf fingerprint *)
  liveness_counter_ : Z;             (* liveness loops running *)
}.

(** What the session does to the outside, in order. *)
Inductive effect : Type :=
  | Stored (seq : seqnum_t) (frame : bytes)
  | Transmitted (frame : bytes)
  | ToAdmin (frame : bytes)
  | ToApp (frame : bytes)
  | FromAdmin (frame : bytes)
  | FromApp (frame : bytes)
  | OnCreate
  | OnLogon
  | OnLogout
  | TransportClosed
  | GarbleRecord (first_kind : option error) (discarded unnamed : Z).

Record Session (St : Type) := mkSession {
  s_fsm : fsm_part;
  s_events : events_part;
  s_close : close_part;
  s_store : store_part St;
  seqnum_mgr_ : SeqnumManager;
  reconnect_fsm_ : reconnect_part;
  s_live : liveness_part;
  s_logon : logon_part;
  s_transport : transport_part;
  send_slot_in_use_ : bool;
  s_tick : nat;
  s_trace : list effect;
}.
Arguments mkSession {St}. Arguments s_fsm {St}. Arguments s_events {St}. Arguments s_close {St}.
Arguments s_store {St}. Arguments seqnum_mgr_ {St}. Arguments reconnect_fsm_ {St}.
Arguments s_live {St}. Arguments s_logon {St}. Arguments s_transport {St}. Arguments send_slot_in_use_ {St}. Arguments s_tick {St}. Arguments s_trace {St}.

Definition fsm_init : fsm_part := mkFsm NotConnected (replicate 16 NotConnected) 0 0 false false false false.
Definition events_init : events_part := mkEvents (replicate kSessionEventRingCapacity None) 0 0 0 false 0 0.
Definition close_init : close_part := mkClose never_opened false false false false false 0 false false None.

Section Update.
Context {St : Type}.

Definition upd_fsm (f : fsm_part -> fsm_part) (s : Session St) : Session St :=
  mkSession (f (s_fsm s)) (s_events s) (s_close s) (s_store s) (seqnum_mgr_ s) (reconnect_fsm_ s)
    (s_live s) (s_logon s) (s_transport s) (send_slot_in_use_ s) (s_tick s) (s_trace s).
Definition upd_events (f : events_part -> events_part) (s : Session St) : Session St :=
  mkSession (s_fsm s) (f (s_events s)) (s_close s) (s_store s) (seqnum_mgr_ s) (reconnect_fsm_ s)
    (s_live s) (s_logon s) (s_transport s) (send_slot_in_use_ s) (s_tick s) (s_trace s).
Definition upd_close (f : close_part -> close_part) (s : Session St) : Session St :=
  mkSession (s_fsm s) (s_events s) (f (s_close s)) (s_store s) (seqnum_mgr_ s) (reconnect_fsm_ s)
    (s_live s) (s_logon s) (s_transport s) (send_slot_in_use_ s) (s_tick s) (s_trace s).
Definition upd_store (f : store_part St -> store_part St) (s : Session St) : Session St :=
  mkSession (s_fsm s) (s_events s) (s_close s) (f (s_store s)) (seqnum_mgr_ s) (reconnect_fsm_ s)
    (s_live s) (s_logon s) (s_transport s) (send_slot_in_use_ s) (s_tick s) (s_trace s).
Definition upd_mgr (f : SeqnumManager -> SeqnumManager) (s : Session St) : Session St :=
  mkSession (s_fsm s) (s_events s) (s_close s) (s_store s) (f (seqnum_mgr_ s)) (reconnect_fsm_ s)
    (s_live s) (s_logon s) (s_transport s) (send_slot_in_use_ s) (s_tick s) (s_trace s).
Definition upd_reconnect (f : reconnect_part -> reconnect_part) (s : Session St) : Session St :=
  mkSession (s_fsm s) (s_events s) (s_close s) (s_store s) (seqnum_mgr_ s) (f (reconnect_fsm_ s))
    (s_live s) (s_logon s) (s_transport s) (send_slot_in_use_ s) (s_tick s) (s_trace s).
Definition upd_live (f : liveness_part -> liveness_part) (s : Session St) : Session St :=
  mkSession (s_fsm s) (s_events s) (s_close s) (s_store s) (seqnum_mgr_ s) (reconnect_fsm_ s)
    (f (s_live s)) (s_logon s) (s_transport s) (send_slot_in_use_ s) (s_tick s) (s_trace s).
Definition upd_logon (f : logon_part -> logon_part) (s : Session St) : Session St :=
  mkSession (s_fsm s) (s_events s) (s_close s) (s_store s) (seqnum_mgr_ s) (reconnect_fsm_ s)
    (s_live s) (f (s_logon s)) (s_transport s) (send_slot_in_use_ s) (s_tick s) (s_trace s).
Definition set_send_slot (v : bool) (s : Session St) : Session St :=
  mkSession (s_fsm s) (s_events s) (s_close s) (s_store s) (seqnum_mgr_ s) (reconnect_fsm_ s)
    (s_live s) (s_logon s) (s_transport s) v (s_tick s) (s_trace s).
Definition upd_tick (s : Session St) : Session St :=
  mkSession (s_fsm s) (s_events s) (s_close s) (s_store s) (seqnum_mgr_ s) (reconnect_fsm_ s)
    (s_live s) (s_logon s) (s_transport s) (send_slot_in_use_ s) (S (s_tick s)) (s_trace s).
Definition upd_trace (e : effect) (s : Session St) : Session St :=
  mkSession (s_fsm s) (s_events s) (s_close s) (s_store s) (seqnum_mgr_ s) (reconnect_fsm_ s)
    (s_live s) (s_logon s) (s_transport s) (send_slot_in_use_ s) (s_tick s) (s_trace s ++ [e]).
End Update.

Definition set_state (v : fsm_state) (f : fsm_part) : fsm_part :=
  mkFsm v (fsm_visit_history_ f) (fsm_visit_count_ f) (fsm_visit_write_idx_ f) (reached_active_ f)
    (onLogon_fired_ f) (onLogout_fired_ f) (lifecycle_cb_threw_ f).
Definition set_hydrating {St} (v : bool) (p : store_part St) : store_part St :=
  mkStorePart (store_ p) (store_is_persistent_ p) (hydrated_ p) v.
Definition set_hydrated {St} (v : bool) (p : store_part St) : store_part St :=
  mkStorePart (store_ p) (store_is_persistent_ p) v (hydrating_ p).
Definition set_store {St} (st : St) (p : store_part St) : store_part St :=
  mkStorePart (Some st) (store_is_persistent_ p) (hydrated_ p) (hydrating_ p).
Definition set_last_outbound (v : Z) (l : liveness_part) : liveness_part :=
  mkLiveness (last_inbound_steady_ l) v (pending_test_req_id_ l) (unanswered_tr_ l) (next_test_request_id_ l).
Definition set_closing (v : lifecycle) (c : close_part) : close_part :=
  mkClose v (engine_stop_requested_ c) (logout_seen_ c) (logout_confirmed_ c)
    (teardown_reset_done_ c) (logout_cut_ c) (waited_terminal_closes_ c) (reset_unit_in_flight_ c)
    (close_escalated_ c) (close_result_ c).
Definition set_close_result (r : option (result error unit)) (c : close_part) : close_part :=
  mkClose (state_ c) (engine_stop_requested_ c) (logout_seen_ c) (logout_confirmed_ c)
    (teardown_reset_done_ c) (logout_cut_ c) (waited_terminal_closes_ c) (reset_unit_in_flight_ c)
    (close_escalated_ c) (Some r).
Definition set_escalated (c : close_part) : close_part :=
  mkClose (state_ c) (engine_stop_requested_ c) (logout_seen_ c) (logout_confirmed_ c)
    (teardown_reset_done_ c) (logout_cut_ c) (waited_terminal_closes_ c) (reset_unit_in_flight_ c)
    true (close_result_ c).
Definition set_teardown_done (c : close_part) : close_part :=
  mkClose (state_ c) (engine_stop_requested_ c) (logout_seen_ c) (logout_confirmed_ c)
    true (logout_cut_ c) (waited_terminal_closes_ c) (reset_unit_in_flight_ c)
    (close_escalated_ c) (close_result_ c).
Definition set_reset_in_flight (v : bool) (c : close_part) : close_part :=
  mkClose (state_ c) (engine_stop_requested_ c) (logout_seen_ c) (logout_confirmed_ c)
    (teardown_reset_done_ c) (logout_cut_ c) (waited_terminal_closes_ c) v
    (close_escalated_ c) (close_result_ c).
Definition set_logout_seen (v : bool) (c : close_part) : close_part :=
  mkClose (state_ c) (engine_stop_requested_ c) v (logout_confirmed_ c)
    (teardown_reset_done_ c) (logout_cut_ c) (waited_terminal_closes_ c) (reset_unit_in_flight_ c)
    (close_escalated_ c) (close_result_ c).
Definition set_logout_confirmed (v : bool) (c : close_part) : close_part :=
  mkClose (state_ c) (engine_stop_requested_ c) (logout_seen_ c) v
    (teardown_reset_done_ c) (logout_cut_ c) (waited_terminal_closes_ c) (reset_unit_in_flight_ c)
    (close_escalated_ c) (close_result_ c).
Definition set_logout_cut (c : close_part) : close_part :=
  mkClose (state_ c) (engine_stop_requested_ c) (logout_seen_ c) (logout_confirmed_ c)
    (teardown_reset_done_ c) true (waited_terminal_closes_ c) (reset_unit_in_flight_ c)
    (close_escalated_ c) (close_result_ c).
Definition add_waited_closes (n : Z) (c : close_part) : close_part :=
  mkClose (state_ c) (engine_stop_requested_ c) (logout_seen_ c) (logout_confirmed_ c)
    (teardown_reset_done_ c) (logout_cut_ c) (u64 (waited_terminal_closes_ c + n))
    (reset_unit_in_flight_ c) (close_escalated_ c) (close_result_ c).

(** ** The world *)

(** A call into the application: whether it threw, how many terminal closes of this session
    it started, and what it returned where its type is not [void]. *)
Record callback_answer := CallbackAnswer { cb_threw : bool; cb_closes : Z; cb_verdict : result error unit }.

(** What an exception out of a store's awaitable was: a cancellation met before the store
    took its lock (it did nothing), or any other exception of the store's body, which may
    have left the store in another state. *)
Inductive store_throw (St : Type) : Type :=
  | no_throw
  | throw_aborted
  | throw_other (wreck : St -> St).
Arguments no_throw {St}. Arguments throw_aborted {St}. Arguments throw_other {St}.

Record world (St SE : Type) := World {
  w_cancelled : nat -> bool;              (* a cancellation is pending at this [co_await] *)
  w_locked : nat -> bool;                 (* the seqnum mutex is granted *)
  w_store : nat -> SE;                    (* what a store call meets *)
  w_throw : nat -> store_throw St;
  w_gate : nat -> bool;                   (* the write gate is granted *)
  w_write : nat -> bool;                  (* the transport took the whole frame *)
  w_timer : nat -> bool;                  (* the timer of a race ended it *)
  w_callback : nat -> callback_answer;
  w_arena : nat -> memory_resource;       (* the parse arena of an outbound frame *)
  w_undefined : nat -> result error logon_interpret_result;   (* what undefined behaviour answers *)
  w_seed : nat -> Z;                      (* the overlay's hash seed *)
  w_now : nat -> Z;                       (* the clock, ns since the epoch *)
  w_steady : nat -> Z;                    (* the steady clock, ns *)
  w_other : nat -> Session St -> Session St;   (* the rest of the strand at a suspension *)
}.
Arguments w_cancelled {St SE}. Arguments w_locked {St SE}. Arguments w_store {St SE}. Arguments w_throw {St SE}.
Arguments w_gate {St SE}. Arguments w_write {St SE}. Arguments w_timer {St SE}. Arguments w_callback {St SE}.
Arguments w_arena {St SE}. Arguments w_undefined {St SE}. Arguments w_seed {St SE}. Arguments w_now {St SE}.
Arguments w_steady {St SE}. Arguments w_other {St SE}.

(** ** The monad

    A coroutine returns a value, or an exception leaves it: that of a cancellation, or
    another one. *)

Inductive outcome (A : Type) : Type := Ret (a : A) | Aborted (cancelled : bool).
Arguments Ret {A} a. Arguments Aborted {A} cancelled.

Definition M (St A : Type) : Type := Session St -> Session St * outcome A.

Section Monad.
Context {St : Type}.

Definition ret {A} (a : A) : M St A := fun s => (s, Ret a).
Definition bind {A B} (m : M St A) (k : A -> M St B) : M St B :=
  fun s => match m s with (s, Ret a) => k a s | (s, Aborted c) => (s, Aborted c) end.
Definition get {A} (f : Session St -> A) : M St A := fun s => (s, Ret (f s)).
Definition modify (f : Session St -> Session St) : M St unit := fun s => (f s, Ret tt).
Definition abort {A} (cancelled : bool) : M St A := fun s => (s, Aborted cancelled).
(** [try { m } catch (...) { h }], the handler told whether a cancellation was caught *)
Definition catch {A} (m : M St A) (h : bool -> M St A) : M St A :=
  fun s => match m s with (s, Ret a) => (s, Ret a) | (s, Aborted c) => h c s end.
(** One question to the world. *)
Definition ask {A} (f : nat -> A) : M St A := fun s => (upd_tick s, Ret (f (s_tick s))).
Definition emit (e : effect) : M St unit := modify (upd_trace e).
End Monad.

Declare Scope session_scope.
Delimit Scope session_scope with session.
Notation "'let!' x ':=' m 'in' k" := (bind m (fun x => k))
  (at level 10, x name, m at level 100, k at level 200) : session_scope.
Notation "m ';;' k" := (bind m (fun _ => k)) (at level 100, k at level 200, right associativity) : session_scope.
(** [auto x = co_await f(...); if (!x) co_return std::unexpected(x.error()); ...] *)
Notation "'let!?' x ':=' m 'in' k" :=
  (bind m (fun r => match r with Ok x => k | Err e => ret (Err e) end))
  (at level 10, x name, m at level 100, k at level 200) : session_scope.
#[global] Open Scope session_scope.

Section Calls.
Context {St SE : Type} (w : world St SE).

(** The strand runs other work. *)
Definition suspend : M St unit := fun s => (upd_tick (w_other w (s_tick s) s), Ret tt).

(** [co_await] of another coroutine: a pending cancellation is thrown before it starts. *)
Definition co_await {A} (m : M St A) : M St A :=
  let! c := ask (w_cancelled w) in if c : bool then abort true else m.

(** A call of the manager: its mutex is granted without giving up the strand. *)
Definition with_mgr {A} (op : bool -> SeqnumManager -> SeqnumManager * result error A)
  : M St (result error A) :=
  co_await (
    let! locked := ask (w_locked w) in
    fun s => let (m, r) := op locked (seqnum_mgr_ s) in (upd_mgr (fun _ => m) s, Ret r)).

Inductive store_answer (A : Type) : Type :=
  | answered (r : result error A)
  | let_out_aborted
  | let_out_other.

(** [co_await store_->op(...)], on a session that has a store; [done] is what its success
    is to the outside. *)
Definition store_call {A} (op : SE -> St -> St * result error A) (done : option effect) (st : St)
  : M St (store_answer A) :=
  let! t := ask (w_throw w) in
  match t with
  | no_throw =>
      let! e := ask (w_store w) in
      let (st, r) := op e st in
      modify (upd_store (set_store st)) ;;
      match r, done with Ok _, Some e => emit e | _, _ => ret tt end ;;
      suspend ;; ret (answered A r)
  | throw_aborted => suspend ;; ret (let_out_aborted A)
  | throw_other wreck => modify (upd_store (set_store (wreck st))) ;; suspend ;; ret (let_out_other A)
  end.

(** The same where nothing catches: the exception leaves the coroutine. *)
Definition store_await {A} (op : SE -> St -> St * result error A) (st : St)
  : M St (result error A) :=
  let! a := store_call op None st in
  match a with
  | answered _ r => ret r
  | let_out_aborted _ => abort true
  | let_out_other _ => abort false
  end.

(** [invoke_callback_safe] over a callback of the application; true when it threw. *)
Definition invoke_callback (e : effect) : M St bool :=
  emit e ;;
  let! a := ask (w_callback w) in
  modify (upd_close (add_waited_closes (cb_closes a))) ;; ret (cb_threw a).

(** The same over a callback that returns a verdict. *)
Definition invoke_verdict (e : effect) : M St (result error unit) :=
  emit e ;;
  let! a := ask (w_callback w) in
  modify (upd_close (add_waited_closes (cb_closes a))) ;;
  ret (if cb_threw a then Err app_callback_threw else cb_verdict a).
End Calls.

(** ** Reasoning about a run *)

Section Hoare.
Context {St : Type}.

(** What holds of the state and the outcome a run from [s] ends with. *)
Definition post {A} (m : M St A) (s : Session St) (Q : Session St -> outcome A -> Prop) : Prop :=
  Q (m s).1 (m s).2.

Lemma post_bind {A B} (m : M St A) (k : A -> M St B) s Q :
  post m s (fun s' r => match r with Ret a => post (k a) s' Q | Aborted c => Q s' (Aborted c) end) ->
  post (bind m k) s Q.
Proof. unfold post, bind. by destruct (m s) as [s' [a|]]. Qed.

Lemma post_weaken {A} (m : M St A) s (Q Q' : Session St -> outcome A -> Prop) :
  post m s Q -> (forall s' r, Q s' r -> Q' s' r) -> post m s Q'.
Proof. unfold post. auto. Qed.

Lemma post_catch {A} (m : M St A) (h : bool -> M St A) s Q :
  post m s (fun s' r => match r with Ret a => Q s' (Ret a) | Aborted c => post (h c) s' Q end) ->
  post (catch m h) s Q.
Proof. unfold post, catch. by destruct (m s) as [s' [a|]]. Qed.

Lemma post_ret {A} (a : A) s (Q : Session St -> outcome A -> Prop) : Q s (Ret a) -> post (ret a) s Q.
Proof. done. Qed.
Lemma post_abort {A} c s (Q : Session St -> outcome A -> Prop) : Q s (Aborted c) -> post (abort c) s Q.
Proof. done. Qed.
Lemma post_get {A} (f : Session St -> A) s (Q : Session St -> outcome A -> Prop) :
  Q s (Ret (f s)) -> post (get f) s Q.
Proof. done. Qed.
Lemma post_ask {A} (f : nat -> A) s (Q : Session St -> outcome A -> Prop) :
  (forall a, Q (upd_tick s) (Ret a)) -> post (ask f) s Q.
Proof. intros H. apply H. Qed.
Lemma post_modify (f : Session St -> Session St) s Q : Q (f s) (Ret tt) -> post (modify f) s Q.
Proof. done. Qed.

(** A run takes every state to one related to it. *)
Definition keeps {A} (R : relation (Session St)) (m : M St A) : Prop := forall s, R s (m s).1.

Section Keeps.
Context (R : relation (Session St)) `{!PreOrder R}.

Lemma keeps_bind {A B} (m : M St A) (k : A -> M St B) :
  keeps R m -> (forall a, keeps R (k a)) -> keeps R (bind m k).
Proof using PreOrder0.
  intros Hm Hk s. unfold bind. specialize (Hm s). destruct (m s) as [s' [a|]]; cbn in *; [|done].
  etransitivity; [exact Hm|apply Hk].
Qed.
Lemma keeps_catch {A} (m : M St A) (h : bool -> M St A) :
  keeps R m -> (forall c, keeps R (h c)) -> keeps R (catch m h).
Proof using PreOrder0.
  intros Hm Hh s. unfold catch. specialize (Hm s). destruct (m s) as [s' [a|]]; cbn in *; [done|].
  etransitivity; [exact Hm|apply Hh].
Qed.
Lemma keeps_ret {A} (a : A) : keeps R (ret a).
Proof using PreOrder0. intros s. cbn. reflexivity. Qed.
Lemma keeps_abort {A} c : keeps R (abort (A := A) c).
Proof using PreOrder0. intros s. cbn. reflexivity. Qed.
Lemma keeps_get {A} (f : Session St -> A) : keeps R (get f).
Proof using PreOrder0. intros s. cbn. reflexivity. Qed.
Lemma keeps_modify (f : Session St -> Session St) : (forall s, R s (f s)) -> keeps R (modify f).
Proof using. intros H s. apply H. Qed.
Lemma keeps_ask {A} (f : nat -> A) : (forall s, R s (upd_tick s)) -> keeps R (ask f).
Proof using. intros H s. apply H. Qed.
Lemma keeps_emit e : (forall s, R s (upd_trace e s)) -> keeps R (emit e).
Proof using. intros H s. apply H. Qed.
End Keeps.

(** What a run adds to the trace satisfies [P]. *)
Definition adds (P : effect -> Prop) (s s' : Session St) : Prop :=
  exists t, s_trace s' = s_trace s ++ t /\ Forall P t.

#[export] Instance adds_preorder P : PreOrder (adds P).
Proof.
  split.
  - intros s. exists []. by rewrite app_nil_r.
  - intros s1 s2 s3 (t1 & E1 & H1) (t2 & E2 & H2). exists (t1 ++ t2).
    split; [by rewrite E2, E1, app_assoc|by apply Forall_app].
Qed.

Lemma adds_same P s s' : s_trace s' = s_trace s -> adds P s s'.
Proof. intros E. exists []. by rewrite app_nil_r. Qed.

Lemma adds_one (P : effect -> Prop) s e : P e -> adds P s (upd_trace e s).
Proof. intros He. exists [e]. split; [done|by constructor]. Qed.
End Hoare.

Section CallLemmas.
Context {St SE : Type} (w : world St SE) (R : relation (Session St)) `{!PreOrder R}.
Context (Htick : forall s, R s (upd_tick s)).

Lemma keeps_co_await {A} (m : M St A) : keeps R m -> keeps R (co_await w m).
Proof using Htick PreOrder0.
  intros Hm. unfold co_await. apply keeps_bind; [done|by apply keeps_ask|].
  intros [|]; [by apply keeps_abort|done].
Qed.

Lemma keeps_mgr {A} (op : bool -> SeqnumManager -> SeqnumManager * result error A) :
  (forall s m, R s (upd_mgr (fun _ => m) s)) -> keeps R (with_mgr w op).
Proof using Htick PreOrder0.
  intros Hm. unfold with_mgr. apply keeps_co_await, keeps_bind; [done|by apply keeps_ask|].
  intros l s. destruct (op l (seqnum_mgr_ s)). apply Hm.
Qed.
End CallLemmas.

Lemma post_co_await {St SE A} (w : world St SE) (m : M St A) s Q :
  Q (upd_tick s) (Aborted true) -> post m (upd_tick s) Q -> post (co_await w m) s Q.
Proof.
  intros Ha Hm. unfold co_await. apply post_bind, post_ask. intros [|]; [by apply post_abort|exact Hm].
Qed.

(** One step of a [keeps] goal. *)
Ltac keeps_step :=
  lazymatch goal with
  | |- keeps _ (bind _ _) => apply keeps_bind; [typeclasses eauto| |intros ?]
  | |- keeps _ (catch _ _) => apply keeps_catch; [typeclasses eauto| |intros ?]
  | |- keeps _ (ret _) => apply keeps_ret; typeclasses eauto
  | |- keeps _ (abort _) => apply keeps_abort; typeclasses eauto
  | |- keeps _ (get _) => apply keeps_get; typeclasses eauto
  | |- keeps _ (match ?x with _ => _ end) => destruct x eqn:?
  | |- keeps _ (let _ := _ in _) => cbv zeta
  end.
