(* ===== verification/SessionCore.v ===== *)
(** The parts every session handler uses (src/session/session.cpp): transitions of the state
    machine and the lifecycle callbacks, the event ring and the accounting of garbled
    frames, the outbound path (observe, store, transmit), and the steps that move the two
    counters and their stored copies. *)
From S2P Require Import Prelude Errors FixTime TagScan LengthData VersionProfile Writer Framer.
From S2P Require Import FrameHeader OffsetTable Credentials Seqnum MessageStore AdminMessages.
From S2P Require Import SessionState.

(** ** Parsing helpers *)

(** [parse_seqnum]: 0 stands for no number. *)
Fixpoint parse_seqnum_from (sv : bytes) (val : Z) : Z :=
  match sv with
  | [] => val
  | c :: sv =>
      if (c <? 48) || (57 <? c) then 0
      else
        let digit := c - 48 in
        if (429496729 <? val) || ((val =? 429496729) && (5 <? digit)) then 0
        else parse_seqnum_from sv (u32 (u32 (val * 10) + digit))
  end.

Definition parse_seqnum (sv : bytes) : seqnum_t :=
  match sv with [] => 0 | _ => parse_seqnum_from sv 0 end.

(** [std::from_chars] over the whole text, unsigned 32-bit: digits only, no overflow. *)
Definition parse_u32_opt (sv : bytes) : option Z :=
  match sv with
  | [] => None
  | _ => if forallb is_digit sv && (dec_value sv <=? UINT32_MAX) then Some (dec_value sv) else None
  end.

Definition should_refuse_posture (posture : session_posture) (tmi_464 : bytes) : bool :=
  let is_y := bool_decide (tmi_464 = [89]) in
  let is_n := bool_decide (tmi_464 = [78]) in
  let malformed := negb (zlen tmi_464 =? 0) && negb is_y && negb is_n in
  if malformed then true
  else match posture with production => is_y | test => negb is_y end.

(** [stamp_sending_time], and the empty stamp of a session without a clock. *)
Definition stamp_text (now : Z) (prec : fix_time_precision) : bytes :=
  match utc_time_to_fix_string now prec (replicate 32 0) with
  | Ok (buf, len) => ztake len buf
  | Err _ => []
  end.

(** ** read_first_frame_bounded.hpp: deadlines

    Nanoseconds since the steady clock's epoch in 64 signed bits; durations in seconds. *)
Definition ns_per_s : Z := 1000000000.

Definition deadline_after (now d : Z) : Z :=
  let headroom := u64 (u64 INT64_MAX - u64 now) in
  let units := u64 d in
  if headroom / ns_per_s <? units then INT64_MAX
  else i64 (u64 (u64 now + u64 (units * ns_per_s))).

Definition resend_gap_deadline (since heartbt : Z) : option Z :=
  if heartbt <=? 0 then None else Some (deadline_after (deadline_after since heartbt) heartbt).

Definition kDefaultHeartBtInt : Z := 30.

(** ** The event ring *)

Definition emit_event (ev : SessionEvent) (p : events_part) : events_part :=
  mkEvents (<[Z.to_nat (events_write_idx_ p mod 16) := Some ev]> (recent_events_ p))
    (if events_count_ p <? 16 then events_count_ p + 1 else events_count_ p)
    (u64 (events_write_idx_ p + 1))
    (garbled_frames_ p) (garble_logged_ p) (garble_log_next_ p) (garbles_unlogged_ p).

(** [recent_events]: the slots written so far, in physical order. *)
Definition recent_events (p : events_part) : list SessionEvent :=
  omap id (take (Z.to_nat (Z.min (events_count_ p) 16)) (recent_events_ p)).

(** [note_garbles_] at the instant [now]; the record it logs, when it logs one. *)
Definition note_garbles_ (heartbeat_interval : option Z) (now : Z) (g : garble_summary) (p : events_part)
  : events_part * option effect :=
  if regions g =? 0 then (p, None)
  else
    let p := mkEvents (recent_events_ p) (events_count_ p) (events_write_idx_ p)
      (u64 (garbled_frames_ p + regions g)) (garble_logged_ p) (garble_log_next_ p) (garbles_unlogged_ p) in
    let p := emit_event (session_event_garbled_frame (first_kind g) (regions g)
      (Z.min (discarded g) UINT32_MAX)) p in
    if garble_logged_ p && (now <? garble_log_next_ p) then
      (mkEvents (recent_events_ p) (events_count_ p) (events_write_idx_ p) (garbled_frames_ p)
         (garble_logged_ p) (garble_log_next_ p) (u64 (garbles_unlogged_ p + regions g)), None)
    else
      let heartbt := default kDefaultHeartBtInt heartbeat_interval in
      let unnamed := u64 (garbles_unlogged_ p + u32 (regions g - 1)) in
      (mkEvents (recent_events_ p) (events_count_ p) (events_write_idx_ p) (garbled_frames_ p)
         true (deadline_after now (Z.max heartbt 1)) 0,
       Some (GarbleRecord (first_kind g) (discarded g) unnamed)).

(** ** Transitions *)

Definition set_lifecycle_flags (onlogon onlogout : bool) (f : fsm_part) : fsm_part :=
  mkFsm (fsm_state_ f) (fsm_visit_history_ f) (fsm_visit_count_ f) (fsm_visit_write_idx_ f)
    (reached_active_ f) (onLogon_fired_ f || onlogon) (onLogout_fired_ f || onlogout) (lifecycle_cb_threw_ f).

Definition set_cb_threw (f : fsm_part) : fsm_part :=
  mkFsm (fsm_state_ f) (fsm_visit_history_ f) (fsm_visit_count_ f) (fsm_visit_write_idx_ f)
    (reached_active_ f) (onLogon_fired_ f) (onLogout_fired_ f) true.

(** The ring, the count and the state, before any callback. *)
Definition enter_state (new_state : fsm_state) (f : fsm_part) : fsm_part :=
  mkFsm new_state
    (<[Z.to_nat (fsm_visit_write_idx_ f mod 16) := new_state]> (fsm_visit_history_ f))
    (if fsm_visit_count_ f <? 255 then fsm_visit_count_ f + 1 else fsm_visit_count_ f)
    (u32 (fsm_visit_write_idx_ f + 1))
    (reached_active_ f || fsm_is new_state Active)
    (onLogon_fired_ f) (onLogout_fired_ f) (lifecycle_cb_threw_ f).

Definition fsm_visit_history (f : fsm_part) : list fsm_state :=
  take (Z.to_nat (Z.min (fsm_visit_count_ f) 16)) (fsm_visit_history_ f).

Section Core.
Context {St SE : Type} `{MessageStore St SE} (w : world St SE).
(** What the session was opened with: its configuration, whether a clock and an
    application are attached, and the pairs of its dictionary. *)
Context (cfg : SessionConfig) (has_clock has_application : bool) (hooks : dict_hooks).

Definition record_state_transition_ (new_state : fsm_state) : M St unit :=
  let! was_active := get (fun s => fsm_is (fsm_state_ (s_fsm s)) Active) in
  modify (upd_fsm (enter_state new_state)) ;;
  if negb has_application then ret tt
  else
    let! f := get s_fsm in
    if fsm_is new_state Active && negb (onLogon_fired_ f) then
      modify (upd_fsm (set_lifecycle_flags true false)) ;;
      let! threw := invoke_callback w OnLogon in
      if threw : bool then modify (upd_fsm set_cb_threw) else ret tt
    else if was_active && negb (fsm_is new_state Active) && negb (onLogout_fired_ f) then
      modify (upd_fsm (set_lifecycle_flags false true)) ;;
      let! threw := invoke_callback w OnLogout in ret tt
    else ret tt.

Definition steady_now : M St Z := ask (w_steady w).

Definition note_garbles (g : garble_summary) : M St unit :=
  let! now := if has_clock then steady_now else ret 0 in
  let! r := get (fun s => note_garbles_ (cfg_heartbeat_interval cfg) now g (s_events s)) in
  modify (upd_events (fun _ => r.1)) ;;
  match r.2 with Some e => emit e | None => ret tt end.

(** [SendingTimeStamp]: a fresh stamp, empty without a clock. *)
Definition stamp : M St bytes :=
  if has_clock then
    let! now := ask (w_now w) in ret (stamp_text now (cfg_sending_time_precision cfg))
  else ret [].

(** The stamps of the session's clock, as the world shows it. *)
Definition clock_stamp (st52 : bytes) : Prop :=
  exists n, st52 = if has_clock then stamp_text (w_now w n) (cfg_sending_time_precision cfg) else [].

(** ** Arms of a Logon, disconnecting *)

Definition logon_arm_superseded_ (expected : fsm_state) (s : Session St) : bool :=
  bool_decide (state_ (s_close s) = closing) || engine_stop_requested_ (s_close s) ||
  negb (fsm_is (fsm_state_ (s_fsm s)) expected).

Definition superseded (arm : option fsm_state) (s : Session St) : bool :=
  match arm with Some a => logon_arm_superseded_ a s | None => false end.

(** [if (fsm_state_ != Disconnected) record_state_transition_(Disconnected)] *)
Definition disconnect_once : M St unit :=
  let! st := get (fun s => fsm_state_ (s_fsm s)) in
  if fsm_is st Disconnected then ret tt else record_state_transition_ Disconnected.

Definition disconnect_unless_superseded_ (arm : option fsm_state) : M St unit :=
  let! sup := get (superseded arm) in
  if sup : bool then ret tt else disconnect_once.

(** ** Observing an outbound frame *)

Inductive dispatch_outcome : Set := dispatched | parse_failed.

(** The parse of [parse_and_dispatch_] over a stack arena: one frame out of a fresh
    framer, and its field index. *)
Definition outbound_parses (mr : memory_resource) (seed : Z) (frame : bytes) : bool :=
  match feed default_config framer_init (carry_buffer_init 512) frame 1 with
  | (Ok (fv :: _), _, _) =>
      is_ok (status (build mr table_config_default hooks seed (fv_bytes fv) 0))
  | _ => false
  end.

Definition parse_and_dispatch_ (frame : bytes) (cb : effect) : M St (result error dispatch_outcome) :=
  let! mr := ask (w_arena w) in
  let! seed := ask (w_seed w) in
  if negb (outbound_parses mr seed frame) then ret (Ok parse_failed)
  else
    let! threw := invoke_callback w cb in
    ret (if threw : bool then Err app_callback_threw else Ok dispatched).

Definition fire_to_admin_ (frame : bytes) : M St bool :=
  if negb has_application then ret true
  else let! r := parse_and_dispatch_ frame (ToAdmin frame) in ret (is_ok r).

(** ** Transmitting *)

(** [live_write_serialized_] *)
Definition live_write_serialized_ (frame : bytes) : M St (result error unit) :=
  let! live := get (fun s => live_transport_ (s_transport s)) in
  if negb live then ret (Ok tt)
  else
    let! granted := ask (w_gate w) in
    suspend w ;;
    if negb granted then ret (Err dispatch_aborted)
    else
      let! ok := ask (w_write w) in
      if ok : bool then emit (Transmitted frame) ;; suspend w ;; ret (Ok tt)
      else suspend w ;; ret (Err dispatch_aborted).

(** The transmit step of [store_then_emit] and of the resend walk: the live transport,
    else the configured sink, else nothing. *)
Definition transmit (frame : bytes) : M St (result error unit) :=
  let! t := get s_transport in
  if live_transport_ t then
    let! r := co_await w (live_write_serialized_ frame) in
    ret (match r with Ok _ => Ok tt | Err _ => Err dispatch_aborted end)
  else if transport_send_ t then
    let! ok := ask (w_write w) in
    if ok : bool then emit (Transmitted frame) ;; ret (Ok tt) else ret (Err dispatch_aborted)
  else ret (Ok tt).

Definition kMaxMaskableLogonBytes : Z := 256.

(** What is persisted of [frame]; [None]: nothing. *)
Definition span_to_store (frame : bytes) : option bytes :=
  if frame_has_genuine_tag554 frame hooks &&
     bool_decide (FrameHeader.msg_type (scan_frame_header frame hooks) = [65]) then
    if kMaxMaskableLogonBytes <? zlen frame then None
    else Some (mask_tag554_same_length_inplace frame hooks).2
  else Some frame.

(** The reconciling read after a persistent store's refusal; nothing it does counts. *)
Definition reconcile_outbound : M St unit :=
  catch
    (let! o := get (fun s => store_ (s_store s)) in
     match o with
     | None => ret tt
     | Some st =>
         let! dk := store_await w (fun e => next_seqnum e outbound false) st in
         match dk with
         | Ok n => let! r := with_mgr w (fun l => set_next_outbound l n) in ret tt
         | Err _ => ret tt
         end
     end)
    (fun _ => ret tt).

(** The store step: [Ok] to go on, [Err] to return, or the cancellation's exception. *)
Definition store_step (stamped_seq : seqnum_t) (data : bytes) (arm : option fsm_state) (st : St)
  : M St (result error unit) :=
  let! a := store_call w (fun e => store e stamped_seq data outbound) (Some (Stored stamped_seq data)) st in
  let cancelled :=
    modify (upd_mgr (take_back_outbound stamped_seq)) ;;
    disconnect_unless_superseded_ arm ;; abort true in
  let proceed :=
    let! next := get (fun s => peek_outbound (seqnum_mgr_ s)) in
    if next <=? stamped_seq then ret (Err dispatch_aborted) else ret (Ok tt) in
  let! persistent := get (fun s => store_is_persistent_ (s_store s)) in
  match a with
  | answered _ (Ok _) => proceed
  | answered _ (Err e) =>
      if bool_decide (e = store_cancelled) then cancelled
      else if persistent : bool then reconcile_outbound ;; ret (Err e)
      else proceed
  | let_out_aborted _ => cancelled
  | let_out_other _ => proceed
  end.

Definition store_then_emit (stamped_seq : seqnum_t) (frame : bytes) (arm : option fsm_state)
    (transmit_it : bool) : M St (result error unit) :=
  let! st := get (fun s => store_ (s_store s)) in
  let!? _ :=
    match st, span_to_store frame with
    | Some st, Some data => store_step stamped_seq data arm st
    | _, _ => ret (Ok tt)
    end in
  let! sup := get (superseded arm) in
  if sup : bool then ret (Ok tt)
  else if negb transmit_it then ret (Ok tt)
  else
    let!? _ := transmit frame in
    (if has_clock then
       let! now := steady_now in modify (upd_live (set_last_outbound now))
     else ret tt) ;;
    ret (Ok tt).

(** ** Counters and their stored copies *)

(** A call of the store where nothing catches an exception. *)
Definition with_store {A} (op : SE -> St -> St * result error A) (st : St) : M St (result error A) :=
  store_await w op st.

Inductive reset_disposition : Set := fatal | logged.

Definition reset_seqnums_to_one_durable (disposition : reset_disposition) : M St (result error unit) :=
  let!? _ := with_mgr w reset_to_one in
  let! o := get (fun s => store_ (s_store s)) in
  match o with
  | None => ret (Ok tt)
  | Some st =>
      let! r := with_store reset st in
      match r, disposition with
      | Err e, fatal => ret (Err e)
      | _, _ => ret (Ok tt)
      end
  end.

(** Both reads, then both seeds; on any failure the state is disconnected. *)
Definition hydrate_from_store (apply_inbound_seed : bool) (arm : option fsm_state) (st : St)
  : M St (result error unit) :=
  let fail e := disconnect_unless_superseded_ arm ;; ret (Err e) in
  let! in_r := with_store (fun e => next_seqnum e inbound false) st in
  match in_r with
  | Err e => fail e
  | Ok in_ =>
      let! o := get (fun s => store_ (s_store s)) in
      let! out_r := with_store (fun e => next_seqnum e outbound false) (default st o) in
      match out_r with
      | Err e => fail e
      | Ok out =>
          let seed_inbound := if apply_inbound_seed then in_ else seqnum_min in
          let! r := with_mgr w (fun l => hydrate l seed_inbound out) in
          match r with
          | Err e => fail e
          | Ok _ => modify (upd_store (set_hydrated true)) ;; ret (Ok tt)
          end
      end
  end.

(** A store that counts as persistent is never null. *)
Definition ensure_hydrated_ (apply_inbound_seed force : bool) (arm : option fsm_state)
  : M St (result error unit) :=
  let! p := get s_store in
  if hydrated_ p && negb force then ret (Ok tt)
  else if hydrating_ p then ret (Ok tt)
  else
    modify (upd_store (set_hydrating true)) ;;
    let body :=
      match store_is_persistent_ p, store_ p with
      | true, Some st => hydrate_from_store apply_inbound_seed arm st
      | _, _ => ret (Ok tt)
      end in
    let! r := catch body (fun c => modify (upd_store (set_hydrating false)) ;; abort c) in
    modify (upd_store (set_hydrating false)) ;; ret r.

Definition persist_inbound_advance_ (arm : option fsm_state) : M St (result error unit) :=
  let! p := get s_store in
  match store_is_persistent_ p, store_ p with
  | true, Some st =>
      let! r := with_store (fun e => next_seqnum e inbound true) st in
      match r with
      | Ok _ => ret (Ok tt)
      | Err e =>
          disconnect_unless_superseded_ arm ;;
          ret (Err (if bool_decide (e = store_cancelled) then e else store_io_failure))
      end
  | _, _ => ret (Ok tt)
  end.

Definition close_filled_resend_gap_ : M St unit :=
  let! s := get id in
  if negb (awaiting_resend_ (reconnect_fsm_ s)) then ret tt
  else
    let end_ := outstanding_end (resend_state_ (reconnect_fsm_ s)) in
    if (0 <? end_) && (end_ <? next_inbound_ (seqnum_mgr_ s)) then
      modify (upd_reconnect exit_awaiting_resend)
    else if has_clock then
      let! now := steady_now in modify (upd_reconnect (mark_resend_progress now))
    else ret tt.

Definition consume_rejected_seqnum_ (seq : seqnum_t) (msg_type : bytes) : M St (result error unit) :=
  if bool_decide (msg_type = [65]) || bool_decide (msg_type = [52]) then ret (Ok tt)
  else
    let! chk := with_mgr w (fun l => check_inbound l seq) in
    match chk with
    | Err e =>
        if bool_decide (e = store_seqnum_overflow)
        then record_state_transition_ Disconnected ;; ret (Err e)
        else ret (Ok tt)
    | Ok _ => close_filled_resend_gap_ ;; co_await w (persist_inbound_advance_ None)
    end.

(** The result of a reset unit: the manager's, and the store's when it was asked. *)
Record reset_unit_result := ResetUnit { ru_manager : result error unit; ru_store : result error unit }.

(** [run_reset_unit_], over a store's [reset_to]; the store call takes no cancellation. *)
Definition run_reset_unit_ (reset_to : SE -> seqnum_t -> seqnum_t -> St -> St * result error unit)
    (next_in next_out : seqnum_t) : M St reset_unit_result :=
  let! m :=
    (let!? _ := with_mgr w reset_to_one in
     let!? _ := with_mgr w (fun l => set_next_inbound l next_in) in
     with_mgr w (fun l => set_next_outbound l next_out)) in
  let! o := get (fun s => store_ (s_store s)) in
  match m, o with
  | Ok _, Some st =>
      modify (upd_close (set_reset_in_flight true)) ;;
      let! r := co_await w
        (let! e := ask (w_store w) in
         let (st, r) := reset_to e next_in next_out st in
         modify (upd_store (set_store st)) ;; suspend w ;; ret r) in
      modify (upd_close (set_reset_in_flight false)) ;;
      ret (ResetUnit m r)
  | _, _ => ret (ResetUnit m (Ok tt))
  end.

(** ** Administrative frames the session originates *)

(** Number, observe and emit a built frame, in the order of the Reject sites: the number
    is assigned first.  A failed emit is the continuation's. *)
Definition reject_emission (seq : seqnum_t) (frame : bytes) (arm : option fsm_state)
    (on_emit_error : error -> M St (result error unit)) : M St (result error unit) :=
  let! a := with_mgr w assign_outbound in
  match a with
  | Err e => record_state_transition_ Disconnected ;; ret (Err e)
  | Ok _ =>
      let! seen := fire_to_admin_ frame in
      if negb seen then record_state_transition_ Disconnected ;; ret (Err app_callback_threw)
      else
        let! r := co_await w (store_then_emit seq frame arm true) in
        match r with Err e => on_emit_error e | Ok _ => ret (Ok tt) end
  end.

(** [emit_session_reject_] with a reason, a tag and a text. *)
Definition emit_session_reject_with (ref_seq : seqnum_t) (ref_msg_type : bytes) (reason ref_tag_id : Z)
    (text : bytes) (arm : option fsm_state) : M St (result error unit) :=
  let! st52 := stamp in
  let! rj_seq := get (fun s => peek_outbound (seqnum_mgr_ s)) in
  match build_reject_with_text (replicate 512 0) rj_seq (cfg_sender_comp_id cfg)
          (cfg_target_comp_id cfg) ref_seq ref_tag_id ref_msg_type reason (cfg_begin_string cfg)
          st52 text with
  | Err _ => ret (Ok tt)
  | Ok frame =>
      reject_emission rj_seq frame arm
        (fun e => disconnect_unless_superseded_ arm ;; ret (Err e))
  end.

(** [emit_session_reject_(ref_seq, ref_msg_type)] *)
Definition emit_session_reject_ (ref_seq : seqnum_t) (ref_msg_type : bytes) : M St (result error unit) :=
  let! st52 := stamp in
  let! rj_seq := get (fun s => peek_outbound (seqnum_mgr_ s)) in
  match build_reject (replicate 512 0) rj_seq (cfg_sender_comp_id cfg) (cfg_target_comp_id cfg)
          ref_seq 0 ref_msg_type 3 (cfg_begin_string cfg) st52 with
  | Err _ => ret (Ok tt)
  | Ok frame =>
      reject_emission rj_seq frame None
        (fun e => record_state_transition_ Disconnected ;; ret (Err e))
  end.

Definition refuse_logon_with_logout_ (reason_text : bytes) (arm : fsm_state) : M St (result error unit) :=
  let! lo_seq := get (fun s => peek_outbound (seqnum_mgr_ s)) in
  let! st52 := stamp in
  let!? _ :=
    match build_logout (replicate 256 0) lo_seq (cfg_sender_comp_id cfg) (cfg_target_comp_id cfg)
            reason_text (cfg_begin_string cfg) st52 with
    | Err _ => ret (Ok tt)
    | Ok frame =>
        let! seen := fire_to_admin_ frame in
        if negb seen then record_state_transition_ Disconnected ;; ret (Err app_callback_threw)
        else
          let! a := with_mgr w assign_outbound in
          match a with
          | Err e => record_state_transition_ Disconnected ;; ret (Err e)
          | Ok _ => let! r := co_await w (store_then_emit lo_seq frame (Some arm) true) in ret (Ok tt)
          end
    end in
  disconnect_unless_superseded_ (Some arm) ;; ret (Ok tt).

Definition apply_inbound_sequence_reset (new_seqno ref_seq : seqnum_t) : M St (result error unit) :=
  if new_seqno =? 0 then ret (Ok tt)
  else
    let! expected := get (fun s => next_inbound_ (seqnum_mgr_ s)) in
    if expected <? new_seqno then
      let! r := with_mgr w (fun l => set_next_inbound l new_seqno) in
      match r with
      | Err e => record_state_transition_ Disconnected ;; ret (Err e)
      | Ok _ =>
          let! waiting := get (fun s => awaiting_resend_ (reconnect_fsm_ s)) in
          (if waiting : bool then modify (upd_reconnect exit_awaiting_resend) else ret tt) ;;
          ret (Ok tt)
      end
    else if new_seqno <? expected then
      let! st52 := stamp in
      let! rj_seq := get (fun s => peek_outbound (seqnum_mgr_ s)) in
      match build_reject (replicate 512 0) rj_seq (cfg_sender_comp_id cfg) (cfg_target_comp_id cfg)
              ref_seq 36 [52] 5 (cfg_begin_string cfg) st52 with
      | Err _ => ret (Ok tt)
      | Ok frame => reject_emission rj_seq frame None (fun _ => ret (Ok tt))
      end
    else ret (Ok tt).

(** ** The local Logout *)

Definition set_cut : M St unit := modify (upd_close set_logout_cut) ;; record_state_transition_ Disconnected.

(** The Logout's emission, [None] when the phase ends before it has an outcome; with the
    outcome, whether it was cut. *)
Definition emit_logout (frame : bytes) (logout_seq : seqnum_t)
  : M St (result error (result error unit * bool)) :=
  let! before := get (fun s => waited_terminal_closes_ (s_close s)) in
  let! seen := fire_to_admin_ frame in
  if negb seen then record_state_transition_ Disconnected ;; ret (Err app_callback_threw)
  else
    let! after := get (fun s => waited_terminal_closes_ (s_close s)) in
    let cut := negb (after =? before) in
    (if cut then set_cut else ret tt) ;;
    let! a := with_mgr w assign_outbound in
    match a with
    | Err e => disconnect_once ;; ret (Err e)
    | Ok _ =>
        let! sent := catch (co_await w (store_then_emit logout_seq frame None (negb cut)))
          (fun _ => ret (Err dispatch_aborted)) in
        ret (Ok (sent, cut))
    end.

Definition run_logout_phase1 : M St (result error unit) :=
  let! st52 := stamp in
  let! logout_seq := get (fun s => peek_outbound (seqnum_mgr_ s)) in
  let!? r :=
    match build_logout (replicate 256 0) logout_seq (cfg_sender_comp_id cfg) (cfg_target_comp_id cfg)
            [] (cfg_begin_string cfg) st52 with
    | Err e => ret (Ok (Err e, false))
    | Ok frame => emit_logout frame logout_seq
    end in
  match r.1 with
  | Err e => disconnect_once ;; ret (Err e)
  | Ok _ =>
      if r.2 then disconnect_once ;; ret (Err dispatch_aborted)
      else
        modify (upd_close (set_logout_seen true)) ;;
        record_state_transition_ LogoutSent ;;
        modify (upd_close (set_logout_confirmed false)) ;;
        if negb has_clock then
          record_state_transition_ Disconnected ;; ret (Err session_logout_timeout)
        else
          let! now := steady_now in
          (* the wait for the peer's Logout, up to logout_disconnect_timeout_ms *)
          suspend w ;; co_await w (ret tt) ;;
          let! confirmed := get (fun s => logout_confirmed_ (s_close s)) in
          if confirmed : bool then ret (Ok tt)
          else record_state_transition_ Disconnected ;; ret (Err session_logout_timeout)
  end.
End Core.

(** ** Lemmas *)

(** *** Deadlines *)

Lemma deadline_after_spec now d : INT64_MIN <= now <= INT64_MAX -> 0 <= d <= INT64_MAX ->
  deadline_after now d = Z.min INT64_MAX (now + d * ns_per_s).
Proof.
  unfold INT64_MIN, INT64_MAX, ns_per_s. intros Hn Hd. unfold deadline_after, ns_per_s, INT64_MAX.
  unfold wrap at 1 2 3. change (2 ^ 64) with 18446744073709551616.
  rewrite (Z.mod_small 9223372036854775807) by lia.
  assert (Hh : (9223372036854775807 - now mod 18446744073709551616) mod 18446744073709551616 =
    9223372036854775807 - now).
  { destruct (Z_lt_le_dec now 0).
    - rewrite <- (Z.mod_add now 1), (Z.mod_small (now + _)) by lia.
      rewrite <- (Z.mod_add _ 1), Z.mod_small by lia. lia.
    - rewrite (Z.mod_small now), Z.mod_small by lia. done. }
  rewrite Hh. unfold wrap. change (2 ^ 64) with 18446744073709551616. rewrite (Z.mod_small d) by lia.
  destruct ((9223372036854775807 - now) / 1000000000 <? d) eqn:E.
  - assert (9223372036854775807 - now < d * 1000000000) by dlia. lia.
  - assert (d * 1000000000 <= 9223372036854775807 - now) by dlia.
    rewrite Z.min_r by lia. rewrite (Z.mod_small (d * _)) by lia.
    rewrite Zplus_mod_idemp_l. unfold swrap.
    change (2 ^ (64 - 1)) with 9223372036854775808. change (2 ^ 64) with 18446744073709551616.
    destruct (Z_lt_le_dec (now + d * 1000000000) 0).
    + rewrite <- (Z.mod_add (now + _) 1), (Z.mod_small (_ + 1 * _)) by lia.
      replace (_ + 1 * _ + _) with (now + d * 1000000000 + 9223372036854775808 + 1 * 18446744073709551616) by lia.
      rewrite Z.mod_add, Z.mod_small by lia. lia.
    + rewrite (Z.mod_small (now + _)), Z.mod_small by lia. lia.
Qed.

(** *** Garbled frames *)

(** The summaries noted one after another, each at its instant, and the records logged. *)
Fixpoint note_all (hb : option Z) (gs : list (Z * garble_summary)) (p : events_part)
  : events_part * list (Z * effect) :=
  match gs with
  | [] => (p, [])
  | (now, g) :: gs =>
      let '(p, r) := note_garbles_ hb now g p in
      let '(p, rs) := note_all hb gs p in
      (p, match r with Some e => (now, e) :: rs | None => rs end)
  end.

Definition total_regions (gs : list (Z * garble_summary)) : Z :=
  foldr (fun g n => regions g.2 + n) 0 gs.

(** The regions a record accounts for: the one it names and those it does not. *)
Definition accounted (e : effect) : Z :=
  match e with GarbleRecord _ _ unnamed => 1 + unnamed | _ => 0 end.

Definition total_accounted (rs : list (Z * effect)) : Z := foldr (fun r n => accounted r.2 + n) 0 rs.

(** Two records in a row are as far apart as the rate allows. *)
Fixpoint spaced (gap : Z) (rs : list (Z * effect)) : Prop :=
  match rs with
  | (t1, _) :: (((t2, _) :: _) as rs') => Z.min INT64_MAX (t1 + gap) <= t2 /\ spaced gap rs'
  | _ => True
  end.

Definition garbles_gap (hb : option Z) : Z := Z.max (default kDefaultHeartBtInt hb) 1 * ns_per_s.

Lemma total_regions_nonneg gs : Forall (fun g => 0 <= regions g.2) gs -> 0 <= total_regions gs.
Proof. induction 1 as [|g gs Hg _ IH]; cbn; [lia|]. unfold total_regions in IH. lia. Qed.

Lemma u64_small z : 0 <= z <= UINT64_MAX -> u64 z = z.
Proof. unfold UINT64_MAX. intros. apply wrap_small. change (2 ^ 64) with 18446744073709551616. lia. Qed.

Lemma note_step hb now g p : 0 <= regions g <= UINT32_MAX ->
  0 <= garbles_unlogged_ p <= garbled_frames_ p -> garbled_frames_ p + regions g <= UINT64_MAX ->
  let '(p', r) := note_garbles_ hb now g p in
  garbled_frames_ p' = garbled_frames_ p + regions g /\
  0 <= garbles_unlogged_ p' <= garbled_frames_ p' /\
  match r with
  | None => garbles_unlogged_ p' = garbles_unlogged_ p + regions g /\
            garble_logged_ p' = garble_logged_ p /\ garble_log_next_ p' = garble_log_next_ p
  | Some e => garbles_unlogged_ p' = 0 /\ accounted e = garbles_unlogged_ p + regions g /\
              garble_logged_ p' = true /\
              garble_log_next_ p' = deadline_after now (Z.max (default kDefaultHeartBtInt hb) 1) /\
              (garble_logged_ p = true -> garble_log_next_ p <= now)
  end.
Proof.
  intros Hg Hu Ht. unfold note_garbles_. destruct (regions g =? 0) eqn:E.
  { split_and!; (done || lia). }
  cbn [garble_logged_ garble_log_next_ emit_event]. destruct (garble_logged_ p && (now <? garble_log_next_ p)) eqn:El;
    cbn [garbled_frames_ garbles_unlogged_ garble_logged_ garble_log_next_ emit_event accounted].
  - rewrite !u64_small by lia. split_and!; (done || lia).
  - rewrite (wrap_small 32) by (unfold UINT32_MAX in *; change (2 ^ 32) with 4294967296; lia).
    rewrite !u64_small by lia. split_and!; try (done || lia). intros Hl. rewrite Hl in El. cbn [andb] in El. lia.
Qed.

Lemma note_all_accounts hb gs p : 
  Forall (fun g => 0 <= regions g.2 <= UINT32_MAX) gs ->
  0 <= garbles_unlogged_ p <= garbled_frames_ p ->
  garbled_frames_ p + total_regions gs <= UINT64_MAX ->
  let '(p', rs) := note_all hb gs p in
  garbled_frames_ p' = garbled_frames_ p + total_regions gs /\
  total_accounted rs + garbles_unlogged_ p' = garbles_unlogged_ p + total_regions gs.
Proof.
  intros Hg. revert p. induction Hg as [|[now g] gs Hr Hg IH]; intros p Hu Ht; cbn [note_all].
  { cbn. lia. }
  cbn [snd] in Hr. change (total_regions ((now, g) :: gs)) with (regions g + total_regions gs) in *.
  assert (0 <= total_regions gs) by (apply total_regions_nonneg; eapply Forall_impl; [exact Hg|cbn; lia]).
  pose proof (note_step hb now g p Hr Hu ltac:(lia)) as Hs.
  destruct (note_garbles_ hb now g p) as [p1 r]. destruct Hs as (Hf & Hu1 & Hr1).
  specialize (IH p1 Hu1 ltac:(lia)). destruct (note_all hb gs p1) as [p2 rs]. destruct IH as [Hf2 Hu2].
  split; [lia|]. destruct r as [e|]; [|lia]. destruct Hr1 as (H0 & Ha & _).
  change (total_accounted ((now, e) :: rs)) with (accounted e + total_accounted rs). lia.
Qed.

Lemma note_all_spaced hb gs p :
  0 <= default kDefaultHeartBtInt hb <= INT64_MAX ->
  Forall (fun g => INT64_MIN <= g.1 <= INT64_MAX) gs ->
  Forall (fun g => 0 <= regions g.2 <= UINT32_MAX) gs ->
  0 <= garbles_unlogged_ p <= garbled_frames_ p ->
  garbled_frames_ p + total_regions gs <= UINT64_MAX ->
  spaced (garbles_gap hb) (note_all hb gs p).2 /\
  (garble_logged_ p = true -> match (note_all hb gs p).2 with
                              | (t, _) :: _ => garble_log_next_ p <= t | [] => True end).
Proof.
  intros Hb Hn Hg. revert p. induction Hg as [|[now g] gs Hr Hg IH]; intros p Hu Ht; [done|].
  apply Forall_cons in Hn as [Hn Hns]. cbn [fst snd] in *. specialize (IH Hns).
  change (total_regions ((now, g) :: gs)) with (regions g + total_regions gs) in *.
  assert (0 <= total_regions gs) by (apply total_regions_nonneg; eapply Forall_impl; [exact Hg|cbn; lia]).
  pose proof (note_step hb now g p Hr Hu ltac:(lia)) as Hs. cbn [note_all].
  destruct (note_garbles_ hb now g p) as [p1 r]. destruct Hs as (Hf & Hu1 & Hr1).
  specialize (IH p1 Hu1 ltac:(lia)). destruct (note_all hb gs p1) as [p2 rs]. cbn [snd] in *.
  destruct IH as [Hsp Hnext]. destruct r as [e|].
  - destruct Hr1 as (_ & _ & Hl & Hd & Hp). split; [|exact Hp].
    rewrite deadline_after_spec in Hd by (unfold INT64_MAX in *; lia). specialize (Hnext Hl).
    destruct rs as [|[t e'] rs]; [done|]. split; [|exact Hsp].
    rewrite Hd in Hnext. exact Hnext.
  - destruct Hr1 as (_ & Hl & Hd). rewrite Hl, Hd in Hnext. by split.
Qed.

(** *** The two rings *)

(** A ring of 16 slots whose write index stands at [q]: [l], oldest first, rotated. *)
Definition ring_slots {A} (l : list A) (q : nat) : list A := drop (16 - q) l ++ take (16 - q) l.

Lemma ring_write {A} (l : list A) (q : nat) (x : A) : length l = 16%nat -> (q < 16)%nat ->
  <[q := x]> (ring_slots l q) = ring_slots (tail l ++ [x]) ((q + 1) mod 16).
Proof.
  intros Hl Hq. destruct l as [|y l]; [done|]. cbn in Hl. injection Hl as Hl. unfold ring_slots. cbn [tail].
  rewrite insert_app_r_alt by (rewrite length_drop; cbn; lia).
  replace (q - length (drop (16 - q) (y :: l)))%nat with O by (rewrite length_drop; cbn [length]; lia).
  destruct (16 - q)%nat as [|m] eqn:Em; [lia|]. cbn [drop take list_insert insert].
  destruct (decide (q = 15%nat)) as [->|Hne].
  - assert (m = O) as -> by lia. change ((15 + 1) mod 16)%nat with O. cbn [Nat.sub drop take].
    rewrite (drop_ge (l ++ [x])), (take_ge (l ++ [x])) by (rewrite ?length_app; cbn; lia). done.
  - rewrite Nat.mod_small by lia. replace (16 - (q + 1))%nat with m by lia.
    rewrite drop_app_le, take_app_le by lia. by rewrite <- app_assoc.
Qed.

(** The ring after writing [xs] over 16 copies of [z]. *)
Definition last16 {A} (z : A) (xs : list A) : list A := drop (length xs) (replicate 16 z ++ xs).

Lemma last16_length {A} (z : A) xs : length (last16 z xs) = 16%nat.
Proof. unfold last16. rewrite length_drop, length_app, length_replicate. lia. Qed.

Lemma last16_snoc {A} (z : A) xs x : last16 z (xs ++ [x]) = tail (last16 z xs) ++ [x].
Proof.
  unfold last16. rewrite app_assoc, length_app. cbn [length].
  rewrite Nat.add_comm, <- drop_drop, drop_app_le by (cbn; lia).
  rewrite (drop_app_le (drop 1 _)) by (rewrite length_drop, length_app, length_replicate; lia).
  f_equal. rewrite drop_drop, Nat.add_comm, <- drop_drop. by destruct (drop (length xs) _).
Qed.

Definition ring_after {A} (z : A) (xs : list A) : list A := ring_slots (last16 z xs) (length xs mod 16).

Lemma ring_after_snoc {A} (z : A) xs x :
  <[(length xs mod 16)%nat := x]> (ring_after z xs) = ring_after z (xs ++ [x]).
Proof.
  unfold ring_after. rewrite ring_write by (apply last16_length || (apply Nat.mod_upper_bound; lia)).
  rewrite last16_snoc, length_app. cbn [length]. f_equal. by rewrite Nat.Div0.add_mod_idemp_l.
Qed.

Lemma ring_after_recent {A} (z : A) xs :
  take (Nat.min (length xs) 16) (ring_after z xs) ≡ₚ drop (length xs - 16) xs.
Proof.
  unfold ring_after. destruct (Nat.le_gt_cases 16 (length xs)) as [H|H].
  - rewrite Nat.min_r, take_ge by (unfold ring_slots; rewrite ?length_app, ?length_drop, ?length_take, ?last16_length; lia).
    unfold ring_slots. rewrite Permutation_app_comm, take_drop. unfold last16.
    rewrite drop_app_ge by (rewrite length_replicate; lia). by rewrite length_replicate.
  - rewrite Nat.min_l by lia. rewrite Nat.mod_small by lia. unfold ring_slots.
    replace (length xs - 16)%nat with O by lia. rewrite drop_0.
    assert (E : drop (16 - length xs) (last16 z xs) = xs).
    { unfold last16. rewrite drop_drop. replace (length xs + (16 - length xs))%nat with 16%nat by lia.
      apply (drop_app_length' (replicate 16 z)). by rewrite length_replicate. }
    by rewrite E, take_app_length.
Qed.

Definition emit_all (evs : list SessionEvent) (p : events_part) : events_part :=
  fold_left (fun p ev => emit_event ev p) evs p.

Lemma emit_all_ring evs : Z.of_nat (length evs) <= UINT64_MAX ->
  let p := emit_all evs events_init in
  recent_events_ p = ring_after None (map Some evs) /\
  events_count_ p = Z.min (Z.of_nat (length evs)) 16 /\ events_write_idx_ p = wrap 64 (Z.of_nat (length evs)).
Proof.
  induction evs as [|ev evs IH] using rev_ind; intros Hl; [done|].
  rewrite length_app in Hl. cbn [length] in Hl. destruct IH as (Hr & Hc & Hi); [lia|].
  unfold emit_all in *. rewrite fold_left_app. cbn [fold_left]. cbn zeta in *.
  set (p := fold_left _ evs events_init) in *. rewrite u64_small in Hi by lia.
  cbn [emit_event recent_events_ events_count_ events_write_idx_].
  rewrite Hr, Hc, Hi, length_app. cbn [length]. split_and!.
  - rewrite Z2Nat.inj_mod, Nat2Z.id by lia. change (Z.to_nat 16) with 16%nat.
    rewrite <- (length_map Some evs), map_app. apply ring_after_snoc.
  - case_tests; lia.
  - f_equal. lia.
Qed.

(** *** Lifecycle *)

(** Some state other than Active follows an Active one. *)
Fixpoint left_active (seen : bool) (xs : list fsm_state) : bool :=
  match xs with
  | [] => false
  | x :: xs => (seen && negb (fsm_is x Active)) || left_active (seen || fsm_is x Active) xs
  end.

Section CoreLemmas.
Context {St SE : Type} `{MessageStore St SE} (w : world St SE).
Context (cfg : SessionConfig) (has_clock has_application : bool) (hooks : dict_hooks).

(** Which callback a transition makes. *)
Definition lifecycle_callback (x : fsm_state) (f : fsm_part) : list effect :=
  if negb has_application then []
  else if fsm_is x Active && negb (onLogon_fired_ f) then [OnLogon]
  else if fsm_is (fsm_state_ f) Active && negb (fsm_is x Active) && negb (onLogout_fired_ f) then [OnLogout]
  else [].

(** What a transition leaves alone. *)
Definition beside_fsm (s s' : Session St) : Prop :=
  s_events s' = s_events s /\ s_store s' = s_store s /\ seqnum_mgr_ s' = seqnum_mgr_ s /\
  reconnect_fsm_ s' = reconnect_fsm_ s /\ s_live s' = s_live s /\ s_transport s' = s_transport s /\
  state_ (s_close s') = state_ (s_close s) /\
  engine_stop_requested_ (s_close s') = engine_stop_requested_ (s_close s) /\
  logout_seen_ (s_close s') = logout_seen_ (s_close s).

Lemma transition_spec x (s : Session St) :
  exists s', record_state_transition_ w has_application x s = (s', Ret tt) /\
    s_trace s' = s_trace s ++ lifecycle_callback x (s_fsm s) /\
    beside_fsm s s' /\
    let f := s_fsm s in let f' := s_fsm s' in
    fsm_state_ f' = x /\
    fsm_visit_history_ f' = fsm_visit_history_ (enter_state x f) /\
    fsm_visit_count_ f' = fsm_visit_count_ (enter_state x f) /\
    fsm_visit_write_idx_ f' = fsm_visit_write_idx_ (enter_state x f) /\
    reached_active_ f' = reached_active_ f || fsm_is x Active /\
    onLogon_fired_ f' = onLogon_fired_ f || (has_application && fsm_is x Active) /\
    onLogout_fired_ f' = onLogout_fired_ f ||
      (has_application && fsm_is (fsm_state_ f) Active && negb (fsm_is x Active)).
Proof using.
  unfold record_state_transition_, bind, get, modify, lifecycle_callback, invoke_callback, emit, ask, ret, beside_fsm.
  destruct s as [f ev cl sp mg rc lv tr tk tc]. cbn.
  destruct has_application; cbn; [|eexists; split; [reflexivity|]; cbn; rewrite app_nil_r, !orb_false_r; split_and!; reflexivity].
  destruct (fsm_is x Active) eqn:Ex; destruct (onLogon_fired_ f) eqn:Eo; cbn;
    destruct (fsm_is (fsm_state_ f) Active) eqn:Ea; cbn;
    destruct (onLogout_fired_ f) eqn:Eu; cbn;
    rewrite ?Ex, ?Eo, ?Eu; cbn; try destruct (cb_threw _);
    (eexists; split; [reflexivity|]; cbn; rewrite ?Ex, ?Eo, ?Eu, ?app_nil_r, ?orb_true_r, ?orb_false_r;
     split_and!; reflexivity).
Qed.

Fixpoint transitions (xs : list fsm_state) : M St unit :=
  match xs with
  | [] => ret tt
  | x :: xs => record_state_transition_ w has_application x ;; transitions xs
  end.

Lemma transitions_snoc xs x s : transitions (xs ++ [x]) s =
  record_state_transition_ w has_application x (transitions xs s).1.
Proof using.
  revert s. induction xs as [|y xs IH]; intros s; cbn [transitions app].
  - change ((ret tt s).1) with s. unfold bind. destruct (transition_spec x s) as (s' & -> & _). done.
  - unfold bind. destruct (transition_spec y s) as (s1 & -> & _). apply IH.
Qed.

Lemma transitions_ret xs s : exists s', transitions xs s = (s', Ret tt).
Proof using.
  revert s. induction xs as [|y xs IH]; intros s; cbn [transitions]; [by eexists|].
  unfold bind. destruct (transition_spec y s) as (s1 & -> & _). apply IH.
Qed.
End CoreLemmas.

Definition is_active (x : fsm_state) : bool := fsm_is x Active.

Lemma left_active_snoc seen xs x :
  left_active seen (xs ++ [x]) = left_active seen xs || ((seen || existsb is_active xs) && negb (is_active x)).
Proof.
  revert seen. induction xs as [|y xs IH]; intros seen; cbn [left_active app existsb].
  - rewrite !orb_false_r. done.
  - rewrite IH, orb_assoc. unfold is_active. by rewrite <- !orb_assoc.
Qed.

(** The session is still active when it was and has not left. *)
Lemma still_active xs : existsb is_active xs = true -> left_active false xs = false ->
  List.last xs NotConnected = Active.
Proof.
  induction xs as [|x xs IH] using rev_ind; [done|].
  rewrite existsb_app, left_active_snoc, last_last. cbn [existsb orb]. unfold is_active, fsm_is.
  destruct (decide (x = Active)) as [->|Hx]; [done|].
  rewrite (bool_decide_eq_false_2 (x = Active)) by done. cbn [orb negb]. rewrite orb_false_r, andb_true_r.
  fold is_active. intros -> H. rewrite orb_true_r in H. done.
Qed.

Lemma never_active xs : existsb is_active xs = false ->
  left_active false xs = false /\ is_active (List.last xs NotConnected) = false.
Proof.
  induction xs as [|x xs IH] using rev_ind; [done|].
  rewrite existsb_app, left_active_snoc, last_last. cbn [existsb orb].
  rewrite orb_false_r. intros [Ea Ex]%orb_false_iff. destruct (IH Ea) as [-> _]. by rewrite Ea.
Qed.

Lemma wrap_mod16 n : 0 <= n -> wrap 32 n mod 16 = n mod 16.
Proof. intros. unfold wrap. change (2 ^ 32) with 4294967296. dlia. Qed.

Lemma wrap_succ n : wrap 32 (wrap 32 n + 1) = wrap 32 (n + 1).
Proof. unfold wrap. by rewrite Zplus_mod_idemp_l. Qed.

Lemma transitions_state {St SE} (w : world St SE) app (s : Session St) xs : s_fsm s = fsm_init ->
  let s' := (transitions w app xs s).1 in
  let f := s_fsm s' in
  s_trace s' = s_trace s ++ (if app && existsb is_active xs then [OnLogon] else []) ++
                            (if app && left_active false xs then [OnLogout] else []) /\
  fsm_state_ f = List.last xs NotConnected /\ reached_active_ f = existsb is_active xs /\
  fsm_visit_history_ f = ring_after NotConnected xs /\
  fsm_visit_count_ f = Z.min (Z.of_nat (length xs)) 255 /\
  fsm_visit_write_idx_ f = wrap 32 (Z.of_nat (length xs)) /\
  onLogon_fired_ f = app && existsb is_active xs /\ onLogout_fired_ f = app && left_active false xs.
Proof.
  intros Hs. induction xs as [|x xs IH] using rev_ind.
  { cbn. rewrite Hs. cbn. rewrite !andb_false_r, app_nil_r. split_and!; done. }
  cbn zeta in IH |- *. rewrite transitions_snoc. set (s1 := (transitions w app xs s).1) in *.
  destruct IH as (Ht & Hst & Hr & Hh & Hc & Hi & Ho & Hu).
  destruct (transition_spec w app x s1) as (s' & -> & Ht' & _ & Hf). cbn [fst] in *. cbn zeta in Hf.
  destruct Hf as (-> & -> & -> & -> & -> & -> & ->).
  cbn [fsm_visit_history_ fsm_visit_count_ fsm_visit_write_idx_ enter_state].
  rewrite Ht', Ht, Hr, Hh, Hc, Hi, Ho, Hu. unfold lifecycle_callback. rewrite Ho, Hu, Hst.
  rewrite existsb_app, left_active_snoc, last_last, length_app. cbn [existsb length orb].
  fold (is_active x) (is_active (List.last xs NotConnected)).
  rewrite orb_false_r. split_and!; try done.
  - rewrite <- !app_assoc. f_equal. destruct app; cbn [negb andb]; [|done].
    destruct (existsb is_active xs) eqn:Ea, (is_active x) eqn:Ex; cbn [andb negb orb];
      rewrite ?andb_false_r, ?orb_false_r, ?app_nil_r; try done.
    + destruct (left_active false xs) eqn:El; cbn [negb andb orb app]; [by rewrite andb_false_r|].
      by rewrite (still_active xs Ea El).
    + destruct (never_active xs Ea) as [Hl Hn]. by rewrite ?Hl, ?Hn.
    + destruct (never_active xs Ea) as [Hl Hn]. by rewrite ?Hl, ?Hn.
  - rewrite <- ring_after_snoc. do 2 f_equal. rewrite wrap_mod16, Z2Nat.inj_mod, Nat2Z.id by lia. done.
  - case_tests; lia.
  - rewrite wrap_succ. f_equal. lia.
  - by destruct app, (existsb is_active xs), (is_active x).
  - destruct app; cbn [andb orb]; [|done]. destruct (left_active false xs) eqn:El; cbn [orb]; [done|].
    destruct (existsb is_active xs) eqn:Ea; cbn [andb]; [by rewrite (still_active xs Ea El)|].
    by destruct (never_active xs Ea) as [_ ->].
Qed.

(** *** Durable before transmit *)

(** What other work may do: add [P]-effects to the trace, and anything to the state but
    swap the transport or the store's kind. *)
Definition quiet {St} (P : effect -> Prop) (s s' : Session St) : Prop :=
  adds P s s' /\ store_is_persistent_ (s_store s') = store_is_persistent_ (s_store s) /\
  s_transport s' = s_transport s.

#[export] Instance quiet_preorder {St} P : PreOrder (quiet (St:=St) P).
Proof.
  split; [intros s; split_and!; reflexivity|].
  intros s1 s2 s3 (A1 & B1 & C1) (A2 & B2 & C2). split_and!; [by etransitivity|congruence|congruence].
Qed.

Section Emit.
Context {St SE : Type} `{MessageStore St SE} (w : world St SE).
Context (cfg : SessionConfig) (has_clock has_application : bool) (hooks : dict_hooks).
Context (P : effect -> Prop).
Context (Hother : forall n s, quiet P s (w_other w n s)).
Context (Hlogon : P OnLogon) (Hlogout : P OnLogout).
(** The store lets no exception out but a cancellation's. *)
Context (Hthrow : forall n k, w_throw w n <> throw_other k).

Notation Q := (quiet P).

Lemma quiet_same (f : Session St -> Session St) :
  (forall s, s_trace (f s) = s_trace s /\ store_is_persistent_ (s_store (f s)) = store_is_persistent_ (s_store s) /\
    s_transport (f s) = s_transport s) -> forall s, Q s (f s).
Proof using. intros Hf s. destruct (Hf s) as (E1 & E2 & E3). split; [by apply adds_same|done]. Qed.

Lemma quiet_add e (s : Session St) : P e -> Q s (upd_trace e s).
Proof using. intros He. split; [by apply adds_one|done]. Qed.

Ltac quiet_auto :=
  first [ by apply quiet_same | by apply quiet_add | apply Hother ].

Lemma keeps_suspend : keeps Q (suspend w).
Proof using Hother. intros s. unfold suspend; cbn [fst]. etransitivity; [apply Hother|]. by apply quiet_same. Qed.

Lemma keeps_callback e : P e -> keeps Q (invoke_callback w e).
Proof using.
  intros He. unfold invoke_callback. repeat keeps_step;
    first [apply keeps_emit|apply keeps_ask|apply keeps_modify]; intros s; by quiet_auto.
Qed.

Lemma keeps_transition x : keeps Q (record_state_transition_ w has_application x).
Proof using Hlogon Hlogout.
  unfold record_state_transition_. repeat keeps_step; try (by apply keeps_callback);
    apply keeps_modify; intros s; quiet_auto.
Qed.

Lemma keeps_disconnect arm : keeps Q (disconnect_unless_superseded_ w has_application arm).
Proof using Hlogon Hlogout.
  unfold disconnect_unless_superseded_, disconnect_once. repeat keeps_step; apply keeps_transition.
Qed.

Lemma keeps_with_mgr {A} (op : bool -> SeqnumManager -> SeqnumManager * result error A) :
  keeps Q (with_mgr w op).
Proof using.
  apply keeps_mgr; [typeclasses eauto|intros s; quiet_auto|]. intros s m. by apply quiet_same.
Qed.

Lemma keeps_store_call {A} (op : SE -> St -> St * result error A) done st :
  (forall e, done = Some e -> P e) -> keeps Q (store_call w op done st).
Proof using Hother.
  intros Hd. unfold store_call. repeat keeps_step; try apply keeps_suspend;
    first [apply keeps_ask|apply keeps_modify|apply keeps_emit]; intros ?;
    first [by apply quiet_same | apply quiet_add; by apply Hd].
Qed.

Lemma keeps_store_await {A} (op : SE -> St -> St * result error A) st : keeps Q (store_await w op st).
Proof using Hother.
  unfold store_await. repeat keeps_step. by apply keeps_store_call.
Qed.

Lemma keeps_reconcile : keeps Q (reconcile_outbound w).
Proof using Hother.
  unfold reconcile_outbound. repeat keeps_step; [apply keeps_store_await|apply keeps_with_mgr].
Qed.

Definition mgr_kept (s s' : Session St) : Prop := seqnum_mgr_ s' = seqnum_mgr_ s.
#[local] Instance mgr_kept_preorder : PreOrder mgr_kept.
Proof using. split; [by intros s|]. intros s1 s2 s3 H1 H2. unfold mgr_kept in *. congruence. Qed.

Lemma disconnect_mgr arm : keeps mgr_kept (disconnect_unless_superseded_ w has_application arm).
Proof using.
  unfold disconnect_unless_superseded_, disconnect_once. repeat keeps_step.
  intros s. destruct (transition_spec w has_application Disconnected s) as (s' & -> & _ & (_ & _ & E & _) & _).
  exact E.
Qed.

Lemma disconnect_ret arm s : exists s', disconnect_unless_superseded_ w has_application arm s = (s', Ret tt).
Proof using.
  unfold disconnect_unless_superseded_, disconnect_once, bind, get. destruct (superseded arm s); [by eexists|].
  destruct (fsm_is _ _); [by eexists|].
  destruct (transition_spec w has_application Disconnected s) as (s' & -> & _). by eexists.
Qed.

Definition recorded (e : effect) (s s' : Session St) : Prop :=
  exists t, s_trace s' = s_trace s ++ t /\ e ∈ t.

Lemma recorded_later e s s1 s2 : recorded e s s1 -> Q s1 s2 -> recorded e s s2.
Proof using.
  intros (t & E & He) ((t' & E' & _) & _). exists (t ++ t').
  split; [by rewrite E', E, app_assoc|apply elem_of_app; by left].
Qed.

Lemma store_call_post {A} (op : SE -> St -> St * result error A) e st s : P e ->
  post (store_call w op (Some e) st) s (fun s' r => Q s s' /\
    exists a, r = Ret a /\ a <> let_out_other A /\ (forall x, a = answered A (Ok x) -> recorded e s s')).
Proof using Hother Hthrow.
  intros He. pose proof (keeps_store_call op (Some e) st ltac:(intros ? [= <-]; done) s) as Hk.
  unfold post. split; [exact Hk|]. clear Hk. unfold store_call, bind, ask.
  specialize (Hthrow (s_tick s)).
  destruct (w_throw w (s_tick s)) as [| |k]; cbn; [|by eexists|by destruct (Hthrow k)].
  destruct (op _ st) as [st' r]. destruct r as [x|x]; cbn; (eexists; split; [reflexivity|]; split; [done|]); [|done].
  intros _ _. match goal with |- recorded _ _ (upd_tick (w_other w ?n ?s1)) => pose proof (Hother n s1) as Ho end.
  eapply recorded_later; [|etransitivity; [exact Ho|by apply quiet_same]].
  exists [e]. split; [done|by apply list_elem_of_singleton].
Qed.

Lemma store_step_post seq data arm st s : P (Stored seq data) ->
  post (store_step w has_application seq data arm st) s (fun s' r => Q s s' /\
    match r with
    | Aborted c => c = true /\ next_outbound_ (seqnum_mgr_ s') <= seq
    | Ret (Ok _) => store_is_persistent_ (s_store s) = true -> recorded (Stored seq data) s s'
    | Ret (Err _) => True
    end).
Proof using Hother Hlogon Hlogout Hthrow.
  intros Hp. unfold store_step. apply post_bind.
  eapply post_weaken; [by apply store_call_post|]. intros s1 r (HQ & a & -> & Hno & Hrec). cbn beta iota zeta.
  assert (Hcancel : post (modify (upd_mgr (take_back_outbound seq)) ;;
      disconnect_unless_superseded_ w has_application arm ;; abort true) s1
    (fun s' (r : outcome (result error unit)) => Q s s' /\ match r with
      | Aborted c => c = true /\ next_outbound_ (seqnum_mgr_ s') <= seq
      | Ret (Ok _) => store_is_persistent_ (s_store s) = true -> recorded (Stored seq data) s s'
      | Ret (Err _) => True end)).
  { apply post_bind, post_modify. set (s2 := upd_mgr _ s1).
    apply post_bind. pose proof (keeps_disconnect arm s2) as HQ2. pose proof (disconnect_mgr arm s2) as Hm. unfold mgr_kept in Hm.
    unfold post at 1. destruct (disconnect_ret arm s2) as (s3 & E3). rewrite E3 in *. cbn in *.
    split; [etransitivity; [exact HQ|]; etransitivity; [by apply (quiet_same (upd_mgr (take_back_outbound seq)))|exact HQ2]|].
    cbn [fst] in Hm. split; [done|]. cbn. rewrite Hm. unfold take_back_outbound. destruct (seq <? _) eqn:E; cbn; lia. }
  assert (Hproceed : (store_is_persistent_ (s_store s) = true -> recorded (Stored seq data) s s1) ->
    post (let! next := get (fun s => peek_outbound (seqnum_mgr_ s)) in
          if next <=? seq then ret (Err dispatch_aborted) else ret (Ok tt)) s1
    (fun s' (r : outcome (result error unit)) => Q s s' /\ match r with
      | Aborted c => c = true /\ next_outbound_ (seqnum_mgr_ s') <= seq
      | Ret (Ok _) => store_is_persistent_ (s_store s) = true -> recorded (Stored seq data) s s'
      | Ret (Err _) => True end)).
  { intros Hr. apply post_bind, post_get. destruct (_ <=? _); apply post_ret; by split. }
  apply post_bind, post_get. assert (Hpers : store_is_persistent_ (s_store s1) = store_is_persistent_ (s_store s)) by apply HQ.
  destruct a as [[x|e]| |].
  - apply Hproceed. intros _. by apply (Hrec x).
  - destruct (bool_decide (e = store_cancelled)); [exact Hcancel|].
    destruct (store_is_persistent_ (s_store s1)) eqn:Ep.
    + apply post_bind. pose proof (keeps_reconcile s1) as Hk. unfold post at 1.
      destruct (reconcile_outbound w s1) as [s2 [u|]] eqn:Er; cbn in *.
      * split; [by etransitivity|done].
      * exfalso. revert Er. unfold reconcile_outbound, catch. destruct (bind _ _ s1) as [s3 [u|]]; done.
    + apply Hproceed. rewrite <- Hpers. done.
  - exact Hcancel.
  - done.
Qed.

(** One transmission of [frame] among effects of [P]. *)
Definition once (frame : bytes) (t : list effect) : Prop :=
  exists t1 t2, t = t1 ++ Transmitted frame :: t2 /\ Forall P t1 /\ Forall P t2.

Definition can_transmit (s : Session St) : bool :=
  live_transport_ (s_transport s) || transport_send_ (s_transport s).

Definition transmit_ends (frame : bytes) (s s' : Session St) (r : outcome (result error unit)) : Prop :=
  match r with
  | Ret (Ok _) => if can_transmit s then exists t, s_trace s' = s_trace s ++ t /\ once frame t else Q s s'
  | Ret (Err _) => Q s s'
  | Aborted c => Q s s' /\ c = true
  end.

Lemma live_write_post frame s : live_transport_ (s_transport s) = true ->
  post (live_write_serialized_ w frame) s (transmit_ends frame s).
Proof using Hother.
  intros Hl. unfold live_write_serialized_. apply post_bind, post_get. rewrite Hl. cbn [negb].
  apply post_bind, post_ask. intros granted. apply post_bind. pose proof (keeps_suspend (upd_tick s)) as H1.
  unfold post at 1. unfold suspend at 1 2. cbn [fst snd]. unfold suspend in H1. cbn [fst] in H1.
  set (s1 := upd_tick (w_other w _ _)) in *.
  assert (HQ1 : Q s s1) by (etransitivity; [by apply (quiet_same upd_tick)|exact H1]).
  destruct granted; cbn [negb]; [|apply post_ret; exact HQ1].
  apply post_bind, post_ask. intros ok.
  assert (HQ2 : Q s (upd_tick s1)) by (etransitivity; [exact HQ1|by apply (quiet_same upd_tick)]).
  destruct ok.
  - apply post_bind, post_modify. apply post_bind. set (s2 := upd_trace (Transmitted frame) (upd_tick s1)).
    pose proof (keeps_suspend s2) as H2. unfold post at 1. unfold suspend at 1 2. cbn [fst snd].
    unfold suspend in H2. cbn [fst] in H2. apply post_ret. unfold transmit_ends, can_transmit. rewrite Hl. cbn [orb].
    destruct HQ2 as ((t1 & E1 & F1) & _). destruct H2 as ((t2 & E2 & F2) & _).
    exists (t1 ++ Transmitted frame :: t2). split; [|by exists t1, t2].
    refine (eq_trans E2 _). unfold s2. cbn [upd_trace s_trace]. rewrite E1. by rewrite <- !app_assoc.
  - apply post_bind. pose proof (keeps_suspend (upd_tick s1)) as H2. unfold post at 1.
    unfold suspend at 1 2. cbn [fst snd]. unfold suspend in H2. cbn [fst] in H2. apply post_ret.
    unfold transmit_ends. by etransitivity.
Qed.

Lemma transmit_post frame s : post (transmit w frame) s (transmit_ends frame s).
Proof using Hother.
  unfold transmit. apply post_bind, post_get. destruct (live_transport_ (s_transport s)) eqn:El.
  - apply post_bind, post_co_await; [split; [by apply (quiet_same upd_tick)|done]|].
    eapply post_weaken; [by apply live_write_post|]. intros s' [[u|e]|c] Hr; [by apply post_ret| |exact Hr].
    by apply post_ret.
  - destruct (transport_send_ (s_transport s)) eqn:Es.
    + apply post_bind, post_ask. intros ok. destruct ok.
      * apply post_bind, post_modify, post_ret. unfold transmit_ends, can_transmit. rewrite El, Es. cbn [orb].
        exists [Transmitted frame]. split; [done|]. by exists [], [].
      * apply post_ret. by apply (quiet_same upd_tick).
    + apply post_ret. unfold transmit_ends, can_transmit. rewrite El, Es. cbn [orb]. reflexivity.
Qed.

(** How the call ends. *)
Definition emitted_safely (seq : seqnum_t) (frame : bytes) (arm : option fsm_state) (transmit_it : bool)
    (s s' : Session St) (r : outcome (result error unit)) : Prop :=
  exists t, s_trace s' = s_trace s ++ t /\
  match r with
  | Ret (Ok _) =>
      (Forall P t /\ (arm = None -> transmit_it = true -> can_transmit s = false)) \/
      (transmit_it = true /\ exists t1 t2,
         t = t1 ++ Transmitted frame :: t2 /\ Forall P t1 /\ Forall P t2 /\
         (store_is_persistent_ (s_store s) = true -> forall st data, store_ (s_store s) = Some st ->
            span_to_store hooks frame = Some data -> Stored seq data ∈ t1))
  | Ret (Err _) => Forall P t
  | Aborted c => c = true /\ Forall P t /\
      (next_outbound_ (seqnum_mgr_ s') <= seq \/
       (store_is_persistent_ (s_store s) = true -> forall st data, store_ (s_store s) = Some st ->
          span_to_store hooks frame = Some data -> Stored seq data ∈ t))
  end.

(** What a call with a store leaves behind when it goes on to transmit. *)
Definition stored_first (seq : seqnum_t) (frame : bytes) (s s1 : Session St) : Prop :=
  store_is_persistent_ (s_store s) = true -> forall st data, store_ (s_store s) = Some st ->
    span_to_store hooks frame = Some data -> recorded (Stored seq data) s s1.

Lemma stored_first_in seq frame s s1 t : s_trace s1 = s_trace s ++ t -> stored_first seq frame s s1 ->
  store_is_persistent_ (s_store s) = true -> forall st data, store_ (s_store s) = Some st ->
    span_to_store hooks frame = Some data -> Stored seq data ∈ t.
Proof using.
  intros E Hr Hpers st data Hst Hsp. destruct (Hr Hpers st data Hst Hsp) as (t0 & E0 & Hin).
  rewrite E in E0. by apply app_inv_head in E0 as <-.
Qed.

Lemma store_part_post seq frame arm s : (forall data, P (Stored seq data)) ->
  post (match store_ (s_store s), span_to_store hooks frame with
        | Some st, Some data => store_step w has_application seq data arm st
        | _, _ => ret (Ok tt)
        end) s (fun s' r => Q s s' /\
    match r with
    | Aborted c => c = true /\ next_outbound_ (seqnum_mgr_ s') <= seq
    | Ret (Ok _) => stored_first seq frame s s'
    | Ret (Err _) => True
    end).
Proof using Hother Hlogon Hlogout Hthrow.
  intros Hp. unfold stored_first.
  destruct (store_ (s_store s)) as [st|]; [|apply post_ret; split; [reflexivity|done]].
  destruct (span_to_store hooks frame) as [data|]; [|apply post_ret; split; [reflexivity|done]].
  eapply post_weaken; [by apply store_step_post|]. intros s' [[u|e]|] (HQ & Hr); split; try done.
  intros Hpers st' data' [= <-] [= <-]. by apply Hr.
Qed.

Lemma store_then_emit_post seq frame arm transmit_it s :
  (forall data, P (Stored seq data)) ->
  post (store_then_emit w has_clock has_application hooks seq frame arm transmit_it) s
    (emitted_safely seq frame arm transmit_it s).
Proof using Hother Hlogon Hlogout Hthrow.
  intros Hp. pose proof (store_part_post seq frame arm s Hp) as Hpart.
  unfold store_then_emit. apply post_bind, post_get. apply post_bind.
  eapply post_weaken; [exact Hpart|]. clear Hpart.
  intros s1 [[u|e]|c] (HQ & Hr); cbn beta iota; destruct HQ as ((t1 & E1 & F1) & HQ').
  2: { apply post_ret. by exists t1. }
  2: { exists t1. split; [done|]. destruct Hr as (-> & Hr). split; [done|]. split; [done|]. by left. }
  pose proof (stored_first_in seq frame s s1 t1 E1 Hr) as Hin. clear Hr.
  assert (Hquiet : (arm = None -> transmit_it = true -> can_transmit s = false) ->
    post (ret (Ok tt)) s1 (emitted_safely seq frame arm transmit_it s)).
  { intros Hc. apply post_ret. exists t1. split; [done|by left]. }
  apply post_bind, post_get. destruct (superseded arm s1) eqn:Esup.
  { apply Hquiet. intros ->. done. }
  destruct transmit_it; cbn [negb]; [|by apply Hquiet].
  assert (Hcan : can_transmit s1 = can_transmit s) by (unfold can_transmit; by rewrite (proj2 HQ')).
  apply post_bind. eapply post_weaken; [apply transmit_post|]. intros s2 r Ht.
  unfold transmit_ends in Ht. rewrite Hcan in Ht. destruct r as [[u2|e]|c].
  2: { destruct Ht as ((t2 & E2 & F2) & _). apply post_ret. exists (t1 ++ t2).
       split; [by rewrite E2, E1, app_assoc|by apply Forall_app]. }
  2: { destruct Ht as [((t2 & E2 & F2) & _) Hc]. exists (t1 ++ t2).
       split; [by rewrite E2, E1, app_assoc|]. split; [exact Hc|]. split; [by apply Forall_app|].
       right. intros Hpers st data Hst Hsp. apply elem_of_app. left. by eapply Hin. }
  apply post_bind. assert (Hlast : forall m : M St unit, (forall s, exists s', m s = (s', Ret tt) /\ s_trace s' = s_trace s) ->
    post m s2 (fun s' r => match r with Ret _ => post (ret (Ok tt)) s' (emitted_safely seq frame arm true s)
      | Aborted c => emitted_safely seq frame arm true s s' (Aborted c) end)).
  { intros m Hm. destruct (Hm s2) as (s3 & E3 & T3). unfold post at 1. rewrite E3. cbn. apply post_ret.
    destruct (can_transmit s) eqn:Ec.
    - destruct Ht as (t2 & E2 & ta & tb & -> & Fa & Fb).
      exists (t1 ++ ta ++ Transmitted frame :: tb). split; [by rewrite T3, E2, E1, <- app_assoc|]. right.
      split; [done|]. exists (t1 ++ ta), tb. split; [by rewrite <- app_assoc|].
      split; [by apply Forall_app|]. split; [done|]. intros Hpers st data Hst Hsp.
      apply elem_of_app. left. by eapply Hin.
    - destruct Ht as ((t2 & E2 & F2) & _). exists (t1 ++ t2). split; [by rewrite T3, E2, E1, app_assoc|]. left.
      split; [by apply Forall_app|]. done. }
  destruct has_clock; [|apply (Hlast (ret tt)); intros s3; by exists s3].
  apply (Hlast (let! now := steady_now w in modify (upd_live (set_last_outbound now)))).
  intros s3. eexists. split; [reflexivity|]. done.
Qed.
End Emit.

(** ** A world and a session to try things in *)

Definition calm_world : world log_store bool :=
  World log_store bool (fun _ => false) (fun _ => true) (fun _ => true) (fun _ => no_throw) (fun _ => true) (fun _ => true) (fun _ => false)
    (fun _ => CallbackAnswer false 0 (Ok tt)) (fun _ => new_delete_resource) (fun _ => Err session_invalid_logon) (fun _ => 0)
    (fun _ => 0) (fun _ => 0) (fun _ s => s).

Definition sample_config : SessionConfig :=
  mkSessionConfig [65] [66] [70] initiator (Some 30) None millis bilateral_strict false false false false
    2000 false false true true false None None None None None [] mtls_ca 10000 false None.

Definition empty_log : log_store := mkLog (fun _ => []) (fun _ => 1).

Definition sample_session (st : fsm_state) (store : option log_store) (m : SeqnumManager) : Session log_store :=
  mkSession (set_state st fsm_init) events_init close_init
    (mkStorePart store (bool_decide (is_Some store)) false false) m
    (mkReconnect false resend_state_reset) (mkLiveness 0 0 [] false 0)
    (mkLogon av_Unknown av_Unknown [] false None None 0) (mkTransport true false) false 0 [].

(** ** Properties *)

(** Garbled frames are all accounted for.  Over any series of summaries the counter is
    the number of garbled regions, and the records written, each naming one region and
    counting those no record named, account together with the pending count for every one
    of them; two records in a row are at least max(HeartBtInt, 1 s) apart, the deadline
    saturating at the clock's end. *)
Theorem garbles_accounted hb gs :
  Forall (fun g => INT64_MIN <= g.1 <= INT64_MAX /\ 0 <= regions g.2 <= UINT32_MAX) gs ->
  total_regions gs <= UINT64_MAX -> 0 <= default kDefaultHeartBtInt hb <= INT64_MAX ->
  let '(p, records) := note_all hb gs events_init in
  garbled_frames_ p = total_regions gs /\
  total_accounted records + garbles_unlogged_ p = total_regions gs /\
  spaced (garbles_gap hb) records.
Proof.
  intros Hg Ht Hb.
  assert (Hr : Forall (fun g => 0 <= regions g.2 <= UINT32_MAX) gs) by (eapply Forall_impl; [exact Hg|cbn; tauto]).
  assert (Hn : Forall (fun g => INT64_MIN <= g.1 <= INT64_MAX) gs) by (eapply Forall_impl; [exact Hg|cbn; tauto]).
  pose proof (note_all_accounts hb gs events_init Hr ltac:(cbn; lia) Ht) as Ha.
  destruct (note_all_spaced hb gs events_init Hb Hn Hr ltac:(cbn; lia) Ht) as [Hs _].
  destruct (note_all hb gs events_init) as [p rs]. cbn in Ha. split; [|split]; [lia|lia|exact Hs].
Qed.

(** Three summaries, the second inside the rate limit: two records, the second counting
    the regions the first left out. *)
Lemma garbles_accounted_witness :
  let gs := [(0, GarbleSummary 1 (Some wire_checksum_mismatch) 9); (5, GarbleSummary 4 (Some wire_checksum_mismatch) 9);
             (40 * ns_per_s, GarbleSummary 2 (Some wire_checksum_mismatch) 9)] in
  total_regions gs = 7 /\
  total_accounted (note_all None gs events_init).2 + garbles_unlogged_ (note_all None gs events_init).1 = 7 /\
  map (fun r => accounted r.2) (note_all None gs events_init).2 = [1; 6].
Proof.
  intros gs. pose proof (garbles_accounted None gs) as H.
  assert (Hg : Forall (fun g : Z * garble_summary => INT64_MIN <= g.1 <= INT64_MAX /\ 0 <= regions g.2 <= UINT32_MAX) gs).
  { unfold gs, INT64_MIN, INT64_MAX, UINT32_MAX, ns_per_s. repeat constructor; cbn; lia. }
  specialize (H Hg ltac:(vm_compute; discriminate) ltac:(vm_compute; split; discriminate)).
  destruct (note_all None gs events_init) as [p rs] eqn:E. destruct H as (_ & H & _).
  split; [done|]. split; [exact H|].
  assert (E' : rs = (note_all None gs events_init).2) by (by rewrite E). rewrite E'. by vm_compute.
Defined.

(** C38: the lifecycle callbacks.  From a fresh session, whatever the states it passes
    through: onLogon is called once, at the first Active, and onLogout once, at the first
    departure from Active, after it; neither without an application; the session has
    reached Active iff one of the states was; the state is the last one; and the history
    shows the last 16 states. *)
Theorem lifecycle_once {St SE} (w : world St SE) app (s : Session St) xs :
  s_fsm s = fsm_init ->
  let s' := (transitions w app xs s).1 in
  s_trace s' = s_trace s ++ (if app && existsb is_active xs then [OnLogon] else []) ++
                            (if app && left_active false xs then [OnLogout] else []) /\
  fsm_state_ (s_fsm s') = List.last xs NotConnected /\
  reached_active_ (s_fsm s') = existsb is_active xs /\
  fsm_visit_history (s_fsm s') ≡ₚ drop (length xs - 16) xs.
Proof.
  intros Hs. destruct (transitions_state w app s xs Hs) as (Ht & Hst & Hr & Hh & Hc & _).
  cbn zeta. split_and!; [done..|]. unfold fsm_visit_history. rewrite Hh, Hc.
  replace (Z.to_nat (Z.min (Z.min (Z.of_nat (length xs)) 255) 16)) with (Nat.min (length xs) 16) by lia.
  apply ring_after_recent.
Qed.

(** A reconnecting session: Active twice, one callback of each kind. *)
Lemma lifecycle_once_witness :
  let xs := [LogonSent; Active; Disconnected; NotConnected; LogonSent; Active; LogoutSent; Disconnected] in
  let s := sample_session NotConnected None manager_init in
  s_trace (transitions calm_world true xs s).1 = [OnLogon; OnLogout] /\
  fsm_visit_history (s_fsm (transitions calm_world true xs s).1) ≡ₚ xs.
Proof.
  intros xs s. destruct (lifecycle_once calm_world true s xs eq_refl) as (Ht & _ & _ & Hh).
  split; [exact Ht|exact Hh].
Defined.


