(* ===== verification/FieldIterator.v ===== *)
(** The streaming field iterator (include/fixpp/wire/parser.hpp): what a range-for over an
    Iter view yields, and the fault record it keeps. *)
From S2P Require Import Prelude Errors TagScan LengthData Writer FrameHeader.
From S2P Require Import OffsetTable.

(** ** Definitions *)

(** What an iterator keeps between two fields: where the next field starts, the Data tag
    and length the previous field announced, the tag of the field it stands on, and the
    first fault met with its Length tag. *)
Record field_iterator := Iterator {
  it_next : Z;
  it_carry : Z * Z;
  it_cur_tag : Z;
  it_fault : field_fault * Z;
}.

(** [record_fault]: a later fault does not replace the first. *)
Definition iter_record_fault (first : field_fault * Z) (kind : field_fault) (length_tag : Z)
  : field_fault * Z :=
  match first.1 with fault_none => (kind, length_tag) | _ => first end.

(** [advance]: the field it stands on then, or none once it is done, and the iterator. *)
Definition iter_advance (h : dict_hooks) (buf : bytes) (it : field_iterator)
  : option (Z * bytes) * field_iterator :=
  let pos := it_next it in
  let stop f := (None, Iterator pos (it_carry it) (it_cur_tag it) f) in
  if zlen buf <=? pos then (None, Iterator pos (it_carry it) 0 (it_fault it))
  else
    match tag_loop (zdrop pos buf) pos 0 with
    | tag_end tag i _ =>
        if (zlen buf <=? i) || negb (zget buf i =? EQ)
        then stop (iter_record_fault (it_fault it) malformed_tag 0)
        else
          let f := if i =? pos then iter_record_fault (it_fault it) malformed_tag 0 else it_fault it in
          let vstart := i + 1 in
          let '(carry_tag, carry_len) := it_carry it in
          if negb (carry_tag =? 0) && (tag =? carry_tag) then
            let mismatch := iter_record_fault f length_data_mismatch (it_cur_tag it) in
            let avail := zlen buf - vstart in
            if avail <? carry_len then
              (Some (tag, zsub buf vstart avail), Iterator (zlen buf) (0, 0) tag mismatch)
            else
              let end_ := vstart + carry_len in
              if (end_ <? zlen buf) && negb (zget buf end_ =? SOH) then stop mismatch
              else (Some (tag, zsub buf vstart carry_len),
                    Iterator (if end_ <? zlen buf then end_ + 1 else end_) (0, 0) tag
                      (if end_ =? zlen buf then mismatch else f))
          else
            let i := soh_from (zdrop vstart buf) vstart in
            let value := zsub buf vstart (i - vstart) in
            let dt := data_tag_for_length h tag in
            (Some (tag, value),
             Iterator (if i <? zlen buf then i + 1 else i)
               (if negb (dt =? 0) then (dt, parse_bounded_u32 value) else (0, 0)) tag f)
    | tag_non_digit | tag_over_range => stop (iter_record_fault (it_fault it) malformed_tag 0)
    end.

(** The fields a walk yields, and the fault record it ends with; each field consumes a byte. *)
Fixpoint iter_loop (fuel : nat) (h : dict_hooks) (buf : bytes) (it : field_iterator)
  : list (Z * bytes) * (field_fault * Z) :=
  match fuel with
  | O => ([], it_fault it)
  | S fuel =>
      match iter_advance h buf it with
      | (None, it) => ([], it_fault it)
      | (Some field, it) => let '(fs, f) := iter_loop fuel h buf it in (field :: fs, f)
      end
  end.

(** [begin()] to [end()] over a whole frame. *)
Definition iter_walk (buf : bytes) (h : dict_hooks) : list (Z * bytes) * (field_fault * Z) :=
  iter_loop (S (length buf)) h buf (Iterator 0 (0, 0) 0 (fault_none, 0)).

Definition iter_fields (buf : bytes) (h : dict_hooks) : list (Z * bytes) := (iter_walk buf h).1.

(** ** Lemmas *)

(** The iterator's carry is the one the strict scan keeps. *)
Definition carry_alike (carry : Z * Z) (c : length_data_carry) : Prop :=
  carry.1 = carry_data_tag c /\ (carry.1 <> 0 -> carry.2 = carry_count c) /\ 0 <= carry_count c.

(** An advance that answers a field moved past it. *)
Lemma iter_advance_progress h buf it field it' : 0 <= it_next it -> 0 <= (it_carry it).2 ->
  iter_advance h buf it = (Some field, it') ->
  it_next it < it_next it' <= zlen buf /\ 0 <= (it_carry it').2.
Proof.
  intros Hp Hc. unfold iter_advance. destruct (zlen buf <=? it_next it) eqn:E; [done|].
  destruct (tag_loop _ _ _) as [tag i p| |] eqn:Et; [|done..].
  apply tag_loop_inv in Et as (ds & _ & _ & _ & _ & -> & _); [|lia]. pose proof (zlen_nonneg ds).
  destruct (_ || _) eqn:Eg; [done|]. destruct (it_carry it) as [ct cl]. cbn [snd] in Hc.
  pose proof (soh_from_ge (zdrop (it_next it + zlen ds + 1) buf) (it_next it + zlen ds + 1)) as Hs.
  rewrite zlen_drop in Hs by lia.
  destruct (_ && (_ =? ct)).
  - case_tests; intros [= _ <-]; cbn; lia.
  - intros [= _ <-]. cbn [it_next it_carry]. split; [case_tests; lia|].
    case_tests; cbn; try lia; apply parse_bounded_nonneg.
Qed.

Lemma iter_loop_fuel h buf : forall fuel it, 0 <= it_next it -> 0 <= (it_carry it).2 ->
  zlen buf - it_next it < Z.of_nat fuel -> iter_loop (S fuel) h buf it = iter_loop fuel h buf it.
Proof.
  induction fuel as [|fuel IH]; intros it Hp Hc Hf.
  { cbn. unfold iter_advance. by replace (zlen buf <=? it_next it) with true by lia. }
  remember (S fuel) as n eqn:En. rewrite En at 2. cbn [iter_loop].
  destruct (iter_advance h buf it) as [[field|] it'] eqn:E; [|done].
  apply iter_advance_progress in E as [Hn Hc']; [|done..].
  by rewrite IH by lia.
Qed.

(** The first fault stays. *)
Lemma iter_fault_sticky h buf it : (it_fault it).1 <> fault_none ->
  it_fault (iter_advance h buf it).2 = it_fault it.
Proof.
  intros Hf. unfold iter_advance.
  assert (Hr : forall k lt, iter_record_fault (it_fault it) k lt = it_fault it).
  { intros. unfold iter_record_fault. by destruct (it_fault it) as [[| |] ?]. }
  assert (Hi : forall b : bool, (if b then it_fault it else it_fault it) = it_fault it) by by intros [].
  destruct (it_carry it) as [ct cl]. rewrite !Hr.
  destruct (_ <=? _); [done|]. destruct (tag_loop _ _ _); [|done..].
  rewrite !Hi, !Hr. repeat (case_match; try done).
Qed.

Lemma iter_loop_sticky h buf : forall fuel it, (it_fault it).1 <> fault_none ->
  (iter_loop fuel h buf it).2 = it_fault it.
Proof.
  induction fuel as [|fuel IH]; intros it Hf; [done|]. cbn [iter_loop].
  pose proof (iter_fault_sticky h buf it Hf) as Hs.
  destruct (iter_advance h buf it) as [[field|] it'] eqn:E; cbn in Hs; [|done].
  rewrite <- Hs in Hf. specialize (IH it' Hf). destruct (iter_loop fuel h buf it') as [fs f]. cbn in *. congruence.
Qed.

(** One advance against one step of the strict scan. *)
Lemma iter_advance_split h buf i carry c prev : hooks_unchained h -> 0 <= i < zlen buf -> carry_alike carry c ->
  (carry_data_tag c <> 0 -> data_tag_for_length h (carry_data_tag c) = 0) ->
  let it := Iterator i carry prev (fault_none, 0) in
  let faults kind lt :=
    match iter_advance h buf it with (_, it') => it_fault it' = (kind, lt) end in
  match read_tag buf i with
  | None => faults malformed_tag 0
  | Some (tag, vs) =>
      match read_value h c buf vs tag with
      | (None, _) => faults length_data_mismatch prev
      | (Some ext, c') => exists carry',
          iter_advance h buf it =
            (Some (tag, zsub buf vs (ve_end ext - vs)),
             Iterator (skip_soh buf (ve_end ext)) carry' tag (fault_none, 0)) /\
          carry_alike carry' c' /\
          (carry_data_tag c' <> 0 -> data_tag_for_length h (carry_data_tag c') = 0)
      end
  end.
Proof.
  intros Hu Hi (Ht & Hc & Hc0) Hdata it faults. unfold faults, iter_advance, read_tag. cbn [it_next it_carry it_cur_tag it_fault it].
  replace (zlen buf <=? i) with false by lia.
  destruct (tag_loop (zdrop i buf) i 0) as [tag j p| |] eqn:Etl; [|done..].
  apply tag_loop_inv in Etl as (ds & _ & _ & _ & _ & Hj & _); [|lia]. pose proof (zlen_nonneg ds).
  destruct ((zlen buf <=? j) || negb (zget buf j =? EQ)) eqn:Eg; cbn [orb]; [done|].
  destruct carry as [ct cl]. cbn [fst snd] in *. subst ct.
  destruct (j =? i) eqn:Eji.
  { cbn [iter_record_fault fst]. destruct (_ && (tag =? _)); [|done].
    destruct (_ <? cl); [done|]. destruct (_ && _); [done|]. by destruct (_ =? zlen buf). }
  unfold read_value. rewrite (Z.eqb_sym tag (carry_data_tag c)).
  destruct (negb (carry_data_tag c =? 0) && (carry_data_tag c =? tag)) eqn:Ec.
  - assert (carry_data_tag c = tag /\ tag <> 0) as [Htag Ht0] by lia. rewrite Hc by lia.
    unfold counted_value_end. replace (zlen buf <? j + 1) with false by lia. cbn [orb].
    destruct (zlen buf - (j + 1) <? carry_count c) eqn:E1.
    { by replace (zlen buf - (j + 1) <=? carry_count c) with true by lia. }
    destruct (zlen buf - (j + 1) <=? carry_count c) eqn:E2.
    { replace (j + 1 + carry_count c <? zlen buf) with false by lia. cbn [andb].
      by replace (j + 1 + carry_count c =? zlen buf) with true by lia. }
    replace (j + 1 + carry_count c <? zlen buf) with true by lia. cbn [andb orb].
    destruct (zget buf (j + 1 + carry_count c) =? SOH) eqn:E3; cbn [negb]; [|done].
    replace (j + 1 + carry_count c =? zlen buf) with false by lia.
    exists (0, 0). cbn [ve_end]. rewrite <- Htag, Hdata by lia. cbn [negb].
    unfold skip_soh. replace (j + 1 + carry_count c <? zlen buf) with true by lia.
    replace (j + 1 + carry_count c - (j + 1)) with (carry_count c) by lia. by repeat split.
  - cbn [ve_end]. eexists. split; [done|]. cbn [carry_data_tag].
    destruct (data_tag_for_length h tag =? 0) eqn:E1; cbn [negb].
    + split; [|lia]. split; [cbn; lia|]. by split.
    + split; [|intros _; apply unchained; lia]. split; [done|]. cbn [fst snd carry_count].
      split; [done|apply parse_bounded_nonneg].
Qed.

Lemma iter_loop_split h buf : hooks_unchained h -> forall fuel i carry c prev fs kind lt off,
  0 <= i <= zlen buf -> carry_alike carry c ->
  (carry_data_tag c <> 0 -> data_tag_for_length h (carry_data_tag c) = 0) ->
  zlen buf - i <= Z.of_nat fuel ->
  split_loop fuel h buf i c prev = (fs, (kind, lt, off)) ->
  exists rest, iter_loop (S fuel) h buf (Iterator i carry prev (fault_none, 0)) = (fs ++ rest, (kind, lt)) /\
    (kind = fault_none -> rest = []).
Proof.
  intros Hu. induction fuel as [|fuel IH]; intros i carry c prev fs kind lt off Hi Ha Hd Hf.
  { cbn [split_loop iter_loop]. intros [= <- <- <- _]. exists []. unfold iter_advance. cbn [it_next it_fault].
    by replace (zlen buf <=? i) with true by lia. }
  remember (S fuel) as n eqn:En. cbn [iter_loop]. rewrite En. cbn [split_loop].
  destruct (zlen buf <=? i) eqn:E.
  { intros [= <- <- <- _]. exists []. unfold iter_advance. cbn [it_next it_fault]. by rewrite E. }
  pose proof (iter_advance_split h buf i carry c prev Hu ltac:(lia) Ha Hd) as Hs. cbn zeta in Hs.
  assert (Hstop : forall k l, k <> fault_none ->
    (match iter_advance h buf (Iterator i carry prev (fault_none, 0)) with (_, it') => it_fault it' = (k, l) end) ->
    exists rest, iter_loop (S n) h buf (Iterator i carry prev (fault_none, 0)) = (rest, (k, l))).
  { intros k l Hk Hm. cbn [iter_loop]. destruct (iter_advance _ _ _) as [[field|] it']; [|rewrite Hm; eauto].
    pose proof (iter_loop_sticky h buf n it' ltac:(by rewrite Hm)) as Hst.
    destruct (iter_loop n h buf it') as [fs' f]. cbn in Hst. subst f. rewrite Hm. eauto. }
  cbn [iter_loop] in Hstop. rewrite En in Hstop.
  destruct (read_tag buf i) as [[tag vs]|] eqn:Et.
  2: { intros [= <- <- <- _]. apply Hstop in Hs as [rest Hr]; [|done]. exists rest. by split. }
  pose proof (read_tag_progress _ _ _ _ Hi Et) as [Hv _].
  destruct (read_value h c buf vs tag) as [[ext|] c'] eqn:Er.
  2: { intros [= <- <- <- _]. apply Hstop in Hs as [rest Hr]; [|done]. exists rest. by split. }
  destruct Hs as (carry' & -> & Ha' & Hd').
  pose proof (read_value_end h c buf vs tag ext c' ltac:(lia) (proj2 (proj2 Ha)) Er) as He.
  destruct (split_loop fuel h buf _ c' tag) as [fs' r] eqn:Es. intros [= <- ->].
  rewrite <- En. apply (IH _ carry') in Es as (rest & -> & Hk); [by exists rest| |done..|].
  all: unfold skip_soh; case_tests; lia.
Qed.

Lemma iter_walk_split frame h fs kind lt off :
  hooks_unchained h -> split_fields frame h = (fs, (kind, lt, off)) ->
  exists rest, iter_walk frame h = (fs ++ rest, (kind, lt)) /\ (kind = fault_none -> rest = []).
Proof.
  intros Hu Hs. unfold split_fields in Hs.
  apply (iter_loop_split h frame Hu _ 0 (0, 0) carry_init 0 fs kind lt off); [pose_zlen; lia| |done| |exact Hs].
  - by repeat split.
  - unfold zlen. lia.
Qed.

Lemma iter_walk_clean frame h fs lt off : hooks_unchained h ->
  split_fields frame h = (fs, (fault_none, lt, off)) -> iter_walk frame h = (fs, (fault_none, lt)).
Proof.
  intros Hu Hs. destruct (iter_walk_split _ _ _ _ _ _ Hu Hs) as (rest & -> & Hr).
  by rewrite (Hr eq_refl), app_nil_r.
Qed.

(** ** Properties *)

(** A walk with the iterator is the strict scan of the same frame: it yields every field
    the strict scanners read, and nothing else when the frame has no fault; its fault record
    is the fault, and the Length tag, the strict scanners stop at. *)
Theorem iterator_exact frame h fs kind lt off :
  hooks_unchained h -> split_fields frame h = (fs, (kind, lt, off)) ->
  exists rest, iter_walk frame h = (fs ++ rest, (kind, lt)) /\ (kind = fault_none -> rest = []).
Proof. apply iter_walk_split. Qed.

(** 8=A|95=2|96=x<SOH>|10=1: a Data value that does not end where its Length says. *)
Lemma iterator_exact_witness :
  exists rest, iter_walk [56;61;65;1;57;53;61;50;1;57;54;61;120;1;49;48;61;49;1] no_hooks =
    ([(8, [65]); (95, [50])] ++ rest, (length_data_mismatch, 95)) /\
    (length_data_mismatch = fault_none -> rest = []).
Proof.
  apply (iterator_exact _ no_hooks _ _ _ 9); [apply no_hooks_unchained|vm_compute; reflexivity].
Defined.
