(* ===== verification/Routing.v ===== *)
(** Which dictionary judges an inbound frame (src/session/session.cpp: [select_route_],
    [logon_appl_version_] and the MsgType defaults of a Logon) and the scan of a Logon's
    MsgType group (src/session/logon_msg_type_defaults.hpp). *)
From S2P Require Import Prelude Errors TagScan LengthData VersionProfile Writer FrameHeader.
From S2P Require Import OffsetTable FieldIterator SessionState.

(** ** logon_msg_type_defaults.hpp *)

Record logon_msg_type_instance := MsgTypeInstance {
  mti_ref_msg_type : bytes;
  mti_msg_direction : option bytes;
  mti_ref_appl_ver_id : option bytes;
  mti_default_ver : option bytes;
}.

Definition counted (e : logon_msg_type_instance) : bool :=
  bool_decide (mti_msg_direction e = Some [83]) && bool_decide (mti_default_ver e = Some [89]).

Definition declared_count (value : bytes) : Z :=
  match value with
  | [] => 0
  | _ => if forallb is_digit value then parse_bounded_u32 value else 0
  end.

Definition kNoMsgTypes : Z := 384.
Definition kRefMsgType : Z := 372.
Definition kMsgDirection : Z := 385.
Definition kRefApplVerId : Z := 1130.
Definition kRefApplExtId : Z := 1406.
Definition kRefCstmApplVerId : Z := 1131.
Definition kDefaultVerIndicator : Z := 1410.

Definition set_direction (v : bytes) (e : logon_msg_type_instance) : logon_msg_type_instance :=
  MsgTypeInstance (mti_ref_msg_type e)
    (match mti_msg_direction e with Some d => Some d | None => Some v end)
    (mti_ref_appl_ver_id e) (mti_default_ver e).
Definition set_ref_appl_ver_id (v : bytes) (e : logon_msg_type_instance) : logon_msg_type_instance :=
  MsgTypeInstance (mti_ref_msg_type e) (mti_msg_direction e)
    (match mti_ref_appl_ver_id e with Some d => Some d | None => Some v end) (mti_default_ver e).
Definition set_default_ver (v : bytes) (e : logon_msg_type_instance) : logon_msg_type_instance :=
  MsgTypeInstance (mti_ref_msg_type e) (mti_msg_direction e) (mti_ref_appl_ver_id e)
    (match mti_default_ver e with Some d => Some d | None => Some v end).

(** The instances handed to [out], from the field after 384 on. *)
Fixpoint scan_instances (fs : list (Z * bytes)) (remaining : Z) (instance : option logon_msg_type_instance)
  : list logon_msg_type_instance :=
  match fs with
  | [] => option_list instance
  | (tag, value) :: fs =>
      if tag =? kRefMsgType then
        option_list instance ++
        (if remaining =? 0 then []
         else scan_instances fs (remaining - 1) (Some (MsgTypeInstance value None None None)))
      else
        match instance with
        | None => []
        | Some e =>
            if tag =? kMsgDirection then scan_instances fs remaining (Some (set_direction value e))
            else if tag =? kRefApplVerId then scan_instances fs remaining (Some (set_ref_appl_ver_id value e))
            else if tag =? kDefaultVerIndicator then scan_instances fs remaining (Some (set_default_ver value e))
            else if (tag =? kRefApplExtId) || (tag =? kRefCstmApplVerId) then scan_instances fs remaining (Some e)
            else [e]
        end
  end.

Fixpoint after_no_msg_types (fs : list (Z * bytes)) : list logon_msg_type_instance :=
  match fs with
  | [] => []
  | (tag, value) :: fs =>
      if tag =? kNoMsgTypes then
        let remaining := declared_count value in
        if remaining =? 0 then [] else scan_instances fs remaining None
      else after_no_msg_types fs
  end.

Definition scan_logon_msg_type_defaults (frame : bytes) (h : dict_hooks) : list logon_msg_type_instance :=
  after_no_msg_types (iter_fields frame h).

(** ** The MsgType defaults *)

Definition resolve_ref_appl_ver_id (value : bytes) : expected application_version :=
  resolve_application_version (VersionProfile.VersionProfile sv_vt11 av_Unknown false) value.

Definition kMaxMsgTypeDefaults : Z := 256.
Definition kMaxMsgTypeDefaultBytes : Z := 8.

Record logon_group_refusal := Refusal { lgr_reason : Z; lgr_ref_tag : Z }.

Section Registry.
(** The versions the engine holds a dictionary for. *)
Context (registry_has : application_version -> bool).

(** One instance of [refuse_msg_type_defaults_]: the refusal so far, the instances counted. *)
Definition refuse_instance (acc : option logon_group_refusal * Z) (e : logon_msg_type_instance)
  : option logon_group_refusal * Z :=
  let '(refusal, n) := acc in
  match refusal, mti_msg_direction e with
  | Some _, _ => acc
  | None, None => (Some (Refusal 1 385), n)
  | None, Some _ =>
      let resolved :=
        match mti_ref_appl_ver_id e with
        | Some (c :: v) => match resolve_ref_appl_ver_id (c :: v) with Ok av => Ok (Some av) | Err x => Err x end
        | _ => Ok None
        end in
      match resolved with
      | Err _ => (Some (Refusal 5 1130), n)
      | Ok version =>
          if negb (counted e) then (None, n)
          else
            let n := n + 1 in
            if kMaxMsgTypeDefaults <? n then (Some (Refusal 5 384), n)
            else if bool_decide (is_Some (mti_ref_appl_ver_id e)) &&
                    negb (match version with Some av => registry_has av | None => false end)
            then (Some (Refusal 5 1130), n)
            else if kMaxMsgTypeDefaultBytes <? zlen (mti_ref_msg_type e) then (Some (Refusal 5 372), n)
            else (None, n)
      end
  end.

Definition refuse_msg_type_defaults_ (frame : bytes) (transport_hooks : dict_hooks)
  : option logon_group_refusal :=
  (fold_left refuse_instance (scan_logon_msg_type_defaults frame transport_hooks) (None, 0)).1.

Definition kDefaultApplVerIdTag : Z := 1137.

Definition logon_appl_version_ (validating : bool) (default_appl_ver_id : option bytes) (frame : bytes)
    (transport_hooks : dict_hooks) : result logon_group_refusal application_version :=
  match default_appl_ver_id with
  | None => Err (Refusal 1 kDefaultApplVerIdTag)
  | Some v =>
      match resolve_ref_appl_ver_id v with
      | Err _ => Err (Refusal 5 kDefaultApplVerIdTag)
      | Ok av =>
          if negb (registry_has av) then Err (Refusal 5 kDefaultApplVerIdTag)
          else if validating then
            match refuse_msg_type_defaults_ frame transport_hooks with
            | Some r => Err r
            | None => Ok av
            end
          else Ok av
      end
  end.
End Registry.

(** [std::lower_bound] over the sorted entries: the first not below the key. *)
Fixpoint default_position (entries : list (bytes * application_version)) (key : bytes) : nat :=
  match entries with
  | [] => O
  | (mt, _) :: es => if bytes_lt mt key then S (default_position es key) else O
  end.

Definition find_msg_type_default (entries : list (bytes * application_version)) (key : bytes)
  : nat * option application_version :=
  let at_ := default_position entries key in
  (at_, match entries !! at_ with
        | Some (mt, v) => if bool_decide (mt = key) then Some v else None
        | None => None
        end).

Definition record_instance (acc : list (bytes * application_version) * Z) (e : logon_msg_type_instance)
  : list (bytes * application_version) * Z :=
  let '(entries, n) := acc in
  if negb (counted e) then acc
  else
    let n := n + 1 in
    let mt := mti_ref_msg_type e in
    if kMaxMsgTypeDefaults <? n then (entries, n)
    else if (zlen mt =? 0) || (kMaxMsgTypeDefaultBytes <? zlen mt) || is_fixt_admin_msgtype mt
    then (entries, n)
    else
      match mti_ref_appl_ver_id e with
      | Some (c :: v) =>
          match resolve_ref_appl_ver_id (c :: v) with
          | Err _ => (entries, n)
          | Ok av =>
              let '(at_, found) := find_msg_type_default entries mt in
              match found with
              | Some _ => (<[at_ := (mt, av)]> entries, n)
              | None => (take at_ entries ++ (mt, av) :: drop at_ entries, n)
              end
          end
      | _ => (entries, n)
      end.

Definition record_msg_type_defaults_ (frame : bytes) (transport_hooks : dict_hooks)
  : list (bytes * application_version) :=
  (fold_left record_instance (scan_logon_msg_type_defaults frame transport_hooks) ([], 0)).1.

Definition msg_type_default_for_ (entries : list (bytes * application_version)) (msg_type : bytes)
  : application_version :=
  default av_Unknown (find_msg_type_default entries msg_type).2.

(** ** Routes *)

(** What a route judges a frame with: the pairs of its table, and its validator, which
    answers the error and the tag it concerns. *)
Record route_entry := RouteEntry {
  re_hooks : dict_hooks;
  re_validator : option (bytes -> result (error * Z) unit);
}.

Record routing := Routing {
  fixt_routing_ : bool;
  inbound_hooks : dict_hooks;             (* of [inbound_tv_], or of none *)
  inbound_header_tag : Z -> bool;         (* the header tags of [inbound_tv_] *)
  validator_ : option (bytes -> result (error * Z) unit);
  session_route_ : option route_entry;
  transport_route_ : route_entry;
  app_routes_ : application_version -> option route_entry;
  app_version_registry_ : option (application_version -> bool);
}.

Inductive route_refusal : Set := refusal_none | empty_value | unknown_value | no_dictionary.

Record inbound_route := InboundRoute {
  ir_entry : route_entry;
  ir_resolved : application_version;
  ir_refusal : route_refusal;
  ir_application : bool;
  ir_header_1128 : bool;
}.

Definition fixt_routes_unbound_ (r : routing) : bool :=
  fixt_routing_ r && match session_route_ r with None => true | Some _ => false end.

Definition interpret_logon_hooks (r : routing) : dict_hooks :=
  if fixt_routing_ r then re_hooks (transport_route_ r) else inbound_hooks r.

(** The version an application frame names in its header, falls back to, or is refused for. *)
Definition frame_version (peek : fixt_route_peek) (negotiated : application_version)
    (defaults : list (bytes * application_version)) : result route_refusal application_version :=
  if pk_header_1128 peek then
    match pk_appl_ver_id peek with
    | [] => Err empty_value
    | v => match resolve_ref_appl_ver_id v with Ok av => Ok av | Err _ => Err unknown_value end
    end
  else
    match msg_type_default_for_ defaults (pk_msg_type peek) with
    | av_Unknown => Ok negotiated
    | av => Ok av
    end.

Definition select_route_ (r : routing) (negotiated : application_version)
    (defaults : list (bytes * application_version)) (frame : bytes) (establishment_arm : bool)
  : inbound_route :=
  match fixt_routing_ r, session_route_ r with
  | true, Some session_route =>
      let peek := peek_fixt_route frame (inbound_hooks r) (inbound_header_tag r) in
      let route e v f := InboundRoute e v f (negb (pk_admin peek)) (pk_header_1128 peek) in
      if negb (pk_readable peek) then InboundRoute session_route av_Unknown refusal_none false false
      else if pk_admin peek then route (transport_route_ r) av_Unknown refusal_none
      else if establishment_arm then route session_route av_Unknown refusal_none
      else
        match frame_version peek negotiated defaults with
        | Err f => route session_route av_Unknown f
        | Ok version =>
            match app_routes_ r version with
            | Some slot => route slot version refusal_none
            | None => route session_route version (if pk_header_1128 peek then no_dictionary else refusal_none)
            end
        end
  | _, _ =>
      InboundRoute (RouteEntry (inbound_hooks r) (validator_ r)) av_Unknown refusal_none false false
  end.

(** ** Lemmas *)

(** The table by recursion: look up, and put in place. *)
Fixpoint table_get (es : list (bytes * application_version)) (key : bytes) : option application_version :=
  match es with
  | [] => None
  | (k, v) :: es => if bytes_lt k key then table_get es key else if bool_decide (k = key) then Some v else None
  end.

Fixpoint table_put (es : list (bytes * application_version)) (key : bytes) (av : application_version)
  : list (bytes * application_version) :=
  match es with
  | [] => [(key, av)]
  | (k, v) :: es =>
      if bytes_lt k key then (k, v) :: table_put es key av
      else if bool_decide (k = key) then (key, av) :: es else (key, av) :: (k, v) :: es
  end.

Lemma find_table es key : (find_msg_type_default es key).2 = table_get es key.
Proof.
  unfold find_msg_type_default. induction es as [|[k v] es IH]; [done|]. cbn.
  destruct (bytes_lt k key); [exact IH|]. done.
Qed.

Lemma put_table es mt av :
  (let '(at_, found) := find_msg_type_default es mt in
   match found with
   | Some _ => <[at_ := (mt, av)]> es
   | None => take at_ es ++ (mt, av) :: drop at_ es
   end) = table_put es mt av.
Proof.
  unfold find_msg_type_default. induction es as [|[k v] es IH]; [done|]. cbn in IH |- *.
  destruct (bytes_lt k mt); cbn.
  - rewrite <- IH. by destruct (match es !! default_position es mt with Some _ => _ | None => _ end).
  - by case_bool_decide.
Qed.

Lemma get_put es mt av key :
  table_get (table_put es mt av) key = if bool_decide (key = mt) then Some av else table_get es key.
Proof.
  case_bool_decide as Hk.
  - subst key. induction es as [|[k v] es IH]; cbn.
    + by rewrite bytes_lt_irrefl, bool_decide_true.
    + destruct (bytes_lt k mt) eqn:E; cbn; [by rewrite E|].
      case_bool_decide; cbn; by rewrite bytes_lt_irrefl, bool_decide_true.
  - induction es as [|[k v] es IH]; cbn.
    + by rewrite (bool_decide_false (mt = key)) by done; destruct (bytes_lt mt key).
    + destruct (bytes_lt k mt) eqn:E; cbn; [by rewrite IH|]. case_bool_decide as Hkm; cbn.
      * subst k. by rewrite !(bool_decide_false (mt = key)).
      * rewrite (bool_decide_false (mt = key)) by done. destruct (bytes_lt mt key) eqn:Em; [done|].
        pose proof (bytes_lt_total k mt Hkm E) as H1.
        pose proof (bytes_lt_total mt key (not_eq_sym Hk) Em) as H2.
        pose proof (bytes_lt_trans _ _ _ H2 H1) as H3. rewrite (bytes_lt_asym _ _ H3).
        rewrite bool_decide_false; [done|]. intros ->. by rewrite bytes_lt_irrefl in H3.
Qed.

Lemma length_put es mt av : (length (table_put es mt av) <= S (length es))%nat.
Proof.
  induction es as [|[k v] es IH]; cbn; [done|]. destruct (bytes_lt k mt); cbn; [lia|].
  case_bool_decide; cbn; lia.
Qed.

(** What an instance says about a MsgType: the version it names for it. *)
Definition names_version (e : logon_msg_type_instance) (mt : bytes) : option application_version :=
  if counted e && bool_decide (mti_ref_msg_type e = mt) then
    match mti_ref_appl_ver_id e with
    | Some (c :: v) => match resolve_ref_appl_ver_id (c :: v) with Ok av => Some av | Err _ => None end
    | _ => None
    end
  else None.

(** The version the last instance to name one names for [mt]. *)
Definition last_named (es : list logon_msg_type_instance) (mt : bytes) : application_version :=
  fold_left (fun av e => default av (names_version e mt)) es av_Unknown.

(** A MsgType no default is kept for. *)
Definition no_default_type (mt : bytes) : bool :=
  (zlen mt =? 0) || (kMaxMsgTypeDefaultBytes <? zlen mt) || is_fixt_admin_msgtype mt.

Lemma record_instance_fields es n e : (Z.of_nat (length es) <= n <= kMaxMsgTypeDefaults) ->
  let '(es', n') := record_instance (es, n) e in
  n' = (if counted e then n + 1 else n) /\
  Z.of_nat (length es') <= Z.min n' kMaxMsgTypeDefaults /\
  (n' <= kMaxMsgTypeDefaults -> forall mt, table_get es' mt =
     if no_default_type mt then table_get es mt
     else match names_version e mt with Some av => Some av | None => table_get es mt end).
Proof.
  intros Hn. unfold record_instance, names_version. destruct (counted e); cbn [negb andb].
  2: { split_and!; [done|lia|]. intros _ mt. by destruct (no_default_type mt). }
  destruct (kMaxMsgTypeDefaults <? n + 1) eqn:Ek; [split_and!; [done|lia|lia]|].
  fold (no_default_type (mti_ref_msg_type e)).
  destruct (no_default_type (mti_ref_msg_type e)) eqn:Ez.
  { split_and!; [done|lia|]. intros _ mt. destruct (no_default_type mt) eqn:Em; [done|].
    rewrite bool_decide_false by congruence. done. }
  assert (Hkeep : forall mt, table_get es mt = if no_default_type mt then table_get es mt
     else match (if bool_decide (mti_ref_msg_type e = mt) then @None application_version else None) with
          | Some av => Some av | None => table_get es mt end).
  { intros mt. destruct (no_default_type mt); try case_bool_decide; done. }
  destruct (mti_ref_appl_ver_id e) as [[|c v]|]; [by split_and!; [done|lia|intros _; apply Hkeep]| |
    by split_and!; [done|lia|intros _; apply Hkeep]].
  destruct (resolve_ref_appl_ver_id (c :: v)) as [av|x]; [|by split_and!; [done|lia|intros _; apply Hkeep]].
  pose proof (put_table es (mti_ref_msg_type e) av) as Hp. cbn beta zeta in Hp.
  destruct (find_msg_type_default es (mti_ref_msg_type e)) as [at_ found].
  assert (Hput : forall mt, table_get (table_put es (mti_ref_msg_type e) av) mt =
    if no_default_type mt then table_get es mt
    else match (if bool_decide (mti_ref_msg_type e = mt) then Some av else None) with
         | Some av => Some av | None => table_get es mt end).
  { intros mt. rewrite get_put. destruct (no_default_type mt) eqn:Em.
    - rewrite bool_decide_false by congruence. done.
    - case_bool_decide; case_bool_decide; by subst. }
  pose proof (length_put es (mti_ref_msg_type e) av) as Hl.
  destruct found; rewrite Hp; (split_and!; [done|lia|intros _; apply Hput]).
Qed.

(** The instances the peer counts on. *)
Definition counted_in (es : list logon_msg_type_instance) : Z := zlen (List.filter counted es).

Lemma record_fold l : forall es n, Z.of_nat (length es) <= n -> n + counted_in l <= kMaxMsgTypeDefaults -> 0 <= n ->
  let es' := (fold_left record_instance l (es, n)).1 in
  Z.of_nat (length es') <= kMaxMsgTypeDefaults /\
  forall mt, default av_Unknown (table_get es' mt) =
    if no_default_type mt then default av_Unknown (table_get es mt)
    else fold_left (fun av e => default av (names_version e mt)) l (default av_Unknown (table_get es mt)).
Proof.
  unfold counted_in. induction l as [|e l IH]; intros es n He Hn H0; cbn [fold_left fst].
  { change (zlen (List.filter counted [])) with 0 in Hn. split; [lia|]. intros mt. by destruct (no_default_type mt). }
  cbn [List.filter] in Hn. pose proof (zlen_nonneg (List.filter counted l)).
  assert (Hnn : n + (if counted e then 1 else 0) + zlen (List.filter counted l) <= kMaxMsgTypeDefaults).
  { destruct (counted e); [rewrite zlen_cons in Hn|]; lia. }
  pose proof (record_instance_fields es n e ltac:(destruct (counted e); lia)) as Hr.
  destruct (record_instance (es, n) e) as [es1 n1]. destruct Hr as (-> & Hl & Hg).
  destruct (IH es1 (if counted e then n + 1 else n) ltac:(lia) ltac:(destruct (counted e); lia)
    ltac:(destruct (counted e); lia)) as [Hb Hi].
  split; [exact Hb|]. intros mt. rewrite Hi, Hg by (destruct (counted e); lia).
  destruct (no_default_type mt); [done|]. by destruct (names_version e mt).
Qed.

(** The fold of [refuse_msg_type_defaults_] keeps a refusal, and counts otherwise. *)
Lemma refuse_fold registry_has l : forall r n,
  (fold_left (refuse_instance registry_has) l (r, n)).1 = None ->
  r = None /\ (0 <= n -> n + counted_in l <= Z.max n kMaxMsgTypeDefaults).
Proof.
  unfold counted_in. induction l as [|e l IH]; intros r n; cbn [fold_left fst].
  { intros ->. split; [done|]. intros. change (zlen (List.filter counted [])) with 0. lia. }
  intros H. destruct r as [x|].
  { cbn in H. apply IH in H as [H _]. done. }
  split; [done|]. revert H. cbn [refuse_instance List.filter].
  destruct (mti_msg_direction e) as [d|]; [|by intros [? _]%IH].
  set (resolved := match mti_ref_appl_ver_id e with Some (c :: v) => _ | _ => _ end).
  destruct resolved as [version|x]; [|by intros [? _]%IH].
  destruct (counted e); cbn [negb]; [|intros [_ Hc]%IH Hn; specialize (Hc Hn); lia].
  destruct (kMaxMsgTypeDefaults <? n + 1) eqn:Ek; [by intros [? _]%IH|].
  destruct (_ && _); [by intros [? _]%IH|]. destruct (_ <? zlen _); [by intros [? _]%IH|].
  intros [_ Hc]%IH Hn. specialize (Hc ltac:(lia)). rewrite zlen_cons. lia.
Qed.

(** The version a frame that names none itself is judged by, after a Logon with [fs]. *)
Definition unnamed_version (fs : list (Z * bytes)) (negotiated : application_version) (mt : bytes)
  : application_version :=
  if no_default_type mt then negotiated
  else match last_named (after_no_msg_types fs) mt with av_Unknown => negotiated | av => av end.

(** ** Properties *)

(** The versions a Logon sets.  When [refuse_msg_type_defaults_] refuses nothing in a
    frame every scanner reads as the fields [fs], at most 256 defaults are recorded, and an
    application frame without a header ApplVerID(1128) is judged by the version the last
    instance of the group to name one names for its MsgType, or else by the negotiated one;
    an empty, administrative or over-8-byte MsgType always by the negotiated one. *)
Theorem type_defaults_exact registry_has frame h fs lt off peek negotiated :
  hooks_unchained h -> split_fields frame h = (fs, (fault_none, lt, off)) ->
  refuse_msg_type_defaults_ registry_has frame h = None -> pk_header_1128 peek = false ->
  zlen (record_msg_type_defaults_ frame h) <= kMaxMsgTypeDefaults /\
  frame_version peek negotiated (record_msg_type_defaults_ frame h) =
    Ok (unnamed_version fs negotiated (pk_msg_type peek)).
Proof.
  intros Hu Hs. pose proof (iter_walk_clean frame h fs lt off Hu Hs) as Hw.
  unfold refuse_msg_type_defaults_, record_msg_type_defaults_, scan_logon_msg_type_defaults, iter_fields.
  rewrite Hw. cbn [fst]. intros [_ Hc]%refuse_fold Hp.
  destruct (record_fold (after_no_msg_types fs) [] 0) as [Hl Hm]; [done|unfold kMaxMsgTypeDefaults in *; lia|done|].
  split; [exact Hl|]. unfold frame_version, msg_type_default_for_, unnamed_version. rewrite Hp, find_table, Hm.
  unfold last_named. cbn [table_get]. change (default av_Unknown None) with av_Unknown.
  destruct (no_default_type (pk_msg_type peek)); [done|].
  by destruct (fold_left _ _ av_Unknown).
Qed.

(** Two instances for "D", and a frame of that type: 384=2|372=D|385=S|1130=7|1410=Y|
    372=D|385=S|1130=9|1410=Y. *)
Definition example_group_fields : list (Z * bytes) :=
  [(384, [50]); (372, [68]); (385, [83]); (1130, [55]); (1410, [89]);
   (372, [68]); (385, [83]); (1130, [57]); (1410, [89])].
Definition example_group : bytes := fields_bytes example_group_fields.

Lemma type_defaults_exact_witness :
  zlen (record_msg_type_defaults_ example_group no_hooks) <= kMaxMsgTypeDefaults /\
  frame_version (RoutePeek [68] [] true false false) av_v50 (record_msg_type_defaults_ example_group no_hooks) =
    Ok av_v50sp2.
Proof.
  apply (type_defaults_exact (fun _ => true) example_group no_hooks example_group_fields 0 0 (RoutePeek [68] [] true false false) av_v50);
    [apply no_hooks_unchained|vm_compute; reflexivity..].
Defined.
