(* ===== verification/Replay.v ===== *)
(** The answer to a ResendRequest (src/session/session.cpp, [replay_outbound_range_] and
    [CaptureVisitor]) and to a peer's NextExpectedMsgSeqNum ([honor_peer_next_expected_]):
    the walk over the stored outbound frames that resends application messages and
    gap-fills the rest. *)
From stdpp Require Import strings.
From S2P Require Import Prelude Errors FixTime LengthData Writer Framer FrameHeader OffsetTable.
From S2P Require Import Seqnum MessageStore AdminMessages ReplayFrame SessionState SessionCore.

(** ** Reading one slot *)

(** [retrieve(k, k, outbound, visitor)]: the frames the visitor was shown, and the result. *)
Class SlotRetrieval (St SE : Type) :=
  retrieve_slot : SE -> seqnum_t -> St -> St * (list bytes * result error unit).

Record CaptureVisitor := Capture { cv_frame : bytes; cv_captured : bool; cv_truncated : bool }.

Definition kCapBufSize : Z := 4096.

Definition capture_frame (cv : CaptureVisitor) (frame : bytes) : CaptureVisitor :=
  if zlen frame <=? kCapBufSize then Capture frame true (cv_truncated cv)
  else Capture (cv_frame cv) (cv_captured cv) true.

Definition capture (frames : list bytes) : CaptureVisitor :=
  fold_left capture_frame frames (Capture [] false false).

Definition is_admin_type (mt : bytes) : bool :=
  existsb (fun t => bool_decide (mt = [t])) [48; 49; 50; 51; 52; 53; 65].

(** [rr && cv.captured], and a MsgType that is not administrative. *)
Definition app_present (hooks : dict_hooks) (r : result error unit) (cv : CaptureVisitor) : bool :=
  is_ok r && cv_captured cv &&
  (let mt := FrameHeader.msg_type (scan_frame_header (cv_frame cv) hooks) in
   negb (zlen mt =? 0) && negb (is_admin_type mt)).

(** The codes that say the store retains no such number. *)
Definition folds (e : error) : bool :=
  bool_decide (e = store_seqnum_gap) || bool_decide (e = store_seqnum_invalid) ||
  bool_decide (e = store_invalid_range).

Inductive replay_outcome : Set := completed | walk_superseded.
Inductive logon_789_outcome : Set := in_sync_continue | ended_disconnected | logon_superseded.

Definition kRpBufSize : Z := kCapBufSize + 256.

Section Replay.
Context {St SE : Type} `{MessageStore St SE, !SlotRetrieval St SE} (w : world St SE).
Context (cfg : SessionConfig) (has_clock has_application : bool) (hooks : dict_hooks).

Definition gapfill_frame (st52 : bytes) (at_seq new_seqno : seqnum_t) : expected bytes :=
  build_sequence_reset_gapfill (replicate 256 0) at_seq (cfg_sender_comp_id cfg)
    (cfg_target_comp_id cfg) new_seqno (cfg_begin_string cfg) st52.

Definition replay_frame (st52 stored : bytes) : expected bytes :=
  build_replay_frame (replicate (Z.to_nat kRpBufSize) 0) stored st52 hooks.

(** [transmit_async] *)
Definition transmit_ok (frame : bytes) : M St bool :=
  co_await w (let! r := transmit w frame in ret (is_ok r)).

Definition emit_gapfill (st52 : bytes) (arm : option fsm_state) (at_seq new_seqno : seqnum_t)
  : M St (result error replay_outcome) :=
  let! sup := get (superseded arm) in
  if sup : bool then ret (Ok walk_superseded)
  else
    match gapfill_frame st52 at_seq new_seqno with
    | Err _ => ret (Err dispatch_aborted)
    | Ok gf =>
        let! seen := fire_to_admin_ w has_application hooks gf in
        if negb seen then ret (Err app_callback_threw)
        else
          let! sent := transmit_ok gf in
          ret (if sent : bool then Ok completed else Err dispatch_aborted)
    end.

(** One slot: the read, then a replay, an event, or nothing. *)
Inductive slot_result : Type :=
  | slot_folds                          (* joins the gap run *)
  | slot_replay (frame : bytes).        (* a rebuilt frame to send *)

Definition read_slot (k : seqnum_t) : M St (result error (list bytes * result error unit)) :=
  let! o := get (fun s => store_ (s_store s)) in
  match o with
  | None => ret (Ok ([], Err store_seqnum_gap))
  | Some st =>
      store_await w (fun e st => let (st, v) := retrieve_slot e k st in (st, Ok v)) st
  end.

Definition replay_slot (k : seqnum_t) (arm : option fsm_state)
  : M St (result error (option slot_result)) :=
  let!? v := read_slot k in
  let cv := capture v.1 in
  match v.2 with
  | Err e => if folds e then (if cv_truncated cv then ret (Err dispatch_aborted) else ret (Ok (Some slot_folds)))
             else ret (Err e)
  | Ok _ =>
      if cv_truncated cv then ret (Err dispatch_aborted)
      else if app_present hooks (Ok tt) cv then
        let! st52 := stamp w cfg has_clock in
        match replay_frame st52 (cv_frame cv) with
        | Ok rp => ret (Ok (Some (slot_replay rp)))
        | Err code =>
            let! sup := get (superseded arm) in
            if sup : bool then ret (Ok None)
            else
              modify (upd_events (emit_event (session_event_resend_slot_gap_filled k code))) ;;
              ret (Ok (Some slot_folds))
        end
      else ret (Ok (Some slot_folds))
  end.

(** The walk from [k]; [gap] is the start of the open gap run. *)
Fixpoint replay_walk (fuel : nat) (st52 : bytes) (arm : option fsm_state) (eff_end k : seqnum_t)
    (gap : option seqnum_t) : M St (result error replay_outcome) :=
  match fuel with
  | O => 
      match gap with
      | Some g => co_await w (emit_gapfill st52 arm g (u32 (eff_end + 1)))
      | None => ret (Ok completed)
      end
  | S fuel =>
      let!? r := replay_slot k arm in
      match r with
      | None => ret (Ok walk_superseded)
      | Some slot_folds =>
          replay_walk fuel st52 arm eff_end (u32 (k + 1))
            (match gap with Some g => Some g | None => Some k end)
      | Some (slot_replay rp) =>
          let!? g :=
            match gap with
            | Some g => co_await w (emit_gapfill st52 arm g k)
            | None => ret (Ok completed)
            end in
          match g with
          | walk_superseded => ret (Ok walk_superseded)
          | completed =>
              let! sup := get (superseded arm) in
              if sup : bool then ret (Ok walk_superseded)
              else
                let! sent := transmit_ok rp in
                if sent : bool then replay_walk fuel st52 arm eff_end (u32 (k + 1)) None
                else ret (Err dispatch_aborted)
          end
      end
  end.

(** The number of our last stored frame, 0 when there is none. *)
Definition last_stored : M St (result error seqnum_t) :=
  let! o := get (fun s => store_ (s_store s)) in
  match o with
  | None => ret (Ok 0)
  | Some st =>
      let!? ns := store_await w (fun e => next_seqnum e outbound false) st in
      ret (Ok (if 0 <? ns then u32 (ns - 1) else 0))
  end.

Definition effective_end (requested_end our_last : seqnum_t) (end_is_through_current : bool) : seqnum_t :=
  if end_is_through_current || ((0 <? our_last) && (our_last <? requested_end)) then our_last
  else requested_end.

Definition replay_outbound_range_ (begin requested_end : seqnum_t) (end_is_through_current : bool)
    (arm : option fsm_state) : M St (result error replay_outcome) :=
  let! st52 := stamp w cfg has_clock in
  let!? our_last := last_stored in
  let eff_end := effective_end requested_end our_last end_is_through_current in
  let! has_store := get (fun s => bool_decide (is_Some (store_ (s_store s)))) in
  if negb has_store || (our_last =? 0) || (eff_end <? begin) then
    let! peek := get (fun s => peek_outbound (seqnum_mgr_ s)) in
    co_await w (emit_gapfill st52 arm (if 0 <? begin then begin else 1)
      (if end_is_through_current then peek else u32 (requested_end + 1)))
  else replay_walk (Z.to_nat (eff_end - begin + 1)) st52 arm eff_end begin None.

(** ** The peer's NextExpectedMsgSeqNum *)

Definition text_789_invalid : bytes := bytes_of "NextExpectedMsgSeqNum invalid".

Definition text_789_too_high (n x : seqnum_t) : bytes :=
  bytes_of "NextExpectedMsgSeqNum too high, expecting " ++ dec_text n ++
  bytes_of " but received " ++ dec_text x.

(** A Logout with [text]; whatever numbering or emitting it answers, the session ends. *)
Definition end_with_logout (text : bytes) (arm : fsm_state) : M St (result error logon_789_outcome) :=
  let! st52 := stamp w cfg has_clock in
  let! lo_seq := get (fun s => peek_outbound (seqnum_mgr_ s)) in
  let!? _ :=
    match build_logout (replicate 256 0) lo_seq (cfg_sender_comp_id cfg) (cfg_target_comp_id cfg)
            text (cfg_begin_string cfg) st52 with
    | Err _ => ret (Ok tt)
    | Ok frame =>
        let! seen := fire_to_admin_ w has_application hooks frame in
        if negb seen then
          record_state_transition_ w has_application Disconnected ;; ret (Err app_callback_threw)
        else
          let! a := with_mgr w assign_outbound in
          match a with
          | Err _ => ret (Ok tt)
          | Ok _ =>
              let! r := co_await w (store_then_emit w has_clock has_application hooks lo_seq frame (Some arm) true) in
              ret (Ok tt)
          end
    end in
  let! sup := get (logon_arm_superseded_ arm) in
  if sup : bool then ret (Ok logon_superseded)
  else record_state_transition_ w has_application Disconnected ;; ret (Ok ended_disconnected).

Definition honor_peer_next_expected_ (raw_789 : bytes) (next_outbound_ref : seqnum_t) (arm : fsm_state)
  : M St (result error logon_789_outcome) :=
  let x789 := parse_seqnum raw_789 in
  if x789 =? 0 then end_with_logout text_789_invalid arm
  else if next_outbound_ref <? x789 then end_with_logout (text_789_too_high next_outbound_ref x789) arm
  else if x789 <? next_outbound_ref then
    let! peek := get (fun s => peek_outbound (seqnum_mgr_ s)) in
    let! r := co_await w (replay_outbound_range_ x789 (u32 (peek - 1)) true (Some arm)) in
    match r with
    | Err e =>
        let! sup := get (logon_arm_superseded_ arm) in
        if sup : bool then ret (Ok logon_superseded)
        else record_state_transition_ w has_application Disconnected ;; ret (Err e)
    | Ok walk_superseded => ret (Ok logon_superseded)
    | Ok completed => ret (Ok in_sync_continue)
    end
  else ret (Ok in_sync_continue).
End Replay.

(** ** What a walk transmits *)

(** [t] transmits [frames] in order, each whole and once, among effects of [P]. *)
Inductive sends (P : effect -> Prop) : list bytes -> list effect -> Prop :=
  | sends_none t : Forall P t -> sends P [] t
  | sends_one t f frames t' : Forall P t -> sends P frames t' ->
      sends P (f :: frames) (t ++ Transmitted f :: t').

Lemma sends_quiet_l P t frames t' : Forall P t -> sends P frames t' -> sends P frames (t ++ t').
Proof.
  intros Ht [t0 H0|t0 f fs t1 H0 H1]; [apply sends_none; by apply Forall_app|].
  rewrite app_assoc. apply sends_one; [by apply Forall_app|done].
Qed.

Lemma sends_app P f1 f2 t1 t2 : sends P f1 t1 -> sends P f2 t2 -> sends P (f1 ++ f2) (t1 ++ t2).
Proof.
  induction 1 as [t0 H0|t0 f fs t1 H0 H1 IH]; intros H2; [by apply sends_quiet_l|].
  rewrite <- app_assoc. cbn [app]. apply sends_one; [done|by apply IH].
Qed.

Section Answers.
(** What the store holds under a number, the pairs of the dictionary, and the session. *)
Context (cfg : SessionConfig) (hooks : dict_hooks) (slot : seqnum_t -> option bytes).
(** The stamps the session's clock gives. *)
Context (stamped : bytes -> Prop).

(** A stored frame the walk resends: it has a MsgType, and not an administrative one. *)
Definition application_frame (f : bytes) : bool :=
  let mt := FrameHeader.msg_type (scan_frame_header f hooks) in
  negb (bool_decide (mt = [])) && negb (is_admin_type mt).

(** A number that is gap-filled: nothing is held under it, or an administrative or untyped
    message, or one that cannot be rebuilt with a stamp of the session's clock. *)
Definition skipped (k : seqnum_t) : Prop :=
  match slot k with
  | None => True
  | Some f => zlen f <= kCapBufSize /\
      (application_frame f = false \/ exists st52 e, stamped st52 /\ replay_frame hooks st52 f = Err e)
  end.

(** [frames] answer for exactly the numbers in [[a, b)]: each is a gap fill from one number
    to the next it leaves, over numbers that are all gap-filled, or the resend of one. *)
Inductive answers : Z -> Z -> list bytes -> Prop :=
  | answers_none a : answers a a []
  | answers_gap a b e st52 f frames :
      a < b -> (forall k, a <= k < b -> skipped k) -> stamped st52 -> gapfill_frame cfg st52 a b = Ok f ->
      answers b e frames -> answers a e (f :: frames)
  | answers_replay k e st52 stored r frames :
      slot k = Some stored -> application_frame stored = true -> stamped st52 -> replay_frame hooks st52 stored = Ok r ->
      answers (k + 1) e frames -> answers k e (r :: frames).

Lemma answers_le a e frames : answers a e frames -> a <= e.
Proof. induction 1; lia. Qed.

Lemma answers_app a b e f1 f2 : answers a b f1 -> answers b e f2 -> answers a e (f1 ++ f2).
Proof.
  induction 1 as [a|a b' e' st52 f frames Hlt Hk Hst Hf _ IH|k e' st52 stored r frames Hs Ha Hst Hr _ IH];
    intros H2; [done| |].
  - cbn [app]. eapply answers_gap; eauto.
  - cbn [app]. eapply answers_replay; eauto.
Qed.
End Answers.

Section WalkLemmas.
Context {St SE : Type} `{MessageStore St SE, !SlotRetrieval St SE} (w : world St SE).
Context (cfg : SessionConfig) (has_clock has_application : bool) (hooks : dict_hooks).
Context (slot : seqnum_t -> option bytes) (P : effect -> Prop) (I : St -> Prop) (last : seqnum_t).

Definition store_good (s : Session St) : Prop :=
  match store_ (s_store s) with Some st => I st | None => False end.

(** While the walk waits, others keep the frames held under the numbers of the range, and
    the transport. *)
Context (Hother : forall n s, quiet P s (w_other w n s)).
Context (Hother_store : forall n s, store_good s -> store_good (w_other w n s)).
Context (Hlogon : P OnLogon) (Hlogout : P OnLogout) (Hadmin : forall f, P (ToAdmin f)).
(** What the store answers about one number: its frame, that it has none, or a failure. *)
Context (Hread : forall e k st, I st ->
  let '(st', (frames, r)) := retrieve_slot e k st in
  I st' /\
  match r with
  | Ok _ => exists f, slot k = Some f /\ frames = [f]
  | Err x => folds x = true -> slot k = None
  end).
Context (Hlast : forall e st, I st ->
  let (st', r) := next_seqnum e outbound false st in
  I st' /\ match r with Ok n => n = last + 1 | Err _ => True end).

Notation Q := (quiet P).
Notation stamped := (clock_stamp w cfg has_clock).

(** What a step that transmits [frames] leaves. *)
Definition stepped (frames : list bytes) (s s' : Session St) : Prop :=
  (exists t, s_trace s' = s_trace s ++ t /\ sends P frames t) /\
  store_is_persistent_ (s_store s') = store_is_persistent_ (s_store s) /\
  s_transport s' = s_transport s.

Lemma stepped_quiet s s' : Q s s' <-> stepped [] s s'.
Proof using.
  split.
  - intros ((t & E & F) & HR). split; [|done]. exists t. split; [done|by apply sends_none].
  - intros ((t & E & F) & HR). split; [|done]. exists t. split; [done|]. by inversion F.
Qed.

Lemma stepped_trans f1 f2 s1 s2 s3 : stepped f1 s1 s2 -> stepped f2 s2 s3 -> stepped (f1 ++ f2) s1 s3.
Proof using.
  intros ((t1 & E1 & F1) & A1 & B1) ((t2 & E2 & F2) & A2 & B2). split; [|split; congruence].
  exists (t1 ++ t2). split; [by rewrite E2, E1, app_assoc|by apply sends_app].
Qed.

(** Nothing but the store's answers decides which frames it holds. *)
Definition keeps_walk (s s' : Session St) : Prop :=
  s_transport s' = s_transport s /\ store_is_persistent_ (s_store s') = store_is_persistent_ (s_store s) /\
  (store_good s -> store_good s').
#[local] Instance keeps_walk_preorder : PreOrder keeps_walk.
Proof using. split; [by intros s|]. intros s1 s2 s3 (A1 & B1 & C1) (A2 & B2 & C2). split_and!; [congruence..|auto]. Qed.

Lemma walk_same (f : Session St -> Session St) :
  (forall s, s_transport (f s) = s_transport s /\ s_store (f s) = s_store s) ->
  forall s, keeps_walk s (f s).
Proof using.
  intros Hf s. destruct (Hf s) as (E1 & E2). unfold keeps_walk, store_good. by rewrite E1, E2.
Qed.

Lemma walk_suspend : keeps keeps_walk (suspend w).
Proof using Hother Hother_store.
  intros s. unfold suspend. cbn [fst]. etransitivity; [|by apply (walk_same upd_tick)].
  destruct (Hother (s_tick s) s) as (_ & HB & HC). split_and!; [done..|apply Hother_store].
Qed.

Ltac walk_auto :=
  first [ apply walk_suspend
        | first [apply keeps_ask|apply keeps_modify|apply keeps_emit]; intros ?; by apply walk_same ].

Ltac walk_steps :=
  repeat first [ keeps_step | apply keeps_co_await; [typeclasses eauto|intros ?; by apply walk_same|] ].

Lemma walk_callback e : keeps keeps_walk (invoke_callback w e).
Proof using. unfold invoke_callback. repeat keeps_step; walk_auto. Qed.

Lemma walk_fire frame : keeps keeps_walk (fire_to_admin_ w has_application hooks frame).
Proof using. unfold fire_to_admin_, parse_and_dispatch_. repeat keeps_step; first [apply walk_callback|walk_auto]. Qed.

Lemma walk_transmit frame : keeps keeps_walk (transmit w frame).
Proof using Hother Hother_store.
  unfold transmit, live_write_serialized_. walk_steps; walk_auto.
Qed.

Lemma walk_stamp : keeps keeps_walk (stamp w cfg has_clock).
Proof using. unfold stamp. repeat keeps_step; walk_auto. Qed.

Lemma quiet_fire frame : keeps Q (fire_to_admin_ w has_application hooks frame).
Proof using Hadmin.
  unfold fire_to_admin_, parse_and_dispatch_. repeat keeps_step;
    first [by apply (keeps_callback w P)|apply keeps_ask; intros s; by apply (quiet_same P)].
Qed.

Lemma quiet_stamp : keeps Q (stamp w cfg has_clock).
Proof using. unfold stamp. repeat keeps_step; apply keeps_ask; intros s; by apply (quiet_same P). Qed.

Lemma post_keeps {A} (R : relation (Session St)) (m : M St A) s (K : Session St -> outcome A -> Prop) :
  keeps R m -> post m s K -> post m s (fun s' r => R s s' /\ K s' r).
Proof using. intros HR HK. split; [apply HR|exact HK]. Qed.

Lemma store_await_post {A} (op : SE -> St -> St * result error A) (R : result error A -> Prop) st s :
  (forall e st, I st -> let (st', r) := op e st in I st' /\ R r) -> I st ->
  post (store_await w op st) s (fun s' r => Q s s' /\
    match r with Ret v => store_good s' /\ R v | Aborted _ => True end).
Proof using Hother Hother_store.
  intros Hop Hst. apply post_keeps; [by apply keeps_store_await|].
  unfold store_await. apply post_bind. unfold store_call. apply post_bind, post_ask. intros [| |k].
  - apply post_bind, post_ask. intros e. specialize (Hop e st Hst). destruct (op e st) as [st' r].
    destruct Hop as [HI HR]. apply post_bind, post_modify.
    apply post_bind. replace (match r with Ok _ => _ | _ => _ end) with (ret (St:=St) tt) by (by destruct r).
    apply post_ret. apply post_bind. unfold post at 1, suspend. cbn [fst snd]. apply post_ret.
    cbn beta iota. apply post_ret. split; [|done].
    assert (Hg : store_good (upd_store (set_store st') (upd_tick (upd_tick s)))) by exact HI.
    exact (Hother_store _ _ Hg).
  - apply post_bind. unfold post at 1, suspend. cbn [fst snd]. by apply post_ret.
  - apply post_bind, post_modify, post_bind. unfold post at 1, suspend. cbn [fst snd]. by apply post_ret.
Qed.

Lemma transmit_ok_post frame s : can_transmit s = true ->
  post (transmit_ok w frame) s (fun s' r => keeps_walk s s' /\
    match r with Ret true => stepped [frame] s s' | _ => stepped [] s s' end).
Proof using Hother Hother_store.
  intros Hc. apply post_keeps.
  { unfold transmit_ok. walk_steps. apply walk_transmit. }
  unfold transmit_ok. apply post_co_await; [by apply stepped_quiet, (quiet_same P upd_tick)|].
  apply post_bind. eapply post_weaken.
  { apply post_keeps; [apply walk_transmit|by apply transmit_post]. }
  intros s' r ((A & B & _) & Ht). unfold transmit_ends in Ht.
  replace (can_transmit (upd_tick s)) with true in Ht by done.
  destruct r as [[u|e]|c]; [apply post_ret|apply post_ret|].
  - destruct Ht as (t & E & t1 & t2 & -> & F1 & F2). split; [|done]. exists (t1 ++ Transmitted frame :: t2).
    split; [done|]. apply sends_one; [done|by apply sends_none].
  - by apply stepped_quiet.
  - by apply stepped_quiet, Ht.
Qed.

Lemma fire_post f s :
  post (fire_to_admin_ w has_application hooks f) s (fun s' _ => Q s s' /\ keeps_walk s s').
Proof using Hadmin. split; [apply (quiet_fire f s)|apply (walk_fire f s)]. Qed.

(** How a part of the walk that should answer [[a, b)] ends. *)
Definition answered_to (a b : Z) (s s' : Session St) (done_ : Prop) : Prop :=
  exists frames m, stepped frames s s' /\ answers cfg hooks slot stamped a m frames /\ m <= b /\ (done_ -> m = b).

Lemma answered_none a b s s' (d : Prop) : stepped [] s s' -> a <= b -> (d -> False) -> answered_to a b s s' d.
Proof using. intros Hs Hle Hd. exists [], a. split_and!; [done|apply answers_none|done|]. intros H'. by destruct (Hd H'). Qed.

Lemma answered_after a b e f s1 s2 s3 (d : Prop) : stepped f s1 s2 -> answers cfg hooks slot stamped a b f ->
  answered_to b e s2 s3 d -> answered_to a e s1 s3 d.
Proof using.
  intros Hs Ha (f' & m & Hs' & Ha' & Hle & Hd). exists (f ++ f'), m. split_and!; [by eapply stepped_trans| |done|done].
  by eapply answers_app.
Qed.

Lemma answered_quiet a e s1 s2 s3 (d : Prop) : stepped [] s1 s2 -> answered_to a e s2 s3 d -> answered_to a e s1 s3 d.
Proof using. intros Hs. apply (answered_after a a e []); [done|apply answers_none]. Qed.

Lemma gapfill_post st52 arm a b s : stamped st52 -> can_transmit s = true -> a < b ->
  (forall k, a <= k < b -> skipped hooks slot stamped k) ->
  post (emit_gapfill w cfg has_application hooks st52 arm a b) s (fun s' r => keeps_walk s s' /\
    answered_to a b s s' (r = Ret (Ok completed))).
Proof using Hother Hother_store Hadmin.
  intros Hst Hc Hab Hsk. apply post_keeps.
  { unfold emit_gapfill, transmit_ok. walk_steps; first [apply walk_fire|apply walk_transmit]. }
  assert (Hn : forall s' (x : outcome (result error replay_outcome)), stepped [] s s' -> x <> Ret (Ok completed) -> answered_to a b s s' (x = Ret (Ok completed))).
  { intros s' x Hs Hx. apply answered_none; [done|lia|done]. }
  unfold emit_gapfill. apply post_bind, post_get. destruct (superseded arm s).
  { apply post_ret, Hn; [by apply stepped_quiet|done]. }
  destruct (gapfill_frame cfg st52 a b) as [f|e] eqn:Ef.
  2: { apply post_ret, Hn; [by apply stepped_quiet|done]. }
  apply post_bind. eapply post_weaken; [apply fire_post|].
  intros s1 r (HQ & HK). apply stepped_quiet in HQ. destruct r as [[|]|]; cbn [negb]; [| |by apply Hn].
  2: { by apply post_ret, Hn. }
  assert (Hc1 : can_transmit s1 = true).
  { unfold can_transmit. by rewrite (proj1 HK). }
  apply post_bind. eapply post_weaken; [by apply transmit_ok_post|].
  intros s2 r (HK2 & Hr). destruct r as [[|]|].
  - apply post_ret. eapply answered_quiet; [exact HQ|]. exists [f], b. split_and!; [done| |done|done].
    eapply answers_gap; [done|done|done|exact Ef|apply answers_none].
  - apply post_ret. apply Hn; [|done]. exact (stepped_trans [] [] _ _ _ HQ Hr).
  - apply Hn; [|done]. exact (stepped_trans [] [] _ _ _ HQ Hr).
Qed.

Lemma gapfill_await_post st52 arm a b s : stamped st52 -> can_transmit s = true -> a < b ->
  (forall k, a <= k < b -> skipped hooks slot stamped k) ->
  post (co_await w (emit_gapfill w cfg has_application hooks st52 arm a b)) s (fun s' r => keeps_walk s s' /\
    answered_to a b s s' (r = Ret (Ok completed))).
Proof using Hother Hother_store Hadmin.
  intros Hst Hc Hab Hsk. assert (Hs : stepped [] s (upd_tick s)) by (by apply stepped_quiet, (quiet_same P upd_tick)).
  assert (Hk : keeps_walk s (upd_tick s)) by (by apply (walk_same upd_tick)).
  apply post_co_await; [split; [done|]; apply answered_none; [done|lia|done]|].
  eapply post_weaken; [by apply gapfill_post|]. intros s' r (HK & Hr).
  split; [by etransitivity|]. by eapply answered_quiet.
Qed.

Lemma walk_stamp_post s : post (stamp w cfg has_clock) s (fun s' r =>
  exists st52, r = Ret st52 /\ stamped st52 /\ (store_good s -> store_good s')).
Proof using.
  unfold stamp, clock_stamp. destruct has_clock; (eexists; split; [done|]; split; [|done]); [by exists (s_tick s)|by exists O].
Qed.

(** What one slot comes to. *)
Definition slot_answered (k : seqnum_t) (v : result error (option slot_result)) : Prop :=
  match v with
  | Ok (Some slot_folds) => skipped hooks slot stamped k
  | Ok (Some (slot_replay rp)) => exists stored st52, slot k = Some stored /\
      application_frame hooks stored = true /\ stamped st52 /\ replay_frame hooks st52 stored = Ok rp
  | _ => True
  end.

Lemma read_slot_post k s : store_good s ->
  post (read_slot w k) s (fun s' r => Q s s' /\
    match r with
    | Ret (Ok (frames, Ok _)) => store_good s' /\ exists f, slot k = Some f /\ frames = [f]
    | Ret (Ok (frames, Err x)) => store_good s' /\ (folds x = true -> slot k = None)
    | Ret (Err _) => True
    | Aborted _ => True
    end).
Proof using Hother Hother_store Hread.
  intros Hg. unfold read_slot. apply post_bind, post_get. unfold store_good in Hg.
  destruct (store_ (s_store s)) as [st|]; [|done].
  eapply post_weaken.
  { apply (store_await_post _ (fun v : result error (list bytes * result error unit) => match v with
      | Ok (frames, Ok _) => exists f, slot k = Some f /\ frames = [f]
      | Ok (frames, Err x) => folds x = true -> slot k = None
      | Err _ => True end) st s); [|exact Hg].
    intros e st1 H1. specialize (Hread e k st1 H1). destruct (retrieve_slot e k st1) as [st' [frames [u|x]]]; exact Hread. }
  intros s' [[[frames [u|x]]|x]|] (HQ & Hr); (split; [exact HQ|]); first [exact Hr|exact Logic.I].
Qed.

Lemma replay_slot_post k arm s : store_good s ->
  post (replay_slot w cfg has_clock hooks k arm) s (fun s' r => Q s s' /\
    match r with Ret v => (forall x, v = Ok x -> store_good s') /\ slot_answered k v | Aborted _ => True end).
Proof using Hother Hother_store Hread.
  intros Hg. unfold replay_slot. apply post_bind. eapply post_weaken; [by apply read_slot_post|].
  intros s1 [[[frames [u|x]]|x]|] (HQ & Hr).
  3: { by apply post_ret. }
  3: { by split. }
  - destruct Hr as (Hg1 & f & Hslot & ->). cbn [fst snd].
    set (cv := capture [f]). destruct (cv_truncated cv) eqn:Et; [by apply post_ret|].
    assert (Hshort : zlen f <= kCapBufSize).
    { revert Et. unfold cv, capture, capture_frame. cbn [fold_left]. destruct (zlen f <=? kCapBufSize) eqn:E; [lia|done]. }
    assert (Hcv : cv_frame cv = f).
    { unfold cv, capture, capture_frame. cbn [fold_left]. by rewrite (proj2 (Z.leb_le _ _) Hshort). }
    assert (Happ : app_present hooks (Ok tt) cv = application_frame hooks f).
    { unfold app_present, application_frame. rewrite Hcv. unfold cv, capture, capture_frame. cbn [fold_left].
      rewrite (proj2 (Z.leb_le _ _) Hshort). cbn [cv_captured is_ok andb]. f_equal. f_equal.
      by destruct (FrameHeader.msg_type _). }
    rewrite Happ. destruct (application_frame hooks f) eqn:Ea.
    + apply post_bind. eapply post_weaken; [apply post_keeps; [apply quiet_stamp|apply (walk_stamp_post s1)]|].
      intros s2 r2 (HQ2 & st52 & -> & Hst52 & Hg2). cbn beta iota. rewrite Hcv.
      assert (HQ' : Q s s2) by (by etransitivity).
      destruct (replay_frame hooks st52 f) as [rp|code] eqn:Er.
      * apply post_ret. split; [done|]. split; [intros; by apply Hg2|]. by exists f, st52.
      * apply post_bind, post_get. destruct (superseded arm s2); [apply post_ret; split; [done|]; split; [by intros; apply Hg2|done]|].
        apply post_bind, post_modify, post_ret. split.
        { etransitivity; [exact HQ'|]. by apply (quiet_same P (upd_events _)). }
        split; [intros; by apply Hg2|]. unfold slot_answered, skipped. rewrite Hslot. split; [done|]. right. by eexists _, _.
    + apply post_ret. split; [done|]. split; [done|]. unfold slot_answered, skipped. rewrite Hslot. split; [done|]. by left.
  - destruct Hr as (Hg1 & Hslot). cbn [fst snd]. destruct (folds x) eqn:Ef; [|by apply post_ret].
    destruct (cv_truncated _); [by apply post_ret|]. apply post_ret. split; [done|]. split; [done|].
    unfold slot_answered, skipped. by rewrite Hslot.
Qed.

Lemma u32_succ k : 0 <= k < UINT32_MAX -> u32 (k + 1) = k + 1.
Proof using. unfold UINT32_MAX. intros. apply wrap_small. change (2 ^ 32) with 4294967296. lia. Qed.

Definition run_start (gap : option seqnum_t) (k : seqnum_t) : seqnum_t :=
  match gap with Some g => g | None => k end.

Lemma walk_post st52 arm eff_end fuel : stamped st52 -> forall k gap s,
  can_transmit s = true -> store_good s -> 0 <= k -> 0 <= eff_end < UINT32_MAX ->
  k + Z.of_nat fuel = eff_end + 1 -> (forall g, gap = Some g -> g < k) ->
  (forall i, run_start gap k <= i < k -> skipped hooks slot stamped i) ->
  post (replay_walk w cfg has_clock has_application hooks fuel st52 arm eff_end k gap) s
    (fun s' r => answered_to (run_start gap k) (eff_end + 1) s s' (r = Ret (Ok completed))).
Proof using Hother Hother_store Hread Hadmin.
  intros Hst. induction fuel as [|fuel IH]; intros k gap s Hc Hg Hk He Hf Hgap Hsk; cbn [replay_walk].
  { assert (k = eff_end + 1) as -> by lia. destruct gap as [g|]; cbn [run_start] in *.
    - rewrite u32_succ by lia. eapply post_weaken; [apply gapfill_await_post; [done|done|by apply Hgap|done]|]. by intros s' r (_ & Hr).
    - apply post_ret. exists [], (eff_end + 1). split_and!; [by apply stepped_quiet|apply answers_none|lia|done]. }
  assert (Hle : run_start gap k <= k) by (destruct gap as [g|]; cbn; [specialize (Hgap g eq_refl)|]; lia).
  assert (Hstop : forall s' (x : outcome (result error replay_outcome)), stepped [] s s' -> x <> Ret (Ok completed) ->
    answered_to (run_start gap k) (eff_end + 1) s s' (x = Ret (Ok completed))).
  { intros s' x Hs Hx. apply answered_none; [done|lia|done]. }
  apply post_bind. eapply post_weaken; [by apply replay_slot_post|].
  intros s1 r (HQ & Hr). pose proof (proj1 (stepped_quiet _ _) HQ) as Hs1.
  assert (Hc1 : can_transmit s1 = true) by (unfold can_transmit; by rewrite (proj2 (proj2 HQ))).
  destruct r as [[[[|rp]|]|x]|]; [| |by apply post_ret, Hstop|by apply post_ret, Hstop|by apply Hstop].
  - destruct Hr as (Hg1 & Ha). specialize (Hg1 _ eq_refl). cbn [slot_answered] in Ha.
    rewrite u32_succ by lia. eapply post_weaken; [apply IH; try done; try lia|].
    + destruct gap as [g|]; intros g' [= <-]; [specialize (Hgap g eq_refl)|]; lia.
    + intros i Hi. destruct (decide (i = k)) as [->|]; [done|]. apply Hsk. destruct gap; cbn in *; lia.
    + intros s' r Hw. eapply answered_quiet; [exact Hs1|]. by destruct gap.
  - destruct Hr as (Hg1 & stored & st & Hslot & Happ & Hst' & Hrp). specialize (Hg1 _ eq_refl).
    apply post_bind. set (flush := match gap with Some g => _ | None => _ end).
    assert (Hflush : post flush s1 (fun s' r => keeps_walk s1 s' /\
      answered_to (run_start gap k) k s1 s' (r = Ret (Ok completed)))).
    { unfold flush. destruct gap as [g|]; cbn [run_start].
      - apply gapfill_await_post; [done|done|by apply Hgap|done].
      - apply post_ret. split; [reflexivity|]. exists [], k. split_and!; [by apply stepped_quiet|apply answers_none|lia|done]. }
    eapply post_weaken; [exact Hflush|]. clear Hflush flush.
    intros s2 r (HK & fr & m & Hs2 & Hans & Hm & Hdone).
    assert (Hs12 : stepped fr s s2) by exact (stepped_trans [] fr _ _ _ Hs1 Hs2).
    assert (Hend : forall s' (x : outcome (result error replay_outcome)), stepped [] s2 s' -> x <> Ret (Ok completed) ->
      answered_to (run_start gap k) (eff_end + 1) s s' (x = Ret (Ok completed))).
    { intros s' x Hs Hx. exists fr, m. split_and!; [|done|lia|done].
      rewrite <- (app_nil_r fr). by eapply stepped_trans. }
    assert (Hno : stepped [] s2 s2) by by apply stepped_quiet.
    destruct r as [[[|]|x]|]; [|by apply post_ret, Hend|by apply post_ret, Hend|by apply Hend].
    specialize (Hdone eq_refl) as ->.
    apply post_bind, post_get. destruct (superseded arm s2); [by apply post_ret, Hend|].
    assert (Hc2 : can_transmit s2 = true) by (unfold can_transmit; by rewrite (proj1 HK)).
    apply post_bind. eapply post_weaken; [by apply transmit_ok_post|].
    intros s3 r (HK3 & Hr3). destruct r as [[|]|]; [|by apply post_ret, Hend|by apply Hend].
    rewrite u32_succ by lia. eapply post_weaken; [apply (IH (k + 1) None); try done; try lia|].
    + unfold can_transmit. by rewrite (proj1 HK3).
    + by apply HK3, HK.
    + intros i Hi. cbn in Hi. lia.
    + intros s4 r4 Hw. eapply answered_after; [by eapply stepped_trans| |exact Hw].
      eapply answers_app; [exact Hans|]. cbn. eapply answers_replay; [done..|apply answers_none].
Qed.

(** The answer when nothing stored is in the range: at most one gap fill. *)
Definition one_gapfill (begin n : seqnum_t) (s s' : Session St) (r : outcome (result error replay_outcome)) : Prop :=
  exists frames, stepped frames s s' /\
    (frames = [] /\ r <> Ret (Ok completed) \/
     exists st52 f, frames = [f] /\ stamped st52 /\ gapfill_frame cfg st52 (if 0 <? begin then begin else 1) n = Ok f).

(** How the answer to a request for [[begin, requested_end]] ends. *)
Definition range_answered (begin requested_end : seqnum_t) (through : bool) (s s' : Session St)
    (r : outcome (result error replay_outcome)) : Prop :=
  let eff_end := effective_end requested_end last through in
  if (0 <? last) && (begin <=? eff_end)
  then answered_to begin (eff_end + 1) s s' (r = Ret (Ok completed))
  else exists n, (through = false -> n = u32 (requested_end + 1)) /\ one_gapfill begin n s s' r.

Lemma one_gapfill_post st52 arm begin n s : stamped st52 -> can_transmit s = true ->
  post (co_await w (emit_gapfill w cfg has_application hooks st52 arm (if 0 <? begin then begin else 1) n)) s
    (one_gapfill begin n s).
Proof using Hother Hother_store Hadmin.
  intros Hst Hc. set (a := if 0 <? begin then begin else 1).
  assert (Hno : forall s' (r : outcome (result error replay_outcome)), stepped [] s s' -> r <> Ret (Ok completed) ->
    one_gapfill begin n s s' r).
  { intros s' r Hs Hr. exists []. split; [done|]. by left. }
  assert (HQ0 : Q s (upd_tick s)) by by apply (quiet_same P upd_tick).
  apply post_co_await; [by apply Hno; [apply stepped_quiet|]|].
  unfold emit_gapfill. apply post_bind, post_get. destruct (superseded arm (upd_tick s)).
  { apply post_ret, Hno; [by apply stepped_quiet|done]. }
  destruct (gapfill_frame cfg st52 a n) as [f|e] eqn:Ef.
  2: { apply post_ret, Hno; [by apply stepped_quiet|done]. }
  apply post_bind. eapply post_weaken; [apply fire_post|].
  intros s1 r (HQ1 & HK). assert (HQ : stepped [] s s1) by (apply stepped_quiet; by etransitivity). destruct r as [[|]|]; cbn [negb]; [| |by apply Hno].
  2: { by apply post_ret, Hno. }
  assert (Hc1 : can_transmit s1 = true) by (unfold can_transmit; by rewrite (proj1 HK)).
  apply post_bind. eapply post_weaken; [by apply transmit_ok_post|].
  intros s2 r (HK2 & Hr). pose proof (fun g => stepped_trans [] g _ _ s2 HQ) as Htr.
  destruct r as [[|]|]; [|by apply post_ret, Hno; [apply (Htr [])|]|by apply Hno; [apply (Htr [])|]].
  apply post_ret. exists [f]. split; [by apply (Htr [f])|]. right. by exists st52, f.
Qed.

Lemma last_stored_post s : store_good s -> 0 <= last < UINT32_MAX ->
  post (last_stored w) s (fun s' r => Q s s' /\
    match r with Ret (Ok n) => store_good s' /\ n = last | _ => True end).
Proof using Hother Hother_store Hlast.
  intros Hg Hl. unfold last_stored. apply post_bind, post_get. pose proof Hg as Hst. unfold store_good in Hst.
  destruct (store_ (s_store s)) as [st|]; [|done].
  apply post_bind. eapply post_weaken.
  { apply (store_await_post _ (fun v => match v with Ok n => n = last + 1 | Err _ => True end) st s); [|exact Hst].
    intros e st1 H1. exact (Hlast e st1 H1). }
  intros s' [[n|x]|] (HQ & Hr); [|by apply post_ret|done]. destruct Hr as (Hg' & ->). apply post_ret.
  split; [done|]. split; [done|]. rewrite (proj2 (Z.ltb_lt 0 (last + 1))) by lia.
  replace (last + 1 - 1) with last by lia. apply wrap_small. unfold UINT32_MAX in *. change (2 ^ 32) with 4294967296. lia.
Qed.

Lemma range_post begin requested_end through arm s :
  can_transmit s = true -> store_good s -> 0 <= last < UINT32_MAX -> 0 <= begin ->
  post (replay_outbound_range_ w cfg has_clock has_application hooks begin requested_end through arm) s
    (range_answered begin requested_end through s).
Proof using Hother Hother_store Hread Hlast Hadmin.
  intros Hc Hg Hl Hb. unfold replay_outbound_range_, range_answered.
  set (eff_end := effective_end requested_end last through).
  assert (He : 0 < last -> eff_end <= last).
  { unfold eff_end, effective_end. destruct through; cbn [orb]; [lia|]. intros. case_tests; lia. }
  assert (Hno : forall s' (r : outcome (result error replay_outcome)), stepped [] s s' -> r <> Ret (Ok completed) ->
    if (0 <? last) && (begin <=? eff_end) then answered_to begin (eff_end + 1) s s' (r = Ret (Ok completed))
    else exists n, (through = false -> n = u32 (requested_end + 1)) /\ one_gapfill begin n s s' r).
  { intros s' r Hs Hr. destruct (_ && _) eqn:E; [apply answered_none; [done|lia|done]|].
    exists (u32 (requested_end + 1)). split; [done|]. exists []. split; [done|]. by left. }
  apply post_bind. eapply post_weaken; [apply post_keeps; [apply quiet_stamp|apply (walk_stamp_post s)]|].
  intros s1 r (HQ1 & st52 & -> & Hst & Hg1). specialize (Hg1 Hg). cbn beta iota.
  apply post_bind. eapply post_weaken; [by apply last_stored_post|].
  intros s2 [[n|x]|] (HQ2 & Hr); [|by apply post_ret, Hno; [apply stepped_quiet; etransitivity|]|by apply Hno; [apply stepped_quiet; etransitivity|]].
  destruct Hr as (Hg2 & ->). fold eff_end. assert (HQ : Q s s2) by (by etransitivity).
  assert (Hc2 : can_transmit s2 = true) by (unfold can_transmit; by rewrite (proj2 (proj2 HQ))).
  apply post_bind, post_get. unfold store_good in Hg2. destruct (store_ (s_store s2)) as [st|] eqn:Est; [|done].
  rewrite bool_decide_eq_true_2 by done. cbn [negb orb].
  assert (Hg2' : store_good s2) by (unfold store_good; by rewrite Est).
  destruct ((last =? 0) || (eff_end <? begin)) eqn:Eb.
  - apply post_bind, post_get. rewrite (proj2 (andb_false_iff _ _)) by (case_tests; lia).
    eapply post_weaken; [by apply one_gapfill_post|]. intros s' r (fr & Hs & Hr).
    eexists. split; [|exists fr; split; [|exact Hr]]; [by intros ->|].
    apply stepped_quiet in HQ. exact (stepped_trans [] fr _ _ _ HQ Hs).
  - rewrite (proj2 (andb_true_iff _ _)) by (split; lia).
    eapply post_weaken; [apply walk_post; try done; try lia|].
    + intros i Hi. cbn in Hi. lia.
    + intros s' r Hw. cbn [run_start] in Hw. eapply answered_quiet; [by apply stepped_quiet|exact Hw].
Qed.
End WalkLemmas.

(** ** The contract's store read slot by slot *)

#[global] Instance log_slots : SlotRetrieval log_store bool := fun locked k s =>
  if negb locked then (s, ([], Err store_cancelled))
  else match stored_frame (lg_frames s outbound) k with
       | Some f => (s, ([f], Ok tt))
       | None => (s, ([], Err store_seqnum_gap))
       end.

(** A store as the walk relies on it: while [I] holds, [slot] is what it holds under each
    number, and [last] its last outbound number. *)
Record holds_slots {St SE} `{MessageStore St SE, !SlotRetrieval St SE} (slot : seqnum_t -> option bytes)
    (last : seqnum_t) (I : St -> Prop) : Prop := {
  slot_read e k st : I st ->
    let '(st', (frames, r)) := retrieve_slot e k st in
    I st' /\
    match r with
    | Ok _ => exists f, slot k = Some f /\ frames = [f]
    | Err x => folds x = true -> slot k = None
    end;
  last_read e st : I st ->
    let (st', r) := next_seqnum e outbound false st in
    I st' /\ match r with Ok n => n = last + 1 | Err _ => True end }.

Lemma log_holds_slots (s : log_store) n : lg_next s outbound = n + 1 ->
  holds_slots (SE:=bool) (stored_frame (lg_frames s outbound)) n (eq s).
Proof.
  intros Hn. split.
  - intros e k st <-. unfold retrieve_slot, log_slots. destruct e; cbn [negb].
    + destruct (stored_frame _ k) as [f|] eqn:E; split; try done. by exists f.
    + split; [done|]. unfold folds. intros H. vm_compute in H. done.
  - intros e st <-. cbn. destruct e; by split.
Qed.

(** ** Properties *)

(** C11: the answer to a resend request.  Whatever the store, the transport and the
    application answer, and whatever else the strand sends meanwhile (the frames held in the
    range are kept): the frames the walk transmits, in order, account one by one for the
    numbers from BeginSeqNo on - a held application message by its resend, every run of
    other numbers (nothing held, administrative or untyped, or not rebuildable with a stamp of
    the session's clock) by one GapFill from its first number to the number after its last -
    with none left out, none twice and none beyond the effective end, each under a stamp of
    the session's clock; and a walk that completes accounts for all of them.  With
    nothing held in the range it is one GapFill at most. *)
Theorem replay_answers_range {St SE} `{MessageStore St SE, !SlotRetrieval St SE} (w : world St SE)
    cfg has_clock has_application hooks slot last (I : St -> Prop) P
    begin requested_end through arm (s : Session St) :
  holds_slots (SE:=SE) slot last I ->
  (forall n s, quiet P s (w_other w n s)) ->
  (forall n s, store_good I s -> store_good I (w_other w n s)) ->
  (forall f, P (ToAdmin f)) ->
  can_transmit s = true -> store_good I s -> 0 <= last < UINT32_MAX -> 0 <= begin ->
  let (s', r) := replay_outbound_range_ w cfg has_clock has_application hooks begin requested_end through arm s in
  range_answered w cfg has_clock hooks slot P last begin requested_end through s s' r.
Proof.
  intros [Hr Hl] Hq Hg Ha Hc Hs Hlast Hb.
  pose proof (range_post w cfg has_clock has_application hooks slot P I last Hq Hg Ha Hr Hl
    begin requested_end through arm s Hc Hs Hlast Hb) as Hp.
  unfold post in Hp. by destruct (replay_outbound_range_ _ _ _ _ _ _ _ _ _ s).
Qed.

Definition quiet_effect (e : effect) : Prop := match e with Transmitted _ => False | _ => True end.

(** A log of a Logon, an order, a Heartbeat and an order: GapFill, resend, GapFill, resend. *)
Definition sample_log : log_store :=
  mkLog (fun d => match d with
    | inbound => []
    | outbound =>
        [(1, fields_bytes (frame_fields [70] [(35, [65]); (34, [49])]));
         (2, fields_bytes (frame_fields [70] sample_stored));
         (3, fields_bytes (frame_fields [70] [(35, [48]); (34, [51])]));
         (4, fields_bytes (frame_fields [70] sample_stored))]
    end) (fun _ => 5).

Lemma replay_answers_range_witness :
  let s := sample_session Active (Some sample_log) (mkSeqnumManager 1 5) in
  let (s', r) := replay_outbound_range_ calm_world sample_config true true no_hooks 1 0 true None s in
  range_answered calm_world sample_config true no_hooks (stored_frame (lg_frames sample_log outbound))
    quiet_effect 4 1 0 true s s' r /\
  r = Ret (Ok completed) /\
  length (List.filter (fun e => match e with Transmitted _ => true | _ => false end) (s_trace s')) = 4%nat.
Proof.
  intros s.
  pose proof (replay_answers_range calm_world sample_config true true no_hooks
    (stored_frame (lg_frames sample_log outbound)) 4 (eq sample_log)
    quiet_effect 1 0 true None s
    ltac:(by apply log_holds_slots) ltac:(intros n s0; reflexivity) ltac:(done) ltac:(done) ltac:(done)
    ltac:(done) ltac:(unfold UINT32_MAX; lia) ltac:(lia)) as H.
  assert (E : let (s', r) := replay_outbound_range_ calm_world sample_config true true no_hooks 1 0 true None s in
    (r, length (List.filter (fun e => match e with Transmitted _ => true | _ => false end) (s_trace s'))) =
    (Ret (Ok completed), 4%nat)) by by vm_compute.
  destruct (replay_outbound_range_ calm_world sample_config true true no_hooks 1 0 true None s) as [s' r].
  injection E as E1 E2. split; [exact H|]. split; [exact E1|exact E2].
Defined.
