(* ===== verification/SessionClose.v ===== *)
(** Closing a session (src/session/session.cpp: [Session::close]): the three-state test, the
    flush, the Logout phase with its grace timer, and the teardown. *)
From S2P Require Import Prelude Errors LengthData Seqnum MessageStore AdminMessages.
From S2P Require Import SessionState SessionCore.

Inductive close_mode : Set := graceful | terminal.

Definition set_liveness (n : Z) (l : logon_part) : logon_part :=
  mkLogon (negotiated_appl_version_ l) (route_negotiated_ l) (msg_type_defaults_ l)
    (own_logon_sent_reset_flag_ l) (peer_advertised_max_message_size_ l) (live_peer_id_ l) n.

(** The world of a coroutine that has disabled cancellation. *)
Definition shield {St SE} (w : world St SE) : world St SE :=
  World St SE (fun _ => false) (w_locked w) (w_store w) (w_throw w) (w_gate w) (w_write w) (w_timer w)
    (w_callback w) (w_arena w) (w_undefined w) (w_seed w) (w_now w) (w_steady w) (w_other w).

Section Close.
Context {St SE : Type} `{MessageStore St SE} (w : world St SE).
Context (cfg : SessionConfig) (has_clock has_application : bool) (hooks : dict_hooks).
(** The flush the store's factory gave at open(), when it gave one. *)
Context (close_flush_hook_a1_ : option (SE -> St -> St * result error unit)).

(** [live_transport_shared_()->close()] or [close_async()], when there is one. *)
Definition close_transport : M St unit :=
  let! live := get (fun s => live_transport_ (s_transport s)) in
  if live : bool then emit TransportClosed else ret tt.

(** Phase 1: the Logout against the grace timer.  The timer's win cancels the Logout, whose
    exception is then its end. *)
Definition close_phase1 : M St unit :=
  let! stepped :=
    catch (let! r := run_logout_phase1 w cfg has_clock has_application hooks in ret true)
      (fun _ => ret false) in
  let! timer := ask (w_timer w) in
  let timer_arm_won := negb stepped || timer in
  let! cut := get (fun s => logout_cut_ (s_close s)) in
  if timer_arm_won || cut then close_transport else ret tt.

(** The flush and phase 1, of a graceful close. *)
Definition close_gracefully : M St unit :=
  let! o := get (fun s => store_ (s_store s)) in
  match close_flush_hook_a1_, o with
  | Some flush, Some st => let! r := store_await (shield w) flush st in ret tt
  | _, _ => ret tt
  end ;;
  let! escalated := get (fun s => close_escalated_ (s_close s)) in
  let! st := get (fun s => fsm_state_ (s_fsm s)) in
  if negb escalated && (fsm_is st Active || fsm_is st LogonReceived) then close_phase1 else ret tt.

(** The wait for a reset unit in flight, by the logon timeout at most. *)
Definition await_reset_unit : M St unit :=
  let! in_flight := get (fun s => reset_unit_in_flight_ (s_close s)) in
  if in_flight && has_clock then
    let! now := steady_now w in
    suspend w ;;
    let! expired := ask (w_timer w) in
    if expired : bool then modify (upd_events (emit_event session_event_close_reset_wait_expired)) else ret tt
  else ret tt.

Definition teardown_reset : M St unit :=
  let! c := get s_close in
  if negb (teardown_reset_done_ c) &&
     ((logout_seen_ c && cfg_reset_on_logout cfg) || cfg_reset_on_disconnect cfg) then
    modify (upd_close set_teardown_done) ;;
    await_reset_unit ;;
    let! r := reset_seqnums_to_one_durable (shield w) logged in ret tt
  else ret tt.

(** What the close that finds the session open runs, once. *)
Definition close_open (mode : close_mode) : M St (result error unit) :=
  modify (upd_close (set_closing closing)) ;;
  modify (upd_close (set_close_result None)) ;;
  match mode with graceful => close_gracefully | terminal => ret tt end ;;
  disconnect_once (shield w) has_application ;;
  close_transport ;; suspend w ;;
  (* the wait for the liveness loop, which ends when none runs *)
  suspend w ;; modify (upd_logon (set_liveness 0)) ;;
  teardown_reset ;;
  (* the write gate and the manager's mutex drain *)
  suspend w ;; suspend w ;;
  modify (upd_close (set_close_result (Some (Ok tt)))) ;;
  modify (upd_close (set_closing closed_drained)) ;;
  ret (Ok tt).

(** [close]; [in_callback]: a callback of this session is on the stack. *)
Definition close (in_callback : bool) (mode : close_mode) : M St (result error unit) :=
  (if in_callback then
     match mode with terminal => modify (upd_close (add_waited_closes 1)) | graceful => ret tt end ;;
     suspend w
   else ret tt) ;;
  let! st := get (fun s => state_ (s_close s)) in
  match st with
  | never_opened | closed_drained => ret (Err session_already_closed)
  | closing =>
      match mode with terminal => modify (upd_close set_escalated) | graceful => ret tt end ;;
      (* the wait for the result of the close in flight *)
      suspend w ;;
      let! r := get (fun s => close_result_ (s_close s)) in
      ret (match r with Some (Some r) => r | _ => Ok tt end)
  | open => close_open mode
  end.
End Close.
