(* ===== verification/InboundActive.v ===== *)
(** What a session does with a frame once it is logged on (src/session/session.cpp:
    [on_inbound_active_] and its arms): the gates in their order, the answer each gate
    gives, and the hand-over to the application. *)
From stdpp Require Import strings.
From S2P Require Import Prelude Errors FixTime TagScan LengthData VersionProfile Writer Framer FrameHeader.
From S2P Require Import OffsetTable Seqnum MessageStore AdminMessages SessionState SessionCore.
From S2P Require Import Routing Replay SessionClose.

(** ** Data *)

(** reject_reason_map.hpp *)
Definition wire_error_to_session_reject_reason (e : error) : Z :=
  match e with
  | wire_required_field_missing => 1
  | wire_unexpected_tag => 2
  | wire_field_value_out_of_range => 5
  | wire_field_value_truncated => 6
  | wire_header_out_of_order => 14
  | wire_invalid_tag_number => 0
  | wire_length_data_mismatch => 5
  | _ => 3
  end.

Record RejectDecision := mkReject { reason : Z; ref_tag_id : Z; names_third_field : bool }.

(** [InboundValidation] *)
Inductive InboundValidation : Type :=
  | validation_pass
  | validation_parse_failed
  | validation_reject (reject : RejectDecision).

(** [inbound_slow_t]: the arm a frame goes to, with what the arm reads. *)
Inductive inbound_slow_t : Type :=
  | slow_validate_failed (v : InboundValidation)
  | slow_sending_time_reject
  | slow_sequence_reset
  | slow_too_high (next_expected seq : seqnum_t)
  | slow_out_of_sequence (chk_error : error)
  | slow_gap_fill
  | slow_logout
  | slow_from_admin_failed (cb_r : result error dispatch_outcome)
  | slow_test_request
  | slow_resend_request
  | slow_unsupported
  | slow_from_app_failed (cb_r : result error dispatch_outcome).

Definition header_out_of_order_garble (frame : bytes) : garble_summary :=
  GarbleSummary 1 (Some wire_header_out_of_order) (zlen frame).

Definition kRejectTextMalformedTag : bytes := bytes_of "Malformed field: invalid tag".
Definition kRejectTextLengthDataMismatch : bytes :=
  bytes_of "Malformed field: Length does not match its Data field".

Definition yes : bytes := [89].
Definition is_type (mt : Z) (hdr : FrameHeader) : bool := bool_decide (msg_type hdr = [mt]).

Definition set_last_inbound (v : Z) (l : liveness_part) : liveness_part :=
  mkLiveness v (last_outbound_steady_ l) (pending_test_req_id_ l) (unanswered_tr_ l) (next_test_request_id_ l).
Definition clear_pending (l : liveness_part) : liveness_part :=
  mkLiveness (last_inbound_steady_ l) (last_outbound_steady_ l) [] false (next_test_request_id_ l).

Section Active.
Context {St SE : Type} `{MessageStore St SE, !SlotRetrieval St SE} (w : world St SE).
Context (cfg : SessionConfig) (has_clock has_application : bool).
(** What open() bound: the routes, the parse's entry cap, and the store's flush. *)
Context (rt : routing) (inbound_entry_cap_ : Z).
Context (close_flush_hook_a1_ : option (SE -> St -> St * result error unit)).

Notation hooks := (inbound_hooks rt).
Notation disconnect := (record_state_transition_ w has_application Disconnected).
Notation stamp := (stamp w cfg has_clock).
Notation fire_to_admin_ := (fire_to_admin_ w has_application hooks).
Notation assign := (with_mgr w assign_outbound).
Notation emit_frame seq frame arm :=
  (co_await w (store_then_emit w has_clock has_application hooks seq frame arm true)).
Notation close_terminal :=
  (co_await w (close w cfg has_clock has_application hooks close_flush_hook_a1_ false terminal)).

(** [record_state_transition_(Disconnected); co_return std::unexpected(e)] *)
Definition disconnect_with {A} (e : error) : M St (result error A) := disconnect ;; ret (Err e).

Definition route_hooks (route : inbound_route) : dict_hooks := re_hooks (ir_entry route).

(** ** Validation *)

(** The parse both inbound sites make: one frame out of a fresh framer, and its index. *)
Definition inbound_table (mr : memory_resource) (seed : Z) (frame : bytes) (route : inbound_route)
  : option OffsetTable :=
  match feed default_config framer_init (carry_buffer_init 512) frame 1 with
  | (Ok (fv :: _), _, _) =>
      let t := build mr (Cfg inbound_entry_cap_ default_max_group_entries_per_instance)
                 (route_hooks route) seed (fv_bytes fv) (reserve_for inbound_entry_cap_ (zlen frame)) in
      if is_ok (status t) then Some t else None
  | _ => None
  end.

Definition validate_inbound_ (frame : bytes) (route : inbound_route) : M St InboundValidation :=
  let! mr := ask (w_arena w) in
  let! seed := ask (w_seed w) in
  ret match inbound_table mr seed frame route with
      | None => validation_parse_failed
      | Some t =>
          if ir_application route && negb (ir_header_1128 route) && is_ok (find t 1128)
          then validation_reject (mkReject 14 1128 true)
          else
            match re_validator (ir_entry route) with
            | None => validation_pass
            | Some validate =>
                match validate frame with
                | Err (e, tag) =>
                    validation_reject (mkReject (wire_error_to_session_reject_reason e) tag false)
                | Ok _ => validation_pass
                end
            end
      end.

Definition refuse_active_frame_ (frame : bytes) (hdr : FrameHeader) (route : inbound_route)
  : InboundValidation :=
  if negb (bool_decide (msg_type hdr = fault_ref_msg_type hdr)) then
    validation_reject (mkReject
      (if fixt_header_repeats_msg_type frame hooks (inbound_header_tag rt) then 13 else 14) 35 true)
  else
    match ir_refusal route with
    | refusal_none => validation_pass
    | empty_value => validation_reject (mkReject 4 1128 true)
    | unknown_value | no_dictionary => validation_reject (mkReject 5 1128 true)
    end.

(** [parse_and_dispatch_] over an inbound frame. *)
Definition dispatch_inbound (frame : bytes) (route : inbound_route) (cb : effect)
  : M St (result error dispatch_outcome) :=
  let! mr := ask (w_arena w) in
  let! seed := ask (w_seed w) in
  match inbound_table mr seed frame route with
  | None => ret (Ok parse_failed)
  | Some _ =>
      let! v := invoke_verdict w cb in
      ret (match v with Err e => Err e | Ok _ => Ok dispatched end)
  end.

Definition close_on_late_parse_failure_ : M St (result error unit) :=
  let! r := close_terminal in ret (Ok tt).

Definition is_threw (e : error) : bool := bool_decide (e = app_callback_threw).

(** [if (parse_failed) close; if (threw) close and return the error; else k] *)
Definition after_callback (cb_r : result error dispatch_outcome) (k : M St (result error unit))
  : M St (result error unit) :=
  match cb_r with
  | Ok parse_failed => co_await w close_on_late_parse_failure_
  | Err e => if is_threw e then let! r := close_terminal in ret (Err e) else k
  | Ok dispatched => k
  end.

(** ** The answers *)

Definition after_to_admin (frame : bytes) (k : M St (result error unit)) : M St (result error unit) :=
  let! seen := fire_to_admin_ frame in
  if negb seen then disconnect_with app_callback_threw else k.

Definition inbound_reject_leaf_ (ref_seq : seqnum_t) (ref_tag_id : Z) (ref_msg_type : bytes) (reason : Z)
    (sending_time : bytes) (arm : option fsm_state) : M St (result error unit) :=
  let! rj_seq := get (fun s => peek_outbound (seqnum_mgr_ s)) in
  match build_reject (replicate 512 0) rj_seq (cfg_sender_comp_id cfg) (cfg_target_comp_id cfg)
          ref_seq ref_tag_id ref_msg_type reason (cfg_begin_string cfg) sending_time with
  | Err _ => ret (Ok tt)
  | Ok frame =>
      let! a := assign in
      match a with
      | Err e => disconnect_with e
      | Ok _ => after_to_admin frame (let! r := emit_frame rj_seq frame arm in ret (Ok tt))
      end
  end.

Definition inbound_reject_best_effort_leaf_ (ref_seq : seqnum_t) (ref_msg_type sending_time : bytes)
  : M St (result error unit) :=
  let! rj_seq := get (fun s => peek_outbound (seqnum_mgr_ s)) in
  match build_reject (replicate 512 0) rj_seq (cfg_sender_comp_id cfg) (cfg_target_comp_id cfg)
          ref_seq 0 ref_msg_type 3 (cfg_begin_string cfg) sending_time with
  | Err _ => ret (Ok tt)
  | Ok frame =>
      let! a := assign in
      match a with
      | Err _ => ret (Ok tt)
      | Ok _ => after_to_admin frame (let! r := emit_frame rj_seq frame None in ret (Ok tt))
      end
  end.

Definition inbound_logout_leaf_ (sending_time text : bytes) : M St (result error unit) :=
  let! lo_seq := get (fun s => peek_outbound (seqnum_mgr_ s)) in
  match build_logout (replicate 256 0) lo_seq (cfg_sender_comp_id cfg) (cfg_target_comp_id cfg)
          text (cfg_begin_string cfg) sending_time with
  | Err _ => ret (Ok tt)
  | Ok frame =>
      after_to_admin frame (
        let! a := assign in
        match a with
        | Err e => disconnect_with e
        | Ok _ => let! r := emit_frame lo_seq frame None in ret (Ok tt)
        end)
  end.

Definition inbound_resend_request_leaf_ (begin_seqno : seqnum_t) (sending_time : bytes)
  : M St (result error unit) :=
  let! rr_seq := get (fun s => peek_outbound (seqnum_mgr_ s)) in
  match build_resend_request (replicate 256 0) rr_seq (cfg_sender_comp_id cfg) (cfg_target_comp_id cfg)
          begin_seqno 0 (cfg_begin_string cfg) sending_time with
  | Err _ => disconnect_with dispatch_aborted
  | Ok frame =>
      after_to_admin frame (
        let! a := assign in
        match a with
        | Err _ => disconnect ;; ret (Ok tt)
        | Ok _ =>
            let! r := emit_frame rr_seq frame None in
            match r with Err e => disconnect_with e | Ok _ => ret (Ok tt) end
        end)
  end.

Definition inbound_heartbeat_reply_leaf_ (test_req_id sending_time : bytes) : M St (result error unit) :=
  let! hb_seq := get (fun s => peek_outbound (seqnum_mgr_ s)) in
  match build_heartbeat (replicate 256 0) hb_seq (cfg_sender_comp_id cfg) (cfg_target_comp_id cfg)
          test_req_id (cfg_begin_string cfg) sending_time with
  | Err _ => ret (Ok tt)
  | Ok frame =>
      after_to_admin frame (
        let! a := assign in
        match a with
        | Err e => disconnect_with e
        | Ok _ =>
            let! r := emit_frame hb_seq frame None in
            match r with Err e => disconnect_with e | Ok _ => ret (Ok tt) end
        end)
  end.

(** [parse_and_dispatch_] over a frame the session sends, with a callback that may refuse it. *)
Definition dispatch_outbound (frame : bytes) (cb : effect) : M St (result error dispatch_outcome) :=
  let! mr := ask (w_arena w) in
  let! seed := ask (w_seed w) in
  if negb (outbound_parses hooks mr seed frame) then ret (Ok parse_failed)
  else
    let! v := invoke_verdict w cb in
    ret (match v with Err e => Err e | Ok _ => Ok dispatched end).

Definition inbound_business_reject_leaf_ (ref_seq : seqnum_t) (ref_msg_type sending_time : bytes)
  : M St (result error unit) :=
  let! bmr_seq := get (fun s => peek_outbound (seqnum_mgr_ s)) in
  match build_business_message_reject (replicate 512 0) bmr_seq (cfg_sender_comp_id cfg)
          (cfg_target_comp_id cfg) ref_seq ref_msg_type 0 (cfg_begin_string cfg) sending_time with
  | Err _ => ret (Ok tt)
  | Ok frame =>
      let! to_app_r := if has_application then dispatch_outbound frame (ToApp frame) else ret (Ok dispatched) in
      match to_app_r with
      | Err e => if is_threw e then let! r := close_terminal in ret (Err e) else ret (Ok tt)
      | Ok _ =>
          let! a := assign in
          match a with
          | Err e => disconnect_with e
          | Ok _ =>
              let! r := emit_frame bmr_seq frame None in
              match r with Err e => disconnect_with e | Ok _ => ret (Ok tt) end
          end
      end
  end.

(** ** The gates *)

(** [co_await persist_inbound_advance_()], and on to [k] when it succeeds. *)
Definition persisted (k : M St (result error unit)) : M St (result error unit) :=
  let! r := co_await w (persist_inbound_advance_ w has_application None) in
  match r with Err e => ret (Err e) | Ok _ => k end.

(** [consume_rejected_seqnum_], and on to [k] when it succeeds. *)
Definition consumed (seq : seqnum_t) (mt : bytes) (k : M St (result error unit)) : M St (result error unit) :=
  let! r := co_await w (consume_rejected_seqnum_ w has_clock has_application seq mt) in
  match r with Err e => ret (Err e) | Ok _ => k end.

(** An awaited leaf's failure is the arm's; on to [k] otherwise. *)
Definition then_ (m k : M St (result error unit)) : M St (result error unit) :=
  let! r := m in match r with Err e => ret (Err e) | Ok _ => k end.

Definition text_resend_unanswered (next_expected : seqnum_t) : bytes :=
  bytes_of "ResendRequest unanswered, expecting MsgSeqNum " ++ dec_text next_expected.

Definition resend_gap_deadline_ (hdr : FrameHeader) : M St (option (result error unit)) :=
  let! next_expected := get (fun s => next_inbound_ (seqnum_mgr_ s)) in
  if parse_seqnum (msg_seq_num hdr) <=? next_expected then ret None
  else
    let! q := get reconnect_fsm_ in
    if negb (awaiting_resend_ q) then ret None
    else if negb has_clock then ret None
    else
      match resend_gap_deadline (started_at (resend_state_ q))
              (default kDefaultHeartBtInt (cfg_heartbeat_interval cfg)) with
      | None => ret None
      | Some deadline =>
          let! now := steady_now w in
          if now <? deadline then ret None
          else
            let! st52 := stamp in
            let! r := inbound_logout_leaf_ st52 (text_resend_unanswered next_expected) in
            match r with
            | Err e => ret (Some (Err e))
            | Ok _ => disconnect ;; ret (Some (Ok tt))
            end
      end.

Definition unless_expired (hdr : FrameHeader) (k : M St (result error unit)) : M St (result error unit) :=
  let! expired := resend_gap_deadline_ hdr in
  match expired with Some r => ret r | None => k end.

Definition answer_pending_test_request_ (test_req_id : bytes) : M St bool :=
  let! pending := get (fun s => pending_test_req_id_ (s_live s)) in
  if negb (zlen test_req_id =? 0) && negb (bool_decide (test_req_id = pending)) then disconnect ;; ret false
  else modify (upd_live clear_pending) ;; ret true.

(** The latency window in whole seconds, 120 by default. *)
Definition max_latency : Z :=
  match cfg_sending_time_threshold cfg with Some ms => Z.quot ms 1000 | None => 120 end.

Definition inbound_sending_time_ok_ (hdr : FrameHeader) : M St bool :=
  if zlen (sending_time hdr) =? 0 then ret false
  else
    match fix_string_to_utc_time (sending_time hdr) with
    | Err _ => ret false
    | Ok t => let! now := ask (w_now w) in ret (is_ok (check_sending_time t now max_latency))
    end.

Definition dispose_unparseable_ (hdr : FrameHeader) (state : fsm_state) : M St (result error unit) :=
  match state with
  | NotConnected | LogonSent => disconnect ;; ret (Ok tt)
  | LogoutSent | Disconnected => ret (Ok tt)
  | LogonReceived | Active =>
      let ref_seq := parse_seqnum (fault_ref_seq_num hdr) in
      let mt := fault_ref_msg_type hdr in
      let reject :=
        let ref_msg_type := if zlen mt <=? kMaxShippedMsgTypeLength then mt else [] in
        match fault hdr with
        | length_data_mismatch =>
            co_await w (emit_session_reject_with w cfg has_clock has_application hooks ref_seq ref_msg_type 5
              (fault_length_tag hdr) kRejectTextLengthDataMismatch None)
        | _ =>
            co_await w (emit_session_reject_with w cfg has_clock has_application hooks ref_seq ref_msg_type 0 0
              kRejectTextMalformedTag None)
        end in
      if ref_seq =? 0 then ret (Ok tt)
      else if bool_decide (mt = [65]) then disconnect ;; ret (Ok tt)
      else if bool_decide (mt = [52]) then reject
      else consumed ref_seq mt reject
  end.

(** ** The arms *)

Definition on_inbound_active_validate_failed_ (hdr : FrameHeader) (v : InboundValidation)
  : M St (result error unit) :=
  match v with
  | validation_parse_failed => co_await w close_on_late_parse_failure_
  | validation_reject d =>
      unless_expired hdr (
        let rej_seq := parse_seqnum (if names_third_field d then fault_ref_seq_num hdr else msg_seq_num hdr) in
        let rej_type := if names_third_field d then fault_ref_msg_type hdr else msg_type hdr in
        consumed rej_seq rej_type (
          co_await w (emit_session_reject_with w cfg has_clock has_application hooks rej_seq rej_type
            (reason d) (ref_tag_id d) [] None)))
  | validation_pass => ret (Ok tt)
  end.

(** A Reject, then a Logout, then the disconnect. *)
Definition reject_and_logout (ref_seq : seqnum_t) (ref_tag_id : Z) (mt : bytes) : M St (result error unit) :=
  let! st52 := stamp in
  then_ (inbound_reject_leaf_ ref_seq ref_tag_id mt 10 st52 None) (
  then_ (inbound_logout_leaf_ st52 []) (disconnect ;; ret (Ok tt))).

Definition on_inbound_active_sending_time_reject_ (hdr : FrameHeader) : M St (result error unit) :=
  let ref_seq := parse_seqnum (msg_seq_num hdr) in
  consumed ref_seq (msg_type hdr) (reject_and_logout ref_seq 52 (msg_type hdr)).

(** [engine_.application->fromAdmin] over the frame. *)
Definition from_admin (frame : bytes) (route : inbound_route) : M St (result error dispatch_outcome) :=
  dispatch_inbound frame route (FromAdmin frame).
Definition from_app (frame : bytes) (route : inbound_route) : M St (result error dispatch_outcome) :=
  dispatch_inbound frame route (FromApp frame).

Definition on_inbound_active_sequence_reset_ (frame : bytes) (hdr : FrameHeader) (route : inbound_route)
  : M St (result error unit) :=
  let applied :=
    if negb (cfg_validate_sequence_numbers cfg) then ret (Ok tt)
    else
      then_ (co_await w (apply_inbound_sequence_reset w cfg has_clock has_application hooks
               (parse_seqnum (new_seqno hdr)) (parse_seqnum (msg_seq_num hdr))))
        (unless_expired hdr (ret (Ok tt))) in
  if has_application then
    let! cb_r := from_admin frame route in
    after_callback cb_r
      match cb_r with
      | Err _ =>
          let! st52 := stamp in
          then_ (inbound_reject_best_effort_leaf_ (parse_seqnum (msg_seq_num hdr)) (msg_type hdr) st52)
            (unless_expired hdr (ret (Ok tt)))
      | Ok _ => applied
      end
  else applied.

Definition on_inbound_active_too_high_ (hdr : FrameHeader) (next_expected seq : seqnum_t)
  : M St (result error unit) :=
  let! pending := get (fun s => pending_test_req_id_ (s_live s)) in
  let! go := if is_type 48 hdr && negb (zlen pending =? 0)
             then answer_pending_test_request_ (test_req_id hdr) else ret true in
  if negb go then ret (Ok tt)
  else
    co_await w (modify (upd_reconnect (enter_awaiting_resend next_expected (u32 (seq - 1))))) ;;
    (if has_clock then let! now := steady_now w in modify (upd_reconnect (mark_resend_progress now))
     else ret tt) ;;
    let! st52 := stamp in
    then_ (inbound_resend_request_leaf_ next_expected st52) (ret (Ok tt)).

(** A Reject of OrigSendingTime(122) the frame must carry. *)
Definition reject_orig_sending_time (hdr : FrameHeader) : M St (result error unit) :=
  unless_expired hdr (
    let ref_seq := parse_seqnum (msg_seq_num hdr) in
    consumed ref_seq (msg_type hdr) (
      let! st52 := stamp in
      then_ (inbound_reject_leaf_ ref_seq 122 (msg_type hdr) 1 st52 None) (ret (Ok tt)))).

(** [None]: the frame goes on. *)
Definition on_inbound_active_poss_dup_ (hdr : FrameHeader) : M St (option (result error unit)) :=
  let refuse m := let! r := m in ret (Some r) in
  if zlen (orig_sending_time hdr) =? 0 then refuse (reject_orig_sending_time hdr)
  else
    match fix_string_to_utc_time (orig_sending_time hdr), fix_string_to_utc_time (sending_time hdr) with
    | Err _, _ => refuse (reject_orig_sending_time hdr)
    | Ok t122, Ok t52 =>
        if t52 <? t122 then
          let ref_seq := parse_seqnum (msg_seq_num hdr) in
          refuse (consumed ref_seq (msg_type hdr) (reject_and_logout ref_seq 122 (msg_type hdr)))
        else ret None
    | Ok _, Err _ => ret None
    end.

(** The callback of a frame taken out of sequence. *)
Definition delivered_out_of_sequence (frame : bytes) (route : inbound_route) (admin : bool)
  : M St (result error unit) :=
  let! cb_r := if admin then from_admin frame route else from_app frame route in
  after_callback cb_r (ret (Ok tt)).

Definition on_inbound_active_out_of_sequence_ (frame : bytes) (hdr : FrameHeader) (chk_error : error)
    (route : inbound_route) : M St (result error unit) :=
  if bool_decide (chk_error = store_seqnum_overflow) then disconnect_with chk_error
  else
    unless_expired hdr (
      if is_type 48 hdr then
        let! s := get id in
        (if bool_decide (chk_error = session_seqnum_too_high) && awaiting_resend_ (reconnect_fsm_ s) &&
            negb (zlen (pending_test_req_id_ (s_live s)) =? 0)
         then let! r := answer_pending_test_request_ (test_req_id hdr) in ret tt else ret tt) ;;
        ret (Ok tt)
      else if bool_decide (poss_dup_flag hdr = yes) then
        if is_admin_msgtype (msg_type hdr) then ret (Ok tt)
        else if cfg_redeliver_poss_dup cfg && has_application
        then delivered_out_of_sequence frame route false
        else ret (Ok tt)
      else if negb (cfg_validate_sequence_numbers cfg) then
        if has_application
        then delivered_out_of_sequence frame route (is_admin_msgtype (msg_type hdr)) else ret (Ok tt)
      else if bool_decide (chk_error = session_seqnum_too_high) then ret (Ok tt)
      else disconnect ;; ret (Ok tt)).

Definition on_inbound_active_gap_fill_ (frame : bytes) (hdr : FrameHeader) (route : inbound_route)
  : M St (result error unit) :=
  if negb (cfg_validate_sequence_numbers cfg) then
    if has_application then
      let! cb_r := from_admin frame route in after_callback cb_r (persisted (ret (Ok tt)))
    else persisted (ret (Ok tt))
  else
    persisted (co_await w (apply_inbound_sequence_reset w cfg has_clock has_application hooks
      (parse_seqnum (new_seqno hdr)) (parse_seqnum (msg_seq_num hdr)))).

Definition on_inbound_active_logout_ (frame : bytes) (hdr : FrameHeader) (route : inbound_route)
  : M St (result error unit) :=
  modify (upd_close (set_logout_seen true)) ;;
  let! st := get (fun s => fsm_state_ (s_fsm s)) in
  let finish := persisted (disconnect ;; ret (Ok tt)) in
  let observe :=
    if has_application then
      let! cb_r := from_admin frame route in
      match cb_r with
      | Ok parse_failed => co_await w close_on_late_parse_failure_
      | Err e =>
          if is_threw e then disconnect_with e
          else
            let! st52 := stamp in
            then_ (inbound_reject_best_effort_leaf_ (parse_seqnum (msg_seq_num hdr)) (msg_type hdr) st52) finish
      | Ok dispatched => finish
      end
    else finish in
  if fsm_is st Active then
    let! st52 := stamp in
    then_ (inbound_logout_leaf_ st52 []) (
      modify (upd_events (emit_event (session_event_sequence_numbers_reset false))) ;; observe)
  else observe.

Definition on_inbound_active_from_admin_failed_ (hdr : FrameHeader) (cb_r : result error dispatch_outcome)
  : M St (result error unit) :=
  after_callback cb_r
    match cb_r with
    | Err _ =>
        persisted (co_await w (emit_session_reject_ w cfg has_clock has_application hooks
          (parse_seqnum (msg_seq_num hdr)) (msg_type hdr)))
    | Ok _ => ret (Ok tt)
    end.

Definition on_inbound_active_test_request_ (hdr : FrameHeader) : M St (result error unit) :=
  let! st52 := stamp in
  then_ (inbound_heartbeat_reply_leaf_ (test_req_id hdr) st52) (persisted (ret (Ok tt))).

Definition on_inbound_active_resend_request_ (hdr : FrameHeader) : M St (result error unit) :=
  let rr_begin := parse_seqnum (begin_seqno hdr) in
  let rr_end := parse_seqnum (end_seqno hdr) in
  let! replay_r := co_await w (replay_outbound_range_ w cfg has_clock has_application hooks
                     rr_begin rr_end (rr_end =? 0) None) in
  match replay_r with
  | Err e => disconnect_with e
  | Ok _ => persisted (ret (Ok tt))
  end.

Definition on_inbound_active_unsupported_ (hdr : FrameHeader) : M St (result error unit) :=
  persisted (co_await w (emit_session_reject_ w cfg has_clock has_application hooks
    (parse_seqnum (msg_seq_num hdr)) (msg_type hdr))).

Definition on_inbound_active_from_app_failed_ (hdr : FrameHeader) (cb_r : result error dispatch_outcome)
  : M St (result error unit) :=
  after_callback cb_r
    match cb_r with
    | Err _ =>
        let! st52 := stamp in
        then_ (inbound_business_reject_leaf_ (parse_seqnum (msg_seq_num hdr)) (msg_type hdr) st52)
          (persisted (ret (Ok tt)))
    | Ok _ => persisted (ret (Ok tt))
    end.

Definition on_inbound_active_slow_ (frame : bytes) (hdr : FrameHeader) (slow : inbound_slow_t)
    (route : inbound_route) : M St (result error unit) :=
  match slow with
  | slow_validate_failed v => on_inbound_active_validate_failed_ hdr v
  | slow_sending_time_reject => on_inbound_active_sending_time_reject_ hdr
  | slow_sequence_reset => on_inbound_active_sequence_reset_ frame hdr route
  | slow_too_high next_expected seq => on_inbound_active_too_high_ hdr next_expected seq
  | slow_out_of_sequence chk_error => on_inbound_active_out_of_sequence_ frame hdr chk_error route
  | slow_gap_fill => on_inbound_active_gap_fill_ frame hdr route
  | slow_logout => on_inbound_active_logout_ frame hdr route
  | slow_from_admin_failed cb_r => on_inbound_active_from_admin_failed_ hdr cb_r
  | slow_test_request => on_inbound_active_test_request_ hdr
  | slow_resend_request => on_inbound_active_resend_request_ hdr
  | slow_unsupported => on_inbound_active_unsupported_ hdr
  | slow_from_app_failed cb_r => on_inbound_active_from_app_failed_ hdr cb_r
  end.

(** ** The gates, in order *)

(** Where the gates leave a frame: returned, or sent to an arm. *)
Definition verdict : Type := result error unit + inbound_slow_t.
Definition finished (r : result error unit) : M St verdict := ret (inl r).
Definition to_arm (k : inbound_slow_t) : M St verdict := ret (inr k).
Definition ends (m : M St (result error unit)) : M St verdict := let! r := m in finished r.

(** The state table's row Active past the sequence gate. *)
Definition active_row (frame : bytes) (hdr : FrameHeader) (route : inbound_route) : M St verdict :=
  let deliver_app :=
    if has_application then
      let! cb_r := from_app frame route in
      match cb_r with
      | Ok dispatched => ends (persisted (ret (Ok tt)))
      | _ => to_arm (slow_from_app_failed cb_r)
      end
    else ends (persisted (ret (Ok tt))) in
  let by_type :=
    if is_type 48 hdr then
      let! pending := get (fun s => pending_test_req_id_ (s_live s)) in
      if negb (zlen pending =? 0) && negb (zlen (test_req_id hdr) =? 0) &&
         negb (bool_decide (test_req_id hdr = pending))
      then ends (disconnect ;; ret (Ok tt))
      else
        (if negb (zlen pending =? 0) then modify (upd_live clear_pending) else ret tt) ;;
        ends (persisted (ret (Ok tt)))
    else if is_type 49 hdr then to_arm slow_test_request
    else if is_type 50 hdr then to_arm slow_resend_request
    else if negb (is_admin_msgtype (msg_type hdr)) && negb has_application then to_arm slow_unsupported
    else deliver_app in
  if has_application && is_admin_msgtype (msg_type hdr) then
    let! cb_r := from_admin frame route in
    match cb_r with
    | Ok dispatched => by_type
    | _ => to_arm (slow_from_admin_failed cb_r)
    end
  else by_type.

(** Past the sequence gate. *)
Definition in_sequence (frame : bytes) (hdr : FrameHeader) (route : inbound_route) : M St verdict :=
  close_filled_resend_gap_ w has_clock ;;
  if is_type 52 hdr then to_arm slow_gap_fill
  else if is_type 53 hdr then to_arm slow_logout
  else if is_type 51 hdr then ends (persisted (ret (Ok tt)))
  else
    let! st := get (fun s => fsm_state_ (s_fsm s)) in
    if fsm_is st Active then active_row frame hdr route else ends (persisted (ret (Ok tt))).

(** The sequence gate. *)
Definition sequence_gate (frame : bytes) (hdr : FrameHeader) (route : inbound_route) : M St verdict :=
  let seq := parse_seqnum (msg_seq_num hdr) in
  if seq =? 0 then ends (disconnect ;; ret (Ok tt))
  else
    let! next_expected := get (fun s => next_inbound_ (seqnum_mgr_ s)) in
    let! waiting := get (fun s => awaiting_resend_ (reconnect_fsm_ s)) in
    if (next_expected <? seq) && negb waiting && cfg_validate_sequence_numbers cfg
    then to_arm (slow_too_high next_expected seq)
    else
      let! dup := if bool_decide (poss_dup_flag hdr = yes) && negb (is_type 52 hdr)
                  then on_inbound_active_poss_dup_ hdr else ret None in
      match dup with
      | Some r => finished r
      | None =>
          let! chk := with_mgr w (fun l => check_inbound l seq) in
          match chk with
          | Err e => to_arm (slow_out_of_sequence e)
          | Ok _ => in_sequence frame hdr route
          end
      end.

(** The validation gate; what it refuses goes to its arm. *)
Definition validation_gate (frame : bytes) (hdr : FrameHeader) (route : inbound_route)
  : M St InboundValidation :=
  if cfg_validate_inbound_messages cfg &&
     bool_decide (is_Some (match session_route_ rt with Some e => re_validator e | None => None end))
  then
    let v := if fixt_routing_ rt then refuse_active_frame_ frame hdr route else validation_pass in
    match v with
    | validation_pass =>
        if is_type 51 hdr || is_type 53 hdr then ret validation_pass else validate_inbound_ frame route
    | _ => ret v
    end
  else ret validation_pass.

(** The CompIDs are those of the configured session, the other way round. *)
Definition comp_ids_match (hdr : FrameHeader) : bool :=
  bool_decide (sender_comp_id hdr = cfg_target_comp_id cfg) &&
  bool_decide (target_comp_id hdr = cfg_sender_comp_id cfg).

Definition active_gates (frame : bytes) (hdr : FrameHeader) (route : inbound_route) : M St verdict :=
  if negb (msg_type_is_third hdr) then
    note_garbles w cfg has_clock (header_out_of_order_garble frame) ;; finished (Ok tt)
  else
    match fault hdr with
    | malformed_tag | length_data_mismatch =>
        let! st := get (fun s => fsm_state_ (s_fsm s)) in
        ends (co_await w (dispose_unparseable_ hdr st))
    | fault_none =>
        (if has_clock then let! now := steady_now w in modify (upd_live (set_last_inbound now)) else ret tt) ;;
        let! v := validation_gate frame hdr route in
        match v with
        | validation_parse_failed | validation_reject _ => to_arm (slow_validate_failed v)
        | validation_pass =>
            if negb (bool_decide (begin_string hdr = cfg_begin_string cfg)) then ends (disconnect ;; ret (Ok tt))
            else if cfg_check_comp_id cfg && negb (comp_ids_match hdr) then ends (disconnect ;; ret (Ok tt))
            else
              let! in_time :=
                if negb (is_type 51 hdr) && negb (is_type 53 hdr) && has_clock
                then inbound_sending_time_ok_ hdr else ret true in
              if negb in_time then to_arm slow_sending_time_reject
              else if is_type 52 hdr && negb (bool_decide (gap_fill_flag hdr = yes))
              then to_arm slow_sequence_reset
              else sequence_gate frame hdr route
        end
    end.

(** The row of a session that is logged on. *)
Definition on_inbound_logged_on (frame : bytes) : M St (result error unit) :=
  let! l := get s_logon in
  let route := select_route_ rt (route_negotiated_ l) (msg_type_defaults_ l) frame false in
  let hdr := scan_frame_header frame (route_hooks route) in
  let! v := active_gates frame hdr route in
  match v with
  | inl r => ret r
  | inr slow => on_inbound_active_slow_ frame hdr slow route
  end.

(** [on_inbound_logout_sent_] *)
Definition on_inbound_logout_sent_ (frame : bytes) : M St (result error unit) :=
  let! l := get s_logon in
  let route := select_route_ rt (route_negotiated_ l) (msg_type_defaults_ l) frame false in
  let hdr := scan_frame_header frame (route_hooks route) in
  if negb (msg_type_is_third hdr) then
    note_garbles w cfg has_clock (header_out_of_order_garble frame) ;; ret (Ok tt)
  else
    match fault hdr with
    | malformed_tag | length_data_mismatch => co_await w (dispose_unparseable_ hdr LogoutSent)
    | fault_none =>
        if is_type 53 hdr then
          disconnect ;; modify (upd_close (set_logout_confirmed true)) ;; ret (Ok tt)
        else ret (Ok tt)
    end.
End Active.
