(* ===== verification/InboundLogon.v ===== *)
(** Establishing a session (src/session/session.cpp): what the acceptor does with a peer's
    Logon ([on_inbound_not_connected_]), the initiator with the answer to its own
    ([on_inbound_logon_sent_]), and the dispatch over the states. *)
From stdpp Require Import strings.
From S2P Require Import Prelude Errors FixTime TagScan LengthData VersionProfile Writer Framer FrameHeader.
From S2P Require Import OffsetTable Seqnum MessageStore AdminMessages SessionState SessionCore.
From S2P Require Import Routing Replay SessionClose InboundActive.

Definition set_peer_max (v : option Z) (l : logon_part) : logon_part :=
  mkLogon (negotiated_appl_version_ l) (route_negotiated_ l) (msg_type_defaults_ l)
    (own_logon_sent_reset_flag_ l) v (live_peer_id_ l) (liveness_counter_ l).
Definition set_negotiated (v : application_version) (l : logon_part) : logon_part :=
  mkLogon v v (msg_type_defaults_ l) (own_logon_sent_reset_flag_ l)
    (peer_advertised_max_message_size_ l) (live_peer_id_ l) (liveness_counter_ l).
Definition set_route_negotiated (v : application_version) (l : logon_part) : logon_part :=
  mkLogon (negotiated_appl_version_ l) v (msg_type_defaults_ l) (own_logon_sent_reset_flag_ l)
    (peer_advertised_max_message_size_ l) (live_peer_id_ l) (liveness_counter_ l).
Definition set_defaults (v : list (bytes * application_version)) (l : logon_part) : logon_part :=
  mkLogon (negotiated_appl_version_ l) (route_negotiated_ l) v (own_logon_sent_reset_flag_ l)
    (peer_advertised_max_message_size_ l) (live_peer_id_ l) (liveness_counter_ l).
Definition set_own_reset_flag (v : bool) (l : logon_part) : logon_part :=
  mkLogon (negotiated_appl_version_ l) (route_negotiated_ l) (msg_type_defaults_ l) v
    (peer_advertised_max_message_size_ l) (live_peer_id_ l) (liveness_counter_ l).
Definition take_peer_id (l : logon_part) : logon_part :=
  mkLogon (negotiated_appl_version_ l) (route_negotiated_ l) (msg_type_defaults_ l)
    (own_logon_sent_reset_flag_ l) (peer_advertised_max_message_size_ l) None (liveness_counter_ l).
Definition clear_cb_threw (f : fsm_part) : fsm_part :=
  mkFsm (fsm_state_ f) (fsm_visit_history_ f) (fsm_visit_count_ f) (fsm_visit_write_idx_ f)
    (reached_active_ f) (onLogon_fired_ f) (onLogout_fired_ f) false.

Definition text_posture_mismatch : bytes := bytes_of "TestMessageIndicator posture mismatch".

(** [derive_logon_fixt_fields] *)
Record logon_fixt_fields := mkFixtFields {
  ff_default_appl_ver_id : option application_version;
  ff_username : option bytes;
  ff_password : option bytes;
}.
Definition derive_logon_fixt_fields (c : SessionConfig) : logon_fixt_fields :=
  if negb (is_fixt c) then mkFixtFields None None None
  else mkFixtFields (cfg_default_appl_ver_id c) (cfg_username c) (cfg_password c).

Definition is_strict (p : reset_seqnum_policy) : bool :=
  match p with bilateral_strict => true | _ => false end.

Section Logon.
Context {St SE : Type} `{MessageStore St SE, !SlotRetrieval St SE} (w : world St SE).
Context (cfg : SessionConfig) (has_clock has_application : bool).
Context (rt : routing) (inbound_entry_cap_ : Z).
Context (close_flush_hook_a1_ : option (SE -> St -> St * result error unit)).
(** [store_->reset_to] *)
Context (reset_to : SE -> seqnum_t -> seqnum_t -> St -> St * result error unit).
(** The configured policy: which principal of the peer with a leaf fingerprint may assert a
    CompID, and whether the Logon's credentials pass. *)
Context (authorize : bytes -> bytes -> result error principal_source).
Context (authorize_logon : bytes -> option bytes -> option bytes -> bool).

Notation hooks := (inbound_hooks rt).
Notation disconnect := (record_state_transition_ w has_application Disconnected).
Notation disconnect_unless arm := (disconnect_unless_superseded_ w has_application (Some arm)).
Notation stamp := (stamp w cfg has_clock).
Notation reject_leaf := (inbound_reject_leaf_ w cfg has_clock has_application rt).
Notation close_terminal :=
  (co_await w (close w cfg has_clock has_application hooks close_flush_hook_a1_ false terminal)).

(** [if (logon_arm_superseded_(arm)) co_return {}] *)
Definition unless_superseded (arm : fsm_state) (k : M St (result error unit)) : M St (result error unit) :=
  let! sup := get (logon_arm_superseded_ arm) in
  if sup : bool then ret (Ok tt) else k.

Definition establishment_frame_refused_ (route : inbound_route) (hdr : FrameHeader) : bool :=
  fixt_routing_ rt && cfg_validate_inbound_messages cfg &&
  (ir_application route || negb (bool_decide (msg_type hdr = fault_ref_msg_type hdr))).

Definition logon_reject_disconnects_ (hdr : FrameHeader) (ref_tag_id : Z) : bool :=
  fixt_routing_ rt && is_type 65 hdr &&
  ((ref_tag_id =? 1137) || (ref_tag_id =? 1130) || (ref_tag_id =? 372)).

(** [interpret_logon]; what the run does past an overflow of an [int] is the world's. *)
Definition interpret_frame (frame : bytes) : M St (result error logon_interpret_result) :=
  match interpret_logon frame (cfg_target_comp_id cfg) (cfg_sender_comp_id cfg) (cfg_begin_string cfg)
          (interpret_logon_hooks rt) with
  | Some r => ret r
  | None => ask (w_undefined w)
  end.

(** ** What both arms do first *)

Definition establishment_validation (frame : bytes) (hdr : FrameHeader) (route : inbound_route)
  : M St InboundValidation :=
  if cfg_validate_inbound_messages cfg &&
     bool_decide (is_Some (match session_route_ rt with Some e => re_validator e | None => None end)) &&
     negb (is_type 51 hdr || is_type 53 hdr)
  then validate_inbound_ w inbound_entry_cap_ frame route else ret validation_pass.

(** The frame's gates up to a read Logon; [k] is the arm's own part. *)
Definition logon_gates (arm : fsm_state) (frame : bytes)
    (k : FrameHeader -> logon_interpret_result -> M St (result error unit)) : M St (result error unit) :=
  let! l := get s_logon in
  let route := select_route_ rt (route_negotiated_ l) (msg_type_defaults_ l) frame true in
  let hdr := scan_frame_header frame (route_hooks route) in
  if negb (msg_type_is_third hdr) then
    note_garbles w cfg has_clock (header_out_of_order_garble frame) ;; ret (Ok tt)
  else
    unless_superseded arm (
      match fault hdr with
      | malformed_tag | length_data_mismatch =>
          co_await w (dispose_unparseable_ w cfg has_clock has_application rt hdr arm)
      | fault_none =>
          if establishment_frame_refused_ route hdr then disconnect ;; ret (Ok tt)
          else
            let! v := establishment_validation frame hdr route in
            match v with
            | validation_parse_failed =>
                co_await w (close_on_late_parse_failure_ w cfg has_clock has_application rt close_flush_hook_a1_)
            | validation_reject d =>
                let! rj := co_await w (emit_session_reject_with w cfg has_clock has_application hooks
                             (parse_seqnum (msg_seq_num hdr)) (msg_type hdr) (reason d) (ref_tag_id d) []
                             (Some arm)) in
                (if is_ok rj && logon_reject_disconnects_ hdr (ref_tag_id d)
                 then disconnect_unless arm else ret tt) ;;
                ret rj
            | validation_pass =>
                let! result := interpret_frame frame in
                match result with
                | Err _ => disconnect ;; ret (Ok tt)
                | Ok r => k hdr r
                end
            end
      end).

Definition posture_refused (hdr : FrameHeader) : bool :=
  match cfg_posture cfg with
  | Some p => should_refuse_posture p (test_message_indicator hdr)
  | None => false
  end.

(** The Logon's number; a number too high is let on when 789 is in use. *)
Definition logon_number (seq : seqnum_t) (k : bool -> M St (result error unit)) : M St (result error unit) :=
  let! chk := with_mgr w (fun l => check_inbound l seq) in
  match chk with
  | Ok _ => k true
  | Err e =>
      if cfg_enable_next_expected_msg_seq_num cfg && bool_decide (e = session_seqnum_too_high)
      then k false else disconnect ;; ret (Ok tt)
  end.

(** What [logon_appl_version_] refuses is answered with a Reject, and disconnects. *)
Definition refuse_appl_version (hdr : FrameHeader) (refusal : logon_group_refusal) (arm : fsm_state)
  : M St (result error unit) :=
  let! st52 := stamp in
  then_ (reject_leaf (parse_seqnum (msg_seq_num hdr)) (lgr_ref_tag refusal) [65] (lgr_reason refusal) st52
           (Some arm))
    (disconnect_unless arm ;; ret (Ok tt)).

Definition appl_version_of (frame : bytes) (r : logon_interpret_result)
  : result logon_group_refusal application_version :=
  logon_appl_version_ (default (fun _ => false) (app_version_registry_ rt)) (cfg_validate_inbound_messages cfg)
    (lr_default_appl_ver_id r) frame (re_hooks (transport_route_ rt)).

Definition record_defaults (frame : bytes) : M St unit :=
  modify (upd_logon (set_defaults (record_msg_type_defaults_ frame (re_hooks (transport_route_ rt))))).

Definition is_mtls : bool :=
  match cfg_security_kind cfg with mtls_ca | mtls_pinned => true | _ => false end.

(** The peer's certificate against the CompID it asserts. *)
Definition bind_identity (k : M St (result error unit)) : M St (result error unit) :=
  let asserted := cfg_target_comp_id cfg in
  let failed := modify (upd_events (emit_event (session_event_compid_authorization_failed [] asserted [] CN))) in
  let! peer := get (fun s => live_peer_id_ (s_logon s)) in
  if negb is_mtls then k
  else
    match peer with
    | None => failed ;; disconnect ;; ret (Ok tt)
    | Some fingerprint =>
        match authorize fingerprint asserted with
        | Err _ => failed ;; modify (upd_logon take_peer_id) ;; disconnect ;; ret (Ok tt)
        | Ok from =>
            modify (upd_events (emit_event
              (session_event_peer_identity_bound [] [] fingerprint [] asserted from))) ;;
            modify (upd_logon take_peer_id) ;; k
        end
    end.

(** The reset a peer's ResetSeqNumFlag asks for; a persistent store's failure counts. *)
Definition reset_unit (unit_in unit_out : seqnum_t) (arm : fsm_state) (k : M St (result error unit))
  : M St (result error unit) :=
  let! u := co_await w (run_reset_unit_ w reset_to unit_in unit_out) in
  let! persistent := get (fun s => store_is_persistent_ (s_store s)) in
  match ru_manager u, ru_store u with
  | Err e, _ => disconnect_unless arm ;; ret (Err e)
  | Ok _, Err e => if persistent : bool then disconnect_unless arm ;; ret (Err e) else k
  | Ok _, Ok _ => k
  end.

(** [honor_peer_next_expected_] where the peer sent 789 and it is in use. *)
Definition honor_789 (hdr : FrameHeader) (reference : seqnum_t) (arm : fsm_state)
    (k : M St (result error unit)) : M St (result error unit) :=
  if cfg_enable_next_expected_msg_seq_num cfg && next_expected_present hdr then
    let! h789 := co_await w (honor_peer_next_expected_ w cfg has_clock has_application hooks
                   (next_expected_msg_seq_num hdr) reference arm) in
    match h789 with
    | Err e => ret (Err e)
    | Ok in_sync_continue => k
    | Ok _ => ret (Ok tt)
    end
  else k.

(** [record_state_transition_(Active)], and the close when onLogon threw. *)
Definition become_active (k : M St (result error unit)) : M St (result error unit) :=
  record_state_transition_ w has_application Active ;;
  let! threw := get (fun s => lifecycle_cb_threw_ (s_fsm s)) in
  if threw : bool then
    modify (upd_fsm clear_cb_threw) ;;
    let! r := close_terminal in ret (Err app_callback_threw)
  else k.

Definition persist_if (c : bool) (k : M St (result error unit)) : M St (result error unit) :=
  if c then
    let! r := co_await w (persist_inbound_advance_ w has_application (Some Active)) in
    match r with Err e => ret (Err e) | Ok _ => k end
  else k.

(** The liveness loop starts. *)
Definition spawn_liveness : M St unit :=
  modify (upd_logon (fun l => set_liveness (liveness_counter_ l + 1) l)).

Definition mark_inbound : M St unit :=
  if has_clock then let! now := steady_now w in modify (upd_live (set_last_inbound now)) else ret tt.

(** ** The acceptor *)

(** The reply Logon; answers the number it took. *)
Definition inbound_acceptor_reply_logon_leaf_ (peer_sent_reset : bool) (heartbt_sec : Z)
    (reply_sending_time : bytes) (k : seqnum_t -> M St (result error unit)) : M St (result error unit) :=
  let! reply_seq := get (fun s => peek_outbound (seqnum_mgr_ s)) in
  let! next_in := get (fun s => next_inbound_ (seqnum_mgr_ s)) in
  let fixt := derive_logon_fixt_fields cfg in
  let acpt_reset_seqnum :=
    match cfg_reset_seqnum_policy cfg with bilateral_strict | bilateral_lenient => peer_sent_reset | unilateral => false end in
  match build_logon (replicate 256 0) reply_seq (cfg_sender_comp_id cfg) (cfg_target_comp_id cfg)
          (cfg_begin_string cfg) heartbt_sec reply_sending_time acpt_reset_seqnum
          (if cfg_enable_next_expected_msg_seq_num cfg then Some next_in else None)
          (ff_default_appl_ver_id fixt) (ff_username fixt) (ff_password fixt)
          (AdvertiseOptions (cfg_advertised_max_message_size cfg)
             (match cfg_posture cfg with Some test => true | _ => false end) (cfg_supported_msg_types cfg)) with
  | Err e => disconnect_with w has_application e
  | Ok frame =>
      let! a := with_mgr w assign_outbound in
      match a with
      | Err e => disconnect_with w has_application e
      | Ok _ =>
          after_to_admin w has_application rt frame (
            let! r := co_await w (store_then_emit w has_clock has_application hooks reply_seq frame
                                    (Some LogonReceived) true) in
            match r with
            | Err e => disconnect_unless LogonReceived ;; ret (Err e)
            | Ok _ => k reply_seq
            end)
      end
  end.

(** From the reply on. *)
Definition acceptor_finish (hdr : FrameHeader) (peer_sent_reset inbound_advanced : bool) (n_pre : seqnum_t)
  : M St (result error unit) :=
  unless_superseded LogonReceived (
  honor_789 hdr n_pre LogonReceived (
  unless_superseded LogonReceived (
    mark_inbound ;;
    become_active (
    persist_if (inbound_advanced && negb peer_sent_reset && negb (cfg_reset_on_logon cfg)) (
    unless_superseded Active (
      spawn_liveness ;; ret (Ok tt))))))).

(** The reset a peer asked for, the event, and the reply. *)
Definition acceptor_answer (hdr : FrameHeader) (peer_sent_reset inbound_advanced : bool)
  : M St (result error unit) :=
  record_state_transition_ w has_application LogonReceived ;;
  let! reply_time := stamp in
  let heartbt_sec := match cfg_heartbeat_interval cfg with Some h => i32 h | None => 30 end in
  let reply :=
    unless_superseded LogonReceived (
      (if cfg_reset_on_logon cfg || peer_sent_reset
       then modify (upd_events (emit_event (session_event_sequence_numbers_reset peer_sent_reset)))
       else ret tt) ;;
      inbound_acceptor_reply_logon_leaf_ peer_sent_reset heartbt_sec reply_time
        (acceptor_finish hdr peer_sent_reset inbound_advanced)) in
  if peer_sent_reset && negb (cfg_reset_on_logon cfg) then
    reset_unit (if inbound_advanced then seqnum_min + 1 else seqnum_min) seqnum_min LogonReceived reply
  else reply.

(** Who the peer is, the version it asks for, and its credentials. *)
Definition acceptor_authorize (frame : bytes) (hdr : FrameHeader) (r : logon_interpret_result)
    (k : M St (result error unit)) : M St (result error unit) :=
  let credentials :=
    if authorize_logon (cfg_target_comp_id cfg) (lr_username r) (lr_password r) then k
    else disconnect ;; ret (Ok tt) in
  bind_identity (
    if is_fixt cfg && bool_decide (is_Some (app_version_registry_ rt)) then
      match appl_version_of frame r with
      | Ok version => modify (upd_logon (set_negotiated version)) ;; record_defaults frame ;; credentials
      | Err refusal => refuse_appl_version hdr refusal NotConnected
      end
    else credentials).

(** The SendingTime gate and the configured reset. *)
Definition acceptor_admit (hdr : FrameHeader) (k : M St (result error unit)) : M St (result error unit) :=
  let reset :=
    if cfg_reset_on_logon cfg then
      let! r := co_await w (reset_seqnums_to_one_durable w fatal) in
      match r with Err e => disconnect_unless NotConnected ;; ret (Err e) | Ok _ => k end
    else k in
  if has_clock then
    let! ok := inbound_sending_time_ok_ w cfg hdr in
    if ok : bool then reset
    else
      let! st52 := stamp in
      then_ (reject_leaf (parse_seqnum (msg_seq_num hdr)) 52 [65] 10 st52 (Some NotConnected))
        (disconnect_unless NotConnected ;; ret (Ok tt))
  else reset.

Definition on_inbound_not_connected_ (frame : bytes) : M St (result error unit) :=
  logon_gates NotConnected frame (fun hdr r =>
    modify (upd_logon (set_peer_max (parse_u32_opt (max_message_size hdr)))) ;;
    let seq := parse_seqnum (msg_seq_num hdr) in
    if seq =? 0 then disconnect ;; ret (Ok tt)
    else
      let peer_sent_reset := bool_decide (reset_seqnum_flag hdr = yes) in
      let withhold_inbound := peer_sent_reset || cfg_reset_on_logon cfg in
      let refresh_active := cfg_refresh_on_logon cfg && negb (is_strict (cfg_reset_seqnum_policy cfg)) in
      let! h_r := co_await w (ensure_hydrated_ w has_application (negb withhold_inbound) refresh_active
                                (Some NotConnected)) in
      match h_r with
      | Err e => ret (Err e)
      | Ok _ =>
          unless_superseded NotConnected (
            if posture_refused hdr then
              co_await w (refuse_logon_with_logout_ w cfg has_clock has_application hooks
                            text_posture_mismatch NotConnected)
            else
              acceptor_admit hdr (
              unless_superseded NotConnected (
              logon_number seq (fun inbound_advanced =>
                if negb peer_sent_reset && is_strict (cfg_reset_seqnum_policy cfg)
                then disconnect_with w has_application session_seqnum_reset_mismatch
                else
                  acceptor_authorize frame hdr r (
                    acceptor_answer hdr peer_sent_reset inbound_advanced)))))
      end).

(** ** The initiator *)

Definition inbound_logon_sent_logout_leaf_ (text sending_time : bytes) : M St (result error unit) :=
  let! lo_seq := get (fun s => peek_outbound (seqnum_mgr_ s)) in
  match build_logout (replicate 256 0) lo_seq (cfg_sender_comp_id cfg) (cfg_target_comp_id cfg)
          text (cfg_begin_string cfg) sending_time with
  | Err _ => ret (Ok tt)
  | Ok frame =>
      let! a := with_mgr w assign_outbound in
      match a with
      | Err e => disconnect_with w has_application e
      | Ok _ =>
          after_to_admin w has_application rt frame (
            let! r := co_await w (store_then_emit w has_clock has_application hooks lo_seq frame
                                    (Some LogonSent) true) in
            ret (Ok tt))
      end
  end.

(** What is wrong with the SendingTime, nothing when it is in the window. *)
Definition sending_time_error (hdr : FrameHeader) : M St bytes :=
  if negb has_clock then ret []
  else if zlen (sending_time hdr) =? 0 then ret (bytes_of "SendingTime(52) missing")
  else
    match fix_string_to_utc_time (sending_time hdr) with
    | Err _ => ret (bytes_of "SendingTime(52) malformed")
    | Ok t =>
        let! now := ask (w_now w) in
        ret (if is_ok (check_sending_time t now (max_latency cfg)) then []
             else bytes_of "SendingTime(52) accuracy")
    end.

Definition initiator_finish (frame : bytes) (hdr : FrameHeader) (r : logon_interpret_result)
    (inbound_advanced peer_reset : bool) : M St (result error unit) :=
  modify (upd_logon (set_route_negotiated av_Unknown)) ;;
  (if fixt_routing_ rt then record_defaults frame else ret tt) ;;
  match is_fixt cfg, lr_default_appl_ver_id r with
  | true, Some v =>
      match resolve_ref_appl_ver_id v with
      | Ok version => modify (upd_logon (set_negotiated version))
      | Err _ => ret tt
      end
  | _, _ => ret tt
  end ;;
  let! peek := get (fun s => peek_outbound (seqnum_mgr_ s)) in
  honor_789 hdr peek LogonSent (
  unless_superseded LogonSent (
    become_active (
    persist_if (inbound_advanced && negb peer_reset) (
    unless_superseded Active (
      mark_inbound ;; spawn_liveness ;; ret (Ok tt)))))).

(** The peer's ResetSeqNumFlag: a reset answered, or one asked for. *)
Definition initiator_reset (peer_reset inbound_advanced : bool) (k : M St (result error unit))
  : M St (result error unit) :=
  if negb peer_reset && is_strict (cfg_reset_seqnum_policy cfg)
  then disconnect_with w has_application session_seqnum_reset_mismatch
  else if peer_reset then
    let! own := get (fun s => own_logon_sent_reset_flag_ (s_logon s)) in
    modify (upd_logon (set_own_reset_flag false)) ;;
    let! n_pre := get (fun s => peek_outbound (seqnum_mgr_ s)) in
    reset_unit (if inbound_advanced then seqnum_min + 1 else seqnum_min)
      (if own && (n_pre =? seqnum_min + 1) then seqnum_min + 1 else seqnum_min) LogonSent (
    unless_superseded LogonSent (
      modify (upd_events (emit_event (session_event_sequence_numbers_reset (negb own)))) ;; k))
  else k.

Definition on_inbound_logon_sent_ (frame : bytes) : M St (result error unit) :=
  logon_gates LogonSent frame (fun hdr r =>
    if posture_refused hdr then
      co_await w (refuse_logon_with_logout_ w cfg has_clock has_application hooks text_posture_mismatch LogonSent)
    else
      modify (upd_logon (set_peer_max (parse_u32_opt (max_message_size hdr)))) ;;
      let! text := sending_time_error hdr in
      if negb (zlen text =? 0) then
        let! st52 := stamp in
        then_ (inbound_logon_sent_logout_leaf_ text st52) (disconnect_unless LogonSent ;; ret (Ok tt))
      else
        let seq := parse_seqnum (msg_seq_num hdr) in
        if seq =? 0 then disconnect ;; ret (Ok tt)
        else
          logon_number seq (fun inbound_advanced =>
            let go :=
              let peer_reset := bool_decide (reset_seqnum_flag hdr = yes) in
              initiator_reset peer_reset inbound_advanced (
              bind_identity (
              initiator_finish frame hdr r inbound_advanced peer_reset)) in
            if fixt_routing_ rt && cfg_validate_inbound_messages cfg then
              match appl_version_of frame r with
              | Err refusal => refuse_appl_version hdr refusal LogonSent
              | Ok _ => go
              end
            else go)).

(** ** Every state *)

Definition on_inbound_cold_ (frame : bytes) : M St (result error unit) :=
  let! st := get (fun s => fsm_state_ (s_fsm s)) in
  match st with
  | NotConnected => on_inbound_not_connected_ frame
  | LogoutSent => on_inbound_logout_sent_ w cfg has_clock has_application rt frame
  | LogonSent => on_inbound_logon_sent_ frame
  | LogonReceived | Active | Disconnected => ret (Ok tt)
  end.

(** The arm of a frame that entered a Logon arm was overtaken by a close or a stop. *)
Definition arm_superseded (entered : fsm_state) (s : Session St) : bool :=
  (fsm_is entered NotConnected || fsm_is entered LogonSent) &&
  (bool_decide (state_ (s_close s) = closing) || bool_decide (state_ (s_close s) = closed_drained) ||
   engine_stop_requested_ (s_close s)).

Definition dispatch_frame (entered : fsm_state) (frame : bytes) : M St (result error unit) :=
  if fixt_routes_unbound_ rt then ret (Ok tt)
  else
    let! st := get (fun s => fsm_state_ (s_fsm s)) in
    if fsm_is st LogonReceived || fsm_is st Active then
      on_inbound_logged_on w cfg has_clock has_application rt inbound_entry_cap_ close_flush_hook_a1_ frame
    else
      let! r := on_inbound_cold_ frame in
      let! sup := get (arm_superseded entered) in
      ret (match r with
           | Err e => if bool_decide (e = store_cancelled) && sup then Ok tt else r
           | Ok _ => r
           end).

(** [on_inbound_active_]: an exception ends the session, unless the arm was overtaken. *)
Definition on_inbound_active_ (frame : bytes) : M St (result error unit) :=
  let! entered := get (fun s => fsm_state_ (s_fsm s)) in
  catch (dispatch_frame entered frame)
    (fun cancelled =>
       let! sup := get (arm_superseded entered) in
       (if negb sup then disconnect_once w has_application else ret tt) ;;
       ret (if cancelled then if sup : bool then Ok tt else Err store_cancelled
            else Err dispatch_aborted)).

Definition on_inbound_frame (frame : bytes) : M St (result error unit) := on_inbound_active_ frame.
End Logon.
