(* ===== verification/SessionKeeps.v ===== *)
(** What every session operation preserves: a relation that no step of the session breaks
    but entering Active and handing a frame to the application is kept by every operation
    that does neither. *)
From S2P Require Import Prelude Errors FixTime TagScan LengthData VersionProfile Writer Framer FrameHeader.
From S2P Require Import OffsetTable Credentials Seqnum MessageStore AdminMessages SessionState SessionCore.
From S2P Require Import Routing Replay SessionClose InboundActive InboundLogon.

(** The frame goes into the application's inbound callbacks. *)
Definition delivers (e : effect) : bool :=
  match e with FromAdmin _ | FromApp _ => true | _ => false end.

(** Leaves the peer's identity alone, or consumes it. *)
Definition spares_peer (f : logon_part -> logon_part) : Prop :=
  forall l, live_peer_id_ (f l) = live_peer_id_ l \/ live_peer_id_ (f l) = None.

Class session_relation {St SE : Type} (w : world St SE) (R : relation (Session St)) : Prop := {
  rel_preorder :: PreOrder R;
  rel_tick s : R s (upd_tick s);
  rel_events f s : R s (upd_events f s);
  rel_close f s : R s (upd_close f s);
  rel_store f s : R s (upd_store f s);
  rel_mgr f s : R s (upd_mgr f s);
  rel_reconnect f s : R s (upd_reconnect f s);
  rel_live f s : R s (upd_live f s);
  rel_logon f s : spares_peer f -> R s (upd_logon f s);
  rel_enter x s : x <> Active -> R s (upd_fsm (enter_state x) s);
  rel_flags a b s : R s (upd_fsm (set_lifecycle_flags a b) s);
  rel_threw s : R s (upd_fsm set_cb_threw s);
  rel_threw' s : R s (upd_fsm clear_cb_threw s);
  rel_emit e s : delivers e = false -> R s (upd_trace e s);
  rel_other n s : R s (w_other w n s);
}.

Section Keeps.
Context {St SE : Type} `{MessageStore St SE, !SlotRetrieval St SE} (w : world St SE).
Context (R : relation (Session St)) `{!session_relation w R}.

Lemma keeps_tick {A} (f : nat -> A) : keeps R (ask f).
Proof. apply keeps_ask. intros. apply rel_tick. Qed.
Lemma keeps_suspended : keeps R (suspend w).
Proof. intros s. unfold suspend. cbn. etransitivity; [apply (rel_other (w := w))|apply rel_tick]. Qed.
Lemma keeps_awaited {A} (m : M St A) : keeps R m -> keeps R (co_await w m).
Proof. apply keeps_co_await; [typeclasses eauto|]. intros. apply rel_tick. Qed.
Lemma keeps_numbers {A} (op : bool -> SeqnumManager -> SeqnumManager * result error A) :
  keeps R (with_mgr w op).
Proof. apply keeps_mgr; [typeclasses eauto|intros; apply rel_tick|]. intros. apply rel_mgr. Qed.
Lemma keeps_effect e : delivers e = false -> keeps R (emit e).
Proof. intros He. apply keeps_emit. intros. by apply rel_emit. Qed.
End Keeps.

#[export] Instance shield_relation {St SE} (w : world St SE) R : session_relation w R -> session_relation (shield w) R.
Proof. intros []. constructor; assumption. Qed.

Lemma keeps_logon {St SE} (w : world St SE) R `{!session_relation w R} f : spares_peer f -> keeps R (modify (upd_logon f)).
Proof. intros. apply keeps_modify. intros. by apply (rel_logon (w := w)). Qed.

Ltac keeps_leaf :=
  lazymatch goal with
  | |- keeps _ (ask _) => apply (keeps_tick _ _)
  | |- keeps _ (suspend _) => apply keeps_suspended; assumption
  | |- keeps _ (co_await _ _) => apply keeps_awaited; [assumption|]
  | |- keeps _ (with_mgr _ _) => apply keeps_numbers; assumption
  | |- keeps _ (emit _) => apply (keeps_effect _ _); reflexivity
  | |- keeps _ (modify (upd_events _)) => apply keeps_modify; intros; apply rel_events
  | |- keeps _ (modify (upd_close _)) => apply keeps_modify; intros; apply rel_close
  | |- keeps _ (modify (upd_store _)) => apply keeps_modify; intros; apply rel_store
  | |- keeps _ (modify (upd_mgr _)) => apply keeps_modify; intros; apply rel_mgr
  | |- keeps _ (modify (upd_reconnect _)) => apply keeps_modify; intros; apply rel_reconnect
  | |- keeps _ (modify (upd_live _)) => apply keeps_modify; intros; apply rel_live
  | |- keeps _ (modify (upd_logon _)) =>
      eapply keeps_logon; [eassumption|intros ?; (left; reflexivity) || (right; reflexivity)]
  end.

Create HintDb keeps.
Ltac keeps_ops := repeat first [keeps_leaf | keeps_step | solve [auto with keeps nocore]].

Section Operations.
Context {St SE : Type} `{MessageStore St SE, !SlotRetrieval St SE} (w : world St SE).
Context (R : relation (Session St)) `{!session_relation w R}.
Context (cfg : SessionConfig) (has_clock has_application : bool).

(** *** Calls *)

Lemma keeps_invoke e : delivers e = false -> keeps R (invoke_callback w e).
Proof. intros He. unfold invoke_callback. apply keeps_bind; [typeclasses eauto|by apply (keeps_effect w R)|intros]. keeps_ops. Qed.
#[local] Hint Resolve keeps_invoke : keeps.

Lemma keeps_store_op {A} (op : SE -> St -> St * result error A) done st :
  (forall e, done = Some e -> delivers e = false) -> keeps R (store_call w op done st).
Proof.
  intros Hd. unfold store_call. keeps_ops.
  apply (keeps_effect w R). by apply Hd.
Qed.

Lemma keeps_awaits_store {A} (op : SE -> St -> St * result error A) st : keeps R (store_await w op st).
Proof.
  unfold store_await. apply keeps_bind; [typeclasses eauto|by apply keeps_store_op|]. intros. keeps_ops.
Qed.
#[local] Hint Resolve keeps_awaits_store : keeps.

Lemma keeps_with_store {A} (op : SE -> St -> St * result error A) st : keeps R (with_store w op st).
Proof. apply keeps_awaits_store. Qed.
#[local] Hint Resolve keeps_with_store : keeps.

(** *** The core *)

Lemma keeps_enters x : (forall s, R s (upd_fsm (enter_state x) s)) -> keeps R (record_state_transition_ w has_application x).
Proof.
  intros Hx. unfold record_state_transition_. keeps_ops.
  - apply keeps_modify. intros. apply (rel_flags (w := w)).
  - apply keeps_invoke. done.
  - apply keeps_modify. intros. apply (rel_threw (w := w)).
  - apply keeps_modify. intros. apply (rel_flags (w := w)).
  - apply keeps_invoke. done.
Qed.

Lemma keeps_to x : x <> Active -> keeps R (record_state_transition_ w has_application x).
Proof. intros Hx. apply keeps_enters. intros. by apply (rel_enter (w := w)). Qed.
#[local] Hint Extern 1 (keeps _ (record_state_transition_ _ _ _)) => apply keeps_to; discriminate : keeps.

Lemma garble_record_kept hb now g p e : (note_garbles_ hb now g p).2 = Some e -> delivers e = false.
Proof. unfold note_garbles_. repeat case_match; intros [= <-]; done. Qed.

Lemma keeps_steady : keeps R (steady_now w).
Proof. unfold steady_now. keeps_ops. Qed.
#[local] Hint Resolve keeps_steady : keeps.

Lemma keeps_note g : keeps R (note_garbles w cfg has_clock g).
Proof.
  unfold note_garbles. apply keeps_bind; [typeclasses eauto|by keeps_ops|]. intros now s. unfold bind, get, modify.
  pose proof (garble_record_kept (cfg_heartbeat_interval cfg) now g (s_events s)) as Hg.
  destruct (note_garbles_ _ _ _ _) as [p [e|]]; cbn in *.
  - etransitivity; [apply (rel_events (w := w))|]. apply (rel_emit (w := w)). by apply Hg.
  - apply (rel_events (w := w)).
Qed.
#[local] Hint Resolve keeps_note : keeps.

Lemma keeps_stamp : keeps R (stamp w cfg has_clock).
Proof. unfold stamp. keeps_ops. Qed.
#[local] Hint Resolve keeps_stamp : keeps.

Lemma keeps_disconnect_once : keeps R (disconnect_once w has_application).
Proof. unfold disconnect_once. keeps_ops. Qed.
#[local] Hint Resolve keeps_disconnect_once : keeps.

Lemma keeps_disconnect_unless arm : keeps R (disconnect_unless_superseded_ w has_application arm).
Proof. unfold disconnect_unless_superseded_. keeps_ops. Qed.
#[local] Hint Resolve keeps_disconnect_unless : keeps.

Lemma keeps_observe hooks f cb : delivers cb = false -> keeps R (parse_and_dispatch_ w hooks f cb).
Proof. intros. unfold parse_and_dispatch_. keeps_ops. Qed.

Lemma keeps_to_admin hooks f : keeps R (fire_to_admin_ w has_application hooks f).
Proof. unfold fire_to_admin_. keeps_ops. by apply keeps_observe. Qed.
#[local] Hint Resolve keeps_to_admin : keeps.

Lemma keeps_write f : keeps R (live_write_serialized_ w f).
Proof. unfold live_write_serialized_. keeps_ops. Qed.
#[local] Hint Resolve keeps_write : keeps.

Lemma keeps_transmit f : keeps R (transmit w f).
Proof. unfold transmit. keeps_ops. Qed.
#[local] Hint Resolve keeps_transmit : keeps.

Lemma keeps_reconciles : keeps R (reconcile_outbound w).
Proof. unfold reconcile_outbound. keeps_ops. Qed.
#[local] Hint Resolve keeps_reconciles : keeps.

Lemma keeps_store_step seq data arm st : keeps R (store_step w has_application seq data arm st).
Proof.
  unfold store_step. apply keeps_bind; [typeclasses eauto| |intros; keeps_ops].
  apply keeps_store_op. by intros e [= <-].
Qed.
#[local] Hint Resolve keeps_store_step : keeps.

Lemma keeps_store_then_emit hooks seq f arm b : keeps R (store_then_emit w has_clock has_application hooks seq f arm b).
Proof. unfold store_then_emit. keeps_ops. Qed.
#[local] Hint Resolve keeps_store_then_emit : keeps.

Lemma keeps_reset_to_one d : keeps R (reset_seqnums_to_one_durable w d).
Proof. unfold reset_seqnums_to_one_durable. keeps_ops. Qed.
#[local] Hint Resolve keeps_reset_to_one : keeps.

Lemma keeps_hydrate b arm st : keeps R (hydrate_from_store w has_application b arm st).
Proof. unfold hydrate_from_store. keeps_ops. Qed.
#[local] Hint Resolve keeps_hydrate : keeps.

Lemma keeps_ensure a b arm : keeps R (ensure_hydrated_ w has_application a b arm).
Proof. unfold ensure_hydrated_. keeps_ops. Qed.
#[local] Hint Resolve keeps_ensure : keeps.

Lemma keeps_persist arm : keeps R (persist_inbound_advance_ w has_application arm).
Proof. unfold persist_inbound_advance_. keeps_ops. Qed.
#[local] Hint Resolve keeps_persist : keeps.

Lemma keeps_close_gap : keeps R (close_filled_resend_gap_ w has_clock).
Proof. unfold close_filled_resend_gap_. keeps_ops. Qed.
#[local] Hint Resolve keeps_close_gap : keeps.

Lemma keeps_consume n mt : keeps R (consume_rejected_seqnum_ w has_clock has_application n mt).
Proof. unfold consume_rejected_seqnum_. keeps_ops. Qed.
#[local] Hint Resolve keeps_consume : keeps.

Lemma keeps_reset_unit op a b : keeps R (run_reset_unit_ w op a b).
Proof. unfold run_reset_unit_. keeps_ops. Qed.
#[local] Hint Resolve keeps_reset_unit : keeps.

Lemma keeps_reject_emission hooks seq f arm k : (forall e, keeps R (k e)) ->
  keeps R (reject_emission w has_clock has_application hooks seq f arm k).
Proof. intros Hk. unfold reject_emission. keeps_ops. Qed.

Lemma keeps_reject_with hooks n mt r t x arm : keeps R (emit_session_reject_with w cfg has_clock has_application hooks n mt r t x arm).
Proof. unfold emit_session_reject_with. keeps_ops. apply keeps_reject_emission. intros. keeps_ops. Qed.
#[local] Hint Resolve keeps_reject_with : keeps.

Lemma keeps_reject hooks n mt : keeps R (emit_session_reject_ w cfg has_clock has_application hooks n mt).
Proof. unfold emit_session_reject_. keeps_ops. apply keeps_reject_emission. intros. keeps_ops. Qed.
#[local] Hint Resolve keeps_reject : keeps.

Lemma keeps_refuse_logon hooks x arm : keeps R (refuse_logon_with_logout_ w cfg has_clock has_application hooks x arm).
Proof. unfold refuse_logon_with_logout_. keeps_ops. Qed.
#[local] Hint Resolve keeps_refuse_logon : keeps.

Lemma keeps_sequence_reset hooks a b : keeps R (apply_inbound_sequence_reset w cfg has_clock has_application hooks a b).
Proof. unfold apply_inbound_sequence_reset. keeps_ops. apply keeps_reject_emission. intros. keeps_ops. Qed.
#[local] Hint Resolve keeps_sequence_reset : keeps.

Lemma keeps_set_cut : keeps R (set_cut w has_application).
Proof. unfold set_cut. keeps_ops. Qed.
#[local] Hint Resolve keeps_set_cut : keeps.

Lemma keeps_emit_logout hooks f n : keeps R (emit_logout w has_clock has_application hooks f n).
Proof. unfold emit_logout. keeps_ops. Qed.
#[local] Hint Resolve keeps_emit_logout : keeps.

Lemma keeps_phase1 hooks : keeps R (run_logout_phase1 w cfg has_clock has_application hooks).
Proof. unfold run_logout_phase1. keeps_ops. Qed.
#[local] Hint Resolve keeps_phase1 : keeps.

(** *** The resend walk *)

Lemma keeps_transmit_ok f : keeps R (transmit_ok w f).
Proof. unfold transmit_ok. keeps_ops. Qed.
#[local] Hint Resolve keeps_transmit_ok : keeps.

Lemma keeps_gapfill hooks t arm a n : keeps R (emit_gapfill w cfg has_application hooks t arm a n).
Proof. unfold emit_gapfill. keeps_ops. Qed.
#[local] Hint Resolve keeps_gapfill : keeps.

Lemma keeps_read_slot k : keeps R (read_slot w k).
Proof. unfold read_slot. keeps_ops. Qed.
#[local] Hint Resolve keeps_read_slot : keeps.

Lemma keeps_slot hooks k arm : keeps R (replay_slot w cfg has_clock hooks k arm).
Proof. unfold replay_slot. keeps_ops. Qed.
#[local] Hint Resolve keeps_slot : keeps.

Lemma keeps_walk hooks t arm e : forall fuel k g,
  keeps R (replay_walk w cfg has_clock has_application hooks fuel t arm e k g).
Proof. induction fuel as [|fuel IH]; intros k g; cbn [replay_walk]; keeps_ops; apply IH. Qed.
#[local] Hint Resolve keeps_walk : keeps.

Lemma keeps_last_stored : keeps R (last_stored w).
Proof. unfold last_stored. keeps_ops. Qed.
#[local] Hint Resolve keeps_last_stored : keeps.

Lemma keeps_range hooks a b c arm : keeps R (replay_outbound_range_ w cfg has_clock has_application hooks a b c arm).
Proof. unfold replay_outbound_range_. keeps_ops. Qed.
#[local] Hint Resolve keeps_range : keeps.

Lemma keeps_end_logout hooks x arm : keeps R (end_with_logout w cfg has_clock has_application hooks x arm).
Proof. unfold end_with_logout. keeps_ops. Qed.
#[local] Hint Resolve keeps_end_logout : keeps.

Lemma keeps_honor hooks x n arm : keeps R (honor_peer_next_expected_ w cfg has_clock has_application hooks x n arm).
Proof. unfold honor_peer_next_expected_. keeps_ops. Qed.
#[local] Hint Resolve keeps_honor : keeps.

(** *** Closing *)

Context (flush : option (SE -> St -> St * result error unit)).

Lemma keeps_close_transport : keeps R (close_transport (St := St)).
Proof. unfold close_transport. apply keeps_bind; [typeclasses eauto|by keeps_ops|]. intros [|]; [by apply (keeps_effect w R)|by keeps_ops]. Qed.
#[local] Hint Resolve keeps_close_transport : keeps.

Lemma keeps_close_phase1 hooks : keeps R (close_phase1 w cfg has_clock has_application hooks).
Proof. unfold close_phase1. keeps_ops. Qed.
#[local] Hint Resolve keeps_close_phase1 : keeps.

Lemma keeps_await_unit : keeps R (await_reset_unit w has_clock).
Proof. unfold await_reset_unit. keeps_ops. Qed.
#[local] Hint Resolve keeps_await_unit : keeps.
End Operations.

Section Closing.
Context {St SE : Type} `{MessageStore St SE, !SlotRetrieval St SE} (w : world St SE).
Context (R : relation (Session St)) `{!session_relation w R}.
Context (cfg : SessionConfig) (has_clock has_application : bool) (hooks : dict_hooks).
Context (flush : option (SE -> St -> St * result error unit)).

Lemma keeps_flush : keeps R (close_gracefully w cfg has_clock has_application hooks flush).
Proof.
  unfold close_gracefully. pose proof (keeps_close_phase1 w R cfg has_clock has_application hooks).
  keeps_ops. apply (keeps_awaits_store (shield w) R).
Qed.

Lemma keeps_teardown : keeps R (teardown_reset w cfg has_clock).
Proof.
  unfold teardown_reset. pose proof (keeps_await_unit w R has_clock). keeps_ops.
  apply (keeps_reset_to_one (shield w) R).
Qed.

Lemma keeps_close_open mode : keeps R (close_open w cfg has_clock has_application hooks flush mode).
Proof.
  unfold close_open. pose proof keeps_flush. pose proof keeps_teardown.
  pose proof (keeps_close_transport w R). pose proof (keeps_disconnect_once (shield w) R has_application). keeps_ops.
Qed.

Lemma keeps_close b mode : keeps R (close w cfg has_clock has_application hooks flush b mode).
Proof. unfold close. pose proof keeps_close_open. keeps_ops. Qed.
End Closing.

#[export] Hint Extern 1 (keeps _ (record_state_transition_ _ _ _)) => apply (keeps_to _ _); discriminate : keeps.
#[export] Hint Resolve keeps_invoke keeps_awaits_store keeps_with_store keeps_steady keeps_note
  keeps_stamp keeps_disconnect_once keeps_disconnect_unless keeps_to_admin keeps_write
  keeps_transmit keeps_reconciles keeps_store_step keeps_store_then_emit keeps_reset_to_one
  keeps_hydrate keeps_ensure keeps_persist keeps_close_gap keeps_consume keeps_reset_unit
  keeps_reject_with keeps_reject keeps_refuse_logon keeps_sequence_reset keeps_set_cut
  keeps_emit_logout keeps_phase1 keeps_transmit_ok keeps_gapfill keeps_read_slot keeps_slot
  keeps_walk keeps_last_stored keeps_range keeps_end_logout keeps_honor keeps_close_transport
  keeps_close_phase1 keeps_await_unit keeps_close : keeps.
