(* ===== verification/InboundKeeps.v ===== *)
(** The operations of the inbound handlers that neither hand a frame to the application nor
    enter Active, and what the others hand over ([SessionKeeps]'s relations). *)
From S2P Require Import Prelude Errors FixTime TagScan LengthData VersionProfile Writer Framer FrameHeader.
From S2P Require Import OffsetTable Seqnum MessageStore AdminMessages SessionState SessionCore.
From S2P Require Import Routing Replay SessionClose InboundActive InboundLogon SessionKeeps.

(** The combinators that pass a step's failure on. *)
Ltac unfold_arms :=
  unfold disconnect_with, after_to_admin, persisted, consumed, then_, unless_expired, after_callback,
    unless_superseded, persist_if.
Ltac arm_ops := unfold_arms; keeps_ops.

Section Silent.
Context {St SE : Type} `{MessageStore St SE, !SlotRetrieval St SE} (w : world St SE).
Context (R : relation (Session St)) `{!session_relation w R}.
Context (cfg : SessionConfig) (has_clock has_application : bool) (rt : routing) (cap : Z).
Context (flush : option (SE -> St -> St * result error unit)).
Context (reset_to : SE -> seqnum_t -> seqnum_t -> St -> St * result error unit).
Context (authorize : bytes -> bytes -> result error principal_source).
Context (authorize_logon : bytes -> option bytes -> option bytes -> bool).

Lemma keeps_disconnect_with {A} e : keeps R (disconnect_with (A := A) w has_application e).
Proof. unfold disconnect_with. arm_ops. Qed.
#[local] Hint Resolve keeps_disconnect_with : keeps.

Lemma keeps_validate f route : keeps R (validate_inbound_ w cap f route).
Proof. unfold validate_inbound_. arm_ops. Qed.
#[local] Hint Resolve keeps_validate : keeps.

Lemma keeps_late_parse : keeps R (close_on_late_parse_failure_ w cfg has_clock has_application rt flush).
Proof. unfold close_on_late_parse_failure_. arm_ops. Qed.
#[local] Hint Resolve keeps_late_parse : keeps.

Lemma keeps_reject_leaf n t mt r st arm : keeps R (inbound_reject_leaf_ w cfg has_clock has_application rt n t mt r st arm).
Proof. unfold inbound_reject_leaf_. arm_ops. Qed.
#[local] Hint Resolve keeps_reject_leaf : keeps.

Lemma keeps_best_effort n mt st : keeps R (inbound_reject_best_effort_leaf_ w cfg has_clock has_application rt n mt st).
Proof. unfold inbound_reject_best_effort_leaf_. arm_ops. Qed.
#[local] Hint Resolve keeps_best_effort : keeps.

Lemma keeps_logout_leaf st t : keeps R (inbound_logout_leaf_ w cfg has_clock has_application rt st t).
Proof. unfold inbound_logout_leaf_. arm_ops. Qed.
#[local] Hint Resolve keeps_logout_leaf : keeps.

Lemma keeps_resend_leaf n st : keeps R (inbound_resend_request_leaf_ w cfg has_clock has_application rt n st).
Proof. unfold inbound_resend_request_leaf_. arm_ops. Qed.
#[local] Hint Resolve keeps_resend_leaf : keeps.

Lemma keeps_heartbeat_leaf x st : keeps R (inbound_heartbeat_reply_leaf_ w cfg has_clock has_application rt x st).
Proof. unfold inbound_heartbeat_reply_leaf_. arm_ops. Qed.
#[local] Hint Resolve keeps_heartbeat_leaf : keeps.

Lemma keeps_verdict e : delivers e = false -> keeps R (invoke_verdict w e).
Proof. intros He. unfold invoke_verdict. apply keeps_bind; [typeclasses eauto|by apply (keeps_effect w R)|intros]. keeps_ops. Qed.

Lemma keeps_dispatch_out f : keeps R (dispatch_outbound w rt f (ToApp f)).
Proof. unfold dispatch_outbound. keeps_ops. by apply keeps_verdict. Qed.
#[local] Hint Resolve keeps_dispatch_out : keeps.

Lemma keeps_business_leaf n mt st : keeps R (inbound_business_reject_leaf_ w cfg has_clock has_application rt flush n mt st).
Proof. unfold inbound_business_reject_leaf_. arm_ops. Qed.
#[local] Hint Resolve keeps_business_leaf : keeps.

Lemma keeps_gap_deadline hdr : keeps R (resend_gap_deadline_ w cfg has_clock has_application rt hdr).
Proof. unfold resend_gap_deadline_. arm_ops. Qed.
#[local] Hint Resolve keeps_gap_deadline : keeps.

Lemma keeps_answer_pending x : keeps R (answer_pending_test_request_ w has_application x).
Proof. unfold answer_pending_test_request_. arm_ops. Qed.
#[local] Hint Resolve keeps_answer_pending : keeps.

Lemma keeps_time_ok hdr : keeps R (inbound_sending_time_ok_ w cfg hdr).
Proof. unfold inbound_sending_time_ok_. arm_ops. Qed.
#[local] Hint Resolve keeps_time_ok : keeps.

Lemma keeps_dispose hdr st : keeps R (dispose_unparseable_ w cfg has_clock has_application rt hdr st).
Proof. unfold dispose_unparseable_. destruct st; arm_ops. Qed.
#[local] Hint Resolve keeps_dispose : keeps.

(** *** The arms *)

Lemma keeps_validate_failed hdr v : keeps R (on_inbound_active_validate_failed_ w cfg has_clock has_application rt flush hdr v).
Proof. unfold on_inbound_active_validate_failed_. arm_ops. Qed.
#[local] Hint Resolve keeps_validate_failed : keeps.

Lemma keeps_reject_logout n t mt : keeps R (reject_and_logout w cfg has_clock has_application rt n t mt).
Proof. unfold reject_and_logout. arm_ops. Qed.
#[local] Hint Resolve keeps_reject_logout : keeps.

Lemma keeps_time_reject hdr : keeps R (on_inbound_active_sending_time_reject_ w cfg has_clock has_application rt hdr).
Proof. unfold on_inbound_active_sending_time_reject_. arm_ops. Qed.
#[local] Hint Resolve keeps_time_reject : keeps.

Lemma keeps_too_high hdr a b : keeps R (on_inbound_active_too_high_ w cfg has_clock has_application rt hdr a b).
Proof. unfold on_inbound_active_too_high_. arm_ops. Qed.
#[local] Hint Resolve keeps_too_high : keeps.

Lemma keeps_reject_orig hdr : keeps R (reject_orig_sending_time w cfg has_clock has_application rt hdr).
Proof. unfold reject_orig_sending_time. arm_ops. Qed.
#[local] Hint Resolve keeps_reject_orig : keeps.

Lemma keeps_poss_dup hdr : keeps R (on_inbound_active_poss_dup_ w cfg has_clock has_application rt hdr).
Proof. unfold on_inbound_active_poss_dup_. arm_ops. Qed.
#[local] Hint Resolve keeps_poss_dup : keeps.

Lemma keeps_admin_failed hdr r : keeps R (on_inbound_active_from_admin_failed_ w cfg has_clock has_application rt flush hdr r).
Proof. unfold on_inbound_active_from_admin_failed_. arm_ops. Qed.
#[local] Hint Resolve keeps_admin_failed : keeps.

Lemma keeps_test_request hdr : keeps R (on_inbound_active_test_request_ w cfg has_clock has_application rt hdr).
Proof. unfold on_inbound_active_test_request_. arm_ops. Qed.
#[local] Hint Resolve keeps_test_request : keeps.

Lemma keeps_resend_request hdr : keeps R (on_inbound_active_resend_request_ w cfg has_clock has_application rt hdr).
Proof. unfold on_inbound_active_resend_request_. arm_ops. Qed.
#[local] Hint Resolve keeps_resend_request : keeps.

Lemma keeps_unsupported hdr : keeps R (on_inbound_active_unsupported_ w cfg has_clock has_application rt hdr).
Proof. unfold on_inbound_active_unsupported_. arm_ops. Qed.
#[local] Hint Resolve keeps_unsupported : keeps.

Lemma keeps_app_failed hdr r : keeps R (on_inbound_active_from_app_failed_ w cfg has_clock has_application rt flush hdr r).
Proof. unfold on_inbound_active_from_app_failed_. arm_ops. Qed.
#[local] Hint Resolve keeps_app_failed : keeps.

Lemma keeps_logout_sent f : keeps R (on_inbound_logout_sent_ w cfg has_clock has_application rt f).
Proof. unfold on_inbound_logout_sent_. arm_ops. Qed.
#[local] Hint Resolve keeps_logout_sent : keeps.

(** *** Establishing *)

Lemma keeps_interpret f : keeps R (interpret_frame w cfg rt f).
Proof. unfold interpret_frame. arm_ops. Qed.
#[local] Hint Resolve keeps_interpret : keeps.

Lemma keeps_establishment f hdr route : keeps R (establishment_validation w cfg rt cap f hdr route).
Proof. unfold establishment_validation. arm_ops. Qed.
#[local] Hint Resolve keeps_establishment : keeps.

Lemma keeps_refuse_version hdr r arm : keeps R (refuse_appl_version w cfg has_clock has_application rt hdr r arm).
Proof. unfold refuse_appl_version. arm_ops. Qed.
#[local] Hint Resolve keeps_refuse_version : keeps.

Lemma keeps_defaults f : keeps R (record_defaults (St := St) rt f).
Proof. unfold record_defaults. arm_ops. Qed.
#[local] Hint Resolve keeps_defaults : keeps.

Lemma keeps_reply_leaf a b c k : (forall n, keeps R (k n)) -> keeps R (inbound_acceptor_reply_logon_leaf_ w cfg has_clock has_application rt a b c k).
Proof. intros. unfold inbound_acceptor_reply_logon_leaf_. arm_ops. Qed.
#[local] Hint Resolve keeps_reply_leaf : keeps.

Lemma keeps_sent_logout a b : keeps R (inbound_logon_sent_logout_leaf_ w cfg has_clock has_application rt a b).
Proof. unfold inbound_logon_sent_logout_leaf_. arm_ops. Qed.
#[local] Hint Resolve keeps_sent_logout : keeps.

Lemma keeps_time_error hdr : keeps R (sending_time_error w cfg has_clock hdr).
Proof. unfold sending_time_error. arm_ops. Qed.
#[local] Hint Resolve keeps_time_error : keeps.

Lemma keeps_mark : keeps R (mark_inbound w has_clock).
Proof. unfold mark_inbound. arm_ops. Qed.
#[local] Hint Resolve keeps_mark : keeps.

Lemma keeps_spawn : keeps R (spawn_liveness (St := St)).
Proof. unfold spawn_liveness. arm_ops. Qed.
#[local] Hint Resolve keeps_spawn : keeps.

End Silent.

#[export] Hint Resolve keeps_disconnect_with keeps_validate keeps_late_parse keeps_reject_leaf
  keeps_best_effort keeps_logout_leaf keeps_resend_leaf keeps_heartbeat_leaf keeps_dispatch_out
  keeps_business_leaf keeps_gap_deadline keeps_answer_pending keeps_time_ok keeps_dispose
  keeps_validate_failed keeps_reject_logout keeps_time_reject keeps_too_high keeps_reject_orig
  keeps_poss_dup keeps_admin_failed keeps_test_request keeps_resend_request keeps_unsupported
  keeps_app_failed keeps_logout_sent keeps_interpret keeps_establishment keeps_refuse_version
  keeps_reply_leaf keeps_sent_logout keeps_time_error keeps_mark : keeps.
#[export] Hint Extern 1 (keeps _ spawn_liveness) => eapply keeps_spawn; eassumption : keeps.
#[export] Hint Extern 1 (keeps _ (record_defaults _ _)) => eapply keeps_defaults; eassumption : keeps.

(** ** Establishing, by what is known on the way *)

(** A run from a state that meets [T] keeps the relation: what is known of the state is
    carried through a bind beside what the step's answer says. *)
Definition from {St A} (R : relation (Session St)) (T : Session St -> Prop) (m : M St A) : Prop :=
  forall s, T s -> R s (m s).1.

Lemma from_keeps {St A} (R : relation (Session St)) T (m : M St A) : keeps R m -> from R T m.
Proof. intros Hm s _. apply Hm. Qed.

Lemma from_bind {St A B} (R : relation (Session St)) `{!PreOrder R} T (T' : A -> Session St -> Prop)
    (m : M St A) (k : A -> M St B) :
  keeps R m -> (forall s a, T s -> (m s).2 = Ret a -> T' a (m s).1) -> (forall a, from R (T' a) (k a)) ->
  from R T (bind m k).
Proof.
  intros Hm Hp Hk s Hs. specialize (Hm s). specialize (Hp s). unfold bind.
  destruct (m s) as [s' [a|c]]; cbn in *; [|done]. etransitivity; [exact Hm|]. apply Hk. by apply Hp.
Qed.

Lemma from_weaken {St A} (R : relation (Session St)) (T T' : Session St -> Prop) (m : M St A) :
  (forall s, T s -> T' s) -> from R T' m -> from R T m.
Proof. intros HT Hm s Hs. by apply Hm, HT. Qed.

Lemma from_modify {St A} (R : relation (Session St)) `{!PreOrder R} T (f : Session St -> Session St) (k : M St A) :
  keeps R (modify f) -> (forall s, T s -> T (f s)) -> from R T k -> from R T (modify f ;; k).
Proof. intros Hm Hf Hk. apply (from_bind R _ (fun _ => T)); [done| |done]. intros s a Hs _. by apply Hf. Qed.

Lemma from_get {St A B} (R : relation (Session St)) `{!PreOrder R} T (f : Session St -> A) (k : A -> M St B) :
  (forall a, from R (fun s => T s /\ a = f s) (k a)) -> from R T (bind (get f) k).
Proof. intros Hk s Hs. apply (Hk (f s) s). by split. Qed.

Lemma select_establishing rt neg defs frame :
  select_route_ rt neg defs frame true = select_route_ rt av_Unknown [] frame true.
Proof. reflexivity. Qed.

Section Establishing.
Context {St SE : Type} `{MessageStore St SE, !SlotRetrieval St SE} (w : world St SE).
Context (R : relation (Session St)) `{!session_relation w R}.
Context (cfg : SessionConfig) (has_clock has_application : bool) (rt : routing) (cap : Z).
Context (flush : option (SE -> St -> St * result error unit)).
Context (reset_to : SE -> seqnum_t -> seqnum_t -> St -> St * result error unit).
Context (authorize : bytes -> bytes -> result error principal_source).
Context (authorize_logon : bytes -> option bytes -> option bytes -> bool).
Context (frame : bytes).

(** The header an establishment arm reads. *)
Definition logon_header : FrameHeader :=
  scan_frame_header frame (route_hooks (select_route_ rt av_Unknown [] frame true)).

(** The Logon reads as [r], when the run that reads it is defined. *)
Definition reads_as (r : logon_interpret_result) : Prop :=
  match interpret_logon frame (cfg_target_comp_id cfg) (cfg_sender_comp_id cfg) (cfg_begin_string cfg)
          (interpret_logon_hooks rt) with
  | Some x => x = Ok r
  | None => True
  end.

(** The frame parses, an application message names its version in the header if anywhere, and
    the dictionary's validator, where the route has one, accepts it. *)
Definition content_valid (route : inbound_route) : Prop :=
  exists mr seed t, inbound_table cap mr seed frame route = Some t /\
  (ir_application route = true -> ir_header_1128 route = false -> is_ok (find t 1128) = false) /\
  match re_validator (ir_entry route) with Some v => exists u, v frame = Ok u | None => True end.

Lemma validate_content route (s : Session St) :
  (validate_inbound_ w cap frame route s).2 = Ret validation_pass -> content_valid route.
Proof.
  unfold validate_inbound_, bind, ask, ret. cbn. intros [= E].
  destruct (inbound_table _ _ _ _ _) as [t|] eqn:Et; [|done]. destruct (_ && _ && _) eqn:Ev; [done|].
  exists (w_arena w (s_tick s)), (w_seed w (S (s_tick s))), t. split; [done|]. split.
  - intros Ha Hh. by rewrite Ha, Hh in Ev.
  - destruct (re_validator (ir_entry route)) as [v|]; [|done]. destruct (v frame) as [u|[e tag]]; [by exists u|done].
Qed.

(** The dictionary's verdict on a frame of establishment: under FIXT it is of the session layer
    and its header names one MsgType; where the session's dictionary validates, it is valid. *)
Definition well_routed : Prop :=
  let route := select_route_ rt av_Unknown [] frame true in
  cfg_validate_inbound_messages cfg = true ->
  (fixt_routing_ rt = true ->
     ir_application route = false /\ msg_type logon_header = fault_ref_msg_type logon_header) /\
  (is_Some (match session_route_ rt with Some e => re_validator e | None => None end) ->
   is_type 51 logon_header = false -> is_type 53 logon_header = false -> content_valid route).

(** The frame's SendingTime is in the window of some reading of the session's clock. *)
Definition timely (hdr : FrameHeader) : Prop :=
  has_clock = true -> exists t n, fix_string_to_utc_time (sending_time hdr) = Ok t /\
    check_sending_time t (w_now w n) (max_latency cfg) = Ok tt.

Lemma interpret_reads (s : Session St) r : (interpret_frame w cfg rt frame s).2 = Ret (Ok r) -> reads_as r.
Proof.
  unfold interpret_frame, reads_as. destruct (interpret_logon _ _ _ _ _); [|done]. by intros [= ->].
Qed.

(** *** The number

    What the session's counter stands at when the Logon's number is checked. *)

(** The number an acceptor awaits: 1 where it resets on every Logon; else its counter, or,
    where a persistent store seeds the counter, what the store answers, and 1 where the peer
    asks for a reset. An initiator awaits its counter. *)
Definition awaits (s : Session St) (n : seqnum_t) : Prop :=
  match fsm_state_ (s_fsm s) with
  | NotConnected =>
      if cfg_reset_on_logon cfg then n = seqnum_min
      else n = next_inbound_ (seqnum_mgr_ s) \/
        store_is_persistent_ (s_store s) = true /\ exists st, store_ (s_store s) = Some st /\
        if bool_decide (reset_seqnum_flag logon_header = yes) then n = seqnum_min
        else exists k, (next_seqnum (w_store w k) inbound false st).2 = Ok n
  | _ => n = next_inbound_ (seqnum_mgr_ s)
  end.

(** The Logon has the number awaited, or a later one where NextExpectedMsgSeqNum is in use. *)
Definition numbered (s : Session St) : Prop :=
  exists n, awaits s n /\
  (parse_seqnum (msg_seq_num logon_header) = n \/
   cfg_enable_next_expected_msg_seq_num cfg = true /\ n < parse_seqnum (msg_seq_num logon_header)).

(** The rest of the strand leaves the counters alone. *)
Definition counters_left : Prop := forall n s, seqnum_mgr_ (w_other w n s) = seqnum_mgr_ s.

Section Numbered.
Context (s0 : Session St).

(** Counters and store as the frame met them. *)
Definition unmoved (s : Session St) : Prop := seqnum_mgr_ s = seqnum_mgr_ s0 /\ s_store s = s_store s0.

Lemma from_logon_gates arm k :
  (forall r, reads_as r -> msg_type_is_third logon_header = true -> fault logon_header = fault_none ->
     well_routed -> from R unmoved (k logon_header r)) ->
  from R unmoved (logon_gates w cfg has_clock has_application rt cap flush arm frame k).
Proof using session_relation0.
  intros Hk. unfold logon_gates. apply (from_get R). intros l.
  apply (from_weaken _ _ unmoved); [by intros s [Hs _]|].
  rewrite select_establishing. cbv zeta. fold logon_header.
  destruct (msg_type_is_third logon_header) eqn:E3; cbn [negb]; [|apply from_keeps; by keeps_ops].
  unfold unless_superseded. apply (from_get R). intros [|]; [apply from_keeps; by keeps_ops|].
  apply (from_weaken _ _ unmoved); [by intros s [Hs _]|].
  destruct (fault logon_header) eqn:Ef; [|apply from_keeps; by keeps_ops..].
  destruct (establishment_frame_refused_ _ _ _ _) eqn:Er; [apply from_keeps; by keeps_ops|].
  apply (from_bind R _ (fun v s => unmoved s /\ (v = validation_pass -> well_routed))); [by keeps_ops| |].
  { intros s v [Hm Hs] E. split.
    - revert E. unfold establishment_validation, validate_inbound_. by case_match.
    - intros ->. intros Hv. split.
      + intros Hf. unfold establishment_frame_refused_ in Er. rewrite Hf, Hv in Er. cbn [andb] in Er.
        apply orb_false_iff in Er as [-> Er]. split; [done|]. by case_bool_decide.
      + intros Hd H3 H5. unfold establishment_validation in E.
        rewrite Hv, bool_decide_true, H3, H5 in E by done. by eapply validate_content. }
  intros v. destruct v; [|apply from_keeps; by keeps_ops..].
  apply (from_bind R _ (fun x s => unmoved s /\ well_routed /\ match x with Ok r => reads_as r | Err _ => True end));
    [by keeps_ops| |].
  - intros s r [[Hm Hs] Hw] E. split_and!; [|auto|].
    + revert E. unfold interpret_frame. by case_match.
    + destruct r as [r|e]; [|done]. by eapply interpret_reads.
  - intros [r|e]; [|apply from_keeps; by keeps_ops]. intros s (Hu & Hw & Hr). by apply (Hk r).
Qed.

(** The counter stands at what is awaited. *)
Definition ready (s : Session St) : Prop := counters_left -> awaits s0 (next_inbound_ (seqnum_mgr_ s)).

Lemma from_logon_number k : (forall b, (counters_left -> numbered s0) -> keeps R (k b)) ->
  from R ready (logon_number w cfg has_application (parse_seqnum (msg_seq_num logon_header)) k).
Proof using session_relation0.
  intros Hk. unfold logon_number.
  apply (from_bind R _ (fun r _ => match r with
    | Ok _ => counters_left -> numbered s0
    | Err session_seqnum_too_high => cfg_enable_next_expected_msg_seq_num cfg = true -> counters_left -> numbered s0
    | Err _ => True end)); [by keeps_ops| |].
  - intros s r Hs. unfold with_mgr, co_await, bind, ask, abort. cbn.
    destruct (w_cancelled w _); [done|]. cbn. destruct (check_inbound _ _ (seqnum_mgr_ s)) as [m c] eqn:Ec.
    cbn. intros [= <-]. unfold check_inbound in Ec. case_tests; simplify_eq/=; try done.
    + intros Hv Hq. exists (next_inbound_ (seqnum_mgr_ s)). split; [by apply Hs|right; split; [done|lia]].
    + intros Hq. exists (next_inbound_ (seqnum_mgr_ s)). split; [by apply Hs|left; lia].
  - intros [u|e] s Hs; [by apply Hk|]. destruct (_ && _) eqn:E.
    + apply andb_true_iff in E as [E1 E2]. apply bool_decide_eq_true in E2 as ->. apply Hk. auto.
    + revert s Hs. match goal with |- forall s, _ -> R s (?m s).1 => cut (keeps R m); [auto|] end. keeps_ops.
Qed.

(** *** The acceptor's counter *)

(** One call of the manager, where it is made at all. *)
Lemma mgr_post {A} (op : bool -> SeqnumManager -> SeqnumManager * result error A) s
    (Q : Session St -> outcome (result error A) -> Prop) :
  (forall s', Q s' (Aborted true)) -> (forall l s', Q (upd_mgr (fun _ => (op l (seqnum_mgr_ s)).1) s') (Ret (op l (seqnum_mgr_ s)).2)) ->
  post (with_mgr w op) s Q.
Proof using.
  intros Ha Hr. unfold with_mgr. apply post_co_await; [apply Ha|]. apply post_bind, post_ask. intros l.
  specialize (Hr l (upd_tick (upd_tick s))). unfold post. cbn in *. by destruct (op l (seqnum_mgr_ s)).
Qed.

Lemma read_post {A} (op : SE -> St -> St * result error A) st s : counters_left ->
  post (with_store w op st) s (fun s' r => seqnum_mgr_ s' = seqnum_mgr_ s /\
    forall a, r = Ret a -> exists k, a = (op (w_store w k) st).2).
Proof using.
  intros Hq. unfold counters_left in Hq. unfold post, with_store, store_await, store_call, suspend, bind, ask, modify, ret.
  cbn. destruct (w_throw w (s_tick s)) as [| |wreck]; cbn; try by rewrite Hq.
  destruct (op (w_store w _) st) as [st' r] eqn:E. cbn. destruct r as [a|e]; cbn; rewrite Hq; (split; [done|]).
  all: intros a' [= <-]; eexists; by rewrite E.
Qed.

(** The counter an acceptor that does not reset was given. *)
Definition seeded (s : Session St) : Prop :=
  counters_left -> cfg_reset_on_logon cfg = false -> awaits s0 (next_inbound_ (seqnum_mgr_ s)).

Context (Hconn : fsm_state_ (s_fsm s0) = NotConnected).

Lemma fails_post {A} (m : M St A) (e : error) s (P : Session St -> Prop) :
  post (m ;; ret (Err e)) s (fun s' r => r = Ret (Ok tt) -> P s').
Proof using. unfold post, bind. by destruct (m s) as [s' [a|c]]. Qed.

(** The counter the acceptor's hydration leaves, where it answers. *)
Definition awaited (s : Session St) : Prop :=
  cfg_reset_on_logon cfg = false -> awaits s0 (next_inbound_ (seqnum_mgr_ s)).

Lemma hydrates_awaited arm st s : counters_left ->
  store_is_persistent_ (s_store s0) = true -> store_ (s_store s0) = Some st ->
  post (hydrate_from_store w has_application
          (negb (bool_decide (reset_seqnum_flag logon_header = yes) || cfg_reset_on_logon cfg)) arm st) s
    (fun s' r => r = Ret (Ok tt) -> awaited s').
Proof using Hconn.
  intros Hq Hp Hst. unfold hydrate_from_store.
  apply post_bind. eapply post_weaken; [by apply read_post|]. intros s1 r [_ H1].
  destruct r as [[n|e]|c]; [|by apply fails_post|done]. destruct (H1 _ eq_refl) as [k Hk].
  apply post_bind, post_get, post_bind. eapply post_weaken; [by apply read_post|]. intros s2 r [_ _].
  destruct r as [[out|e]|c]; [|by apply fails_post|done].
  cbv zeta. apply post_bind, mgr_post; [done|]. intros l s3.
  destruct l; cbn; [|by apply fails_post].
  unfold post. cbn. intros _ Hc. unfold awaits. rewrite Hconn, Hc. cbn. right. split; [done|]. exists st.
  split; [done|]. rewrite orb_false_r. case_bool_decide; cbn; [done|]. exists k. by rewrite <- Hk.
Qed.

Lemma ensures_awaited force arm s : counters_left -> unmoved s ->
  post (ensure_hydrated_ w has_application
          (negb (bool_decide (reset_seqnum_flag logon_header = yes) || cfg_reset_on_logon cfg)) force arm) s
    (fun s' r => r = Ret (Ok tt) -> awaited s').
Proof using Hconn.
  intros Hq [Hm Hs]. assert (Hstill : awaited s).
  { intros Hc. unfold awaits. rewrite Hconn, Hc, Hm. by left. }
  unfold ensure_hydrated_. apply post_bind, post_get. destruct (_ && negb force); [by apply post_ret|].
  destruct (hydrating_ _); [by apply post_ret|]. apply post_bind, post_modify.
  apply post_bind, post_catch. rewrite Hs.
  destruct (store_is_persistent_ (s_store s0)) eqn:Hp; [destruct (store_ (s_store s0)) as [st|] eqn:Hst|].
  2,3: apply post_ret; unfold post; cbn; intros _; exact Hstill.
  eapply post_weaken; [by apply hydrates_awaited|]. intros s1 [[[]|e]|c] H1; unfold post; cbn; try done.
Qed.

Lemma ensured force arm s : unmoved s -> counters_left ->
  post (co_await w (ensure_hydrated_ w has_application
          (negb (bool_decide (reset_seqnum_flag logon_header = yes) || cfg_reset_on_logon cfg)) force arm)) s
    (fun s' r => r = Ret (Ok tt) -> awaited s').
Proof using Hconn. intros Hu Hq. apply post_co_await; [done|]. by apply ensures_awaited. Qed.

Lemma resets_ready s : counters_left -> cfg_reset_on_logon cfg = true ->
  post (co_await w (reset_seqnums_to_one_durable w fatal)) s (fun s' r => r = Ret (Ok tt) -> ready s').
Proof using Hconn.
  intros Hq Hc. assert (Hone : forall s' : Session St, next_inbound_ (seqnum_mgr_ s') = seqnum_min -> ready s').
  { intros s' Hn _. unfold awaits. by rewrite Hconn, Hc, Hn. }
  apply post_co_await; [done|]. unfold reset_seqnums_to_one_durable. apply post_bind, mgr_post; [done|].
  intros l s1. destruct l; cbn; [|by apply post_ret].
  apply post_bind, post_get. cbn. destruct (store_ (s_store s1)) as [st|]; [|apply post_ret; intros _; by apply Hone].
  apply post_bind. eapply post_weaken; [by apply read_post|]. intros s2 r [H2 _].
  destruct r as [[u|e]|c]; [|by apply post_ret|done]. apply post_ret. intros _. apply Hone. by rewrite H2.
Qed.

Lemma from_acceptor_admit k : (timely logon_header -> from R (ready) k) ->
  from R (fun s => counters_left -> awaited s)
    (acceptor_admit w cfg has_clock has_application rt logon_header k).
Proof using Hconn session_relation0.
  intros Hk. unfold acceptor_admit. cbv zeta.
  assert (Hreset : timely logon_header -> from R (fun s => counters_left -> awaited s)
    (if cfg_reset_on_logon cfg then
      let! r := co_await w (reset_seqnums_to_one_durable w fatal) in
      match r with Err e => disconnect_unless_superseded_ w has_application (Some NotConnected) ;; ret (Err e) | Ok _ => k end
    else k)).
  { intros Ht. specialize (Hk Ht). destruct (cfg_reset_on_logon cfg) eqn:Hc.
    - apply (from_bind R _ (fun r s => r = Ok tt -> ready s)); [by keeps_ops| |].
      + intros s r _ E -> Hq. by eapply resets_ready.
      + intros [[]|e]; [|apply from_keeps; by keeps_ops]. eapply from_weaken; [|exact Hk]. auto.
    - eapply from_weaken; [|exact Hk]. intros s Hs Hq. by apply Hs. }
  unfold timely in *. destruct has_clock; [|by apply Hreset].
  apply (from_bind R _ (fun ok s => (counters_left -> awaited s) /\ (ok = true -> exists t n,
      fix_string_to_utc_time (sending_time logon_header) = Ok t /\
      check_sending_time t (w_now w n) (max_latency cfg) = Ok tt))); [by keeps_ops| |].
  - intros s a. unfold inbound_sending_time_ok_. destruct (_ =? 0); [by intros Hs [= <-]|].
    destruct (fix_string_to_utc_time _) as [t|e] eqn:Et; [|by intros Hs [= <-]].
    cbn. intros Hs [= <-]. split; [exact Hs|]. intros Hok. exists t, (s_tick s). split; [done|].
    by destruct (check_sending_time _ _ _) as [[]|].
  - intros [|]; [|apply from_keeps; unfold then_; by keeps_ops]. intros s [Hs Hok]. apply Hreset; auto.
Qed.
End Numbered.

Lemma keeps_reset_arm a b arm k : keeps R k -> keeps R (reset_unit w has_application reset_to a b arm k).
Proof. intros Hk. unfold reset_unit. keeps_ops. Qed.

Lemma keeps_honor_arm n arm k : keeps R k ->
  keeps R (honor_789 w cfg has_clock has_application rt logon_header n arm k).
Proof. intros Hk. unfold honor_789. keeps_ops. Qed.

(** What admits the Logon in each role. *)
Definition admits (r : logon_interpret_result) : Prop :=
  msg_type_is_third logon_header = true /\ fault logon_header = fault_none /\ well_routed /\ reads_as r /\
  parse_seqnum (msg_seq_num logon_header) <> 0 /\ posture_refused cfg logon_header = false /\
  timely logon_header /\
  (cfg_reset_seqnum_policy cfg = bilateral_strict -> reset_seqnum_flag logon_header = yes).

Definition admits_acceptor (r : logon_interpret_result) : Prop :=
  admits r /\ authorize_logon (cfg_target_comp_id cfg) (lr_username r) (lr_password r) = true /\
  (is_fixt cfg = true -> is_Some (app_version_registry_ rt) ->
   exists v, appl_version_of cfg rt frame r = Ok v).

Definition admits_initiator (r : logon_interpret_result) : Prop :=
  admits r /\ (fixt_routing_ rt = true -> cfg_validate_inbound_messages cfg = true ->
   exists v, appl_version_of cfg rt frame r = Ok v).

(** What the caller knows of entering Active, and of the identity's step. *)
Context (bound : Prop).
Context (Hid : forall k, (bound -> keeps R k) -> keeps R (bind_identity w cfg has_application authorize k)).

(** The rest of an arm, where entering Active keeps the relation. *)
Section Entering.
Context (Hactive : forall k, keeps R k -> keeps R (become_active w cfg has_clock has_application rt flush k)).

Lemma keeps_acceptor_finish a b n :
  keeps R (acceptor_finish w cfg has_clock has_application rt flush logon_header a b n).
Proof using Hactive session_relation0.
  unfold acceptor_finish, unless_superseded. keeps_ops.
  apply keeps_honor_arm. keeps_ops. apply Hactive. unfold persist_if. keeps_ops.
Qed.

Lemma keeps_acceptor_answer a b :
  keeps R (acceptor_answer w cfg has_clock has_application rt flush reset_to logon_header a b).
Proof using Hactive session_relation0.
  unfold acceptor_answer, unless_superseded.
  pose proof (fun a b n => keeps_acceptor_finish a b n) as Hf.
  pose proof (keeps_reply_leaf w R cfg has_clock has_application rt) as Hl.
  keeps_ops; try (apply keeps_reset_arm; keeps_ops); apply Hl; intros; apply Hf.
Qed.

Lemma keeps_initiator_finish r a b :
  keeps R (initiator_finish w cfg has_clock has_application rt flush frame logon_header r a b).
Proof using Hactive session_relation0.
  unfold initiator_finish, unless_superseded. keeps_ops.
  all: apply keeps_honor_arm; keeps_ops; apply Hactive; unfold persist_if; keeps_ops.
Qed.
End Entering.

Lemma keeps_acceptor_authorize r k : 
  (authorize_logon (cfg_target_comp_id cfg) (lr_username r) (lr_password r) = true ->
   (is_fixt cfg = true -> is_Some (app_version_registry_ rt) -> exists v, appl_version_of cfg rt frame r = Ok v) ->
   bound -> keeps R k) ->
  keeps R (acceptor_authorize w cfg has_clock has_application rt authorize authorize_logon frame logon_header r k).
Proof using Hid session_relation0.
  intros Hk. unfold acceptor_authorize. apply Hid. intros Hb.
  destruct (is_fixt cfg && _) eqn:Ef.
  - destruct (appl_version_of cfg rt frame r) as [v|e] eqn:Ev; [|by keeps_ops].
    destruct (authorize_logon _ _ _) eqn:Ea; keeps_ops. apply Hk; eauto.
  - destruct (authorize_logon _ _ _) eqn:Ea; keeps_ops. apply Hk; [done| |done].
    intros Hf Hs. rewrite Hf, bool_decide_true in Ef by done. done.
Qed.

Lemma from_not_connected s0 : fsm_state_ (s_fsm s0) = NotConnected ->
  (forall r, admits_acceptor r -> bound -> (counters_left -> numbered s0) -> forall k, keeps R k ->
     keeps R (become_active w cfg has_clock has_application rt flush k)) ->
  from R (unmoved s0) (on_inbound_not_connected_ w cfg has_clock has_application rt cap flush reset_to authorize
             authorize_logon frame).
Proof using Hid session_relation0.
  intros Hconn Hactive. unfold on_inbound_not_connected_. apply from_logon_gates. intros r Hr H3 Hf Hw. cbv zeta.
  apply (from_modify R); [by keeps_ops|by intros s Hs; exact Hs|].
  destruct (parse_seqnum (msg_seq_num logon_header) =? 0) eqn:E0; [apply from_keeps; by keeps_ops|].
  apply (from_bind R _ (fun h s => h = Ok tt -> counters_left -> awaited s0 s)); [by keeps_ops| |].
  { intros s h Hu E -> Hq. exact (ensured s0 Hconn _ _ s Hu Hq E). }
  intros [[]|e]; [|apply from_keeps; by keeps_ops]. unfold unless_superseded.
  apply (from_get R). intros [|]; [apply from_keeps; by keeps_ops|].
  destruct (posture_refused cfg logon_header) eqn:Ep; [apply from_keeps; by keeps_ops|].
  eapply from_weaken; [|apply from_acceptor_admit; [exact Hconn|]; intros Ht].
  { intros s [Hs _]. by apply Hs. }
  apply (from_get R). intros [|]; [apply from_keeps; by keeps_ops|].
  apply (from_weaken R _ (ready s0)); [by intros s [Hs _]|]. apply from_logon_number. intros b Hn.
  unfold disconnect_with. destruct (negb _ && _) eqn:Es; [by keeps_ops|].
  apply keeps_acceptor_authorize. intros Ha Hv Hb. apply keeps_acceptor_answer. intros k Hk.
  apply (Hactive r); try done. split; [|by split]. split_and!; try done; [lia|].
  intros Hs. rewrite Hs in *. by destruct (bool_decide_reflect (reset_seqnum_flag logon_header = yes)).
Qed.
Lemma keeps_initiator_reset a b k : 
  ((cfg_reset_seqnum_policy cfg = bilateral_strict -> a = true) -> keeps R k) ->
  keeps R (initiator_reset w cfg has_application reset_to a b k).
Proof.
  intros Hk. unfold initiator_reset, unless_superseded.
  destruct a; cbn [negb andb]; [|destruct (cfg_reset_seqnum_policy cfg) eqn:Ep; cbn [is_strict]].
  - keeps_ops; apply keeps_reset_arm; keeps_ops; by apply Hk.
  - keeps_ops.
  - keeps_ops. by apply Hk.
  - keeps_ops. by apply Hk.
Qed.

Lemma from_logon_sent s0 : fsm_state_ (s_fsm s0) = LogonSent ->
  (forall r, admits_initiator r -> bound -> (counters_left -> numbered s0) -> forall k, keeps R k ->
     keeps R (become_active w cfg has_clock has_application rt flush k)) ->
  from R (unmoved s0)
    (on_inbound_logon_sent_ w cfg has_clock has_application rt cap flush reset_to authorize frame).
Proof using Hid session_relation0.
  intros Hconn Hactive. unfold on_inbound_logon_sent_. apply from_logon_gates. intros r Hr H3 Hf Hw. cbv zeta.
  destruct (posture_refused cfg logon_header) eqn:Ep; [apply from_keeps; by keeps_ops|].
  apply (from_modify R); [by keeps_ops|by intros s Hs; exact Hs|].
  apply (from_bind R _ (fun x s => unmoved s0 s /\ (zlen x = 0 -> timely logon_header))); [by keeps_ops| |].
  { intros s a Hu. unfold sending_time_error, timely. destruct has_clock; [|by intros [= <-]]. cbn [negb].
    destruct (zlen (sending_time logon_header) =? 0); [by intros [= <-]|].
    destruct (fix_string_to_utc_time _) as [t|e] eqn:Et; [|by intros [= <-]].
    cbn. destruct (check_sending_time _ _ _) as [[]|] eqn:Ec; cbn; intros [= <-]; (split; [exact Hu|]); [|done].
    intros _ _. exists t, (s_tick s). by split. }
  intros text. destruct (zlen text =? 0) eqn:Ez; cbn [negb]; [|apply from_keeps; unfold then_; by keeps_ops].
  destruct (parse_seqnum (msg_seq_num logon_header) =? 0) eqn:E0; [apply from_keeps; by keeps_ops|].
  intros s [Hu Ht]. assert (Hready : ready s0 s).
  { intros _. unfold awaits. by rewrite Hconn, (proj1 Hu). }
  clear Hu. revert s Hready. apply from_logon_number. intros b Hn.
  assert (Hgo : (fixt_routing_ rt = true -> cfg_validate_inbound_messages cfg = true ->
      exists v, appl_version_of cfg rt frame r = Ok v) ->
    keeps R (initiator_reset w cfg has_application reset_to (bool_decide (reset_seqnum_flag logon_header = yes)) b
      (bind_identity w cfg has_application authorize
        (initiator_finish w cfg has_clock has_application rt flush frame logon_header r b
          (bool_decide (reset_seqnum_flag logon_header = yes)))))).
  { intros Hv. apply keeps_initiator_reset. intros Hs. apply Hid. intros Hb.
    apply keeps_initiator_finish. intros k Hk. apply (Hactive r); try done. split; [|done].
    split_and!; try done; [lia|apply Ht; lia|].
    intros H1. exact (bool_decide_eq_true_1 _ (Hs H1)). }
  destruct (fixt_routing_ rt && cfg_validate_inbound_messages cfg) eqn:Ev.
  - destruct (appl_version_of cfg rt frame r) eqn:Er; [|by keeps_ops]. apply Hgo. eauto.
  - apply Hgo. intros H1 H2. by rewrite H1, H2 in Ev.
Qed.

Lemma keeps_become_active k : (forall s, R s (upd_fsm (enter_state Active) s)) -> keeps R k ->
  keeps R (become_active w cfg has_clock has_application rt flush k).
Proof.
  intros Ha Hk. unfold become_active. apply keeps_bind; [typeclasses eauto|by apply keeps_enters|]. intros _.
  keeps_ops. apply keeps_modify. intros. apply (rel_threw' (w := w)).
Qed.
End Establishing.

(** ** Handing over *)

Section Delivering.
Context {St SE : Type} `{MessageStore St SE, !SlotRetrieval St SE} (w : world St SE).
Context (R : relation (Session St)) `{!session_relation w R}.
Context (cfg : SessionConfig) (has_clock has_application : bool) (rt : routing) (cap : Z).
Context (flush : option (SE -> St -> St * result error unit)).
Context (Hdeliver : forall e s, R s (upd_trace e s)).

Lemma keeps_dispatch_in f route e : keeps R (dispatch_inbound w cap f route e).
Proof using Hdeliver session_relation0.
  unfold dispatch_inbound, invoke_verdict. keeps_ops. by apply keeps_emit.
Qed.
#[local] Hint Resolve keeps_dispatch_in : keeps.

Lemma keeps_logged_on f : keeps R (on_inbound_logged_on w cfg has_clock has_application rt cap flush f).
Proof using Hdeliver session_relation0.
  unfold on_inbound_logged_on, active_gates, sequence_gate, in_sequence, active_row, validation_gate, ends,
    finished, to_arm, on_inbound_active_slow_, on_inbound_active_sequence_reset_,
    on_inbound_active_out_of_sequence_, on_inbound_active_gap_fill_, on_inbound_active_logout_,
    delivered_out_of_sequence, from_app, from_admin.
  arm_ops.
Qed.
End Delivering.
