(* ===== verification/Inbound.v ===== *)
(** What a session guarantees about the frames it is given (the theorems over
    [on_inbound_frame]): which Logon makes it active, which frames the application sees,
    and what a frame that cannot be read changes. *)
From stdpp Require Import strings.
From S2P Require Import Prelude Errors FixTime TagScan LengthData VersionProfile Writer Framer FrameHeader.
From S2P Require Import OffsetTable Seqnum MessageStore AdminMessages SessionState SessionCore.
From S2P Require Import Routing Replay SessionClose InboundActive InboundLogon SessionKeeps InboundKeeps.

(** ** Becoming active *)

Section Activation.
Context {St SE : Type} `{MessageStore St SE, !SlotRetrieval St SE} (w : world St SE).
Context (cfg : SessionConfig) (has_clock has_application : bool) (rt : routing) (cap : Z).
Context (flush : option (SE -> St -> St * result error unit)).
Context (reset_to : SE -> seqnum_t -> seqnum_t -> St -> St * result error unit).
Context (authorize : bytes -> bytes -> result error principal_source).
Context (authorize_logon : bytes -> option bytes -> option bytes -> bool).
Context (frame : bytes).

Definition active (s : Session St) : Prop := fsm_state_ (s_fsm s) = Active.

(** With mutual TLS, the policy lets the certified peer assert the configured CompID. *)
Definition identity_bound (s : Session St) : Prop :=
  is_mtls cfg = true -> exists fingerprint from,
    live_peer_id_ (s_logon s) = Some fingerprint /\ authorize fingerprint (cfg_target_comp_id cfg) = Ok from.

(** The frame is a Logon that admits the peer to the session, in the session's role. *)
Definition admitted (s : Session St) : Prop :=
  identity_bound s /\ exists r,
  match fsm_state_ (s_fsm s) with
  | NotConnected => admits_acceptor w cfg has_clock rt cap authorize_logon frame r
  | LogonSent => admits_initiator w cfg has_clock rt cap frame r
  | _ => False
  end /\ numbered w cfg rt frame s.

(** Work beside a frame neither makes the session active nor brings another peer, and leaves
    the sequence numbers alone. *)
Definition beside (s s' : Session St) : Prop :=
  (active s' -> active s) /\ seqnum_mgr_ s' = seqnum_mgr_ s /\
  (live_peer_id_ (s_logon s') = live_peer_id_ (s_logon s) \/ live_peer_id_ (s_logon s') = None).

(** The invariant of a run from [s0]. *)
Definition guarded (s0 s : Session St) : Prop :=
  (active s -> admitted s0) /\
  (live_peer_id_ (s_logon s) = live_peer_id_ (s_logon s0) \/ live_peer_id_ (s_logon s) = None).

Definition guards (s0 s s' : Session St) : Prop := guarded s0 s -> guarded s0 s'.

#[local] Instance guards_relation s0 : (forall n s, beside s (w_other w n s)) -> session_relation w (guards s0).
Proof using.
  intros Ho. constructor; unfold guards, guarded, active; cbn; try done.
  - split; [by intros s|]. intros s1 s2 s3 H1 H2 H3. auto.
  - intros f s Hf [Ha Hl]. split; [done|]. destruct (Hf (s_logon s)) as [-> | ->]; auto.
  - intros x s Hx [_ Hl]. split; [|done]. by intros ->.
  - intros n s [Ha Hl]. destruct (Ho n s) as [H1 [_ [H2|H2]]]; unfold active in H1; rewrite ?H2; auto.
Qed.

Lemma guards_identity s0 k : (forall n s, beside s (w_other w n s)) ->
  (identity_bound s0 -> keeps (guards s0) k) -> keeps (guards s0) (bind_identity w cfg has_application authorize k).
Proof using.
  intros Ho Hk s. pose proof (guards_relation s0 Ho). intros Hg.
  unfold bind_identity, bind at 1, get at 1. cbn beta iota.
  destruct (is_mtls cfg) eqn:Em; cbn [negb].
  2: { apply Hk; [by intros Hm; rewrite Em in Hm|done]. }
  destruct (live_peer_id_ (s_logon s)) as [fp|] eqn:Ep.
  2: { match goal with |- guarded _ (?m s).1 => cut (keeps (guards s0) m); [intros Hm; by apply Hm|] end. keeps_ops. }
  destruct (authorize fp (cfg_target_comp_id cfg)) as [from|e] eqn:Ea.
  2: { match goal with |- guarded _ (?m s).1 => cut (keeps (guards s0) m); [intros Hm; by apply Hm|] end. keeps_ops. }
  match goal with |- guarded _ (?m s).1 => cut (keeps (guards s0) m); [intros Hm; by apply Hm|] end. keeps_ops.
  apply Hk. intros _. exists fp, from. split; [|done]. destruct Hg as [_ [E|E]]; congruence.
Qed.

Lemma guards_active s0 : admitted s0 -> forall s, guards s0 s (upd_fsm (enter_state Active) s).
Proof using. intros Ha s [_ Hl]. by split. Qed.

Lemma frame_guarded s : (forall n s, beside s (w_other w n s)) -> ~ active s ->
  guarded s (on_inbound_frame w cfg has_clock has_application rt cap flush reset_to authorize authorize_logon frame s).1.
Proof using.
  intros Ho Hn. pose proof (guards_relation s Ho) as Hrel.
  assert (Hg : guarded s s) by (split; [done|by left]).
  unfold on_inbound_frame, on_inbound_active_. unfold bind at 1, get at 1. cbn beta iota.
  match goal with |- guarded _ (?m s).1 => cut (guards s s (m s).1); [auto|] end.
  match goal with |- guards s s (catch ?m ?h s).1 =>
    assert (Hm : guards s s (m s).1); [|assert (Hh : forall c, keeps (guards s) (h c)) by (intros; keeps_ops)] end.
  2: { unfold catch. destruct (dispatch_frame _ _ _ _ _ _ _ _ _ _ _ _ _) as [s' [a|c]]; [done|].
       intros Hg'. apply Hh. by apply Hm. }
  unfold dispatch_frame. destruct (fixt_routes_unbound_ rt); [done|].
  unfold bind at 1, get at 1. cbn beta iota.
  destruct (fsm_is _ LogonReceived || _).
  { apply (keeps_logged_on w (guards s)). intros e s' Hg'. exact Hg'. }
  match goal with |- guards s s (bind ?m ?k s).1 =>
    assert (Hm : guards s s (m s).1); [|assert (Hk : forall a, keeps (guards s) (k a)) by (intros; keeps_ops)] end.
  2: { unfold bind at 1. destruct (on_inbound_cold_ _ _ _ _ _ _ _ _ _ _ _ _) as [s' [a|c]]; [|done].
       intros Hg'. apply Hk. by apply Hm. }
  unfold on_inbound_cold_. unfold bind at 1, get at 1. cbn beta iota.
  pose proof (fun k => guards_identity s k Ho) as Hid.
  assert (Hq : counters_left w) by (intros n s'; by destruct (Ho n s') as [_ [? _]]).
  destruct (fsm_state_ (s_fsm s)) eqn:Es; try done.
  - match goal with |- guards s s (?m s).1 =>
      cut (from (guards s) (unmoved s) m); [intros Hf; exact (Hf s (conj eq_refl eq_refl))|] end.
    apply (from_not_connected w (guards s)) with (bound := identity_bound s); [exact Hid|done|].
    intros r Hr Hb Hn' k Hk. apply (keeps_become_active w (guards s)); [|done]. apply guards_active.
    split; [done|]. exists r. rewrite Es. auto.
  - match goal with |- guards s s (?m s).1 =>
      cut (from (guards s) (unmoved s) m); [intros Hf; exact (Hf s (conj eq_refl eq_refl))|] end.
    apply (from_logon_sent w (guards s)) with (bound := identity_bound s); [exact Hid|done|].
    intros r Hr Hb Hn' k Hk. apply (keeps_become_active w (guards s)); [|done]. apply guards_active.
    split; [done|]. exists r. rewrite Es. auto.
  - by apply (keeps_logout_sent w (guards s)).
Qed.
End Activation.

(** ** A session to try things in *)

Definition sample_routing : routing :=
  Routing false no_hooks (fun _ => false) None None (RouteEntry no_hooks None) (fun _ => None) None.

(** The acceptor "A" of the initiator "B", with mutual TLS. *)
Definition acceptor_config : SessionConfig :=
  mkSessionConfig [65] [66] [70] acceptor (Some 30) None millis bilateral_lenient false false false false
    2000 true false true true false None None None None None [] mtls_ca 10000 false None.

Definition with_peer (fingerprint : bytes) (s : Session log_store) : Session log_store :=
  upd_logon (fun l => mkLogon (negotiated_appl_version_ l) (route_negotiated_ l) (msg_type_defaults_ l)
    (own_logon_sent_reset_flag_ l) (peer_advertised_max_message_size_ l) (Some fingerprint) (liveness_counter_ l)) s.

Definition sample_acceptor (st : fsm_state) (next_in : seqnum_t) : Session log_store :=
  with_peer [102] (sample_session st (Some empty_log) (mkSeqnumManager next_in 1)).

Notation sample_inbound s frame :=
  (on_inbound_frame calm_world acceptor_config false true sample_routing 1000 None
    (fun e => default_reset_to e e e) (fun _ _ => Ok CN) (fun _ _ _ => true) frame s).

Definition peer_logon : bytes :=
  match build_logon (replicate 256 0) 1 [66] [65] [70] 30 [116] false None None None None (AdvertiseOptions None false []) with
  | Ok f => f
  | Err _ => []
  end.

(** ** Properties *)

(** C2: nothing but an admitted Logon makes a session active.  If giving a frame to a session
    that is not active leaves it Active, then the frame's MsgType is third and every field
    readable; under FIXT it is of the session layer and its header names one MsgType, and where
    the session's dictionary validates, it is valid; it read as a Logon of the configured
    versions and CompIDs; its MsgSeqNum is the number awaited (a later one only where
    NextExpectedMsgSeqNum is in use): the counter's, 1 for an acceptor that resets on every
    Logon or is asked to reset, or the number a persistent store answered; its posture, its
    SendingTime and (under the strict policy) its ResetSeqNumFlag are what the configuration
    asks for; the session was an acceptor not yet connected, and its policy passed the
    credentials and its registry the version, or an initiator awaiting the answer, whose
    registry passed the version; and under mutual TLS the policy let the certified peer assert
    the CompID.  The other work of the strand is only asked not to activate the session, swap
    the peer or move the sequence numbers itself. *)
Theorem active_only_by_admitted_logon {St SE} `{MessageStore St SE, !SlotRetrieval St SE} (w : world St SE)
    cfg has_clock has_application rt cap flush reset_to authorize authorize_logon frame s s' r :
  (forall n s, beside s (w_other w n s)) -> fsm_state_ (s_fsm s) <> Active ->
  on_inbound_frame w cfg has_clock has_application rt cap flush reset_to authorize authorize_logon frame s = (s', r) ->
  fsm_state_ (s_fsm s') = Active ->
  admitted w cfg has_clock rt cap authorize authorize_logon frame s.
Proof.
  intros Ho Hn Hr Ha.
  pose proof (frame_guarded w cfg has_clock has_application rt cap flush reset_to authorize authorize_logon frame s Ho Hn) as [Hg _].
  rewrite Hr in Hg. by apply Hg.
Qed.

Lemma active_only_by_admitted_logon_witness :
  fsm_state_ (s_fsm (sample_inbound (sample_acceptor NotConnected 1) peer_logon).1) = Active /\
  admitted calm_world acceptor_config false sample_routing 1000 (fun _ _ => Ok CN) (fun _ _ _ => true) peer_logon
    (sample_acceptor NotConnected 1).
Proof.
  assert (Ha : fsm_state_ (s_fsm (sample_inbound (sample_acceptor NotConnected 1) peer_logon).1) = Active)
    by (vm_compute; reflexivity).
  split; [exact Ha|].
  refine (active_only_by_admitted_logon calm_world acceptor_config false true sample_routing 1000 None
    (fun e => default_reset_to e e e) (fun _ _ => Ok CN) (fun _ _ _ => true) peer_logon
    (sample_acceptor NotConnected 1) _ _ _ _ (surjective_pairing _) _);
    [|discriminate|exact Ha].
  intros n s. split_and!; [trivial|reflexivity|by left].
Defined.
