(* ===== verification/Delivery.v ===== *)
(** Which frames the application sees: what [on_inbound_frame] hands to fromAdmin and
    fromApp, and under which conditions. *)
From S2P Require Import Prelude Errors FixTime TagScan LengthData VersionProfile Writer Framer FrameHeader.
From S2P Require Import OffsetTable Seqnum MessageStore AdminMessages SessionState SessionCore.
From S2P Require Import Routing Replay SessionClose InboundActive InboundLogon SessionKeeps InboundKeeps Inbound.

Definition silent (e : effect) : Prop := delivers e = false.

(** At most one effect hands a frame over, and it satisfies [C]. *)
Definition hands_over {St} (C : effect -> Prop) (s s' : Session St) : Prop :=
  exists t, s_trace s' = s_trace s ++ t /\
  (Forall silent t \/ exists t1 e t2, t = t1 ++ e :: t2 /\ Forall silent t1 /\ C e /\ Forall silent t2).

Section Over.
Context {St SE : Type} (C : effect -> Prop).
Implicit Types s : Session St.

Lemma over_silent s s' : adds silent s s' -> hands_over C s s'.
Proof. intros (t & E & Ht). exists t. split; [done|by left]. Qed.

Lemma over_l s1 s2 s3 : adds silent s1 s2 -> hands_over C s2 s3 -> hands_over C s1 s3.
Proof.
  intros (t & E & Ht) (u & E' & Hu). exists (t ++ u). split; [by rewrite E', E, app_assoc|].
  destruct Hu as [Hu|(t1 & e & t2 & -> & H1 & Hc & H2)]; [left; by apply Forall_app|right].
  exists (t ++ t1), e, t2. split_and!; try done; [by rewrite app_assoc|by apply Forall_app].
Qed.

Lemma over_r s1 s2 s3 : hands_over C s1 s2 -> adds silent s2 s3 -> hands_over C s1 s3.
Proof.
  intros (u & E & Hu) (t & E' & Ht). exists (u ++ t). split; [by rewrite E', E, app_assoc|].
  destruct Hu as [Hu|(t1 & e & t2 & -> & H1 & Hc & H2)]; [left; by apply Forall_app|right].
  exists t1, e, (t2 ++ t). split_and!; try done; [by rewrite <- app_assoc|by apply Forall_app].
Qed.

Lemma keeps_over_silent {A} (m : M St A) : keeps (adds silent) m -> keeps (hands_over C) m.
Proof. intros Hm s. apply over_silent, Hm. Qed.

Lemma keeps_over_l {A B} (m : M St A) (k : A -> M St B) :
  keeps (adds silent) m -> (forall a, keeps (hands_over C) (k a)) -> keeps (hands_over C) (bind m k).
Proof.
  intros Hm Hk s. specialize (Hm s). unfold bind. destruct (m s) as [s' [a|c]]; cbn in *.
  - eapply over_l; [exact Hm|apply Hk].
  - by apply over_silent.
Qed.

Lemma keeps_over_r {A B} (m : M St A) (k : A -> M St B) :
  keeps (hands_over C) m -> (forall a, keeps (adds silent) (k a)) -> keeps (hands_over C) (bind m k).
Proof.
  intros Hm Hk s. specialize (Hm s). unfold bind. destruct (m s) as [s' [a|c]]; cbn in *; [|done].
  eapply over_r; [exact Hm|apply Hk].
Qed.

Lemma keeps_over_catch {A} (m : M St A) (h : bool -> M St A) :
  keeps (hands_over C) m -> (forall c, keeps (adds silent) (h c)) -> keeps (hands_over C) (catch m h).
Proof.
  intros Hm Hk s. specialize (Hm s). unfold catch. destruct (m s) as [s' [a|c]]; cbn in *; [done|].
  eapply over_r; [exact Hm|apply Hk].
Qed.
End Over.

(** A question's answer is the world's at this tick. *)
Lemma post_ask_val {St A} (f : nat -> A) (s : Session St) (Q : Session St -> outcome A -> Prop) :
  Q (upd_tick s) (Ret (f (s_tick s))) -> post (ask f) s Q.
Proof. done. Qed.

(** Before the sequence gate a frame changes neither what the application saw, nor the
    numbers, nor the phase. *)
Definition calm {St} (s s' : Session St) : Prop :=
  s_trace s' = s_trace s /\ seqnum_mgr_ s' = seqnum_mgr_ s /\ s_fsm s' = s_fsm s /\ s_store s' = s_store s.
#[export] Instance calm_preorder {St} : PreOrder (calm (St := St)).
Proof. split; [done|]. intros s1 s2 s3 (A1 & B1 & C1 & D1) (A2 & B2 & C2 & D2). split_and!; congruence. Qed.

Lemma calm_adds {St} (s s' : Session St) : calm s s' -> adds silent s s'.
Proof. intros (E & _). by apply adds_same. Qed.

Section Delivery.
Context {St SE : Type} `{MessageStore St SE, !SlotRetrieval St SE} (w : world St SE).
Context (cfg : SessionConfig) (has_clock has_application : bool) (rt : routing) (cap : Z).
Context (flush : option (SE -> St -> St * result error unit)).
Context (reset_to : SE -> seqnum_t -> seqnum_t -> St -> St * result error unit).
Context (authorize : bytes -> bytes -> result error principal_source).
Context (authorize_logon : bytes -> option bytes -> option bytes -> bool).
Context (frame : bytes).

(** ** The conditions *)

(** What the dictionary of the frame's route says, where the session validates: under FIXT the
    header names one MsgType and no version that is refused. *)
Definition validated (hdr : FrameHeader) (route : inbound_route) : Prop :=
  cfg_validate_inbound_messages cfg = true ->
  is_Some (match session_route_ rt with Some e => re_validator e | None => None end) ->
  (fixt_routing_ rt = true -> msg_type hdr = fault_ref_msg_type hdr /\ ir_refusal route = refusal_none) /\
  (is_type 51 hdr = false -> is_type 53 hdr = false -> content_valid cap frame route).

Definition passes_gates (hdr : FrameHeader) (route : inbound_route) : Prop :=
  msg_type_is_third hdr = true /\ fault hdr = fault_none /\ validated hdr route /\
  begin_string hdr = cfg_begin_string cfg /\
  (cfg_check_comp_id cfg = true -> comp_ids_match cfg hdr = true) /\
  (is_type 51 hdr = false -> is_type 53 hdr = false -> timely w cfg has_clock hdr).

(** A PossDup frame names an original SendingTime no later than its SendingTime. *)
Definition original_time_ok (hdr : FrameHeader) : Prop :=
  exists t122, fix_string_to_utc_time (orig_sending_time hdr) = Ok t122 /\
  forall t52, fix_string_to_utc_time (sending_time hdr) = Ok t52 -> t122 <= t52.

Definition app_turn (s : Session St) (hdr : FrameHeader) : Prop :=
  parse_seqnum (msg_seq_num hdr) <> 0 /\
  (poss_dup_flag hdr = yes -> original_time_ok hdr) /\
  (parse_seqnum (msg_seq_num hdr) = next_inbound_ (seqnum_mgr_ s) /\ active s \/
   poss_dup_flag hdr = yes /\ cfg_redeliver_poss_dup cfg = true \/
   cfg_validate_sequence_numbers cfg = false).

(** The effect may follow from giving the frame to [s]. *)
Definition may_deliver (s : Session St) (e : effect) : Prop :=
  let route := select_route_ rt (route_negotiated_ (s_logon s)) (msg_type_defaults_ (s_logon s)) frame false in
  let hdr := scan_frame_header frame (route_hooks route) in
  has_application = true /\ passes_gates hdr route /\
  (fsm_state_ (s_fsm s) = Active \/ fsm_state_ (s_fsm s) = LogonReceived) /\
  match e with
  | FromApp f => f = frame /\ is_admin_msgtype (msg_type hdr) = false /\ app_turn s hdr
  | FromAdmin f => f = frame /\ is_admin_msgtype (msg_type hdr) = true
  | _ => False
  end.

(** ** Lemmas *)

Context (Hother : forall n s, adds silent s (w_other w n s)).

#[local] Instance silent_relation : session_relation w (adds silent).
Proof using Hother. constructor; try (intros; by apply adds_same); [typeclasses eauto|by intros; apply adds_one|done]. Qed.

Section Arms.
Context (C : effect -> Prop) (route : inbound_route) (hdr : FrameHeader).

Lemma over_dispatch e : C e -> keeps (hands_over C) (dispatch_inbound w cap frame route e).
Proof using Hother.
  intros Hc. pose proof silent_relation. unfold dispatch_inbound. do 2 (apply keeps_over_l; [by keeps_ops|intros]).
  destruct (inbound_table _ _ _ _ _); [|apply keeps_over_silent; by keeps_ops].
  apply keeps_over_r; [|intros; by keeps_ops]. unfold invoke_verdict.
  apply keeps_over_r; [|intros; by keeps_ops]. intros s. exists [e]. split; [done|right].
  by exists [], e, [].
Qed.

Hypothesis Hadmin : has_application = true -> C (FromAdmin frame).

Lemma over_sequence_reset :
  keeps (hands_over C) (on_inbound_active_sequence_reset_ w cfg has_clock has_application rt cap flush frame hdr route).
Proof using Hother Hadmin.
  pose proof silent_relation.
  unfold on_inbound_active_sequence_reset_, from_admin. cbv zeta. destruct has_application.
  - apply keeps_over_r; [apply over_dispatch; auto|]. intros. arm_ops.
  - apply keeps_over_silent. arm_ops.
Qed.
Lemma over_gap_fill :
  keeps (hands_over C) (on_inbound_active_gap_fill_ w cfg has_clock has_application rt cap flush frame hdr route).
Proof using Hother Hadmin.
  pose proof silent_relation. unfold on_inbound_active_gap_fill_, from_admin.
  destruct (negb (cfg_validate_sequence_numbers cfg)); [|apply keeps_over_silent; arm_ops].
  destruct has_application; [|apply keeps_over_silent; arm_ops].
  apply keeps_over_r; [apply over_dispatch; auto|]. intros. arm_ops.
Qed.

Lemma over_logout :
  keeps (hands_over C) (on_inbound_active_logout_ w cfg has_clock has_application rt cap flush frame hdr route).
Proof using Hother Hadmin.
  pose proof silent_relation. unfold on_inbound_active_logout_, from_admin.
  apply keeps_over_l; [keeps_ops|intros _]. apply keeps_over_l; [keeps_ops|intros st].
  cbv zeta. match goal with |- keeps _ (if _ then _ else ?o) => assert (Ho : keeps (hands_over C) o) end.
  { destruct has_application; [|apply keeps_over_silent; arm_ops].
    apply keeps_over_r; [apply over_dispatch; auto|]. intros. arm_ops. }
  destruct (fsm_is st Active); [|exact Ho].
  apply keeps_over_l; [arm_ops|intros]. unfold then_. apply keeps_over_l; [arm_ops|intros [|]].
  - apply keeps_over_l; [arm_ops|intros; exact Ho].
  - apply keeps_over_silent. arm_ops.
Qed.

Lemma over_out_of_sequence e :
  (has_application = true -> is_admin_msgtype (msg_type hdr) = false ->
   (poss_dup_flag hdr = yes /\ cfg_redeliver_poss_dup cfg = true \/ cfg_validate_sequence_numbers cfg = false) ->
   C (FromApp frame)) ->
  (has_application = true -> is_admin_msgtype (msg_type hdr) = true -> C (FromAdmin frame)) ->
  keeps (hands_over C)
    (on_inbound_active_out_of_sequence_ w cfg has_clock has_application rt cap flush frame hdr e route).
Proof using Hother.
  clear Hadmin. intros Happ Hadmin. pose proof silent_relation.
  unfold on_inbound_active_out_of_sequence_, unless_expired, delivered_out_of_sequence, from_app, from_admin.
  destruct (bool_decide (e = store_seqnum_overflow)); [apply keeps_over_silent; arm_ops|].
  apply keeps_over_l; [arm_ops|]. intros [r|]; [apply keeps_over_silent; arm_ops|].
  destruct (is_type 48 hdr); [apply keeps_over_silent; arm_ops|].
  case_bool_decide as Hdup.
  - destruct (is_admin_msgtype (msg_type hdr)) eqn:Ea; [apply keeps_over_silent; arm_ops|].
    destruct (cfg_redeliver_poss_dup cfg && has_application) eqn:Er; [|apply keeps_over_silent; arm_ops].
    apply keeps_over_r; [apply over_dispatch; apply Happ; try done; [by destruct has_application; [|rewrite andb_false_r in Er]|]|intros; arm_ops].
    left. by destruct (cfg_redeliver_poss_dup cfg).
  - destruct (cfg_validate_sequence_numbers cfg) eqn:Ev; cbn [negb]; [apply keeps_over_silent; arm_ops|].
    destruct has_application; [|apply keeps_over_silent; arm_ops].
    apply keeps_over_r; [|intros; arm_ops].
    destruct (is_admin_msgtype (msg_type hdr)) eqn:Ea; apply over_dispatch; [by apply Hadmin|].
    apply Happ; [done..|by right].
Qed.
End Arms.

(** *** The gates *)

(** An arm that delivers has what it needs; any other follows no delivery, or ends one. *)
Definition arm_ready (route : inbound_route) (hdr : FrameHeader) (slow : inbound_slow_t) : Prop :=
  match slow with
  | slow_sequence_reset | slow_gap_fill | slow_logout =>
      passes_gates hdr route /\ is_admin_msgtype (msg_type hdr) = true
  | slow_out_of_sequence _ =>
      passes_gates hdr route /\ parse_seqnum (msg_seq_num hdr) <> 0 /\
      (poss_dup_flag hdr = yes -> is_type 52 hdr = false -> original_time_ok hdr)
  | _ => True
  end.

(** The arms that deliver nothing themselves, and so may follow a delivery. *)
Definition ends_delivery (slow : inbound_slow_t) : Prop :=
  match slow with
  | slow_from_admin_failed _ | slow_from_app_failed _ | slow_test_request | slow_resend_request => True
  | _ => False
  end.

Section Gates.
Context (s0 : Session St) (route : inbound_route) (hdr : FrameHeader) (C : effect -> Prop).

(** What the gates leave, from the entry [s0]. *)
Definition gated (s' : Session St) (r : outcome verdict) : Prop :=
  adds silent s0 s' /\ (forall slow, r = Ret (inr slow) -> arm_ready route hdr slow) \/
  hands_over C s0 s' /\ (forall slow, r = Ret (inr slow) -> ends_delivery slow).

Lemma gated_ends m s : adds silent s0 s -> keeps (adds silent) m -> post (ends m) s gated.
Proof using.
  intros Hs Hm. specialize (Hm s). unfold post, ends, bind, finished, ret.
  destruct (m s) as [s' [a|c]]; cbn in *; left; (split; [by etransitivity|done]).
Qed.

Lemma gated_then {A} (m : M St A) r s : adds silent s0 s -> keeps (adds silent) m ->
  post (bind m (fun _ => finished r)) s gated.
Proof using.
  intros Hs Hm. specialize (Hm s). unfold post, bind, finished, ret.
  destruct (m s) as [s' [a|c]]; cbn in *; left; (split; [by etransitivity|done]).
Qed.

Lemma gated_over_ends m s : hands_over C s0 s -> keeps (adds silent) m -> post (ends m) s gated.
Proof using.
  intros Hs Hm. specialize (Hm s). unfold post, ends, bind, finished, ret.
  destruct (m s) as [s' [a|c]]; cbn in *; right; (split; [by eapply over_r|done]).
Qed.

Lemma gated_arm slow s : adds silent s0 s -> arm_ready route hdr slow -> post (to_arm slow) s gated.
Proof using. intros Hs Ha. left. split; [done|]. by intros ? [= <-]. Qed.

Lemma gated_over_arm slow s : hands_over C s0 s -> ends_delivery slow -> post (to_arm slow) s gated.
Proof using. intros Hs Ha. right. split; [done|]. by intros ? [= <-]. Qed.

Lemma gated_dispatch e (k : result error dispatch_outcome -> M St verdict) s :
  adds silent s0 s -> C e -> (forall s' r, hands_over C s0 s' -> post (k r) s' gated) ->
  post (bind (dispatch_inbound w cap frame route e) k) s gated.
Proof using Hother.
  intros Hs He Hk. pose proof (over_dispatch C route e He s) as Hd. unfold post, bind in *.
  destruct (dispatch_inbound _ _ _ _ _ s) as [s' [a|c]] eqn:E; cbn in *.
  - apply Hk. by eapply over_l.
  - right. split; [by eapply over_l|done].
Qed.

(** The row Active past the sequence gate. *)
Lemma active_row_gated s : adds silent s0 s ->
  is_type 51 hdr = false -> is_type 52 hdr = false -> is_type 53 hdr = false ->
  (has_application = true -> is_admin_msgtype (msg_type hdr) = true -> C (FromAdmin frame)) ->
  (has_application = true -> is_admin_msgtype (msg_type hdr) = false -> C (FromApp frame)) ->
  post (active_row w has_application cap frame hdr route) s gated.
Proof using Hother.
  intros Hs H3 H4 H5 Hadmin Happ. pose proof silent_relation. unfold active_row, from_admin, from_app.
  destruct (is_admin_msgtype (msg_type hdr)) eqn:Ea.
  - (* an administrative message: 0, 1 or 2 *)
    assert (Ht : is_type 48 hdr = true \/ is_type 48 hdr = false /\ is_type 49 hdr = true \/
                 is_type 48 hdr = false /\ is_type 49 hdr = false /\ is_type 50 hdr = true).
    { unfold is_admin_msgtype, is_type in *. cbn [existsb] in Ea.
      repeat case_bool_decide; cbn in *; auto; congruence. }
    destruct has_application; cbn [andb negb].
    + apply gated_dispatch; [done|by apply Hadmin|]. intros s1 r Hr.
      destruct r as [[]|]; try (by apply gated_over_arm).
      destruct Ht as [-> | [[-> ->] | (-> & -> & ->)]]; try (by apply gated_over_arm).
      apply post_bind, post_get.
      match goal with |- context [if ?b then _ else _] => destruct b end; [apply gated_over_ends; [done|arm_ops]|].
      apply post_bind. destruct (negb _); apply gated_over_ends; try done; arm_ops.
    + destruct Ht as [-> | [[-> ->] | (-> & -> & ->)]]; try (by apply gated_arm).
      apply post_bind, post_get.
      match goal with |- context [if ?b then _ else _] => destruct b end; [apply gated_ends; [done|arm_ops]|].
      apply post_bind. destruct (negb _); apply gated_ends; try done; arm_ops.
  - rewrite andb_false_r.
    assert (Ht : is_type 48 hdr = false /\ is_type 49 hdr = false /\ is_type 50 hdr = false).
    { unfold is_admin_msgtype, is_type in *. cbn [existsb] in Ea.
      repeat case_bool_decide; cbn in *; auto; congruence. }
    destruct Ht as (-> & -> & ->). destruct has_application; cbn [andb negb]; [|by apply gated_arm].
    apply gated_dispatch; [done|by apply Happ|]. intros s1 r Hr.
    destruct r as [[]|]; try (by apply gated_over_arm). apply gated_over_ends; [done|arm_ops].
Qed.
(** What a sequence number in turn leaves to be known. *)
Lemma in_sequence_gated s : adds silent s0 s -> passes_gates hdr route ->
  (fsm_state_ (s_fsm s) = Active -> has_application = true ->
   is_admin_msgtype (msg_type hdr) = true -> C (FromAdmin frame)) ->
  (fsm_state_ (s_fsm s) = Active -> has_application = true ->
   is_admin_msgtype (msg_type hdr) = false -> C (FromApp frame)) ->
  post (in_sequence w has_clock has_application cap frame hdr route) s gated.
Proof using Hother.
  intros Hs Hp Hadmin Happ. pose proof silent_relation.
  assert (Hk : keeps (fun s s' : Session St => s_trace s' = s_trace s /\ s_fsm s' = s_fsm s)
                 (close_filled_resend_gap_ w has_clock)).
  { intros s1. unfold close_filled_resend_gap_, bind, get, ret, modify, steady_now, ask.
    destruct (negb _); [done|]. destruct (_ && _); [done|]. by destruct has_clock. }
  unfold in_sequence. apply post_bind. specialize (Hk s). unfold post.
  destruct (close_filled_resend_gap_ w has_clock s) as [s1 r] eqn:E1. cbn in *. destruct Hk as [Et Ef].
  assert (Hs1 : adds silent s0 s1) by (etransitivity; [exact Hs|by apply adds_same]).
  destruct r as [[]|c]; [|left; by split].
  destruct (is_type 52 hdr) eqn:H4; [apply gated_arm; [done|split; [done|]]|].
  { unfold is_type, is_admin_msgtype in *. apply bool_decide_eq_true in H4. by rewrite H4. }
  destruct (is_type 53 hdr) eqn:H5; [apply gated_arm; [done|split; [done|]]|].
  { unfold is_type, is_admin_msgtype in *. apply bool_decide_eq_true in H5. by rewrite H5. }
  destruct (is_type 51 hdr) eqn:H3; [apply gated_ends; [done|arm_ops]|].
  apply post_bind, post_get. cbn. rewrite Ef. destruct (fsm_is _ Active) eqn:Ea; [|apply gated_ends; [done|arm_ops]].
  apply bool_decide_eq_true in Ea. apply active_row_gated; auto.
Qed.

(** The PossDup gate lets a frame on without touching the session. *)
Lemma poss_dup_passes s :
  post (on_inbound_active_poss_dup_ w cfg has_clock has_application rt hdr) s
    (fun s' r => r = Ret None -> original_time_ok hdr /\ s' = s).
Proof using.
  assert (Hr : forall m : M St (result error unit), post (let! r := m in ret (Some r)) s
    (fun s' r => r = Ret None -> original_time_ok hdr /\ s' = s)).
  { intros m. unfold post, bind, ret. by destruct (m s) as [? []]. }
  unfold on_inbound_active_poss_dup_, original_time_ok in *. destruct (_ =? 0); [apply Hr|].
  destruct (fix_string_to_utc_time (orig_sending_time hdr)) as [t122|e]; [|apply Hr].
  destruct (fix_string_to_utc_time (sending_time hdr)) as [t52|].
  - destruct (t52 <? t122) eqn:El; [apply Hr|]. intros _. split; [|done].
    exists t122. split; [done|]. intros t [= <-]. lia.
  - intros _. split; [|done]. exists t122. by split.
Qed.

(** A run that is calm and answers is passed through. *)
Lemma gated_calm {A} (m : M St A) (k : A -> M St verdict) s :
  calm s0 s -> keeps calm m ->
  (forall s1 a, m s = (s1, Ret a) -> calm s0 s1 -> post (k a) s1 gated) -> post (bind m k) s gated.
Proof using.
  intros Hs Hm Hk. apply post_bind. specialize (Hm s). unfold post. destruct (m s) as [s1 [a|c]] eqn:E; cbn in *.
  - apply Hk; [done|]. by etransitivity.
  - left. split; [|done]. apply calm_adds. by etransitivity.
Qed.

Lemma sequence_gate_gated s : calm s0 s -> passes_gates hdr route ->
  (fsm_state_ (s_fsm s0) = Active -> has_application = true ->
   is_admin_msgtype (msg_type hdr) = true -> C (FromAdmin frame)) ->
  (fsm_state_ (s_fsm s0) = Active -> has_application = true -> is_admin_msgtype (msg_type hdr) = false ->
   parse_seqnum (msg_seq_num hdr) <> 0 -> (poss_dup_flag hdr = yes -> original_time_ok hdr) ->
   parse_seqnum (msg_seq_num hdr) = next_inbound_ (seqnum_mgr_ s0) -> C (FromApp frame)) ->
  post (sequence_gate w cfg has_clock has_application rt cap frame hdr route) s gated.
Proof using Hother.
  intros Hs Hp Hadmin Happ. pose proof silent_relation. unfold sequence_gate. cbv zeta.
  pose proof (calm_adds _ _ Hs) as Ha.
  destruct (_ =? 0) eqn:E0; [apply gated_ends; [done|arm_ops]|].
  do 2 apply post_bind, post_get. destruct (_ && _ && _); [by apply gated_arm|].
  assert (Hin : forall s1, calm s0 s1 ->
    (poss_dup_flag hdr = yes -> is_type 52 hdr = false -> original_time_ok hdr) ->
    post (let! chk := with_mgr w (fun l => check_inbound l (parse_seqnum (msg_seq_num hdr))) in
          match chk with
          | Err e => to_arm (slow_out_of_sequence e)
          | Ok _ => in_sequence w has_clock has_application cap frame hdr route
          end) s1 gated).
  { intros s1 Hc Ho. destruct Hc as (Et & Em & Ef & _). unfold with_mgr. apply post_bind, post_co_await.
    { left. split; [by apply adds_same|done]. }
    apply post_bind, post_ask. intros l. unfold post. cbn. rewrite Em. unfold check_inbound.
    assert (Hres : forall s2 e, s_trace s2 = s_trace s0 -> post (to_arm (slow_out_of_sequence e)) s2 gated).
    { intros s2 e E. apply gated_arm; [by apply adds_same|]. split_and!; try done. lia. }
    destruct (negb l); [by apply Hres|]. destruct (_ <? _) eqn:E1; [by apply Hres|].
    destruct (next_inbound_ _ <? _) eqn:E2; [by apply Hres|]. destruct (_ =? seqnum_max); [by apply Hres|].
    apply in_sequence_gated; try done; [by apply adds_same|cbn; rewrite Ef; done|].
    cbn. rewrite Ef. intros Hact Happl Hadm. apply Happ; try done; [lia| |lia].
    intros Hd. apply Ho; [done|]. unfold is_type, is_admin_msgtype in *. cbn [existsb] in Hadm.
    repeat case_bool_decide; cbn in *; congruence. }
  apply post_bind. destruct (bool_decide (poss_dup_flag hdr = yes) && negb (is_type 52 hdr)) eqn:Ed.
  - pose proof (poss_dup_passes s) as Hd.
    assert (Hk : keeps (adds silent) (on_inbound_active_poss_dup_ w cfg has_clock has_application rt hdr)) by arm_ops.
    specialize (Hk s). unfold post in *.
    destruct (on_inbound_active_poss_dup_ _ _ _ _ _ _ s) as [s1 [[r|]|c]]; cbn in *.
    + left. split; [by etransitivity|done].
    + destruct (Hd eq_refl) as [Ho ->]. by apply Hin.
    + left. split; [by etransitivity|done].
  - apply post_ret. apply Hin; [done|]. intros Hy H4. rewrite Hy, H4 in Ed. by rewrite bool_decide_true in Ed.
Qed.

Lemma validation_gate_passes s :
  post (validation_gate w cfg rt cap frame hdr route) s
    (fun s' r => calm s s' /\ (r = Ret validation_pass -> validated hdr route)).
Proof using.
  unfold validation_gate, validated.
  destruct (cfg_validate_inbound_messages cfg); cbn [andb]; [|by split].
  case_bool_decide as Hv; [|by split].
  assert (Hin : forall (Q : Prop), Q ->
    post (if is_type 51 hdr || is_type 53 hdr then ret validation_pass else validate_inbound_ w cap frame route) s
      (fun s' r => calm s s' /\ (r = Ret validation_pass -> true = true ->
         is_Some (match session_route_ rt with Some e => re_validator e | None => None end) ->
         Q /\ (is_type 51 hdr = false -> is_type 53 hdr = false -> content_valid cap frame route)))).
  { intros Q HQ. destruct (is_type 51 hdr); cbn [orb]; [by split|]. destruct (is_type 53 hdr); [by split|].
    unfold post. split; [unfold validate_inbound_; done|]. intros E _ _. split; [done|intros _ _].
    by eapply validate_content. }
  destruct (fixt_routing_ rt) eqn:Ef; [|eapply post_weaken; [by apply (Hin (false = true -> msg_type hdr = fault_ref_msg_type hdr /\ ir_refusal route = refusal_none))|auto]].
  destruct (refuse_active_frame_ rt frame hdr route) eqn:Er; [|by split..].
  eapply post_weaken; [apply (Hin (true = true -> msg_type hdr = fault_ref_msg_type hdr /\ ir_refusal route = refusal_none))|auto].
  intros _. unfold refuse_active_frame_ in Er. case_bool_decide; [|done]. cbn [negb] in Er. by destruct (ir_refusal route).
Qed.

Lemma sending_time_passes s :
  post (if negb (is_type 51 hdr) && negb (is_type 53 hdr) && has_clock
        then inbound_sending_time_ok_ w cfg hdr else ret true) s
    (fun s' r => calm s s' /\ (r = Ret true -> is_type 51 hdr = false -> is_type 53 hdr = false ->
       timely w cfg has_clock hdr)).
Proof using.
  unfold timely. destruct (is_type 51 hdr); cbn; [by split|]. destruct (is_type 53 hdr); cbn; [by split|].
  destruct has_clock; [|by split]. unfold inbound_sending_time_ok_. destruct (_ =? 0); [by split|].
  destruct (fix_string_to_utc_time _) as [t|e] eqn:Et; [|by split].
  apply post_bind, post_ask_val, post_ret. split; [done|].
  intros [= E] _ _ _. exists t, (s_tick s). split; [done|]. by destruct (check_sending_time _ _ _) as [[]|].
Qed.

Lemma gated_post {A} (m : M St A) (k : A -> M St verdict) s (P : outcome A -> Prop) :
  calm s0 s -> post m s (fun s' r => calm s s' /\ P r) ->
  (forall s1 a, calm s0 s1 -> P (Ret a) -> post (k a) s1 gated) -> post (bind m k) s gated.
Proof using.
  intros Hs Hm Hk. apply post_bind. eapply post_weaken; [exact Hm|]. intros s1 [a|c] [Hc Hp]; cbn.
  - apply Hk; [by etransitivity|done].
  - left. split; [|done]. apply calm_adds. by etransitivity.
Qed.

Lemma active_gates_gated :
  (passes_gates hdr route -> fsm_state_ (s_fsm s0) = Active -> has_application = true ->
   is_admin_msgtype (msg_type hdr) = true -> C (FromAdmin frame)) ->
  (passes_gates hdr route -> fsm_state_ (s_fsm s0) = Active -> has_application = true ->
   is_admin_msgtype (msg_type hdr) = false ->
   parse_seqnum (msg_seq_num hdr) <> 0 -> (poss_dup_flag hdr = yes -> original_time_ok hdr) ->
   parse_seqnum (msg_seq_num hdr) = next_inbound_ (seqnum_mgr_ s0) -> C (FromApp frame)) ->
  post (active_gates w cfg has_clock has_application rt cap frame hdr route) s0 gated.
Proof using Hother.
  intros Hadmin Happ. pose proof silent_relation. unfold active_gates.
  destruct (msg_type_is_third hdr) eqn:H3; cbn [negb].
  2:{ apply gated_then; [done|arm_ops]. }
  destruct (fault hdr) eqn:Hf.
  2,3: apply post_bind, post_get; apply gated_ends; [done|arm_ops].
  apply (gated_post _ _ _ (fun _ => True)); [done|by destruct has_clock|]. intros s1 _ Hs1 _.
  apply (gated_post _ _ _ (fun r => r = Ret validation_pass -> validated hdr route));
    [done|apply validation_gate_passes|]. intros s2 v Hs2 Hv.
  destruct v; try (by apply gated_arm; [apply calm_adds|]).
  case_bool_decide as Hb; cbn [negb]; [|apply gated_ends; [by apply calm_adds|arm_ops]].
  destruct (cfg_check_comp_id cfg && negb (comp_ids_match cfg hdr)) eqn:Hcid; [apply gated_ends; [by apply calm_adds|arm_ops]|].
  apply (gated_post _ _ _ (fun r => r = Ret true -> is_type 51 hdr = false -> is_type 53 hdr = false ->
    timely w cfg has_clock hdr)); [done|apply sending_time_passes|]. intros s3 ok Hs3 Ht.
  destruct ok; cbn [negb]; [|by apply gated_arm; [apply calm_adds|]].
  assert (Hp : passes_gates hdr route).
  { split_and!; auto. intros Hc. rewrite Hc in Hcid. by destruct (comp_ids_match cfg hdr). }
  destruct (is_type 52 hdr && _) eqn:H4.
  - apply gated_arm; [by apply calm_adds|]. split; [done|]. apply andb_true_iff in H4 as [H4 _].
    apply bool_decide_eq_true in H4. unfold is_admin_msgtype. by rewrite H4.
  - apply sequence_gate_gated; auto.
Qed.
End Gates.

(** *** The frame *)

Lemma keeps_identity k : keeps (adds silent) k -> keeps (adds silent) (bind_identity w cfg has_application authorize k).
Proof using Hother. pose proof silent_relation. intros Hk. unfold bind_identity. keeps_ops; exact Hk. Qed.

Lemma logged_on_hands_over s :
  fsm_state_ (s_fsm s) = Active \/ fsm_state_ (s_fsm s) = LogonReceived ->
  hands_over (may_deliver s) s (on_inbound_logged_on w cfg has_clock has_application rt cap flush frame s).1.
Proof using Hother.
  clear authorize authorize_logon. intros Hst. pose proof silent_relation.
  unfold on_inbound_logged_on. unfold bind at 1, get at 1. cbn beta iota zeta.
  set (route := select_route_ rt _ _ frame false). set (hdr := scan_frame_header frame (route_hooks route)).
  assert (Hadmin : passes_gates hdr route -> is_admin_msgtype (msg_type hdr) = true -> has_application = true ->
    may_deliver s (FromAdmin frame)) by (intros; by split_and!).
  assert (Happ : passes_gates hdr route -> is_admin_msgtype (msg_type hdr) = false -> has_application = true ->
    app_turn s hdr -> may_deliver s (FromApp frame)) by (intros; by split_and!).
  pose proof (active_gates_gated s route hdr (may_deliver s)) as Hg. unfold post in Hg.
  match type of Hg with ?a -> ?b -> _ => assert (H1 : a) by (intros; by apply Hadmin); specialize (Hg H1);
    assert (H2 : b) by (intros; apply Happ; try done; split_and!; auto); specialize (Hg H2) end.
  unfold bind. destruct (active_gates _ _ _ _ _ _ _ _ _ s) as [s1 [[r|slow]|c]]; cbn in Hg |- *.
  1,3: destruct Hg as [[Hg _]|[Hg _]]; [by apply over_silent|done].
  destruct Hg as [[Hs Hr]|[Hs Hr]]; specialize (Hr slow eq_refl).
  - eapply over_l; [exact Hs|]. clear Hs.
    match goal with |- hands_over _ _ (?m s1).1 => cut (keeps (hands_over (may_deliver s)) m); [auto|] end.
    destruct slow; cbn [on_inbound_active_slow_]; try solve [apply keeps_over_silent; arm_ops].
    + destruct Hr. apply over_sequence_reset. auto.
    + destruct Hr as (Hp & Hn & Ho). apply over_out_of_sequence; [|auto].
      intros Happl Ha Hw. apply Happ; try done. split_and!; [done| |tauto].
      intros Hy. apply Ho; [done|]. unfold is_type, is_admin_msgtype in *. cbn [existsb] in Ha.
      repeat case_bool_decide; cbn in *; congruence.
    + destruct Hr. apply over_gap_fill. auto.
    + destruct Hr. apply over_logout. auto.
  - eapply over_r; [exact Hs|]. clear Hs.
    match goal with |- adds _ _ (?m s1).1 => cut (keeps (adds silent) m); [auto|] end.
    destruct slow; try done; cbn [on_inbound_active_slow_]; arm_ops.
Qed.

Lemma cold_silent : keeps (adds silent)
  (on_inbound_cold_ w cfg has_clock has_application rt cap flush reset_to authorize authorize_logon frame).
Proof using Hother.
  pose proof silent_relation. intros s. unfold on_inbound_cold_, bind, get. cbn beta iota.
  destruct (fsm_state_ (s_fsm s)) eqn:Es; try done.
  - match goal with |- adds silent s (?m s).1 =>
      cut (from (adds silent) (unmoved s) m); [intros Hf; exact (Hf s (conj eq_refl eq_refl))|] end.
    apply (from_not_connected w (adds silent)) with (bound := True); [intros k Hk; apply keeps_identity; auto|done|].
    intros r _ _ _ k Hk. apply (keeps_become_active w (adds silent)); [intros; by apply adds_same|done].
  - match goal with |- adds silent s (?m s).1 =>
      cut (from (adds silent) (unmoved s) m); [intros Hf; exact (Hf s (conj eq_refl eq_refl))|] end.
    apply (from_logon_sent w (adds silent)) with (bound := True); [intros k Hk; apply keeps_identity; auto|done|].
    intros r _ _ _ k Hk. apply (keeps_become_active w (adds silent)); [intros; by apply adds_same|done].
  - by apply (keeps_logout_sent w (adds silent)).
Qed.

Lemma frame_hands_over s :
  hands_over (may_deliver s) s
    (on_inbound_frame w cfg has_clock has_application rt cap flush reset_to authorize authorize_logon frame s).1.
Proof using Hother.
  pose proof silent_relation. unfold on_inbound_frame, on_inbound_active_.
  unfold bind at 1, get at 1. cbn beta iota. set (entered := fsm_state_ (s_fsm s)).
  assert (Hm : hands_over (may_deliver s) s
    (dispatch_frame w cfg has_clock has_application rt cap flush reset_to authorize authorize_logon entered frame s).1).
  { unfold dispatch_frame. destruct (fixt_routes_unbound_ rt); [by apply over_silent, adds_same|].
    unfold bind at 1, get at 1. cbn beta iota. destruct (fsm_is _ LogonReceived || fsm_is _ Active) eqn:Es.
    - apply logged_on_hands_over. unfold fsm_is in Es.
      apply orb_true_iff in Es as [E|E]; apply bool_decide_eq_true in E; auto.
    - apply over_silent. match goal with |- adds _ _ (?m s).1 => cut (keeps (adds silent) m); [auto|] end.
      pose proof cold_silent. keeps_ops. }
  unfold catch. destruct (dispatch_frame _ _ _ _ _ _ _ _ _ _ _ _ s) as [s1 [a|c]]; cbn in *; [done|].
  eapply over_r; [exact Hm|]. match goal with |- adds _ _ (?m s1).1 => cut (keeps (adds silent) m); [auto|] end.
  keeps_ops.
Qed.
End Delivery.

(** *** The frame in its turn *)

Section InTurn.
Context {St SE : Type} `{MessageStore St SE, !SlotRetrieval St SE} (w : world St SE).
Context (cfg : SessionConfig) (has_clock : bool) (rt : routing) (cap : Z).
Context (flush : option (SE -> St -> St * result error unit)).
Context (reset_to : SE -> seqnum_t -> seqnum_t -> St -> St * result error unit).
Context (authorize : bytes -> bytes -> result error principal_source).
Context (authorize_logon : bytes -> option bytes -> option bytes -> bool).
Context (frame : bytes).

(** No cancellation is pending, the number lock is granted, the parse has its memory, and
    the application accepts what it is given. *)
Definition unhindered (route : inbound_route) : Prop :=
  (forall n, w_cancelled w n = false) /\ (forall n, w_locked w n = true) /\
  (forall m n, is_Some (inbound_table cap (w_arena w m) (w_seed w n) frame route)) /\
  (forall n, cb_threw (w_callback w n) = false /\ cb_verdict (w_callback w n) = Ok tt).

(** The gates, as the frame meets them. *)
Definition gates_open (hdr : FrameHeader) (route : inbound_route) : Prop :=
  msg_type_is_third hdr = true /\ fault hdr = fault_none /\
  (forall s : Session St, (validation_gate w cfg rt cap frame hdr route s).2 = Ret validation_pass) /\
  begin_string hdr = cfg_begin_string cfg /\
  (cfg_check_comp_id cfg = true -> comp_ids_match cfg hdr = true) /\
  (has_clock = true -> zlen (sending_time hdr) <> 0 /\ exists t,
     fix_string_to_utc_time (sending_time hdr) = Ok t /\
     forall n, check_sending_time t (w_now w n) (max_latency cfg) = Ok tt).

(** A persistent store counts the frame: it lets no exception out, answers, and the strand
    does nothing else while it is waited for. *)
Definition store_counts (p : store_part St) : Prop :=
  match store_is_persistent_ p, store_ p with
  | true, Some st => forall n, w_throw w n = no_throw /\ (forall s, w_other w n s = s) /\
      is_ok (next_seqnum (w_store w n) inbound true st).2 = true
  | _, _ => True
  end.

(** The frame is an application message in its turn; a Logon is not one. *)
Definition app_in_turn (s : Session St) (hdr : FrameHeader) : Prop :=
  fsm_state_ (s_fsm s) = Active /\ is_admin_msgtype (msg_type hdr) = false /\ is_type 65 hdr = false /\
  parse_seqnum (msg_seq_num hdr) = next_inbound_ (seqnum_mgr_ s) /\
  0 < next_inbound_ (seqnum_mgr_ s) < seqnum_max /\
  (poss_dup_flag hdr = yes -> zlen (orig_sending_time hdr) <> 0 /\ original_time_ok hdr) /\
  store_counts (s_store s).

(** A persistent store took one step of the inbound counter, any other none. *)
Definition store_counted (p p' : store_part St) : Prop :=
  match store_is_persistent_ p, store_ p with
  | true, Some st => exists n, p' = set_store (next_seqnum (w_store w n) inbound true st).1 p
  | _, _ => p' = p
  end.

(** The frame was taken: handed over once, and counted. *)
Definition taken (s s' : Session St) : Prop :=
  s_trace s' = s_trace s ++ [FromApp frame] /\
  seqnum_mgr_ s' = mkSeqnumManager (next_inbound_ (seqnum_mgr_ s) + 1) (next_outbound_ (seqnum_mgr_ s)) /\
  s_fsm s' = s_fsm s /\ store_counted (s_store s) (s_store s').

Lemma is_types hdr : is_admin_msgtype (msg_type hdr) = false ->
  is_type 48 hdr = false /\ is_type 49 hdr = false /\ is_type 50 hdr = false /\ is_type 51 hdr = false /\
  is_type 52 hdr = false /\ is_type 53 hdr = false.
Proof using. unfold is_admin_msgtype, is_type. cbn [existsb]. intros Ha. repeat case_bool_decide; cbn in *; split_and!; congruence. Qed.

(** A calm run that answers [a], then [k a]. *)
Lemma post_calm {A B} (m : M St A) (k : A -> M St B) s0 s Q a :
  calm s0 s -> post m s (fun s' r => calm s s' /\ r = Ret a) -> (forall s1, calm s0 s1 -> post (k a) s1 Q) ->
  post (bind m k) s Q.
Proof using.
  intros Hs Hm Hk. apply post_bind. eapply post_weaken; [exact Hm|]. intros s1 r [Hc ->]. apply Hk. by etransitivity.
Qed.

Lemma time_calm hdr (s : Session St) :
  (has_clock = true -> zlen (sending_time hdr) <> 0 /\ exists t,
     fix_string_to_utc_time (sending_time hdr) = Ok t /\
     forall n, check_sending_time t (w_now w n) (max_latency cfg) = Ok tt) ->
  post (if has_clock then inbound_sending_time_ok_ w cfg hdr else ret true) s
    (fun s' r => calm s s' /\ r = Ret true).
Proof using.
  intros Gt. destruct has_clock; [|done]. destruct (Gt eq_refl) as [Hz (t & Et & Hok)].
  unfold inbound_sending_time_ok_. destruct (zlen (sending_time hdr) =? 0) eqn:E; [lia|]. rewrite Et.
  apply post_bind, post_ask_val, post_ret. split; [done|]. by rewrite Hok.
Qed.

Lemma dup_calm hdr (s : Session St) (b : bool) :
  (poss_dup_flag hdr = yes -> zlen (orig_sending_time hdr) <> 0 /\ original_time_ok hdr) ->
  post (if bool_decide (poss_dup_flag hdr = yes) && b
        then on_inbound_active_poss_dup_ w cfg has_clock true rt hdr else ret None) s
    (fun s' r => calm s s' /\ r = Ret None).
Proof using.
  intros Hd. case_bool_decide as Hy; [|done]. destruct b; [|done]. cbn [andb].
  destruct (Hd Hy) as (Hz & t122 & E1 & Hle). unfold on_inbound_active_poss_dup_.
  destruct (_ =? 0) eqn:E; [lia|]. rewrite E1.
  destruct (fix_string_to_utc_time (sending_time hdr)) as [t52|]; [|done].
  specialize (Hle _ eq_refl). by destruct (t52 <? t122) eqn:E2; [lia|].
Qed.

(** A number in its turn is counted. *)
Lemma check_counts s0 s n : (forall k, w_cancelled w k = false) -> (forall k, w_locked w k = true) -> calm s0 s ->
  n = next_inbound_ (seqnum_mgr_ s0) -> 0 < n < seqnum_max ->
  post (with_mgr w (fun l => check_inbound l n)) s (fun s' r => r = Ret (Ok tt) /\
    s_trace s' = s_trace s0 /\ s_fsm s' = s_fsm s0 /\ s_store s' = s_store s0 /\
    seqnum_mgr_ s' = mkSeqnumManager (n + 1) (next_outbound_ (seqnum_mgr_ s0))).
Proof using.
  intros Hc Hl (E1 & E2 & E3 & E4) -> Hn. unfold with_mgr, co_await.
  apply post_bind, post_ask_val. rewrite Hc. apply post_bind, post_ask_val. rewrite Hl. unfold post. cbn.
  rewrite E2. unfold check_inbound. cbn [negb]. rewrite Z.ltb_irrefl.
  destruct (_ =? seqnum_max) eqn:E; [lia|]. cbn.
  split_and!; try done. f_equal. unfold wrap. apply Z.mod_small. unfold seqnum_max, UINT32_MAX in *. lia.
Qed.

Lemma gap_calm (s : Session St) :
  post (close_filled_resend_gap_ w has_clock) s (fun s' r => calm s s' /\ r = Ret tt).
Proof using.
  unfold close_filled_resend_gap_, bind, get, ret, modify, steady_now, ask, post. cbn.
  destruct (negb _); [done|]. destruct (_ && _); [done|]. by destruct has_clock.
Qed.

Lemma dispatch_accepts route e (s : Session St) : unhindered route ->
  post (dispatch_inbound w cap frame route e) s (fun s' r => r = Ret (Ok dispatched) /\
    s_trace s' = s_trace s ++ [e] /\ seqnum_mgr_ s' = seqnum_mgr_ s /\ s_fsm s' = s_fsm s /\ s_store s' = s_store s).
Proof using.
  intros (_ & _ & Ht & Hcb). unfold dispatch_inbound. apply post_bind, post_ask_val, post_bind, post_ask_val.
  destruct (Ht (s_tick s) (s_tick (upd_tick s))) as [t ->].
  unfold invoke_verdict, post, bind, emit, modify, ask, ret. cbn.
  match goal with |- context [w_callback w ?n] => destruct (Hcb n) as [-> ->] end. done.
Qed.

Lemma persisted_counts (s : Session St) : (forall n, w_cancelled w n = false) -> store_counts (s_store s) ->
  post (persisted w true (ret (Ok tt))) s (fun s' r => r = Ret (Ok tt) /\ s_trace s' = s_trace s /\
    seqnum_mgr_ s' = seqnum_mgr_ s /\ s_fsm s' = s_fsm s /\ store_counted (s_store s) (s_store s')).
Proof using.
  intros Hc Hst. unfold persisted, co_await. apply post_bind, post_bind, post_ask_val. rewrite Hc.
  unfold persist_inbound_advance_. apply post_bind, post_get. cbn. unfold store_counts, store_counted in *.
  destruct (store_is_persistent_ (s_store s)) eqn:Ep; [|done]. destruct (store_ (s_store s)) as [st|] eqn:Es; [|done].
  unfold with_store, store_await, store_call, post, bind, ask, ret, modify, suspend. cbn.
  match goal with |- context [w_throw w ?n] => destruct (Hst n) as (-> & _ & _) end. cbn.
  assert (Ho : forall n s, w_other w n s = s) by (intros n; apply (Hst n)).
  match goal with |- context [next_seqnum (w_store w ?n) inbound true st] => destruct (Hst n) as (_ & _ & Hk);
    destruct (next_seqnum (w_store w n) inbound true st) as [st' [k|e]] eqn:En; [|done]; set (n0 := n) in * end.
  unfold bind, ret. rewrite !Ho. cbn. split_and!; try done. exists n0. by rewrite En.
Qed.

Lemma in_turn_taken s :
  let route := select_route_ rt (route_negotiated_ (s_logon s)) (msg_type_defaults_ (s_logon s)) frame false in
  let hdr := scan_frame_header frame (route_hooks route) in
  unhindered route -> gates_open hdr route -> app_in_turn s hdr ->
  post (on_inbound_logged_on w cfg has_clock true rt cap flush frame) s (fun s' r => r = Ret (Ok tt) /\ taken s s').
Proof using.
  intros route hdr (Hc & Hl & Ht & Hcb) (G3 & Gf & Gv & Gb & Gc & Gt) (Ha & Hadm & H65 & Hseq & Hn & Hdup & Hst).
  destruct (is_types hdr Hadm) as (T0 & T1 & T2 & T3 & T4 & T5).
  unfold on_inbound_logged_on. apply post_bind, post_get. fold route hdr. apply post_bind.
  unfold active_gates. rewrite G3, Gf. cbn [negb].
  apply (post_calm _ _ s s _ tt); [done|by destruct has_clock|]. intros s1 Hs1.
  apply (post_calm _ _ s s1 _ validation_pass); [done| |].
  { split; [eapply validation_gate_passes|apply Gv]. }
  intros s2 Hs2. cbn iota. rewrite bool_decide_true by done. cbn [negb].
  replace (cfg_check_comp_id cfg && negb (comp_ids_match cfg hdr)) with false
    by (destruct (cfg_check_comp_id cfg); [by rewrite Gc|done]).
  rewrite T3, T5, T4. cbn [negb andb].
  apply (post_calm _ _ s s2 _ true); [done|by apply time_calm|].
  intros s3 Hs3. cbn [negb]. unfold sequence_gate. cbv zeta. rewrite Hseq.
  destruct (_ =? 0) eqn:E0; [lia|]. apply post_bind, post_get. apply post_bind, post_get.
  replace (next_inbound_ (seqnum_mgr_ s3) <? _) with false
    by (destruct Hs3 as (_ & -> & _); by rewrite Z.ltb_irrefl). cbn [andb].
  apply (post_calm _ _ s s3 _ None); [done|by apply dup_calm|]. intros s4 Hs4.
  apply post_bind. eapply post_weaken; [by eapply check_counts|]. intros s5 r (-> & Hs5).
  unfold in_sequence. apply post_bind. eapply post_weaken; [apply gap_calm|]. intros s6 r (Hs6 & ->).
  rewrite T3, T4, T5. apply post_bind, post_get. destruct Hs5 as (A1 & A2 & A3 & A4), Hs6 as (B1 & B2 & B3 & B4).
  rewrite B3, A2. unfold fsm_is. rewrite bool_decide_true by done.
  unfold active_row, from_app. rewrite Hadm, T0, T1, T2. cbn [andb negb].
  apply post_bind. eapply post_weaken; [by eapply dispatch_accepts|]. intros s7 r (-> & D1 & D2 & D3 & D4).
  cbn iota. unfold ends. apply post_bind. eapply post_weaken; [apply persisted_counts; [done|by rewrite D4, B4, A3]|].
  intros s8 r (-> & F1 & F2 & F3 & F4). cbn. rewrite D4, B4, A3 in F4. split; [done|].
  change (taken s s8). split_and!; [by rewrite F1, D1, B1, A1|by rewrite F2, D2, B2, A4|congruence..].
Qed.

Lemma frame_taken s :
  let route := select_route_ rt (route_negotiated_ (s_logon s)) (msg_type_defaults_ (s_logon s)) frame false in
  let hdr := scan_frame_header frame (route_hooks route) in
  fixt_routes_unbound_ rt = false -> unhindered route -> gates_open hdr route -> app_in_turn s hdr ->
  post (on_inbound_frame w cfg has_clock true rt cap flush reset_to authorize authorize_logon frame) s
    (fun s' r => r = Ret (Ok tt) /\ taken s s').
Proof using.
  intros route hdr Hu Hw Hg Ha. unfold on_inbound_frame, on_inbound_active_. apply post_bind, post_get.
  apply post_catch. unfold dispatch_frame. rewrite Hu. apply post_bind, post_get.
  replace (fsm_is _ LogonReceived || fsm_is _ Active) with true by (destruct Ha as [-> _]; done).
  eapply post_weaken; [by apply in_turn_taken|]. by intros s' r [-> Ht].
Qed.
End InTurn.

(** ** Properties *)

Definition business_frame : bytes :=
  match build_business_message_reject (replicate 512 0) 5 [66] [65] 3 [56] 0 [70] [116] with
  | Ok f => f
  | Err _ => []
  end.

(** The same session without a store. *)
Definition unstored_acceptor : Session log_store :=
  upd_store (fun _ => mkStorePart None false false false) (sample_acceptor Active 5).

Notation business_run := (sample_inbound (sample_acceptor Active 5) business_frame).



(** C3: an application message in its turn is taken.  On an Active session with an
    application, where no cancellation is pending, the lock is granted, the frame parses and
    the application accepts it, a frame the gates pass (its SendingTime in the window at
    whatever time the clock shows) that carries an application message numbered as expected,
    below the last number, is handed to fromApp exactly once, the expected number advances
    by one, a persistent store that answers counts it too, and nothing else is sent, numbered
    or stored, nor does the phase change; the call succeeds.  A Logon is left out: handed to an
    Active session it goes to fromApp as well, which the classifier's comment denies. *)
Theorem in_turn_delivered {St SE} `{MessageStore St SE, !SlotRetrieval St SE} (w : world St SE)
    cfg has_clock rt cap flush reset_to authorize authorize_logon frame s :
  let route := select_route_ rt (route_negotiated_ (s_logon s)) (msg_type_defaults_ (s_logon s)) frame false in
  let hdr := scan_frame_header frame (route_hooks route) in
  fixt_routes_unbound_ rt = false -> unhindered w cap frame route ->
  gates_open w cfg has_clock rt cap frame hdr route -> app_in_turn w s hdr ->
  exists s', on_inbound_frame w cfg has_clock true rt cap flush reset_to authorize authorize_logon frame s =
    (s', Ret (Ok tt)) /\ taken w frame s s'.
Proof.
  intros route hdr Hu Hw Hg Ha.
  pose proof (frame_taken w cfg has_clock rt cap flush reset_to authorize authorize_logon frame s Hu Hw Hg Ha) as Hp.
  unfold post in Hp. destruct (on_inbound_frame _ _ _ _ _ _ _ _ _ _ _ s) as [s' r]. cbn in Hp.
  destruct Hp as [-> Ht]. by exists s'.
Qed.

Lemma in_turn_delivered_witness :
  exists s', sample_inbound unstored_acceptor business_frame = (s', Ret (Ok tt)) /\
  taken calm_world business_frame unstored_acceptor s'.
Proof.
  apply (in_turn_delivered calm_world acceptor_config false sample_routing 1000 None
    (fun e => default_reset_to e e e) (fun _ _ => Ok CN) (fun _ _ _ => true) business_frame
    unstored_acceptor).
  - reflexivity.
  - split; [reflexivity|]. split; [reflexivity|]. split; [|split; reflexivity].
    intros m n. destruct (inbound_table _ _ _ _ _) eqn:E; [by eexists|]. exfalso. vm_compute in E. discriminate E.
  - split; [vm_compute; reflexivity|]. split; [vm_compute; reflexivity|]. split; [intros s; reflexivity|].
    split; [vm_compute; reflexivity|]. split; [intros _; vm_compute; reflexivity|]. discriminate.
  - split; [reflexivity|]. split; [vm_compute; reflexivity|]. split; [vm_compute; reflexivity|].
    split; [vm_compute; reflexivity|]. split; [vm_compute; split; reflexivity|]. split; [|exact I].
    intros E. exfalso. vm_compute in E. discriminate E.
Defined.
