(* ===== verification/SendFrame.v ===== *)
(** The frame of an application message (src/session/session.cpp, [build_send_frame_];
    src/session/send_header_tags.hpp): the payload is checked field by field, its header
    fields are moved before its body fields, and the session's own fields are put around
    it. *)
From S2P Require Import Prelude Errors TagScan PairTable LengthData VersionProfile Writer.
From S2P Require Import Framer FrameHeader OffsetTable Seqnum AdminMessages ReplayFrame.

(** ** Data *)

Definition kSendHeaderTags : list Z :=
  [8; 9; 34; 35; 43; 49; 50; 52; 56; 57; 90; 91; 97; 115; 116; 122; 128;
   129; 142; 143; 144; 145; 212; 213; 347; 369; 370; 627; 628; 629; 630; 1128; 1129; 1156].

Definition is_send_header_tag (tag : Z) : bool := existsb (Z.eqb tag) kSendHeaderTags.

(** [kSendFrameBytes]: the size of the frame and of both scratch buffers. *)
Definition kSendFrameBytes : Z := 4096.

Definition kRefusedTags : list Z := [8; 9; 10; 34; 35; 49; 52; 56].

Record PayloadField := mkField { pf_tag : Z; pf_start : Z; pf_end : Z; pf_counted : bool }.

Record send_frame_built := Built { sf_frame : bytes; sf_seq : seqnum_t }.

(** [pv.find_first_of("=\x01", pos)]; the size of [pv] where it finds none. *)
Definition eq_or_soh_from (pv : bytes) (pos : Z) : Z := (tag_stop (zdrop pos pv) pos true).1.

Section Build.
Context (h : dict_hooks).
(** Whether the session's dictionary declares a tag in its header. *)
Context (is_header_tag : Z -> bool).

(** ** The walk *)

Definition next_field (pv : bytes) (pos : Z) (carry : length_data_carry)
  : option PayloadField * length_data_carry :=
  let eq := eq_or_soh_from pv pos in
  if (zlen pv <=? eq) || negb (zget pv eq =? EQ) then (None, carry)
  else
    match parse_outbound_tag (zsub pv pos (eq - pos)) with
    | None => (None, carry)
    | Some tag =>
        let vstart := eq + 1 in
        match read_value h carry pv vstart tag with
        | (None, carry) => (None, carry)
        | (Some value, carry) =>
            if ve_end value =? vstart then (None, carry)
            else (Some (mkField tag pos (ve_end value + 1) (ve_counted value)), carry)
        end
    end.

(** The scanner pass: every field well-formed, none of the session's own. *)
Fixpoint payload_scan (fuel : nat) (pv : bytes) (pos : Z) (carry : length_data_carry) : bool :=
  match fuel with
  | O => true
  | S fuel =>
      if zlen pv <=? pos then true
      else
        match next_field pv pos carry with
        | (None, _) => false
        | (Some field, carry) =>
            if existsb (Z.eqb (pf_tag field)) kRefusedTags then false
            else payload_scan fuel pv (pf_end field) carry
        end
  end.

(** [wstrip], and the writes into the body and the frame: a chunk that does not fit fails. *)
Definition fit (cap : Z) (buf chunk : bytes) : expected bytes :=
  if cap <? zlen buf + zlen chunk then Err wire_frame_too_large else Ok (buf ++ chunk).

Fixpoint fit_all (cap : Z) (buf : bytes) (chunks : list bytes) : expected bytes :=
  match chunks with
  | [] => Ok buf
  | c :: chunks => match fit cap buf c with Err e => Err e | Ok buf => fit_all cap buf chunks end
  end.

(** One pass of the partition: the header-class fields, or the others. *)
Fixpoint partition_pass (fuel : nat) (allow_pos_dup header_pass : bool) (pv : bytes) (pos : Z)
    (carry : length_data_carry) (prev_header : bool) (strip : bytes) : expected bytes :=
  match fuel with
  | O => Ok strip
  | S fuel =>
      if zlen pv <=? pos then Ok strip
      else
        match next_field pv pos carry with
        | (None, _) => Err app_payload_malformed
        | (Some field, carry) =>
            let header := if pf_counted field then prev_header
                          else is_send_header_tag (pf_tag field) || is_header_tag (pf_tag field) in
            let excised := negb (pf_counted field) && negb allow_pos_dup &&
                           ((pf_tag field =? 43) || (pf_tag field =? 122)) in
            match (if negb excised && Bool.eqb header header_pass
                   then fit kSendFrameBytes strip (zsub pv (pf_start field) (pf_end field - pf_start field))
                   else Ok strip) with
            | Err e => Err e
            | Ok strip => partition_pass fuel allow_pos_dup header_pass pv (pf_end field) carry header strip
            end
        end
  end.

(** ** build_send_frame_ *)

(** The rules on the whole payload: it leads with a MsgType that is not empty, and ends a field. *)
Definition payload_framed (pv : bytes) : bool :=
  negb (zlen pv =? 0) &&
  negb ((zlen pv <? 3) || negb (zget pv 0 =? 51) || negb (zget pv 1 =? 53) || negb (zget pv 2 =? 61)) &&
  (zget pv (zlen pv - 1) =? SOH) &&
  negb (soh_from pv 0 <=? 3).

(** Tag text, value and SOH, written in turn. *)
Definition wfield (tag : Z) (value : bytes) : list bytes := [dec_text tag ++ [EQ]; value; [SOH]].

Definition checksum_chunk (buf : bytes) : bytes :=
  let csum := Z.land (u32 (byte_sum buf)) 0xFF in
  [48 + csum / 100; 48 + csum mod 100 / 10; 48 + csum mod 10].

(** [out] has [cap] bytes; [st52] is the stamp of SendingTime, [seq] the number peeked. *)
Definition build_send_frame_ (cap : Z) (allow_pos_dup : bool) (begin_string sender target : bytes)
    (st52 : bytes) (seq : seqnum_t) (app_payload : bytes) : expected send_frame_built :=
  let pv := app_payload in
  if negb (payload_framed pv) then Err app_payload_malformed
  else
    let lead := soh_from pv 0 + 1 in
    let fuel := length pv in
    if negb (payload_scan fuel pv lead carry_init) then Err app_payload_malformed
    else
      let? strip := fit kSendFrameBytes [] (ztake lead pv) in
      let? strip := partition_pass fuel allow_pos_dup true pv lead carry_init false strip in
      let? strip := partition_pass fuel allow_pos_dup false pv lead carry_init false strip in
      let first_soh := soh_from strip 0 in
      if zlen strip <=? first_soh then Err app_payload_malformed
      else
        let? body := fit_all kSendFrameBytes []
          ([ztake (first_soh + 1) strip] ++ wfield 34 (dec_text seq) ++ wfield 49 sender ++
           wfield 52 st52 ++ wfield 56 target ++ [zdrop (first_soh + 1) strip]) in
        let? buf := fit_all cap []
          (wfield 8 begin_string ++ wfield 9 (dec_text (zlen body)) ++ [body]) in
        let? frame := fit_all cap buf (wfield 10 (checksum_chunk buf)) in
        Ok (Built frame seq).
End Build.

(** ** Specification *)

Section Spec.
Context (h : dict_hooks) (is_header_tag : Z -> bool).

(** How the carry takes a field: by its Length's count, or up to its SOH. *)
Definition by_count (c : length_data_carry) (tag : Z) : bool :=
  negb (carry_data_tag c =? 0) && (carry_data_tag c =? tag).
Definition carry_after (c : length_data_carry) (tag : Z) (v : bytes) : length_data_carry :=
  Carry (data_tag_for_length h tag)
    (if negb (data_tag_for_length h tag =? 0) then parse_bounded_u32 v else carry_count c).

(** Laid end to end, the fields are read as they are. *)
Fixpoint reads (c : length_data_carry) (fs : list (Z * bytes)) : Prop :=
  match fs with
  | [] => True
  | (tag, v) :: fs =>
      1 <= tag <= 0xFFFF /\ v <> [] /\ (if by_count c tag then carry_count c = zlen v else SOH ∉ v) /\
      reads (carry_after c tag v) fs
  end.

Definition session_tag (f : Z * bytes) : bool := existsb (Z.eqb f.1) kRefusedTags.

(** A payload the session sends: a MsgType, then fields none of which is the session's. *)
Definition sendable (mt : bytes) (fs : list (Z * bytes)) : Prop :=
  mt <> [] /\ SOH ∉ mt /\ reads carry_init fs /\ existsb session_tag fs = false.

Definition payload_text (mt : bytes) (fs : list (Z * bytes)) : bytes := field_text 35 mt ++ fields_bytes fs.

(** The fields kept, each with its class: a counted Data value has its Length's. *)
Fixpoint classed (allow_pos_dup : bool) (c : length_data_carry) (prev : bool) (fs : list (Z * bytes))
  : list (bool * (Z * bytes)) :=
  match fs with
  | [] => []
  | (tag, v) :: fs =>
      let header := if by_count c tag then prev else is_send_header_tag tag || is_header_tag tag in
      let rest := classed allow_pos_dup (carry_after c tag v) header fs in
      if negb (by_count c tag) && negb allow_pos_dup && ((tag =? 43) || (tag =? 122)) then rest
      else (header, (tag, v)) :: rest
  end.

Definition of_class (header : bool) (l : list (bool * (Z * bytes))) : list (Z * bytes) :=
  map snd (List.filter (fun f => Bool.eqb f.1 header) l).

(** The payload's fields as they are sent: those of the header, then the others. *)
Definition arranged (allow_pos_dup : bool) (fs : list (Z * bytes)) : list (Z * bytes) :=
  let l := classed allow_pos_dup carry_init false fs in of_class true l ++ of_class false l.

Definition sent_fields (allow_pos_dup : bool) (sender target st52 : bytes) (seq : seqnum_t) (mt : bytes)
    (fs : list (Z * bytes)) : list (Z * bytes) :=
  [(35, mt); (34, dec_text seq); (49, sender); (52, st52); (56, target)] ++ arranged allow_pos_dup fs.
End Spec.

(** ** Lemmas *)

Lemma parse_outbound_inv ds t : parse_outbound_tag ds = Some t -> ds = dec_text t /\ 1 <= t <= 0xFFFF.
Proof.
  assert (Hd : forall ds acc n, 0 <= acc <= 0xFFFF -> outbound_digits ds acc = Some n ->
    digits ds /\ n = dec_from acc ds /\ 0 <= n <= 0xFFFF).
  { clear. intros ds. induction ds as [|c ds IH]; intros acc n Ha; cbn [outbound_digits].
    - intros [= <-]. split; [constructor|]. by split.
    - destruct ((c <? 48) || (57 <? c)) eqn:Ec; [done|].
      assert (Hc : is_digit c = true) by (apply is_digit_spec; lia).
      rewrite accumulate_tag_digit_spec by done. destruct (_ <=? 0xFFFF) eqn:El; [|done].
      intros (Hd & -> & Hr)%IH; [|lia]. split; [by constructor|]. by rewrite dec_from_cons. }
  unfold parse_outbound_tag. destruct ds as [|d ds]; [done|]. destruct (d =? 48) eqn:E0; [done|].
  destruct (outbound_digits (d :: ds) 0) as [n|] eqn:E; [|done]. cbn [option_map]. intros [= <-].
  apply Hd in E as (Hds & -> & Hn); [|lia].
  rewrite wrap_small by (change (2 ^ 16) with 65536; lia). fold (dec_value (d :: ds)) in *.
  pose proof Hds as Hds'. apply Forall_cons in Hds' as [Hd1 Hds']. apply is_digit_spec in Hd1.
  assert (Hlo : 10 ^ zlen ds <= dec_value (d :: ds)).
  { unfold dec_value. rewrite dec_from_cons. rewrite dec_from_value.
    pose proof (dec_value_bounds ds Hds'). pose proof (Z.pow_pos_nonneg 10 (zlen ds) ltac:(lia) (zlen_nonneg ds)). nia. }
  pose proof (dec_value_bounds (d :: ds) Hds) as Hhi.
  assert (Hc : digit_count (dec_value (d :: ds)) = length (d :: ds)).
  { destruct (digit_count_spec (dec_value (d :: ds))) as (Hc1 & Hc2 & Hc3); [unfold UINT32_MAX; lia|].
    rewrite zlen_cons in Hhi. pose proof (Z.pow_pos_nonneg 10 (zlen ds) ltac:(lia) (zlen_nonneg ds)).
    destruct Hc3 as [Hc3|Hc3]; [lia|]. pose proof (zlen_nonneg ds).
    assert (zlen ds < Z.of_nat (digit_count (dec_value (d :: ds)))) by (apply (Z.pow_lt_mono_r_iff 10); lia).
    assert (Z.of_nat (digit_count (dec_value (d :: ds))) - 1 < 1 + zlen ds) by (apply (Z.pow_lt_mono_r_iff 10); lia).
    unfold zlen in *. cbn [length]. lia. }
  split; [|pose proof (Z.pow_pos_nonneg 10 (zlen ds) ltac:(lia) (zlen_nonneg ds)); lia].
  unfold dec_text. rewrite Hc. symmetry. by apply fixed_digits_of_value.
Qed.

Lemma tag_stop_inv p i b : exists ds rest, p = ds ++ rest /\ (tag_stop p i b).1 = i + zlen ds /\
  SOH ∉ ds /\ EQ ∉ ds /\ (rest = [] \/ exists c r, rest = c :: r /\ (c = EQ \/ c = SOH)).
Proof.
  revert i b. induction p as [|c p IH]; intros i b; cbn [tag_stop].
  - exists [], []. rewrite zlen_nilZ. split_and!; try done; [cbn; lia|set_solver..|by left].
  - destruct ((c =? EQ) || (c =? SOH)) eqn:E.
    + exists [], (c :: p). rewrite zlen_nilZ. split_and!; try done; [cbn; lia|set_solver..|].
      right. exists c, p. split; [done|]. lia.
    + destruct (IH (i + 1) (b && negb ((c <? 48) || (57 <? c)))) as (ds & rest & -> & Hi & Hs & He & Hr).
      exists (c :: ds), rest. rewrite zlen_cons. split_and!; try done; [rewrite Hi; lia| |].
      * apply not_elem_of_cons. split; [lia|done].
      * apply not_elem_of_cons. split; [lia|done].
Qed.

Section Walk.
Context (h : dict_hooks) (is_header_tag : Z -> bool).
Notation reads := (reads h).
Notation carry_after := (carry_after h).

(** A field that is laid out is stepped over. *)
Lemma next_field_at pre tag v rest c : 1 <= tag <= 0xFFFF -> v <> [] ->
  (if by_count c tag then carry_count c = zlen v else SOH ∉ v) ->
  next_field h (pre ++ field_text tag v ++ rest) (zlen pre) c =
    (Some (mkField tag (zlen pre) (zlen (pre ++ field_text tag v)) (by_count c tag)), carry_after c tag v).
Proof.
  intros Ht Hv Hc. pose proof (value_place pre tag v rest) as Hvd. cbn zeta in Hvd.
  set (frame := pre ++ field_text tag v ++ rest) in *. unfold next_field, eq_or_soh_from.
  assert (Hfr : frame = pre ++ dec_text tag ++ EQ :: (v ++ SOH :: rest)).
  { unfold frame, field_text. rewrite <- !app_assoc. cbn [app]. by rewrite <- app_assoc. }
  assert (Hlen : zlen frame = zlen pre + zlen (dec_text tag) + zlen v + 2 + zlen rest).
  { unfold frame. rewrite !zlen_app, zlen_field_text. lia. }
  pose proof (zlen_nonneg pre). pose proof (zlen_nonneg (dec_text tag)). pose proof (zlen_nonneg rest).
  assert (0 < zlen v) by (destruct v; [done|rewrite zlen_cons; pose_zlen; lia]).
  assert (Hst : (tag_stop (zdrop (zlen pre) frame) (zlen pre) true).1 = zlen pre + zlen (dec_text tag)).
  { rewrite Hfr, zdrop_app. by rewrite tag_stop_digits by apply dec_text_digits. }
  assert (Hsub : zsub frame (zlen pre) (zlen pre + zlen (dec_text tag) - zlen pre) = dec_text tag).
  { rewrite Hfr. replace (_ + _ - _) with (zlen (dec_text tag)) by lia. apply zsub_at. }
  assert (Hg : zget frame (zlen pre + zlen (dec_text tag)) = EQ).
  { rewrite Hfr, zget_at, zget_app_r, Z.sub_diag by lia. done. }
  rewrite Hst, Hg, Hsub, parse_outbound_dec_text by lia.
  replace (zlen frame <=? zlen pre + zlen (dec_text tag)) with false by lia. rewrite Z.eqb_refl. cbn [orb negb].
  set (vs := zlen pre + zlen (dec_text tag) + 1) in *.
  assert (Hread : read_value h c frame vs tag = (Some (ValueExtent (vs + zlen v) (by_count c tag)), carry_after c tag v)).
  { destruct (by_count c tag) eqn:E; unfold by_count in E.
    - apply andb_true_iff in E as [E1 E2]. eapply read_value_counted; try done; lia.
    - eapply read_value_plain; try done; lia. }
  rewrite Hread. cbn [ve_end ve_counted]. replace (vs + zlen v =? vs) with false by lia.
  do 3 f_equal. rewrite zlen_app, zlen_field_text. lia.
Qed.

(** A field that is stepped over is laid out. *)
Lemma next_field_inv pre tail c f c' : zget (pre ++ tail) (zlen (pre ++ tail) - 1) = SOH ->
  next_field h (pre ++ tail) (zlen pre) c = (Some f, c') -> 0 <= carry_count c ->
  exists v rest, tail = field_text (pf_tag f) v ++ rest /\ 1 <= pf_tag f <= 0xFFFF /\ v <> [] /\
    (if by_count c (pf_tag f) then carry_count c = zlen v else SOH ∉ v).
Proof.
  intros Hend. unfold next_field, eq_or_soh_from. rewrite zdrop_app.
  destruct (tag_stop_inv tail (zlen pre) true) as (ds & r & -> & -> & Hs & He & Hr).
  pose proof (zlen_nonneg pre). pose proof (zlen_nonneg ds).
  destruct (_ || _) eqn:E; [done|]. apply orb_false_iff in E as [E1 E2].
  destruct Hr as [->|(x & r' & -> & Hx)]; [rewrite app_nil_r, zlen_app in E1; lia|].
  assert (x = EQ) as ->.
  { rewrite zget_at in E2 by lia. replace (zlen ds) with (zlen ds + 0) in E2 by lia.
    rewrite zget_at in E2 by lia. change (zget (x :: r') 0) with x in E2. lia. }
  clear Hx E1 E2.
  replace (zlen pre + zlen ds - zlen pre) with (zlen ds) by lia. rewrite zsub_at.
  destruct (parse_outbound_tag ds) as [tag|] eqn:Et; [|done]. apply parse_outbound_inv in Et as [-> Ht].
  set (vs := zlen pre + zlen (dec_text tag) + 1). set (frame := pre ++ dec_text tag ++ EQ :: r') in *.
  assert (Hl : zlen frame = vs + zlen r') by (unfold frame, vs; rewrite !zlen_app, zlen_cons; lia).
  assert (Hd : zdrop vs frame = r').
  { unfold frame, vs. replace (pre ++ dec_text tag ++ EQ :: r') with ((pre ++ dec_text tag ++ [EQ]) ++ r')
      by (rewrite <- !app_assoc; done).
    replace (zlen pre + zlen (dec_text tag) + 1) with (zlen (pre ++ dec_text tag ++ [EQ]))
      by (rewrite !zlen_app; change (zlen [EQ]) with 1; lia). apply zdrop_app. }
  pose proof (zlen_nonneg (dec_text tag)). pose proof (zlen_nonneg r').
  destruct (read_value h c frame vs tag) as [[ext|] cr] eqn:Er; [|done].
  destruct (ve_end ext =? vs) eqn:Ee; [done|]. intros [= <- <-] Hcount. cbn [pf_tag].
  unfold read_value in Er. fold (by_count c tag) in Er.
  assert (Hfin : forall n, 0 < n -> n < zlen r' -> zget r' n = SOH ->
    (if by_count c tag then carry_count c = n else SOH ∉ ztake n r') ->
    exists v rest, dec_text tag ++ EQ :: r' = field_text tag v ++ rest /\ 1 <= tag <= 0xFFFF /\ v <> [] /\
      (if by_count c tag then carry_count c = zlen v else SOH ∉ v)).
  { intros n Hn Hn' Hg Hc. exists (ztake n r'), (zdrop (n + 1) r').
    assert (Hz : zlen (ztake n r') = n) by (apply zlen_take; lia).
    split_and!; try lia.
    - unfold field_text. rewrite <- !app_assoc. cbn [app]. do 2 f_equal.
      rewrite <- app_assoc. rewrite <- (ztake_drop n r') at 1. f_equal.
      assert (Hdn : exists y l, zdrop n r' = y :: l /\ l = zdrop (n + 1) r').
      { destruct (zlen_pos_cons (zdrop n r')) as (y & l & E); [rewrite zlen_drop; lia|].
        exists y, l. split; [done|]. rewrite Z.add_comm, Z.add_comm. rewrite <- zdrop_drop by lia. by rewrite E. }
      destruct Hdn as (y & l & E & ->). rewrite E. cbn [app]. f_equal.
      rewrite <- Hg. replace n with (n + 0) at 1 by lia. rewrite <- zget_drop by lia. by rewrite E.
    - intros E. rewrite E, zlen_nilZ in Hz. lia.
    - rewrite Hz. destruct (by_count c tag); done. }
  destruct (by_count c tag) eqn:Ec.
  - destruct (counted_value_end frame vs (carry_count c)) as [e|] eqn:Ev; [|done].
    injection Er as <- _. cbn [ve_end] in Ee. unfold counted_value_end in Ev.
    destruct (_ || _) eqn:Eb; [done|]. apply orb_false_iff in Eb as [_ Eb].
    destruct (negb _) eqn:Es; [done|]. injection Ev as <-.
    apply (Hfin (carry_count c)); try lia. rewrite <- Hd, zget_drop by lia. lia.
  - injection Er as <- _. cbn [ve_end] in Ee. rewrite Hd in Ee.
    destruct (soh_split r') as [Hno|(a & b & -> & Ha)].
    + rewrite soh_from_none in Ee by done.
      exfalso. assert (0 < zlen r') by lia. apply Hno.
      assert (Hg : zget r' (zlen r' - 1) = SOH).
      { rewrite <- Hd at 1. rewrite zget_drop by lia. rewrite <- Hend. f_equal. lia. }
      rewrite <- Hg. unfold zget. apply list_elem_of_In, nth_In. unfold zlen in *. lia.
    + rewrite soh_from_at in Ee by done. apply (Hfin (zlen a)); rewrite ?zlen_app, ?zlen_cons; pose_zlen; try lia.
      * rewrite <- (Z.add_0_r (zlen a)), zget_at by lia. done.
      * by rewrite ztake_app.
Qed.
End Walk.

Section Passes.
Context (h : dict_hooks) (is_header_tag : Z -> bool).
Notation reads := (reads h).
Notation carry_after := (carry_after h).

Lemma put_spec cap buf chunk : fit cap buf chunk =
  if zlen (buf ++ chunk) <=? cap then Ok (buf ++ chunk) else Err wire_frame_too_large.
Proof. unfold fit. rewrite zlen_app. case_tests; (done || lia). Qed.

Lemma put_all_spec cap buf chunks : zlen buf <= cap -> fit_all cap buf chunks =
  if zlen (buf ++ concat chunks) <=? cap then Ok (buf ++ concat chunks) else Err wire_frame_too_large.
Proof.
  revert buf. induction chunks as [|c chunks IH]; intros buf Hb; cbn [fit_all concat].
  - rewrite app_nil_r. by replace (zlen buf <=? cap) with true by lia.
  - rewrite put_spec. destruct (zlen (buf ++ c) <=? cap) eqn:E.
    + rewrite IH by lia. by rewrite <- app_assoc.
    + rewrite !zlen_app in *. pose proof (zlen_nonneg (concat chunks)). by replace (_ <=? cap) with false by lia.
Qed.

Lemma carry_after_count c tag v : 0 <= carry_count c -> 0 <= carry_count (carry_after c tag v).
Proof. intros Hc. unfold carry_after. cbn. destruct (negb _); [apply parse_bounded_nonneg|done]. Qed.

(** The scanner takes a payload whose fields read as they are and are not the session's. *)
Lemma payload_scan_complete fs : forall fuel pre c, reads c fs -> existsb session_tag fs = false ->
  payload_scan h fuel (pre ++ fields_bytes fs) (zlen pre) c = true.
Proof.
  induction fs as [|[tag v] fs IH]; intros fuel pre c Hr Hs.
  - change (fields_bytes []) with (@nil Z). rewrite app_nil_r.
    destruct fuel; cbn [payload_scan]; [done|]. by rewrite Z.leb_refl.
  - destruct fuel; cbn [payload_scan]; [done|]. rewrite fields_bytes_cons.
    destruct Hr as (Ht & Hv & Hc & Hr). cbn [existsb] in Hs. apply orb_false_iff in Hs as [Hs1 Hs].
    rewrite next_field_at by done. cbn [pf_tag pf_end]. unfold session_tag in Hs1. cbn [fst] in Hs1. rewrite Hs1.
    replace (zlen (pre ++ field_text tag v ++ fields_bytes fs) <=? zlen pre) with false
      by (rewrite !zlen_app, zlen_field_text; pose_zlen; lia).
    rewrite app_assoc. by apply IH.
Qed.

(** What it takes is such a payload. *)
Lemma payload_scan_sound fuel : forall pre tail c, zlen tail <= Z.of_nat fuel -> 0 <= carry_count c ->
  zget (pre ++ tail) (zlen (pre ++ tail) - 1) = SOH ->
  payload_scan h fuel (pre ++ tail) (zlen pre) c = true ->
  exists fs, tail = fields_bytes fs /\ reads c fs /\ existsb session_tag fs = false.
Proof.
  induction fuel as [|fuel IH]; intros pre tail c Hf Hc Hend; cbn [payload_scan].
  - intros _. exists []. split; [|done]. apply zlen_0_nil. pose_zlen. lia.
  - destruct (_ <=? zlen pre) eqn:E.
    { intros _. exists []. split; [|done]. apply zlen_0_nil. rewrite zlen_app in E. pose_zlen. lia. }
    destruct (next_field h (pre ++ tail) (zlen pre) c) as [[f|] c'] eqn:En; [|done].
    destruct (next_field_inv h pre tail c f c' Hend En Hc) as (v & rest & -> & Ht & Hv & Hcv).
    rewrite next_field_at in En by done. injection En as <- <-. cbn [pf_tag pf_end] in *.
    set (tag := pf_tag f) in *. destruct (existsb (Z.eqb tag) kRefusedTags) eqn:Es; [done|].
    rewrite app_assoc. intros Hp. apply IH in Hp as (fs & -> & Hr & Hs).
    + exists ((tag, v) :: fs). split; [by rewrite fields_bytes_cons|]. split; [exact (conj Ht (conj Hv (conj Hcv Hr)))|].
      cbn [existsb]. unfold session_tag at 1. cbn [fst]. by rewrite Es.
    + rewrite zlen_app, zlen_field_text in Hf. pose_zlen. lia.
    + by apply carry_after_count.
    + by rewrite <- app_assoc.
Qed.

Lemma partition_pass_spec apd hp fs : forall fuel pre c prev strip,
  reads c fs -> (length fs <= fuel)%nat -> zlen strip <= kSendFrameBytes ->
  let kept := fields_bytes (of_class hp (classed h is_header_tag apd c prev fs)) in
  partition_pass h is_header_tag fuel apd hp (pre ++ fields_bytes fs) (zlen pre) c prev strip =
    if zlen (strip ++ kept) <=? kSendFrameBytes then Ok (strip ++ kept) else Err wire_frame_too_large.
Proof.
  induction fs as [|[tag v] fs IH]; intros fuel pre c prev strip Hr Hf Hst; cbn zeta.
  - change (fields_bytes (of_class _ _)) with (@nil Z). change (fields_bytes []) with (@nil Z).
    rewrite !app_nil_r. replace (zlen strip <=? _) with true by lia.
    destruct fuel; cbn [partition_pass]; [done|]. by rewrite Z.leb_refl.
  - destruct fuel as [|fuel]; [cbn in Hf; lia|]. cbn [partition_pass]. rewrite fields_bytes_cons.
    destruct Hr as (Ht & Hv & Hc & Hr).
    replace (zlen (pre ++ field_text tag v ++ fields_bytes fs) <=? zlen pre) with false
      by (rewrite !zlen_app, zlen_field_text; pose_zlen; lia).
    rewrite next_field_at by done. cbn [pf_tag pf_start pf_end pf_counted].
    replace (zlen (pre ++ field_text tag v) - zlen pre) with (zlen (field_text tag v)) by (rewrite zlen_app; lia).
    rewrite zsub_at. cbn [classed]. set (header := if by_count c tag then prev else _).
    specialize (IH fuel (pre ++ field_text tag v) (carry_after c tag v) header).
    destruct (negb (by_count c tag) && negb apd && _); cbn [negb andb].
    + rewrite app_assoc. apply IH; [done|cbn in Hf; lia|done].
    + unfold of_class. cbn [List.filter fst]. destruct (Bool.eqb header hp).
      * cbn [map snd]. rewrite fields_bytes_cons, put_spec. destruct (zlen (strip ++ field_text tag v) <=? _) eqn:E.
        -- rewrite (app_assoc pre). specialize (IH (strip ++ field_text tag v) Hr ltac:(cbn in Hf; lia) ltac:(lia)).
           cbn zeta in IH. rewrite IH. unfold of_class. by rewrite <- !app_assoc.
        -- rewrite !zlen_app in *. pose_zlen. by case_tests.
      * rewrite (app_assoc pre). apply IH; [done|cbn in Hf; lia|done].
Qed.
End Passes.

Lemma checksum_chunk_spec buf : checksum_chunk buf = fixed_digits 3 (sum_mod_256 buf).
Proof.
  unfold checksum_chunk. change 0xFF with (Z.ones 8). rewrite Z.land_ones by lia. unfold wrap.
  rewrite Z.mod_mod_divide by (by exists (2 ^ 24)). change (2 ^ 8) with 256.
  rewrite byte_sum_spec. assert (Hc : 0 <= sum_mod_256 buf < 256) by (apply Z.mod_pos_bound; lia).
  set (c := sum_mod_256 buf) in *. cbv zeta. replace (c mod 100 / 10) with (c / 10 mod 10) by dlia.
  cbn. replace (c / 10 / 10 mod 10) with (c / 100) by dlia. done.
Qed.

(** The rules on the whole payload, as a shape. *)
Lemma lead_text mt tail : SOH ∉ mt -> soh_from (field_text 35 mt ++ tail) 0 + 1 = zlen (field_text 35 mt).
Proof.
  intros Hm. unfold field_text. change (dec_text 35) with [51; 53].
  replace (([51; 53] ++ EQ :: mt ++ [SOH]) ++ tail) with (([51; 53] ++ EQ :: mt) ++ SOH :: tail)
    by (cbn; by rewrite <- app_assoc).
  rewrite soh_from_at by (unfold EQ, SOH in *; set_solver). rewrite !zlen_app, !zlen_cons, zlen_app. change (zlen [SOH]) with 1. lia.
Qed.

Lemma last_soh pre tag v fs : zget (pre ++ fields_bytes ((tag, v) :: fs)) (zlen (pre ++ fields_bytes ((tag, v) :: fs)) - 1) = SOH.
Proof.
  revert pre tag v. induction fs as [|[t v'] fs IH]; intros pre tag v.
  - rewrite fields_bytes_cons. change (fields_bytes []) with (@nil Z). rewrite app_nil_r.
    replace (pre ++ field_text tag v) with ((pre ++ dec_text tag ++ EQ :: v) ++ [SOH])
      by (unfold field_text; rewrite <- !app_assoc; done).
    rewrite zlen_app. change (zlen [SOH]) with 1. rewrite zget_app_r by lia.
    replace (_ - _) with 0 by lia. done.
  - rewrite fields_bytes_cons, app_assoc. apply IH.
Qed.

Lemma framed_text mt fs : mt <> [] -> SOH ∉ mt -> payload_framed (payload_text mt fs) = true.
Proof.
  intros Hm Hs. unfold payload_framed. pose proof (lead_text mt (fields_bytes fs) Hs) as Hl.
  fold (payload_text mt fs) in Hl. rewrite zlen_field_text in Hl. change (zlen (dec_text 35)) with 2 in Hl.
  assert (0 < zlen mt) by (destruct mt; [done|rewrite zlen_cons; pose_zlen; lia]).
  assert (Hlast : zget (payload_text mt fs) (zlen (payload_text mt fs) - 1) = SOH).
  { replace (payload_text mt fs) with ([] ++ fields_bytes ((35, mt) :: fs)) by by rewrite fields_bytes_cons. apply last_soh. }
  rewrite Hlast. assert (Hz : zlen (payload_text mt fs) = zlen mt + 4 + zlen (fields_bytes fs)).
  { unfold payload_text. rewrite zlen_app, zlen_field_text. change (zlen (dec_text 35)) with 2. lia. }
  pose proof (zlen_nonneg (fields_bytes fs)).
  change (zget (payload_text mt fs) 0) with 51. change (zget (payload_text mt fs) 1) with 53.
  change (zget (payload_text mt fs) 2) with 61.
  replace (zlen (payload_text mt fs) =? 0) with false by lia. replace (zlen (payload_text mt fs) <? 3) with false by lia.
  replace (soh_from _ 0 <=? 3) with false by lia. done.
Qed.

Lemma framed_inv pv : payload_framed pv = true ->
  zget pv (zlen pv - 1) = SOH /\ exists mt tail, pv = field_text 35 mt ++ tail /\ mt <> [] /\ SOH ∉ mt.
Proof.
  unfold payload_framed. rewrite !andb_true_iff, !negb_true_iff, !orb_false_iff, !negb_false_iff.
  intros [[[H0 [[[H3 E0] E1] E2]] Hl] Hf]. split; [lia|].
  destruct pv as [|a [|b [|c p]]]; try (cbn in H3; done). change (zget _ 0) with a in E0.
  change (zget (a :: b :: c :: p) 1) with b in E1. change (zget (a :: b :: c :: p) 2) with c in E2.
  assert (a = 51 /\ b = 53 /\ c = EQ) as (-> & -> & ->) by (unfold EQ; lia).
  destruct (soh_split p) as [Hn|(mt & tail & -> & Hm)].
  - exfalso. destruct p as [|x p]; [done|]. apply Hn.
    assert (Hg : zget (x :: p) (zlen (x :: p) - 1) = SOH).
    { change (51 :: 53 :: EQ :: x :: p) with ([51; 53; EQ] ++ x :: p) in Hl. rewrite zlen_app in Hl.
      change (zlen [51; 53; EQ]) with 3 in Hl. pose proof (zlen_cons x p) as Hp. pose proof (zlen_nonneg p).
      rewrite zget_app_r in Hl by (change (zlen [51; 53; EQ]) with 3; lia).
      apply Z.eqb_eq in Hl. rewrite <- Hl. f_equal. change (zlen [51; 53; EQ]) with 3. lia. }
    rewrite <- Hg. unfold zget. apply list_elem_of_In, nth_In. rewrite zlen_cons. unfold zlen. cbn [length]. lia.
  - exists mt, tail. split_and!; [|intros ->; cbn in Hf; done|done].
    unfold field_text. change (dec_text 35) with [51; 53]. cbn. by rewrite <- app_assoc.
Qed.

Section Exact.
Context (h : dict_hooks) (is_header_tag : Z -> bool).
Context (apd : bool) (bs sender target st52 : bytes) (seq : seqnum_t).
Notation build cap payload :=
  (build_send_frame_ h is_header_tag cap apd bs sender target st52 seq payload).
Notation sent mt fs := (sent_fields h is_header_tag apd sender target st52 seq mt fs).

Lemma wfield_text tag v rest : concat (wfield tag v ++ rest) = field_text tag v ++ concat rest.
Proof. unfold wfield, field_text. cbn. rewrite app_nil_r || idtac. rewrite <- !app_assoc. cbn. by rewrite <- ?app_assoc. Qed.

Lemma body_of_strip mt rest :
  concat ([field_text 35 mt] ++ wfield 34 (dec_text seq) ++ wfield 49 sender ++
          wfield 52 st52 ++ wfield 56 target ++ [fields_bytes rest]) =
  fields_bytes ([(35, mt); (34, dec_text seq); (49, sender); (52, st52); (56, target)] ++ rest).
Proof.
  cbn [app concat]. rewrite !wfield_text, !fields_bytes_cons. cbn [concat].
  by rewrite !app_nil_r.
Qed.

Lemma build_sendable cap mt fs : sendable h mt fs -> 0 <= cap <= kSendFrameBytes ->
  build cap (payload_text mt fs) =
    if zlen (frame_text bs (sent mt fs)) <=? cap then Ok (Built (frame_text bs (sent mt fs)) seq)
    else Err wire_frame_too_large.
Proof.
  intros (Hm & Hs & Hr & Ht) Hcap. unfold build_send_frame_. rewrite framed_text by done. cbn [negb].
  pose proof (lead_text mt (fields_bytes fs) Hs) as Hl. fold (payload_text mt fs) in Hl. rewrite Hl.
  assert (Hfuel : (length fs <= length (payload_text mt fs))%nat).
  { pose proof (fields_bytes_length fs). unfold payload_text. rewrite length_app. unfold zlen in *. lia. }
  unfold payload_text at 2. rewrite payload_scan_complete by done. cbn [negb].
  rewrite put_spec. unfold payload_text at 1 2 3. rewrite !ztake_app. cbn [app].
  set (lead := field_text 35 mt). set (l := classed h is_header_tag apd carry_init false fs).
  set (body := fields_bytes (sent mt fs)).
  assert (Hbody : body = fields_bytes [(35, mt); (34, dec_text seq); (49, sender); (52, st52); (56, target)] ++
    fields_bytes (of_class true l) ++ fields_bytes (of_class false l)).
  { unfold body, sent_fields, arranged. cbv zeta. fold l. by rewrite !fields_bytes_app. }
  assert (Hlen : zlen lead + zlen (fields_bytes (of_class true l)) + zlen (fields_bytes (of_class false l)) <= zlen body /\
                 zlen body + 7 <= zlen (frame_text bs (sent mt fs))).
  { split.
    - rewrite Hbody, !zlen_app, !fields_bytes_cons, !zlen_app. fold lead. pose_zlen. lia.
    - unfold frame_text. cbv zeta. fold body. rewrite !zlen_app, fixed_digits_length. change (zlen [49; 48; EQ]) with 3.
      change (zlen [SOH]) with 1. pose_zlen. lia. }
  destruct Hlen as [Hl1 Hl2]. pose proof (zlen_nonneg (fields_bytes (of_class true l))).
  pose proof (zlen_nonneg (fields_bytes (of_class false l))).
  destruct (zlen lead <=? kSendFrameBytes) eqn:E1; cbn [rbind];
    [|by replace (zlen (frame_text _ _) <=? cap) with false by lia].
  unfold payload_text. fold lead.
  pose proof (partition_pass_spec h is_header_tag apd true fs (length (payload_text mt fs)) lead carry_init false lead
    Hr Hfuel ltac:(lia)) as P1. cbv zeta in P1. unfold payload_text in P1. fold lead l in P1. rewrite P1. clear P1.
  destruct (zlen (lead ++ _) <=? kSendFrameBytes) eqn:E2; cbn [rbind]; rewrite zlen_app in E2;
    [|by replace (zlen (frame_text _ _) <=? cap) with false by lia].
  pose proof (partition_pass_spec h is_header_tag apd false fs (length (payload_text mt fs)) lead carry_init false
    (lead ++ fields_bytes (of_class true l)) Hr Hfuel ltac:(rewrite zlen_app; lia)) as P2.
  cbv zeta in P2. unfold payload_text in P2. fold lead l in P2. rewrite P2. clear P2.
  destruct (zlen ((lead ++ _) ++ _) <=? kSendFrameBytes) eqn:E3; cbn [rbind]; rewrite !zlen_app in E3;
    [|by replace (zlen (frame_text _ _) <=? cap) with false by lia].
  rewrite <- app_assoc, <- fields_bytes_app.
  pose proof (lead_text mt (fields_bytes (of_class true l ++ of_class false l)) Hs) as Hl'. fold lead in Hl'.
  assert (Hp : 0 < zlen lead) by (unfold lead; rewrite zlen_field_text; pose_zlen; lia).
  replace (zlen (lead ++ _) <=? soh_from _ 0) with false by (rewrite zlen_app; pose_zlen; lia).
  rewrite Hl', ztake_app, zdrop_app. rewrite put_all_spec by done. cbn [app].
  pose proof (body_of_strip mt (of_class true l ++ of_class false l)) as Hb. cbn [app] in Hb. fold lead in Hb.
  rewrite Hb. change ((35, mt) :: _) with (sent mt fs). fold body.
  destruct (zlen body <=? kSendFrameBytes) eqn:E4; cbn [rbind];
    [|by replace (zlen (frame_text _ _) <=? cap) with false by lia].
  rewrite put_all_spec by (rewrite zlen_nilZ; lia). cbn [app].
  set (summed := field_text 8 bs ++ field_text 9 (dec_text (zlen body)) ++ body).
  assert (Hsum : concat (wfield 8 bs ++ wfield 9 (dec_text (zlen body)) ++ [body]) = summed).
  { rewrite !wfield_text. cbn [concat]. by rewrite app_nil_r. }
  rewrite Hsum. assert (Hf : frame_text bs (sent mt fs) = summed ++ field_text 10 (fixed_digits 3 (sum_mod_256 summed))).
  { unfold frame_text, field_text. cbv zeta. fold body. by fold (field_text 8 bs) (field_text 9 (dec_text (zlen body))) summed. }
  rewrite Hf. pose proof (zlen_nonneg (field_text 10 (fixed_digits 3 (sum_mod_256 summed)))).
  destruct (zlen summed <=? cap) eqn:E5; cbn [rbind]; [|rewrite zlen_app; by replace (_ <=? cap) with false by lia].
  rewrite put_all_spec, checksum_chunk_spec by lia. rewrite <- (app_nil_r (wfield 10 _)), wfield_text. cbn [concat].
  rewrite !app_nil_r. destruct (zlen (summed ++ field_text 10 _) <=? cap); reflexivity.
Qed.

Lemma build_unsendable cap payload : (forall mt fs, sendable h mt fs -> payload <> payload_text mt fs) ->
  build cap payload = Err app_payload_malformed.
Proof.
  intros Hno. unfold build_send_frame_. destruct (payload_framed payload) eqn:Ef; cbn [negb]; [|done].
  apply framed_inv in Ef as (Hlast & mt & tail & -> & Hm & Hs). rewrite lead_text by done.
  destruct (payload_scan h _ _ _ _) eqn:Ep; cbn [negb]; [|done]. exfalso.
  apply payload_scan_sound in Ep as (fs & -> & Hr & Ht); [|rewrite length_app; unfold zlen; lia|done|done].
  by apply (Hno mt fs).
Qed.

Lemma sendable_or payload :
  (exists mt fs, sendable h mt fs /\ payload = payload_text mt fs) \/
  (forall mt fs, sendable h mt fs -> payload <> payload_text mt fs).
Proof.
  destruct (payload_framed payload) eqn:Ef.
  2: { right. intros mt fs (Hm & Hs & _) ->. by rewrite framed_text in Ef. }
  apply framed_inv in Ef as (Hlast & mt & tail & -> & Hm & Hs).
  destruct (payload_scan h (length (field_text 35 mt ++ tail)) (field_text 35 mt ++ tail) (zlen (field_text 35 mt)) carry_init) eqn:Ep.
  - left. apply payload_scan_sound in Ep as (fs & -> & Hr & Ht); [|rewrite length_app; unfold zlen; lia|done|done].
    by exists mt, fs.
  - right. intros mt' fs (Hm' & Hs' & Hr & Ht) E. pose proof (lead_text mt tail Hs) as H1.
    pose proof (lead_text mt' (fields_bytes fs) Hs') as H2. fold (payload_text mt' fs) in H2. rewrite <- E, H1 in H2.
    rewrite H2, E in Ep. unfold payload_text in Ep at 2. by rewrite payload_scan_complete in Ep.
Qed.
End Exact.

Section ReadBack.
Context (h : dict_hooks) `{!admin_hooks h} (is_header_tag : Z -> bool) (apd : bool).

(** The fields a payload keeps. *)
Definition kept (f : Z * bytes) : bool := apd || negb ((f.1 =? 43) || (f.1 =? 122)).

Definition idle (k : length_data_checker) : Prop := failed k = false /\ awaited_data k = 0.
Definition unarmed (c : length_data_carry) : Prop :=
  carry_data_tag c = 0 \/ length_tag_for_data h (carry_data_tag c) <> 0.

Lemma observe_idle k kk tag v k2 : idle k -> idle kk -> data_tag_for_length h tag <> 0 ->
  observe h k tag v = (true, k2) -> observe h kk tag v = (true, k2).
Proof using.
  intros [Hf Ha] [Hf' Ha'] Hd. unfold observe. rewrite Hf, Ha, Hf', Ha'. cbn.
  destruct (negb (length_tag_for_data h tag =? 0)); [done|].
  destruct (data_tag_for_length h tag =? 0) eqn:E; [lia|]. destruct (zlen v =? 0); [done|].
  destruct (checked_count v 0) as [m|]; [|done]. destruct (m =? 0); [discriminate|exact id].
Qed.

Lemma uncounted c tag : unarmed c -> length_tag_for_data h tag = 0 -> by_count c tag = false.
Proof using.
  intros Hc Ht. unfold by_count. destruct (Z.eqb_spec (carry_data_tag c) tag) as [E|]; [|by rewrite andb_false_r].
  destruct Hc as [Hc|Hc]; [by rewrite Hc|by rewrite E in Hc].
Qed.

Lemma unarmed_after c tag v : (data_tag_for_length h tag = 0 \/ length_tag_for_data h (data_tag_for_length h tag) <> 0) ->
  unarmed (carry_after h c tag v).
Proof using. done. Qed.

Lemma announces tag : 1 <= tag <= 0xFFFF -> data_tag_for_length h tag <> 0 ->
  length_tag_for_data h (data_tag_for_length h tag) = tag.
Proof using admin_hooks0.
  intros Ht Hd. apply (hooks_inverse h tag); try done; [apply _|unfold tag16; lia|apply data_tag_range; apply _|lia].
Qed.

Lemma excisable_plain tag : (tag =? 43) || (tag =? 122) = true -> plain_tag h tag.
Proof using admin_hooks0.
  intros E. assert (tag = 43 \/ tag = 122) as [-> | ->] by lia; (apply replay_tags_plain; [done|in_tags]).
Qed.

Definition well_arranged (k k' : length_data_checker) (c : length_data_carry) (prev : bool) (fs : list (Z * bytes)) : Prop :=
  Forall (fun f => length_tag_for_data h f.1 = 0 -> SOH ∉ f.2) fs /\
  (forall b kk, idle kk -> exists kk', idle kk' /\
     observe_all h kk (of_class b (classed h is_header_tag apd c prev fs)) = Some kk') /\
  map snd (classed h is_header_tag apd c prev fs) = List.filter kept fs.

Lemma arrange n : forall fs k k' c prev, (length fs <= n)%nat -> idle k -> unarmed c ->
  observe_all h k fs = Some k' -> awaited_data k' = 0 -> reads h c fs -> well_arranged k k' c prev fs.
Proof using admin_hooks0.
  induction n as [|n IH]; intros fs k k' c prev Hn Hk Hc Ho Hk' Hr; destruct fs as [|[tag v] fs]; try (cbn in Hn; lia).
  1,2: split_and!; [constructor|intros b kk Hkk; by exists kk|done].
  cbn [observe_all] in Ho. destruct (observe h k tag v) as [[] k2] eqn:Eo; [|done].
  destruct Hr as (Ht & Hv & Hcv & Hr). pose proof Hk as [Hf Ha].
  destruct (observe_cases h k tag v k2 Hf Eo) as [Ha' _ _|_ Hl Hd Hdv Hm|_ Hl Hd]; [lia| |].
  - (* a Length, and its Data *)
    destruct fs as [|[tag2 v2] fs]; [cbn in Ho; injection Ho as <-; done|].
    cbn [observe_all] in Ho. destruct (observe h _ tag2 v2) as [[] k3] eqn:Eo2; [|done].
    assert (Hc1 : by_count c tag = false) by by apply uncounted. rewrite Hc1 in Hcv.
    pose proof Eo2 as Eo2'. apply observe_cases in Eo2'; [|done].
    destruct Eo2' as [_ -> Hv2|Ha' _ _ _ _|Ha' _ _]; [|done..]. cbn [awaited_data awaited_len] in *.
    destruct Hr as (Ht2 & Hnil2 & Hcv2 & Hr).
    set (d := data_tag_for_length h tag) in *. set (c1 := carry_after h c tag v) in *.
    assert (Hcd : by_count c1 d = true).
    { unfold by_count, c1, carry_after. cbn [carry_data_tag]. fold d. rewrite Z.eqb_refl. by replace (d =? 0) with false by lia. }
    assert (Hplain : (tag =? 43) || (tag =? 122) = false).
    { destruct (_ || _) eqn:E; [|done]. apply excisable_plain in E as [E _]. done. }
    destruct (IH fs (Checker 0 (awaited_len (Checker d (dec_value v) false)) false) k' (carry_after h c1 d v2)
      (is_send_header_tag tag || is_header_tag tag)) as (I1 & I2 & I3); try done; [cbn in Hn; lia| |].
    { apply unarmed_after. destruct (decide (data_tag_for_length h d = 0)) as [|Hne]; [by left|right].
      by rewrite announces. }
    set (hdr := is_send_header_tag tag || is_header_tag tag) in *.
    assert (Hcl : classed h is_header_tag apd c prev ((tag, v) :: (d, v2) :: fs) =
      (hdr, (tag, v)) :: (hdr, (d, v2)) :: classed h is_header_tag apd (carry_after h c1 d v2) hdr fs).
    { cbn [classed]. fold c1. rewrite Hc1, Hcd. cbn [negb andb]. rewrite Hplain, andb_false_r. done. }
    assert (Hld : length_tag_for_data h d = tag) by by apply announces.
    unfold well_arranged. rewrite Hcl. split_and!.
    + constructor; [by intros _|]. constructor; [cbn [fst]; intros; lia|done].
    + intros b kk Hkk. unfold of_class. cbn [List.filter fst]. destruct (Bool.eqb hdr b).
      * cbn [map snd observe_all]. rewrite (observe_idle k kk tag v _ Hk Hkk Hd Eo).
        cbv beta iota. rewrite Eo2. cbv beta iota. apply I2. by split.
      * by apply I2.
    + cbn [map snd List.filter]. rewrite I3. unfold kept at 2 3. cbn [fst].
      rewrite Hplain. cbn [negb]. rewrite orb_true_r.
      assert (Hp2 : (d =? 43) || (d =? 122) = false).
      { apply not_true_is_false. intros E. apply excisable_plain in E as [_ E]. lia. }
      rewrite Hp2. cbn [negb]. by rewrite orb_true_r.
  - (* any other field *)
    assert (Hc1 : by_count c tag = false) by by apply uncounted. rewrite Hc1 in Hcv.
    destruct (IH fs k k' (carry_after h c tag v) (is_send_header_tag tag || is_header_tag tag)) as (I1 & I2 & I3);
      try done; [cbn in Hn; lia|by apply unarmed_after; left|].
    set (hdr := is_send_header_tag tag || is_header_tag tag) in *.
    assert (Hkeep : kept (tag, v) = negb (negb apd && ((tag =? 43) || (tag =? 122)))).
    { unfold kept. cbn [fst]. by destruct apd, ((tag =? 43) || (tag =? 122)). }
    unfold well_arranged. cbn [classed List.filter]. rewrite Hc1, Hkeep. fold hdr. cbn [negb andb].
    destruct (negb apd && _); cbn [negb]; split_and!; try (constructor; [by intros _|done]); try done.
    + intros b kk Hkk. unfold of_class. cbn [List.filter fst]. destruct (Bool.eqb hdr b); [|by apply I2].
      cbn [map snd observe_all]. destruct Hkk as [Hkf Hka]. rewrite observe_plain_ok by done. by apply I2.
    + cbn [map snd]. by rewrite I3.
Qed.
End ReadBack.

Section ReadBackFrame.
Context (h : dict_hooks) `{!admin_hooks h} (is_header_tag : Z -> bool) (apd : bool).
Context (bs sender target st52 : bytes) (seq : seqnum_t) (mt : bytes) (fs : list (Z * bytes)).
Notation sent := (sent_fields h is_header_tag apd sender target st52 seq mt fs).

Lemma reads_tags c l : reads h c l -> Forall (fun f => 1 <= f.1 <= 0xFFFF) l.
Proof using.
  revert c. induction l as [|[t v] l IH]; intros c; [by constructor|]. intros (Ht & _ & _ & Hr). constructor; [done|by eapply IH].
Qed.

(** The arrangement keeps the fields, and the Length+Data rule. *)
Lemma arranged_facts : sendable h mt fs -> container_conforms h fs = true ->
  arranged h is_header_tag apd fs ≡ₚ List.filter (kept apd) fs /\
  Forall (fun f => length_tag_for_data h f.1 = 0 -> SOH ∉ f.2) fs /\
  forall k, idle k -> exists k', idle k' /\ observe_all h k (arranged h is_header_tag apd fs) = Some k'.
Proof using admin_hooks0.
  intros (_ & _ & Hr & _) Hc. unfold container_conforms in Hc.
  destruct (observe_all h checker_init fs) as [k'|] eqn:Eo; [|done]. cbn in Hc. apply andb_true_iff in Hc as [_ Hc].
  destruct (arrange h is_header_tag apd (length fs) fs checker_init k' carry_init false) as (I1 & I2 & I3);
    try done; [by left|lia|]. split_and!; [|done|].
  - rewrite <- I3. unfold arranged, of_class. cbv zeta. rewrite <- map_app. apply Permutation_map.
    generalize (classed h is_header_tag apd carry_init false fs). clear. induction l as [|[b f] l IH]; [done|].
    cbn [List.filter fst]. destruct b; cbn [Bool.eqb].
    + cbn [app]. by rewrite IH.
    + rewrite <- Permutation_middle. by rewrite IH.
  - intros k Hk. unfold arranged. cbv zeta. rewrite observe_all_app.
    destruct (I2 true k Hk) as (k1 & Hk1 & ->). by apply I2.
Qed.

Lemma sent_conforming : sendable h mt fs -> container_conforms h fs = true ->
  SOH ∉ bs -> SOH ∉ sender -> SOH ∉ target -> SOH ∉ st52 -> conforming h (frame_fields bs sent).
Proof using admin_hooks0.
  intros Hsend Hc Hbs Hs Ht Hst. destruct (arranged_facts Hsend Hc) as (Hp & Hv & Ho).
  assert (Hin : forall P, Forall P fs -> Forall P (arranged h is_header_tag apd fs)).
  { intros P HP. rewrite Forall_forall in *. intros f Hf. apply HP. rewrite Hp in Hf.
    apply list_elem_of_In, List.filter_In in Hf as [Hf _]. by apply list_elem_of_In. }
  assert (Hplain : forall t, t ∈ replay_tags -> plain_tag h t) by (intros; by apply replay_tags_plain).
  destruct Hsend as (Hm & Hms & Hr & _). pose proof (reads_tags _ _ Hr) as Htags.
  destruct (Ho checker_init) as (k' & Hk' & Ho'); [done|]. split.
  - apply _.
  - unfold container_conforms, frame_fields, sent_fields. cbv zeta. cbn [app observe_all].
    repeat (rewrite observe_plain_ok; [|done|done|apply Hplain; in_tags]).
    rewrite observe_all_app, Ho'. destruct Hk' as [Hf Ha]. cbn [observe_all].
    rewrite observe_plain_ok; [|done|done|apply Hplain; in_tags]. unfold finish. cbn [fst]. by rewrite Hf, Ha.
  - unfold frame_fields, sent_fields. cbv zeta. cbn [app]. repeat (apply Forall_cons; split; [cbn; lia|]).
    apply Forall_app. split; [|apply Forall_singleton; cbn; lia]. apply Hin.
    eapply Forall_impl; [exact Htags|]. cbn. lia.
  - unfold frame_fields, sent_fields. cbv zeta. cbn [app].
    do 7 (apply Forall_cons; split; [intros _; first [assumption|apply dec_text_clean]|]).
    apply Forall_app. split; [by apply Hin|apply Forall_singleton; intros _; apply digits_no_SOH, fixed_digits_digits].
Qed.

Lemma sent_last t : existsb session_tag fs = false -> sendable h mt fs -> container_conforms h fs = true ->
  existsb (Z.eqb t) [34; 35; 49; 52; 56] = true ->
  last_value t (frame_fields bs sent) [] = last_value t [(35, mt); (34, dec_text seq); (49, sender); (52, st52); (56, target)] [].
Proof using admin_hooks0.
  intros Hno Hsend Hc Hin. destruct (arranged_facts Hsend Hc) as (Hp & _).
  cbn [existsb] in Hin. rewrite last_value_frame by lia. replace (8 =? t) with false by lia.
  unfold sent_fields. rewrite last_value_app. apply last_value_none. rewrite Forall_forall. intros f Hf E.
  rewrite Hp in Hf. apply list_elem_of_In, List.filter_In in Hf as [Hf _].
  assert (He : existsb session_tag fs = true).
  { apply existsb_exists. exists f. split; [done|]. unfold session_tag, kRefusedTags. cbn [existsb]. lia. }
  congruence.
Qed.
End ReadBackFrame.

(** A strict scan splits the frame of a conforming payload into exactly the fields sent. *)
Lemma sent_reads_back h `{!admin_hooks h} is_header_tag apd bs sender target st52 seq mt fs :
  sendable h mt fs -> container_conforms h fs = true ->
  SOH ∉ bs -> SOH ∉ sender -> SOH ∉ target -> SOH ∉ st52 ->
  let body := sent_fields h is_header_tag apd sender target st52 seq mt fs in
  let text := frame_text bs body in
  zlen text <= kSendFrameBytes ->
  build_send_frame_ h is_header_tag kSendFrameBytes apd bs sender target st52 seq (payload_text mt fs) = Ok (Built text seq) /\
  split_fields text h = (frame_fields bs body, (fault_none, 0, 0)) /\
  arranged h is_header_tag apd fs ≡ₚ List.filter (kept apd) fs /\
  let hd := scan_frame_header text h in
  fault hd = fault_none /\ msg_type_is_third hd = true /\ FrameHeader.msg_type hd = mt /\
  msg_seq_num hd = dec_text seq /\ sender_comp_id hd = sender /\ target_comp_id hd = target /\
  FrameHeader.begin_string hd = bs /\ FrameHeader.sending_time hd = st52.
Proof.
  intros Hsend Hc Hbs Hs Ht Hst body text Hl.
  split. { rewrite build_sendable by (done || (unfold kSendFrameBytes; lia)). fold body text. by replace (zlen text <=? _) with true by lia. }
  destruct (sent_conforming h is_header_tag apd bs sender target st52 seq mt fs Hsend Hc Hbs Hs Ht Hst) as [H1 H2 H3 H4].
  fold body in H2, H3, H4.
  assert (Hsp : split_fields text h = (frame_fields bs body, (fault_none, 0, 0)))
    by (unfold text; rewrite frame_text_fields; by apply split_conforming).
  split; [done|]. split; [by apply (arranged_facts h is_header_tag apd mt fs)|]. intros hd.
  pose proof (scan_header_facts text h ltac:(unfold kSendFrameBytes, UINT32_MAX in *; lia)) as Hf.
  rewrite Hsp in Hf. fold hd in Hf. destruct Hf as (Hmem & _ & _ & H35 & _ & Hft & _).
  unfold header_members in Hmem. rewrite !Forall_cons in Hmem.
  destruct Hmem as (_ & M8 & _ & M34 & M35 & _ & _ & M49 & M52 & M56 & _).
  pose proof Hsend as (_ & _ & _ & Hno). unfold body in M8, M34, M35, M49, M52, M56.
  rewrite sent_last in M34, M35, M49, M52, M56 by (done || vm_compute; reflexivity).
  split_and!; [exact Hft|exact H35|exact M35|exact M34|exact M49|exact M56| |exact M52].
  rewrite M8, last_value_frame by done. unfold sent_fields. rewrite last_value_app. apply last_value_none.
  destruct (arranged_facts h is_header_tag apd mt fs Hsend Hc) as (Hp & _).
  rewrite Forall_forall. intros f Hf E. rewrite Hp in Hf. apply list_elem_of_In, List.filter_In in Hf as [Hf _].
  assert (He : existsb session_tag fs = true).
  { apply existsb_exists. exists f. split; [done|]. unfold session_tag, kRefusedTags. cbn [existsb]. lia. }
  congruence.
Qed.

(** ** Properties *)

(** C7: what an application message is sent as.  A payload is sent iff it is a MsgType(35) and
    fields the session can read - canonical tags, values that are not empty and end at their
    SOH or, a Data value, after the count just before it - none of which is the session's
    own; anything else is refused as malformed.  The frame is then, to the byte, BeginString,
    BodyLength, the MsgType, the number, the CompIDs and the stamp, the payload's header
    fields in order, its other fields in order, and the CheckSum, with PossDupFlag and
    OrigSendingTime left out unless the session allows them; a frame too long for the buffer
    is refused. *)
Theorem send_frame_exact h is_header_tag cap apd bs sender target st52 seq payload :
  0 <= cap <= kSendFrameBytes ->
  let built := build_send_frame_ h is_header_tag cap apd bs sender target st52 seq payload in
  (exists mt fs, sendable h mt fs /\ payload = payload_text mt fs /\
    let text := frame_text bs (sent_fields h is_header_tag apd sender target st52 seq mt fs) in
    built = if zlen text <=? cap then Ok (Built text seq) else Err wire_frame_too_large) \/
  ((forall mt fs, sendable h mt fs -> payload <> payload_text mt fs) /\ built = Err app_payload_malformed).
Proof.
  intros Hcap built. destruct (sendable_or h payload) as [(mt & fs & Hs & ->)|Hno].
  - left. exists mt, fs. split_and!; [done..|]. by apply build_sendable.
  - right. split; [done|]. by apply build_unsendable.
Qed.

(** [35=D|58=hi|50=S|43=Y|], the header field moved and PossDupFlag dropped. *)
Definition order_payload : bytes := payload_text [68] [(58, [104; 105]); (50, [83]); (43, [89])].

Lemma send_frame_exact_witness :
  build_send_frame_ no_hooks (fun _ => false) 4096 false [70] [65] [66] [116] 7 order_payload =
    Ok (Built (frame_text [70] [(35, [68]); (34, [55]); (49, [65]); (52, [116]); (56, [66]); (50, [83]); (58, [104; 105])]) 7).
Proof.
  destruct (send_frame_exact no_hooks (fun _ => false) 4096 false [70] [65] [66] [116] 7 order_payload)
    as [(mt & fs & Hs & Ep & Eb)|[_ Eb]]; [split; discriminate|..].
  - vm_compute. reflexivity.
  - exfalso. vm_compute in Eb. discriminate Eb.
Defined.

(** [35=D|95=3|96=a<SOH>b|50=S|58=hi|]: the header field is moved ahead of a Data value that
    holds an SOH. *)
Definition data_fields : list (Z * bytes) := [(95, [51]); (96, [97; 1; 98]); (50, [83]); (58, [104; 105])].

Lemma data_sendable : sendable no_hooks [68] data_fields.
Proof.
  split; [done|]. split; [by intros H%list_elem_of_singleton|]. split; [|reflexivity].
  assert (Hs : forall l, forallb (fun c => negb (c =? SOH)) l = true -> SOH ∉ l)
    by (intros l Hl Hin; rewrite forallb_forall in Hl; by apply list_elem_of_In, Hl in Hin).
  unfold data_fields. cbn [reads].
  assert (Hc : by_count carry_init 95 = false /\ by_count (carry_after no_hooks carry_init 95 [51]) 96 = true /\
    carry_count (carry_after no_hooks carry_init 95 [51]) = zlen [97; 1; 98]) by (vm_compute; done).
  destruct Hc as (-> & -> & Hn).
  match goal with |- context [by_count ?c 50] => assert (by_count c 50 = false) as -> by (vm_compute; done) end.
  match goal with |- context [by_count ?c 58] => assert (by_count c 58 = false) as -> by (vm_compute; done) end.
  assert (Hr : forall t, bool_decide (1 <= t <= 0xFFFF) = true -> 1 <= t <= 0xFFFF) by (intros t Ht; by apply bool_decide_eq_true in Ht).
  split; [by apply Hr|]. split; [discriminate|]. split; [by apply Hs|].
  split; [by apply Hr|]. split; [discriminate|]. split; [exact Hn|].
  split; [by apply Hr|]. split; [discriminate|]. split; [by apply Hs|].
  split; [by apply Hr|]. split; [discriminate|]. split; [by apply Hs|exact I].
Qed.

(** The frame a payload is sent as; empty when it is refused. *)
Definition frame_sent (fs : list (Z * bytes)) : bytes :=
  match build_send_frame_ no_hooks (fun _ => false) kSendFrameBytes false [70] [65] [66] [116] 7 (payload_text [68] fs) with
  | Ok b => sf_frame b
  | Err _ => []
  end.

(** Moving a header field can break the message.  [35=D|95=3|50=S|96=a|58=bc|] is accepted:
    its Length is not followed by its Data, so every field ends at its SOH.  Sent, the header
    field between them is gone, the Data is read by a count that was not its own, and the
    frame can no longer be read. *)
Theorem moved_header_pairs_fields :
  let fs := [(95, [51]); (50, [83]); (96, [97]); (58, [98; 99])] in
  build_send_frame_ no_hooks (fun _ => false) kSendFrameBytes false [70] [65] [66] [116] 7 (payload_text [68] fs) =
    Ok (Built (frame_sent fs) 7) /\
  fault (scan_frame_header (frame_sent fs) no_hooks) = length_data_mismatch.
Proof. split; vm_compute; reflexivity. Qed.
