(* ===== verification/SessionSend.v ===== *)
(** Sending an application message (src/session/session.cpp: [Session::send], [send_body_],
    [send_deferred_], [send_impl], [send_fallback_leaf_]): the state test, the hop off a
    callback's stack, the frame slot, the toApp verdict, the number, and the emission. *)
From stdpp Require Import strings.
From S2P Require Import Prelude Errors FixTime LengthData VersionProfile Writer FrameHeader OffsetTable Credentials.
From S2P Require Import Seqnum MessageStore AdminMessages SessionState SessionCore Routing Replay SessionClose.
From S2P Require Import InboundActive Inbound SendFrame.

Definition is_persistent_retain_fatal (e : error) : bool :=
  (error_value store_io_failure <=? error_value e) && (error_value e <? error_value store_cancelled).

Section Send.
Context {St SE : Type} `{MessageStore St SE} (w : world St SE).
Context (cfg : SessionConfig) (has_clock has_application : bool) (rt : routing).
Context (close_flush_hook_a1_ : option (SE -> St -> St * result error unit)).

Notation hooks := (inbound_hooks rt).
Notation disconnect := (record_state_transition_ w has_application Disconnected).
Notation emit_frame seq frame :=
  (co_await w (store_then_emit w has_clock has_application hooks seq frame None true)).
Notation close_terminal :=
  (co_await w (close w cfg has_clock has_application hooks close_flush_hook_a1_ false terminal)).

(** The frame of [app_payload] under the stamp and the number given. *)
Definition send_frame (st52 : bytes) (seq : seqnum_t) (app_payload : bytes) : expected send_frame_built :=
  build_send_frame_ hooks (inbound_header_tag rt) kSendFrameBytes (cfg_allow_pos_dup cfg)
    (cfg_begin_string cfg) (cfg_sender_comp_id cfg) (cfg_target_comp_id cfg) st52 seq app_payload.

(** With the result, [disconnect_required]. *)
Definition send_impl (app_payload : bytes) : M St (result error unit * bool) :=
  let! st52 := stamp w cfg has_clock in
  let! seq := get (fun s => peek_outbound (seqnum_mgr_ s)) in
  match send_frame st52 seq app_payload with
  | Err e => ret (Err e, false)
  | Ok built =>
      let frame := sf_frame built in
      let! cb_r := if has_application then dispatch_outbound w rt frame (ToApp frame)
                   else ret (Ok dispatched) in
      match cb_r with
      | Err e =>
          if is_threw e then let! r := close_terminal in ret (Err e, false)
          else ret (Err e, false)
      | Ok _ =>
          let! a := with_mgr w assign_outbound in
          match a with
          | Err e => ret (Err e, is_persistent_retain_fatal e)
          | Ok _ =>
              let! emit_r := emit_frame (sf_seq built) frame in
              ret (emit_r, match emit_r with Err e => is_persistent_retain_fatal e | Ok _ => false end)
          end
      end
  end.

(** [send_fallback_leaf_]: the same into a buffer of its own, as long as the slot. *)
Definition send_fallback_leaf_ (app_payload : bytes) : M St (result error unit * bool) :=
  co_await w (send_impl app_payload).

(** [send_slot_holder]: the slot is held while [m] runs, and released on every exit, unless
    another send holds it. *)
Definition with_send_slot {A} (m : bool -> M St A) : M St A :=
  let! in_use := get send_slot_in_use_ in
  let release := if in_use : bool then ret tt else modify (set_send_slot false) in
  (if in_use : bool then ret tt else modify (set_send_slot true)) ;;
  let! r := catch (m (negb in_use)) (fun c => release ;; abort c) in
  release ;; ret r.

(** What [send_body_] runs in Active, off every callback's stack. *)
Definition send_active (app_payload : bytes) : M St (result error unit) :=
  catch
    (with_send_slot (fun held =>
       let! impl_r := if held : bool then co_await w (send_impl app_payload)
                      else send_fallback_leaf_ app_payload in
       (if impl_r.2 || bool_decide (impl_r.1 = Err dispatch_aborted) then disconnect else ret tt) ;;
       ret impl_r.1))
    (fun _ => disconnect_once w has_application ;; ret (Err dispatch_aborted)).

(** [send_body_]; [deferred] is where the depth test sends it, when it is applied and a
    callback is on the stack. *)
Definition send_body_ (deferred : option (M St (result error unit))) (app_payload : bytes)
  : M St (result error unit) :=
  let! st := get (fun s => fsm_state_ (s_fsm s)) in
  if negb (fsm_is st Active) then ret (Err session_invalid_state_for_send)
  else match deferred with Some d => d | None => send_active app_payload end.

Definition send_deferred_ (app_payload : bytes) : M St (result error unit) :=
  (* the hop: a post onto the session's executor *)
  suspend w ;;
  let! cancelled := ask (w_cancelled w) in
  if cancelled : bool then ret (Err dispatch_aborted)
  else
    let! lc := get (fun s => state_ (s_close s)) in
    if bool_decide (lc = closing) then ret (Err session_invalid_state_for_send)
    else co_await w (send_body_ None app_payload).

(** [send]; [in_callback]: toApp or toAdmin of this session is on the stack.  The [co_await]
    of the deferred path stands outside the try: an exception there leaves the coroutine. *)
Definition send (in_callback : bool) (app_payload : bytes) : M St (result error unit) :=
  send_body_ (if in_callback then Some (co_await w (send_deferred_ app_payload)) else None) app_payload.
End Send.

(** ** Lemmas *)

Section SendLemmas.
Context {St SE : Type} `{MessageStore St SE} (w : world St SE).
Context (cfg : SessionConfig) (has_clock has_application : bool) (rt : routing).
Context (close_flush_hook_a1_ : option (SE -> St -> St * result error unit)).
Context (app_payload : bytes).

Notation hooks := (inbound_hooks rt).

(** A frame of the payload, under some stamp and number. *)
Definition carries (frame : bytes) : Prop :=
  exists st52 seq, send_frame cfg rt st52 seq app_payload = Ok (Built frame seq).

(** Not a transmission of the payload. *)
Definition elsewhere (e : effect) : Prop := forall frame, e = Transmitted frame -> ~ carries frame.

Context (Hother : forall n s, quiet elsewhere s (w_other w n s)).
Context (Hthrow : forall n k, w_throw w n <> throw_other k).
Notation Q := (quiet (St := St) elsewhere).

(** What sending comes to: a success transmitted the payload once, stored before where the
    store is a persistent one; anything else transmitted it nowhere. *)
Definition sent (s s' : Session St) (v : outcome (result error unit)) : Prop :=
  exists t, s_trace s' = s_trace s ++ t /\
  match v with
  | Ret (Ok _) =>
      (Forall elsewhere t /\ can_transmit s = false) \/
      exists frame st52 t1 t2, let seq := peek_outbound (seqnum_mgr_ s) in
        send_frame cfg rt st52 seq app_payload = Ok (Built frame seq) /\
        t = t1 ++ Transmitted frame :: t2 /\ Forall elsewhere t1 /\ Forall elsewhere t2 /\
        (store_is_persistent_ (s_store s) = true -> forall st data, store_ (s_store s) = Some st ->
           span_to_store hooks frame = Some data -> Stored seq data ∈ t1)
  | _ => Forall elsewhere t
  end.

Lemma sent_refused s s' v : Q s s' -> match v with Ret (Ok _) => False | _ => True end -> sent s s' v.
Proof using. intros ((t & E & Ht) & _) Hv. exists t. split; [done|]. by destruct v as [[]|]. Qed.

(** What precedes an emission and leaves its number and store alone. *)
Definition preparing (s s1 : Session St) : Prop :=
  Q s s1 /\ seqnum_mgr_ s1 = seqnum_mgr_ s /\ s_store s1 = s_store s.

Lemma sent_after s s1 s' v : preparing s s1 -> sent s1 s' v -> sent s s' v.
Proof using.
  intros (((t0 & E0 & H0) & _ & Ht) & Em & Es) (t & E & Hv). exists (t0 ++ t).
  split; [by rewrite E, E0, app_assoc|]. assert (Hc : can_transmit s1 = can_transmit s) by (unfold can_transmit; by rewrite Ht).
  destruct v as [[u|e]|c]; [|by apply Forall_app..]. destruct Hv as [[Hv Hn]|(f & st52 & t1 & t2 & Hf & -> & H1 & H2 & Hst)].
  - left. split; [by apply Forall_app|congruence].
  - right. exists f, st52, (t0 ++ t1), t2. rewrite Em in Hf, Hst. rewrite Es in Hst. split; [exact Hf|].
    split; [by rewrite <- app_assoc|]. split; [by apply Forall_app|]. split; [done|].
    intros Hp st data Hst' Hsp. apply elem_of_app. right. by eapply Hst.
Qed.

Lemma sent_later s s1 s' v : sent s s1 v -> Q s1 s' -> sent s s' v.
Proof using.
  intros (t & E & Hv) ((t' & E' & H') & _). exists (t ++ t'). split; [by rewrite E', E, app_assoc|].
  destruct v as [[u|e]|c]; [|by apply Forall_app..]. destruct Hv as [[Hv Hn]|(f & st52 & t1 & t2 & Hf & -> & H1 & H2 & Hst)].
  - left. split; [by apply Forall_app|done].
  - right. exists f, st52, t1, (t2 ++ t'). split; [done|]. split; [by rewrite <- app_assoc|]. split; [done|].
    split; [by apply Forall_app|done].
Qed.

Lemma elsewhere_other e : (forall frame, e <> Transmitted frame) -> elsewhere e.
Proof using. intros He f ->. by destruct (He f). Qed.

Lemma preparing_same (f : Session St -> Session St) s :
  s_trace (f s) = s_trace s -> s_store (f s) = s_store s -> s_transport (f s) = s_transport s ->
  seqnum_mgr_ (f s) = seqnum_mgr_ s -> preparing s (f s).
Proof using. intros E1 E2 E3 E4. split; [|done]. split; [by apply adds_same|]. by rewrite E2. Qed.

Lemma preparing_trans s s1 s2 : preparing s s1 -> preparing s1 s2 -> preparing s s2.
Proof using. intros (A & B & C) (A' & B' & C'). split; [by etransitivity|]. split; congruence. Qed.

Lemma stamp_preparing s : exists s1 v, stamp w cfg has_clock s = (s1, Ret v) /\ preparing s s1.
Proof using.
  unfold stamp. destruct has_clock; [|by exists s, []; split; [|split]].
  eexists _, _. split; [reflexivity|]. by apply (preparing_same upd_tick).
Qed.

Lemma to_app_preparing f s : exists s1 r, 
  (if has_application then dispatch_outbound w rt f (ToApp f) else ret (Ok dispatched)) s = (s1, Ret r) /\ preparing s s1.
Proof using.
  destruct has_application; [|by exists s, (Ok dispatched); split; [|split]].
  unfold dispatch_outbound, bind, ask. destruct (negb _).
  { eexists _, _. split; [reflexivity|]. by apply (preparing_same (fun s => upd_tick (upd_tick s))). }
  eexists _, _. split; [reflexivity|]. split; [|done].
  split; [|done]. exists [ToApp f]. split; [done|]. constructor; [by apply elsewhere_other|constructor].
Qed.

(** *** A terminal close *)

Lemma keeps_same (f : Session St -> Session St) :
  (forall s, s_trace (f s) = s_trace s /\ store_is_persistent_ (s_store (f s)) = store_is_persistent_ (s_store s) /\
    s_transport (f s) = s_transport s) -> keeps Q (modify f).
Proof using. intros Hf. apply keeps_modify. by apply quiet_same. Qed.

Lemma keeps_question {A} (f : nat -> A) : keeps Q (ask f).
Proof using. apply keeps_ask. by apply quiet_same. Qed.

Lemma keeps_reset : keeps Q (reset_seqnums_to_one_durable (shield w) logged).
Proof using Hother.
  unfold reset_seqnums_to_one_durable, with_store. repeat keeps_step; [apply keeps_with_mgr|].
  by apply keeps_store_await.
Qed.

Lemma keeps_terminal : keeps Q (close w cfg has_clock has_application hooks close_flush_hook_a1_ false terminal).
Proof using Hother.
  unfold close, close_open, teardown_reset, await_reset_unit, disconnect_once, close_transport, steady_now.
  repeat keeps_step; first [by apply keeps_suspend | by apply keeps_same | by apply keeps_question | by apply keeps_reset
    | by apply keeps_transition; apply elsewhere_other
    | apply keeps_emit; intros s; apply quiet_add; by apply elsewhere_other].
Qed.

(** *** The send *)

Lemma built_seq h is_header_tag cap apd bs sender target st52 seq payload f n :
  build_send_frame_ h is_header_tag cap apd bs sender target st52 seq payload = Ok (Built f n) -> n = seq.
Proof using.
  unfold build_send_frame_, rbind. cbv zeta. intros E. repeat (match type of E with
    | (if ?b then _ else _) = _ => destruct b
    | match ?x with _ => _ end = _ => destruct x
    end; try discriminate E). by injection E.
Qed.

Lemma send_frame_error st52 seq payload e :
  send_frame cfg rt st52 seq payload = Err e -> e = app_payload_malformed \/ e = wire_frame_too_large.
Proof using.
  unfold send_frame, build_send_frame_, rbind. cbv zeta. intros E.
  assert (Hfit : forall cap chunks buf e, fit_all cap buf chunks = Err e -> e = wire_frame_too_large).
  { intros cap chunks. induction chunks as [|c chunks IH]; intros buf e'; [done|]. cbn [fit_all]. unfold fit.
    destruct (_ <? _); [by intros [= <-]|apply IH]. }
  assert (Hpass : forall fuel apd hp pv pos c prev strip e,
    partition_pass hooks (inbound_header_tag rt) fuel apd hp pv pos c prev strip = Err e ->
    e = app_payload_malformed \/ e = wire_frame_too_large).
  { intros fuel. induction fuel as [|fuel IH]; intros apd hp pv pos c prev strip e'; [done|]. cbn [partition_pass].
    destruct (_ <=? _); [done|]. destruct (next_field _ _ _ _) as [[fd|] c']; [|intros [= <-]; by left].
    unfold fit. destruct (_ && _); [destruct (_ <? _); [intros [= <-]; by right|]|]; apply IH. }
  destruct (negb _); [injection E as <-; by left|]. destruct (negb _); [injection E as <-; by left|].
  unfold fit in E at 1. destruct (_ <? _); [injection E as <-; by right|].
  destruct (partition_pass _ _ _ _ _ _ _ _ _ _) as [s1|] eqn:E1; [|injection E as <-; by apply Hpass in E1].
  destruct (partition_pass _ _ _ _ false _ _ _ _ _) as [s2|] eqn:E2; [|injection E as <-; by apply Hpass in E2].
  destruct (_ <=? _); [injection E as <-; by left|].
  repeat (match type of E with match ?x with _ => _ end = _ => destruct x eqn:? end; [|injection E as <-; right; by eapply Hfit]).
  done.
Qed.

Lemma post_run {A} (m : M St A) s s1 r R : m s = (s1, r) -> R s1 r -> post m s R.
Proof using. intros E HR. unfold post. by rewrite E. Qed.

Lemma post_quiet {A} (m : M St A) s s1 : keeps Q m -> Q s s1 -> post m s1 (fun s' _ => Q s s').
Proof using. intros Hk Hs. unfold post. etransitivity; [exact Hs|apply Hk]. Qed.

Lemma awaited_keeps {A} (m : M St A) : keeps Q m -> keeps Q (co_await w m).
Proof using. apply keeps_co_await; [typeclasses eauto|]. by apply quiet_same. Qed.

(** The result without [disconnect_required]. *)
Definition impl_result (v : outcome (result error unit * bool)) : outcome (result error unit) :=
  match v with Ret r => Ret r.1 | Aborted c => Aborted c end.

Lemma send_impl_post s : post (send_impl w cfg has_clock has_application rt close_flush_hook_a1_ app_payload) s
  (fun s' v => sent s s' (impl_result v)).
Proof using Hother Hthrow.
  unfold send_impl. apply post_bind. destruct (stamp_preparing s) as (s1 & st52 & E1 & P1).
  eapply post_run; [exact E1|]. cbn beta iota. apply post_bind, post_get. cbn beta iota. pose proof P1 as (Q1 & M1 & T1). rewrite M1.
  destruct (send_frame _ _ _ _ _) as [[f seq']|e] eqn:Ef; [|apply post_ret; by apply sent_refused].
  assert (seq' = peek_outbound (seqnum_mgr_ s)) as ->.
  { by apply built_seq in Ef. }
  cbn [sf_frame sf_seq]. apply post_bind. destruct (to_app_preparing f s1) as (s2 & r & E2 & P2).
  eapply post_run; [exact E2|]. cbn beta iota. pose proof (preparing_trans _ _ _ P1 P2) as P3. pose proof P3 as (Q3 & M3 & T3).
  destruct r as [d|e].
  2: { destruct (is_threw e); [|apply post_ret; by apply sent_refused].
       apply post_bind. eapply post_weaken; [apply (post_quiet _ s); [by apply awaited_keeps, keeps_terminal|exact Q3]|].
       intros s4 [r|c] HQ; [apply post_ret|]; by apply sent_refused. }
  apply post_bind. unfold with_mgr. apply post_co_await.
  { apply sent_refused; [|done]. etransitivity; [exact Q3|]. by apply quiet_same. }
  apply post_bind, post_ask. intros locked. unfold post at 1.
  destruct (assign_outbound locked (seqnum_mgr_ _)) as [m a] eqn:Ea. cbn.
  set (s4 := upd_mgr _ _). assert (Q4 : Q s s4) by (etransitivity; [exact Q3|]; by apply (quiet_same elsewhere (fun s => upd_mgr (fun _ => m) (upd_tick (upd_tick s))))).
  destruct a as [n|e]; [|apply post_ret; by apply sent_refused].
  apply post_bind. apply post_co_await; [apply sent_refused; [|done]; etransitivity; [exact Q4|by apply quiet_same]|].
  eapply post_weaken.
  { eapply (store_then_emit_post w has_clock has_application hooks elsewhere Hother); try done; by intros; apply elsewhere_other. }
  intros s5 v (t & E & Hv).
  destruct Q4 as ((t0 & E0 & F0) & Hp & Htr).
  cut (sent s s5 v).
  { intros Hs. destruct v as [v|c]; [|exact Hs]. apply post_ret. exact Hs. }
  exists (t0 ++ t). split; [rewrite E; cbn [upd_tick s_trace]; by rewrite E0, app_assoc|].
  destruct v as [[u|e]|c]; [|by apply Forall_app|apply Forall_app; split; [done|apply Hv]].
  destruct Hv as [[Hv Hn]|(_ & t1 & t2 & -> & F1 & F2 & Hst)].
  - left. split; [by apply Forall_app|]. specialize (Hn eq_refl eq_refl). unfold can_transmit in *. cbn [upd_tick s_transport] in Hn.
    by rewrite <- Htr.
  - right. exists f, st52, (t0 ++ t1), t2. split; [exact Ef|]. split; [by rewrite <- app_assoc|].
    split; [by apply Forall_app|]. split; [done|]. intros Hper st data Hst' Hsp. apply elem_of_app. right.
    assert (Hs4 : s_store (upd_tick s4) = s_store s) by exact T3. rewrite Hs4 in Hst. by eapply Hst.
Qed.

Notation send_impl := (send_impl w cfg has_clock has_application rt close_flush_hook_a1_ app_payload).
Notation returns v := (match v with Ret _ => True | Aborted _ => False end).

Lemma slot_preparing b s : preparing s (set_send_slot b s).
Proof using. by apply (preparing_same (set_send_slot b)). Qed.

(** Releasing the slot, or leaving it to its holder. *)
Lemma release_run (b : bool) s : exists s1,
  (if b then ret tt else modify (set_send_slot false)) s = (s1, Ret tt) /\ Q s s1.
Proof using. destruct b; eexists; (split; [done|]); [reflexivity|by apply quiet_same]. Qed.

Lemma with_slot_post (m : bool -> M St (result error unit)) s :
  (forall b s1, post (m b) s1 (fun s' v => sent s1 s' v)) -> post (with_send_slot m) s (fun s' v => sent s s' v).
Proof using.
  intros Hm. unfold with_send_slot. apply post_bind, post_get. cbn beta iota zeta.
  set (b := send_slot_in_use_ s). apply post_bind.
  assert (H0 : exists s0, (if b then ret tt else modify (set_send_slot true)) s = (s0, Ret tt) /\ preparing s s0).
  { destruct b; eexists; (split; [done|]); [by split; [reflexivity|]|apply slot_preparing]. }
  destruct H0 as (s0 & E0 & P0). eapply post_run; [exact E0|]. cbn beta iota.
  apply post_bind, post_catch. eapply post_weaken; [apply Hm|]. intros s1 v Hs.
  destruct (release_run b s1) as (s2 & E2 & Q2).
  assert (Hs2 : sent s s2 v) by (eapply sent_after; [exact P0|]; eapply sent_later; [exact Hs|exact Q2]).
  destruct v as [r|c].
  - apply post_bind. eapply post_run; [exact E2|]. by apply post_ret.
  - apply post_bind. eapply post_run; [exact E2|]. by apply post_abort.
Qed.

Lemma disconnects_run (b : bool) s : exists s1,
  (if b then record_state_transition_ w has_application Disconnected else ret tt) s = (s1, Ret tt) /\ Q s s1.
Proof using Hother.
  destruct b; [|by exists s; split; [done|reflexivity]].
  destruct (transition_spec w has_application Disconnected s) as (s1 & E & _). exists s1. split; [done|].
  assert (Hk : Q s (record_state_transition_ w has_application Disconnected s).1)
    by (apply keeps_transition; by apply elsewhere_other).
  by rewrite E in Hk.
Qed.

Lemma send_active_post s : post (send_active w cfg has_clock has_application rt close_flush_hook_a1_ app_payload) s
  (fun s' v => sent s s' v /\ returns v).
Proof using Hother Hthrow.
  unfold send_active. apply post_catch. eapply post_weaken.
  - apply with_slot_post. intros b s1. apply post_bind.
    assert (Hi : post (if b then co_await w send_impl else send_fallback_leaf_ w cfg has_clock has_application rt
        close_flush_hook_a1_ app_payload) s1 (fun s' v => sent s1 s' (impl_result v))).
    { unfold send_fallback_leaf_. destruct b; (apply post_co_await; [apply sent_refused; [by apply (quiet_same _ upd_tick)|done]|]);
        (eapply post_weaken; [apply send_impl_post|]); intros s2 v Hs;
        (eapply (sent_after _ (upd_tick s1)); [by apply (preparing_same upd_tick)|exact Hs]). }
    eapply post_weaken; [exact Hi|]. intros s2 [[r d]|c] Hs; [|exact Hs]. cbn [impl_result fst snd] in *.
    apply post_bind. destruct (disconnects_run (d || bool_decide (r = Err dispatch_aborted)) s2) as (s3 & E3 & Q3).
    eapply post_run; [exact E3|]. cbn beta iota. apply post_ret. by eapply sent_later.
  - intros s1 [r|c] Hs; [by split|]. apply post_bind.
    unfold disconnect_once. apply post_bind, post_get. cbn beta iota.
    assert (Hd : forall b : bool, post (if b then ret tt else record_state_transition_ w has_application Disconnected) s1
      (fun s' r => match r with Ret _ => post (ret (Err dispatch_aborted)) s' (fun s' v => sent s s' v /\ returns v)
                   | Aborted _ => False end)).
    { intros b. destruct (disconnects_run (negb b) s1) as (s2 & E2 & Q2). destruct b; cbn in E2.
      - apply post_ret, post_ret. split; [|done]. by apply (sent_later _ s1 _ (Aborted c)).
      - eapply post_run; [exact E2|]. apply post_ret. split; [|done]. by apply (sent_later _ s1 _ (Aborted c)). }
    eapply post_weaken; [apply Hd|]. intros s2 [[]|c'] Hr; [exact Hr|done].
Qed.
End SendLemmas.

Section SendRuns.
Context {St SE : Type} `{MessageStore St SE} (w : world St SE).
Context (cfg : SessionConfig) (has_clock has_application : bool) (rt : routing).
Context (close_flush_hook_a1_ : option (SE -> St -> St * result error unit)).

Notation hooks := (inbound_hooks rt).
Notation send := (send w cfg has_clock has_application rt close_flush_hook_a1_).

Lemma send_post in_callback payload s :
  (forall n s, quiet (elsewhere cfg rt payload) s (w_other w n s)) ->
  (forall n k, w_throw w n <> throw_other k) ->
  post (send in_callback payload) s (fun s' v => exists s0,
    quiet (elsewhere cfg rt payload) s s0 /\ sent cfg rt payload s0 s' v /\
    (v = Ret (Ok tt) -> fsm_state_ (s_fsm s0) = Active) /\
    (in_callback = false -> s0 = s /\ exists r, v = Ret r)).
Proof using.
  intros Hother Hthrow.
  assert (Hbody : forall s1, post (send_body_ w cfg has_clock has_application rt close_flush_hook_a1_ None payload) s1
    (fun s' v => sent cfg rt payload s1 s' v /\ (v = Ret (Ok tt) -> fsm_state_ (s_fsm s1) = Active) /\ exists r, v = Ret r)).
  { intros s1. unfold send_body_. apply post_bind, post_get. cbn beta iota. unfold fsm_is.
    case_bool_decide as Ha; cbn [negb].
    - eapply post_weaken; [by apply send_active_post|]. intros s' v [Hs Hv]. split; [done|]. split; [done|].
      destruct v as [r|]; [by exists r|done].
    - apply post_ret. split; [by apply sent_refused|]. split; [done|]. by eexists. }
  destruct in_callback.
  - unfold SessionSend.send, send_body_. apply post_bind, post_get. cbn beta iota.
    assert (Href : forall s' v, quiet (elsewhere cfg rt payload) s s' -> match v with Ret (Ok _) => False | _ => True end ->
      exists s0, quiet (elsewhere cfg rt payload) s s0 /\ sent cfg rt payload s0 s' v /\
        (v = Ret (Ok tt) -> fsm_state_ (s_fsm s0) = Active) /\ (true = false -> s0 = s /\ exists r, v = Ret r)).
    { intros s' v Hq Hv. exists s. split; [reflexivity|]. split; [by apply sent_refused|]. split; [|done]. by intros ->. }
    destruct (negb _); [by apply post_ret, Href|].
    apply post_co_await; [apply Href; [by apply (quiet_same _ upd_tick)|done]|].
    unfold send_deferred_. apply post_bind. unfold suspend, post at 1. cbn [fst snd].
    set (s1 := upd_tick (w_other w _ _)).
    assert (Q1 : quiet (elsewhere cfg rt payload) s s1).
    { etransitivity; [by apply (quiet_same _ upd_tick)|]. etransitivity; [apply Hother|]. by apply (quiet_same _ upd_tick). }
    apply post_bind, post_ask. intros c. assert (Q2 : quiet (elsewhere cfg rt payload) s (upd_tick s1))
      by (etransitivity; [exact Q1|]; by apply (quiet_same _ upd_tick)).
    destruct c; [by apply post_ret, Href|].
    apply post_bind, post_get. cbn beta iota. case_bool_decide; [by apply post_ret, Href|].
    assert (Q3 : quiet (elsewhere cfg rt payload) s (upd_tick (upd_tick s1)))
      by (etransitivity; [exact Q2|]; by apply (quiet_same _ upd_tick)).
    apply post_co_await; [by apply Href|].
    eapply post_weaken; [apply Hbody|]. intros s' v (Hs & Ha & _). by exists (upd_tick (upd_tick s1)).
  - eapply post_weaken; [apply Hbody|]. intros s' v (Hs & Ha & Hr). exists s. split; [reflexivity|]. by split_and!.
Qed.
End SendRuns.

(** *** An undisturbed send *)

(** No cancellation, no other work, every lock and write granted, no exception. *)
Record undisturbed {St SE : Type} (w : world St SE) : Prop := {
  never_cancelled : forall n, w_cancelled w n = false;
  always_locked : forall n, w_locked w n = true;
  gate_granted : forall n, w_gate w n = true;
  write_granted : forall n, w_write w n = true;
  store_returns : forall n, w_throw w n = no_throw;
  callback_returns : forall n, cb_threw (w_callback w n) = false;
  nothing_else : forall n s, w_other w n s = s;
}.

(** The session is as it was, but for the effects [t], the clock's marks and the store. *)
Record only_adds {St : Type} (t : list effect) (s s' : Session St) : Prop := {
  oa_trace : s_trace s' = s_trace s ++ t;
  oa_fsm : s_fsm s' = s_fsm s;
  oa_lifecycle : state_ (s_close s') = state_ (s_close s);
  oa_reconnect : reconnect_fsm_ s' = reconnect_fsm_ s;
  oa_logon : s_logon s' = s_logon s;
  oa_transport : s_transport s' = s_transport s;
  oa_slot : send_slot_in_use_ s' = send_slot_in_use_ s;
}.

Section Undisturbed.
Context {St SE : Type} `{MessageStore St SE} (w : world St SE) (Hw : undisturbed w).

Lemma co_await_runs {A} (m : M St A) s : co_await w m s = m (upd_tick s).
Proof using Hw. unfold co_await, bind, ask. by rewrite (never_cancelled _ Hw). Qed.

Lemma suspend_runs s : suspend w s = (upd_tick s, Ret tt).
Proof using Hw. unfold suspend. by rewrite (nothing_else _ Hw). Qed.

Lemma assign_runs s : next_outbound_ (seqnum_mgr_ s) <> seqnum_max ->
  with_mgr w assign_outbound s =
    (upd_mgr (fun _ => mkSeqnumManager (next_inbound_ (seqnum_mgr_ s)) (u32 (next_outbound_ (seqnum_mgr_ s) + 1)))
       (upd_tick (upd_tick s)), Ret (Ok (next_outbound_ (seqnum_mgr_ s)))).
Proof using Hw.
  intros Hn. unfold with_mgr. rewrite co_await_runs. unfold bind, ask. rewrite (always_locked _ Hw).
  unfold assign_outbound. cbn [negb upd_tick seqnum_mgr_]. by rewrite (proj2 (Z.eqb_neq _ _) Hn).
Qed.

Lemma only_adds_refl (s : Session St) : only_adds [] s s.
Proof using. split; try done. by rewrite app_nil_r. Qed.

Lemma only_adds_trans t t' (s s1 s' : Session St) : only_adds t s s1 -> only_adds t' s1 s' -> only_adds (t ++ t') s s'.
Proof using. intros [E1 F1 C1 R1 G1 T1 L1] [E2 F2 C2 R2 G2 T2 L2]. split; try congruence. by rewrite E2, E1, app_assoc. Qed.

Lemma transmit_runs f s : exists s', transmit w f s = (s', Ret (Ok tt)) /\
  only_adds (if can_transmit s then [Transmitted f] else []) s s' /\ seqnum_mgr_ s' = seqnum_mgr_ s /\ s_store s' = s_store s.
Proof using Hw.
  unfold transmit, bind, get, can_transmit. destruct (live_transport_ (s_transport s)) eqn:El.
  - rewrite co_await_runs. unfold live_write_serialized_, bind, get, ask. cbn [upd_tick s_transport]. rewrite El. cbn [negb].
    rewrite (gate_granted _ Hw), suspend_runs. cbn beta iota delta [negb]. rewrite (write_granted _ Hw). unfold emit, modify. cbn beta iota. rewrite suspend_runs.
    eexists. split; [reflexivity|]. by split.
  - destruct (transport_send_ (s_transport s)); cbn [orb].
    + unfold ask. rewrite (write_granted _ Hw). eexists. split; [reflexivity|]. by split.
    + eexists. split; [reflexivity|]. split; [apply only_adds_refl|done].
Qed.

(** What of a frame reaches the store. *)
Definition stored_effects (hooks : dict_hooks) (seq : seqnum_t) (f : bytes) (s : Session St) : list effect :=
  match store_ (s_store s), span_to_store hooks f with Some _, Some data => [Stored seq data] | _, _ => [] end.

Lemma store_then_emit_runs has_clock has_application hooks seq f s :
  seq < next_outbound_ (seqnum_mgr_ s) ->
  (forall st data k, store_ (s_store s) = Some st -> span_to_store hooks f = Some data ->
     is_ok (store (w_store w k) seq data outbound st).2 = true) ->
  exists s', store_then_emit w has_clock has_application hooks seq f None true s = (s', Ret (Ok tt)) /\
  only_adds (stored_effects hooks seq f s ++ if can_transmit s then [Transmitted f] else []) s s' /\
  seqnum_mgr_ s' = seqnum_mgr_ s.
Proof using Hw.
  intros Hn Hstore. unfold store_then_emit, bind at 1, get at 1.
  assert (Hpart : exists s1, match store_ (s_store s), span_to_store hooks f with
      | Some st, Some data => store_step w has_application seq data None st
      | _, _ => ret (Ok tt) end s = (s1, Ret (Ok tt)) /\
    only_adds (stored_effects hooks seq f s) s s1 /\ seqnum_mgr_ s1 = seqnum_mgr_ s).
  { unfold stored_effects. destruct (store_ (s_store s)) as [st|]; [|by exists s; split; [|split; [apply only_adds_refl|]]].
    destruct (span_to_store hooks f) as [data|]; [|by exists s; split; [|split; [apply only_adds_refl|]]].
    specialize (Hstore st data (s_tick (upd_tick s)) eq_refl eq_refl).
    unfold store_step, store_call, bind, get, ask, emit, modify. rewrite (store_returns _ Hw).
    destruct (store _ seq data outbound st) as [st' [[]|]]; [|done]. cbn beta iota. rewrite suspend_runs.
    cbn [ret upd_tick upd_trace upd_store seqnum_mgr_]. unfold peek_outbound.
    replace (next_outbound_ (seqnum_mgr_ s) <=? seq) with false by lia. eexists. split; [reflexivity|]. by split. }
  destruct Hpart as (s1 & E1 & A1 & M1). unfold bind at 1. rewrite E1. cbn [superseded]. unfold bind at 1, get at 1. cbn [negb].
  destruct (transmit_runs f s1) as (s2 & E2 & A2 & M2 & _). unfold bind at 1. cbn [superseded]. cbn beta iota. rewrite E2. cbn beta iota.
  assert (Hc : can_transmit s1 = can_transmit s) by (unfold can_transmit; by rewrite (oa_transport _ _ _ A1)).
  rewrite Hc in A2. unfold bind, ret. destruct has_clock; (eexists; split; [reflexivity|]); (split; [|cbn; congruence]).
  - eapply only_adds_trans in A2; [|exact A1]. by destruct A2.
  - by eapply only_adds_trans.
Qed.

Context (cfg : SessionConfig) (has_clock has_application : bool) (rt : routing).
Context (close_flush_hook_a1_ : option (SE -> St -> St * result error unit)).
Context (verdict : result error unit).
Notation hooks := (inbound_hooks rt).

(** Whether toApp is asked: whenever the frame parses in the arena, and with the seed, that
    the world gives the parse. *)
Definition shown (f : bytes) (t : list effect) : Prop :=
  exists m n, t = if has_application && outbound_parses hooks (w_arena w m) (w_seed w n) f then [ToApp f] else [].

(** How a send of [payload] from the state [s] ends. *)
Definition send_ends (payload : bytes) (s s' : Session St) (r : result error unit) : Prop :=
  exists st52, clock_stamp w cfg has_clock st52 /\ let seq := peek_outbound (seqnum_mgr_ s) in
  match send_frame cfg rt st52 seq payload with
  | Err e => r = Err e /\ only_adds [] s s' /\ seqnum_mgr_ s' = seqnum_mgr_ s /\ s_store s' = s_store s
  | Ok (Built f _) => exists t, shown f t /\
      match t, verdict with
      | _ :: _, Err e => r = Err e /\ only_adds t s s' /\ seqnum_mgr_ s' = seqnum_mgr_ s /\ s_store s' = s_store s
      | _, _ => r = Ok tt /\ next_outbound_ (seqnum_mgr_ s') = seq + 1 /\
          only_adds (t ++ stored_effects hooks seq f s ++ if can_transmit s then [Transmitted f] else []) s s'
      end
  end.

Context (Hverdict : forall n, cb_verdict (w_callback w n) = verdict).
Context (Hplain : verdict <> Err app_callback_threw /\ verdict <> Err dispatch_aborted).

Lemma to_app_runs f s : exists t s', shown f t /\ only_adds t s s' /\ seqnum_mgr_ s' = seqnum_mgr_ s /\ s_store s' = s_store s /\
  exists r, (if has_application then dispatch_outbound w rt f (ToApp f) else ret (Ok dispatched)) s = (s', Ret r) /\
    match t, verdict with _ :: _, Err e => r = Err e | _, _ => exists d, r = Ok d end.
Proof using Hw Hverdict.
  clear Hplain. unfold shown. destruct has_application.
  2: { exists [], s. split; [by exists O, O|]. split; [apply only_adds_refl|]. split; [done|].
       split; [done|]. eexists. split; [reflexivity|]. by eexists. }
  unfold dispatch_outbound, bind, ask. cbn beta iota.
  cbn [andb]. match goal with |- context [outbound_parses hooks (w_arena w ?m) (w_seed w ?n) f] => set (mr := m); set (seed := n) end.
  destruct (outbound_parses hooks (w_arena w mr) (w_seed w seed) f) eqn:Ep; cbn [negb].
  - exists [ToApp f]. eexists. split; [exists mr, seed; by rewrite Ep|].
    cbv [invoke_verdict bind emit modify ask ret]. rewrite (callback_returns _ Hw), Hverdict.
    split; [|split; [|split; [|eexists; split; [reflexivity|]]]]; [by split|done|done|].
    destruct verdict as [[]|e]; [by eexists|done].
  - exists []. eexists. split; [exists mr, seed; by rewrite Ep|].
    split; [|split; [|split; [|eexists; split; [reflexivity|]]]]; [|done|done|by eexists].
    split; try done. cbn. by rewrite app_nil_r.
Qed.

Lemma stamp_runs s : exists st52 s', stamp w cfg has_clock s = (s', Ret st52) /\ clock_stamp w cfg has_clock st52 /\ only_adds [] s s' /\
  seqnum_mgr_ s' = seqnum_mgr_ s /\ s_store s' = s_store s.
Proof using.
  unfold stamp, clock_stamp. destruct has_clock; [|exists [], s; split; [done|]; split; [by exists O|]; split; [apply only_adds_refl|done]].
  eexists _, _. split; [reflexivity|]. split; [by exists (s_tick s)|]. split; [|done]. split; try done. cbn. by rewrite app_nil_r.
Qed.

Lemma send_impl_runs payload s :
  manager_ok (seqnum_mgr_ s) -> next_outbound_ (seqnum_mgr_ s) <> seqnum_max ->
  (forall st data k, store_ (s_store s) = Some st ->
     is_ok (store (w_store w k) (next_outbound_ (seqnum_mgr_ s)) data outbound st).2 = true) ->
  exists s' r, send_impl w cfg has_clock has_application rt close_flush_hook_a1_ payload s = (s', Ret (r, false)) /\
    r <> Err dispatch_aborted /\ send_ends payload s s' r.
Proof using Hw Hverdict Hplain.
  intros Hm Hn Hstore. unfold send_impl, send_ends. destruct (stamp_runs s) as (st52 & s1 & E1 & Hs52 & A1 & M1 & T1).
  unfold bind at 1. rewrite E1. unfold bind at 1, get. cbn beta iota. rewrite M1.
  set (seq := peek_outbound (seqnum_mgr_ s)).
  destruct (send_frame cfg rt st52 seq payload) as [[f seq']|e] eqn:Ef.
  2: { exists s1, (Err e). split; [done|]. split; [by apply send_frame_error in Ef as [-> | ->]|]. exists st52. split; [exact Hs52|]. by rewrite Ef. }
  pose proof (built_seq _ _ _ _ _ _ _ _ _ _ _ _ Ef) as ->. cbn [sf_frame sf_seq].
  destruct (to_app_runs f s1) as (t & s2 & Ht & A2 & M2 & T2 & r & E2 & Hr).
  unfold bind at 1. rewrite E2. cbn beta iota. pose proof (only_adds_trans _ _ _ _ _ A1 A2) as A12. cbn [app] in A12.
  assert (Hgo : forall d, r = Ok d -> exists s' r,
    (match Ok d with Ok _ => 
       let! a := with_mgr w assign_outbound in
       match a with
       | Err e => ret (Err e, is_persistent_retain_fatal e)
       | Ok _ => let! emit_r := co_await w (store_then_emit w has_clock has_application hooks seq f None true) in
           ret (emit_r, match emit_r with Err e => is_persistent_retain_fatal e | Ok _ => false end)
       end | Err e => ret (Err e, false) end) s2 = (s', Ret (r, false)) /\ r = Ok tt /\ next_outbound_ (seqnum_mgr_ s') = seq + 1 /\
      only_adds (t ++ stored_effects hooks seq f s ++ if can_transmit s then [Transmitted f] else []) s s').
  { intros d _. unfold bind at 1. rewrite assign_runs by (rewrite M2, M1; exact Hn).
    unfold bind at 1. rewrite co_await_runs. set (s3 := upd_tick _).
    assert (M3 : next_outbound_ (seqnum_mgr_ s3) = seq + 1).
    { subst s3. cbn [upd_tick upd_mgr seqnum_mgr_ next_outbound_]. rewrite M2, M1. apply wrap_small.
      destruct Hm as [_ Hm]. change (next_outbound_ (seqnum_mgr_ s)) with seq in *. unfold is_seqnum, seqnum_min, seqnum_max, UINT32_MAX in *. change (2 ^ 32) with 4294967296. lia. }
    assert (A3 : only_adds [] s2 s3) by (split; try done; cbn; by rewrite app_nil_r).
    assert (Hst3 : s_store s3 = s_store s) by (cbn; congruence).
    destruct (store_then_emit_runs has_clock has_application hooks seq f s3) as (s4 & E4 & A4 & M4).
    { rewrite M3. lia. } { intros st data e Hs _. apply Hstore. by rewrite <- Hst3. }
    rewrite E4. exists s4, (Ok tt). split; [done|]. split; [done|]. split; [congruence|].
    unfold stored_effects in *. rewrite Hst3 in A4.
    assert (Hc : can_transmit s3 = can_transmit s).
    { unfold can_transmit. rewrite (oa_transport _ _ _ A3). by rewrite (oa_transport _ _ _ A12). }
    rewrite Hc in A4. pose proof (only_adds_trans _ _ _ _ _ A12 A3) as A5. rewrite app_nil_r in A5.
    by eapply only_adds_trans. }
  destruct t as [|ef t]; [destruct Hr as [d ->]|destruct verdict as [u|e] eqn:Ev; [destruct Hr as [d ->]|subst r]].
  - destruct (Hgo d eq_refl) as (s' & r & E & -> & Hx). exists s', (Ok tt). split; [exact E|]. split; [done|].
    exists st52. split; [exact Hs52|]. rewrite Ef. by exists [].
  - destruct (Hgo d eq_refl) as (s' & r & E & -> & Hx). exists s', (Ok tt). split; [exact E|]. split; [done|].
    exists st52. split; [exact Hs52|]. rewrite Ef. by exists (ef :: t).
  - destruct Hplain as [H1 H2]. unfold is_threw. rewrite bool_decide_eq_false_2 by congruence.
    exists s2, (Err e). split; [done|]. split; [done|]. exists st52. split; [exact Hs52|]. rewrite Ef. exists (ef :: t). split; [done|].
    split; [done|]. split; [done|]. split; congruence.
Qed.

(** The slot flag changes nothing a send can be told by. *)
Lemma send_ends_slot payload s s1 s' r b : send_ends payload (upd_tick (set_send_slot b s)) s1 r ->
  only_adds [] (set_send_slot (send_slot_in_use_ s) s1) s' -> seqnum_mgr_ s' = seqnum_mgr_ s1 -> s_store s' = s_store s1 ->
  send_ends payload s s' r.
Proof using.
  clear Hverdict Hplain. intros (st52 & Hs52 & Hx) A M T. exists st52. split; [exact Hs52|]. cbv zeta in *.
  change (peek_outbound (seqnum_mgr_ (upd_tick (set_send_slot b s)))) with (peek_outbound (seqnum_mgr_ s)) in Hx.
  assert (Hadd : forall t, only_adds t (upd_tick (set_send_slot b s)) s1 -> only_adds t s s').
  { intros t [E F C R G TT L]. destruct A as [E' F' C' R' G' TT' L']. cbn in *.
    split; try congruence. by rewrite E', E, app_nil_r. }
  destruct (send_frame _ _ _ _ _) as [[f n]|e].
  - destruct Hx as (t & Ht & Hx). exists t. split; [done|].
    change (stored_effects hooks ?n f (upd_tick (set_send_slot b s))) with (stored_effects hooks n f s) in Hx.
    change (can_transmit (upd_tick (set_send_slot b s))) with (can_transmit s) in Hx.
    change (seqnum_mgr_ (upd_tick (set_send_slot b s))) with (seqnum_mgr_ s) in Hx.
    change (s_store (upd_tick (set_send_slot b s))) with (s_store s) in Hx. rewrite M, T.
    destruct t as [|ef t]; [|destruct verdict as [u|e']].
    + destruct Hx as (-> & Hx & Hy). split; [done|]. split; [done|by apply Hadd].
    + destruct Hx as (-> & Hx & Hy). split; [done|]. split; [done|by apply Hadd].
    + destruct Hx as (-> & Hx & Hy). split; [done|]. split; [by apply Hadd|done].
  - destruct Hx as (-> & Hx & Hy & Hz). split; [done|]. split; [by apply Hadd|]. rewrite M, T. by split.
Qed.

Lemma send_runs payload s : fsm_state_ (s_fsm s) = Active ->
  manager_ok (seqnum_mgr_ s) -> next_outbound_ (seqnum_mgr_ s) <> seqnum_max ->
  (forall st data k, store_ (s_store s) = Some st ->
     is_ok (store (w_store w k) (next_outbound_ (seqnum_mgr_ s)) data outbound st).2 = true) ->
  exists s' r, send w cfg has_clock has_application rt close_flush_hook_a1_ false payload s = (s', Ret r) /\
    send_ends payload s s' r.
Proof using Hw Hverdict Hplain.
  intros Ha Hm Hn Hstore. unfold send, send_body_. unfold bind at 1, get. cbn beta iota. rewrite Ha.
  unfold fsm_is. rewrite bool_decide_eq_true_2 by done. cbn [negb].
  unfold send_active, with_send_slot, catch at 1, bind at 1, get. cbn beta iota.
  set (b := send_slot_in_use_ s). set (s0 := set_send_slot true s).
  assert (E0 : (if b then ret tt else modify (set_send_slot true)) s = (s0, Ret tt)).
  { unfold s0, b. destruct s as [? ? ? ? ? ? ? ? ? sl ? ?]. by destruct sl. }
  unfold bind at 1. rewrite E0.
  destruct (send_impl_runs payload (upd_tick s0)) as (s1 & r & E1 & Hr & He); try done.
  assert (E2 : (let! impl_r := if negb b then co_await w (send_impl w cfg has_clock has_application rt close_flush_hook_a1_ payload)
        else send_fallback_leaf_ w cfg has_clock has_application rt close_flush_hook_a1_ payload in
      (if impl_r.2 || bool_decide (impl_r.1 = Err dispatch_aborted) then record_state_transition_ w has_application Disconnected
       else ret tt) ;; ret impl_r.1) s0 = (s1, Ret r)).
  { unfold bind, send_fallback_leaf_. destruct b; cbn [negb]; rewrite co_await_runs, E1; cbn [fst snd orb];
      by rewrite bool_decide_eq_false_2. }
  unfold bind at 1, catch at 1. rewrite E2. cbn beta iota.
  assert (E3 : exists s2, (if b then ret tt else modify (set_send_slot false)) s1 = (s2, Ret tt) /\
    only_adds [] (set_send_slot b s1) s2 /\ seqnum_mgr_ s2 = seqnum_mgr_ s1 /\ s_store s2 = s_store s1).
  { assert (Hsl : send_slot_in_use_ s1 = true).
    { destruct He as (st52 & _ & Hx). cbv zeta in Hx. destruct (send_frame _ _ _ _ _) as [[f n]|e].
      - destruct Hx as (t & _ & Hx). assert (Ho : exists t', only_adds t' (upd_tick s0) s1).
        { destruct t; [|destruct verdict]; destruct Hx as (_ & Hx & Hy); eexists; first [exact Hx|apply Hy]. }
        destruct Ho as (t' & Ho). by rewrite (oa_slot _ _ _ Ho).
      - destruct Hx as (_ & Ho & _). by rewrite (oa_slot _ _ _ Ho). }
    destruct b; (eexists; split; [reflexivity|]); (split; [|done]); split; try done; cbn; by rewrite app_nil_r. }
  destruct E3 as (s2 & E3 & A3 & M3 & T3). unfold bind at 1. rewrite E3. exists s2, r. split; [done|].
  by eapply (send_ends_slot _ _ s1 s2 _ true).
Qed.
End Undisturbed.

(** ** Properties *)


Notation sample_send s := (send calm_world sample_config false true sample_routing None false order_payload s).

Notation sample_sender := (sample_session Active (Some empty_log) (mkSeqnumManager 1 1)).

Notation order_frame := (frame_text [70] [(35, [68]); (34, [49]); (49, [65]); (52, []); (56, [66]); (50, [83]); (58, [104; 105])]).



Definition refusing_world : world log_store bool :=
  World log_store bool (fun _ => false) (fun _ => true) (fun _ => true) (fun _ => no_throw) (fun _ => true) (fun _ => true) (fun _ => false)
    (fun _ => CallbackAnswer false 0 (Err app_do_not_send)) (fun _ => new_delete_resource) (fun _ => Err session_invalid_logon) (fun _ => 0)
    (fun _ => 0) (fun _ => 0) (fun _ s => s).

