(* ===== verification/SessionLiveness.v ===== *)
(** The heartbeat of a session (src/session/session.cpp, [Session::run_liveness_loop]): a
    Heartbeat when nothing went out for an interval, a TestRequest when nothing came in, and
    the end of the session when the TestRequest stays unanswered for another.

    Instants are nanoseconds of the steady clock, written without wrap-around: see
    [deadlines_fit]. *)
From stdpp Require Import strings.
From S2P Require Import Prelude Errors FixTime LengthData VersionProfile Writer FrameHeader OffsetTable.
From S2P Require Import Seqnum MessageStore AdminMessages SessionState SessionCore SessionClose.

Definition await_reply (id : bytes) (l : liveness_part) : liveness_part :=
  mkLiveness (last_inbound_steady_ l) (last_outbound_steady_ l) id false (next_test_request_id_ l).
Definition set_unanswered (l : liveness_part) : liveness_part :=
  mkLiveness (last_inbound_steady_ l) (last_outbound_steady_ l) (pending_test_req_id_ l) true (next_test_request_id_ l).
Definition next_test_request (l : liveness_part) : liveness_part :=
  mkLiveness (last_inbound_steady_ l) (last_outbound_steady_ l) (pending_test_req_id_ l) (unanswered_tr_ l)
    (u32 (next_test_request_id_ l + 1)).

(** "TR" and the counter. *)
Definition test_req_id (n : Z) : bytes := bytes_of "TR" ++ dec_text n.

Section Liveness.
Context {St SE : Type} `{MessageStore St SE} (w : world St SE).
Context (cfg : SessionConfig) (has_clock has_application : bool) (hooks : dict_hooks).

Notation disconnect := (record_state_transition_ w has_application Disconnected).

Definition state_is_active : M St bool := get (fun s => fsm_is (fsm_state_ (s_fsm s)) Active).

(** [effective_clock_->sleep_until]: the strand runs other work; a cancellation ends it by
    its exception. *)
Definition sleep_until : M St unit := suspend w ;; co_await w (ret tt).

(** One of the loop's two messages: shown to toAdmin, numbered, emitted.  False: the loop
    ends, the session disconnected. *)
Definition emit_liveness (seq : seqnum_t) (built : expected bytes) : M St bool :=
  match built with
  | Err _ => ret true
  | Ok frame =>
      let! seen := fire_to_admin_ w has_application hooks frame in
      if negb seen then disconnect ;; ret false
      else
        let! assign_r := with_mgr w assign_outbound in
        match assign_r with
        | Err _ => disconnect ;; ret false
        | Ok _ =>
            let! emit_r := co_await w (store_then_emit w has_clock has_application hooks seq frame None true) in
            match emit_r with
            | Err _ => disconnect ;; ret false
            | Ok _ => ret true
            end
        end
  end.

Definition liveness_heartbeat : M St bool :=
  let! st52 := stamp w cfg has_clock in
  let! hb_seq := get (fun s => peek_outbound (seqnum_mgr_ s)) in
  emit_liveness hb_seq (build_heartbeat (replicate 256 0) hb_seq (cfg_sender_comp_id cfg)
    (cfg_target_comp_id cfg) [] (cfg_begin_string cfg) st52).

Definition liveness_test_request : M St bool :=
  modify (upd_live next_test_request) ;;
  let! n := get (fun s => next_test_request_id_ (s_live s)) in
  modify (upd_live (await_reply (test_req_id n))) ;;
  let! st52 := stamp w cfg has_clock in
  let! tr_seq := get (fun s => peek_outbound (seqnum_mgr_ s)) in
  let! pending := get (fun s => pending_test_req_id_ (s_live s)) in
  emit_liveness tr_seq (build_test_request (replicate 256 0) tr_seq (cfg_sender_comp_id cfg)
    (cfg_target_comp_id cfg) pending (cfg_begin_string cfg) st52).

(** The grace window after a TestRequest; false ends the loop. *)
Definition grace_window : M St bool :=
  let! a := state_is_active in
  if negb a then ret false
  else
    sleep_until ;;
    let! a := state_is_active in
    if negb a then ret false
    else
      let! pending := get (fun s => pending_test_req_id_ (s_live s)) in
      if negb (zlen pending =? 0) then modify (upd_live set_unanswered) ;; disconnect ;; ret false
      else ret true.

(** Inbound idle: a TestRequest and its grace window, else the next round.  Instants and
    intervals are 64-bit nanosecond counts in the code, whose overflow the language leaves
    undefined, and integers here; [deadlines_fit] gives a range in which none overflows. *)
Definition inbound_idle (heartbt : Z) (now : Z) : M St bool :=
  let! l := get s_live in
  if now <? last_inbound_steady_ l + heartbt then ret true
  else
    let! on := liveness_test_request in
    if negb on then ret false else grace_window.

(** The body of the loop, in Active; true to go round again.  The deadline handed to the
    clock is not kept: what the clock reads after a sleep is the world's, early or late. *)
Definition liveness_round (heartbt : Z) : M St bool :=
  sleep_until ;;
  let! a := state_is_active in
  if negb a then ret false
  else
    let! now := steady_now w in
    let! l := get s_live in
    if last_outbound_steady_ l + heartbt <=? now then
      let! on := liveness_heartbeat in
      if negb on then ret false
      else
        let! a := state_is_active in
        if negb a then ret false
        else let! now := steady_now w in inbound_idle heartbt now
    else inbound_idle heartbt now.

(** The loop, at most [rounds] times; true when it has ended. *)
Fixpoint liveness_rounds (rounds : nat) (heartbt : Z) : M St bool :=
  match rounds with
  | O => ret false
  | S rounds =>
      let! a := state_is_active in
      if negb a then ret true
      else
        let! on := liveness_round heartbt in
        if negb on then ret true else liveness_rounds rounds heartbt
  end.

Definition heartbt_ns : Z := default kDefaultHeartBtInt (cfg_heartbeat_interval cfg) * ns_per_s.

(** [run_liveness_loop]; true when it has returned.  It gives its count back when it does. *)
Definition run_liveness_loop (rounds : nat) : M St bool :=
  let! ended :=
    if heartbt_ns =? 0 then ret true
    else if negb has_clock then ret true
    else catch (liveness_rounds rounds heartbt_ns) (fun _ => ret true) in
  (if ended : bool then modify (upd_logon (fun l => set_liveness (liveness_counter_ l - 1) l)) else ret tt) ;;
  ret ended.
End Liveness.

(** ** Lemmas *)

(** An interval of as many seconds as an [int] holds, and instants of the first 146 years of
    the clock: the deadline, and the later one of the grace window, are [int64_t] values. *)
Lemma deadlines_fit cfg t : 0 <= t <= 2 ^ 62 ->
  0 <= default kDefaultHeartBtInt (cfg_heartbeat_interval cfg) <= 2147483647 ->
  0 <= heartbt_ns cfg <= INT64_MAX /\ 0 <= t + heartbt_ns cfg <= INT64_MAX /\
  0 <= t + heartbt_ns cfg + heartbt_ns cfg + 1 <= INT64_MAX.
Proof. unfold heartbt_ns, ns_per_s, INT64_MAX. lia. Qed.

(** Nothing is heard from the peer: no frame marks the clock or clears a TestRequest. *)
Definition unheard {St} (s s' : Session St) : Prop :=
  last_inbound_steady_ (s_live s') = last_inbound_steady_ (s_live s) /\
  pending_test_req_id_ (s_live s') = pending_test_req_id_ (s_live s) /\ (s_tick s <= s_tick s')%nat.

#[export] Instance unheard_preorder {St} : PreOrder (unheard (St := St)).
Proof.
  split; [by intros s|]. intros s1 s2 s3 (A & B & C) (A' & B' & C'). split_and!; [congruence|congruence|lia].
Qed.

Section Unheard.
Context {St SE : Type} `{MessageStore St SE} (w : world St SE).
Context (cfg : SessionConfig) (has_clock has_application : bool) (hooks : dict_hooks).
Context (Hother : forall n s, unheard s (w_other w n s)).
Notation U := (unheard (St := St)).

Lemma unheard_ask {A} (f : nat -> A) : keeps U (ask f).
Proof using. apply keeps_ask. intros s. split_and!; cbn; (done || lia). Qed.
Lemma unheard_modify (f : Session St -> Session St) :
  (forall s, last_inbound_steady_ (s_live (f s)) = last_inbound_steady_ (s_live s) /\
     pending_test_req_id_ (s_live (f s)) = pending_test_req_id_ (s_live s) /\ s_tick (f s) = s_tick s) -> keeps U (modify f).
Proof using. intros Hf s. destruct (Hf s) as (A & B & C). split_and!; cbn; (done || lia). Qed.
Lemma unheard_suspend : keeps U (suspend w).
Proof using Hother. intros s. unfold suspend. cbn. etransitivity; [apply Hother|]. split_and!; cbn; (done || lia). Qed.
Lemma unheard_await {A} (m : M St A) : keeps U m -> keeps U (co_await w m).
Proof using. apply keeps_co_await; [typeclasses eauto|]. intros s. split_and!; cbn; (done || lia). Qed.

Ltac unheard_leaf :=
  first [ apply unheard_ask | by apply unheard_modify | apply unheard_suspend | by apply keeps_emit
        | apply keeps_mgr; [typeclasses eauto | intros ?; split_and!; cbn; (done || lia) | intros ? ?; split_and!; cbn; (done || lia)] ].
Ltac unheard_run :=
  repeat first [ progress keeps_step | unheard_leaf | apply unheard_await ].

Lemma unheard_transition x : keeps U (record_state_transition_ w has_application x).
Proof using. unfold record_state_transition_, invoke_callback. unheard_run. Qed.

Lemma unheard_disconnect arm : keeps U (disconnect_unless_superseded_ w has_application arm).
Proof using. unfold disconnect_unless_superseded_, disconnect_once. unheard_run; apply unheard_transition. Qed.

Lemma unheard_to_admin f : keeps U (fire_to_admin_ w has_application hooks f).
Proof using. unfold fire_to_admin_, parse_and_dispatch_, invoke_callback. unheard_run. Qed.

Lemma unheard_mgr {A} (op : bool -> SeqnumManager -> SeqnumManager * result error A) : keeps U (with_mgr w op).
Proof using. unheard_run. Qed.

Lemma unheard_store_call {A} (op : SE -> St -> St * result error A) done st : keeps U (store_call w op done st).
Proof using Hother. unfold store_call. unheard_run. Qed.

Lemma unheard_store seq data arm st : keeps U (store_step w has_application seq data arm st).
Proof using Hother.
  unfold store_step, reconcile_outbound, store_await.
  unheard_run; first [apply unheard_store_call|apply unheard_disconnect].
Qed.

Lemma unheard_transmit f : keeps U (transmit w f).
Proof using Hother. unfold transmit, live_write_serialized_. unheard_run. Qed.

Lemma unheard_emission seq f arm b : keeps U (store_then_emit w has_clock has_application hooks seq f arm b).
Proof using Hother.
  unfold store_then_emit, steady_now. unheard_run; first [apply unheard_store|apply unheard_transmit].
Qed.

Lemma unheard_stamp : keeps U (stamp w cfg has_clock).
Proof using. unfold stamp. unheard_run. Qed.

Lemma unheard_sleep : keeps U (sleep_until w).
Proof using Hother. unfold sleep_until. unheard_run. Qed.

Lemma unheard_emit_liveness seq built : keeps U (emit_liveness w has_clock has_application hooks seq built).
Proof using Hother.
  unfold emit_liveness. unheard_run;
    first [apply unheard_to_admin|apply unheard_transition|apply unheard_mgr|apply unheard_emission].
Qed.

Lemma unheard_heartbeat : keeps U (liveness_heartbeat w cfg has_clock has_application hooks).
Proof using Hother. unfold liveness_heartbeat. unheard_run; first [apply unheard_stamp|apply unheard_emit_liveness]. Qed.

(** *** How a run ends without cancellation *)

Context (Hcalm : forall n, w_cancelled w n = false).

(** It returns, or it has disconnected the session. *)
Definition safe {A} (stops : A -> bool) (s' : Session St) (v : outcome A) : Prop :=
  match v with
  | Ret a => stops a = true -> fsm_state_ (s_fsm s') <> Active
  | Aborted _ => fsm_state_ (s_fsm s') <> Active
  end.

Lemma awaits {A} (m : M St A) s : co_await w m s = m (upd_tick s).
Proof using Hcalm. unfold co_await, bind, ask. by rewrite Hcalm. Qed.

Lemma with_mgr_returns {A} (op : bool -> SeqnumManager -> SeqnumManager * result error A) s :
  exists s' r, with_mgr w op s = (s', Ret r).
Proof using Hcalm.
  unfold with_mgr. rewrite awaits. unfold bind, ask. cbn beta iota. destruct (op _ _) as [m r]. by eexists _, _.
Qed.

Lemma transition_to x s : exists s', record_state_transition_ w has_application x s = (s', Ret tt) /\ fsm_state_ (s_fsm s') = x.
Proof using.
  destruct (transition_spec w has_application x s) as (s' & E & _ & _ & Hx & _). exists s'. split; [done|]. exact Hx.
Qed.

Notation safely m s stops := (post m s (fun s' v => safe stops s' v)).

Lemma disconnects x (a : bool) s : x <> Active -> safely (record_state_transition_ w has_application x ;; ret a) s (fun _ => true).
Proof using.
  intros Hx. destruct (transition_to x s) as (s' & E & Hs). unfold post, bind. rewrite E. intros _. cbn. congruence.
Qed.

Lemma store_step_safe seq data st s : safely (store_step w has_application seq data None st) s (fun _ => false).
Proof using.
  unfold store_step. apply post_bind.
  assert (Hr : exists s1 a, store_call w (fun e => store e seq data outbound) (Some (Stored seq data)) st s = (s1, Ret a)).
  { unfold store_call, bind, ask. destruct (w_throw w (s_tick s)); [destruct (store _ _ _ _ _) as [st' [r|e]]|..]; by eexists _, _. }
  destruct Hr as (s1 & a & E). unfold post at 1. rewrite E. clear E s. cbn [fst snd].
  apply post_bind, post_get. cbn beta iota.
  assert (Hc : safely (modify (upd_mgr (take_back_outbound seq)) ;; disconnect_unless_superseded_ w has_application None ;;
      abort (A := result error unit) true) s1 (fun _ => false)).
  { unfold disconnect_unless_superseded_, disconnect_once. apply post_bind, post_modify, post_bind, post_bind, post_get. cbn [superseded].
    apply post_bind, post_get. cbn beta iota. set (s2 := upd_mgr _ s1). unfold fsm_is. case_bool_decide as Hd.
    - apply post_ret, post_abort. unfold safe. by rewrite Hd.
    - destruct (transition_to Disconnected s2) as (s3 & E3 & Hs3). unfold post at 1. rewrite E3. cbn [fst snd]. apply post_abort. unfold safe. by rewrite Hs3. }
  assert (Hp : safely (let! next := get (fun s => peek_outbound (seqnum_mgr_ s)) in
      if next <=? seq then ret (Err dispatch_aborted) else ret (Ok tt)) s1 (fun _ => false)).
  { apply post_bind, post_get. by destruct (_ <=? _); apply post_ret. }
  destruct a as [[u|e]| |]; [exact Hp| |exact Hc|exact Hp].
  destruct (bool_decide (e = store_cancelled)); [exact Hc|]. destruct (store_is_persistent_ _); [|exact Hp].
  apply post_bind. unfold post at 1.
  assert (Hr : exists s2, reconcile_outbound w s1 = (s2, Ret tt)).
  { unfold reconcile_outbound, catch. destruct (bind _ _ s1) as [s2 [[]|c]]; by eexists. }
  destruct Hr as (s2 & ->). cbn [fst snd]. by apply post_ret.
Qed.

Lemma transmit_returns f s : exists s' r, transmit w f s = (s', Ret r).
Proof using Hcalm.
  unfold transmit, live_write_serialized_, bind, get, ask. cbn beta iota.
  destruct (live_transport_ (s_transport s)); [|destruct (transport_send_ _); [destruct (w_write w _)|]; by eexists _, _].
  rewrite awaits. cbn beta iota. destruct (negb _); [by eexists _, _|]. unfold suspend. cbn beta iota.
  destruct (negb _); [by eexists _, _|]. destruct (w_write w _); by eexists _, _.
Qed.

Lemma emission_safe seq f s : safely (store_then_emit w has_clock has_application hooks seq f None true) s (fun _ => false).
Proof using Hcalm.
  unfold store_then_emit. apply post_bind, post_get, post_bind. cbn beta iota.
  eapply (post_weaken _ _ (fun s' v => safe (fun _ : result error unit => false) s' v)).
  { destruct (store_ (s_store s)); [|by apply post_ret]. destruct (span_to_store hooks f); [|by apply post_ret].
    apply store_step_safe. }
  intros s1 [[u|e]|c] Hs; [|by apply post_ret|exact Hs]. apply post_bind, post_get. cbn [superseded negb]. cbn beta iota.
  apply post_bind. destruct (transmit_returns f s1) as (s2 & r & E). unfold post at 1. rewrite E. cbn [fst snd].
  destruct r as [u'|e]; [|by apply post_ret]. apply post_bind. destruct has_clock; by apply post_ret.
Qed.

Lemma to_admin_returns f s : exists s' r, fire_to_admin_ w has_application hooks f s = (s', Ret r).
Proof using.
  unfold fire_to_admin_, parse_and_dispatch_, invoke_callback, bind, ask. destruct has_application; cbn; [|by eexists _, _].
  destruct (outbound_parses _ _ _ _); cbn; [|by eexists _, _]. destruct (cb_threw _); by eexists _, _.
Qed.

Lemma emit_liveness_safe seq built s : safely (emit_liveness w has_clock has_application hooks seq built) s negb.
Proof using Hcalm.
  unfold emit_liveness. destruct built as [f|e]; [|by apply post_ret].
  assert (Hd : forall s, safely (record_state_transition_ w has_application Disconnected ;; ret false) s negb).
  { intros s0. eapply post_weaken; [by apply (disconnects Disconnected)|]. intros s' [a|c] Hs; [|exact Hs]. intros _. by apply Hs. }
  apply post_bind. destruct (to_admin_returns f s) as (s1 & seen & E). unfold post at 1. rewrite E. cbn [fst snd].
  destruct seen; [|apply Hd]. cbn [negb]. apply post_bind.
  destruct (with_mgr_returns assign_outbound s1) as (s2 & a & E2). unfold post at 1. rewrite E2. cbn [fst snd].
  destruct a as [n|e]; [|apply Hd]. apply post_bind. unfold post at 1. rewrite awaits.
  change (post (store_then_emit w has_clock has_application hooks seq f None true) (upd_tick s2) (fun s' r => match r with
    | Ret a => post (match a with Ok _ => ret true | Err _ => record_state_transition_ w has_application Disconnected ;; ret false end) s'
        (fun s' v => safe negb s' v) | Aborted c => safe negb s' (Aborted c) end)).
  eapply post_weaken; [apply emission_safe|]. intros s3 [[u|e]|c] Hs; [by apply post_ret|apply Hd|exact Hs].
Qed.

Lemma sleep_returns s : exists s', sleep_until w s = (s', Ret tt) /\ unheard s s' /\ (s_tick s < s_tick s')%nat.
Proof using Hother Hcalm.
  unfold sleep_until, bind. unfold suspend. rewrite awaits. eexists. split; [reflexivity|].
  destruct (Hother (s_tick s) s) as (A & B & C). split; [|cbn; lia]. split_and!; cbn; (done || lia).
Qed.

(** A step that keeps the peer unheard and is safe. *)
Lemma post_both {A} (m : M St A) s stops : keeps U m -> safely m s stops ->
  post m s (fun s' v => unheard s s' /\ safe stops s' v).
Proof using. intros Hk Hs. by split; [apply Hk|]. Qed.

Lemma grace_ends s : pending_test_req_id_ (s_live s) <> [] ->
  post (grace_window w has_application) s (fun s' v => v = Ret false /\ fsm_state_ (s_fsm s') <> Active).
Proof using Hother Hcalm.
  intros Hp. unfold grace_window, state_is_active. apply post_bind, post_get. unfold fsm_is at 1. cbn beta iota.
  case_bool_decide as Ha; cbn [negb]; [|by apply post_ret].
  destruct (sleep_returns s) as (s1 & E1 & (_ & Hp1 & _) & _). apply post_bind. unfold post at 1. rewrite E1. cbn [fst snd].
  apply post_bind, post_get. unfold fsm_is. cbn beta iota. case_bool_decide as Ha1; cbn [negb]; [|by apply post_ret].
  apply post_bind, post_get. cbn beta iota. rewrite Hp1.
  assert (Hz : zlen (pending_test_req_id_ (s_live s)) =? 0 = false).
  { destruct (pending_test_req_id_ (s_live s)); [done|]. rewrite zlen_cons. pose_zlen. lia. }
  rewrite Hz. cbn [negb]. apply post_bind, post_modify. set (s2 := upd_live _ _).
  destruct (transition_to Disconnected s2) as (s3 & E3 & H3). unfold post, bind. rewrite E3. cbn. split; [done|]. congruence.
Qed.

Lemma test_request_asks s : post (liveness_test_request w cfg has_clock has_application hooks) s (fun s' v =>
  pending_test_req_id_ (s_live s') <> [] /\ safe negb s' v).
Proof using Hother Hcalm.
  unfold liveness_test_request. apply post_bind, post_modify, post_bind, post_get, post_bind, post_modify.
  set (s1 := upd_live (await_reply _) _). assert (Hp : pending_test_req_id_ (s_live s1) <> []) by discriminate.
  clearbody s1. apply post_bind.
  assert (Hst : exists s2 v, stamp w cfg has_clock s1 = (s2, Ret v)) by (unfold stamp; destruct has_clock; by eexists _, _).
  destruct Hst as (s2 & st52 & E). pose proof (unheard_stamp s1) as (_ & Hp2 & _). rewrite E in Hp2. cbn [fst] in Hp2.
  unfold post at 1. rewrite E. cbn [fst snd]. apply post_bind, post_get, post_bind, post_get.
  eapply post_weaken; [apply post_both; [apply unheard_emit_liveness|apply emit_liveness_safe]|].
  intros s3 v ((_ & Hp3 & _) & Hv). split; [congruence|done].
Qed.

(** The peer is late: the loop ends here. *)
Lemma idle_ends heartbt now s : last_inbound_steady_ (s_live s) + heartbt <= now ->
  post (inbound_idle w cfg has_clock has_application hooks heartbt now) s (fun s' v =>
    v <> Ret true /\ fsm_state_ (s_fsm s') <> Active).
Proof using Hother Hcalm.
  intros Hn. unfold inbound_idle. apply post_bind, post_get. cbn beta iota. replace (now <? _) with false by lia.
  apply post_bind. eapply post_weaken; [apply test_request_asks|]. intros s1 [on|c] (Hp & Hs); [|by split].
  destruct on; cbn [negb].
  - eapply post_weaken; [by apply grace_ends|]. by intros s2 v (-> & Ha).
  - apply post_ret. split; [done|]. by apply Hs.
Qed.

(** One round: it ends the session's time in Active, or the clock still reads too early. *)
Definition round_ends (heartbt : Z) (s s' : Session St) (v : outcome bool) : Prop :=
  (v <> Ret true /\ fsm_state_ (s_fsm s') <> Active) \/
  (v = Ret true /\ unheard s s' /\ (s_tick s < s_tick s')%nat /\
   exists n, (s_tick s <= n)%nat /\ w_steady w n < last_inbound_steady_ (s_live s) + heartbt).

Lemma idle_round heartbt s s1 n : unheard s s1 -> (s_tick s < s_tick s1)%nat -> (s_tick s <= n)%nat ->
  post (inbound_idle w cfg has_clock has_application hooks heartbt (w_steady w n)) s1 (round_ends heartbt s).
Proof using Hother Hcalm.
  intros Hu Ht Hn. pose proof Hu as (Hl & _ & _).
  destruct (Z_lt_le_dec (w_steady w n) (last_inbound_steady_ (s_live s) + heartbt)) as [Hlt|Hge].
  - unfold inbound_idle. apply post_bind, post_get. cbn beta iota. rewrite Hl. replace (_ <? _) with true by lia.
    apply post_ret. right. split; [done|]. split; [done|]. split; [done|]. by exists n.
  - eapply post_weaken; [apply idle_ends; by rewrite Hl|]. intros s2 v Hv. by left.
Qed.

Lemma round_post heartbt s :
  post (liveness_round w cfg has_clock has_application hooks heartbt) s (round_ends heartbt s).
Proof using Hother Hcalm.
  unfold liveness_round. destruct (sleep_returns s) as (s1 & E1 & U1 & T1).
  apply post_bind. unfold post at 1. rewrite E1. cbn [fst snd]. unfold state_is_active at 1. apply post_bind, post_get. cbn beta iota.
  unfold fsm_is at 1. case_bool_decide as Ha; cbn [negb]; [|apply post_ret; by left].
  apply post_bind. unfold steady_now, post at 1, ask. cbn [fst snd]. apply post_bind, post_get. cbn beta iota.
  assert (Hnext : forall s2, unheard s1 s2 -> (forall n, (s_tick s <= n)%nat ->
    post (inbound_idle w cfg has_clock has_application hooks heartbt (w_steady w n)) s2 (round_ends heartbt s))).
  { intros s2 Hu n Hn. pose proof Hu as (_ & _ & Ht). apply idle_round; [by etransitivity|lia|done]. }
  assert (Ht : unheard s1 (upd_tick s1)) by (split_and!; cbn; (done || lia)).
  destruct (_ <=? _); [|apply Hnext; [done|lia]].
  apply post_bind. eapply post_weaken.
  { apply (post_both _ _ negb); [apply unheard_heartbeat|]. unfold liveness_heartbeat. apply post_bind.
    assert (Hst : exists s2 v, stamp w cfg has_clock (upd_tick s1) = (s2, Ret v)) by (unfold stamp; destruct has_clock; by eexists _, _).
    destruct Hst as (s2 & st52 & E). unfold post at 1. rewrite E. cbn [fst snd]. apply post_bind, post_get.
    apply emit_liveness_safe. }
  intros s2 [on|c] (U2 & S2); [|by left]. destruct on; cbn [negb]; [|apply post_ret; left; split; [done|by apply S2]].
  apply post_bind, post_get. unfold fsm_is. cbn beta iota. case_bool_decide; cbn [negb]; [|apply post_ret; by left].
  apply post_bind. unfold post at 1, ask. cbn [fst snd].
  destruct Ht as (Ta & Tb & Tc), U2 as (A2 & B2 & C2).
  apply Hnext; [split_and!; cbn in *; (congruence || lia)|cbn in *; lia].
Qed.

Lemma rounds_end heartbt N rounds s :
  (forall n, (N <= n)%nat -> last_inbound_steady_ (s_live s) + heartbt <= w_steady w n) ->
  (N - s_tick s + 2 <= rounds)%nat ->
  post (liveness_rounds w cfg has_clock has_application hooks rounds heartbt) s
    (fun s' v => v <> Ret false /\ fsm_state_ (s_fsm s') <> Active).
Proof using Hother Hcalm.
  revert s. induction rounds as [|rounds IH]; intros s HN Hr; [lia|]. cbn [liveness_rounds].
  apply post_bind, post_get. cbn beta iota. unfold fsm_is. case_bool_decide as Ha; cbn [negb]; [|by apply post_ret].
  apply post_bind. eapply post_weaken; [apply round_post|].
  intros s1 v [[Hv Hs]|(-> & (Hl & _) & Ht & n & Hn & Hlt)].
  - destruct v as [[|]|c]; [done|by apply post_ret|by split].
  - cbn [negb]. assert (n < N)%nat by (destruct (le_lt_dec N n) as [Hle|]; [specialize (HN n Hle); lia|done]).
    apply IH; [by rewrite Hl|lia].
Qed.
End Unheard.

(** ** Properties *)

(** C10: a silent peer is not kept.  Whatever stores, writes and the application do, if no
    cancellation comes, no frame of the peer arrives and the clock passes for good the
    instant one interval after the peer was last heard, the heartbeat loop of a session with
    an interval ends, and it leaves the session no longer
    Active: it does not go round for ever, wait for ever on a TestRequest, or give up while
    the session stays open. *)
Theorem silent_peer_dropped {St SE} `{MessageStore St SE} (w : world St SE) cfg has_application hooks (s : Session St) :
  (forall n s, unheard s (w_other w n s)) -> (forall n, w_cancelled w n = false) ->
  (exists N, forall n, (N <= n)%nat -> last_inbound_steady_ (s_live s) + heartbt_ns cfg <= w_steady w n) ->
  cfg_heartbeat_interval cfg <> Some 0 ->
  exists rounds, let (s', v) := run_liveness_loop w cfg true has_application hooks rounds s in
  v = Ret true /\ fsm_state_ (s_fsm s') <> Active.
Proof.
  intros Hother Hcalm [N HN] Hhb.
  exists (N - s_tick s + 2)%nat. unfold run_liveness_loop.
  assert (heartbt_ns cfg =? 0 = false) as ->.
  { unfold heartbt_ns, kDefaultHeartBtInt, ns_per_s. destruct (cfg_heartbeat_interval cfg) as [z|]; cbn; [|done].
    assert (z <> 0) by congruence. lia. }
  cbn [negb].
  pose proof (rounds_end w cfg true has_application hooks Hother Hcalm (heartbt_ns cfg) N _ s HN (le_n _)) as Hp.
  unfold post in Hp. unfold bind, catch. destruct (liveness_rounds _ _ _ _ _ _ _ s) as [s1 [[|]|c]]; cbn in *; [|by destruct Hp|];
    by split; [|apply Hp].
Qed.

(** The calm world, one second of the steady clock to a question. *)
Definition ticking_world : world log_store bool :=
  World log_store bool (fun _ => false) (fun _ => true) (fun _ => true) (fun _ => no_throw) (fun _ => true) (fun _ => true) (fun _ => false)
    (fun _ => CallbackAnswer false 0 (Ok tt)) (fun _ => new_delete_resource) (fun _ => Err session_invalid_logon) (fun _ => 0)
    (fun _ => 0) (fun n => Z.of_nat n * ns_per_s) (fun _ s => s).

Notation idle_session := (sample_session Active None (mkSeqnumManager 1 1)).

Lemma silent_peer_dropped_witness :
  (exists rounds, let (s', v) := run_liveness_loop ticking_world sample_config true true no_hooks rounds idle_session in
     v = Ret true /\ fsm_state_ (s_fsm s') <> Active) /\
  let s' := (run_liveness_loop ticking_world sample_config true true no_hooks 20 idle_session).1 in
  fsm_state_ (s_fsm s') = Disconnected /\ unanswered_tr_ (s_live s') = true /\
  pending_test_req_id_ (s_live s') = bytes_of "TR1".
Proof.
  split.
  - apply (silent_peer_dropped ticking_world sample_config true no_hooks idle_session).
    + intros n s. split_and!; (reflexivity || apply le_n).
    + intros n. reflexivity.
    + exists 60%nat. intros n Hn. cbn. unfold heartbt_ns, kDefaultHeartBtInt, ns_per_s. cbn. lia.
    + discriminate.
  - vm_compute. repeat split.
Defined.
