(* ===== verification/SessionOpen.v ===== *)
(** Opening a session (src/session/session.cpp: [Session::open], [emit_initiator_logon_],
    [install_reconnected_transport]; config_byte_floor.hpp, inbound_limit.hpp,
    fixt_session_check.hpp): every refusal of a configuration in order, the store, the
    initiator's Logon, and onCreate. *)
From stdpp Require Import strings.
From S2P Require Import Prelude Errors FixTime TagScan PairTable LengthData VersionProfile Writer Framer FrameHeader OffsetTable Credentials.
From S2P Require Import Seqnum MessageStore AdminMessages ReplayFrame SessionState SessionCore Routing Replay SessionClose.
From S2P Require Import InboundActive InboundLogon Inbound SendFrame SessionSend.

(** ** config_byte_floor.hpp, inbound_limit.hpp *)

Definition contains_forbidden_config_byte (value : bytes) : bool :=
  existsb (fun c => (c <? 32) || (c =? EQ)) value.

Definition kMinAdvertisedMaxMessageSize : Z := 4096.
Definition kMaxAdvertisedMaxMessageSize : Z := 262144.

Definition advertised_max_message_size_in_range (cfg : SessionConfig) : bool :=
  match cfg_advertised_max_message_size cfg with
  | None => true
  | Some v => (kMinAdvertisedMaxMessageSize <=? v) && (v <=? kMaxAdvertisedMaxMessageSize)
  end.

(** ** What open() finds beside the configuration the model holds *)

Record open_environment (St : Type) := OpenEnvironment {
  oe_executor : bool;                (* an executor is resolved *)
  oe_direct_spin : bool;             (* direct_executor with spin locks *)
  oe_backpressure : Z;               (* the raw value of app_backpressure *)
  oe_dictionary : bool;              (* a dictionary is configured *)
  oe_snapshot_foreign : bool;        (* a snapshot of another dictionary is configured *)
  oe_factory : result error (option bool);   (* the factory: an error, or whether its kind is the profile's *)
  oe_registry : bool;                (* a version registry is attached *)
  oe_slot_hit : bool;                (* it answers for the configured default version *)
  oe_dictionary_fixt_admin : bool;   (* the dictionary defines FIXT's admin messages *)
  oe_transport_fixt_admin : bool;    (* the registry's transport dictionary does *)
  oe_blocks : bool;                  (* the carry block and the parse buffer are allocated *)
  oe_routes : result error bool;     (* the route set: an error, or whether it holds the session's own *)
  oe_defaults : bool;                (* the block of MsgType defaults is allocated *)
  oe_bound : result error unit;      (* the executor binding *)
  oe_minted : option (result error (St * bool));   (* the factory's store, and whether it persists *)
  oe_transport_send : bool;          (* a configured sink *)
  oe_engine_managed : bool;
}.
Arguments oe_executor {St}. Arguments oe_direct_spin {St}. Arguments oe_backpressure {St}.
Arguments oe_dictionary {St}. Arguments oe_snapshot_foreign {St}. Arguments oe_factory {St}.
Arguments oe_registry {St}. Arguments oe_slot_hit {St}. Arguments oe_dictionary_fixt_admin {St}.
Arguments oe_transport_fixt_admin {St}. Arguments oe_blocks {St}. Arguments oe_routes {St}.
Arguments oe_defaults {St}. Arguments oe_bound {St}. Arguments oe_minted {St}.
Arguments oe_transport_send {St}. Arguments oe_engine_managed {St}.

Definition fixt_session_config_valid {St} (cfg : SessionConfig) (env : open_environment St) : bool :=
  let no_default := match cfg_default_appl_ver_id cfg with None => true | Some _ => false end in
  let no_registry := negb (oe_registry env) in
  let slot_miss := negb no_default && negb no_registry && negb (oe_slot_hit env) in
  let transport_answers := if no_registry then false else oe_transport_fixt_admin env in
  let no_transport := cfg_validate_inbound_messages cfg &&
    negb (oe_dictionary env && oe_dictionary_fixt_admin env) && negb transport_answers in
  negb (no_default || no_registry || slot_miss || no_transport).

Definition optional_forbidden (v : option bytes) : bool :=
  match v with Some v => contains_forbidden_config_byte v | None => false end.

Definition credential_length (cfg : SessionConfig) : Z :=
  match cfg_username cfg with Some u => zlen u | None => 0 end +
  match cfg_password cfg with Some p => zlen p | None => 0 end.

(** The texts a Logon copies hold no byte that could end or split a field. *)
Definition texts_allowed (cfg : SessionConfig) : bool :=
  negb (contains_forbidden_config_byte (cfg_sender_comp_id cfg) ||
        contains_forbidden_config_byte (cfg_target_comp_id cfg) ||
        contains_forbidden_config_byte (cfg_begin_string cfg)) &&
  negb (existsb (fun e => contains_forbidden_config_byte (smt_msg_type e)) (cfg_supported_msg_types cfg)) &&
  negb (optional_forbidden (cfg_username cfg)) && negb (optional_forbidden (cfg_password cfg)).

(** The refusals before anything of the session is changed, in order. *)
Definition open_refusal {St} (cfg : SessionConfig) (env : open_environment St) : option error :=
  let fixt_routing_ := bool_decide (cfg_begin_string cfg = bytes_of "FIXT.1.1") in
  let invalid := Some invalid_session_config in
  if negb (oe_executor env) then invalid
  else if oe_direct_spin env then invalid
  else if negb (oe_backpressure env =? 0) && negb (oe_backpressure env =? 1) then invalid
  else if negb (oe_dictionary env) then invalid
  else if oe_snapshot_foreign env then invalid
  else if match cfg_security_kind cfg with unset => true | _ => false end then invalid
  else match oe_factory env with
  | Err e => Some e
  | Ok (Some false) => invalid
  | Ok _ =>
      if fixt_routing_ && negb (fixt_session_config_valid cfg env) then invalid
      else if negb (texts_allowed cfg) then invalid
      else if kMaxMaskableLogonBytes <=? credential_length cfg then invalid
      else if cfg_logon_timeout_ms cfg =? 0 then invalid
      else if negb (advertised_max_message_size_in_range cfg) then invalid
      else if negb (oe_blocks env) then Some out_of_memory
      else
        match (if fixt_routing_ then oe_routes env else Ok true) with
        | Err e => Some e
        | Ok own =>
            if fixt_routing_ && negb (oe_defaults env) then Some out_of_memory
            else if negb own then invalid
            else match oe_bound env with Err e => Some e | Ok _ => None end
        end
  end.

Definition bind_store {St} (minted : option (St * bool)) (p : store_part St) : store_part St :=
  match minted with
  | Some (st, persistent) => mkStorePart (Some st) persistent (hydrated_ p) (hydrating_ p)
  | None => p
  end.
Definition bind_sink (sink : bool) (t : transport_part) : transport_part := mkTransport (live_transport_ t) sink.
Definition start_clocks (now : Z) (l : liveness_part) : liveness_part :=
  mkLiveness now now (pending_test_req_id_ l) (unanswered_tr_ l) (next_test_request_id_ l).

Definition upd_transport {St} (f : transport_part -> transport_part) (s : Session St) : Session St :=
  mkSession (s_fsm s) (s_events s) (s_close s) (s_store s) (seqnum_mgr_ s) (reconnect_fsm_ s)
    (s_live s) (s_logon s) (f (s_transport s)) (send_slot_in_use_ s) (s_tick s) (s_trace s).

Section Open.
Context {St SE : Type} `{MessageStore St SE} (w : world St SE).
Context (cfg : SessionConfig) (has_clock has_application : bool) (rt : routing).
Context (close_flush_hook_a1_ : option (SE -> St -> St * result error unit)).

Notation hooks := (inbound_hooks rt).
Notation disconnect := (record_state_transition_ w has_application Disconnected).

(** ** emit_initiator_logon_ *)

(** Whether the Logon asks for a reset (141=Y). *)
Definition asks_reset (logon_seq : seqnum_t) (next_in : seqnum_t) : bool :=
  let any_reset_knob := cfg_reset_on_logon cfg || cfg_reset_on_logout cfg || cfg_reset_on_disconnect cfg in
  let seqnums_at_one := (logon_seq =? seqnum_min) && (next_in =? seqnum_min) in
  is_strict (cfg_reset_seqnum_policy cfg) || (any_reset_knob && seqnums_at_one).

Definition heartbt_sec : Z := i32 (default 30 (cfg_heartbeat_interval cfg)).

Definition initiator_logon (logon_seq next_in : seqnum_t) (sending_time : bytes) : expected bytes :=
  let fixt := derive_logon_fixt_fields cfg in
  build_logon (replicate 256 0) logon_seq (cfg_sender_comp_id cfg) (cfg_target_comp_id cfg)
    (cfg_begin_string cfg) heartbt_sec sending_time (asks_reset logon_seq next_in)
    (if cfg_enable_next_expected_msg_seq_num cfg then Some next_in else None)
    (ff_default_appl_ver_id fixt) (ff_username fixt) (ff_password fixt)
    (AdvertiseOptions (cfg_advertised_max_message_size cfg)
       (match cfg_posture cfg with Some test => true | _ => false end) (cfg_supported_msg_types cfg)).

(** [record_state_transition_(Disconnected); co_return std::unexpected(e)] *)
Definition logon_failed (e : error) : M St (result error unit) := disconnect ;; ret (Err e).

Definition emit_logon : M St (result error unit) :=
  let! st52 := stamp w cfg has_clock in
  let! logon_seq := get (fun s => peek_outbound (seqnum_mgr_ s)) in
  let! next_in := get (fun s => next_inbound_ (seqnum_mgr_ s)) in
  modify (upd_logon (set_own_reset_flag (asks_reset logon_seq next_in))) ;;
  match initiator_logon logon_seq next_in st52 with
  | Err e => logon_failed e
  | Ok frame =>
      let! a := with_mgr w assign_outbound in
      match a with
      | Err e => logon_failed e
      | Ok _ =>
          let! seen := fire_to_admin_ w has_application hooks frame in
          if negb seen then logon_failed app_callback_threw
          else
            let! r := co_await w (store_then_emit w has_clock has_application hooks logon_seq frame None true) in
            match r with Err e => logon_failed e | Ok _ => ret (Ok tt) end
      end
  end.

Definition prepare_logon : M St (result error unit) :=
  let withhold_inbound := cfg_reset_on_logon cfg in
  let refresh_active := cfg_refresh_on_logon cfg && negb (is_strict (cfg_reset_seqnum_policy cfg)) in
  let! h_r := co_await w (ensure_hydrated_ w has_application (negb withhold_inbound) refresh_active None) in
  match h_r with
  | Err e => ret (Err e)
  | Ok _ =>
      if cfg_reset_on_logon cfg then
        let! r := co_await w (reset_seqnums_to_one_durable w fatal) in
        match r with Err e => logon_failed e | Ok _ => ret (Ok tt) end
      else ret (Ok tt)
  end.

Definition emit_initiator_logon_ : M St (result error unit) :=
  catch (let!? _ := prepare_logon in emit_logon)
    (fun cancelled =>
       disconnect_once w has_application ;;
       ret (Err (if cancelled : bool then store_cancelled else dispatch_aborted))).

(** [install_reconnected_transport]: the state half of a transport's arrival. *)
Definition install_reconnected_transport (peer_id : option bytes) : M St unit :=
  (match cfg_security_kind cfg with
   | insecure_plain_tcp => ret tt
   | _ => modify (upd_logon (fun l => mkLogon (negotiated_appl_version_ l) (route_negotiated_ l)
            (msg_type_defaults_ l) (own_logon_sent_reset_flag_ l) (peer_advertised_max_message_size_ l)
            peer_id (liveness_counter_ l)))
   end) ;;
  modify (upd_transport (fun t => mkTransport true (transport_send_ t))) ;;
  record_state_transition_ w has_application LogonSent.

(** ** open *)

Definition open_role (env : open_environment St) : M St (result error unit) :=
  match cfg_role cfg with
  | initiator =>
      if oe_engine_managed env then ret (Ok tt)
      else
        record_state_transition_ w has_application LogonSent ;;
        co_await w emit_initiator_logon_
  | acceptor => ret (Ok tt)
  end.

Definition on_create : M St (result error unit) :=
  if negb has_application then ret (Ok tt)
  else
    let! threw := invoke_callback w OnCreate in
    if threw : bool then
      let! r := co_await w (close w cfg has_clock has_application hooks close_flush_hook_a1_ false terminal) in
      ret (Err app_callback_threw)
    else ret (Ok tt).

Definition open (env : open_environment St) : M St (result error unit) :=
  let! st := get (fun s => state_ (s_close s)) in
  if negb (bool_decide (st = never_opened)) then ret (Err session_already_open)
  else
    match open_refusal cfg env with
    | Some e => ret (Err e)
    | None =>
        match oe_minted env with
        | Some (Err e) => ret (Err e)
        | minted =>
            let minted := match minted with Some (Ok m) => Some m | _ => None end in
            modify (upd_store (bind_store minted)) ;;
            modify (upd_close (set_closing SessionState.open)) ;;
            modify (upd_transport (bind_sink (oe_transport_send env))) ;;
            let!? _ := open_role env in
            (if has_clock then let! now := steady_now w in modify (upd_live (start_clocks now)) else ret tt) ;;
            on_create
        end
    end.
End Open.

(** ** Lemmas *)

Lemma timestamp_clean tp prec : SOH ∉ timestamp_text tp prec.
Proof.
  assert (Hw : forall v n, SOH ∉ write_digits v n) by (intros; rewrite write_digits_fixed; apply digits_no_SOH; auto with fixpp).
  unfold timestamp_text. cbv zeta. destruct (if _ <? 0 then _ else _) as [tod days].
  rewrite !not_elem_of_app. split_and!; try apply Hw; try (by intros ?%list_elem_of_singleton).
  destruct prec; [by apply not_elem_of_nil|..]; (apply not_elem_of_cons; split; [done|apply Hw]).
Qed.

Lemma stamp_clean now prec : SOH ∉ stamp_text now prec.
Proof.
  unfold stamp_text, utc_time_to_fix_string. destruct (_ <? _); [by apply not_elem_of_nil|].
  rewrite zwrite_0, ztake_app. apply timestamp_clean.
Qed.

Lemma forbidden_clean v : contains_forbidden_config_byte v = false -> SOH ∉ v.
Proof.
  intros Hv Hin. assert (E : contains_forbidden_config_byte v = true); [|congruence].
  apply existsb_exists. exists SOH. split; [by apply list_elem_of_In|done].
Qed.

Section OpenLemmas.
Context {St SE : Type} `{MessageStore St SE} (w : world St SE).
Context (cfg : SessionConfig) (has_clock has_application : bool) (rt : routing).
Context (flush : option (SE -> St -> St * result error unit)).

Lemma open_accepted env s : (open w cfg has_clock has_application rt flush env s).2 = Ret (Ok tt) ->
  state_ (s_close s) = never_opened /\ open_refusal cfg env = None.
Proof.
  unfold open, bind at 1, get. case_bool_decide as Hst; cbn [negb]; [|done].
  destruct (open_refusal cfg env); [done|]. by split.
Qed.

Lemma accepted_texts env : open_refusal (St := St) cfg env = None ->
  SOH ∉ cfg_sender_comp_id cfg /\ SOH ∉ cfg_target_comp_id cfg /\ SOH ∉ cfg_begin_string cfg.
Proof.
  intros Hr. assert (Ht : texts_allowed cfg = true).
  { unfold open_refusal in Hr. destruct (texts_allowed cfg); [done|]. cbn [negb] in Hr.
    repeat match type of Hr with
    | (if ?b then _ else _) = None => destruct b; try discriminate Hr
    | match ?x with _ => _ end = None => destruct x; try discriminate Hr
    end. }
  unfold texts_allowed in Ht. apply andb_true_iff in Ht as [Ht _]. apply andb_true_iff in Ht as [Ht _].
  apply andb_true_iff in Ht as [Ht _]. apply negb_true_iff, orb_false_iff in Ht as [Ht H3].
  apply orb_false_iff in Ht as [H1 H2]. split_and!; by apply forbidden_clean.
Qed.
End OpenLemmas.

(** *** The initiator's Logon *)

Section LogonLemmas.
Context {St SE : Type} `{MessageStore St SE} (w : world St SE).
Context (cfg : SessionConfig) (has_clock has_application : bool) (rt : routing).

Notation hooks := (inbound_hooks rt).

Definition is_initiator_logon (frame : bytes) : Prop :=
  exists seq next_in st52, initiator_logon cfg seq next_in st52 = Ok frame.

(** Not a transmission of a Logon of this session. *)
Definition not_a_logon (e : effect) : Prop := forall frame, e = Transmitted frame -> ~ is_initiator_logon frame.

Context (Hother : forall n s, quiet not_a_logon s (w_other w n s)).
Context (Hthrow : forall n k, w_throw w n <> throw_other k).
Notation Q := (quiet (St := St) not_a_logon).

(** How emitting the Logon ends: transmitted once, or not at all and disconnected. *)
Definition logon_sent (s s' : Session St) (r : result error unit) : Prop :=
  exists t, s_trace s' = s_trace s ++ t /\
  match r with
  | Ok _ =>
      (Forall not_a_logon t /\ can_transmit s = false) \/
      exists frame seq next_in st52 t1 t2, initiator_logon cfg seq next_in st52 = Ok frame /\
        t = t1 ++ Transmitted frame :: t2 /\ Forall not_a_logon t1 /\ Forall not_a_logon t2
  | Err _ => Forall not_a_logon t /\ fsm_state_ (s_fsm s') = Disconnected
  end.

(** The same of a run that an exception may leave. *)
Definition logon_run (s s' : Session St) (v : outcome (result error unit)) : Prop :=
  match v with Ret r => logon_sent s s' r | Aborted _ => adds not_a_logon s s' end.

Lemma not_a_logon_other e : (forall frame, e <> Transmitted frame) -> not_a_logon e.
Proof using. intros He f ->. by destruct (He f). Qed.

Lemma logon_same (f : Session St -> Session St) :
  (forall s, s_trace (f s) = s_trace s /\ store_is_persistent_ (s_store (f s)) = store_is_persistent_ (s_store s) /\
    s_transport (f s) = s_transport s) -> keeps Q (modify f).
Proof using. intros Hf. apply keeps_modify. by apply quiet_same. Qed.

Lemma logon_transition x : keeps Q (record_state_transition_ w has_application x).
Proof using. apply keeps_transition; by apply not_a_logon_other. Qed.

Lemma logon_awaited {A} (m : M St A) : keeps Q m -> keeps Q (co_await w m).
Proof using. apply keeps_co_await; [typeclasses eauto|]. by apply (quiet_same _ upd_tick). Qed.

Lemma logon_hydrate a force : keeps Q (ensure_hydrated_ w has_application a force None).
Proof using Hother.
  unfold ensure_hydrated_, hydrate_from_store, with_store. repeat keeps_step;
    first [by apply logon_same|by apply keeps_store_await|apply keeps_with_mgr
          |apply keeps_disconnect; by apply not_a_logon_other].
Qed.

Lemma logon_reset d : keeps Q (reset_seqnums_to_one_durable w d).
Proof using Hother.
  unfold reset_seqnums_to_one_durable, with_store. repeat keeps_step; [apply keeps_with_mgr|by apply keeps_store_await].
Qed.

Lemma logon_disconnects (s : Session St) : exists s', record_state_transition_ w has_application Disconnected s = (s', Ret tt) /\
  Q s s' /\ fsm_state_ (s_fsm s') = Disconnected.
Proof using.
  destruct (transition_spec w has_application Disconnected s) as (s' & E & _ & _ & Hd & _). exists s'.
  pose proof (logon_transition Disconnected s) as Hk. rewrite E in Hk. by split.
Qed.

(** A refusal at a point where no Logon was transmitted. *)
Lemma logon_refused s s1 e : adds not_a_logon s s1 -> post (logon_failed w has_application e) s1 (logon_run s).
Proof using.
  intros HQ. destruct (logon_disconnects s1) as (s2 & E & Q2 & Hd). unfold logon_failed, post, bind. rewrite E. cbn.
  destruct HQ as (t1 & E1 & F1), Q2 as ((t2 & E2 & F2) & _). exists (t1 ++ t2).
  split; [by rewrite E2, E1, app_assoc|]. split; [by apply Forall_app|done].
Qed.

(** A failed hydration has disconnected. *)
Lemma hydrate_failed a force s : post (ensure_hydrated_ w has_application a force None) s (fun s' v =>
  match v with Ret (Err _) => fsm_state_ (s_fsm s') = Disconnected | _ => True end).
Proof using.
  assert (Hf : forall (e : error) s1, post (disconnect_unless_superseded_ w has_application None ;; ret (A := result error unit) (Err e)) s1 (fun s' v =>
    match v with Ret (Err _) => fsm_state_ (s_fsm s') = Disconnected | _ => True end)).
  { intros e s1. unfold disconnect_unless_superseded_, disconnect_once. apply post_bind, post_bind, post_get. cbn [superseded].
    apply post_bind, post_get. cbn beta iota. unfold fsm_is. case_bool_decide as Hd; [by apply post_ret, post_ret|].
    destruct (transition_spec w has_application Disconnected s1) as (s2 & E & _ & _ & H2 & _). unfold post at 1. rewrite E. by apply post_ret. }
  unfold ensure_hydrated_. apply post_bind, post_get. cbn beta iota.
  destruct (_ && _); [by apply post_ret|]. destruct (hydrating_ _); [by apply post_ret|].
  apply post_bind, post_modify, post_bind, post_catch. cbv zeta.
  set (s1 := upd_store _ s).
  eapply (post_weaken _ _ (fun s' v => match v with Ret (Err _) => fsm_state_ (s_fsm s') = Disconnected | _ => True end)).
  2: { intros s2 [[u|e]|c] Hd; [apply post_bind, post_modify; by apply post_ret..|].
       apply post_bind, post_modify. by apply post_abort. }
  destruct (store_is_persistent_ _); [|by apply post_ret]. destruct (store_ _) as [st|]; [|by apply post_ret].
  unfold hydrate_from_store. apply post_bind. eapply (post_weaken _ _ (fun _ _ => True)); [done|].
  intros s2 [[n|e]|c] _; [|apply Hf|done]. apply post_bind, post_get, post_bind.
  eapply (post_weaken _ _ (fun _ _ => True)); [done|]. intros s3 [[n'|e]|c] _; [|apply Hf|done].
  apply post_bind. eapply (post_weaken _ _ (fun _ _ => True)); [done|]. intros s4 [[u|e]|c] _; [|apply Hf|done].
  apply post_bind, post_modify. by apply post_ret.
Qed.

Lemma prepare_post s : post (prepare_logon w cfg has_application) s (fun s' v => Q s s' /\
  match v with Ret (Err _) => fsm_state_ (s_fsm s') = Disconnected | _ => True end).
Proof using Hother.
  unfold prepare_logon. apply post_bind, post_co_await; [by split; [apply (quiet_same _ upd_tick)|]|].
  set (m := ensure_hydrated_ _ _ _ _ _). pose proof (logon_hydrate (negb (cfg_reset_on_logon cfg))
    (cfg_refresh_on_logon cfg && negb (is_strict (cfg_reset_seqnum_policy cfg))) (upd_tick s)) as Hk.
  pose proof (hydrate_failed (negb (cfg_reset_on_logon cfg))
    (cfg_refresh_on_logon cfg && negb (is_strict (cfg_reset_seqnum_policy cfg))) (upd_tick s)) as Hf.
  fold m in Hk, Hf. unfold post in *. destruct (m (upd_tick s)) as [s1 v]. cbn [fst snd] in *.
  assert (Q1 : Q s s1) by (etransitivity; [by apply (quiet_same _ upd_tick)|exact Hk]).
  destruct v as [[u|e]|c]; [|by split..].
  destruct (cfg_reset_on_logon cfg); [|by split]. apply post_bind, post_co_await.
  { split; [|done]. etransitivity; [exact Q1|]. by apply (quiet_same _ upd_tick). }
  pose proof (logon_reset fatal (upd_tick s1)) as Hr. unfold post.
  destruct (reset_seqnums_to_one_durable w fatal (upd_tick s1)) as [s2 v]. cbn [fst snd] in *.
  assert (Q2 : Q s s2) by (etransitivity; [exact Q1|]; etransitivity; [by apply (quiet_same _ upd_tick)|exact Hr]).
  destruct v as [[u'|e]|c]; [by split| |by split]. unfold logon_failed, bind.
  destruct (logon_disconnects s2) as (s3 & E & Q3 & Hd). rewrite E. cbn. split; [by etransitivity|done].
Qed.

Lemma emit_logon_post s s0 : Q s0 s -> post (emit_logon w cfg has_clock has_application rt) s (logon_run s0).
Proof using Hother Hthrow.
  intros Q0. unfold emit_logon. apply post_bind.
  assert (Hst : exists s1 v, stamp w cfg has_clock s = (s1, Ret v) /\ Q s s1).
  { unfold stamp. destruct has_clock; [|by exists s, []; split]. eexists _, _. split; [reflexivity|]. by apply (quiet_same _ upd_tick). }
  destruct Hst as (s1 & st52 & E & Q1). unfold post at 1. rewrite E. cbn [fst snd]. clear E.
  apply post_bind, post_get, post_bind, post_get, post_bind, post_modify. cbn beta iota.
  set (seq := peek_outbound _). set (next_in := next_inbound_ _). set (s2 := upd_logon _ s1).
  assert (Q2 : Q s0 s2) by (etransitivity; [exact Q0|]; etransitivity; [exact Q1|]; by apply (quiet_same _ (upd_logon _))).
  destruct (initiator_logon cfg seq next_in st52) as [f|e] eqn:Ef; [|apply logon_refused, Q2].
  apply post_bind. pose proof (keeps_with_mgr w not_a_logon assign_outbound s2) as Q3. unfold post at 1.
  destruct (with_mgr w assign_outbound s2) as [s3 [a|c]]; cbn [fst snd] in *.
  2: { destruct Q2 as [Q2 _], Q3 as [Q3 _]. change (adds not_a_logon s0 s3). by etransitivity. }
  assert (Q4 : Q s0 s3) by (by etransitivity). destruct a as [n|e]; [|apply logon_refused, Q4]. apply post_bind.
  assert (Hadm : exists s4 b, fire_to_admin_ w has_application hooks f s3 = (s4, Ret b) /\ Q s3 s4).
  { assert (Hk : keeps Q (fire_to_admin_ w has_application hooks f)).
    { unfold fire_to_admin_, parse_and_dispatch_. repeat keeps_step; first [by apply keeps_callback, not_a_logon_other
        | apply keeps_ask; by apply quiet_same]. }
    pose proof (Hk s3) as Hq. revert Hq. unfold fire_to_admin_, parse_and_dispatch_, invoke_callback, bind, ask. destruct has_application; cbn; [|by eexists _, _].
    destruct (outbound_parses _ _ _ _); cbn; [|by eexists _, _]. destruct (cb_threw _); by eexists _, _. }
  destruct Hadm as (s4 & b & E & Q5). unfold post at 1. rewrite E. cbn [fst snd]. clear E.
  assert (Q6 : Q s0 s4) by (by etransitivity). destruct b; cbn [negb]; [|apply logon_refused, Q6].
  assert (Q7 : Q s0 (upd_tick s4)) by (etransitivity; [exact Q6|by apply (quiet_same _ upd_tick)]).
  apply post_bind, post_co_await; [apply Q7|].
  eapply post_weaken.
  { eapply (store_then_emit_post w has_clock has_application hooks not_a_logon Hother); try done; by intros; apply not_a_logon_other. }
  intros s5 v (t & Et & Hv). destruct Q7 as ((t0 & E0 & F0) & Hp & Htr).
  assert (Et' : s_trace s5 = s_trace s0 ++ t0 ++ t) by (by rewrite Et, E0, app_assoc).
  destruct v as [[u|e]|c].
  - apply post_ret. exists (t0 ++ t). split; [done|].
    destruct Hv as [[Hv Hn]|(_ & t1 & t2 & -> & F1 & F2 & _)].
    + left. split; [by apply Forall_app|]. specialize (Hn eq_refl eq_refl). unfold can_transmit in *. by rewrite <- Htr.
    + right. exists f, seq, next_in, st52, (t0 ++ t1), t2. split; [done|]. split; [by rewrite <- app_assoc|].
      split; [by apply Forall_app|done].
  - apply logon_refused. exists (t0 ++ t). split; [done|by apply Forall_app].
  - exists (t0 ++ t). split; [done|]. apply Forall_app. split; [done|apply Hv].
Qed.

Lemma initiator_logon_post s : post (emit_initiator_logon_ w cfg has_clock has_application rt) s
  (fun s' v => exists r, v = Ret r /\ logon_sent s s' r).
Proof using Hother Hthrow.
  unfold emit_initiator_logon_. apply post_catch.
  eapply (post_weaken _ _ (logon_run s)).
  - apply post_bind. eapply post_weaken; [apply prepare_post|]. intros s1 [[u|e]|c] (HQ & Hd).
    + by apply emit_logon_post.
    + apply post_ret. destruct HQ as ((t & E & F) & _). by exists t.
    + apply HQ.
  - intros s1 [r|c] Hr; [by exists r|]. cbn in Hr. unfold disconnect_once. apply post_bind, post_bind, post_get. cbn beta iota.
    unfold fsm_is. case_bool_decide as Hd.
    + apply post_ret, post_ret. eexists. split; [done|]. destruct Hr as (t & E & F). by exists t.
    + destruct (logon_disconnects s1) as (s2 & E & ((t2 & E2 & F2) & _) & H2). unfold post at 1. rewrite E. cbn [fst snd]. apply post_ret.
      eexists. split; [done|]. destruct Hr as (t & E' & F). exists (t ++ t2). split; [by rewrite E2, E', app_assoc|].
      split; [by apply Forall_app|done].
Qed.
End LogonLemmas.

(** ** Properties *)

(** C8: what an opened session sends is read as it was meant.  If open() accepted the
    configuration and the payload obeys the Length+Data rule, the frame the session sends
    for it, under any stamp of the clock and any number, is split by a strict scan, without
    a fault, into exactly the fields sent: the scanned header has the payload's MsgType
    third, the number, the session's CompIDs and BeginString and the stamp, whatever the
    payload held, and the application's fields are the payload's, none lost and none added
    but PossDupFlag and OrigSendingTime where they are not allowed. *)
Theorem opened_sends_read_back {St SE} `{MessageStore St SE} (w : world St SE) cfg has_clock has_application rt
    `{!admin_hooks (inbound_hooks rt)} flush env (s : Session St) now seq mt fs frame n :
  let h := inbound_hooks rt in
  let st52 := stamp_text now (cfg_sending_time_precision cfg) in
  (open w cfg has_clock has_application rt flush env s).2 = Ret (Ok tt) ->
  sendable h mt fs -> container_conforms h fs = true ->
  send_frame cfg rt st52 seq (payload_text mt fs) = Ok (Built frame n) ->
  let body := sent_fields h (inbound_header_tag rt) (cfg_allow_pos_dup cfg) (cfg_sender_comp_id cfg) (cfg_target_comp_id cfg)
                st52 seq mt fs in
  split_fields frame h = (frame_fields (cfg_begin_string cfg) body, (fault_none, 0, 0)) /\
  arranged h (inbound_header_tag rt) (cfg_allow_pos_dup cfg) fs ≡ₚ List.filter (kept (cfg_allow_pos_dup cfg)) fs /\
  let hd := scan_frame_header frame h in
  fault hd = fault_none /\ msg_type_is_third hd = true /\ FrameHeader.msg_type hd = mt /\
  msg_seq_num hd = dec_text seq /\ sender_comp_id hd = cfg_sender_comp_id cfg /\
  target_comp_id hd = cfg_target_comp_id cfg /\ FrameHeader.begin_string hd = cfg_begin_string cfg /\
  FrameHeader.sending_time hd = st52.
Proof.
  intros h st52 Ho Hs Hc Hf body. apply open_accepted in Ho as [_ Ho].
  destruct (accepted_texts cfg env Ho) as (H1 & H2 & H3).
  unfold send_frame in Hf. rewrite build_sendable in Hf by (done || (unfold kSendFrameBytes; lia)).
  fold body in Hf. destruct (zlen _ <=? kSendFrameBytes) eqn:El; [|done]. injection Hf as <- <-.
  destruct (sent_reads_back h (inbound_header_tag rt) (cfg_allow_pos_dup cfg) (cfg_begin_string cfg)
    (cfg_sender_comp_id cfg) (cfg_target_comp_id cfg) st52 seq mt fs Hs Hc H3 H1 H2 (stamp_clean _ _)) as (_ & Hx & Hy & Hz);
    [by apply Z.leb_le|]. by split_and!.
Qed.

(** An environment that stands in no session's way. *)
Definition sample_environment : open_environment log_store :=
  OpenEnvironment log_store true false 0 true false (Ok (Some true)) false false false false true (Ok true) true (Ok tt)
    (Some (Ok (empty_log, true))) false false.

Definition fresh_session : Session log_store :=
  mkSession fsm_init events_init close_init (mkStorePart None false false false) (mkSeqnumManager 1 1)
    (mkReconnect false resend_state_reset) (mkLiveness 0 0 [] false 0)
    (mkLogon av_Unknown av_Unknown [] false None None 0) (mkTransport true false) false 0 [].

Definition data_frame : bytes :=
  match send_frame sample_config sample_routing (stamp_text 0 millis) 7 (payload_text [68] data_fields) with
  | Ok b => sf_frame b
  | Err _ => []
  end.

Lemma opened_sends_read_back_witness :
  (open calm_world sample_config true true sample_routing None sample_environment fresh_session).2 = Ret (Ok tt) /\
  split_fields data_frame no_hooks =
    (frame_fields [70] [(35, [68]); (34, [55]); (49, [65]); (52, bytes_of "19700101-00:00:00.000"); (56, [66]);
       (50, [83]); (95, [51]); (96, [97; 1; 98]); (58, [104; 105])], (fault_none, 0, 0)) /\
  FrameHeader.msg_type (scan_frame_header data_frame no_hooks) = [68].
Proof.
  assert (Ho : (open calm_world sample_config true true sample_routing None sample_environment fresh_session).2 = Ret (Ok tt))
    by (vm_compute; reflexivity).
  split; [exact Ho|].
  assert (Hf : send_frame sample_config sample_routing (stamp_text 0 millis) 7 (payload_text [68] data_fields) =
    Ok (Built data_frame 7)) by (vm_compute; reflexivity).
  assert (Hb : sent_fields no_hooks (inbound_header_tag sample_routing) false [65] [66] (stamp_text 0 millis) 7 [68] data_fields =
    [(35, [68]); (34, [55]); (49, [65]); (52, bytes_of "19700101-00:00:00.000"); (56, [66]);
     (50, [83]); (95, [51]); (96, [97; 1; 98]); (58, [104; 105])]) by (vm_compute; reflexivity).
  destruct (opened_sends_read_back (admin_hooks0 := no_hooks_admin) calm_world sample_config true true sample_routing None
    sample_environment fresh_session 0 7 [68] data_fields data_frame 7 Ho data_sendable ltac:(vm_compute; reflexivity) Hf)
    as (Hs & _ & _ & _ & Hm & _).
  split; [|exact Hm]. rewrite <- Hb. exact Hs.
Defined.

(** C9: an initiator logs on or is disconnected.  Whatever a store, a lock, a write, the
    application, a cancellation and the rest of the strand do (the rest sends no Logon, and
    the store lets no exception out but a cancellation's), emitting the initiator's Logon
    returns: with success after exactly one Logon was transmitted, built with the number,
    the expected number and the reset flag of the moment, or with an error, no Logon
    transmitted, and the session Disconnected.  No failure, an exception's included, leaves it
    waiting for an answer to a Logon it did not send. *)
Theorem initiator_logon_or_disconnected {St SE} `{MessageStore St SE} (w : world St SE) cfg has_clock has_application rt
    (s : Session St) :
  (forall n s, quiet (not_a_logon cfg) s (w_other w n s)) -> (forall n k, w_throw w n <> throw_other k) ->
  let (s', v) := emit_initiator_logon_ w cfg has_clock has_application rt s in
  exists r, v = Ret r /\ logon_sent cfg s s' r.
Proof.
  intros Hother Hthrow. pose proof (initiator_logon_post w cfg has_clock has_application rt Hother Hthrow s) as Hp.
  unfold post in Hp. by destruct (emit_initiator_logon_ _ _ _ _ _ s).
Qed.

Definition logon_frame : bytes :=
  match initiator_logon sample_config 1 1 [] with Ok f => f | Err _ => [] end.

(** A store that refuses the Logon. *)
Definition full_world : world log_store bool :=
  World log_store bool (fun _ => false) (fun _ => true) (fun _ => false) (fun _ => no_throw) (fun _ => true) (fun _ => true) (fun _ => false)
    (fun _ => CallbackAnswer false 0 (Ok tt)) (fun _ => new_delete_resource) (fun _ => Err session_invalid_logon) (fun _ => 0)
    (fun _ => 0) (fun _ => 0) (fun _ s => s).

Lemma initiator_logon_or_disconnected_witness :
  let s := sample_session LogonSent (Some empty_log) (mkSeqnumManager 1 1) in
  let s1 := (emit_initiator_logon_ calm_world sample_config false true sample_routing s).1 in
  let s2 := (emit_initiator_logon_ full_world sample_config false true sample_routing s).1 in
  logon_sent sample_config s s1 (Ok tt) /\ s_trace s1 = [ToAdmin logon_frame; Stored 1 logon_frame; Transmitted logon_frame] /\
  exists e, logon_sent sample_config s s2 (Err e) /\ s_trace s2 = [].
Proof.
  intros s s1 s2.
  pose proof (initiator_logon_or_disconnected calm_world sample_config false true sample_routing s
    ltac:(intros n s0; reflexivity) ltac:(intros n k; discriminate)) as H1.
  pose proof (initiator_logon_or_disconnected full_world sample_config false true sample_routing s
    ltac:(intros n s0; reflexivity) ltac:(intros n k; discriminate)) as H2.
  assert (E1 : (s_trace s1, (emit_initiator_logon_ calm_world sample_config false true sample_routing s).2) =
    ([ToAdmin logon_frame; Stored 1 logon_frame; Transmitted logon_frame], Ret (Ok tt))) by (vm_compute; reflexivity).
  assert (E2 : (s_trace s2, is_ok (match (emit_initiator_logon_ full_world sample_config false true sample_routing s).2 with
    Ret r => r | Aborted _ => Ok tt end)) = ([], false)) by (vm_compute; reflexivity).
  subst s1 s2. destruct (emit_initiator_logon_ calm_world sample_config false true sample_routing s) as [s1 v1].
  destruct (emit_initiator_logon_ full_world sample_config false true sample_routing s) as [s2 v2]. cbn [fst snd] in *.
  injection E1 as E1 ->. destruct H1 as (r1 & [= <-] & H1). split; [exact H1|]. split; [exact E1|].
  destruct H2 as (r2 & -> & H2). injection E2 as E2 Er. destruct r2 as [u|e]; [discriminate Er|].
  exists e. split; [exact H2|exact E2].
Defined.
