(* ===== verification/TextSet.v ===== *)
(** An ascending vector of texts kept as a set: the search and the insertion the code makes
    with [std::ranges::lower_bound]
    (src/session/compid_authorization_policy.cpp, include/fixpp/dict/table_view.hpp). *)
From S2P Require Import Prelude.
From Stdlib Require Import Sorted.

(** [std::ranges::lower_bound] on an ascending list: what precedes the value's place, and
    what stands from it on. *)
Fixpoint lower_bound (l : list bytes) (v : bytes) : list bytes * list bytes :=
  match l with
  | [] => ([], [])
  | x :: l' => if bytes_lt x v then let (a, b) := lower_bound l' v in (x :: a, b) else ([], l)
  end.

(** [pos != end && *pos == v] *)
Definition contains_text (l : list bytes) (v : bytes) : bool :=
  match (lower_bound l v).2 with x :: _ => bool_decide (x = v) | [] => false end.

(** Insertion in place, of a value not there yet. *)
Definition insert_text (l : list bytes) (v : bytes) : list bytes :=
  match lower_bound l v with
  | (a, []) => a ++ [v]
  | (a, x :: b) => if bool_decide (x = v) then l else a ++ v :: x :: b
  end.

(** ** Ordered lists of texts *)

Definition ordered (l : list bytes) : Prop := StronglySorted (fun a b => bytes_lt a b = true) l.

(** A value's place in an ascending list. *)
Lemma lower_bound_spec l v : ordered l ->
  l = (lower_bound l v).1 ++ (lower_bound l v).2 /\
  Forall (fun x => bytes_lt x v = true) (lower_bound l v).1 /\
  Forall (fun x => bytes_lt x v = false) (lower_bound l v).2.
Proof.
  unfold ordered. induction 1 as [|x l Hs IH Hx]; [done|]. cbn [lower_bound].
  destruct (bytes_lt x v) eqn:E.
  - destruct (lower_bound l v) as [a b]. cbn in *. destruct IH as (-> & ? & ?). split_and!; [done|by constructor|done].
  - cbn. split_and!; [done|constructor|]. constructor; [done|]. eapply Forall_impl; [exact Hx|]. cbn. intros y Hy.
    destruct (bytes_lt y v) eqn:Ey; [|done]. by rewrite (bytes_lt_trans _ _ _ Hy Ey) in E.
Qed.

Lemma ordered_app a b : ordered (a ++ b) <-> ordered a /\ ordered b /\
  Forall (fun x => Forall (fun y => bytes_lt x y = true) b) a.
Proof.
  unfold ordered. induction a as [|x a IH]; cbn [app]; [split; [intros H; split; [constructor|]; by split|tauto]|].
  split.
  - intros H. inversion H as [|? ? Hs Hx]; subst. apply IH in Hs as (? & ? & ?).
    apply Forall_app in Hx as [? ?]. split_and!; [by constructor|done|by constructor].
  - intros (Ha & Hb & Hab). inversion Ha; subst. inversion Hab; subst. constructor; [by apply IH|].
    by apply Forall_app.
Qed.

(** The binary search finds exactly the members. *)
Lemma contains_text_spec l v : ordered l ->
  contains_text l v = true <-> v ∈ l.
Proof.
  intros Hl. unfold contains_text. destruct (lower_bound_spec l v Hl) as (El & Ha & Hb). rewrite El in Hl |- * at 2.
  assert (Hna : v ∉ (lower_bound l v).1).
  { intros Hin. eapply (proj1 (Forall_forall _ _) Ha) in Hin. by rewrite bytes_lt_irrefl in Hin. }
  rewrite elem_of_app. destruct (lower_bound l v).2 as [|x b] eqn:E; cbn in *.
  { split; [done|]. intros [?|Hin]; [done|]. by apply elem_of_nil in Hin. }
  rewrite bool_decide_eq_true, elem_of_cons. split; [intros ->; auto|].
  intros [?|[->|Hin]]; [done|done|]. apply ordered_app in Hl as (_ & Hx & _).
  inversion Hx as [|? ? _ Hx']; subst. eapply (proj1 (Forall_forall _ _) Hx') in Hin.
  inversion Hb; subst. congruence.
Qed.

Lemma insert_ordered vec c : ordered vec ->
  ordered (insert_text vec c) /\ forall y, y ∈ insert_text vec c <-> y ∈ vec \/ y = c.
Proof.
  intros Hv. pose proof (contains_text_spec vec c Hv) as Hm. unfold insert_text, contains_text in *.
  destruct (lower_bound_spec vec c Hv) as (El & Ha & Hb).
  destruct (lower_bound vec c) as [a b]. cbn [fst snd] in *. rewrite El in Hv.
  pose proof Hv as (Hoa & Hob & Hab)%ordered_app. destruct b as [|x b].
  - rewrite app_nil_r in El. subst a. split.
    + apply ordered_app. split_and!; [done|by repeat constructor|].
      eapply Forall_impl; [exact Ha|]. intros y Hy. by repeat constructor.
    + intros y. rewrite elem_of_app, list_elem_of_singleton. done.
  - case_bool_decide as Hx.
    + subst x vec. split; [done|]. intros y. split; [by left|]. intros [?| ->]; [done|].
      apply Hm. done.
    + inversion Hb as [|? ? Hxc _]; subst.
      assert (Hcx : bytes_lt c x = true).
      { by apply bytes_lt_total; [|done]. }
      assert (Hoc : ordered (c :: x :: b)).
      { constructor; [done|]. inversion Hob as [|? ? _ Hxb]; subst. constructor; [done|].
        eapply Forall_impl; [exact Hxb|]. cbn. intros y. by apply bytes_lt_trans. }
      split.
      * apply ordered_app. split_and!; [done|done|]. apply Forall_forall. intros y Hy.
        constructor; [by apply (proj1 (Forall_forall _ _) Ha)|by apply (proj1 (Forall_forall _ _) Hab)].
      * intros y. rewrite !elem_of_app, !elem_of_cons. tauto.
Qed.

