(* ===== verification/TableView.v ===== *)
(** The tables of a dictionary a validator reads, [include/fixpp/dict/table_view.hpp]: the
    stores behind [table_view], its lookups with their bit filters, the builder that fills
    them, and the callbacks [dict_hooks::for_table_view] makes of them
    (include/fixpp/wire/parser.hpp).

    The hash maps are finite maps.  A key of the context store is the message type, the path
    of parent groups and the group's count tag; the store's keys are cut at sixteen parents,
    the queries are not. *)
From stdpp Require Import gmap.
From S2P Require Import Prelude TextSet PairTable LengthData.

Inductive field_type : Set := ft_String | ft_Int | ft_Float | ft_Char | ft_Boolean | ft_Data | ft_Length.

#[global] Instance field_type_eq_dec : EqDecision field_type.
Proof. solve_decision. Defined.

Definition kMaxGroupContextDepth : nat := 16.

Definition group_ctx_key : Type := bytes * list Z * Z.

Definition make_group_ctx_key (msg_type : bytes) (parent_path : list Z) (no_tag : Z) : group_ctx_key :=
  (msg_type, take kMaxGroupContextDepth parent_path, no_tag).

(** [make_ctx_query], in a release build: the path as it is given. *)
Definition make_ctx_query (msg_type : bytes) (parent_path : list Z) (no_tag : Z) : group_ctx_key :=
  (msg_type, parent_path, no_tag).

Record group_ctx_entry := mkGroupEntry {
  ge_group_first : Z; ge_members : list Z; ge_required_members : list Z }.

Record enum_domain := mkEnumDomain {
  ed_codes : list bytes; ed_multi_value : bool; ed_all_single_char : bool; ed_single_char_mask : list Z }.

Record table_view := mkTable {
  tv_valid : gmap bytes (gset Z);
  tv_required : gmap bytes (list Z);
  tv_group_first : gmap Z Z;
  tv_group_members : gmap Z (list Z);
  tv_group_required_members : gmap Z (list Z);
  tv_group_bits : list Z;
  tv_group_ctx : gmap group_ctx_key group_ctx_entry;
  tv_types : gmap Z field_type;
  tv_enum_bits : list Z;
  tv_enums : gmap Z enum_domain;
  tv_fixt_framing_tags : gset Z;
  tv_fixt_framing_types : gmap Z field_type;
  tv_length_pair_data_tag : gmap Z Z;
  tv_data_pair_length_tag : gmap Z Z;
  tv_has_nonstandard_pair : bool;
  tv_header_bits : list Z }.

Definition empty_table : table_view :=
  mkTable ∅ ∅ ∅ ∅ ∅ [] ∅ ∅ [] ∅ ∅ ∅ ∅ ∅ false [].

(** ** The growing bit sets *)

(** [bits_[w]] of a word beyond the vector is no bit; [group_bit], [enum_bit] and
    [is_header_tag] are this test. *)
Definition grown_bit (bits : list Z) (tag : Z) : bool :=
  if zlen bits <=? Z.shiftr tag 6 then false else get_tag_bit bits tag.

(** [set_group_bit], [set_enum_bit] and [add_header_tag]. *)
Definition set_grown_bit (bits : list Z) (tag : Z) : list Z :=
  let w := Z.shiftr tag 6 in
  let bits := if zlen bits <=? w then bits ++ replicate (Z.to_nat (w + 1 - zlen bits)) 0 else bits in
  set_tag_bit bits tag.

(** ** Lookups *)

Definition field_valid_for (t : table_view) (msg_type : bytes) (tag : Z) : bool :=
  match tv_valid t !! msg_type with Some s => bool_decide (tag ∈ s) | None => false end.

(** [valid_tags_for(msg_type).contains(tag)] *)
Definition valid_tags_for (t : table_view) (msg_type : bytes) : Z -> bool :=
  match tv_valid t !! msg_type with Some s => fun tag => bool_decide (tag ∈ s) | None => fun _ => false end.

Definition required_fields (t : table_view) (msg_type : bytes) : list Z :=
  default [] (tv_required t !! msg_type).

(** The lookups by count tag alone. *)
Definition bare_group_first_field (t : table_view) (no_tag : Z) : Z := default 0 (tv_group_first t !! no_tag).
Definition bare_group_member_tags (t : table_view) (no_tag : Z) : list Z :=
  default [] (tv_group_members t !! no_tag).
Definition bare_group_required_members (t : table_view) (no_tag : Z) : list Z :=
  default [] (tv_group_required_members t !! no_tag).

Definition group_bit (t : table_view) (no_tag : Z) : bool := grown_bit (tv_group_bits t) no_tag.

Definition group_first_field (t : table_view) (msg_type : bytes) (parent_path : list Z) (no_tag : Z) : Z :=
  if negb (group_bit t no_tag) then 0
  else
    match tv_group_ctx t !! make_ctx_query msg_type parent_path no_tag with
    | Some e => ge_group_first e
    | None => bare_group_first_field t no_tag
    end.

Definition group_first_field_exact (t : table_view) (msg_type : bytes) (parent_path : list Z)
    (no_tag : Z) : option Z :=
  if negb (group_bit t no_tag) then Some 0
  else
    match tv_group_ctx t !! make_ctx_query msg_type parent_path no_tag with
    | Some e => Some (ge_group_first e)
    | None => None
    end.

Definition group_member_tags (t : table_view) (msg_type : bytes) (parent_path : list Z) (no_tag : Z)
  : list Z :=
  if negb (group_bit t no_tag) then []
  else
    match tv_group_ctx t !! make_ctx_query msg_type parent_path no_tag with
    | Some e => ge_members e
    | None => bare_group_member_tags t no_tag
    end.

Definition group_required_members (t : table_view) (msg_type : bytes) (parent_path : list Z)
    (no_tag : Z) : list Z :=
  if negb (group_bit t no_tag) then []
  else
    match tv_group_ctx t !! make_ctx_query msg_type parent_path no_tag with
    | Some e => ge_required_members e
    | None => bare_group_required_members t no_tag
    end.

Definition length_pair_data_tag (t : table_view) (length_tag : Z) : Z :=
  default 0 (tv_length_pair_data_tag t !! length_tag).
Definition data_pair_length_tag (t : table_view) (data_tag : Z) : Z :=
  default 0 (tv_data_pair_length_tag t !! data_tag).

Definition is_header_tag (t : table_view) (tag : Z) : bool := grown_bit (tv_header_bits t) tag.

Definition is_fixt_framing_tag (t : table_view) (tag : Z) : bool :=
  bool_decide (tag ∈ tv_fixt_framing_tags t).

Definition field_type_of (t : table_view) (tag : Z) : field_type := default ft_String (tv_types t !! tag).

Definition field_type_of_with_framing (t : table_view) (tag : Z) : field_type :=
  match tv_fixt_framing_types t !! tag with Some ft => ft | None => field_type_of t tag end.

(** [mask_has], of a byte. *)
Definition mask_has (m : list Z) (b : Z) : bool := get_tag_bit m b.

(** One token of [next_token]: up to the next space, and what is after it, if there is one. *)
Fixpoint next_token (l : bytes) : bytes * option bytes :=
  match l with
  | [] => ([], None)
  | c :: l =>
      if c =? 32 then ([], Some l)
      else let '(tok, rest) := next_token l in (c :: tok, rest)
  end.

Definition token_declared (dom : enum_domain) (token : bytes) : bool :=
  if ed_all_single_char dom then
    match token with [c] => mask_has (ed_single_char_mask dom) c | _ => false end
  else contains_text (ed_codes dom) token.

(** The loop over the tokens; a token is as long as what it is cut from at most. *)
Fixpoint tokens_declared (fuel : nat) (dom : enum_domain) (l : bytes) : bool :=
  match fuel with
  | O => false
  | S fuel =>
      let '(token, rest) := next_token l in
      if negb (token_declared dom token) then false
      else match rest with None => true | Some l => tokens_declared fuel dom l end
  end.

Definition enum_valid (t : table_view) (tag : Z) (value : bytes) : bool :=
  if negb (grown_bit (tv_enum_bits t) tag) then true
  else
    match tv_enums t !! tag with
    | None => true
    | Some dom =>
        match ed_codes dom, value with
        | [], _ => true
        | _, [] => true
        | _, _ =>
            if negb (ed_multi_value dom) then token_declared dom value
            else tokens_declared (S (length value)) dom value
        end
    end.

(** ** Population *)

Definition with_valid (v : gmap bytes (gset Z)) (t : table_view) : table_view :=
  mkTable v (tv_required t) (tv_group_first t) (tv_group_members t) (tv_group_required_members t)
    (tv_group_bits t) (tv_group_ctx t) (tv_types t) (tv_enum_bits t) (tv_enums t)
    (tv_fixt_framing_tags t) (tv_fixt_framing_types t) (tv_length_pair_data_tag t)
    (tv_data_pair_length_tag t) (tv_has_nonstandard_pair t) (tv_header_bits t).

Definition with_required (r : gmap bytes (list Z)) (t : table_view) : table_view :=
  mkTable (tv_valid t) r (tv_group_first t) (tv_group_members t) (tv_group_required_members t)
    (tv_group_bits t) (tv_group_ctx t) (tv_types t) (tv_enum_bits t) (tv_enums t)
    (tv_fixt_framing_tags t) (tv_fixt_framing_types t) (tv_length_pair_data_tag t)
    (tv_data_pair_length_tag t) (tv_has_nonstandard_pair t) (tv_header_bits t).

(** The stores by count tag, with the bits. *)
Definition with_groups (bits : list Z) (gf : gmap Z Z) (gm gr : gmap Z (list Z)) (t : table_view) : table_view :=
  mkTable (tv_valid t) (tv_required t) gf gm gr
    bits (tv_group_ctx t) (tv_types t) (tv_enum_bits t) (tv_enums t)
    (tv_fixt_framing_tags t) (tv_fixt_framing_types t) (tv_length_pair_data_tag t)
    (tv_data_pair_length_tag t) (tv_has_nonstandard_pair t) (tv_header_bits t).

(** The context store, with the bits. *)
Definition with_contexts (bits : list Z) (ctx : gmap group_ctx_key group_ctx_entry) (t : table_view) : table_view :=
  mkTable (tv_valid t) (tv_required t) (tv_group_first t) (tv_group_members t)
    (tv_group_required_members t) bits ctx (tv_types t) (tv_enum_bits t) (tv_enums t)
    (tv_fixt_framing_tags t) (tv_fixt_framing_types t) (tv_length_pair_data_tag t)
    (tv_data_pair_length_tag t) (tv_has_nonstandard_pair t) (tv_header_bits t).

Definition with_types (ts : gmap Z field_type) (t : table_view) : table_view :=
  mkTable (tv_valid t) (tv_required t) (tv_group_first t) (tv_group_members t)
    (tv_group_required_members t) (tv_group_bits t) (tv_group_ctx t) ts (tv_enum_bits t) (tv_enums t)
    (tv_fixt_framing_tags t) (tv_fixt_framing_types t) (tv_length_pair_data_tag t)
    (tv_data_pair_length_tag t) (tv_has_nonstandard_pair t) (tv_header_bits t).

Definition with_enums (bits : list Z) (es : gmap Z enum_domain) (t : table_view) : table_view :=
  mkTable (tv_valid t) (tv_required t) (tv_group_first t) (tv_group_members t)
    (tv_group_required_members t) (tv_group_bits t) (tv_group_ctx t) (tv_types t) bits es
    (tv_fixt_framing_tags t) (tv_fixt_framing_types t) (tv_length_pair_data_tag t)
    (tv_data_pair_length_tag t) (tv_has_nonstandard_pair t) (tv_header_bits t).

Definition with_framing (tags : gset Z) (ts : gmap Z field_type) (t : table_view) : table_view :=
  mkTable (tv_valid t) (tv_required t) (tv_group_first t) (tv_group_members t)
    (tv_group_required_members t) (tv_group_bits t) (tv_group_ctx t) (tv_types t) (tv_enum_bits t)
    (tv_enums t) tags ts (tv_length_pair_data_tag t)
    (tv_data_pair_length_tag t) (tv_has_nonstandard_pair t) (tv_header_bits t).

Definition with_pairs (ld dl : gmap Z Z) (nonstandard : bool) (t : table_view) : table_view :=
  mkTable (tv_valid t) (tv_required t) (tv_group_first t) (tv_group_members t)
    (tv_group_required_members t) (tv_group_bits t) (tv_group_ctx t) (tv_types t) (tv_enum_bits t)
    (tv_enums t) (tv_fixt_framing_tags t) (tv_fixt_framing_types t) ld dl nonstandard (tv_header_bits t).

Definition with_header (bits : list Z) (t : table_view) : table_view :=
  mkTable (tv_valid t) (tv_required t) (tv_group_first t) (tv_group_members t)
    (tv_group_required_members t) (tv_group_bits t) (tv_group_ctx t) (tv_types t) (tv_enum_bits t)
    (tv_enums t) (tv_fixt_framing_tags t) (tv_fixt_framing_types t) (tv_length_pair_data_tag t)
    (tv_data_pair_length_tag t) (tv_has_nonstandard_pair t) bits.

Definition add_valid_tag (msg_type : bytes) (tag : Z) (t : table_view) : table_view :=
  with_valid (<[msg_type := {[tag]} ∪ default ∅ (tv_valid t !! msg_type)]> (tv_valid t)) t.

Definition add_required_tag (msg_type : bytes) (tag : Z) (t : table_view) : table_view :=
  add_valid_tag msg_type tag
    (with_required (<[msg_type := default [] (tv_required t !! msg_type) ++ [tag]]> (tv_required t)) t).

Definition set_field_type (tag : Z) (ft : field_type) (t : table_view) : table_view :=
  with_types (<[tag := ft]> (tv_types t)) t.

(** [push_back] of a tag the vector does not hold. *)
Definition push_new (l : list Z) (tag : Z) : list Z := if bool_decide (tag ∈ l) then l else l ++ [tag].

Definition add_group_member (no_tag member_tag : Z) (t : table_view) : table_view :=
  with_groups (set_grown_bit (tv_group_bits t) no_tag) (tv_group_first t)
    (<[no_tag := push_new (default [] (tv_group_members t !! no_tag)) member_tag]> (tv_group_members t))
    (tv_group_required_members t) t.

Definition add_group_required_member (no_tag member_tag : Z) (t : table_view) : table_view :=
  with_groups (set_grown_bit (tv_group_bits t) no_tag) (tv_group_first t) (tv_group_members t)
    (<[no_tag := push_new (default [] (tv_group_required_members t !! no_tag)) member_tag]>
       (tv_group_required_members t)) t.

Definition set_group_first (no_tag first : Z) (t : table_view) : table_view :=
  add_group_member no_tag first
    (with_groups (set_grown_bit (tv_group_bits t) no_tag) (<[no_tag := first]> (tv_group_first t))
       (tv_group_members t) (tv_group_required_members t) t).

Definition enum_of (t : table_view) (tag : Z) : enum_domain :=
  default (mkEnumDomain [] false true (replicate 4 0)) (tv_enums t !! tag).

Definition add_enum (tag : Z) (value : bytes) (t : table_view) : table_view :=
  let dom := enum_of t tag in
  let codes := insert_text (ed_codes dom) value in
  let dom :=
    match value with
    | [c] => mkEnumDomain codes (ed_multi_value dom) (ed_all_single_char dom)
               (set_tag_bit (ed_single_char_mask dom) c)
    | _ => mkEnumDomain codes (ed_multi_value dom) false (ed_single_char_mask dom)
    end in
  with_enums (set_grown_bit (tv_enum_bits t) tag) (<[tag := dom]> (tv_enums t)) t.

Definition set_multi_value (tag : Z) (multi : bool) (t : table_view) : table_view :=
  let dom := enum_of t tag in
  with_enums (set_grown_bit (tv_enum_bits t) tag)
    (<[tag := mkEnumDomain (ed_codes dom) multi (ed_all_single_char dom) (ed_single_char_mask dom)]>
       (tv_enums t)) t.

(** [group_ctx_[key]], which makes an entry where there is none. *)
Definition entry_of (t : table_view) (k : group_ctx_key) : group_ctx_entry :=
  default (mkGroupEntry 0 [] []) (tv_group_ctx t !! k).

Definition add_group_member_ctx (msg_type : bytes) (parent_path : list Z) (no_tag member_tag : Z)
    (t : table_view) : table_view :=
  let k := make_group_ctx_key msg_type parent_path no_tag in
  let e := entry_of t k in
  with_contexts (set_grown_bit (tv_group_bits t) no_tag)
    (<[k := mkGroupEntry (ge_group_first e) (push_new (ge_members e) member_tag)
              (ge_required_members e)]> (tv_group_ctx t)) t.

Definition add_group_required_member_ctx (msg_type : bytes) (parent_path : list Z)
    (no_tag member_tag : Z) (t : table_view) : table_view :=
  let k := make_group_ctx_key msg_type parent_path no_tag in
  let e := entry_of t k in
  with_contexts (set_grown_bit (tv_group_bits t) no_tag)
    (<[k := mkGroupEntry (ge_group_first e) (ge_members e)
              (push_new (ge_required_members e) member_tag)]> (tv_group_ctx t)) t.

Definition set_group_first_ctx (msg_type : bytes) (parent_path : list Z) (no_tag first : Z)
    (t : table_view) : table_view :=
  let k := make_group_ctx_key msg_type parent_path no_tag in
  let e := entry_of t k in
  add_group_member_ctx msg_type parent_path no_tag first
    (with_contexts (set_grown_bit (tv_group_bits t) no_tag)
       (<[k := mkGroupEntry first (ge_members e) (ge_required_members e)]> (tv_group_ctx t)) t).

Definition add_fixt_framing_tag (tag : Z) (ft : field_type) (t : table_view) : table_view :=
  with_framing ({[tag]} ∪ tv_fixt_framing_tags t) (<[tag := ft]> (tv_fixt_framing_types t)) t.

Definition add_header_tag (tag : Z) (t : table_view) : table_view :=
  with_header (set_grown_bit (tv_header_bits t) tag) t.

(** [set_length_pair_data_tag]; [fwd] and [inv] say whether a new node of either map can be
    allocated.  When the second cannot, the first is taken back and the exception goes on:
    the table is as it was, [false]. *)
Definition set_length_pair_data_tag (fwd inv : bool) (length_tag data_tag : Z) (t : table_view)
  : table_view * bool :=
  if (length_tag =? 0) || (data_tag =? 0) then (t, true)
  else
    let ld := tv_length_pair_data_tag t in
    let dl := tv_data_pair_length_tag t in
    let displaced_data := length_pair_data_tag t length_tag in
    let displaced_length := data_pair_length_tag t data_tag in
    if negb fwd && bool_decide (ld !! length_tag = None) then (t, false)
    else
      let ld := <[length_tag := data_tag]> ld in
      if negb inv && bool_decide (dl !! data_tag = None) then
        let ld := if displaced_data =? 0 then delete length_tag ld
                  else <[length_tag := displaced_data]> ld in
        (with_pairs ld dl (tv_has_nonstandard_pair t) t, false)
      else
        let dl := <[data_tag := length_tag]> dl in
        let dl := if negb (displaced_data =? 0) && negb (displaced_data =? data_tag)
                  then delete displaced_data dl else dl in
        let ld := if negb (displaced_length =? 0) && negb (displaced_length =? length_tag)
                  then delete displaced_length ld else ld in
        let nonstandard := negb (is_standard_pair_tag length_tag) && negb (is_standard_pair_tag data_tag) in
        (with_pairs ld dl (tv_has_nonstandard_pair t || nonstandard) t, true).

(** What a [table_view_builder] is asked to do. *)
Inductive builder_op : Type :=
  | AddValidTag (msg_type : bytes) (tag : Z)
  | AddRequiredTag (msg_type : bytes) (tag : Z)
  | SetFieldType (tag : Z) (ft : field_type)
  | AddGroupMember (no_tag member_tag : Z)
  | AddGroupRequiredMember (no_tag member_tag : Z)
  | SetGroupFirst (no_tag first : Z)
  | AddEnum (tag : Z) (value : bytes)
  | SetMultiValue (tag : Z) (multi : bool)
  | AddGroupMemberCtx (msg_type : bytes) (parent_path : list Z) (no_tag member_tag : Z)
  | AddGroupRequiredMemberCtx (msg_type : bytes) (parent_path : list Z) (no_tag member_tag : Z)
  | SetGroupFirstCtx (msg_type : bytes) (parent_path : list Z) (no_tag first : Z)
  | AddFixtFramingTag (tag : Z) (ft : field_type)
  | AddHeaderTag (tag : Z)
  | SetLengthPairDataTag (fwd inv : bool) (length_tag data_tag : Z).

(** One call.  A failed allocation is an operation of its own only where the code undoes
    what it did, in [set_length_pair_data_tag].  Any other call that cannot allocate leaves
    [Dictionary::as_table_view] by the exception, with the builder destroyed: no table comes
    of it, and none is modelled. *)
Definition builder_step (t : table_view) (o : builder_op) : table_view :=
  match o with
  | AddValidTag mt tag => add_valid_tag mt tag t
  | AddRequiredTag mt tag => add_required_tag mt tag t
  | SetFieldType tag ft => set_field_type tag ft t
  | AddGroupMember no_tag m => add_group_member no_tag m t
  | AddGroupRequiredMember no_tag m => add_group_required_member no_tag m t
  | SetGroupFirst no_tag first => set_group_first no_tag first t
  | AddEnum tag value => add_enum tag value t
  | SetMultiValue tag multi => set_multi_value tag multi t
  | AddGroupMemberCtx mt path no_tag m => add_group_member_ctx mt path no_tag m t
  | AddGroupRequiredMemberCtx mt path no_tag m => add_group_required_member_ctx mt path no_tag m t
  | SetGroupFirstCtx mt path no_tag first => set_group_first_ctx mt path no_tag first t
  | AddFixtFramingTag tag ft => add_fixt_framing_tag tag ft t
  | AddHeaderTag tag => add_header_tag tag t
  | SetLengthPairDataTag fwd inv l d => (set_length_pair_data_tag fwd inv l d t).1
  end.

(** A builder's calls, and [build() &&]. *)
Definition build_table (ops : list builder_op) : table_view := fold_left builder_step ops empty_table.

(** ** [dict_hooks::for_table_view] *)

Definition for_table_view (t : table_view) : dict_hooks :=
  DictHooks
    (Some (fun mt tag => field_valid_for t mt tag))
    (Some (fun ctx no_tag tag =>
       bool_decide (tag ∈ group_member_tags t (gc_msg_type ctx) (gc_parent_path ctx) no_tag)))
    (Some (fun ctx no_tag => group_first_field t (gc_msg_type ctx) (gc_parent_path ctx) no_tag))
    (if tv_has_nonstandard_pair t then
       Some (fun tag from => match from with
                             | side_length => length_pair_data_tag t tag
                             | side_data => data_pair_length_tag t tag
                             end)
     else None).

(** ** Lemmas on the bit sets *)

Lemma get_tag_bit_beyond bits t : 0 <= t -> zlen bits <= t / 64 -> get_tag_bit bits t = false.
Proof.
  intros Ht Hl. rewrite get_tag_bit_testbit. unfold zget. rewrite nth_overflow; [by rewrite Z.testbit_0_l|].
  unfold zlen in Hl. lia.
Qed.

Lemma grown_bit_eq bits t : 0 <= t -> grown_bit bits t = get_tag_bit bits t.
Proof.
  intros Ht. unfold grown_bit. rewrite shiftr_6. destruct (_ <=? _) eqn:E; [|done].
  symmetry. apply get_tag_bit_beyond; lia.
Qed.

Lemma grown_set bits s t : 0 <= s -> 0 <= t ->
  grown_bit (set_grown_bit bits s) t = grown_bit bits t || (s =? t).
Proof.
  intros Hs Ht. rewrite !grown_bit_eq by done. unfold set_grown_bit. rewrite shiftr_6.
  destruct (zlen bits <=? s / 64) eqn:E.
  - rewrite get_set_tag_bit; [|rewrite zlen_app, zlen_replicate; pose_zlen; dlia|done..]. f_equal.
    rewrite !get_tag_bit_testbit. f_equal. unfold zget.
    destruct (Z.lt_ge_cases (t / 64) (zlen bits)); [by rewrite app_nth1 by (unfold zlen in *; dlia)|].
    rewrite (nth_overflow bits) by (unfold zlen in *; dlia).
    rewrite app_nth2 by (unfold zlen in *; dlia). apply nth_replicate_0.
  - apply get_set_tag_bit; [lia|done..].
Qed.

(** ** What a builder was told *)

(** Tags are 16 bits wide and codes are bytes. *)
Definition op_ok (o : builder_op) : Prop :=
  match o with
  | AddValidTag _ tag | AddRequiredTag _ tag | SetFieldType tag _ | AddFixtFramingTag tag _
  | AddHeaderTag tag | SetMultiValue tag _ => tag16 tag
  | AddGroupMember no_tag m | AddGroupRequiredMember no_tag m | SetGroupFirst no_tag m
  | AddGroupMemberCtx _ _ no_tag m | AddGroupRequiredMemberCtx _ _ no_tag m
  | SetGroupFirstCtx _ _ no_tag m => tag16 no_tag /\ tag16 m
  | AddEnum tag value => tag16 tag /\ wf_bytes value
  | SetLengthPairDataTag _ _ l d => tag16 l /\ tag16 d
  end.

(** The codes declared for a tag, and whether its values are lists of codes. *)
Definition code_of (tag : Z) (o : builder_op) : option bytes :=
  match o with AddEnum t v => if t =? tag then Some v else None | _ => None end.
Definition declared_codes (ops : list builder_op) (tag : Z) : list bytes := omap (code_of tag) ops.

Definition multi_step (tag : Z) (multi : bool) (o : builder_op) : bool :=
  match o with SetMultiValue t b => if t =? tag then b else multi | _ => multi end.
Definition declared_multi (ops : list builder_op) (tag : Z) : bool := fold_left (multi_step tag) ops false.

(** The tokens of a text, cut at every space. *)
Fixpoint tokens (l : bytes) : list bytes :=
  match l with
  | [] => [[]]
  | c :: l => if c =? 32 then [] :: tokens l
              else match tokens l with t :: ts => (c :: t) :: ts | [] => [[c]] end
  end.

(** A value a field with these codes may have: any when none is declared, the empty one,
    a code, or a list of codes. *)
Definition enum_reference (codes : list bytes) (multi : bool) (value : bytes) : bool :=
  bool_decide (codes = []) || bool_decide (value = []) ||
  if multi then forallb (fun tok => bool_decide (tok ∈ codes)) (tokens value)
  else bool_decide (value ∈ codes).

Lemma build_table_snoc ops o : build_table (ops ++ [o]) = builder_step (build_table ops) o.
Proof. unfold build_table. by rewrite fold_left_app. Qed.

Lemma declared_codes_snoc ops o tag :
  declared_codes (ops ++ [o]) tag = declared_codes ops tag ++ from_option (fun v => [v]) [] (code_of tag o).
Proof. unfold declared_codes. rewrite omap_app. cbn. by destruct (code_of tag o). Qed.

Lemma declared_multi_snoc ops o tag :
  declared_multi (ops ++ [o]) tag = multi_step tag (declared_multi ops tag) o.
Proof. unfold declared_multi. by rewrite fold_left_app. Qed.

(** A domain holds what was declared, in both of its forms. *)
Definition domain_holds (dom : enum_domain) (codes : list bytes) (multi : bool) : Prop :=
  ordered (ed_codes dom) /\ (forall v, v ∈ ed_codes dom <-> v ∈ codes) /\ ed_multi_value dom = multi /\
  ed_all_single_char dom = forallb (fun v => zlen v =? 1) codes /\
  zlen (ed_single_char_mask dom) = 4 /\
  forall c, is_byte c -> get_tag_bit (ed_single_char_mask dom) c = bool_decide ([c] ∈ codes).

Definition enums_hold (ops : list builder_op) (t : table_view) : Prop :=
  forall tag, 0 <= tag ->
    match tv_enums t !! tag with
    | Some dom => grown_bit (tv_enum_bits t) tag = true /\
        domain_holds dom (declared_codes ops tag) (declared_multi ops tag)
    | None => declared_codes ops tag = [] /\ declared_multi ops tag = false
    end.

Lemma empty_domain_holds : domain_holds (mkEnumDomain [] false true (replicate 4 0)) [] false.
Proof.
  split_and!; try done; [constructor|]. intros c Hc. cbn [ed_single_char_mask]. rewrite get_tag_bit_testbit.
  unfold zget. rewrite nth_replicate_0, Z.testbit_0_l. by rewrite bool_decide_eq_false_2 by (apply not_elem_of_nil).
Qed.

Lemma enum_of_holds ops t tag : enums_hold ops t -> 0 <= tag ->
  domain_holds (enum_of t tag) (declared_codes ops tag) (declared_multi ops tag).
Proof.
  intros H Ht. specialize (H tag Ht). unfold enum_of. destruct (tv_enums t !! tag) as [dom|]; [apply H|].
  destruct H as [-> ->]. apply empty_domain_holds.
Qed.

Lemma add_code_holds dom codes multi value : domain_holds dom codes multi -> wf_bytes value ->
  domain_holds
    match value with
    | [c] => mkEnumDomain (insert_text (ed_codes dom) value) (ed_multi_value dom) (ed_all_single_char dom)
               (set_tag_bit (ed_single_char_mask dom) c)
    | _ => mkEnumDomain (insert_text (ed_codes dom) value) (ed_multi_value dom) false (ed_single_char_mask dom)
    end (codes ++ [value]) multi.
Proof.
  intros (Ho & Hc & Hm & Ha & Hl & Hb) Hv. destruct (insert_ordered (ed_codes dom) value Ho) as [Hi Hin].
  assert (Hel : forall v, v ∈ insert_text (ed_codes dom) value <-> v ∈ codes ++ [value]).
  { intros v. rewrite Hin, Hc, elem_of_app, list_elem_of_singleton. done. }
  assert (Hmask : forall c, zlen value <> 1 -> bool_decide ([c] ∈ codes ++ [value]) = bool_decide ([c] ∈ codes)).
  { intros c Hn. apply bool_decide_ext. rewrite elem_of_app, list_elem_of_singleton.
    split; [intros [?|<-]; [done|by destruct Hn]|auto]. }
  unfold domain_holds. rewrite forallb_app. cbn [forallb].
  destruct value as [|c [|c' rest]].
  - split_and!; try done; [by rewrite !andb_false_r|]. intros b Hbb. rewrite Hmask by done. by apply Hb.
  - inversion Hv as [|? ? Hbc _]; subst.
    assert (Hz : c / 64 < zlen (ed_single_char_mask dom)) by (unfold is_byte in Hbc; rewrite Hl; dlia).
    split_and!; try done; [by rewrite Ha, !andb_true_r| |].
    + cbn [ed_single_char_mask]. unfold zlen. by rewrite length_set_tag_bit.
    + intros b Hbb. cbn [ed_single_char_mask]. unfold is_byte in *.
      rewrite get_set_tag_bit, Hb by (unfold is_byte; lia || done). apply eq_bool_prop_intro.
      rewrite orb_True, !bool_decide_spec, elem_of_app, list_elem_of_singleton.
      rewrite Is_true_true, Z.eqb_eq. split; intros [H|H]; auto; [right; by rewrite H|right; by injection H].
  - split_and!; try done.
    + cbn [ed_all_single_char]. symmetry. apply andb_false_intro2. rewrite !zlen_cons. pose proof (zlen_nonneg rest).
      replace (_ =? 1) with false by lia. done.
    + intros b Hbb. rewrite Hmask; [by apply Hb|]. rewrite !zlen_cons. pose proof (zlen_nonneg rest). lia.
Qed.

(** Every call other than the two on codes leaves the codes alone. *)
Lemma step_enums t o :
  match o with AddEnum _ _ | SetMultiValue _ _ => False | _ => True end ->
  tv_enums (builder_step t o) = tv_enums t /\ tv_enum_bits (builder_step t o) = tv_enum_bits t.
Proof.
  destruct o; try done. intros _. cbn [builder_step]. unfold set_length_pair_data_tag.
  by repeat case_match.
Qed.

Lemma built_enums ops : Forall op_ok ops -> enums_hold ops (build_table ops).
Proof.
  induction ops as [|o ops IH] using rev_ind; [done|]. intros [Hops Ho]%Forall_app. specialize (IH Hops).
  apply (proj1 (Forall_singleton _ _)) in Ho. rewrite build_table_snoc. intros tag Htag.
  rewrite declared_codes_snoc, declared_multi_snoc.
  assert (Hput : forall k dom codes multi, tag16 k -> domain_holds dom codes multi ->
    (k = tag -> declared_codes ops tag ++ from_option (fun v => [v]) [] (code_of tag o) = codes /\
       multi_step tag (declared_multi ops tag) o = multi) ->
    (k <> tag -> code_of tag o = None /\ multi_step tag (declared_multi ops tag) o = declared_multi ops tag) ->
    builder_step (build_table ops) o =
      with_enums (set_grown_bit (tv_enum_bits (build_table ops)) k) (<[k := dom]> (tv_enums (build_table ops)))
        (build_table ops) ->
    match tv_enums (builder_step (build_table ops) o) !! tag with
    | Some dom => grown_bit (tv_enum_bits (builder_step (build_table ops) o)) tag = true /\
        domain_holds dom (declared_codes ops tag ++ from_option (fun v => [v]) [] (code_of tag o))
          (multi_step tag (declared_multi ops tag) o)
    | None => declared_codes ops tag ++ from_option (fun v => [v]) [] (code_of tag o) = [] /\
        multi_step tag (declared_multi ops tag) o = false
    end).
  { intros k dom codes multi Hk Hd Heq Hne ->. cbn [with_enums tv_enums tv_enum_bits]. unfold tag16 in Hk.
    destruct (decide (k = tag)) as [->|Hkt].
    - rewrite lookup_insert_eq, grown_set, Z.eqb_refl, orb_true_r by lia.
      destruct (Heq eq_refl) as [-> ->]. done.
    - rewrite lookup_insert_ne by done. destruct (Hne Hkt) as [-> ->]. cbn [from_option]. rewrite app_nil_r.
      specialize (IH tag Htag). rewrite grown_set by lia. replace (k =? tag) with false by lia.
      by rewrite orb_false_r. }
  destruct o as [| | | | | |k value|k multi| | | | | |]; cbn [code_of from_option multi_step]; rewrite ?app_nil_r;
    try match goal with |- context [builder_step _ ?o] =>
      destruct (step_enums (build_table ops) o I) as [He Hb]; rewrite He, Hb; exact (IH tag Htag) end.
  - cbn [op_ok] in Ho. destruct Ho as (Hk & Hv).
    eapply Hput; [exact Hk|exact (add_code_holds _ _ _ _ (enum_of_holds _ _ k IH (proj1 Hk)) Hv)| | |].
    + intros ->. cbn [code_of multi_step]. by rewrite Z.eqb_refl.
    + intros Hn. cbn [code_of multi_step]. by replace (k =? tag) with false by lia.
    + unfold builder_step, add_enum. by destruct value as [|c [|]].
  - destruct (enum_of_holds _ _ k IH (proj1 Ho)) as (Hd1 & Hd2 & _ & Hd3 & Hd4 & Hd5).
    pose proof (Hput k (mkEnumDomain (ed_codes (enum_of (build_table ops) k)) multi
      (ed_all_single_char (enum_of (build_table ops) k)) (ed_single_char_mask (enum_of (build_table ops) k)))
      (declared_codes ops k) multi Ho ltac:(by split_and!)) as Hgoal.
    cbn [code_of multi_step from_option] in Hgoal. rewrite app_nil_r in Hgoal. apply Hgoal; [| |reflexivity].
    + intros ->. by rewrite Z.eqb_refl.
    + intros Hn. by replace (k =? tag) with false by lia.
Qed.

(** *** The tokens of a value *)

Lemma next_token_tokens l :
  tokens l = (next_token l).1 :: match (next_token l).2 with Some l' => tokens l' | None => [] end.
Proof.
  induction l as [|c l IH]; [done|]. cbn [tokens next_token]. destruct (c =? 32); [done|].
  rewrite IH. by destruct (next_token l).
Qed.

Lemma next_token_rest l tok l' : next_token l = (tok, Some l') -> (length l' < length l)%nat.
Proof.
  revert tok. induction l as [|c l IH]; intros tok; [done|]. cbn [next_token length].
  destruct (c =? 32); [intros [= _ <-]; lia|]. destruct (next_token l) as [t r]. intros [= _ ->].
  specialize (IH t eq_refl). lia.
Qed.

Lemma tokens_declared_spec dom fuel l : (length l < fuel)%nat ->
  tokens_declared fuel dom l = forallb (token_declared dom) (tokens l).
Proof.
  revert l. induction fuel as [|fuel IH]; intros l Hf; [lia|]. cbn [tokens_declared].
  rewrite next_token_tokens. pose proof (next_token_rest l) as Hr.
  destruct (next_token l) as [tok [l'|]]; cbn [fst snd forallb].
  - rewrite IH by (specialize (Hr tok l' eq_refl); lia). by destruct (token_declared dom tok).
  - by destruct (token_declared dom tok).
Qed.

Lemma token_declared_spec dom codes multi tok : domain_holds dom codes multi -> wf_bytes tok ->
  token_declared dom tok = bool_decide (tok ∈ codes).
Proof.
  intros (Ho & Hc & _ & Ha & _ & Hb) Hw. unfold token_declared. rewrite Ha.
  destruct (forallb _ codes) eqn:E.
  - assert (Hn : zlen tok <> 1 -> bool_decide (tok ∈ codes) = false).
    { intros Hz. apply bool_decide_eq_false_2. intros Hin. rewrite forallb_forall in E.
      apply list_elem_of_In, E in Hin. lia. }
    destruct tok as [|c [|]]; [by rewrite Hn| |].
    + inversion Hw; subst. by apply Hb.
    + rewrite Hn; [done|]. rewrite !zlen_cons. pose_zlen. lia.
  - apply eq_bool_prop_intro. rewrite bool_decide_spec, <- Hc, <- (contains_text_spec _ _ Ho). by destruct (contains_text _ _).
Qed.

Lemma tokens_wf l : wf_bytes l -> Forall wf_bytes (tokens l).
Proof.
  intros Hl. assert (Hn : wf_bytes []) by constructor. induction Hl as [|c l Hc Hl IH].
  { by constructor. }
  cbn [tokens]. destruct (c =? 32); [by constructor|].
  assert (Hc1 : forall t, wf_bytes t -> wf_bytes (c :: t)) by (intros t Ht; by constructor).
  destruct (tokens l) as [|t ts]; [by constructor; [apply Hc1|]|]. inversion IH; subst. by constructor; [apply Hc1|].
Qed.

(** *** Groups *)

(** A clear bit: neither store of groups knows the tag. *)
Definition groups_hold (t : table_view) : Prop :=
  forall no_tag, 0 <= no_tag -> group_bit t no_tag = false ->
    tv_group_first t !! no_tag = None /\ tv_group_members t !! no_tag = None /\
    tv_group_required_members t !! no_tag = None /\
    forall mt path, tv_group_ctx t !! (mt, path, no_tag) = None.

Lemma groups_hold_set t k gf gm gr : groups_hold t -> 0 <= k ->
  (forall n, n <> k -> gf !! n = tv_group_first t !! n) ->
  (forall n, n <> k -> gm !! n = tv_group_members t !! n) ->
  (forall n, n <> k -> gr !! n = tv_group_required_members t !! n) ->
  groups_hold (with_groups (set_grown_bit (tv_group_bits t) k) gf gm gr t).
Proof.
  intros H Hk H1 H2 H3 n Hn. unfold group_bit. cbn. rewrite grown_set by done.
  intros [Hb Hne]%orb_false_iff. destruct (H n Hn Hb) as (? & ? & ? & ?).
  rewrite H1, H2, H3 by lia. done.
Qed.

Lemma groups_hold_ctx t k mt path e : groups_hold t -> 0 <= k ->
  groups_hold (with_contexts (set_grown_bit (tv_group_bits t) k)
    (<[make_group_ctx_key mt path k := e]> (tv_group_ctx t)) t).
Proof.
  intros H Hk n Hn. unfold group_bit. cbn. rewrite grown_set by done.
  intros [Hb Hne]%orb_false_iff. destruct (H n Hn Hb) as (? & ? & ? & Hc). split_and!; [done..|].
  intros mt' path'. rewrite lookup_insert_ne; [apply Hc|]. unfold make_group_ctx_key. intros [= _ _ ->]. lia.
Qed.

Lemma built_groups ops : Forall op_ok ops -> groups_hold (build_table ops).
Proof.
  induction ops as [|o ops IH] using rev_ind; [done|]. intros [Hops Ho]%Forall_app. specialize (IH Hops).
  apply (proj1 (Forall_singleton _ _)) in Ho. rewrite build_table_snoc. set (t := build_table ops) in *.
  assert (Hmem : forall t k m, groups_hold t -> 0 <= k -> groups_hold (add_group_member k m t)).
  { intros t' k m Ht Hk. apply groups_hold_set; try done. intros n Hn. by rewrite lookup_insert_ne. }
  destruct o; cbn [builder_step op_ok] in *; unfold tag16 in Ho; try exact IH.
  - apply Hmem; [done|lia].
  - apply groups_hold_set; [done|lia|done|done|]. intros n Hn. by rewrite lookup_insert_ne.
  - apply Hmem; [|lia]. apply groups_hold_set; [done|lia| |done..]. intros n Hn. by rewrite lookup_insert_ne.
  - apply groups_hold_ctx; [done|lia].
  - apply groups_hold_ctx; [done|lia].
  - apply groups_hold_ctx; [|lia]. apply groups_hold_ctx; [done|lia].
  - unfold set_length_pair_data_tag. repeat case_match; exact IH.
Qed.

(** The lookups without the filter: the context store, and the store by count tag. *)
Definition group_unfiltered {A} (of_ctx : group_ctx_entry -> A) (bare : A) (t : table_view)
    (mt : bytes) (path : list Z) (no_tag : Z) : A :=
  match tv_group_ctx t !! (mt, path, no_tag) with Some e => of_ctx e | None => bare end.

Lemma groups_unfiltered t mt path no_tag : groups_hold t -> 0 <= no_tag ->
  group_first_field t mt path no_tag =
    group_unfiltered ge_group_first (default 0 (tv_group_first t !! no_tag)) t mt path no_tag /\
  group_member_tags t mt path no_tag =
    group_unfiltered ge_members (default [] (tv_group_members t !! no_tag)) t mt path no_tag /\
  group_required_members t mt path no_tag =
    group_unfiltered ge_required_members (default [] (tv_group_required_members t !! no_tag)) t mt path no_tag.
Proof.
  intros H Hn. specialize (H no_tag Hn).
  unfold group_first_field, group_member_tags, group_required_members, group_unfiltered, make_ctx_query,
    bare_group_first_field, bare_group_member_tags, bare_group_required_members.
  destruct (group_bit t no_tag); cbn [negb]; [done|].
  destruct (H eq_refl) as (-> & -> & -> & Hc). rewrite Hc. done.
Qed.

(** No required member is listed twice; so it is in a table a builder made. *)
Class required_distinct (dict : table_view) : Prop := {
  required_nodup mt path no_tag : NoDup (group_required_members dict mt path no_tag);
}.

Lemma push_new_nodup l tag : NoDup l -> NoDup (push_new l tag).
Proof.
  unfold push_new. case_bool_decide as H; [done|]. intros Hl. apply NoDup_app.
  split; [done|]. split; [|apply NoDup_singleton]. intros x Hx ->%list_elem_of_singleton. done.
Qed.

Definition lists_distinct (t : table_view) : Prop :=
  (forall k l, tv_group_required_members t !! k = Some l -> NoDup l) /\
  (forall k e, tv_group_ctx t !! k = Some e -> NoDup (ge_required_members e)).

Lemma entry_of_distinct t k : lists_distinct t -> NoDup (ge_required_members (entry_of t k)).
Proof.
  intros [_ H]. unfold entry_of. destruct (_ !! k) as [e|] eqn:E; [apply (H k e E)|apply NoDup_nil_2].
Qed.

Lemma contexts_distinct t bits k e : lists_distinct t -> NoDup (ge_required_members e) ->
  lists_distinct (with_contexts bits (<[k := e]> (tv_group_ctx t)) t).
Proof.
  intros [H1 H2] He. split; [exact H1|]. cbn. intros k' e'. rewrite lookup_insert_Some. intros [[<- <-]|[_ ?]]; [done|by eapply H2].
Qed.

Lemma built_distinct ops : lists_distinct (build_table ops).
Proof.
  induction ops as [|o ops IH] using rev_ind; [done|].
  rewrite build_table_snoc. set (t := build_table ops) in *. destruct IH as [H1 H2].
  destruct o; cbn [builder_step]; try (by split).
  - split; [|done]. cbn. intros k l. rewrite lookup_insert_Some. intros [[<- <-]|[_ ?]]; [|by eapply H1].
    apply push_new_nodup. destruct (_ !! no_tag) eqn:E; [by eapply H1|apply NoDup_nil_2].
  - apply contexts_distinct; [by split|]. by apply entry_of_distinct.
  - apply contexts_distinct; [by split|]. apply push_new_nodup. by apply entry_of_distinct.
  - apply contexts_distinct; [apply contexts_distinct; [by split|by apply entry_of_distinct]|].
    apply entry_of_distinct, contexts_distinct; [by split|by apply entry_of_distinct].
  - unfold set_length_pair_data_tag. by repeat case_match.
Qed.

#[export] Instance built_required_distinct ops : required_distinct (build_table ops).
Proof.
  destruct (built_distinct ops) as [H1 H2]. constructor. intros mt path no_tag. unfold group_required_members.
  destruct (negb _); [apply NoDup_nil_2|]. destruct (_ !! make_ctx_query _ _ _) as [e|] eqn:E; [by eapply H2|].
  unfold bare_group_required_members. destruct (_ !! no_tag) eqn:E'; [by eapply H1|apply NoDup_nil_2].
Qed.

(** *** Length+Data pairs *)

(** The two maps are inverse to each other, hold no zero, and the flag tells of every pair
    outside the standard table. *)
Definition pairs_hold (t : table_view) : Prop :=
  (forall l d, tv_length_pair_data_tag t !! l = Some d <-> tv_data_pair_length_tag t !! d = Some l) /\
  (forall l d, tv_length_pair_data_tag t !! l = Some d -> l <> 0 /\ d <> 0 /\ tag16 l /\ tag16 d) /\
  (forall l d, tv_length_pair_data_tag t !! l = Some d ->
     is_standard_pair_tag l = false -> is_standard_pair_tag d = false -> tv_has_nonstandard_pair t = true).

Lemma pair_default (m : gmap Z Z) k : (forall d, m !! k = Some d -> d <> 0) ->
  (default 0 (m !! k) =? 0) = bool_decide (m !! k = None).
Proof.
  destruct (m !! k) as [d|] eqn:E; intros H; [|done]. case_bool_decide as Hd; [done|].
  specialize (H d eq_refl). cbn. lia.
Qed.

(** A pair put in, its old partners taken out. *)
Lemma pair_insert (ld dl : gmap Z Z) l d :
  (forall l d, ld !! l = Some d <-> dl !! d = Some l) ->
  let dd := ld !! l in
  let dn := dl !! d in
  let ld' := match dn with Some l0 => if decide (l0 = l) then <[l := d]> ld else delete l0 (<[l := d]> ld)
             | None => <[l := d]> ld end in
  let dl' := match dd with Some d0 => if decide (d0 = d) then <[d := l]> dl else delete d0 (<[d := l]> dl)
             | None => <[d := l]> dl end in
  (forall x y, ld' !! x = Some y <-> dl' !! y = Some x) /\
  (forall x y, ld' !! x = Some y -> (x = l /\ y = d) \/ ld !! x = Some y).
Proof.
  intros H dd dn ld' dl'.
  assert (HL : forall x y, ld' !! x = Some y <-> (x = l /\ y = d) \/ (x <> l /\ y <> d /\ ld !! x = Some y)).
  { intros x y. unfold ld', dn. destruct (dl !! d) as [l0|] eqn:Ed; [destruct (decide (l0 = l)) as [->|Hne]|].
    - rewrite lookup_insert_Some. split; [|naive_solver]. intros [[-> ->]|[? Hx]]; [by left|right].
      split_and!; [done| |done]. intros ->. apply H in Hx. congruence.
    - rewrite lookup_delete_Some, lookup_insert_Some. split; [|naive_solver (apply H; congruence)].
      intros [Hx0 [[-> ->]|[? Hx]]]; [by left|right]. split_and!; [done| |done]. intros ->. apply H in Hx. congruence.
    - rewrite lookup_insert_Some. split; [|naive_solver]. intros [[-> ->]|[? Hx]]; [by left|right].
      split_and!; [done| |done]. intros ->. apply H in Hx. congruence. }
  assert (HD : forall x y, dl' !! y = Some x <-> (x = l /\ y = d) \/ (x <> l /\ y <> d /\ dl !! y = Some x)).
  { intros x y. unfold dl', dd. destruct (ld !! l) as [d0|] eqn:El; [destruct (decide (d0 = d)) as [->|Hne]|].
    - rewrite lookup_insert_Some. split; [|naive_solver]. intros [[-> ->]|[? Hx]]; [by left|right].
      split_and!; [|done|done]. intros ->. apply H in Hx. congruence.
    - rewrite lookup_delete_Some, lookup_insert_Some. split; [|naive_solver (apply H; congruence)].
      intros [Hx0 [[-> ->]|[? Hx]]]; [by left|right]. split_and!; [|done|done]. intros ->. apply H in Hx. congruence.
    - rewrite lookup_insert_Some. split; [|naive_solver]. intros [[-> ->]|[? Hx]]; [by left|right].
      split_and!; [|done|done]. intros ->. apply H in Hx. congruence. }
  split.
  - intros x y. rewrite HL, HD, H. done.
  - intros x y [[-> ->]|(_ & _ & ?)]%HL; auto.
Qed.

Lemma pairs_step fwd inv l d t : pairs_hold t -> tag16 l -> tag16 d ->
  pairs_hold (set_length_pair_data_tag fwd inv l d t).1.
Proof.
  intros Hh Hl Hd. pose proof Hh as (Hi & Hr & Hf). unfold set_length_pair_data_tag.
  destruct ((l =? 0) || (d =? 0)) eqn:E0; [done|]. case_match; [done|].
  assert (Hdd : (length_pair_data_tag t l =? 0) = bool_decide (tv_length_pair_data_tag t !! l = None)).
  { apply pair_default. intros y Hy. apply (Hr _ _ Hy). }
  assert (Hdl : (data_pair_length_tag t d =? 0) = bool_decide (tv_data_pair_length_tag t !! d = None)).
  { apply pair_default. intros y Hy. apply Hi in Hy. apply (Hr _ _ Hy). }
  case_match.
  - (* the rollback *)
    cbn [fst]. replace (if length_pair_data_tag t l =? 0 then _ else _) with (tv_length_pair_data_tag t).
    { destruct t. exact Hh. }
    rewrite Hdd. unfold length_pair_data_tag. destruct (tv_length_pair_data_tag t !! l) as [y|] eqn:E; cbn.
    + by rewrite insert_insert_eq, insert_id.
    + by rewrite delete_insert_id.
  - destruct (pair_insert (tv_length_pair_data_tag t) (tv_data_pair_length_tag t) l d Hi) as [Hi' Hsub].
    cbn [fst]. set (nonstd := negb (is_standard_pair_tag l) && negb (is_standard_pair_tag d)).
    assert (Hld : (if negb (data_pair_length_tag t d =? 0) && negb (data_pair_length_tag t d =? l)
        then delete (data_pair_length_tag t d) (<[l := d]> (tv_length_pair_data_tag t))
        else <[l := d]> (tv_length_pair_data_tag t)) =
      match tv_data_pair_length_tag t !! d with
      | Some l0 => if decide (l0 = l) then <[l := d]> (tv_length_pair_data_tag t)
                   else delete l0 (<[l := d]> (tv_length_pair_data_tag t))
      | None => <[l := d]> (tv_length_pair_data_tag t) end).
    { rewrite Hdl. unfold data_pair_length_tag. destruct (tv_data_pair_length_tag t !! d) as [y|]; [|done].
      cbn. case_decide; [by replace (y =? l) with true by lia|by replace (y =? l) with false by lia]. }
    assert (Hdl' : (if negb (length_pair_data_tag t l =? 0) && negb (length_pair_data_tag t l =? d)
        then delete (length_pair_data_tag t l) (<[d := l]> (tv_data_pair_length_tag t))
        else <[d := l]> (tv_data_pair_length_tag t)) =
      match tv_length_pair_data_tag t !! l with
      | Some d0 => if decide (d0 = d) then <[d := l]> (tv_data_pair_length_tag t)
                   else delete d0 (<[d := l]> (tv_data_pair_length_tag t))
      | None => <[d := l]> (tv_data_pair_length_tag t) end).
    { rewrite Hdd. unfold length_pair_data_tag. destruct (tv_length_pair_data_tag t !! l) as [y|]; [|done].
      cbn. case_decide; [by replace (y =? d) with true by lia|by replace (y =? d) with false by lia]. }
    rewrite Hld, Hdl'. unfold pairs_hold. cbn [tv_length_pair_data_tag tv_data_pair_length_tag with_pairs tv_has_nonstandard_pair].
    split_and!; [exact Hi'| |].
    + intros x y [[-> ->]|Hx]%Hsub; [split_and!; lia || done|by apply Hr].
    + intros x y Hxy Hx Hy. apply orb_true_iff. apply Hsub in Hxy as [[-> ->]|Hxy]; [right|left; by eapply Hf].
      unfold nonstd. by rewrite Hx, Hy.
Qed.

Lemma built_pairs ops : Forall op_ok ops -> pairs_hold (build_table ops).
Proof.
  induction ops as [|o ops IH] using rev_ind; [done|]. intros [Hops Ho]%Forall_app. specialize (IH Hops).
  apply (proj1 (Forall_singleton _ _)) in Ho. rewrite build_table_snoc.
  destruct o; try exact IH. destruct Ho. by apply pairs_step.
Qed.

(** The callbacks of a built table keep the promise the scanners rely on. *)
#[export] Instance built_hooks_ok ops : Forall op_ok ops -> hooks_ok (for_table_view (build_table ops)).
Proof.
  intros Hops. destruct (built_pairs ops Hops) as (Hi & Hr & Hf). constructor. intros f. cbn [length_pair_fn for_table_view].
  destruct (tv_has_nonstandard_pair _); [|done]. intros [= <-].
  assert (Hr' : forall d l, tv_data_pair_length_tag (build_table ops) !! d = Some l -> tag16 l /\ tag16 d).
  { intros d l Hd. apply Hi, Hr in Hd. tauto. }
  constructor.
  - intros t []; unfold length_pair_data_tag, data_pair_length_tag.
    + destruct (_ !! t) as [y|] eqn:E; cbn; [apply (Hr _ _ E)|unfold tag16; lia].
    + destruct (_ !! t) as [y|] eqn:E; cbn; [apply (Hr' _ _ E)|unfold tag16; lia].
  - intros l d Hl Hd. unfold length_pair_data_tag, data_pair_length_tag.
    specialize (Hi l d). destruct (tv_length_pair_data_tag _ !! l) as [y|], (tv_data_pair_length_tag _ !! d) as [x|]; cbn.
    all: naive_solver congruence.
Qed.

(** *** The header *)

Lemma built_header ops tag : Forall op_ok ops -> 0 <= tag ->
  is_header_tag (build_table ops) tag = existsb (fun o => match o with AddHeaderTag t => t =? tag | _ => false end) ops.
Proof.
  intros H Ht. induction ops as [|o ops IH] using rev_ind.
  { unfold is_header_tag. rewrite grown_bit_eq by done. apply get_tag_bit_beyond; [done|].
    change (0 <= tag / 64). by apply Z.div_pos. }
  apply Forall_app in H as [Hops Ho].
  apply (proj1 (Forall_singleton _ _)) in Ho. rewrite build_table_snoc, existsb_app. cbn [existsb].
  rewrite <- (IH Hops), orb_false_r. destruct o; cbn [builder_step]; rewrite ?orb_false_r; try done.
  - unfold is_header_tag. cbn. destruct Ho. by rewrite grown_set.
  - unfold set_length_pair_data_tag. by repeat case_match.
Qed.

Lemma built_enum_valid ops tag value :
  Forall op_ok ops -> 0 <= tag -> wf_bytes value ->
  enum_valid (build_table ops) tag value =
    enum_reference (declared_codes ops tag) (declared_multi ops tag) value.
Proof.
  intros Hops Ht Hv. pose proof (built_enums ops Hops tag Ht) as H. unfold enum_valid, enum_reference.
  destruct (tv_enums (build_table ops) !! tag) as [dom|].
  2: { destruct H as [-> _]. by destruct (grown_bit _ _). }
  destruct H as [-> Hd]. cbn [negb]. pose proof Hd as (_ & Hc & Hm & _).
  assert (Hnil : ed_codes dom = [] <-> declared_codes ops tag = []).
  { split; intros E; apply elem_of_nil_inv; intros v Hin; apply (not_elem_of_nil v); rewrite <- E;
      [apply (proj2 (Hc v) Hin)|apply (proj1 (Hc v) Hin)]. }
  destruct (ed_codes dom) as [|c0 cs] eqn:Ec; [by rewrite bool_decide_eq_true_2 by (by apply Hnil)|].
  rewrite (bool_decide_eq_false_2 (declared_codes ops tag = [])) by (intros E; by apply Hnil in E).
  destruct value as [|b value]; [done|]. rewrite Hm. cbn [orb bool_decide].
  destruct (declared_multi ops tag) eqn:Em; cbn [negb].
  - rewrite tokens_declared_spec by lia. pose proof (tokens_wf _ Hv) as Hw.
    induction Hw as [|tok toks Htok _ IH]; [done|]. cbn [forallb].
    by rewrite IH, (token_declared_spec dom (declared_codes ops tag) true).
  - by rewrite (token_declared_spec dom (declared_codes ops tag) false).
Qed.

(** ** Properties *)

(** C15: whatever a builder was asked to do and in whatever order, the enumeration check of its
    table - a bit filter, then a bit mask of the single-character codes or a binary search of
    the sorted codes, token by token for a list - accepts exactly the values the declared codes
    allow: any value of a field without codes, the empty one, a code, or a list of codes cut at
    every space. *)
Theorem enum_valid_exact ops tag value :
  Forall op_ok ops -> 0 <= tag -> wf_bytes value ->
  enum_valid (build_table ops) tag value =
    enum_reference (declared_codes ops tag) (declared_multi ops tag) value.
Proof. apply built_enum_valid. Qed.

(** ExecInst(18) as a list of the codes 1 and 6 and G: "1 G" passes, "1  G" does not. *)
Definition sample_ops : list builder_op :=
  [AddEnum 18 [49]; AddEnum 18 [71]; SetMultiValue 18 true; AddEnum 18 [54]].

Lemma enum_valid_exact_witness :
  enum_valid (build_table sample_ops) 18 [49; 32; 71] = true /\
  enum_valid (build_table sample_ops) 18 [49; 32; 32; 71] = false.
Proof.
  assert (Hops : Forall op_ok sample_ops).
  { repeat constructor; try discriminate. }
  split.
  - rewrite (enum_valid_exact sample_ops 18 [49; 32; 71] Hops); [vm_compute; reflexivity|lia|].
    repeat constructor; discriminate.
  - rewrite (enum_valid_exact sample_ops 18 [49; 32; 32; 71] Hops); [vm_compute; reflexivity|lia|].
    repeat constructor; discriminate.
Defined.

(** C16: whatever a builder was asked to do, a failed allocation included, the bit filters change
    no answer: the delimiter, the members and the required members of a group are those of the
    context store, or of the store by count tag where the context is not declared; the header
    test tells the declared header tags; the two directions of the Length+Data pairs are
    inverse to each other, and the callbacks a scanner is given keep the promise it relies on. *)
Theorem table_lookups_exact ops mt path no_tag tag l d :
  Forall op_ok ops -> 0 <= no_tag -> 0 <= tag -> l <> 0 -> d <> 0 ->
  let t := build_table ops in
  (group_first_field t mt path no_tag =
     group_unfiltered ge_group_first (default 0 (tv_group_first t !! no_tag)) t mt path no_tag /\
   group_member_tags t mt path no_tag =
     group_unfiltered ge_members (default [] (tv_group_members t !! no_tag)) t mt path no_tag /\
   group_required_members t mt path no_tag =
     group_unfiltered ge_required_members (default [] (tv_group_required_members t !! no_tag)) t mt path no_tag) /\
  is_header_tag t tag = existsb (fun o => match o with AddHeaderTag t => t =? tag | _ => false end) ops /\
  (length_pair_data_tag t l = d <-> data_pair_length_tag t d = l) /\
  hooks_ok (for_table_view t).
Proof.
  intros Hops Hn Ht Hl Hd t. split; [apply groups_unfiltered; [by apply built_groups|done]|].
  split; [by apply built_header|]. split; [|by apply built_hooks_ok].
  destruct (built_pairs ops Hops) as (Hi & _). unfold length_pair_data_tag, data_pair_length_tag. fold t in Hi.
  specialize (Hi l d). destruct (tv_length_pair_data_tag t !! l) as [y|], (tv_data_pair_length_tag t !! d) as [x|]; cbn;
    naive_solver congruence.
Qed.

(** 5001 is paired with 5002, then again with 5003 while no node can be allocated, then with
    5003; group 453 of message D has a delimiter of its own under 539. *)
Definition sample_pairs : list builder_op :=
  [SetLengthPairDataTag true true 5001 5002; SetLengthPairDataTag true false 5001 5003;
   SetLengthPairDataTag true true 5001 5003; AddHeaderTag 35; SetGroupFirst 453 448;
   SetGroupFirstCtx [68] [539] 453 524].

Lemma table_lookups_exact_witness :
  data_pair_length_tag (build_table sample_pairs) 5003 = 5001 /\
  is_header_tag (build_table sample_pairs) 35 = true /\
  group_first_field (build_table sample_pairs) [68] [539] 453 = 524.
Proof.
  assert (Hops : Forall op_ok sample_pairs).
  { repeat constructor; try discriminate. }
  destruct (table_lookups_exact sample_pairs [68] [539] 453 35 5001 5003 Hops) as ((Hg & _) & Hh & Hp & _);
    [lia..|].
  split; [apply Hp; vm_compute; reflexivity|].
  split; [rewrite Hh; vm_compute; reflexivity|rewrite Hg; vm_compute; reflexivity].
Defined.
