(* ===== verification/Validator.v ===== *)
(** The dictionary-driven validation of an inbound message,
    [include/fixpp/wire/validator.hpp]: the walk over the fields, the required fields and
    the repeating groups, checked against a [table_view].

    A refusal is the error and the tag written to [ref_tag_out], if any.  [None] is a loop
    out of fuel; the theorems show that it never is. *)
From S2P Require Import Prelude Errors TagScan PairTable LengthData VersionProfile Writer Decimal.
From S2P Require Import FrameHeader OffsetTable GroupIndex FieldIterator TableView.

(** A [MessageView] over an indexed frame. *)
Record message_view := mkView { mv_bytes : bytes; mv_offsets : OffsetTable }.

(** [msg.get(tag)] *)
Definition view_get (v : message_view) (tag : Z) : expected bytes :=
  match find (mv_offsets v) tag with
  | Ok e => Ok (zsub (mv_bytes v) (e_offset e) (e_length e))
  | Err x => Err x
  end.

(** [msg.msg_type()]: empty when the frame has none. *)
Definition view_msg_type (v : message_view) : bytes :=
  match view_get v 35 with Ok b => b | Err _ => [] end.

Definition verdict (A : Type) : Type := result (error * option Z) A.

Definition field_fault_error (fault : field_fault * Z) : error * option Z :=
  match fault.1 with
  | length_data_mismatch => (wire_length_data_mismatch, Some fault.2)
  | _ => (wire_invalid_tag_number, None)
  end.

(** ** One field *)

Definition all_digits (v : bytes) : bool := forallb (fun c => (48 <=? c) && (c <=? 57)) v.

(** [check_field_type]; [wire_field_value_truncated] is what a decimal type other than the
    default one can answer. *)
Definition check_field_type (t : table_view) (tag : Z) (value : bytes) : result error unit :=
  match field_type_of_with_framing t tag with
  | ft_Float =>
      match from_chars value with
      | Ok _ => Ok tt
      | Err decimal_precision_loss => Err wire_field_value_truncated
      | Err _ => Err wire_field_value_out_of_range
      end
  | ft_Int =>
      match value with
      | [] => Err wire_field_value_out_of_range
      | c :: rest =>
          if all_digits (if c =? 45 then rest else value) then Ok tt else Err wire_field_value_out_of_range
      end
  | ft_Char => if zlen value =? 1 then Ok tt else Err wire_field_value_out_of_range
  | ft_Length =>
      match value with
      | [] => Err wire_field_value_out_of_range
      | _ => if all_digits value then Ok tt else Err wire_field_value_out_of_range
      end
  | ft_String | ft_Boolean | ft_Data => Ok tt
  end.

(** The enumeration, then the type, against one table. *)
Definition check_value (t : table_view) (tag : Z) (value : bytes) : verdict unit :=
  if negb (enum_valid t tag value) then Err (wire_field_value_out_of_range, Some tag)
  else match check_field_type t tag value with
       | Ok _ => Ok tt
       | Err x => Err (x, Some tag)
       end.

(** [validate_field] *)
Definition validate_field (t : table_view) (tag : Z) (value : bytes) : result error unit :=
  if negb (enum_valid t tag value) then Err wire_field_value_out_of_range
  else check_field_type t tag value.

(** The body of [check_fields]'s loop: a tag of the envelope's header that the route does not
    answer is checked against the envelope alone. *)
Definition check_field (dict : table_view) (valid_tags : Z -> bool) (envelope : option table_view)
    (tag : Z) (value : bytes) : verdict unit :=
  let routed :=
    if negb (valid_tags tag) && negb (is_fixt_framing_tag dict tag) then
      Err (wire_unexpected_tag, Some tag)
    else check_value dict tag value in
  match envelope with
  | Some env =>
      if is_header_tag env tag && negb (is_route_answered_header_tag tag) then check_value env tag value
      else routed
  | None => routed
  end.

(** [check_fields]: the fault is tested before each field and after the last. *)
Fixpoint check_fields (fuel : nat) (dict : table_view) (valid_tags : Z -> bool)
    (envelope : option table_view) (h : dict_hooks) (buf : bytes) (it : field_iterator)
  : option (verdict unit) :=
  match fuel with
  | O => None
  | S fuel =>
      let '(field, it) := iter_advance h buf it in
      match (it_fault it).1 with
      | fault_none =>
          match field with
          | None => Some (Ok tt)
          | Some (tag, value) =>
              match check_field dict valid_tags envelope tag value with
              | Ok _ => check_fields fuel dict valid_tags envelope h buf it
              | Err x => Some (Err x)
              end
          end
      | _ => Some (Err (field_fault_error (it_fault it)))
      end
  end.

(** The walk over a view whose index failed: to the end, or to the first fault. *)
Fixpoint fault_scan (fuel : nat) (h : dict_hooks) (buf : bytes) (it : field_iterator)
  : option (field_fault * Z) :=
  match fuel with
  | O => None
  | S fuel =>
      let '(field, it) := iter_advance h buf it in
      match field, (it_fault it).1 with
      | Some _, fault_none => fault_scan fuel h buf it
      | _, _ => Some (it_fault it)
      end
  end.

(** ** Header order *)

Definition is_framing_tag (tag : Z) : bool := (tag =? 8) || (tag =? 9) || (tag =? 10).

(** The first entry that is not framing is MsgType. *)
Fixpoint header_ordered (tags : list Z) : bool :=
  match tags with
  | [] => true
  | tag :: tags => if is_framing_tag tag then header_ordered tags else tag =? 35
  end.

(** ** Required fields *)

Fixpoint check_required (v : message_view) (req : list Z) : verdict unit :=
  match req with
  | [] => Ok tt
  | tag :: req =>
      if is_framing_tag tag then check_required v req
      else if is_ok (view_get v tag) then check_required v req
      else Err (wire_required_field_missing, Some tag)
  end.

(** ** Groups *)

Definition kReqMaskWords : Z := 4.
Definition kReqMaskCapacity : Z := kReqMaskWords * 64.

(** [req_bit_index]: the place of a tag among the required members, or how many there are. *)
Fixpoint req_bit_index (req : list Z) (tag : Z) : Z :=
  match req with
  | [] => 0
  | m :: req => if m =? tag then 0 else 1 + req_bit_index req tag
  end.

(** [mask[k / 64] |= std::uint64_t{1} << (k % 64)] *)
Definition mark_bit (mask : list Z) (k : Z) : list Z := set_tag_bit mask k.

(** All ones in the first [n] bits. *)
Definition full_mask (n : Z) : list Z :=
  map (fun w => let w := Z.of_nat w in
    if w <? n / 64 then UINT64_MAX
    else if (w =? n / 64) && negb (n mod 64 =? 0) then Z.shiftl 1 (n mod 64) - 1
    else 0) (seq 0 (Z.to_nat kReqMaskWords)).

(** The first required member whose bit is clear, from the [k]-th on. *)
Fixpoint first_missing (req : list Z) (mask : list Z) (k : Z) : option Z :=
  match req with
  | [] => None
  | m :: req => if negb (get_tag_bit mask k) then Some m else first_missing req mask (k + 1)
  end.

Section Groups.
Context (dict : table_view) (t : OffsetTable).

Definition ctx_first_field (ctx : group_context) (no_tag : Z) : Z :=
  group_first_field dict (gc_msg_type ctx) (gc_parent_path ctx) no_tag.
Definition ctx_member (ctx : group_context) (no_tag tag : Z) : bool :=
  bool_decide (tag ∈ group_member_tags dict (gc_msg_type ctx) (gc_parent_path ctx) no_tag).
Definition ctx_required (ctx : group_context) (no_tag : Z) : list Z :=
  group_required_members dict (gc_msg_type ctx) (gc_parent_path ctx) no_tag.

(** [mark_bit] of a tag that is a required member. *)
Definition mark_seen (req : list Z) (tag : Z) (seen : list Z) : list Z :=
  let k := req_bit_index req tag in
  if k <? zlen req then mark_bit seen k else seen.

(** The members of an instance, behind its delimiter; [nested i] consumes the group at [i]. *)
Fixpoint walk_members (fuel : nat) (nested : Z -> option (verdict Z)) (is_member is_group : Z -> bool)
    (req : list Z) (delim end_ i : Z) (seen : list Z) : option (verdict (Z * list Z)) :=
  match fuel with
  | O => None
  | S fuel =>
      if negb ((i <? end_) && negb (tag_at t i =? delim)) then Some (Ok (i, seen))
      else
        let tag := tag_at t i in
        if negb (is_member tag) then Some (Ok (i, seen))
        else
          let seen := mark_seen req tag seen in
          if is_group tag then
            match nested i with
            | None => None
            | Some (Err x) => Some (Err x)
            | Some (Ok i) => walk_members fuel nested is_member is_group req delim end_ i seen
            end
          else walk_members fuel nested is_member is_group req delim end_ (i + 1) seen
  end.

(** One instance, from its delimiter on. *)
Definition walk_instance (nested : Z -> option (verdict Z)) (is_member is_group : Z -> bool)
    (req : list Z) (delim end_ i : Z) : option (verdict Z) :=
  let seen := mark_seen req delim (replicate (Z.to_nat kReqMaskWords) 0) in
  match (if is_group delim then nested i else Some (Ok (i + 1))) with
  | None => None
  | Some (Err x) => Some (Err x)
  | Some (Ok i) =>
      match walk_members (S (length (entries t))) nested is_member is_group req delim end_ i seen with
      | None => None
      | Some (Err x) => Some (Err x)
      | Some (Ok (i, seen)) =>
          if negb (bool_decide (req = [])) && negb (bool_decide (seen = full_mask (zlen req))) then
            Some (Err (wire_required_field_missing, first_missing req seen 0))
          else Some (Ok i)
      end
  end.

(** The instances; the count and where they end. *)
Fixpoint walk_instances (fuel : nat) (nested : Z -> option (verdict Z)) (is_member is_group : Z -> bool)
    (req : list Z) (delim end_ i actual_count : Z) : option (verdict (Z * Z)) :=
  match fuel with
  | O => None
  | S fuel =>
      if negb ((i <? end_) && (tag_at t i =? delim)) then Some (Ok (i, actual_count))
      else
        match walk_instance nested is_member is_group req delim end_ i with
        | None => None
        | Some (Err x) => Some (Err x)
        | Some (Ok i) =>
            walk_instances fuel nested is_member is_group req delim end_ i (u32 (actual_count + 1))
        end
  end.

(** [consume_group]: the group whose count field is at [pos]; its recursion goes one level
    down the context, which is cut at sixteen. *)
Fixpoint consume_group (fuel : nat) (ctx : group_context) (pos end_ : Z) : option (verdict Z) :=
  match fuel with
  | O => None
  | S fuel =>
      let no_tag := tag_at t pos in
      let delim_tag := ctx_first_field ctx no_tag in
      let declared_count := parse_declared_count t (entry_at t pos) in
      let i := pos + 1 in
      if declared_count =? 0 then Some (Ok i)
      else if (end_ <=? i) || negb (tag_at t i =? delim_tag) then
        Some (Err (wire_required_field_missing, Some delim_tag))
      else
        let child := pushed ctx no_tag in
        let can_descend := gc_depth ctx <? gc_depth child in
        let req := ctx_required ctx no_tag in
        if kReqMaskCapacity <? zlen req then Some (Err (wire_required_field_missing, Some delim_tag))
        else
          let is_group tag := can_descend && negb (ctx_first_field child tag =? 0) in
          match walk_instances (S (length (entries t))) (fun i => consume_group fuel child i end_)
                  (ctx_member ctx no_tag) is_group req delim_tag end_ i 0 with
          | None => None
          | Some (Err x) => Some (Err x)
          | Some (Ok (i, actual_count)) =>
              if negb (actual_count =? declared_count) then
                Some (Err (wire_required_field_missing, Some delim_tag))
              else Some (Ok i)
          end
  end.

(** [validate_group_level]: every group of one level. *)
Fixpoint validate_group_level (fuel : nat) (ctx : group_context) (i end_ : Z) : option (verdict Z) :=
  match fuel with
  | O => None
  | S fuel =>
      if negb (i <? end_) then Some (Ok i)
      else if ctx_first_field ctx (tag_at t i) =? 0 then validate_group_level fuel ctx (i + 1) end_
      else
        match consume_group (S (S (Z.to_nat kMaxGroupDepth))) ctx i end_ with
        | None => None
        | Some (Err x) => Some (Err x)
        | Some (Ok i) => validate_group_level fuel ctx i end_
        end
  end.
End Groups.

(** ** [validate] *)

Definition validate (dict : table_view) (envelope : option table_view) (v : message_view)
  : option (verdict unit) :=
  let msg_type := view_msg_type v in
  let h := for_table_view dict in
  let buf := mv_bytes v in
  let begin := Iterator 0 (0, 0) 0 (fault_none, 0) in
  let es := entries (mv_offsets v) in
  match (if is_ok (status (mv_offsets v)) then Some (fault_none, 0)
         else fault_scan (S (length buf)) h buf begin) with
  | None => None
  | Some fault =>
      match fault.1 with
      | fault_none =>
          if negb (header_ordered (map e_tag es)) then Some (Err (wire_header_out_of_order, None))
          else
            match check_fields (S (length buf)) dict (valid_tags_for dict msg_type) envelope h buf begin with
            | None => None
            | Some (Err x) => Some (Err x)
            | Some (Ok _) =>
                match check_required v (required_fields dict msg_type) with
                | Err x => Some (Err x)
                | Ok _ =>
                    match validate_group_level dict (mv_offsets v) (S (length es))
                            (GroupContext msg_type []) 0 (zlen es) with
                    | None => None
                    | Some (Err x) => Some (Err x)
                    | Some (Ok _) => Some (Ok tt)
                    end
                end
            end
      | _ => Some (Err (field_fault_error fault))
      end
  end.
