(* ===== verification/GroupGrammar.v ===== *)
(** The group walk of the validator as a grammar, [include/fixpp/wire/validator.hpp]:
    which fields [consume_group] and [validate_group_level] accept, as trees of fields and
    groups laid over the entries of the index; and the mask of the required members. *)
From S2P Require Import Prelude Errors TagScan PairTable LengthData VersionProfile Writer Decimal.
From S2P Require Import FrameHeader OffsetTable GroupIndex FieldIterator TableView Validator.

(** ** The mask of the required members *)

Lemma zlen_pos {A} (l : list A) : l <> [] -> 0 < zlen l.
Proof. destruct l; [done|]. rewrite zlen_cons. pose_zlen. lia. Qed.

(** Four words of 64 bits. *)
Definition mask_ok (m : list Z) : Prop := zlen m = kReqMaskWords /\ Forall (fun w => 0 <= w < 2 ^ 64) m.

Definition no_mask : list Z := replicate (Z.to_nat kReqMaskWords) 0.

Lemma no_mask_ok : mask_ok no_mask.
Proof. split; [done|]. apply Forall_replicate. lia. Qed.

Lemma zero_mask_bit k : 0 <= k < kReqMaskCapacity -> get_tag_bit no_mask k = false.
Proof.
  intros Hk. rewrite get_tag_bit_testbit. unfold no_mask, zget. by rewrite nth_replicate_0, Z.testbit_0_l.
Qed.

Lemma mark_bit_ok m k : mask_ok m -> 0 <= k < kReqMaskCapacity -> mask_ok (mark_bit m k).
Proof.
  intros [Hl Hw] Hk. split.
  { unfold zlen, mark_bit. rewrite length_set_tag_bit. exact Hl. }
  unfold mark_bit, set_tag_bit. apply Forall_alter; [done|]. intros w Hin Hr. cbn beta in *.
  set (b := wrap _ _). assert (Hb : 0 <= b < 2 ^ 64) by (unfold b; apply wrap_range; lia).
  split; [apply Z.lor_nonneg; lia|].
  destruct (Z.eq_dec (Z.lor w b) 0) as [->|Hne]; [lia|].
  apply Z.log2_lt_pow2; [pose proof (proj2 (Z.lor_nonneg w b) ltac:(lia)); lia|].
  rewrite Z.log2_lor by lia.
  assert (H : forall x, 0 <= x < 2 ^ 64 -> Z.log2 x < 64).
  { intros x Hx. destruct (Z.eq_dec x 0) as [->|]; [cbn; lia|]. apply Z.log2_lt_pow2; lia. }
  specialize (H w) as Hw'. specialize (H b) as Hb'. lia.
Qed.

(** Two masks with the same bits are the same. *)
Lemma mask_ext a b : mask_ok a -> mask_ok b ->
  (forall k, 0 <= k < kReqMaskCapacity -> get_tag_bit a k = get_tag_bit b k) -> a = b.
Proof.
  unfold kReqMaskCapacity, kReqMaskWords. intros [La Wa] [Lb Wb] H. unfold kReqMaskWords in *.
  apply (nth_ext _ _ 0 0); [unfold zlen in *; lia|]. intros i Hi.
  pose proof (proj1 (Forall_nth _ 0 a) Wa i Hi) as Ha.
  pose proof (proj1 (Forall_nth _ 0 b) Wb i ltac:(unfold zlen in *; lia)) as Hb. cbn beta in Ha, Hb.
  apply Z.bits_inj'. intros j Hj. destruct (Z.lt_ge_cases j 64) as [Hj64|Hj64].
  - specialize (H (64 * Z.of_nat i + j) ltac:(unfold zlen in *; lia)). rewrite !get_tag_bit_testbit in H.
    replace ((64 * Z.of_nat i + j) / 64) with (Z.of_nat i) in H by dlia.
    replace ((64 * Z.of_nat i + j) mod 64) with j in H by dlia.
    unfold zget in H. by rewrite Nat2Z.id in H.
  - assert (Hz : forall x, 0 <= x < 2 ^ 64 -> Z.testbit x j = false).
    { intros x Hx. destruct (Z.eq_dec x 0) as [->|]; [apply Z.testbit_0_l|].
      apply Z.bits_above_log2; [lia|]. assert (Z.log2 x < 64) by (apply Z.log2_lt_pow2; lia). lia. }
    by rewrite !Hz.
Qed.

Lemma full_mask_ok n : mask_ok (full_mask n).
Proof.
  split; [done|]. unfold full_mask. apply Forall_map, Forall_forall. intros w _. cbn beta zeta.
  pose proof (Z.mod_pos_bound n 64 ltac:(lia)). unfold UINT64_MAX.
  case_tests; [lia| |lia]. rewrite Z.shiftl_1_l.
  assert (2 ^ (n mod 64) <= 2 ^ 63) by (apply Z.pow_le_mono_r; lia).
  assert (0 < 2 ^ (n mod 64)) by (apply Z.pow_pos_nonneg; lia). lia.
Qed.

Lemma full_mask_bit n k : 0 <= n <= kReqMaskCapacity -> 0 <= k < kReqMaskCapacity ->
  get_tag_bit (full_mask n) k = (k <? n).
Proof.
  unfold kReqMaskCapacity, kReqMaskWords. intros Hn Hk. rewrite get_tag_bit_testbit. unfold full_mask, zget.
  assert (Hw : 0 <= k / 64 < 4) by dlia.
  set (f := fun w : nat => _).
  rewrite (nth_indep _ 0 (f 0%nat)) by (rewrite length_map, length_seq; unfold kReqMaskWords; lia).
  rewrite map_nth, seq_nth by (unfold kReqMaskWords; lia). unfold f. cbn beta zeta.
  rewrite Nat.add_0_l, Z2Nat.id by lia.
  destruct (k / 64 <? n / 64) eqn:E1.
  { change UINT64_MAX with (Z.ones 64). rewrite Z.ones_spec_low by dlia. symmetry. apply Z.ltb_lt. dlia. }
  destruct ((k / 64 =? n / 64) && negb (n mod 64 =? 0)) eqn:E2.
  - rewrite Z.shiftl_1_l. replace (2 ^ (n mod 64) - 1) with (Z.ones (n mod 64)) by (rewrite Z.ones_equiv; lia).
    rewrite Z.testbit_ones by dlia. destruct (k <? n) eqn:E; dlia.
  - rewrite Z.testbit_0_l. symmetry. apply Z.ltb_ge. dlia.
Qed.

(** *** What a walk marked *)

Lemma req_bit_index_range req tag : 0 <= req_bit_index req tag <= zlen req.
Proof.
  induction req as [|m req IH]; [done|]. cbn [req_bit_index]. rewrite zlen_cons.
  destruct (m =? tag); pose_zlen; lia.
Qed.

Lemma req_bit_index_lt req tag : req_bit_index req tag < zlen req <-> tag ∈ req.
Proof.
  induction req as [|m req IH]; cbn [req_bit_index].
  { split; [done|]. intros []%not_elem_of_nil. }
  rewrite elem_of_cons, zlen_cons, <- IH. destruct (m =? tag) eqn:E; pose_zlen; lia.
Qed.

(** The place of a required member, when none is twice in the list. *)
Lemma req_bit_index_at req i m : NoDup req -> req !! i = Some m ->
  forall tag, req_bit_index req tag = Z.of_nat i <-> tag = m.
Proof.
  revert i. induction req as [|m' req IH]; intros i Hd Hi tag; [done|].
  apply NoDup_cons in Hd as [Hm Hd]. cbn [req_bit_index].
  pose proof (req_bit_index_range req tag).
  destruct i as [|i]; cbn in Hi.
  - injection Hi as <-. destruct (m' =? tag) eqn:E; lia.
  - specialize (IH i Hd Hi tag). apply list_elem_of_lookup_2 in Hi.
    destruct (m' =? tag) eqn:E; [|lia]. split; [lia|]. intros ->. by replace m' with m in Hm by lia.
Qed.

(** [seen] holds the bits of the required members among [tags]. *)
Definition marked (req : list Z) (tags : list Z) (seen : list Z) : Prop :=
  mask_ok seen /\
  forall k, 0 <= k < kReqMaskCapacity ->
    get_tag_bit seen k = true <-> k < zlen req /\ exists tag, tag ∈ tags /\ req_bit_index req tag = k.

Lemma marked_nil req : marked req [] no_mask.
Proof.
  split; [apply no_mask_ok|]. intros k Hk. rewrite zero_mask_bit by done.
  split; [done|]. intros (_ & tag & []%not_elem_of_nil & _).
Qed.

Lemma marked_seen req tags tag seen : zlen req <= kReqMaskCapacity -> marked req tags seen ->
  marked req (tags ++ [tag]) (mark_seen req tag seen).
Proof.
  intros Hn [Hok Hs]. unfold mark_seen. cbv zeta. pose proof (req_bit_index_range req tag) as Hr.
  assert (Happ : forall k, (exists t, t ∈ tags ++ [tag] /\ req_bit_index req t = k) <->
    (exists t, t ∈ tags /\ req_bit_index req t = k) \/ req_bit_index req tag = k).
  { intros k. setoid_rewrite elem_of_app. setoid_rewrite list_elem_of_singleton. naive_solver. }
  destruct (req_bit_index req tag <? zlen req) eqn:E.
  - split; [apply mark_bit_ok; [done|lia]|]. intros k Hk. unfold mark_bit.
    rewrite get_set_tag_bit, orb_true_iff, (Hs k Hk), Happ.
    + split; [|intros [? [?| <-]]; [left; done|right; apply Z.eqb_refl]].
      intros [[? ?]|?]; [by auto|]. split; [lia|right; lia].
    + destruct Hok as [-> _]. unfold kReqMaskWords, kReqMaskCapacity in *. unfold kReqMaskWords in *. dlia.
    + lia.
    + lia.
  - split; [done|]. intros k Hk. rewrite (Hs k Hk), Happ. split; [by intuition|]. intros [? [?|?]]; [done|lia].
Qed.

(** The test of the mask: every required member was seen. *)
Lemma marked_full req tags seen : NoDup req -> zlen req <= kReqMaskCapacity -> marked req tags seen ->
  seen = full_mask (zlen req) <-> Forall (fun m => m ∈ tags) req.
Proof.
  intros Hd Hn [Hok Hs]. rewrite Forall_forall. pose proof (zlen_nonneg req) as Hz.
  assert (Hbit : forall i m, req !! i = Some m -> Z.of_nat i < zlen req).
  { intros i m Hi%lookup_lt_Some. unfold zlen. lia. }
  split.
  - intros -> m (i & Hi)%list_elem_of_lookup_1. specialize (Hbit i m Hi).
    specialize (Hs (Z.of_nat i) ltac:(lia)). rewrite full_mask_bit in Hs by lia.
    destruct (proj1 Hs ltac:(lia)) as (_ & tag & Hin & Ht).
    by rewrite (proj1 (req_bit_index_at req i m Hd Hi tag) Ht) in Hin.
  - intros Hall. apply mask_ext; [done|apply full_mask_ok|]. intros k Hk. rewrite full_mask_bit by lia.
    apply eq_true_iff_eq. rewrite (Hs k Hk). split; [lia|]. intros Hkn. split; [lia|].
    destruct (lookup_lt_is_Some_2 req (Z.to_nat k)) as [m Hi]; [unfold zlen in Hkn; lia|].
    exists m. split; [apply Hall; by apply list_elem_of_lookup_2 in Hi|].
    rewrite (proj2 (req_bit_index_at req _ m Hd Hi m) eq_refl). lia.
Qed.

(** A mask that is not full has a required member to blame. *)
Lemma first_missing_none req mask k : first_missing req mask k = None ->
  forall j, 0 <= j < zlen req -> get_tag_bit mask (k + j) = true.
Proof.
  revert k. induction req as [|m req IH]; intros k Hm j Hj; [unfold zlen in Hj; cbn in Hj; lia|]. cbn [first_missing] in Hm.
  rewrite zlen_cons in Hj. destruct (get_tag_bit mask k) eqn:E; [|done].
  destruct (Z.eq_dec j 0) as [->|]; [by rewrite Z.add_0_r|].
  replace (k + j) with (k + 1 + (j - 1)) by lia. apply IH; [done|lia].
Qed.

Lemma first_missing_blames req tags seen : zlen req <= kReqMaskCapacity -> marked req tags seen ->
  seen <> full_mask (zlen req) -> exists m, first_missing req seen 0 = Some m.
Proof.
  intros Hn [Hok Hs] Hne. destruct (first_missing req seen 0) as [m|] eqn:E; [by exists m|].
  destruct Hne. apply mask_ext; [done|apply full_mask_ok|]. intros k Hk. pose proof (zlen_nonneg req).
  rewrite full_mask_bit by lia. apply eq_true_iff_eq. split; [rewrite (Hs k Hk); intros [? _]; lia|].
  intros Hkn. apply (first_missing_none _ _ _ E k). lia.
Qed.

(** The member it blames is the first one that is not among the tags. *)
Lemma first_missing_some req mask k m : first_missing req mask k = Some m ->
  exists r1 r2, req = r1 ++ m :: r2 /\ (forall j, 0 <= j < zlen r1 -> get_tag_bit mask (k + j) = true) /\
    get_tag_bit mask (k + zlen r1) = false.
Proof.
  revert k. induction req as [|m' req IH]; intros k Hm; [done|]. cbn [first_missing] in Hm.
  destruct (get_tag_bit mask k) eqn:E; cbn [negb] in Hm.
  - destruct (IH (k + 1) Hm) as (r1 & r2 & -> & H1 & H2). exists (m' :: r1), r2. rewrite zlen_cons. split; [done|]. split.
    + intros j Hj. destruct (Z.eq_dec j 0) as [->|]; [by rewrite Z.add_0_r|].
      replace (k + j) with (k + 1 + (j - 1)) by lia. apply H1. lia.
    + by replace (k + (1 + zlen r1)) with (k + 1 + zlen r1) by lia.
  - injection Hm as ->. exists [], req. split; [done|]. split; [|by rewrite Z.add_0_r].
    intros j Hj. change (zlen (@nil Z)) with 0 in Hj. lia.
Qed.

Lemma marked_at req tags seen i m : NoDup req -> zlen req <= kReqMaskCapacity -> marked req tags seen ->
  req !! i = Some m -> get_tag_bit seen (Z.of_nat i) = true <-> m ∈ tags.
Proof.
  intros Hd Hn [_ Hs] Hi. pose proof (lookup_lt_Some _ _ _ Hi) as Hlt.
  assert (Hz : 0 <= Z.of_nat i < zlen req) by (unfold zlen; lia).
  rewrite (Hs (Z.of_nat i)) by lia. setoid_rewrite (req_bit_index_at req i m Hd Hi). naive_solver.
Qed.

Lemma first_missing_lacks req tags seen m : NoDup req -> zlen req <= kReqMaskCapacity -> marked req tags seen ->
  first_missing req seen 0 = Some m ->
  exists r1 r2, req = r1 ++ m :: r2 /\ Forall (fun r => r ∈ tags) r1 /\ m ∉ tags.
Proof.
  intros Hd Hn Hs (r1 & r2 & Hreq & H1 & H2)%first_missing_some. exists r1, r2. split; [done|].
  pose proof (fun i x => marked_at req tags seen i x Hd Hn Hs) as Hat. split.
  - apply Forall_forall. intros r (i & Hi)%list_elem_of_lookup_1. apply (Hat i).
    + rewrite Hreq. by apply lookup_app_l_Some.
    + apply (H1 (Z.of_nat i)). apply lookup_lt_Some in Hi. unfold zlen. lia.
  - intros Hm. apply (Hat (length r1)) in Hm; [|rewrite Hreq; by apply list_lookup_middle].
    rewrite Z.add_0_l in H2. unfold zlen in H2. congruence.
Qed.

(** ** The grammar of the groups *)

Section Grammar.
Context (dict : table_view).

(** The tag counts a group of its own in the context. *)
Definition is_group_tag (ctx : group_context) (tag : Z) : bool := negb (ctx_first_field dict ctx tag =? 0).

(** Groups nest until the context is full. *)
Definition descends (ctx : group_context) (no_tag : Z) : bool := gc_depth ctx <? gc_depth (pushed ctx no_tag).

(** What follows the group is none of its fields. *)
Definition group_ends (ctx : group_context) (no_tag : Z) (next : option Z) : Prop :=
  match next with
  | Some u => u <> ctx_first_field dict ctx no_tag /\ ctx_member dict ctx no_tag u = false
  | None => True
  end.

(** A tree whose group is one of [ctx], with [next] the tag that follows; [open] says
    whether groups are still told from fields here.  A group has as many instances as its
    count says; each opens with the dictionary's delimiter, goes on with members that are
    not the delimiter and holds every required one, in any order. *)
Inductive node_fits : bool -> group_context -> node -> option Z -> Prop :=
  | leaf_fits open ctx t v next :
      open && is_group_tag ctx t = false -> node_fits open ctx (Leaf t v) next
  | empty_fits ctx t v next :
      is_group_tag ctx t = true -> parse_bounded_u32 v = 0 -> node_fits true ctx (Group t v []) next
  | group_fits ctx t v insts next :
      is_group_tag ctx t = true -> insts <> [] -> parse_bounded_u32 v = zlen insts ->
      zlen (ctx_required dict ctx t) <= kReqMaskCapacity -> group_ends ctx t next ->
      insts_fit ctx t insts next -> node_fits true ctx (Group t v insts) next
with nodes_fit : bool -> group_context -> list node -> option Z -> Prop :=
  | nil_fits open ctx next : nodes_fit open ctx [] next
  | cons_fits open ctx n ns next :
      node_fits open ctx n (next_tag ns next) -> nodes_fit open ctx ns next ->
      nodes_fit open ctx (n :: ns) next
with insts_fit : group_context -> Z -> list (list node) -> option Z -> Prop :=
  | no_insts_fit ctx t next : insts_fit ctx t [] next
  | inst_fits ctx t head others insts next :
      node_tag head = ctx_first_field dict ctx t ->
      Forall (fun n => node_tag n <> ctx_first_field dict ctx t /\
                       ctx_member dict ctx t (node_tag n) = true) others ->
      Forall (fun m => m ∈ map node_tag (head :: others)) (ctx_required dict ctx t) ->
      nodes_fit (descends ctx t) (pushed ctx t) (head :: others)
        (match insts with [] => next | _ => Some (ctx_first_field dict ctx t) end) ->
      insts_fit ctx t insts next -> insts_fit ctx t ((head :: others) :: insts) next.

(** The fields of a whole level, as the level scan cuts them. *)
Definition level_fits (ctx : group_context) (fs : list (Z * bytes)) : Prop :=
  exists ns, fs = concat (map flatten ns) /\ nodes_fit true ctx ns None.

(** *** What a refusal blames *)

(** What ends the members of an instance. *)
Definition members_end (delim : Z) (is_member : Z -> bool) (next : option Z) : Prop :=
  match next with Some u => u = delim \/ is_member u = false | None => True end.

(** An instance of the group [g], all there is of it, without the required member [m], the first
    that it lacks. *)
Definition lacks_member (ctx : group_context) (g : Z) (inst : list node) (next : option Z) (m : Z) : Prop :=
  (exists head others, inst = head :: others /\ node_tag head = ctx_first_field dict ctx g /\
     Forall (fun n => node_tag n <> ctx_first_field dict ctx g /\ ctx_member dict ctx g (node_tag n) = true) others) /\
  nodes_fit (descends ctx g) (pushed ctx g) inst next /\
  members_end (ctx_first_field dict ctx g) (ctx_member dict ctx g) next /\
  exists r1 r2, ctx_required dict ctx g = r1 ++ m :: r2 /\ Forall (fun r => r ∈ map node_tag inst) r1 /\
    m ∉ map node_tag inst.

(** What is wrong with the group that counts [v] instances in front of [rest], and the tag that
    is named for it: the delimiter, when the first instance does not open with it, when there
    are too many required members, or when the instances are not as many as counted; a required
    member, when an instance lacks it. *)
Definition group_fault (ctx : group_context) (g : Z) (v : bytes) (rest : list (Z * bytes)) (tag : Z) : Prop :=
  let delim := ctx_first_field dict ctx g in
  parse_bounded_u32 v <> 0 /\
  (tag = delim /\ (head_tag rest <> Some delim \/ kReqMaskCapacity < zlen (ctx_required dict ctx g) \/
     exists insts post, rest = flatten_insts insts ++ post /\ insts_fit ctx g insts (head_tag post) /\
       group_ends ctx g (head_tag post) /\ zlen insts <> parse_bounded_u32 v) \/
   exists insts inst post, rest = flatten_insts insts ++ flatten_inst inst ++ post /\
     insts_fit ctx g insts (Some delim) /\ lacks_member ctx g inst (head_tag post) tag).

(** A refusal of a message of type [mt] with the fields [fs] names what one of its groups lacks. *)
Definition blames (mt : bytes) (fs : list (Z * bytes)) (x : error * option Z) : Prop :=
  exists ctx pre g v rest tag, gc_msg_type ctx = mt /\ fs = pre ++ (g, v) :: rest /\
    is_group_tag ctx g = true /\ group_fault ctx g v rest tag /\ x = (wire_required_field_missing, Some tag).

Lemma pushed_type ctx no_tag : gc_msg_type (pushed ctx no_tag) = gc_msg_type ctx.
Proof using. unfold pushed. by destruct (_ <? _). Qed.

Lemma descends_eq ctx no_tag : gc_depth ctx <= kMaxGroupDepth ->
  descends ctx no_tag = (gc_depth ctx <? kMaxGroupDepth) /\
  gc_depth (pushed ctx no_tag) <= kMaxGroupDepth /\
  (descends ctx no_tag = true -> gc_depth (pushed ctx no_tag) = gc_depth ctx + 1).
Proof using.
  unfold descends, gc_depth, pushed, kMaxGroupDepth, parent_path_size.
  destruct (zlen (gc_parent_path ctx) <? 16) eqn:E; cbn [gc_parent_path].
  - intros _. rewrite zlen_app. change (zlen [no_tag]) with 1. lia.
  - lia.
Qed.
End Grammar.

(** ** The walk accepts the grammar *)

Section Accepts.
Context (dict : table_view) (t : OffsetTable).
Context `{Hreq : !required_distinct dict}.
Context (Hlen : zlen (entries t) <= UINT32_MAX).

Abbreviation faults mt := (blames dict mt (reads t)).

(** A walk answers: it refuses for a reason of [F], or it consumed what [P] says. *)
Definition answers {A} (F : error * option Z -> Prop) (r : option (verdict A)) (P : A -> Prop) : Prop :=
  match r with
  | Some (Ok a) => P a
  | Some (Err x) => F x
  | None => False
  end.

Lemma answers_impl {A} (F G : error * option Z -> Prop) (r : option (verdict A)) (P Q : A -> Prop) :
  answers F r P -> (forall a, P a -> Q a) -> (forall x, F x -> G x) -> answers G r Q.
Proof using. destruct r as [[]|]; cbn; auto. Qed.

(** From [pre] on, [step] consumes one tree that fits, whenever there is one, and otherwise
    refuses. *)
Definition takes_node (open : bool) (ctx : group_context) (pre rest : list (Z * bytes))
    (r : option (verdict Z)) : Prop :=
  answers (faults (gc_msg_type ctx)) r (fun e => exists n post, rest = flatten n ++ post /\ e = zlen pre + zlen (flatten n) /\
                        node_fits dict open ctx n (head_tag post)) /\
  forall n post, rest = flatten n ++ post -> node_fits dict open ctx n (head_tag post) ->
    r = Some (Ok (zlen pre + zlen (flatten n))).

(** The consumer of groups, where the entry counts one. *)
Definition takes_groups (ctx : group_context) (nested : Z -> option (verdict Z)) : Prop :=
  forall pre rest tag, reads t = pre ++ rest -> head_tag rest = Some tag ->
    is_group_tag dict ctx tag = true -> takes_node true ctx pre rest (nested (zlen pre)).

(** A group where the entry counts one, a field elsewhere. *)
Lemma step_takes open ctx nested pre rest tag :
  (open = true -> takes_groups ctx nested) -> reads t = pre ++ rest -> head_tag rest = Some tag ->
  takes_node open ctx pre rest
    (if open && is_group_tag dict ctx tag then nested (zlen pre) else Some (Ok (zlen pre + 1))).
Proof using.
  intros Hn Hr Hh. destruct (open && is_group_tag dict ctx tag) eqn:E.
  - apply andb_true_iff in E as [-> E]. by eapply Hn.
  - destruct rest as [|[tag' v] rest]; [done|]. injection Hh as ->. split.
    + exists (Leaf tag v), rest. split_and!; [done|done|]. by constructor.
    + intros n post Hp Hf. destruct Hf as [open ctx tag' v' next Hl|ctx tag' v' next Hg|ctx tag' v' insts next Hg].
      * reflexivity.
      * injection Hp as -> _ _. by rewrite Hg in E.
      * injection Hp as -> _ _. by rewrite Hg in E.
Qed.

Lemma entries_room pre rest : reads t = pre ++ rest -> zlen rest < Z.of_nat (S (length (entries t))).
Proof using. intros Hr%(f_equal zlen). rewrite reads_length, zlen_app in Hr. pose_zlen. unfold zlen in Hr |- *. lia. Qed.

Section OneGroup.
Context (ctx : group_context) (g : Z) (nested : Z -> option (verdict Z)).
Let child := pushed ctx g.
Let open := descends ctx g.
Let delim := ctx_first_field dict ctx g.
Let is_member := ctx_member dict ctx g.
Let req := ctx_required dict ctx g.
Let is_group tag := open && is_group_tag dict child tag.
Context (Hnested : open = true -> takes_groups child nested).
Context (Hcap : zlen req <= kReqMaskCapacity).

Abbreviation member_node := (fun n => node_tag n <> delim /\ is_member (node_tag n) = true).
Abbreviation N := (zlen (entries t)).

Lemma walk_members_stop lf pre rest seen : reads t = pre ++ rest ->
  members_end delim is_member (head_tag rest) ->
  walk_members t (S lf) nested is_member is_group req delim N (zlen pre) seen = Some (Ok (zlen pre, seen)).
Proof using.
  intros Hr He. cbn [walk_members]. destruct (head_tag rest) as [u|] eqn:E.
  - destruct (reads_head t pre rest u Hr E) as [Hlt ->]. destruct He as [-> | ->].
    + by rewrite Z.eqb_refl, andb_false_r.
    + by destruct (negb _).
  - rewrite (reads_end t pre rest Hr E), Z.ltb_irrefl. done.
Qed.

Lemma walk_members_go lf pre rest u seen : reads t = pre ++ rest -> head_tag rest = Some u ->
  u <> delim -> is_member u = true ->
  walk_members t (S lf) nested is_member is_group req delim N (zlen pre) seen =
    match (if is_group u then nested (zlen pre) else Some (Ok (zlen pre + 1))) with
    | None => None
    | Some (Err x) => Some (Err x)
    | Some (Ok i) => walk_members t lf nested is_member is_group req delim N i (mark_seen req u seen)
    end.
Proof using.
  intros Hr E Hd Hm. cbn [walk_members]. destruct (reads_head t pre rest u Hr E) as [Hlt ->].
  replace (zlen pre <? N) with true by lia. replace (u =? delim) with false by lia. rewrite Hm.
  cbn [andb negb]. by destruct (is_group u).
Qed.

Lemma walk_members_takes lf : forall pre rest tags seen, reads t = pre ++ rest -> zlen rest < Z.of_nat lf ->
  marked req tags seen ->
  answers (faults (gc_msg_type ctx)) (walk_members t lf nested is_member is_group req delim N (zlen pre) seen) (fun r =>
    exists ns post, rest = flatten_inst ns ++ post /\ r.1 = zlen pre + zlen (flatten_inst ns) /\
      Forall member_node ns /\ nodes_fit dict open child ns (head_tag post) /\
      members_end delim is_member (head_tag post) /\ marked req (tags ++ map node_tag ns) r.2).
Proof using Hnested Hcap.
  induction lf as [|lf IH]; intros pre rest tags seen Hr Hf Hs; [pose_zlen; lia|].
  assert (Hdec : members_end delim is_member (head_tag rest) \/
    exists u, head_tag rest = Some u /\ u <> delim /\ is_member u = true).
  { destruct (head_tag rest) as [u|]; [|by left]. cbn. destruct (is_member u) eqn:E; [|by auto].
    destruct (Z.eq_dec u delim); [by auto|]. right. by exists u. }
  destruct Hdec as [He|(u & Hu & Hd & Hm)].
  { rewrite (walk_members_stop lf pre rest) by done. exists [], rest. cbn [map concat app].
    rewrite app_nil_r. split_and!; try done; [cbn; rewrite Z.add_0_r; done|constructor]. }
  rewrite (walk_members_go lf pre rest u) by done.
  destruct (step_takes open child nested pre rest u Hnested Hr Hu) as [Ht _].
  fold (is_group u) in Ht. unfold child at 1 in Ht. rewrite pushed_type in Ht. destruct (if is_group u then _ else _) as [[i|x]|]; cbn in Ht |- *; [|done..].
  destruct Ht as (n & post & -> & -> & Hn). rewrite <- zlen_app.
  assert (Hu' : u = node_tag n) by (destruct (flatten_head n) as (v & l & E); rewrite E in Hu; by injection Hu).
  subst u. pose proof (flatten_length n). rewrite zlen_app in Hf.
  pose proof (IH (pre ++ flatten n) post (tags ++ [node_tag n]) (mark_seen req (node_tag n) seen)
    ltac:(by rewrite <- app_assoc) ltac:(lia) (marked_seen _ _ _ _ Hcap Hs)) as H'.
  eapply answers_impl; [exact H'| |done]. intros [i s] (ns & post' & -> & Hi & Hall & Hns & He & Hmk). cbn in Hi, Hmk |- *.
  exists (n :: ns), post'. cbn [map concat]. rewrite <- app_assoc in Hmk. split_and!; try done.
  - by rewrite app_assoc.
  - rewrite Hi, !zlen_app. lia.
  - by constructor.
  - constructor; [|done]. by rewrite <- head_tag_nodes.
Qed.

Lemma walk_members_accepts ns : forall lf pre post tags seen, reads t = pre ++ flatten_inst ns ++ post ->
  zlen (flatten_inst ns ++ post) < Z.of_nat lf -> marked req tags seen -> Forall member_node ns ->
  nodes_fit dict open child ns (head_tag post) -> members_end delim is_member (head_tag post) ->
  exists seen', marked req (tags ++ map node_tag ns) seen' /\
    walk_members t lf nested is_member is_group req delim N (zlen pre) seen =
      Some (Ok (zlen pre + zlen (flatten_inst ns), seen')).
Proof using Hnested Hcap.
  induction ns as [|n ns IH]; intros [|lf] pre post tags seen Hr Hf Hs Hall Hns He; try (pose_zlen; lia).
  - exists seen. cbn [map concat app] in *. rewrite app_nil_r. split; [done|].
    rewrite (walk_members_stop lf pre post) by done. change (zlen (@nil (Z * bytes))) with 0. by rewrite Z.add_0_r.
  - apply Forall_cons in Hall as [[Hd Hm] Hall].
    inversion Hns as [|? ? ? ? ? Hn Hns']; subst. clear Hns. cbn [map concat] in *. rewrite <- app_assoc in *.
    set (post1 := flatten_inst ns ++ post) in *.
    assert (Hu : head_tag (flatten n ++ post1) = Some (node_tag n)).
    { by destruct (flatten_head n) as (v & l & ->). }
    rewrite (walk_members_go lf pre (flatten n ++ post1) (node_tag n)) by done.
    destruct (step_takes open child nested pre _ _ Hnested Hr Hu) as [_ Ht].
    specialize (Ht n post1 eq_refl ltac:(unfold post1; by rewrite head_tag_nodes)).
    fold (is_group (node_tag n)) in Ht. rewrite Ht, <- zlen_app.
    pose proof (flatten_length n). rewrite zlen_app in Hf.
    destruct (IH lf (pre ++ flatten n) post (tags ++ [node_tag n]) (mark_seen req (node_tag n) seen))
      as (seen' & Hmk & Hw); try done; [by rewrite <- app_assoc|fold post1; lia|by apply marked_seen|].
    exists seen'. rewrite <- app_assoc in Hmk. split; [done|]. rewrite Hw, !zlen_app. by rewrite Z.add_assoc.
Qed.

(** The instance a run of trees makes. *)
Definition good_inst (inst : list node) (next : option Z) : Prop :=
  exists head others, inst = head :: others /\ node_tag head = delim /\ Forall member_node others /\
    Forall (fun m => m ∈ map node_tag inst) req /\ nodes_fit dict open child inst next.

Abbreviation one_instance := (walk_instance t nested is_member is_group req delim N).

Lemma missing_test tags seen : marked req tags seen ->
  negb (bool_decide (req = [])) && negb (bool_decide (seen = full_mask (zlen req))) = false <->
  Forall (fun m => m ∈ tags) req.
Proof using Hreq Hcap.
  intros Hm. rewrite <- (marked_full req tags seen (required_nodup _ _ _) Hcap Hm), andb_false_iff, !negb_false_iff.
  rewrite !bool_decide_eq_true. split; [|by auto]. intros [He|]; [|done].
  apply (marked_full req tags seen (required_nodup _ _ _) Hcap Hm). rewrite He. constructor.
Qed.

Lemma walk_instance_takes pre rest : reads t = pre ++ rest -> head_tag rest = Some delim ->
  answers (fun x => faults (gc_msg_type ctx) x \/ exists inst post m, rest = flatten_inst inst ++ post /\
      lacks_member dict ctx g inst (head_tag post) m /\ x = (wire_required_field_missing, Some m))
    (one_instance (zlen pre)) (fun i => exists inst post, rest = flatten_inst inst ++ post /\
    i = zlen pre + zlen (flatten_inst inst) /\ good_inst inst (head_tag post) /\
    members_end delim is_member (head_tag post)).
Proof using Hreq Hnested Hcap.
  intros Hr Hu. unfold walk_instance. cbv zeta. fold no_mask.
  destruct (step_takes open child nested pre rest delim Hnested Hr Hu) as [Ht _]. fold (is_group delim) in Ht.
  unfold child at 1 in Ht. rewrite pushed_type in Ht.
  destruct (if is_group delim then _ else _) as [[i|x]|]; cbn [answers] in Ht |- *; [|by left|done].
  destruct Ht as (n & post & -> & -> & Hn). rewrite <- zlen_app.
  assert (Hd : node_tag n = delim) by (destruct (flatten_head n) as (v & l & E); rewrite E in Hu; by injection Hu).
  assert (Hr' : reads t = (pre ++ flatten n) ++ post) by (by rewrite <- app_assoc).
  pose proof (walk_members_takes _ _ _ _ _ Hr' (entries_room _ _ Hr')
    (marked_seen req [] delim _ Hcap (marked_nil req))) as Hw.
  destruct (walk_members _ _ _ _ _ _ _ _ _ _) as [[[i seen]|x]|]; cbn [answers] in Hw |- *; [|by left|done].
  cbn [fst snd] in Hw. destruct Hw as (ns & post' & -> & -> & Hall & Hns & He & Hmk).
  pose proof (missing_test _ _ Hmk) as Hmt. destruct (_ && _) eqn:E.
  - apply andb_true_iff in E as [_ E%negb_true_iff%bool_decide_eq_false].
    destruct (first_missing_blames req _ _ Hcap Hmk E) as [m Hm]. rewrite Hm. right. exists (n :: ns), post', m.
    cbn [map concat]. split; [by rewrite app_assoc|]. split; [|done]. split_and!; [by exists n, ns| |exact He|].
    + constructor; [|done]. by rewrite <- head_tag_nodes.
    + rewrite <- Hd in Hmk. exact (first_missing_lacks _ _ _ _ (required_nodup _ _ _) Hcap Hmk Hm).
  - exists (n :: ns), post'. cbn [map concat]. split; [by rewrite app_assoc|]. split; [rewrite !zlen_app; lia|]. split; [|exact He].
    exists n, ns. cbn [map]. rewrite Hd. do 2 (split; [done|]). split; [done|]. split; [by apply Hmt|]. constructor; [|done].
    by rewrite <- head_tag_nodes.
Qed.

Lemma walk_instance_accepts pre inst post : reads t = pre ++ flatten_inst inst ++ post ->
  good_inst inst (head_tag post) -> members_end delim is_member (head_tag post) ->
  one_instance (zlen pre) = Some (Ok (zlen pre + zlen (flatten_inst inst))).
Proof using Hreq Hnested Hcap.
  intros Hr (head & others & -> & Hd & Hall & Hrq & Hns) He. unfold walk_instance. cbv zeta. fold no_mask.
  inversion Hns as [|? ? ? ? ? Hn Hns']; subst. cbn [map concat] in *. rewrite <- app_assoc in Hr.
  set (post1 := flatten_inst others ++ post) in *.
  assert (Hu : head_tag (flatten head ++ post1) = Some delim).
  { destruct (flatten_head head) as (v & l & ->). cbn. by rewrite Hd. }
  destruct (step_takes open child nested pre _ _ Hnested Hr Hu) as [_ Ht].
  specialize (Ht head post1 eq_refl ltac:(unfold post1; by rewrite head_tag_nodes)).
  fold (is_group delim) in Ht. rewrite Ht, <- zlen_app.
  assert (Hr' : reads t = (pre ++ flatten head) ++ post1) by (by rewrite <- app_assoc).
  destruct (walk_members_accepts others _ _ _ _ _ Hr' (entries_room _ _ Hr')
    (marked_seen req [] delim _ Hcap (marked_nil req)) Hall Hns' He) as (seen' & Hmk & ->).
  rewrite (proj2 (missing_test _ _ Hmk)) by (cbn [app]; by rewrite <- Hd). rewrite !zlen_app. do 2 f_equal. lia.
Qed.

Lemma inst_fits_good inst insts next : insts_fit dict ctx g (inst :: insts) next ->
  good_inst inst (match insts with [] => next | _ => Some delim end) /\ insts_fit dict ctx g insts next.
Proof using.
  inversion 1 as [|? ? head others ? ? Hd Hall Hrq Hns Hi]; subst. split; [|done]. by exists head, others.
Qed.

Lemma insts_fit_head insts next post : insts_fit dict ctx g insts next -> insts <> [] ->
  head_tag (flatten_insts insts ++ post) = Some delim.
Proof using.
  destruct insts as [|inst insts]; [done|]. intros [(head & others & -> & Hd & _) _]%inst_fits_good _.
  cbn [map concat]. destruct (flatten_head head) as (v & l & ->). cbn. by rewrite Hd.
Qed.

Abbreviation all_instances lf i n :=
  (walk_instances t lf nested is_member is_group req delim N i n).

Lemma walk_instances_go lf pre rest n : reads t = pre ++ rest -> head_tag rest = Some delim ->
  all_instances (S lf) (zlen pre) n =
    match one_instance (zlen pre) with
    | None => None
    | Some (Err x) => Some (Err x)
    | Some (Ok i) => all_instances lf i (u32 (n + 1))
    end.
Proof using.
  intros Hr E. cbn [walk_instances]. destruct (reads_head t pre rest _ Hr E) as [Hlt ->].
  replace (zlen pre <? N) with true by lia. by rewrite Z.eqb_refl.
Qed.

Lemma walk_instances_stop lf pre rest n : reads t = pre ++ rest -> head_tag rest <> Some delim ->
  all_instances (S lf) (zlen pre) n = Some (Ok (zlen pre, n)).
Proof using.
  intros Hr Hne. cbn [walk_instances]. destruct (head_tag rest) as [u|] eqn:E.
  - destruct (reads_head t pre rest u Hr E) as [Hlt ->].
    replace (u =? delim) with false by (symmetry; apply Z.eqb_neq; congruence). by rewrite andb_false_r.
  - by rewrite (reads_end t pre rest Hr E), Z.ltb_irrefl.
Qed.

Lemma good_inst_length inst next : good_inst inst next -> 1 <= zlen (flatten_inst inst).
Proof using.
  intros (head & others & -> & _). cbn [map concat]. rewrite zlen_app. pose proof (flatten_length head).
  pose proof (zlen_nonneg (flatten_inst others)). lia.
Qed.

Lemma walk_instances_takes lf : forall pre rest n, reads t = pre ++ rest -> zlen rest < Z.of_nat lf ->
  0 <= n -> n + zlen rest <= UINT32_MAX ->
  answers (fun x => faults (gc_msg_type ctx) x \/ exists insts inst post m,
      rest = flatten_insts insts ++ flatten_inst inst ++ post /\ insts_fit dict ctx g insts (Some delim) /\
      lacks_member dict ctx g inst (head_tag post) m /\ x = (wire_required_field_missing, Some m))
    (all_instances lf (zlen pre) n) (fun r => exists insts post, rest = flatten_insts insts ++ post /\
    r.1 = zlen pre + zlen (flatten_insts insts) /\ r.2 = n + zlen insts /\
    insts_fit dict ctx g insts (head_tag post) /\ head_tag post <> Some delim /\
    (insts <> [] -> group_ends dict ctx g (head_tag post))).
Proof using Hreq Hnested Hcap.
  unfold UINT32_MAX. induction lf as [|lf IH]; intros pre rest n Hr Hf Hn Hmax; [pose_zlen; lia|].
  destruct (decide (head_tag rest = Some delim)) as [Hd|Hd].
  2: { rewrite (walk_instances_stop lf pre rest) by done. exists [], rest. cbn [map concat app].
       split_and!; [done|cbn; by rewrite Z.add_0_r|cbn; by rewrite Z.add_0_r|constructor|done|done]. }
  rewrite (walk_instances_go lf pre rest) by done.
  pose proof (walk_instance_takes pre rest Hr Hd) as Hw.
  destruct (one_instance (zlen pre)) as [[i|x]|]; cbn [answers] in Hw |- *; [| |done].
  2: { destruct Hw as [Hw|(inst & post & m & -> & Hl & ->)]; [by left|right]. exists [], inst, post, m. split; [done|]. split; [constructor|done]. }
  destruct Hw as (inst & post & -> & -> & Hg & He). pose proof (good_inst_length _ _ Hg).
  rewrite zlen_app in Hf, Hmax. pose proof (zlen_nonneg post). rewrite wrap_small by lia. rewrite <- zlen_app.
  specialize (IH (pre ++ flatten_inst inst) post (n + 1) ltac:(by rewrite <- app_assoc) ltac:(lia)
    ltac:(lia) ltac:(lia)).
  assert (Hmore : forall insts next, insts_fit dict ctx g insts next ->
    head_tag post = match insts with [] => next | _ => Some delim end -> insts_fit dict ctx g (inst :: insts) next).
  { intros insts next Hi E. rewrite E in Hg. destruct Hg as (head & others & -> & H1 & H2 & H3 & H4).
    by constructor. }
  eapply answers_impl; [exact IH| |].
  2: { intros x [Hx|(insts & inst2 & post2 & m & -> & Hi & Hl & ->)]; [by left|right].
       exists (inst :: insts), inst2, post2, m. cbn [map concat]. split; [by rewrite app_assoc|]. split; [|done].
       apply Hmore; [exact Hi|]. destruct insts; [|by eapply insts_fit_head].
       destruct Hl as ((head & others & -> & Hd2 & _) & _). cbn [map concat app]. rewrite <- app_assoc.
       destruct (flatten_head head) as (v & l & ->). exact (f_equal Some Hd2). }
  intros [i c] (insts & post' & -> & Hi & Hc & Hf' & Hne & Hend). cbn in Hi, Hc |- *.
  exists (inst :: insts), post'. cbn [map concat]. rewrite zlen_cons, app_assoc. split_and!; try done.
  - rewrite Hi, !zlen_app. lia.
  - lia.
  - apply Hmore; [done|]. destruct insts as [|inst' insts]; [done|].
    by rewrite (insts_fit_head (inst' :: insts) (head_tag post')) by done.
  - intros _. destruct insts as [|inst' insts]; [|by apply Hend].
    cbn [map concat app] in He. unfold group_ends. destruct (head_tag post') as [u|]; [|done].
    destruct He as [->|He]; [done|]. split; [intros ->; by apply Hne|done].
Qed.

Lemma walk_instances_accepts insts : forall lf pre post n, reads t = pre ++ flatten_insts insts ++ post ->
  zlen (flatten_insts insts ++ post) < Z.of_nat lf -> 0 <= n -> n + zlen insts <= UINT32_MAX ->
  insts_fit dict ctx g insts (head_tag post) -> group_ends dict ctx g (head_tag post) ->
  all_instances lf (zlen pre) n = Some (Ok (zlen pre + zlen (flatten_insts insts), n + zlen insts)).
Proof using Hreq Hnested Hcap.
  unfold UINT32_MAX. induction insts as [|inst insts IH]; intros [|lf] pre post n Hr Hf Hn Hmax Hi Hend;
    try (pose_zlen; lia).
  - rewrite (walk_instances_stop lf pre post); [|done|].
    + cbn. by rewrite !Z.add_0_r.
    + unfold group_ends in Hend. destruct (head_tag post); [|done]. intros [= ->]. by destruct Hend.
  - apply inst_fits_good in Hi as [Hg Hi]. cbn [map concat] in *. rewrite <- app_assoc in *.
    set (post1 := flatten_insts insts ++ post) in *.
    assert (Hh : head_tag post1 = match insts with [] => head_tag post | _ => Some delim end).
    { unfold post1. destruct insts; [done|]. by eapply insts_fit_head. }
    rewrite <- Hh in Hg. pose proof (good_inst_length _ _ Hg).
    assert (Hd : head_tag (flatten_inst inst ++ post1) = Some delim).
    { destruct Hg as (head & others & -> & Hd & _). cbn [map concat].
      destruct (flatten_head head) as (v & l & ->). cbn. by rewrite Hd. }
    rewrite (walk_instances_go lf pre _ n Hr Hd).
    rewrite (walk_instance_accepts pre inst post1 Hr Hg).
    + rewrite zlen_cons, zlen_app in *. pose proof (zlen_nonneg insts). rewrite wrap_small by lia. rewrite <- zlen_app.
      rewrite (IH lf (pre ++ flatten_inst inst) post (n + 1)); try done; try lia.
      * rewrite !zlen_app. do 3 f_equal; lia.
      * by rewrite <- app_assoc.
      * fold post1. lia.
    + rewrite Hh. destruct insts; [|by left]. unfold group_ends in Hend. unfold members_end.
      destruct (head_tag post); [|done]. right. by destruct Hend.
Qed.
End OneGroup.

(** *** The group *)

(** A tree that starts on a group's count is that group. *)
Lemma group_node_inv ctx n post g v rest : is_group_tag dict ctx g = true ->
  (g, v) :: rest = flatten n ++ post -> node_fits dict true ctx n (head_tag post) ->
  exists insts, n = Group g v insts /\ rest = flatten_insts insts ++ post /\
    (insts = [] /\ parse_bounded_u32 v = 0 \/
     insts <> [] /\ parse_bounded_u32 v = zlen insts /\ zlen (ctx_required dict ctx g) <= kReqMaskCapacity /\
     group_ends dict ctx g (head_tag post) /\ insts_fit dict ctx g insts (head_tag post)).
Proof using.
  intros Hg Hr Hf. inversion Hf as [? ? g' v' ? Hl|? g' v' ? ? Hc|? g' v' insts ? ? Hne Hc Hcap He Hi]; subst;
    injection Hr as <- <- Hr.
  - by rewrite Hg in Hl.
  - exists []. split_and!; [done..|by left].
  - exists insts. split_and!; [done..|by right].
Qed.

(** All the instances of a group, from the first one on. *)
Lemma group_instances_take ctx g nested pre rest :
  (descends ctx g = true -> takes_groups (pushed ctx g) nested) ->
  zlen (ctx_required dict ctx g) <= kReqMaskCapacity -> reads t = pre ++ rest ->
  head_tag rest = Some (ctx_first_field dict ctx g) ->
  let r := walk_instances t (S (length (entries t))) nested (ctx_member dict ctx g)
    (fun tag => descends ctx g && is_group_tag dict (pushed ctx g) tag) (ctx_required dict ctx g)
    (ctx_first_field dict ctx g) (zlen (entries t)) (zlen pre) 0 in
  answers (fun x => faults (gc_msg_type ctx) x \/ exists insts inst post m,
      rest = flatten_insts insts ++ flatten_inst inst ++ post /\
      insts_fit dict ctx g insts (Some (ctx_first_field dict ctx g)) /\
      lacks_member dict ctx g inst (head_tag post) m /\ x = (wire_required_field_missing, Some m))
    r (fun r => exists insts post, rest = flatten_insts insts ++ post /\
    r = (zlen pre + zlen (flatten_insts insts), zlen insts) /\ insts <> [] /\
    group_ends dict ctx g (head_tag post) /\ insts_fit dict ctx g insts (head_tag post)) /\
  forall insts post, rest = flatten_insts insts ++ post -> insts_fit dict ctx g insts (head_tag post) ->
    group_ends dict ctx g (head_tag post) ->
    r = Some (Ok (zlen pre + zlen (flatten_insts insts), zlen insts)).
Proof using Hreq Hlen.
  intros Hn Hcap Hr Hd r. pose proof (f_equal zlen Hr) as Hz. rewrite reads_length, zlen_app in Hz.
  pose proof (zlen_nonneg pre) as Hp. unfold UINT32_MAX in Hlen. split.
  - eapply answers_impl.
    { apply (walk_instances_takes ctx g nested Hn Hcap _ pre rest 0 Hr (entries_room _ _ Hr)); unfold UINT32_MAX; lia. }
    2: done.
    intros [i n] (insts & post & -> & Hi & Hc & Hf & Hne & He). cbn [fst snd] in Hi, Hc.
    assert (insts <> []) by by intros ->.
    exists insts, post. split_and!; [done|by rewrite Hi, Hc|done|by apply He|done].
  - intros insts post -> Hf He. unfold r.
    assert (Hle : zlen insts <= zlen (flatten_insts insts)).
    { clear - Hf. induction insts as [|inst insts IH]; [done|]. apply inst_fits_good in Hf as [Hg Hf].
      apply good_inst_length in Hg. cbn [map concat]. rewrite zlen_cons, zlen_app. specialize (IH Hf). lia. }
    rewrite zlen_app in Hz. pose proof (zlen_nonneg post). cbn beta in Hle.
    rewrite (walk_instances_accepts ctx g nested Hn Hcap insts _ pre post 0 Hr (entries_room _ _ Hr));
      [done|lia|unfold UINT32_MAX; lia|done|done].
Qed.

(** The test in front of the first instance. *)
Lemma first_instance_test pre rest delim : reads t = pre ++ rest ->
  (zlen (entries t) <=? zlen pre) || negb (tag_at t (zlen pre) =? delim) =
    negb (bool_decide (head_tag rest = Some delim)).
Proof using.
  intros Hr. destruct (head_tag rest) as [u|] eqn:Eu.
  - destruct (reads_head t _ _ u Hr Eu) as [Hlt ->]. replace (_ <=? _) with false by lia. cbn [orb].
    case_bool_decide as Hb; [injection Hb as ->; by rewrite Z.eqb_refl|].
    replace (u =? _) with false; [done|]. symmetry. apply Z.eqb_neq. congruence.
  - rewrite (reads_end t _ _ Hr Eu), Z.leb_refl. by case_bool_decide.
Qed.

Lemma consume_group_takes fuel : forall ctx, gc_depth ctx <= kMaxGroupDepth ->
  kMaxGroupDepth - gc_depth ctx < Z.of_nat fuel ->
  takes_groups ctx (fun i => consume_group dict t fuel ctx i (zlen (entries t))).
Proof using Hreq Hlen.
  induction fuel as [|fuel IH]; intros ctx Hd Hf pre rest g Hr Hh Hg; [lia|].
  destruct rest as [|[g' v] rest]; [done|]. injection Hh as ->.
  destruct (reads_at t pre g v rest Hr) as [Htag Hcount].
  assert (Hr' : reads t = (pre ++ [(g, v)]) ++ rest) by (by rewrite <- app_assoc).
  assert (Hpre : zlen (pre ++ [(g, v)]) = zlen pre + 1) by (by rewrite zlen_app).
  cbn [consume_group]. cbv zeta. rewrite Htag, Hcount, <- Hpre, (first_instance_test _ rest _ Hr'). clear Htag Hcount.
  assert (Hinv := fun n post => group_node_inv ctx n post g v rest Hg).
  assert (Hblame : forall tag, group_fault dict ctx g v rest tag ->
    faults (gc_msg_type ctx) (wire_required_field_missing, Some tag)) by (intros tag Ht; by exists ctx, pre, g, v, rest, tag).
  destruct (parse_bounded_u32 v =? 0) eqn:E0.
  { split.
    - exists (Group g v []), rest. split_and!; [done..|]. apply empty_fits; [done|lia].
    - intros n post Hp Hn. destruct (Hinv n post Hp Hn) as (insts & -> & _ & [[-> _]|(Hne & Hc & _)]); [by rewrite Hpre|].
      apply zlen_pos in Hne. lia. }
  case_bool_decide as Hd1; cbn [negb].
  2: { split; [apply Hblame; split; [lia|]; left; by auto|]. intros n post Hp Hn.
       destruct (Hinv n post Hp Hn) as (insts & -> & -> & [[_ ?]|(Hne & _ & _ & _ & Hi)]); [lia|].
       destruct Hd1. by eapply insts_fit_head. }
  destruct (kReqMaskCapacity <? zlen (ctx_required dict ctx g)) eqn:Ecap.
  { split; [apply Hblame; split; [lia|]; left; split; [done|right; left; lia]|]. intros n post Hp Hn.
    destruct (Hinv n post Hp Hn) as (insts & _ & _ & [[_ ?]|(_ & _ & ? & _)]); lia. }
  destruct (descends_eq ctx g Hd) as (_ & Hd2 & Hd3).
  assert (Hn : descends ctx g = true -> takes_groups (pushed ctx g)
    (fun i => consume_group dict t fuel (pushed ctx g) i (zlen (entries t)))).
  { intros Ho. apply Hd3 in Ho. apply IH; lia. }
  destruct (group_instances_take ctx g _ _ rest Hn ltac:(lia) Hr' Hd1) as [Hw Ha].
  change (fun tag => (gc_depth ctx <? _) && _) with (fun tag => descends ctx g && is_group_tag dict (pushed ctx g) tag).
  assert (Hall : forall insts post, rest = flatten_insts insts ++ post ->
    zlen (pre ++ [(g, v)]) + zlen (flatten_insts insts) = zlen pre + zlen (flatten (Group g v insts))).
  { intros insts post _. cbn [flatten]. rewrite zlen_cons, Hpre. lia. }
  split.
  - destruct (walk_instances t _ _ _ _ _ _ _ _ _) as [[[i n]|x]|]; cbn [answers] in Hw |- *; [| |done].
    2: { destruct Hw as [Hw|(insts & inst & post & m & -> & Hi & Hl & ->)]; [done|]. apply Hblame. split; [lia|].
         right. by exists insts, inst, post. }
    destruct Hw as (insts & post & -> & [= -> ->] & Hne & He & Hi).
    destruct (zlen insts =? _) eqn:Ec; cbn [negb answers].
    2: { apply Hblame. split; [lia|]. left. split; [done|]. right. right. exists insts, post. split_and!; try done. lia. }
    exists (Group g v insts), post. split_and!; [done|by eapply Hall|]. apply group_fits; (done || lia).
  - intros n post Hp Hfit. destruct (Hinv n post Hp Hfit) as (insts & -> & Hrest & [[_ ?]|(Hne & Hc & _ & He & Hi)]); [lia|].
    rewrite (Ha insts post Hrest Hi He), <- Hc, Z.eqb_refl. cbn [negb]. by rewrite <- (Hall insts post Hrest).
Qed.

(** *** The level *)

Lemma level_takes lf : forall ctx pre rest, gc_depth ctx <= kMaxGroupDepth -> reads t = pre ++ rest ->
  zlen rest < Z.of_nat lf ->
  let r := validate_group_level dict t lf ctx (zlen pre) (zlen (entries t)) in
  answers (faults (gc_msg_type ctx)) r (fun e => e = zlen (entries t) /\ level_fits dict ctx rest) /\
  (level_fits dict ctx rest -> r = Some (Ok (zlen (entries t)))).
Proof using Hreq Hlen.
  induction lf as [|lf IH]; intros ctx pre rest Hd Hr Hf; [pose_zlen; lia|]. cbn [validate_group_level].
  destruct (head_tag rest) as [g|] eqn:Eg.
  2: { rewrite (reads_end t pre rest Hr Eg), Z.ltb_irrefl. cbn [negb]. cbv zeta. destruct rest; [|done].
       split; [split; [done|]; exists []; split; [done|constructor]|done]. }
  destruct (reads_head t pre rest g Hr Eg) as [Hlt ->].
  replace (zlen pre <? zlen (entries t)) with true by lia. cbn [negb].
  set (consumed := if ctx_first_field dict ctx g =? 0 then _ else _).
  assert (Hg : takes_groups ctx (fun i => consume_group dict t (S (S (Z.to_nat kMaxGroupDepth))) ctx i (zlen (entries t)))).
  { apply consume_group_takes; [done|]. unfold gc_depth, kMaxGroupDepth. pose_zlen. lia. }
  destruct (step_takes true ctx _ pre rest g (fun _ => Hg) Hr Eg) as [Ht Ha].
  assert (Hc : consumed = match (if true && is_group_tag dict ctx g
      then consume_group dict t (S (S (Z.to_nat kMaxGroupDepth))) ctx (zlen pre) (zlen (entries t))
      else Some (Ok (zlen pre + 1))) with
    | None => None
    | Some (Err x) => Some (Err x)
    | Some (Ok i) => validate_group_level dict t lf ctx i (zlen (entries t))
    end).
  { unfold consumed, is_group_tag. cbn [andb]. by destruct (_ =? 0). }
  rewrite Hc. clear Hc consumed. cbv beta in Ht, Ha.
  destruct (if true && _ then _ else _) as [[i|x]|]; cbn [answers] in Ht |- *; [|clear IH|done].
  - destruct Ht as (n & post & -> & -> & Hn). pose proof (flatten_length n) as Hl. rewrite zlen_app in Hf.
    destruct (IH ctx (pre ++ flatten n) post Hd ltac:(by rewrite <- app_assoc) ltac:(lia)) as [IH1 IH2].
    rewrite zlen_app in IH1, IH2. split.
    + eapply answers_impl; [exact IH1| |done]. intros e [-> (ns & -> & Hns)]. split; [done|].
      exists (n :: ns). split; [done|]. constructor; [|done]. by rewrite <- (app_nil_r (concat _)), head_tag_nodes in Hn.
    + intros (ns & Hr' & Hns). apply IH2. destruct ns as [|n' ns]; [destruct (flatten_head n) as (v & l & E); by rewrite E in Hr'|].
      inversion Hns as [|? ? ? ? ? Hn' Hns']; subst. cbn [map concat] in Hr'.
      assert (Hn'' : node_fits dict true ctx n' (head_tag (concat (map flatten ns)))).
      { by rewrite <- (app_nil_r (concat _)), head_tag_nodes. }
      specialize (Ha n' _ Hr' Hn'') as Hi. injection Hi as Hi.
      apply app_inj_1 in Hr' as [_ ->]; [by exists ns|unfold zlen in Hi; lia].
  - split; [exact Ht|]. intros (ns & -> & Hns). destruct ns as [|n ns]; [done|].
    inversion Hns as [|? ? ? ? ? Hn Hns']; subst. cbn [map concat] in Ha.
    specialize (Ha n _ eq_refl ltac:(by rewrite <- (app_nil_r (concat _)), head_tag_nodes)). done.
Qed.
End Accepts.

(** ** Properties *)

(** C13: the group walk of the validator is total and decides the grammar.  Over any index and
    any dictionary of a builder it ends, and it passes the message exactly when its fields can
    be cut into fields and groups that fit the dictionary in their context, nested groups
    included: every group opens each instance with its delimiter, has as many instances as its
    count says, holds every required member in each, in any order, and ends where its fields
    end.  A refusal names a tag. *)
Theorem groups_exact ops t mt :
  zlen (entries t) <= UINT32_MAX ->
  let dict := build_table ops in
  let root := GroupContext mt [] in
  let r := validate_group_level dict t (S (length (entries t))) root 0 (zlen (entries t)) in
  (r = Some (Ok (zlen (entries t))) <-> level_fits dict root (reads t)) /\
  (r = Some (Ok (zlen (entries t))) \/ exists tag, r = Some (Err (wire_required_field_missing, Some tag))).
Proof.
  intros Hn dict root. cbv zeta.
  destruct (level_takes dict t Hn (S (length (entries t))) root [] (reads t)) as [Hr Ha];
    [done|done|rewrite reads_length; unfold zlen; lia|].
  change (zlen (@nil (Z * bytes))) with 0 in Hr, Ha.
  destruct (validate_group_level _ _ _ _ _ _) as [[e|x]|]; cbn [answers] in Hr; [| |done].
  - destruct Hr as [-> Hl]. split; [|by left]. by split.
  - destruct Hr as (_ & _ & _ & _ & _ & tag & _ & _ & _ & _ & ->). split; [|right; by exists tag]. split; [done|]. intros Hl. by specialize (Ha Hl).
Qed.

(** PartyIDs(453) of message D: PartyID(448) first and required, PartyIDSource(447), and the
    nested PartySubIDs(802) with PartySubID(523). *)
Definition party_ops : list builder_op :=
  [SetGroupFirstCtx [68] [] 453 448; AddGroupMemberCtx [68] [] 453 447; AddGroupMemberCtx [68] [] 453 802;
   AddGroupRequiredMemberCtx [68] [] 453 448; AddGroupRequiredMemberCtx [68] [] 453 447;
   SetGroupFirstCtx [68] [453] 802 523].

(** [453=2|448=A|802=1|523=x|447=D|448=B|447=C|54=1]: the required 447 behind a nested group. *)
Definition party_fields : list (Z * bytes) :=
  [(453, [50]); (448, [65]); (802, [49]); (523, [120]); (447, [68]); (448, [66]); (447, [67]); (54, [49])].

Definition party_table (fs : list (Z * bytes)) : OffsetTable :=
  build new_delete_resource table_config_default no_hooks 7 (fields_bytes fs) 0.

(** The same message without the second 447 is refused: no cut of its fields fits. *)
Lemma groups_exact_witness :
  level_fits (build_table party_ops) (GroupContext [68] []) (reads (party_table party_fields)) /\
  ~ level_fits (build_table party_ops) (GroupContext [68] []) (reads (party_table (take 6 party_fields))).
Proof.
  split.
  - apply (groups_exact party_ops (party_table party_fields) [68]); [vm_compute; discriminate|].
    vm_compute. reflexivity.
  - intros H. apply (groups_exact party_ops (party_table (take 6 party_fields)) [68]) in H; [|vm_compute; discriminate].
    vm_compute in H. discriminate H.
Defined.
