(* ===== verification/MessageCheck.v ===== *)
(** What the validator answers for a whole message, [include/fixpp/wire/validator.hpp]: the
    walk over the fields, the required fields and the groups put together, against the fields
    of the frame. *)
From S2P Require Import Prelude Errors TagScan PairTable LengthData VersionProfile Writer Decimal.
From S2P Require Import FrameHeader OffsetTable GroupIndex FieldIterator TableView Validator GroupGrammar.

(** ** What a message must be *)

(** A value of a type: a number where one is asked for, a lone minus sign included. *)
Definition type_fits (ft : field_type) (v : bytes) : Prop :=
  match ft with
  | ft_Float => exists d, from_chars v = Ok d
  | ft_Int => exists ds, digits ds /\ (v = 45 :: ds \/ v = ds /\ ds <> [])
  | ft_Char => exists c, v = [c]
  | ft_Length => digits v /\ v <> []
  | ft_String | ft_Boolean | ft_Data => True
  end.

Definition value_fits (ops : list builder_op) (tag : Z) (v : bytes) : Prop :=
  enum_reference (declared_codes ops tag) (declared_multi ops tag) v = true /\
  type_fits (field_type_of_with_framing (build_table ops) tag) v.

(** A field of a message: of the envelope's header, or one the dictionary knows there. *)
Definition field_fits (ops : list builder_op) (envelope : option (list builder_op)) (mt : bytes)
    (f : Z * bytes) : Prop :=
  let routed := (field_valid_for (build_table ops) mt f.1 || is_fixt_framing_tag (build_table ops) f.1) = true /\
                value_fits ops f.1 f.2 in
  match envelope with
  | Some env => if is_header_tag (build_table env) f.1 && negb (is_route_answered_header_tag f.1)
                then value_fits env f.1 f.2 else routed
  | None => routed
  end.

(** *** What a refusal names *)

(** The wire layer's slot for a value its type does not allow: a number with more digits than
    a decimal keeps is a slot of its own. *)
Definition type_slot (ft : field_type) (v : bytes) : error :=
  match ft with
  | ft_Float => match from_chars v with
                | Err decimal_precision_loss => wire_field_value_truncated
                | _ => wire_field_value_out_of_range
                end
  | _ => wire_field_value_out_of_range
  end.

(** A value that is refused: not one of the codes, or none of its type. *)
Definition value_refused (ops : list builder_op) (tag : Z) (v : bytes) (e : error) : Prop :=
  if enum_reference (declared_codes ops tag) (declared_multi ops tag) v
  then ~ type_fits (field_type_of_with_framing (build_table ops) tag) v /\
       e = type_slot (field_type_of_with_framing (build_table ops) tag) v
  else e = wire_field_value_out_of_range.

(** A field that is refused: one the message may not carry, or with such a value. *)
Definition field_refused (ops : list builder_op) (envelope : option (list builder_op)) (mt : bytes)
    (f : Z * bytes) (e : error) : Prop :=
  let routed := if field_valid_for (build_table ops) mt f.1 || is_fixt_framing_tag (build_table ops) f.1
                then value_refused ops f.1 f.2 e else e = wire_unexpected_tag in
  match envelope with
  | Some env => if is_header_tag (build_table env) f.1 && negb (is_route_answered_header_tag f.1)
                then value_refused env f.1 f.2 e else routed
  | None => routed
  end.

(** The fields, then the fault if there is one. *)
Fixpoint check_each (check : Z -> bytes -> verdict unit) (fs : list (Z * bytes)) (fault : field_fault * Z)
  : verdict unit :=
  match fs with
  | [] => match fault.1 with fault_none => Ok tt | _ => Err (field_fault_error fault) end
  | f :: fs => match check f.1 f.2 with Ok _ => check_each check fs fault | Err x => Err x end
  end.

(** ** Lemmas *)

(** *** One field *)

Lemma all_digits_digits v : all_digits v = true <-> digits v.
Proof.
  unfold all_digits. rewrite forallb_forall, List.Forall_forall. unfold is_digit.
  split; intros H c Hc; specialize (H c Hc); lia.
Qed.

Lemma check_field_type_fits t tag v :
  (exists u, check_field_type t tag v = Ok u) <-> type_fits (field_type_of_with_framing t tag) v.
Proof.
  unfold check_field_type, type_fits. destruct (field_type_of_with_framing t tag).
  - split; [by intros _|by exists tt].
  - destruct v as [|c v]; [split; [by intros []|intros (ds & _ & [?|[<- ?]]); done]|].
    destruct (c =? 45) eqn:E.
    + replace c with 45 by lia. destruct (all_digits v) eqn:Ev.
      * apply all_digits_digits in Ev. split; [|by exists tt]. intros _. exists v. by auto.
      * split; [by intros []|]. intros (ds & Hd & [[= ->]|[<- _]]).
        -- apply all_digits_digits in Hd. congruence.
        -- by apply Forall_cons in Hd as [? _].
    + destruct (all_digits (c :: v)) eqn:Ev.
      * apply all_digits_digits in Ev. split; [|by exists tt]. intros _. exists (c :: v). by auto.
      * split; [by intros []|]. intros (ds & Hd & [[= -> _]|[<- _]]); [lia|].
        apply all_digits_digits in Hd. congruence.
  - split; [|intros [d ->]; by exists tt]. destruct (from_chars v) as [d|e]; [by exists d|]. by destruct e; intros [].
  - destruct v as [|c [|c' v]].
    + split; [by intros []|by intros []].
    + split; [by exists c|by exists tt].
    + rewrite !zlen_cons. pose proof (zlen_nonneg v). replace (_ =? 1) with false by lia.
      split; [by intros []|by intros []].
  - split; [done|by exists tt].
  - split; [done|by exists tt].
  - destruct v as [|c v]; [split; [by intros []|by intros [_ ?]]|].
    pose proof (all_digits_digits (c :: v)) as Hd. destruct (all_digits (c :: v)).
    + split; [|by exists tt]. intros _. split; [by apply Hd|done].
    + split; [by intros []|]. intros [H _]. by apply Hd in H.
Qed.

Lemma check_value_fits ops tag v : Forall op_ok ops -> 0 <= tag -> wf_bytes v ->
  check_value (build_table ops) tag v = Ok tt <-> value_fits ops tag v.
Proof.
  intros Hops Ht Hv. unfold check_value, value_fits. rewrite (built_enum_valid ops tag v Hops Ht Hv).
  pose proof (check_field_type_fits (build_table ops) tag v) as Hc.
  destruct (enum_reference _ _ _); cbn [negb]; [|by split; [|intros []]].
  rewrite <- Hc. destruct (check_field_type _ _ _) as [u|e].
  - split; [|done]. intros _. split; [done|by exists u].
  - split; [done|]. by intros [_ []].
Qed.

Lemma valid_tags_eq t mt tag : valid_tags_for t mt tag = field_valid_for t mt tag.
Proof. unfold valid_tags_for, field_valid_for. by destruct (_ !! mt). Qed.

(** A dictionary of the engine: a builder's table, with an envelope's beside it or not. *)
Abbreviation tables := (option (list builder_op)).

Lemma check_field_fits ops (envelope : tables) mt f : Forall op_ok ops ->
  (forall env, envelope = Some env -> Forall op_ok env) -> 0 <= f.1 -> wf_bytes f.2 ->
  check_field (build_table ops) (valid_tags_for (build_table ops) mt) (build_table <$> envelope) f.1 f.2 = Ok tt <->
    field_fits ops envelope mt f.
Proof.
  intros Hops Henv Ht Hv. unfold check_field, field_fits. rewrite valid_tags_eq, <- negb_orb.
  assert (Hr : (if negb (field_valid_for (build_table ops) mt f.1 || is_fixt_framing_tag (build_table ops) f.1)
      then Err (wire_unexpected_tag, Some f.1) else check_value (build_table ops) f.1 f.2) = Ok tt <->
    (field_valid_for (build_table ops) mt f.1 || is_fixt_framing_tag (build_table ops) f.1) = true /\
      value_fits ops f.1 f.2).
  { rewrite <- (check_value_fits ops f.1 f.2 Hops Ht Hv). destruct (_ || _); cbn [negb]; naive_solver. }
  destruct envelope as [env|]; cbn [fmap option_fmap option_map]; [|exact Hr].
  destruct (_ && _); [|exact Hr]. by apply check_value_fits; [apply Henv| |].
Qed.

Lemma check_each_ok check fs fault :
  check_each check fs fault = Ok tt <-> fault.1 = fault_none /\ Forall (fun f => check f.1 f.2 = Ok tt) fs.
Proof.
  induction fs as [|f fs IH]; cbn [check_each].
  - destruct fault as [[] ?]; cbn; split; try (by intros [? _]); done.
  - rewrite Forall_cons. destruct (check f.1 f.2) as [[]|x]; [rewrite IH; tauto|]. split; [done|by intros (_ & ? & _)].
Qed.

(** *** The walk over the fields *)

Section Walk.
Context (dict : table_view) (valid_tags : Z -> bool) (envelope : option table_view).
Context (h : dict_hooks) (buf : bytes) `{Hu : !hooks_unchained h}.

(** The walk checks the fields the strict scan reads, one by one, and then its fault. *)
Lemma check_fields_split : forall fuel i carry c prev fs kind lt off,
  0 <= i <= zlen buf -> carry_alike carry c ->
  (carry_data_tag c <> 0 -> data_tag_for_length h (carry_data_tag c) = 0) ->
  zlen buf - i <= Z.of_nat fuel -> split_loop fuel h buf i c prev = (fs, (kind, lt, off)) ->
  check_fields (S fuel) dict valid_tags envelope h buf (Iterator i carry prev (fault_none, 0)) =
    Some (check_each (check_field dict valid_tags envelope) fs (kind, lt)) /\
  fault_scan (S fuel) h buf (Iterator i carry prev (fault_none, 0)) = Some (kind, lt).
Proof using Hu.
  induction fuel as [|fuel IH]; intros i carry c prev fs kind lt off Hi Ha Hd Hf.
  { cbn [split_loop check_fields fault_scan]. intros [= <- <- <- _]. unfold iter_advance. cbn [it_next it_fault].
    by replace (zlen buf <=? i) with true by lia. }
  remember (S fuel) as n eqn:En. cbn [check_fields fault_scan]. rewrite En. cbn [split_loop].
  destruct (zlen buf <=? i) eqn:E.
  { intros [= <- <- <- _]. unfold iter_advance. cbn [it_next it_fault]. by rewrite E. }
  pose proof (iter_advance_split h buf i carry c prev Hu ltac:(lia) Ha Hd) as Hs. cbn zeta in Hs.
  destruct (read_tag buf i) as [[tag vs]|] eqn:Et.
  2: { intros [= <- <- <- _]. destruct (iter_advance _ _ _) as [field it']. cbn in Hs |- *. rewrite Hs. by destruct field. }
  pose proof (read_tag_progress _ _ _ _ Hi Et) as [Hv _].
  destruct (read_value h c buf vs tag) as [[ext|] c'] eqn:Er.
  2: { intros [= <- <- <- _]. destruct (iter_advance _ _ _) as [field it']. cbn in Hs |- *. rewrite Hs. by destruct field. }
  destruct Hs as (carry' & -> & Ha' & Hd'). cbn [it_fault fst].
  pose proof (read_value_end h c buf vs tag ext c' ltac:(lia) (proj2 (proj2 Ha)) Er) as He.
  destruct (split_loop fuel h buf _ c' tag) as [fs' r] eqn:Es. intros [= <- ->]. cbn [check_each fst snd].
  rewrite <- En. eapply (IH _ carry') in Es as [Hc Hsc]; [|unfold skip_soh; case_tests; lia|done|done|unfold skip_soh; case_tests; lia].
  split; [|exact Hsc]. destruct (check_field _ _ _ _ _); [exact Hc|done].
Qed.

Lemma check_frame_split fs kind lt off : split_fields buf h = (fs, (kind, lt, off)) ->
  check_fields (S (length buf)) dict valid_tags envelope h buf (Iterator 0 (0, 0) 0 (fault_none, 0)) =
    Some (check_each (check_field dict valid_tags envelope) fs (kind, lt)) /\
  fault_scan (S (length buf)) h buf (Iterator 0 (0, 0) 0 (fault_none, 0)) = Some (kind, lt).
Proof using Hu.
  apply (check_fields_split _ 0 (0, 0) carry_init 0); [pose_zlen; lia|by repeat split|done|unfold zlen; lia].
Qed.
End Walk.

(** The fields of a scan have tags that are not negative and values of bytes. *)
Lemma split_loop_sane fuel h buf i carry prev : wf_bytes buf -> 0 <= i ->  0 <= carry_count carry ->
  Forall (fun f => 0 <= f.1 /\ wf_bytes f.2) (split_loop fuel h buf i carry prev).1.
Proof.
  intros Hw. revert i carry prev. induction fuel as [|fuel IH]; intros i carry prev Hi Hc; cbn [split_loop]; [constructor|].
  destruct (zlen buf <=? i) eqn:E; [constructor|].
  destruct (read_tag buf i) as [[tag vs]|] eqn:Et; [|constructor].
  apply read_tag_progress in Et as [Hv Ht]; [|lia].
  destruct (read_value h carry buf vs tag) as [[ext|] carry'] eqn:Er; [|constructor].
  assert (vs <= ve_end ext <= zlen buf) by (eapply read_value_end; [|exact Hc|exact Er]; lia).
  pose proof (read_value_count _ _ _ _ _ _ _ Hc Er) as Hc'.
  pose proof (skip_soh_range buf (ve_end ext) ltac:(lia)) as Hs.
  specialize (IH (skip_soh buf (ve_end ext)) carry' tag ltac:(lia) Hc').
  destruct (split_loop fuel h buf _ carry' tag) as [fs r]. cbn [fst] in IH |- *. constructor; [|exact IH].
  split; [cbn; lia|]. cbn. by apply wf_bytes_take, wf_bytes_drop.
Qed.

Lemma split_fields_sane buf h fs r : wf_bytes buf -> split_fields buf h = (fs, r) ->
  Forall (fun f => 0 <= f.1 /\ wf_bytes f.2) fs.
Proof.
  intros Hw E. pose proof (split_loop_sane (length buf) h buf 0 carry_init 0 Hw ltac:(lia) ltac:(done)) as H.
  unfold split_fields in E. by rewrite E in H.
Qed.

(** *** The view *)

(** A view whose index holds the fields [fs] of its frame, few enough for every tag to be
    found. *)
Record indexed (v : message_view) (fs : list (Z * bytes)) : Prop := {
  ix_built : built (mv_offsets v);
  ix_base : frame_base (mv_offsets v) = mv_bytes v;
  ix_located : located (mv_bytes v) 0 (entries (mv_offsets v)) fs;
  ix_tags : (length (remove_dups (map fst fs)) <= 128)%nat;
}.

Lemma first_value_app tag fs1 v fs2 d : tag ∉ map fst fs1 -> first_value tag (fs1 ++ (tag, v) :: fs2) d = v.
Proof.
  induction fs1 as [|f fs1 IH]; cbn [app first_value map]; [by rewrite Z.eqb_refl|].
  intros Hn. apply not_elem_of_cons in Hn as [Hn Hn']. replace (f.1 =? tag) with false by lia. by apply IH.
Qed.

Lemma first_value_none tag fs d : tag ∉ map fst fs -> first_value tag fs d = d.
Proof.
  induction fs as [|f fs IH]; cbn [first_value map]; [done|].
  intros Hn. apply not_elem_of_cons in Hn as [Hn Hn']. replace (f.1 =? tag) with false by lia. by apply IH.
Qed.

(** [get] answers the first field with the tag. *)
Lemma view_get_spec v fs tag : indexed v fs ->
  match view_get v tag with
  | Ok b => tag ∈ map fst fs /\ forall d, first_value tag fs d = b
  | Err _ => tag ∉ map fst fs
  end.
Proof.
  intros [Hb _ Hl Ht]. unfold view_get. pose proof (located_tags _ _ _ _ Hl) as Hm.
  destruct (find_spec (mv_offsets v) tag Hb) as [->|[-> Hc]]; [|unfold distinct_tags in Hc; rewrite Hm in Hc; lia].
  destruct (first_entry _ tag) as [e|] eqn:E.
  - destruct (located_lookup _ 0 _ fs tag e ltac:(lia) Hl E) as (fs1 & w & fs2 & -> & Hn & <-).
    split; [|intros d; by apply first_value_app]. rewrite map_app, elem_of_app. right. apply elem_of_cons. by left.
  - apply first_entry_none in E. by rewrite Hm in E.
Qed.

Lemma view_msg_type_spec v fs : indexed v fs -> view_msg_type v = first_value 35 fs [].
Proof.
  intros Hv. pose proof (view_get_spec v fs 35 Hv) as H. unfold view_msg_type.
  destruct (view_get v 35) as [b|]; [symmetry; apply H|]. symmetry. by apply first_value_none.
Qed.

Lemma check_required_spec v fs req : indexed v fs ->
  check_required v req = Ok tt <-> Forall (fun tag => is_framing_tag tag = true \/ tag ∈ map fst fs) req.
Proof.
  intros Hv. induction req as [|tag req IH]; cbn [check_required]; [by split; [constructor|]|].
  rewrite Forall_cons, <- IH. destruct (is_framing_tag tag); [naive_solver|].
  pose proof (view_get_spec v fs tag Hv) as H. destruct (view_get v tag) as [b|e]; cbn [is_ok]; [naive_solver|].
  split; [done|]. intros [[?|?] _]; done.
Qed.

(** Nothing but framing stands in front of MsgType. *)
Definition header_in_order (tags : list Z) : Prop :=
  forall pre tag post, tags = pre ++ tag :: post -> Forall (fun t => is_framing_tag t = true) pre ->
    is_framing_tag tag = false -> tag = 35.

Lemma header_ordered_spec tags : header_ordered tags = true <-> header_in_order tags.
Proof.
  induction tags as [|tag tags IH]; cbn [header_ordered].
  { split; [|done]. by intros _ [|] ? ?. }
  destruct (is_framing_tag tag) eqn:E.
  - rewrite IH. split.
    + intros H [|t pre] u post [= -> Hp] Hf Hu; [congruence|]. apply Forall_cons in Hf as [_ Hf]. by eapply H.
    + intros H pre u post -> Hf Hu. apply (H (tag :: pre) u post); [done|by constructor|done].
  - split.
    + intros H [|t pre] u post [= -> Hp] Hf Hu; [lia|]. apply Forall_cons in Hf as [Hf _]. congruence.
    + intros H. specialize (H [] tag tags eq_refl (Forall_nil_2 _) E). lia.
Qed.

(** *** Refusals *)

Lemma check_field_type_refuses t tag v e : check_field_type t tag v = Err e ->
  ~ type_fits (field_type_of_with_framing t tag) v /\ e = type_slot (field_type_of_with_framing t tag) v.
Proof.
  intros E. split; [intros H%check_field_type_fits; destruct H; congruence|].
  revert E. unfold check_field_type, type_slot. destruct (field_type_of_with_framing t tag); try done;
    repeat case_match; repeat case_bool_decide; congruence.
Qed.

Lemma check_value_refuses ops tag v x : Forall op_ok ops -> 0 <= tag -> wf_bytes v ->
  check_value (build_table ops) tag v = Err x -> exists e, x = (e, Some tag) /\ value_refused ops tag v e.
Proof.
  intros Hops Ht Hv. unfold check_value, value_refused. rewrite (built_enum_valid ops tag v Hops Ht Hv).
  destruct (enum_reference _ _ _); cbn [negb]; [|intros [= <-]; by eexists].
  destruct (check_field_type _ _ _) as [u|e] eqn:E; [done|]. intros [= <-]. apply check_field_type_refuses in E. by eexists.
Qed.

Lemma check_field_refuses ops (envelope : tables) mt f x : Forall op_ok ops ->
  (forall env, envelope = Some env -> Forall op_ok env) -> 0 <= f.1 -> wf_bytes f.2 ->
  check_field (build_table ops) (valid_tags_for (build_table ops) mt) (build_table <$> envelope) f.1 f.2 = Err x ->
  exists e, x = (e, Some f.1) /\ field_refused ops envelope mt f e.
Proof.
  intros Hops Henv Ht Hv. unfold check_field, field_refused. rewrite valid_tags_eq, <- negb_orb.
  assert (Hr : (if negb (field_valid_for (build_table ops) mt f.1 || is_fixt_framing_tag (build_table ops) f.1)
      then Err (wire_unexpected_tag, Some f.1) else check_value (build_table ops) f.1 f.2) = Err x ->
    exists e, x = (e, Some f.1) /\
      if field_valid_for (build_table ops) mt f.1 || is_fixt_framing_tag (build_table ops) f.1
      then value_refused ops f.1 f.2 e else e = wire_unexpected_tag).
  { destruct (_ || _); cbn [negb]; [by apply check_value_refuses|]. intros [= <-]. by eexists. }
  destruct envelope as [env|]; cbn [fmap option_fmap option_map]; [|exact Hr].
  destruct (_ && _); [|exact Hr]. by apply check_value_refuses; [apply Henv| |].
Qed.

Lemma check_each_refuses check fs fault x : check_each check fs fault = Err x ->
  (exists pre f post, fs = pre ++ f :: post /\ Forall (fun f => check f.1 f.2 = Ok tt) pre /\ check f.1 f.2 = Err x) \/
  Forall (fun f => check f.1 f.2 = Ok tt) fs /\ fault.1 <> fault_none /\ x = field_fault_error fault.
Proof.
  induction fs as [|f fs IH]; cbn [check_each].
  - destruct fault as [[] ?]; cbn; [done|intros [= <-]; by right..].
  - destruct (check f.1 f.2) as [[]|y] eqn:E.
    + intros [(pre & g & post & -> & Hp & Hg)|(Hall & Hf)]%IH; [left|right; split; [by constructor|done]].
      exists (f :: pre), g, post. split; [done|]. split; [by constructor|done].
    + intros [= ->]. left. by exists [], f, fs.
Qed.

Lemma check_required_refuses v fs req x : indexed v fs -> check_required v req = Err x ->
  exists r1 tag r2, req = r1 ++ tag :: r2 /\ Forall (fun t => is_framing_tag t = true \/ t ∈ map fst fs) r1 /\
    is_framing_tag tag = false /\ tag ∉ map fst fs /\ x = (wire_required_field_missing, Some tag).
Proof.
  intros Hv. induction req as [|tag req IH]; cbn [check_required]; [done|].
  pose proof (view_get_spec v fs tag Hv) as H.
  assert (Hgo : is_framing_tag tag = true \/ tag ∈ map fst fs -> check_required v req = Err x ->
    exists r1 t r2, tag :: req = r1 ++ t :: r2 /\ Forall (fun t => is_framing_tag t = true \/ t ∈ map fst fs) r1 /\
      is_framing_tag t = false /\ t ∉ map fst fs /\ x = (wire_required_field_missing, Some t)).
  { intros Ht (r1 & t & r2 & -> & Hr & Hx)%IH. exists (tag :: r1), t, r2. split; [done|]. split; [by constructor|done]. }
  destruct (is_framing_tag tag) eqn:E; [by apply Hgo; left|].
  destruct (view_get v tag) as [b|e]; cbn [is_ok]; [apply Hgo; right; apply H|].
  intros [= <-]. by exists [], tag, req.
Qed.

(** *** Every walk ends *)

(** The answers [validate] can give: the slots of the wire layer, with the tag at fault
    wherever one is known. *)
Definition wire_refusal (x : error * option Z) : Prop :=
  (x.1 = wire_header_out_of_order \/ x.1 = wire_invalid_tag_number) /\ x.2 = None \/
  (x.1 = wire_length_data_mismatch \/ x.1 = wire_unexpected_tag \/ x.1 = wire_field_value_out_of_range \/
   x.1 = wire_field_value_truncated \/ x.1 = wire_required_field_missing) /\ exists tag, x.2 = Some tag.

Definition settled {A} (r : option (verdict A)) : Prop :=
  match r with Some (Ok _) => True | Some (Err x) => wire_refusal x | None => False end.

Lemma fault_refusal fault : wire_refusal (field_fault_error fault).
Proof. destruct fault as [[] tag]; [left|left|right]; cbn; eauto. Qed.

Lemma check_field_settled dict valid_tags envelope tag v :
  settled (Some (check_field dict valid_tags envelope tag v)).
Proof.
  assert (Hv : forall t, settled (Some (check_value t tag v))).
  { intros t. unfold check_value, check_field_type.
    repeat (case_match; simplify_eq; try exact I); right; cbn; eauto 10. }
  unfold check_field. destruct envelope as [env|]; repeat case_match; auto; right; cbn; eauto 10.
Qed.

Section Ends.
Context (h : dict_hooks) (buf : bytes).

Lemma check_fields_settled dict valid_tags envelope : forall fuel it, 0 <= it_next it -> 0 <= (it_carry it).2 ->
  zlen buf - it_next it < Z.of_nat fuel -> it_next it <= zlen buf ->
  settled (check_fields fuel dict valid_tags envelope h buf it).
Proof using.
  induction fuel as [|fuel IH]; intros it Hn Hc Hf Hle; [lia|]. cbn [check_fields].
  destruct (iter_advance h buf it) as [[[tag v]|] it'] eqn:E.
  - apply iter_advance_progress in E as [Hp Hc']; [|done..]. pose proof (check_field_settled dict valid_tags envelope tag v) as Hs.
    destruct (it_fault it').1; try apply fault_refusal. destruct (check_field _ _ _ _ _); [|exact Hs]. apply IH; lia.
  - destruct (it_fault it').1; try apply fault_refusal. exact I.
Qed.

Lemma fault_scan_total : forall fuel it, 0 <= it_next it -> 0 <= (it_carry it).2 ->
  zlen buf - it_next it < Z.of_nat fuel -> it_next it <= zlen buf -> exists f, fault_scan fuel h buf it = Some f.
Proof using.
  induction fuel as [|fuel IH]; intros it Hn Hc Hf Hle; [lia|]. cbn [fault_scan].
  destruct (iter_advance h buf it) as [[field|] it'] eqn:E; [|by eexists].
  apply iter_advance_progress in E as [Hp Hc']; [|done..]. destruct (it_fault it').1; [|by eexists..]. apply IH; lia.
Qed.
End Ends.

Lemma check_required_settled v req : settled (Some (check_required v req)).
Proof.
  induction req as [|tag req IH]; cbn [check_required]; [done|]. destruct (is_framing_tag tag); [done|].
  destruct (is_ok _); [done|]. right. cbn. eauto 10.
Qed.

(** *** The message *)

(** A message the dictionary accepts: the fields the index holds, those the walk reads with
    the dictionary's own pairs, and how that walk ended. *)
Definition message_fits (ops : list builder_op) (envelope : tables) (indexed_fields : list (Z * bytes))
    (walked : list (Z * bytes)) (kind : field_fault) : Prop :=
  let dict := build_table ops in
  let mt := first_value 35 indexed_fields [] in
  kind = fault_none /\
  header_in_order (map fst indexed_fields) /\
  Forall (field_fits ops envelope mt) walked /\
  Forall (fun tag => is_framing_tag tag = true \/ tag ∈ map fst indexed_fields) (required_fields dict mt) /\
  level_fits dict (GroupContext mt []) indexed_fields.

(** The slot of a fault the walk stops at, with the Length tag of a mismatch. *)
Definition fault_named (kind : field_fault) (lt : Z) (x : error * option Z) : Prop :=
  kind = malformed_tag /\ x = (wire_invalid_tag_number, None) \/
  kind = length_data_mismatch /\ x = (wire_length_data_mismatch, Some lt).

(** A refusal names the first thing wrong with the message, in the order of the checks: the
    place of MsgType, the fields one by one, the fault behind them, the required fields one by
    one, and the groups. *)
Inductive refuses (ops : list builder_op) (envelope : tables) (fs walked : list (Z * bytes))
    (kind : field_fault) (lt : Z) : error * option Z -> Prop :=
  | refuses_order : ~ header_in_order (map fst fs) ->
      refuses ops envelope fs walked kind lt (wire_header_out_of_order, None)
  | refuses_field pre f post e : header_in_order (map fst fs) ->
      walked = pre ++ f :: post -> Forall (field_fits ops envelope (first_value 35 fs [])) pre ->
      field_refused ops envelope (first_value 35 fs []) f e ->
      refuses ops envelope fs walked kind lt (e, Some f.1)
  | refuses_fault x : header_in_order (map fst fs) ->
      Forall (field_fits ops envelope (first_value 35 fs [])) walked -> fault_named kind lt x ->
      refuses ops envelope fs walked kind lt x
  | refuses_required r1 tag r2 : header_in_order (map fst fs) ->
      Forall (field_fits ops envelope (first_value 35 fs [])) walked -> kind = fault_none ->
      required_fields (build_table ops) (first_value 35 fs []) = r1 ++ tag :: r2 ->
      Forall (fun t => is_framing_tag t = true \/ t ∈ map fst fs) r1 ->
      is_framing_tag tag = false -> tag ∉ map fst fs ->
      refuses ops envelope fs walked kind lt (wire_required_field_missing, Some tag)
  | refuses_group x : header_in_order (map fst fs) ->
      Forall (field_fits ops envelope (first_value 35 fs [])) walked -> kind = fault_none ->
      Forall (fun tag => is_framing_tag tag = true \/ tag ∈ map fst fs)
        (required_fields (build_table ops) (first_value 35 fs [])) ->
      ~ level_fits (build_table ops) (GroupContext (first_value 35 fs []) []) fs ->
      blames (build_table ops) (first_value 35 fs []) fs x ->
      refuses ops envelope fs walked kind lt x.

Lemma fault_error_named kind lt : kind <> fault_none -> fault_named kind lt (field_fault_error (kind, lt)).
Proof. unfold fault_named, field_fault_error. destruct kind; cbn; [done|by left|by right]. Qed.

Lemma checks_fit ops (envelope : tables) mt fs : Forall op_ok ops ->
  (forall env, envelope = Some env -> Forall op_ok env) -> Forall (fun f => 0 <= f.1 /\ wf_bytes f.2) fs ->
  Forall (fun f => check_field (build_table ops) (valid_tags_for (build_table ops) mt) (build_table <$> envelope)
    f.1 f.2 = Ok tt) fs <-> Forall (field_fits ops envelope mt) fs.
Proof.
  intros Hops Henv Hs. rewrite !Forall_forall. rewrite Forall_forall in Hs.
  split; intros H f Hf; destruct (Hs f Hf); by apply (check_field_fits ops envelope mt f), H.
Qed.

(** A frame a scan stops in, whose index failed: the fault is the answer. *)
Lemma validate_fault ops envelope v walked kind lt off :
  hooks_unchained (for_table_view (build_table ops)) ->
  split_fields (mv_bytes v) (for_table_view (build_table ops)) = (walked, (kind, lt, off)) ->
  is_ok (status (mv_offsets v)) = false -> kind <> fault_none ->
  validate (build_table ops) envelope v = Some (Err (field_fault_error (kind, lt))).
Proof.
  intros Hu Hs Hst Hk. unfold validate. rewrite Hst.
  destruct (check_frame_split (build_table ops) (fun _ => true) None _ _ walked kind lt off Hs) as [_ ->].
  cbn [fst]. by destruct kind.
Qed.

Lemma validate_refuses ops (envelope : tables) v fs walked kind lt off x :
  Forall op_ok ops -> (forall env, envelope = Some env -> Forall op_ok env) ->
  hooks_unchained (for_table_view (build_table ops)) -> wf_bytes (mv_bytes v) -> indexed v fs ->
  split_fields (mv_bytes v) (for_table_view (build_table ops)) = (walked, (kind, lt, off)) ->
  validate (build_table ops) (build_table <$> envelope) v = Some (Err x) ->
  refuses ops envelope fs walked kind lt x.
Proof.
  intros Hops Henv Hu Hw Hv Hs. pose proof Hv as [(Hst & Hlen & _) Hbase Hl _].
  pose proof (split_fields_sane _ _ _ _ Hw Hs) as Hsane. rewrite <- Hbase in Hl. unfold validate. rewrite Hst. cbn [is_ok fst].
  rewrite (view_msg_type_spec v fs Hv), (located_tags _ _ _ _ Hl). set (mt := first_value 35 fs []).
  pose proof (header_ordered_spec (map fst fs)) as Ho.
  destruct (header_ordered (map fst fs)); cbn [negb].
  2: { intros [= <-]. apply refuses_order. by intros H%Ho. }
  pose proof (proj1 Ho eq_refl) as Hord. clear Ho.
  destruct (check_frame_split (build_table ops) (valid_tags_for (build_table ops) mt) (build_table <$> envelope) _ _
    walked kind lt off Hs) as [-> _].
  pose proof (fun fs => checks_fit ops envelope mt fs Hops Henv) as Hfit.
  destruct (check_each _ _ _) as [[]|y] eqn:Ec.
  2: { intros [= <-]. apply check_each_refuses in Ec as [(pre & f & post & -> & Hp & Hf)|(Hall & Hk & ->)].
       - apply Forall_app in Hsane as [Hs1 [[Hs2 Hs3] _]%Forall_cons].
         apply check_field_refuses in Hf as (e & -> & Hf); [|done..]. apply (refuses_field _ _ _ _ _ _ pre f post); try done.
         by apply (Hfit pre).
       - apply refuses_fault; [done|by apply (Hfit walked)|by apply fault_error_named]. }
  apply check_each_ok in Ec as [Hk Hall]. apply (Hfit walked) in Hall; [|done].
  pose proof (check_required_spec v fs (required_fields (build_table ops) mt) Hv) as Hreq.
  destruct (check_required _ _) as [[]|y] eqn:Er.
  2: { intros [= <-]. eapply check_required_refuses in Er as (r1 & tag & r2 & E & H1 & H2 & H3 & ->); [|done].
       by apply (refuses_required _ _ _ _ _ _ r1 tag r2). }
  destruct (level_takes (build_table ops) (mv_offsets v) Hlen (S (length (entries (mv_offsets v)))) (GroupContext mt [])
    [] (reads (mv_offsets v))) as [Ha Hg]; [done|done|rewrite reads_length; unfold zlen; lia|].
  rewrite (located_reads _ _ Hl) in Ha, Hg. change (zlen (@nil (Z * bytes))) with 0 in Ha, Hg.
  destruct (validate_group_level _ _ _ _ _ _) as [[e|y]|]; cbn [answers] in Ha; [done| |done]. intros [= <-].
  apply refuses_group; try done; [by apply Hreq|]. intros H. by specialize (Hg H).
Qed.

(** An Int field may be a minus sign alone. *)
Lemma lone_minus_is_int t tag : field_type_of_with_framing t tag = ft_Int -> check_field_type t tag [45] = Ok tt.
Proof. unfold check_field_type. by intros ->. Qed.

(** ** Properties *)

(** C12: [validate] accepts exactly the messages of the dictionary.  Over a frame the index
    holds, and whatever builder calls made the dictionary and the envelope, the answer is
    success just when the walk meets no fault, nothing but framing stands in front of MsgType,
    every field is one the message may carry (or of the envelope's header) with a value its
    codes and its type allow, every required field is there, and the fields can be cut into
    groups that fit. *)
Theorem validate_exact ops (envelope : tables) v fs walked kind lt off :
  Forall op_ok ops -> (forall env, envelope = Some env -> Forall op_ok env) ->
  hooks_unchained (for_table_view (build_table ops)) -> wf_bytes (mv_bytes v) -> indexed v fs ->
  split_fields (mv_bytes v) (for_table_view (build_table ops)) = (walked, (kind, lt, off)) ->
  validate (build_table ops) (build_table <$> envelope) v = Some (Ok tt) <->
    message_fits ops envelope fs walked kind.
Proof.
  intros Hops Henv Hu Hw Hv Hs. pose proof Hv as [(Hst & Hlen & _) Hbase Hl _].
  pose proof (split_fields_sane _ _ _ _ Hw Hs) as Hsane. rewrite <- Hbase in Hl.
  set (dict := build_table ops) in *. unfold validate, message_fits. fold dict. rewrite Hst. cbn [is_ok fst].
  rewrite (view_msg_type_spec v fs Hv). set (mt := first_value 35 fs []).
  rewrite (located_tags _ _ _ _ Hl), <- header_ordered_spec, <- (check_required_spec v fs _ Hv).
  rewrite <- (checks_fit ops envelope mt walked Hops Henv Hsane). fold dict.
  destruct (header_ordered (map fst fs)); cbn [negb]; [|naive_solver].
  destruct (check_frame_split dict (valid_tags_for dict mt) (build_table <$> envelope) _ _ walked kind lt off Hs)
    as [-> _].
  pose proof (check_each_ok (check_field dict (valid_tags_for dict mt) (build_table <$> envelope)) walked (kind, lt)) as Hc.
  destruct (check_each _ _ _) as [[]|x]; [|destruct Hc as [_ Hc]; naive_solver].
  destruct Hc as [Hc _]. destruct (Hc eq_refl) as [Hk Hall].
  destruct (check_required v _) as [[]|x]; [|naive_solver].
  destruct (level_takes dict (mv_offsets v) Hlen (S (length (entries (mv_offsets v)))) (GroupContext mt []) []
    (reads (mv_offsets v))) as [Ha Hg]; [done|done|rewrite reads_length; unfold zlen; lia|].
  rewrite (located_reads _ _ Hl) in Ha, Hg. change (zlen (@nil (Z * bytes))) with 0 in Ha, Hg.
  destruct (validate_group_level _ _ _ _ _ _) as [[e|x]|]; cbn [answers] in Ha; [naive_solver| |done].
  split; [done|]. intros (_ & _ & _ & _ & H). by specialize (Hg H).
Qed.

Lemma validate_settled ops (envelope : option table_view) v :
  zlen (entries (mv_offsets v)) <= UINT32_MAX -> settled (validate (build_table ops) envelope v).
Proof.
  intros Hlen. unfold validate. set (h := for_table_view (build_table ops)).
  set (begin := Iterator 0 (0, 0) 0 (fault_none, 0)).
  assert (Hscan : exists f, (if is_ok (status (mv_offsets v)) then Some (fault_none, 0)
    else fault_scan (S (length (mv_bytes v))) h (mv_bytes v) begin) = Some f).
  { destruct (is_ok _); [by eexists|]. apply fault_scan_total; cbn; unfold zlen; lia. }
  destruct Hscan as [fault ->]. cbv zeta. destruct fault.1; try apply fault_refusal.
  destruct (negb (header_ordered _)); [left; cbn; auto|].
  pose proof (check_fields_settled h (mv_bytes v) (build_table ops) (valid_tags_for (build_table ops) (view_msg_type v))
    envelope (S (length (mv_bytes v))) begin) as Hc.
  destruct (check_fields _ _ _ _ _ _ _) as [[[]|x]|].
  2, 3: apply Hc; cbn; unfold zlen; lia.
  pose proof (check_required_settled v (required_fields (build_table ops) (view_msg_type v))) as Hr.
  destruct (check_required _ _) as [[]|x]; [|exact Hr].
  destruct (level_takes (build_table ops) (mv_offsets v) Hlen (S (length (entries (mv_offsets v))))
    (GroupContext (view_msg_type v) []) [] (reads (mv_offsets v))) as [Ha _];
    [done|done|rewrite reads_length; unfold zlen; lia|].
  change (zlen (@nil (Z * bytes))) with 0 in Ha.
  destruct (validate_group_level _ _ _ _ _ _) as [[e|x]|]; cbn [answers] in Ha; [done| |done].
  destruct Ha as (_ & _ & _ & _ & _ & tag & _ & _ & _ & _ & ->). right. cbn. eauto 10.
Qed.

(** C14: [validate] always answers, and a refusal names what is wrong.  Over any view - a failed
    index, a fault in the frame, nesting past the context's depth - and any tables, the loops
    and the recursion end, and a refusal is one of seven wire errors, with a tag for every one
    of them except a header out of order and a malformed tag.  Over a frame the index holds,
    the refusal is that of the first thing wrong, in the order of the checks, with its tag: the
    first field that is not the message's or whose value its codes or its type do not allow;
    the Length that does not match; the first required field that is missing; or, of a group,
    the first required member an instance lacks, or the delimiter where the first instance does
    not open with it, the required members are too many or the instances not as many as
    counted.  Over a frame whose index failed it is the fault the walk stops at. *)
Theorem validate_answers ops (envelope : option table_view) v :
  zlen (entries (mv_offsets v)) <= UINT32_MAX ->
  settled (validate (build_table ops) envelope v) /\
  (Forall op_ok ops -> hooks_unchained (for_table_view (build_table ops)) -> wf_bytes (mv_bytes v) ->
   forall walked kind lt off x,
     split_fields (mv_bytes v) (for_table_view (build_table ops)) = (walked, (kind, lt, off)) ->
     validate (build_table ops) envelope v = Some (Err x) ->
     (forall fs env, indexed v fs -> envelope = build_table <$> env ->
        (forall e, env = Some e -> Forall op_ok e) -> refuses ops env fs walked kind lt x) /\
     (is_ok (status (mv_offsets v)) = false -> kind <> fault_none -> fault_named kind lt x)).
Proof.
  intros Hlen. split; [by apply validate_settled|]. intros Hops Hu Hw walked kind lt off x Hs E. split.
  - intros fs env Hv -> Henv. by apply (validate_refuses ops env v fs walked kind lt off).
  - intros Hst Hk. rewrite (validate_fault _ _ _ walked kind lt off) in E by done. injection E as <-.
    by apply fault_error_named.
Qed.

(** Message D with its Side(54) coded and its parties, a price that is a number. *)
Definition order_ops : list builder_op :=
  map (AddValidTag [68]) [8; 9; 35; 453; 448; 447; 802; 523; 54; 44; 10] ++
  [AddRequiredTag [68] 8; AddRequiredTag [68] 35; AddRequiredTag [68] 54; AddEnum 54 [49]; AddEnum 54 [50];
   SetFieldType 44 ft_Float; SetFieldType 453 ft_Int] ++ party_ops.

Definition order_fields : list (Z * bytes) :=
  [(8, [70]); (9, [57]); (35, [68])] ++ party_fields ++ [(44, [49; 46; 53]); (10, [48; 48; 48])].

Definition order_view : message_view := mkView (fields_bytes order_fields) (party_table order_fields).

Lemma order_pairs : length_pair_fn (for_table_view (build_table order_ops)) = None.
Proof. by vm_compute. Qed.

Lemma order_unchained : hooks_unchained (for_table_view (build_table order_ops)).
Proof.
  constructor. intros tag. unfold data_tag_for_length. rewrite order_pairs.
  exact (@unchained no_hooks no_hooks_unchained tag).
Qed.

Lemma order_indexed : indexed order_view order_fields.
Proof.
  constructor.
  - split; [by vm_compute|]. split; [by vm_compute|]. by vm_compute.
  - by vm_compute.
  - apply build_located; try apply _; by vm_compute.
  - apply Nat.leb_le. by vm_compute.
Qed.

Lemma validate_exact_witness : message_fits order_ops None order_fields order_fields fault_none.
Proof.
  apply (validate_exact order_ops None order_view order_fields order_fields fault_none 0 0).
  - repeat constructor; try discriminate.
  - discriminate.
  - apply order_unchained.
  - repeat constructor; discriminate.
  - apply order_indexed.
  - vm_compute. reflexivity.
  - vm_compute. reflexivity.
Defined.

(** The order without its Side(54): the refusal names it. *)
Definition sideless_fields : list (Z * bytes) := List.filter (fun f => negb (f.1 =? 54)) order_fields.

Definition sideless_view : message_view := mkView (fields_bytes sideless_fields) (party_table sideless_fields).

Lemma sideless_indexed : indexed sideless_view sideless_fields.
Proof.
  constructor.
  - split; [by vm_compute|]. split; [by vm_compute|]. by vm_compute.
  - by vm_compute.
  - apply build_located; try apply _; by vm_compute.
  - apply Nat.leb_le. by vm_compute.
Qed.

Lemma validate_answers_witness :
  let x := (wire_required_field_missing, Some 54) in
  validate (build_table order_ops) None sideless_view = Some (Err x) /\
  refuses order_ops None sideless_fields sideless_fields fault_none 0 x.
Proof.
  cbv zeta.
  assert (E : validate (build_table order_ops) None sideless_view = Some (Err (wire_required_field_missing, Some 54)))
    by (vm_compute; reflexivity).
  split; [exact E|].
  destruct (validate_answers order_ops None sideless_view) as [_ H]; [vm_compute; discriminate|].
  refine (proj1 (H _ order_unchained _ sideless_fields fault_none 0 0 _ _ E) sideless_fields None sideless_indexed eq_refl _).
  - repeat constructor; try discriminate.
  - repeat constructor; discriminate.
  - vm_compute. reflexivity.
  - discriminate.
Defined.
