(* ===== verification/BodyBuilder.v ===== *)
(** The body builder, [include/fixpp/wire/body_builder.hpp] and [src/wire/body_builder.cpp]:
    the tree an author accumulates through handles, the checks of [commit] and the text it
    writes.

    The arena answers each allocation in turn; a refused one leaves the tree as it was.  A
    handle holds the index path of its group, and an operation through it is [None] when the
    path leads nowhere, which the code does not test. *)
From S2P Require Import Prelude Errors Decimal TagScan PairTable LengthData Writer FrameHeader.

(** ** Data *)

(** [entry_node]: a scalar with its bytes, or a group with its instances. *)
Inductive entry_node : Type :=
  | ScalarNode (tag : Z) (value_bytes : bytes)
  | GroupNode (tag delimiter_tag : Z) (instances : list (list entry_node)).

Definition entry_tag (n : entry_node) : Z := match n with ScalarNode t _ | GroupNode t _ _ => t end.

(** [owner_] is the address of a builder; the path goes from a root entry through an instance
    and an entry of it at every further level. *)
Record group_handle := GroupHandle {
  gh_owner : option Z; gh_root : nat; gh_path : list (nat * nat); gh_open_seq : Z }.

Definition no_group_handle : group_handle := GroupHandle None 0 [] 0.

Definition levels (h : group_handle) : Z := 1 + zlen (gh_path h).

Record entry_handle := EntryHandle { eh_group : group_handle; eh_instance : nat }.

Definition no_entry_handle : entry_handle := EntryHandle no_group_handle 0.

(** The builder, its arena's answer to the [k]-th request and how many were made; the innermost
    open group is the head of [bb_open_stack]. *)
Record body_builder := Builder {
  bb_addr : Z;
  bb_msg_type : bytes;
  bb_hooks : dict_hooks;
  bb_arena : Z -> bool;
  bb_requests : Z;
  bb_entries : list entry_node;
  bb_open_stack : list Z;
  bb_next_open_seq : Z;
  bb_pair_check_needed : bool }.

Definition body_builder_init (addr : Z) (msg_type : bytes) (h : dict_hooks) (arena : Z -> bool) : body_builder :=
  Builder addr msg_type h arena 0 [] [] 1 (match length_pair_fn h with Some _ => true | None => false end).

Definition kMaxGroupNestDepth : Z := 8.
Definition kBodyCap : Z := 3800.
Definition kFramingTags : list Z := [8; 9; 34; 49; 52; 56; 10].

Definition is_framing_tag (tag : Z) : bool := existsb (Z.eqb tag) kFramingTags.
Definition is_printable (c : Z) : bool := (0x20 <=? c) && (c <=? 0x7E).
Definition is_clean_field_value (v : bytes) : bool := forallb is_printable v.

(** ** Appending to a container *)

(** The container an append goes to, with [pair_check_needed_]. *)
Definition container : Type := list entry_node * bool.

Definition note_tag (tag : Z) (s : container) : container := (s.1, s.2 || standard_pair_tag_bit tag).

Definition append_bytes_field (ok : bool) (tag : Z) (value : bytes) (s : container)
  : expected unit * container :=
  let s := note_tag tag s in
  if ok then (Ok tt, (s.1 ++ [ScalarNode tag value], s.2)) else (Err wire_frame_too_large, s).

Definition append_string_field (ok : bool) (tag : Z) (v : bytes) (s : container)
  : expected unit * container :=
  if is_framing_tag tag then (Err wire_field_value_out_of_range, s)
  else if negb (is_clean_field_value v) then (Err wire_field_value_out_of_range, s)
  else append_bytes_field ok tag v s.

(** [std::to_chars] of an [int64_t]. *)
Definition int64_text (v : Z) : bytes :=
  let m := Z.abs v in
  (if v <? 0 then [45] else []) ++ (if m =? 0 then [48] else rev (rev_digits 20 m)).

Definition append_int_field (ok : bool) (tag v : Z) (s : container) : expected unit * container :=
  if is_framing_tag tag then (Err wire_field_value_out_of_range, s)
  else append_bytes_field ok tag (int64_text v) s.

Definition append_decimal_field (ok : bool) (tag : Z) (v : pod_decimal) (s : container)
  : expected unit * container :=
  if is_framing_tag tag then (Err wire_field_value_out_of_range, s)
  else
    match to_chars v (replicate 64 0) with
    | Err _ => (Err decimal_invalid_input, s)
    | Ok (val_buf, n) => append_bytes_field ok tag (ztake n val_buf) s
    end.

(** The Length node is popped when the Data node cannot be appended. *)
Definition append_data_field (ok ok' : bool) (data_tag : Z) (value : bytes) (s : container)
  : expected unit * container :=
  if is_framing_tag data_tag then (Err wire_field_value_out_of_range, s)
  else
    let length_tag := length_tag_for_data no_hooks data_tag in
    if length_tag =? 0 then (Err wire_unexpected_tag, s)
    else
      match value with
      | [] => (Err wire_field_value_out_of_range, s)
      | _ =>
          match append_int_field ok length_tag (zlen value) s with
          | (Err e, s) => (Err e, s)
          | (Ok _, s1) =>
              match append_bytes_field ok' data_tag value s1 with
              | (Err e, s2) => (Err e, (removelast s2.1, s2.2))
              | (Ok _, s2) => (Ok tt, s2)
              end
          end
      end.

(** What a field is given: the overloads of [field], and [field_data]. *)
Inductive field_value : Type :=
  | VString (v : bytes)
  | VChar (c : Z)
  | VInt (v : Z)
  | VDecimal (v : pod_decimal)
  | VData (v : bytes).

Definition append_value (ok ok' : bool) (tag : Z) (v : field_value) (s : container)
  : expected unit * container :=
  match v with
  | VString v => append_string_field ok tag v s
  | VChar c => append_string_field ok tag [c] s
  | VInt v => append_int_field ok tag v s
  | VDecimal v => append_decimal_field ok tag v s
  | VData v => append_data_field ok ok' tag v s
  end.

(** ** Paths *)

(** [resolve_group], along a path. *)
Fixpoint group_at (g : nat) (path : list (nat * nat)) (es : list entry_node) : option entry_node :=
  match es !! g, path with
  | Some n, [] => Some n
  | Some (GroupNode _ _ insts), (i, g') :: path =>
      match insts !! i with
      | Some fields => group_at g' path fields
      | None => None
      end
  | _, _ => None
  end.

(** A change of the node a path leads to. *)
Fixpoint alter_group (f : entry_node -> entry_node) (g : nat) (path : list (nat * nat))
    (es : list entry_node) : list entry_node :=
  alter (fun n =>
    match path with
    | [] => f n
    | (i, g') :: path =>
        match n with
        | GroupNode t d insts => GroupNode t d (alter (alter_group f g' path) i insts)
        | ScalarNode _ _ => n
        end
    end) g es.

Definition resolve_group (b : body_builder) (h : group_handle) : option entry_node :=
  group_at (gh_root h) (gh_path h) (bb_entries b).

(** [resolve_instance]: the fields of the instance. *)
Definition resolve_instance (b : body_builder) (e : entry_handle) : option (list entry_node) :=
  match resolve_group b (eh_group e) with
  | Some (GroupNode _ _ insts) => insts !! eh_instance e
  | _ => None
  end.

Definition set_instance (e : entry_handle) (fields : list entry_node) (es : list entry_node)
  : list entry_node :=
  alter_group (fun n =>
    match n with
    | GroupNode t d insts => GroupNode t d (<[eh_instance e := fields]> insts)
    | ScalarNode _ _ => n
    end) (gh_root (eh_group e)) (gh_path (eh_group e)) es.

Definition add_instance (h : group_handle) (es : list entry_node) : list entry_node :=
  alter_group (fun n =>
    match n with
    | GroupNode t d insts => GroupNode t d (insts ++ [[]])
    | ScalarNode _ _ => n
    end) (gh_root h) (gh_path h) es.

(** The number of instances of the group. *)
Definition instance_count (b : body_builder) (h : group_handle) : option nat :=
  match resolve_group b h with Some (GroupNode _ _ insts) => Some (length insts) | _ => None end.

Definition is_innermost_open (b : body_builder) (open_seq : Z) : bool :=
  match bb_open_stack b with s :: _ => s =? open_seq | [] => false end.

(** ** Operations *)

Definition with_container (es : list entry_node) (needed : bool) (requests : Z) (b : body_builder) : body_builder :=
  Builder (bb_addr b) (bb_msg_type b) (bb_hooks b) (bb_arena b) requests es (bb_open_stack b)
    (bb_next_open_seq b) needed.

Definition with_stack (stack : list Z) (next : Z) (b : body_builder) : body_builder :=
  Builder (bb_addr b) (bb_msg_type b) (bb_hooks b) (bb_arena b) (bb_requests b) (bb_entries b) stack next
    (bb_pair_check_needed b).

(** Two requests of the arena: no append makes more. *)
Definition grants (b : body_builder) : bool * bool :=
  (bb_arena b (bb_requests b), bb_arena b (bb_requests b + 1)).

(** [field] and [field_data] *)
Definition field (b : body_builder) (tag : Z) (v : field_value) : expected unit * body_builder :=
  let '(ok, ok') := grants b in
  let '(r, (es, needed)) := append_value ok ok' tag v (bb_entries b, bb_pair_check_needed b) in
  (r, with_container es needed (bb_requests b + 2) b).

(** [set_string], [set_char], [set_int], [set_decimal] and [set_data]; the builder is the one
    [owner_] points at. *)
Definition set_field (b : body_builder) (e : entry_handle) (tag : Z) (v : field_value)
  : option (expected unit * body_builder) :=
  match gh_owner (eh_group e) with
  | None => Some (Err wire_invalid_field_format, b)
  | Some _ =>
      if negb (is_innermost_open b (gh_open_seq (eh_group e))) then Some (Err wire_invalid_field_format, b)
      else
        match resolve_instance b e with
        | None => None
        | Some fields =>
            let '(ok, ok') := grants b in
            let '(r, (fields, needed)) := append_value ok ok' tag v (fields, bb_pair_check_needed b) in
            Some (r, with_container (set_instance e fields (bb_entries b)) needed (bb_requests b + 2) b)
        end
  end.

(** What both openings of a group share, once its node is in place or was refused: the number
    is taken before the stack grows, and a refusal there takes the node back. *)
Definition open_group (ok ok' : bool) (es_before es_after : list entry_node) (h : group_handle) (needed : bool)
    (b : body_builder) : expected group_handle * body_builder :=
  let b := with_container es_before needed (bb_requests b + 2) b in
  if negb ok then (Err wire_frame_too_large, b)
  else
    let seq := bb_next_open_seq b in
    let h := GroupHandle (gh_owner h) (gh_root h) (gh_path h) seq in
    let next := u32 (seq + 1) in
    if negb ok' then (Err wire_frame_too_large, with_stack (bb_open_stack b) next b)
    else (Ok h, with_stack (seq :: bb_open_stack b) next
                  (with_container es_after needed (bb_requests b) b)).

Definition group_begin (b : body_builder) (no_tag delimiter_tag : Z) : expected group_handle * body_builder :=
  if is_framing_tag no_tag then (Err wire_field_value_out_of_range, b)
  else
    let '(ok, ok') := grants b in
    let needed := bb_pair_check_needed b || standard_pair_tag_bit no_tag in
    open_group ok ok' (bb_entries b) (bb_entries b ++ [GroupNode no_tag delimiter_tag []])
      (GroupHandle (Some (bb_addr b)) (length (bb_entries b)) [] 0) needed b.

(** [group_handle::add_entry] and [add_entry_impl] *)
Definition add_entry (b : body_builder) (g : group_handle) : option (expected entry_handle * body_builder) :=
  match gh_owner g with
  | None => Some (Err wire_invalid_field_format, b)
  | Some _ =>
      if negb (is_innermost_open b (gh_open_seq g)) then Some (Err wire_invalid_field_format, b)
      else
        match instance_count b g with
        | None => None
        | Some n =>
            let '(ok, _) := grants b in
            if ok then
              Some (Ok (EntryHandle g n),
                    with_container (add_instance g (bb_entries b)) (bb_pair_check_needed b) (bb_requests b + 2) b)
            else
              Some (Err wire_frame_too_large,
                    with_container (bb_entries b) (bb_pair_check_needed b) (bb_requests b + 2) b)
        end
  end.

(** [entry_handle::group_begin] and [entry_group_begin_impl] *)
Definition entry_group_begin (b : body_builder) (e : entry_handle) (no_tag delimiter_tag : Z)
  : option (expected group_handle * body_builder) :=
  match gh_owner (eh_group e) with
  | None => Some (Err wire_invalid_field_format, b)
  | Some owner =>
      if is_framing_tag no_tag then Some (Err wire_field_value_out_of_range, b)
      else if negb (is_innermost_open b (gh_open_seq (eh_group e))) then Some (Err wire_invalid_field_format, b)
      else if kMaxGroupNestDepth - 1 <=? levels (eh_group e) then Some (Err wire_frame_too_large, b)
      else
        match resolve_instance b e with
        | None => None
        | Some fields =>
            let '(ok, ok') := grants b in
            let needed := bb_pair_check_needed b || standard_pair_tag_bit no_tag in
            Some (open_group ok ok' (bb_entries b)
              (set_instance e (fields ++ [GroupNode no_tag delimiter_tag []]) (bb_entries b))
              (GroupHandle (Some owner) (gh_root (eh_group e))
                 (gh_path (eh_group e) ++ [(eh_instance e, length fields)]) 0) needed b)
        end
  end.

Definition group_end (b : body_builder) (h : group_handle) : expected unit * body_builder :=
  match gh_owner h, bb_open_stack b with
  | Some owner, s :: stack =>
      if negb (owner =? bb_addr b) || negb (s =? gh_open_seq h) then (Err wire_invalid_field_format, b)
      else (Ok tt, with_stack stack (bb_next_open_seq b) b)
  | _, _ => (Err wire_invalid_field_format, b)
  end.

(** ** [commit] *)

Section Grammar.
Context (check_pairs : bool) (h : dict_hooks) (check_group : entry_node -> expected unit).

(** One container, fed to a checker of its own; a group is fed with an empty value. *)
Fixpoint walk_container (k : length_data_checker) (es : list entry_node) : expected unit :=
  match es with
  | [] => if check_pairs && negb (finish k).1 then Err wire_invalid_field_format else Ok tt
  | e :: es =>
      let '(ok, k) := observe h k (entry_tag e) (match e with ScalarNode _ v => v | GroupNode _ _ _ => [] end) in
      if check_pairs && negb ok then Err wire_invalid_field_format
      else let? _ := check_group e in walk_container k es
  end.
End Grammar.

(** The instances of a group. *)
Fixpoint check_group (check_pairs : bool) (h : dict_hooks) (n : entry_node) : expected unit :=
  match n with
  | ScalarNode _ _ => Ok tt
  | GroupNode _ delimiter_tag insts =>
      (fix insts_ok (insts : list (list entry_node)) : expected unit :=
         match insts with
         | [] => Ok tt
         | inst :: insts =>
             match inst with
             | [] => Err wire_invalid_field_format
             | first :: _ =>
                 if negb (entry_tag first =? delimiter_tag) then Err wire_invalid_field_format
                 else
                   let? _ := walk_container check_pairs h (check_group check_pairs h) checker_init inst in
                   insts_ok insts
             end
         end) insts
  end.

Definition validate_group_grammar (check_pairs : bool) (h : dict_hooks) (es : list entry_node) : expected unit :=
  walk_container check_pairs h (check_group check_pairs h) checker_init es.

Fixpoint entry_size (n : entry_node) : Z :=
  match n with
  | ScalarNode t v => zlen (dec_text t) + 1 + zlen v + 1
  | GroupNode t _ insts =>
      zlen (dec_text t) + 1 + zlen (int64_text (zlen insts)) + 1 +
      fold_right Z.add 0 (map (fun inst => fold_right Z.add 0 (map entry_size inst)) insts)
  end.

Definition compute_size (es : list entry_node) : Z := fold_right Z.add 0 (map entry_size es).

(** The bytes one entry adds to the buffer. *)
Fixpoint serialize_entry (n : entry_node) : bytes :=
  match n with
  | ScalarNode t v => dec_text t ++ [EQ] ++ v ++ [SOH]
  | GroupNode t _ insts =>
      dec_text t ++ [EQ] ++ int64_text (zlen insts) ++ [SOH] ++
      concat (map (fun inst => concat (map serialize_entry inst)) insts)
  end.

Definition serialize_entries (es : list entry_node) : bytes := concat (map serialize_entry es).

(** [commit]: the size and the buffer after the call. *)
Definition commit (b : body_builder) (out : bytes) : expected Z * bytes :=
  match bb_open_stack b with
  | _ :: _ => (Err wire_invalid_field_format, out)
  | [] =>
      match validate_group_grammar (bb_pair_check_needed b) (bb_hooks b) (bb_entries b) with
      | Err e => (Err e, out)
      | Ok _ =>
          match bb_msg_type b with
          | [] => (Err wire_field_value_out_of_range, out)
          | _ =>
              if negb (is_clean_field_value (bb_msg_type b)) then (Err wire_field_value_out_of_range, out)
              else
                let total := 3 + zlen (bb_msg_type b) + 1 + compute_size (bb_entries b) in
                if kBodyCap <? total then (Err wire_frame_too_large, out)
                else if zlen out <? total then (Err wire_frame_too_large, out)
                else
                  let scratch := [51; 53; EQ] ++ bb_msg_type b ++ [SOH] ++ serialize_entries (bb_entries b) in
                  (Ok total, ztake total scratch ++ zdrop total out)
          end
      end
  end.

(** ** Specification *)

Lemma entry_node_nested_ind (P : entry_node -> Prop) :
  (forall t v, P (ScalarNode t v)) ->
  (forall t d insts, Forall (Forall P) insts -> P (GroupNode t d insts)) -> forall n, P n.
Proof.
  intros Hs Hg. fix IH 1. intros [t v|t d insts]; [apply Hs|]. apply Hg.
  induction insts as [|inst insts IHi]; constructor; [|exact IHi].
  induction inst as [|n inst IHn]; constructor; [apply IH|exact IHn].
Qed.

(** The fields of a tree, in wire order. *)
Fixpoint entry_fields (n : entry_node) : list (Z * bytes) :=
  match n with
  | ScalarNode t v => [(t, v)]
  | GroupNode t _ insts =>
      (t, int64_text (zlen insts)) :: concat (map (fun inst => concat (map entry_fields inst)) insts)
  end.

Definition body_fields (es : list entry_node) : list (Z * bytes) := concat (map entry_fields es).

(** The fields of one container alone, a group with no value. *)
Definition container_fields (es : list entry_node) : list (Z * bytes) :=
  map (fun n => (entry_tag n, match n with ScalarNode _ v => v | GroupNode _ _ _ => [] end)) es.

(** Every instance opens with the delimiter its author named. *)
Fixpoint shape_ok (n : entry_node) : bool :=
  match n with
  | ScalarNode _ _ => true
  | GroupNode _ d insts =>
      forallb (fun inst =>
        match inst with [] => false | first :: _ => entry_tag first =? d end && forallb shape_ok inst) insts
  end.

(** In every container the Length+Data pairs are well formed. *)
Fixpoint pairs_ok (h : dict_hooks) (n : entry_node) : bool :=
  match n with
  | ScalarNode _ _ => true
  | GroupNode _ _ insts =>
      forallb (fun inst => container_conforms h (container_fields inst) && forallb (pairs_ok h) inst) insts
  end.

Definition body_ok (h : dict_hooks) (es : list entry_node) : bool :=
  forallb shape_ok es && (container_conforms h (container_fields es) && forallb (pairs_ok h) es).

(** ** Lemmas *)

(** *** The text *)

Lemma concat_fields {A} (f : A -> bytes) (g : A -> list (Z * bytes)) l :
  Forall (fun a => f a = fields_bytes (g a)) l -> concat (map f l) = fields_bytes (concat (map g l)).
Proof.
  induction 1 as [|a l Ha _ IH]; [done|]. cbn [map concat]. rewrite Ha, IH. unfold fields_bytes.
  by rewrite map_app, concat_app.
Qed.

Lemma serialize_entry_fields n : serialize_entry n = fields_bytes (entry_fields n).
Proof.
  induction n as [t v|t d insts IH] using entry_node_nested_ind; cbn [serialize_entry entry_fields].
  - rewrite fields_bytes_cons. unfold field_text. change (fields_bytes []) with (@nil Z). by rewrite app_nil_r.
  - rewrite fields_bytes_cons. unfold field_text.
    rewrite (concat_fields _ (fun inst => concat (map entry_fields inst))).
    + by rewrite <- !app_assoc, <- !app_comm_cons, <- app_assoc.
    + eapply Forall_impl; [exact IH|]. intros inst Hi. by apply concat_fields.
Qed.

Lemma serialize_fields es : serialize_entries es = fields_bytes (body_fields es).
Proof. apply concat_fields, Forall_forall. intros n _. apply serialize_entry_fields. Qed.

Lemma concat_size {A} (f : A -> bytes) (g : A -> Z) l :
  Forall (fun a => zlen (f a) = g a) l -> zlen (concat (map f l)) = fold_right Z.add 0 (map g l).
Proof. induction 1 as [|a l Ha _ IH]; [done|]. cbn [map concat fold_right]. by rewrite zlen_app, Ha, IH. Qed.

Lemma serialize_entry_size n : zlen (serialize_entry n) = entry_size n.
Proof.
  induction n as [t v|t d insts IH] using entry_node_nested_ind; cbn [serialize_entry entry_size].
  - rewrite !zlen_app. change (zlen [EQ]) with 1. change (zlen [SOH]) with 1. lia.
  - rewrite !zlen_app. change (zlen [EQ]) with 1. change (zlen [SOH]) with 1.
    erewrite concat_size; [|eapply Forall_impl; [exact IH|]; intros inst Hi; apply concat_size; exact Hi]. lia.
Qed.

Lemma serialize_size es : zlen (serialize_entries es) = compute_size es.
Proof. apply concat_size, Forall_forall. intros n _. apply serialize_entry_size. Qed.

Lemma rev_digits_digits fuel m : digits (rev_digits fuel m).
Proof.
  revert m. induction fuel as [|fuel IH]; intros m; cbn [rev_digits]; [constructor|].
  destruct (0 <? m); constructor; [|apply IH]. apply is_digit_spec.
  pose proof (Z.mod_pos_bound m 10). lia.
Qed.

Lemma int64_text_clean v : SOH ∉ int64_text v.
Proof.
  unfold int64_text.
  assert (Hd : digits (if Z.abs v =? 0 then [48] else rev (rev_digits 20 (Z.abs v)))).
  { destruct (_ =? 0); [by repeat constructor|]. apply Forall_rev, rev_digits_digits. }
  rewrite not_elem_of_app. split.
  - destruct (v <? 0); [|apply not_elem_of_nil]. by intros [=]%list_elem_of_singleton.
  - intros Hin. rewrite Forall_forall in Hd. specialize (Hd _ Hin). done.
Qed.

Lemma strip_zeros_digits back frac : digits back -> digits (strip_zeros back frac).1.
Proof.
  revert frac. induction back as [|c back IH]; intros frac Hd; [done|]. cbn [strip_zeros].
  apply Forall_cons in Hd as [Hc Hd]. destruct (_ && _); [by apply IH|by constructor].
Qed.

Lemma decimal_text_clean v buf n : to_chars v (replicate 64 0) = Ok (buf, n) -> SOH ∉ ztake n buf.
Proof.
  generalize (replicate 64 0). intros dst.
  assert (Hw : forall d, ztake (zlen d) (zwrite dst 0 d) = d).
  { intros d. change dst with ([] ++ dst). rewrite zwrite_at by done. cbn [app]. apply ztake_app. }
  unfold to_chars. repeat (case_match; try done).
  - intros [= <- <-]. change 1 with (zlen [48]). rewrite Hw. by intros [=]%list_elem_of_singleton.
  - intros [= <- <-]. rewrite Hw.
    unfold to_chars_body. set (back0 := if _ =? 0 then [48] else _).
    assert (Hb : digits back0) by (unfold back0; case_match; [by repeat constructor|apply rev_digits_digits]).
    pose proof (strip_zeros_digits back0 (- exponent v) Hb) as Hs.
    destruct (strip_zeros back0 (- exponent v)) as [back frac]. cbn [fst] in Hs. apply Forall_rev in Hs.
    assert (Hno : forall l, digits l -> SOH ∉ l).
    { intros l Hl Hin. rewrite Forall_forall in Hl. by specialize (Hl _ Hin). }
    rewrite not_elem_of_app. split; [case_match; [by intros [=]%list_elem_of_singleton|apply not_elem_of_nil]|].
    case_match; [by apply Hno|]. case_match; rewrite !not_elem_of_app; split_and!.
    + intros [Hx|Hx]%elem_of_cons; [done|by apply list_elem_of_singleton in Hx].
    + apply Hno, Forall_replicate. done.
    + by apply Hno.
    + apply Hno. by apply Forall_take.
    + by intros [=]%list_elem_of_singleton.
    + apply Hno. by apply Forall_drop.
Qed.

(** *** The grammar *)

Lemma forallb_Forall {A} (f : A -> bool) l : forallb f l = true <-> Forall (fun x => f x = true) l.
Proof. by rewrite forallb_forall, List.Forall_forall. Qed.

Lemma walk_container_ok cp h check k es :
  walk_container cp h check k es = Ok tt <->
  Forall (fun n => check n = Ok tt) es /\
  (cp = true -> match observe_all h k (container_fields es) with Some k => (finish k).1 = true | None => False end).
Proof.
  revert k. induction es as [|e es IH]; intros k; cbn [walk_container container_fields map observe_all].
  - destruct cp; cbn [andb]; [|naive_solver]. destruct (finish k).1; naive_solver.
  - rewrite Forall_cons. destruct (observe h k _ _) as [ok k']. specialize (IH k'). fold (container_fields es).
    destruct cp; cbn [andb].
    + destruct ok; cbn [negb]; [|naive_solver]. destruct (check e) as [[]|x]; cbn [rbind]; [|naive_solver].
      rewrite IH. naive_solver.
    + destruct (check e) as [[]|x]; cbn [rbind]; [|naive_solver]. rewrite IH. naive_solver.
Qed.

Lemma container_conforms_eq h es :
  container_conforms h es = true <->
  match observe_all h checker_init es with Some k => (finish k).1 = true | None => False end.
Proof. unfold container_conforms. by destruct (observe_all _ _ _). Qed.

Lemma check_group_ok cp h n :
  check_group cp h n = Ok tt <-> shape_ok n = true /\ (cp = true -> pairs_ok h n = true).
Proof.
  induction n as [t v|t d insts IH] using entry_node_nested_ind; [done|]. cbn [check_group shape_ok pairs_ok].
  induction IH as [|inst insts Hi _ IHi]; [done|]. cbn [forallb].
  destruct inst as [|first inst]; [naive_solver|].
  destruct (entry_tag first =? d); cbn [negb andb]; [|naive_solver].
  assert (Hw : walk_container cp h (check_group cp h) checker_init (first :: inst) = Ok tt <->
    forallb shape_ok (first :: inst) = true /\
    (cp = true -> container_conforms h (container_fields (first :: inst)) && forallb (pairs_ok h) (first :: inst) = true)).
  { rewrite walk_container_ok, andb_true_iff, container_conforms_eq.
    rewrite !forallb_Forall. clear IHi. rewrite !Forall_forall in *. split.
    - intros [H1 H2]. split; [intros x Hx; by apply (Hi x Hx), H1|]. intros Hc. split; [by apply H2|].
      intros x Hx. by apply (Hi x Hx), Hc; apply H1.
    - intros [H1 H2]. split; [|intros Hc; by apply H2]. intros x Hx. apply (Hi x Hx). split; [by apply H1|].
      intros Hc. by apply H2. }
  destruct (walk_container _ _ _ _ _) as [[]|x]; cbn [rbind].
  - rewrite IHi. destruct Hw as [Hw _]. destruct (Hw eq_refl) as [H1 H2]. rewrite H1. cbn [andb].
    destruct cp; [rewrite H2 by done; cbn [andb]; done|naive_solver].
  - split; [done|]. intros [H1 H2]. destruct Hw as [_ Hw]. apply andb_true_iff in H1 as [H1 _].
    rewrite Hw; [done|]. split; [exact H1|]. intros Hc. specialize (H2 Hc). by apply andb_true_iff in H2 as [? _].
Qed.

Lemma validate_group_grammar_ok cp h es :
  validate_group_grammar cp h es = Ok tt <->
  forallb shape_ok es = true /\
  (cp = true -> container_conforms h (container_fields es) && forallb (pairs_ok h) es = true).
Proof.
  unfold validate_group_grammar. rewrite walk_container_ok, <- container_conforms_eq, andb_true_iff, !forallb_Forall.
  rewrite !Forall_forall. setoid_rewrite check_group_ok. naive_solver.
Qed.

Lemma rbind_format {A B} (r : expected A) (k : A -> expected B) :
  (forall e, r = Err e -> e = wire_invalid_field_format) ->
  (forall a e, k a = Err e -> e = wire_invalid_field_format) ->
  forall e, rbind r k = Err e -> e = wire_invalid_field_format.
Proof. destruct r as [a|x]; cbn [rbind]; intros H1 H2 e He; [by eapply H2|]. injection He as <-. by apply H1. Qed.

(** Whatever a walk refuses, it calls it by one name. *)
Lemma walk_container_error cp h check k es :
  (forall n e, check n = Err e -> e = wire_invalid_field_format) ->
  forall e, walk_container cp h check k es = Err e -> e = wire_invalid_field_format.
Proof.
  intros Hc. revert k. induction es as [|n es IH]; intros k e; cbn [walk_container].
  - destruct (_ && _); [by intros [= <-]|done].
  - destruct (observe h k _ _) as [ok k']. destruct (_ && _); [by intros [= <-]|].
    by apply rbind_format; [apply Hc|intros _; apply IH].
Qed.

Lemma check_group_error cp h n : forall e, check_group cp h n = Err e -> e = wire_invalid_field_format.
Proof.
  induction n as [t v|t d insts IH] using entry_node_nested_ind; [done|]. cbn [check_group].
  induction IH as [|inst insts Hi _ IHi]; [done|]. intros e. destruct inst as [|first inst]; [by intros [= <-]|].
  destruct (negb _); [by intros [= <-]|]. revert e. apply rbind_format; [|intros _; exact IHi].
  generalize checker_init as k. clear IHi. induction Hi as [|n' es Hn _ IH']; intros k e; cbn [walk_container].
  - destruct (_ && _); [by intros [= <-]|done].
  - destruct (observe h k _ _) as [ok k']. destruct (_ && _); [by intros [= <-]|].
    by apply rbind_format; [apply Hn|intros _; apply IH'].
Qed.

Lemma validate_group_grammar_error cp h es e :
  validate_group_grammar cp h es = Err e -> e = wire_invalid_field_format.
Proof. apply walk_container_error, check_group_error. Qed.

(** *** Trees all of whose nodes are good *)

Inductive node_all (P : Z -> option bytes -> Prop) : entry_node -> Prop :=
  | scalar_all t v : P t (Some v) -> node_all P (ScalarNode t v)
  | group_all t d insts : P t None -> Forall (Forall (node_all P)) insts -> node_all P (GroupNode t d insts).

Lemma node_all_impl (P Q : Z -> option bytes -> Prop) n :
  (forall t v, P t v -> Q t v) -> node_all P n -> node_all Q n.
Proof.
  intros HPQ. induction n as [t v|t d insts IH] using entry_node_nested_ind; inversion_clear 1 as [|? ? ? Ht Hi];
    constructor; auto.
  induction IH as [|inst insts Hn _ IH]; [done|]. apply Forall_cons in Hi as [Hi1 Hi]. constructor; [|by apply IH].
  clear IH Hi. induction Hn as [|n es Hn _ IH]; [done|]. apply Forall_cons in Hi1 as [? ?]. constructor; auto.
Qed.

Lemma node_all_fields (P : Z -> option bytes -> Prop) (Q : Z * bytes -> Prop) n :
  (forall t v, P t (Some v) -> Q (t, v)) -> (forall t k, P t None -> Q (t, int64_text k)) ->
  node_all P n -> Forall Q (entry_fields n).
Proof.
  intros Hs Hg. induction n as [t v|t d insts IH] using entry_node_nested_ind; inversion_clear 1 as [|? ? ? Ht Hi];
    cbn [entry_fields]; constructor; auto.
  induction IH as [|inst insts Hn _ IH]; [done|]. apply Forall_cons in Hi as [Hi1 Hi]. cbn [map concat].
  apply Forall_app. split; [|by apply IH]. clear IH Hi.
  induction Hn as [|n es Hn _ IH]; [done|]. apply Forall_cons in Hi1 as [? ?]. cbn [map concat].
  apply Forall_app. auto.
Qed.

Lemma nodes_all_fields (P : Z -> option bytes -> Prop) (Q : Z * bytes -> Prop) es :
  (forall t v, P t (Some v) -> Q (t, v)) -> (forall t k, P t None -> Q (t, int64_text k)) ->
  Forall (node_all P) es -> Forall Q (body_fields es).
Proof.
  intros Hs Hg. induction 1 as [|n es Hn _ IH]; [constructor|]. unfold body_fields. cbn [map concat].
  apply Forall_app. split; [by eapply node_all_fields|exact IH].
Qed.

(** *** When no pair can occur *)

Definition unpaired (h : dict_hooks) (t : Z) : Prop := data_tag_for_length h t = 0 /\ length_tag_for_data h t = 0.

Lemma unpaired_nonstandard h t : length_pair_fn h = None -> standard_pair_tag_bit t = false -> unpaired h t.
Proof. unfold unpaired, data_tag_for_length, length_tag_for_data. by intros -> ->. Qed.

Lemma observe_unpaired h t v : unpaired h t -> observe h checker_init t v = (true, checker_init).
Proof. intros [H1 H2]. unfold observe. cbn [failed awaited_data checker_init]. by rewrite H1, H2. Qed.

Lemma container_unpaired h fs : Forall (fun f => unpaired h f.1) fs -> container_conforms h fs = true.
Proof.
  intros H. assert (E : observe_all h checker_init fs = Some checker_init).
  { induction H as [|[t v] fs Ht _ IH]; [done|]. cbn [observe_all]. by rewrite observe_unpaired. }
  unfold container_conforms. by rewrite E.
Qed.

Lemma containers_unpaired h es : Forall (node_all (fun t _ => unpaired h t)) es ->
  container_conforms h (container_fields es) = true.
Proof.
  intros H. apply container_unpaired, Forall_map. eapply Forall_impl; [exact H|].
  intros n Hn. by inversion Hn.
Qed.

Lemma pairs_unpaired h n : node_all (fun t _ => unpaired h t) n -> pairs_ok h n = true.
Proof.
  induction n as [t v|t d insts IH] using entry_node_nested_ind; [done|].
  inversion_clear 1 as [|? ? ? Ht Hi]. cbn [pairs_ok].
  induction IH as [|inst insts Hn _ IH]; [done|]. apply Forall_cons in Hi as [Hi1 Hi]. cbn [forallb].
  rewrite (containers_unpaired h inst Hi1), IH by done. rewrite andb_true_r. cbn [andb].
  apply forallb_Forall. clear IH Hi. rewrite !Forall_forall in *. auto.
Qed.

(** *** Containers one behind the other *)

(** Two checkers that await the same. *)
Definition alike (k k' : length_data_checker) : Prop :=
  failed k = false /\ failed k' = false /\ awaited_data k = awaited_data k' /\
  (awaited_data k <> 0 -> awaited_len k = awaited_len k').

Lemma observe_alike h k k' t v k1 : alike k k' -> observe h k t v = (true, k1) ->
  exists k1', observe h k' t v = (true, k1') /\ alike k1 k1'.
Proof.
  intros (Hf & Hf' & Ha & Hl) Ho.
  unfold observe in Ho |- *. rewrite Hf in Ho. rewrite Hf', <- Ha.
  destruct (awaited_data k =? 0) eqn:E; cbn [negb] in *.
  - destruct (negb (length_tag_for_data h t =? 0)); [done|].
    destruct (data_tag_for_length h t =? 0); [injection Ho as <-; by exists k'|].
    destruct (zlen v =? 0); [done|]. destruct (checked_count v 0) as [n|]; [|done].
    destruct (n =? 0); [done|]. injection Ho as <-. eexists. split; [done|]. by repeat split.
  - rewrite <- Hl by lia. injection Ho as Hok <-. rewrite Hok. eexists. split; [done|]. by repeat split.
Qed.

(** A group is no half of a pair, and changes nothing. *)
Lemma observe_group h k t k1 : failed k = false -> observe h k t [] = (true, k1) ->
  k1 = k /\ awaited_data k = 0 /\ forall k' v, failed k' = false -> awaited_data k' = 0 -> observe h k' t v = (true, k').
Proof.
  intros Hf. unfold observe. rewrite Hf. change (zlen (@nil Z) =? 0) with true. rewrite andb_false_r. cbn [andb].
  destruct (awaited_data k =? 0) eqn:E0; cbn [negb]; [|done]. destruct (negb (length_tag_for_data h t =? 0)) eqn:E1; [done|].
  destruct (data_tag_for_length h t =? 0) eqn:E2; [|done]. intros [= <-]. split; [done|].
  split; [lia|]. intros k' v Hf' Ha'. by rewrite Hf', Ha'.
Qed.

(** The fields of a tree, observed in a row, fare like its container alone. *)
Definition flat_alike (h : dict_hooks) (n : entry_node) : Prop :=
  forall k k' k1, pairs_ok h n = true -> alike k k' ->
    observe h k (entry_tag n) (match n with ScalarNode _ v => v | GroupNode _ _ _ => [] end) = (true, k1) ->
    exists k1', observe_all h k' (entry_fields n) = Some k1' /\ alike k1 k1'.

Lemma flat_container h es : Forall (flat_alike h) es -> forallb (pairs_ok h) es = true ->
  forall k k' k1, alike k k' -> observe_all h k (container_fields es) = Some k1 ->
  exists k1', observe_all h k' (body_fields es) = Some k1' /\ alike k1 k1'.
Proof.
  induction 1 as [|n es Hn _ IH]; intros Hp k k' k1 Ha Ho; [injection Ho as <-; by exists k'|].
  cbn [forallb] in Hp. apply andb_true_iff in Hp as [Hp1 Hp]. cbn [container_fields map observe_all] in Ho.
  destruct (observe h k _ _) as [[] k2] eqn:E; [|done].
  destruct (Hn k k' k2 Hp1 Ha E) as (k2' & E' & Ha2). unfold body_fields. cbn [map concat].
  rewrite observe_all_app, E'. by apply (IH Hp k2 k2' k1).
Qed.

Lemma flat_node h n : flat_alike h n.
Proof.
  induction n as [t v|t d insts IH] using entry_node_nested_ind; intros k k' k1 Hp Ha Ho; cbn [entry_fields observe_all entry_tag] in *.
  - destruct (observe_alike h k k' t v k1 Ha Ho) as (k1' & -> & Ha1). by exists k1'.
  - apply observe_group in Ho as (-> & H0 & Hg); [|apply Ha]. pose proof Ha as (_ & Hf' & Hd & _).
    rewrite Hg by (done || congruence). cbn [pairs_ok] in Hp. clear Hg. revert k' Ha Hf' Hd.
    induction IH as [|inst insts Hi _ IH]; intros k' Ha Hf' Hd; [by exists k'|]. cbn [forallb map concat] in *.
    apply andb_true_iff in Hp as [[Hc Hp1]%andb_true_iff Hp]. apply container_conforms_eq in Hc.
    destruct (observe_all h checker_init (container_fields inst)) as [kc|] eqn:Ec; [|done].
    cbn in Hc. apply andb_true_iff in Hc as [Hcf Hca].
    destruct (flat_container h inst Hi Hp1 checker_init k' kc) as (k2 & E2 & Ha2); [|done|].
    { split; [done|]. split; [done|]. split; [cbn; congruence|done]. }
    rewrite observe_all_app. fold (body_fields inst). rewrite E2. destruct Ha2 as (_ & Hf2 & Hd2 & _).
    apply (IH Hp k2); [|done|lia]. split; [apply Ha|]. split; [done|]. split; [lia|lia].
Qed.

Lemma flat_conforms h es : forallb (pairs_ok h) es = true ->
  container_conforms h (container_fields es) = true -> container_conforms h (body_fields es) = true.
Proof.
  rewrite !container_conforms_eq. intros Hp Hc.
  destruct (observe_all h checker_init (container_fields es)) as [k|] eqn:E; [|done].
  destruct (flat_container h es ltac:(apply Forall_forall; intros; apply flat_node) Hp checker_init checker_init k)
    as (k' & -> & Hf & Hf' & Ha & _); [by repeat split|done|].
  cbn in Hc |- *. apply andb_true_iff in Hc as [_ Hc]. rewrite Hf', <- Ha. exact Hc.
Qed.
