(* ===== verification/BodyRuns.v ===== *)
(** What an author can do with a body builder ([src/wire/body_builder.cpp]) by any sequence of
    calls: the paths of the handles stay good, the tree stays well formed, and what [commit]
    writes reads back. *)
From S2P Require Import Prelude Errors Decimal TagScan PairTable LengthData Writer FrameHeader BodyBuilder.

(** ** The calls *)

(** What the types of the arguments promise. *)
Definition value_ok (v : field_value) : Prop :=
  match v with
  | VString v | VData v => wf_bytes v
  | VChar c => is_byte c
  | VInt v => INT64_MIN <= v <= INT64_MAX
  | VDecimal v => INT64_MIN <= mantissa v <= INT64_MAX
  end.

Definition issued {A} (r : expected A) (l : list A) : list A := match r with Ok a => a :: l | Err _ => l end.

(** The states of a builder with the handles it issued so far; an author has those and default
    ones, and may keep any of them. *)
Inductive reachable (b0 : body_builder) : body_builder -> list group_handle -> list entry_handle -> Prop :=
  | reach_init : reachable b0 b0 [] []
  | reach_field b gs es tag v :
      reachable b0 b gs es -> tag16 tag -> value_ok v -> reachable b0 (field b tag v).2 gs es
  | reach_set b gs es e tag v r b' :
      reachable b0 b gs es -> e = no_entry_handle \/ e ∈ es -> tag16 tag -> value_ok v ->
      set_field b e tag v = Some (r, b') -> reachable b0 b' gs es
  | reach_begin b gs es no_tag d r b' :
      reachable b0 b gs es -> tag16 no_tag -> tag16 d -> group_begin b no_tag d = (r, b') ->
      reachable b0 b' (issued r gs) es
  | reach_add b gs es g r b' :
      reachable b0 b gs es -> g = no_group_handle \/ g ∈ gs -> add_entry b g = Some (r, b') ->
      reachable b0 b' gs (issued r es)
  | reach_nested b gs es e no_tag d r b' :
      reachable b0 b gs es -> e = no_entry_handle \/ e ∈ es -> tag16 no_tag -> tag16 d ->
      entry_group_begin b e no_tag d = Some (r, b') -> reachable b0 b' (issued r gs) es
  | reach_end b gs es g :
      reachable b0 b gs es -> reachable b0 (group_end b g).2 gs es.

(** ** Lemmas *)

(** *** Paths *)

(** Whatever path led to a group leads to it still, with no instance lost. *)
Definition keeps (es es' : list entry_node) : Prop :=
  forall g path t d insts, group_at g path es = Some (GroupNode t d insts) ->
    exists insts', group_at g path es' = Some (GroupNode t d insts') /\ (length insts <= length insts')%nat.

Lemma keeps_refl es : keeps es es.
Proof. intros g path t d insts H. by exists insts. Qed.

Lemma group_at_eq g path es :
  group_at g path es =
    match path with
    | [] => es !! g
    | (i, g') :: path =>
        match es !! g with
        | Some (GroupNode _ _ insts) =>
            match insts !! i with Some fields => group_at g' path fields | None => None end
        | _ => None
        end
    end.
Proof. destruct path as [|[]]; cbn [group_at]; by destruct (es !! g) as [[]|]. Qed.

Lemma group_at_app_nodes g path es added n : group_at g path es = Some n -> group_at g path (es ++ added) = Some n.
Proof.
  rewrite !(group_at_eq g path). destruct (es !! g) as [m|] eqn:E; [|by destruct path as [|[]]].
  by rewrite (lookup_app_l_Some _ _ _ _ E).
Qed.

Lemma keeps_app es added : keeps es (es ++ added).
Proof. intros g path t d insts H. exists insts. split; [by apply group_at_app_nodes|done]. Qed.

(** A list of instances that only grew. *)
Definition keeps_insts (insts insts' : list (list entry_node)) : Prop :=
  forall i fs, insts !! i = Some fs -> exists fs', insts' !! i = Some fs' /\ keeps fs fs'.

Lemma length_keeps insts insts' : keeps_insts insts insts' -> (length insts <= length insts')%nat.
Proof.
  intros H. destruct (decide (length insts <= length insts')%nat) as [|Hn]; [done|]. exfalso.
  destruct (lookup_lt_is_Some_2 insts (length insts')) as [fs Hi]; [lia|].
  destruct (H _ _ Hi) as (fs' & Hi' & _). apply lookup_lt_Some in Hi'. lia.
Qed.

Lemma keeps_insts_alter f i insts :
  (forall fs, insts !! i = Some fs -> keeps fs (f fs)) -> keeps_insts insts (alter f i insts).
Proof.
  intros Hf j fs Hj. destruct (decide (i = j)) as [->|Hne].
  - rewrite list_lookup_alter_eq, Hj. exists (f fs). split; [done|]. by apply Hf.
  - rewrite list_lookup_alter_ne by done. exists fs. split; [done|apply keeps_refl].
Qed.

(** One root changes. *)
Lemma keeps_root (f : entry_node -> entry_node) g0 es :
  (forall n, es !! g0 = Some n -> match n with
     | ScalarNode _ _ => f n = n
     | GroupNode t d insts => exists insts', f n = GroupNode t d insts' /\ keeps_insts insts insts'
     end) -> keeps es (alter f g0 es).
Proof.
  intros Hf g path t d insts. rewrite !(group_at_eq g path). destruct (decide (g0 = g)) as [->|Hne].
  2: { rewrite list_lookup_alter_ne by done. intros H. exists insts. split; [exact H|done]. }
  rewrite list_lookup_alter_eq. destruct (es !! g) as [n|]; cbn [fmap option_fmap option_map]; [|by destruct path as [|[]]].
  specialize (Hf n eq_refl). destruct n as [t' v'|t' d' insts0].
  - rewrite Hf. intros H. exists insts. split; [exact H|done].
  - destruct Hf as (insts' & -> & Hk). destruct path as [|[i g'] path].
    + intros [= -> -> ->]. exists insts'. split; [done|by apply length_keeps].
    + destruct (insts0 !! i) as [fs|] eqn:E; [|done]. destruct (Hk i fs E) as (fs' & -> & Hfs). apply Hfs.
Qed.

Lemma alter_group_eq f g path es :
  alter_group f g path es = alter (fun n =>
    match path with
    | [] => f n
    | (i, g') :: path =>
        match n with
        | GroupNode t d insts => GroupNode t d (alter (alter_group f g' path) i insts)
        | ScalarNode _ _ => n
        end
    end) g es.
Proof. by destruct path. Qed.

Lemma keeps_alter f g path es :
  (forall n, group_at g path es = Some n -> match n with
     | ScalarNode _ _ => f n = n
     | GroupNode t d insts => exists insts', f n = GroupNode t d insts' /\ keeps_insts insts insts'
     end) -> keeps es (alter_group f g path es).
Proof.
  revert g es. induction path as [|[i g'] path IH]; intros g es Hf; rewrite alter_group_eq; apply keeps_root; intros n Hn.
  - apply Hf. by rewrite group_at_eq, Hn.
  - destruct n as [|t d insts]; [done|]. eexists. split; [done|]. apply keeps_insts_alter. intros fs Hfs.
    apply IH. intros n Hn'. apply Hf. by rewrite group_at_eq, Hn, Hfs.
Qed.

Lemma group_at_alter f g path es n :
  group_at g path es = Some n -> group_at g path (alter_group f g path es) = Some (f n).
Proof.
  revert g es. induction path as [|[i g'] path IH]; intros g es; rewrite alter_group_eq, !group_at_eq, list_lookup_alter_eq.
  - by intros ->.
  - destruct (es !! g) as [[|t d insts]|]; cbn [fmap option_fmap option_map]; [done| |done].
    rewrite list_lookup_alter_eq. destruct (insts !! i) as [fs|]; cbn [fmap option_fmap option_map]; [apply IH|done].
Qed.

Lemma group_at_snoc g path i g' es :
  group_at g (path ++ [(i, g')]) es =
    match group_at g path es with
    | Some (GroupNode _ _ insts) => match insts !! i with Some fs => fs !! g' | None => None end
    | _ => None
    end.
Proof.
  revert g es. induction path as [|[i0 g0] path IH]; intros g es; cbn [app]; rewrite !(group_at_eq g).
  - destruct (es !! g) as [[|t d insts]|]; [done| |done]. destruct (insts !! i) as [fs|]; [|done].
    by rewrite group_at_eq.
  - destruct (es !! g) as [[|t d insts]|]; [done| |done]. by destruct (insts !! i0) as [fs|].
Qed.

Lemma resolve_instance_inv b e fields : resolve_instance b e = Some fields ->
  exists t d insts, resolve_group b (eh_group e) = Some (GroupNode t d insts) /\ insts !! eh_instance e = Some fields.
Proof.
  unfold resolve_instance. destruct (resolve_group b (eh_group e)) as [[|t d insts]|]; [done| |done].
  intros H. by exists t, d, insts.
Qed.

Lemma keeps_set_instance b e fields added : resolve_instance b e = Some fields ->
  keeps (bb_entries b) (set_instance e (fields ++ added) (bb_entries b)).
Proof.
  intros (t & d & insts & Hg & Hi)%resolve_instance_inv. apply keeps_alter. intros n Hn.
  unfold resolve_group in Hg. rewrite Hn in Hg. injection Hg as ->. eexists. split; [done|].
  rewrite list_insert_alter. apply keeps_insts_alter. intros fs Hfs. rewrite Hi in Hfs. injection Hfs as <-.
  apply keeps_app.
Qed.

Lemma keeps_add_instance h es : keeps es (add_instance h es).
Proof.
  apply keeps_alter. intros [|t d insts] _; [done|]. eexists. split; [done|]. intros i fs Hi. exists fs.
  split; [by apply lookup_app_l_Some|apply keeps_refl].
Qed.

(** *** What an append adds *)

Definition good (needed : bool) (t : Z) (v : option bytes) : Prop :=
  tag16 t /\ (forall w, v = Some w -> length_tag_for_data no_hooks t = 0 -> SOH ∉ w) /\
  (needed = false -> standard_pair_tag_bit t = false).

Lemma good_mono needed needed' t v : (needed' = false -> needed = false) -> good needed t v -> good needed' t v.
Proof. intros H (? & ? & Hb). split_and!; auto. Qed.

Lemma good_nodes_mono needed needed' es : (needed' = false -> needed = false) ->
  Forall (node_all (good needed)) es -> Forall (node_all (good needed')) es.
Proof.
  intros H. intros Hes. eapply Forall_impl; [exact Hes|]. intros n. apply node_all_impl. intros t v. by apply good_mono.
Qed.

(** The container after an append: what it held, and the good nodes it got. *)
Definition grown (s : container) (r : expected unit) (s' : container) : Prop :=
  exists added, s'.1 = s.1 ++ added /\ (s'.2 = false -> s.2 = false) /\
    Forall (node_all (good s'.2)) added /\ (is_ok r = false -> added = []).

Lemma grown_none s e : grown s (Err e) s.
Proof. exists []. rewrite app_nil_r. split_and!; [done|done|constructor|done]. Qed.

Lemma append_bytes_grown ok tag v s : tag16 tag -> (length_tag_for_data no_hooks tag = 0 -> SOH ∉ v) ->
  let '(r, s') := append_bytes_field ok tag v s in grown s r s'.
Proof.
  intros Ht Hv. unfold append_bytes_field, note_tag. destruct ok; cbn [fst snd].
  - exists [ScalarNode tag v]. cbn [fst snd]. split_and!; [done|by intros [? _]%orb_false_iff| |done].
    constructor; [|constructor]. constructor. split; [done|]. split; [by intros w [= <-]|].
    by intros [_ ?]%orb_false_iff.
  - exists []. cbn [fst snd]. rewrite app_nil_r. split_and!; [done|by intros [? _]%orb_false_iff|constructor|done].
Qed.

Lemma clean_no_soh v : is_clean_field_value v = true -> SOH ∉ v.
Proof.
  unfold is_clean_field_value. rewrite forallb_Forall, Forall_forall. intros H Hin. by specialize (H _ Hin).
Qed.

Lemma append_string_grown ok tag v s : tag16 tag ->
  let '(r, s') := append_string_field ok tag v s in grown s r s'.
Proof.
  intros Ht. unfold append_string_field. destruct (is_framing_tag tag); [apply grown_none|].
  destruct (is_clean_field_value v) eqn:E; cbn [negb]; [|apply grown_none].
  apply append_bytes_grown; [done|]. intros _. by apply clean_no_soh.
Qed.

Lemma append_int_grown ok tag v s : tag16 tag -> let '(r, s') := append_int_field ok tag v s in grown s r s'.
Proof.
  intros Ht. unfold append_int_field. destruct (is_framing_tag tag); [apply grown_none|].
  apply append_bytes_grown; [done|]. intros _. apply int64_text_clean.
Qed.

Lemma append_int_ok ok tag v s u s' : append_int_field ok tag v s = (Ok u, s') ->
  s'.1 = s.1 ++ [ScalarNode tag (int64_text v)].
Proof.
  unfold append_int_field, append_bytes_field. destruct (is_framing_tag tag); [done|]. destruct ok; [|done].
  by intros [= _ <-].
Qed.

Lemma append_data_grown ok ok' tag v s : tag16 tag ->
  let '(r, s') := append_data_field ok ok' tag v s in grown s r s'.
Proof.
  intros Ht. unfold append_data_field. destruct (is_framing_tag tag); [apply grown_none|].
  destruct (length_tag_for_data no_hooks tag =? 0) eqn:El; [apply grown_none|].
  destruct v as [|c v]; [apply grown_none|]. set (value := c :: v).
  pose proof (append_int_grown ok (length_tag_for_data no_hooks tag) (zlen value) s
    (length_tag_range no_hooks tag no_hooks_ok)) as H1.
  destruct (append_int_field _ _ _ _) as [[u|e] s1] eqn:Ei; [|exact H1].
  destruct H1 as (added & E1 & Hn1 & Hg1 & _).
  pose proof (append_bytes_grown ok' tag value s1 Ht ltac:(lia)) as H2.
  unfold append_bytes_field in *. destruct ok'.
  - destruct H2 as (added2 & E2 & Hn2 & Hg2 & _). exists (added ++ added2). cbn [fst snd] in *.
    split_and!; [by rewrite E2, E1, app_assoc|by intros ?; apply Hn1, Hn2| |done].
    apply Forall_app. split; [|exact Hg2]. by apply (good_nodes_mono s1.2).
  - destruct H2 as (_ & _ & Hn2 & _). exists []. apply append_int_ok in Ei. cbn [fst snd note_tag] in *.
    rewrite Ei, removelast_last, app_nil_r. split_and!; [done|by intros ?; apply Hn1, Hn2|constructor|done].
Qed.

Lemma append_value_grown ok ok' tag v s : tag16 tag ->
  let '(r, s') := append_value ok ok' tag v s in grown s r s'.
Proof.
  intros Ht. destruct v; cbn [append_value];
    [by apply append_string_grown|by apply append_string_grown|by apply append_int_grown| |by apply append_data_grown].
  unfold append_decimal_field. destruct (is_framing_tag tag); [apply grown_none|].
  destruct (to_chars v (replicate 64 0)) as [[buf n]|e] eqn:E; [|apply grown_none].
  apply append_bytes_grown; [done|]. intros _. by eapply decimal_text_clean.
Qed.

(** *** Nodes along a path *)

Lemma all_alter_group P f g path es :
  (forall n, group_at g path es = Some n -> node_all P n -> node_all P (f n)) ->
  Forall (node_all P) es -> Forall (node_all P) (alter_group f g path es).
Proof.
  revert g es. induction path as [|[i g'] path IH]; intros g es Hf Hes; rewrite alter_group_eq;
    apply Forall_alter; try done; intros n Hn Hp.
  - apply Hf; [by rewrite group_at_eq|done].
  - destruct n as [|t d insts]; [done|]. inversion_clear Hp as [|? ? ? Ht Hi]. constructor; [done|].
    apply Forall_alter; [done|]. intros fs Hfs Hall. apply IH; [|done]. intros n Hn'. apply Hf.
    by rewrite group_at_eq, Hn, Hfs.
Qed.

Lemma all_set_instance P b e fields added : resolve_instance b e = Some fields ->
  Forall (node_all P) (bb_entries b) -> Forall (node_all P) added ->
  Forall (node_all P) (set_instance e (fields ++ added) (bb_entries b)).
Proof.
  intros (t & d & insts & Hg & Hi)%resolve_instance_inv Hall Ha. apply all_alter_group; [|done]. intros n Hn Hp.
  unfold resolve_group in Hg. rewrite Hn in Hg. injection Hg as ->. inversion_clear Hp as [|? ? ? Ht Hins].
  constructor; [done|]. apply Forall_insert; [done|]. apply Forall_app. split; [|done].
  eapply Forall_lookup_1; [exact Hins|exact Hi].
Qed.

Lemma all_add_instance P h es : Forall (node_all P) es -> Forall (node_all P) (add_instance h es).
Proof.
  apply all_alter_group. intros [|t d insts] _ Hp; [done|]. inversion_clear Hp as [|? ? ? Ht Hins].
  constructor; [done|]. apply Forall_app. by split; [|repeat constructor].
Qed.

(** *** What every reachable builder keeps *)

Definition group_good (es : list entry_node) (h : group_handle) : Prop :=
  exists t d insts, group_at (gh_root h) (gh_path h) es = Some (GroupNode t d insts).

Definition entry_good (es : list entry_node) (e : entry_handle) : Prop :=
  exists t d insts, group_at (gh_root (eh_group e)) (gh_path (eh_group e)) es = Some (GroupNode t d insts) /\
    (eh_instance e < length insts)%nat.

Record author_ok (b0 b : body_builder) (gs : list group_handle) (es : list entry_handle) : Prop := {
  ao_nodes : Forall (node_all (good (bb_pair_check_needed b))) (bb_entries b);
  ao_hooks : bb_pair_check_needed b = false -> length_pair_fn (bb_hooks b) = None;
  ao_same : bb_hooks b = bb_hooks b0 /\ bb_msg_type b = bb_msg_type b0 /\ bb_addr b = bb_addr b0;
  ao_groups : Forall (group_good (bb_entries b)) gs;
  ao_entries : Forall (entry_good (bb_entries b)) es;
}.

Lemma group_good_keeps es es' h : keeps es es' -> group_good es h -> group_good es' h.
Proof. intros Hk (t & d & insts & H). destruct (Hk _ _ _ _ _ H) as (insts' & H' & _). by exists t, d, insts'. Qed.

Lemma entry_good_keeps es es' e : keeps es es' -> entry_good es e -> entry_good es' e.
Proof.
  intros Hk (t & d & insts & H & Hl). destruct (Hk _ _ _ _ _ H) as (insts' & H' & Hl').
  exists t, d, insts'. split; [done|lia].
Qed.

(** A step that grows the tree. *)
Lemma author_step b0 b b' gs es : author_ok b0 b gs es -> keeps (bb_entries b) (bb_entries b') ->
  (bb_pair_check_needed b' = false -> bb_pair_check_needed b = false) ->
  Forall (node_all (good (bb_pair_check_needed b'))) (bb_entries b') ->
  bb_hooks b' = bb_hooks b -> bb_msg_type b' = bb_msg_type b -> bb_addr b' = bb_addr b ->
  author_ok b0 b' gs es.
Proof.
  intros [H1 H2 (H3 & H4 & H5) H6 H7] Hk Hn Hg Eh Em Ea. constructor.
  - exact Hg.
  - intros H. rewrite Eh. by apply H2, Hn.
  - split_and!; congruence.
  - eapply Forall_impl; [exact H6|]. intros h. by apply group_good_keeps.
  - eapply Forall_impl; [exact H7|]. intros e. by apply entry_good_keeps.
Qed.

Lemma author_issue_group b0 b gs es h : author_ok b0 b gs es -> group_good (bb_entries b) h ->
  author_ok b0 b (h :: gs) es.
Proof. intros [] Hg. constructor; try done. by constructor. Qed.

Lemma author_issue_entry b0 b gs es e : author_ok b0 b gs es -> entry_good (bb_entries b) e ->
  author_ok b0 b gs (e :: es).
Proof. intros [] Hg. constructor; try done. by constructor. Qed.

Lemma note_nodes needed t es : Forall (node_all (good needed)) es -> Forall (node_all (good (needed || t))) es.
Proof. apply good_nodes_mono. by intros [? _]%orb_false_iff. Qed.

Lemma field_author b0 b gs es tag v : author_ok b0 b gs es -> tag16 tag ->
  author_ok b0 (field b tag v).2 gs es.
Proof.
  intros Ha Ht. unfold field. destruct (grants b) as [ok ok'].
  pose proof (append_value_grown ok ok' tag v (bb_entries b, bb_pair_check_needed b) Ht) as Hg.
  destruct (append_value _ _ _ _ _) as [r [es' needed']]. destruct Hg as (added & E & Hn & Hadd & _).
  cbn [fst snd] in *. subst es'. eapply author_step; try done; cbn.
  - apply keeps_app.
  - apply Forall_app. split; [|done]. eapply good_nodes_mono; [exact Hn|apply Ha].
Qed.

Lemma set_field_author b0 b gs es e tag v r b' : author_ok b0 b gs es -> tag16 tag ->
  set_field b e tag v = Some (r, b') -> author_ok b0 b' gs es.
Proof.
  intros Ha Ht. unfold set_field. destruct (gh_owner (eh_group e)); [|by intros [= _ <-]].
  destruct (negb _); [by intros [= _ <-]|]. destruct (resolve_instance b e) as [fields|] eqn:Er; [|done].
  destruct (grants b) as [ok ok'].
  pose proof (append_value_grown ok ok' tag v (fields, bb_pair_check_needed b) Ht) as Hg.
  destruct (append_value _ _ _ _ _) as [r' [es' needed']]. destruct Hg as (added & E & Hn & Hadd & _).
  cbn [fst snd] in *. subst es'. intros [= _ <-]. eapply author_step; try done; cbn.
  - by apply keeps_set_instance.
  - apply all_set_instance; [done| |done]. eapply good_nodes_mono; [exact Hn|apply Ha].
Qed.

Lemma open_group_author b0 b gs es ok ok' es_after h needed r b' : author_ok b0 b gs es ->
  keeps (bb_entries b) es_after -> (needed = false -> bb_pair_check_needed b = false) ->
  Forall (node_all (good needed)) es_after -> group_good es_after h ->
  open_group ok ok' (bb_entries b) es_after h needed b = (r, b') -> author_ok b0 b' (issued r gs) es.
Proof.
  intros Ha Hk Hn Hg Hh. unfold open_group.
  assert (Hstay : forall next, author_ok b0 (with_stack (bb_open_stack b) next
    (with_container (bb_entries b) needed (bb_requests b + 2) b)) gs es).
  { intros next. eapply author_step; try done; cbn; [apply keeps_refl|].
    eapply good_nodes_mono; [exact Hn|apply Ha]. }
  destruct ok; cbn [negb].
  2: { intros [= <- <-]. apply (Hstay (bb_next_open_seq b)). }
  destruct ok'; cbn [negb]; intros [= <- <-]; [|apply Hstay].
  apply author_issue_group; [|exact Hh]. by eapply author_step.
Qed.

Lemma group_begin_author b0 b gs es no_tag d r b' : author_ok b0 b gs es -> tag16 no_tag ->
  group_begin b no_tag d = (r, b') -> author_ok b0 b' (issued r gs) es.
Proof.
  intros Ha Ht. unfold group_begin. destruct (is_framing_tag no_tag); [by intros [= <- <-]|].
  destruct (grants b) as [ok ok']. apply open_group_author; [done|apply keeps_app| | |].
  - by intros [? _]%orb_false_iff.
  - apply Forall_app. split; [apply note_nodes; apply Ha|]. constructor; [|constructor]. constructor; [|constructor].
    split; [done|]. split; [done|]. by intros [_ ?]%orb_false_iff.
  - exists no_tag, d, []. cbn. by rewrite list_lookup_middle.
Qed.

Lemma add_entry_author b0 b gs es g r b' : author_ok b0 b gs es -> g = no_group_handle \/ g ∈ gs ->
  add_entry b g = Some (r, b') -> author_ok b0 b' gs (issued r es).
Proof.
  intros Ha Hg. unfold add_entry. destruct (gh_owner g) as [o|] eqn:Eo; [|by intros [= <- <-]].
  destruct Hg as [-> |Hg]; [done|]. destruct (negb _); [by intros [= <- <-]|].
  pose proof (ao_groups _ _ _ _ Ha) as Hgs. rewrite Forall_forall in Hgs.
  destruct (Hgs g Hg) as (t & d & insts & Hat). unfold instance_count, resolve_group. rewrite Hat.
  destruct (grants b) as [ok ok']. destruct ok; intros [= <- <-].
  - apply author_issue_entry.
    + eapply author_step; try done; cbn; [apply keeps_add_instance|apply all_add_instance; apply Ha].
    + exists t, d, (insts ++ [[]]). cbn [bb_entries with_container eh_group eh_instance]. unfold add_instance.
      rewrite (group_at_alter _ _ _ _ _ Hat). split; [done|]. rewrite length_app. cbn. lia.
  - eapply author_step; try done; cbn; [apply keeps_refl|apply Ha].
Qed.

Lemma nested_author b0 b gs es e no_tag d r b' : author_ok b0 b gs es -> tag16 no_tag ->
  entry_group_begin b e no_tag d = Some (r, b') -> author_ok b0 b' (issued r gs) es.
Proof.
  intros Ha Ht. unfold entry_group_begin. destruct (gh_owner (eh_group e)); [|by intros [= <- <-]].
  destruct (is_framing_tag no_tag); [by intros [= <- <-]|]. destruct (negb _); [by intros [= <- <-]|].
  destruct (_ <=? _); [by intros [= <- <-]|]. destruct (resolve_instance b e) as [fields|] eqn:Er; [|done].
  destruct (grants b) as [ok ok']. intros [= Ho]. revert Ho. apply open_group_author; [done| | | |].
  - by apply keeps_set_instance.
  - by intros [? _]%orb_false_iff.
  - apply all_set_instance; [done|apply note_nodes; apply Ha|]. constructor; [|constructor]. constructor; [|constructor].
    split; [done|]. split; [done|]. by intros [_ ?]%orb_false_iff.
  - apply resolve_instance_inv in Er as (t & d' & insts & Hg & Hi). unfold resolve_group in Hg.
    exists no_tag, d, []. cbn [gh_root gh_path]. rewrite group_at_snoc. unfold set_instance.
    rewrite (group_at_alter _ _ _ _ _ Hg). rewrite list_lookup_insert_eq by (by eapply lookup_lt_Some).
    by rewrite list_lookup_middle.
Qed.

Lemma group_end_author b0 b gs es g : author_ok b0 b gs es -> author_ok b0 (group_end b g).2 gs es.
Proof.
  intros Ha. unfold group_end. destruct (gh_owner g); [|exact Ha]. destruct (bb_open_stack b) as [|s stack]; [exact Ha|].
  destruct (_ || _); [exact Ha|]. cbn [snd]. eapply author_step; try done; cbn; [apply keeps_refl|apply Ha].
Qed.

Lemma init_author addr mt h arena : author_ok (body_builder_init addr mt h arena) (body_builder_init addr mt h arena) [] [].
Proof. constructor; cbn; try constructor; try done. by destruct (length_pair_fn h). Qed.

Lemma reachable_author addr mt h arena b gs es :
  reachable (body_builder_init addr mt h arena) b gs es -> author_ok (body_builder_init addr mt h arena) b gs es.
Proof.
  induction 1 as [|b gs es tag v _ IH Ht|b gs es e tag v r b' _ IH _ Ht _ E|b gs es no_tag d r b' _ IH Ht _ E
    |b gs es g r b' _ IH Hg E|b gs es e no_tag d r b' _ IH _ Ht _ E|b gs es g _ IH].
  - apply init_author.
  - by apply field_author.
  - by eapply set_field_author.
  - by eapply group_begin_author.
  - by eapply add_entry_author.
  - by eapply nested_author.
  - by apply group_end_author.
Qed.

(** *** What commit writes *)

Lemma nodes_unpaired h es : length_pair_fn h = None -> Forall (node_all (good false)) es ->
  Forall (node_all (fun t _ => unpaired h t)) es.
Proof.
  intros Hh Hes. eapply Forall_impl; [exact Hes|]. intros n. apply node_all_impl. intros t v (_ & _ & Hb).
  apply unpaired_nonstandard; [done|by apply Hb].
Qed.

(** The check that is skipped would pass. *)
Lemma pair_check_exact b0 b gs es : author_ok b0 b gs es ->
  validate_group_grammar (bb_pair_check_needed b) (bb_hooks b) (bb_entries b) = Ok tt <->
  body_ok (bb_hooks b) (bb_entries b) = true.
Proof.
  intros Ha. unfold body_ok. rewrite validate_group_grammar_ok, (andb_true_iff (forallb _ _)).
  destruct (bb_pair_check_needed b) eqn:E; [naive_solver|]. split; [|naive_solver]. intros [H _]. split; [done|].
  pose proof (ao_nodes _ _ _ _ Ha) as Hn. rewrite E in Hn. apply (nodes_unpaired _ _ (ao_hooks _ _ _ _ Ha E)) in Hn.
  rewrite (containers_unpaired _ _ Hn). cbn [andb]. apply forallb_Forall. eapply Forall_impl; [exact Hn|].
  intros n. apply pairs_unpaired.
Qed.

(** The fields of the body, MsgType first. *)
Definition message_fields (b : body_builder) : list (Z * bytes) :=
  (35, bb_msg_type b) :: body_fields (bb_entries b).

(** Why [commit] refuses, if it does. *)
Definition commit_refusal (b : body_builder) (room : Z) : option error :=
  if negb (bool_decide (bb_open_stack b = [])) then Some wire_invalid_field_format
  else if negb (body_ok (bb_hooks b) (bb_entries b)) then Some wire_invalid_field_format
  else if bool_decide (bb_msg_type b = []) || negb (is_clean_field_value (bb_msg_type b))
  then Some wire_field_value_out_of_range
  else if Z.min kBodyCap room <? zlen (fields_bytes (message_fields b)) then Some wire_frame_too_large
  else None.

Lemma message_text b :
  fields_bytes (message_fields b) = [51; 53; EQ] ++ bb_msg_type b ++ [SOH] ++ serialize_entries (bb_entries b).
Proof.
  unfold message_fields. rewrite fields_bytes_cons, serialize_fields. unfold field_text.
  change (dec_text 35) with [51; 53]. cbn [app]. by rewrite <- app_assoc.
Qed.

(** Past the checks of its tree and of its type, a message is refused for its length only. *)
Lemma commit_text b out :
  bb_open_stack b = [] -> validate_group_grammar (bb_pair_check_needed b) (bb_hooks b) (bb_entries b) = Ok tt ->
  bb_msg_type b <> [] -> is_clean_field_value (bb_msg_type b) = true ->
  commit b out =
    let text := fields_bytes (message_fields b) in
    if Z.min kBodyCap (zlen out) <? zlen text then (Err wire_frame_too_large, out)
    else (Ok (zlen text), text ++ zdrop (zlen text) out).
Proof.
  intros Hs Hv Hne Hc. unfold commit. rewrite Hs, Hv, Hc, message_text. cbn [negb]. cbv zeta.
  set (text := [51; 53; EQ] ++ bb_msg_type b ++ [SOH] ++ serialize_entries (bb_entries b)).
  destruct (bb_msg_type b) as [|c mt] eqn:Em; [done|]. rewrite <- Em.
  assert (Ht : 3 + zlen (bb_msg_type b) + 1 + compute_size (bb_entries b) = zlen text).
  { unfold text. rewrite Em, !zlen_app, <- serialize_size. change (zlen [51; 53; EQ]) with 3. change (zlen [SOH]) with 1. lia. }
  rewrite Ht. assert (Htake : ztake (zlen text) text = text) by (by rewrite <- (app_nil_r text) at 2; rewrite ztake_app).
  rewrite Htake. destruct (kBodyCap <? zlen text) eqn:E1, (zlen out <? zlen text) eqn:E2.
  all: try (by replace (Z.min kBodyCap (zlen out) <? zlen text) with true by lia).
  by replace (Z.min kBodyCap (zlen out) <? zlen text) with false by lia.
Qed.

Lemma author_commit b0 b gs es out : author_ok b0 b gs es ->
  commit b out =
    match commit_refusal b (zlen out) with
    | Some e => (Err e, out)
    | None => let body := fields_bytes (message_fields b) in (Ok (zlen body), body ++ zdrop (zlen body) out)
    end.
Proof.
  intros Ha. unfold commit_refusal. destruct (bb_open_stack b) as [|s stack] eqn:Es; [|by unfold commit; rewrite Es].
  rewrite bool_decide_eq_true_2 by done. cbn [negb]. pose proof (pair_check_exact _ _ _ _ Ha) as Hp.
  destruct (validate_group_grammar _ _ _) as [[]|e] eqn:Ev.
  2: { destruct (body_ok _ _); [by destruct Hp as [_ Hp]; specialize (Hp eq_refl)|]. unfold commit. rewrite Es, Ev.
       by rewrite (validate_group_grammar_error _ _ _ _ Ev). }
  rewrite (proj1 Hp eq_refl). cbn [negb]. case_bool_decide as Hm; [by unfold commit; rewrite Es, Ev, Hm|].
  destruct (is_clean_field_value (bb_msg_type b)) eqn:Ec; cbn [negb orb].
  - rewrite commit_text by done. cbv zeta. by destruct (_ <? _).
  - unfold commit. rewrite Es, Ev, Ec. by destruct (bb_msg_type b).
Qed.

Lemma message_conforms b h : unpaired h 35 ->
  body_ok h (bb_entries b) = true -> container_conforms h (message_fields b) = true.
Proof.
  intros Hu Hb. unfold body_ok in Hb. apply andb_true_iff in Hb as [_ Hb]. apply andb_true_iff in Hb as [Hc Hp].
  pose proof (flat_conforms h _ Hp Hc) as Hf. unfold container_conforms, message_fields in *. cbn [observe_all].
  by rewrite observe_unpaired.
Qed.

Lemma standard_length_tag h t : length_tag_for_data h t = 0 -> length_tag_for_data no_hooks t = 0.
Proof. unfold length_tag_for_data. by destruct (standard_pair_tag_bit t). Qed.

(** ** Properties *)

(** C20: no handle leads nowhere.  After any calls of an author, refused ones and refused
    allocations included, every operation through a handle of this builder - held however
    long, of a closed group or of an older instance - finds its group and its instance, and a
    default handle is refused before any is looked for. *)
Theorem body_handles_safe addr mt h arena b gs es g e tag v no_tag d :
  reachable (body_builder_init addr mt h arena) b gs es ->
  g = no_group_handle \/ g ∈ gs -> e = no_entry_handle \/ e ∈ es ->
  add_entry b g <> None /\ set_field b e tag v <> None /\ entry_group_begin b e no_tag d <> None.
Proof.
  intros Hr Hg He. apply reachable_author in Hr as [_ _ _ Hgs Hes]. rewrite Forall_forall in Hgs. rewrite Forall_forall in Hes. split.
  - unfold add_entry. destruct (gh_owner g) eqn:Eo; [|done]. destruct Hg as [-> |Hg]; [done|].
    destruct (Hgs g Hg) as (t & d' & insts & Hat). unfold instance_count, resolve_group. rewrite Hat.
    destruct (negb _); [done|]. by destruct (grants b) as [[] ?].
  - destruct (gh_owner (eh_group e)) as [o|] eqn:Eo.
    2: { unfold set_field, entry_group_begin. by rewrite Eo. }
    destruct He as [-> |He]; [done|]. destruct (Hes e He) as (t & d' & insts & Hat & Hi).
    apply lookup_lt_is_Some_2 in Hi as [fields Hi].
    assert (Hres : resolve_instance b e = Some fields) by (unfold resolve_instance, resolve_group; by rewrite Hat).
    unfold set_field, entry_group_begin. rewrite Eo, Hres. split.
    + destruct (negb _); [done|]. destruct (grants b) as [ok ok']. by destruct (append_value _ _ _ _ _) as [? [? ?]].
    + destruct (is_framing_tag no_tag); [done|]. destruct (negb _); [done|]. destruct (_ <=? _); [done|].
      by destruct (grants b).
Qed.

(** C18: [commit] is all or nothing.  After any calls of an author it writes, and answers the
    length of, exactly the text of MsgType and the fields of the tree in order, each group
    behind its count; or it leaves the buffer as it was and names the first thing wrong: an
    open group, an instance without its delimiter or a malformed Length+Data pair in some
    container, a MsgType that is empty or not printable, a text longer than 3800 bytes or the
    buffer.  The pair check it skips when no tag could be half of one would have passed. *)
Theorem body_commit_exact addr mt h arena b gs es out :
  reachable (body_builder_init addr mt h arena) b gs es ->
  commit b out =
    match commit_refusal b (zlen out) with
    | Some e => (Err e, out)
    | None => let body := fields_bytes (message_fields b) in (Ok (zlen body), body ++ zdrop (zlen body) out)
    end.
Proof. intros Hr. eapply author_commit. by apply reachable_author. Qed.

(** C19: a committed body reads back.  Whatever the author put in it - Data values with any bytes
    included - a scanner with the builder's dictionary splits it, without a fault, into exactly
    MsgType and the fields of the tree. *)
Theorem body_reads_back addr mt h arena b gs es out n out' :
  reachable (body_builder_init addr mt h arena) b gs es -> hooks_ok h -> unpaired h 35 ->
  commit b out = (Ok n, out') ->
  split_fields (ztake n out') h = (message_fields b, (fault_none, 0, 0)).
Proof.
  intros Hr Hh Hu. apply reachable_author in Hr as Ha. rewrite (author_commit _ _ _ _ _ Ha).
  pose proof (ao_same _ _ _ _ Ha) as (Hhk & _). cbn in Hhk.
  unfold commit_refusal. destruct (bb_open_stack b); [|done].
  rewrite bool_decide_eq_true_2 by done. cbn [negb]. destruct (body_ok _ _) eqn:Eb; cbn [negb]; [|done].
  rewrite Hhk in Eb.
  destruct (bool_decide (bb_msg_type b = []) || negb (is_clean_field_value (bb_msg_type b))) eqn:Em; [done|].
  apply orb_false_iff in Em as [_ Em%negb_false_iff]. destruct (_ <? _); [done|]. cbv zeta.
  remember (fields_bytes (message_fields b)) as body eqn:Ebody. intros [= <- <-].
  rewrite ztake_app, Ebody. apply split_conforming; [done|by apply message_conforms| |].
  - constructor; [cbn; lia|]. eapply nodes_all_fields; [| |apply Ha]; intros t v (Ht & _); exact Ht.
  - constructor; [intros _; by apply clean_no_soh|]. eapply nodes_all_fields; [| |apply Ha].
    + intros t v (_ & Hv & _) Hl. apply Hv; [done|]. by eapply standard_length_tag.
    + intros t k _ _. apply int64_text_clean.
Qed.

(** [35=D|11=A|95=3|96=.=.|453=1|448=P]: RawData with an SOH, then a group of one instance. *)
Definition sample_start : body_builder := body_builder_init 1 [68] no_hooks (fun _ => true).
Definition sample_data : body_builder :=
  (field (field sample_start 11 (VString [65])).2 96 (VData [1; 61; 1])).2.
Definition sample_group : body_builder := (group_begin sample_data 453 448).2.
Definition sample_handle : group_handle := GroupHandle (Some 1) 3 [] 1.
Definition sample_instance : entry_handle := EntryHandle sample_handle 0.
Definition after {A} (r : option (A * body_builder)) : body_builder :=
  match r with Some (_, b) => b | None => sample_start end.
Definition sample_entry : body_builder := after (add_entry sample_group sample_handle).
Definition sample_set : body_builder := after (set_field sample_entry sample_instance 448 (VString [80])).
Definition sample_body : body_builder := (group_end sample_set sample_handle).2.

Lemma sample_reachable : reachable sample_start sample_body [sample_handle] [sample_instance].
Proof.
  apply reach_end. eapply (reach_set _ sample_entry _ _ sample_instance 448 (VString [80]));
    [|right; by apply list_elem_of_singleton|unfold tag16; lia|repeat constructor; done|vm_compute; reflexivity].
  apply (reach_add _ sample_group [sample_handle] [] sample_handle (Ok sample_instance));
    [|right; by apply list_elem_of_singleton|vm_compute; reflexivity].
  apply (reach_begin _ sample_data [] [] 453 448 (Ok sample_handle)); [|unfold tag16; lia..|vm_compute; reflexivity].
  apply reach_field; [apply reach_field; [apply reach_init|unfold tag16; lia|repeat constructor; done]
    |unfold tag16; lia|repeat constructor; done].
Qed.

Lemma body_handles_safe_witness :
  add_entry sample_body sample_handle <> None /\ set_field sample_body sample_instance 447 (VChar 68) <> None /\
  entry_group_begin sample_body no_entry_handle 802 523 <> None.
Proof.
  destruct (body_handles_safe 1 [68] no_hooks (fun _ => true) sample_body _ _ sample_handle sample_instance
    447 (VChar 68) 802 523 sample_reachable) as (H1 & H2 & _); [right; by apply list_elem_of_singleton..|].
  split; [exact H1|]. split; [exact H2|].
  apply (body_handles_safe 1 [68] no_hooks (fun _ => true) sample_body _ _ no_group_handle no_entry_handle
    447 (VChar 68) 802 523 sample_reachable); by left.
Defined.

(** The body, and the refusal while the group is open. *)
Lemma body_commit_exact_witness :
  (commit sample_body (replicate 64 0)).1 = Ok 34 /\
  commit sample_entry (replicate 64 0) = (Err wire_invalid_field_format, replicate 64 0).
Proof.
  split.
  - rewrite (body_commit_exact 1 [68] no_hooks (fun _ => true) sample_body _ _ (replicate 64 0) sample_reachable).
    vm_compute. reflexivity.
  - vm_compute. reflexivity.
Defined.

Lemma body_reads_back_witness :
  split_fields (ztake 34 (commit sample_body (replicate 64 0)).2) no_hooks =
    ([(35, [68]); (11, [65]); (95, [51]); (96, [1; 61; 1]); (453, [49]); (448, [80])], (fault_none, 0, 0)).
Proof.
  apply (body_reads_back 1 [68] no_hooks (fun _ => true) sample_body _ _ (replicate 64 0) 34 _ sample_reachable);
    [apply no_hooks_ok|split; vm_compute; reflexivity|vm_compute; reflexivity].
Defined.
