(* ===== verification/BusinessMessages.v ===== *)
(** The typed application messages, [src/session/business_messages.cpp]: five builders above
    the body builder, from NewOrderSingle to AllocationReport, with the groups two of them
    nest. *)
From S2P Require Import Prelude Errors Decimal TagScan PairTable LengthData Writer FrameHeader BodyBuilder BodyRuns.

(** ** Checks of an argument *)

Definition is_valid_side (c : Z) : bool := (c =? 49) || (c =? 50).

(** [YYYYMMDD-HH:MM:SS], or with milliseconds. *)
Definition is_valid_utc_timestamp (v : bytes) : bool :=
  let d i := is_digit (zget v i) in
  if negb (zlen v =? 17) && negb (zlen v =? 21) then false
  else if negb (zget v 8 =? 45) then false
  else if negb (zget v 11 =? 58) then false
  else if negb (zget v 14 =? 58) then false
  else if negb (forallb d [0; 1; 2; 3; 4; 5; 6; 7; 9; 10; 12; 13; 15; 16]) then false
  else if zlen v =? 21 then
    if negb (zget v 17 =? 46) then false
    else if negb (d 18) || negb (d 19) || negb (d 20) then false
    else true
  else true.

(** ** Steps on a builder *)

(** A step answers, or fails and the function returns; [None] is an access through a handle
    that leads nowhere. *)
Definition B (A : Type) : Type := body_builder -> option (expected A * body_builder).

Definition ret {A} (a : A) : B A := fun b => Some (Ok a, b).
Definition fails {A} (e : error) : B A := fun b => Some (Err e, b).
Definition bind {A C} (m : B A) (k : A -> B C) : B C := fun b =>
  match m b with
  | Some (Ok a, b) => k a b
  | Some (Err e, b) => Some (Err e, b)
  | None => None
  end.

Declare Scope builder_scope.
Delimit Scope builder_scope with builder.
Notation "x <-- m ; k" := (bind m (fun x => k)) (at level 100, m at next level, k at level 200, right associativity) : builder_scope.
Notation "m ;;; k" := (bind m (fun _ => k)) (at level 100, k at level 200, right associativity) : builder_scope.
Local Open Scope builder_scope.

Definition unless (failing : bool) (e : error) : B unit := if failing then fails e else ret tt.
Definition put (tag : Z) (v : field_value) : B unit := fun b => Some (field b tag v).
Definition set (e : entry_handle) (tag : Z) (v : field_value) : B unit := fun b => set_field b e tag v.
Definition begin_group (no_tag d : Z) : B group_handle := fun b => Some (group_begin b no_tag d).
Definition begin_nested (e : entry_handle) (no_tag d : Z) : B group_handle := fun b => entry_group_begin b e no_tag d.
Definition add (g : group_handle) : B entry_handle := fun b => add_entry b g.
Definition end_group (g : group_handle) : B unit := fun b => Some (group_end b g).

(** Any failure of a decimal field is reported as an invalid one. *)
Definition put_decimal (tag : Z) (v : pod_decimal) : B unit := fun b =>
  match field b tag (VDecimal v) with
  | (Ok _, b) => Some (Ok tt, b)
  | (Err _, b) => Some (Err decimal_invalid_input, b)
  end.

Fixpoint each {A} (f : A -> B unit) (l : list A) : B unit :=
  match l with
  | [] => ret tt
  | a :: l => f a ;;; each f l
  end.

(** A builder on the stack, its steps, and [commit]. *)
Definition build_body (arena : Z -> bool) (msg_type : bytes) (m : B unit) (out : bytes)
  : option (expected Z * bytes) :=
  match m (body_builder_init 1 msg_type no_hooks arena) with
  | Some (Ok _, b) => Some (commit b out)
  | Some (Err e, _) => Some (Err e, out)
  | None => None
  end.

(** Before the builder is made. *)
Definition refusing (checks : list (bool * error)) (out : bytes) (k : option (expected Z * bytes))
  : option (expected Z * bytes) :=
  fold_right (fun '(failing, e) k => if (failing : bool) then Some (Err e, out) else k) k checks.

Definition is_empty (v : bytes) : bool := match v with [] => true | _ => false end.

(** ** The messages *)

Definition build_new_order_single (arena : Z -> bool) (out cl_ord_id symbol : bytes) (side : Z)
    (order_qty price : pod_decimal) (transact_time : bytes) : option (expected Z * bytes) :=
  refusing
    [(is_empty cl_ord_id, wire_required_field_missing);
     (is_empty symbol, wire_required_field_missing);
     (negb (is_clean_field_value cl_ord_id), wire_field_value_out_of_range);
     (negb (is_clean_field_value symbol), wire_field_value_out_of_range);
     (negb (is_valid_side side), wire_field_value_out_of_range);
     (negb (is_valid_utc_timestamp transact_time), wire_invalid_field_format)] out
  (build_body arena [68]
    (put 11 (VString cl_ord_id) ;;;
     put_decimal 38 order_qty ;;;
     put 40 (VString [50]) ;;;
     put_decimal 44 price ;;;
     put 54 (VChar side) ;;;
     put 55 (VString symbol) ;;;
     put 60 (VString transact_time)) out).

Definition build_execution_report (arena : Z -> bool) (out order_id exec_id : bytes) (exec_type ord_status : Z)
    (symbol : bytes) (side : Z) (leaves_qty cum_qty avg_px : pod_decimal) : option (expected Z * bytes) :=
  refusing
    [(is_empty order_id, wire_required_field_missing);
     (is_empty exec_id, wire_required_field_missing);
     (is_empty symbol, wire_required_field_missing);
     (negb (is_clean_field_value order_id), wire_field_value_out_of_range);
     (negb (is_clean_field_value exec_id), wire_field_value_out_of_range);
     (negb (is_clean_field_value symbol), wire_field_value_out_of_range);
     (negb (is_printable exec_type), wire_field_value_out_of_range);
     (negb (is_printable ord_status), wire_field_value_out_of_range);
     (negb (is_valid_side side), wire_field_value_out_of_range)] out
  (build_body arena [56]
    (put_decimal 6 avg_px ;;;
     put_decimal 14 cum_qty ;;;
     put 17 (VString exec_id) ;;;
     put 37 (VString order_id) ;;;
     put 39 (VChar ord_status) ;;;
     put 54 (VChar side) ;;;
     put 55 (VString symbol) ;;;
     put 150 (VChar exec_type) ;;;
     put_decimal 151 leaves_qty) out).

(** [NewOrderListPartySubId] and [AllocationReportPartySubId], which are the same; likewise
    their parties. *)
Record PartySubId := mkSubId { party_sub_id : bytes; party_sub_id_type : Z }.
Record Party := mkParty { party_id : bytes; party_id_source : Z; party_role : Z; sub_ids : list PartySubId }.

Record NewOrderListOrder := mkOrder {
  o_cl_ord_id : bytes; o_list_seq_no : Z; o_side : Z; o_symbol : bytes; o_order_qty : pod_decimal;
  o_parties : list Party }.

Record NewOrderListParams := mkOrderList {
  l_list_id : bytes; l_bid_type : Z; l_tot_no_orders : Z; l_orders : list NewOrderListOrder }.

Definition write_sub_id (subs_g : group_handle) (sub : PartySubId) : B unit :=
  sentry <-- add subs_g ;
  unless (is_empty (party_sub_id sub)) wire_required_field_missing ;;;
  set sentry 523 (VString (party_sub_id sub)) ;;;
  set sentry 803 (VInt (party_sub_id_type sub)).

Definition write_party (parties_g : group_handle) (p : Party) : B unit :=
  pentry <-- add parties_g ;
  unless (is_empty (party_id p)) wire_required_field_missing ;;;
  set pentry 448 (VString (party_id p)) ;;;
  set pentry 447 (VChar (party_id_source p)) ;;;
  set pentry 452 (VInt (party_role p)) ;;;
  subs_g <-- begin_nested pentry 802 523 ;
  each (write_sub_id subs_g) (sub_ids p) ;;;
  end_group subs_g.

Definition write_order (orders_g : group_handle) (o : NewOrderListOrder) : B unit :=
  entry <-- add orders_g ;
  unless (is_empty (o_cl_ord_id o)) wire_required_field_missing ;;;
  set entry 11 (VString (o_cl_ord_id o)) ;;;
  set entry 67 (VInt (o_list_seq_no o)) ;;;
  parties_g <-- begin_nested entry 453 448 ;
  each (write_party parties_g) (o_parties o) ;;;
  end_group parties_g ;;;
  unless (is_empty (o_symbol o)) wire_required_field_missing ;;;
  set entry 55 (VString (o_symbol o)) ;;;
  unless (negb (is_valid_side (o_side o))) wire_field_value_out_of_range ;;;
  set entry 54 (VChar (o_side o)) ;;;
  set entry 38 (VDecimal (o_order_qty o)).

Definition build_new_order_list (arena : Z -> bool) (out : bytes) (params : NewOrderListParams)
  : option (expected Z * bytes) :=
  refusing
    [(is_empty (l_list_id params), wire_required_field_missing);
     (match l_orders params with [] => true | _ => false end, wire_required_field_missing)] out
  (build_body arena [69]
    (put 66 (VString (l_list_id params)) ;;;
     put 68 (VInt (l_tot_no_orders params)) ;;;
     orders_g <-- begin_group 73 11 ;
     each (write_order orders_g) (l_orders params) ;;;
     end_group orders_g ;;;
     put 394 (VInt (l_bid_type params))) out).

Definition build_order_cancel_reject (arena : Z -> bool) (out order_id cl_ord_id orig_cl_ord_id : bytes)
    (ord_status cxl_rej_response_to cxl_rej_reason : Z) : option (expected Z * bytes) :=
  refusing
    [(is_empty order_id, wire_required_field_missing);
     (is_empty cl_ord_id, wire_required_field_missing);
     (is_empty orig_cl_ord_id, wire_required_field_missing)] out
  (build_body arena [57]
    (put 11 (VString cl_ord_id) ;;;
     put 37 (VString order_id) ;;;
     put 39 (VChar ord_status) ;;;
     put 41 (VString orig_cl_ord_id) ;;;
     put 102 (VInt cxl_rej_reason) ;;;
     put 434 (VChar cxl_rej_response_to)) out).

Record AllocationReportParams := mkAllocation {
  a_alloc_report_id : bytes; a_alloc_trans_type : Z; a_alloc_report_type : Z; a_alloc_status : Z;
  a_alloc_no_orders_type : Z; a_side : Z; a_quantity : pod_decimal; a_avg_px : pod_decimal;
  a_trade_date : bytes; a_symbol : bytes; a_parties : list Party }.

Definition build_allocation_report (arena : Z -> bool) (out : bytes) (params : AllocationReportParams)
  : option (expected Z * bytes) :=
  refusing
    [(is_empty (a_alloc_report_id params), wire_required_field_missing);
     (is_empty (a_trade_date params), wire_required_field_missing);
     (is_empty (a_symbol params), wire_required_field_missing)] out
  (build_body arena [65; 83]
    (put 6 (VDecimal (a_avg_px params)) ;;;
     put 53 (VDecimal (a_quantity params)) ;;;
     unless (negb (is_valid_side (a_side params))) wire_field_value_out_of_range ;;;
     put 54 (VChar (a_side params)) ;;;
     put 55 (VString (a_symbol params)) ;;;
     put 71 (VChar (a_alloc_trans_type params)) ;;;
     put 75 (VString (a_trade_date params)) ;;;
     put 87 (VInt (a_alloc_status params)) ;;;
     parties_g <-- begin_group 453 448 ;
     each (write_party parties_g) (a_parties params) ;;;
     end_group parties_g ;;;
     put 755 (VString (a_alloc_report_id params)) ;;;
     put 794 (VInt (a_alloc_report_type params)) ;;;
     put 857 (VInt (a_alloc_no_orders_type params))) out).
