(* ===== verification/BusinessSpec.v ===== *)
(** What the typed message builders ([src/session/business_messages.cpp]) emit: the tree of
    every message as a function of its arguments, and that the handle-driven code builds it. *)
From S2P Require Import Prelude Errors Decimal TagScan PairTable LengthData Writer FrameHeader BodyBuilder BodyRuns.
From S2P Require Import BusinessMessages.
Local Open Scope builder_scope.

(** ** Specification: the tree of a message *)

Definition require (failing : bool) (e : error) : expected unit := if failing then Err e else Ok tt.

(** The text of a value. *)
Definition value_text (v : field_value) : expected bytes :=
  match v with
  | VString v => if is_clean_field_value v then Ok v else Err wire_field_value_out_of_range
  | VChar c => if is_clean_field_value [c] then Ok [c] else Err wire_field_value_out_of_range
  | VInt v => Ok (int64_text v)
  | VDecimal v => match to_chars v (replicate 64 0) with
                  | Ok (buf, n) => Ok (ztake n buf)
                  | Err _ => Err decimal_invalid_input
                  end
  | VData _ => Err wire_unexpected_tag
  end.

Definition scalar (tag : Z) (v : field_value) : expected (list entry_node) :=
  let? t := value_text v in Ok [ScalarNode tag t].

(** One thing after the other. *)
Definition both (a b : expected (list entry_node)) : expected (list entry_node) :=
  let? x := a in let? y := b in Ok (x ++ y).

Fixpoint scalars (fs : list (Z * field_value)) : expected (list entry_node) :=
  match fs with
  | [] => Ok []
  | f :: fs => both (scalar f.1 f.2) (scalars fs)
  end.

Fixpoint instances {A} (f : A -> expected (list entry_node)) (l : list A) : expected (list (list entry_node)) :=
  match l with
  | [] => Ok []
  | a :: l => let? x := f a in let? xs := instances f l in Ok (x :: xs)
  end.

Definition group_of {A} (no_tag d : Z) (f : A -> expected (list entry_node)) (l : list A)
  : expected (list entry_node) :=
  let? xs := instances f l in Ok [GroupNode no_tag d xs].

Definition sub_id_nodes (sub : PartySubId) : expected (list entry_node) :=
  let? _ := require (is_empty (party_sub_id sub)) wire_required_field_missing in
  scalars [(523, VString (party_sub_id sub)); (803, VInt (party_sub_id_type sub))].

Definition party_nodes (p : Party) : expected (list entry_node) :=
  let? _ := require (is_empty (party_id p)) wire_required_field_missing in
  both (scalars [(448, VString (party_id p)); (447, VChar (party_id_source p)); (452, VInt (party_role p))])
    (group_of 802 523 sub_id_nodes (sub_ids p)).

Definition order_nodes (o : NewOrderListOrder) : expected (list entry_node) :=
  let? _ := require (is_empty (o_cl_ord_id o)) wire_required_field_missing in
  both (scalars [(11, VString (o_cl_ord_id o)); (67, VInt (o_list_seq_no o))])
    (both (group_of 453 448 party_nodes (o_parties o))
       (let? _ := require (is_empty (o_symbol o)) wire_required_field_missing in
        both (scalars [(55, VString (o_symbol o))])
          (let? _ := require (negb (is_valid_side (o_side o))) wire_field_value_out_of_range in
           scalars [(54, VChar (o_side o)); (38, VDecimal (o_order_qty o))]))).

Definition order_list_nodes (params : NewOrderListParams) : expected (list entry_node) :=
  both (scalars [(66, VString (l_list_id params)); (68, VInt (l_tot_no_orders params))])
    (both (group_of 73 11 order_nodes (l_orders params)) (scalars [(394, VInt (l_bid_type params))])).

Definition allocation_nodes (params : AllocationReportParams) : expected (list entry_node) :=
  both (scalars [(6, VDecimal (a_avg_px params)); (53, VDecimal (a_quantity params))])
    (let? _ := require (negb (is_valid_side (a_side params))) wire_field_value_out_of_range in
     both (scalars [(54, VChar (a_side params)); (55, VString (a_symbol params));
                    (71, VChar (a_alloc_trans_type params)); (75, VString (a_trade_date params));
                    (87, VInt (a_alloc_status params))])
       (both (group_of 453 448 party_nodes (a_parties params))
          (scalars [(755, VString (a_alloc_report_id params)); (794, VInt (a_alloc_report_type params));
                    (857, VInt (a_alloc_no_orders_type params))]))).

(** What a builder answers for a tree. *)
Definition committed (msg_type : bytes) (nodes : expected (list entry_node)) (out : bytes) : expected Z * bytes :=
  match nodes with
  | Err e => (Err e, out)
  | Ok ns =>
      let text := fields_bytes ((35, msg_type) :: body_fields ns) in
      if Z.min kBodyCap (zlen out) <? zlen text then (Err wire_frame_too_large, out)
      else (Ok (zlen text), text ++ zdrop (zlen text) out)
  end.

(** ** Lemmas *)

(** *** Where a handle points *)

(** The open groups around a container, outermost first: what stands before the group, the
    group, and its instances before the open one. *)
Definition surroundings : Type := list (list entry_node * Z * Z * list (list entry_node)).

Fixpoint fill (C : surroundings) (fs : list entry_node) : list entry_node :=
  match C with
  | [] => fs
  | (pre, t, d, insts) :: C => pre ++ [GroupNode t d (insts ++ [fill C fs])]
  end.

Fixpoint path_to (C : surroundings) (n : nat) : nat * list (nat * nat) :=
  match C with
  | [] => (n, [])
  | (pre, _, _, insts) :: C =>
      let '(g, path) := path_to C n in (length pre, (length insts, g) :: path)
  end.

Lemma fill_snoc C pre t d insts fs :
  fill (C ++ [(pre, t, d, insts)]) fs = fill C (pre ++ [GroupNode t d (insts ++ [fs])]).
Proof. induction C as [|[[[pre' t'] d'] insts'] C IH]; [done|]. cbn [app fill]. by rewrite IH. Qed.

Lemma path_snoc C pre t d insts n :
  path_to (C ++ [(pre, t, d, insts)]) n =
    ((path_to C (length pre)).1, (path_to C (length pre)).2 ++ [(length insts, n)]).
Proof.
  induction C as [|[[[pre' t'] d'] insts'] C IH]; [done|]. cbn [app path_to]. rewrite IH.
  by destruct (path_to C (length pre)).
Qed.

Lemma length_path C n : length (path_to C n).2 = length C.
Proof.
  induction C as [|[[[pre' t'] d'] insts'] C IH]; [done|]. cbn [path_to]. destruct (path_to C n). cbn in *. by rewrite IH.
Qed.

Lemma group_at_fill C pre n :
  group_at (path_to C (length pre)).1 (path_to C (length pre)).2 (fill C (pre ++ [n])) = Some n.
Proof.
  induction C as [|[[[pre' t'] d'] insts'] C IH]; cbn [path_to fill].
  - cbn [fst snd]. rewrite group_at_eq. by rewrite list_lookup_middle.
  - destruct (path_to C (length pre)) as [g path]. cbn [fst snd] in *. rewrite group_at_eq.
    rewrite list_lookup_middle by done. by rewrite list_lookup_middle.
Qed.

Lemma alter_middle {A} (f : A -> A) l x : alter f (length l) (l ++ [x]) = l ++ [f x].
Proof. induction l as [|y l IH]; [done|]. cbn. by rewrite IH. Qed.

Lemma alter_group_fill f C pre n :
  alter_group f (path_to C (length pre)).1 (path_to C (length pre)).2 (fill C (pre ++ [n])) = fill C (pre ++ [f n]).
Proof.
  induction C as [|[[[pre' t'] d'] insts'] C IH]; cbn [path_to fill].
  - cbn [fst snd]. rewrite alter_group_eq. by rewrite alter_middle.
  - destruct (path_to C (length pre)) as [g path]. cbn [fst snd] in *. rewrite alter_group_eq, alter_middle.
    by rewrite alter_middle, IH.
Qed.

(** *** Following a tree *)

Section Follow.
Context (arena : Z -> bool) (msg_type : bytes).

(** The arena refused something. *)
Definition refused : Prop := exists k, arena k = false.

(** The builder stands in a container, with these groups open around it. *)
Record inside (b : body_builder) (C : surroundings) (fs : list entry_node) (stack : list Z) : Prop := {
  in_entries : bb_entries b = fill C fs;
  in_stack : bb_open_stack b = stack;
  in_arena : bb_arena b = arena;
  in_addr : bb_addr b = 1;
  in_msg_type : bb_msg_type b = msg_type;
  in_hooks : bb_hooks b = no_hooks;
  in_pairs : bb_pair_check_needed b = false;
}.

(** A step does what its specification says, or an allocation was refused. *)
Definition follows {A S} (m : B A) (b : body_builder) (spec : expected S) (P : S -> A -> body_builder -> Prop) : Prop :=
  match m b with
  | None => False
  | Some (Ok a, b') => exists s, spec = Ok s /\ P s a b'
  | Some (Err e, _) => spec = Err e \/ refused
  end.

Lemma follows_bind {A S A' S'} (m : B A) b (spec : expected S) P (k : A -> B A') (spec' : S -> expected S') Q :
  follows m b spec P -> (forall s a b', P s a b' -> follows (k a) b' (spec' s) Q) ->
  follows (bind m k) b (rbind spec spec') Q.
Proof using.
  unfold follows, bind. intros Hm Hk. destruct (m b) as [[[a|e] b']|]; [| |done].
  - destruct Hm as (s & -> & Hp). exact (Hk _ _ _ Hp).
  - destruct Hm as [-> |?]; [by left|by right].
Qed.

Lemma follows_impl {A S} (m : B A) b (spec : expected S) (P Q : S -> A -> body_builder -> Prop) :
  follows m b spec P -> (forall s a b', P s a b' -> Q s a b') -> follows m b spec Q.
Proof using. unfold follows. destruct (m b) as [[[]]|]; naive_solver. Qed.

Lemma follows_unless b failing e (P : unit -> unit -> body_builder -> Prop) :
  P tt tt b -> follows (unless failing e) b (require failing e) P.
Proof using. unfold follows, unless, require. destruct failing; cbn; [by left|by exists tt]. Qed.

(** A plain value of a plain tag. *)
Definition plain (tag : Z) (v : field_value) : bool :=
  negb (is_framing_tag tag) && negb (standard_pair_tag_bit tag) && match v with VData _ => false | _ => true end.

Lemma append_plain ok ok' tag v fs : plain tag v = true ->
  match append_value ok ok' tag v (fs, false) with
  | (Ok _, (fs', needed)) => exists ns, scalar tag v = Ok ns /\ fs' = fs ++ ns /\ needed = false
  | (Err e, _) => scalar tag v = Err e \/ ok = false
  end.
Proof using.
  unfold plain. intros [[Hf Hb]%andb_true_iff Hv]%andb_true_iff. apply negb_true_iff in Hf, Hb.
  assert (Hbytes : forall w, value_text v = Ok w ->
    match append_bytes_field ok tag w (fs, false) with
    | (Ok _, (fs', needed)) => exists ns, scalar tag v = Ok ns /\ fs' = fs ++ ns /\ needed = false
    | (Err e, _) => scalar tag v = Err e \/ ok = false
    end).
  { intros w Hw. unfold append_bytes_field, note_tag, scalar. rewrite Hw, Hb. destruct ok; cbn; [|by right].
    by exists [ScalarNode tag w]. }
  destruct v as [v|c|v|v|v]; cbn [append_value value_text] in *; [| | | |done].
  - unfold append_string_field. rewrite Hf. unfold scalar in *. cbn [value_text] in *.
    destruct (is_clean_field_value v); cbn [negb]; [by apply Hbytes|by left].
  - unfold append_string_field. rewrite Hf. unfold scalar in *. cbn [value_text] in *.
    destruct (is_clean_field_value [c]); cbn [negb]; [by apply Hbytes|by left].
  - unfold append_int_field. rewrite Hf. by apply Hbytes.
  - unfold append_decimal_field. rewrite Hf. unfold scalar in *. cbn [value_text] in *.
    destruct (to_chars v (replicate 64 0)) as [[buf n]|e]; [by apply Hbytes|by left].
Qed.

Lemma put_follows b fs stack tag v : plain tag v = true -> inside b [] fs stack ->
  follows (put tag v) b (scalar tag v) (fun ns _ b' => inside b' [] (fs ++ ns) stack).
Proof using.
  intros Hp [He Hs Ha Had Hm Hh Hn]. unfold follows, put, field. destruct (grants b) as [ok ok'] eqn:Eg.
  rewrite He, Hn. cbn [fill]. pose proof (append_plain ok ok' tag v fs Hp) as H.
  destruct (append_value _ _ _ _ _) as [[u|e] [fs' needed]].
  - destruct H as (ns & -> & -> & ->). exists ns. split; [done|]. by constructor.
  - destruct H as [H|H]; [by left|right]. injection Eg as <- _. rewrite Ha in H. by eexists.
Qed.

Lemma put_decimal_follows b fs stack tag v : plain tag (VDecimal v) = true -> inside b [] fs stack ->
  follows (put_decimal tag v) b (scalar tag (VDecimal v)) (fun ns _ b' => inside b' [] (fs ++ ns) stack).
Proof using.
  intros Hp Hb. pose proof (put_follows b fs stack tag (VDecimal v) Hp Hb) as H.
  unfold follows, put, put_decimal in *. destruct (field b tag (VDecimal v)) as [[[]|e] b']; [exact H|].
  destruct H as [H|H]; [left|by right]. unfold scalar in *. cbn [value_text] in *.
  destruct (to_chars v (replicate 64 0)) as [[buf n]|e']; [done|done].
Qed.

(** *** Through a handle *)

(** The handle of the group that stands behind [pre]. *)
Definition standing (C : surroundings) (pre : list entry_node) (s : Z) : group_handle :=
  GroupHandle (Some 1) (path_to C (length pre)).1 (path_to C (length pre)).2 s.

Lemma enter b C pre t d insts fs stack :
  inside b (C ++ [(pre, t, d, insts)]) fs stack <-> inside b C (pre ++ [GroupNode t d (insts ++ [fs])]) stack.
Proof using. split; intros [H]; constructor; try done; rewrite H; by rewrite fill_snoc. Qed.

Lemma insert_middle {A} (l : list A) x y : <[length l := y]> (l ++ [x]) = l ++ [y].
Proof using. induction l as [|z l IH]; [done|]. cbn [app length]. exact (f_equal (cons z) IH). Qed.

Section Handle.
Context (C : surroundings) (pre : list entry_node) (t d : Z) (insts : list (list entry_node)) (s : Z) (S : list Z).
Let entry : entry_handle := EntryHandle (standing C pre s) (length insts).
Let C' : surroundings := C ++ [(pre, t, d, insts)].

Lemma resolve_entry b fs : inside b C' fs (s :: S) -> resolve_instance b entry = Some fs.
Proof using.
  intros [He _ _ _ _ _ _]. unfold resolve_instance, resolve_group. cbn. rewrite He. unfold C'.
  rewrite fill_snoc, group_at_fill. by apply list_lookup_middle.
Qed.

Lemma set_entry fs fs' : set_instance entry fs' (fill C' fs) = fill C' fs'.
Proof using.
  unfold C'. rewrite !fill_snoc. unfold set_instance. cbn. rewrite alter_group_fill. by rewrite insert_middle.
Qed.

Lemma set_follows b fs tag v : plain tag v = true -> inside b C' fs (s :: S) ->
  follows (set entry tag v) b (scalar tag v) (fun ns _ b' => inside b' C' (fs ++ ns) (s :: S)).
Proof using.
  intros Hp Hi. pose proof (resolve_entry b fs Hi) as Hr. destruct Hi as [He Hs Ha Had Hm Hh Hn].
  unfold follows, set, set_field, is_innermost_open. cbn [gh_owner eh_group entry standing gh_open_seq].
  rewrite Hs, Z.eqb_refl. cbn [negb]. fold entry. rewrite Hr. destruct (grants b) as [ok ok'] eqn:Eg. rewrite Hn.
  pose proof (append_plain ok ok' tag v fs Hp) as H.
  destruct (append_value _ _ _ _ _) as [[u|e] [fs' needed]].
  - destruct H as (ns & -> & -> & ->). exists ns. split; [done|]. constructor; try done.
    cbn [bb_entries with_container]. rewrite He. apply set_entry.
  - destruct H as [H|H]; [by left|right]. injection Eg as <- _. rewrite Ha in H. by eexists.
Qed.

Lemma begin_nested_follows b fs no_tag d' : plain no_tag (VInt 0) = true -> (length C < 6)%nat ->
  inside b C' fs (s :: S) ->
  follows (begin_nested entry no_tag d') b (Ok tt)
    (fun _ g b' => exists s', g = standing C' fs s' /\ inside b' C' (fs ++ [GroupNode no_tag d' []]) (s' :: s :: S)).
Proof using.
  intros Hp Hd Hi. pose proof (resolve_entry b fs Hi) as Hr. destruct Hi as [He Hs Ha Had Hm Hh Hn].
  unfold plain in Hp. apply andb_true_iff in Hp as [[Hf Hb]%andb_true_iff _]. apply negb_true_iff in Hf, Hb.
  assert (Hl : (kMaxGroupNestDepth - 1 <=? levels (eh_group entry)) = false).
  { unfold kMaxGroupNestDepth, levels, zlen. cbn. rewrite length_path. apply Z.leb_gt. lia. }
  unfold follows, begin_nested, entry_group_begin. change (gh_owner (eh_group entry)) with (Some 1).
  rewrite Hf, Hl, Hr. unfold is_innermost_open. rewrite Hs. change (gh_open_seq (eh_group entry)) with s.
  rewrite Z.eqb_refl. cbn [negb].
  destruct (grants b) as [ok ok'] eqn:Eg. injection Eg as Eg Eg'. unfold open_group. cbn [gh_owner gh_root gh_path].
  destruct ok; cbn [negb]; [|right; rewrite Ha in Eg; by eexists].
  destruct ok'; cbn [negb]; [|right; rewrite Ha in Eg'; by eexists].
  exists tt. split; [done|]. eexists. split.
  - unfold standing, C'. rewrite path_snoc. reflexivity.
  - constructor; try done; cbn [bb_entries bb_open_stack bb_pair_check_needed with_container with_stack].
    + rewrite He. apply set_entry.
    + by rewrite Hs.
    + by rewrite Hn, Hb.
Qed.

Lemma add_follows b : inside b C (pre ++ [GroupNode t d insts]) (s :: S) ->
  follows (add (standing C pre s)) b (Ok tt) (fun _ e b' => e = entry /\ inside b' C' [] (s :: S)).
Proof using.
  intros [He Hs Ha Had Hm Hh Hn]. unfold follows, add, add_entry, is_innermost_open.
  cbn [gh_owner standing gh_open_seq]. rewrite Hs, Z.eqb_refl. cbn [negb].
  unfold instance_count, resolve_group, standing. cbn [gh_root gh_path]. rewrite He, group_at_fill.
  destruct (grants b) as [ok ok'] eqn:Eg. injection Eg as Eg Eg'.
  destruct ok; [|right; rewrite Ha in Eg; by eexists].
  exists tt. split; [done|]. split; [done|]. constructor; try done.
  cbn [bb_entries with_container]. unfold add_instance. cbn [gh_root gh_path]. rewrite alter_group_fill. unfold C'. by rewrite fill_snoc.
Qed.

Lemma end_follows b fs : inside b C fs (s :: S) ->
  follows (end_group (standing C pre s)) b (Ok tt) (fun _ _ b' => inside b' C fs S).
Proof using.
  intros [He Hs Ha Had Hm Hh Hn]. unfold follows, end_group, group_end. cbn [gh_owner standing gh_open_seq].
  rewrite Hs, Had, !Z.eqb_refl. cbn [negb orb]. exists tt. split; [done|]. by constructor.
Qed.
End Handle.

Lemma begin_group_follows b fs stack no_tag d : plain no_tag (VInt 0) = true -> inside b [] fs stack ->
  follows (begin_group no_tag d) b (Ok tt)
    (fun _ g b' => exists s, g = standing [] fs s /\ inside b' [] (fs ++ [GroupNode no_tag d []]) (s :: stack)).
Proof using.
  intros Hp [He Hs Ha Had Hm Hh Hn].
  unfold plain in Hp. apply andb_true_iff in Hp as [[Hf Hb]%andb_true_iff _]. apply negb_true_iff in Hf, Hb.
  unfold follows, begin_group, group_begin. rewrite Hf.
  destruct (grants b) as [ok ok'] eqn:Eg. injection Eg as Eg Eg'. unfold open_group. cbn [gh_owner gh_root gh_path].
  destruct ok; cbn [negb]; [|right; rewrite Ha in Eg; by eexists].
  destruct ok'; cbn [negb]; [|right; rewrite Ha in Eg'; by eexists].
  exists tt. split; [done|]. eexists. split.
  - unfold standing. cbn. by rewrite Had, He.
  - constructor; try done; cbn; [by rewrite He|by rewrite Hs|by rewrite Hn, Hb].
Qed.

(** *** One thing after the other *)

(** Run in a container, the step adds the nodes of its specification behind those there. *)
Definition writes (m : B unit) (C : surroundings) (S : list Z) (spec : expected (list entry_node)) : Prop :=
  forall b fs, inside b C fs S -> follows m b spec (fun ns _ b' => inside b' C (fs ++ ns) S).

Lemma follows_ext {A S} (m m' : B A) b (spec : expected S) P :
  (forall b, m b = m' b) -> follows m b spec P -> follows m' b spec P.
Proof using. intros E. unfold follows. by rewrite E. Qed.

Lemma writes_both m k C S spec spec' :
  writes m C S spec -> writes k C S spec' -> writes (m ;;; k) C S (both spec spec').
Proof using.
  intros Hm Hk b fs Hb. eapply follows_bind; [by apply Hm|]. cbn. intros ns _ b' Hb'.
  specialize (Hk b' _ Hb'). unfold follows in *. destruct (k b') as [[[u|e] b2]|]; [| |done].
  - destruct Hk as (ns' & -> & H2). exists (ns ++ ns'). split; [done|]. by rewrite app_assoc.
  - destruct Hk as [-> |?]; [by left|by right].
Qed.

Lemma writes_unless failing e k C S spec :
  writes k C S spec -> writes (unless failing e ;;; k) C S (let? _ := require failing e in spec).
Proof using.
  intros Hk b fs Hb. eapply follows_bind; [by apply (follows_unless b failing e (fun _ _ b' => inside b' C fs S))|].
  cbn. intros _ _ b' Hb'. by apply Hk.
Qed.

Lemma writes_put tag v S : plain tag v = true -> writes (put tag v) [] S (scalar tag v).
Proof using. intros Hp b fs Hb. by apply put_follows. Qed.

Lemma writes_put_decimal tag v S : plain tag (VDecimal v) = true ->
  writes (put_decimal tag v) [] S (scalar tag (VDecimal v)).
Proof using. intros Hp b fs Hb. by apply put_decimal_follows. Qed.

Lemma writes_set C pre t d insts s S tag v : plain tag v = true ->
  writes (set (EntryHandle (standing C pre s) (length insts)) tag v) (C ++ [(pre, t, d, insts)]) (s :: S) (scalar tag v).
Proof using. intros Hp b fs Hb. by apply set_follows. Qed.

(** An instance: [f] runs with the handle of a new one. *)
Lemma instance_follows C pre t d insts s S (f : entry_handle -> B unit) spec b :
  writes (f (EntryHandle (standing C pre s) (length insts))) (C ++ [(pre, t, d, insts)]) (s :: S) spec ->
  inside b C (pre ++ [GroupNode t d insts]) (s :: S) ->
  follows (e <-- add (standing C pre s) ; f e) b spec
    (fun ns _ b' => inside b' C (pre ++ [GroupNode t d (insts ++ [ns])]) (s :: S)).
Proof using.
  intros Hf Hb. change spec with (rbind (Ok tt) (fun _ => spec)).
  eapply follows_bind; [by apply add_follows|]. cbn. intros _ e b' [-> Hb'].
  eapply follows_impl; [by apply Hf|]. cbn. intros ns _ b2 H2. by apply enter.
Qed.

Lemma each_follows {A} C pre t d s S (w : A -> B unit) (spec : A -> expected (list entry_node)) l :
  (forall a insts b, inside b C (pre ++ [GroupNode t d insts]) (s :: S) ->
    follows (w a) b (spec a) (fun ns _ b' => inside b' C (pre ++ [GroupNode t d (insts ++ [ns])]) (s :: S))) ->
  forall insts b, inside b C (pre ++ [GroupNode t d insts]) (s :: S) ->
    follows (each w l) b (instances spec l)
      (fun xs _ b' => inside b' C (pre ++ [GroupNode t d (insts ++ xs)]) (s :: S)).
Proof using.
  intros Hw. induction l as [|a l IH]; intros insts b Hb; cbn [each instances].
  - exists []. split; [done|]. by rewrite app_nil_r.
  - eapply follows_bind; [by apply Hw|]. cbn. intros ns _ b' Hb'. specialize (IH _ _ Hb').
    unfold follows in *. destruct (each w l b') as [[[u|e] b2]|]; [| |done].
    + destruct IH as (xs & -> & H2). exists (ns :: xs). split; [done|]. by rewrite <- app_assoc in H2.
    + destruct IH as [-> |?]; [by left|by right].
Qed.

(** A group: opened, an instance for each element, and closed. *)
Lemma writes_group {A} C S (opening : B group_handle) (w : group_handle -> A -> B unit)
    (spec : A -> expected (list entry_node)) no_tag d l :
  (forall b fs, inside b C fs S -> follows opening b (Ok tt)
     (fun _ g b' => exists s, g = standing C fs s /\ inside b' C (fs ++ [GroupNode no_tag d []]) (s :: S))) ->
  (forall a pre s insts b, inside b C (pre ++ [GroupNode no_tag d insts]) (s :: S) ->
     follows (w (standing C pre s) a) b (spec a)
       (fun ns _ b' => inside b' C (pre ++ [GroupNode no_tag d (insts ++ [ns])]) (s :: S))) ->
  writes (g <-- opening ; each (w g) l ;;; end_group g) C S (group_of no_tag d spec l).
Proof using.
  intros Ho Hw b fs Hb. change (group_of no_tag d spec l) with (rbind (Ok tt) (fun _ => group_of no_tag d spec l)).
  eapply follows_bind; [by apply Ho|]. cbn. intros _ g b' (s & -> & Hb').
  eapply follows_bind; [apply (each_follows C fs no_tag d s S _ spec l (fun a => Hw a fs s)); exact Hb'|].
  cbv beta. intros xs _ b2 H2. pose proof (end_follows C fs s S b2 _ H2) as He. unfold follows in *.
  destruct (end_group _ b2) as [[[u|e] b3]|]; [| |done].
  - destruct He as (_ & _ & H3). by exists [GroupNode no_tag d xs].
  - destruct He as [? |?]; [done|by right].
Qed.

(** The same, with more behind it. *)
Lemma writes_group_then {A} C S (opening : B group_handle) (w : group_handle -> A -> B unit) l k spec spec' :
  writes (g <-- opening ; each (w g) l ;;; end_group g) C S spec -> writes k C S spec' ->
  writes (g <-- opening ; each (w g) l ;;; end_group g ;;; k) C S (both spec spec').
Proof using.
  intros Hg Hk b fs Hb. eapply follows_ext; [|by apply (writes_both _ _ _ _ _ _ Hg Hk)].
  intros b'. unfold bind. destruct (opening b') as [[[g|e] b1]|]; [|done|done].
  destruct (each (w g) l b1) as [[[u|e] b2]|]; done.
Qed.
End Follow.

Lemma both_assoc a b c : both (both a b) c = both a (both b c).
Proof. unfold both. destruct a, b, c; cbn; try done. by rewrite app_assoc. Qed.

Lemma both_nil_l a : both (Ok []) a = a.
Proof. by destruct a. Qed.

Lemma both_nil_r a : both a (Ok []) = a.
Proof. unfold both. destruct a; cbn; [by rewrite app_nil_r|done]. Qed.

(** Everything in a row. *)
Ltac in_a_row := cbn [scalars fst snd]; rewrite ?both_assoc, ?both_nil_l, ?both_nil_r.

(** *** The parts of a message *)

Section Parts.
Context (arena : Z -> bool) (msg_type : bytes).
Notation writes := (writes arena msg_type).
Notation inside := (inside arena msg_type).
Notation follows := (follows arena).

Lemma sub_id_follows C pre s S sub insts b :
  inside b C (pre ++ [GroupNode 802 523 insts]) (s :: S) ->
  follows (write_sub_id (standing C pre s) sub) b (sub_id_nodes sub)
    (fun ns _ b' => inside b' C (pre ++ [GroupNode 802 523 (insts ++ [ns])]) (s :: S)).
Proof using.
  apply instance_follows. unfold sub_id_nodes. in_a_row. apply writes_unless.
  by repeat (apply writes_both || apply writes_set).
Qed.

Lemma party_follows C pre s S p insts b : (length C < 6)%nat ->
  inside b C (pre ++ [GroupNode 453 448 insts]) (s :: S) ->
  follows (write_party (standing C pre s) p) b (party_nodes p)
    (fun ns _ b' => inside b' C (pre ++ [GroupNode 453 448 (insts ++ [ns])]) (s :: S)).
Proof using.
  intros Hd. apply instance_follows. unfold party_nodes. in_a_row. apply writes_unless.
  do 3 (apply writes_both; [by apply writes_set|]). apply writes_group.
  - intros b' fs Hb'. by apply begin_nested_follows.
  - intros sub pre' s' insts' b' Hb'. by apply sub_id_follows.
Qed.

Lemma order_follows C pre s S o insts b : (length C < 5)%nat ->
  inside b C (pre ++ [GroupNode 73 11 insts]) (s :: S) ->
  follows (write_order (standing C pre s) o) b (order_nodes o)
    (fun ns _ b' => inside b' C (pre ++ [GroupNode 73 11 (insts ++ [ns])]) (s :: S)).
Proof using.
  intros Hd. apply instance_follows. unfold order_nodes. in_a_row. apply writes_unless.
  do 2 (apply writes_both; [by apply writes_set|]). apply writes_group_then.
  - apply writes_group.
    + intros b' fs Hb'. apply begin_nested_follows; [done|lia|done].
    + intros p pre' s' insts' b' Hb'. apply party_follows; [|done]. rewrite length_app. cbn. lia.
  - apply writes_unless. apply writes_both; [by apply writes_set|]. apply writes_unless.
    by repeat (apply writes_both || apply writes_set).
Qed.
End Parts.

(** *** The shape of what is written *)

Definition shaped (spec : expected (list entry_node)) : Prop :=
  forall ns, spec = Ok ns -> forallb shape_ok ns = true.

(** The nodes of an instance, which starts with its delimiter. *)
Definition starts (d : Z) (spec : expected (list entry_node)) : Prop :=
  forall ns, spec = Ok ns ->
    match ns with [] => false | first :: _ => entry_tag first =? d end && forallb shape_ok ns = true.

Lemma shaped_both a b : shaped a -> shaped b -> shaped (both a b).
Proof.
  intros Ha Hb ns. unfold both. destruct a as [x|]; [|done]. destruct b as [y|]; [|done]. intros [= <-].
  by rewrite forallb_app, Ha, Hb.
Qed.

Lemma shaped_require failing e a : shaped a -> shaped (let? _ := require failing e in a).
Proof. unfold require. by destruct failing. Qed.

Lemma shaped_scalars fs : shaped (scalars fs).
Proof.
  induction fs as [|[t v] fs IH]; [by intros ns [= <-]|]. apply shaped_both; [|exact IH].
  intros ns. unfold scalar. cbn [fst snd]. destruct (value_text v); [|done]. by intros [= <-].
Qed.

Lemma starts_scalars d v fs a : shaped a -> starts d (both (scalars ((d, v) :: fs)) a).
Proof.
  intros Ha ns Hns. rewrite (shaped_both _ _ (shaped_scalars _) Ha ns Hns), andb_true_r.
  cbn [scalars fst snd] in Hns. unfold scalar, both in Hns.
  destruct (value_text v); [|done]. destruct (scalars fs); [|done]. destruct a; [|done].
  injection Hns as <-. apply Z.eqb_refl.
Qed.

Lemma starts_require d failing e a : starts d a -> starts d (let? _ := require failing e in a).
Proof. unfold require. by destruct failing. Qed.

Lemma shaped_group {A} no_tag d (f : A -> expected (list entry_node)) l :
  (forall a, starts d (f a)) -> shaped (group_of no_tag d f l).
Proof.
  intros Hf ns. unfold group_of. destruct (instances f l) as [xs|] eqn:E; [|done]. intros [= <-].
  cbn [forallb shape_ok]. rewrite andb_true_r. revert xs E. induction l as [|a l IH]; intros xs E; [by injection E as <-|].
  cbn [instances] in E. destruct (f a) as [x|] eqn:Ea; [|done]. destruct (instances f l) as [xs'|]; [|done].
  injection E as <-. cbn [forallb]. by rewrite (Hf a x Ea), IH.
Qed.

Lemma sub_id_starts sub : starts 523 (sub_id_nodes sub).
Proof.
  apply starts_require. rewrite <- (both_nil_r (scalars _)).
  apply (starts_scalars 523 (VString (party_sub_id sub)) [(803, VInt (party_sub_id_type sub))]). by intros ns [= <-].
Qed.

Lemma party_starts p : starts 448 (party_nodes p).
Proof. apply starts_require, starts_scalars, shaped_group, sub_id_starts. Qed.

Lemma order_starts o : starts 11 (order_nodes o).
Proof.
  apply starts_require, starts_scalars, shaped_both; [apply shaped_group, party_starts|].
  apply shaped_require, shaped_both, shaped_require, shaped_scalars. apply shaped_scalars.
Qed.

(** *** A whole message *)

Lemma commit_tree arena msg_type b ns out :
  inside arena msg_type b [] ns [] -> forallb shape_ok ns = true ->
  msg_type <> [] -> is_clean_field_value msg_type = true ->
  commit b out = committed msg_type (Ok ns) out.
Proof.
  intros [He Hs Ha Had Hm Hh Hn] Hshape Hne Hc. cbn [fill] in He. rewrite commit_text.
  - unfold committed, message_fields. by rewrite He, Hm.
  - done.
  - rewrite Hn, He. by apply validate_group_grammar_ok.
  - by rewrite Hm.
  - by rewrite Hm.
Qed.

(** A builder that writes a well-shaped tree answers with its text, unless the arena refused. *)
Lemma build_follows arena msg_type m spec out :
  writes arena msg_type m [] [] spec -> shaped spec -> msg_type <> [] -> is_clean_field_value msg_type = true ->
  exists r, build_body arena msg_type m out = Some r /\
    (r = committed msg_type spec out \/ refused arena /\ exists e, r = (Err e, out)).
Proof.
  intros Hw Hshape Hne Hc. unfold build_body.
  specialize (Hw (body_builder_init 1 msg_type no_hooks arena) [] ltac:(by constructor)). unfold follows in Hw.
  destruct (m _) as [[[u|e] b]|]; [| |done]; (eexists; split; [done|]).
  - left. destruct Hw as (ns & -> & Hi). eapply commit_tree; [done|by apply Hshape|done|done].
  - destruct Hw as [-> |Hr]; [by left|right]. split; [done|by eexists].
Qed.

(** ** The messages *)

Inductive message : Type :=
  | NewOrderSingle (cl_ord_id symbol : bytes) (side : Z) (order_qty price : pod_decimal) (transact_time : bytes)
  | ExecutionReport (order_id exec_id : bytes) (exec_type ord_status : Z) (symbol : bytes) (side : Z)
      (leaves_qty cum_qty avg_px : pod_decimal)
  | NewOrderList (params : NewOrderListParams)
  | OrderCancelReject (order_id cl_ord_id orig_cl_ord_id : bytes)
      (ord_status cxl_rej_response_to cxl_rej_reason : Z)
  | AllocationReport (params : AllocationReportParams).

Definition build_message (arena : Z -> bool) (out : bytes) (m : message) : option (expected Z * bytes) :=
  match m with
  | NewOrderSingle c s side q p t => build_new_order_single arena out c s side q p t
  | ExecutionReport o e et st s side l c a => build_execution_report arena out o e et st s side l c a
  | NewOrderList params => build_new_order_list arena out params
  | OrderCancelReject o c oc st rt rr => build_order_cancel_reject arena out o c oc st rt rr
  | AllocationReport params => build_allocation_report arena out params
  end.

Definition message_type (m : message) : bytes :=
  match m with
  | NewOrderSingle _ _ _ _ _ _ => [68]
  | ExecutionReport _ _ _ _ _ _ _ _ _ => [56]
  | NewOrderList _ => [69]
  | OrderCancelReject _ _ _ _ _ _ => [57]
  | AllocationReport _ => [65; 83]
  end.

(** What is checked of the arguments before anything is built. *)
Definition given (vs : list bytes) : list (bool * error) :=
  map (fun v => (is_empty v, wire_required_field_missing)) vs.
Definition in_range (checks : list bool) : list (bool * error) :=
  map (fun ok => (negb ok, wire_field_value_out_of_range)) checks.

Definition message_checks (m : message) : list (bool * error) :=
  match m with
  | NewOrderSingle c s side _ _ t =>
      given [c; s] ++ in_range [is_clean_field_value c; is_clean_field_value s; is_valid_side side] ++
      [(negb (is_valid_utc_timestamp t), wire_invalid_field_format)]
  | ExecutionReport o e et st s side _ _ _ =>
      given [o; e; s] ++
      in_range [is_clean_field_value o; is_clean_field_value e; is_clean_field_value s;
                is_printable et; is_printable st; is_valid_side side]
  | NewOrderList params =>
      given [l_list_id params] ++
      [(match l_orders params with [] => true | _ => false end, wire_required_field_missing)]
  | OrderCancelReject o c oc _ _ _ => given [o; c; oc]
  | AllocationReport params => given [a_alloc_report_id params; a_trade_date params; a_symbol params]
  end.

Definition message_nodes (m : message) : expected (list entry_node) :=
  match m with
  | NewOrderSingle c s side q p t =>
      scalars [(11, VString c); (38, VDecimal q); (40, VString [50]); (44, VDecimal p); (54, VChar side);
               (55, VString s); (60, VString t)]
  | ExecutionReport o e et st s side l c a =>
      scalars [(6, VDecimal a); (14, VDecimal c); (17, VString e); (37, VString o); (39, VChar st);
               (54, VChar side); (55, VString s); (150, VChar et); (151, VDecimal l)]
  | NewOrderList params => order_list_nodes params
  | OrderCancelReject o c oc st rt rr =>
      scalars [(11, VString c); (37, VString o); (39, VChar st); (41, VString oc); (102, VInt rr); (434, VChar rt)]
  | AllocationReport params => allocation_nodes params
  end.

Definition message_answer (m : message) (out : bytes) : expected Z * bytes :=
  match find fst (message_checks m) with
  | Some (_, e) => (Err e, out)
  | None => committed (message_type m) (message_nodes m) out
  end.

(** The checks, then a builder that follows the tree. *)
Lemma refusing_follows arena m steps out :
  writes arena (message_type m) steps [] [] (message_nodes m) -> shaped (message_nodes m) ->
  exists r, refusing (message_checks m) out (build_body arena (message_type m) steps out) = Some r /\
    (r = message_answer m out \/ refused arena /\ exists e, r = (Err e, out)).
Proof.
  intros Hw Hs. destruct (build_follows arena (message_type m) steps (message_nodes m) out Hw Hs)
    as (r & Hr & Hor); [by destruct m|by destruct m|]. unfold message_answer.
  induction (message_checks m) as [|[[] e] checks IH]; cbn [refusing fold_right find fst].
  - by exists r.
  - eexists. split; [done|by left].
  - exact IH.
Qed.

Ltac write_in_a_row :=
  in_a_row; repeat (apply writes_both || by apply writes_put || by apply writes_put_decimal).

Lemma order_list_writes arena params :
  writes arena [69]
    (put 66 (VString (l_list_id params)) ;;;
     put 68 (VInt (l_tot_no_orders params)) ;;;
     orders_g <-- begin_group 73 11 ;
     each (write_order orders_g) (l_orders params) ;;;
     end_group orders_g ;;;
     put 394 (VInt (l_bid_type params))) [] [] (order_list_nodes params).
Proof.
  unfold order_list_nodes. write_in_a_row. apply writes_group_then; [|by apply writes_put]. apply writes_group.
  - intros b fs Hb. by apply begin_group_follows.
  - intros o pre s insts b Hb. apply order_follows; [cbn; lia|done].
Qed.

Lemma parties_writes arena msg_type parties :
  writes arena msg_type
    (parties_g <-- begin_group 453 448 ; each (write_party parties_g) parties ;;; end_group parties_g) [] []
    (group_of 453 448 party_nodes parties).
Proof.
  apply writes_group.
  - intros b fs Hb. by apply begin_group_follows.
  - intros p pre s insts b Hb. apply party_follows; [cbn; lia|done].
Qed.

Lemma message_shaped m : shaped (message_nodes m).
Proof.
  destruct m as [| |params| |params]; try apply shaped_scalars; cbn [message_nodes].
  - apply shaped_both, shaped_both; [apply shaped_scalars|apply shaped_group, order_starts|apply shaped_scalars].
  - apply shaped_both; [apply shaped_scalars|]. apply shaped_require.
    apply shaped_both, shaped_both; [apply shaped_scalars|apply shaped_group, party_starts|apply shaped_scalars].
Qed.

(** C17: the typed builders of the five business messages emit exactly the message of their
    arguments.  Each first refuses missing or malformed arguments, in the order of its checks;
    then its walk through the builder's handles - every group and instance opened, written and
    closed, down to the sub-identifiers of the parties of an order - never follows a handle to
    nowhere and answers as the message's tree says: with the error of its first invalid field,
    with [35=] and the fields of the tree in wire order at the front of the buffer, or with
    [wire_frame_too_large] when they exceed 3800 bytes or the buffer.  Only an arena that refuses an allocation makes it answer otherwise, and then with
    an error and the buffer as it was. *)
Theorem business_messages_exact arena out m :
  exists r, build_message arena out m = Some r /\
    (r = message_answer m out \/ (exists k, arena k = false) /\ exists e, r = (Err e, out)).
Proof.
  destruct m as [c s side q p t|o e et st s side l c a|params|o c oc st rt rr|params].
  - apply (refusing_follows arena (NewOrderSingle c s side q p t)); [|apply message_shaped].
    cbn [message_nodes]. write_in_a_row.
  - apply (refusing_follows arena (ExecutionReport o e et st s side l c a)); [|apply message_shaped].
    cbn [message_nodes]. write_in_a_row.
  - apply (refusing_follows arena (NewOrderList params)); [|apply message_shaped]. apply order_list_writes.
  - apply (refusing_follows arena (OrderCancelReject o c oc st rt rr)); [|apply message_shaped].
    cbn [message_nodes]. write_in_a_row.
  - apply (refusing_follows arena (AllocationReport params)); [|apply message_shaped].
    cbn [message_nodes]. unfold allocation_nodes. write_in_a_row. apply writes_unless. write_in_a_row.
    apply writes_group_then; [apply parties_writes|]. write_in_a_row.
Qed.

(** An order list of one order with one party: [35=E|66=L|68=1|73=1|11=A|67=1|453=1|448=P|447=D|452=3|
    802=0|55=S|54=1|38=10|394=1|]. *)
Definition sample_order_list : NewOrderListParams :=
  mkOrderList [76] 1 1 [mkOrder [65] 1 49 [83] (PodDecimal 10 0) [mkParty [80] 68 3 []]].

Example order_list_text :
  build_message (fun _ => true) (replicate 100 0) (NewOrderList sample_order_list) =
    Some (message_answer (NewOrderList sample_order_list) (replicate 100 0)) /\
  (message_answer (NewOrderList sample_order_list) (replicate 100 0)).1 = Ok 82.
Proof. split; vm_compute; reflexivity. Qed.

(** Full arguments, and an arena that is exhausted when the quantity is appended: it is called
    an invalid decimal. *)
Example decimal_blamed :
  let stamp := [50; 48; 50; 54; 48; 49; 48; 50; 45; 48; 51; 58; 48; 52; 58; 48; 53] in
  let m := NewOrderSingle [65] [83] 49 (PodDecimal 10 0) (PodDecimal 1 0) stamp in
  (message_answer m (replicate 100 0)).1 = Ok 57 /\
  build_message (fun k => k <? 2) (replicate 100 0) m = Some (Err decimal_invalid_input, replicate 100 0).
Proof. split; vm_compute; reflexivity. Qed.
