(* ===== verification/Tally.v ===== *)
(** Sums of a weight over the members of a list: how many actors of a concurrent run are at a
    point, or hold something. *)
From S2P Require Import Prelude.

Definition tally {A} (f : A -> Z) (l : list A) : Z := fold_right (fun a n => f a + n) 0 l.

Section Tally.
Context {A : Type}.
Implicit Types (f : A -> Z) (l : list A).

Lemma tally_app f l l' : tally f (l ++ l') = tally f l + tally f l'.
Proof. induction l as [|a l IH]; [done|]. cbn. fold (tally f). unfold tally in *. lia. Qed.

Lemma tally_snoc f l a : tally f (l ++ [a]) = tally f l + f a.
Proof. rewrite tally_app. cbn. lia. Qed.

Lemma tally_insert f l t a b : l !! t = Some a -> tally f (<[t := b]> l) = tally f l - f a + f b.
Proof.
  revert t. induction l as [|c l IH]; intros [|t] H; [done..| |].
  - injection H as ->. cbn. fold (tally f l). lia.
  - change (f c + tally f (<[t := b]> l) = f c + tally f l - f a + f b). rewrite (IH t H). lia.
Qed.

Lemma tally_ext f g l : (forall t a, l !! t = Some a -> f a = g a) -> tally f l = tally g l.
Proof.
  induction l as [|a l IH]; intros H; [done|]. cbn. fold (tally f l) (tally g l).
  rewrite (H O a eq_refl), IH; [done|]. intros t b Hb. exact (H (S t) b Hb).
Qed.

Lemma tally_ext_but f g l t a : l !! t = Some a ->
  (forall u b, u <> t -> l !! u = Some b -> g b = f b) -> tally g l - g a = tally f l - f a.
Proof.
  revert t. induction l as [|c l IH]; intros [|t] Ha H; [done..| |]; cbn; fold (tally f l) (tally g l).
  - injection Ha as ->. rewrite (tally_ext g f l); [lia|]. intros u b Hb. by apply (H (S u)).
  - specialize (IH t Ha). rewrite (H O c) by done. enough (tally g l - g a = tally f l - f a) by lia.
    apply IH. intros u b Hu Hb. apply (H (S u)); [congruence|done].
Qed.

(** The members of a list change at one place, and more come behind it. *)
Lemma tally_move f g l t a a' bs : l !! t = Some a ->
  (forall u b, u <> t -> l !! u = Some b -> g b = f b) ->
  tally g (<[t := a']> l ++ bs) = tally f l - f a + g a' + tally g bs.
Proof. intros Ha H. rewrite tally_app, (tally_insert g l t a a' Ha). pose proof (tally_ext_but f g l t a Ha H). lia. Qed.

Lemma tally_nonneg f l : (forall a, 0 <= f a) -> 0 <= tally f l.
Proof. intros Hf. induction l as [|a l IH]; [done|]. cbn. fold (tally f l). specialize (Hf a). lia. Qed.

Lemma tally_ge f l t a : (forall a, 0 <= f a) -> l !! t = Some a -> f a <= tally f l.
Proof.
  intros Hf. revert t. induction l as [|b l IH]; intros [|t] H; [done..| |]; cbn; fold (tally f l).
  - injection H as ->. pose proof (tally_nonneg f l Hf). lia.
  - specialize (IH t H). specialize (Hf b). lia.
Qed.

Lemma tally_two f l t u a b : (forall a, 0 <= f a) -> t <> u -> l !! t = Some a -> l !! u = Some b ->
  f a + f b <= tally f l.
Proof.
  intros Hf Hne Ha Hb. pose proof (tally_insert f l t a b Ha) as H.
  revert t u Hne Ha Hb H. induction l as [|c l IH]; intros [|t] [|u] Hne Ha Hb H; [done..| | |]; cbn; fold (tally f l).
  - injection Ha as ->. pose proof (tally_ge f l u b Hf Hb). lia.
  - injection Hb as ->. pose proof (tally_ge f l t a Hf Ha). lia.
  - specialize (IH t u ltac:(congruence) Ha Hb (tally_insert f l t a b Ha)). specialize (Hf c). lia.
Qed.

Lemma tally_le f g l : (forall a, f a <= g a) -> tally f l <= tally g l.
Proof. intros H. induction l as [|a l IH]; [done|]. cbn. fold (tally f l) (tally g l). specialize (H a). lia. Qed.

Lemma tally_add f g l : tally (fun a => f a + g a) l = tally f l + tally g l.
Proof. induction l as [|a l IH]; [done|]. cbn. fold (tally f l) (tally g l) (tally (fun a => f a + g a) l). lia. Qed.

(** Some member carries the weight. *)
Lemma tally_witness f l : 0 < tally f l -> exists t a, l !! t = Some a /\ 0 < f a.
Proof.
  induction l as [|a l IH]; cbn; [lia|]. fold (tally f l). intros H.
  destruct (decide (0 < f a)) as [Ha|Ha]; [by exists O, a|].
  destruct IH as (t & b & Hb & Hf); [lia|]. by exists (S t), b.
Qed.

Lemma tally_0 f l t a : (forall a, 0 <= f a) -> tally f l = 0 -> l !! t = Some a -> f a = 0.
Proof. intros Hf H0 H. pose proof (tally_ge f l t a Hf H). specialize (Hf a). lia. Qed.
End Tally.

(** How often a value occurs. *)
Definition occurs {A} `{EqDecision A} (x : A) (l : list A) : Z := tally (fun y => if decide (y = x) then 1 else 0) l.

Section Occurs.
Context {A : Type} `{EqDecision A}.
Implicit Types (x : A) (l : list A).

Lemma occurs_nil x : occurs x [] = 0.
Proof. done. Qed.

Lemma occurs_cons x y l : occurs x (y :: l) = (if decide (y = x) then 1 else 0) + occurs x l.
Proof. done. Qed.

Lemma occurs_app x l l' : occurs x (l ++ l') = occurs x l + occurs x l'.
Proof. apply tally_app. Qed.

Lemma occurs_nonneg x l : 0 <= occurs x l.
Proof. apply tally_nonneg. intros y. by destruct (decide _). Qed.

Lemma occurs_in x l : x ∈ l <-> 0 < occurs x l.
Proof.
  induction l as [|y l IH]; [by split; [intros H; inversion H|]|].
  rewrite occurs_cons, elem_of_cons, IH. pose proof (occurs_nonneg x l). destruct (decide _); [subst|]; split; try lia; [by left|].
  intros [?|?]; [congruence|lia].
Qed.

Lemma occurs_rev x l : occurs x (rev l) = occurs x l.
Proof. induction l as [|y l IH]; [done|]. cbn [rev]. rewrite occurs_app, IH, !occurs_cons, occurs_nil. lia. Qed.

Lemma occurs_nodup l : (forall x, occurs x l <= 1) -> NoDup l.
Proof.
  induction l as [|y l IH]; intros H; constructor.
  - intros Hin%occurs_in. specialize (H y). rewrite occurs_cons in H. destruct (decide (y = y)); [lia|done].
  - apply IH. intros x. specialize (H x). rewrite occurs_cons in H. pose proof (occurs_nonneg x l). destruct (decide _); lia.
Qed.
End Occurs.
