(* ===== verification/WaiterPool.v ===== *)
(** The pool of waiter records of [async_mutex] ([include/fixpp/core/sync/async_mutex.hpp]):
    512 slots, a counter of those never handed out and a free list whose packed head carries a
    generation.  Lockers take slots and whoever drops the last reference of a record gives its
    slot back, all at once and without a lock.

    Each atomic access is a step, and a run is any sequence of steps of any actors: the
    interleavings of a sequentially consistent memory. *)
From stdpp Require Import gmap.
From S2P Require Import Prelude Tally.
Local Open Scope Z_scope.

(** ** The packed head *)

Definition free_list_empty_index : Z := 0x3FF.
Definition waiter_pool_capacity_ : Z := 512.

(** [generation << 10] loses the high bits of a 64-bit word. *)
Definition pack_free_list_head (generation slot_index : Z) : Z :=
  Z.lor (u64 (Z.shiftl generation 10)) (Z.land slot_index 0x3FF).

(** [{generation, slot_index}] *)
Definition unpack_free_list_head (packed : Z) : Z * Z := (Z.shiftr packed 10, Z.land packed 0x3FF).

(** ** Actors and the pool *)

(** Where an actor is.  [PopLoad] to [PopCas] take from the free list, [BumpLoad] and [BumpTry]
    from the slots never used, [PushLoad] to [PushCas] give one back. *)
Inductive pool_actor : Type :=
  | PopLoad
  | PopLink (head : Z)
  | PopCas (head next_idx : Z)
  | BumpLoad
  | BumpTry (cur : Z)
  | Exhausted
  | Owned (slot : Z)
  | PushLoad (slot : Z)
  | PushLink (slot head : Z)
  | PushCas (slot head : Z)
  | Gone.

Record waiter_pool := Pool {
  free_link : gmap Z Z;
  waiter_pool_next_ : Z;
  waiter_pool_free_ : Z;
  pool_actors : list pool_actor }.

Definition link_of (links : gmap Z Z) (slot : Z) : Z := default 0 (links !! slot).

Definition pool_init : waiter_pool := Pool ∅ 0 (pack_free_list_head 0 free_list_empty_index) [].

Definition with_actor (t : nat) (a : pool_actor) (p : waiter_pool) : waiter_pool :=
  Pool (free_link p) (waiter_pool_next_ p) (waiter_pool_free_ p) (<[t := a]> (pool_actors p)).
Definition with_links (l : gmap Z Z) (p : waiter_pool) : waiter_pool :=
  Pool l (waiter_pool_next_ p) (waiter_pool_free_ p) (pool_actors p).
Definition with_next (n : Z) (p : waiter_pool) : waiter_pool :=
  Pool (free_link p) n (waiter_pool_free_ p) (pool_actors p).
Definition with_free (h : Z) (p : waiter_pool) : waiter_pool :=
  Pool (free_link p) (waiter_pool_next_ p) h (pool_actors p).

(** One atomic access.  A [compare_exchange_weak] may fail for no reason, and a failed one
    reloads the value it compared.  An owner starts giving its slot back at any time. *)
Definition actor_step (a : pool_actor) (spurious : bool) (t : nat) (p : waiter_pool) : option waiter_pool :=
  match a with
  | PopLoad => Some (with_actor t (PopLink (waiter_pool_free_ p)) p)
  | PopLink head =>
      let '(_, slot_index) := unpack_free_list_head head in
      if slot_index =? free_list_empty_index then Some (with_actor t BumpLoad p)
      else Some (with_actor t (PopCas head (link_of (free_link p) slot_index)) p)
  | PopCas head next_idx =>
      let '(generation, slot_index) := unpack_free_list_head head in
      if negb spurious && (waiter_pool_free_ p =? head) then
        Some (with_actor t (Owned slot_index) (with_free (pack_free_list_head (generation + 1) next_idx) p))
      else Some (with_actor t (PopLink (waiter_pool_free_ p)) p)
  | BumpLoad => Some (with_actor t (BumpTry (waiter_pool_next_ p)) p)
  | BumpTry cur =>
      if waiter_pool_capacity_ <=? cur then Some (with_actor t Exhausted p)
      else if negb spurious && (waiter_pool_next_ p =? cur) then
        Some (with_actor t (Owned cur) (with_next (cur + 1) p))
      else Some (with_actor t (BumpTry (waiter_pool_next_ p)) p)
  | Owned slot => Some (with_actor t (PushLoad slot) p)
  | PushLoad slot => Some (with_actor t (PushLink slot (waiter_pool_free_ p)) p)
  | PushLink slot head =>
      let '(_, slot_index) := unpack_free_list_head head in
      Some (with_actor t (PushCas slot head) (with_links (<[slot := slot_index]> (free_link p)) p))
  | PushCas slot head =>
      let '(generation, _) := unpack_free_list_head head in
      if negb spurious && (waiter_pool_free_ p =? head) then
        Some (with_actor t Gone (with_free (pack_free_list_head generation slot) p))
      else Some (with_actor t (PushLink slot (waiter_pool_free_ p)) p)
  | Exhausted | Gone => None
  end.

(** A new locker, or a step of one there. *)
Inductive pool_action : Type :=
  | Arrive
  | Act (t : nat) (spurious : bool).

Definition pool_step (p : waiter_pool) (x : pool_action) : option waiter_pool :=
  match x with
  | Arrive => Some (Pool (free_link p) (waiter_pool_next_ p) (waiter_pool_free_ p) (pool_actors p ++ [PopLoad]))
  | Act t spurious =>
      match pool_actors p !! t with
      | Some a => actor_step a spurious t p
      | None => None
      end
  end.

Fixpoint pool_run (p : waiter_pool) (xs : list pool_action) : option waiter_pool :=
  match xs with
  | [] => Some p
  | x :: xs => match pool_step p x with Some p => pool_run p xs | None => None end
  end.

(** The slot an actor answers for: its own, or one it is giving back. *)
Definition slot_of (a : pool_actor) : option Z :=
  match a with
  | Owned i | PushLoad i | PushLink i _ | PushCas i _ => Some i
  | _ => None
  end.

(** The free list, from the head along the links; the fuel is the number of slots. *)
Fixpoint links_from (fuel : nat) (links : gmap Z Z) (i : Z) : list Z :=
  match fuel with
  | O => []
  | S fuel => if i =? free_list_empty_index then [] else i :: links_from fuel links (link_of links i)
  end.

Definition free_slots (p : waiter_pool) : list Z :=
  links_from 512 (free_link p) (unpack_free_list_head (waiter_pool_free_ p)).2.

(** ** Lemmas *)

Lemma pack_unpack g i : 0 <= g < 2 ^ 54 -> 0 <= i < 1024 -> unpack_free_list_head (pack_free_list_head g i) = (g, i).
Proof.
  intros Hg Hi. unfold pack_free_list_head, unpack_free_list_head.
  rewrite Z.shiftl_mul_pow2, wrap_small by lia.
  change 0x3FF with (Z.ones 10). rewrite Z.land_ones, (Z.mod_small i) by lia.
  assert (E : Z.lor (g * 2 ^ 10) i = g * 2 ^ 10 + i).
  { rewrite <- Z.lxor_lor, <- Z.add_nocarry_lxor; [done|..]; rewrite <- Z.shiftl_mul_pow2 by lia.
    all: apply Z.bits_inj_0; intros n; rewrite Z.land_spec.
    all: destruct (decide (n < 0)) as [Hn|Hn]; [by rewrite Z.testbit_neg_r|].
    all: destruct (decide (n < 10)); [rewrite Z.shiftl_spec_low by lia; done|].
    all: rewrite (Z.bits_above_log2 i), andb_false_r; [done|lia|].
    all: destruct (decide (i = 0)) as [->|]; [cbn; lia|]; apply Z.log2_lt_pow2; [lia|].
    all: apply Z.lt_le_trans with 1024; [lia|]; change 1024 with (2 ^ 10); apply Z.pow_le_mono_r; lia. }
  rewrite E, Z.shiftr_div_pow2, Z.land_ones by lia. f_equal.
  - rewrite Z.div_add_l by lia. rewrite Z.div_small; lia.
  - rewrite Z.add_comm, Z.mod_add by lia. apply Z.mod_small. lia.
Qed.

Lemma pack_inj g i g' i' : 0 <= g < 2 ^ 54 -> 0 <= i < 1024 -> 0 <= g' < 2 ^ 54 -> 0 <= i' < 1024 ->
  pack_free_list_head g i = pack_free_list_head g' i' -> g = g' /\ i = i'.
Proof.
  intros Hg Hi Hg' Hi' E. pose proof (pack_unpack g i Hg Hi) as H1. rewrite E, pack_unpack in H1 by done. by injection H1 as -> ->.
Qed.

(** *** The free list *)

(** From [top] the links lead through exactly these slots. *)
Fixpoint linked (links : gmap Z Z) (top : Z) (fl : list Z) : Prop :=
  match fl with
  | [] => top = free_list_empty_index
  | i :: fl => top = i /\ 0 <= i < waiter_pool_capacity_ /\ linked links (link_of links i) fl
  end.

Lemma linked_range links top fl : linked links top fl -> 0 <= top < 1024.
Proof.
  unfold free_list_empty_index, waiter_pool_capacity_ in *.
  destruct fl as [|i fl]; cbn; unfold free_list_empty_index, waiter_pool_capacity_; lia.
Qed.

Lemma link_insert links i v j : link_of (<[i := v]> links) j = if decide (i = j) then v else link_of links j.
Proof. unfold link_of. rewrite lookup_insert. by destruct (decide (i = j)). Qed.

Lemma linked_insert links i v top fl : i ∉ fl -> linked links top fl -> linked (<[i := v]> links) top fl.
Proof.
  revert top. induction fl as [|j fl IH]; intros top Hi H; [exact H|]. apply not_elem_of_cons in Hi as [Hne Hi].
  destruct H as (-> & Hr & H). split; [done|]. split; [done|]. rewrite link_insert, decide_False by done. by apply IH.
Qed.

Lemma linked_nonempty links i fl : i <> free_list_empty_index -> linked links i fl ->
  exists fl', fl = i :: fl' /\ linked links (link_of links i) fl'.
Proof. destruct fl as [|j fl]; [done|]. intros _ (-> & _ & H). by exists fl. Qed.

Lemma links_from_linked n links top fl : linked links top fl -> (length fl <= n)%nat -> links_from n links top = fl.
Proof.
  revert top fl. induction n as [|n IH]; intros top [|i fl] H Hn; cbn in *; try done; try lia.
  - by rewrite H.
  - destruct H as (-> & Hi & H). unfold waiter_pool_capacity_ in Hi.
    replace (i =? free_list_empty_index) with false by (unfold free_list_empty_index; lia).
    f_equal. apply IH; [done|lia].
Qed.

(** *** The invariant *)

Definition holds (i : Z) (a : pool_actor) : Z := if decide (slot_of a = Some i) then 1 else 0.

Lemma holds_nonneg i a : 0 <= holds i a.
Proof. unfold holds. by destruct (decide _). Qed.

(** A head an actor once read: of an earlier generation, or of this one, when its slot is still
    in the free list. *)
Definition seen (g : Z) (fl : list Z) (head i : Z) : Prop :=
  exists g', head = pack_free_list_head g' i /\ 0 <= g' <= g /\ 0 <= i < 1024 /\
    (g' = g -> i = free_list_empty_index \/ i ∈ fl).

(** What an actor knows. *)
Definition knows (g : Z) (fl : list Z) (links : gmap Z Z) (a : pool_actor) : Prop :=
  match a with
  | PopLink head => exists i, seen g fl head i
  | PopCas head next_idx =>
      exists g' i, head = pack_free_list_head g' i /\ 0 <= g' <= g /\ 0 <= i < 1024 /\
        (g' = g -> i <> free_list_empty_index /\ i ∈ fl /\ next_idx = link_of links i)
  | BumpTry cur => 0 <= cur
  | PushLink _ head => exists g' i, head = pack_free_list_head g' i /\ 0 <= g' <= g /\ 0 <= i < 1024
  | PushCas slot head =>
      exists g' i, head = pack_free_list_head g' i /\ 0 <= g' <= g /\ 0 <= i < 1024 /\ link_of links slot = i
  | _ => True
  end.

Record pool_ok (k g : Z) (fl : list Z) (p : waiter_pool) : Prop := {
  po_gen : 0 <= g <= k;
  po_head : exists top, waiter_pool_free_ p = pack_free_list_head g top /\ linked (free_link p) top fl;
  po_next : 0 <= waiter_pool_next_ p <= waiter_pool_capacity_;
  po_slots : forall i, tally (holds i) (pool_actors p) + occurs i fl =
               (if decide (0 <= i < waiter_pool_next_ p) then 1 else 0);
  po_knows : forall t a, pool_actors p !! t = Some a -> knows g fl (free_link p) a }.

Lemma pool_init_ok : pool_ok 0 0 [] pool_init.
Proof.
  constructor; cbn; [lia|by exists free_list_empty_index|unfold waiter_pool_capacity_; lia| |done].
  intros i. destruct (decide (0 <= i < 0)); [lia|done].
Qed.

Lemma slot_held i a : slot_of a = Some i <-> holds i a = 1.
Proof. unfold holds. by destruct (decide _). Qed.

Ltac fields := cbn [pool_actors with_actor with_links with_free with_next free_link waiter_pool_next_ waiter_pool_free_].

Section Step.
Context (k g : Z) (fl : list Z) (p : waiter_pool).
Hypothesis Hk : k + 1 < 2 ^ 54.
Hypothesis Hp : pool_ok k g fl p.

Lemma held_once t u a b i : pool_actors p !! t = Some a -> pool_actors p !! u = Some b ->
  slot_of a = Some i -> slot_of b = Some i -> t = u.
Proof using Hp.
  intros Ha Hb Hsa%slot_held Hsb%slot_held. destruct (decide (t = u)) as [|Hne]; [done|].
  pose proof (tally_two (holds i) _ t u a b (holds_nonneg i) Hne Ha Hb). pose proof (po_slots _ _ _ _ Hp i) as Hc.
  pose proof (occurs_nonneg i fl). destruct (decide _); lia.
Qed.

Lemma held_range t a i : pool_actors p !! t = Some a -> slot_of a = Some i ->
  0 <= i < waiter_pool_next_ p /\ i ∉ fl.
Proof using Hp.
  intros Ha Hs%slot_held. pose proof (tally_ge (holds i) _ t a (holds_nonneg i) Ha) as H1.
  pose proof (po_slots _ _ _ _ Hp i) as H. pose proof (occurs_nonneg i fl). rewrite occurs_in.
  destruct (decide _); [split; [done|lia]|lia].
Qed.

(** An actor that moves, answering for the slot it answered for before. *)
Lemma move_ok t a b links' :
  pool_actors p !! t = Some a -> slot_of b = slot_of a -> knows g fl links' b ->
  (exists top, waiter_pool_free_ p = pack_free_list_head g top /\ linked links' top fl) ->
  (forall u c, u <> t -> pool_actors p !! u = Some c -> knows g fl links' c) ->
  pool_ok (k + 1) g fl (with_actor t b (with_links links' p)).
Proof using Hp.
  intros Ha Hs Hb Hl Ho. destruct Hp as [Hg _ Hn Hc Hw]. constructor; fields; [lia|done|done| |].
  - intros i. rewrite (tally_insert _ _ _ a) by done. unfold holds at 2 3. rewrite Hs. specialize (Hc i). lia.
  - intros u c. rewrite list_lookup_insert. case_decide as Hd; [intros [= <-]; exact Hb|].
    intros Hu. apply (Ho u); [|done]. intros ->. apply Hd. split; [done|]. by eapply lookup_lt_Some.
Qed.

Lemma read_head : exists top, waiter_pool_free_ p = pack_free_list_head g top /\ linked (free_link p) top fl /\
  seen g fl (waiter_pool_free_ p) top.
Proof using Hk Hp.
  destruct Hp as [Hg (top & Hh & Hl) _ _ _]. exists top. split; [done|]. split; [done|].
  exists g. split; [done|]. split; [lia|]. split; [by eapply linked_range|]. intros _.
  destruct fl as [|i fl']; [by left|right]. destruct Hl as (-> & _). by left.
Qed.

Lemma stay_ok t a b :
  pool_actors p !! t = Some a -> slot_of b = slot_of a -> knows g fl (free_link p) b ->
  pool_ok (k + 1) g fl (with_actor t b p).
Proof using Hp.
  intros Ha Hs Hb. change (with_actor t b p) with (with_actor t b (with_links (free_link p) p)).
  apply (move_ok t a); [done..|apply Hp|]. intros u c _ Hc. exact (po_knows _ _ _ _ Hp u c Hc).
Qed.

Lemma unpack_head g' i : 0 <= g' <= g -> 0 <= i < 1024 ->
  unpack_free_list_head (pack_free_list_head g' i) = (g', i).
Proof using Hk Hp. intros. destruct Hp as [Hg _ _ _ _]. apply pack_unpack; lia. Qed.

(** What the others know when the free list grows, or a later generation begins. *)
Lemma knows_pushed links i c : knows g fl links c -> knows g (i :: fl) links c.
Proof using.
  destruct c; cbn; try done.
  - intros (j & g' & H1 & H2 & H3 & H4). exists j, g'. do 3 (split; [done|]). intros E.
    destruct (H4 E); [by left|right; by right].
  - intros (g' & j & H1 & H2 & H3 & H4). exists g', j. do 3 (split; [done|]). intros E.
    destruct (H4 E) as (? & ? & ?). split; [done|]. split; [by right|done].
Qed.

Lemma knows_later fl' links c : knows g fl links c -> knows (g + 1) fl' links c.
Proof using.
  destruct c; cbn; try done.
  - intros (j & g' & H1 & H2 & H3 & H4). exists j, g'. split; [done|]. split; [lia|]. split; [done|lia].
  - intros (g' & j & H1 & H2 & H3 & H4). exists g', j. split; [done|]. split; [lia|]. split; [done|lia].
  - intros (g' & j & H1 & H2 & H3). exists g', j. split; [done|]. split; [lia|done].
  - intros (g' & j & H1 & H2 & H3 & H4). exists g', j. split; [done|]. split; [lia|done].
Qed.

(** A successful exchange of the head: the actor comes to answer for a slot, or ceases to. *)
Lemma exchange_ok t a b g2 fl2 top2 :
  pool_actors p !! t = Some a -> g <= g2 <= g + 1 -> linked (free_link p) top2 fl2 ->
  (forall i, holds i b + occurs i fl2 = holds i a + occurs i fl) -> (forall g fl links, knows g fl links b) ->
  (forall c, knows g fl (free_link p) c -> knows g2 fl2 (free_link p) c) ->
  pool_ok (k + 1) g2 fl2 (with_actor t b (with_free (pack_free_list_head g2 top2) p)).
Proof using Hp.
  intros Ha Hg2 Hl Hc Hb Ho. destruct Hp as [Hg _ Hn Hslots Hw]. constructor; fields; [lia|by exists top2|done| |].
  - intros i. rewrite (tally_insert _ _ _ a) by done. specialize (Hc i). specialize (Hslots i). lia.
  - intros u c. rewrite list_lookup_insert. case_decide; [intros [= <-]; apply Hb|]. intros Hu. apply Ho. by eapply Hw.
Qed.

Lemma holds_none i a : slot_of a = None -> holds i a = 0.
Proof using. unfold holds. intros ->. by destruct (decide _). Qed.

Lemma holds_some i j a : slot_of a = Some j -> holds i a = if decide (j = i) then 1 else 0.
Proof using. unfold holds. intros ->. destruct (decide (Some j = Some i)), (decide (j = i)); congruence. Qed.
End Step.


Lemma step_ok k g fl p t a spurious p' : k + 1 < 2 ^ 54 -> pool_ok k g fl p ->
  pool_actors p !! t = Some a -> actor_step a spurious t p = Some p' ->
  exists g' fl', pool_ok (k + 1) g' fl' p'.
Proof.
  intros Hk Hp Ha Hs. pose proof (po_knows _ _ _ _ Hp t a Ha) as Hw.
  destruct (read_head k g fl p Hk Hp) as (top & Hh & Hl & Hseen). pose proof (linked_range _ _ _ Hl) as Htop.
  pose proof (po_gen _ _ _ _ Hp) as Hg. pose proof (po_next _ _ _ _ Hp) as Hn.
  assert (Hstay : forall b, slot_of b = slot_of a -> knows g fl (free_link p) b -> pool_ok (k + 1) g fl (with_actor t b p)).
  { intros b. by eapply stay_ok. }
  destruct a as [|head|head next_idx| |cur| |slot|slot|slot head|slot head|]; cbn [actor_step] in Hs; try done.
  - injection Hs as <-. exists g, fl. apply Hstay; [done|]. by exists top.
  - destruct Hw as (i & g' & -> & Hg' & Hi & Hin). rewrite (unpack_head k g fl p Hk Hp) in Hs by done.
    destruct (i =? free_list_empty_index) eqn:E; injection Hs as <-; exists g, fl; (apply Hstay; [done|]); [done|].
    exists g', i. do 3 (split; [done|]). intros Eg. destruct (Hin Eg); [lia|]. split; [lia|done].
  - destruct Hw as (g' & i & -> & Hg' & Hi & Hin). rewrite (unpack_head k g fl p Hk Hp) in Hs by done.
    destruct (negb spurious && _) eqn:E; injection Hs as <-; [|exists g, fl; apply Hstay; [done|by exists top]].
    apply andb_true_iff in E as [_ E%Z.eqb_eq]. rewrite Hh in E. apply pack_inj in E as [<- ->]; [|lia..].
    destruct (Hin eq_refl) as (Hne & _ & ->). destruct (linked_nonempty _ _ _ Hne Hl) as (fl' & -> & Hl').
    exists (g + 1), fl'. eapply exchange_ok; [done..|lia|done| | |].
    + intros j. rewrite (holds_some j i (Owned i) eq_refl), (holds_none j (PopCas (pack_free_list_head g i) (link_of (free_link p) i)) eq_refl), occurs_cons. lia.
    + done.
    + intros c. apply knows_later.
  - injection Hs as <-. exists g, fl. apply Hstay; [done|]. cbn. lia.
  - destruct (waiter_pool_capacity_ <=? cur) eqn:Ec; [injection Hs as <-; exists g, fl; by apply Hstay|].
    destruct (negb spurious && _) eqn:E; injection Hs as <-; exists g, fl; [|apply Hstay; [done|cbn; lia]].
    apply andb_true_iff in E as [_ E%Z.eqb_eq]. destruct Hp as [_ Hhead _ Hc Ho].
    constructor; fields; [lia|done|lia| |].
    + intros i. rewrite (tally_insert _ _ _ _ _ Ha), (holds_some i cur (Owned cur) eq_refl), (holds_none i (BumpTry cur) eq_refl).
      specialize (Hc i). destruct (decide (cur = i)), (decide (0 <= i < cur + 1)), (decide (0 <= i < waiter_pool_next_ p)); lia.
    + intros u c. rewrite list_lookup_insert. case_decide; [intros [= <-]; exact I|]. apply Ho.
  - injection Hs as <-. exists g, fl. by apply Hstay.
  - injection Hs as <-. exists g, fl. apply Hstay; [done|]. exists g, top. split; [done|lia].
  - destruct Hw as (g' & i & -> & Hg' & Hi). rewrite (unpack_head k g fl p Hk Hp) in Hs by done. injection Hs as <-.
    destruct (held_range k g fl p Hp t _ slot Ha eq_refl) as [_ Hfl]. exists g, fl.
    apply (move_ok k g fl p Hp t _ _ _ Ha); [done| | |].
    + exists g', i. do 3 (split; [done|]). by rewrite link_insert, decide_True.
    + exists top. split; [done|]. by apply linked_insert.
    + intros u c Hu Hc. pose proof (po_knows _ _ _ _ Hp u c Hc) as Hw. destruct c; try done; cbn in *.
      * destruct Hw as (g2 & j & H1 & H2 & H3 & H4). exists g2, j. do 3 (split; [done|]). intros Eg.
        destruct (H4 Eg) as (? & Hj & ->). rewrite link_insert, decide_False by congruence. done.
      * destruct Hw as (g2 & j & H1 & H2 & H3 & H4). exists g2, j. do 3 (split; [done|]).
        rewrite link_insert, decide_False; [done|]. intros <-. apply Hu. by eapply held_once.
  - destruct Hw as (g' & i & -> & Hg' & Hi & Hlink). rewrite (unpack_head k g fl p Hk Hp) in Hs by done.
    destruct (negb spurious && _) eqn:E; injection Hs as <-; [|exists g, fl; apply Hstay; [done|exists g, top; split; [done|lia]]].
    apply andb_true_iff in E as [_ E%Z.eqb_eq]. rewrite Hh in E. apply pack_inj in E as [<- ->]; [|lia..].
    destruct (held_range k g fl p Hp t _ slot Ha eq_refl) as [Hr _].
    exists g, (slot :: fl). eapply exchange_ok; [done..|lia| | |done|].
    + split; [done|]. split; [lia|]. by rewrite Hlink.
    + intros j. rewrite (holds_some j slot (PushCas slot (pack_free_list_head g i)) eq_refl), (holds_none j Gone eq_refl), occurs_cons. lia.
    + intros c. apply knows_pushed.
Qed.

Lemma run_ok xs : forall k g fl p p', pool_ok k g fl p -> k + zlen xs < 2 ^ 54 -> pool_run p xs = Some p' ->
  exists g' fl', pool_ok (k + zlen xs) g' fl' p'.
Proof.
  induction xs as [|x xs IH]; intros k g fl p p' Hp Hk Hr; [injection Hr as <-; rewrite zlen_nil, Z.add_0_r; eauto|].
  rewrite zlen_cons in *. pose proof (zlen_nonneg xs). cbn [pool_run] in Hr.
  assert (Hs : forall p2, pool_step p x = Some p2 -> exists g' fl', pool_ok (k + 1) g' fl' p2).
  { intros p2. destruct x as [|t spurious]; cbn [pool_step].
    - intros [= <-]. exists g, fl. destruct Hp as [Hg Hh Hn Hc Ho]. constructor; fields; [lia|done|done| |].
      + intros i. rewrite tally_snoc, (holds_none i PopLoad eq_refl). specialize (Hc i). lia.
      + intros u c [Hu|[_ Hu]]%lookup_app_Some; [by eapply Ho|]. apply list_lookup_singleton_Some in Hu as [_ <-]. done.
    - destruct (pool_actors p !! t) as [a|] eqn:Ha; [|done]. apply (step_ok k g fl p t a); [lia|done..]. }
  destruct (pool_step p x) as [p2|]; [|done]. destruct (Hs p2 eq_refl) as (g2 & fl2 & H2).
  destruct (IH _ _ _ _ _ H2 ltac:(lia) Hr) as (g' & fl' & H'). exists g', fl'. by rewrite Z.add_assoc.
Qed.

Lemma free_slots_ok k g fl p : k < 2 ^ 54 -> pool_ok k g fl p -> free_slots p = fl.
Proof.
  intros Hk [Hg (top & Hh & Hl) Hn Hc _]. unfold free_slots. rewrite Hh, pack_unpack; [|lia|by eapply linked_range].
  apply links_from_linked; [done|].
  assert (Hnd : NoDup fl).
  { apply occurs_nodup. intros i. specialize (Hc i). pose proof (tally_nonneg (holds i) (pool_actors p) (holds_nonneg i)).
    destruct (decide _); lia. }
  assert (Hsub : fl ⊆ map Z.of_nat (seq 0 512)).
  { intros i Hi%occurs_in. specialize (Hc i). pose proof (tally_nonneg (holds i) (pool_actors p) (holds_nonneg i)).
    unfold waiter_pool_capacity_ in Hn. apply list_elem_of_In, in_map_iff. exists (Z.to_nat i).
    destruct (decide _); [|lia]. split; [lia|]. apply in_seq. lia. }
  pose proof (submseteq_length _ _ (NoDup_submseteq _ _ Hnd Hsub)) as H. by rewrite length_map, length_seq in H.
Qed.

(** ** Properties *)

(** C28: a slot of the pool belongs to one at a time.  However many lockers take slots and give
    them back at once, and however their steps interleave, for fewer than 2^54 of them: a slot
    handed out is one of the 512; no two actors ever answer for the same one; and every slot
    handed out so far is with exactly one actor or once in the free list, so none is lost or
    handed out while in use - although a stale exchange may meet a head with the same index
    again. *)
Theorem pool_slots_exclusive xs p :
  pool_run pool_init xs = Some p -> zlen xs < 2 ^ 54 ->
  (forall t u a b i, pool_actors p !! t = Some a -> pool_actors p !! u = Some b ->
     slot_of a = Some i -> slot_of b = Some i -> t = u) /\
  (forall t a i, pool_actors p !! t = Some a -> slot_of a = Some i -> 0 <= i < 512 /\ i ∉ free_slots p) /\
  NoDup (free_slots p) /\
  (forall i, 0 <= i < waiter_pool_next_ p -> i ∈ free_slots p \/
     exists t a, pool_actors p !! t = Some a /\ slot_of a = Some i).
Proof.
  intros Hr Hk. destruct (run_ok xs 0 0 [] pool_init p pool_init_ok ltac:(lia) Hr) as (g & fl & Hp).
  rewrite (free_slots_ok _ _ _ _ Hk Hp). pose proof Hp as [_ _ Hn Hc _].
  split_and!.
  - intros t u a b i. by eapply held_once.
  - intros t a i Ha Hs. destruct (held_range _ _ _ _ Hp t a i Ha Hs) as [Hi Hf]. unfold waiter_pool_capacity_ in Hn.
    split; [lia|done].
  - apply occurs_nodup. intros i. specialize (Hc i).
    pose proof (tally_nonneg (holds i) (pool_actors p) (holds_nonneg i)). destruct (decide _); lia.
  - intros i Hi. specialize (Hc i). rewrite decide_True in Hc by done. rewrite occurs_in.
    destruct (decide (0 < occurs i fl)); [by left|right].
    destruct (tally_witness (holds i) (pool_actors p)) as (t & a & Ha & Hs); [lia|]. exists t, a. split; [done|].
    unfold holds in Hs. by destruct (decide _).
Qed.

(** Two lockers; the first stops before its exchange with the head and link it read, while the
    second takes that slot, takes the next and gives the first back: the head has the same
    index again, and the stale exchange fails. *)
Definition aba_run : list pool_action :=
  [Arrive; Act 0 false; Act 0 false; Act 0 false; Act 0 false;
   Arrive; Act 1 false; Act 1 false; Act 1 false; Act 1 false;
   Act 1 false; Act 1 false; Act 1 false; Act 1 false;
   Act 0 false; Act 0 false; Act 0 false; Act 0 false;
   Arrive; Act 2 false; Act 2 false;
   Arrive; Act 3 false; Act 3 false; Act 3 false;
   Arrive; Act 4 false; Act 4 false; Act 4 false;
   Act 3 false; Act 3 false; Act 3 false; Act 3 false;
   Act 2 false].

Lemma pool_slots_exclusive_witness :
  match pool_run pool_init aba_run with
  | Some p => free_slots p = [0] /\ slot_of <$> pool_actors p !! 4%nat = Some (Some 1) /\
              pool_actors p !! 2%nat = Some (PopLink (waiter_pool_free_ p)) /\
              NoDup (free_slots p)
  | None => False
  end.
Proof.
  destruct (pool_run pool_init aba_run) as [p|] eqn:E; [|vm_compute in E; discriminate E].
  pose proof (pool_slots_exclusive aba_run p E ltac:(vm_compute; reflexivity)) as (_ & _ & Hn & _).
  assert (Ep : pool_run pool_init aba_run = Some p) by exact E. vm_compute in Ep. injection Ep as <-.
  split; [reflexivity|]. split; [reflexivity|]. split; [reflexivity|exact Hn].
Defined.
