(* ===== verification/AsyncMutex.v ===== *)
(** [async_mutex] ([include/fixpp/core/sync/async_mutex.hpp]): an awaitable lock whose word is
    unlocked, held, or the newest of a chain of waiters, with the older ones in a residual chain.

    Coroutines and the work posted or left behind for them are activities; each of their atomic
    accesses is a step, with the plain writes around it, which touch only what the activity owns.
    A run is any sequence of steps of any activities: the interleavings of a sequentially
    consistent memory.  Records lie in a heap; where one lies may be used again once its last
    reference is dropped ([WaiterPool] is what hands out the places), and an access to a place
    with no record breaks the run, as [std::terminate] does. *)
From stdpp Require Import gmap.
From S2P Require Import Prelude Errors Tally.
Local Open Scope Z_scope.

(** ** Data *)

Inductive waiter_phase : Type := queued | granted | cancelled.

#[global] Instance waiter_phase_eq_dec : EqDecision waiter_phase.
Proof. solve_decision. Defined.

(** [expected_t<async_lock_guard>]: a guard that owns nothing, one that owns the mutex, an error. *)
Inductive lock_result : Type := NoGuard | Guard | Failed (e : error).

#[global] Instance lock_result_eq_dec : EqDecision lock_result.
Proof. solve_decision. Defined.

(** [waiter_record]; [attached_awaiter_] names the coroutine whose frame holds the awaiter. *)
Record waiter_record := Waiter {
  phase_ : waiter_phase;
  next_ : option nat;
  result_ : lock_result;
  attached_awaiter_ : option nat;
  refcount_ : Z }.

(** [state_]: [locked None] is [locked_no_waiters], [locked (Some r)] the address of a record. *)
Inductive state_word : Type := not_locked | locked (head : option nat).

#[global] Instance state_word_eq_dec : EqDecision state_word.
Proof. solve_decision. Defined.

(** The three accesses of [schedule_resume]. *)
Inductive schedule : Type := AddRef | CountIn | Post.

(** The chain an [unlock] walks. *)
Inductive chain_walk : Type := Residual | Fifo.

(** Where an activity is.  Of a coroutine: at rest without the lock, with the answer of its last
    lock, or with the guard; in [lock_op_]; suspended in it; resumed; in [unlock]; in
    [cancel_and_drain].  Of other work: the creator's reference of a lock that was queued, a
    posted runner, a cancellation. *)
Inductive activity : Type :=
  | Idle
  | Refused (e : error)
  | Owner
  (* lock_op_ *)
  | LockEntry
  | LockFast
  | LockHeld
  | LockAlloc
  | LockRecheck (r : nat)
  | LockLoad (r : nat)
  | LockTry (r : nat) (old : state_word)
  | LockPush (r : nat) (old : option nat)
  | LockUndo (r : nat) (old : state_word)
  | LockWon (r : nat)
  | LockGrant (r : nat)
  | LockRefused (r : nat) (e : error)
  | LockSchedule (r : nat) (s : schedule)
  | Parked (r : nat)
  | ReleaseRef (r : nat)
  (* the resume runner, and the coroutine it resumes *)
  | Runner (r : nat)
  | RunnerRelease (r : nat)
  | RunnerCountOut
  | Resumed (r : nat) (res : lock_result)
  | Detached (r : nat) (res : lock_result)
  (* unlock *)
  | UnlockEnter
  | UnlockCheck
  | UnlockDrained
  | UnlockResidual
  | UnlockWalk (w : chain_walk) (cur : option nat)
  | UnlockGrant (w : chain_walk) (r : nat)
  | UnlockSkip (w : chain_walk) (r : nat)
  | UnlockGranted (r : nat)
  | UnlockSplice (r tail : nat)
  | UnlockSpliceCas (r tail tail_end : nat) (old : option nat)
  | UnlockRelease (r : nat)
  | UnlockSchedule (r : nat) (s : schedule)
  | UnlockExchange
  | UnlockTerminal
  | UnlockAgain
  (* on_cancel *)
  | CancelResult (r : nat)
  | CancelSchedule (r : nat) (s : schedule)
  (* cancel_and_drain *)
  | DrainEntry
  | DrainElect
  | DrainAwaitFlag
  | DrainAwait
  | DrainSet
  | DrainExchange
  | DrainExchangeFifo (lifo : option nat)
  | DrainReap (cur fifo : option nat) (both_empty : bool)
  | DrainReaped (r : nat) (won : bool) (nxt fifo : option nat) (both_empty : bool)
  | DrainSchedule (r : nat) (s : schedule) (nxt fifo : option nat) (both_empty : bool)
  | DrainHolders (both_empty : bool)
  | DrainResumers (both_empty : bool)
  | DrainYield
  | DrainFinalize
  | DrainPublish
  | Finished.

Record async_mutex := Mutex {
  state_ : state_word;
  next_drain_head_ : option nat;
  draining_ : bool;
  drain_in_progress_ : bool;
  draining_complete_ : bool;
  active_holders_count_ : Z;
  in_flight_resumers_ : Z;
  records : gmap nat waiter_record;
  activities : list activity }.

Definition async_mutex_init : async_mutex := Mutex not_locked None false false false 0 0 ∅ [].

(** ** Changes of a part *)

Definition with_state (w : state_word) (m : async_mutex) : async_mutex :=
  Mutex w (next_drain_head_ m) (draining_ m) (drain_in_progress_ m) (draining_complete_ m)
    (active_holders_count_ m) (in_flight_resumers_ m) (records m) (activities m).
Definition with_residual (p : option nat) (m : async_mutex) : async_mutex :=
  Mutex (state_ m) p (draining_ m) (drain_in_progress_ m) (draining_complete_ m)
    (active_holders_count_ m) (in_flight_resumers_ m) (records m) (activities m).
Definition with_flags (draining elected complete : bool) (m : async_mutex) : async_mutex :=
  Mutex (state_ m) (next_drain_head_ m) draining elected complete
    (active_holders_count_ m) (in_flight_resumers_ m) (records m) (activities m).
Definition add_holders (n : Z) (m : async_mutex) : async_mutex :=
  Mutex (state_ m) (next_drain_head_ m) (draining_ m) (drain_in_progress_ m) (draining_complete_ m)
    (u32 (active_holders_count_ m + n)) (in_flight_resumers_ m) (records m) (activities m).
Definition add_in_flight (n : Z) (m : async_mutex) : async_mutex :=
  Mutex (state_ m) (next_drain_head_ m) (draining_ m) (drain_in_progress_ m) (draining_complete_ m)
    (active_holders_count_ m) (u32 (in_flight_resumers_ m + n)) (records m) (activities m).
Definition with_records (h : gmap nat waiter_record) (m : async_mutex) : async_mutex :=
  Mutex (state_ m) (next_drain_head_ m) (draining_ m) (drain_in_progress_ m) (draining_complete_ m)
    (active_holders_count_ m) (in_flight_resumers_ m) h (activities m).
Definition with_activities (l : list activity) (m : async_mutex) : async_mutex :=
  Mutex (state_ m) (next_drain_head_ m) (draining_ m) (drain_in_progress_ m) (draining_complete_ m)
    (active_holders_count_ m) (in_flight_resumers_ m) (records m) l.

Definition set_phase (p : waiter_phase) (w : waiter_record) : waiter_record :=
  Waiter p (next_ w) (result_ w) (attached_awaiter_ w) (refcount_ w).
Definition set_next (p : option nat) (w : waiter_record) : waiter_record :=
  Waiter (phase_ w) p (result_ w) (attached_awaiter_ w) (refcount_ w).
Definition set_result (res : lock_result) (w : waiter_record) : waiter_record :=
  Waiter (phase_ w) (next_ w) res (attached_awaiter_ w) (refcount_ w).
Definition set_attached (a : option nat) (w : waiter_record) : waiter_record :=
  Waiter (phase_ w) (next_ w) (result_ w) a (refcount_ w).
Definition set_refcount (n : Z) (w : waiter_record) : waiter_record :=
  Waiter (phase_ w) (next_ w) (result_ w) (attached_awaiter_ w) n.

(** ** Outcomes *)

(** An activity at rest or suspended has no step of its own; a step that reads a record that is
    not there, or meets what the code calls impossible, breaks the run. *)
Inductive outcome : Type :=
  | Waits
  | Breaks
  | Steps (m : async_mutex).

Definition at_record (r : nat) (m : async_mutex) (k : waiter_record -> outcome) : outcome :=
  match records m !! r with Some w => k w | None => Breaks end.

Definition put_record (r : nat) (w : waiter_record) (m : async_mutex) : async_mutex :=
  with_records (<[r := w]> (records m)) m.

(** [add_ref] *)
Definition add_ref (r : nat) (m : async_mutex) (k : async_mutex -> outcome) : outcome :=
  at_record r m (fun w => k (put_record r (set_refcount (u32 (refcount_ w + 1)) w) m)).

(** [release_ref]: the last reference destroys the record and its place is free again. *)
Definition release_ref (r : nat) (m : async_mutex) (k : async_mutex -> outcome) : outcome :=
  at_record r m (fun w =>
    if refcount_ w =? 1 then k (with_records (delete r (records m)) m)
    else k (put_record r (set_refcount (u32 (refcount_ w - 1)) w) m)).

Definition go (t : nat) (a : activity) (m : async_mutex) : async_mutex :=
  with_activities (<[t := a]> (activities m)) m.

Definition spawn (a : activity) (m : async_mutex) : async_mutex :=
  with_activities (activities m ++ [a]) m.

(** [state_.compare_exchange] *)
Definition state_is (m : async_mutex) (w : state_word) : bool := bool_decide (state_ m = w).

(** ** Chains *)

(** The loop that reverses a chain in place; the fuel is the number of records. *)
Fixpoint reverse_chain (fuel : nat) (h : gmap nat waiter_record) (cur prev : option nat)
  : option (gmap nat waiter_record * option nat) :=
  match cur with
  | None => Some (h, prev)
  | Some r =>
      match fuel with
      | O => None
      | S fuel =>
          match h !! r with
          | Some w => reverse_chain fuel (<[r := set_next prev w]> h) (next_ w) (Some r)
          | None => None
          end
      end
  end.

Definition reversed (m : async_mutex) (head : option nat) (k : async_mutex -> option nat -> outcome) : outcome :=
  match reverse_chain (size (records m)) (records m) head None with
  | Some (h, head) => k (with_records h m) head
  | None => Breaks
  end.

(** [while (tail->next_ != nullptr) tail = tail->next_;] *)
Fixpoint chain_end (fuel : nat) (h : gmap nat waiter_record) (r : nat) : option nat :=
  match h !! r with
  | None => None
  | Some w =>
      match next_ w, fuel with
      | None, _ => Some r
      | Some _, O => None
      | Some r, S fuel => chain_end fuel h r
      end
  end.

(** ** Steps *)

(** What a step meets: whether a weak exchange fails for no reason, the place a new record gets,
    and whether installing the cancellation handler throws. *)
Record answers := Answers { spurious : bool; place : option nat; assign_throws : bool }.

(** [schedule_resume], one access at a time; [k] is what comes after the post. *)
Definition schedule_step (t r : nat) (s : schedule) (at_ : schedule -> activity) (after : async_mutex -> async_mutex)
    (m : async_mutex) : outcome :=
  match s with
  | AddRef => add_ref r m (fun m => Steps (go t (at_ CountIn) m))
  | CountIn => at_record r m (fun _ => Steps (go t (at_ Post) (add_in_flight 1 m)))
  | Post => at_record r m (fun _ => Steps (spawn (Runner r) (after m)))
  end.

(** [lock_op_] *)
Definition lock_step (t : nat) (x : answers) (m : async_mutex) (a : activity) : outcome :=
  match a with
  | LockEntry => Steps (go t (if draining_ m then Refused sync_lock_drained else LockFast) m)
  | LockFast =>
      if state_is m not_locked then Steps (go t LockHeld (with_state (locked None) m))
      else Steps (go t LockAlloc m)
  | LockHeld => Steps (go t Owner (add_holders 1 m))
  | LockAlloc =>
      match place x with
      | None => Steps (go t (Refused sync_lock_alloc_failed) m)
      | Some r =>
          match records m !! r with
          | Some _ => Waits
          | None =>
              Steps (go t (if assign_throws x then LockRefused r sync_lock_alloc_failed else LockRecheck r)
                (put_record r (Waiter queued None NoGuard (Some t) 2) m))
          end
      end
  | LockRecheck r => Steps (go t (if draining_ m then LockRefused r sync_lock_drained else LockLoad r) m)
  | LockLoad r => Steps (go t (LockTry r (state_ m)) m)
  | LockTry r not_locked =>
      if negb (spurious x) && state_is m not_locked then Steps (go t (LockWon r) (with_state (locked None) m))
      else Steps (go t (LockTry r (state_ m)) m)
  | LockTry r (locked old) =>
      at_record r m (fun w =>
        add_ref r (put_record r (set_next old w) m) (fun m => Steps (go t (LockPush r old) m)))
  | LockPush r old =>
      if negb (spurious x) && state_is m (locked old) then
        Steps (spawn (ReleaseRef r) (go t (Parked r) (with_state (locked (Some r)) m)))
      else Steps (go t (LockUndo r (state_ m)) m)
  | LockUndo r old => release_ref r m (fun m => Steps (go t (LockTry r old) m))
  | LockWon r => Steps (go t (LockGrant r) (add_holders 1 m))
  | LockGrant r =>
      at_record r m (fun w =>
        Steps (go t (LockSchedule r AddRef) (put_record r (set_result Guard (set_phase granted w)) m)))
  | LockRefused r e =>
      at_record r m (fun w =>
        Steps (go t (LockSchedule r AddRef) (put_record r (set_phase cancelled (set_result (Failed e) w)) m)))
  | LockSchedule r s =>
      schedule_step t r s (LockSchedule r) (fun m => spawn (ReleaseRef r) (go t (Parked r) m)) m
  | ReleaseRef r => release_ref r m (fun m => Steps (go t Finished m))
  | _ => Waits
  end.

(** The resume runner, and [finish_lock] in the coroutine it resumes. *)
Definition resume_step (t : nat) (m : async_mutex) (a : activity) : outcome :=
  match a with
  | Runner r =>
      at_record r m (fun w =>
        match attached_awaiter_ w with
        | None => Breaks
        | Some c =>
            match activities m !! c with
            | Some (Parked r') =>
                if Nat.eqb r' r then Steps (go t (RunnerRelease r) (go c (Resumed r (result_ w)) m)) else Breaks
            | _ => Breaks
            end
        end)
  | RunnerRelease r => release_ref r m (fun m => Steps (go t RunnerCountOut m))
  | RunnerCountOut => Steps (go t Finished (add_in_flight (-1) m))
  | Resumed r res =>
      at_record r m (fun w => Steps (go t (Detached r res) (put_record r (set_attached None w) m)))
  | Detached r res =>
      release_ref r m (fun m =>
        Steps (go t (match res with Guard => Owner | NoGuard => Idle | Failed e => Refused e end) m))
  | _ => Waits
  end.

(** [unlock] *)
Definition unlock_step (t : nat) (x : answers) (m : async_mutex) (a : activity) : outcome :=
  match a with
  | UnlockEnter => Steps (go t UnlockCheck (add_holders (-1) m))
  | UnlockCheck => Steps (go t (if draining_ m then UnlockDrained else UnlockResidual) m)
  | UnlockDrained =>
      Steps (go t Idle (if state_is m (locked None) then with_state not_locked m else m))
  | UnlockResidual => Steps (go t (UnlockWalk Residual (next_drain_head_ m)) (with_residual None m))
  | UnlockWalk Residual None => Steps (go t UnlockExchange m)
  | UnlockWalk Fifo None => Steps (go t UnlockTerminal m)
  | UnlockWalk w (Some r) =>
      at_record r m (fun rec =>
        match phase_ rec with
        | queued => Steps (go t (UnlockGrant w r) m)
        | cancelled => Steps (go t (UnlockSkip w r) m)
        | granted => Breaks
        end)
  | UnlockGrant w r =>
      at_record r m (fun rec =>
        match phase_ rec with
        | queued => Steps (go t (UnlockGranted r) (put_record r (set_phase granted rec) m))
        | cancelled => Steps (go t (UnlockSkip w r) m)
        | granted => Breaks
        end)
  | UnlockSkip w r =>
      at_record r m (fun rec =>
        release_ref r (put_record r (set_next None rec) m) (fun m => Steps (go t (UnlockWalk w (next_ rec)) m)))
  | UnlockGranted r =>
      at_record r m (fun rec =>
        Steps (go t (match next_ rec with Some tail => UnlockSplice r tail | None => UnlockRelease r end)
          (add_holders 1 (put_record r (set_next None (set_result Guard rec)) m))))
  | UnlockSplice r tail =>
      match chain_end (size (records m)) (records m) tail with
      | Some tail_end => Steps (go t (UnlockSpliceCas r tail tail_end (next_drain_head_ m)) m)
      | None => Breaks
      end
  | UnlockSpliceCas r tail tail_end old =>
      at_record tail_end m (fun rec =>
        let m := put_record tail_end (set_next old rec) m in
        if negb (spurious x) && bool_decide (next_drain_head_ m = old) then
          Steps (go t (UnlockRelease r) (with_residual (Some tail) m))
        else Steps (go t (UnlockSpliceCas r tail tail_end (next_drain_head_ m)) m))
  | UnlockRelease r => release_ref r m (fun m => Steps (go t (UnlockSchedule r AddRef) m))
  | UnlockSchedule r s => schedule_step t r s (UnlockSchedule r) (go t Idle) m
  | UnlockExchange =>
      let m' := with_state (locked None) m in
      match state_ m with
      | not_locked | locked None => Steps (go t UnlockTerminal m')
      | locked head => reversed m' head (fun m head => Steps (go t (UnlockWalk Fifo head) m))
      end
  | UnlockTerminal =>
      if state_is m (locked None) then Steps (go t Idle (with_state not_locked m))
      else Steps (go t UnlockAgain m)
  | UnlockAgain => Steps (go t UnlockEnter (add_holders 1 m))
  | _ => Waits
  end.

(** What is left of [on_cancel] once it has won the record. *)
Definition cancel_step (t : nat) (m : async_mutex) (a : activity) : outcome :=
  match a with
  | CancelResult r =>
      at_record r m (fun w =>
        Steps (go t (CancelSchedule r AddRef) (put_record r (set_result (Failed sync_lock_aborted) w) m)))
  | CancelSchedule r s => schedule_step t r s (CancelSchedule r) (go t Finished) m
  | _ => Waits
  end.

(** [cancel_and_drain] *)
Definition drain_step (t : nat) (m : async_mutex) (a : activity) : outcome :=
  match a with
  | DrainEntry => Steps (go t (if draining_ m then DrainAwait else DrainElect) m)
  | DrainElect =>
      if drain_in_progress_ m then Steps (go t DrainAwaitFlag m)
      else Steps (go t DrainSet (with_flags (draining_ m) true (draining_complete_ m) m))
  | DrainAwaitFlag => if draining_ m then Steps (go t DrainAwait m) else Waits
  | DrainAwait => if draining_complete_ m then Steps (go t Idle m) else Waits
  | DrainSet => Steps (go t DrainExchange (with_flags true (drain_in_progress_ m) (draining_complete_ m) m))
  | DrainExchange =>
      let lifo := match state_ m with locked head => head | not_locked => None end in
      Steps (go t (DrainExchangeFifo lifo) (with_state (locked None) m))
  | DrainExchangeFifo lifo =>
      let fifo := next_drain_head_ m in
      let both_empty := bool_decide (lifo = None) && bool_decide (fifo = None) in
      reversed (with_residual None m) lifo (fun m lifo => Steps (go t (DrainReap lifo fifo both_empty) m))
  | DrainReap (Some r) fifo both_empty =>
      at_record r m (fun w =>
        match phase_ w with
        | queued =>
            Steps (go t (DrainReaped r true (next_ w) fifo both_empty)
              (put_record r (set_result (Failed sync_lock_aborted) (set_phase cancelled w)) m))
        | _ => Steps (go t (DrainReaped r false (next_ w) fifo both_empty) m)
        end)
  | DrainReap None (Some r) both_empty => Steps (go t (DrainReap (Some r) None both_empty) m)
  | DrainReap None None both_empty => Steps (go t (DrainHolders both_empty) m)
  | DrainReaped r won nxt fifo both_empty =>
      release_ref r m (fun m =>
        Steps (go t (if won then DrainSchedule r AddRef nxt fifo both_empty else DrainReap nxt fifo both_empty) m))
  | DrainSchedule r s nxt fifo both_empty =>
      schedule_step t r s (fun s => DrainSchedule r s nxt fifo both_empty) (go t (DrainReap nxt fifo both_empty)) m
  | DrainHolders both_empty =>
      Steps (go t (if active_holders_count_ m =? 0 then DrainResumers both_empty else DrainYield) m)
  | DrainResumers both_empty =>
      Steps (go t (if (in_flight_resumers_ m =? 0) && both_empty then DrainFinalize else DrainYield) m)
  | DrainYield => Steps (go t DrainExchange m)
  | DrainFinalize =>
      if state_is m (locked None) then Steps (go t DrainPublish (with_state not_locked m)) else Breaks
  | DrainPublish => Steps (go t Idle (with_flags (draining_ m) (drain_in_progress_ m) true m))
  | _ => Waits
  end.

(** The next access of an activity. *)
Definition activity_step (t : nat) (x : answers) (m : async_mutex) (a : activity) : outcome :=
  match a with
  | LockEntry | LockFast | LockHeld | LockAlloc | LockRecheck _ | LockLoad _ | LockTry _ _ | LockPush _ _
  | LockUndo _ _ | LockWon _ | LockGrant _ | LockRefused _ _ | LockSchedule _ _ | ReleaseRef _ => lock_step t x m a
  | Runner _ | RunnerRelease _ | RunnerCountOut | Resumed _ _ | Detached _ _ => resume_step t m a
  | UnlockEnter | UnlockCheck | UnlockDrained | UnlockResidual | UnlockWalk _ _ | UnlockGrant _ _ | UnlockSkip _ _
  | UnlockGranted _ | UnlockSplice _ _ | UnlockSpliceCas _ _ _ _ | UnlockRelease _ | UnlockSchedule _ _
  | UnlockExchange | UnlockTerminal | UnlockAgain => unlock_step t x m a
  | CancelResult _ | CancelSchedule _ _ => cancel_step t m a
  | DrainEntry | DrainElect | DrainAwaitFlag | DrainAwait | DrainSet | DrainExchange | DrainExchangeFifo _
  | DrainReap _ _ _ | DrainReaped _ _ _ _ _ | DrainSchedule _ _ _ _ _ | DrainHolders _ | DrainResumers _
  | DrainYield | DrainFinalize | DrainPublish => drain_step t m a
  | Idle | Refused _ | Owner | Parked _ | Finished => Waits
  end.

(** What happens next: a coroutine arrives; one at rest locks, unlocks or drains; a suspended one
    is cancelled; an activity makes its next access. *)
Inductive action : Type :=
  | Arrive
  | Lock (t : nat)
  | Unlock (t : nat)
  | CancelAndDrain (t : nat)
  | OnCancel (t : nat)
  | Act (t : nat) (x : answers).

Definition mutex_step (m : async_mutex) (act : action) : outcome :=
  match act with
  | Arrive => Steps (spawn Idle m)
  | Lock t =>
      match activities m !! t with Some (Idle | Refused _) => Steps (go t LockEntry m) | _ => Waits end
  | Unlock t => match activities m !! t with Some Owner => Steps (go t UnlockEnter m) | _ => Waits end
  | CancelAndDrain t =>
      match activities m !! t with Some (Idle | Refused _) => Steps (go t DrainEntry m) | _ => Waits end
  | OnCancel t =>
      match activities m !! t with
      | Some (Parked r) =>
          at_record r m (fun w =>
            match phase_ w with
            | queued => Steps (spawn (CancelResult r) (put_record r (set_phase cancelled w) m))
            | _ => Steps m
            end)
      | _ => Waits
      end
  | Act t x => match activities m !! t with Some a => activity_step t x m a | None => Waits end
  end.
