(* ===== verification/MutexLedger.v ===== *)
(** What holds at every step of [async_mutex] ([include/fixpp/core/sync/async_mutex.hpp]): who
    holds which reference of a record, who has won it, where it is chained, and who owns the
    lock; each a tally over the activities. *)
From stdpp Require Import gmap.
From S2P Require Import Prelude Errors Tally AsyncMutex.
Local Open Scope Z_scope.

(** ** The ledger of a record *)

(** References: of the awaiter, the creator, the scheduled resumer, the membership of a chain.
    A seat is a membership, or a lock on its way to one.  An activity is pending when its
    coroutine waits for the record to be completed, a completer when it completes it, and done
    from then until the runner has dropped its reference.  A winner takes what it granted off its
    chain. *)
Inductive kind : Type := Awaiter | Creator | Resumer | Member | Seat | Pending | Completer | Done | Winner.

Definition kind_eqb (k k' : kind) : bool :=
  match k, k' with
  | Awaiter, Awaiter | Creator, Creator | Resumer, Resumer | Member, Member | Seat, Seat
  | Pending, Pending | Completer, Completer | Done, Done | Winner, Winner => true
  | _, _ => false
  end.

(** The record an activity is at. *)
Definition subject (a : activity) : option nat :=
  match a with
  | LockRecheck r | LockLoad r | LockTry r _ | LockPush r _ | LockUndo r _ | LockWon r | LockGrant r
  | LockRefused r _ | LockSchedule r _ | Parked r | ReleaseRef r | Runner r | RunnerRelease r | Resumed r _
  | Detached r _ | UnlockSkip _ r | UnlockGranted r | UnlockSplice r _ | UnlockSpliceCas r _ _ _ | UnlockRelease r
  | UnlockSchedule r _ | CancelResult r | CancelSchedule r _ | DrainReaped r _ _ _ _ | DrainSchedule r _ _ _ _ => Some r
  | _ => None
  end.

Definition resumer_from (s : schedule) (ks : list kind) : list kind :=
  match s with AddRef => ks | _ => Resumer :: ks end.

Definition kinds_of (a : activity) : list kind :=
  match a with
  | LockRecheck _ | LockLoad _ | LockTry _ _ | LockWon _ | LockGrant _ | LockRefused _ _ => [Awaiter; Creator; Seat; Pending]
  | LockPush _ _ | LockUndo _ _ => [Awaiter; Creator; Member; Seat; Pending]
  | LockSchedule _ s => resumer_from s [Awaiter; Creator; Seat; Pending; Completer; Done]
  | Parked _ => [Awaiter; Pending]
  | ReleaseRef _ => [Creator]
  | Runner _ => [Resumer; Completer; Done]
  | RunnerRelease _ => [Resumer; Done]
  | Resumed _ _ | Detached _ _ => [Awaiter]
  | UnlockGranted _ => [Completer; Done; Winner]
  | CancelResult _ => [Completer; Done]
  | UnlockSplice _ _ | UnlockSpliceCas _ _ _ _ | UnlockRelease _ | DrainReaped _ true _ _ _ => [Member; Seat; Completer; Done]
  | DrainReaped _ false _ _ _ => [Member; Seat]
  | UnlockSchedule _ s | CancelSchedule _ s | DrainSchedule _ s _ _ _ => resumer_from s [Completer; Done]
  | _ => []
  end.

Definition foot (k : kind) (a : activity) : Z := if existsb (kind_eqb k) (kinds_of a) then 1 else 0.

Definition at_subject (k : kind) (r : nat) (a : activity) : Z :=
  if decide (subject a = Some r) then foot k a else 0.

Definition count (k : kind) (r : nat) (l : list activity) : Z := tally (at_subject k r) l.

(** The entries of a record: its tallies, and how often it is chained. *)
Definition queued_now (w : option waiter_record) : Z :=
  match w with Some w => if decide (phase_ w = queued) then 1 else 0 | None => 0 end.

Record balanced (w : option waiter_record) (n : kind -> Z) (chained : Z) : Prop := {
  bal_refs : match w with Some w => refcount_ w | None => 0 end = n Awaiter + n Creator + n Resumer + n Member + chained;
  bal_live : match w with Some w => 0 < refcount_ w | None => True end;
  bal_pending : n Pending = n Completer + queued_now w;
  bal_awaiter : n Awaiter <= 1;
  bal_creator : n Creator <= 1;
  bal_done : queued_now w + n Done <= 1;
  bal_seat : n Seat + chained <= 1;
  bal_granted : match w with Some w => phase_ w = granted -> chained <= n Winner | None => True end;
}.

(** ** Chains *)

Fixpoint chain (h : gmap nat waiter_record) (p : option nat) (l : list nat) : Prop :=
  match l with
  | [] => p = None
  | r :: l => p = Some r /\ match h !! r with Some w => chain h (next_ w) l | None => False end
  end.

(** The chains an activity alone can reach. *)
Definition private (a : activity) : list (option nat) :=
  match a with
  | UnlockWalk _ cur => [cur]
  | UnlockGrant _ r | UnlockSkip _ r | UnlockGranted r => [Some r]
  | UnlockSplice _ tail | UnlockSpliceCas _ tail _ _ => [Some tail]
  | DrainExchangeFifo lifo => [lifo]
  | DrainReap cur fifo _ | DrainReaped _ _ cur fifo _ | DrainSchedule _ _ cur fifo _ => [cur; fifo]
  | _ => []
  end.

Fixpoint chains (h : gmap nat waiter_record) (ps : list (option nat)) (l : list nat) : Prop :=
  match ps with
  | [] => l = []
  | p :: ps => exists l1 l2, l = l1 ++ l2 /\ chain h p l1 /\ chains h ps l2
  end.

Definition owns (h : gmap nat waiter_record) (a : activity) (l : list nat) : Prop :=
  chains h (private a) l /\
  match a with UnlockSpliceCas _ _ tail_end _ => last l = Some tail_end | _ => True end.

Definition state_head (w : state_word) : option nat := match w with locked p => p | not_locked => None end.

(** The records in the chains: of the lock word, the residual one, and those of the activities. *)
Record chained_as (m : async_mutex) (ls lr : list nat) (pls : list (list nat)) : Prop := {
  ch_state : chain (records m) (state_head (state_ m)) ls;
  ch_residual : chain (records m) (next_drain_head_ m) lr;
  ch_private : Forall2 (owns (records m)) (activities m) pls;
}.

Definition chained (r : nat) (ls lr : list nat) (pls : list (list nat)) : Z :=
  occurs r ls + occurs r lr + tally (occurs r) pls.

(** ** What an activity knows *)

Definition completed (w : waiter_record) : Prop :=
  (phase_ w = granted /\ result_ w = Guard) \/ (phase_ w = cancelled /\ exists e, result_ w = Failed e).

(** Of its record. *)
Definition knows (w : waiter_record) (chained : Z) (t : nat) (a : activity) : Prop :=
  match a with
  | LockRecheck _ | LockLoad _ | LockTry _ _ | LockUndo _ _ | LockWon _ | LockGrant _ | LockRefused _ _ =>
      attached_awaiter_ w = Some t /\ phase_ w = queued
  | LockPush _ old => attached_awaiter_ w = Some t /\ phase_ w = queued /\ next_ w = old
  | LockSchedule _ _ => attached_awaiter_ w = Some t /\ completed w
  | Parked _ => attached_awaiter_ w = Some t /\ (phase_ w = queued -> 0 < chained)
  | Runner _ => completed w
  | UnlockSkip _ _ | CancelResult _ => phase_ w = cancelled
  | UnlockGranted _ => phase_ w = granted
  | UnlockSplice _ _ | UnlockSpliceCas _ _ _ _ | UnlockRelease _ | UnlockSchedule _ _ => phase_ w = granted /\ result_ w = Guard
  | CancelSchedule _ _ | DrainReaped _ true _ _ _ | DrainSchedule _ _ _ _ _ => phase_ w = cancelled /\ exists e, result_ w = Failed e
  | DrainReaped _ false _ _ _ => phase_ w <> queued
  | _ => True
  end.

(** Of the mutex: while the walk of an [unlock] lasts, the residual chain is empty. *)
Definition aware (m : async_mutex) (a : activity) : Prop :=
  match a with
  | UnlockWalk _ _ | UnlockGrant _ _ | UnlockSkip _ _ | UnlockGranted _ | UnlockSplice _ _ | UnlockExchange
  | UnlockTerminal => next_drain_head_ m = None
  | UnlockSpliceCas _ _ _ old => next_drain_head_ m = None /\ old = None
  | UnlockDrained => draining_ m = true
  | Resumed _ res | Detached _ res => res <> NoGuard
  | _ => True
  end.

(** ** The lock and its counters *)

Definition granted_now (h : gmap nat waiter_record) (r : nat) : Z :=
  match h !! r with Some w => if decide (phase_ w = granted) then 1 else 0 | None => 0 end.

(** Who has the lock; a record that was granted has it for its coroutine. *)
Definition token (h : gmap nat waiter_record) (a : activity) : Z :=
  match a with
  | LockHeld | LockWon _ | LockGrant _ | Owner | Resumed _ Guard | Detached _ Guard => 1
  | LockSchedule r _ | Runner r => granted_now h r
  | UnlockEnter | UnlockCheck | UnlockDrained | UnlockResidual | UnlockWalk _ _ | UnlockGrant _ _ | UnlockSkip _ _
  | UnlockGranted _ | UnlockSplice _ _ | UnlockSpliceCas _ _ _ _ | UnlockRelease _ | UnlockSchedule _ _
  | UnlockExchange | UnlockTerminal | UnlockAgain => 1
  | _ => 0
  end.

(** Who is counted in [active_holders_count_]. *)
Definition counted_holder (h : gmap nat waiter_record) (a : activity) : Z :=
  match a with
  | LockGrant _ | Owner | Resumed _ Guard | Detached _ Guard | UnlockEnter
  | UnlockSplice _ _ | UnlockSpliceCas _ _ _ _ | UnlockRelease _ | UnlockSchedule _ _ => 1
  | LockSchedule r _ | Runner r => granted_now h r
  | _ => 0
  end.

(** Who is counted in [in_flight_resumers_]. *)
Definition counted_resumer (a : activity) : Z :=
  match a with
  | LockSchedule _ Post | UnlockSchedule _ Post | CancelSchedule _ Post | DrainSchedule _ Post _ _ _
  | Runner _ | RunnerRelease _ | RunnerCountOut => 1
  | _ => 0
  end.

Definition unlocked (w : state_word) : Z := match w with not_locked => 1 | locked _ => 0 end.

(** ** Lemmas *)

(** *** Tallies *)

Lemma foot_bit k a : foot k a = 0 \/ foot k a = 1.
Proof. unfold foot. destruct (existsb _ _); auto. Qed.

Lemma at_subject_nonneg k r a : 0 <= at_subject k r a.
Proof. unfold at_subject. destruct (decide _); [destruct (foot_bit k a); lia|lia]. Qed.

Lemma at_subject_none k r a : subject a <> Some r -> at_subject k r a = 0.
Proof. intros H. unfold at_subject. by rewrite decide_False. Qed.

Lemma at_subject_some k r a : subject a = Some r -> at_subject k r a = foot k a.
Proof. intros H. unfold at_subject. by rewrite decide_True. Qed.

Lemma count_nonneg k r l : 0 <= count k r l.
Proof. apply tally_nonneg. intros a. apply at_subject_nonneg. Qed.

Lemma count_go k r l t a b : l !! t = Some a ->
  count k r (<[t := b]> l) = count k r l - at_subject k r a + at_subject k r b.
Proof. apply tally_insert. Qed.

Lemma count_app k r l l' : count k r (l ++ l') = count k r l + count k r l'.
Proof. apply tally_app. Qed.

Lemma foot_le a : foot Resumer a <= foot Done a /\ foot Member a <= foot Seat a /\
  foot Pending a <= foot Awaiter a /\ foot Completer a <= foot Done a.
Proof. destruct a; repeat match goal with x : schedule |- _ => destruct x | x : bool |- _ => destruct x end; cbn; lia. Qed.

(** What the entries of any record satisfy, seen from two of the activities. *)
Definition gap (k k' : kind) (r : nat) (a : activity) : Z := at_subject k r a - at_subject k' r a.

Definition gaps : list (kind * kind) := [(Done, Resumer); (Seat, Member); (Awaiter, Pending); (Done, Completer)].

Lemma gap_nonneg g r a : g ∈ gaps -> 0 <= gap g.1 g.2 r a.
Proof.
  intros Hg. unfold gap, at_subject. destruct (decide (subject a = Some r)); [|lia].
  pose proof (foot_le a). unfold gaps in Hg. rewrite !elem_of_cons, elem_of_nil in Hg.
  destruct Hg as [-> |[-> |[-> |[-> |[]]]]]; cbn [fst snd]; lia.
Qed.

Lemma count_gap k k' r l : tally (gap k k' r) l = count k r l - count k' r l.
Proof. induction l as [|a l IH]; [done|]. unfold count in *. cbn. fold (tally (gap k k' r) l) (tally (at_subject k r) l) (tally (at_subject k' r) l). unfold gap in *. lia. Qed.

Lemma gap_one g r l t a : g ∈ gaps -> l !! t = Some a -> gap g.1 g.2 r a <= count g.1 r l - count g.2 r l.
Proof. intros Hg Ha. rewrite <- count_gap. apply (tally_ge (gap g.1 g.2 r)) with t; [|done]. intros b. by apply gap_nonneg. Qed.

Lemma gap_two g r l t u a b : g ∈ gaps -> t <> u -> l !! t = Some a -> l !! u = Some b ->
  gap g.1 g.2 r a + gap g.1 g.2 r b <= count g.1 r l - count g.2 r l.
Proof.
  intros Hg Hne Ha Hb. rewrite <- count_gap. apply (tally_two (gap g.1 g.2 r)) with t u; [|done..].
  intros c. by apply gap_nonneg.
Qed.

Lemma count_one k r l t a : l !! t = Some a -> at_subject k r a <= count k r l.
Proof. apply tally_ge. intros b. apply at_subject_nonneg. Qed.

Lemma count_two k r l t u a b : t <> u -> l !! t = Some a -> l !! u = Some b ->
  at_subject k r a + at_subject k r b <= count k r l.
Proof. apply tally_two. intros c. apply at_subject_nonneg. Qed.

Lemma count_gaps r l : count Resumer r l <= count Done r l /\ count Member r l <= count Seat r l /\
  count Pending r l <= count Awaiter r l /\ count Completer r l <= count Done r l.
Proof.
  assert (H : forall g, g ∈ gaps -> 0 <= count g.1 r l - count g.2 r l).
  { intros g Hg. rewrite <- count_gap. apply tally_nonneg. intros a. by apply gap_nonneg. }
  pose proof (H (Done, Resumer) ltac:(by left)). pose proof (H (Seat, Member) ltac:(by right; left)).
  pose proof (H (Awaiter, Pending) ltac:(by right; right; left)).
  pose proof (H (Done, Completer) ltac:(by right; right; right; left)). cbn in *. lia.
Qed.

(** *** Chains *)

Lemma chain_none h l : chain h None l -> l = [].
Proof. destruct l as [|r l]; [done|]. by intros [[=] _]. Qed.

Lemma chain_some h r l : chain h (Some r) l -> exists w l', l = r :: l' /\ h !! r = Some w /\ chain h (next_ w) l'.
Proof. destruct l as [|r' l]; [done|]. intros [[= <-] H]. destruct (h !! r) as [w|] eqn:E; [|done]. by exists w, l. Qed.

Lemma chain_frame h h' p l :
  (forall r w, r ∈ l -> h !! r = Some w -> exists w', h' !! r = Some w' /\ next_ w' = next_ w) ->
  chain h p l -> chain h' p l.
Proof.
  revert p. induction l as [|r l IH]; intros p Hf; [done|]. cbn. intros [-> H]. split; [done|].
  destruct (h !! r) as [w|] eqn:E; [|done]. destruct (Hf r w ltac:(by left) E) as (w' & -> & ->).
  apply IH; [|done]. intros r2 w2 Hin. apply Hf. by right.
Qed.

Lemma chain_alive h p l r : chain h p l -> r ∈ l -> is_Some (h !! r).
Proof.
  revert p. induction l as [|r' l IH]; intros p H Hin; [by apply not_elem_of_nil in Hin|]. destruct H as [_ H].
  destruct (h !! r') eqn:E; [|done]. apply elem_of_cons in Hin as [-> |Hin]; [by exists w|by eapply IH].
Qed.

Lemma chains_frame h h' ps l :
  (forall r w, r ∈ l -> h !! r = Some w -> exists w', h' !! r = Some w' /\ next_ w' = next_ w) ->
  chains h ps l -> chains h' ps l.
Proof.
  revert l. induction ps as [|p ps IH]; intros l Hf; [done|]. cbn. intros (l1 & l2 & -> & H1 & H2).
  exists l1, l2. split; [done|]. split; [|apply IH; [|done]].
  - eapply chain_frame; [|done]. intros r w Hin. apply Hf. apply elem_of_app. by left.
  - intros r w Hin. apply Hf. apply elem_of_app. by right.
Qed.

Lemma chains_one h p l : chains h [p] l <-> chain h p l.
Proof.
  split.
  - intros (l1 & l2 & -> & H & ->). by rewrite app_nil_r.
  - intros H. exists l, []. by rewrite app_nil_r.
Qed.

Lemma chains_alive h ps l r : chains h ps l -> r ∈ l -> is_Some (h !! r).
Proof.
  revert l. induction ps as [|p ps IH]; intros l; cbn; [intros ->; by intros ?%not_elem_of_nil|].
  intros (l1 & l2 & -> & H1 & H2) [Hin|Hin]%elem_of_app; [by eapply chain_alive|by eapply IH].
Qed.

Lemma chained_nonneg r ls lr pls : 0 <= chained r ls lr pls.
Proof.
  unfold chained. pose proof (occurs_nonneg r ls). pose proof (occurs_nonneg r lr).
  pose proof (tally_nonneg (occurs r) pls (occurs_nonneg r)). lia.
Qed.

Lemma chained_in r ls lr pls : 0 < chained r ls lr pls <-> r ∈ ls \/ r ∈ lr \/ exists t l, pls !! t = Some l /\ r ∈ l.
Proof.
  unfold chained. pose proof (occurs_nonneg r ls) as H1. pose proof (occurs_nonneg r lr) as H2.
  pose proof (tally_nonneg (occurs r) pls (occurs_nonneg r)) as H3. split.
  - intros H. destruct (decide (0 < occurs r ls)); [left; by apply occurs_in|].
    destruct (decide (0 < occurs r lr)); [right; left; by apply occurs_in|]. right; right.
    destruct (tally_witness (occurs r) pls) as (t & l & Hl & Hr); [lia|]. exists t, l. by rewrite occurs_in.
  - intros [H%occurs_in|[H%occurs_in|(t & l & Hl & H%occurs_in)]]; [lia..|].
    pose proof (tally_ge (occurs r) pls t l (occurs_nonneg r) Hl). lia.
Qed.

Lemma owns_frame h h' a l :
  (forall r w, r ∈ l -> h !! r = Some w -> exists w', h' !! r = Some w' /\ next_ w' = next_ w) ->
  owns h a l -> owns h' a l.
Proof. intros Hf [H1 H2]. split; [by eapply chains_frame|done]. Qed.

(** The chains of a heap in which the chained records lead where they led. *)
Lemma chained_frame m m' ls lr pls :
  state_head (state_ m') = state_head (state_ m) -> next_drain_head_ m' = next_drain_head_ m ->
  activities m' = activities m ->
  (forall r w, 0 < chained r ls lr pls -> records m !! r = Some w ->
     exists w', records m' !! r = Some w' /\ next_ w' = next_ w) ->
  chained_as m ls lr pls -> chained_as m' ls lr pls.
Proof.
  intros Es Er Ea Hf [H1 H2 H3]. constructor; [rewrite Es|rewrite Er|rewrite Ea].
  - eapply chain_frame; [|done]. intros r w Hin. apply Hf, chained_in. by left.
  - eapply chain_frame; [|done]. intros r w Hin. apply Hf, chained_in. by right; left.
  - apply Forall2_same_length_lookup in H3 as [Hl H3]. apply Forall2_same_length_lookup. split; [done|].
    intros t a l Ha Hpl. eapply owns_frame; [|by apply (H3 t)]. intros r w Hin. apply Hf, chained_in. right; right. by exists t, l.
Qed.


(** *** A step *)

(** The invariant; [spare] is 1 when a drain has taken the lock for itself. *)
Record holding (spare : Z) (m : async_mutex) (ls lr : list nat) (pls : list (list nat)) : Prop := {
  hd_chained : chained_as m ls lr pls;
  hd_balanced : forall r, balanced (records m !! r) (fun k => count k r (activities m)) (chained r ls lr pls);
  hd_knows : forall t a r w, activities m !! t = Some a -> subject a = Some r -> records m !! r = Some w ->
       knows w (chained r ls lr pls) t a;
  hd_aware : forall t a, activities m !! t = Some a -> aware m a;
  hd_token : tally (token (records m)) (activities m) + unlocked (state_ m) + spare = 1;
  hd_spare : 0 <= spare;
  hd_holders : active_holders_count_ m = tally (counted_holder (records m)) (activities m);
  hd_resumers : in_flight_resumers_ m = u32 (tally counted_resumer (activities m));
  hd_unlocked : state_ m = not_locked -> next_drain_head_ m = None }.

(** The queue: what an [unlock] left, what one has in hand, and what came since, the newest first. *)
Definition queue_of (ls lr : list nat) (pls : list (list nat)) : list nat := lr ++ concat pls ++ rev ls.

(** The invariant, of a mutex with the queue [q]. *)
Definition serving (spare : Z) (q : list nat) (m : async_mutex) : Prop :=
  exists ls lr pls, holding spare m ls lr pls /\ q = queue_of ls lr pls.

(** No part of a drain. *)
Definition calm (a : activity) : Prop :=
  match a with
  | DrainEntry | DrainElect | DrainAwaitFlag | DrainAwait | DrainSet | DrainExchange | DrainExchangeFifo _
  | DrainReap _ _ _ | DrainReaped _ _ _ _ _ | DrainSchedule _ _ _ _ _ | DrainHolders _ | DrainResumers _
  | DrainYield | DrainFinalize | DrainPublish => False
  | _ => True
  end.

(** Whether the lock, or a place among the holders, hangs on the phase of a record. *)
Definition phase_bound (a : activity) : option nat :=
  match a with LockSchedule r _ | Runner r => Some r | _ => None end.

Lemma token_frame h h' a : (forall r, phase_bound a = Some r -> granted_now h' r = granted_now h r) ->
  token h' a = token h a /\ counted_holder h' a = counted_holder h a.
Proof. intros H. destruct a; try done; cbn; split; by apply H. Qed.

Lemma phase_bound_completer a r : phase_bound a = Some r -> at_subject Completer r a = 1.
Proof.
  destruct a; try done; cbn; intros [= ->]; unfold at_subject; cbn; rewrite decide_True by done; [|done].
  by destruct s.
Qed.

Lemma lookup_move (l : list activity) t a a' bs u c : l !! t = Some a -> (<[t := a']> l ++ bs) !! u = Some c ->
  (u = t /\ c = a') \/ (u <> t /\ l !! u = Some c) \/ (exists i, u = (length l + i)%nat /\ bs !! i = Some c).
Proof.
  intros Ha [H|[Hl H]]%lookup_app_Some.
  - rewrite list_lookup_insert in H. case_decide as Hd; [left|right; left].
    + destruct Hd as [-> _]. by injection H as <-.
    + split; [|done]. intros ->. apply Hd. split; [done|]. by eapply lookup_lt_Some.
  - right; right. rewrite length_insert in *. exists (u - length l)%nat. split; [lia|done].
Qed.

(** At the one record a step touches, its activities weigh what they weigh. *)
Lemma at_subject_foot k r a : subject a = None \/ subject a = Some r -> at_subject k r a = foot k a.
Proof.
  intros [H|H]; [|by apply at_subject_some]. rewrite at_subject_none by congruence. by destruct a.
Qed.

Section Step.
Context (spare : Z) (m : async_mutex) (ls lr : list nat) (pls : list (list nat)).
Hypothesis Hm : holding spare m ls lr pls.

(** A step of one activity, at one record at most. *)
Record transition (t : nat) (a a' : activity) (bs : list activity) (r0 : nat)
    (spare' : Z) (m' : async_mutex) (ls' lr' : list nat) (pls' : list (list nat)) : Prop := {
  tr_here : activities m !! t = Some a;
  tr_activities : activities m' = <[t := a']> (activities m) ++ bs;
  tr_subjects : Forall (fun c => subject c = None \/ subject c = Some r0) (a :: a' :: bs);
  tr_records : forall r, r <> r0 -> records m' !! r = records m !! r \/
     (0 < chained r ls lr pls /\ exists w n, records m !! r = Some w /\ records m' !! r = Some (set_next n w));
  tr_still : forall r, r <> r0 -> chained r ls' lr' pls' = chained r ls lr pls;
  tr_chained : chained_as m' ls' lr' pls';
  tr_balanced : balanced (records m' !! r0)
     (fun k => count k r0 (activities m) - foot k a + foot k a' + tally (foot k) bs)
     (chained r0 ls' lr' pls');
  tr_knows : forall w, records m' !! r0 = Some w ->
     (subject a' = Some r0 -> knows w (chained r0 ls' lr' pls') t a') /\
     (forall i b, bs !! i = Some b -> subject b = Some r0 -> knows w (chained r0 ls' lr' pls') (length (activities m) + i) b) /\
     (forall u c, u <> t -> activities m !! u = Some c -> subject c = Some r0 -> knows w (chained r0 ls' lr' pls') u c);
  tr_aware : forall c, c = a' \/ c ∈ bs -> aware m' c;
  tr_aware_others : forall u c, u <> t -> activities m !! u = Some c -> aware m c -> aware m' c;
  tr_phase : granted_now (records m') r0 = granted_now (records m) r0 \/
     count Completer r0 (activities m) = foot Completer a;
  tr_token : token (records m') a' + tally (token (records m')) bs + unlocked (state_ m') + spare' =
     token (records m) a + unlocked (state_ m) + spare;
  tr_spare : 0 <= spare';
  tr_holders : active_holders_count_ m' = active_holders_count_ m + counted_holder (records m') a' +
     tally (counted_holder (records m')) bs - counted_holder (records m) a;
  tr_resumers : in_flight_resumers_ m' = u32 (in_flight_resumers_ m + counted_resumer a' +
     tally counted_resumer bs - counted_resumer a);
  tr_unlocked : state_ m' = not_locked -> next_drain_head_ m' = None }.

Lemma seated_unchained t a r : activities m !! t = Some a -> subject a = Some r -> foot Seat a = 1 ->
  chained r ls lr pls = 0.
Proof using Hm.
  intros Ha Hs Hf. pose proof (count_one Seat r _ t a Ha) as H. rewrite at_subject_some, Hf in H by done.
  pose proof (bal_seat _ _ _ (hd_balanced _ _ _ _ _ Hm r)). pose proof (chained_nonneg r ls lr pls). lia.
Qed.

(** Where only the link of a chained record changed, its activities know what they knew. *)
Lemma knows_relinked w n r u c : activities m !! u = Some c -> subject c = Some r -> 0 < chained r ls lr pls ->
  knows w (chained r ls lr pls) u c -> knows (set_next n w) (chained r ls lr pls) u c.
Proof using Hm.
  intros Hc Hs Hch. destruct c; try done. intros _. cbn in Hs. injection Hs as ->.
  by rewrite (seated_unchained u _ r Hc eq_refl eq_refl) in Hch.
Qed.

Lemma transition_ok t a a' bs r0 spare' m' ls' lr' pls' :
  transition t a a' bs r0 spare' m' ls' lr' pls' -> holding spare' m' ls' lr' pls'.
Proof using Hm.
  intros [Ha Hact Hsub Hrec Hstill Hch Hbal Hkn Haw Hawo Hph Htok Hsp Hh Hr Hun].
  apply Forall_cons in Hsub as [Hsa Hsub]. apply Forall_cons in Hsub as [Hsa' Hsb].
  assert (Hfar : forall k r, r <> r0 -> count k r (activities m') = count k r (activities m)).
  { intros k r Hne. rewrite Hact. unfold count. rewrite (tally_move (at_subject k r) _ _ t a a' bs Ha) by done.
    assert (Hz : forall c, subject c = None \/ subject c = Some r0 -> at_subject k r c = 0).
    { intros c Hc. apply at_subject_none. intros E. rewrite E in Hc. destruct Hc; congruence. }
    rewrite (Hz a), (Hz a') by done. enough (tally (at_subject k r) bs = 0) by lia.
    clear -Hsb Hz. induction Hsb as [|b bs Hb _ IH]; [done|]. cbn. fold (tally (at_subject k r) bs). rewrite IH, Hz; done. }
  assert (Hother : forall u c, u <> t -> activities m !! u = Some c ->
    token (records m') c = token (records m) c /\ counted_holder (records m') c = counted_holder (records m) c).
  { intros u c Hu Hc. apply token_frame. intros r Hp. destruct (decide (r = r0)) as [->|Hne].
    - destruct Hph as [?|Hph]; [done|]. pose proof (phase_bound_completer c r0 Hp).
      pose proof (count_two Completer r0 _ t u a c ltac:(done) Ha Hc) as H2. rewrite (at_subject_foot _ _ a) in H2 by done. lia.
    - unfold granted_now. destruct (Hrec r Hne) as [-> |(_ & w & n & -> & ->)]; done. }
  constructor; [done| | | | |done| | |done].
  - intros r. destruct (decide (r = r0)) as [->|Hne].
    + destruct Hbal as [H1 H2 H3 H4 H5 H6 H7 H8].
      assert (E : forall k, count k r0 (activities m') =
        count k r0 (activities m) - foot k a + foot k a' + tally (foot k) bs).
      { intros k. rewrite Hact. unfold count. rewrite (tally_move (at_subject k r0) _ _ t a a' bs Ha) by done.
        rewrite !at_subject_foot by done. f_equal. apply tally_ext. intros i b Hb. apply at_subject_foot.
        by eapply (Forall_lookup_1 _ _ _ _ Hsb). }
      constructor; rewrite ?E; done.
    + pose proof (hd_balanced _ _ _ _ _ Hm r) as [H1 H2 H3 H4 H5 H6 H7 H8]. rewrite (Hstill r Hne).
      destruct (Hrec r Hne) as [E|(_ & w & n & E1 & E2)].
      * constructor; rewrite ?E, ?(Hfar _ r Hne); done.
      * rewrite E1 in *. constructor; rewrite ?E2, ?(Hfar _ r Hne); done.
  - intros u c r w Hc Hs Hw. rewrite Hact in Hc. apply (lookup_move _ _ _ _ _ _ _ Ha) in Hc.
    destruct (decide (r = r0)) as [->|Hne].
    + destruct (Hkn w Hw) as (K1 & K2 & K3). destruct Hc as [[-> ->]|[[Hu Hc]|(i & -> & Hc)]]; auto.
    + rewrite (Hstill r Hne). destruct Hc as [[-> ->]|[[Hu Hc]|(i & -> & Hc)]].
      * destruct Hsa'; congruence.
      * destruct (Hrec r Hne) as [E|(Hc0 & w0 & n & E1 & E2)].
        -- rewrite E in Hw. by eapply (hd_knows _ _ _ _ _ Hm).
        -- rewrite E2 in Hw. injection Hw as <-. eapply knows_relinked; [done..|]. by eapply (hd_knows _ _ _ _ _ Hm).
      * apply (Forall_lookup_1 _ _ _ _ Hsb) in Hc. destruct Hc; congruence.
  - intros u c Hc. rewrite Hact in Hc. apply (lookup_move _ _ _ _ _ _ _ Ha) in Hc as [[-> ->]|[[Hu Hc]|(i & -> & Hc)]].
    + apply Haw. by left.
    + eapply Hawo; [done..|]. by eapply (hd_aware _ _ _ _ _ Hm).
    + apply Haw. right. by eapply list_elem_of_lookup_2.
  - rewrite Hact, (tally_move (token (records m)) _ _ t a a' bs Ha) by (intros u c Hu Hc; by apply (Hother u c)).
    pose proof (hd_token _ _ _ _ _ Hm). lia.
  - rewrite Hact, (tally_move (counted_holder (records m)) _ _ t a a' bs Ha) by (intros u c Hu Hc; by apply (Hother u c)).
    rewrite Hh, (hd_holders _ _ _ _ _ Hm). lia.
  - rewrite Hact, (tally_move counted_resumer counted_resumer _ t a a' bs Ha) by done.
    rewrite Hr, (hd_resumers _ _ _ _ _ Hm). set (n := tally counted_resumer (activities m)).
    replace (u32 n + counted_resumer a' + tally counted_resumer bs - counted_resumer a)
      with (u32 n + (counted_resumer a' + tally counted_resumer bs - counted_resumer a)) by lia.
    unfold wrap. rewrite Zplus_mod_idemp_l. f_equal. lia.
Qed.

(** *** What a step leaves in place *)

(** What the other activities of the touched record know still holds: whatever a field of it
    says, only the activity that may change it relies on. *)
Lemma knows_kept t a u c r w w' ch ch' :
  activities m !! t = Some a -> subject a = None \/ subject a = Some r -> u <> t -> activities m !! u = Some c ->
  subject c = Some r -> knows w ch u c ->
  next_ w' = next_ w \/ count Seat r (activities m) = foot Seat a ->
  attached_awaiter_ w' = attached_awaiter_ w \/ count Pending r (activities m) = foot Pending a ->
  (phase_ w' = phase_ w /\ result_ w' = result_ w) \/
  (phase_ w' = phase_ w /\ count Completer r (activities m) = foot Completer a) \/
  (phase_ w = queued /\ phase_ w' <> queued /\ count Completer r (activities m) = foot Completer a /\
   (count Seat r (activities m) = foot Seat a \/ count Pending r (activities m) = foot Pending a)) ->
  (0 < ch -> 0 < ch') \/ phase_ w' <> queued ->
  knows w' ch' u c.
Proof using.
  intros Ha Hs Hu Hc Hsc Hk Hn Hat Hph Hch.
  assert (H2 : forall k, foot k a + foot k c <= count k r (activities m)).
  { intros k. rewrite <- (at_subject_foot k r a), <- (at_subject_some k r c) by done. by apply (count_two _ _ _ t u). }
  pose proof (H2 Seat) as HS. pose proof (H2 Pending) as HP. pose proof (H2 Completer) as HK. clear H2.
  set (fS := foot Seat a) in *. set (fP := foot Pending a) in *. set (fK := foot Completer a) in *. clearbody fS fP fK.
  assert (Hphase : phase_ w' = phase_ w \/ phase_ w = queued /\ phase_ w' <> queued) by tauto.
  destruct c; cbn [subject] in Hsc; try discriminate Hsc; injection Hsc as ->; cbn in Hk |- *;
    repeat match goal with x : schedule |- _ => destruct x | x : bool |- _ => destruct x end;
    unfold foot in HS, HP, HK; cbn in HS, HP, HK; try exact I.
  all: try (destruct Hn as [Hn|Hn]; [|exfalso; lia]).
  all: try (destruct Hat as [Hat|Hat]; [|exfalso; lia]).
  all: unfold completed in *.
  all: destruct Hph as [[P1 P2]|[[P1 P2]|(P1 & P2 & P3 & P4)]]; try (exfalso; lia).
  all: try (rewrite ?Hn, ?Hat, ?P1, ?P2; exact Hk).
  all: try (rewrite P1 in Hk; exfalso; intuition congruence).
  all: try (rewrite P1 in Hk; destruct Hk as [Hk1 Hk2]; split; [congruence|]; intros Hq; destruct Hch; tauto).
  all: try (exfalso; destruct P4; lia).
  all: destruct Hk as [Hk1 Hk2]; split; [congruence|]; intros Hq; destruct Hch as [Hch|Hch]; [|done].
  all: apply Hch, Hk2; congruence.
Qed.
End Step.


(** *** Chains that move *)

Lemma chained_spawn r ls lr pls n : chained r ls lr (pls ++ replicate n []) = chained r ls lr pls.
Proof.
  unfold chained. rewrite tally_app. enough (tally (occurs r) (replicate n []) = 0) by lia.
  induction n as [|n IH]; [done|]. cbn. fold (tally (occurs r) (replicate n [])). by rewrite IH.
Qed.

Lemma queue_spawn ls lr pls n : queue_of ls lr (pls ++ replicate n []) = queue_of ls lr pls.
Proof.
  unfold queue_of. rewrite concat_app. enough (concat (replicate n (@nil nat)) = []) as -> by by rewrite app_nil_r.
  by induction n.
Qed.

(** A list of which every member but one is empty. *)
Lemma concat_alone (pls : list (list nat)) t l l' : pls !! t = Some l ->
  (forall u l0, u <> t -> pls !! u = Some l0 -> l0 = []) -> concat (<[t:=l']> pls) = l'.
Proof.
  assert (Hnil : forall ps : list (list nat), (forall u l0, ps !! u = Some l0 -> l0 = []) -> concat ps = []).
  { induction ps as [|p ps IH]; intros H; [done|]. cbn. rewrite (H O p eq_refl). apply IH. intros u. apply (H (S u)). }
  revert t. induction pls as [|p pls IH]; intros [|t] Hl Ho; [done..| |].
  - cbn. rewrite Hnil; [by rewrite app_nil_r|]. intros u l0. by apply (Ho (S u)).
  - change (p ++ concat (<[t:=l']> pls) = l'). rewrite (Ho O p) by done. apply (IH t Hl). intros u l0 Hu. apply (Ho (S u)). congruence.
Qed.

Lemma chained_set r ls lr pls t l l' : pls !! t = Some l ->
  chained r ls lr (<[t := l']> pls) = chained r ls lr pls - occurs r l + occurs r l'.
Proof. intros H. unfold chained. rewrite (tally_insert _ _ _ l) by done. lia. Qed.

Lemma chained_move m m' ls lr pls ls' lr' t a a' bs l' :
  chained_as m ls lr pls -> activities m !! t = Some a -> activities m' = <[t := a']> (activities m) ++ bs ->
  chain (records m') (state_head (state_ m')) ls' -> chain (records m') (next_drain_head_ m') lr' ->
  owns (records m') a' l' -> Forall (fun b => private b = []) bs ->
  (forall u l r w, u <> t -> pls !! u = Some l -> r ∈ l -> records m !! r = Some w ->
     exists w', records m' !! r = Some w' /\ next_ w' = next_ w) ->
  chained_as m' ls' lr' (<[t := l']> pls ++ replicate (length bs) []).
Proof.
  intros [_ _ Hp] Ha Hact Hs Hr Ho Hb Hf. constructor; [done..|]. rewrite Hact.
  apply Forall2_app.
  - apply Forall2_same_length_lookup in Hp as [Hl Hp]. apply Forall2_same_length_lookup. split; [by rewrite !length_insert|].
    intros u c l Hc Hpl. destruct (decide (u = t)) as [->|Hu].
    + pose proof (lookup_lt_Some _ _ _ Ha) as Hlt. rewrite list_lookup_insert_eq in Hc by done.
      rewrite list_lookup_insert_eq in Hpl by (by rewrite <- Hl). by injection Hc as <-; injection Hpl as <-.
    + rewrite list_lookup_insert_ne in Hc by done. rewrite list_lookup_insert_ne in Hpl by done. eapply owns_frame; [|by eapply Hp]. intros r w. by eapply Hf.
  - clear -Hb. induction Hb as [|b bs Hb _ IH]; [constructor|]. cbn. constructor; [|done].
    split; [by rewrite Hb|]. by destruct b.
Qed.

Section Touch.
Context (spare : Z) (m : async_mutex) (ls lr : list nat) (pls : list (list nat)).
Hypothesis Hm : holding spare m ls lr pls.

Lemma owned t a : activities m !! t = Some a -> exists l, pls !! t = Some l /\ owns (records m) a l.
Proof using Hm. intros Ha. by apply (Forall2_lookup_l _ _ _ _ _ (ch_private _ _ _ _ (hd_chained _ _ _ _ _ Hm))). Qed.

(** A step that leaves every chain as it is, and no link of a chained record changes. *)
Lemma touch_ok t a a' bs r0 spare' m' :
  activities m !! t = Some a -> activities m' = <[t := a']> (activities m) ++ bs ->
  Forall (fun c => subject c = None \/ subject c = Some r0) (a :: a' :: bs) ->
  (forall r, r <> r0 -> records m' !! r = records m !! r) ->
  (forall w, records m !! r0 = Some w -> 0 < chained r0 ls lr pls ->
     exists w', records m' !! r0 = Some w' /\ next_ w' = next_ w) ->
  state_head (state_ m') = state_head (state_ m) -> next_drain_head_ m' = next_drain_head_ m ->
  private a' = private a -> match a' with UnlockSpliceCas _ _ _ _ => False | _ => True end ->
  Forall (fun b => private b = []) bs ->
  balanced (records m' !! r0) (fun k => count k r0 (activities m) - foot k a + foot k a' + tally (foot k) bs)
    (chained r0 ls lr pls) ->
  (forall w, records m' !! r0 = Some w ->
     (subject a' = Some r0 -> knows w (chained r0 ls lr pls) t a') /\
     (forall i b, bs !! i = Some b -> subject b = Some r0 -> knows w (chained r0 ls lr pls) (length (activities m) + i) b) /\
     (forall u c, u <> t -> activities m !! u = Some c -> subject c = Some r0 -> knows w (chained r0 ls lr pls) u c)) ->
  (forall c, c = a' \/ c ∈ bs -> aware m' c) ->
  (draining_ m = true -> draining_ m' = true) ->
  granted_now (records m') r0 = granted_now (records m) r0 \/ count Completer r0 (activities m) = foot Completer a ->
  token (records m') a' + tally (token (records m')) bs + unlocked (state_ m') + spare' =
     token (records m) a + unlocked (state_ m) + spare ->
  0 <= spare' ->
  active_holders_count_ m' = active_holders_count_ m + counted_holder (records m') a' +
     tally (counted_holder (records m')) bs - counted_holder (records m) a ->
  in_flight_resumers_ m' = u32 (in_flight_resumers_ m + counted_resumer a' +
     tally counted_resumer bs - counted_resumer a) ->
  (state_ m' = not_locked -> next_drain_head_ m = None) ->
  holding spare' m' ls lr (pls ++ replicate (length bs) []).
Proof using Hm.
  intros Ha Hact Hsub Hrec Hnext Hst Hres Hpr Hns Hbs Hbal Hkn Haw Hdr Hph Htok Hsp Hh Hr Hun.
  destruct (owned t a Ha) as (l & Hl & Ho & _).
  assert (Hf : forall r w, 0 < chained r ls lr pls -> records m !! r = Some w ->
    exists w', records m' !! r = Some w' /\ next_ w' = next_ w).
  { intros r w Hch Hw. destruct (decide (r = r0)) as [->|Hne]; [by apply Hnext|]. rewrite Hrec by done. by exists w. }
  eapply (transition_ok spare m ls lr pls Hm t a a' bs r0). pose proof (hd_chained _ _ _ _ _ Hm) as Hch. constructor; try done.
  - intros r Hne. left. by apply Hrec.
  - intros r _. apply chained_spawn.
  - rewrite <- (list_insert_id pls t l Hl). pose proof Hch as [H1 H2 _].
    eapply (chained_move m); [done..| | | |done|].
    + rewrite Hst. eapply chain_frame; [|done]. intros r w Hin. apply Hf, chained_in. by left.
    + rewrite Hres. eapply chain_frame; [|done]. intros r w Hin. apply Hf, chained_in. by right; left.
    + split; [|by destruct a']. rewrite Hpr. eapply chains_frame; [|done].
      intros r w Hin. apply Hf, chained_in. right; right. by exists t, l.
    + intros u l' r w _ Hpl Hin. apply Hf, chained_in. right; right. by exists u, l'.
  - by rewrite chained_spawn.
  - by rewrite chained_spawn.
  - intros u c _ _. destruct c; cbn; rewrite ?Hres; auto.
  - by rewrite Hres.
Qed.
End Touch.
