(* ===== verification/MutexSteps.v ===== *)
(** Every access of [async_mutex] ([include/fixpp/core/sync/async_mutex.hpp]) outside a drain
    keeps the invariant of [MutexLedger], and none breaks the run. *)
From stdpp Require Import gmap.
From S2P Require Import Prelude Errors Tally AsyncMutex MutexLedger.
Local Open Scope Z_scope.

Section Steps.
Context (spare : Z) (m : async_mutex) (ls lr : list nat) (pls : list (list nat)).
Hypothesis Hm : holding spare m ls lr pls.
Notation acts := (activities m).
Notation at_chain r := (chained r ls lr pls).
Notation queue := (queue_of ls lr pls).

(** ** The entries of a record, seen from an activity *)

Lemma foot_count k r t a : acts !! t = Some a -> subject a = None \/ subject a = Some r -> foot k a <= count k r acts.
Proof using. intros Ha Hs. rewrite <- (at_subject_foot k r a Hs). by eapply count_one. Qed.

Lemma foot_gap r t a : acts !! t = Some a -> subject a = None \/ subject a = Some r ->
  foot Done a - foot Resumer a <= count Done r acts - count Resumer r acts /\
  foot Seat a - foot Member a <= count Seat r acts - count Member r acts /\
  foot Awaiter a - foot Pending a <= count Awaiter r acts - count Pending r acts /\
  foot Done a - foot Completer a <= count Done r acts - count Completer r acts.
Proof using.
  intros Ha Hs. rewrite <- !(at_subject_foot _ r a Hs).
  pose proof (gap_one (Done, Resumer) r acts t a ltac:(by left) Ha).
  pose proof (gap_one (Seat, Member) r acts t a ltac:(by right; left) Ha).
  pose proof (gap_one (Awaiter, Pending) r acts t a ltac:(by right; right; left) Ha).
  pose proof (gap_one (Done, Completer) r acts t a ltac:(by right; right; right; left) Ha).
  unfold gap in *. cbn in *. lia.
Qed.

Lemma refcount_bound r w : records m !! r = Some w -> 0 < refcount_ w <= 4.
Proof using Hm.
  intros Hw. pose proof (hd_balanced _ _ _ _ _ Hm r) as [H1 H2 H3 H4 H5 H6 H7 H8]. rewrite Hw in *.
  pose proof (count_gaps r acts). assert (0 <= queued_now (Some w)) by (cbn; destruct (decide _); lia). lia.
Qed.

(** A record with an entry is there. *)
Lemma entered r : 0 < count Awaiter r acts + count Creator r acts + count Resumer r acts + count Member r acts +
  count Completer r acts + at_chain r -> exists w, records m !! r = Some w.
Proof using Hm.
  intros H. destruct (records m !! r) as [w|] eqn:E; [by exists w|].
  pose proof (hd_balanced _ _ _ _ _ Hm r) as [H1 H2 H3 H4 H5 H6 H7 H8]. rewrite E in *. cbn in *.
  pose proof (count_gaps r acts). pose proof (count_nonneg Awaiter r acts). pose proof (count_nonneg Creator r acts).
  pose proof (count_nonneg Resumer r acts). pose proof (count_nonneg Member r acts). pose proof (count_nonneg Completer r acts).
  pose proof (chained_nonneg r ls lr pls). lia.
Qed.

Lemma entered_at t a r : acts !! t = Some a -> subject a = Some r ->
  0 < foot Awaiter a + foot Creator a + foot Resumer a + foot Member a + foot Completer a ->
  exists w, records m !! r = Some w /\ knows w (at_chain r) t a.
Proof using Hm.
  intros Ha Hs Hf. destruct (entered r) as [w Hw].
  - pose proof (foot_count Awaiter r t a Ha ltac:(by right)). pose proof (foot_count Creator r t a Ha ltac:(by right)).
    pose proof (foot_count Resumer r t a Ha ltac:(by right)). pose proof (foot_count Member r t a Ha ltac:(by right)).
    pose proof (foot_count Completer r t a Ha ltac:(by right)). pose proof (chained_nonneg r ls lr pls). lia.
  - exists w. split; [done|]. by eapply (hd_knows _ _ _ _ _ Hm).
Qed.

Ltac weigh := cbn [foot kinds_of resumer_from existsb kind_eqb orb] in *.

(** All the entries of a record as numbers, with what an activity at it weighs. *)
Ltac ledger r Ha :=
  let Hs := fresh in assert (Hs := Ha);
  pose proof (hd_balanced _ _ _ _ _ Hm r) as [?Bref ?Blive ?Bpend ?Baw ?Bcr ?Bdone ?Bseat ?Bgrant];
  pose proof (foot_gap r _ _ Ha ltac:(cbn; auto)) as (?G1 & ?G2 & ?G3 & ?G4);
  pose proof (foot_count Awaiter r _ _ Ha ltac:(cbn; auto)) as ?C1;
  pose proof (foot_count Creator r _ _ Ha ltac:(cbn; auto)) as ?C2;
  pose proof (foot_count Resumer r _ _ Ha ltac:(cbn; auto)) as ?C3;
  pose proof (foot_count Member r _ _ Ha ltac:(cbn; auto)) as ?C4;
  pose proof (foot_count Seat r _ _ Ha ltac:(cbn; auto)) as ?C5;
  pose proof (foot_count Pending r _ _ Ha ltac:(cbn; auto)) as ?C6;
  pose proof (foot_count Completer r _ _ Ha ltac:(cbn; auto)) as ?C7;
  pose proof (foot_count Done r _ _ Ha ltac:(cbn; auto)) as ?C8;
  pose proof (foot_count Winner r _ _ Ha ltac:(cbn; auto)) as ?C9;
  pose proof (chained_nonneg r ls lr pls) as ?Bch; clear Hs; weigh.

(** ** Steps that touch no record *)

Lemma quiet_ok t a a' spare' m' :
  acts !! t = Some a -> activities m' = <[t := a']> acts -> records m' = records m ->
  state_head (state_ m') = state_head (state_ m) -> next_drain_head_ m' = next_drain_head_ m ->
  (draining_ m = true -> draining_ m' = true) ->
  subject a' = subject a -> kinds_of a' = kinds_of a -> private a' = private a ->
  match a' with UnlockSpliceCas _ _ _ _ => False | _ => True end ->
  (forall r w, subject a' = Some r -> records m !! r = Some w -> knows w (at_chain r) t a -> knows w (at_chain r) t a') ->
  aware m' a' -> 0 <= spare' ->
  token (records m) a' + unlocked (state_ m') + spare' = token (records m) a + unlocked (state_ m) + spare ->
  active_holders_count_ m' = active_holders_count_ m + counted_holder (records m) a' - counted_holder (records m) a ->
  in_flight_resumers_ m' = u32 (in_flight_resumers_ m + counted_resumer a' - counted_resumer a) ->
  (state_ m' = not_locked -> next_drain_head_ m = None) ->
  serving spare' queue m'.
Proof using Hm.
  intros Ha Hact Hrec Hst Hres Hdr Hs Hk Hp Hns Hkn Haw Hsp Htok Hh Hr Hun.
  exists ls, lr, (pls ++ replicate (length (@nil activity)) []). split; [|by rewrite queue_spawn].
  set (r0 := match subject a with Some r => r | None => O end).
  assert (Hsub : subject a = None \/ subject a = Some r0) by (unfold r0; destruct (subject a); auto).
  apply (touch_ok spare m ls lr pls Hm t a a' [] r0); try done.
  - by rewrite app_nil_r.
  - constructor; [done|]. constructor; [by rewrite Hs|constructor].
  - intros r _. by rewrite Hrec.
  - intros w Hw _. rewrite Hrec. by exists w.
  - rewrite Hrec. pose proof (hd_balanced _ _ _ _ _ Hm r0) as [H1 H2 H3 H4 H5 H6 H7 H8].
    assert (E : forall k, foot k a' = foot k a) by (intros k; unfold foot; by rewrite Hk).
    constructor; cbn [tally fold_right]; rewrite ?E; try done; try lia.
    destruct (records m !! r0); [|done]. intros Hg. specialize (H8 Hg). lia.
  - intros w. rewrite Hrec. intros Hw. split_and!.
    + intros Hs'. apply (Hkn r0); [done..|]. eapply (hd_knows _ _ _ _ _ Hm); [done| |done]. by rewrite <- Hs.
    + intros i b Hb. by apply lookup_nil_Some in Hb || done.
    + intros u c _ Hc Hsc. by eapply (hd_knows _ _ _ _ _ Hm).
  - intros c [-> |Hc]; [done|by apply not_elem_of_nil in Hc].
  - left. by rewrite Hrec.
  - rewrite Hrec. cbn. lia.
  - rewrite Hrec, Hh. cbn. lia.
  - rewrite Hr. f_equal. cbn. lia.
Qed.

(** ** Steps that touch one record, off every chain or on the same one *)

(** [w'] takes the place of the record; it leads where it led, or is on no chain. *)
Lemma store_ok t a a' bs r w w' spare' m' :
  acts !! t = Some a -> activities m' = <[t := a']> acts ++ bs ->
  Forall (fun c => subject c = None \/ subject c = Some r) (a :: a' :: bs) ->
  records m !! r = Some w -> records m' = <[r := w']> (records m) ->
  next_ w' = next_ w \/ at_chain r = 0 ->
  state_head (state_ m') = state_head (state_ m) -> next_drain_head_ m' = next_drain_head_ m ->
  private a' = private a -> match a' with UnlockSpliceCas _ _ _ _ => False | _ => True end ->
  Forall (fun b => private b = []) bs ->
  balanced (Some w') (fun k => count k r acts - foot k a + foot k a' + tally (foot k) bs) (at_chain r) ->
  (subject a' = Some r -> knows w' (at_chain r) t a') ->
  (forall i b, bs !! i = Some b -> subject b = Some r -> knows w' (at_chain r) (length acts + i) b) ->
  next_ w' = next_ w \/ count Seat r acts = foot Seat a ->
  attached_awaiter_ w' = attached_awaiter_ w \/ count Pending r acts = foot Pending a ->
  (phase_ w' = phase_ w /\ result_ w' = result_ w) \/
  (phase_ w' = phase_ w /\ count Completer r acts = foot Completer a) \/
  (phase_ w = queued /\ phase_ w' <> queued /\ count Completer r acts = foot Completer a /\
   (count Seat r acts = foot Seat a \/ count Pending r acts = foot Pending a)) ->
  (forall c, c = a' \/ c ∈ bs -> aware m' c) ->
  (draining_ m = true -> draining_ m' = true) ->
  token (records m') a' + tally (token (records m')) bs + unlocked (state_ m') + spare' =
     token (records m) a + unlocked (state_ m) + spare -> 0 <= spare' ->
  active_holders_count_ m' = active_holders_count_ m + counted_holder (records m') a' +
     tally (counted_holder (records m')) bs - counted_holder (records m) a ->
  in_flight_resumers_ m' = u32 (in_flight_resumers_ m + counted_resumer a' + tally counted_resumer bs - counted_resumer a) ->
  (state_ m' = not_locked -> next_drain_head_ m = None) ->
  serving spare' queue m'.
Proof using Hm.
  intros Ha Hact Hsub Hw Hrec Hnx Hst Hres Hp Hns Hbs Hbal Hk Hkb Hnext Hatt Hph Haw Hdr Htok Hsp Hh Hr Hun.
  pose proof (proj1 (Forall_cons _ _ _) Hsub) as [Hsa _].
  exists ls, lr, (pls ++ replicate (length bs) []). split; [|by rewrite queue_spawn].
  assert (Hw' : records m' !! r = Some w') by (by rewrite Hrec, lookup_insert_eq).
  apply (touch_ok spare m ls lr pls Hm t a a' bs r); try done.
  - intros r' Hne. by rewrite Hrec, lookup_insert_ne.
  - intros w0 Hw0 Hch. rewrite Hw in Hw0. injection Hw0 as <-. exists w'. split; [done|]. destruct Hnx as [?|Hz]; [done|lia].
  - by rewrite Hw'.
  - intros w0. rewrite Hw'. intros [= <-]. split_and!; [done..|]. intros u c Hu Hc Hsc.
    eapply (knows_kept m t a u c r w); try done; [by eapply (hd_knows _ _ _ _ _ Hm)|auto].
  - unfold granted_now. rewrite Hw', Hw. destruct Hph as [[-> _]|[[_ H]|(_ & _ & H & _)]]; auto.
Qed.

(** A reference is dropped, and with the last one the record. *)
Lemma release_ok t a a' r w m' :
  acts !! t = Some a -> activities m' = <[t := a']> acts ->
  subject a = Some r -> subject a' = None \/ subject a' = Some r ->
  records m !! r = Some w ->
  records m' = (if refcount_ w =? 1 then delete r (records m)
                else <[r := set_refcount (u32 (refcount_ w - 1)) w]> (records m)) ->
  state_ m' = state_ m -> next_drain_head_ m' = next_drain_head_ m -> draining_ m' = draining_ m ->
  private a' = private a -> match a' with UnlockSpliceCas _ _ _ _ => False | _ => True end ->
  foot Awaiter a + foot Creator a + foot Resumer a + foot Member a =
    foot Awaiter a' + foot Creator a' + foot Resumer a' + foot Member a' + 1 ->
  foot Pending a' - foot Completer a' = foot Pending a - foot Completer a ->
  foot Awaiter a' <= foot Awaiter a -> foot Creator a' <= foot Creator a -> foot Done a' <= foot Done a ->
  foot Seat a' <= foot Seat a -> foot Pending a' <= foot Awaiter a' ->
  foot Pending a <= foot Pending a' + (foot Awaiter a - foot Awaiter a') -> foot Winner a' = foot Winner a ->
  (subject a' = Some r -> knows w (at_chain r) t a') -> aware m' a' -> phase_bound a' = None ->
  token (records m) a' = token (records m) a -> counted_holder (records m) a' = counted_holder (records m) a ->
  active_holders_count_ m' = active_holders_count_ m ->
  in_flight_resumers_ m' = u32 (in_flight_resumers_ m + counted_resumer a' - counted_resumer a) ->
  serving spare queue m'.
Proof using Hm.
  intros Ha Hact Hs Hs' Hw Hrec Hst Hres Hdr Hp Hns Hrefs Hpk HA HC HD HS HPA HPA2 HW Hk Haw Hpb Htok Hhold Hh Hr.
  pose proof (hd_balanced _ _ _ _ _ Hm r) as [B1 B2 B3 B4 B5 B6 B7 B8]. rewrite Hw in *.
  pose proof (refcount_bound r w Hw) as Hb. pose proof (chained_nonneg r ls lr pls).
  assert (Hcs : forall k, foot k a <= count k r acts) by (intros k; eapply foot_count; [exact Ha|by right]).
  pose proof (Hcs Awaiter). pose proof (Hcs Creator). pose proof (Hcs Resumer). pose proof (Hcs Member).
  assert (Hbit : forall k, 0 <= foot k a') by (intros k; destruct (foot_bit k a'); lia).
  pose proof (Hbit Awaiter). pose proof (Hbit Creator). pose proof (Hbit Resumer). pose proof (Hbit Member).
  destruct (foot_gap r t a Ha ltac:(by right)) as (G1 & G2 & G3 & G4).
  destruct (token_frame (records m) (records m') a') as [T1 T2]; [by rewrite Hpb|].
  assert (Hsub : Forall (fun c => subject c = None \/ subject c = Some r) [a; a']) by (constructor; [by right|]; constructor; [exact Hs'|constructor]).
  assert (Hsp : 0 <= spare) by apply Hm.
  destruct (refcount_ w =? 1) eqn:E1.
  - assert (Hone : refcount_ w = 1) by lia. exists ls, lr, (pls ++ replicate (length (@nil activity)) []). split; [|by rewrite queue_spawn].
    assert (Hnone : records m' !! r = None) by (by rewrite Hrec, lookup_delete_eq).
    apply (touch_ok spare m ls lr pls Hm t a a' [] r); try done.
    + by rewrite app_nil_r.
    + intros r' Hne. by rewrite Hrec, lookup_delete_ne.
    + intros w0 _ Hch. lia.
    + by rewrite Hst.
    + rewrite Hnone. cbn [queued_now] in *. pose proof (Hbit Completer). pose proof (Hcs Pending). pose proof (Hcs Completer).
      assert (0 <= (if decide (phase_ w = queued) then 1 else 0)) by (destruct (decide _); lia).
      pose proof (foot_le a'). pose proof (foot_le a). constructor; cbn [queued_now tally fold_right]; lia.
    + intros w0. by rewrite Hnone.
    + intros c [-> |Hc]; [done|by apply not_elem_of_nil in Hc].
    + by rewrite Hdr.
    + right. pose proof (Hcs Pending). pose proof (Hcs Completer). cbn [queued_now] in *.
      assert (0 <= (if decide (phase_ w = queued) then 1 else 0)) by (destruct (decide _); lia).
      pose proof (foot_le a). pose proof (foot_le a'). pose proof (foot_bit Completer a'). lia.
    + rewrite T1, Hst. cbn. lia.
    + rewrite T2, Hh. cbn. lia.
    + rewrite Hr. f_equal. cbn. lia.
    + rewrite Hst. apply Hm.
  - assert (Hu : u32 (refcount_ w - 1) = refcount_ w - 1) by (apply wrap_small; lia).
    apply (store_ok t a a' [] r w (set_refcount (u32 (refcount_ w - 1)) w)); try done; auto.
    + by rewrite app_nil_r.
    + by rewrite Hst.
    + rewrite Hu. constructor; cbn [refcount_ set_refcount queued_now phase_ tally fold_right] in *; try lia.
      intros Hg. specialize (B8 Hg). lia.
    + intros c [-> |Hc]; [done|by apply not_elem_of_nil in Hc].
    + by rewrite Hdr.
    + rewrite T1, Hst. cbn. lia.
    + rewrite T2, Hh. cbn. lia.
    + rewrite Hr. f_equal. cbn. lia.
    + rewrite Hst. apply Hm.
Qed.

(** ** The counters *)

Lemma token_nonneg h a : 0 <= counted_holder h a <= token h a.
Proof using.
  assert (forall r, 0 <= granted_now h r) by (intros r; unfold granted_now; destruct (h !! r); [destruct (decide _)|]; lia).
  destruct a; cbn; repeat case_match; try lia; auto using Z.le_refl.
Qed.

Lemma tokens t a : acts !! t = Some a -> 0 <= active_holders_count_ m <= 1 /\
  counted_holder (records m) a <= active_holders_count_ m /\
  token (records m) a + unlocked (state_ m) <= 1 /\
  (forall u b, u <> t -> acts !! u = Some b -> token (records m) a + token (records m) b <= 1).
Proof using Hm.
  intros Ha. assert (N : forall b, 0 <= token (records m) b) by (intros b; pose proof (token_nonneg (records m) b); lia).
  assert (N' : forall b, 0 <= counted_holder (records m) b) by (intros b; pose proof (token_nonneg (records m) b); lia).
  pose proof (hd_token _ _ _ _ _ Hm). pose proof (hd_spare _ _ _ _ _ Hm). rewrite (hd_holders _ _ _ _ _ Hm).
  assert (0 <= unlocked (state_ m)) by (destruct (state_ m); cbn; lia).
  pose proof (tally_nonneg _ acts N'). pose proof (tally_ge _ _ _ _ N Ha). pose proof (tally_ge _ _ _ _ N' Ha).
  pose proof (tally_le (counted_holder (records m)) (token (records m)) acts (fun b => proj2 (token_nonneg _ b))).
  split_and!; try lia. intros u b Hu Hb. pose proof (tally_two _ _ _ _ _ _ N (not_eq_sym Hu) Ha Hb). lia.
Qed.

Lemma in_flight_same n : n = in_flight_resumers_ m -> in_flight_resumers_ m = u32 n.
Proof using Hm. intros ->. rewrite (hd_resumers _ _ _ _ _ Hm) at 1. rewrite (hd_resumers _ _ _ _ _ Hm). unfold wrap. by rewrite Zmod_mod. Qed.

Definition fine (o : outcome) : Prop :=
  match o with Waits => True | Breaks => False | Steps m' => serving spare queue m' end.

Ltac near := cbn [aware subject kinds_of private knows token counted_holder counted_resumer unlocked state_head
  state_ next_drain_head_ draining_ drain_in_progress_ draining_complete_ active_holders_count_ in_flight_resumers_
  records activities go spawn with_state with_residual with_records with_activities add_holders add_in_flight
  put_record tally fold_right] in *.

(** A step that touches no record. *)
Ltac quiet Ha :=
  eapply (quiet_ok _ _ _ spare _ Ha); [reflexivity|reflexivity| | |done|done|done|done|done| | | | | | |]; near;
  try done; try (by intros; congruence); try lia; try (f_equal; lia); try (apply in_flight_same; lia).

Hypothesis Hdr : draining_ m = false.
Hypothesis Hcalm : Forall calm acts.

Lemma lock_quiet t x a : acts !! t = Some a ->
  match a with LockEntry | LockFast | LockHeld | LockRecheck _ | LockLoad _ | LockTry _ not_locked | LockWon _ => True | _ => False end ->
  fine (lock_step t x m a).
Proof using Hm Hdr.
  intros Ha Hk. pose proof (tokens t a Ha) as (T1 & T2 & T3 & _).
  assert (Hsp := hd_spare _ _ _ _ _ Hm). assert (Hun := hd_unlocked _ _ _ _ _ Hm).
  destruct a;
    try done; cbn [lock_step fine]; rewrite ?Hdr; near.
  - quiet Ha.
  - destruct (state_is m not_locked) eqn:E; cbn [fine]; quiet Ha.
    all: apply bool_decide_eq_true in E; rewrite E; cbn; done || lia.
  - assert (u32 (active_holders_count_ m + 1) = active_holders_count_ m + 1) by (apply wrap_small; lia). quiet Ha.
  - quiet Ha.
  - quiet Ha.
  - destruct old as [|old]; [|done]. destruct (negb (spurious x) && state_is m not_locked) eqn:E; cbn [fine].
    + apply andb_true_iff in E as [_ E]. apply bool_decide_eq_true in E. quiet Ha.
      all: rewrite E; cbn; done || lia.
    + quiet Ha.
  - assert (u32 (active_holders_count_ m + 1) = active_holders_count_ m + 1) by (apply wrap_small; lia). quiet Ha.
Qed.

(** *** [lock_op_] *)

Lemma all_of {A} (P : A -> Prop) a l : P a -> Forall P l -> forall c, c = a \/ c ∈ l -> P c.
Proof using. intros Ha Hl c [-> |Hc]; [done|]. by eapply Forall_forall in Hl. Qed.

Lemma granted_put (h : gmap nat waiter_record) r w : granted_now (<[r:=w]> h) r = if decide (phase_ w = granted) then 1 else 0.
Proof using. unfold granted_now. by rewrite lookup_insert_eq. Qed.

Lemma granted_at (h : gmap nat waiter_record) r w : h !! r = Some w -> granted_now h r = if decide (phase_ w = granted) then 1 else 0.
Proof using. unfold granted_now. by intros ->. Qed.

Lemma refcount_up r w : records m !! r = Some w -> u32 (refcount_ w + 1) = refcount_ w + 1.
Proof using Hm. intros Hw. pose proof (refcount_bound r w Hw). apply wrap_small. lia. Qed.

Ltac entries :=
  constructor; near; cbn [set_phase set_next set_result set_attached set_refcount refcount_ phase_ queued_now] in *;
  weigh; repeat (destruct (decide _)); try congruence; try lia; try (intros; lia || congruence);
  try (match goal with B : phase_ _ = granted -> _ <= _ |- _ => let G := fresh in intros G; specialize (B G); lia end).

(** A step that changes the fields of its record. *)
Ltac store Ha Hw bs w' :=
  eapply (store_ok _ _ _ bs _ _ w' spare _ Ha); [first [reflexivity|by rewrite app_nil_r|near; by rewrite <- ?app_assoc]| |exact Hw|try reflexivity|..]; near;
  cbn [set_phase set_next set_result set_attached set_refcount refcount_ phase_ next_ result_ attached_awaiter_] in *; weigh;
  try done; try lia; try (f_equal; lia); try (apply in_flight_same; lia); try (by rewrite insert_insert_eq); try (by rewrite insert_id);
  try (by repeat constructor; auto); try (by split_and!; auto);
  try (apply all_of; [near; done|by repeat constructor]); try (left; lia); try (right; lia);
  try (right; right; split_and!; [congruence|done|lia|first [left; lia|right; lia]]);
  try (rewrite ?granted_put, ?(granted_at _ _ _ Hw); cbn [phase_ set_phase set_result set_next set_attached set_refcount];
       repeat (destruct (decide _)); try congruence; lia);
  try (by intros _; unfold completed; cbn; eauto 10);
  try (by intros [|[|?]] ? [= <-] _; cbn; unfold completed; eauto 10);
  try (lazymatch goal with |- balanced _ _ _ => entries end).

(** What an activity meets at its record. *)
Ltac enter r Ha :=
  pose proof (tokens _ _ Ha) as (?T1 & ?T2 & ?T3 & _);
  assert (Hsp := hd_spare _ _ _ _ _ Hm); assert (Hun := hd_unlocked _ _ _ _ _ Hm);
  let w := fresh "w" in let Hw := fresh "Hw" in let K := fresh "K" in
  destruct (entered_at _ _ r Ha eq_refl ltac:(cbn; lia)) as (w & Hw & K);
  unfold release_ref, at_record, add_ref, at_record; rewrite ?Hw; near; rewrite ?lookup_insert_eq; cbn [fine];
  pose proof (refcount_up r w Hw); ledger r Ha; rewrite Hw in *; cbn [knows queued_now] in *; unfold completed in *;
  destruct_and?; destruct_or?; destruct_and?; destruct (decide (phase_ w = queued)); try congruence.

Lemma lock_try_ok t x r old : acts !! t = Some (LockTry r (locked old)) -> fine (lock_step t x m (LockTry r (locked old))).
Proof using Hm Hdr Hcalm.
  intros Ha. cbn [lock_step]. enter r Ha.
  store Ha Hw (@nil activity) (set_refcount (u32 (refcount_ w + 1)) (set_next old w)).
Qed.

Lemma lock_store t x a r : acts !! t = Some a ->
  match a with LockGrant r' | LockRefused r' _ => r' = r | _ => False end -> fine (lock_step t x m a).
Proof using Hm Hdr Hcalm.
  intros Ha Hk. destruct a; try done; subst; cbn [lock_step]; enter r Ha.
  - store Ha Hw (@nil activity) (set_result Guard (set_phase granted w)).
  - store Ha Hw (@nil activity) (set_phase cancelled (set_result (Failed e) w)).
Qed.

(** [schedule_resume], of whoever completed a record. *)
Lemma schedule_addref t r x a : acts !! t = Some a ->
  match a with LockSchedule r' AddRef | UnlockSchedule r' AddRef | CancelSchedule r' AddRef => r' = r | _ => False end ->
  fine (activity_step t x m a).
Proof using Hm Hdr Hcalm.
  intros Ha Hk. destruct a; try done; destruct s; try done; subst; cbn [activity_step lock_step unlock_step cancel_step schedule_step];
    enter r Ha.
  all: store Ha Hw (@nil activity) (set_refcount (u32 (refcount_ w + 1)) w).
Qed.

Lemma schedule_count_in t r x a : acts !! t = Some a ->
  match a with LockSchedule r' CountIn | UnlockSchedule r' CountIn | CancelSchedule r' CountIn => r' = r | _ => False end ->
  fine (activity_step t x m a).
Proof using Hm Hdr Hcalm.
  intros Ha Hk. destruct a; try done; destruct s; try done; subst; cbn [activity_step lock_step unlock_step cancel_step schedule_step];
    enter r Ha; quiet Ha.
Qed.

Lemma schedule_post t r x a : acts !! t = Some a ->
  match a with LockSchedule r' Post | UnlockSchedule r' Post | CancelSchedule r' Post => r' = r | _ => False end ->
  fine (activity_step t x m a).
Proof using Hm Hdr Hcalm.
  intros Ha Hk. destruct a; try done; destruct s; try done; subst; cbn [activity_step lock_step unlock_step cancel_step schedule_step];
    enter r Ha.
  1-2: store Ha Hw [ReleaseRef r; Runner r] w.
  all: store Ha Hw [Runner r] w.
Qed.

(** [release_ref] of an activity that goes on as [a']. *)
Ltac drop Ha Hw a' :=
  near;
  let E := fresh "E" in destruct (refcount_ _ =? 1) eqn:E; cbn [fine];
  (eapply (release_ok _ _ a' _ _ _ Ha); [near; reflexivity|reflexivity|cbn; auto|exact Hw|near; by rewrite E|..]);
  near; weigh; try done; try lia; auto; try (f_equal; lia); try (apply in_flight_same; lia).

Lemma lock_release t r x a : acts !! t = Some a ->
  match a with LockUndo r' _ | ReleaseRef r' => r' = r | _ => False end -> fine (lock_step t x m a).
Proof using Hm Hdr Hcalm.
  intros Ha Hk. destruct a; try done; subst; cbn [lock_step]; enter r Ha.
  1: drop Ha Hw (LockTry r old).
  all: drop Ha Hw Finished.
Qed.

(** Where there is no record, nothing is at it. *)
Lemma absent r : records m !! r = None -> at_chain r = 0 /\ forall u c, acts !! u = Some c -> subject c <> Some r.
Proof using Hm.
  intros Hn. pose proof (hd_balanced _ _ _ _ _ Hm r) as [B1 B2 B3 B4 B5 B6 B7 B8]. rewrite Hn in *. cbn [queued_now] in *.
  pose proof (chained_nonneg r ls lr pls) as Hch. split.
  - pose proof (count_nonneg Awaiter r acts). pose proof (count_nonneg Creator r acts).
    pose proof (count_nonneg Resumer r acts). pose proof (count_nonneg Member r acts). lia.
  - intros u c Hc Hs. assert (Hd : (exists wk, c = UnlockSkip wk r) \/
      0 < foot Awaiter c + foot Creator c + foot Resumer c + foot Member c + foot Completer c).
    { destruct c; try done; cbn in Hs; injection Hs as ->;
        repeat match goal with x : schedule |- _ => destruct x | x : bool |- _ => destruct x end;
        (by right) || (left; by eexists). }
    destruct Hd as [[wk ->]|Hd]; [|destruct (entered_at u c r Hc Hs Hd) as (w & Hw & _); congruence].
    destruct (owned spare m ls lr pls Hm u _ Hc) as (l & Hl & Ho & _). cbn in Ho. apply chains_one, chain_some in Ho.
    destruct Ho as (w & l' & _ & Hw & _). congruence.
Qed.

Lemma count_absent k r : (forall u c, acts !! u = Some c -> subject c <> Some r) -> count k r acts = 0.
Proof using.
  intros H. unfold count. rewrite (tally_ext _ (fun _ => 0) acts).
  - clear. induction acts as [|a l IH]; [done|]. cbn. by fold (tally (fun _ : activity => 0) l).
  - intros u c Hc. apply at_subject_none. by eapply H.
Qed.

Lemma lock_alloc_ok t x : acts !! t = Some LockAlloc -> fine (lock_step t x m LockAlloc).
Proof using Hm Hdr Hcalm.
  intros Ha. assert (Hsp := hd_spare _ _ _ _ _ Hm). assert (Hun := hd_unlocked _ _ _ _ _ Hm).
  cbn [lock_step]. destruct (place x) as [r|]; [|cbn [fine]; quiet Ha].
  destruct (records m !! r) eqn:Hn; [done|]. destruct (absent r Hn) as [Hch Hno].
  pose proof (fun k => count_absent k r Hno) as Hc. set (a' := if assign_throws x then _ else _).
  assert (Ha' : (a' = LockRefused r sync_lock_alloc_failed \/ a' = LockRecheck r)) by (unfold a'; destruct (assign_throws x); auto).
  clearbody a'. cbn [fine]. exists ls, lr, (pls ++ replicate (length (@nil activity)) []). split; [|by rewrite queue_spawn].
  apply (touch_ok spare m ls lr pls Hm t LockAlloc a' [] r); near; try done; try rewrite Hch; try lia.
  - by rewrite app_nil_r.
  - destruct Ha' as [-> | ->]; by repeat constructor; auto.
  - intros r' Hne. by rewrite lookup_insert_ne.
  - by destruct Ha' as [-> | ->].
  - by destruct Ha' as [-> | ->].
  - rewrite lookup_insert_eq. destruct Ha' as [-> | ->]; constructor; cbn [queued_now phase_ refcount_];
      rewrite ?decide_True by done; rewrite ?Hc; weigh; done || lia.
  - intros w. rewrite lookup_insert_eq. intros [= <-]. split_and!; [by destruct Ha' as [-> | ->]|done|].
    intros u c _ Hu Hs. by destruct (Hno u c Hu).
  - intros c [-> |Hin]; [by destruct Ha' as [-> | ->]|by apply not_elem_of_nil in Hin].
  - right. by rewrite Hc.
  - destruct Ha' as [-> | ->]; cbn; lia.
  - destruct Ha' as [-> | ->]; cbn; lia.
  - destruct Ha' as [-> | ->]; cbn; apply in_flight_same; lia.
Qed.

(** A record joins the queue at its end. *)
Lemma lock_push_ok t x r old : acts !! t = Some (LockPush r old) ->
  fine (lock_step t x m (LockPush r old)) \/
  exists m', lock_step t x m (LockPush r old) = Steps m' /\ serving spare (queue ++ [r]) m'.
Proof using Hm Hdr Hcalm.
  intros Ha. cbn [lock_step]. enter r Ha.
  destruct (negb (spurious x) && state_is m (locked old)) eqn:E; cbn [fine]; [right; eexists; split; [done|]|left; quiet Ha; by intros ? ? [= ->] ? (? & ? & ?)].
  apply andb_true_iff in E as [_ E]. apply bool_decide_eq_true in E.
  assert (Hz : at_chain r = 0) by lia. pose proof (hd_chained _ _ _ _ _ Hm) as Hch. pose proof Hch as [Cs Cr _].
  destruct (owned spare m ls lr pls Hm t _ Ha) as (l & Hl & Ho & _).
  assert (Hnew : forall q, chained q (r :: ls) lr (pls ++ replicate 1 []) = (if decide (r = q) then 1 else 0) + at_chain q).
  { intros q. rewrite chained_spawn. unfold chained. rewrite occurs_cons. lia. }
  assert (Haw : forall c, aware m c -> aware (spawn (ReleaseRef r) (go t (Parked r) (with_state (locked (Some r)) m))) c).
  { intros c. by destruct c. }
  exists (r :: ls), lr, (pls ++ replicate (length [ReleaseRef r]) []). split; [|rewrite queue_spawn; unfold queue_of; cbn [rev]; by rewrite !app_assoc].
  eapply (transition_ok spare m ls lr pls Hm t _ (Parked r) [ReleaseRef r] r); constructor; near; rewrite ?E; cbn [unlocked]; try done; try lia.
  all: change (length [ReleaseRef r]) with 1%nat; rewrite ?Hnew.
  - by repeat constructor; auto.
  - by left.
  - intros q Hne. rewrite Hnew, decide_False by done. lia.
  - rewrite <- (list_insert_id pls t l Hl). change 1%nat with (length [ReleaseRef r]).
    eapply (chained_move m _ ls lr pls _ _ t _ (Parked r)); try done; [|by repeat constructor|by eauto].
    near. rewrite E in Cs. cbn. by rewrite Hw, H3.
  - rewrite decide_True by done. rewrite Hz, Hw. entries.
  - intros w0. rewrite Hw. intros [= <-]. rewrite decide_True by done. split_and!; [intros _; split; [done|lia]| |].
    + by intros [|[|i]] b [= <-].
    + intros u c Hu Hc Hs. eapply (knows_kept m t _ u c r w w (at_chain r)); try done; auto.
      * by eapply (hd_knows _ _ _ _ _ Hm).
      * left. lia.
  - apply all_of; [done|by repeat constructor].
  - cbn. lia.
  - cbn. apply in_flight_same. lia.
Qed.

(** *** The runner, and the coroutine it resumes *)

(** Whoever waits for a completed record is suspended in its lock. *)
Lemma runner_awaiter t r w : acts !! t = Some (Runner r) -> records m !! r = Some w -> completed w ->
  exists c, c <> t /\ attached_awaiter_ w = Some c /\ acts !! c = Some (Parked r).
Proof using Hm.
  intros Ha Hw K. ledger r Ha. rewrite Hw in *.
  assert (Hq : phase_ w <> queued) by (destruct K as [[-> _]|[-> _]]; done).
  cbn [queued_now] in *. rewrite decide_False in * by done.
  destruct (tally_witness (at_subject Pending r) acts) as (c & b & Hb & Hf); [fold (count Pending r acts); lia|].
  assert (Hs : subject b = Some r) by (unfold at_subject in Hf; destruct (decide _); [done|lia]).
  rewrite at_subject_some in Hf by done. pose proof (hd_knows _ _ _ _ _ Hm c b r w Hb Hs Hw) as Kb.
  assert (Hne : c <> t) by (intros ->; rewrite Ha in Hb; injection Hb as <-; cbn in Hf; lia).
  pose proof (count_two Done r acts t c _ _ (not_eq_sym Hne) Ha Hb) as Hd. rewrite !at_subject_some in Hd by done.
  exists c. destruct b; cbn in Hs, Hf, Kb, Hd; try lia; injection Hs as ->; destruct_and?; try done.
  all: repeat match goal with x : schedule |- _ => destruct x | x : bool |- _ => destruct x end; cbn in Hd, Hf; lia.
Qed.

Lemma runner_ok t x r : acts !! t = Some (Runner r) -> fine (activity_step t x m (Runner r)).
Proof using Hm.
  intros Ha. destruct (entered_at t _ r Ha eq_refl ltac:(cbn; lia)) as (w & Hw & K). cbn [knows] in K.
  destruct (runner_awaiter t r w Ha Hw K) as (c & Hne & Hat & Hc).
  cbn [activity_step resume_step]. unfold at_record. rewrite Hw, Hat, Hc, Nat.eqb_refl. cbn [fine].
  destruct (owned spare m ls lr pls Hm t _ Ha) as (l & Hl & Ho & _). destruct (owned spare m ls lr pls Hm c _ Hc) as (lc & Hlc & Hoc & _).
  set (m1 := go c (Resumed r (result_ w)) m). assert (Ha1 : activities m1 !! t = Some (Runner r)) by (cbn; by rewrite list_lookup_insert_ne).
  assert (Hcount : forall k q, count k q (<[t:=RunnerRelease r]> (<[c:=Resumed r (result_ w)]> acts)) =
    count k q acts - at_subject k q (Parked r) + at_subject k q (Resumed r (result_ w)) - at_subject k q (Runner r) + at_subject k q (RunnerRelease r)).
  { intros k q. rewrite (count_go k q (<[c:=Resumed r (result_ w)]> acts) t _ _ Ha1), (count_go k q _ c _ _ Hc). done. }
  assert (Hch : chained_as m1 ls lr pls).
  { rewrite <- (list_insert_id pls c lc Hlc). rewrite <- (app_nil_r (<[c:=lc]> pls)). change [] with (replicate (length (@nil activity)) (@nil nat)).
    pose proof (hd_chained _ _ _ _ _ Hm) as [C1 C2 C3]. apply (chained_move m m1 ls lr pls ls lr c (Parked r) (Resumed r (result_ w))); try done; eauto. by near; rewrite app_nil_r. }
  assert (Hcount' : forall f : activity -> Z, tally f (<[t:=RunnerRelease r]> (<[c:=Resumed r (result_ w)]> acts)) =
    tally f acts - f (Parked r) + f (Resumed r (result_ w)) - f (Runner r) + f (RunnerRelease r)).
  { intros f. rewrite (tally_insert f (<[c:=Resumed r (result_ w)]> acts) t _ _ Ha1). by rewrite (tally_insert f _ c _ _ Hc). }
  assert (Hlook : forall u b, <[t:=RunnerRelease r]> (<[c:=Resumed r (result_ w)]> acts) !! u = Some b ->
    b = RunnerRelease r \/ b = Resumed r (result_ w) \/ acts !! u = Some b).
  { intros u b. rewrite !list_lookup_insert. case_decide; [intros [= <-]; auto|]. case_decide; [intros [= <-]; auto|auto]. }
  assert (Hres : token (records m) (Resumed r (result_ w)) = granted_now (records m) r /\
    counted_holder (records m) (Resumed r (result_ w)) = granted_now (records m) r /\ result_ w <> NoGuard).
  { rewrite (granted_at _ _ _ Hw). destruct K as [[K1 K2]|[K1 [e K2]]]; rewrite K1, K2; done. }
  destruct Hres as (R1 & R2 & R3). exists ls, lr, pls. split; [|done]. constructor; cbn [go with_activities activities records state_ next_drain_head_ active_holders_count_ in_flight_resumers_].
  all: try change (activities m1) with (<[c:=Resumed r (result_ w)]> acts); try change (records m1) with (records m).
  - rewrite <- (list_insert_id pls t l Hl). rewrite <- (app_nil_r (<[t:=l]> pls)). change [] with (replicate (length (@nil activity)) (@nil nat)).
    pose proof (hd_chained _ _ _ _ _ Hm) as [C1 C2 C3]. apply (chained_move m1 _ ls lr pls ls lr t (Runner r) (RunnerRelease r)); try done; eauto. by near; rewrite app_nil_r.
  - intros q. pose proof (hd_balanced _ _ _ _ _ Hm q) as [B1 B2 B3 B4 B5 B6 B7 B8].
    assert (N : forall k, k <> Pending -> k <> Completer -> count k q (<[t:=RunnerRelease r]> (<[c:=Resumed r (result_ w)]> acts)) = count k q acts).
    { intros k N1 N2. rewrite Hcount. unfold at_subject. cbn [subject]. destruct (decide _); [|lia]. destruct k; cbn; try done; lia. }
    assert (N' : count Pending q acts - count Completer q acts =
      count Pending q (<[t:=RunnerRelease r]> (<[c:=Resumed r (result_ w)]> acts)) - count Completer q (<[t:=RunnerRelease r]> (<[c:=Resumed r (result_ w)]> acts))).
    { rewrite !Hcount. unfold at_subject. cbn [subject]. destruct (decide _); cbn; lia. }
    constructor; rewrite ?N by done; try done. lia.
  - intros u b q wq Hb Hs Hwq. destruct (Hlook u b Hb) as [-> |[-> |Hb']]; [done..|]. by eapply (hd_knows _ _ _ _ _ Hm).
  - intros u b Hb. destruct (Hlook u b Hb) as [-> |[-> |Hb']]; [done..|]. by apply (hd_aware _ _ _ _ _ Hm u).
  - rewrite Hcount', R1. pose proof (hd_token _ _ _ _ _ Hm). change (state_ m1) with (state_ m). cbn [token]. lia.
  - by apply (hd_spare _ _ _ _ _ Hm).
  - change (active_holders_count_ m1) with (active_holders_count_ m). rewrite Hcount', R2, (hd_holders _ _ _ _ _ Hm). cbn [counted_holder]. lia.
  - change (in_flight_resumers_ m1) with (in_flight_resumers_ m). rewrite Hcount', (hd_resumers _ _ _ _ _ Hm). f_equal. cbn [counted_resumer]. lia.
  - by apply (hd_unlocked _ _ _ _ _ Hm).
Qed.

Lemma resume_ok t x r a : acts !! t = Some a ->
  match a with RunnerRelease r' | Resumed r' _ | Detached r' _ => r' = r | _ => False end -> fine (activity_step t x m a).
Proof using Hm Hdr Hcalm.
  intros Ha Hk. destruct a; try done; subst; cbn [activity_step resume_step]; enter r Ha; try (exfalso; lia).
  - drop Ha Hw RunnerCountOut.
  - store Ha Hw (@nil activity) (set_attached None w).
    intros c [-> |Hc]; [by apply (hd_aware _ _ _ _ _ Hm t (Resumed r res))|by apply not_elem_of_nil in Hc].
  - destruct res as [| |e]; [drop Ha Hw Idle|drop Ha Hw Owner|drop Ha Hw (Refused e)].
Qed.

Lemma count_out_ok t x : acts !! t = Some RunnerCountOut -> fine (activity_step t x m RunnerCountOut).
Proof using Hm Hdr Hcalm.
  intros Ha. assert (Hsp := hd_spare _ _ _ _ _ Hm). assert (Hun := hd_unlocked _ _ _ _ _ Hm).
  cbn [activity_step resume_step fine]. quiet Ha.
Qed.

(** *** [unlock] *)

(** No other activity has a chain while one has the lock. *)
Lemma queue_set t a ls' lr' l l' : acts !! t = Some a -> pls !! t = Some l -> token (records m) a = 1 ->
  queue_of ls' lr' (<[t:=l']> pls) = lr' ++ l' ++ rev ls'.
Proof using Hm Hcalm.
  intros Ha Hl Ht. unfold queue_of. rewrite (concat_alone pls t l l'); [done..|]. intros u l0 Hu Hl0.
  destruct (Forall2_lookup_r _ _ _ _ _ (ch_private _ _ _ _ (hd_chained _ _ _ _ _ Hm)) Hl0) as (c & Hc & Ho & _).
  destruct (tokens t a Ha) as (_ & _ & _ & T). specialize (T u c Hu Hc).
  pose proof (Forall_lookup_1 _ _ _ _ Hcalm Hc) as Hcc. destruct c; done || (cbn in T; lia).
Qed.

Lemma queue_here t a l : acts !! t = Some a -> pls !! t = Some l -> token (records m) a = 1 -> queue = lr ++ l ++ rev ls.
Proof using Hm Hcalm. intros Ha Hl Ht. rewrite <- (queue_set t a ls lr l l Ha Hl Ht). by rewrite list_insert_id. Qed.

(** The chains change hands, and no record does. *)
Lemma relink_ok t a a' m' ls' lr' l l' :
  acts !! t = Some a -> pls !! t = Some l -> activities m' = <[t := a']> acts -> records m' = records m ->
  chain (records m) (state_head (state_ m')) ls' -> chain (records m) (next_drain_head_ m') lr' ->
  owns (records m) a' l' ->
  token (records m) a = 1 -> lr' ++ l' ++ rev ls' = lr ++ l ++ rev ls ->
  subject a' = subject a -> kinds_of a' = kinds_of a ->
  (forall r w, subject a' = Some r -> records m !! r = Some w -> knows w (at_chain r) t a -> knows w (at_chain r) t a') ->
  aware m' a' -> (forall u c, u <> t -> acts !! u = Some c -> aware m c -> aware m' c) ->
  token (records m) a' + unlocked (state_ m') = token (records m) a + unlocked (state_ m) ->
  active_holders_count_ m' = active_holders_count_ m + counted_holder (records m) a' - counted_holder (records m) a ->
  in_flight_resumers_ m' = u32 (in_flight_resumers_ m + counted_resumer a' - counted_resumer a) ->
  (state_ m' = not_locked -> next_drain_head_ m' = None) ->
  serving spare queue m'.
Proof using Hm Hcalm.
  intros Ha Hl Hact Hrec Hs' Hr' Ho Hta Hocc0 Hs Hk Hkn Haw Hawo Htok Hh Hr Hun.
  exists ls', lr', (<[t:=l']> pls ++ replicate (length (@nil activity)) []). split; [|by rewrite queue_spawn, (queue_set t a ls' lr' l l'), (queue_here t a l)].
  assert (Hocc : forall q, occurs q ls' + occurs q lr' + occurs q l' = occurs q ls + occurs q lr + occurs q l).
  { intros q. apply (f_equal (occurs q)) in Hocc0. rewrite !occurs_app, !occurs_rev in Hocc0. lia. }
  assert (Hq : forall q, chained q ls' lr' (<[t:=l']> pls ++ replicate 0 []) = at_chain q).
  { intros q. rewrite chained_spawn, (chained_set q ls' lr' pls t l l' Hl). unfold chained. specialize (Hocc q). lia. }
  set (r0 := match subject a with Some r => r | None => O end).
  assert (Hsub : subject a = None \/ subject a = Some r0) by (unfold r0; destruct (subject a); auto).
  apply (transition_ok spare m ls lr pls Hm t a a' [] r0). change (length []) with O. constructor; try done.
  - by rewrite app_nil_r.
  - constructor; [done|]. constructor; [by rewrite Hs|constructor].
  - intros r _. left. by rewrite Hrec.
  - change O with (length (@nil activity)). pose proof (hd_chained _ _ _ _ _ Hm) as Hch.
    apply (chained_move m m' ls lr pls ls' lr' t a a'); try done; [by rewrite app_nil_r|by rewrite Hrec..|].
    intros u l0 r w _ _ _ Hw. rewrite Hrec. by exists w.
  - rewrite Hrec, Hq. pose proof (hd_balanced _ _ _ _ _ Hm r0) as [H1 H2 H3 H4 H5 H6 H7 H8].
    assert (E : forall k, foot k a' = foot k a) by (intros k; unfold foot; by rewrite Hk).
    constructor; cbn [tally fold_right]; rewrite ?E; try done; try lia.
    destruct (records m !! r0); [|done]. intros Hg. specialize (H8 Hg). lia.
  - intros w. rewrite Hrec, Hq. intros Hw. split_and!.
    + intros Hs2. apply (Hkn r0); [done..|]. eapply (hd_knows _ _ _ _ _ Hm); [done| |done]. by rewrite <- Hs.
    + done.
    + intros u c _ Hc Hsc. by eapply (hd_knows _ _ _ _ _ Hm).
  - intros c [-> |Hc]; [done|by apply not_elem_of_nil in Hc].
  - left. by rewrite Hrec.
  - rewrite Hrec. cbn. lia.
  - apply (hd_spare _ _ _ _ _ Hm).
  - rewrite Hrec, Hh. cbn. lia.
  - rewrite Hr. f_equal. cbn. lia.
Qed.

Ltac facts Ha :=
  pose proof (tokens _ _ Ha) as (?T1 & ?T2 & ?T3 & ?T4);
  assert (Hsp := hd_spare _ _ _ _ _ Hm); assert (Hun := hd_unlocked _ _ _ _ _ Hm);
  assert (Haw := hd_aware _ _ _ _ _ Hm _ _ Ha); cbn [aware] in Haw.

Lemma unlock_quiet t x a : acts !! t = Some a ->
  match a with UnlockEnter | UnlockCheck | UnlockDrained | UnlockTerminal | UnlockAgain => True | _ => False end ->
  fine (unlock_step t x m a).
Proof using Hm Hdr Hcalm.
  intros Ha Hk. facts Ha. destruct a; try done; cbn [unlock_step fine]; rewrite ?Hdr; near.
  - assert (u32 (active_holders_count_ m + -1) = active_holders_count_ m - 1) by (apply wrap_small; lia). quiet Ha.
  - quiet Ha.
  - congruence.
  - destruct (state_is m (locked None)) eqn:E; cbn [fine]; quiet Ha.
    all: apply bool_decide_eq_true in E; rewrite E; cbn; done || lia.
  - assert (u32 (active_holders_count_ m + 1) = active_holders_count_ m + 1) by (apply wrap_small; lia). quiet Ha.
Qed.

(** An activity whose chain is [p] holds it alone. *)
Lemma its_chain t a p : acts !! t = Some a -> private a = [p] -> exists l, pls !! t = Some l /\ chain (records m) p l.
Proof using Hm.
  intros Ha Hp. destruct (owned spare m ls lr pls Hm t a Ha) as (l & Hl & Ho & _). rewrite Hp in Ho.
  exists l. split; [done|]. by apply chains_one.
Qed.

Ltac relink Ha Hl ls' lr' l' := eapply (relink_ok _ _ _ _ ls' lr' _ l' Ha Hl); [reflexivity|reflexivity|..]; near; try done; try lia;
  try (f_equal; lia); try (apply in_flight_same; lia); try (by intros ? c _ _; destruct c; cbn; tauto).

Lemma unlock_relink t x a : acts !! t = Some a ->
  match a with UnlockResidual | UnlockWalk _ None => True | _ => False end -> fine (unlock_step t x m a).
Proof using Hm Hdr Hcalm.
  intros Ha Hk. facts Ha. pose proof (hd_chained _ _ _ _ _ Hm) as [Cs Cr _].
  destruct a; try done; cbn [unlock_step fine]; near.
  - destruct (owned spare m ls lr pls Hm t _ Ha) as (l & Hl & Ho & _). cbn in Ho. subst l.
    relink Ha Hl ls (@nil nat) lr.
    split; [by apply chains_one|done].
  - destruct cur; [done|]. destruct (its_chain t _ _ Ha eq_refl) as (l & Hl & Hch). apply chain_none in Hch as ->.
    destruct w; cbn [fine]; relink Ha Hl ls lr (@nil nat).
Qed.

Lemma chain_end_last h l : forall r fuel, chain h (Some r) l -> (length l <= S fuel)%nat -> chain_end fuel h r = last l.
Proof using.
  induction l as [|r0 l IH]; intros r fuel; [done|]. intros H Hf. apply chain_some in H as (w & l' & [= <- <-] & Hw & Hc).
  destruct l as [|r1 l].
  - cbn in Hc. destruct fuel; cbn [chain_end]; by rewrite Hw, Hc.
  - pose proof Hc as [Hn _]. cbn [length] in Hf. destruct fuel as [|fuel]; [lia|]. cbn [chain_end]. rewrite Hw, Hn.
    rewrite (IH r1 fuel); [done|by rewrite <- Hn|cbn; lia].
Qed.

Lemma chain_last h p l e : chain h p l -> last l = Some e -> exists w, h !! e = Some w /\ next_ w = None.
Proof using.
  revert p. induction l as [|r l IH]; intros p; [done|]. cbn [chain]. intros [_ H] He. destruct (h !! r) as [w|] eqn:Hw; [|done].
  destruct l as [|r1 l]; [|by eapply IH]. cbn in He. injection He as <-. by exists w.
Qed.

(** A chain has as many records as there are, at most. *)
Lemma listed_bound l : (forall q, occurs q l <= at_chain q) -> NoDup l /\ (length l <= size (records m))%nat.
Proof using Hm.
  intros Hq. assert (Hnd : NoDup l).
  { apply occurs_nodup. intros q. specialize (Hq q). pose proof (bal_seat _ _ _ (hd_balanced _ _ _ _ _ Hm q)).
    pose proof (count_nonneg Seat q acts). lia. }
  split; [done|]. rewrite <- size_dom, <- (size_list_to_set (C := gset nat) l Hnd). apply subseteq_size.
  intros q Hin. apply elem_of_list_to_set, occurs_in in Hin. specialize (Hq q). apply elem_of_dom.
  destruct (entered q) as [w Hw]; [|by exists w].
  pose proof (count_nonneg Awaiter q acts). pose proof (count_nonneg Creator q acts). pose proof (count_nonneg Resumer q acts).
  pose proof (count_nonneg Member q acts). pose proof (count_nonneg Completer q acts). lia.
Qed.

Lemma private_occurs t l q : pls !! t = Some l -> occurs q l <= at_chain q.
Proof using.
  intros Hl. unfold chained. pose proof (tally_ge (occurs q) pls t l (occurs_nonneg q) Hl).
  pose proof (occurs_nonneg q ls). pose proof (occurs_nonneg q lr). lia.
Qed.

Lemma unlock_splice_ok t x r tail : acts !! t = Some (UnlockSplice r tail) -> fine (unlock_step t x m (UnlockSplice r tail)).
Proof using Hm Hdr Hcalm.
  intros Ha. facts Ha. pose proof (hd_chained _ _ _ _ _ Hm) as [Cs Cr _].
  destruct (its_chain t _ _ Ha eq_refl) as (l & Hl & Hch).
  destruct (listed_bound _ (fun q => private_occurs t l q Hl)) as [_ Hlen]. cbn [unlock_step].
  rewrite (chain_end_last _ l) by (done || lia). destruct (last l) as [e|] eqn:El.
  - cbn [fine]. relink Ha Hl ls lr l. split; [by apply chains_one|done].
  - apply last_None in El as ->. by apply chain_some in Hch as (? & ? & ? & _).
Qed.

Lemma splice_cas_ok t x r tail e old : acts !! t = Some (UnlockSpliceCas r tail e old) ->
  fine (unlock_step t x m (UnlockSpliceCas r tail e old)).
Proof using Hm Hdr Hcalm.
  intros Ha. facts Ha. destruct Haw as [Haw ->]. pose proof (hd_chained _ _ _ _ _ Hm) as [Cs Cr _].
  destruct (owned spare m ls lr pls Hm t _ Ha) as (l & Hl & Ho & El). apply chains_one in Ho.
  destruct (chain_last _ _ _ _ Ho El) as (w & Hw & Hnx).
  assert (Hsame : <[e := set_next None w]> (records m) = records m) by (rewrite <- Hnx; destruct w; by apply insert_id).
  cbn [unlock_step]. unfold at_record, put_record. rewrite Hw, Hsame. near. rewrite Haw. rewrite bool_decide_true by done.
  rewrite Haw in Cr. apply chain_none in Cr. destruct (negb (spurious x)); cbn [andb fine].
  - relink Ha Hl ls l (@nil nat).
    + by rewrite Cr.
    + intros u c Hu Hc. specialize (T4 u c Hu Hc). destruct c; cbn in T4 |- *; tauto || lia.
    + intros E. rewrite E in T3. cbn in T3. lia.
  - relink Ha Hl ls lr l; [by rewrite Haw, Cr|split; [by apply chains_one|done]].
Qed.

(** The record an [unlock] has come to. *)
Lemma its_record t a r : acts !! t = Some a -> private a = [Some r] ->
  exists l w, pls !! t = Some (r :: l) /\ records m !! r = Some w /\ chain (records m) (next_ w) l /\
    at_chain r = 1 /\ count Seat r acts = 0 /\ forall q, q ∈ l -> q <> r.
Proof using Hm.
  intros Ha Hp. destruct (its_chain t a _ Ha Hp) as (l0 & Hl & Hch).
  destruct (listed_bound _ (fun q => private_occurs t l0 q Hl)) as [Hnd _].
  apply chain_some in Hch as (w & l & -> & Hw & Hch). exists l, w. pose proof (private_occurs t _ r Hl) as Hocc.
  rewrite occurs_cons, decide_True in Hocc by done. pose proof (occurs_nonneg r l).
  pose proof (bal_seat _ _ _ (hd_balanced _ _ _ _ _ Hm r)). pose proof (count_nonneg Seat r acts). split_and!; try done; try lia.
  apply NoDup_cons in Hnd as [Hni _]. intros q Hq ->. done.
Qed.

Lemma its_record_open t a r w : acts !! t = Some a -> private a = [Some r] -> token (records m) a = 1 -> foot Winner a = 0 ->
  records m !! r = Some w -> at_chain r = 1 -> phase_ w <> granted.
Proof using Hm.
  intros Ha Hp Ht Hf Hw Hc Hg. pose proof (bal_granted _ _ _ (hd_balanced _ _ _ _ _ Hm r)) as B. rewrite Hw in B. specialize (B Hg).
  destruct (tally_witness (at_subject Winner r) acts) as (u & b & Hb & Hpos); [fold (count Winner r acts); lia|].
  assert (Hs : subject b = Some r) by (unfold at_subject in Hpos; destruct (decide _); [done|lia]).
  rewrite at_subject_some in Hpos by done.
  assert (Hbt : token (records m) b = 1).
  { destruct b; try done; repeat match goal with x : schedule |- _ => destruct x | x : bool |- _ => destruct x end; cbn in Hpos; lia. }
  destruct (tokens t a Ha) as (_ & _ & _ & T). assert (u <> t) by (intros ->; rewrite Ha in Hb; injection Hb as <-; lia).
  specialize (T u b ltac:(done) Hb). lia.
Qed.

Ltac meet r Ha l w :=
  facts Ha; let Hl := fresh "Hl" in let Hw := fresh "Hw" in let Hch := fresh "Hch" in
  destruct (its_record _ _ r Ha eq_refl) as (l & w & Hl & Hw & Hch & ?Hone & ?Hseat & ?Hoff);
  unfold release_ref, at_record; near; rewrite ?Hw; ledger r Ha; rewrite Hw in *; cbn [queued_now] in *;
  try (assert (phase_ w <> granted) by (by eapply its_record_open)).

Lemma unlock_walk_ok t x wk r : acts !! t = Some (UnlockWalk wk (Some r)) -> fine (unlock_step t x m (UnlockWalk wk (Some r))).
Proof using Hm Hdr Hcalm.
  intros Ha. meet r Ha l w. unfold unlock_step, at_record. destruct wk; rewrite Hw.
  all: destruct (phase_ w) eqn:P; try done; cbn [fine]; [by quiet Ha|].
  all: store Ha Hw (@nil activity) w.
Qed.

Lemma unlock_grant_ok t x wk r : acts !! t = Some (UnlockGrant wk r) -> fine (unlock_step t x m (UnlockGrant wk r)).
Proof using Hm Hdr Hcalm.
  intros Ha. meet r Ha l w. unfold unlock_step, at_record. rewrite Hw.
  destruct (phase_ w) eqn:P; try done; cbn [fine].
  - rewrite decide_True in * by done. store Ha Hw (@nil activity) (set_phase granted w).
  - store Ha Hw (@nil activity) w.
Qed.

(** The head of a chain leaves it. *)
Lemma popped_chains t a a' r l m' :
  acts !! t = Some a -> pls !! t = Some (r :: l) -> at_chain r = 1 -> (forall q, q ∈ l -> q <> r) ->
  activities m' = <[t := a']> acts -> (forall q, q <> r -> records m' !! q = records m !! q) ->
  state_ m' = state_ m -> next_drain_head_ m' = next_drain_head_ m -> owns (records m) a' l ->
  chained_as m' ls lr (<[t:=l]> pls ++ replicate 0 []).
Proof using Hm.
  intros Ha Hl Hone Hoff Hact Hrec Hst Hres Ho. pose proof (hd_chained _ _ _ _ _ Hm) as Hch. pose proof Hch as [Cs Cr _].
  assert (Hf : forall q, q <> r -> forall w0, records m !! q = Some w0 -> exists w1, records m' !! q = Some w1 /\ next_ w1 = next_ w0).
  { intros q Hne w0 Hq0. exists w0. by rewrite Hrec. }
  assert (Hr : occurs r (r :: l) = 1 + occurs r l) by (rewrite occurs_cons, decide_True by done; lia).
  pose proof (occurs_nonneg r l). pose proof (occurs_nonneg r ls). pose proof (occurs_nonneg r lr). unfold chained in Hone.
  pose proof (tally_ge (occurs r) pls t _ (occurs_nonneg r) Hl) as H2.
  change O with (length (@nil activity)).
  apply (chained_move m m' ls lr pls ls lr t a a'); try done; [by rewrite app_nil_r|..].
  - rewrite Hst. eapply chain_frame; [|done]. intros q w0 Hin. apply Hf. intros ->. apply occurs_in in Hin. lia.
  - rewrite Hres. eapply chain_frame; [|done]. intros q w0 Hin. apply Hf. intros ->. apply occurs_in in Hin. lia.
  - eapply owns_frame; [|done]. intros q w0 Hin. by apply Hf, Hoff.
  - intros u l0 q w0 Hu Hu0 Hin. apply Hf. intros ->. apply occurs_in in Hin.
    pose proof (tally_two (occurs r) pls t u _ _ (occurs_nonneg r) (not_eq_sym Hu) Hl Hu0). lia.
Qed.

Lemma unchain_ok t a a' r w l m' :
  acts !! t = Some a -> subject a = Some r -> pls !! t = Some (r :: l) -> records m !! r = Some w ->
  at_chain r = 1 -> (forall q, q ∈ l -> q <> r) -> count Seat r acts = 0 -> phase_ w <> queued ->
  activities m' = <[t := a']> acts -> subject a' = None \/ subject a' = Some r ->
  (forall q, q <> r -> records m' !! q = records m !! q) ->
  state_ m' = state_ m -> next_drain_head_ m' = next_drain_head_ m -> draining_ m' = draining_ m ->
  owns (records m) a' l -> balanced (records m' !! r) (fun k => count k r acts - foot k a + foot k a') 0 ->
  (forall w', records m' !! r = Some w' -> phase_ w' = phase_ w /\ attached_awaiter_ w' = attached_awaiter_ w /\
     (result_ w' = result_ w \/ count Completer r acts = foot Completer a) /\ (subject a' = Some r -> knows w' 0 t a')) ->
  aware m' a' -> granted_now (records m') r = granted_now (records m) r \/ count Completer r acts = foot Completer a ->
  token (records m') a' = token (records m) a -> token (records m) a = 1 ->
  active_holders_count_ m' = active_holders_count_ m + counted_holder (records m') a' - counted_holder (records m) a ->
  in_flight_resumers_ m' = u32 (in_flight_resumers_ m + counted_resumer a' - counted_resumer a) ->
  next_drain_head_ m = None -> serving spare (l ++ rev ls) m' /\ queue = r :: l ++ rev ls.
Proof using Hm Hcalm.
  intros Ha Hs Hl Hw Hone Hoff Hseat Hq Hact Hs' Hrec Hst Hres Hd Ho Hbal Hkn Haw Hg Htok Hta Hh Hr.
  intros Hnone. pose proof (hd_chained _ _ _ _ _ Hm) as [_ Cr _]. rewrite Hnone in Cr. apply chain_none in Cr.
  split; [|by rewrite (queue_here t a _ Ha Hl Hta), Cr].
  exists ls, lr, (<[t:=l]> pls ++ replicate (length (@nil activity)) []). split; [|by rewrite queue_spawn, (queue_set t a ls lr _ l Ha Hl Hta), Cr].
  assert (Hc : forall q, chained q ls lr (<[t:=l]> pls ++ replicate 0 []) = at_chain q - if decide (r = q) then 1 else 0).
  { intros q. rewrite chained_spawn, (chained_set q ls lr pls t _ l Hl), occurs_cons. lia. }
  apply (transition_ok spare m ls lr pls Hm t a a' [] r). change (length []) with O.
  assert (Hcr : chained r ls lr (<[t:=l]> pls ++ replicate 0 []) = 0) by (rewrite Hc, decide_True by done; lia).
  constructor; rewrite ?Hcr; try done.
  - by rewrite app_nil_r.
  - constructor; [by right|]. by constructor.
  - intros q Hne. left. by apply Hrec.
  - intros q Hne. rewrite Hc, decide_False by done. lia.
  - by apply (popped_chains t a a' r l m').
  - destruct Hbal as [H1 H2 H3 H4 H5 H6 H7 H8]. constructor; cbn [tally fold_right] in *; try done; try lia.
    destruct (records m' !! r); [|done]. intros G. specialize (H8 G). lia.
  - intros w' Hw'. destruct (Hkn w' Hw') as (K1 & K2 & K3 & K4). split_and!; [done..|]. intros u c Hu Hcu Hsc.
    pose proof (foot_count Seat r t a Ha ltac:(by right)). destruct (foot_bit Seat a); [|lia].
    eapply (knows_kept m t a u c r w w' (at_chain r)); try done; auto.
    + by eapply (hd_knows _ _ _ _ _ Hm).
    + right. lia.
    + destruct K3; auto.
    + right. congruence.
  - intros c [-> |Hcc]; [done|by apply not_elem_of_nil in Hcc].
  - intros u c _ _. destruct c; cbn; rewrite ?Hres, ?Hd; done.
  - rewrite Hst. cbn. lia.
  - apply (hd_spare _ _ _ _ _ Hm).
  - rewrite Hh. cbn. lia.
  - rewrite Hr. f_equal. cbn. lia.
  - rewrite Hst, Hres. apply (hd_unlocked _ _ _ _ _ Hm).
Qed.

(** The head of the queue leaves it, skipped or granted. *)
Ltac unchain Ha Hl Hw a' :=
  eexists _, _; split; [reflexivity|]; eapply (unchain_ok _ _ a' _ _ _ _ Ha eq_refl Hl Hw); near; try done; try lia; auto;
  try (f_equal; lia); try (apply in_flight_same; lia);
  try (intros ? ?; rewrite ?lookup_delete_ne, ?lookup_insert_ne by done; done).

Lemma unlock_skip_ok t x wk r : acts !! t = Some (UnlockSkip wk r) ->
  exists m' q, unlock_step t x m (UnlockSkip wk r) = Steps m' /\ serving spare q m' /\ queue = r :: q.
Proof using Hm Hdr Hcalm.
  intros Ha. meet r Ha l w. pose proof (hd_knows _ _ _ _ _ Hm t _ r w Ha eq_refl Hw) as K. cbn [knows] in K.
  pose proof (refcount_bound r w Hw).
  assert (Q : phase_ w <> queued) by congruence. rewrite decide_False in Bpend by done. rewrite decide_False in Bdone by done.
  unfold unlock_step, release_ref, at_record, put_record. rewrite Hw. near. rewrite lookup_insert_eq.
  cbn [set_next refcount_]. destruct (refcount_ w =? 1) eqn:E.
  - unchain Ha Hl Hw (UnlockWalk wk (next_ w)).
    all: rewrite ?lookup_delete_eq; try done.
    + split; [by apply chains_one|done].
    + entries.
    + right. weigh. lia.
  - assert (u32 (refcount_ w - 1) = refcount_ w - 1) by (apply wrap_small; lia).
    unchain Ha Hl Hw (UnlockWalk wk (next_ w)).
    all: rewrite ?insert_insert_eq, ?lookup_insert_eq; try done.
    + split; [by apply chains_one|done].
    + entries.
    + intros w' [= <-]. cbn. auto.
    + left. by rewrite granted_put, (granted_at _ _ _ Hw).
Qed.

Lemma unlock_granted_ok t x r : acts !! t = Some (UnlockGranted r) ->
  exists m' q, unlock_step t x m (UnlockGranted r) = Steps m' /\ serving spare q m' /\ queue = r :: q.
Proof using Hm Hdr Hcalm.
  intros Ha. meet r Ha l w. pose proof (hd_knows _ _ _ _ _ Hm t _ r w Ha eq_refl Hw) as K. cbn [knows] in K.
  assert (Q : phase_ w <> queued) by congruence. rewrite decide_False in Bpend by done. rewrite decide_False in Bdone by done.
  assert (u32 (active_holders_count_ m + 1) = active_holders_count_ m + 1) by (apply wrap_small; lia).
  unfold unlock_step, at_record, put_record. rewrite Hw. near.
  destruct (next_ w) as [tail|] eqn:En; [unchain Ha Hl Hw (UnlockSplice r tail)|unchain Ha Hl Hw (UnlockRelease r)].
  all: rewrite ?lookup_insert_eq; try (split; [by apply chains_one|done]); try entries.
  all: try (by rewrite granted_put, (granted_at _ _ _ Hw)).
  all: try (simplify_eq; cbn; split_and!; done || auto; right; lia).
  all: try (by simplify_eq). by apply chain_none in Hch as ->.
Qed.

Lemma unlock_release_ok t x r : acts !! t = Some (UnlockRelease r) -> fine (unlock_step t x m (UnlockRelease r)).
Proof using Hm Hdr Hcalm.
  intros Ha. cbn [unlock_step]. enter r Ha. drop Ha Hw (UnlockSchedule r AddRef).
Qed.

Lemma reverse_chain_spec l : forall fuel h cur prev acc,
  chain h cur l -> chain h prev acc -> NoDup l -> (forall q, q ∈ l -> ~ q ∈ acc) -> (length l <= fuel)%nat ->
  exists h' p, reverse_chain fuel h cur prev = Some (h', p) /\ chain h' p (rev l ++ acc) /\
    (forall q, ~ q ∈ l -> h' !! q = h !! q) /\
    (forall q w, q ∈ l -> h !! q = Some w -> exists n, h' !! q = Some (set_next n w)).
Proof using.
  induction l as [|r l IH]; intros fuel h cur prev acc Hc Hp Hnd Hdis Hf.
  - cbn in Hc. subst cur. exists h, prev. split; [by destruct fuel|]. split; [done|]. split; [done|].
    intros q w Hq. by apply not_elem_of_nil in Hq.
  - apply NoDup_cons in Hnd as [Hr Hnd]. destruct Hc as [-> Hc]. destruct (h !! r) as [w|] eqn:Hw; [|done].
    destruct fuel as [|fuel]; [cbn in Hf; lia|]. cbn [length] in Hf.
    assert (Hframe : forall p l0, ~ r ∈ l0 -> chain h p l0 -> chain (<[r:=set_next prev w]> h) p l0).
    { intros p l0 Hno. apply chain_frame. intros q w0 Hin Hq. exists w0. rewrite lookup_insert_ne; [done|]. by intros ->. }
    destruct (IH fuel (<[r:=set_next prev w]> h) (next_ w) (Some r) (r :: acc)) as (h' & p & E & Hrev & Hout & Hin); try done; try lia.
    + by apply Hframe.
    + split; [done|]. rewrite lookup_insert_eq. apply Hframe; [|exact Hp]. apply Hdis. by left.
    + intros q Hq [-> |Hqa]%elem_of_cons; [done|]. apply (Hdis q); [by right|done].
    + exists h', p. cbn [reverse_chain rev]. rewrite Hw. split; [done|]. rewrite <- app_assoc. split; [done|]. split.
      * intros q Hq. rewrite not_elem_of_cons in Hq. rewrite Hout by tauto. rewrite lookup_insert_ne; [done|]. intros <-. tauto.
      * intros q w0 [-> |Hq]%elem_of_cons Hq0.
        -- rewrite Hw in Hq0. injection Hq0 as <-. exists prev. by rewrite Hout, lookup_insert_eq.
        -- assert (q <> r) by (by intros ->). apply Hin; [done|]. by rewrite lookup_insert_ne.
Qed.

Lemma state_chain_bound : NoDup ls /\ (length ls <= size (records m))%nat.
Proof using Hm.
  apply listed_bound. intros q. unfold chained.
  pose proof (occurs_nonneg q lr). pose proof (tally_nonneg (occurs q) pls (occurs_nonneg q)). lia.
Qed.

Lemma unlock_exchange_ok t x : acts !! t = Some UnlockExchange -> fine (unlock_step t x m UnlockExchange).
Proof using Hm Hdr Hcalm.
  intros Ha. facts Ha. pose proof (hd_chained _ _ _ _ _ Hm) as [Cs Cr _]. cbn [unlock_step].
  destruct (state_ m) as [|[head|]] eqn:Es; cbn [fine]; [cbn in T3; lia| |quiet Ha; by rewrite Es].
  destruct state_chain_bound as [Hnd Hlen]. cbn [state_head] in Cs.
  destruct (reverse_chain_spec ls (size (records m)) (records m) (Some head) None []) as (h' & p & E & Hrev & Hout & Hin); try done.
  { intros q _. apply not_elem_of_nil. }
  unfold reversed. near. rewrite E. cbn [fine]. rewrite app_nil_r in Hrev.
  set (r0 := fresh (dom (records m))). assert (Hr0 : records m !! r0 = None) by (apply not_elem_of_dom, is_fresh).
  destruct (absent r0 Hr0) as [Hch0 Hno]. destruct (owned spare m ls lr pls Hm t _ Ha) as (l & Hl & Ho & _). cbn in Ho. subst l.
  assert (Hc : forall q, chained q [] lr (<[t:=rev ls]> pls ++ replicate 0 []) = at_chain q).
  { intros q. rewrite chained_spawn, (chained_set q [] lr pls t [] _ Hl). unfold chained. rewrite occurs_rev. cbn. lia. }
  assert (Hrec : forall q w, records m !! q = Some w -> exists w', h' !! q = Some w' /\ (~ q ∈ ls -> next_ w' = next_ w)).
  { intros q w Hq. destruct (decide (q ∈ ls)) as [Hq'|Hq'].
    - destruct (Hin q w Hq' Hq) as [n Hn]. by eexists.
    - exists w. by rewrite Hout. }
  assert (Hsingle : forall q, q ∈ ls -> ~ q ∈ lr /\ forall u l, pls !! u = Some l -> ~ q ∈ l).
  { intros q Hq. apply occurs_in in Hq. pose proof (bal_seat _ _ _ (hd_balanced _ _ _ _ _ Hm q)) as Bs.
    pose proof (count_nonneg Seat q acts). unfold chained in Bs. pose proof (occurs_nonneg q lr).
    pose proof (tally_nonneg (occurs q) pls (occurs_nonneg q)). split; [intros H2%occurs_in; lia|].
    intros u l Hu H2%occurs_in. pose proof (tally_ge (occurs q) pls u l (occurs_nonneg q) Hu). lia. }
  assert (Hn0 : h' !! r0 = None).
  { rewrite Hout; [done|]. intros Hq. destruct (chain_alive _ _ _ r0 Cs Hq). congruence. }
  exists [], lr, (<[t:=rev ls]> pls ++ replicate (length (@nil activity)) []).
  split; [|by rewrite queue_spawn, (queue_set t _ [] lr [] (rev ls) Ha Hl), (queue_here t _ [] Ha Hl), app_nil_r].
  apply (transition_ok spare m ls lr pls Hm t UnlockExchange (UnlockWalk Fifo p) [] r0). change (length []) with O.
  constructor; near; rewrite ?Es, ?Hc; try done; try lia.
  - by rewrite app_nil_r.
  - repeat constructor; auto.
  - intros q _. destruct (decide (q ∈ ls)) as [Hq|Hq]; [right|left; by apply Hout].
    destruct (chain_alive _ _ _ q Cs Hq) as [w Hw]. destruct (Hin q w Hq Hw) as [n Hn]. split; [|by exists w, n].
    apply chained_in. by left.
  - change O with (length (@nil activity)). apply (chained_move m _ ls lr pls [] lr t UnlockExchange (UnlockWalk Fifo p)); try done; near.
    + by eapply hd_chained.
    + by rewrite app_nil_r.
    + eapply chain_frame; [|exact Cr]. intros q w Hq Hw. destruct (Hrec q w Hw) as (w' & Hw' & Hn). exists w'. split; [done|].
      apply Hn. intros Hq'. by destruct (Hsingle q Hq').
    + split; [by apply chains_one|done].
    + intros u l q w _ Hu Hq Hw. destruct (Hrec q w Hw) as (w' & Hw' & Hn). exists w'. split; [done|].
      apply Hn. intros Hq'. destruct (Hsingle q Hq') as [_ Hs]. by apply (Hs u l).
  - rewrite Hch0, Hn0. constructor; rewrite ?(count_absent _ r0 Hno); weigh; done || lia.
  - rewrite Hn0. done.
  - apply all_of; [near; done|constructor].
  - left. unfold granted_now. by rewrite Hn0, Hr0.
  - apply in_flight_same. lia.
Qed.

(** *** Cancellation, and what coroutines begin *)

Lemma cancel_result_ok t x r : acts !! t = Some (CancelResult r) -> fine (activity_step t x m (CancelResult r)).
Proof using Hm Hdr Hcalm.
  intros Ha. cbn [activity_step cancel_step]. enter r Ha. store Ha Hw (@nil activity) (set_result (Failed sync_lock_aborted) w).
  right; left. split; [done|lia].
Qed.

Lemma on_cancel_ok t : fine (mutex_step m (OnCancel t)).
Proof using Hm Hdr Hcalm.
  cbn [mutex_step]. destruct (acts !! t) as [a|] eqn:Ha; [|done]. destruct a; try done. enter r Ha.
  all: destruct (phase_ w) eqn:P; try done; cbn [fine]; try (by exists ls, lr, pls).
  replace (spawn _ _) with (spawn (CancelResult r) (put_record r (set_phase cancelled w) (go t (Parked r) m)))
    by (unfold spawn, put_record, go; cbn; by rewrite list_insert_id).
  store Ha Hw [CancelResult r] (set_phase cancelled w).
Qed.

Lemma begin_ok t : fine (mutex_step m (Lock t)) /\ fine (mutex_step m (Unlock t)).
Proof using Hm.
  assert (Hsp := hd_spare _ _ _ _ _ Hm). assert (Hun := hd_unlocked _ _ _ _ _ Hm).
  cbn [mutex_step]. destruct (acts !! t) as [a|] eqn:Ha; [|done].
  split; destruct a; try done; cbn [fine]; quiet Ha.
Qed.

Lemma arrive_ok : fine (mutex_step m Arrive).
Proof using Hm.
  cbn [mutex_step fine]. exists ls, lr, (pls ++ replicate 1 []). split; [|by rewrite queue_spawn].
  pose proof (hd_chained _ _ _ _ _ Hm) as [C1 C2 C3].
  assert (Hk : forall k r, count k r (acts ++ [Idle]) = count k r acts).
  { intros k r. unfold count. rewrite tally_snoc, at_subject_none by done. lia. }
  assert (Hlook : forall u a, (acts ++ [Idle]) !! u = Some a -> a = Idle \/ acts !! u = Some a).
  { intros u a [H|[_ H]]%lookup_app_Some; [auto|]. destruct (u - length acts)%nat; [|done]. injection H as <-. auto. }
  constructor; cbn [spawn with_activities activities records state_ next_drain_head_ active_holders_count_ in_flight_resumers_].
  - constructor; try done. apply Forall2_app; [done|]. by repeat constructor.
  - intros r. rewrite chained_spawn. pose proof (hd_balanced _ _ _ _ _ Hm r) as [H1 H2 H3 H4 H5 H6 H7 H8].
    constructor; by rewrite ?Hk.
  - intros u a r w Hu Hs Hw. rewrite chained_spawn. destruct (Hlook u a Hu) as [-> |Hu']; [done|]. by eapply (hd_knows _ _ _ _ _ Hm).
  - intros u a Hu. destruct (Hlook u a Hu) as [-> |Hu']; [done|]. by apply (hd_aware _ _ _ _ _ Hm u).
  - rewrite tally_snoc. pose proof (hd_token _ _ _ _ _ Hm). cbn [token]. lia.
  - apply (hd_spare _ _ _ _ _ Hm).
  - rewrite tally_snoc, (hd_holders _ _ _ _ _ Hm). cbn [counted_holder]. lia.
  - rewrite tally_snoc, (hd_resumers _ _ _ _ _ Hm). f_equal. cbn [counted_resumer]. lia.
  - apply (hd_unlocked _ _ _ _ _ Hm).
Qed.

End Steps.
