(* ===== verification/MutexRuns.v ===== *)
(** Runs of [async_mutex] ([include/fixpp/core/sync/async_mutex.hpp]) in which nobody drains: no
    run breaks, one coroutine at most has the lock, waiters are served in the order in which they
    came, and none is left behind. *)
From stdpp Require Import gmap.
From S2P Require Import Prelude Errors Tally AsyncMutex MutexLedger MutexSteps.
Local Open Scope Z_scope.

(** ** Runs *)

(** What a run comes to; an action that is not enabled is passed over. *)
Fixpoint mutex_run (m : async_mutex) (l : list action) : outcome :=
  match l with
  | [] => Steps m
  | act :: l =>
      match mutex_step m act with
      | Waits => mutex_run m l
      | Breaks => Breaks
      | Steps m' => mutex_run m' l
      end
  end.

Definition no_drain (act : action) : Prop := match act with CancelAndDrain _ => False | _ => True end.

(** Who has a guard that owns the mutex: in hand, or on its way out of [lock]. *)
Definition has_guard (a : activity) : Prop :=
  match a with Owner | Resumed _ Guard | Detached _ Guard => True | _ => False end.

(** Activities with no step of their own to make. *)
Definition resting (a : activity) : Prop :=
  match a with Idle | Refused _ | Owner | Parked _ | Finished => True | _ => False end.

(** The records of a chain. *)
Fixpoint chain_list (fuel : nat) (h : gmap nat waiter_record) (p : option nat) : list nat :=
  match p, fuel with
  | Some r, S fuel => match h !! r with Some w => r :: chain_list fuel h (next_ w) | None => [] end
  | _, _ => []
  end.

(** The queue: what an [unlock] left, what one has in hand, and what came since, the newest first. *)
Definition waiting (m : async_mutex) : list nat :=
  let list_of := chain_list (size (records m)) (records m) in
  list_of (next_drain_head_ m) ++ concat (map (fun a => concat (map list_of (private a))) (activities m)) ++
  rev (list_of (state_head (state_ m))).

(** What an action does to the queue: a lock may join it at the end; an [unlock] takes the head,
    which it grants or, cancelled as it is, skips. *)
Definition served (m : async_mutex) (act : action) (q q' : list nat) : Prop :=
  match act with
  | Act t _ =>
      match activities m !! t with
      | Some (LockPush r _) => q' = q \/ q' = q ++ [r]
      | Some (UnlockSkip _ r | UnlockGranted r) => q = r :: q'
      | _ => q' = q
      end
  | _ => q' = q
  end.

(** ** Lemmas *)

(** *** Nobody drains *)

Definition undrained (m : async_mutex) : Prop := draining_ m = false /\ Forall calm (activities m).

Definition stays (o : outcome) : Prop := match o with Steps m' => undrained m' | _ => True end.

Lemma undrained_go t a m : calm a -> undrained m -> undrained (go t a m).
Proof. intros Ha [Hd Hc]. split; [done|]. by apply Forall_insert. Qed.

Lemma undrained_spawn a m : calm a -> undrained m -> undrained (spawn a m).
Proof. intros Ha [Hd Hc]. split; [done|]. apply Forall_app. by repeat constructor. Qed.

Lemma stays_at_record r m k : (forall w, stays (k w)) -> stays (at_record r m k).
Proof. intros H. unfold at_record. destruct (records m !! r); [apply H|done]. Qed.

Lemma stays_add_ref r m k : (forall m, undrained m -> stays (k m)) -> undrained m -> stays (add_ref r m k).
Proof. intros H Hm. apply stays_at_record. intros w. by apply H. Qed.

Lemma stays_release_ref r m k : (forall m, undrained m -> stays (k m)) -> undrained m -> stays (release_ref r m k).
Proof. intros H Hm. apply stays_at_record. intros w. destruct (_ =? 1); by apply H. Qed.

Lemma stays_reversed m p k : (forall m p, undrained m -> stays (k m p)) -> undrained m -> stays (reversed m p k).
Proof. intros H Hm. unfold reversed. destruct (reverse_chain _ _ _ _) as [[h q]|]; [by apply H|done]. Qed.

Ltac stay :=
  intros; repeat case_match; try done; cbn [stays];
  repeat first
    [ assumption
    | apply stays_at_record; intros
    | apply stays_add_ref; intros
    | apply stays_release_ref; intros
    | apply stays_reversed; intros
    | apply undrained_go; [by repeat case_match|]
    | apply undrained_spawn; [done|]
    | progress (repeat case_match; cbn [stays]; try done) ].

Lemma schedule_undrained t r s at_ after m : undrained m -> (forall s, calm (at_ s)) ->
  (forall m, undrained m -> undrained (after m)) -> stays (schedule_step t r s at_ after m).
Proof. intros Hm Ha Hk. destruct s; cbn [schedule_step]; stay; auto. Qed.

Lemma step_undrained m act : undrained m -> no_drain act -> stays (mutex_step m act).
Proof.
  intros Hm Hn. destruct act; try done; cbn [mutex_step]; stay.
  pose proof (Forall_lookup_1 _ _ _ _ (proj2 Hm) H) as Ha.
  destruct a; try done; cbn [activity_step lock_step resume_step unlock_step cancel_step];
    try (apply schedule_undrained; [done..|]); stay.
Qed.

(** *** The queue *)

Lemma chain_list_spec h l : forall fuel p, chain h p l -> (length l <= fuel)%nat -> chain_list fuel h p = l.
Proof.
  induction l as [|r l IH]; intros fuel p; cbn [chain]; [intros ->; by destruct fuel|].
  intros [-> H] Hf. destruct (h !! r) as [w|] eqn:E; [|done]. destruct fuel as [|fuel]; [cbn in Hf; lia|].
  cbn [chain_list]. rewrite E. f_equal. apply IH; [done|]. cbn in Hf. lia.
Qed.

Lemma chains_list_spec h fuel ps : forall l, chains h ps l -> (length l <= fuel)%nat -> concat (map (chain_list fuel h) ps) = l.
Proof.
  induction ps as [|p ps IH]; intros l; cbn [chains map concat]; [done|]. intros (l1 & l2 & -> & H1 & H2) Hf.
  rewrite length_app in Hf. rewrite (chain_list_spec h l1), (IH l2) by (done || lia). done.
Qed.

Lemma occurs_concat (q : nat) pls : occurs q (concat pls) = tally (occurs q) pls.
Proof. induction pls as [|p pls IH]; [done|]. cbn [concat]. rewrite occurs_app, IH. done. Qed.

Lemma occurs_queue q ls lr pls : occurs q (queue_of ls lr pls) = chained q ls lr pls.
Proof. unfold queue_of, chained. rewrite !occurs_app, occurs_rev, occurs_concat. lia. Qed.

Lemma waiting_spec spare q m : serving spare q m -> waiting m = q /\ NoDup q.
Proof.
  intros (ls & lr & pls & Hm & ->). pose proof (hd_chained _ _ _ _ _ Hm) as [Cs Cr Cp].
  assert (Hb : forall l, (forall q, occurs q l <= chained q ls lr pls) -> (length l <= size (records m))%nat).
  { intros l Hl. by apply (listed_bound _ _ _ _ _ Hm). }
  split; [|apply (listed_bound _ _ _ _ _ Hm); intros q; by rewrite occurs_queue].
  unfold waiting, queue_of. rewrite (chain_list_spec _ lr), (chain_list_spec _ ls); try done.
  - f_equal. f_equal. assert (Hp : forall t l, pls !! t = Some l -> (length l <= size (records m))%nat).
    { intros t l Hl. apply Hb. intros q. by apply (private_occurs ls lr pls t). }
    clear Cs Cr Hb Hm. induction Cp as [|a l acts pls [Ha _] _ IH]; [done|]. cbn [map concat]. f_equal.
    + apply chains_list_spec; [done|]. by apply (Hp O).
    + apply IH. intros t l' Hl'. by apply (Hp (S t)).
  - apply Hb. intros q. unfold chained. pose proof (occurs_nonneg q lr). pose proof (tally_nonneg _ pls (occurs_nonneg q)). lia.
  - apply Hb. intros q. unfold chained. pose proof (occurs_nonneg q ls). pose proof (tally_nonneg _ pls (occurs_nonneg q)). lia.
Qed.

(** *** Steps *)

(** A step that does not break, and does to the queue what it may. *)
Definition serves (spare : Z) (m : async_mutex) (act : action) (q : list nat) (o : outcome) : Prop :=
  match o with Waits => True | Breaks => False | Steps m' => exists q', serving spare q' m' /\ served m act q q' end.

Lemma fine_serves spare m act ls lr pls o : served m act (queue_of ls lr pls) (queue_of ls lr pls) ->
  fine spare ls lr pls o -> serves spare m act (queue_of ls lr pls) o.
Proof. intros Hs Hf. destruct o; try done. by exists (queue_of ls lr pls). Qed.

Lemma step_serves spare q m act : serving spare q m -> undrained m -> no_drain act -> serves spare m act q (mutex_step m act).
Proof.
  intros (ls & lr & pls & Hm & ->) [Hd Hc] Hn. destruct act as [|t|t|t|t|t x].
  - apply fine_serves; [done|]. by apply arrive_ok.
  - apply fine_serves; [done|]. by apply begin_ok.
  - apply fine_serves; [done|]. by apply begin_ok.
  - done.
  - apply fine_serves; [done|]. by apply on_cancel_ok.
  - cbn [mutex_step]. destruct (activities m !! t) as [a|] eqn:Ha; [|done].
    pose proof (Forall_lookup_1 _ _ _ _ Hc Ha) as Hca.
    assert (Hsame : fine spare ls lr pls (activity_step t x m a) ->
      match a with LockPush _ _ | UnlockSkip _ _ | UnlockGranted _ => False | _ => True end ->
      serves spare m (Act t x) (queue_of ls lr pls) (activity_step t x m a)).
    { intros Hf Hk. apply fine_serves; [|done]. cbn [served]. rewrite Ha. by destruct a. }
    destruct a; try done; try (apply Hsame; [|done]).
    all: try match goal with s : schedule |- _ => destruct s end.
    all: try match goal with |- fine _ _ _ _ (activity_step _ _ _ (LockTry _ ?w)) => destruct w end.
    all: try match goal with |- fine _ _ _ _ (activity_step _ _ _ (UnlockWalk _ ?p)) => destruct p end.
    all: first
      [ by eapply lock_quiet | by eapply unlock_quiet | by eapply lock_try_ok | by eapply lock_store | by eapply lock_release
      | by eapply lock_alloc_ok | by eapply schedule_addref | by eapply schedule_count_in | by eapply schedule_post
      | by eapply runner_ok | by eapply resume_ok | by eapply count_out_ok | by eapply unlock_relink | by eapply unlock_walk_ok
      | by eapply unlock_grant_ok | by eapply unlock_splice_ok | by eapply splice_cas_ok | by eapply unlock_release_ok
      | by eapply unlock_exchange_ok | by eapply cancel_result_ok | idtac ].
    + destruct (lock_push_ok spare m ls lr pls Hm Hd Hc t x r old Ha) as [Hf|(m' & E & Hs)].
      * apply fine_serves; [|done]. cbn [served]. rewrite Ha. by left.
      * change (serves spare m (Act t x) (queue_of ls lr pls) (lock_step t x m (LockPush r old))). rewrite E.
        exists (queue_of ls lr pls ++ [r]). split; [done|]. cbn [served]. rewrite Ha. by right.
    + destruct (unlock_skip_ok spare m ls lr pls Hm Hd Hc t x w r Ha) as (m' & q & E & Hs & Hq).
      change (serves spare m (Act t x) (queue_of ls lr pls) (unlock_step t x m (UnlockSkip w r))). rewrite E.
      exists q. split; [done|]. cbn [served]. by rewrite Ha.
    + destruct (unlock_granted_ok spare m ls lr pls Hm Hd Hc t x r Ha) as (m' & q & E & Hs & Hq).
      change (serves spare m (Act t x) (queue_of ls lr pls) (unlock_step t x m (UnlockGranted r))). rewrite E.
      exists q. split; [done|]. cbn [served]. by rewrite Ha.
Qed.

(** *** Runs *)

Lemma serving_init : serving 0 [] async_mutex_init.
Proof.
  exists [], [], []. split; [|done]. by constructor.
Qed.

Lemma run_serves l : forall q m, serving 0 q m -> undrained m -> Forall no_drain l ->
  exists m' q', mutex_run m l = Steps m' /\ serving 0 q' m' /\ undrained m'.
Proof.
  induction l as [|act l IH]; intros q m Hm Hu Hn; [by exists m, q|]. apply Forall_cons in Hn as [Hact Hn].
  pose proof (step_serves 0 q m act Hm Hu Hact) as Hs. pose proof (step_undrained m act Hu Hact) as Hu'.
  cbn [mutex_run]. destruct (mutex_step m act) as [| |m']; [by apply (IH q)|done|].
  destruct Hs as (q' & Hs & _). by apply (IH q').
Qed.

(** A run in which nobody drains comes to a mutex the invariant holds of. *)
Lemma reached l m : Forall no_drain l -> mutex_run async_mutex_init l = Steps m -> exists q, serving 0 q m /\ undrained m.
Proof.
  intros Hn E. destruct (run_serves l [] async_mutex_init serving_init) as (m' & q & E' & Hs & Hu); [done..|].
  rewrite E in E'. injection E' as <-. by exists q.
Qed.

Lemma guard_counted h a : has_guard a -> token h a = 1 /\ counted_holder h a = 1.
Proof. destruct a; try done; by destruct res. Qed.

Definition plain : answers := Answers false None false.

Lemma working_steps t m a : calm a -> ~ resting a -> activity_step t plain m a <> Waits.
Proof.
  intros Hc Hr. destruct a; try done; try (destruct Hr; done); cbn;
    unfold schedule_step, add_ref, release_ref, reversed, at_record; repeat case_match; congruence.
Qed.

(** Of activities at rest, only an owner has the lock, and only a suspended one has a reference. *)
Lemma resting_weighs h r a : resting a -> (token h a = 1 -> a = Owner) /\ counted_resumer a = 0 /\ 
  at_subject Creator r a = 0 /\ at_subject Resumer r a = 0 /\ at_subject Member r a = 0 /\ at_subject Completer r a = 0 /\
  (a <> Parked r -> at_subject Awaiter r a = 0) /\ private a = [] /\ (a <> Owner -> token h a = 0 /\ counted_holder h a = 0).
Proof.
  intros Hr. unfold at_subject. destruct a; try done; cbn; repeat case_match; split_and!; done || congruence.
Qed.

(** A count of what no activity at rest has. *)
Lemma resting_count k r l : Forall resting l -> (forall a, resting a -> at_subject k r a = 0) -> count k r l = 0.
Proof.
  intros Hl Hk. induction Hl as [|a l Ha _ IH]; [done|]. unfold count in *. cbn. fold (tally (at_subject k r) l).
  by rewrite IH, Hk.
Qed.

Section Rest.
Context (m : async_mutex) (ls lr : list nat) (pls : list (list nat)).
Hypothesis Hm : holding 0 m ls lr pls.
Hypothesis Hrest : Forall resting (activities m).

(** At rest every chained record is in the lock word or the residual chain. *)
Lemma rest_chained r : chained r ls lr pls = occurs r ls + occurs r lr.
Proof using Hm Hrest.
  unfold chained. enough (tally (occurs r) pls = 0) by lia.
  pose proof (ch_private _ _ _ _ (hd_chained _ _ _ _ _ Hm)) as Hp. clear Hm. revert Hrest.
  induction Hp as [|a l acts ps [Ho _] _ IH]; [done|]. intros [Ha Hr]%Forall_cons. cbn. fold (tally (occurs r) ps).
  rewrite (IH Hr). assert (E : private a = []) by (by destruct a). rewrite E in Ho. cbn in Ho. by subst l.
Qed.

Lemma rest_parked t r : activities m !! t = Some (Parked r) -> 0 < chained r ls lr pls.
Proof using Hm Hrest.
  intros Ha. destruct (entered_at 0 m ls lr pls Hm t _ r Ha eq_refl ltac:(cbn; lia)) as (w & Hw & _ & K). apply K.
  pose proof (bal_pending _ _ _ (hd_balanced _ _ _ _ _ Hm r)) as B. rewrite Hw in B. cbn in B.
  assert (Hc : count Completer r (activities m) = 0).
  { apply resting_count; [done|]. intros a Hra. by apply (resting_weighs (records m) r a). }
  pose proof (foot_count m Pending r t _ Ha ltac:(by right)) as Hp. cbn in Hp. destruct (decide _); [done|lia].
Qed.

(** With nobody owning the lock, nothing of it is left. *)
Lemma rest_unowned : (forall t, activities m !! t <> Some Owner) ->
  state_ m = not_locked /\ next_drain_head_ m = None /\ records m = ∅ /\ active_holders_count_ m = 0 /\
  in_flight_resumers_ m = 0 /\ forall t r, activities m !! t <> Some (Parked r).
Proof using Hm Hrest.
  intros Hno. assert (Hw : forall t a, activities m !! t = Some a -> token (records m) a = 0 /\ counted_holder (records m) a = 0).
  { intros t a Ha. apply (resting_weighs (records m) O a); [by eapply Forall_lookup_1|]. intros ->. by apply (Hno t). }
  assert (Hz : tally (fun _ : activity => 0) (activities m) = 0) by (clear; induction (activities m); done).
  pose proof (hd_token _ _ _ _ _ Hm) as Ht. rewrite (tally_ext _ (fun _ => 0) (activities m)) in Ht by (intros t a Ha; by apply (Hw t a)).
  assert (Hs : state_ m = not_locked) by (destruct (state_ m); [done|cbn in Ht; lia]).
  pose proof (hd_unlocked _ _ _ _ _ Hm Hs) as Hn. pose proof (hd_chained _ _ _ _ _ Hm) as [Cs Cr _].
  rewrite Hs in Cs. rewrite Hn in Cr. apply chain_none in Cs. apply chain_none in Cr.
  assert (Hch : forall r, chained r ls lr pls = 0) by (intros r; rewrite rest_chained, Cs, Cr; done).
  assert (Hpark : forall t r, activities m !! t <> Some (Parked r)).
  { intros t r Ha. pose proof (rest_parked t r Ha). rewrite Hch in *. lia. }
  split_and!; try done.
  - apply map_empty. intros r. destruct (records m !! r) as [w|] eqn:E; [|done]. exfalso.
    pose proof (refcount_bound 0 m ls lr pls Hm r w E). pose proof (bal_refs _ _ _ (hd_balanced _ _ _ _ _ Hm r)) as B.
    rewrite E, Hch in B. unfold count in B. rewrite !(tally_ext (at_subject _ r) (fun _ => 0) (activities m)) in B; [lia|..].
    all: intros t a Ha; apply (resting_weighs (records m) r a); [by eapply Forall_lookup_1|..]; intros ->; by eapply Hpark.
  - rewrite (hd_holders _ _ _ _ _ Hm), (tally_ext _ (fun _ => 0) (activities m)); [done|]. intros t a Ha. by apply (Hw t a).
  - rewrite (hd_resumers _ _ _ _ _ Hm), (tally_ext _ (fun _ => 0) (activities m)), Hz; [done|].
    intros t a Ha. apply (resting_weighs (records m) O a). by eapply Forall_lookup_1.
Qed.
End Rest.

Lemma owner_or_none (l : list activity) : (exists t, l !! t = Some Owner) \/ forall t, l !! t <> Some Owner.
Proof.
  induction l as [|a l [[t Ht]|IH]]; [by right|left; by exists (S t)|].
  assert (a = Owner \/ a <> Owner) as [-> |Ha] by (destruct a; auto). { left. by exists O. }
  right. intros [|t]; [cbn; congruence|apply IH].
Qed.

(** ** Properties *)

(** C25: however the steps of the coroutines, of the posted runners and of cancellations interleave,
    a run in which nobody drains never breaks (no access to a destroyed record, no
    [std::terminate]), and at any time one coroutine at most has a guard that owns the mutex; then
    the lock word says so and one holder is counted. *)
Theorem mutex_excludes l : Forall no_drain l ->
  exists m, mutex_run async_mutex_init l = Steps m /\
    (forall t u a b, activities m !! t = Some a -> activities m !! u = Some b -> has_guard a -> has_guard b -> t = u) /\
    (forall t a, activities m !! t = Some a -> has_guard a -> state_ m <> not_locked /\ active_holders_count_ m = 1).
Proof.
  intros Hn. destruct (run_serves l [] async_mutex_init serving_init) as (m & q & E & (ls & lr & pls & Hm & _) & _); [done..|].
  exists m. split; [done|]. split.
  - intros t u a b Ha Hb Ga Gb. destruct (decide (t = u)) as [|Hne]; [done|].
    destruct (tokens 0 m ls lr pls Hm t a Ha) as (_ & _ & _ & T). specialize (T u b (not_eq_sym Hne) Hb).
    destruct (guard_counted (records m) a Ga), (guard_counted (records m) b Gb). lia.
  - intros t a Ha Ga. destruct (tokens 0 m ls lr pls Hm t a Ha) as (T1 & T2 & T3 & _).
    destruct (guard_counted (records m) a Ga) as [G1 G2]. split; [|lia]. intros E0. rewrite E0 in T3. cbn in T3. lia.
Qed.

(** C26: in a run without a drain the waiters are a queue without duplicates: an access of a
    lock joins its record to the end or leaves the queue as it is, [unlock] takes the head, to
    grant it or, cancelled, to skip it, and no other access of such a run changes it, whichever
    of the two chains a record is on at the time.  ([cancel_and_drain] empties the queue; [drain_step] is not covered.) *)
Theorem mutex_is_fifo l m act m' : Forall no_drain l -> no_drain act ->
  mutex_run async_mutex_init l = Steps m -> mutex_step m act = Steps m' ->
  NoDup (waiting m) /\ served m act (waiting m) (waiting m').
Proof.
  intros Hl Hact E Es. destruct (reached l m Hl E) as (q & Hs & Hu). pose proof (step_serves 0 q m act Hs Hu Hact) as H.
  rewrite Es in H. destruct H as (q' & Hs' & Hserved).
  destruct (waiting_spec 0 q m Hs) as [-> Hnd]. by destruct (waiting_spec 0 q' m' Hs') as [-> _].
Qed.

(** C27: in a run without a drain nobody is left behind.  An activity that is neither
    at rest nor suspended always has its next access to make; and once none is left to make, either a coroutine owns the mutex and
    every suspended one is in its queue, or nobody is suspended, the mutex is unlocked and
    counts nobody, and every record has been destroyed. *)
Theorem mutex_leaves_none_waiting l m : Forall no_drain l -> mutex_run async_mutex_init l = Steps m ->
  (forall t a, activities m !! t = Some a -> ~ resting a -> exists m', mutex_step m (Act t plain) = Steps m') /\
  (Forall resting (activities m) ->
   (exists t, activities m !! t = Some Owner /\ forall u r, activities m !! u = Some (Parked r) -> r ∈ waiting m) \/
   (state_ m = not_locked /\ next_drain_head_ m = None /\ records m = ∅ /\ active_holders_count_ m = 0 /\
    in_flight_resumers_ m = 0 /\ forall u r, activities m !! u <> Some (Parked r))).
Proof.
  intros Hl E. destruct (reached l m Hl E) as (q & Hs & Hu). split.
  - intros t a Ha Hr. pose proof (step_serves 0 q m (Act t plain) Hs Hu I) as H. cbn [mutex_step] in H |- *. rewrite Ha in H |- *.
    pose proof (working_steps t m a (Forall_lookup_1 _ _ _ _ (proj2 Hu) Ha) Hr).
    destruct (activity_step t plain m a) as [| |m']; [done..|]. by exists m'.
  - intros Hrest. destruct (waiting_spec 0 q m Hs) as [-> _]. destruct Hs as (ls & lr & pls & Hm & ->).
    destruct (owner_or_none (activities m)) as [[t Ht]|Hno]; [left|right; by apply (rest_unowned m ls lr pls)].
    exists t. split; [done|]. intros u r Hp. apply occurs_in. rewrite occurs_queue. by apply (rest_parked m ls lr pls Hm Hrest u).
Qed.

(** ** Runs to see *)

Definition acts_of (t n : nat) : list action := repeat (Act t plain) n.
Definition locks_at (t r : nat) : list action :=
  Lock t :: acts_of t 2 ++ [Act t (Answers false (Some r) false)] ++ acts_of t 4.

(** Three coroutines: the first has the lock, the others wait, and the second is cancelled. *)
Definition contended : list action :=
  [Arrive; Arrive; Arrive; Lock 0%nat] ++ acts_of 0 3 ++ locks_at 1 0 ++ locks_at 2 1 ++ acts_of 3 1 ++ acts_of 4 1 ++ [OnCancel 1%nat].

Definition outcome_of (l : list action) (P : async_mutex -> Prop) : Prop :=
  match mutex_run async_mutex_init l with Steps m => P m | _ => False end.

Definition owner_at (t : nat) (m : async_mutex) : Prop := activities m !! t = Some Owner.

Lemma outcome_at l m P : mutex_run async_mutex_init l = Steps m -> outcome_of l P -> P m.
Proof. unfold outcome_of. by intros ->. Qed.

Lemma contended_undrained : Forall no_drain contended.
Proof. vm_compute. repeat constructor. Qed.

Lemma mutex_excludes_witness :
  exists m, mutex_run async_mutex_init contended = Steps m /\
    activities m !! 0%nat = Some Owner /\ state_ m <> not_locked /\ active_holders_count_ m = 1.
Proof.
  destruct (mutex_excludes contended) as (m & E & _ & H); [exact contended_undrained|].
  exists m. split; [exact E|]. pose proof (outcome_at contended m (owner_at 0) E ltac:(vm_compute; reflexivity)) as Hm.
  split; [exact Hm|]. exact (H 0%nat Owner Hm I).
Defined.

(** The owner unlocks, and comes to the record of the cancelled waiter. *)
Definition unlocking : list action := contended ++ Unlock 0%nat :: acts_of 0 6.

Lemma unlocking_undrained : Forall no_drain unlocking.
Proof. vm_compute. repeat constructor. Qed.

Definition steps_to (act : action) (P : async_mutex -> async_mutex -> Prop) (m : async_mutex) : Prop :=
  match mutex_step m act with Steps m' => P m m' | _ => False end.

Lemma steps_to_step act P m : steps_to act P m -> exists m', mutex_step m act = Steps m' /\ P m m'.
Proof. unfold steps_to. destruct (mutex_step m act) as [| |m']; try done. by exists m'. Qed.

Definition queues (q q' : list nat) (m m' : async_mutex) : Prop := waiting m = q /\ waiting m' = q'.

Lemma run_total l : Forall no_drain l -> exists m, mutex_run async_mutex_init l = Steps m.
Proof. intros Hn. destruct (run_serves l [] async_mutex_init serving_init) as (m & q & E & _); [done..|]. by exists m. Qed.

Lemma mutex_is_fifo_witness : exists m m', mutex_run async_mutex_init unlocking = Steps m /\
  waiting m = [0; 1]%nat /\ waiting m' = [1]%nat /\ served m (Act 0%nat plain) (waiting m) (waiting m').
Proof.
  destruct (run_total unlocking unlocking_undrained) as (m & E).
  pose proof (outcome_at unlocking m (steps_to (Act 0%nat plain) (queues [0; 1]%nat [1]%nat)) E
    ltac:(vm_compute; split; reflexivity)) as Hs.
  destruct (steps_to_step _ _ _ Hs) as (m' & E' & Hq & Hq'). exists m, m'. split; [exact E|]. split; [exact Hq|].
  split; [exact Hq'|]. exact (proj2 (mutex_is_fifo unlocking m (Act 0%nat plain) m' unlocking_undrained I E E')).
Defined.

Lemma owner_seen (l : list activity) t : l !! t = Some Owner ->
  existsb (fun a => match a with Owner => true | _ => false end) l = false -> False.
Proof.
  intros Ht. rewrite <- not_true_iff_false. intros Ho. apply Ho, existsb_exists. exists Owner.
  split; [by apply list_elem_of_In, list_elem_of_lookup_2 with t|done].
Qed.

(** Everybody goes on until nothing is left to do: the second coroutine is refused, the third gets
    the lock and gives it back. *)
Definition finished : list action :=
  contended ++ Unlock 0%nat :: acts_of 0 20 ++ acts_of 5 4 ++ acts_of 6 3 ++ acts_of 7 3 ++ acts_of 1 2 ++ acts_of 2 2 ++
  Unlock 2%nat :: acts_of 2 8.

Lemma finished_undrained : Forall no_drain finished.
Proof. vm_compute. repeat constructor. Qed.

Definition at_rest (m : async_mutex) : Prop :=
  Forall resting (activities m) /\ existsb (fun a => match a with Owner => true | _ => false end) (activities m) = false.

Lemma mutex_leaves_none_waiting_witness : exists m, mutex_run async_mutex_init finished = Steps m /\
  state_ m = not_locked /\ records m = ∅ /\ active_holders_count_ m = 0 /\ in_flight_resumers_ m = 0.
Proof.
  destruct (run_total finished finished_undrained) as (m & E).
  destruct (outcome_at finished m at_rest E ltac:(vm_compute; split; [repeat constructor|reflexivity])) as [Hr Ho].
  destruct (mutex_leaves_none_waiting finished m finished_undrained E) as [_ H].
  exists m. split; [exact E|]. destruct (H Hr) as [(t & Ht & _)|(H1 & _ & H2 & H3 & H4 & _)]; [exfalso|auto].
  exact (owner_seen _ t Ht Ho).
Defined.
