(* ===== verification/CompIdAuth.v ===== *)
(** Which CompIDs a certified peer may use, [src/session/compid_authorization_policy.cpp]:
    the principal a certificate stands for, and the bindings of principals to CompIDs.

    The bindings are a map from a principal to the ascending list of its CompIDs.  The
    session's two Logon arms take [authorize] and [authorize_logon] as arguments. *)
From stdpp Require Import gmap.
From S2P Require Import Prelude Errors TextSet SessionState.

(** [fixpp::tls::peer_identity] *)
Record peer_identity := mkPeerIdentity {
  subject_dn : bytes;
  san_dns_names : list bytes;
  san_uris : list bytes;
  leaf_fingerprint : bytes }.

(** ** The principal *)

Definition CN_EQ : bytes := [67; 78; 61].
Definition COMMA : Z := 44.

(** [dn.find("CN=", pos)], on what is left of the name: how much precedes the first match. *)
Fixpoint find_cn (l : bytes) : option Z :=
  if bool_decide (take 3 l = CN_EQ) then Some 0
  else match l with
       | [] => None
       | _ :: l => match find_cn l with Some i => Some (i + 1) | None => None end
       end.

(** The value, up to the next comma. *)
Fixpoint cn_value (l : bytes) : bytes :=
  match l with
  | [] => []
  | c :: l => if c =? COMMA then [] else c :: cn_value l
  end.

Definition cn_boundary (pre : Z) : bool := (pre =? COMMA) || (pre =? 32) || (pre =? 47).

(** [parse_cn_from_dn]; [pos] is where the search goes on.  [None]: out of fuel. *)
Fixpoint parse_cn_loop (fuel : nat) (dn : bytes) (pos : Z) : option bytes :=
  match fuel with
  | O => None
  | S fuel =>
      if zlen dn <=? pos then Some []
      else
        match find_cn (zdrop pos dn) with
        | None => Some []
        | Some i =>
            let found := pos + i in
            if (0 <? found) && negb (cn_boundary (zget dn (found - 1))) then
              parse_cn_loop fuel dn (found + 3)
            else
              let vstart := found + 3 in
              if zlen dn <=? vstart then Some []
              else
                match cn_value (zdrop vstart dn) with
                | [] => parse_cn_loop fuel dn vstart
                | value => Some value
                end
        end
  end.

Definition parse_cn_from_dn (dn : bytes) : option bytes := parse_cn_loop (S (length dn)) dn 0.

Definition kHexChars : bytes :=
  [48; 49; 50; 51; 52; 53; 54; 55; 56; 57; 97; 98; 99; 100; 101; 102].

Definition fingerprint_to_hex (fp : bytes) : bytes :=
  List.concat (List.map (fun b => [zget kHexChars (Z.shiftr b 4); zget kHexChars (Z.land b 15)]) fp).

(** [extract_principal]: the first that is not empty, of CN, the first DNS name and the first
    URI of the certificate; else its fingerprint. *)
Definition extract_principal (p : peer_identity) : option (bytes * principal_source) :=
  match (match subject_dn p with [] => Some [] | dn => parse_cn_from_dn dn end) with
  | None => None
  | Some (c :: cn) => Some (c :: cn, CN)
  | Some [] =>
      match san_dns_names p with
      | (c :: name) :: _ => Some (c :: name, SAN_DNS)
      | _ =>
          match san_uris p with
          | (c :: uri) :: _ => Some (c :: uri, SAN_URI)
          | _ => Some (fingerprint_to_hex (leaf_fingerprint p), SHA256_FINGERPRINT)
          end
      end
  end.

(** ** The bindings *)

Record CompIdAuthorizationPolicy := mkCompIdPolicy {
  bindings : gmap bytes (list bytes);
  logon_validator : option (bytes -> option bytes -> option bytes -> option bool) }.

Definition empty_policy : CompIdAuthorizationPolicy := mkCompIdPolicy ∅ None.

(** [add_binding]; [None]: [std::invalid_argument]. *)
Definition add_binding (principal compid : bytes) (p : CompIdAuthorizationPolicy)
  : option CompIdAuthorizationPolicy :=
  match principal, compid with
  | [], _ => None
  | _, [] => None
  | _, _ =>
      let vec :=
        match bindings p !! principal with
        | None => [compid]
        | Some vec => insert_text vec compid
        end in
      Some (mkCompIdPolicy (<[principal := vec]> (bindings p)) (logon_validator p))
  end.

Definition set_logon_validator (v : option (bytes -> option bytes -> option bytes -> option bool))
    (p : CompIdAuthorizationPolicy) : CompIdAuthorizationPolicy :=
  mkCompIdPolicy (bindings p) v.

(** [authorize]; [None]: out of fuel. *)
Definition authorize (p : CompIdAuthorizationPolicy) (pid : peer_identity) (asserted_compid : bytes)
  : option (result error (bytes * principal_source)) :=
  if bool_decide (bindings p = ∅) then Some (Err session_compid_unauthorized)
  else
    match extract_principal pid with
    | None => None
    | Some (principal, source) =>
        Some
          match bindings p !! principal with
          | None => Err session_compid_unauthorized
          | Some vec =>
              if contains_text vec asserted_compid then Ok (principal, source)
              else Err session_compid_unauthorized
          end
    end.

Definition binding_count (p : CompIdAuthorizationPolicy) : Z := Z.of_nat (size (bindings p)).

Definition has_principal (p : CompIdAuthorizationPolicy) (principal : bytes) : bool :=
  bool_decide (is_Some (bindings p !! principal)).

(** [authorize_logon]: a validator that throws ([None]) refuses. *)
Definition authorize_logon (p : CompIdAuthorizationPolicy) (asserted_compid : bytes)
    (username password : option bytes) : bool :=
  match logon_validator p with
  | Some v => match v asserted_compid username password with Some b => b | None => false end
  | None => true
  end.

(** ** The bindings of a policy *)

Definition policy_ok (p : CompIdAuthorizationPolicy) : Prop :=
  forall k vec, bindings p !! k = Some vec -> ordered vec.

(** The policy binds the CompID to the principal. *)
Definition bound (p : CompIdAuthorizationPolicy) (k c : bytes) : Prop :=
  exists vec, bindings p !! k = Some vec /\ c ∈ vec.

Lemma add_binding_spec p k c : policy_ok p -> k <> [] -> c <> [] ->
  exists p', add_binding k c p = Some p' /\ policy_ok p' /\
    logon_validator p' = logon_validator p /\
    forall k' c', bound p' k' c' <-> bound p k' c' \/ (k' = k /\ c' = c).
Proof.
  intros Hp Hk Hc. unfold add_binding. destruct k as [|k0 k]; [done|]. destruct c as [|c0 c]; [done|].
  set (K := k0 :: k) in *. set (C := c0 :: c) in *. eexists. split; [reflexivity|]. cbn [bindings].
  set (vec' := match bindings p !! K with None => _ | Some _ => _ end).
  assert (Hv : ordered vec' /\ forall y, y ∈ vec' <-> (exists vec, bindings p !! K = Some vec /\ y ∈ vec) \/ y = C).
  { unfold vec'. destruct (bindings p !! K) as [vec|] eqn:E.
    - destruct (insert_ordered vec C (Hp K vec E)) as [Ho Hy]. split; [done|]. intros y. rewrite Hy.
      split; [intros [?|?]; eauto|intros [(v & [= <-] & ?)|?]; auto].
    - split; [by repeat constructor|]. intros y. rewrite list_elem_of_singleton. split; [auto|by intros [(? & ? & _)|?]]. }
  clearbody vec'. destruct Hv as [Ho Hy]. split_and!; [|done|].
  - intros k1 v1. cbn [bindings]. destruct (decide (K = k1)) as [<-|Hne].
    + rewrite lookup_insert_eq. by intros [= <-].
    + rewrite lookup_insert_ne by done. apply Hp.
  - intros k1 c1. unfold bound. cbn [bindings]. destruct (decide (K = k1)) as [<-|Hne].
    + rewrite lookup_insert_eq. split.
      * intros (v & [= <-] & Hin). apply Hy in Hin as [?|?]; auto.
      * intros H. exists vec'. split; [done|]. apply Hy. destruct H as [?|[_ ?]]; auto.
    + rewrite lookup_insert_ne by done. split; [auto|]. intros [?|[-> _]]; done.
Qed.

(** A policy made by binding pairs one after the other. *)
Fixpoint bind_all (l : list (bytes * bytes)) (p : CompIdAuthorizationPolicy)
  : option CompIdAuthorizationPolicy :=
  match l with
  | [] => Some p
  | (k, c) :: l => match add_binding k c p with Some p => bind_all l p | None => None end
  end.

Lemma bind_all_spec l p p' : policy_ok p -> bind_all l p = Some p' ->
  policy_ok p' /\ forall k c, bound p' k c <-> bound p k c \/ (k, c) ∈ l.
Proof.
  revert p. induction l as [|[k c] l IH]; intros p Hp; cbn [bind_all].
  { intros [= <-]. split; [done|]. intros k c. rewrite elem_of_nil. tauto. }
  destruct (add_binding k c p) as [p1|] eqn:E; [|done].
  assert (Hk : k <> [] /\ c <> []) by (by destruct k, c).
  destruct (add_binding_spec p k c Hp (proj1 Hk) (proj2 Hk)) as (p1' & E' & Hp1 & _ & Hb).
  rewrite E in E'. injection E' as <-. intros Hl. destruct (IH p1 Hp1 Hl) as [Hp' Hb']. split; [done|].
  intros k' c'. rewrite Hb', Hb, elem_of_cons. split; [intros [[?|[-> ->]]|?]; auto|].
  intros [?|[[= -> ->]|?]]; auto.
Qed.

Lemma empty_policy_ok : policy_ok empty_policy /\ forall k c, ~ bound empty_policy k c.
Proof. split; [intros k vec H; done|]. intros k c (vec & H & _). done. Qed.

(** ** The principal of a name *)

(** A CN attribute with a value stands at [i]. *)
Definition cn_at (dn : bytes) (i : Z) : Prop :=
  0 <= i /\ take 3 (zdrop i dn) = CN_EQ /\ (i = 0 \/ cn_boundary (zget dn (i - 1)) = true) /\
  cn_value (zdrop (i + 3) dn) <> [].

Lemma find_cn_spec l :
  match find_cn l with
  | Some i => 0 <= i /\ i + 3 <= zlen l /\ take 3 (zdrop i l) = CN_EQ /\
      forall j, 0 <= j < i -> take 3 (zdrop j l) <> CN_EQ
  | None => forall j, 0 <= j -> take 3 (zdrop j l) <> CN_EQ
  end.
Proof.
  induction l as [|c l IH]; cbn [find_cn].
  { case_bool_decide; [done|]. intros j Hj. by rewrite zdrop_ge by (rewrite (zlen_nil (A:=Z)); lia). }
  case_bool_decide as E.
  { split_and!; [lia| |exact E|lia]. apply (f_equal zlen) in E. unfold zlen in *.
    rewrite length_take in E. change (Z.of_nat (length CN_EQ)) with 3 in E. lia. }
  assert (Hs : forall j, 0 < j -> zdrop j (c :: l) = zdrop (j - 1) l).
  { intros j Hj. unfold zdrop. replace (Z.to_nat j) with (S (Z.to_nat (j - 1))) by lia. done. }
  destruct (find_cn l) as [i|].
  - destruct IH as (Hi & Hl & He & Hn). rewrite zlen_cons. split_and!; [lia|lia| |].
    + rewrite Hs by lia. by replace (i + 1 - 1) with i by lia.
    + intros j Hj. destruct (decide (j = 0)) as [->|]; [done|]. rewrite Hs by lia. apply Hn. lia.
  - intros j Hj. destruct (decide (j = 0)) as [->|]; [done|]. rewrite Hs by lia. apply IH. lia.
Qed.

(** Two matches are three apart: the text does not overlap itself. *)
Lemma cn_apart l k : take 3 l = CN_EQ -> 0 < k < 3 -> take 3 (zdrop k l) <> CN_EQ.
Proof.
  intros H Hk. destruct l as [|a [|b [|c l]]]; try done. cbn in H. injection H as -> -> ->.
  assert (k = 1 \/ k = 2) as [-> | ->] by lia; unfold zdrop; cbn; destruct l as [|? [|]]; done.
Qed.

(** The loop finds the first attribute from its position on, and ends. *)
Lemma parse_cn_loop_spec fuel dn pos : 0 <= pos -> (0 < fuel)%nat -> zlen dn - pos < Z.of_nat fuel ->
  exists cn, parse_cn_loop fuel dn pos = Some cn /\
  ((cn = [] /\ forall i, pos <= i -> ~ cn_at dn i) \/
   exists i, pos <= i /\ cn_at dn i /\ cn = cn_value (zdrop (i + 3) dn) /\
     forall j, pos <= j < i -> ~ cn_at dn j).
Proof.
  revert pos. induction fuel as [|fuel IH]; intros pos Hp Hf0 Hf; [lia|]. cbn [parse_cn_loop].
  destruct (zlen dn <=? pos) eqn:E1.
  { eexists. split; [done|]. left. split; [done|]. intros i Hi (_ & Hc & _).
    rewrite zdrop_ge in Hc by lia. done. }
  pose proof (find_cn_spec (zdrop pos dn)) as Hfind.
  destruct (find_cn (zdrop pos dn)) as [i|].
  2:{ eexists. split; [done|]. left. split; [done|]. intros i Hi (_ & Hc & _).
      apply (Hfind (i - pos)); [lia|]. rewrite zdrop_drop by lia. by replace (pos + (i - pos)) with i by lia. }
  destruct Hfind as (Hi & Hl & He & Hn). rewrite zdrop_drop in He by lia. rewrite zlen_drop in Hl by lia.
  set (found := pos + i) in *.
  assert (Hbefore : forall j, pos <= j < found -> ~ cn_at dn j).
  { intros j Hj (_ & Hc & _). apply (Hn (j - pos)); [lia|]. rewrite zdrop_drop by lia.
    by replace (pos + (j - pos)) with j by lia. }
  assert (Hskip : ~ cn_at dn found -> forall j, pos <= j < found + 3 -> ~ cn_at dn j).
  { intros Hno j Hj. destruct (Z.lt_ge_cases j found); [apply Hbefore; lia|].
    destruct (decide (j = found)) as [->|]; [done|]. intros (_ & Hc & _).
    apply (cn_apart (zdrop found dn) (j - found) He); [lia|]. rewrite zdrop_drop by lia.
    by replace (found + (j - found)) with j by lia. }
  assert (Hrec : ~ cn_at dn found -> exists cn, parse_cn_loop fuel dn (found + 3) = Some cn /\
    ((cn = [] /\ forall i, pos <= i -> ~ cn_at dn i) \/
     exists i, pos <= i /\ cn_at dn i /\ cn = cn_value (zdrop (i + 3) dn) /\
       forall j, pos <= j < i -> ~ cn_at dn j)).
  { intros Hno. destruct (IH (found + 3)) as (cn & Hcn & Hcase); [lia|lia|lia|]. exists cn. split; [done|].
    destruct Hcase as [[-> Hnone]|(k & Hk & Hat & -> & Hfirst)].
    - left. split; [done|]. intros j Hj. destruct (Z.lt_ge_cases j (found + 3)); [apply Hskip; [done|lia]|by apply Hnone].
    - right. exists k. split_and!; [lia|done|done|]. intros j Hj.
      destruct (Z.lt_ge_cases j (found + 3)); [apply Hskip; [done|lia]|apply Hfirst; lia]. }
  destruct ((0 <? found) && negb (cn_boundary (zget dn (found - 1)))) eqn:Eb.
  { apply Hrec. intros (_ & _ & [?|Hb] & _); [lia|]. rewrite Hb in Eb. lia. }
  destruct (zlen dn <=? found + 3) eqn:Ee.
  { eexists. split; [done|]. left. split; [done|]. intros j Hj Hat.
    destruct (Z.lt_ge_cases j found); [by eapply Hbefore; [|exact Hat]; lia|].
    destruct Hat as (_ & Hc & _ & Hv). rewrite (zdrop_ge (j + 3)) in Hv by lia. done. }
  destruct (cn_value (zdrop (found + 3) dn)) as [|c value] eqn:Ev.
  { apply Hrec. intros (_ & _ & _ & Hv). done. }
  eexists. split; [done|]. right. exists found. split_and!; [lia| |done|done].
  split_and!; [lia|done| |by rewrite Ev].
  destruct (0 <? found) eqn:E0; [right|left; lia]. by destruct (cn_boundary _).
Qed.

Lemma cn_value_app v rest : Forall (fun c => c <> COMMA) v ->
  (rest = [] \/ exists r, rest = COMMA :: r) -> cn_value (v ++ rest) = v.
Proof.
  induction 1 as [|c v Hc _ IH]; intros Hr; cbn [app cn_value].
  - destruct Hr as [->|(r & ->)]; done.
  - destruct (c =? COMMA) eqn:E; [lia|]. by rewrite IH.
Qed.

Lemma extract_total p : exists pr src, extract_principal p = Some (pr, src).
Proof.
  unfold extract_principal.
  assert (exists cn, match subject_dn p with [] => Some [] | dn => parse_cn_from_dn dn end = Some cn) as (cn & ->).
  { destruct (subject_dn p) as [|c dn]; [by exists []|]. unfold parse_cn_from_dn.
    destruct (parse_cn_loop_spec (S (length (c :: dn))) (c :: dn) 0) as (cn & Hcn & _); [lia|lia|unfold zlen; lia|by exists cn]. }
  destruct cn; [|eauto]. destruct (san_dns_names p) as [|[]]; try destruct (san_uris p) as [|[]]; eauto.
Qed.

Lemma nibble_char i : 0 <= i < 16 -> zget kHexChars i = if i <? 10 then 48 + i else 87 + i.
Proof.
  intros Hi. assert (Hc : forallb (fun i => zget kHexChars i =? (if i <? 10 then 48 + i else 87 + i))
    (List.map Z.of_nat (seq 0 16)) = true) by (vm_compute; reflexivity).
  rewrite forallb_forall in Hc. apply Z.eqb_eq, Hc, in_map_iff. exists (Z.to_nat i).
  split; [lia|]. apply in_seq. lia.
Qed.

Lemma nibble_char_inj i j : 0 <= i < 16 -> 0 <= j < 16 -> zget kHexChars i = zget kHexChars j -> i = j.
Proof. intros Hi Hj. rewrite !nibble_char by done. destruct (i <? 10) eqn:?, (j <? 10) eqn:?; lia. Qed.

Lemma byte_nibbles b : is_byte b -> 0 <= Z.shiftr b 4 < 16 /\ 0 <= Z.land b 15 < 16 /\
  b = 16 * Z.shiftr b 4 + Z.land b 15.
Proof.
  unfold is_byte. intros Hb. rewrite Z.shiftr_div_pow2 by lia. change 15 with (Z.ones 4).
  rewrite Z.land_ones by lia. change (2 ^ 4) with 16. dlia.
Qed.

(** Fingerprints that differ are spelled differently. *)
Lemma fingerprint_hex_inj a b : wf_bytes a -> wf_bytes b ->
  fingerprint_to_hex a = fingerprint_to_hex b -> a = b.
Proof.
  intros Ha. revert b. induction Ha as [|x a Hx Ha IH]; intros b Hb; destruct Hb as [|y b Hy Hb]; cbn; try done.
  intros [= E1 E2 E3].
  destruct (byte_nibbles x Hx) as (? & ? & Ex), (byte_nibbles y Hy) as (? & ? & Ey).
  apply nibble_char_inj in E1; [|done..]. apply nibble_char_inj in E2; [|done..].
  f_equal; [lia|by apply IH].
Qed.

(** *** What a certificate stands for, read from it directly *)

(** The name holds [CN=v] behind [pre]: at its start or behind a comma, a space or a slash,
    and [v] is all there is up to the next comma. *)
Definition names_cn (dn pre v : bytes) : Prop :=
  (pre = [] \/ exists pre' b, pre = pre' ++ [b] /\ (b = 44 \/ b = 32 \/ b = 47)) /\ v <> [] /\ 44 ∉ v /\
  exists rest, dn = pre ++ [67; 78; 61] ++ v ++ rest /\ (rest = [] \/ exists r, rest = 44 :: r).

(** A byte in two lower-case hexadecimal digits. *)
Definition hex_digit (d : Z) : Z := if d <? 10 then 48 + d else 97 + (d - 10).
Definition hex_text (fp : bytes) : bytes := flat_map (fun b => [hex_digit (b / 16); hex_digit (b mod 16)]) fp.

Definition stands_for (p : peer_identity) (pr : bytes) (src : principal_source) : Prop :=
  let no_cn := forall pre v, ~ names_cn (subject_dn p) pre v in
  let first (l : list bytes) := match l with n :: _ => n | [] => [] end in
  match src with
  | CN => exists pre, names_cn (subject_dn p) pre pr /\
      forall pre' v, names_cn (subject_dn p) pre' v -> (length pre <= length pre')%nat
  | SAN_DNS => no_cn /\ pr = first (san_dns_names p) /\ pr <> []
  | SAN_URI => no_cn /\ first (san_dns_names p) = [] /\ pr = first (san_uris p) /\ pr <> []
  | SHA256_FINGERPRINT => no_cn /\ first (san_dns_names p) = [] /\ first (san_uris p) = [] /\
      pr = hex_text (leaf_fingerprint p)
  end.

Lemma cn_value_spec l : exists rest, l = cn_value l ++ rest /\ COMMA ∉ cn_value l /\
  (rest = [] \/ exists r, rest = COMMA :: r).
Proof.
  induction l as [|c l IH]; cbn [cn_value]; [exists []; split; [done|]; split; [apply not_elem_of_nil|by left]|].
  destruct (c =? COMMA) eqn:E.
  - exists (c :: l). split; [done|]. split; [apply not_elem_of_nil|]. right. exists l. f_equal. lia.
  - destruct IH as (rest & Hl & Hn & Hr). exists rest. split; [cbn; by f_equal|]. split; [|exact Hr].
    apply not_elem_of_cons. split; [lia|done].
Qed.

Lemma boundary_byte b : cn_boundary b = true <-> b = 44 \/ b = 32 \/ b = 47.
Proof. unfold cn_boundary, COMMA. lia. Qed.

Lemma zget_last (pre : bytes) b l : zget ((pre ++ [b]) ++ l) (zlen (pre ++ [b]) - 1) = b.
Proof.
  rewrite zlen_app. change (zlen [b]) with 1. replace (zlen pre + 1 - 1) with (zlen pre) by lia.
  unfold zget, zlen. rewrite Nat2Z.id, <- app_assoc, app_nth2, Nat.sub_diag by lia. done.
Qed.

Lemma cn_at_names dn i : cn_at dn i -> names_cn dn (ztake i dn) (cn_value (zdrop (i + 3) dn)) /\
  Z.of_nat (length (ztake i dn)) = i.
Proof.
  intros (Hi & Hc & Hb & Hv). destruct (cn_value_spec (zdrop (i + 3) dn)) as (rest & Hr & Hn & Hend).
  assert (Hlen : i <= zlen dn).
  { destruct (Z.le_gt_cases i (zlen dn)) as [|Hgt]; [done|]. by rewrite zdrop_ge in Hc by lia. }
  assert (Hdn : dn = ztake i dn ++ zdrop i dn) by (unfold ztake, zdrop; by rewrite take_drop).
  assert (Hz : zlen (ztake i dn) = i) by (rewrite zlen_take; lia).
  split; [|exact Hz]. split; [|split; [done|split; [exact Hn|]]].
  - destruct Hb as [->|Hb]; [by left|].
    destruct (Z.eq_dec i 0) as [->|Hne]; [by left|]. right.
    destruct (decide (ztake i dn = [])) as [E|E]; [rewrite E in Hz; unfold zlen in Hz; cbn in Hz; lia|].
    destruct (exists_last E) as (pre' & b & Ep). exists pre', b. split; [exact Ep|]. apply boundary_byte.
    rewrite Ep in Hz. rewrite Hdn, Ep, <- Hz, zget_last in Hb. exact Hb.
  - exists rest. split; [|exact Hend]. rewrite Hdn at 1. f_equal. rewrite <- Hr.
    rewrite <- (zdrop_drop dn 3 i) by lia. rewrite <- (take_drop 3 (zdrop i dn)), Hc at 1. done.
Qed.

Lemma names_cn_at dn pre v : names_cn dn pre v -> cn_at dn (zlen pre) /\ v = cn_value (zdrop (zlen pre + 3) dn).
Proof.
  intros (Hb & Hv & Hn & rest & -> & Hend).
  assert (Hd : zdrop (zlen pre + 3) (pre ++ [67; 78; 61] ++ v ++ rest) = v ++ rest).
  { replace (zlen pre + 3) with (zlen (pre ++ [67; 78; 61])) by (by rewrite zlen_app).
    rewrite app_assoc. apply zdrop_app. }
  assert (Hcv : cn_value (v ++ rest) = v).
  { apply cn_value_app; [|exact Hend]. apply Forall_forall. intros c Hc ->. by apply Hn. }
  split; [|by rewrite Hd, Hcv]. split_and!; [apply zlen_nonneg| | |by rewrite Hd, Hcv].
  - by rewrite zdrop_app.
  - destruct Hb as [->|(pre' & b & -> & Hb)]; [by left|right]. rewrite zget_last. by apply boundary_byte.
Qed.

Lemma hex_text_eq fp : wf_bytes fp -> fingerprint_to_hex fp = hex_text fp.
Proof.
  unfold fingerprint_to_hex, hex_text. induction 1 as [|b fp Hb _ IH]; [done|]. cbn [List.map List.concat flat_map].
  rewrite IH. destruct (byte_nibbles b Hb) as (H1 & H2 & E). rewrite !nibble_char by done. unfold hex_digit.
  replace (b / 16) with (Z.shiftr b 4) by dlia. replace (b mod 16) with (Z.land b 15) by dlia.
  cbn [app]. repeat f_equal; case_tests; lia.
Qed.

Lemma extract_stands_for p pr src : wf_bytes (leaf_fingerprint p) ->
  extract_principal p = Some (pr, src) -> stands_for p pr src.
Proof.
  intros Hw. unfold extract_principal, stands_for.
  assert (Hcn : exists cn, match subject_dn p with [] => Some [] | dn => parse_cn_from_dn dn end = Some cn /\
    ((cn = [] /\ forall i, ~ cn_at (subject_dn p) i) \/
     (cn <> [] /\ exists i, cn_at (subject_dn p) i /\ cn = cn_value (zdrop (i + 3) (subject_dn p)) /\
        forall j, j < i -> ~ cn_at (subject_dn p) j))).
  { destruct (subject_dn p) as [|c dn].
    - exists []. split; [done|]. left. split; [done|]. intros i (_ & Hc & _). unfold zdrop in Hc.
      by destruct (Z.to_nat i).
    - destruct (parse_cn_loop_spec (S (length (c :: dn))) (c :: dn) 0) as (cn & Hcn & Hcase); [lia|lia|unfold zlen; lia|].
      exists cn. split; [exact Hcn|]. destruct Hcase as [[-> Hno]|(i & Hi & Hat & -> & Hfst)].
      + left. split; [done|]. intros i Hat. by apply (Hno i (proj1 Hat)).
      + right. split; [apply Hat|]. exists i. split_and!; [done|done|]. intros j Hj Hjat.
        apply (Hfst j); [destruct Hjat; lia|done]. }
  destruct Hcn as (cn & -> & [[-> Hno]|(Hne & i & Hat & -> & Hfst)]).
  - assert (Hno' : forall pre v, ~ names_cn (subject_dn p) pre v) by (intros pre v [Hc _]%names_cn_at; by eapply Hno).
    rewrite <- (hex_text_eq _ Hw).
    destruct (san_dns_names p) as [|[|n ns] dns]; [| |by intros [= <- <-]];
      destruct (san_uris p) as [|[|u us] uris]; by intros [= <- <-].
  - destruct (cn_at_names _ _ Hat) as [Hn Hlen]. destruct (cn_value _) as [|c cn] eqn:Ev; [done|]. intros [= <- <-].
    eexists. split; [exact Hn|]. intros pre' v [Hc _]%names_cn_at.
    destruct (Z.lt_ge_cases (zlen pre') i) as [Hlt|]; [by destruct (Hfst _ Hlt)|]. unfold zlen in *. lia.
Qed.

(** A certificate stands for one principal. *)
Lemma stands_for_unique p pr src pr' src' : stands_for p pr src -> stands_for p pr' src' ->
  pr = pr' /\ src = src'.
Proof.
  unfold stands_for. destruct src, src'; cbn zeta; try naive_solver.
  intros (i & Hi & Hni) (j & Hj & Hnj). split; [|done]. specialize (Hni _ _ Hj). specialize (Hnj _ _ Hi).
  apply names_cn_at in Hi as [_ ->], Hj as [_ ->]. unfold zlen. by replace (length j) with (length i) by lia.
Qed.

(** ** Samples *)

Definition text_dn : bytes := (* CN=A,O=x *) [67; 78; 61; 65; 44; 79; 61; 120].
Definition sample_peer : peer_identity := mkPeerIdentity text_dn [] [] (replicate 32 7).

(** The name as [X509_NAME_oneline] writes it, "/CN=A/O=x": nothing ends the value. *)
Lemma oneline_name_read_past :
  parse_cn_from_dn [47; 67; 78; 61; 65; 47; 79; 61; 120] = Some [65; 47; 79; 61; 120].
Proof. vm_compute. reflexivity. Qed.

(** "O=x CN=B,CN=A", an organisation named "x CN=B": the value inside is taken for the CN. *)
Lemma name_in_a_value :
  parse_cn_from_dn [79; 61; 120; 32; 67; 78; 61; 66; 44; 67; 78; 61; 65] = Some [66].
Proof. vm_compute. reflexivity. Qed.

(** ** Properties *)

(** C29: A policy grants a peer a CompID exactly when the principal its certificate stands for was
    bound to that CompID, in whatever order and however often the bindings were made, and names
    that principal and where it was read; everything else, an empty policy included, is refused
    as unauthorized.  The principal is the first CN with a value (behind the start of the name,
    a comma, a space or a slash, and up to the next comma), else the first DNS name, else the
    first URI, else the fingerprint in lower-case hexadecimal. *)
Theorem authorize_exact (l : list (bytes * bytes)) (p : CompIdAuthorizationPolicy)
    (pid : peer_identity) (c : bytes) :
  bind_all l empty_policy = Some p -> wf_bytes (leaf_fingerprint pid) ->
  exists pr src, stands_for pid pr src /\
    authorize p pid c =
      Some (if bool_decide ((pr, c) ∈ l) then Ok (pr, src) else Err session_compid_unauthorized).
Proof.
  intros Hl Hw. destruct empty_policy_ok as [He Hne].
  destruct (bind_all_spec l empty_policy p He Hl) as [Hp Hb].
  destruct (extract_total pid) as (pr & src & Hx). exists pr, src. split; [by apply extract_stands_for|].
  unfold authorize. case_bool_decide as Hemp.
  - rewrite bool_decide_eq_false_2; [done|]. intros Hin.
    destruct (proj2 (Hb pr c) (or_intror Hin)) as (vec & Hv & _). by rewrite Hemp in Hv.
  - rewrite Hx. f_equal. destruct (bindings p !! pr) as [vec|] eqn:E.
    + pose proof (contains_text_spec vec c (Hp pr vec E)) as Hm.
      assert (Hbc : bound p pr c <-> c ∈ vec).
      { unfold bound. rewrite E. split; [intros (v & [= <-] & ?); done|eauto]. }
      assert (Hin : (pr, c) ∈ l <-> c ∈ vec).
      { rewrite <- Hbc, Hb. split; [auto|intros [?|?]; [by destruct (Hne pr c)|done]]. }
      destruct (contains_text vec c).
      * by rewrite bool_decide_eq_true_2 by (apply Hin, Hm; done).
      * rewrite bool_decide_eq_false_2; [done|]. by rewrite Hin, <- Hm.
    + rewrite bool_decide_eq_false_2; [done|]. intros Hin.
      destruct (proj2 (Hb pr c) (or_intror Hin)) as (vec & Hv & _). congruence.
Qed.

Lemma authorize_exact_witness :
  exists p, bind_all [([65], [84; 87]); ([66], [88]); ([65], [83])] empty_policy = Some p /\
    authorize p sample_peer [83] = Some (Ok ([65], CN)) /\
    authorize p sample_peer [88] = Some (Err session_compid_unauthorized).
Proof.
  eexists. split; [reflexivity|].
  assert (Hw : wf_bytes (leaf_fingerprint sample_peer)) by (vm_compute; repeat constructor; discriminate).
  assert (Hs : stands_for sample_peer [65] CN) by (apply extract_stands_for; [exact Hw|vm_compute; reflexivity]).
  split; [destruct (authorize_exact [([65], [84; 87]); ([66], [88]); ([65], [83])] _ sample_peer [83] eq_refl Hw)
            as (pr & src & Hp & Ha)
         |destruct (authorize_exact [([65], [84; 87]); ([66], [88]); ([65], [83])] _ sample_peer [88] eq_refl Hw)
            as (pr & src & Hp & Ha)];
    destruct (stands_for_unique _ _ _ _ _ Hp Hs) as [-> ->]; rewrite Ha; vm_compute; reflexivity.
Defined.
