(* ===== verification/FileLog.v ===== *)
(** The file store's log, [src/session/file_store.cpp]: the bytes of a record and of the two
    payloads the store writes itself, the session hash, and the system calls the store makes
    on its file.

    The packed structs are in host order, which is little-endian, and so are the fields here.
    [crc32c::Extend] is the checksum library's: a parameter.  What a system call does is
    decided by the environment: a plan says, call by call, how far a [pwrite] or a [pread]
    gets, and a call the plan does not mention does all that is left. *)
From S2P Require Import Prelude.

(** ** Constants *)

Definition kSentinelMagic : Z := 0x46495850535354.
Definition kFormatVersion : Z := 1.
Definition kHeaderSize : Z := 16.
Definition kSentinelPayloadSize : Z := 32.
Definition kCounterPayloadSize : Z := 8.
Definition kAlignment : Z := 8.

(** ** Little-endian integers *)

Fixpoint le_bytes (n : nat) (v : Z) : bytes :=
  match n with O => [] | S n => v mod 256 :: le_bytes n (v / 256) end.

Fixpoint le_value (l : bytes) : Z :=
  match l with [] => 0 | b :: l => b + 256 * le_value l end.

(** ** Records *)

Inductive RecordKind : Set := rk_frame | rk_sentinel | rk_counter.

Definition kind_byte (k : RecordKind) : Z :=
  match k with rk_frame => 0 | rk_sentinel => 1 | rk_counter => 2 end.

Record RecordHeader := mkHeader {
  rh_kind : Z; rh_dir : Z; rh_reserved : Z; rh_seq : Z; rh_len : Z; rh_crc32 : Z }.

Record SentinelPayload := mkSentinel {
  sp_magic : Z; sp_version : Z; sp_pad : Z; sp_session_triple_hash : Z; sp_reserved : bytes }.

Record CounterPayload := mkCounters { cp_next_inbound : Z; cp_next_outbound : Z }.

(** A header's bytes 0 to 11, and all sixteen. *)
Definition header_prefix (h : RecordHeader) : bytes :=
  le_bytes 1 (rh_kind h) ++ le_bytes 1 (rh_dir h) ++ le_bytes 2 (rh_reserved h) ++
  le_bytes 4 (rh_seq h) ++ le_bytes 4 (rh_len h).

Definition header_bytes (h : RecordHeader) : bytes := header_prefix h ++ le_bytes 4 (rh_crc32 h).

Definition decode_header (b : bytes) : RecordHeader :=
  mkHeader (le_value (zsub b 0 1)) (le_value (zsub b 1 1)) (le_value (zsub b 2 2))
    (le_value (zsub b 4 4)) (le_value (zsub b 8 4)) (le_value (zsub b 12 4)).

Definition sentinel_bytes (p : SentinelPayload) : bytes :=
  le_bytes 8 (sp_magic p) ++ le_bytes 1 (sp_version p) ++ le_bytes 3 (sp_pad p) ++
  le_bytes 4 (sp_session_triple_hash p) ++ sp_reserved p.

Definition sentinel_of (b : bytes) : SentinelPayload :=
  mkSentinel (le_value (zsub b 0 8)) (le_value (zsub b 8 1)) (le_value (zsub b 9 3))
    (le_value (zsub b 12 4)) (zsub b 16 16).

Definition counter_bytes (p : CounterPayload) : bytes :=
  le_bytes 4 (cp_next_inbound p) ++ le_bytes 4 (cp_next_outbound p).

Definition counters_of (b : bytes) : CounterPayload :=
  mkCounters (le_value (zsub b 0 4)) (le_value (zsub b 4 4)).

(** ** The session hash *)

Definition fnv1a_32 (s : bytes) : Z :=
  fold_left (fun h c => u32 (Z.lxor h c * 16777619)) s 2166136261.

(** The literal ["\x00"] of the code converts to a view of no characters. *)
Definition session_triple_hash (sender target : bytes) : Z :=
  Z.lxor (Z.lxor (fnv1a_32 sender) (fnv1a_32 [])) (fnv1a_32 target).

(** ** Sizes *)

Definition record_padding (payload_len : Z) : Z :=
  let total := u64 (kHeaderSize + payload_len) in
  let aligned := Z.land (u64 (total + kAlignment - 1)) (u64 (Z.lnot (kAlignment - 1))) in
  u64 (aligned - total).

Definition record_disk_size (payload_len : Z) : Z :=
  u64 (kHeaderSize + payload_len + record_padding payload_len).

Definition zeros (n : Z) : bytes := replicate (Z.to_nat n) 0.

(** ** System calls *)

(** What one [pwrite] or [pread] does: move some bytes, [EINTR], or another error. *)
Inductive os_step : Set := Moved (n : Z) | Interrupted | Errored.

(** A file after bytes are put at an offset; past its end the gap reads as zeros. *)
Definition file_put (f : bytes) (off : Z) (p : bytes) : bytes :=
  match p with
  | [] => f
  | _ => zwrite (f ++ zeros (off - zlen f)) off p
  end.

(** [ftruncate] *)
Definition file_truncate (f : bytes) (n : Z) : bytes := ztake n (f ++ zeros (n - zlen f)).

(** [OsFile::pwrite_all]: the file, and whether every byte was written. *)
Fixpoint pwrite_all (plan : list os_step) (f p : bytes) (off : Z) : bytes * bool :=
  match p with
  | [] => (f, true)
  | _ =>
      match plan with
      | [] => (file_put f off p, true)
      | Moved n :: plan =>
          let r := Z.max 0 (Z.min n (zlen p)) in
          pwrite_all plan (file_put f off (ztake r p)) (zdrop r p) (off + r)
      | Interrupted :: plan => pwrite_all plan f p off
      | Errored :: _ => (f, false)
      end
  end.

(** [OsFile::pread_all]: the bytes read, fewer than asked for at the end of the file, or
    [None] for -1. *)
Fixpoint pread_all (plan : list os_step) (f : bytes) (n off : Z) (acc : bytes) : option bytes :=
  if n <=? 0 then Some acc
  else
    match plan with
    | [] => Some (acc ++ zsub f off n)
    | Moved k :: plan =>
        let got := zsub f off (Z.max 1 (Z.min k n)) in
        match got with
        | [] => Some acc
        | _ => pread_all plan f (n - zlen got) (off + zlen got) (acc ++ got)
        end
    | Interrupted :: plan => pread_all plan f n off acc
    | Errored :: _ => None
    end.

(** The test every caller makes of [pread_all]: all the bytes asked for, or not. *)
Definition read_exact (plan : list os_step) (f : bytes) (n off : Z) : option bytes :=
  match pread_all plan f n off [] with
  | Some b => if zlen b =? n then Some b else None
  | None => None
  end.

Section Crc.
(** [crc32c::Extend] *)
Variable Extend : Z -> bytes -> Z.

Definition compute_record_crc32 (h : RecordHeader) (payload : bytes) : Z :=
  Extend (Extend 0 (header_prefix h)) payload.

(** The header of a record: its fields, with the checksum last. *)
Definition record_header (kind : RecordKind) (dir seq : Z) (payload : bytes) : RecordHeader :=
  let h := mkHeader (kind_byte kind) dir 0 seq (u32 (zlen payload)) 0 in
  mkHeader (rh_kind h) (rh_dir h) (rh_reserved h) (rh_seq h) (rh_len h)
    (compute_record_crc32 h payload).

Definition sentinel_payload (hash : Z) : bytes :=
  sentinel_bytes (mkSentinel kSentinelMagic kFormatVersion 0 hash (zeros 16)).

(** The [pwrite]s of a record, in order: header, payload, padding. *)
Definition record_writes (kind : RecordKind) (dir seq : Z) (payload : bytes) (off : Z)
  : list (Z * bytes) :=
  let pad := record_padding (zlen payload) in
  (off, header_bytes (record_header kind dir seq payload)) ::
  (match payload with [] => [] | _ => [(off + kHeaderSize, payload)] end) ++
  (if 0 <? pad then [(off + kHeaderSize + zlen payload, zeros pad)] else []).

(** [write_sentinel] *)
Definition write_sentinel (hash off : Z) : list (Z * bytes) :=
  record_writes rk_sentinel 255 0 (sentinel_payload hash) off.

(** [write_counter]: the payload is a multiple of the alignment, and no padding follows. *)
Definition write_counter (ni no off : Z) : list (Z * bytes) :=
  let p := counter_bytes (mkCounters ni no) in
  [(off, header_bytes (record_header rk_counter 255 0 p)); (off + kHeaderSize, p)].

(** A record as it stands in the log. *)
Definition record_bytes (kind : RecordKind) (dir seq : Z) (payload : bytes) : bytes :=
  header_bytes (record_header kind dir seq payload) ++ payload ++
  zeros (record_padding (zlen payload)).

End Crc.

(** A job's [pwrite]s, one after the other until one fails; [pw k] is the [k]-th's plan. *)
Fixpoint job_writes (pw : nat -> list os_step) (k : nat) (ws : list (Z * bytes)) (f : bytes)
  : bytes * bool :=
  match ws with
  | [] => (f, true)
  | (off, p) :: ws =>
      match pwrite_all (pw k) f p off with
      | (f, true) => job_writes pw (S k) ws f
      | (f, false) => (f, false)
      end
  end.

(** ** Integers and records read back *)

Lemma le_bytes_len n v : zlen (le_bytes n v) = Z.of_nat n.
Proof. revert v. induction n; intros v; cbn [le_bytes]; [done|]. rewrite zlen_cons, IHn. lia. Qed.

#[export] Hint Rewrite le_bytes_len : zlen.

Lemma le_value_bytes n v : le_value (le_bytes n v) = v mod 2 ^ (8 * Z.of_nat n).
Proof.
  revert v. induction n as [|n IH]; intros v; cbn [le_bytes le_value].
  { by rewrite Z.mod_1_r. }
  rewrite IH. replace (8 * Z.of_nat (S n)) with (8 + 8 * Z.of_nat n) by lia.
  rewrite Z.pow_add_r by lia. rewrite Z.rem_mul_r by lia. done.
Qed.

Lemma le_value_small n v : 0 <= v < 2 ^ (8 * Z.of_nat n) -> le_value (le_bytes n v) = v.
Proof. intros. rewrite le_value_bytes. by apply Z.mod_small. Qed.

Lemma zsub_mid {A} (a b c : list A) off n :
  off = zlen a -> n = zlen b -> zsub (a ++ b ++ c) off n = b.
Proof.
  intros -> ->. rewrite zsub_app_r, Z.sub_diag by lia. rewrite zsub_app_l by (pose_zlen; lia).
  apply zsub_whole.
Qed.

Lemma zsub_tail {A} (a b : list A) off n : off = zlen a -> n = zlen b -> zsub (a ++ b) off n = b.
Proof. intros. rewrite <- (app_nil_r b) at 1. by apply zsub_mid. Qed.

Lemma zsub_front {A} (b c : list A) n : n = zlen b -> zsub (b ++ c) 0 n = b.
Proof. by apply (zsub_mid []). Qed.

Lemma zlen_header_prefix h : zlen (header_prefix h) = 12.
Proof. unfold header_prefix. by autorewrite with zlen. Qed.

Lemma zlen_header h : zlen (header_bytes h) = 16.
Proof. unfold header_bytes. rewrite zlen_app, zlen_header_prefix, le_bytes_len. done. Qed.

Definition header_ok (h : RecordHeader) : Prop :=
  0 <= rh_kind h < 256 /\ 0 <= rh_dir h < 256 /\ 0 <= rh_reserved h < 2 ^ 16 /\
  0 <= rh_seq h < 2 ^ 32 /\ 0 <= rh_len h < 2 ^ 32 /\ 0 <= rh_crc32 h < 2 ^ 32.

Lemma header_round_trip h rest : header_ok h -> decode_header (header_bytes h ++ rest) = h.
Proof.
  intros (? & ? & ? & ? & ? & ?). destruct h as [k d r s l c]; cbn [rh_kind rh_dir rh_reserved rh_seq rh_len rh_crc32] in *.
  unfold decode_header, header_bytes, header_prefix. rewrite <- !app_assoc.
  cbn [rh_kind rh_dir rh_reserved rh_seq rh_len rh_crc32].
  set (K := le_bytes 1 k). set (D := le_bytes 1 d). set (R := le_bytes 2 r).
  set (S := le_bytes 4 s). set (L := le_bytes 4 l). set (C := le_bytes 4 c).
  assert (zlen K = 1 /\ zlen D = 1 /\ zlen R = 2 /\ zlen S = 4 /\ zlen L = 4 /\ zlen C = 4)
    as (? & ? & ? & ? & ? & ?) by (subst K D R S L C; rewrite !le_bytes_len; done).
  f_equal.
  - rewrite (zsub_front K) by done. by apply le_value_small.
  - rewrite (zsub_mid K D) by done. by apply le_value_small.
  - rewrite app_assoc, (zsub_mid (K ++ D) R) by (rewrite ?zlen_app; lia). by apply le_value_small.
  - rewrite app_assoc, app_assoc, (zsub_mid ((K ++ D) ++ R) S) by (rewrite ?zlen_app; lia).
    by apply le_value_small.
  - do 3 rewrite app_assoc. rewrite (zsub_mid (((K ++ D) ++ R) ++ S) L) by (rewrite ?zlen_app; lia).
    by apply le_value_small.
  - do 4 rewrite app_assoc. rewrite (zsub_mid ((((K ++ D) ++ R) ++ S) ++ L) C) by (rewrite ?zlen_app; lia).
    by apply le_value_small.
Qed.

Lemma counters_round_trip ni no : 0 <= ni < 2 ^ 32 -> 0 <= no < 2 ^ 32 ->
  counters_of (counter_bytes (mkCounters ni no)) = mkCounters ni no.
Proof.
  intros. unfold counters_of, counter_bytes. cbn [cp_next_inbound cp_next_outbound].
  rewrite (zsub_front (le_bytes 4 ni)), (zsub_tail (le_bytes 4 ni) (le_bytes 4 no)) by (by rewrite ?le_bytes_len).
  by rewrite !le_value_small.
Qed.

Lemma zlen_counters p : zlen (counter_bytes p) = 8.
Proof. unfold counter_bytes. rewrite zlen_app, !le_bytes_len. done. Qed.

Lemma zlen_zeros n : 0 <= n -> zlen (zeros n) = n.
Proof. intros. unfold zeros. rewrite zlen_replicate. lia. Qed.

Lemma sentinel_len hash : zlen (sentinel_payload hash) = 32.
Proof. unfold sentinel_payload, sentinel_bytes. cbn [sp_magic sp_version sp_pad sp_session_triple_hash sp_reserved]. by rewrite !zlen_app, !le_bytes_len, zlen_zeros. Qed.

Lemma sentinel_round_trip hash : 0 <= hash < 2 ^ 32 ->
  let p := sentinel_of (sentinel_payload hash) in
  sp_magic p = kSentinelMagic /\ sp_version p = kFormatVersion /\ sp_session_triple_hash p = hash.
Proof.
  intros H. unfold sentinel_of, sentinel_payload, sentinel_bytes.
  cbn [sp_magic sp_version sp_pad sp_session_triple_hash sp_reserved].
  split_and!; [reflexivity|reflexivity|].
  rewrite app_assoc, app_assoc.
  rewrite (zsub_mid ((le_bytes 8 kSentinelMagic ++ le_bytes 1 kFormatVersion) ++ le_bytes 3 0) (le_bytes 4 hash))
    by (rewrite ?zlen_app, ?le_bytes_len; done).
  by apply le_value_small.
Qed.

(** ** Sizes *)

Lemma align_down t : 0 <= t -> Z.land t (Z.lnot 7) = t - t mod 8.
Proof.
  intros. rewrite <- Z.ldiff_land. change 7 with (Z.ones 3). rewrite Z.ldiff_ones_r by lia.
  rewrite Z.shiftr_div_pow2, Z.shiftl_mul_pow2 by lia. change (2 ^ 3) with 8. dlia.
Qed.

Lemma land_u64 t m : 0 <= t < 2 ^ 64 -> Z.land t (u64 m) = Z.land t m.
Proof.
  intros. unfold u64, wrap. rewrite <- Z.land_ones by lia.
  rewrite (Z.land_comm m), Z.land_assoc, Z.land_ones, Z.mod_small by lia. done.
Qed.

(** A record takes its header and its payload, rounded up to eight. *)
Lemma record_sizes n : 0 <= n < 2 ^ 32 ->
  record_padding n = (- n) mod 8 /\ record_disk_size n = 16 + n + (- n) mod 8.
Proof.
  intros Hn. assert (Hp : record_padding n = (- n) mod 8).
  { unfold record_padding, kHeaderSize, kAlignment.
    rewrite (wrap_small 64 (16 + n)), (wrap_small 64 (16 + n + 8 - 1)) by lia.
    rewrite land_u64 by lia. change (Z.lnot (8 - 1)) with (Z.lnot 7).
    rewrite align_down by lia. rewrite wrap_small; dlia. }
  split; [done|]. unfold record_disk_size, kHeaderSize. rewrite Hp, wrap_small; dlia.
Qed.

Lemma record_padding_range n : 0 <= n < 2 ^ 32 -> 0 <= record_padding n < 8.
Proof. intros Hn. rewrite (proj1 (record_sizes n Hn)). dlia. Qed.

Lemma record_disk_size_eq n : 0 <= n < 2 ^ 32 -> record_disk_size n = 16 + n + record_padding n.
Proof. intros Hn. destruct (record_sizes n Hn) as [-> ->]. done. Qed.

Lemma record_len E kind dir seq p : zlen p < 2 ^ 32 ->
  zlen (record_bytes E kind dir seq p) = record_disk_size (zlen p).
Proof.
  intros Hp. pose proof (zlen_nonneg p). unfold record_bytes.
  rewrite !zlen_app, zlen_header, record_disk_size_eq, zlen_zeros by (done || apply record_padding_range; done).
  lia.
Qed.

(** ** What the system calls do at the end of the file *)

Lemma file_put_end f p : file_put f (zlen f) p = f ++ p.
Proof.
  unfold file_put. destruct p as [|b p]; [by rewrite app_nil_r|].
  rewrite Z.sub_diag. change (zeros 0) with (@nil Z). rewrite app_nil_r. unfold zwrite.
  rewrite ztake_ge by lia. rewrite zdrop_ge by (pose_zlen; lia). by rewrite app_nil_r.
Qed.

Lemma ztake_app_plus {A} (a b : list A) m : 0 <= m ->
  ztake (zlen a + m) (a ++ b) = a ++ ztake m b.
Proof.
  intros. unfold ztake, zlen. replace (Z.to_nat (Z.of_nat (length a) + m)) with (length a + Z.to_nat m)%nat by lia.
  apply take_app_add.
Qed.

Lemma ztake_plus {A} (l : list A) r k : 0 <= r <= zlen l -> 0 <= k ->
  ztake (r + k) l = ztake r l ++ ztake k (zdrop r l).
Proof.
  intros. rewrite <- (ztake_drop r l) at 1. rewrite <- (zlen_take r l) at 1 by lia.
  by apply ztake_app_plus.
Qed.

(** However a write goes, it leaves the file with a first part of its bytes appended. *)
Lemma pwrite_all_end plan f p : exists k, 0 <= k <= zlen p /\
  (pwrite_all plan f p (zlen f)).1 = f ++ ztake k p /\
  ((pwrite_all plan f p (zlen f)).2 = true -> k = zlen p).
Proof.
  revert f p. induction plan as [|st plan IH]; intros f p.
  { exists (zlen p). split; [pose_zlen; lia|]. rewrite ztake_ge by lia.
    destruct p; cbn [pwrite_all fst snd]; [by rewrite app_nil_r|by rewrite file_put_end]. }
  destruct p as [|b p].
  { exists 0. split; [pose_zlen; cbn; lia|]. cbn. by rewrite app_nil_r. }
  destruct st as [n| |]; cbn [pwrite_all].
  - set (q := b :: p). set (r := Z.max 0 (Z.min n (zlen q))).
    assert (0 <= r <= zlen q) by (pose proof (zlen_nonneg q); lia).
    assert (Hput : file_put f (zlen f) (ztake r q) = f ++ ztake r q) by apply file_put_end.
    rewrite Hput.
    assert (Hl : zlen f + r = zlen (f ++ ztake r q)) by (rewrite zlen_app, zlen_take; lia).
    rewrite Hl. destruct (IH (f ++ ztake r q) (zdrop r q)) as (k & Hk & Hf & Hb).
    rewrite zlen_drop in Hk, Hb by lia. exists (r + k). split; [lia|]. split.
    + rewrite Hf, <- app_assoc. by rewrite ztake_plus by lia.
    + intros Ht. specialize (Hb Ht). lia.
  - apply IH.
  - exists 0. split; [pose_zlen; lia|]. cbn [fst snd]. split; [by rewrite app_nil_r|done].
Qed.

(** Writes laid end to end from [off]. *)
Fixpoint adjacent (off : Z) (ws : list (Z * bytes)) : Prop :=
  match ws with [] => True | (o, p) :: ws => o = off /\ adjacent (off + zlen p) ws end.

Definition joined (ws : list (Z * bytes)) : bytes := List.concat (List.map snd ws).

Lemma adjacent_app off a b :
  adjacent off a -> adjacent (off + zlen (joined a)) b -> adjacent off (a ++ b).
Proof.
  revert off. induction a as [|[o p] a IH]; intros off; cbn.
  { by rewrite Z.add_0_r. }
  intros [-> Ha] Hb. split; [done|]. apply IH; [done|]. unfold joined in Hb. cbn in Hb.
  rewrite zlen_app in Hb. by rewrite <- Z.add_assoc.
Qed.

Lemma joined_app a b : joined (a ++ b) = joined a ++ joined b.
Proof. unfold joined. by rewrite map_app, concat_app. Qed.

(** A job that writes end to end from the end of the file leaves a first part of what it
    writes; all of it when it succeeds. *)
Lemma job_writes_end pw k ws f : adjacent (zlen f) ws -> exists n, 0 <= n <= zlen (joined ws) /\
  (job_writes pw k ws f).1 = f ++ ztake n (joined ws) /\
  ((job_writes pw k ws f).2 = true -> n = zlen (joined ws)).
Proof.
  revert k f. induction ws as [|[o p] ws IH]; intros k f; cbn [adjacent job_writes].
  { exists 0. split; [done|]. cbn. by rewrite app_nil_r. }
  intros [-> Hadj]. destruct (pwrite_all_end (pw k) f p) as (n & Hn & Hf & Hb).
  change (joined ((zlen f, p) :: ws)) with (p ++ joined ws). rewrite zlen_app.
  destruct (pwrite_all (pw k) f p (zlen f)) as [f' []]; cbn [fst snd] in *; subst f'.
  - specialize (Hb eq_refl). subst n. rewrite ztake_ge by lia.
    rewrite <- zlen_app in Hadj. destruct (IH (S k) (f ++ p) Hadj) as (m & Hm & Hf & Hb).
    exists (zlen p + m). split; [lia|]. split; [|intros Ht; specialize (Hb Ht); lia].
    by rewrite Hf, <- app_assoc, ztake_app_plus by lia.
  - exists n. split; [pose proof (zlen_nonneg (joined ws)); lia|]. split; [|done].
    by rewrite ztake_app_l by lia.
Qed.

(** No write of a job is refused by an environment without faults. *)
Definition quiet : nat -> list os_step := fun _ => [].

Lemma pwrite_quiet f p off : (pwrite_all [] f p off).2 = true.
Proof. by destruct p. Qed.

Lemma job_writes_quiet k ws f : (job_writes quiet k ws f).2 = true.
Proof.
  revert k f. induction ws as [|[o p] ws IH]; intros k f; [done|]. cbn [job_writes].
  change (quiet k) with (@nil os_step).
  destruct (pwrite_all [] f p o) as [f' b] eqn:E. pose proof (pwrite_quiet f p o) as H.
  rewrite E in H. cbn in H. subst b. apply IH.
Qed.

Lemma record_writes_adjacent E kind dir seq p off : zlen p < 2 ^ 32 ->
  adjacent off (record_writes E kind dir seq p off) /\
  joined (record_writes E kind dir seq p off) = record_bytes E kind dir seq p.
Proof.
  intros Hp. pose proof (record_padding_range (zlen p) ltac:(pose proof (zlen_nonneg p); lia)).
  assert (Hpad : forall o, adjacent o (if 0 <? record_padding (zlen p)
                   then [(o, zeros (record_padding (zlen p)))] else []) /\
                 joined (if 0 <? record_padding (zlen p)
                   then [(o, zeros (record_padding (zlen p)))] else []) = zeros (record_padding (zlen p))).
  { intros o. unfold joined. destruct (0 <? _) eqn:E0; cbn [adjacent List.map List.concat snd].
    - split; [done|apply app_nil_r].
    - split; [done|]. by replace (record_padding (zlen p)) with 0 by lia. }
  unfold record_writes, record_bytes, kHeaderSize.
  destruct (Hpad (off + 16 + zlen p)) as [Ha Hj]. destruct p as [|b p]; cbn [app].
  - rewrite (zlen_nil (A:=Z)) in *. rewrite Z.add_0_r in *. cbn [adjacent]. rewrite zlen_header.
    split; [done|]. unfold joined in *. cbn [List.map List.concat snd]. by rewrite Hj.
  - cbn [adjacent]. rewrite zlen_header. split; [done|].
    unfold joined in *. cbn [List.map List.concat snd]. by rewrite Hj.
Qed.

Lemma write_counter_adjacent E ni no off :
  adjacent off (write_counter E ni no off) /\
  joined (write_counter E ni no off)
    = record_bytes E rk_counter 255 0 (counter_bytes (mkCounters ni no)).
Proof.
  unfold write_counter, record_bytes, joined, kHeaderSize. cbn [adjacent List.map List.concat snd app].
  rewrite zlen_header, zlen_counters. split; [done|].
  change (zeros (record_padding 8)) with (@nil Z). by rewrite !app_nil_r.
Qed.

(** ** Reads *)

Lemma read_exact_quiet f n off : 0 <= n -> 0 <= off ->
  read_exact [] f n off = if off + n <=? zlen f then Some (zsub f off n)
    else if n =? 0 then Some [] else None.
Proof.
  intros Hn Hoff. unfold read_exact. cbn [pread_all]. destruct (n <=? 0) eqn:E0.
  { assert (n = 0) as -> by lia. change (zsub f off 0) with (@nil Z). cbn [Z.eqb].
    by destruct (off + 0 <=? zlen f). }
  cbn [app]. destruct (off + n <=? zlen f) eqn:E.
  - rewrite zlen_sub by lia. by rewrite Z.eqb_refl.
  - assert (zlen (zsub f off n) <> n).
    { unfold zsub, ztake, zdrop, zlen in *. rewrite length_take, length_drop. lia. }
    destruct (_ =? n) eqn:?; [lia|]. by destruct (n =? 0) eqn:?; [lia|].
Qed.

(** Whatever the reads do, a full read is of the file's own bytes. *)
Lemma pread_all_sound plan f n off acc b : 0 <= n -> 0 <= off ->
  pread_all plan f n off acc = Some b -> zlen b = zlen acc + n -> b = acc ++ zsub f off n.
Proof.
  revert n off acc. induction plan as [|st plan IH]; intros n off acc Hn Hoff; cbn [pread_all];
    destruct (n <=? 0) eqn:E0.
  1,3: assert (n = 0) as -> by lia; intros [= <-] _; unfold zsub; cbn; by rewrite app_nil_r.
  - by intros [= <-].
  - destruct st as [k| |].
    + set (m := Z.max 1 (Z.min k n)). set (got := zsub f off m).
      assert (Hg : zlen got <= m).
      { unfold got, zsub, ztake, zlen. rewrite length_take. lia. }
      destruct got as [|g0 got'] eqn:Eg.
      { intros [= <-] Hl. lia. }
      rewrite <- Eg in *. intros Hp Hl. pose proof (zlen_nonneg got).
      rewrite (IH (n - zlen got) (off + zlen got) (acc ++ got)); [|lia|lia|done|rewrite zlen_app; lia].
      rewrite <- app_assoc. f_equal. unfold zsub.
      rewrite <- (zdrop_drop f (zlen got) off) by lia. set (t := zdrop off f) in *.
      assert (Ht : got = ztake (zlen got) t).
      { unfold got, zsub. fold t. unfold ztake, zlen. rewrite length_take, Nat2Z.id.
        destruct (Nat.le_ge_cases (Z.to_nat m) (length t)).
        - by rewrite Nat.min_l by lia.
        - rewrite Nat.min_r by lia. by rewrite !take_ge by lia. }
      rewrite Ht at 1. unfold ztake, zdrop. rewrite <- (take_drop (Z.to_nat (zlen got)) (take (Z.to_nat n) t)).
      rewrite take_take, skipn_firstn_comm. f_equal; f_equal; lia.
    + by apply IH.
    + done.
Qed.

Lemma read_exact_sound plan f n off b : 0 <= n -> 0 <= off ->
  read_exact plan f n off = Some b -> b = zsub f off n.
Proof.
  intros Hn Hoff. unfold read_exact. destruct (pread_all plan f n off []) as [b'|] eqn:E; [|done].
  destruct (_ =? n) eqn:El; [|done]. intros [= <-].
  by apply (pread_all_sound plan f n off [] b' Hn Hoff E); rewrite (zlen_nil (A:=Z)); lia.
Qed.

(** Whether the system calls of a read bring all its bytes, from a file that has them. *)
Fixpoint reads_through (plan : list os_step) (n : Z) : bool :=
  if n <=? 0 then true
  else
    match plan with
    | [] => true
    | Moved k :: plan => reads_through plan (n - Z.max 1 (Z.min k n))
    | Interrupted :: plan => reads_through plan n
    | Errored :: _ => false
    end.

Lemma pread_all_through plan f n off acc : 0 <= off -> 0 <= n -> off + n <= zlen f ->
  pread_all plan f n off acc = if reads_through plan n then Some (acc ++ zsub f off n) else None.
Proof.
  revert n off acc. induction plan as [|st plan IH]; intros n off acc Hoff Hn Hf; cbn [pread_all reads_through];
    destruct (n <=? 0) eqn:E0.
  1,3: assert (n = 0) as -> by lia; unfold zsub; cbn; by rewrite app_nil_r.
  - done.
  - destruct st as [k| |]; [|by apply IH|done].
    set (m := Z.max 1 (Z.min k n)). set (got := zsub f off m).
    assert (Hg : zlen got = m) by (apply zlen_sub; lia).
    destruct got as [|g0 got'] eqn:Eg; [change (zlen (@nil Z)) with 0 in Hg; lia|]. rewrite <- Eg in *.
    rewrite IH, Hg by lia. destruct (reads_through plan (n - m)); [|done].
    rewrite <- app_assoc. do 2 f_equal. unfold got, zsub. rewrite <- (zdrop_drop f m off) by lia.
    set (t := zdrop off f). unfold ztake, zdrop.
    rewrite <- (take_drop (Z.to_nat m) (take (Z.to_nat n) t)), take_take, skipn_firstn_comm.
    f_equal; f_equal; lia.
Qed.

Lemma read_exact_through plan f n off : 0 <= off -> 0 <= n -> off + n <= zlen f ->
  read_exact plan f n off = if reads_through plan n then Some (zsub f off n) else None.
Proof.
  intros Hoff Hn Hf. unfold read_exact. rewrite (pread_all_through plan f n off []) by done.
  destruct (reads_through plan n); [|done]. cbn [app]. by rewrite zlen_sub, Z.eqb_refl by lia.
Qed.
