(* ===== verification/FileScan.v ===== *)
(** Opening the file store's log, [src/session/file_store.cpp]: the store's state, the
    restart scan that rebuilds it from the log, and the initialisation of an empty log.

    The log is a file the store alone writes (it holds the file's lock); [dk_log] is what a
    read of it shows and [dk_synced] what the last successful flush put on the device.  The
    other end of the model is the list of records ([rec]): the log of a store is the
    concatenation of its records, and the scan of that log is the fold of [apply_rec]. *)
From S2P Require Import Prelude Errors Seqnum MessageStore FileLog.
From Stdlib Require Import Sorted.

(** ** State *)

Inductive FileStorePolicy_kind : Set := commit_per_message | commit_batched | commit_interval.

#[global] Instance policy_kind_eq_dec : EqDecision FileStorePolicy_kind.
Proof. solve_decision. Defined.

Record FileStorePolicy := mkPolicy { fp_which : FileStorePolicy_kind; fp_batch_size : Z }.

Record FileStoreConfig := mkFileStoreConfig {
  fc_sender_comp_id : bytes;
  fc_target_comp_id : bytes;
  fc_policy : FileStorePolicy;
  fc_max_frame_bytes : Z }.

Record IndexEntry := mkIndexEntry {
  ie_seq : seqnum_t; ie_dir : direction_t; ie_file_offset : Z; ie_len : Z }.

(** The live log, what is safe of it, and the temporary log of a reset. *)
Record Disk := mkDisk { dk_log : bytes; dk_synced : bytes; dk_tmp : option bytes }.

(** [FileStoreImpl] with the disk it stands on; [fs_valid] is [file.valid()]. *)
Record FileStore := mkFileStore {
  fs_cfg : FileStoreConfig;
  fs_disk : Disk;
  fs_valid : bool;
  fs_write_pos : Z;
  fs_next_inbound : seqnum_t;
  fs_next_outbound : seqnum_t;
  fs_expected_hash : Z;
  fs_open_ok : bool;
  fs_generation : Z;
  fs_inbound_index : list IndexEntry;
  fs_outbound_index : list IndexEntry }.

(** [FileStore::FileStore]: a store that is not open. *)
Definition file_store_new (c : FileStoreConfig) (d : Disk) : FileStore :=
  mkFileStore c d false 0 seqnum_min seqnum_min
    (session_triple_hash (fc_sender_comp_id c) (fc_target_comp_id c)) false 0 [] [].

Definition fs_next (d : direction_t) (s : FileStore) : seqnum_t :=
  match d with inbound => fs_next_inbound s | outbound => fs_next_outbound s end.

Definition fs_index (d : direction_t) (s : FileStore) : list IndexEntry :=
  match d with inbound => fs_inbound_index s | outbound => fs_outbound_index s end.

Definition with_disk (d : Disk) (s : FileStore) : FileStore :=
  mkFileStore (fs_cfg s) d (fs_valid s) (fs_write_pos s) (fs_next_inbound s)
    (fs_next_outbound s) (fs_expected_hash s) (fs_open_ok s) (fs_generation s)
    (fs_inbound_index s) (fs_outbound_index s).

Definition with_open (valid open_ok : bool) (s : FileStore) : FileStore :=
  mkFileStore (fs_cfg s) (fs_disk s) valid (fs_write_pos s) (fs_next_inbound s)
    (fs_next_outbound s) (fs_expected_hash s) open_ok (fs_generation s)
    (fs_inbound_index s) (fs_outbound_index s).

Definition with_indexes (ins outs : list IndexEntry) (s : FileStore) : FileStore :=
  mkFileStore (fs_cfg s) (fs_disk s) (fs_valid s) (fs_write_pos s) (fs_next_inbound s)
    (fs_next_outbound s) (fs_expected_hash s) (fs_open_ok s) (fs_generation s) ins outs.

(** [write_pos] and both counters. *)
Definition with_counters (pos : Z) (ni no : seqnum_t) (s : FileStore) : FileStore :=
  mkFileStore (fs_cfg s) (fs_disk s) (fs_valid s) pos ni no (fs_expected_hash s)
    (fs_open_ok s) (fs_generation s) (fs_inbound_index s) (fs_outbound_index s).

(** [index_frame], on one direction's index: the last record of a number wins. *)
Definition index_frame (ie : IndexEntry) (idx : list IndexEntry) : list IndexEntry :=
  match last idx with
  | Some b => if ie_seq b =? ie_seq ie then removelast idx ++ [ie] else idx ++ [ie]
  | None => idx ++ [ie]
  end.

(** ** The scan *)

(** [last_good_pos], which [scan_pos] equals at the head of the loop, the indexes and the
    last counter record's values. *)
Record ScanState := mkScan {
  sc_pos : Z;
  sc_inbound : list IndexEntry;
  sc_outbound : list IndexEntry;
  sc_counters : option CounterPayload }.

Definition sc_index (d : direction_t) (st : ScanState) : list IndexEntry :=
  match d with inbound => sc_inbound st | outbound => sc_outbound st end.

(** [static_cast<direction_t>(hdr.dir)], as the comparison with [inbound] reads it. *)
Definition dir_of_byte (b : Z) : direction_t := if b =? 0 then inbound else outbound.
Definition dir_byte (d : direction_t) : Z := match d with inbound => 0 | outbound => 1 end.

Definition scan_frame (ie : IndexEntry) (next_pos : Z) (st : ScanState) : option ScanState :=
  let below := match last (sc_index (ie_dir ie) st) with
    | Some b => ie_seq ie <? ie_seq b
    | None => false
    end in
  if below then None
  else Some
    match ie_dir ie with
    | inbound => mkScan next_pos (index_frame ie (sc_inbound st)) (sc_outbound st) (sc_counters st)
    | outbound => mkScan next_pos (sc_inbound st) (index_frame ie (sc_outbound st)) (sc_counters st)
    end.

(** What one turn of the loop decides. *)
Inductive scan_turn : Type :=
  | Refuse
  | Stop
  | Next (st : ScanState).

Section Crc.
(** [crc32c::Extend] *)
Variable Extend : Z -> bytes -> Z.

(** A record whose checksum holds. *)
Definition scan_payload (h : RecordHeader) (payload : bytes) (next_pos : Z) (st : ScanState)
  : scan_turn :=
  if rh_kind h =? kind_byte rk_frame then
    match scan_frame (mkIndexEntry (rh_seq h) (dir_of_byte (rh_dir h)) (sc_pos st) (rh_len h))
            next_pos st with
    | Some st => Next st
    | None => Refuse
    end
  else if (rh_kind h =? kind_byte rk_counter) && (rh_len h =? kCounterPayloadSize) then
    Next (mkScan next_pos (sc_inbound st) (sc_outbound st) (Some (counters_of payload)))
  else Next (mkScan next_pos (sc_inbound st) (sc_outbound st) (sc_counters st)).

(** The body of the loop; [rd off] is what the read at [off] does. *)
Definition scan_record (rd : Z -> list os_step) (max_frame_bytes : Z) (f : bytes)
    (st : ScanState) : scan_turn :=
  let scan_pos := sc_pos st in
  let fsize := zlen f in
  if fsize - scan_pos <? kHeaderSize then Stop
  else
    match read_exact (rd scan_pos) f kHeaderSize scan_pos with
    | None => Stop
    | Some hb =>
        let h := decode_header hb in
        let payload_offset := scan_pos + kHeaderSize in
        if max_frame_bytes <? rh_len h then
          if payload_offset <? fsize then Refuse else Stop
        else
          let disk_size := record_disk_size (rh_len h) in
          if fsize <? scan_pos + disk_size then Stop
          else
            match (if 0 <? rh_len h then read_exact (rd payload_offset) f (rh_len h) payload_offset
                   else Some []) with
            | None => Stop
            | Some payload =>
                if negb (rh_crc32 h =? compute_record_crc32 Extend h payload) then
                  if scan_pos + disk_size <? fsize then Refuse else Stop
                else scan_payload h payload (scan_pos + disk_size) st
            end
    end.

(** The loop; it ends with the last state, [inr] when the log is refused.  [None]: out of
    fuel. *)
Fixpoint log_scan_loop (fuel : nat) (rd : Z -> list os_step) (max_frame_bytes : Z) (f : bytes)
    (st : ScanState) : option (ScanState + ScanState) :=
  match fuel with
  | O => None
  | S fuel =>
      if sc_pos st <? zlen f then
        match scan_record rd max_frame_bytes f st with
        | Refuse => Some (inr st)
        | Stop => Some (inl st)
        | Next st => log_scan_loop fuel rd max_frame_bytes f st
        end
      else Some (inl st)
  end.

(** Step 1: the sentinel at offset 0. *)
Definition sentinel_good (rd : Z -> list os_step) (hash : Z) (f : bytes) : bool :=
  match read_exact (rd 0) f kHeaderSize 0 with
  | None => false
  | Some hb =>
      let h := decode_header hb in
      if negb (rh_kind h =? kind_byte rk_sentinel) then false
      else if negb (rh_len h =? kSentinelPayloadSize) then false
      else
        match read_exact (rd kHeaderSize) f kSentinelPayloadSize kHeaderSize with
        | None => false
        | Some pb =>
            let p := sentinel_of pb in
            if negb (rh_crc32 h =? compute_record_crc32 Extend h pb) then false
            else if negb (sp_magic p =? kSentinelMagic) then false
            else if negb (sp_version p =? kFormatVersion) then false
            else sp_session_triple_hash p =? hash
        end
  end.

(** What the system does while a log is opened. *)
Record open_env := mkOpenEnv {
  oe_open : bool;
  oe_lock : bool;
  oe_fstat : bool;
  oe_read : Z -> list os_step;
  oe_write : nat -> list os_step;
  oe_truncate : bool;
  oe_sync : bool }.

(** [initialise_fresh], on the file [f]: the file after it and whether it succeeded. *)
Definition initialise_fresh (hash : Z) (initial_inbound initial_outbound : seqnum_t)
    (pw : nat -> list os_step) (sync : bool) (f : bytes) : bytes * bool :=
  match job_writes pw 0 (write_sentinel Extend hash 0 ++
          write_counter Extend initial_inbound initial_outbound (record_disk_size kSentinelPayloadSize)) f with
  | (f, true) => (f, sync)
  | (f, false) => (f, false)
  end.

Definition fresh_write_pos : Z :=
  record_disk_size kSentinelPayloadSize + record_disk_size kCounterPayloadSize.

(** The counter of a direction without a counter record. *)
Definition inferred_next (idx : list IndexEntry) : seqnum_t :=
  let max := match last idx with Some b => ie_seq b | None => 0 end in
  if 0 <? max then u32 (max + 1) else seqnum_min.

(** [restart_scan]: the store and whether the open succeeds.  [None]: out of fuel. *)
Definition restart_scan (e : open_env) (s : FileStore) : option (FileStore * bool) :=
  let dk := mkDisk (dk_log (fs_disk s)) (dk_synced (fs_disk s)) None in
  let s := with_disk dk s in
  let f := dk_log dk in
  if negb (oe_fstat e) then Some (s, false)
  else if zlen f =? 0 then
    match initialise_fresh (fs_expected_hash s) seqnum_min seqnum_min (oe_write e) (oe_sync e) f with
    | (f, true) =>
        Some (with_counters fresh_write_pos seqnum_min seqnum_min (with_disk (mkDisk f f None) s), true)
    | (f, false) => Some (with_disk (mkDisk f (dk_synced dk) None) s, false)
    end
  else if negb (sentinel_good (oe_read e) (fs_expected_hash s) f) then Some (s, false)
  else
    match log_scan_loop (S (length f)) (oe_read e) (fc_max_frame_bytes (fs_cfg s)) f
            (mkScan (record_disk_size kSentinelPayloadSize) (fs_inbound_index s)
               (fs_outbound_index s) None) with
    | None => None
    | Some (inr st) => Some (with_indexes (sc_inbound st) (sc_outbound st) s, false)
    | Some (inl st) =>
        let s := with_indexes (sc_inbound st) (sc_outbound st) s in
        let cut := file_truncate f (sc_pos st) in
        let done dk :=
          match sc_counters st with
          | Some c => with_counters (sc_pos st) (cp_next_inbound c) (cp_next_outbound c) (with_disk dk s)
          | None => with_counters (sc_pos st) (inferred_next (sc_inbound st))
                      (inferred_next (sc_outbound st)) (with_disk dk s)
          end in
        if sc_pos st <? zlen f then
          if negb (oe_truncate e) then Some (s, false)
          else if negb (oe_sync e) then Some (with_disk (mkDisk cut (dk_synced dk) None) s, false)
          else Some (done (mkDisk cut cut None), true)
        else Some (done dk, true)
    end.

(** [FileStore::open_log] *)
Definition open_log (e : open_env) (s : FileStore) : option (FileStore * bool) :=
  if negb (oe_open e) then Some (s, false)
  else if negb (oe_lock e) then Some (with_open true (fs_open_ok s) s, false)
  else
    match restart_scan e (with_open true (fs_open_ok s) s) with
    | None => None
    | Some (s, true) => Some (with_open true true s, true)
    | Some (s, false) => Some (s, false)
    end.

End Crc.

(** ** Records *)

Inductive rec : Type :=
  | FrameRec (d : direction_t) (n : seqnum_t) (frame : bytes)
  | CounterRec (ni no : seqnum_t).

Definition is_u32 (n : Z) : Prop := 0 <= n < 2 ^ 32.

Definition rec_ok (cap : Z) (r : rec) : Prop :=
  match r with
  | FrameRec d n p => is_u32 n /\ zlen p <= cap
  | CounterRec ni no => is_u32 ni /\ is_u32 no
  end.

(** The limits the factory lets through, large enough for a counter record to be read. *)
Definition cap_ok (cap : Z) : Prop := kCounterPayloadSize <= cap < 2 ^ 32.

Section Records.
Context {Extend : Z -> bytes -> Z}.
Hypothesis crc_range : forall c d, is_u32 (Extend c d).

Definition enc (r : rec) : bytes :=
  match r with
  | FrameRec d n p => record_bytes Extend rk_frame (dir_byte d) n p
  | CounterRec ni no => record_bytes Extend rk_counter 255 0 (counter_bytes (mkCounters ni no))
  end.

Definition log_of (rs : list rec) : bytes := List.concat (List.map enc rs).

Definition apply_rec (r : rec) (st : ScanState) : option ScanState :=
  let next := sc_pos st + zlen (enc r) in
  match r with
  | FrameRec d n p => scan_frame (mkIndexEntry n d (sc_pos st) (zlen p)) next st
  | CounterRec ni no =>
      Some (mkScan next (sc_inbound st) (sc_outbound st) (Some (mkCounters ni no)))
  end.

Fixpoint apply_recs (rs : list rec) (st : ScanState) : option ScanState :=
  match rs with
  | [] => Some st
  | r :: rs => match apply_rec r st with Some st => apply_recs rs st | None => None end
  end.

Lemma apply_recs_app a b st :
  apply_recs (a ++ b) st = match apply_recs a st with Some st => apply_recs b st | None => None end.
Proof.
  revert st. induction a as [|r a IH]; intros st; [done|]. cbn [app apply_recs].
  destruct (apply_rec r st); [apply IH|done].
Qed.

Lemma log_of_app a b : log_of (a ++ b) = log_of a ++ log_of b.
Proof. unfold log_of. by rewrite map_app, concat_app. Qed.

(** Either kind of record, as the scan meets it. *)
Definition rec_kind (r : rec) : RecordKind :=
  match r with FrameRec _ _ _ => rk_frame | CounterRec _ _ => rk_counter end.
Definition rec_dir (r : rec) : Z :=
  match r with FrameRec d _ _ => dir_byte d | CounterRec _ _ => 255 end.
Definition rec_seq (r : rec) : Z :=
  match r with FrameRec _ n _ => n | CounterRec _ _ => 0 end.
Definition rec_payload (r : rec) : bytes :=
  match r with FrameRec _ _ p => p | CounterRec ni no => counter_bytes (mkCounters ni no) end.
Definition rec_header (r : rec) : RecordHeader :=
  record_header Extend (rec_kind r) (rec_dir r) (rec_seq r) (rec_payload r).

Lemma enc_eq r : enc r = header_bytes (rec_header r) ++ rec_payload r ++
  zeros (record_padding (zlen (rec_payload r))).
Proof. by destruct r. Qed.

Lemma rec_payload_len cap r : cap_ok cap -> rec_ok cap r -> 0 <= zlen (rec_payload r) <= cap.
Proof.
  unfold cap_ok, kCounterPayloadSize. intros ? Hr. split; [pose_zlen; lia|].
  destruct r; cbn [rec_payload rec_ok] in *; [lia|]. rewrite zlen_counters. lia.
Qed.

Lemma enc_len cap r : cap_ok cap -> rec_ok cap r ->
  zlen (enc r) = record_disk_size (zlen (rec_payload r)).
Proof.
  intros Hc Hr. pose proof (rec_payload_len cap r Hc Hr). unfold cap_ok in Hc.
  destruct r; cbn [enc rec_payload] in *; apply record_len; lia.
Qed.

Lemma enc_len_bounds cap r : cap_ok cap -> rec_ok cap r ->
  16 + zlen (rec_payload r) <= zlen (enc r).
Proof.
  intros Hc Hr. pose proof (rec_payload_len cap r Hc Hr). unfold cap_ok in Hc.
  rewrite (enc_len cap), record_disk_size_eq by (done || lia).
  pose proof (record_padding_range (zlen (rec_payload r))). lia.
Qed.

Lemma rec_header_ok cap r : cap_ok cap -> rec_ok cap r -> header_ok (rec_header r).
Proof.
  intros Hc Hr. pose proof (rec_payload_len cap r Hc Hr). unfold cap_ok in Hc.
  unfold header_ok, rec_header, record_header. cbn [rh_kind rh_dir rh_reserved rh_seq rh_len rh_crc32].
  pose proof (crc_range (Extend 0 (header_prefix (mkHeader (kind_byte (rec_kind r)) (rec_dir r) 0
    (rec_seq r) (u32 (zlen (rec_payload r))) 0))) (rec_payload r)).
  unfold is_u32, compute_record_crc32 in *. pose proof (wrap_range 32 (zlen (rec_payload r))).
  destruct r as [[] n p|ni no]; cbn in *; unfold is_u32 in *; lia.
Qed.

Lemma rec_header_len cap r : cap_ok cap -> rec_ok cap r ->
  rh_len (rec_header r) = zlen (rec_payload r).
Proof.
  intros Hc Hr. pose proof (rec_payload_len cap r Hc Hr). unfold cap_ok in Hc.
  cbn. by rewrite wrap_small by lia.
Qed.

(** The checksum is of the fields that stand before it. *)
Lemma rec_header_crc r :
  compute_record_crc32 Extend (rec_header r) (rec_payload r) = rh_crc32 (rec_header r).
Proof. done. Qed.

Lemma quiet_read f n off : 0 <= n -> 0 <= off -> off + n <= zlen f ->
  read_exact [] f n off = Some (zsub f off n).
Proof. intros. rewrite read_exact_quiet by lia. by destruct (_ <=? _) eqn:?; [|lia]. Qed.

(** The header is read from a record of which its bytes are there. *)
Lemma header_read_part cap r pre rest pos k : cap_ok cap -> rec_ok cap r -> zlen pre = pos ->
  16 <= k -> decode_header (zsub (pre ++ ztake k (enc r) ++ rest) pos 16) = rec_header r.
Proof.
  intros Hc Hr Hpre Hk. rewrite enc_eq.
  replace k with (zlen (header_bytes (rec_header r)) + (k - 16)) by (rewrite zlen_header; lia).
  rewrite ztake_app_plus, <- app_assoc by lia. rewrite zsub_mid by (by rewrite ?zlen_header).
  rewrite <- (app_nil_r (header_bytes _)). by eapply header_round_trip, rec_header_ok.
Qed.

Lemma header_read cap r pre rest pos : cap_ok cap -> rec_ok cap r -> zlen pre = pos ->
  decode_header (zsub (pre ++ enc r ++ rest) pos 16) = rec_header r.
Proof.
  intros Hc Hr Hpre. rewrite <- (ztake_ge (zlen (enc r)) (enc r)) by lia.
  eapply header_read_part; [done..|]. pose proof (enc_len_bounds cap r Hc Hr).
  pose proof (zlen_nonneg (rec_payload r)). lia.
Qed.

(** A whole record at the position is read as itself. *)
Lemma scan_whole cap r st pre rest : cap_ok cap -> rec_ok cap r -> zlen pre = sc_pos st ->
  scan_record Extend (fun _ => []) cap (pre ++ enc r ++ rest) st
    = match apply_rec r st with Some st => Next st | None => Refuse end.
Proof.
  intros Hc Hr Hpre. pose proof (rec_payload_len cap r Hc Hr) as Hp.
  pose proof (enc_len cap r Hc Hr) as Hl. pose proof (enc_len_bounds cap r Hc Hr) as Hb.
  pose proof (zlen_nonneg pre). pose proof (zlen_nonneg rest).
  unfold scan_record. rewrite !zlen_app, Hpre, <- (rec_header_len cap r Hc Hr) in *.
  destruct (_ <? kHeaderSize) eqn:E1; unfold kHeaderSize in *; [lia|].
  rewrite quiet_read by (rewrite ?zlen_app; lia).
  rewrite (header_read cap) by done.
  destruct (cap <? _) eqn:E2; [lia|]. rewrite <- Hl. destruct (_ <? sc_pos st + zlen (enc r)) eqn:E3; [lia|].
  assert (Hpay : (if 0 <? rh_len (rec_header r)
     then read_exact [] (pre ++ enc r ++ rest) (rh_len (rec_header r)) (sc_pos st + 16)
     else Some []) = Some (rec_payload r)).
  { destruct (0 <? _) eqn:E4.
    - rewrite quiet_read by (rewrite ?zlen_app; lia). rewrite enc_eq.
      rewrite <- !app_assoc, app_assoc, zsub_mid; [done| |by eapply rec_header_len].
      by rewrite zlen_app, zlen_header, Hpre.
    - symmetry. f_equal. apply zlen_0_nil. rewrite <- (rec_header_len cap) by done. lia. }
  rewrite Hpay, rec_header_crc, Z.eqb_refl. cbn [negb]. unfold scan_payload, apply_rec.
  destruct r as [d n p|ni no].
  - change (rh_kind _ =? kind_byte rk_frame) with true. cbn iota.
    rewrite (rec_header_len cap) by done. cbn [rec_payload].
    change (rh_seq (rec_header (FrameRec d n p))) with n.
    change (dir_of_byte (rh_dir (rec_header (FrameRec d n p)))) with (dir_of_byte (dir_byte d)).
    assert (dir_of_byte (dir_byte d) = d) as -> by (by destruct d). done.
  - change (rh_kind _ =? kind_byte rk_frame) with false.
    change (rh_kind _ =? kind_byte rk_counter) with true. cbn iota.
    rewrite (rec_header_len cap) by done. cbn [rec_payload]. rewrite zlen_counters.
    cbn [andb Z.eqb kCounterPayloadSize]. rewrite counters_round_trip by apply Hr. done.
Qed.

(** A record cut short at the end of the file stops the scan, whatever its checksum: the
    cut is seen by its size. *)
Lemma scan_torn cap r st pre k : cap_ok cap -> rec_ok cap r -> zlen pre = sc_pos st ->
  0 <= k < zlen (enc r) ->
  scan_record Extend (fun _ => []) cap (pre ++ ztake k (enc r)) st = Stop.
Proof.
  intros Hc Hr Hpre Hk. pose proof (rec_payload_len cap r Hc Hr) as Hp.
  pose proof (enc_len cap r Hc Hr) as Hl. pose proof (zlen_nonneg pre).
  unfold scan_record. rewrite !zlen_app, zlen_take, Hpre by lia.
  destruct (_ <? kHeaderSize) eqn:E1; unfold kHeaderSize in *; [done|].
  rewrite quiet_read by (rewrite ?zlen_app, ?zlen_take; lia).
  rewrite <- (app_nil_r (ztake k (enc r))), (header_read_part cap) by (done || lia).
  rewrite (rec_header_len cap) by done.
  destruct (cap <? _) eqn:E2; [lia|]. rewrite <- Hl.
  destruct (_ <? sc_pos st + zlen (enc r)) eqn:E3; [done|lia].
Qed.

Lemma apply_rec_pos r st st' : apply_rec r st = Some st' -> sc_pos st' = sc_pos st + zlen (enc r).
Proof.
  unfold apply_rec. generalize (zlen (enc r)) as z. intros z. destruct r as [d n p|ni no]; [|by intros [= <-]].
  unfold scan_frame. cbn [ie_dir].
  case_match; [discriminate|]. destruct d; by intros [= <-].
Qed.

Lemma apply_recs_pos rs st st' : apply_recs rs st = Some st' ->
  sc_pos st' = sc_pos st + zlen (log_of rs).
Proof.
  revert st. induction rs as [|r rs IH]; intros st; cbn [apply_recs].
  { intros [= <-]. change (log_of []) with (@nil Z). rewrite zlen_nilZ. lia. }
  destruct (apply_rec r st) as [st1|] eqn:E; [|done]. intros H. rewrite (IH st1 H).
  rewrite (apply_rec_pos _ _ _ E). unfold log_of. cbn [List.map List.concat]. rewrite zlen_app. lia.
Qed.

(** The bytes at the end of the file that the scan cuts: none, or a record cut short. *)
Definition torn_tail (cap : Z) (t : bytes) : Prop :=
  t = [] \/ exists r k, rec_ok cap r /\ 0 <= k < zlen (enc r) /\ t = ztake k (enc r).

(** The scan of a log of records, whatever of one more record follows it, is the fold of
    its records. *)
Lemma scan_log cap rs st st' pre tail fuel :
  cap_ok cap -> Forall (rec_ok cap) rs -> zlen pre = sc_pos st -> torn_tail cap tail ->
  apply_recs rs st = Some st' -> (length rs < fuel)%nat ->
  log_scan_loop Extend fuel (fun _ => []) cap (pre ++ log_of rs ++ tail) st = Some (inl st').
Proof.
  intros Hc Hrs. revert st pre fuel. induction Hrs as [|r rs Hr Hrs IH];
    intros st pre fuel Hpre Ht Ha Hf; (destruct fuel as [|fuel]; [lia|]); cbn [log_scan_loop].
  - injection Ha as <-. change (log_of []) with (@nil Z). cbn [app]. rewrite zlen_app, Hpre.
    destruct Ht as [->|(r & k & Hr & Hk & ->)].
    + rewrite zlen_nilZ. by destruct (_ <? _) eqn:?; [lia|].
    + destruct (_ <? _); [|done]. by rewrite scan_torn.
  - cbn [apply_recs] in Ha. destruct (apply_rec r st) as [st1|] eqn:E1; [|done].
    change (log_of (r :: rs)) with (enc r ++ log_of rs). rewrite <- app_assoc.
    pose proof (enc_len_bounds cap r Hc Hr). pose proof (rec_payload_len cap r Hc Hr).
    destruct (_ <? _) eqn:E2.
    2:{ rewrite !zlen_app in E2. pose_zlen. lia. }
    rewrite (scan_whole cap), E1 by done. rewrite app_assoc. apply IH; try done; [|cbn in Hf; lia].
    rewrite zlen_app, Hpre. symmetry. by apply apply_rec_pos.
Qed.

End Records.
Arguments enc _ r : clear implicits.
Arguments log_of _ rs : clear implicits.
Arguments apply_rec _ r st : clear implicits.
Arguments apply_recs _ rs st : clear implicits.
Arguments torn_tail _ cap t : clear implicits.

(** ** The index *)

Definition ascending (idx : list IndexEntry) : Prop :=
  StronglySorted (fun a b => ie_seq a < ie_seq b) idx.

Lemma index_frame_snoc ie l b :
  index_frame ie (l ++ [b]) = if ie_seq b =? ie_seq ie then l ++ [ie] else l ++ [b] ++ [ie].
Proof.
  unfold index_frame. rewrite last_snoc, removelast_last. by rewrite <- app_assoc.
Qed.

(** The entry of another number, or the old entries without the last and the new one. *)
Lemma index_frame_cases ie idx :
  (index_frame ie idx = idx ++ [ie]) \/
  (exists l b, idx = l ++ [b] /\ ie_seq b = ie_seq ie /\ index_frame ie idx = l ++ [ie]).
Proof.
  destruct idx as [|b l] using rev_ind; [by left|]. rewrite index_frame_snoc.
  destruct (_ =? _) eqn:E; [right; exists l, b; split_and!; [done|lia|done]|].
  left. by rewrite <- app_assoc.
Qed.

Lemma index_frame_Forall (P : IndexEntry -> Prop) ie idx :
  Forall P idx -> P ie -> Forall P (index_frame ie idx).
Proof.
  intros H Hie. destruct (index_frame_cases ie idx) as [->|(l & b & -> & _ & ->)].
  - apply Forall_app. auto.
  - apply Forall_app in H as [? _]. apply Forall_app. auto.
Qed.

Lemma ascending_snoc idx ie :
  ascending (idx ++ [ie]) <-> ascending idx /\ Forall (fun b => ie_seq b < ie_seq ie) idx.
Proof.
  unfold ascending. induction idx as [|a idx IH]; cbn [app].
  { split; [by split; constructor|intros _; by repeat constructor]. }
  split.
  - intros H. inversion H as [|? ? Hs Ha]; subst. apply Forall_app in Ha as [Ha Hie].
    apply IH in Hs as [Hs Hl]. inversion Hie; subst. split; by constructor.
  - intros [H Hl]. inversion H; subst. inversion Hl; subst. constructor.
    + by apply IH.
    + apply Forall_app. split; [done|by constructor].
Qed.

Definition not_below (n : seqnum_t) (idx : list IndexEntry) : Prop :=
  match last idx with Some b => ie_seq b <= n | None => True end.

#[global] Instance not_below_dec n idx : Decision (not_below n idx).
Proof. unfold not_below. destruct (last idx); apply _. Defined.

Lemma ascending_frame ie idx :
  ascending idx -> not_below (ie_seq ie) idx -> ascending (index_frame ie idx).
Proof.
  unfold not_below. destruct idx as [|b l] using rev_ind; [by repeat constructor|].
  rewrite last_snoc, index_frame_snoc. intros Hs Hle. pose proof Hs as Hs'.
  apply ascending_snoc in Hs' as [Hl Hb].
  destruct (_ =? _) eqn:E.
  - apply ascending_snoc. split; [done|]. eapply Forall_impl; [exact Hb|]. cbn. lia.
  - rewrite app_assoc. apply ascending_snoc. split; [done|]. apply Forall_app. split; [|by repeat constructor; lia].
    eapply Forall_impl; [exact Hb|]. cbn. lia.
Qed.

(** The scan's index is ascending and lies between the sentinel and the position. *)
Definition entry_within (pos : Z) (ie : IndexEntry) : Prop :=
  48 <= ie_file_offset ie /\ 0 <= ie_len ie /\ ie_file_offset ie + 16 + ie_len ie <= pos.

Definition scan_wf (st : ScanState) : Prop :=
  48 <= sc_pos st /\
  forall d, ascending (sc_index d st) /\ Forall (entry_within (sc_pos st)) (sc_index d st).

Lemma scan_frame_spec ie pos st :
  scan_frame ie pos st =
    if decide (not_below (ie_seq ie) (sc_index (ie_dir ie) st)) then
      Some (mkScan pos
        (if decide (ie_dir ie = inbound) then index_frame ie (sc_inbound st) else sc_inbound st)
        (if decide (ie_dir ie = outbound) then index_frame ie (sc_outbound st) else sc_outbound st)
        (sc_counters st))
    else None.
Proof.
  unfold scan_frame. case_decide as Hn; unfold not_below in Hn; destruct (last _) as [b|];
    [destruct (_ <? _) eqn:E; [lia|]| |destruct (_ <? _) eqn:E; [done|lia]|done];
    by destruct (ie_dir ie).
Qed.

Lemma scan_frame_index ie pos st st' d : scan_frame ie pos st = Some st' ->
  not_below (ie_seq ie) (sc_index (ie_dir ie) st) /\ sc_pos st' = pos /\
  sc_counters st' = sc_counters st /\
  sc_index d st' = if decide (d = ie_dir ie) then index_frame ie (sc_index d st) else sc_index d st.
Proof.
  rewrite scan_frame_spec. case_decide; [|done]. intros [= <-]. cbn [sc_pos sc_counters].
  split_and!; try done. destruct d, (ie_dir ie); done.
Qed.

Lemma scan_frame_wf ie pos st st' : scan_wf st -> scan_frame ie pos st = Some st' ->
  sc_pos st <= pos -> ie_file_offset ie = sc_pos st -> 0 <= ie_len ie ->
  sc_pos st + 16 + ie_len ie <= pos -> scan_wf st'.
Proof.
  intros [Hp Hs] Hf Hle Ho Hl Hin. split; [destruct (scan_frame_index _ _ _ _ inbound Hf) as (_ & -> & _); lia|].
  intros d. destruct (scan_frame_index _ _ _ _ d Hf) as (Hb & -> & _ & ->).
  destruct (Hs d) as [Ha Hw].
  assert (Hw' : Forall (entry_within pos) (sc_index d st)).
  { eapply Forall_impl; [exact Hw|]. intros e. unfold entry_within. lia. }
  case_decide; [subst d|done]. split; [by apply ascending_frame|].
  apply index_frame_Forall; [done|]. unfold entry_within. lia.
Qed.

Section Any.
Context (Extend : Z -> bytes -> Z).

(** A record's decoded length is a 32-bit word, when the file holds bytes. *)
Lemma le_value_range l : wf_bytes l -> 0 <= le_value l < 2 ^ (8 * zlen l).
Proof.
  induction 1 as [|b l Hb _ IH]; [done|]. cbn [le_value]. rewrite zlen_cons.
  unfold is_byte in Hb. replace (8 * (1 + zlen l)) with (8 + 8 * zlen l) by lia.
  rewrite Z.pow_add_r by (pose_zlen; lia). change (2 ^ 8) with 256. nia.
Qed.

Lemma zlen_sub_le {A} (l : list A) off n : 0 <= n -> zlen (zsub l off n) <= n.
Proof. intros. unfold zsub, ztake, zlen. rewrite length_take. lia. Qed.

Lemma header_of_len b : wf_bytes b -> 0 <= rh_len (decode_header b) < 2 ^ 32.
Proof.
  intros H. cbn [decode_header rh_len].
  assert (Hw : wf_bytes (zsub b 8 4)) by (unfold zsub; auto with fixpp).
  pose proof (le_value_range _ Hw). pose proof (zlen_sub_le b 8 4 ltac:(lia)).
  assert (2 ^ (8 * zlen (zsub b 8 4)) <= 2 ^ 32) by (apply Z.pow_le_mono_r; lia). lia.
Qed.

(** One turn on any file: it moves past a record that lies inside the file. *)
Lemma scan_record_next rd cap f st st' : wf_bytes f -> 0 <= sc_pos st ->
  scan_record Extend rd cap f st = Next st' ->
  sc_pos st + 16 <= sc_pos st' <= zlen f /\ (scan_wf st -> scan_wf st').
Proof.
  intros Hf Hpos. unfold scan_record. destruct (_ <? kHeaderSize) eqn:E1; [done|].
  destruct (read_exact (rd (sc_pos st)) f kHeaderSize (sc_pos st)) as [hb|] eqn:Eh; [|done].
  apply read_exact_sound in Eh; [|unfold kHeaderSize; lia..].
  assert (Hl : 0 <= rh_len (decode_header hb) < 2 ^ 32).
  { apply header_of_len. subst hb. unfold zsub. auto with fixpp. }
  destruct (cap <? _) eqn:E2; [by destruct (_ <? zlen f)|].
  destruct (zlen f <? _) eqn:E3; [done|].
  destruct (if 0 <? _ then _ else _) as [pl|] eqn:Ep; [|done].
  destruct (negb _) eqn:Ec; [by destruct (_ <? zlen f)|].
  rewrite record_disk_size_eq in * by lia. pose proof (record_padding_range _ Hl) as Hpad.
  unfold scan_payload. destruct (rh_kind (decode_header hb) =? kind_byte rk_frame) eqn:Ek.
  - destruct (scan_frame _ _ _) as [st1|] eqn:Es; [|done]. intros [= <-].
    destruct (scan_frame_index _ _ _ _ inbound Es) as (_ & Hp & _). rewrite Hp. split; [lia|].
    intros Hw. eapply scan_frame_wf; [exact Hw|exact Es|cbn [ie_file_offset ie_len]; lia..].
  - assert (Hskip : forall c, sc_pos st + 16 <= sc_pos (mkScan (sc_pos st + (16 + rh_len (decode_header hb) +
        record_padding (rh_len (decode_header hb)))) (sc_inbound st) (sc_outbound st) c) <= zlen f /\
      (scan_wf st -> scan_wf (mkScan (sc_pos st + (16 + rh_len (decode_header hb) +
        record_padding (rh_len (decode_header hb)))) (sc_inbound st) (sc_outbound st) c))).
    { intros c. cbn [sc_pos]. split; [lia|]. intros [Hp Hs]. split; [cbn [sc_pos]; lia|].
      intros d. destruct (Hs d) as [Ha Hw].
      assert (He : forall p, sc_index d (mkScan p (sc_inbound st) (sc_outbound st) c) = sc_index d st)
        by (by destruct d).
      rewrite He. split; [done|].
      eapply Forall_impl; [exact Hw|]. intros e. unfold entry_within. cbn [sc_pos]. lia. }
    destruct (_ && _); intros [= <-]; apply Hskip.
Qed.

(** The loop ends within its fuel, at or after where it began and inside the file. *)
Lemma log_scan_loop_any rd cap f st fuel : wf_bytes f -> 0 <= sc_pos st <= zlen f ->
  zlen f - sc_pos st < 16 * Z.of_nat fuel ->
  exists st', (log_scan_loop Extend fuel rd cap f st = Some (inl st') \/
               log_scan_loop Extend fuel rd cap f st = Some (inr st')) /\
    sc_pos st <= sc_pos st' <= zlen f /\ (scan_wf st -> scan_wf st').
Proof.
  intros Hf. revert st. induction fuel as [|fuel IH]; intros st Hp Hfuel; [lia|].
  cbn [log_scan_loop]. destruct (_ <? _) eqn:E1; [|exists st; auto with lia].
  destruct (scan_record Extend rd cap f st) as [| |st1] eqn:E; [exists st; auto with lia..|].
  destruct (scan_record_next rd cap f st st1 Hf ltac:(lia) E) as [Hp1 Hw1].
  destruct (IH st1) as (st' & Hr & Hp' & Hw'); [lia..|]. exists st'. split_and!; [done|lia|lia|auto].
Qed.

End Any.

(** ** Opening a log *)

Definition open_quiet : open_env := mkOpenEnv true true true (fun _ => []) quiet true true.

(** A store made for [c] over the disk [d], and opened. *)
Definition reopen (Extend : Z -> bytes -> Z) (e : open_env) (c : FileStoreConfig) (d : Disk)
  : option (FileStore * bool) := open_log Extend e (file_store_new c d).

(** The sentinel, then the records. *)
Definition log_bytes (Extend : Z -> bytes -> Z) (hash : Z) (rs : list rec) : bytes :=
  record_bytes Extend rk_sentinel 255 0 (sentinel_payload hash) ++ log_of Extend rs.

Definition scan_start : ScanState := mkScan 48 [] [] None.

(** The counter the scan leaves. *)
Definition recovered_next (st : ScanState) (d : direction_t) : seqnum_t :=
  match sc_counters st with
  | Some c => match d with inbound => cp_next_inbound c | outbound => cp_next_outbound c end
  | None => inferred_next (sc_index d st)
  end.

(** The store of a log whose scan ends in [st]. *)
Definition opened_as (Extend : Z -> bytes -> Z) (c : FileStoreConfig) (log : bytes)
    (st : ScanState) (s : FileStore) : Prop :=
  fs_cfg s = c /\ fs_valid s = true /\ fs_open_ok s = true /\ fs_generation s = 0 /\
  fs_expected_hash s = session_triple_hash (fc_sender_comp_id c) (fc_target_comp_id c) /\
  dk_log (fs_disk s) = log /\ dk_tmp (fs_disk s) = None /\ fs_write_pos s = sc_pos st /\
  forall d, fs_index d s = sc_index d st /\ fs_next d s = recovered_next st d.

Lemma fnv_range s : 0 <= fnv1a_32 s < 2 ^ 32.
Proof.
  unfold fnv1a_32. assert (Hh : 0 <= 2166136261 < 2 ^ 32) by lia. revert Hh.
  generalize 2166136261 as h. induction s as [|c s IH]; intros h Hh; [done|].
  cbn [fold_left]. apply IH. by apply wrap_range.
Qed.

Lemma lxor_u32 a b : 0 <= a < 2 ^ 32 -> 0 <= b < 2 ^ 32 -> 0 <= Z.lxor a b < 2 ^ 32.
Proof.
  intros Ha Hb. split; [apply Z.lxor_nonneg; lia|].
  assert (Hm : forall x, 0 <= x < 2 ^ 32 -> Z.land x (Z.ones 32) = x)
    by (intros x Hx; rewrite Z.land_ones by lia; by apply Z.mod_small).
  assert (Z.lxor a b = Z.land (Z.lxor a b) (Z.ones 32)) as ->.
  { apply Z.bits_inj'. intros n Hn. rewrite Z.land_spec, Z.lxor_spec.
    rewrite <- (Hm a Ha), <- (Hm b Hb), !Z.land_spec. by destruct (Z.testbit (Z.ones 32) n), (Z.testbit a n), (Z.testbit b n). }
  rewrite Z.land_ones by lia. apply Z.mod_pos_bound. lia.
Qed.

Lemma session_hash_range a b : 0 <= session_triple_hash a b < 2 ^ 32.
Proof. unfold session_triple_hash. auto using lxor_u32, fnv_range. Qed.

Section Opening.
Context {Extend : Z -> bytes -> Z}.
Hypothesis crc_range : forall c d, is_u32 (Extend c d).

Definition sentinel_record (hash : Z) : bytes :=
  record_bytes Extend rk_sentinel 255 0 (sentinel_payload hash).

Lemma sentinel_record_len hash : zlen (sentinel_record hash) = 48.
Proof. unfold sentinel_record. rewrite record_len by (by rewrite sentinel_len). by rewrite sentinel_len. Qed.

Lemma sentinel_header_ok hash :
  header_ok (record_header Extend rk_sentinel 255 0 (sentinel_payload hash)).
Proof.
  unfold header_ok, record_header, compute_record_crc32.
  cbn [rh_kind rh_dir rh_reserved rh_seq rh_len rh_crc32 kind_byte]. rewrite sentinel_len.
  split_and!; try lia; try done; apply crc_range.
Qed.

(** The sentinel of a session is taken by the store of that session. *)
Lemma sentinel_accepted hash rest : 0 <= hash < 2 ^ 32 ->
  sentinel_good Extend (fun _ => []) hash (sentinel_record hash ++ rest) = true.
Proof.
  intros Hh. pose proof (sentinel_record_len hash) as Hl. pose proof (zlen_nonneg rest).
  unfold sentinel_good, kHeaderSize, kSentinelPayloadSize.
  rewrite quiet_read by (rewrite ?zlen_app; lia).
  assert (decode_header (zsub (sentinel_record hash ++ rest) 0 16)
      = record_header Extend rk_sentinel 255 0 (sentinel_payload hash)) as ->.
  { unfold sentinel_record, record_bytes. rewrite <- !app_assoc, zsub_front by (by rewrite zlen_header).
    rewrite <- (app_nil_r (header_bytes _)). apply header_round_trip, sentinel_header_ok. }
  change (rh_kind _ =? kind_byte rk_sentinel) with true.
  change (rh_len (record_header Extend rk_sentinel 255 0 (sentinel_payload hash)))
    with (u32 (zlen (sentinel_payload hash))).
  rewrite sentinel_len. change (u32 32 =? 32) with true. cbn [negb].
  rewrite quiet_read by (rewrite ?zlen_app; lia).
  unfold sentinel_record, record_bytes. rewrite <- !app_assoc, zsub_mid by (by rewrite ?zlen_header, ?sentinel_len).
  destruct (sentinel_round_trip hash Hh) as (-> & -> & ->).
  change (compute_record_crc32 Extend (record_header Extend rk_sentinel 255 0 (sentinel_payload hash))
    (sentinel_payload hash)) with (rh_crc32 (record_header Extend rk_sentinel 255 0 (sentinel_payload hash))).
  by rewrite !Z.eqb_refl.
Qed.

Lemma log_of_len_bound cap rs : cap_ok cap -> Forall (rec_ok cap) rs ->
  16 * Z.of_nat (length rs) <= zlen (log_of Extend rs).
Proof.
  intros Hc H. induction H as [|r rs Hr _ IH]; [done|].
  change (log_of Extend (r :: rs)) with (enc Extend r ++ log_of Extend rs).
  rewrite zlen_app. pose proof (enc_len_bounds (Extend:=Extend) cap r Hc Hr).
  pose proof (rec_payload_len cap r Hc Hr). cbn [length]. lia.
Qed.

Lemma file_truncate_app a b : file_truncate (a ++ b) (zlen a) = a.
Proof.
  unfold file_truncate. pose proof (zlen_nonneg b). unfold zeros. rewrite zlen_app.
  replace (Z.to_nat _) with O by lia. cbn [replicate]. rewrite app_nil_r. apply ztake_app.
Qed.

(** The log of a list of records, with at most part of one more at its end, opens as the
    fold of the records, cut back to them. *)
Lemma reopen_log c rs st tail sy tmp :
  cap_ok (fc_max_frame_bytes c) -> Forall (rec_ok (fc_max_frame_bytes c)) rs ->
  torn_tail Extend (fc_max_frame_bytes c) tail -> apply_recs Extend rs scan_start = Some st ->
  let log := log_bytes Extend (session_triple_hash (fc_sender_comp_id c) (fc_target_comp_id c)) rs in
  exists s, reopen Extend open_quiet c (mkDisk (log ++ tail) sy tmp) = Some (s, true) /\
    opened_as Extend c log st s /\ zlen log = sc_pos st /\
    dk_synced (fs_disk s) = match tail with [] => sy | _ => log end.
Proof.
  intros Hc Hrs Ht Ha log. set (hash := session_triple_hash _ _) in *.
  pose proof (session_hash_range (fc_sender_comp_id c) (fc_target_comp_id c)) as Hh. fold hash in Hh.
  assert (Hlog : log = sentinel_record hash ++ log_of Extend rs) by done. clearbody log.
  pose proof (sentinel_record_len hash) as Hsl.
  assert (Hpos : zlen log = sc_pos st).
  { rewrite (apply_recs_pos _ _ _ Ha), Hlog, zlen_app, Hsl. done. }
  pose proof (log_of_len_bound _ _ Hc Hrs) as Hlb. pose proof (zlen_nonneg tail).
  assert (Hscan : log_scan_loop Extend (S (length (log ++ tail))) (fun _ => []) (fc_max_frame_bytes c)
      (log ++ tail) scan_start = Some (inl st)).
  { rewrite Hlog, <- app_assoc. apply scan_log; try done.
    rewrite !length_app. unfold zlen in *. lia. }
  assert (Hgood : sentinel_good Extend (fun _ => []) hash (log ++ tail) = true)
    by (rewrite Hlog, <- app_assoc; by apply sentinel_accepted).
  unfold reopen, open_log, restart_scan, file_store_new.
  cbn [open_quiet oe_open oe_lock oe_fstat oe_read oe_write oe_truncate oe_sync negb with_open
    with_disk fs_disk fs_cfg fs_valid fs_open_ok fs_inbound_index fs_outbound_index
    fs_expected_hash dk_log dk_synced fs_write_pos fs_next_inbound fs_next_outbound fs_generation].
  fold hash. destruct (zlen (log ++ tail) =? 0) eqn:E0.
  { rewrite Hlog, !zlen_app, Hsl in E0. pose_zlen. lia. }
  rewrite Hgood. cbn [negb].
  change (mkScan (record_disk_size kSentinelPayloadSize) [] [] None) with scan_start.
  assert (Hcut : file_truncate (log ++ tail) (sc_pos st) = log)
    by (rewrite <- Hpos; apply file_truncate_app).
  rewrite Hscan. cbv zeta. rewrite Hcut, zlen_app, Hpos.
  destruct tail as [|b tail].
  - rewrite app_nil_r, Z.add_0_r, Z.ltb_irrefl. eexists. split; [reflexivity|].
    destruct (sc_counters st) as [cp|] eqn:Ec; (split; [|done]); unfold opened_as, recovered_next;
      rewrite Ec; split_and!; try done; by intros [].
  - destruct (_ <? _) eqn:E1; [|rewrite zlen_cons in *; pose_zlen; lia]. eexists. split; [reflexivity|].
    destruct (sc_counters st) as [cp|] eqn:Ec; (split; [|done]); unfold opened_as, recovered_next;
      rewrite Ec; split_and!; try done; by intros [].
Qed.

Lemma fresh_writes hash ni no :
  adjacent 0 (write_sentinel Extend hash 0 ++ write_counter Extend ni no (record_disk_size kSentinelPayloadSize)) /\
  joined (write_sentinel Extend hash 0 ++ write_counter Extend ni no (record_disk_size kSentinelPayloadSize))
    = log_bytes Extend hash [CounterRec ni no].
Proof.
  destruct (record_writes_adjacent Extend rk_sentinel 255 0 (sentinel_payload hash) 0) as [Ha Hj].
  { by rewrite sentinel_len. }
  destruct (write_counter_adjacent Extend ni no (record_disk_size kSentinelPayloadSize)) as [Ha' Hj'].
  split.
  - apply adjacent_app; [done|]. unfold write_sentinel. rewrite Hj. fold (sentinel_record hash).
    by rewrite sentinel_record_len.
  - rewrite joined_app. unfold write_sentinel. rewrite Hj, Hj'. unfold log_bytes, log_of.
    cbn [List.map List.concat]. by rewrite app_nil_r.
Qed.

(** A new log is the sentinel and one counter record. *)
Lemma initialise_fresh_log hash ni no pw sync :
  (initialise_fresh Extend hash ni no pw sync []).2 = true ->
  initialise_fresh Extend hash ni no pw sync [] = (log_bytes Extend hash [CounterRec ni no], true) /\
  sync = true.
Proof.
  unfold initialise_fresh. destruct (fresh_writes hash ni no) as [Ha Hj].
  destruct (job_writes_end pw 0 _ [] Ha) as (n & Hn & Hf & Hb). rewrite Hj in *.
  destruct (job_writes pw 0 _ []) as [f []]; cbn [fst snd app] in *; [|done].
  intros ->. rewrite Hf, Hb by done. rewrite ztake_ge by lia. done.
Qed.

End Opening.

(** ** A sample *)

(** A checksum with the range of the library's: the sum of the bytes. *)
Definition sum_crc (c : Z) (d : bytes) : Z := u32 (fold_left Z.add d c).

Lemma sum_crc_range c d : is_u32 (sum_crc c d).
Proof. apply wrap_range. lia. Qed.

Definition sample_file_config : FileStoreConfig :=
  mkFileStoreConfig [65] [66] (mkPolicy commit_per_message 1) 64.

(** A log of one frame, cut in the middle of a second record. *)
Definition sample_log : bytes :=
  log_bytes sum_crc (session_triple_hash [65] [66]) [CounterRec 1 1; FrameRec outbound 1 [72; 73]] ++
  ztake 19 (enc sum_crc (CounterRec 1 2)).

(** ** Properties *)

Lemma read_exact_inside plan f n off b : 0 < n -> 0 <= off ->
  read_exact plan f n off = Some b -> off + n <= zlen f.
Proof.
  intros Hn Hoff H. pose proof (read_exact_sound plan f n off b ltac:(lia) Hoff H) as Hb.
  unfold read_exact in H. destruct (pread_all plan f n off []) as [b'|]; [|done].
  destruct (zlen b' =? n) eqn:El; [|done]. injection H as ->. rewrite Hb in El.
  apply Z.eqb_eq in El. clear Hb. unfold zsub, ztake, zdrop, zlen in *. rewrite length_take, length_drop in El. lia.
Qed.

Lemma sentinel_good_len Extend rd hash f : sentinel_good Extend rd hash f = true -> 48 <= zlen f.
Proof.
  unfold sentinel_good. destruct (read_exact (rd 0) f kHeaderSize 0) as [hb|]; [|done].
  destruct (negb _); [done|]. destruct (negb _); [done|].
  destruct (read_exact (rd kHeaderSize) f kSentinelPayloadSize kHeaderSize) as [pb|] eqn:E; [|done].
  intros _. apply read_exact_inside in E; [change (16 + 32 <= zlen f) in E; lia|reflexivity|discriminate].
Qed.

Lemma truncate_inside f n : 0 <= n <= zlen f -> file_truncate f n = ztake n f.
Proof.
  intros Hn. unfold file_truncate. unfold zeros. replace (Z.to_nat (n - zlen f)) with O by lia.
  cbn [replicate]. by rewrite app_nil_r.
Qed.

(** How an open ends: it is refused, or the store is open and its index well formed. *)
Lemma open_never_stuck (Extend : Z -> bytes -> Z) (e : open_env) (c : FileStoreConfig) (dk : Disk) :
  wf_bytes (dk_log dk) ->
  exists s ok, reopen Extend e c dk = Some (s, ok) /\
  (ok = true -> fs_open_ok s = true /\ fs_cfg s = c) /\
  (ok = true -> dk_log dk <> [] ->
     dk_log (fs_disk s) = ztake (fs_write_pos s) (dk_log dk) /\
     48 <= fs_write_pos s <= zlen (dk_log dk) /\
     forall d, ascending (fs_index d s) /\ Forall (entry_within (fs_write_pos s)) (fs_index d s)).
Proof.
  intros Hwf. unfold reopen, open_log, restart_scan, file_store_new.
  destruct (oe_open e); cbn [negb]; [|do 2 eexists; by split_and!].
  destruct (oe_lock e); cbn [negb]; [|do 2 eexists; by split_and!].
  cbn [with_open with_disk fs_disk fs_cfg fs_valid fs_open_ok fs_inbound_index fs_outbound_index
    fs_expected_hash dk_log dk_synced].
  destruct (oe_fstat e); cbn [negb]; [|do 2 eexists; by split_and!].
  set (f := dk_log dk) in *. destruct (zlen f =? 0) eqn:E0.
  { destruct (initialise_fresh _ _ _ _ _ _ _) as [f' []]; (do 2 eexists; split; [reflexivity|]; split; [done|]);
      intros _ Hne; by destruct (Hne (zlen_0_nil f ltac:(lia))). }
  destruct (sentinel_good _ _ _ f) eqn:Es; cbn [negb]; [|do 2 eexists; by split_and!].
  pose proof (sentinel_good_len _ _ _ _ Es) as H48.
  change (mkScan (record_disk_size kSentinelPayloadSize) [] [] None) with scan_start.
  destruct (log_scan_loop_any Extend (oe_read e) (fc_max_frame_bytes c) f scan_start (S (length f)) Hwf)
    as (st & Hr & Hp & Hw).
  { cbn [scan_start sc_pos]. lia. }
  { cbn [scan_start sc_pos]. unfold zlen. lia. }
  assert (Hwf' : scan_wf st).
  { apply Hw. split; [done|]. intros []; (split; [constructor|done]). }
  cbn [scan_start sc_pos] in Hp.
  destruct Hr as [-> | ->]; [|do 2 eexists; by split_and!].
  assert (Hcut : file_truncate f (sc_pos st) = ztake (sc_pos st) f) by (apply truncate_inside; lia).
  assert (Hend : zlen f <= sc_pos st -> f = ztake (sc_pos st) f) by (intros; by rewrite ztake_ge).
  cbv zeta. destruct Hwf' as [_ Hidx].
  destruct (sc_pos st <? zlen f) eqn:Elt.
  - destruct (oe_truncate e); cbn [negb]; [|do 2 eexists; by split_and!].
    destruct (oe_sync e); cbn [negb]; [|do 2 eexists; by split_and!].
    do 2 eexists. split; [reflexivity|]. split; [by destruct (sc_counters st)|]. intros _ _.
    destruct (sc_counters st); (split; [exact Hcut|]; split; [exact Hp|]); intros []; apply (Hidx inbound) || apply (Hidx outbound).
  - do 2 eexists. split; [reflexivity|]. split; [by destruct (sc_counters st)|]. intros _ _.
    destruct (sc_counters st); (split; [apply Hend; lia|]; split; [exact Hp|]); intros []; apply (Hidx inbound) || apply (Hidx outbound).
Qed.

(** C24: Opening ends on every file, whatever its bytes and however its reads go; and a log that
    is taken is well formed: the store keeps a first part of the file and nothing else of it,
    writes on from its end, and its index holds, in each direction in strictly ascending order
    of number, entries that lie between the sentinel and the end. *)
Theorem opened_log_well_formed (Extend : Z -> bytes -> Z) (e : open_env) (c : FileStoreConfig) (dk : Disk) :
  wf_bytes (dk_log dk) ->
  exists s ok, reopen Extend e c dk = Some (s, ok) /\
  (ok = true -> dk_log dk <> [] ->
     dk_log (fs_disk s) = ztake (fs_write_pos s) (dk_log dk) /\
     48 <= fs_write_pos s <= zlen (dk_log dk) /\
     forall d, ascending (fs_index d s) /\ Forall (entry_within (fs_write_pos s)) (fs_index d s)).
Proof.
  intros Hwf. destruct (open_never_stuck Extend e c dk Hwf) as (s & ok & Hs & _ & H). by exists s, ok.
Qed.

Lemma opened_log_well_formed_witness :
  exists s, reopen sum_crc open_quiet sample_file_config (mkDisk sample_log [] None) = Some (s, true) /\
    dk_log (fs_disk s) = ztake 96 sample_log /\ ascending (fs_index outbound s).
Proof.
  destruct (opened_log_well_formed sum_crc open_quiet sample_file_config (mkDisk sample_log [] None))
    as (s & ok & Hs & H).
  { apply (bool_decide_unpack _). vm_compute. exact I. }
  assert (He : match reopen sum_crc open_quiet sample_file_config (mkDisk sample_log [] None) with
    | Some (s, ok) => ok = true /\ fs_write_pos s = 96 | None => False end) by (vm_compute; split; reflexivity).
  rewrite Hs in He. destruct He as [-> Hpos].
  destruct (H eq_refl) as (Hl & _ & Hd); [vm_compute; discriminate|].
  exists s. split; [exact Hs|]. split; [rewrite Hl, Hpos; reflexivity|apply (Hd outbound)].
Defined.
