(* ===== verification/FileFactory.v ===== *)
(** Where a file store's log is and when it is opened,
    [src/session/file_store_factory.cpp].

    What [pathconf] answers, whether an executor was given, and what the system does while the
    log is opened are arguments; so is the disk behind the log's path. *)
From S2P Require Import Prelude Errors Seqnum MessageStore Framer FileLog FileScan.

(** [validate_compid_filesystem_safety]; [name_max] is [pathconf]'s answer. *)
Definition validate_compid_filesystem_safety (name_max : Z) (compid other_compid : bytes)
  : option error :=
  match compid with
  | [] => Some store_factory_failed
  | _ =>
      if existsb (fun c => c =? 0) compid then Some store_factory_failed
      else if existsb (fun c => c =? 47) compid then Some store_factory_failed
      else if bool_decide (compid = [46]) || bool_decide (compid = [46; 46]) then
        Some store_factory_failed
      else if existsb (fun c => (c <? 32) || (c =? 127)) compid then Some store_factory_failed
      else
        let composed_len := zlen compid + 2 + zlen other_compid + 4 in
        let name_max := if name_max <? 0 then 255 else name_max in
        if name_max <? composed_len then Some store_factory_failed else None
  end.

(** [sender__target.log] *)
Definition log_filename (sender target : bytes) : bytes :=
  sender ++ [95; 95] ++ target ++ [46; 108; 111; 103].

Definition resolved_config (c : FileStoreConfig) (sender target : bytes) : FileStoreConfig :=
  mkFileStoreConfig sender target (fc_policy c) (fc_max_frame_bytes c).

Section Crc.
(** [crc32c::Extend] *)
Variable Extend : Z -> bytes -> Z.

(** [FileStoreFactory::make], with the disk it leaves; [None]: the scan is out of fuel. *)
Definition file_factory_make (name_max : Z) (own_executor engine_executor : bool) (e : open_env)
    (c : FileStoreConfig) (sender target : bytes) (dk : Disk)
  : option (Disk * result error FileStore) :=
  if default_max_frame_bytes <? fc_max_frame_bytes c then Some (dk, Err store_factory_failed)
  else if bool_decide (fp_which (fc_policy c) = commit_interval) then
    Some (dk, Err store_factory_failed)
  else
    match validate_compid_filesystem_safety name_max sender target with
    | Some x => Some (dk, Err x)
    | None =>
        match validate_compid_filesystem_safety name_max target sender with
        | Some x => Some (dk, Err x)
        | None =>
            if negb (own_executor || engine_executor) then Some (dk, Err store_factory_failed)
            else
              match open_log Extend e (file_store_new (resolved_config c sender target) dk) with
              | None => None
              | Some (s, true) => Some (fs_disk s, Ok s)
              | Some (s, false) => Some (fs_disk s, Err store_factory_failed)
              end
        end
    end.

End Crc.

(** ** Names *)

(** A CompID that can stand in a file's name. *)
Definition safe_name (name_max : Z) (compid other : bytes) : Prop :=
  compid <> [] /\ compid <> [46] /\ compid <> [46; 46] /\
  Forall (fun c => c <> 47 /\ 32 <= c /\ c <> 127) compid /\
  zlen (log_filename compid other) <= (if name_max <? 0 then 255 else name_max).

Lemma existsb_Forall (f : Z -> bool) l : existsb f l = false <-> Forall (fun c => f c = false) l.
Proof.
  induction l as [|c l IH]; cbn; [split; [constructor|done]|]. rewrite orb_false_iff, IH.
  split; [intros []; by constructor|intros H; by inversion H].
Qed.

Lemma zlen_log_filename a b : zlen (log_filename a b) = zlen a + 2 + zlen b + 4.
Proof. unfold log_filename. rewrite !zlen_app. change (zlen [95; 95]) with 2. change (zlen [46; 108; 111; 103]) with 4. lia. Qed.

Lemma validate_spec m a b :
  (validate_compid_filesystem_safety m a b = None /\ safe_name m a b) \/
  (validate_compid_filesystem_safety m a b = Some store_factory_failed /\ ~ safe_name m a b).
Proof.
  unfold validate_compid_filesystem_safety, safe_name. rewrite zlen_log_filename.
  destruct a as [|a0 a]; [right; split; [done|tauto]|]. set (l := a0 :: a).
  assert (Hbad : forall f, existsb f l = true -> (forall c, f c = true -> ~ (c <> 47 /\ 32 <= c /\ c <> 127)) ->
    ~ Forall (fun c => c <> 47 /\ 32 <= c /\ c <> 127) l).
  { intros f Hf Hc Hall. apply existsb_exists in Hf as (c & Hin & Hfc). apply (Hc c Hfc).
    eapply (proj1 (Forall_forall _ _) Hall). by apply list_elem_of_In. }
  destruct (existsb (fun c => c =? 0) l) eqn:E1; [right; split; [done|]; intros (_ & _ & _ & Hall & _); exact (Hbad _ E1 ltac:(cbn beta; intros c ?; lia) Hall)|].
  destruct (existsb (fun c => c =? 47) l) eqn:E2; [right; split; [done|]; intros (_ & _ & _ & Hall & _); exact (Hbad _ E2 ltac:(cbn beta; intros c ?; lia) Hall)|].
  do 2 case_bool_decide; cbn [orb]; try (right; split; [done|]; tauto).
  destruct (existsb (fun c => (c <? 32) || (c =? 127)) l) eqn:E3; [right; split; [done|]; intros (_ & _ & _ & Hall & _); exact (Hbad _ E3 ltac:(cbn beta; intros c ?; lia) Hall)|].
  destruct (_ <? zlen l + 2 + zlen b + 4) eqn:E4; [right; split; [done|]; intros (_ & _ & _ & _ & Hl); lia|].
  left. split; [done|]. split_and!; [done|done|done| |lia].
  apply existsb_Forall in E2, E3. clear -E2 E3. induction l; [constructor|].
  inversion E2; subst. inversion E3; subst. constructor; [lia|auto].
Qed.

(** The name of the log does not tell the two CompIDs apart when one holds the separator. *)
Lemma log_filename_shared : log_filename [65] [66; 95; 95; 67] = log_filename [65; 95; 95; 66] [67].
Proof. reflexivity. Qed.

(** The hash of a session is the same for its mirror, and any CompID beside itself hashes as
    any other. *)
Lemma session_hash_mirror a b : session_triple_hash a b = session_triple_hash b a.
Proof.
  unfold session_triple_hash. generalize (fnv1a_32 a) (fnv1a_32 b) (fnv1a_32 []). intros x y z.
  rewrite (Z.lxor_comm (Z.lxor x z) y), Z.lxor_assoc. f_equal. apply Z.lxor_comm.
Qed.

Lemma session_hash_same a b : session_triple_hash a a = session_triple_hash b b.
Proof.
  assert (H : forall x, session_triple_hash x x = fnv1a_32 []); [|by rewrite !H].
  intros x. unfold session_triple_hash. rewrite (Z.lxor_comm (fnv1a_32 x)), Z.lxor_assoc, Z.lxor_nilpotent.
  apply Z.lxor_0_r.
Qed.

(** ** Properties *)

(** A file store is made exactly when its frame limit is within the framer's, its policy is
    one that is implemented, both CompIDs can stand in a file's name, there is an executor for
    its I/O, and the log opens; it is then a store of these CompIDs and open.  Every other
    configuration is refused with one error, before the disk is touched unless it is the log
    itself that does not open. *)
Theorem file_factory_make_exact (Extend : Z -> bytes -> Z) (name_max : Z) (own engine : bool)
    (e : open_env) (c : FileStoreConfig) (sender target : bytes) (dk : Disk) :
  wf_bytes (dk_log dk) ->
  let allowed := fc_max_frame_bytes c <= default_max_frame_bytes /\
    fp_which (fc_policy c) <> commit_interval /\ safe_name name_max sender target /\
    safe_name name_max target sender /\ own || engine = true in
  exists dk' r, file_factory_make Extend name_max own engine e c sender target dk = Some (dk', r) /\
  match r with
  | Ok s => allowed /\ reopen Extend e (resolved_config c sender target) dk = Some (s, true) /\
      fs_open_ok s = true /\ fs_cfg s = resolved_config c sender target /\ dk' = fs_disk s
  | Err x => x = store_factory_failed /\
      ((~ allowed /\ dk' = dk) \/
       (allowed /\ exists s, reopen Extend e (resolved_config c sender target) dk = Some (s, false)))
  end.
Proof.
  intros Hwf allowed. unfold file_factory_make.
  assert (Hno : ~ allowed -> exists dk' r, Some (dk, Err store_factory_failed) = Some (dk', r) /\
    match r with
    | Ok s => allowed /\ reopen Extend e (resolved_config c sender target) dk = Some (s, true) /\
        fs_open_ok s = true /\ fs_cfg s = resolved_config c sender target /\ dk' = fs_disk s
    | Err x => x = store_factory_failed /\
        ((~ allowed /\ dk' = dk) \/
         (allowed /\ exists s, reopen Extend e (resolved_config c sender target) dk = Some (s, false)))
    end) by (intros Hn; do 2 eexists; split; [done|]; split; [done|by left]).
  destruct (_ <? fc_max_frame_bytes c) eqn:E1; [apply Hno; intros (? & _); lia|].
  case_bool_decide as E2; [apply Hno; by intros (_ & ? & _)|].
  destruct (validate_spec name_max sender target) as [[-> Hs]|[-> Hs]]; [|apply Hno; by intros (_ & _ & ? & _)].
  destruct (validate_spec name_max target sender) as [[-> Ht]|[-> Ht]]; [|apply Hno; by intros (_ & _ & _ & ? & _)].
  destruct (own || engine) eqn:E3; cbn [negb]; [|apply Hno; by intros (_ & _ & _ & _ & ?)].
  assert (Ha : allowed) by (unfold allowed; split_and!; [lia|done..]).
  destruct (open_never_stuck Extend e (resolved_config c sender target) dk Hwf) as (s & ok & Ho & Hok & _).
  pose proof Ho as Ho'. unfold reopen in Ho'. rewrite Ho'. destruct ok; do 2 eexists; (split; [reflexivity|]).
  - destruct (Hok eq_refl) as [? ?]. by split_and!.
  - split; [done|]. right. split; [done|]. by exists s.
Qed.

Lemma file_factory_make_exact_witness :
  exists s, file_factory_make sum_crc 255 false true open_quiet sample_file_config [65] [66] (mkDisk [] [] None)
    = Some (fs_disk s, Ok s) /\ fs_open_ok s = true.
Proof.
  destruct (file_factory_make_exact sum_crc 255 false true open_quiet sample_file_config [65] [66]
    (mkDisk [] [] None)) as (dk' & r & Hm & Hr); [constructor|].
  assert (Hok : match file_factory_make sum_crc 255 false true open_quiet sample_file_config [65] [66]
      (mkDisk [] [] None) with Some (_, r) => is_ok r = true | None => False end) by (vm_compute; reflexivity).
  rewrite Hm in Hok. destruct r as [s|x]; [|discriminate Hok]. destruct Hr as (_ & _ & Ho & _ & ->).
  exists s. split; [exact Hm|exact Ho].
Defined.
