(* ===== verification/FileOps.v ===== *)
(** The file store's operations, [src/session/file_store.cpp]: [store], [retrieve],
    [next_seqnum], [reset], [reset_to] and the flush of a graceful close.

    Each operation that writes does so in one job on the file executor, while the store's
    writer lock is held; the job is given what the system answers to each of its calls
    ([file_env]), so a write that fails anywhere, or partly, is one of its runs.  The lock
    is waited for between the test of [open_ok] and the rest of the operation: [X_locked] is
    what an operation does once it has the lock, [X] the call of an operation that finds the
    lock free.  The fault seams of the tests are off. *)
From S2P Require Import Prelude Errors Seqnum MessageStore FileLog FileScan.

(** ** The environment *)

Record reset_env := mkResetEnv {
  re_open_tmp : bool;
  re_rename : bool;
  re_dir_open : bool;
  re_dir_sync : bool;
  re_reopen : bool;
  re_lock : bool }.

(** Whether the lock is granted, the plans of the job's [pwrite]s, whether its flush and the
    two steps of the restore succeed, and the steps of a reset. *)
Record file_env := mkFileEnv {
  fe_locked : bool;
  fe_write : nat -> list os_step;
  fe_sync : bool;
  fe_restore_truncate : bool;
  fe_restore_sync : bool;
  fe_reset : reset_env }.

Definition reset_quiet : reset_env := mkResetEnv true true true true true true.
Definition file_quiet : file_env := mkFileEnv true quiet true true true reset_quiet.

(** ** Jobs *)

Inductive offload_write_result : Set := io_ok | io_failed | io_failed_unrestored.

#[global] Instance offload_write_result_eq_dec : EqDecision offload_write_result.
Proof. solve_decision. Defined.

Definition disk_written (f : bytes) (dk : Disk) : Disk := mkDisk f (dk_synced dk) (dk_tmp dk).
Definition disk_flushed (dk : Disk) : Disk := mkDisk (dk_log dk) (dk_log dk) (dk_tmp dk).

Definition restore_committed_end (e : file_env) (end_ : Z) (dk : Disk)
  : Disk * offload_write_result :=
  if negb (fe_restore_truncate e) then (dk, io_failed_unrestored)
  else
    let dk := disk_written (file_truncate (dk_log dk) end_) dk in
    if negb (fe_restore_sync e) then (dk, io_failed_unrestored)
    else (disk_flushed dk, io_failed).

(** The [pwrite]s of a job, then its flush; a failure restores the end of the log.  On a
    closed descriptor every call fails. *)
Definition write_job (e : file_env) (valid : bool) (ws : list (Z * bytes)) (flush : bool)
    (end_ : Z) (dk : Disk) : Disk * offload_write_result :=
  if negb valid then (dk, io_failed_unrestored)
  else match job_writes (fe_write e) 0 ws (dk_log dk) with
  | (f, false) => restore_committed_end e end_ (disk_written f dk)
  | (f, true) =>
      let dk := disk_written f dk in
      if negb flush then (dk, io_ok)
      else if fe_sync e then (disk_flushed dk, io_ok)
      else restore_committed_end e end_ dk
  end.

(** A job that failed: its disk, and the poison when its end was not restored. *)
Definition job_failed (dk : Disk) (io : offload_write_result) (s : FileStore) : FileStore :=
  let s := with_disk dk s in
  if bool_decide (io = io_failed_unrestored) then with_open (fs_valid s) false s else s.

(** ** The operations *)

Definition flush_now (s : FileStore) : bool :=
  let p := fc_policy (fs_cfg s) in
  match fp_which p with
  | commit_per_message => true
  | commit_batched =>
      let total_after := zlen (fs_inbound_index s) + zlen (fs_outbound_index s) + 1 in
      (0 <? fp_batch_size p) && (total_after mod fp_batch_size p =? 0)
  | commit_interval => false
  end.

(** [impl.index_frame(ie)] *)
Definition fs_index_frame (ie : IndexEntry) (s : FileStore) : FileStore :=
  match ie_dir ie with
  | inbound => with_indexes (index_frame ie (fs_inbound_index s)) (fs_outbound_index s) s
  | outbound => with_indexes (fs_inbound_index s) (index_frame ie (fs_outbound_index s)) s
  end.

Section Crc.
(** [crc32c::Extend] *)
Variable Extend : Z -> bytes -> Z.

Definition fs_store_locked (e : file_env) (n : seqnum_t) (frame : bytes) (d : direction_t)
    (s : FileStore) : FileStore * result error unit :=
  if negb (n =? fs_next d s) then (s, Err store_seqnum_out_of_order)
  else if fc_max_frame_bytes (fs_cfg s) <? zlen frame then (s, Err store_io_failure)
  else
    let frame_off := fs_write_pos s in
    let counter_off := frame_off + record_disk_size (zlen frame) in
    let ni := match d with inbound => u32 (fs_next_inbound s + 1) | _ => fs_next_inbound s end in
    let no := match d with outbound => u32 (fs_next_outbound s + 1) | _ => fs_next_outbound s end in
    let ws := record_writes Extend rk_frame (dir_byte d) n frame frame_off ++
              write_counter Extend ni no counter_off in
    match write_job e (fs_valid s) ws (flush_now s) frame_off (fs_disk s) with
    | (dk, io_ok) =>
        let s := fs_index_frame (mkIndexEntry n d frame_off (zlen frame)) (with_disk dk s) in
        (with_counters (counter_off + record_disk_size kCounterPayloadSize) ni no s, Ok tt)
    | (dk, io) => (job_failed dk io s, Err store_io_failure)
    end.

Definition fs_store (e : file_env) (n : seqnum_t) (frame : bytes) (d : direction_t)
    (s : FileStore) : FileStore * result error unit :=
  if negb (fs_open_ok s) then (s, Err store_io_failure)
  else if negb (fe_locked e) then (s, Err store_cancelled)
  else fs_store_locked e n frame d s.

Definition fs_next_seqnum_locked (e : file_env) (d : direction_t) (increment : bool)
    (s : FileStore) : FileStore * result error seqnum_t :=
  let current := fs_next d s in
  if negb increment then (s, Ok current)
  else if current =? seqnum_max then (s, Err store_seqnum_overflow)
  else
    let ni := match d with inbound => u32 (current + 1) | _ => fs_next_inbound s end in
    let no := match d with outbound => u32 (current + 1) | _ => fs_next_outbound s end in
    let counter_off := fs_write_pos s in
    let s := with_counters counter_off ni no s in
    match write_job e (fs_valid s) (write_counter Extend ni no counter_off) true counter_off (fs_disk s) with
    | (dk, io_ok) =>
        (with_counters (counter_off + record_disk_size kCounterPayloadSize) ni no (with_disk dk s),
         Ok current)
    | (dk, io) => (job_failed dk io s, Err store_io_failure)
    end.

Definition fs_next_seqnum (e : file_env) (d : direction_t) (increment : bool) (s : FileStore)
  : FileStore * result error seqnum_t :=
  if negb (fs_open_ok s) then (s, Err store_io_failure)
  else if negb (fe_locked e) then (s, Err store_cancelled)
  else fs_next_seqnum_locked e d increment s.

(** What a reset's job did. *)
Inductive reset_job_result : Set := reset_done | failed_before_rename | failed_after_rename.

(** The job of [reset_store_to]: the new log is written and flushed beside the old one,
    renamed over it, and opened. *)
Definition reset_job (e : file_env) (hash : Z) (next_in next_out : seqnum_t) (dk : Disk)
  : Disk * reset_job_result :=
  let r := fe_reset e in
  if negb (re_open_tmp r) then (dk, failed_before_rename)
  else
    match initialise_fresh Extend hash next_in next_out (fe_write e) (fe_sync e) [] with
    | (_, false) => (mkDisk (dk_log dk) (dk_synced dk) None, failed_before_rename)
    | (fresh, true) =>
        if negb (re_rename r) then (mkDisk (dk_log dk) (dk_synced dk) None, failed_before_rename)
        else if negb (re_dir_open r) then (mkDisk fresh (dk_synced dk) None, failed_after_rename)
        else if negb (re_dir_sync r) then (mkDisk fresh (dk_synced dk) None, failed_after_rename)
        else
          let dk := mkDisk fresh fresh None in
          if negb (re_reopen r) then (dk, failed_after_rename)
          else if negb (re_lock r) then (dk, failed_after_rename)
          else (dk, reset_done)
    end.

Definition reset_store_locked (e : file_env) (next_in next_out : seqnum_t) (s : FileStore)
  : FileStore * result error unit :=
  match reset_job e (fs_expected_hash s) next_in next_out (fs_disk s) with
  | (dk, failed_before_rename) => (with_disk dk s, Err store_io_failure)
  | (dk, failed_after_rename) => (with_open false false (with_disk dk s), Err store_io_failure)
  | (dk, reset_done) =>
      let s := with_indexes [] [] (with_disk dk s) in
      let s := with_counters fresh_write_pos next_in next_out s in
      (mkFileStore (fs_cfg s) (fs_disk s) true (fs_write_pos s) (fs_next_inbound s)
         (fs_next_outbound s) (fs_expected_hash s) (fs_open_ok s) (u64 (fs_generation s + 1))
         (fs_inbound_index s) (fs_outbound_index s), Ok tt)
  end.

Definition reset_store_to (e : file_env) (next_in next_out : seqnum_t) (s : FileStore)
  : FileStore * result error unit :=
  if negb (fs_open_ok s) then (s, Err store_io_failure)
  else if negb (fe_locked e) then (s, Err store_cancelled)
  else reset_store_locked e next_in next_out s.

Definition fs_reset (e : file_env) (s : FileStore) : FileStore * result error unit :=
  reset_store_to e seqnum_min seqnum_min s.

Definition fs_reset_to (e : file_env) (next_in next_out : seqnum_t) (s : FileStore)
  : FileStore * result error unit :=
  if negb (reset_to_targets_valid next_in next_out) then (s, Err session_invalid_argument)
  else reset_store_to e next_in next_out s.

(** [flush_for_session_close], which takes no lock. *)
Definition flush_for_session_close (e : file_env) (s : FileStore) : FileStore * result error unit :=
  let poisoned := negb (fs_open_ok s) in
  if poisoned && negb (fs_valid s) then (s, Ok tt)
  else
    let s := if fe_sync e then with_disk (disk_flushed (fs_disk s)) s else s in
    (s, if negb (fe_sync e) || poisoned then Err store_io_failure else Ok tt).

#[global] Instance file_message_store : MessageStore FileStore file_env := {
  store := fs_store; next_seqnum := fs_next_seqnum; reset := fs_reset }.

(** ** retrieve *)

(** The copy loop: the entries taken and whether a gap stopped it.  [None]: out of fuel. *)
Fixpoint fs_snapshot_loop (fuel : nat) (idx : list IndexEntry) (s tail_end : seqnum_t)
    (snap : list IndexEntry) : option (list IndexEntry * bool) :=
  match fuel with
  | O => None
  | S fuel =>
      if tail_end <? s then Some (snap, false)
      else
        match idx with
        | [] => Some (snap, true)
        | front :: _ =>
            if s <? ie_seq front then Some (snap, true)
            else
              match idx !! Z.to_nat (s - ie_seq front) with
              | None => Some (snap, true)
              | Some ie =>
                  if negb (ie_seq ie =? s) then Some (snap, true)
                  else fs_snapshot_loop fuel idx (u32 (s + 1)) tail_end (snap ++ [ie])
              end
        end
  end.

(** [read_frame_payload]; a closed descriptor reads nothing. *)
Definition read_frame_payload (rd : Z -> list os_step) (ie : IndexEntry) (s : FileStore)
  : option bytes :=
  let off := ie_file_offset ie + kHeaderSize in
  if negb (fs_valid s) then None
  else read_exact (rd off) (dk_log (fs_disk s)) (ie_len ie) off.

Section Visitor.
Context {V : Type}.
Variable on_frame : V -> seqnum_t -> bytes -> FileStore -> V * FileStore * visit_outcome.
Variable abort_error : V -> error.

(** The visits, without the lock; [rd] says how the reads go. *)
Fixpoint fs_visit (rd : Z -> list os_step) (snap : list IndexEntry) (g0 : Z) (gap_hit : bool)
    (v : V) (s : FileStore) : V * FileStore * result error unit :=
  match snap with
  | [] => (v, s, if gap_hit then Err store_seqnum_gap else Ok tt)
  | ie :: snap =>
      if negb (fs_generation s =? g0) then (v, s, Err store_io_failure)
      else
        match read_frame_payload rd ie s with
        | None => (v, s, Err store_io_failure)
        | Some frame =>
            match on_frame v (ie_seq ie) frame s with
            | (v, s, Threw) => (v, s, Err store_visitor_aborted)
            | (v, s, Failed x) => (v, s, Err x)
            | (v, s, Visited cont) => fs_visit rd snap g0 gap_hit v s
            | (v, s, Visited stop) => (v, s, Ok tt)
            | (v, s, Visited abort) => (v, s, Err (abort_error v))
            end
        end
  end.

(** [reserves]: whether the snapshot gets room for this many entries. *)
Definition fs_retrieve (locked : bool) (reserves : Z -> bool) (rd : Z -> list os_step)
    (begin end_ : seqnum_t) (d : direction_t) (v : V) (s : FileStore)
  : option (V * FileStore * result failure unit) :=
  if negb (fs_open_ok s) then Some (v, s, Err (Returned store_io_failure))
  else if begin =? 0 then Some (v, s, Err (Returned store_seqnum_invalid))
  else if negb (end_ =? 0) && (end_ <? begin) then Some (v, s, Err (Returned store_invalid_range))
  else if negb locked then Some (v, s, Err (Returned store_cancelled))
  else
    let next_seq := fs_next d s in
    let tail_end :=
      if end_ =? 0 then (if next_seq =? seqnum_min then 0 else u32 (next_seq - 1)) else end_ in
    if (tail_end <? begin) || (tail_end <? seqnum_min) then Some (v, s, Ok tt)
    else if negb (reserves (u32 (tail_end - begin + 1))) then Some (v, s, Err (Thrown bad_alloc))
    else
      match fs_snapshot_loop (S (S (length (fs_index d s)))) (fs_index d s) begin tail_end [] with
      | None => None
      | Some (snap, gap_hit) =>
          let '(v, s, r) := fs_visit rd snap (fs_generation s) gap_hit v s in
          Some (v, s, replied r)
      end.

End Visitor.
End Crc.

(** ** What a log holds *)

(** The frames of a direction, the last record of a number standing for it. *)
Definition put_frame (v : list (seqnum_t * bytes)) (p : seqnum_t * bytes) : list (seqnum_t * bytes) :=
  match last v with
  | Some b => if b.1 =? p.1 then removelast v ++ [p] else v ++ [p]
  | None => v ++ [p]
  end.

Definition hold_rec (d : direction_t) (v : list (seqnum_t * bytes)) (r : rec)
  : list (seqnum_t * bytes) :=
  match r with
  | FrameRec d' n p => if decide (d' = d) then put_frame v (n, p) else v
  | CounterRec _ _ => v
  end.

Definition held_frames (d : direction_t) (rs : list rec) : list (seqnum_t * bytes) :=
  fold_left (hold_rec d) rs [].

(** The last counters written. *)
Definition counter_rec (c : option CounterPayload) (r : rec) : option CounterPayload :=
  match r with CounterRec ni no => Some (mkCounters ni no) | _ => c end.

Definition last_counters (rs : list rec) : option CounterPayload := fold_left counter_rec rs None.

(** An index entry's frame in a log. *)
Definition entry_frame (log : bytes) (ie : IndexEntry) : seqnum_t * bytes :=
  (ie_seq ie, zsub log (ie_file_offset ie + 16) (ie_len ie)).

#[global] Instance file_view : StoreView FileStore := {
  view s d := entry_frame (dk_log (fs_disk s)) <$> fs_index d s;
  next_seq s d := fs_next d s;
  store_ok s := fs_open_ok s = true }.

Lemma put_frame_index log ie idx :
  put_frame (entry_frame log <$> idx) (entry_frame log ie) = entry_frame log <$> index_frame ie idx.
Proof.
  destruct idx as [|b l] using rev_ind; [done|]. rewrite index_frame_snoc.
  unfold put_frame. rewrite fmap_app. cbn [fmap list_fmap]. rewrite last_snoc, removelast_last.
  cbn [fst entry_frame]. destruct (_ =? _); rewrite !fmap_app; cbn [fmap list_fmap]; [done|].
  by rewrite <- app_assoc.
Qed.

(** A frame whose number is above those held is added at the end. *)
Lemma put_frame_above v p : Forall (fun q => q.1 < p.1) v -> put_frame v p = v ++ [p].
Proof.
  destruct v as [|b v] using rev_ind; [done|]. unfold put_frame. rewrite last_snoc. intros H.
  apply Forall_app in H as [_ H]. inversion H; subst. destruct (b.1 =? p.1) eqn:E; [lia|done].
Qed.

Section Log.
Context {Extend : Z -> bytes -> Z}.
Hypothesis crc_range : forall c d, is_u32 (Extend c d).

Lemma apply_recs_snoc rs r st st' : apply_recs Extend (rs ++ [r]) st = Some st' <->
  exists st1, apply_recs Extend rs st = Some st1 /\ apply_rec Extend r st1 = Some st'.
Proof.
  rewrite apply_recs_app. split.
  - destruct (apply_recs Extend rs st) as [st1|]; [|done]. cbn.
    destruct (apply_rec Extend r st1) eqn:E; [|done]. intros [= <-]. eauto.
  - intros (st1 & -> & H). cbn. by rewrite H.
Qed.

(** The scan's index reads, from the log, the frames its records hold. *)
Lemma scan_holds cap hash rs st : cap_ok cap -> Forall (rec_ok cap) rs ->
  apply_recs Extend rs scan_start = Some st ->
  zlen (log_bytes Extend hash rs) = sc_pos st /\ scan_wf st /\
  sc_counters st = last_counters rs /\
  forall d, entry_frame (log_bytes Extend hash rs) <$> sc_index d st = held_frames d rs.
Proof.
  intros Hc. revert st. induction rs as [|r rs IH] using rev_ind; intros st Hrs Ha.
  { injection Ha as <-. unfold log_bytes. change (log_of Extend []) with (@nil Z).
    rewrite app_nil_r. pose proof (sentinel_record_len (Extend:=Extend) hash) as Hl.
    unfold sentinel_record in Hl. rewrite Hl. split_and!; [done|split|done|].
    - done.
    - intros []; (split; [constructor|done]).
    - by intros []. }
  apply Forall_app in Hrs as [Hrs Hr]. inversion Hr as [|? ? Hr1 _]; subst.
  apply apply_recs_snoc in Ha as (st1 & Ha & Hr').
  destruct (IH st1 Hrs Ha) as (Hpos & Hwf & Hcn & Hh).
  pose proof (apply_rec_pos _ _ _ Hr') as Hp'.
  pose proof (enc_len_bounds (Extend:=Extend) cap r Hc Hr1) as Hel.
  pose proof (rec_payload_len cap r Hc Hr1) as Hpl.
  assert (Hlog : log_bytes Extend hash (rs ++ [r]) = log_bytes Extend hash rs ++ enc Extend r).
  { unfold log_bytes. rewrite log_of_app. change (log_of Extend [r]) with (enc Extend r ++ []).
    by rewrite app_nil_r, app_assoc. }
  assert (Hkeep : forall d, entry_frame (log_bytes Extend hash (rs ++ [r])) <$> sc_index d st1
      = held_frames d rs).
  { intros d. rewrite <- Hh. apply list_fmap_ext. intros i ie Hi. destruct Hwf as [_ Hwf].
    destruct (Hwf d) as [_ Hw]. eapply (Forall_lookup_1 _ _ _ _ Hw) in Hi. unfold entry_within in Hi.
    unfold entry_frame. f_equal. rewrite Hlog. apply zsub_app_l; lia. }
  unfold last_counters, held_frames in *. rewrite Hlog, zlen_app, Hpos.
  split; [lia|]. rewrite <- Hlog. setoid_rewrite fold_left_app. cbn [fold_left].
  unfold apply_rec in Hr'. destruct r as [d0 n p|ni no].
  - pose proof (scan_frame_index _ _ _ _ inbound Hr') as (_ & _ & Hcn' & _).
    split; [|split; [by rewrite Hcn'|]].
    { eapply scan_frame_wf; [exact Hwf|exact Hr'|cbn [ie_file_offset ie_len rec_payload] in *; lia..]. }
    intros d. destruct (scan_frame_index _ _ _ _ d Hr') as (_ & _ & _ & ->).
    cbn [ie_dir hold_rec]. rewrite <- (Hkeep d). destruct (decide (d = d0)), (decide (d0 = d)); try congruence.
    rewrite <- put_frame_index. f_equal. unfold entry_frame. cbn [ie_seq ie_file_offset ie_len].
    f_equal. rewrite Hlog, enc_eq. cbn [rec_payload]. rewrite app_assoc. apply zsub_mid; [|done].
    rewrite zlen_app, zlen_header. lia.
  - injection Hr' as <-. split_and!; [|done|].
    + destruct Hwf as [? Hwf]. split; [cbn [sc_pos] in *; pose proof (zlen_nonneg (enc Extend (CounterRec ni no))); lia|]. intros d. destruct (Hwf d) as [Ha' Hw].
      assert (He : forall p c, sc_index d (mkScan p (sc_inbound st1) (sc_outbound st1) c) = sc_index d st1)
        by (by destruct d).
      rewrite He. split; [done|]. eapply Forall_impl; [exact Hw|]. intros ie. unfold entry_within.
      cbn [sc_pos]. pose_zlen. lia.
    + intros d. cbn [hold_rec]. rewrite <- Hkeep. by destruct d.
Qed.

End Log.

