(* ===== verification/FileKeeps.v ===== *)
(** The file store against its log: what its operations keep true, whatever the disk does.

    [sound_log] is the log of a list of records that can be opened, [backed] a store that
    stands on one.  A job that fails either restores the log or leaves a first part of the
    records it was writing; either way the log opens again ([left_at]). *)
From S2P Require Import Prelude Errors Seqnum MessageStore FileLog FileScan FileOps.
From Stdlib Require Import Sorted.

Ltac fs_fields :=
  cbn [with_disk with_open with_indexes with_counters fs_index_frame ie_dir fs_cfg fs_disk
    fs_valid fs_write_pos fs_next_inbound fs_next_outbound fs_expected_hash fs_open_ok
    fs_generation fs_inbound_index fs_outbound_index fs_index fs_next].

Section Keeps.
Context {Extend : Z -> bytes -> Z}.
Hypothesis crc_range : forall c d, is_u32 (Extend c d).

(** ** Sound logs *)

Definition store_hash (c : FileStoreConfig) : Z :=
  session_triple_hash (fc_sender_comp_id c) (fc_target_comp_id c).

(** Records the scan accepts, ending in counters that no held number exceeds. *)
Definition sound_log (c : FileStoreConfig) (rs : list rec) (st : ScanState) : Prop :=
  cap_ok (fc_max_frame_bytes c) /\ Forall (rec_ok (fc_max_frame_bytes c)) rs /\
  apply_recs Extend rs scan_start = Some st /\ sc_counters st <> None /\
  forall d, is_u32 (recovered_next st d) /\ not_below (recovered_next st d) (sc_index d st).

(** What a crash, or a job that could not restore the log, leaves of one. *)
Definition left_at (c : FileStoreConfig) (rs : list rec) (st : ScanState) (log : bytes) : Prop :=
  sound_log c rs st /\ exists tail, torn_tail Extend (fc_max_frame_bytes c) tail /\
    log = log_bytes Extend (store_hash c) rs ++ tail.

(** An open store and its log.  A counter of the store can only be ahead of its log's, by
    increments that failed. *)
Definition backed (rs : list rec) (st : ScanState) (s : FileStore) : Prop :=
  sound_log (fs_cfg s) rs st /\ fs_valid s = true /\ fs_open_ok s = true /\
  fs_expected_hash s = store_hash (fs_cfg s) /\
  dk_log (fs_disk s) = log_bytes Extend (store_hash (fs_cfg s)) rs /\
  fs_write_pos s = sc_pos st /\
  forall d, fs_index d s = sc_index d st /\ is_u32 (fs_next d s) /\
    recovered_next st d <= fs_next d s.

(** The direction's counter is the log's. *)
Definition settled (st : ScanState) (s : FileStore) (d : direction_t) : Prop :=
  recovered_next st d = fs_next d s.

Lemma sound_pos c rs st : sound_log c rs st ->
  zlen (log_bytes Extend (store_hash c) rs) = sc_pos st.
Proof. intros (Hc & Hrs & Ha & _). by apply (scan_holds _ _ _ _ Hc Hrs Ha). Qed.

Lemma sound_held c rs st d : sound_log c rs st ->
  entry_frame (log_bytes Extend (store_hash c) rs) <$> sc_index d st = held_frames d rs.
Proof. intros (Hc & Hrs & Ha & _). by apply (scan_holds _ _ _ _ Hc Hrs Ha). Qed.

Lemma sound_wf c rs st : sound_log c rs st -> scan_wf st.
Proof.
  intros (Hc & Hrs & Ha & _). by apply (scan_holds _ (store_hash c) _ _ Hc Hrs Ha).
Qed.

(** The counters a log gives are those of its last counter record. *)
Definition counter_of (c : option CounterPayload) (d : direction_t) : seqnum_t :=
  match c, d with
  | Some c, inbound => cp_next_inbound c
  | Some c, outbound => cp_next_outbound c
  | None, _ => seqnum_min
  end.

Lemma sound_next c rs st d : sound_log c rs st -> recovered_next st d = counter_of (last_counters rs) d.
Proof.
  intros (Hc & Hrs & Ha & Hcn & _). destruct (scan_holds _ (store_hash c) _ _ Hc Hrs Ha) as (_ & _ & <- & _).
  unfold recovered_next. by destruct (sc_counters st), d.
Qed.

Lemma backed_left rs st s : backed rs st s -> left_at (fs_cfg s) rs st (dk_log (fs_disk s)).
Proof.
  intros (Hs & _ & _ & _ & -> & _). split; [done|]. exists []. split; [by left|].
  by rewrite app_nil_r.
Qed.

(** The log a store left is opened, by the same configuration, as the records it holds. *)
Lemma reopen_left c rs st dk : left_at c rs st (dk_log dk) ->
  exists s, reopen Extend open_quiet c dk = Some (s, true) /\ backed rs st s /\ fs_cfg s = c /\
    fs_generation s = 0 /\ forall d, settled st s d /\ view s d = held_frames d rs.
Proof.
  intros (Hs & tail & Ht & Hlog). pose proof Hs as (Hc & Hrs & Ha & Hcn & Hd).
  destruct (reopen_log crc_range c rs st tail (dk_synced dk) (dk_tmp dk) Hc Hrs Ht Ha)
    as (s & Ho & (Ecfg & Ev & Eo & Eg & Eh & El & Et & Ep & Ed) & Hpos & _).
  unfold store_hash in Hlog. rewrite <- Hlog in Ho. destruct dk as [log sy tmp]. cbn [dk_log dk_synced dk_tmp] in *.
  exists s. split; [done|]. split; [|split_and!; [done..|]].
  - unfold backed. rewrite Ecfg. split_and!; try done. intros d. destruct (Ed d) as [-> ->].
    destruct (Hd d). split_and!; [done..|lia].
  - intros d. destruct (Ed d) as [Ei En]. split; [done|]. cbn [view file_view].
    rewrite El, Ei. by apply sound_held.
Qed.

Lemma backed_view rs st s d : backed rs st s -> view s d = held_frames d rs.
Proof.
  intros (Hs & _ & _ & _ & El & _ & Ed). cbn [view file_view]. destruct (Ed d) as [-> _].
  rewrite El. by apply sound_held.
Qed.

Lemma not_below_le n m idx : not_below n idx -> n <= m -> not_below m idx.
Proof. unfold not_below. destruct (last idx); [lia|done]. Qed.

Lemma log_bytes_app hash rs rs' :
  log_bytes Extend hash (rs ++ rs') = log_bytes Extend hash rs ++ log_of Extend rs'.
Proof. unfold log_bytes. by rewrite log_of_app, app_assoc. Qed.

Lemma log_of_one r : log_of Extend [r] = enc Extend r.
Proof. apply app_nil_r. Qed.

(** A frame of the next number, then counters that are not lower, extend a sound log. *)
Lemma sound_frame c rs st d n p : sound_log c rs st -> n = recovered_next st d ->
  zlen p <= fc_max_frame_bytes c -> exists st',
  sound_log c (rs ++ [FrameRec d n p]) st' /\
  sc_pos st' = sc_pos st + record_disk_size (zlen p) /\
  (forall d', recovered_next st' d' = recovered_next st d') /\
  (forall d', sc_index d' st' = if decide (d' = d)
     then index_frame (mkIndexEntry n d (sc_pos st) (zlen p)) (sc_index d st) else sc_index d' st).
Proof.
  intros (Hc & Hrs & Ha & Hcn & Hd) -> Hp. set (n := recovered_next st d).
  assert (Hr : rec_ok (fc_max_frame_bytes c) (FrameRec d n p)) by (split; [apply Hd|done]).
  set (ie := mkIndexEntry n d (sc_pos st) (zlen p)).
  destruct (scan_frame ie (sc_pos st + zlen (enc Extend (FrameRec d n p))) st) as [st'|] eqn:E.
  2:{ rewrite scan_frame_spec in E. case_decide as Hb; [done|]. destruct Hb. apply Hd. }
  pose proof (fun d' => scan_frame_index _ _ _ _ d' E) as Hi.
  assert (Hrec : forall d', recovered_next st' d' = recovered_next st d').
  { intros d'. destruct (Hi d') as (_ & _ & Hc' & _). unfold recovered_next. rewrite Hc'.
    by destruct (sc_counters st). }
  exists st'. split; [split_and!; try done|].
  - apply Forall_app. by split; [|constructor].
  - apply apply_recs_snoc. by exists st.
  - by destruct (Hi inbound) as (_ & _ & -> & _).
  - intros d'. rewrite Hrec. destruct (Hi d') as (_ & _ & _ & ->). cbn [ie_dir ie].
    split; [apply Hd|]. case_decide; [subst d'|apply Hd]. unfold not_below.
    destruct (index_frame_cases ie (sc_index d st)) as [->|(l & b & _ & _ & ->)]; by rewrite last_snoc.
  - split_and!.
    + destruct (Hi inbound) as (_ & -> & _). f_equal. by apply (enc_len (fc_max_frame_bytes c)).
    + done.
    + intros d'. destruct (Hi d') as (_ & _ & _ & ->). cbn [ie_dir ie]. case_decide; by subst.
Qed.

Lemma sound_counter c rs st ni no : sound_log c rs st -> is_u32 ni -> is_u32 no ->
  recovered_next st inbound <= ni -> recovered_next st outbound <= no -> exists st',
  sound_log c (rs ++ [CounterRec ni no]) st' /\ sc_pos st' = sc_pos st + 24 /\
  recovered_next st' inbound = ni /\ recovered_next st' outbound = no /\
  forall d', sc_index d' st' = sc_index d' st.
Proof.
  intros (Hc & Hrs & Ha & Hcn & Hd) Hni Hno Hi Ho.
  assert (Hr : rec_ok (fc_max_frame_bytes c) (CounterRec ni no)) by done.
  exists (mkScan (sc_pos st + zlen (enc Extend (CounterRec ni no))) (sc_inbound st) (sc_outbound st)
    (Some (mkCounters ni no))).
  split; [|split_and!; [cbn [sc_pos]; f_equal; by apply (enc_len (fc_max_frame_bytes c))|done..|by intros []]].
  split_and!; [done| | |done|].
  - apply Forall_app. by split; [|constructor].
  - apply apply_recs_snoc. by exists st.
  - intros []; (split; [done|]); [destruct (Hd inbound) as [_ Hb]|destruct (Hd outbound) as [_ Hb]];
      by eapply not_below_le.
Qed.

(** A first part of the bytes of some records is some of the records and a cut one. *)
Lemma torn_split cap rs k : Forall (rec_ok cap) rs -> 0 <= k <= zlen (log_of Extend rs) ->
  exists i tail, (i <= length rs)%nat /\ torn_tail Extend cap tail /\
    ztake k (log_of Extend rs) = log_of Extend (take i rs) ++ tail.
Proof.
  intros H. revert k. induction H as [|r rs Hr Hrs IH]; intros k Hk.
  { exists 0%nat, []. split_and!; [done|by left|]. unfold ztake. by destruct (Z.to_nat k). }
  change (log_of Extend (r :: rs)) with (enc Extend r ++ log_of Extend rs) in *.
  rewrite zlen_app in Hk. destruct (decide (k < zlen (enc Extend r))) as [Hlt|Hge].
  - exists 0%nat, (ztake k (enc Extend r)). split_and!; [cbn; lia| |].
    + right. exists r, k. split_and!; [done|lia|lia|done].
    + by rewrite ztake_app_l by lia.
  - destruct (IH (k - zlen (enc Extend r))) as (i & tail & Hi & Ht & He); [lia|].
    exists (S i), tail. split_and!; [cbn; lia|done|].
    replace k with (zlen (enc Extend r) + (k - zlen (enc Extend r))) at 1 by lia.
    rewrite ztake_app_plus, He by lia. cbn [take].
    change (log_of Extend (r :: take i rs)) with (enc Extend r ++ log_of Extend (take i rs)).
    by rewrite app_assoc.
Qed.

(** ** Jobs *)

(** A job that appends [new] to the log: done, it has; failed, the log is as it was; not
    restored, it has appended a first part of it. *)
Lemma write_job_end e ws flush end_ new dk dk' io : end_ = zlen (dk_log dk) ->
  adjacent end_ ws -> joined ws = new -> write_job e true ws flush end_ dk = (dk', io) ->
  dk_tmp dk' = dk_tmp dk /\
  match io with
  | io_ok => dk_log dk' = dk_log dk ++ new /\ (flush = true -> dk_synced dk' = dk_log dk')
  | io_failed => dk_log dk' = dk_log dk /\ dk_synced dk' = dk_log dk
  | io_failed_unrestored => exists k, 0 <= k <= zlen new /\ dk_log dk' = dk_log dk ++ ztake k new
  end.
Proof.
  intros -> Hadj Hj. unfold write_job. cbn [negb].
  destruct (job_writes_end (fe_write e) 0 ws (dk_log dk) Hadj) as (n & Hn & Hf & Hb).
  rewrite Hj in *. destruct (job_writes (fe_write e) 0 ws (dk_log dk)) as [f b]. cbn [fst snd] in *. subst f.
  assert (Hrest : restore_committed_end e (zlen (dk_log dk)) (disk_written (dk_log dk ++ ztake n new) dk) = (dk', io) ->
    dk_tmp dk' = dk_tmp dk /\
    match io with
    | io_ok => dk_log dk' = dk_log dk ++ new /\ (flush = true -> dk_synced dk' = dk_log dk')
    | io_failed => dk_log dk' = dk_log dk /\ dk_synced dk' = dk_log dk
    | io_failed_unrestored => exists k, 0 <= k <= zlen new /\ dk_log dk' = dk_log dk ++ ztake k new
    end).
  { unfold restore_committed_end. destruct (negb _); [intros [= <- <-]; split; [done|]; by exists n|].
    cbn [dk_log disk_written]. rewrite file_truncate_app.
    destruct (negb _); intros [= <- <-]; (split; [done|]); [|done].
    exists 0. split; [lia|]. cbn. by rewrite app_nil_r. }
  destruct b; [|done]. specialize (Hb eq_refl). subst n. rewrite ztake_ge in * by lia.
  destruct flush; cbn [negb]; [|by intros [= <- <-]].
  destruct (fe_sync e); [by intros [= <- <-]|done].
Qed.

(** ** Operations *)

(** A store whose job could not restore the log: it refuses every call, and its log holds
    some of the records the job was writing. *)
Definition poisoned (rs new : list rec) (s : FileStore) : Prop :=
  fs_open_ok s = false /\ fs_valid s = true /\
  exists i st, (i <= length new)%nat /\ left_at (fs_cfg s) (rs ++ take i new) st (dk_log (fs_disk s)).

(** The counters, the indexes and what surrounds them. *)
Definition same_memory (s s' : FileStore) : Prop :=
  fs_cfg s' = fs_cfg s /\ fs_generation s' = fs_generation s /\
  forall d, fs_index d s' = fs_index d s /\ fs_next d s' = fs_next d s.

Lemma unrestored_left c rs new k : 0 <= k <= zlen (log_of Extend new) ->
  (forall i, (i <= length new)%nat -> exists st, sound_log c (rs ++ take i new) st) ->
  exists i st, (i <= length new)%nat /\
    left_at c (rs ++ take i new) st
      (log_bytes Extend (store_hash c) rs ++ ztake k (log_of Extend new)).
Proof.
  intros Hk Hi.
  assert (Hnew : Forall (rec_ok (fc_max_frame_bytes c)) new).
  { destruct (Hi (length new) ltac:(lia)) as (st & _ & H & _). rewrite take_ge in H by lia.
    by apply Forall_app in H as [_ H]. }
  destruct (torn_split _ new k Hnew Hk) as (i & tail & Hil & Ht & He).
  destruct (Hi i Hil) as [st Hs]. exists i, st. split; [done|]. split; [done|].
  exists tail. split; [done|]. by rewrite He, log_bytes_app, app_assoc.
Qed.

Lemma backed_same rs st s s' : backed rs st s -> same_memory s s' ->
  fs_valid s' = true -> fs_open_ok s' = true -> fs_expected_hash s' = fs_expected_hash s ->
  fs_write_pos s' = fs_write_pos s -> dk_log (fs_disk s') = dk_log (fs_disk s) -> backed rs st s'.
Proof.
  intros (Hs & _ & _ & Hh & Hl & Hw & Hd) (Hc & _ & Hm) ? ? Hh' Hw' Hl'. unfold backed.
  rewrite Hc, Hh', Hl', Hw'. split_and!; try done. intros d. destruct (Hm d) as [-> ->]. apply Hd.
Qed.

(** The state a failed job leaves. *)
Lemma job_failed_spec rs st new s dk io :
  backed rs st s -> io <> io_ok ->
  (forall i, (i <= length new)%nat -> exists st', sound_log (fs_cfg s) (rs ++ take i new) st') ->
  match io with
  | io_failed => dk_log dk = dk_log (fs_disk s)
  | _ => exists k, 0 <= k <= zlen (log_of Extend new) /\
           dk_log dk = dk_log (fs_disk s) ++ ztake k (log_of Extend new)
  end ->
  same_memory s (job_failed dk io s) /\
  (backed rs st (job_failed dk io s) \/ poisoned rs new (job_failed dk io s)).
Proof.
  intros Hb Hio Hnew Hdk. split; [unfold job_failed; case_bool_decide; by split_and!; [..|intros []]|].
  destruct io; [done| |].
  - left. pose proof Hb as (_ & Hv & Ho & _). eapply backed_same; [exact Hb|..]; done.
  - right. destruct Hdk as (k & Hk & Hdk). destruct Hb as (_ & Hv & _ & _ & Hl & _).
    assert (job_failed dk io_failed_unrestored s = with_open (fs_valid s) false (with_disk dk s)) as -> by done.
    split_and!; [done|done|]. cbn [with_open with_disk fs_cfg fs_disk].
    rewrite Hdk, Hl. by apply unrestored_left.
Qed.

(** The counter record in which one direction's counter is [m]. *)
Definition counters_with (d : direction_t) (m : seqnum_t) (s : FileStore) : rec :=
  match d with
  | inbound => CounterRec m (fs_next outbound s)
  | outbound => CounterRec (fs_next inbound s) m
  end.

Lemma fs_store_spec rs st e n p d s s' r :
  backed rs st s -> settled st s d -> n <> seqnum_max ->
  fs_store Extend e n p d s = (s', r) ->
  match r with
  | Ok _ =>
      n = fs_next d s /\ zlen p <= fc_max_frame_bytes (fs_cfg s) /\
      fs_cfg s' = fs_cfg s /\ fs_generation s' = fs_generation s /\
      (forall d', fs_next d' s' = if decide (d' = d) then n + 1 else fs_next d' s) /\
      (flush_now s = true -> dk_synced (fs_disk s') = dk_log (fs_disk s')) /\
      exists st', (forall d', settled st' s' d') /\
        backed (rs ++ [FrameRec d n p; CounterRec (fs_next inbound s') (fs_next outbound s')]) st' s'
  | Err _ =>
      same_memory s s' /\
      (backed rs st s' \/ (n = fs_next d s /\ poisoned rs [FrameRec d n p; counters_with d (n + 1) s] s'))
  end.
Proof.
  intros Hb Hset Hmax. unfold fs_store, fs_store_locked.
  assert (Hrefl : same_memory s s /\ backed rs st s) by done.
  pose proof Hb as (Hs & Hv & Ho & Hh & Hl & Hw & Hd). rewrite Ho. cbn [negb].
  destruct (negb (fe_locked e)); [intros [= <- <-]; split; [apply Hrefl|by left]|].
  destruct (n =? fs_next d s) eqn:En; cbn [negb]; [|intros [= <- <-]; split; [apply Hrefl|by left]].
  apply Z.eqb_eq in En. destruct (_ <? zlen p) eqn:Ep; [intros [= <- <-]; split; [apply Hrefl|by left]|].
  set (ni := match d with inbound => _ | _ => _ end). set (no := match d with outbound => _ | _ => _ end).
  destruct (Hd d) as (_ & Hu & _). assert (Hn1 : u32 (fs_next d s + 1) = n + 1).
  { rewrite En. unfold is_u32, seqnum_max, UINT32_MAX in *. apply wrap_small. lia. }
  assert (Hni : ni = if decide (inbound = d) then n + 1 else fs_next_inbound s) by (destruct d; done).
  assert (Hno : no = if decide (outbound = d) then n + 1 else fs_next_outbound s) by (destruct d; done).
  destruct (sound_frame (fs_cfg s) rs st d n p Hs) as (st1 & Hs1 & Hp1 & Hr1 & Hi1); [unfold settled in Hset; lia|lia|].
  assert (Hle : recovered_next st inbound <= ni /\ recovered_next st outbound <= no /\ is_u32 ni /\ is_u32 no).
  { destruct (Hd inbound) as (_ & Hui & ?), (Hd outbound) as (_ & Huo & ?). unfold settled, is_u32, seqnum_max, UINT32_MAX in *.
    cbn [fs_next] in *. rewrite Hni, Hno. destruct d; cbn [fs_next] in *; repeat case_decide; try done; lia. }
  destruct Hle as (Hli & Hlo & Hui & Huo).
  destruct (sound_counter (fs_cfg s) _ st1 ni no Hs1 Hui Huo) as (st2 & Hs2 & Hp2 & Hri & Hro & Hi2);
    [by rewrite Hr1..|].
  rewrite <- app_assoc in Hs2. cbn [app] in Hs2.
  assert (Hcw : CounterRec ni no = counters_with d (n + 1) s) by (rewrite Hni, Hno; by destruct d).
  set (new := [FrameRec d n p; CounterRec ni no]) in *.
  assert (Hnew : forall i, (i <= length new)%nat -> exists st', sound_log (fs_cfg s) (rs ++ take i new) st').
  { intros [|[|[|i]]] Hi; cbn [take new]; [rewrite app_nil_r; by exists st|by exists st1|by exists st2|cbn in Hi; lia]. }
  pose proof Hs as (Hc & _). unfold cap_ok in Hc. pose proof (zlen_nonneg p).
  destruct (record_writes_adjacent Extend rk_frame (dir_byte d) n p (fs_write_pos s)) as [Ha1 Hj1]; [lia|].
  destruct (write_counter_adjacent Extend ni no (fs_write_pos s + record_disk_size (zlen p))) as [Ha2 Hj2].
  rewrite Hv. assert (Hend : fs_write_pos s = zlen (dk_log (fs_disk s))) by (rewrite Hl, (sound_pos _ _ _ Hs); done).
  destruct (write_job _ _ _ _ _ _) as [dk io] eqn:Ej.
  apply (write_job_end e _ _ _ (log_of Extend new)) in Ej as [_ Hio]; [|done|..].
  2:{ apply adjacent_app; [done|]. rewrite Hj1, record_len by lia. done. }
  2:{ rewrite joined_app, Hj1, Hj2. unfold log_of. cbn [List.map List.concat new]. by rewrite app_nil_r. }
  destruct io.
  - intros [= <- <-]. destruct Hio as [Hlog Hfl].
    split_and!; [done|lia|by destruct d..| | |].
    + intros d'. destruct d, d'; cbn; rewrite ?Hn1; done.
    + intros Hf. destruct d; by apply Hfl.
    + exists st2. split.
      { intros []; unfold settled; [rewrite Hri|rewrite Hro]; by destruct d. }
      replace [FrameRec d n p; CounterRec _ _] with new by (by destruct d).
      assert (Hidx : forall d', sc_index d' st2 = if decide (d' = d)
        then index_frame (mkIndexEntry n d (sc_pos st) (zlen p)) (sc_index d st) else sc_index d' st)
        by (intros d'; by rewrite Hi2, Hi1).
      rewrite <- Hw in Hidx. destruct (Hd inbound) as (Ei & _), (Hd outbound) as (Eo & _).
      cbn [fs_index] in Ei, Eo.
      unfold backed. destruct d; fs_fields; (split_and!; [done|done|done|done| | |]);
        [by rewrite Hlog, Hl, log_bytes_app|rewrite Hp2, Hp1, Hw; change (record_disk_size kCounterPayloadSize) with 24; lia|
        |by rewrite Hlog, Hl, log_bytes_app|rewrite Hp2, Hp1, Hw; change (record_disk_size kCounterPayloadSize) with 24; lia|];
        intros []; rewrite Hidx; fs_fields; repeat (case_decide; [|done]); rewrite ?Ei, ?Eo, ?Hri, ?Hro; (split_and!; [done|done|lia]).
  - intros [= <- <-].
    destruct (job_failed_spec rs st new s dk io_failed Hb ltac:(done) Hnew ltac:(apply Hio)) as [? ?].
    rewrite <- Hcw. tauto.
  - intros [= <- <-].
    destruct (job_failed_spec rs st new s dk io_failed_unrestored Hb ltac:(done) Hnew Hio) as [? ?].
    rewrite <- Hcw. tauto.
Qed.

Lemma fs_next_seqnum_spec rs st e d inc s s' r :
  backed rs st s -> fs_next_seqnum Extend e d inc s = (s', r) ->
  fs_cfg s' = fs_cfg s /\ fs_generation s' = fs_generation s /\
  (forall d', fs_index d' s' = fs_index d' s) /\
  match r with
  | Ok n =>
      n = fs_next d s /\
      (forall d', fs_next d' s' = if decide (d' = d) then (if inc then n + 1 else n) else fs_next d' s) /\
      if inc then n <> seqnum_max /\ dk_synced (fs_disk s') = dk_log (fs_disk s') /\
        exists st', (forall d', settled st' s' d') /\
          backed (rs ++ [CounterRec (fs_next inbound s') (fs_next outbound s')]) st' s'
      else s' = s
  | Err _ =>
      (forall d', fs_next d' s' = fs_next d' s \/ (d' = d /\ inc = true /\ fs_next d' s' = fs_next d' s + 1)) /\
      (backed rs st s' \/ poisoned rs [CounterRec (fs_next inbound s') (fs_next outbound s')] s')
  end.
Proof.
  intros Hb. unfold fs_next_seqnum, fs_next_seqnum_locked.
  assert (Hrefl : fs_cfg s = fs_cfg s /\ fs_generation s = fs_generation s /\
    (forall d', fs_index d' s = fs_index d' s)) by done.
  assert (Hstay : forall d', fs_next d' s = fs_next d' s \/
    (d' = d /\ inc = true /\ fs_next d' s = fs_next d' s + 1)) by auto.
  pose proof Hb as (Hs & Hv & Ho & Hh & Hl & Hw & Hd). rewrite Ho. cbn [negb].
  destruct (negb (fe_locked e)); [intros [= <- <-]; by split_and!; [..|left]|].
  destruct inc; cbn [negb].
  2:{ intros [= <- <-]. split_and!; try done. intros d'. case_decide; by subst. }
  destruct (_ =? seqnum_max) eqn:Em; [intros [= <- <-]; by split_and!; [..|left]|].
  set (n := fs_next d s) in *. set (ni := match d with inbound => _ | _ => _ end).
  set (no := match d with outbound => _ | _ => _ end).
  destruct (Hd d) as (_ & Hu & _). fold n in Hu. assert (Hn1 : u32 (n + 1) = n + 1).
  { unfold is_u32, seqnum_max, UINT32_MAX in *. apply wrap_small. lia. }
  assert (Hni : ni = if decide (inbound = d) then n + 1 else fs_next_inbound s) by (destruct d; done).
  assert (Hno : no = if decide (outbound = d) then n + 1 else fs_next_outbound s) by (destruct d; done).
  clearbody ni no.
  assert (Hnx : forall d', reset_counter ni no d' = if decide (d' = d) then n + 1 else fs_next d' s).
  { intros []; cbn; [rewrite Hni|rewrite Hno]; by destruct d. }
  assert (Hge : forall d', is_u32 (reset_counter ni no d') /\ recovered_next st d' <= reset_counter ni no d').
  { intros d'. rewrite Hnx. destruct (Hd d') as (_ & Hud & ?). destruct (decide (d' = d)); [|done]. subst d'.
    unfold is_u32, seqnum_max, UINT32_MAX in *. unfold n in Em, Hu |- *. lia. }
  destruct (Hge inbound) as [Hui Hli], (Hge outbound) as [Huo Hlo]. cbn [reset_counter] in *.
  set (s1 := with_counters (fs_write_pos s) ni no s).
  assert (Hb1 : backed rs st s1).
  { unfold backed, s1. fs_fields. split_and!; try done. intros d'. destruct (Hge d'). destruct (Hd d') as (Hi & _).
    by destruct d'. }
  destruct (sound_counter (fs_cfg s) rs st ni no Hs Hui Huo Hli Hlo) as (st2 & Hs2 & Hp2 & Hri & Hro & Hi2).
  assert (Hnew : forall i, (i <= length [CounterRec ni no])%nat ->
    exists st', sound_log (fs_cfg s1) (rs ++ take i [CounterRec ni no]) st').
  { intros [|[|i]] Hi; cbn [take]; [rewrite app_nil_r; by exists st|by exists st2|cbn in Hi; lia]. }
  destruct (write_counter_adjacent Extend ni no (fs_write_pos s)) as [Ha2 Hj2].
  cbv zeta. fold s1. change (fs_valid s1) with (fs_valid s). rewrite Hv. destruct (write_job _ _ _ _ _ _) as [dk io] eqn:Ej.
  apply (write_job_end e _ _ _ (log_of Extend [CounterRec ni no])) in Ej as [_ Hio];
    [|by rewrite Hw; subst s1; fs_fields; rewrite Hl, (sound_pos _ _ _ Hs)|done|by rewrite Hj2, log_of_one].
  assert (Hfail : io <> io_ok -> (job_failed dk io s1, @Err _ seqnum_t store_io_failure) = (s', r) ->
    same_memory s1 s' /\ r = Err store_io_failure /\ (backed rs st s' \/ poisoned rs [CounterRec ni no] s')).
  { intros Hne [= <- <-]. destruct (job_failed_spec rs st _ s1 dk io Hb1 Hne Hnew) as [? ?]; [|done].
    destruct io; [done|apply Hio|apply Hio]. }
  destruct io.
  - intros [= <- <-]. destruct Hio as [Hlog Hfl]. unfold s1. fs_fields.
    split_and!; [done|done|by intros []|done|intros []; fs_fields; [apply (Hnx inbound)|apply (Hnx outbound)]|lia|by apply Hfl|].
    exists st2. split; [by intros []; unfold settled; fs_fields|].
    unfold backed. fs_fields. split_and!; [done..| | |].
    + rewrite Hlog. unfold s1. fs_fields. by rewrite Hl, log_bytes_app.
    + change (record_disk_size kCounterPayloadSize) with 24. lia.
    + destruct (Hd inbound) as (Ei & _), (Hd outbound) as (Eo & _).
      intros []; fs_fields; rewrite Hi2, ?Hri, ?Hro; (split_and!; [done|done|lia]).
  - intros Hr. destruct (Hfail ltac:(done) Hr) as ((Hc & Hg & Hm) & -> & Hbp).
    split_and!; [by rewrite Hc|by rewrite Hg|intros d'; destruct (Hm d') as [-> _]; by destruct d'| |].
    + intros d'. destruct (Hm d') as [_ ->]. assert (fs_next d' s1 = reset_counter ni no d') as -> by (by destruct d').
      rewrite Hnx. destruct (decide (d' = d)); [right; by subst|by left].
    + by rewrite (proj2 (Hm inbound)), (proj2 (Hm outbound)).
  - intros Hr. destruct (Hfail ltac:(done) Hr) as ((Hc & Hg & Hm) & -> & Hbp).
    split_and!; [by rewrite Hc|by rewrite Hg|intros d'; destruct (Hm d') as [-> _]; by destruct d'| |].
    + intros d'. destruct (Hm d') as [_ ->]. assert (fs_next d' s1 = reset_counter ni no d') as -> by (by destruct d').
      rewrite Hnx. destruct (decide (d' = d)); [right; by subst|by left].
    + by rewrite (proj2 (Hm inbound)), (proj2 (Hm outbound)).
Qed.

(** A log of one counter record. *)
Lemma fresh_sound c a b : cap_ok (fc_max_frame_bytes c) -> is_u32 a -> is_u32 b ->
  sound_log c [CounterRec a b] (mkScan 72 [] [] (Some (mkCounters a b))).
Proof.
  intros Hc Ha Hb. assert (Hr : rec_ok (fc_max_frame_bytes c) (CounterRec a b)) by done.
  split_and!; [done|by constructor| |done|by intros []].
  cbn [apply_recs]. unfold apply_rec. rewrite (enc_len (fc_max_frame_bytes c)) by done. done.
Qed.

Lemma reset_store_spec rs st e a b s s' r :
  backed rs st s -> is_u32 a -> is_u32 b -> reset_store_to Extend e a b s = (s', r) ->
  match r with
  | Ok _ =>
      fs_cfg s' = fs_cfg s /\ fs_generation s' = u64 (fs_generation s + 1) /\
      dk_synced (fs_disk s') = dk_log (fs_disk s') /\
      (forall d, fs_index d s' = [] /\ fs_next d s' = reset_counter a b d) /\
      exists st', (forall d, settled st' s' d) /\ backed [CounterRec a b] st' s'
  | Err _ =>
      same_memory s s' /\
      (backed rs st s' \/
       (fs_open_ok s' = false /\ fs_valid s' = false /\
        exists st', left_at (fs_cfg s') [CounterRec a b] st' (dk_log (fs_disk s'))))
  end.
Proof.
  intros Hb Ha Hab. unfold reset_store_to, reset_store_locked.
  assert (Hrefl : same_memory s s) by done.
  pose proof Hb as (Hs & Hv & Ho & Hh & Hl & Hw & Hd). rewrite Ho. cbn [negb].
  destruct (negb (fe_locked e)); [intros [= <- <-]; split; [done|by left]|].
  set (st' := mkScan 72 [] [] (Some (mkCounters a b))).
  assert (Hf : sound_log (fs_cfg s) [CounterRec a b] st') by (apply fresh_sound; [apply Hs|done..]).
  assert (Hold : forall dk, dk_log dk = dk_log (fs_disk s) ->
    same_memory s (with_disk dk s) /\ (backed rs st (with_disk dk s) \/
       (fs_open_ok (with_disk dk s) = false /\ fs_valid (with_disk dk s) = false /\
        exists st', left_at (fs_cfg (with_disk dk s)) [CounterRec a b] st' (dk_log (fs_disk (with_disk dk s)))))).
  { intros dk Hdk. assert (same_memory s (with_disk dk s)) by (by split_and!; [..|intros []]).
    split; [done|]. left. by eapply backed_same. }
  assert (Hnew : forall dk, dk_log dk = log_bytes Extend (fs_expected_hash s) [CounterRec a b] ->
    same_memory s (with_open false false (with_disk dk s)) /\
    (backed rs st (with_open false false (with_disk dk s)) \/
       (false = false /\ false = false /\
        exists st', left_at (fs_cfg s) [CounterRec a b] st' (dk_log dk)))).
  { intros dk Hdk. split; [by split_and!; [..|intros []]|]. right. split_and!; [done|done|]. exists st'.
    split; [done|]. exists []. split; [by left|]. by rewrite app_nil_r, Hdk, Hh. }
  unfold reset_job. destruct (negb (re_open_tmp _)); [intros [= <- <-]; by apply Hold|].
  destruct (initialise_fresh _ _ _ _ _ _ _) as [fresh []] eqn:Ei; [|intros [= <- <-]; by apply Hold].
  destruct (initialise_fresh_log (Extend:=Extend) (fs_expected_hash s) a b (fe_write e) (fe_sync e)) as [Hi _];
    [by rewrite Ei|]. rewrite Ei in Hi. injection Hi as ->.
  destruct (negb (re_rename _)); [intros [= <- <-]; by apply Hold|].
  destruct (negb (re_dir_open _)); [intros [= <- <-]; by apply Hnew|].
  destruct (negb (re_dir_sync _)); [intros [= <- <-]; by apply Hnew|].
  destruct (negb (re_reopen _)); [intros [= <- <-]; by apply Hnew|].
  destruct (negb (re_lock _)); [intros [= <- <-]; by apply Hnew|].
  intros [= <- <-]. split_and!; [done|done|done|by intros []|]. exists st'.
  split; [by intros []|]. unfold backed. fs_fields. cbn [dk_log]. rewrite Hh, Ho.
  split_and!; [done..|by intros []].
Qed.

Lemma flush_spec rs st e s s' r : backed rs st s -> flush_for_session_close e s = (s', r) ->
  same_memory s s' /\ backed rs st s' /\
  (r = Ok tt -> dk_synced (fs_disk s') = dk_log (fs_disk s')).
Proof.
  intros Hb. pose proof Hb as (_ & Hv & Ho & _). unfold flush_for_session_close.
  rewrite Ho, Hv. cbn [negb andb orb]. destruct (fe_sync e); intros [= <- <-]; [|done].
  assert (same_memory s (with_disk (disk_flushed (fs_disk s)) s)) by (by split_and!; [..|intros []]).
  split_and!; [done| |done]. by eapply backed_same.
Qed.

End Keeps.
