(* ===== verification/FileRuns.v ===== *)
(** The file store over its whole life: calls, faults and restarts, in any order, against
    the contract of a message store. *)
From S2P Require Import Prelude Errors Seqnum MessageStore FileLog FileScan FileOps FileKeeps.
From Stdlib Require Import Sorted.

(** ** Histories *)

(** A call with what the system answered, or a restart: the process ends, and a store of the
    same configuration opens the log it left. *)
Inductive file_op : Type :=
  | FStore (e : file_env) (n : seqnum_t) (frame : bytes) (d : direction_t)
  | FNext (e : file_env) (d : direction_t) (increment : bool)
  | FReset (e : file_env)
  | FResetTo (e : file_env) (a b : seqnum_t)
  | FFlush (e : file_env)
  | FReopen.

(** The calls a session makes: it stores what it sends, and counts what it receives. *)
Definition session_op (o : file_op) : Prop :=
  match o with
  | FStore _ n _ d => d = outbound /\ n <> seqnum_max
  | FNext _ d inc => inc = true -> d = inbound
  | _ => True
  end.

Section Runs.
Context {Extend : Z -> bytes -> Z}.

Definition file_step (s : FileStore) (o : file_op) : FileStore :=
  match o with
  | FStore e n f d => (fs_store Extend e n f d s).1
  | FNext e d inc => (fs_next_seqnum Extend e d inc s).1
  | FReset e => (fs_reset Extend e s).1
  | FResetTo e a b => (fs_reset_to Extend e a b s).1
  | FFlush e => (flush_for_session_close e s).1
  | FReopen =>
      match reopen Extend open_quiet (fs_cfg s) (fs_disk s) with
      | Some (s', true) => s'
      | _ => s
      end
  end.

Definition run_file (ops : list file_op) (s : FileStore) : FileStore := fold_left file_step ops s.

(** What a call reports. *)
Definition file_result (s : FileStore) (o : file_op) : result error (option seqnum_t) :=
  match o with
  | FStore e n f d => let? _ := (fs_store Extend e n f d s).2 in Ok None
  | FNext e d inc => let? n := (fs_next_seqnum Extend e d inc s).2 in Ok (Some n)
  | FReset e => let? _ := (fs_reset Extend e s).2 in Ok None
  | FResetTo e a b => let? _ := (fs_reset_to Extend e a b s).2 in Ok None
  | FFlush e => let? _ := (flush_for_session_close e s).2 in Ok None
  | FReopen => Ok None
  end.

(** The inbound number a restart may not undo: the one that the last call to write the
    counters left, when it reported success, or the one the last restart found. *)
Definition acknowledge (a : seqnum_t) (s : FileStore) (o : file_op) : seqnum_t :=
  match o with
  | FNext _ _ false | FFlush _ => a
  | _ => if is_ok (file_result s o) then next_seq (file_step s o) inbound else a
  end.

Fixpoint acknowledged (a : seqnum_t) (ops : list file_op) (s : FileStore) : seqnum_t :=
  match ops with
  | [] => a
  | o :: ops => acknowledged (acknowledge a s o) ops (file_step s o)
  end.

(** What a log restored by a restart has to hold of the store that left it.  A store that
    never failed is found as it was, but for received messages it counted in memory only:
    every number acknowledged is found.  A store whose write could not be undone may have, at
    the end, the one frame that write was for, counted or not.  A store that lost its file to
    a half-made reset is found reset. *)
Definition survives (a : seqnum_t) (s s' : FileStore) : Prop :=
  if fs_valid s then
    view s' inbound = view s inbound /\ a <= next_seq s' inbound <= next_seq s inbound /\
    ((view s' outbound = view s outbound /\ next_seq s' outbound = next_seq s outbound) \/
     (fs_open_ok s = false /\ exists p,
        view s' outbound = put_frame (view s outbound) (next_seq s outbound, p) /\
        (next_seq s' outbound = next_seq s outbound \/
         next_seq s' outbound = next_seq s outbound + 1)))
  else forall d, view s' d = [] /\ 1 <= next_seq s' d <= 2.

Hypothesis crc_range : forall c d, is_u32 (Extend c d).

(** The life of a session's store: it stands on its log, or its log can be opened and holds
    what [survives] asks. *)
Definition alive (rs : list rec) (st : ScanState) (s : FileStore) : Prop :=
  backed (Extend:=Extend) rs st s /\ settled st s outbound /\ held_frames inbound rs = [].

Definition wounded (rs : list rec) (st : ScanState) (s : FileStore) : Prop :=
  fs_open_ok s = false /\ left_at (Extend:=Extend) (fs_cfg s) rs st (dk_log (fs_disk s)) /\
  held_frames inbound rs = [] /\
  if fs_valid s then
    view s inbound = [] /\ recovered_next st inbound <= fs_next inbound s /\
    ((held_frames outbound rs = view s outbound /\ recovered_next st outbound = fs_next outbound s) \/
     exists p, held_frames outbound rs = put_frame (view s outbound) (fs_next outbound s, p) /\
       (recovered_next st outbound = fs_next outbound s \/
        recovered_next st outbound = fs_next outbound s + 1))
  else forall d, held_frames d rs = [] /\ 1 <= recovered_next st d <= 2.

Definition living (s : FileStore) : Prop := exists rs st, alive rs st s \/ wounded rs st s.

(** ... and what was acknowledged of its inbound counter is in the log. *)
Definition kept (a : seqnum_t) (s : FileStore) : Prop :=
  exists rs st, (alive rs st s \/ wounded rs st s) /\ (fs_valid s = true -> a <= recovered_next st inbound).

Lemma kept_living a s : kept a s -> living s.
Proof using. intros (rs & st & H & _). by exists rs, st. Qed.

Lemma living_kept s : living s -> exists a, kept a s.
Proof using. intros (rs & st & H). exists (recovered_next st inbound), rs, st. done. Qed.

(** A store just written to has its counters in the log. *)
Lemma kept_settled rs st s : backed (Extend:=Extend) rs st s -> (forall d, settled st s d) ->
  held_frames inbound rs = [] -> kept (fs_next inbound s) s.
Proof using. intros Hb Hset Hin. exists rs, st. split; [by left; split_and!|]. intros _. specialize (Hset inbound). unfold settled in Hset. lia. Qed.

Lemma reopen_kept a s : kept a s ->
  exists s', reopen Extend open_quiet (fs_cfg s) (fs_disk s) = Some (s', true) /\
    fs_cfg s' = fs_cfg s /\ survives a s s' /\ kept (fs_next inbound s') s'.
Proof.
  intros (rs & st & [(Hb & Hset & Hin)|(Ho & Hl & Hin & Hv)] & Hack).
  - pose proof (backed_left _ _ _ Hb) as Hl. pose proof (fun d => backed_view _ _ _ d Hb) as Hview.
    destruct (reopen_left crc_range _ _ _ _ Hl) as (s' & Hs' & Hb' & Hc & _ & Hd).
    exists s'. split_and!; [done|done| |].
    + pose proof Hb as (_ & Hval & _ & _ & _ & _ & Hn). specialize (Hack Hval). unfold survives. rewrite Hval, !Hview.
      destruct (Hd inbound) as [Hsi ->], (Hd outbound) as [Hso ->]. unfold settled in *. cbn [next_seq file_view].
      destruct (Hn inbound) as (_ & _ & ?). split_and!; [done|lia|lia|left; split; [done|lia]].
    + apply (kept_settled rs st); [done|apply Hd|done].
  - destruct (reopen_left crc_range _ _ _ _ Hl) as (s' & Hs' & Hb' & Hc & _ & Hd).
    exists s'. split_and!; [done|done| |apply (kept_settled rs st); [done|apply Hd|done]].
    unfold survives. destruct (Hd inbound) as [Hsi Hvi], (Hd outbound) as [Hso Hvo]. unfold settled in *.
    cbn [next_seq file_view]. destruct (fs_valid s).
    + specialize (Hack eq_refl). rewrite Hvi, Hvo, Hin. destruct Hv as (-> & Hni & Hv). split_and!; [done|lia|lia|].
      destruct Hv as [[-> ?]|(p & -> & ?)]; [left; split; [done|lia]|right].
      split; [done|]. exists p. split; [done|lia].
    + intros d. destruct (Hd d) as [Hsd ->]. destruct (Hv d) as [-> ?]. split; [done|lia].
Qed.

(** The records at the start of a log are read the same, whatever follows them. *)
Lemma left_view rs st s s' rs' st' : backed (Extend:=Extend) rs st s -> fs_cfg s' = fs_cfg s ->
  (forall d, fs_index d s' = fs_index d s) -> left_at (Extend:=Extend) (fs_cfg s') (rs ++ rs') st' (dk_log (fs_disk s')) ->
  forall d, view s' d = held_frames d rs.
Proof.
  intros Hb Hc Hm (_ & tail & _ & Hl) d. pose proof Hb as (Hs & _ & _ & _ & Hl0 & _ & Hd).
  rewrite Hc, log_bytes_app, <- app_assoc, <- Hl0 in Hl. rewrite <- (backed_view _ _ _ d Hb).
  cbn [view file_view]. rewrite Hl, Hm, (proj1 (Hd d)).
  apply list_fmap_ext. intros i ie Hi. unfold entry_frame. f_equal.
  destruct (sound_wf _ _ _ Hs) as [_ Hw]. eapply (Forall_lookup_1 _ _ _ _ (proj2 (Hw d))) in Hi.
  unfold entry_within in Hi. rewrite <- (sound_pos _ _ _ Hs), <- Hl0 in Hi. apply zsub_app_l; lia.
Qed.

Lemma held_app d rs rs' : held_frames d (rs ++ rs') = fold_left (hold_rec d) rs' (held_frames d rs).
Proof. apply fold_left_app. Qed.

Lemma store_kept a e n p s : kept a s -> n <> seqnum_max ->
  let '(s', r) := fs_store Extend e n p outbound s in kept (if is_ok r then fs_next inbound s' else a) s'.
Proof.
  intros (rs & st & [(Hb & Hset & Hin)|Hw] & Hack) Hmax.
  2:{ unfold fs_store. rewrite (proj1 Hw). exists rs, st; by split; [right|]. }
  destruct (fs_store Extend e n p outbound s) as [s' r] eqn:E.
  pose proof (fs_store_spec rs st e n p outbound s s' r Hb Hset Hmax E) as Hr. destruct r as [u|x]; cbn [is_ok].
  - destruct Hr as (_ & _ & _ & _ & _ & _ & st' & Hst & Hb'). eapply kept_settled; [done|done|].
    by rewrite held_app.
  - destruct Hr as (Hsm & [Hb'|(-> & Ho & Hv & i & st' & Hi & Hl)]).
    + exists rs, st. split; [left; split_and!; [done| |done]|].
      * unfold settled in *. destruct Hsm as (_ & _ & Hm). by rewrite (proj2 (Hm outbound)).
      * intros _. apply Hack. apply Hb.
    + assert (Hval : fs_valid s = true) by apply Hb. specialize (Hack Hval).
      pose proof Hb as (Hs & _ & _ & _ & _ & _ & Hd). destruct (Hd inbound) as (_ & _ & Hdi).
      eexists _, st'. rewrite Hv. split; [right; split_and!; [done|exact Hl| |]|].
      { rewrite held_app, Hin. by destruct i as [|[|[|]]]. }
      * rewrite Hv, !(left_view _ _ _ _ _ _ Hb (proj1 Hsm) (fun d => proj1 (proj2 (proj2 Hsm) d)) Hl), Hin, held_app.
        destruct Hl as [Hsl _]. rewrite !(sound_next _ _ _ _ Hsl).
        destruct Hsm as (Hc & _ & Hm). destruct (Hm inbound) as [_ ->], (Hm outbound) as [_ ->].
        unfold settled in Hset. rewrite (sound_next _ _ _ inbound Hs) in Hdi. rewrite (sound_next _ _ _ outbound Hs) in Hset.
        unfold last_counters in *. rewrite fold_left_app.
        destruct i as [|[|[|i]]]; cbn [take fold_left counter_rec hold_rec counters_with counter_of
          cp_next_inbound cp_next_outbound decide].
        -- split_and!; [done|done|by left].
        -- split_and!; [done|done|right; exists p; split; [done|by left]].
        -- split_and!; [done|done|right; exists p; split; [done|by right]].
        -- cbn in Hi. lia.
      * intros _. destruct Hl as [Hsl _]. rewrite (sound_next _ _ _ inbound Hsl).
        rewrite (sound_next _ _ _ inbound Hs) in Hdi, Hack. unfold last_counters in *. rewrite fold_left_app.
        destruct i as [|[|[|i]]]; cbn [take fold_left counter_rec counters_with counter_of cp_next_inbound];
          [exact Hack|exact Hack|lia|cbn in Hi; lia].
Qed.

Lemma next_kept a e d inc s : kept a s -> (inc = true -> d = inbound) ->
  let '(s', r) := fs_next_seqnum Extend e d inc s in kept (if inc && is_ok r then fs_next inbound s' else a) s'.
Proof.
  intros (rs & st & [(Hb & Hset & Hin)|Hw] & Hack) Hd.
  2:{ unfold fs_next_seqnum. rewrite (proj1 Hw). cbn [negb is_ok]. rewrite andb_false_r. exists rs, st; by split; [right|]. }
  destruct (fs_next_seqnum Extend e d inc s) as [s' r] eqn:E.
  destruct (fs_next_seqnum_spec rs st e d inc s s' r Hb E) as (Hc & Hg & Hi & Hr).
  assert (Hval : fs_valid s = true) by apply Hb. pose proof (Hack Hval) as Hack'. destruct r as [n|x]; cbn [is_ok].
  - destruct Hr as (-> & Hn & Hr). destruct inc; cbn [andb]; [|subst s'; by exists rs, st; split; [left|]].
    destruct Hr as (_ & _ & st' & Hst & Hb'). eapply kept_settled; [exact Hb'|done|]. by rewrite held_app.
  - rewrite andb_false_r. destruct Hr as (Hn & Hr).
    assert (Hno : fs_next outbound s' = fs_next outbound s).
    { destruct (Hn outbound) as [|(<- & Ht & _)]; [done|]. by specialize (Hd Ht). }
    destruct Hr as [Hb'|(Ho & Hv & i & st' & Hil & Hl)].
    + exists rs, st. split; [left; split_and!; [done| |done]|by intros _]. unfold settled in *. lia.
    + set (new := [CounterRec (fs_next inbound s') (fs_next outbound s')]) in *.
      pose proof Hb as (Hs & _ & _ & _ & _ & _ & Hdd). destruct (Hdd inbound) as (_ & _ & Hdi).
      assert (Hup : fs_next inbound s <= fs_next inbound s') by (destruct (Hn inbound) as [|(_ & _ & ?)]; lia).
      eexists _, st'. split; [right; split_and!; [done|exact Hl|rewrite held_app, Hin; by destruct i as [|[|]]|]|].
      * rewrite Hv, !(left_view _ _ _ _ _ _ Hb Hc Hi Hl), Hin, held_app. destruct Hl as [Hsl _]. rewrite !(sound_next _ _ _ _ Hsl).
        unfold settled in Hset. rewrite (sound_next _ _ _ inbound Hs) in Hdi. rewrite (sound_next _ _ _ outbound Hs) in Hset.
        unfold last_counters in *. rewrite fold_left_app.
        destruct i as [|[|i]]; cbn [take fold_left counter_rec hold_rec new counter_of
          cp_next_inbound cp_next_outbound].
        -- split_and!; [done|lia|left; split; [done|lia]].
        -- split_and!; [done|lia|by left].
        -- cbn in Hil. lia.
      * intros _. destruct Hl as [Hsl _]. rewrite (sound_next _ _ _ inbound Hsl).
        rewrite (sound_next _ _ _ inbound Hs) in Hdi, Hack'. unfold last_counters in *. rewrite fold_left_app.
        destruct i as [|[|i]]; cbn [take fold_left counter_rec new counter_of cp_next_inbound];
          [exact Hack'|lia|cbn in Hil; lia].
Qed.

Lemma reset_kept k e a b s : kept k s -> 1 <= a <= 2 -> 1 <= b <= 2 ->
  let '(s', r) := reset_store_to Extend e a b s in kept (if is_ok r then fs_next inbound s' else k) s'.
Proof.
  intros (rs & st & [(Hb & Hset & Hin)|Hw] & Hack) Ha Hbb.
  2:{ unfold reset_store_to. rewrite (proj1 Hw). by exists rs, st; split; [right|]. }
  destruct (reset_store_to Extend e a b s) as [s' r] eqn:E.
  pose proof (reset_store_spec rs st e a b s s' r Hb ltac:(unfold is_u32; lia) ltac:(unfold is_u32; lia) E) as Hr.
  assert (Hval : fs_valid s = true) by apply Hb. pose proof (Hack Hval) as Hack'. destruct r as [u|x]; cbn [is_ok].
  - destruct Hr as (_ & _ & _ & _ & st' & Hst & Hb'). by eapply kept_settled.
  - destruct Hr as (Hsm & [Hb'|(Ho & Hv & st' & Hl)]).
    + exists rs, st. split; [left; split_and!; [done| |done]|by intros _]. unfold settled in *.
      destruct Hsm as (_ & _ & Hm). by rewrite (proj2 (Hm outbound)).
    + eexists _, st'. rewrite Hv. split; [right; split_and!; [done|exact Hl|done|]|done]. rewrite Hv. intros d.
      destruct Hl as [Hsl _]. rewrite (sound_next _ _ _ _ Hsl). split; [done|]. by destruct d.
Qed.

Lemma flush_kept a e s : kept a s -> kept a (flush_for_session_close e s).1.
Proof.
  intros (rs & st & [(Hb & Hset & Hin)|Hw] & Hack).
  - destruct (flush_for_session_close e s) as [s' r] eqn:E. cbn [fst].
    destruct (flush_spec rs st e s s' r Hb E) as (Hsm & Hb' & _). exists rs, st.
    split; [left; split_and!; [done| |done]|intros _; apply Hack, Hb].
    unfold settled in *. destruct Hsm as (_ & _ & Hm). by rewrite (proj2 (Hm outbound)).
  - exists rs, st. unfold flush_for_session_close. destruct (_ && _); [by split; [right|]|].
    destruct (fe_sync e); by split; [right|].
Qed.

Lemma step_kept a s o : kept a s -> session_op o -> kept (acknowledge a s o) (file_step s o).
Proof.
  intros Hs Ho. destruct o as [e n f d|e d inc|e|e x y|e|]; cbn [file_step acknowledge file_result next_seq file_view].
  - destruct Ho as [-> Hn]. pose proof (store_kept a e n f s Hs Hn) as H.
    destruct (fs_store Extend e n f outbound s) as [s' [u|z]]; exact H.
  - pose proof (next_kept a e d inc s Hs Ho) as H.
    destruct (fs_next_seqnum Extend e d inc s) as [s' [u|z]], inc; exact H.
  - pose proof (reset_kept a e seqnum_min seqnum_min s Hs ltac:(unfold seqnum_min; lia) ltac:(unfold seqnum_min; lia)) as H.
    unfold fs_reset. destruct (reset_store_to Extend e seqnum_min seqnum_min s) as [s' [u|z]]; exact H.
  - unfold fs_reset_to. destruct (reset_to_targets_valid x y) eqn:Ev; cbn [negb]; [|exact Hs].
    apply targets_valid in Ev. pose proof (reset_kept a e x y s Hs ltac:(lia) ltac:(lia)) as H.
    destruct (reset_store_to Extend e x y s) as [s' [u|z]]; exact H.
  - by apply flush_kept.
  - destruct (reopen_kept a s Hs) as (s' & -> & _ & _ & Hk). exact Hk.
Qed.

Lemma run_kept ops a s : kept a s -> Forall session_op ops -> kept (acknowledged a ops s) (run_file ops s).
Proof.
  intros Hs H. revert a s Hs. induction H as [|o ops Ho _ IH]; intros a s Hs; [done|].
  apply IH. by apply step_kept.
Qed.

Lemma step_living s o : living s -> session_op o -> living (file_step s o).
Proof. intros [a Hs]%living_kept Ho. eapply kept_living, step_kept; [exact Hs|exact Ho]. Qed.

Lemma run_living ops s : living s -> Forall session_op ops -> living (run_file ops s).
Proof. intros [a Hs]%living_kept Ho. eapply kept_living, run_kept; [exact Hs|exact Ho]. Qed.

Lemma file_put_0 p : file_put [] 0 p = p.
Proof. apply (file_put_end []). Qed.

(** A store opened for the first time. *)
Lemma first_open c : cap_ok (fc_max_frame_bytes c) ->
  exists s, reopen Extend open_quiet c (mkDisk [] [] None) = Some (s, true) /\
    alive [CounterRec 1 1] (mkScan 72 [] [] (Some (mkCounters 1 1))) s.
Proof.
  intros Hc. unfold reopen, open_log, restart_scan, file_store_new.
  cbn [open_quiet oe_open oe_lock oe_fstat oe_read oe_write oe_truncate oe_sync negb with_open
    with_disk fs_disk fs_cfg fs_valid fs_open_ok fs_inbound_index fs_outbound_index
    fs_expected_hash dk_log dk_synced].
  change (zlen [] =? 0) with true. cbn iota. unfold seqnum_min.
  assert (Hi : (initialise_fresh Extend (store_hash c) 1 1 quiet true []).2 = true).
  { unfold initialise_fresh. destruct (job_writes quiet 0 _ []) as [f b] eqn:E.
    pose proof (job_writes_quiet 0 (write_sentinel Extend (store_hash c) 0 ++
      write_counter Extend 1 1 (record_disk_size kSentinelPayloadSize)) []) as Hq.
    rewrite E in Hq. cbn in Hq. by subst b. }
  destruct (initialise_fresh_log _ _ _ _ _ Hi) as [Hf _]. unfold store_hash in Hf. rewrite Hf.
  eexists. split; [reflexivity|]. split_and!; [|done|done].
  unfold backed, store_hash. fs_fields. cbn [dk_log].
  split; [apply fresh_sound; [exact Hc|unfold is_u32; lia..]|].
  do 4 (split; [reflexivity|]). split; [cbn [sc_pos]; vm_compute; reflexivity|].
  intros []; (split; [reflexivity|]); (split; [unfold is_u32; fs_fields; lia|]); reflexivity.
Qed.

(** What the contract allows a call to have done when it reports success. *)
Definition done_as_asked (s s' : FileStore) (o : file_op) (v : option seqnum_t) : Prop :=
  match o with
  | FStore _ n p d =>
      n = next_seq s d /\ zlen p <= fc_max_frame_bytes (fs_cfg s) /\
      (forall d', view s' d' = if decide (d' = d) then put_frame (view s d) (n, p) else view s d') /\
      (forall d', next_seq s' d' = if decide (d' = d) then n + 1 else next_seq s d') /\
      (flush_now s = true -> dk_synced (fs_disk s') = dk_log (fs_disk s'))
  | FNext _ d inc =>
      v = Some (next_seq s d) /\ (forall d', view s' d' = view s d') /\
      (forall d', next_seq s' d' = if bool_decide (d' = d) && inc then next_seq s d + 1 else next_seq s d') /\
      (inc = true -> next_seq s d <> seqnum_max /\ dk_synced (fs_disk s') = dk_log (fs_disk s'))
  | FReset _ => emptied 1 1 s' /\ dk_synced (fs_disk s') = dk_log (fs_disk s')
  | FResetTo _ a b => reset_to_targets_valid a b = true /\ emptied a b s' /\
      dk_synced (fs_disk s') = dk_log (fs_disk s')
  | FFlush _ => same_view s s' /\ (fs_valid s = true -> dk_synced (fs_disk s') = dk_log (fs_disk s'))
  | FReopen => True
  end.

(** The store lost its file to a reset it could not finish: it is shut, and the next open
    finds the reset made. *)
Definition half_reset (a b : seqnum_t) (s s' : FileStore) : Prop :=
  fs_valid s = true /\ fs_valid s' = false /\ fs_open_ok s' = false /\
  exists s'', reopen Extend open_quiet (fs_cfg s') (fs_disk s') = Some (s'', true) /\ emptied a b s''.

(** And what it leaves when it reports a failure: the store as it was, but for the counter an
    increment that could not be written has moved in memory, and for a half-made reset. *)
Definition left_alone (s s' : FileStore) (o : file_op) : Prop :=
  match o with
  | FNext e d inc =>
      (forall d', view s' d' = view s d') /\
      forall d', next_seq s' d' =
        if bool_decide (d' = d) && (inc && fs_open_ok s && fe_locked e && negb (next_seq s d =? seqnum_max))
        then next_seq s d + 1 else next_seq s d'
  | FReset _ => same_view s s' \/ half_reset 1 1 s s'
  | FResetTo _ a b => same_view s s' \/ half_reset a b s s'
  | _ => same_view s s'
  end.

Lemma backed_same_view rs st s s' : backed (Extend:=Extend) rs st s -> backed (Extend:=Extend) rs st s' ->
  (forall d, fs_next d s' = fs_next d s) -> same_view s s'.
Proof.
  intros Hb Hb' Hn d. rewrite (backed_view _ _ _ d Hb), (backed_view _ _ _ d Hb'). split; [done|apply Hn].
Qed.

Lemma store_exact e n p s : living s -> n <> seqnum_max ->
  match (fs_store Extend e n p outbound s).2 with
  | Ok _ => done_as_asked s (fs_store Extend e n p outbound s).1 (FStore e n p outbound) None
  | Err _ => same_view s (fs_store Extend e n p outbound s).1
  end.
Proof.
  intros (rs & st & [(Hb & Hset & _)|Hw]) Hmax.
  2:{ unfold fs_store. rewrite (proj1 Hw). done. }
  destruct (fs_store Extend e n p outbound s) as [s' r] eqn:E. cbn [fst snd].
  pose proof (fs_store_spec rs st e n p outbound s s' r Hb Hset Hmax E) as Hr. destruct r as [u|x].
  - destruct Hr as (Hn & Hlen & _ & _ & Hnx & Hfl & st' & _ & Hb'). cbn [done_as_asked next_seq file_view] in *.
    split_and!; [done|done| |done|done].
    intros d'. change (view s' d' = if decide (d' = outbound) then put_frame (view s outbound) (n, p) else view s d').
    rewrite (backed_view _ _ _ d' Hb'), held_app, !(backed_view _ _ _ _ Hb).
    cbn [fold_left hold_rec]. by destruct d'.
  - destruct Hr as (Hsm & [Hb'|(_ & _ & _ & i & st' & _ & Hl)]).
    + eapply backed_same_view; [done..|]. intros d. apply (proj2 (proj2 Hsm) d).
    + intros d. rewrite (left_view _ _ _ _ _ _ Hb (proj1 Hsm) (fun d => proj1 (proj2 (proj2 Hsm) d)) Hl).
      rewrite (backed_view _ _ _ d Hb). split; [done|]. apply (proj2 (proj2 Hsm) d).
Qed.

(** The counter an increment leaves, written or not. *)
Lemma next_counter e d inc s d' : (forall d1, is_u32 (fs_next d1 s)) ->
  fs_next d' (fs_next_seqnum Extend e d inc s).1 =
    if bool_decide (d' = d) && (inc && fs_open_ok s && fe_locked e && negb (fs_next d s =? seqnum_max))
    then fs_next d s + 1 else fs_next d' s.
Proof.
  intros Hu. unfold fs_next_seqnum, fs_next_seqnum_locked. specialize (Hu d). unfold is_u32 in Hu.
  destruct (fs_open_ok s), (fe_locked e), inc; cbn [negb andb fst]; rewrite ?andb_false_r; try done.
  destruct (fs_next d s =? seqnum_max) eqn:Em; cbn [negb fst]; [by rewrite andb_false_r|]. rewrite andb_true_r.
  assert (Hw : u32 (fs_next d s + 1) = fs_next d s + 1).
  { apply wrap_small. unfold seqnum_max, UINT32_MAX in *. lia. }
  cbv zeta. rewrite Hw. destruct (write_job _ _ _ _ _ _) as [dk []]; cbn [fst]; unfold job_failed;
    repeat case_bool_decide; destruct d, d'; cbn; done || congruence.
Qed.

Lemma next_exact e d inc s : living s ->
  match (fs_next_seqnum Extend e d inc s).2 with
  | Ok n => done_as_asked s (fs_next_seqnum Extend e d inc s).1 (FNext e d inc) (Some n)
  | Err _ => left_alone s (fs_next_seqnum Extend e d inc s).1 (FNext e d inc)
  end.
Proof.
  intros (rs & st & [(Hb & _ & _)|Hw]).
  2:{ unfold fs_next_seqnum. cbn [left_alone]. rewrite (proj1 Hw). split; [done|]. intros d'. by rewrite !andb_false_r. }
  pose proof Hb as (_ & _ & _ & _ & _ & _ & Hd).
  pose proof (fun d' => next_counter e d inc s d' (fun d1 => proj1 (proj2 (Hd d1)))) as Hcount.
  destruct (fs_next_seqnum Extend e d inc s) as [s' r] eqn:E. cbn [fst snd] in *.
  destruct (fs_next_seqnum_spec rs st e d inc s s' r Hb E) as (Hc & _ & Hi & Hr).
  destruct r as [n|x]; cbn [done_as_asked left_alone].
  - destruct Hr as (-> & Hn & Hr). change (next_seq s d) with (fs_next d s). change (next_seq s') with (fun d => fs_next d s').
    destruct inc.
    + destruct Hr as (Hm & Hsy & st' & _ & Hb'). split_and!; [done| |intros d'; rewrite Hn; case_bool_decide; by case_decide|done].
      intros d'. by rewrite (backed_view _ _ _ d' Hb'), held_app, (backed_view _ _ _ d' Hb).
    + subst s'. split_and!; [done|done|intros d'; by rewrite andb_false_r|done].
  - destruct Hr as (Hn & Hr). split; [|exact Hcount]. intros d'. rewrite (backed_view _ _ _ d' Hb).
    destruct Hr as [Hb'|(_ & _ & i & st' & _ & Hl)]; [exact (backed_view _ _ _ d' Hb')|].
    by apply (left_view _ _ _ _ _ _ Hb Hc Hi Hl).
Qed.

Lemma reset_exact e a b s : living s -> is_u32 a -> is_u32 b ->
  match (reset_store_to Extend e a b s).2 with
  | Ok _ => emptied a b (reset_store_to Extend e a b s).1 /\
      dk_synced (fs_disk (reset_store_to Extend e a b s).1) = dk_log (fs_disk (reset_store_to Extend e a b s).1)
  | Err _ => same_view s (reset_store_to Extend e a b s).1 \/ half_reset a b s (reset_store_to Extend e a b s).1
  end.
Proof.
  intros (rs & st & [(Hb & _ & _)|Hw]) Ha Hbb.
  2:{ unfold reset_store_to. rewrite (proj1 Hw). by left. }
  destruct (reset_store_to Extend e a b s) as [s' r] eqn:E. cbn [fst snd].
  pose proof (reset_store_spec rs st e a b s s' r Hb Ha Hbb E) as Hr. destruct r as [u|x].
  - destruct Hr as (_ & _ & Hsy & Hd & _). split; [|done]. intros d. destruct (Hd d) as [Hi Hn].
    cbn [view next_seq file_view]. by rewrite Hi, Hn.
  - destruct Hr as (Hsm & [Hb'|(Ho & Hv & st' & Hl)]).
    + left. eapply backed_same_view; [done..|]. intros d. apply (proj2 (proj2 Hsm) d).
    + right. split; [apply Hb|]. split_and!; [done|done|].
      destruct (reopen_left crc_range _ _ _ _ Hl) as (s'' & Hs' & _ & _ & _ & Hd). exists s''. split; [done|].
      intros d. destruct (Hd d) as [Hset ->]. unfold settled in Hset. cbn [next_seq file_view]. rewrite <- Hset.
      destruct Hl as [Hsl _]. rewrite (sound_next _ _ _ _ Hsl). split; [done|]. by destruct d.
Qed.

Lemma flush_exact e s :
  same_view s (flush_for_session_close e s).1 /\
  ((flush_for_session_close e s).2 = Ok tt -> fs_valid s = true ->
     dk_synced (fs_disk (flush_for_session_close e s).1) = dk_log (fs_disk (flush_for_session_close e s).1)).
Proof.
  unfold flush_for_session_close. destruct (fs_open_ok s), (fs_valid s), (fe_sync e); done.
Qed.

(** An environment without faults takes what the contract takes. *)
Lemma store_quiet n p s : living s -> fs_open_ok s = true ->
  (fs_store Extend file_quiet n p outbound s).2 =
    if negb (n =? next_seq s outbound) then Err store_seqnum_out_of_order
    else if fc_max_frame_bytes (fs_cfg s) <? zlen p then Err store_io_failure else Ok tt.
Proof.
  intros (rs & st & [(Hb & _ & _)|Hw]) Ho; [|by rewrite (proj1 Hw) in Ho].
  destruct Hb as (_ & Hv & _). unfold fs_store, fs_store_locked, write_job. rewrite Ho, Hv. cbn [negb fe_locked file_quiet].
  change (next_seq s outbound) with (fs_next outbound s).
  destruct (negb (n =? _)); [done|]. destruct (_ <? zlen p); [done|].
  cbn [fe_write file_quiet]. destruct (job_writes quiet 0 _ _) as [f b] eqn:E.
  assert (b = true) as -> by (change b with (f, b).2; rewrite <- E; apply job_writes_quiet).
  destruct (negb (flush_now s)); done.
Qed.

End Runs.

(** ** A sample *)

Definition sample_file_store : FileStore :=
  match reopen sum_crc open_quiet sample_file_config (mkDisk [] [] None) with
  | Some (s, _) => s
  | None => file_store_new sample_file_config (mkDisk [] [] None)
  end.

(** The counter record's header is not written, nor can the log be cut back. *)
Definition torn_env : file_env :=
  mkFileEnv true (fun k => match k with 3%nat => [Moved 5; Errored] | _ => [] end) true false true reset_quiet.

Definition sample_history : list file_op :=
  [FStore file_quiet 1 [72; 73] outbound; FNext file_quiet inbound true;
   FStore torn_env 2 [74] outbound].

Lemma sample_reopened :
  reopen sum_crc open_quiet sample_file_config (mkDisk [] [] None) = Some (sample_file_store, true).
Proof. vm_compute. reflexivity. Qed.

Lemma sample_living : living (Extend:=sum_crc) sample_file_store.
Proof.
  destruct (first_open (Extend:=sum_crc) sample_file_config) as (s & Hs & Ha).
  { unfold cap_ok, kCounterPayloadSize. cbn. lia. }
  rewrite sample_reopened in Hs. injection Hs as <-. do 2 eexists. left. exact Ha.
Qed.

(** ** Corner cases

    A call tests [open_ok] before it waits for the lock and not after.  One that waited behind
    the call that poisoned the store therefore still writes, over bytes that could not be cut
    back; it reports success, and the log it leaves is refused at the next open. *)
Lemma queued_call_spoils_log :
  let s1 := (fs_store sum_crc torn_env 1 (replicate 40 65) outbound sample_file_store).1 in
  let (s2, r) := fs_store_locked sum_crc file_quiet 1 [] inbound s1 in
  fs_open_ok s1 = false /\ r = Ok tt /\
  match reopen sum_crc open_quiet sample_file_config (fs_disk s2) with
  | Some (_, ok) => ok = false
  | None => False
  end.
Proof. vm_compute. repeat split. Qed.

(** A read that fails in the middle of the log is taken for the end of it: the open succeeds
    and what follows is cut off the device. *)
Lemma failed_read_cuts_log :
  let s1 := (fs_store sum_crc file_quiet 1 [72; 73] outbound sample_file_store).1 in
  let e := mkOpenEnv true true true (fun off => if off =? 72 then [Errored] else []) quiet true true in
  match reopen sum_crc e sample_file_config (fs_disk s1) with
  | Some (s2, ok) => ok = true /\ view s1 outbound = [(1, [72; 73])] /\ view s2 outbound = [] /\
      next_seq s2 outbound = 1 /\ zlen (dk_synced (fs_disk s2)) = 72
  | None => False
  end.
Proof. vm_compute. repeat split. Qed.

(** An increment that fails stays in memory.  A frame stored after it, whose counter record a
    crash then cuts, stands above the counter the next open finds; the frame the store then
    takes under that counter makes a log no open accepts. *)
Lemma failed_increment_then_crash_spoils_log :
  let s1 := (fs_next_seqnum sum_crc (mkFileEnv true (fun _ => [Errored]) true true true reset_quiet)
               outbound true sample_file_store).1 in
  let s2 := (fs_store sum_crc torn_env 2 [74] outbound s1).1 in
  match reopen sum_crc open_quiet sample_file_config (fs_disk s2) with
  | Some (s3, ok) => ok = true /\ view s3 outbound = [(2, [74])] /\ next_seq s3 outbound = 1 /\
      let s4 := (fs_store sum_crc file_quiet 1 [75] outbound s3).1 in
      (fs_store sum_crc file_quiet 1 [75] outbound s3).2 = Ok tt /\
      match reopen sum_crc open_quiet sample_file_config (fs_disk s4) with
      | Some (_, ok) => ok = false
      | None => False
      end
  | None => False
  end.
Proof. vm_compute. repeat split. Qed.

(** ** Properties *)

(** C21: Whatever a session's store goes through, its log can be opened again, and holds what
    was acknowledged.  In any history of calls, refused or failed at any byte of any write,
    with restarts anywhere, starting from an empty log: the store that stands on a log it
    never lost is found with exactly the frames it acknowledged, with its outbound counter, and
    with an inbound counter no lower than the last one it acknowledged and no higher than the
    one it had in memory; one whose last write could neither be finished nor undone may have
    that one frame more, counted or not; one whose reset was half made is found reset.  The
    history is a session's: it stores outbound frames and counts inbound ones, and each call
    finds the writer lock free when it comes to it.  The opens' own reads and writes work, and
    the file system keeps what was written when the process ends.  Outside that,
    [failed_read_cuts_log], [queued_call_spoils_log] and
    [failed_increment_then_crash_spoils_log] show logs that lose frames or open no more. *)
Theorem file_store_recovers (Extend : Z -> bytes -> Z) (c : FileStoreConfig) (s0 : FileStore)
    (ops : list file_op) :
  (forall crc d, is_u32 (Extend crc d)) -> cap_ok (fc_max_frame_bytes c) ->
  reopen Extend open_quiet c (mkDisk [] [] None) = Some (s0, true) -> Forall session_op ops ->
  let s := run_file (Extend:=Extend) ops s0 in
  exists s', reopen Extend open_quiet (fs_cfg s) (fs_disk s) = Some (s', true) /\
    survives (acknowledged (Extend:=Extend) 1 ops s0) s s'.
Proof.
  intros Hcrc Hc H0 Hops s. destruct (first_open (Extend:=Extend) c Hc) as (s1 & H1 & Ha).
  rewrite H0 in H1. injection H1 as <-.
  destruct (reopen_kept Hcrc (acknowledged (Extend:=Extend) 1 ops s0) s) as (s' & ? & _ & ? & _); [|by exists s'].
  apply run_kept; [done| |done]. do 2 eexists. split; [left; exact Ha|done].
Qed.

Lemma file_store_recovers_witness :
  let s := run_file (Extend:=sum_crc) sample_history sample_file_store in
  fs_open_ok s = false /\ view s outbound = [(1, [72; 73])] /\
  exists s', reopen sum_crc open_quiet (fs_cfg s) (fs_disk s) = Some (s', true) /\ survives 2 s s' /\
    view s' outbound = [(1, [72; 73]); (2, [74])] /\ next_seq s' outbound = 2.
Proof.
  assert (Ho : fs_open_ok (run_file (Extend:=sum_crc) sample_history sample_file_store) = false)
    by (vm_compute; reflexivity).
  assert (Hv : view (run_file (Extend:=sum_crc) sample_history sample_file_store) outbound = [(1, [72; 73])])
    by (vm_compute; reflexivity).
  assert (He : match reopen sum_crc open_quiet
        (fs_cfg (run_file (Extend:=sum_crc) sample_history sample_file_store))
        (fs_disk (run_file (Extend:=sum_crc) sample_history sample_file_store)) with
      | Some (s', _) => view s' outbound = [(1, [72; 73]); (2, [74])] /\ next_seq s' outbound = 2
      | None => False
      end) by (vm_compute; split; reflexivity).
  destruct (file_store_recovers sum_crc sample_file_config sample_file_store sample_history
    sum_crc_range ltac:(unfold cap_ok, kCounterPayloadSize; cbn; lia) sample_reopened
    ltac:(repeat constructor; unfold seqnum_max, UINT32_MAX; discriminate)) as (s' & Hs' & Hsv).
  split; [exact Ho|]. split; [exact Hv|]. exists s'. rewrite Hs' in He.
  split; [exact Hs'|]. split; [exact Hsv|exact He].
Defined.

(** C22: Every call a session makes of its store, finding the writer lock free, does what a
    message store promises, whatever the disk does.  The session stores outbound frames and
    counts inbound ones.  A call that reports success has done exactly what was asked: the
    frame is held under its number, in place of one a crash had left there, the counter is one
    further, a reset leaves nothing but its targets, and what the policy or the call makes
    durable is on the device.  A call that reports a failure has left the frames and counters
    as they were, but for two cases: an increment that could not be written has moved its
    counter in memory by one, and no other failing increment has; a reset that fails once it
    has replaced the log shuts the store, and the next open finds the reset made.  With no
    fault of the disk a frame in turn that fits is always taken. *)
Theorem file_call_exact (Extend : Z -> bytes -> Z) (s : FileStore) (o : file_op) :
  (forall crc d, is_u32 (Extend crc d)) ->
  living (Extend:=Extend) s -> session_op o ->
  match file_result (Extend:=Extend) s o with
  | Ok v => done_as_asked s (file_step (Extend:=Extend) s o) o v
  | Err _ => left_alone (Extend:=Extend) s (file_step (Extend:=Extend) s o) o
  end /\
  (fs_open_ok s = true -> forall n p, o = FStore file_quiet n p outbound ->
     file_result (Extend:=Extend) s o =
       if negb (n =? next_seq s outbound) then Err store_seqnum_out_of_order
       else if fc_max_frame_bytes (fs_cfg s) <? zlen p then Err store_io_failure else Ok None).
Proof.
  intros Hcrc Hs Ho. split.
  - destruct o as [e n f d|e d inc|e|e a b|e|]; cbn [file_result file_step]; [| | | | |done].
    + destruct Ho as [-> Hmax]. pose proof (store_exact e n f s Hs Hmax) as H.
      destruct (fs_store Extend e n f outbound s).2; exact H.
    + pose proof (next_exact e d inc s Hs) as H. destruct (fs_next_seqnum Extend e d inc s).2; exact H.
    + pose proof (reset_exact Hcrc e seqnum_min seqnum_min s Hs ltac:(done) ltac:(done)) as H. unfold fs_reset.
      destruct (reset_store_to Extend e seqnum_min seqnum_min s).2; exact H.
    + unfold fs_reset_to. destruct (reset_to_targets_valid a b) eqn:Ev; cbn [negb fst snd rbind left_alone]; [|by left].
      pose proof Ev as Ev'. apply targets_valid in Ev.
      pose proof (reset_exact Hcrc e a b s Hs ltac:(unfold is_u32; lia) ltac:(unfold is_u32; lia)) as H.
      destruct (reset_store_to Extend e a b s).2; [split; [done|exact H]|exact H].
    + destruct (flush_exact e s) as [Hsv Hsy]. destruct (flush_for_session_close e s).2 as [[]|x]; [split; auto|done].
  - intros Hopen n p ->. cbn [file_result]. rewrite (store_quiet n p s Hs Hopen). by repeat case_match.
Qed.

Lemma file_call_exact_witness :
  let s := file_step (Extend:=sum_crc) sample_file_store (FStore file_quiet 1 [72; 73] outbound) in
  view s outbound = [(1, [72; 73])] /\ next_seq s outbound = 2 /\
  dk_synced (fs_disk s) = dk_log (fs_disk s).
Proof.
  destruct (file_call_exact sum_crc sample_file_store (FStore file_quiet 1 [72; 73] outbound)
    sum_crc_range sample_living ltac:(split; [reflexivity|unfold seqnum_max, UINT32_MAX; discriminate])) as [H _].
  assert (Hr : file_result (Extend:=sum_crc) sample_file_store (FStore file_quiet 1 [72; 73] outbound) = Ok None)
    by (vm_compute; reflexivity).
  assert (Hf : flush_now sample_file_store = true) by (vm_compute; reflexivity).
  assert (Hw : view sample_file_store outbound = []) by (vm_compute; reflexivity).
  rewrite Hr in H. destruct H as (Hn & _ & Hv & Hx & Hd). specialize (Hv outbound). specialize (Hx outbound).
  rewrite Hw in Hv. split; [exact Hv|]. split; [exact Hx|exact (Hd Hf)].
Defined.
