(* ===== verification/FileRetrieve.v ===== *)
(** What [FileStore::retrieve] shows, whatever its visitor does to the store between two
    frames. *)
From S2P Require Import Prelude Errors Seqnum MessageStore FileLog FileScan FileOps FileKeeps FileRuns.
From Stdlib Require Import Sorted.

(** Calls a visitor can make while the walk waits for it. *)
Definition visitor_op (o : file_op) : Prop :=
  session_op o /\ match o with FReopen => False | _ => True end.

Definition is_reset (o : file_op) : bool :=
  match o with FReset _ | FResetTo _ _ _ => true | _ => false end.

Definition reset_count (ops : list file_op) : Z := zlen (List.filter is_reset ops).

Section Kept.
Context {Extend : Z -> bytes -> Z}.
Hypothesis crc_range : forall c d, is_u32 (Extend c d).

Definition log_grows (s s' : FileStore) : Prop :=
  fs_valid s' = true -> fs_valid s = true /\ exists x, dk_log (fs_disk s') = dk_log (fs_disk s) ++ x.

#[local] Instance log_grows_preorder : PreOrder log_grows.
Proof.
  split.
  - intros s Hv. split; [done|]. exists []. by rewrite app_nil_r.
  - intros a b c Hab Hbc Hv. destruct (Hbc Hv) as [Hv1 [x Hx]]. destruct (Hab Hv1) as [? [y Hy]].
    split; [done|]. exists (y ++ x). by rewrite Hx, Hy, app_assoc.
Qed.

Lemma backed_grows rs rs' st st' s s' : backed (Extend:=Extend) rs st s ->
  backed (Extend:=Extend) (rs ++ rs') st' s' -> fs_cfg s' = fs_cfg s -> log_grows s s'.
Proof.
  intros (_ & Hv & _ & _ & Hl & _) (_ & _ & _ & _ & Hl' & _) Hc _. split; [done|].
  rewrite Hl', Hl, Hc, log_bytes_app. eauto.
Qed.

Lemma backed_grows_same rs st st' s s' : backed (Extend:=Extend) rs st s ->
  backed (Extend:=Extend) rs st' s' -> fs_cfg s' = fs_cfg s -> log_grows s s'.
Proof. intros Hb Hb' Hc. apply (backed_grows rs [] st st'); [done|by rewrite app_nil_r|done]. Qed.

Lemma left_grows rs rs' st st' s s' : backed (Extend:=Extend) rs st s ->
  left_at (Extend:=Extend) (fs_cfg s') (rs ++ rs') st' (dk_log (fs_disk s')) ->
  fs_cfg s' = fs_cfg s -> log_grows s s'.
Proof.
  intros (_ & Hv & _ & _ & Hl & _) (_ & tail & _ & Hl') Hc _. split; [done|].
  rewrite Hl', Hl, Hc, log_bytes_app, <- app_assoc. eauto.
Qed.

(** What a call does to the log and to the generation. *)
Lemma step_keeps s o : living (Extend:=Extend) s -> visitor_op o -> 0 <= fs_generation s < 2 ^ 64 ->
  exists k : Z, (k = 0 \/ (k = 1 /\ is_reset o = true)) /\
    fs_generation (file_step (Extend:=Extend) s o) = u64 (fs_generation s + k) /\
    (k = 0 -> log_grows s (file_step (Extend:=Extend) s o)).
Proof.
  intros (rs & st & Hl) [Ho Hno] Hg.
  assert (Hid : forall s', fs_generation s' = fs_generation s -> log_grows s s' ->
    exists k : Z, (k = 0 \/ (k = 1 /\ is_reset o = true)) /\
      fs_generation s' = u64 (fs_generation s + k) /\ (k = 0 -> log_grows s s')).
  { intros s' -> ?. exists 0. split_and!; [by left|rewrite Z.add_0_r; by rewrite wrap_small|done]. }
  destruct Hl as [(Hb & Hset & Hin)|(Hopen & _)].
  2:{ apply Hid; destruct o; cbn [file_step]; unfold fs_store, fs_next_seqnum, fs_reset, fs_reset_to, reset_store_to;
        rewrite ?Hopen; cbn [negb fst]; try done; try by destruct (reset_to_targets_valid a b).
      - unfold flush_for_session_close. destruct (_ && _); [done|]. by destruct (fe_sync e).
      - unfold flush_for_session_close. destruct (_ && _); [done|]. destruct (fe_sync e); [|done].
        intros Hv. split; [done|]. exists []. by rewrite app_nil_r. }
  assert (Hreset : forall e a b, is_u32 a -> is_u32 b -> is_reset o = true ->
    exists k : Z, (k = 0 \/ (k = 1 /\ is_reset o = true)) /\
      fs_generation (reset_store_to Extend e a b s).1 = u64 (fs_generation s + k) /\
      (k = 0 -> log_grows s (reset_store_to Extend e a b s).1)).
  { intros e a b Ha Hbb Hr. destruct (reset_store_to Extend e a b s) as [s' r] eqn:E. cbn [fst].
    pose proof (reset_store_spec rs st e a b s s' r Hb Ha Hbb E) as Hspec. destruct r as [u|x].
    - destruct Hspec as (_ & -> & _). exists 1. split_and!; [by right|done|done].
    - destruct Hspec as ((Hc & Hgs & _) & [Hb'|(_ & Hv & _)]).
      + apply Hid; [done|]. by eapply backed_grows_same.
      + apply Hid; [done|]. unfold log_grows. by rewrite Hv. }
  destruct o as [e n f d|e d inc|e|e a b|e|]; cbn [file_step is_reset] in *; [| | | | |done].
  - destruct Ho as [-> Hmax]. destruct (fs_store Extend e n f outbound s) as [s' r] eqn:E. cbn [fst].
    pose proof (fs_store_spec rs st e n f outbound s s' r Hb Hset Hmax E) as Hr. destruct r as [u|x].
    + destruct Hr as (_ & _ & Hc & Hgs & _ & _ & st' & _ & Hb'). apply Hid; [done|]. by eapply backed_grows.
    + destruct Hr as ((Hc & Hgs & _) & [Hb'|(_ & _ & _ & i & st' & _ & Hleft)]); (apply Hid; [done|]);
        [by eapply backed_grows_same|by eapply left_grows].
  - destruct (fs_next_seqnum Extend e d inc s) as [s' r] eqn:E. cbn [fst].
    destruct (fs_next_seqnum_spec rs st e d inc s s' r Hb E) as (Hc & Hgs & _ & Hr). apply Hid; [done|].
    destruct r as [n|x].
    + destruct Hr as (_ & _ & Hr). destruct inc; [|by subst s'].
      destruct Hr as (_ & _ & st' & _ & Hb'). by eapply backed_grows.
    + destruct Hr as (_ & [Hb'|(_ & _ & i & st' & _ & Hleft)]); [by eapply backed_grows_same|by eapply left_grows].
  - apply Hreset; done.
  - unfold fs_reset_to. destruct (reset_to_targets_valid a b) eqn:Ev; cbn [negb fst]; [|by apply Hid].
    apply targets_valid in Ev. apply Hreset; unfold is_u32; lia || done.
  - destruct (flush_for_session_close e s) as [s' r] eqn:E. cbn [fst].
    destruct (flush_spec rs st e s s' r Hb E) as ((Hc & Hgs & _) & Hb' & _). apply Hid; [done|].
    by eapply backed_grows_same.
Qed.

Lemma run_keeps ops s : living (Extend:=Extend) s -> Forall visitor_op ops -> 0 <= fs_generation s < 2 ^ 64 ->
  exists k : Z, 0 <= k <= reset_count ops /\
    fs_generation (run_file (Extend:=Extend) ops s) = u64 (fs_generation s + k) /\
    (k = 0 -> log_grows s (run_file (Extend:=Extend) ops s)) /\
    living (Extend:=Extend) (run_file (Extend:=Extend) ops s).
Proof.
  unfold run_file, reset_count. revert s. induction ops as [|o ops IH]; intros s Hs Hops Hg; cbn [fold_left List.filter].
  { exists 0. rewrite Z.add_0_r, wrap_small by done. split_and!; [done|done|done|done|done]. }
  inversion Hops as [|? ? Ho Hops']; subst.
  destruct (step_keeps s o Hs Ho Hg) as (k1 & Hk1 & Hg1 & Hl1).
  assert (Hs1 := step_living crc_range s o Hs (proj1 Ho)).
  destruct (IH _ Hs1 Hops') as (k & Hk & Hg2 & Hl2 & Hliv); [rewrite Hg1; apply wrap_range; lia|].
  exists (k1 + k). split_and!; [..|done].
  - lia.
  - destruct Hk1 as [->|[-> ->]]; [destruct (is_reset o); rewrite ?zlen_cons; lia|rewrite zlen_cons; lia].
  - rewrite Hg2, Hg1. unfold u64, wrap. rewrite Zplus_mod_idemp_l. f_equal. lia.
  - intros Hz. etrans; [apply Hl1; lia|apply Hl2; lia].
Qed.

End Kept.

(** ** The walk *)

Lemma file_entry_reach log front rest n : increasing (entry_frame log <$> front :: rest) -> ie_seq front <= n ->
  match (front :: rest) !! Z.to_nat (n - ie_seq front) with
  | Some ie => if ie_seq ie =? n
      then stored_frame (entry_frame log <$> front :: rest) n = Some (entry_frame log ie).2 /\
           in_reach (entry_frame log <$> front :: rest) n
      else ~ in_reach (entry_frame log <$> front :: rest) n
  | None => ~ in_reach (entry_frame log <$> front :: rest) n
  end.
Proof.
  intros Hi Hn. pose proof (reach_position (map (entry_frame log) rest) (entry_frame log front) n Hi Hn) as H.
  change (entry_frame log front :: map (entry_frame log) rest) with (entry_frame log <$> front :: rest) in H.
  rewrite list_lookup_fmap in H. cbn [fst entry_frame] in H.
  by destruct ((front :: rest) !! Z.to_nat (n - ie_seq front)).
Qed.

Lemma ascending_increasing log idx : ascending idx -> increasing (entry_frame log <$> idx).
Proof.
  intros H. unfold increasing. induction H as [|ie idx _ IH Hf]; cbn; constructor; [done|].
  apply Forall_fmap. eapply Forall_impl; [exact Hf|]. done.
Qed.

(** The copy takes the entries of the walk's frames. *)
Lemma fs_snapshot_walk log idx tail fuel n snap :
  ascending idx -> 0 <= n -> tail < seqnum_max -> (0 < fuel)%nat ->
  (forall front rest, idx = front :: rest ->
     n < ie_seq front \/ zlen idx - (n - ie_seq front) < Z.of_nat fuel) ->
  exists more gap, fs_snapshot_loop fuel idx n tail snap = Some (snap ++ more, gap) /\
    Forall (fun ie => ie ∈ idx) more /\
    walked (entry_frame log <$> idx) n tail (entry_frame log <$> more) gap.
Proof.
  intros Hasc Hn0 Htail. apply (ascending_increasing log) in Hasc. revert n Hn0 snap.
  induction fuel as [|fuel IH]; intros n Hn0 snap Hf Hfuel; [lia|].
  cbn [fs_snapshot_loop]. destruct (tail <? n) eqn:Ht.
  { exists [], false. rewrite app_nil_r. split_and!; [done|done|]. apply walked_nil. lia. }
  assert (Hstop : ~ in_reach (entry_frame log <$> idx) n -> exists more gap,
    Some (snap, true) = Some (snap ++ more, gap) /\ Forall (fun ie => ie ∈ idx) more /\
    walked (entry_frame log <$> idx) n tail (entry_frame log <$> more) gap).
  { intros Hno. exists [], true. rewrite app_nil_r. split_and!; [done|done|]. apply walked_nil. split; [lia|done]. }
  destruct idx as [|front rest]; [apply Hstop; cbn; tauto|].
  destruct (n <? ie_seq front) eqn:Elt; [apply Hstop; cbn; lia|].
  pose proof (file_entry_reach log front rest n Hasc ltac:(lia)) as Hreach.
  destruct ((front :: rest) !! Z.to_nat (n - ie_seq front)) as [ie|] eqn:Ee; [|by apply Hstop].
  destruct (ie_seq ie =? n) eqn:Eq; cbn [negb]; [|by apply Hstop]. clear Hstop. destruct Hreach as [Hst Hin].
  apply Z.eqb_eq in Eq. rewrite wrap_small by (unfold seqnum_max, UINT32_MAX in *; lia).
  apply lookup_lt_Some in Ee as Hlt. pose proof (Hfuel front rest eq_refl) as Hfu. unfold zlen in *.
  destruct (IH (n + 1) ltac:(lia) (snap ++ [ie])) as (more & gap & Hl & Hi & Hw).
  - lia.
  - intros fr rs [= <- <-]. right. lia.
  - exists (ie :: more), gap. rewrite Hl, <- app_assoc. split_and!; [done| |].
    + constructor; [by eapply list_elem_of_lookup_2|done].
    + change (entry_frame log <$> ie :: more) with (entry_frame log ie :: (entry_frame log <$> more)).
      replace (entry_frame log ie) with (n, (entry_frame log ie).2) by (unfold entry_frame; cbn; by rewrite Eq).
      apply walked_cons; [lia|done|done|done].
Qed.

(** What the reads do to the frame of an index entry: bring it whole, or not. *)
Definition frame_read (rd : Z -> list os_step) (log : bytes) (ie : IndexEntry) : (seqnum_t * bytes) * bool :=
  (entry_frame log ie, reads_through (rd (ie_file_offset ie + kHeaderSize)) (ie_len ie)).

Section Exact.
Context {Extend : Z -> bytes -> Z} {V : Type}.
Hypothesis crc_range : forall c d, is_u32 (Extend c d).
Variable on_frame : V -> seqnum_t -> bytes -> FileStore -> V * FileStore * visit_outcome.
Variable abort_error : V -> error.

(** A visitor works on the store through its operations only. *)
Hypothesis honest : forall v n f s, exists ops,
  Forall visitor_op ops /\ reset_count ops < 2 ^ 64 /\
  (on_frame v n f s).1.2 = run_file (Extend:=Extend) ops s.

(** The walk over frames: each is shown whole, as long as its bytes can be read and the store
    has not been reset, or lost its file, since the walk began. *)
Fixpoint visit_frames_of (frames : list ((seqnum_t * bytes) * bool)) (g0 : Z) (gap_hit : bool)
    (v : V) (s : FileStore) : V * FileStore * result error unit :=
  match frames with
  | [] => (v, s, if gap_hit then Err store_seqnum_gap else Ok tt)
  | (p, readable) :: frames =>
      if negb (fs_generation s =? g0) || negb (fs_valid s) || negb readable then (v, s, Err store_io_failure)
      else
        match on_frame v p.1 p.2 s with
        | (v, s, Threw) => (v, s, Err store_visitor_aborted)
        | (v, s, Failed x) => (v, s, Err x)
        | (v, s, Visited cont) => visit_frames_of frames g0 gap_hit v s
        | (v, s, Visited stop) => (v, s, Ok tt)
        | (v, s, Visited abort) => (v, s, Err (abort_error v))
        end
  end.

Lemma visits_of rd log g0 snap gap v s :
  Forall (fun ie => 0 <= ie_file_offset ie /\ 0 <= ie_len ie /\
                    ie_file_offset ie + 16 + ie_len ie <= zlen log) snap ->
  living (Extend:=Extend) s -> 0 <= fs_generation s < 2 ^ 64 ->
  (fs_generation s = g0 -> fs_valid s = true -> exists x, dk_log (fs_disk s) = log ++ x) ->
  fs_visit on_frame abort_error rd snap g0 gap v s
    = visit_frames_of (frame_read rd log <$> snap) g0 gap v s.
Proof.
  intros Hsnap. revert v s. induction Hsnap as [|ie snap Hie _ IH]; intros v s Hs Hg Hlog;
    [done|]. cbn [fs_visit visit_frames_of fmap list_fmap]. unfold frame_read at 1. cbn iota.
  destruct (fs_generation s =? g0) eqn:Eg; cbn [negb orb]; [|done]. apply Z.eqb_eq in Eg.
  unfold read_frame_payload. destruct (fs_valid s) eqn:Ev; cbn [negb orb]; [|done].
  destruct (Hlog Eg eq_refl) as [x Hx]. rewrite Hx. unfold kHeaderSize. pose proof (zlen_nonneg x).
  rewrite read_exact_through by (rewrite ?zlen_app; lia).
  destruct (reads_through _ _); cbn [negb]; [|done]. rewrite zsub_app_l by lia.
  change (fst (entry_frame log ie)) with (ie_seq ie).
  change (snd (entry_frame log ie)) with (zsub log (ie_file_offset ie + 16) (ie_len ie)).
  destruct (honest v (ie_seq ie) (zsub log (ie_file_offset ie + 16) (ie_len ie)) s) as (ops & Hops & Hcnt & Hrun).
  destruct (on_frame _ _ _ s) as [[v' s'] []]; cbn [fst snd] in Hrun; subst s'; [done|done|].
  destruct (run_keeps crc_range ops s Hs Hops Hg) as (k & Hk & Hg' & Hgrow & Hliv).
  destruct r; [|done|done]. apply IH; [done|rewrite Hg'; apply wrap_range; lia|].
  intros Hgg Hvv. rewrite Hg', <- Eg in Hgg.
  assert (k = 0) as -> by (unfold u64, wrap in Hgg; dlia).
  destruct (Hgrow eq_refl Hvv) as (_ & y & Hy). exists (x ++ y). by rewrite Hy, Hx, app_assoc.
Qed.

End Exact.

(** Why a walk is refused before it shows anything. *)
Definition refused_file_walk (locked : bool) (reserves : Z -> bool) (open_ok : bool) (begin end_ tail : seqnum_t)
    (r : result failure unit) : Prop :=
  (open_ok = false /\ r = Err (Returned store_io_failure)) \/
  (open_ok = true /\
    ((begin = 0 /\ r = Err (Returned store_seqnum_invalid)) \/
     (0 < end_ < begin /\ r = Err (Returned store_invalid_range)) \/
     (1 <= begin /\ ~ 0 < end_ < begin /\ locked = false /\ r = Err (Returned store_cancelled)) \/
     (1 <= begin <= tail /\ reserves (tail - begin + 1) = false /\ r = Err (Thrown bad_alloc)))).

(** ** Properties *)

(** C23: A walk over the file store hands its visitor exactly the frames held, when it began,
    under [begin], [begin + 1] and so on, up to the end of the range or to the first number
    that is out of reach, which is then reported as a gap; and this whatever the visitor does
    to the store, faults included, while it is suspended.  A number is in reach when it and
    every number from the oldest frame held up to it has a frame.  A frame is shown whole or
    not at all: where the system does not bring all its bytes the walk fails before it, with
    [store_io_failure].  A reset in between, done or half done, fails the walk before its next
    frame.  A walk that is refused, for a store that is shut, its range, its lock or its
    memory, shows nothing.  Every walk ends.  The store is one a session works with, its
    counter is not 0, and the range ends below the last number of all. *)
Theorem file_retrieve_exact {V} (Extend : Z -> bytes -> Z) (on_frame : V -> seqnum_t -> bytes ->
      FileStore -> V * FileStore * visit_outcome) (abort_error : V -> error) (locked : bool)
    (reserves : Z -> bool) (rd : Z -> list os_step)
    (begin end_ : seqnum_t) (d : direction_t) (v : V) (s : FileStore) :
  (forall crc d, is_u32 (Extend crc d)) ->
  (forall v n f s, exists ops, Forall visitor_op ops /\ reset_count ops < 2 ^ 64 /\
     (on_frame v n f s).1.2 = run_file (Extend:=Extend) ops s) ->
  living (Extend:=Extend) s -> 0 <= fs_generation s < 2 ^ 64 ->
  1 <= fs_next d s <= seqnum_max -> 0 <= begin -> 0 <= end_ < seqnum_max ->
  let tail := if end_ =? 0 then fs_next d s - 1 else end_ in
  exists v' s' r, fs_retrieve on_frame abort_error locked reserves rd begin end_ d v s = Some (v', s', r) /\
  ((v' = v /\ s' = s /\ refused_file_walk locked reserves (fs_open_ok s) begin end_ tail r) \/
   (fs_open_ok s = true /\ locked = true /\ 1 <= begin /\ exists snap gap_hit r0,
     Forall (fun ie => ie ∈ fs_index d s) snap /\
     walked (view s d) begin tail (entry_frame (dk_log (fs_disk s)) <$> snap) gap_hit /\
     visit_frames_of on_frame abort_error (frame_read rd (dk_log (fs_disk s)) <$> snap)
       (fs_generation s) gap_hit v s = (v', s', r0) /\ r = replied r0)).
Proof.
  intros Hcrc Hh Hs Hg Hn1 Hb He tail. unfold fs_retrieve, refused_file_walk.
  destruct (fs_open_ok s) eqn:Ho; cbn [negb].
  2:{ do 3 eexists. split; [done|]. left. split_and!; [done|done|by left]. }
  destruct (begin =? 0) eqn:Eb.
  { do 3 eexists. split; [done|]. left. split_and!; [done|done|right; split; [done|left; split; [lia|done]]]. }
  destruct (negb (end_ =? 0) && (end_ <? begin)) eqn:Er.
  { do 3 eexists. split; [done|]. left. split_and!; [done|done|right; split; [done|right; left; split; [lia|done]]]. }
  destruct locked; cbn [negb].
  2:{ do 3 eexists. split; [done|]. left. split_and!; [done|done|right; split; [done|]].
      right; right; left. split_and!; [lia|lia|done|done]. }
  set (t := if end_ =? 0 then _ else _).
  assert (Ht : t = tail).
  { unfold t, tail, seqnum_min, seqnum_max, UINT32_MAX in *.
    destruct (end_ =? 0); [|done]. destruct (fs_next d s =? 1) eqn:E; [lia|]. apply wrap_small. lia. }
  rewrite Ht. assert (Htail : tail < seqnum_max) by (unfold tail; destruct (end_ =? 0); lia).
  clearbody t tail. clear t Ht.
  destruct ((tail <? begin) || _) eqn:Ee.
  { do 3 eexists. split; [done|]. right. split_and!; [done|done|lia|]. exists [], false, (Ok tt).
    split_and!; [done| |done|done]. apply walked_nil. unfold seqnum_min in Ee. lia. }
  replace (u32 (tail - begin + 1)) with (tail - begin + 1)
    by (symmetry; apply wrap_small; unfold seqnum_max, UINT32_MAX in *; lia).
  destruct (reserves (tail - begin + 1)) eqn:Ea; cbn [negb].
  2:{ do 3 eexists. split; [done|]. left. split_and!; [done|done|right; split; [done|]].
      right; right; right. split_and!; [lia|lia|done|done]. }
  destruct Hs as (rs & st & [(Hbk & Hal)|Hwd]); [|by rewrite (proj1 Hwd) in Ho].
  destruct (sound_wf _ _ _ (proj1 Hbk)) as [_ Hwf]. destruct (Hwf d) as [Hasc Hwd].
  pose proof Hbk as (Hsl & _ & _ & _ & El & _ & Hd). destruct (Hd d) as (Ei & _).
  set (log := dk_log (fs_disk s)).
  destruct (fs_snapshot_walk log (fs_index d s) tail (S (S (length (fs_index d s)))) begin [])
    as (snap & gap & Hl & Hin & Hw); [by rewrite Ei|lia|lia|lia| |].
  { intros front rest _. destruct (Z.lt_ge_cases begin (ie_seq front)); [by left|right]. unfold zlen. lia. }
  rewrite Hl. cbn [app].
  assert (Hvis : fs_visit on_frame abort_error rd snap (fs_generation s) gap v s
      = visit_frames_of on_frame abort_error (frame_read rd log <$> snap) (fs_generation s) gap v s).
  { apply (visits_of Hcrc on_frame abort_error Hh); [|by exists rs, st; left|done|].
    - eapply Forall_impl; [exact Hin|]. cbn beta. intros ie Hie. rewrite Ei in Hie.
      eapply (proj1 (Forall_forall _ _) Hwd) in Hie. unfold entry_within in Hie.
      unfold log. rewrite El, (sound_pos _ _ _ Hsl). lia.
    - intros _ _. exists []. by rewrite app_nil_r. }
  rewrite Hvis. destruct (visit_frames_of _ _ _ _ _ _ _) as [[v' s'] r] eqn:Ev.
  exists v', s', (replied r). split; [done|]. right. split_and!; [done|done|lia|].
  exists snap, gap, r. split_and!; [exact Hin|exact Hw|exact Ev|done].
Qed.

(** A visitor that notes what it is shown and, while it is suspended, stores a frame on a
    disk that tears it. *)
Definition noting_visitor (v : list (seqnum_t * bytes)) (n : seqnum_t) (f : bytes) (s : FileStore)
  : list (seqnum_t * bytes) * FileStore * visit_outcome :=
  (v ++ [(n, f)], run_file (Extend:=sum_crc) [FStore torn_env 3 [9] outbound] s, Visited cont).

Lemma noting_visitor_honest v n f s : exists ops,
  Forall visitor_op ops /\ reset_count ops < 2 ^ 64 /\
  (noting_visitor v n f s).1.2 = run_file (Extend:=sum_crc) ops s.
Proof.
  exists [FStore torn_env 3 [9] outbound]. split; [|split; [done|reflexivity]].
  repeat constructor. unfold seqnum_max, UINT32_MAX. discriminate.
Qed.

Definition two_frames : FileStore :=
  run_file (Extend:=sum_crc) [FStore file_quiet 1 [72; 73] outbound; FStore file_quiet 2 [74] outbound]
    sample_file_store.

Lemma two_frames_living : living (Extend:=sum_crc) two_frames.
Proof.
  apply (run_living sum_crc_range); [exact sample_living|].
  repeat constructor; unfold seqnum_max, UINT32_MAX; discriminate.
Qed.

Lemma file_retrieve_exact_witness :
  exists s', fs_retrieve noting_visitor (fun _ => default_abort_error) true (fun _ => true) (fun _ => []) 1 0
      outbound [] two_frames
    = Some ([(1, [72; 73]); (2, [74])], s', Ok tt) /\ fs_open_ok s' = false.
Proof.
  destruct (file_retrieve_exact sum_crc noting_visitor (fun _ => default_abort_error) true (fun _ => true)
    (fun _ => []) 1 0 outbound []
    two_frames sum_crc_range noting_visitor_honest two_frames_living) as (v' & s' & r & Hr & _).
  - split; [vm_compute; discriminate|vm_compute; reflexivity].
  - split; vm_compute; discriminate.
  - lia.
  - unfold seqnum_max, UINT32_MAX. lia.
  - exists s'. assert (He : match fs_retrieve noting_visitor (fun _ => default_abort_error) true (fun _ => true)
        (fun _ => []) 1 0 outbound [] two_frames with
      | Some (v, s, r) => v = [(1, [72; 73]); (2, [74])] /\ r = Ok tt /\ fs_open_ok s = false
      | None => False end) by (vm_compute; repeat split).
    rewrite Hr in He. destruct He as (-> & -> & Ho). split; [exact Hr|exact Ho].
Defined.

(** A frame held under its own number, and reported as a gap: the counter was moved once
    without a frame. *)
Theorem skipped_number_hides_file_frame :
  let s := run_file (Extend:=sum_crc) [FStore file_quiet 1 [65] inbound; FNext file_quiet inbound true;
             FStore file_quiet 3 [67] inbound] sample_file_store in
  stored_frame (view s inbound) 3 = Some [67] /\
  match fs_retrieve noting_visitor (fun _ => default_abort_error) true (fun _ => true) (fun _ => []) 3 3 inbound [] s with
  | Some (shown, _, r) => shown = [] /\ r = Err (Returned store_seqnum_gap)
  | None => False
  end.
Proof. vm_compute. repeat split. Qed.
